(* ===== verification/_CoqProject ===== *)
-Q . S2P
Prelude.v
StateM.v
Klist.v
Timeout.v
Bitmap.v
PageAlloc.v
Spin.v
Sched.v
Mutex.v
Task.v
Mailbox.v
Kernel.v
Timer.v
CLib.v
Strtol.v
CTime.v
Store.v
Bytes.v
Buf.v
Ext2Base.v
Ext2Alloc.v
Ext2Inode.v
Ext2Dir.v
Ext2DirOps.v
InodeCache.v
Ext2Image.v
VmArch.v
ObjectPool.v
Vm.v
ArmVm.v
VmSpace.v
VmImage.v
Pipe.v
PipeConn.v
Request.v
Ipc.v
Fd.v
Process.v
Signals.v
ProcessInv.v
ProcessTable.v
Tty.v
Screen.v
