(* ===== verification/Prelude.v ===== *)
(** * Argentum: a verification of the kernel

    Argentum is a small UNIX-like operating system for ARM and x86.  This
    library models the machine-independent parts of its kernel, the ARM page
    tables and signal frames, and proves that they do what their callers rely
    on.  Paths below are relative to src/.

    ** The program and its model

    The kernel is layered, and so are the files.  Each layer is translated
    function by function, with the names of the source, and the next layer uses
    its definitions or an interface it discharges.

    - The core (kernel/core): lists, timeouts, spinlocks, the scheduler,
      mutexes, semaphores, condition variables, mailboxes, wait queues, ticks
      and timers.  Klist.v: list.h over a heap of links, refined by Rocq lists,
      which the other files use.  Timeout.v: timeout.c.  Spin.v: spinlock.c,
      irq.c and cpu.c for any number of CPUs.  Sched.v, Mutex.v, Task.v:
      sched.c, mutex.c, task.c.  Mailbox.v: the ring of mailbox.c.  Kernel.v:
      all of it as one transition system, with semaphore.c, condvar.c and
      waitqueue.c, where a step is one critical section and a task that sleeps
      has a continuation.  Timer.v: timer.c and tick.c.
    - Memory (kernel/mm, kernel/process/vmspace.c).  Bitmap.v and PageAlloc.v:
      the buddy allocator page.c.  ObjectPool.v: the slab allocator
      object_pool.c on top of it.  VmArch.v: the interface [ArchVm]/[ArchLaws]
      between vm.c and the machine, discharged by ArmVm.v
      (kernel/arch/arm/mm/arch_vm.c).  Vm.v: vm.c, with copy-on-write.
      VmSpace.v: address spaces, vmspace.c.  VmImage.v: a concrete machine.
    - The C library of the kernel (kernel/lib).  CLib.v: memory and strings.
      Strtol.v: strtol.c and atoi.c.  CTime.v: gmtime.c and mktime.c.
    - Storage (kernel/fs).  Store.v: the interface [BlockOps]/[BlockLaws] of a
      block store, discharged by Buf.v, the buffer cache buf.c over devices that
      are bytes, addressed as drivers/sd/sd.c does.  Bytes.v: fields
      and bits in a block.  Ext2Base.v, Ext2Alloc.v, Ext2Inode.v: the ext2 file
      system against that interface (ext2.c, ext2_bitmap.c, ext2_block_alloc.c,
      ext2_inode_alloc.c, ext2_inode.c).  Ext2Dir.v: directories on the bytes
      of a file (ext2.c); Ext2DirOps.v: their removal and listing (ext2.c and
      do_readdir of service.c).  Ext2Image.v: a concrete image.  InodeCache.v:
      the inode cache, inode.c, over file systems of which nothing is assumed.
    - Messages (kernel/ipc, kernel/pipe.c).  Request.v: the vectors of a request
      over address spaces.  Ipc.v: the life of requests between clients and
      services.  Pipe.v, PipeConn.v: pipes as a service, and their opening and
      closing.
    - Processes (kernel/process).  Fd.v: file descriptors, fd.c.  Process.v: the
      operations of process.c, signal.c and arch/arm/process/arch_signal.c.
      Signals.v, ProcessInv.v, ProcessTable.v: the invariant of the process
      table and the theorems about it.
    - Terminals (kernel/tty.c, kernel/drivers/console/screen.c,
      kernel/drivers/framebuffer.c).  Tty.v: the line discipline and the calls of
      the terminal device.  Screen.v: the cells, the cursor and the escape
      sequences of a screen, the cells that a display reads and its cursor.

    Prelude.v and StateM.v hold what all share: outcomes with panics, the state
    monads with their weakest preconditions, machine words, automation.

    ** State and operations

    A structure of the source is a Record with its fields, a pointer the name
    (a number) of an object in a finite map, an intrusive list the list of its
    members.  Integers are Z, with the wrap-around of their width written out
    where the source can reach it ([u32]).  A function that changes state maps a
    state to an [outcome]: [Ok] with the result and the new state, or [Panic]
    with the message of the failed k_assert or k_panic; a NULL dereference or an
    access outside an array is such a panic too.  What runs under one lock is
    one step; code that sleeps or gives up its lock is split there, and the
    theorems about concurrency quantify over the interleavings of the pieces.
    What the model does not contain (whether an allocation succeeds, the time,
    the machine instructions) is an argument.

    ** What the theorems show

    - The core: no run of any number of CPUs and tasks reaches an unexpected
      assertion, tasks are where their state says, the most urgent ready task
      runs, owners inherit the priority of those who wait, timeouts of wakeable
      sleeps and timers expire on time, spinlocks exclude, mailboxes are queues (Kernel, Sched,
      Mutex, Timer, Spin, Mailbox, Klist, Timeout).
    - Memory: blocks of pages and of the heap never overlap, freeing restores
      them, reference counts are exact, a fork isolates parent and child, copies
      arrive, checks of user buffers agree with the page tables (PageAlloc,
      ObjectPool, Vm, VmSpace).
    - Storage: for blocks that do not overlap on the device the cache is coherent
      under every interleaving and to one task a plain map of blocks; the bitmaps and counts of ext2 stay exact; the block
      map of a file grows by exactly the block asked for; what is written is
      read back; a directory is a finite map from names to inode numbers, its
      removal and listing agree with the map; the inode cache has one slot for
      an inode, exact counts, and shows what it has last read from or written to
      the file system (Buf, Ext2Alloc, Ext2Inode, Ext2Dir, Ext2DirOps,
      InodeCache).
    - Messages: no request is used after it was freed, each client gets the
      result of its request, somebody can go on unless the handlers sleep; the
      bytes of a request arrive at its addresses; a pipe is a queue of
      bytes under every interleaving (Ipc, Request, Pipe, PipeConn).
    - Processes: under every sequence of system calls in which init does not end
      and no fork is given a thread that was freed with signals queued, pids are
      unique, the pid table is exact, the family tree is consistent and no signal
      object is in two queues; the panics that a program can cause are listed,
      and the one call that keeps the lock (sigreturn without a frame); wait returns what exit was given; a signal handler returns
      to where it was entered; reference counts of connections are exact
      (ProcessTable, Fd).
    - Terminals: the input buffers never overflow, a line is edited and read as
      a whole and always finds its end (Tty).  A screen takes every sequence of
      characters that are safe where they come, all text in particular when it
      is smaller than its array, without an access outside the array, and
      text that fits is stored and drawn where the cursor was (Screen).

    Where the code does not do what it means to, a theorem says what it does
    instead.

    ** Bounds and fuel

    Loops that are not structural take fuel, and running out of it is a panic,
    so that a theorem that excludes panics, or lists them, proves termination.
    The fuel is always a bound on the number of rounds that the state gives: the
    length of the list walked, the number of bytes left to copy (plus one), the
    size of a directory (an entry has at least eight bytes), the
    number of mapped bytes for C strings, the depth of a tree of blocks (three),
    the number of priorities (32), two for the mutual recursion of signal
    generation (a parent is told of its child once and tells nobody).
    Machine words have 32 bits.  The theorem about directories holds below
    64 KB, where record lengths cannot wrap, and asks for sixteen free blocks
    for each operation: two entries written, each on at most two blocks four
    levels deep.  Concrete images are small (128 blocks of ext2,
    4 MiB of memory, two processes); the theorems do not depend on their sizes.

    ** Not modelled

    - The network: kernel/net and the lwIP stack under it are a third-party
      library with a thin layer of glue.
    - Device drivers (but for the addresses of the SD card and the cells the
      displays read), interrupt controllers, the boot and trap code (kernel/drivers, kernel/arch, kernel/interrupt.c,
      kernel/main.c, kernel/hooks.c, kernel/time.c): they are reads and writes
      of device registers, assembly, and calls of the modelled parts in order.
      Of the architectures only the page tables and signal frames of ARM are
      modelled.
    - The file-system service above ext2: path lookup, the mount table, devfs
      and the dispatch of requests (kernel/fs/path.c, fs.c, devfs.c, service.c),
      the creation of inodes in ext2.c, and the loading of programs
      (kernel/process/exec.c).
    - The system-call layer (kernel/syscall.c) fetches arguments and calls the
      modelled functions.  Debugging aids (kdebug.c, monitor.c, printf) print.
    - The interval timers of processes and the memory they occupy.
    - The C library and programs of user space (lib, user), and the patches to
      third-party programs (ports, tools). *)

From Stdlib Require Export ZArith Lia.
From stdpp Require Export base tactics numbers list gmap strings sorting.

(** ** Outcomes

    Kernel code either returns or stops the machine through [k_panic] /
    a failed [k_assert] (the macro of kernel/core/assert.h, active because no
    build file defines NDEBUG).  The message is kept so that theorems can say
    which check fired. *)

Inductive outcome (A : Type) : Type :=
| Ok (a : A)
| Panic (why : string).
Arguments Ok {A} a.
Arguments Panic {A} why%_string_scope.

#[export] Instance outcome_ret : MRet outcome := @Ok.
#[export] Instance outcome_bind : MBind outcome := λ A B f m,
  match m with Ok a => f a | Panic w => Panic w end.
#[export] Instance outcome_fmap : FMap outcome := λ A B f m,
  match m with Ok a => Ok (f a) | Panic w => Panic w end.

Definition k_assert (b : bool) (why : string) : outcome unit :=
  if b then Ok tt else Panic why.

Definition is_panic {A} (o : outcome A) : bool :=
  match o with Ok _ => false | Panic _ => true end.

(** The value of a computation that cannot be discarded silently: a pointer
    that is dereferenced, an array cell that is read. *)
Definition deref {A} (o : option A) (why : string) : outcome A :=
  match o with Some a => Ok a | None => Panic why end.

(** ** Machine integers *)

Definition u32 (z : Z) : Z := (z mod 2 ^ 32)%Z.

Lemma u32_small (z : Z) : (0 ≤ z < 2 ^ 32)%Z → u32 z = z.
Proof. intros. unfold u32. by apply Z.mod_small. Qed.

Definition u16 (z : Z) : Z := (z mod 2 ^ 16)%Z.
Definition in_i32 (z : Z) : bool := ((- 2 ^ 31 <=? z) && (z <? 2 ^ 31))%Z.

(** ** Error numbers of the C library (sys/errno.h of newlib) *)

Definition ENOENT : Z := 2.
Definition EINTR : Z := 4.
Definition EBADF : Z := 9.
Definition EAGAIN : Z := 11.
Definition ENOMEM : Z := 12.
Definition EFAULT : Z := 14.
Definition EBUSY : Z := 16.
Definition EINVAL : Z := 22.
Definition EMFILE : Z := 24.
Definition ENOSPC : Z := 28.
Definition EDEADLK : Z := 45.
Definition ETIMEDOUT : Z := 116.

(** ** Tactics and hints *)

Create HintDb argentum.

(** Destruct the scrutinee of the innermost match or if of the goal. *)
Ltac case_goal :=
  match goal with
  | |- context [match ?x with _ => _ end] =>
      lazymatch x with
      | context [match _ with _ => _ end] => fail
      | _ => destruct x eqn:?
      end
  end.

(** Turn boolean comparisons into propositions. *)
Ltac bool_to_prop :=
  repeat match goal with
  | H : (_ && _) = true |- _ => apply andb_true_iff in H as [? ?]
  | H : (_ || _) = false |- _ => apply orb_false_iff in H as [? ?]
  | H : negb _ = true |- _ => apply negb_true_iff in H
  | H : negb _ = false |- _ => apply negb_false_iff in H
  | H : (_ <? _)%Z = true |- _ => apply Z.ltb_lt in H
  | H : (_ <? _)%Z = false |- _ => apply Z.ltb_ge in H
  | H : (_ <=? _)%Z = true |- _ => apply Z.leb_le in H
  | H : (_ <=? _)%Z = false |- _ => apply Z.leb_gt in H
  | H : (_ =? _)%Z = true |- _ => apply Z.eqb_eq in H
  | H : (_ =? _)%Z = false |- _ => apply Z.eqb_neq in H
  | H : bool_decide _ = true |- _ => apply bool_decide_eq_true in H
  | H : bool_decide _ = false |- _ => apply bool_decide_eq_false in H
  end.

(** Invert a chain of binds in [outcome] that is known to have succeeded. *)
Lemma bind_Ok {A B} (f : A → outcome B) (m : outcome A) (b : B) :
  (m ≫= f) = Ok b → ∃ a, m = Ok a ∧ f a = Ok b.
Proof. destruct m; naive_solver. Qed.

Lemma k_assert_Ok b why u : k_assert b why = Ok u → b = true.
Proof. by destruct b. Qed.

Ltac inv_ok :=
  repeat match goal with
  | H : (_ ≫= _) = Ok _ |- _ => apply bind_Ok in H as (? & ? & H); simpl in H
  | H : k_assert _ _ = Ok _ |- _ => apply k_assert_Ok in H
  | H : mret _ = Ok _ |- _ => injection H as H
  | H : Ok _ = Ok _ |- _ => injection H as H
  | H : Panic _ = Ok _ |- _ => discriminate H
  | u : unit |- _ => destruct u
  end.

(** ** Weakest preconditions

    [wp m E Q]: [m] returns a value that satisfies [Q], or stops with one of
    the messages in [E]. *)

Definition wp {A} (m : outcome A) (E : string → Prop) (Q : A → Prop) : Prop :=
  match m with Ok a => Q a | Panic w => E w end.

Definition no_panic : string → Prop := λ _, False.

Lemma wp_bind {A B} (m : outcome A) (f : A → outcome B) E Q :
  wp m E (λ a, wp (f a) E Q) → wp (m ≫= f) E Q.
Proof. by destruct m. Qed.

Lemma wp_mono {A} (m : outcome A) (E E' : string → Prop) (Q Q' : A → Prop) :
  wp m E Q → (∀ w, E w → E' w) → (∀ a, Q a → Q' a) → wp m E' Q'.
Proof. destruct m; simpl; auto. Qed.

Lemma wp_assert b why E Q : (b = false → E why) → (b = true → Q tt) → wp (k_assert b why) E Q.
Proof. destruct b; simpl; auto. Qed.

Lemma wp_deref {A} (o : option A) why E Q :
  (o = None → E why) → (∀ a, o = Some a → Q a) → wp (deref o why) E Q.
Proof. destruct o; simpl; auto. Qed.

Lemma wp_no_panic {A} (m : outcome A) Q : wp m no_panic Q → ∃ a, m = Ok a ∧ Q a.
Proof. destruct m; simpl; [eauto|done]. Qed.

Lemma wp_Ok {A} (m : outcome A) E Q a : wp m E Q → m = Ok a → Q a.
Proof. by intros H ->. Qed.

(** ** Lists *)

Section filter_facts.
Context {A : Type} (P : A → Prop) `{!∀ x, Decision (P x)}.
Implicit Types l : list A.

Lemma filter_all l : Forall P l → filter P l = l.
Proof. induction 1; [done|]. rewrite filter_cons_True by done. by f_equal. Qed.

Lemma filter_none l : Forall (λ x, ¬ P x) l → filter P l = [].
Proof. induction 1; [done|]. by rewrite filter_cons_False. Qed.
End filter_facts.

Section filter_ne.
Context `{EqDecision A}.
Implicit Types (x : A) (xs ys : list A).

Lemma filter_ne_notin x xs : x ∉ xs → filter (.≠ x) xs = xs.
Proof. intros H. apply filter_all, Forall_forall. intros y Hy ->. done. Qed.

Lemma filter_ne_split x xs ys :
  NoDup (xs ++ x :: ys) → filter (.≠ x) (xs ++ x :: ys) = xs ++ ys.
Proof.
  intros (? & Hx & [??]%NoDup_cons)%NoDup_app.
  rewrite filter_app, filter_cons_False by auto.
  rewrite !filter_ne_notin; [done|done|]. intros ?. eapply Hx; set_solver.
Qed.
Lemma filter_ne_length x xs : NoDup xs → x ∈ xs → S (length (filter (.≠ x) xs)) = length xs.
Proof.
  intros Hnd (ys & zs & ->)%list_elem_of_split.
  rewrite filter_ne_split by done. rewrite !length_app. simpl. lia.
Qed.
End filter_ne.

Lemma NoDup_fmap_fst_filter {A B} (P : A * B → Prop) `{!∀ x, Decision (P x)} (l : list (A * B)) :
  NoDup l.*1 → NoDup (filter P l).*1.
Proof.
  induction l as [|[a b] l IH]; csimpl; [done|]. intros [Hn Hnd]%NoDup_cons.
  rewrite filter_cons. case_decide; [|by apply IH]. csimpl. constructor; [|by apply IH].
  intros (z & -> & [_ Hz]%list_elem_of_filter)%list_elem_of_fmap. apply Hn, list_elem_of_fmap. eauto.
Qed.
