(* ===== verification/StateM.v ===== *)
(** State-passing kernel code: computations that read and write a state [W]
    and either return or stop the machine, with the weakest preconditions the
    components that use them share. *)

From S2P Require Import Prelude.

Definition sm (W A : Type) : Type := W → outcome (A * W).

#[export] Instance sm_ret {W} : MRet (sm W) := λ A a w, Ok (a, w).
#[export] Instance sm_bind {W} : MBind (sm W) := λ A B k m w,
  match m w with Ok (a, w') => k a w' | Panic why => Panic why end.

Section operations.
Context {W : Type}.

Definition stop {A} (why : string) : sm W A := λ _, Panic why.
Definition gets {A} (f : W → A) : sm W A := λ w, Ok (f w, w).
Definition modify (f : W → W) : sm W unit := λ w, Ok (tt, f w).
Definition run {A} (o : outcome A) : sm W A := λ w, match o with Ok a => Ok (a, w) | Panic why => Panic why end.
Definition check (b : bool) (why : string) : sm W unit := run (k_assert b why).
Definition need {A} (o : option A) (why : string) : sm W A := run (deref o why).
Definition when (b : bool) (m : sm W unit) : sm W unit := if b then m else mret tt.

End operations.

(** [swp m w E Q]: from [w], [m] returns a value and a state that satisfy [Q],
    or stops with one of the messages in [E]. *)
Definition swp {W A} (m : sm W A) (w : W) (E : string → Prop) (Q : A → W → Prop) : Prop :=
  match m w with Ok (a, w') => Q a w' | Panic why => E why end.

Section rules.
Context {W : Type} (E : string → Prop).
Implicit Types w : W.

Lemma swp_ret {A} (a : A) w Q : Q a w → swp (mret a : sm W A) w E Q.
Proof. done. Qed.

Lemma swp_bind {A B} (m : sm W A) (k : A → sm W B) w Q :
  swp m w E (λ a w', swp (k a) w' E Q) → swp (m ≫= k) w E Q.
Proof. unfold swp, mbind, sm_bind. by destruct (m w) as [[a w']|]. Qed.

Lemma swp_mono {A} (m : sm W A) w Q Q' : swp m w E Q → (∀ a w', Q a w' → Q' a w') → swp m w E Q'.
Proof. unfold swp. destruct (m w) as [[a w']|]; auto. Qed.

Lemma swp_gets {A} (f : W → A) w Q : Q (f w) w → swp (gets f) w E Q.
Proof. done. Qed.

Lemma swp_modify f w Q : Q tt (f w) → swp (modify f) w E Q.
Proof. done. Qed.

Lemma swp_check b why w Q : (b = false → E why) → (b = true → Q tt w) → swp (check b why) w E Q.
Proof. unfold swp, check, run. destruct b; simpl; auto. Qed.

Lemma swp_need {A} (o : option A) why w Q : (o = None → E why) → (∀ a, o = Some a → Q a w) → swp (need o why) w E Q.
Proof. unfold swp, need, run. destruct o; simpl; auto. Qed.

Lemma swp_when b m w Q : (b = true → swp m w E Q) → (b = false → Q tt w) → swp (when b m) w E Q.
Proof. unfold when. destruct b; auto. intros _ H. by apply swp_ret, H. Qed.

Lemma swp_stop {A} why w (Q : A → W → Prop) : E why → swp (stop why) w E Q.
Proof. done. Qed.

End rules.

Lemma swp_run {W A} (m : sm W A) w Q : swp m w no_panic Q → ∃ a w', m w = Ok (a, w') ∧ Q a w'.
Proof. unfold swp. destruct (m w) as [[a w']|]; [eauto|done]. Qed.

Lemma swp_Ok {W A} (m : sm W A) w E Q a w' : swp m w E Q → m w = Ok (a, w') → Q a w'.
Proof. unfold swp. intros H Hm. by rewrite Hm in H. Qed.

(** A panic a caller may see stays allowed under a larger set of messages. *)
Lemma swp_weaken {W A} (m : sm W A) w (E E' : string → Prop) Q : (∀ s, E s → E' s) → swp m w E Q → swp m w E' Q.
Proof. unfold swp. destruct (m w) as [[a w']|]; auto. Qed.
