(* ===== verification/Klist.v ===== *)
(** Intrusive doubly linked lists (kernel/include/kernel/core/list.h).

    The functions of list.h are translated over a heap of [KListLink]
    records.  [rep h L] says that the heap [h] holds the circular lists of the
    abstract store [L], a finite map from list heads to the list of their
    links.  The lemmas show that every function of list.h acts on the store
    like the corresponding operation on Rocq lists, leaving the other lists
    alone; the other files of the development use those list operations. *)

From S2P Require Import Prelude.

Module Klist.

(** Addresses; 0 is [K_NULL]. *)
Abbreviation loc := N.
Definition K_NULL : loc := 0%N.

Record KListLink := MkLink { next : loc; prev : loc }.

#[export] Instance KListLink_eq_dec : EqDecision KListLink.
Proof. solve_decision. Defined.

Abbreviation heap := (gmap loc KListLink).

Implicit Types (h : heap) (p q x l hd : loc) (xs ys : list loc).

(** *** Loads and stores through a pointer *)

Definition load h p : outcome KListLink := deref (h !! p) "bad pointer".

Definition set_next p v h : outcome heap :=
  c ← load h p; Ok (<[p := MkLink v (prev c)]> h).

Definition set_prev p v h : outcome heap :=
  c ← load h p; Ok (<[p := MkLink (next c) v]> h).

(** *** The functions of list.h *)

Definition k_list_init head h : outcome heap :=
  h ← set_next head head h; set_prev head head h.

Definition k_list_null link h : outcome heap :=
  h ← set_next link K_NULL h; set_prev link K_NULL h.

Definition k_list_is_empty head h : outcome bool :=
  c ← load h head; Ok (bool_decide (next c = head)).

Definition k_list_is_null link h : outcome bool :=
  c ← load h link; Ok (bool_decide (next c = K_NULL) && bool_decide (prev c = K_NULL)).

Definition k_list_add_front head link h : outcome heap :=
  b ← k_list_is_null link h;
  _ ← k_assert b "Assertion failed: k_list_is_null(link)";
  c ← load h head;
  h ← set_next link (next c) h;
  c ← load h head;
  h ← set_prev (next c) link h;
  h ← set_next head link h;
  set_prev link head h.

Definition k_list_add_back head link h : outcome heap :=
  b ← k_list_is_null link h;
  _ ← k_assert b "Assertion failed: k_list_is_null(link)";
  c ← load h head;
  h ← set_prev link (prev c) h;
  c ← load h head;
  h ← set_next (prev c) link h;
  h ← set_prev head link h;
  set_next link head h.

Definition k_list_remove link h : outcome heap :=
  c ← load h link;
  h ← (if bool_decide (prev c = K_NULL) then Ok h else set_next (prev c) (next c) h);
  c ← load h link;
  h ← (if bool_decide (next c = K_NULL) then Ok h else set_prev (next c) (prev c) h);
  h ← set_next link K_NULL h;
  set_prev link K_NULL h.

(** [K_LIST_FOREACH(head, lp)]: the links visited, in order; [fuel] bounds the
    number of iterations. *)
Fixpoint foreach_from (fuel : nat) head lp h : option (list loc) :=
  match fuel with
  | O => None
  | S fuel =>
      if bool_decide (lp = head) then Some []
      else c ← h !! lp; ys ← foreach_from fuel head (next c) h; Some (lp :: ys)
  end.

Definition K_LIST_FOREACH (fuel : nat) head h : option (list loc) :=
  c ← h !! head; foreach_from fuel head (next c) h.

(** *** Representation of lists *)

(** [link_ok h p q]: [q] follows [p]. *)
Definition link_ok h p q : Prop :=
  p ≠ K_NULL ∧ q ≠ K_NULL ∧
  (∃ c, h !! p = Some c ∧ next c = q) ∧ (∃ c, h !! q = Some c ∧ prev c = p).

(** [chain h p xs q]: following [next] from [p] visits [xs] and then [q], and
    [prev] walks the same way back. *)
Fixpoint chain h p xs q : Prop :=
  match xs with
  | [] => link_ok h p q
  | x :: xs => link_ok h p x ∧ chain h x xs q
  end.

Definition dll h hd xs : Prop := NoDup (hd :: xs) ∧ chain h hd xs hd.

Definition null_link h l : Prop := l ≠ K_NULL ∧ h !! l = Some (MkLink K_NULL K_NULL).

(** The heap [h] represents the store [L]: every list of [L] is a circular
    list of [h], and no link is on two of them. *)
Definition rep h (L : gmap loc (list loc)) : Prop :=
  (∀ hd xs, L !! hd = Some xs → dll h hd xs) ∧
  (∀ hd1 xs1 hd2 xs2 x, L !! hd1 = Some xs1 → L !! hd2 = Some xs2 →
     x ∈ (hd1 :: xs1) → x ∈ (hd2 :: xs2) → hd1 = hd2).

(** *** Facts about links and chains *)

Lemma link_next_det h a b c : link_ok h a b → link_ok h a c → b = c.
Proof. intros (_&_&(?&?&?)&_) (_&_&(?&?&?)&_). congruence. Qed.

Lemma link_prev_det h a b c : link_ok h a c → link_ok h b c → a = b.
Proof. intros (_&_&_&(?&?&?)) (_&_&_&(?&?&?)). congruence. Qed.

Lemma link_not_null_l h a b : link_ok h a b → ¬ null_link h a.
Proof. intros (_&?&(?&?&?)&_) [_ ?]. by simplify_eq. Qed.

Lemma link_not_null_r h a b : link_ok h a b → ¬ null_link h b.
Proof. intros (?&_&_&(?&?&?)) [_ ?]. by simplify_eq. Qed.

Lemma chain_app h p xs x ys q :
  chain h p (xs ++ x :: ys) q ↔ chain h p xs x ∧ chain h x ys q.
Proof. revert p. induction xs as [|y xs IH]; intros p; simpl; [done|]. rewrite IH. tauto. Qed.

(** Where the predecessor and the successor of the gap between [xs] and [ys]
    are, in a circular list with head [hd]. *)
Definition before hd xs : loc := default hd (last xs).
Definition after hd ys : loc := default hd (head ys).

Lemma before_elem hd xs : before hd xs ∈ hd :: xs.
Proof.
  unfold before. destruct (last xs) as [x|] eqn:E; simpl; [|set_solver].
  apply last_Some in E as [l' ->]. set_solver.
Qed.

Lemma before_elem_app hd xs ys : before hd xs ∈ hd :: (xs ++ ys).
Proof.
  pose proof (before_elem hd xs) as H. rewrite elem_of_cons in *.
  rewrite elem_of_app. tauto.
Qed.

Lemma chain_gap h hd q xs ys :
  chain h hd (xs ++ ys) q → link_ok h (before hd xs) (default q (head ys)).
Proof.
  unfold before. revert hd. induction xs as [|x xs IH]; intros hd.
  - destruct ys; simpl; tauto.
  - intros [_ Hc]. rewrite last_cons. specialize (IH _ Hc).
    by destruct (last xs).
Qed.

(** A chain survives any change that keeps the links that start on it. *)
Lemma chain_transfer h h' p xs q :
  (∀ a b, a ∈ (p :: xs) → link_ok h a b → link_ok h' a b) →
  chain h p xs q → chain h' p xs q.
Proof.
  revert p. induction xs as [|x xs IH]; intros p Ht; simpl.
  - apply Ht. set_solver.
  - intros [? ?]. split; [apply Ht; set_solver|]. apply IH; [|done].
    intros a b ?. apply Ht. set_solver.
Qed.

Lemma dll_elem_link h hd xs x : dll h hd xs → x ∈ (hd :: xs) → ∃ y, link_ok h x y.
Proof.
  intros [_ Hc] [->|(xs1 & xs2 & ->)%list_elem_of_split]%elem_of_cons.
  - destruct xs; simpl in Hc; naive_solver.
  - apply chain_app in Hc as [_ Hc]. destruct xs2; simpl in Hc; naive_solver.
Qed.

Lemma rep_not_null h L hd xs l :
  rep h L → L !! hd = Some xs → null_link h l → l ∉ (hd :: xs).
Proof.
  intros [Hd _] HL Hn Hl. destruct (dll_elem_link h hd xs l) as [y Hy]; [eauto|done|].
  by eapply link_not_null_l.
Qed.

(** *** Symbolic execution of one function *)

Ltac kstep :=
  unfold k_list_is_null, k_list_is_empty, set_next, set_prev, load, deref in *; simpl;
  repeat (progress (simplify_map_eq; simpl)
          || match goal with
             | |- context [bool_decide ?P] =>
                 first [ rewrite (bool_decide_eq_true_2 P) by done
                       | rewrite (bool_decide_eq_false_2 P) by done ]
             end).

(** [splice u l x h h']: [h'] is [h] with [l] put between [u] and [x]. *)
Definition splice u l x h h' : Prop :=
  link_ok h' u l ∧ link_ok h' l x ∧
  (∀ a b, link_ok h a b → a ≠ u → link_ok h' a b) ∧
  (∀ y, null_link h y → y ≠ l → null_link h' y).

(** [unsplice u l x h h']: [h'] is [h] with [l] taken out from between [u] and [x]. *)
Definition unsplice u l x h h' : Prop :=
  link_ok h' u x ∧ null_link h' l ∧
  (∀ a b, link_ok h a b → a ≠ u → a ≠ l → link_ok h' a b) ∧
  (∀ y, null_link h y → null_link h' y).

Lemma lookup_cell h (i j : loc) c :
  <[i := c]> h !! j = if decide (i = j) then Some c else h !! j.
Proof. apply lookup_insert. Qed.

Ltac kfin :=
  unfold splice, unsplice, link_ok, null_link in *;
  split_and?; intros; destruct_and?;
  repeat match goal with H : ∃ _, _ |- _ => destruct H as ([? ?] & ? & ?) end;
  rewrite ?lookup_cell; repeat case_decide; simplify_eq/=; split_and?; eauto.

Lemma add_back_cells h u x l :
  link_ok h u x → null_link h l →
  ∃ h', k_list_add_back x l h = Ok h' ∧ splice u l x h h'.
Proof.
  intros Hux Hl.
  assert (u ≠ l) by (intros ->; by eapply link_not_null_l).
  assert (x ≠ l) by (intros ->; by eapply link_not_null_r).
  destruct Hux as (? & ? & ([cn cp] & Hu & Hun) & ([dn dp] & Hx & Hxp)), Hl as [? Hl].
  simpl in *. subst cn dp. destruct (decide (u = x)) as [->|Hne];
    simplify_eq; unfold k_list_add_back; kstep; eexists; (split; [done|]); kfin.
Qed.

Lemma add_front_cells h u x l :
  link_ok h u x → null_link h l →
  ∃ h', k_list_add_front u l h = Ok h' ∧ splice u l x h h'.
Proof.
  intros Hux Hl.
  assert (u ≠ l) by (intros ->; by eapply link_not_null_l).
  assert (x ≠ l) by (intros ->; by eapply link_not_null_r).
  destruct Hux as (? & ? & ([cn cp] & Hu & Hun) & ([dn dp] & Hx & Hxp)), Hl as [? Hl].
  simpl in *. subst cn dp. destruct (decide (u = x)) as [->|Hne];
    simplify_eq; unfold k_list_add_front; kstep; eexists; (split; [done|]); kfin.
Qed.

Lemma remove_cells h u l x :
  link_ok h u l → link_ok h l x → u ≠ l → x ≠ l →
  ∃ h', k_list_remove l h = Ok h' ∧ unsplice u l x h h'.
Proof.
  intros (? & ? & ([cn cp] & Hu & Hun) & ([dn dp] & Hl & Hlp))
    (? & ? & ([en ep] & Hl' & Hln) & ([fn fp] & Hx & Hxp)) ? ?.
  simpl in *. subst cn dp en fp. destruct (decide (u = x)) as [->|Hne];
    simplify_eq; unfold k_list_remove; kstep; eexists; (split; [done|]); kfin.
Qed.

(** *** Refinement: the functions of list.h implement list operations

    Each lemma relates the heap function to the operation on the store. *)

Lemma rep_splice h h' L hd xs ys l :
  rep h L → L !! hd = Some (xs ++ ys) → null_link h l →
  splice (before hd xs) l (after hd ys) h h' →
  rep h' (<[hd := xs ++ l :: ys]> L).
Proof.
  intros Hrep HL Hn (Hul & Hlx & Ht & _).
  assert (∀ hd' zs, L !! hd' = Some zs → l ∉ hd' :: zs) as Hfresh
    by eauto using rep_not_null.
  destruct Hrep as [Hd Hdisj]. destruct (Hd _ _ HL) as [Hnd Hc].
  assert (∀ p zs q, before hd xs ∉ p :: zs → chain h p zs q → chain h' p zs q) as Htr.
  { intros p zs q Hb. apply chain_transfer. intros a b ? ?. apply Ht; [done|congruence]. }
  split.
  - intros hd' zs. rewrite lookup_insert. case_decide as E.
    + subst hd'. intros [= <-]. split.
      { rewrite app_comm_cons, <-Permutation_middle, NoDup_cons. split; [by apply Hfresh|done]. }
      rewrite chain_app. split.
      * destruct xs as [|x xs _] using rev_ind; [exact Hul|].
        unfold before in *. rewrite last_snoc in *. rewrite <-app_assoc in Hc.
        apply chain_app in Hc as [Hc _]. apply chain_app. split; [|exact Hul].
        apply Htr; [|done]. simpl in Hnd.
        rewrite !NoDup_cons, !NoDup_app in Hnd. clear -Hnd. set_solver.
      * destruct ys as [|y ys]; [exact Hlx|]. split; [exact Hlx|].
        apply chain_app in Hc as [_ Hc]. apply Htr; [|done].
        rewrite app_comm_cons, NoDup_app in Hnd. apply Hnd, before_elem.
    + intros Hz. destruct (Hd _ _ Hz) as [? Hcz]. split; [done|].
      apply Htr; [|done]. intros Hin. apply E.
      eapply (Hdisj _ _ _ _ _ HL Hz); [apply before_elem_app|exact Hin].
  - intros hd1 xs1 hd2 xs2 x. rewrite !lookup_insert. repeat case_decide; subst; try done.
    + intros [= <-] Hz Hx1 Hx2. specialize (Hfresh _ _ Hz).
      apply (Hdisj _ _ _ _ x HL Hz); clear -Hfresh Hx1 Hx2; set_solver.
    + intros Hz [= <-] Hx1 Hx2. specialize (Hfresh _ _ Hz).
      apply (Hdisj _ _ _ _ x Hz HL); clear -Hfresh Hx1 Hx2; set_solver.
    + intros. by eapply Hdisj.
Qed.

Lemma rep_unsplice h h' L hd xs ys l :
  rep h L → L !! hd = Some (xs ++ l :: ys) →
  unsplice (before hd xs) l (after hd ys) h h' →
  rep h' (<[hd := xs ++ ys]> L).
Proof.
  intros [Hd Hdisj] HL (Hux & _ & Ht & _). destruct (Hd _ _ HL) as [Hnd Hc].
  assert (NoDup (l :: hd :: (xs ++ ys))) as Hnd'.
  { revert Hnd. rewrite app_comm_cons, <-Permutation_middle. done. }
  assert (∀ p zs q, before hd xs ∉ p :: zs → l ∉ p :: zs →
            chain h p zs q → chain h' p zs q) as Htr.
  { intros p zs q Hb Hl. apply chain_transfer. intros a b ? ?. apply Ht; congruence. }
  split.
  - intros hd' zs. rewrite lookup_insert. case_decide as E.
    + subst hd'. intros [= <-]. apply NoDup_cons in Hnd' as [Hl Hnd']. split; [done|].
      apply chain_app in Hc as [Hc1 Hc2]. destruct ys as [|y ys].
      * rewrite app_nil_r in *. destruct xs as [|x xs _] using rev_ind; [exact Hux|].
        unfold before in *. rewrite last_snoc in *.
        apply chain_app in Hc1 as [Hc1 _]. apply chain_app. split; [|exact Hux].
        apply Htr; [| |done]; clear -Hnd' Hl; simpl in Hnd';
          rewrite ?NoDup_cons, ?NoDup_app in Hnd'; set_solver.
      * destruct Hc2 as [_ Hc2]. apply chain_app. split.
        -- destruct xs as [|x xs _] using rev_ind; [exact Hux|].
           unfold before in *. rewrite last_snoc in *.
           apply chain_app in Hc1 as [Hc1 _]. apply chain_app. split; [|exact Hux].
           apply Htr; [| |done]; clear -Hnd' Hl; simpl in Hnd';
             rewrite ?NoDup_cons, ?NoDup_app in Hnd'; set_solver.
        -- apply Htr; [| |done]; [|clear -Hl; set_solver].
           rewrite app_comm_cons, NoDup_app in Hnd'. apply Hnd', before_elem.
    + intros Hz. destruct (Hd _ _ Hz) as [? Hcz]. split; [done|].
      apply Htr; [| |done]; intros Hin; apply E.
      * eapply (Hdisj _ _ _ _ _ HL Hz); [apply before_elem_app|exact Hin].
      * eapply (Hdisj _ _ _ _ l HL Hz); [clear; set_solver|exact Hin].
  - intros hd1 xs1 hd2 xs2 x. rewrite !lookup_insert. repeat case_decide; subst; try done.
    + intros [= <-] Hz Hx1 Hx2.
      apply (Hdisj _ _ _ _ x HL Hz); clear -Hx1 Hx2; set_solver.
    + intros Hz [= <-] Hx1 Hx2.
      apply (Hdisj _ _ _ _ x Hz HL); clear -Hx1 Hx2; set_solver.
    + intros. by eapply Hdisj.
Qed.

(** *** The abstract store and the operations on it *)

(** Lists by head, and the links that are on no list. *)
Record store := MkStore { lists : gmap loc (list loc); unlinked : gset loc }.

Definition repr h (st : store) : Prop :=
  rep h (lists st) ∧ ∀ l, l ∈ unlinked st → null_link h l.

Inductive op :=
| OInit (head : loc)
| OAddFront (head link : loc)
| OAddBack (x link : loc)
| ORemove (link : loc).

(** What the code does. *)
Definition exec_op (o : op) h : outcome heap :=
  match o with
  | OInit head => k_list_init head h
  | OAddFront head link => k_list_add_front head link h
  | OAddBack x link => k_list_add_back x link h
  | ORemove link => k_list_remove link h
  end.

(** What it means. [k_list_add_back] is called with a list head (append) or
    with a link of a list (insert before it). *)
Fixpoint insert_before x l xs : list loc :=
  match xs with
  | [] => []
  | y :: ys => if decide (y = x) then l :: y :: ys else y :: insert_before x l ys
  end.

Definition add_before x l hd xs : list loc :=
  if decide (hd = x) then xs ++ [l] else insert_before x l xs.

Definition on_list x (L : gmap loc (list loc)) : Prop :=
  map_Exists (λ hd xs, x ∈ hd :: xs) L.
Definition is_node x (L : gmap loc (list loc)) : Prop :=
  map_Exists (λ _ xs, x ∈ xs) L.
#[export] Instance on_list_dec x L : Decision (on_list x L).
Proof. unfold on_list. apply _. Defined.
#[export] Instance is_node_dec x L : Decision (is_node x L).
Proof. unfold is_node. apply _. Defined.

Definition abs_op (o : op) (st : store) : option store :=
  let '(MkStore L N) := st in
  match o with
  | OInit head =>
      if decide (head ∈ N) then Some (MkStore (<[head := []]> L) (N ∖ {[head]})) else None
  | OAddFront head link =>
      if decide (link ∈ N) then
        xs ← L !! head; Some (MkStore (<[head := link :: xs]> L) (N ∖ {[link]}))
      else None
  | OAddBack x link =>
      if decide (link ∈ N ∧ on_list x L) then
        Some (MkStore (map_imap (λ hd xs, Some (add_before x link hd xs)) L) (N ∖ {[link]}))
      else None
  | ORemove link =>
      if decide (link ∈ N) then Some st
      else if decide (is_node link L) then
        Some (MkStore (filter (.≠ link) <$> L) ({[link]} ∪ N))
      else None
  end.

Fixpoint run_ops (os : list op) h : outcome heap :=
  match os with
  | [] => Ok h
  | o :: os => h ← exec_op o h; run_ops os h
  end.

Fixpoint abs_ops (os : list op) (st : store) : option store :=
  match os with
  | [] => Some st
  | o :: os => st ← abs_op o st; abs_ops os st
  end.

(** *** Facts about the abstract operations *)

Lemma insert_before_notin x l xs : x ∉ xs → insert_before x l xs = xs.
Proof.
  induction xs as [|y xs IH]; [done|]. intros [? ?]%not_elem_of_cons. simpl.
  rewrite decide_False by done. by rewrite IH.
Qed.

Lemma insert_before_split x l xs ys :
  x ∉ xs → insert_before x l (xs ++ x :: ys) = xs ++ l :: x :: ys.
Proof.
  induction xs as [|y xs IH]; simpl.
  - by rewrite decide_True.
  - intros [? ?]%not_elem_of_cons. rewrite decide_False by done. by rewrite IH.
Qed.

(** Only the list that holds [x] changes. *)
Lemma imap_add_before h L x l hd xs :
  rep h L → L !! hd = Some xs → x ∈ hd :: xs →
  map_imap (λ hd xs, Some (add_before x l hd xs)) L = <[hd := add_before x l hd xs]> L.
Proof.
  intros [Hd Hdisj] HL Hx. apply map_eq. intros hd'.
  rewrite map_lookup_imap, lookup_insert. case_decide as E.
  - subst. by rewrite HL.
  - destruct (L !! hd') as [zs|] eqn:Hz; [|done]. simpl. f_equal.
    assert (x ∉ hd' :: zs) as Hn by (intros ?; apply E; by eapply Hdisj).
    apply not_elem_of_cons in Hn as [??]. unfold add_before.
    rewrite decide_False by done. by apply insert_before_notin.
Qed.

Lemma fmap_filter_ne h L x hd xs :
  rep h L → L !! hd = Some xs → x ∈ xs →
  (filter (.≠ x) <$> L) = <[hd := filter (.≠ x) xs]> L.
Proof.
  intros [Hd Hdisj] HL Hx. apply map_eq. intros hd'.
  rewrite lookup_fmap, lookup_insert. case_decide as E.
  - subst. by rewrite HL.
  - destruct (L !! hd') as [zs|] eqn:Hz; [|done]. simpl. f_equal.
    apply filter_ne_notin. intros ?. apply E.
    eapply (Hdisj _ _ _ _ x HL Hz); by apply elem_of_cons; right.
Qed.

(** *** Each function of list.h refines its abstract operation *)

Lemma null_not_on h st l hd xs :
  repr h st → l ∈ unlinked st → lists st !! hd = Some xs → l ∉ hd :: xs.
Proof. intros [? Hn] ? ?. eauto using rep_not_null. Qed.

Lemma init_refines h st st' x :
  repr h st → abs_op (OInit x) st = Some st' →
  ∃ h', k_list_init x h = Ok h' ∧ repr h' st'.
Proof.
  intros Hr Ho. destruct st as [L N]. simpl in Ho. case_decide as Hx; [|done]. simplify_eq.
  assert (∀ hd xs, L !! hd = Some xs → x ∉ hd :: xs) as Hnot
    by (intros; by eapply (null_not_on h (MkStore L N))).
  destruct Hr as [[Hd Hdisj] Hn]. simpl in *. destruct (Hn _ Hx) as [? Hl].
  unfold k_list_init. kstep. eexists. split; [done|]. split; simpl; [split|].
  - intros hd xs. rewrite lookup_insert. case_decide.
    + intros [= <-]. subst hd. split; [apply NoDup_singleton|].
      repeat split; eauto; simplify_map_eq; eauto.
    + intros Hxs. destruct (Hd _ _ Hxs) as [? Hc]. split; [done|].
      specialize (Hnot _ _ Hxs). revert Hc. apply chain_transfer.
      intros a b Ha (? & ? & (c & ? & ?) & (d & ? & ?)).
      assert (a ≠ x) by congruence.
      assert (b ≠ x). { intros ->. simplify_eq/=. }
      repeat split; try done; simplify_map_eq; eauto.
  - intros hd1 xs1 hd2 xs2 y. rewrite !lookup_insert. repeat case_decide; subst; try done.
    + intros [= <-] Hz Hy1 Hy2. apply list_elem_of_singleton in Hy1 as ->.
      by destruct (Hnot _ _ Hz).
    + intros Hz [= <-] Hy1 Hy2. apply list_elem_of_singleton in Hy2 as ->.
      by destruct (Hnot _ _ Hz).
    + intros. by eapply Hdisj.
  - intros l Hln. assert (l ≠ x) by set_solver. destruct (Hn l) as [? ?]; [set_solver|].
    split; [done|]. by simplify_map_eq.
Qed.

Lemma add_front_refines h st st' hd l :
  repr h st → abs_op (OAddFront hd l) st = Some st' →
  ∃ h', k_list_add_front hd l h = Ok h' ∧ repr h' st'.
Proof.
  intros [Hr Hn] Ho. destruct st as [L N]. simpl in *. case_decide as Hl; [|done].
  destruct (L !! hd) as [xs|] eqn:HL; simplify_eq/=.
  destruct (add_front_cells h hd (after hd xs) l) as (h' & He & Hs); [|by auto|].
  { destruct Hr as [Hd _]. destruct (Hd _ _ HL) as [_ Hc].
    exact (chain_gap h hd hd [] xs Hc). }
  exists h'. split; [done|]. split; simpl.
  - by eapply (rep_splice h h' L hd [] xs); eauto.
  - intros y Hy. destruct Hs as (_ & _ & _ & Hs). apply Hs; [apply Hn|]; set_solver.
Qed.

Lemma add_back_refines h st st' x l :
  repr h st → abs_op (OAddBack x l) st = Some st' →
  ∃ h', k_list_add_back x l h = Ok h' ∧ repr h' st'.
Proof.
  intros [Hr Hn] Ho. destruct st as [L N]. simpl in *.
  case_decide as Hl; [|done]. destruct Hl as [Hl (hd & xs & HL & Hx)]. simplify_eq.
  rewrite (imap_add_before h L x l hd xs) by done.
  assert (∃ xs1 xs2, xs = xs1 ++ xs2 ∧ x = after hd xs2 ∧
            add_before x l hd xs = xs1 ++ l :: xs2) as (xs1 & xs2 & -> & -> & ->).
  { destruct (decide (hd = x)) as [->|Hne].
    - exists xs, []. unfold add_before. rewrite decide_True by done.
      by rewrite app_nil_r.
    - apply elem_of_cons in Hx as [->|Hx]; [done|].
      apply list_elem_of_split_l in Hx as (xs1 & xs2 & -> & Hx).
      exists xs1, (x :: xs2). unfold add_before. rewrite decide_False by done.
      by rewrite insert_before_split. }
  destruct (add_back_cells h (before hd xs1) (after hd xs2) l) as (h' & He & Hs); [|by auto|].
  { destruct Hr as [Hd _]. destruct (Hd _ _ HL) as [_ Hc]. by apply chain_gap. }
  exists h'. split; [done|]. split; simpl.
  - by eapply rep_splice; eauto.
  - intros y Hy. destruct Hs as (_ & _ & _ & Hs). apply Hs; [apply Hn|]; set_solver.
Qed.

Lemma remove_refines h st st' l :
  repr h st → abs_op (ORemove l) st = Some st' →
  ∃ h', k_list_remove l h = Ok h' ∧ repr h' st'.
Proof.
  intros [Hr Hn] Ho. destruct st as [L N]. simpl in *. case_decide as Hl.
  - simplify_eq. destruct (Hn _ Hl) as [? Hh]. unfold k_list_remove. kstep.
    eexists. split; [done|]. rewrite insert_insert_eq, insert_id by done. by split.
  - case_decide as Hx; [|done]. destruct Hx as (hd & xs & HL & Hx). simplify_eq.
    rewrite (fmap_filter_ne h L l hd xs) by done.
    destruct Hr as [Hd Hdisj]. destruct (Hd _ _ HL) as [Hnd Hc].
    apply list_elem_of_split in Hx as (xs1 & xs2 & ->).
    rewrite filter_ne_split by (by apply NoDup_cons in Hnd as [_ ?]).
    destruct (remove_cells h (before hd xs1) l (after hd xs2)) as (h' & He & Hs).
    { exact (chain_gap h hd hd xs1 (l :: xs2) Hc). }
    { apply chain_app in Hc as [_ Hc]. exact (chain_gap h l hd [] xs2 Hc). }
    { intros E. rewrite app_comm_cons, NoDup_app in Hnd.
      destruct Hnd as (_ & Hnd & _). apply (Hnd l); [|set_solver].
      rewrite <-E. apply before_elem. }
    { rewrite app_comm_cons, <-Permutation_middle, NoDup_cons in Hnd.
      destruct Hnd as [Hnd _]. unfold after. destruct xs2; simpl; set_solver. }
    exists h'. split; [done|]. split; simpl.
    + eapply rep_unsplice; [by split|done|done].
    + destruct Hs as (_ & ? & _ & Hs). intros y [->%elem_of_singleton|?]%elem_of_union; auto.
Qed.

Lemma exec_op_refines o h st st' :
  repr h st → abs_op o st = Some st' → ∃ h', exec_op o h = Ok h' ∧ repr h' st'.
Proof.
  destruct o; simpl exec_op;
    eauto using init_refines, add_front_refines, add_back_refines, remove_refines.
Qed.

Lemma run_ops_refines os h st st' :
  repr h st → abs_ops os st = Some st' → ∃ h', run_ops os h = Ok h' ∧ repr h' st'.
Proof.
  revert h st. induction os as [|o os IH]; intros h st Hr; simpl.
  - intros [= <-]. eauto.
  - intros (st1 & Ho & Hos)%bind_Some.
    destruct (exec_op_refines _ _ _ _ Hr Ho) as (h1 & -> & Hr1). simpl. eauto.
Qed.

Lemma foreach_from_dll h hd xs ys n :
  chain h hd (xs ++ ys) hd → hd ∉ ys → length ys < n →
  foreach_from n hd (after hd ys) h = Some ys.
Proof.
  revert xs n. induction ys as [|y ys IH]; intros xs n Hc Hn Hlen;
    (destruct n as [|n]; [simpl in Hlen; lia|]); simpl.
  - unfold after; simpl. by rewrite bool_decide_eq_true_2.
  - change (after hd (y :: ys)) with y.
    apply not_elem_of_cons in Hn as [??]. rewrite bool_decide_eq_false_2 by done.
    pose proof Hc as Hc'. apply chain_app in Hc' as [_ Hc'].
    destruct (chain_gap h y hd [] ys Hc') as (_ & _ & (c & Hy & Hcn) & _).
    unfold before in Hy. simpl in *. rewrite Hy. simpl. rewrite Hcn.
    fold (after hd ys). rewrite (IH (xs ++ [y])); [done| |done|lia].
    by rewrite <-app_assoc.
Qed.

Lemma foreach_dll h hd xs :
  dll h hd xs → K_LIST_FOREACH (S (length xs)) hd h = Some xs.
Proof.
  intros [Hnd Hc]. unfold K_LIST_FOREACH.
  destruct (chain_gap h hd hd [] xs Hc) as (_ & _ & (c & Hy & Hcn) & _).
  change (h !! hd = Some c) in Hy. rewrite Hy.
  change (foreach_from (S (length xs)) hd (next c) h = Some xs). rewrite Hcn.
  apply (foreach_from_dll h hd []); [done| |lia]. by apply NoDup_cons in Hnd as [??].
Qed.

Lemma is_empty_dll h hd xs :
  dll h hd xs → k_list_is_empty hd h = Ok (bool_decide (xs = [])).
Proof.
  intros [Hnd Hc]. destruct (chain_gap h hd hd [] xs Hc) as (_ & _ & (c & Hy & Hcn) & _).
  unfold k_list_is_empty, load, deref. unfold before in Hy. simpl in *.
  rewrite Hy. simpl. rewrite Hcn. f_equal. apply bool_decide_ext.
  apply NoDup_cons in Hnd as [? _]. destruct xs; simpl; [done|].
  split; [set_solver|done].
Qed.

(** C23: the intrusive lists of list.h implement lists.  Whatever sequence of
    [k_list_init], [k_list_add_front], [k_list_add_back] and [k_list_remove]
    is legal on the abstract store, the pointer code executes it without a bad
    dereference or failed assertion, ends in a heap that represents the
    abstract result, and on that heap [K_LIST_FOREACH] visits exactly the
    abstract list of every head and [k_list_is_empty] tests it. *)
Theorem list_ops_refine (os : list op) (h : heap) (st st' : store) :
  repr h st → abs_ops os st = Some st' →
  ∃ h', run_ops os h = Ok h' ∧ repr h' st' ∧
    ∀ hd xs, lists st' !! hd = Some xs →
      K_LIST_FOREACH (S (length xs)) hd h' = Some xs ∧
      k_list_is_empty hd h' = Ok (bool_decide (xs = [])).
Proof.
  intros Hr Ho. destruct (run_ops_refines _ _ _ _ Hr Ho) as (h' & ? & [[Hd ?] ?]).
  exists h'. split; [done|]. split; [done|].
  intros hd xs Hxs. split; [apply foreach_dll|apply is_empty_dll]; eauto.
Qed.

(** A run that initialises a head, appends, pushes at the front, inserts
    before a link and removes. *)
Definition wit_heap : heap :=
  list_to_map ((λ l, (l, MkLink K_NULL K_NULL)) <$> [1; 2; 3; 4]%N).
Definition wit_store : store := MkStore ∅ {[1%N; 2%N; 3%N; 4%N]}.
Definition wit_ops : list op :=
  [OInit 1; OAddBack 1 2; OAddFront 1 3; OAddBack 2 4; ORemove 3]%N.

Lemma list_ops_refine_witness :
  ∃ h', run_ops wit_ops wit_heap = Ok h' ∧ K_LIST_FOREACH 3 1%N h' = Some [4; 2]%N.
Proof.
  destruct (list_ops_refine wit_ops wit_heap wit_store
              (MkStore {[1%N := [4; 2]%N]} {[3%N]})) as (h' & ? & _ & Hf).
  - unfold repr, rep, wit_store. simpl.
    split; [split; intros *; by rewrite lookup_empty|]. intros l Hl.
    repeat (apply elem_of_union in Hl as [Hl|Hl]);
      apply elem_of_singleton in Hl as ->; (split; [done|reflexivity]).
  - reflexivity.
  - exists h'. split; [done|]. exact (proj1 (Hf 1%N [4; 2]%N eq_refl)).
Defined.

End Klist.
