(* ===== verification/Timeout.v ===== *)
(** Timeout queues (kernel/core/timeout.c).

    A queue is the list of its entries in order, each with the number of ticks
    that remain after its predecessor has expired (a delta list).  The
    reference definition is the list of absolute deadlines [deadlines]; the
    theorems show that adding, removing and advancing time on the delta list
    are insertion, deletion and expiry on the deadlines. *)

From S2P Require Import Prelude.
#[local] Open Scope Z_scope.

Module Timeout.

(** Entries are named by the object that embeds them. *)
Abbreviation eid := nat.

Record KTimeoutEntry := MkEntry { te_id : eid; remain : Z }.

Abbreviation queue := (list KTimeoutEntry).

Implicit Types (q : queue) (e : eid).

Definition queued e q : bool := bool_decide (e ∈ te_id <$> q).

(** The loop of [_k_timeout_queue_add]: [rem] is [entry->remain]. *)
Fixpoint queue_insert q e (rem : Z) : queue :=
  match q with
  | [] => [MkEntry e rem]
  | n :: q' =>
      if rem <? remain n
      then MkEntry e rem :: MkEntry (te_id n) (remain n - rem) :: q'
      else n :: queue_insert q' e (rem - remain n)
  end.

(** The final [k_list_add_back] asserts that the entry is on no list. *)
Definition _k_timeout_queue_add q e (delay : Z) : outcome queue :=
  _ ← k_assert (0 <? delay) "Assertion failed: delay > 0";
  _ ← k_assert (negb (queued e q)) "Assertion failed: k_list_is_null(link)";
  Ok (queue_insert q e delay).

Fixpoint queue_unlink q e : queue :=
  match q with
  | [] => []
  | n :: q' =>
      if decide (te_id n = e) then
        match q' with
        | [] => []
        | m :: q'' => MkEntry (te_id m) (remain m + remain n) :: q''
        end
      else n :: queue_unlink q' e
  end.

Definition _k_timeout_queue_remove q e : outcome queue :=
  _ ← k_assert (queued e q) "Assertion failed: next_link != K_NULL";
  Ok (queue_unlink q e).

Section Adjust.
(** The expiry callback runs between two loop iterations and may change
    the queue ([_k_timer_timeout] does) and the rest of the kernel state
    [A]. *)
Context {A : Type} (callback : eid → queue * A → outcome (queue * A)).

(** [while (entry->remain == 0)]; [None] when the fuel runs out. *)
Fixpoint expire_zero (fuel : nat) q (a : A) : option (outcome (queue * A)) :=
  match fuel with
  | O => None
  | S fuel =>
      match q with
      | [] => Some (Ok ([], a))
      | n :: q' =>
          if remain n =? 0 then
            match callback (te_id n) (q', a) with
            | Ok (q'', a') => expire_zero fuel q'' a'
            | Panic w => Some (Panic w)
            end
          else Some (Ok (q, a))
      end
  end.

(** [while (delta_ticks > 0)]. *)
Fixpoint adjust_loop (fuel : nat) q (a : A) (delta : Z) : option (outcome (queue * A)) :=
  match fuel with
  | O => None
  | S fuel =>
      if 0 <? delta then
        match q with
        | [] => Some (Ok ([], a))
        | n :: q' =>
            if delta <? remain n
            then Some (Ok (MkEntry (te_id n) (remain n - delta) :: q', a))
            else
              let ticks := if remain n <? delta then remain n else delta in
              match expire_zero fuel (MkEntry (te_id n) (remain n - ticks) :: q') a with
              | Some (Ok (q'', a')) => adjust_loop fuel q'' a' (delta - ticks)
              | r => r
              end
        end
      else Some (Ok (q, a))
  end.

Definition _k_timeout_queue_adjust (fuel : nat) q (a : A) (delta : Z)
  : option (outcome (queue * A)) :=
  match q with
  | [] => Some (Ok ([], a))
  | n :: q' =>
      if delta =? 0 then Some (Ok (q, a))
      else if remain n =? 0 then Some (Panic "Assertion failed: entry->remain != 0")
      else if delta <? 0 then Some (Ok (MkEntry (te_id n) (remain n - delta) :: q', a))
      else adjust_loop fuel q a delta
  end.
End Adjust.

(** *** Reference: absolute deadlines *)

Fixpoint deadlines_from (now : Z) q : list (eid * Z) :=
  match q with
  | [] => []
  | n :: q => (te_id n, now + remain n) :: deadlines_from (now + remain n) q
  end.
Abbreviation deadlines := (deadlines_from 0).

(** Insertion after every entry that expires no later. *)
Fixpoint insert_deadline (e : eid) (t : Z) (ds : list (eid * Z)) : list (eid * Z) :=
  match ds with
  | [] => [(e, t)]
  | d :: ds' => if t <? d.2 then (e, t) :: ds else d :: insert_deadline e t ds'
  end.

(** Invariant: the first entry has time left, no entry is overdue. *)
Definition queue_ok q : Prop :=
  Forall (λ n, 0 ≤ remain n) q ∧
  (∀ n, head q = Some n → 0 < remain n) ∧
  NoDup (te_id <$> q).

Lemma deadlines_ids now q : (deadlines_from now q).*1 = te_id <$> q.
Proof. revert now. induction q as [|n q IH]; intros now; csimpl; [done|]. by rewrite IH. Qed.

Lemma deadlines_shift now d q :
  deadlines_from (now + d) q = prod_map id (Z.add d) <$> deadlines_from now q.
Proof.
  revert now. induction q as [|n q IH]; intros now; csimpl; [done|].
  replace (now + d + remain n) with ((now + remain n) + d) by lia. rewrite IH.
  unfold prod_map at 2. simpl. f_equal. f_equal. lia.
Qed.

Lemma queue_insert_deadlines q e rem now :
  deadlines_from now (queue_insert q e rem) =
  insert_deadline e (now + rem) (deadlines_from now q).
Proof.
  revert rem now. induction q as [|n q IH]; intros rem now; simpl; [done|].
  destruct (Z.ltb_spec rem (remain n)); simpl.
  - rewrite (proj2 (Z.ltb_lt _ _)) by lia.
    by replace (now + rem + (remain n - rem)) with (now + remain n) by lia.
  - rewrite (proj2 (Z.ltb_ge _ _)) by lia. rewrite IH.
    by replace (now + remain n + (rem - remain n)) with (now + rem) by lia.
Qed.

Lemma queue_unlink_deadlines q e now :
  NoDup (te_id <$> q) →
  deadlines_from now (queue_unlink q e) = filter (λ d, d.1 ≠ e) (deadlines_from now q).
Proof.
  revert now. induction q as [|n q IH]; intros now; csimpl; [done|].
  intros [Hn Hnd]%NoDup_cons. case_decide as E.
  - rewrite filter_cons_False by (simpl; tauto).
    transitivity (deadlines_from (now + remain n) q).
    { destruct q as [|m q]; simpl; [done|].
      by replace (now + (remain m + remain n)) with (now + remain n + remain m) by lia. }
    symmetry. apply filter_all. rewrite <-(deadlines_ids (now + remain n) q) in Hn.
    apply Forall_forall. intros [i t] Hin Hi. simpl in Hi. subst.
    apply Hn, list_elem_of_fmap. by exists (te_id n, t).
  - rewrite filter_cons_True by done. simpl. by rewrite IH.
Qed.

Lemma deadlines_ge now q :
  Forall (λ n, 0 ≤ remain n) q → Forall (λ d, now ≤ d.2) (deadlines_from now q).
Proof.
  revert now. induction q as [|n q IH]; intros now; [constructor|].
  intros [? ?]%Forall_cons. constructor; simpl; [lia|].
  eapply Forall_impl; [by apply IH|]. simpl. lia.
Qed.

(** Expiry on deadlines: what fires within [delta] ticks, in order, and what
    is left. *)
Definition expired (delta : Z) (ds : list (eid * Z)) : list eid :=
  (filter (λ d, d.2 ≤ delta) ds).*1.
Definition pending (delta : Z) (ds : list (eid * Z)) : list (eid * Z) :=
  (λ d, (d.1, d.2 - delta)) <$> filter (λ d, delta < d.2) ds.

Lemma expired_none delta ds : Forall (λ d, delta < d.2) ds → expired delta ds = [].
Proof.
  intros H. unfold expired. rewrite filter_none; [done|].
  eapply Forall_impl; [done|]. simpl. lia.
Qed.

Lemma pending_all delta ds :
  Forall (λ d, delta < d.2) ds → pending delta ds = (λ d, (d.1, d.2 - delta)) <$> ds.
Proof. intros H. unfold pending. by rewrite filter_all. Qed.

Lemma length_deadlines now q : length (deadlines_from now q) = length q.
Proof. revert now. induction q as [|n q IH]; intros now; simpl; [done|]. by rewrite IH. Qed.

Lemma pending_head_length n q :
  (length (pending 0 (deadlines (MkEntry (te_id n) 0 :: q))) ≤ length q)%nat.
Proof.
  unfold pending. simpl. rewrite filter_cons_False by (simpl; lia).
  rewrite length_fmap, <-(length_deadlines 0 q). apply length_filter.
Qed.

(** Time can be advanced in two stages. *)
Lemma expired_split now q x y :
  Forall (λ n, 0 ≤ remain n) q → y ≤ x →
  expired x (deadlines_from now q) =
  expired y (deadlines_from now q) ++ expired (x - y) (pending y (deadlines_from now q)).
Proof.
  intros Hq ?. revert now. induction Hq as [|n q Hn Hq IH]; intros now; [done|].
  simpl. destruct (decide (now + remain n <= y)).
  - unfold expired, pending in *. rewrite !filter_cons_True by (simpl; lia).
    rewrite (filter_cons_False (λ d : nat * Z, y < d.2)) by (simpl; lia). csimpl.
    by rewrite IH.
  - assert (Forall (λ d, y < d.2)
      ((te_id n, now + remain n) :: deadlines_from (now + remain n) q)) as Hall.
    { constructor; [simpl; lia|]. eapply Forall_impl; [by apply deadlines_ge|]. simpl. lia. }
    rewrite (expired_none y), (pending_all y) by exact Hall. rewrite app_nil_l. unfold expired.
    generalize ((te_id n, now + remain n) :: deadlines_from (now + remain n) q). intros ds.
    induction ds as [|d ds IHd]; [done|]. csimpl. rewrite !filter_cons. simpl.
    destruct (decide (d.2 <= x)), (decide (d.2 - y <= x - y)); csimpl; try lia; by rewrite IHd.
Qed.

Lemma pending_split x y ds :
  y ≤ x → pending x ds = pending (x - y) (pending y ds).
Proof.
  intros ?. unfold pending. induction ds as [|d ds IH]; [done|]. rewrite !filter_cons.
  destruct (decide (x < d.2)); destruct (decide (y < d.2)); try lia; csimpl;
    rewrite ?filter_cons; simpl.
  - rewrite decide_True by lia. csimpl. rewrite IH. f_equal. f_equal. lia.
  - by rewrite decide_False by lia.
  - done.
Qed.

(** *** The loops of [_k_timeout_queue_adjust] *)

Section AdjustSpec.
(** A callback that leaves the queue alone, such as the scheduler's
    [k_task_timeout_callback]. *)
Context {A : Type} (fire : eid → A → A).
Definition quiet (i : eid) (qa : queue * A) : outcome (queue * A) :=
  Ok (qa.1, fire i qa.2).

Implicit Type a : A.

Definition fire_all (ids : list eid) a : A := foldl (λ a i, fire i a) a ids.

Lemma expire_zero_spec n q a :
  (length q < n)%nat → Forall (λ m, 0 ≤ remain m) q → NoDup (te_id <$> q) →
  ∃ q', expire_zero quiet n q a = Some (Ok (q', fire_all (expired 0 (deadlines q)) a)) ∧
        deadlines q' = pending 0 (deadlines q) ∧ queue_ok q' ∧ (length q' ≤ length q)%nat.
Proof.
  revert q a. induction n as [|n IH]; intros q a; [lia|]. intros Hlen Hq Hnd.
  destruct q as [|m q]; [exists []; by repeat split; try constructor|].
  apply Forall_cons in Hq as [Hm Hq]. csimpl. csimpl in Hnd.
  destruct (Z.eqb_spec (remain m) 0) as [E|E].
  - apply NoDup_cons in Hnd as [_ Hnd]. simpl in Hlen.
    destruct (IH q (fire (te_id m) a)) as (q' & Hq' & Hd & Hok & Hle); [lia|done|done|].
    exists q'. rewrite E. unfold expired, pending in *.
    rewrite filter_cons_True, (filter_cons_False (λ d : nat * Z, 0 < d.2)) by (simpl; lia).
    split_and!; [exact Hq'|exact Hd|done|lia].
  - assert (Forall (λ d, 0 < d.2)
      ((te_id m, remain m) :: deadlines_from (remain m) q)) as Hall.
    { constructor; [simpl; lia|]. eapply Forall_impl; [by apply deadlines_ge|]. simpl. lia. }
    exists (m :: q). change (0 + remain m) with (remain m).
    rewrite expired_none, pending_all by exact Hall. split_and!; [done| | |done].
    + rewrite (list_fmap_ext _ id); [by rewrite list_fmap_id|].
      intros ? [i t] _. simpl. f_equal. lia.
    + split; [by constructor|]. split; [|done]. intros ? [= <-]. lia.
Qed.

Lemma adjust_loop_spec n q a delta :
  (length q + 1 < n)%nat → 0 ≤ delta → queue_ok q →
  ∃ q', adjust_loop quiet n q a delta =
          Some (Ok (q', fire_all (expired delta (deadlines q)) a)) ∧
        deadlines q' = pending delta (deadlines q) ∧ queue_ok q'.
Proof.
  revert q a delta. induction n as [|n IH]; intros q a delta; [lia|].
  intros Hlen Hdelta (Hq & Hhd & Hnd). simpl.
  destruct q as [|m q].
  { exists []. case_match; by repeat split; try constructor. }
  pose proof (Hhd m eq_refl) as Hm. apply Forall_cons in Hq as [_ Hq]. csimpl in Hnd.
  assert (Forall (λ d, remain m ≤ d.2) (deadlines (m :: q))) as Hge.
  { constructor; [simpl; lia|]. by apply deadlines_ge. }
  destruct (Z.ltb_spec 0 delta) as [Hd|Hd]; [destruct (Z.ltb_spec delta (remain m)) as [Hlt|Hlt]|].
  - (* the first entry keeps some time *)
    exists (MkEntry (te_id m) (remain m - delta) :: q).
    rewrite expired_none, pending_all
      by (eapply Forall_impl; [exact Hge|]; simpl; lia). split_and!; [done| |].
    + csimpl. f_equal. replace (0 + (remain m - delta)) with (0 + remain m + - delta) by lia.
      rewrite deadlines_shift. apply list_fmap_ext. intros ? [i t] _. unfold prod_map. simpl.
      f_equal. lia.
    + split; [constructor; [simpl; lia|done]|]. split; [|done]. intros ? [= <-]. simpl. lia.
  - (* the first entry expires *)
    replace (if remain m <? delta then remain m else delta) with (remain m)
      by (destruct (Z.ltb_spec (remain m) delta); lia).
    rewrite Z.sub_diag. simpl in Hlen.
    destruct (expire_zero_spec n (MkEntry (te_id m) 0 :: q) a) as (q1 & -> & Hd1 & Hok1 & Hle);
      [simpl; lia|by constructor|done|].
    destruct (IH q1 (fire_all (expired 0 (deadlines (MkEntry (te_id m) 0 :: q))) a)
                (delta - remain m)) as (q2 & -> & Hd2 & Hok2); [|lia|done|].
    { pose proof (pending_head_length m q) as Hl. rewrite <-Hd1, length_deadlines in Hl. lia. }
    exists q2.
    assert (deadlines (m :: q) =
            prod_map id (Z.add (remain m)) <$> deadlines (MkEntry (te_id m) 0 :: q)) as Es.
    { rewrite <-(deadlines_shift 0). csimpl.
      by rewrite Z.add_0_r. }
    assert (∀ ds : list (eid * Z), expired delta (prod_map id (Z.add (remain m)) <$> ds) =
              expired (delta - remain m) ds) as Ee.
    { intros ds. unfold expired. induction ds as [|[i t] ds IHd]; [done|]. csimpl.
      rewrite !filter_cons. simpl. destruct (decide _), (decide _); csimpl; try lia; congruence. }
    assert (∀ ds : list (eid * Z), pending delta (prod_map id (Z.add (remain m)) <$> ds) =
              pending (delta - remain m) ds) as Ep.
    { intros ds. unfold pending. induction ds as [|[i t] ds IHd]; [done|]. csimpl.
      rewrite !filter_cons. simpl. destruct (decide _), (decide _); csimpl; try lia; [|congruence].
      rewrite IHd. f_equal. f_equal. lia. }
    rewrite Es, Ee, Ep, (expired_split 0 (MkEntry (te_id m) 0 :: q) (delta - remain m) 0)
      by (lia || (constructor; [simpl; lia|done])).
    rewrite (pending_split (delta - remain m) 0) by lia.
    rewrite Z.sub_0_r, <-Hd1. split_and!; [|done|done].
    unfold fire_all. by rewrite foldl_app.
  - (* no time has passed *)
    exists (m :: q). assert (delta = 0) as -> by lia.
    rewrite expired_none, pending_all
      by (eapply Forall_impl; [exact Hge|]; simpl; lia). split_and!; [done| |].
    + rewrite (list_fmap_ext _ id); [by rewrite list_fmap_id|].
      intros ? [i t] _. simpl. f_equal. lia.
    + split; [constructor; [lia|done]|]. by split.
Qed.

Lemma adjust_spec q a delta :
  0 ≤ delta → queue_ok q →
  ∃ q', _k_timeout_queue_adjust quiet (length q + 2) q a delta =
          Some (Ok (q', fire_all (expired delta (deadlines q)) a)) ∧
        deadlines q' = pending delta (deadlines q) ∧ queue_ok q'.
Proof.
  intros Hdelta Hok.
  destruct (adjust_loop_spec (length q + 2) q a delta) as (q' & Hl & Hd & Hok'); [lia|done|done|].
  unfold _k_timeout_queue_adjust. destruct q as [|m q].
  { exists []. by repeat split; try constructor. }
  destruct (Hok) as (_ & Hhd & _). pose proof (Hhd m eq_refl).
  destruct (Z.eqb_spec delta 0) as [->|].
  { exists q'. rewrite <-Hl. done. }
  rewrite (proj2 (Z.eqb_neq (remain m) 0)), (proj2 (Z.ltb_ge delta 0)) by lia. eauto.
Qed.
End AdjustSpec.

(** A callback that behaves like [quiet fire] on the states that occur. *)
Section AdjustExt.
Context {A : Type} (callback : eid → queue * A → outcome (queue * A)) (fire : eid → A → A).
Context (I : A → Prop) (ids : eid → Prop).
Hypothesis callback_quiet : ∀ i q (a : A), I a → ids i →
  callback i (q, a) = quiet fire i (q, a) ∧ I (fire i a).

Definition known q : Prop := ∀ i, i ∈ te_id <$> q → ids i.

Lemma known_tail n q : known (n :: q) → ids (te_id n) ∧ known q.
Proof. intros H. split; [apply H; by constructor|]. intros i Hi. apply H. by apply elem_of_cons; right. Qed.

Lemma expire_zero_ext n : ∀ q a, I a → known q →
  expire_zero callback n q a = expire_zero (quiet fire) n q a ∧
  ∀ q' a', expire_zero (quiet fire) n q a = Some (Ok (q', a')) → I a' ∧ known q'.
Proof.
  induction n as [|n IH]; intros q a Ha Hq; [done|]. cbn [expire_zero]. destruct q as [|m q].
  { split; [done|]. intros q' a' [= <- <-]. done. }
  destruct (known_tail _ _ Hq) as [Hm Hq']. case_match.
  - destruct (callback_quiet (te_id m) q a Ha Hm) as [-> Hf]. simpl. by apply IH.
  - split; [done|]. intros q' a' [= <- <-]. done.
Qed.

Lemma adjust_loop_ext n : ∀ q a delta, I a → known q →
  adjust_loop callback n q a delta = adjust_loop (quiet fire) n q a delta.
Proof.
  induction n as [|n IH]; intros q a delta Ha Hq; [done|]. cbn [adjust_loop].
  case_match; [|done]. destruct q as [|m q]; [done|]. case_match; [done|].
  set (q0 := MkEntry _ _ :: q). assert (known q0) as Hq0 by (intros i Hi; by apply Hq).
  destruct (expire_zero_ext n q0 a Ha Hq0) as [-> Hinv].
  destruct (expire_zero (quiet fire) n q0 a) as [[[q' a']|w]|] eqn:E; [|done..].
  destruct (Hinv q' a' eq_refl). by apply IH.
Qed.

Lemma adjust_ext n q a delta :
  I a → known q →
  _k_timeout_queue_adjust callback n q a delta = _k_timeout_queue_adjust (quiet fire) n q a delta.
Proof.
  intros Ha Hq. unfold _k_timeout_queue_adjust. destruct q; [done|].
  repeat (case_match; [done|]). by apply adjust_loop_ext.
Qed.
End AdjustExt.

Lemma queue_unlink_ids q e i :
  NoDup (te_id <$> q) → i ∈ te_id <$> queue_unlink q e ↔ i ≠ e ∧ i ∈ te_id <$> q.
Proof.
  intros Hnd. rewrite <-!(deadlines_ids 0), queue_unlink_deadlines by done.
  rewrite !list_elem_of_fmap. setoid_rewrite list_elem_of_filter. naive_solver.
Qed.

(** *** Refinement: the delta queue implements a queue of deadlines *)

Inductive top := TAdd (e : eid) (delay : Z) | TRemove (e : eid) | TTick (delta : Z).

(** The code: the queue, and the entries fired so far (newest first), which
    are what the scheduler's callback sees. *)
Definition exec_top (o : top) (qf : queue * list eid) : option (outcome (queue * list eid)) :=
  let '(q, fired) := qf in
  match o with
  | TAdd e d => Some (q ← _k_timeout_queue_add q e d; Ok (q, fired))
  | TRemove e => Some (q ← _k_timeout_queue_remove q e; Ok (q, fired))
  | TTick delta =>
      _k_timeout_queue_adjust (quiet (A := list eid) cons) (length q + 2) q fired delta
  end.

(** The specification: deadlines relative to now, in firing order. *)
Definition spec_top (o : top) (df : list (eid * Z) * list eid) : option (list (eid * Z) * list eid) :=
  let '(ds, fired) := df in
  match o with
  | TAdd e d =>
      if bool_decide (0 < d ∧ e ∉ ds.*1) then Some (insert_deadline e d ds, fired) else None
  | TRemove e =>
      if bool_decide (e ∈ ds.*1) then Some (filter (λ d, d.1 ≠ e) ds, fired) else None
  | TTick delta =>
      if bool_decide (0 ≤ delta) then Some (pending delta ds, rev (expired delta ds) ++ fired)
      else None
  end.

Fixpoint exec_tops (os : list top) (qf : queue * list eid) : option (outcome (queue * list eid)) :=
  match os with
  | [] => Some (Ok qf)
  | o :: os =>
      match exec_top o qf with
      | Some (Ok qf) => exec_tops os qf
      | r => r
      end
  end.

Fixpoint spec_tops (os : list top) (df : list (eid * Z) * list eid) :=
  match os with
  | [] => Some df
  | o :: os => df ← spec_top o df; spec_tops os df
  end.

Lemma queue_insert_ids q e rem : te_id <$> queue_insert q e rem ≡ₚ e :: (te_id <$> q).
Proof.
  revert rem. induction q as [|n q IH]; intros rem; csimpl; [done|].
  destruct (_ <? _); csimpl; [done|]. rewrite IH. apply Permutation_swap.
Qed.

Lemma queue_insert_ok q e d : queue_ok q → 0 < d → e ∉ te_id <$> q → queue_ok (queue_insert q e d).
Proof.
  intros (Hq & Hhd & Hnd) Hd He. split_and!.
  - clear Hhd Hnd He. assert (0 ≤ d) as Hd' by lia. clear Hd.
    revert d Hd'. induction Hq as [|n q Hn Hq IH]; intros d Hd; simpl; [by repeat constructor|].
    destruct (Z.ltb_spec d (remain n)); repeat constructor; simpl; try lia; [done|].
    apply IH. lia.
  - intros m. destruct q as [|n q]; simpl; [intros [= <-]; done|].
    destruct (_ <? _); intros [= <-]; [done|by apply Hhd].
  - rewrite queue_insert_ids. by constructor.
Qed.

Lemma queue_unlink_ok q e : queue_ok q → queue_ok (queue_unlink q e).
Proof.
  intros (Hq & Hhd & Hnd). split_and!.
  - clear Hhd Hnd. induction Hq as [|n q Hn Hq IH]; simpl; [done|]. case_decide.
    + destruct Hq; constructor; simpl; [lia|done].
    + by constructor.
  - intros m. destruct q as [|n q]; simpl; [done|]. pose proof (Hhd n eq_refl).
    case_decide; [|by intros [= <-]]. destruct q as [|n' q]; simpl; [done|].
    apply Forall_cons in Hq as [_ [? _]%Forall_cons]. intros [= <-]. simpl. lia.
  - rewrite <-(deadlines_ids 0), queue_unlink_deadlines by done.
    rewrite <-(deadlines_ids 0) in Hnd. clear -Hnd. induction (deadlines q) as [|d ds IH]; [done|].
    csimpl in *. apply NoDup_cons in Hnd as [Hd Hnd]. rewrite filter_cons. case_decide; [|by auto].
    csimpl. constructor; [|by auto]. intros (d' & ? & [_ ?]%list_elem_of_filter)%list_elem_of_fmap.
    apply Hd, list_elem_of_fmap. by exists d'.
Qed.

Lemma exec_top_refines o q fired df :
  queue_ok q → spec_top o (deadlines q, fired) = Some df →
  ∃ q', exec_top o (q, fired) = Some (Ok (q', df.2)) ∧ deadlines q' = df.1 ∧ queue_ok q'.
Proof.
  intros Hok. destruct o as [e d|e|delta]; simpl; case_bool_decide as Hb; try done; intros [= <-].
  - destruct Hb as [Hd He]. rewrite deadlines_ids in He. unfold _k_timeout_queue_add, queued.
    rewrite (proj2 (Z.ltb_lt 0 d)), bool_decide_eq_false_2 by done. simpl.
    eexists. split; [done|]. split; [apply queue_insert_deadlines|by apply queue_insert_ok].
  - rewrite deadlines_ids in Hb. unfold _k_timeout_queue_remove, queued.
    rewrite bool_decide_eq_true_2 by done. simpl.
    eexists. split; [done|]. split; [|by apply queue_unlink_ok].
    apply queue_unlink_deadlines, Hok.
  - destruct (adjust_spec (A := list eid) cons q fired delta Hb Hok) as (q' & -> & ? & ?).
    exists q'. split; [|done]. do 2 f_equal. simpl. clear.
    revert fired. induction (expired delta (deadlines q)) as [|i l IH]; intros fired; [done|].
    simpl. rewrite <-app_assoc. simpl. by rewrite <-IH.
Qed.

(** C24: the delta list of timeout.c implements a queue of deadlines: any
    sequence of additions, removals and clock advances that is legal on the
    deadlines runs without a failed assertion (and its loops terminate within
    [length q + 2] iterations); it fires the same entries in the same order
    and leaves exactly the remaining deadlines. *)
Theorem timeout_queue_refines (os : list top) (q : queue) (fired : list eid) df :
  queue_ok q → spec_tops os (deadlines q, fired) = Some df →
  ∃ q', exec_tops os (q, fired) = Some (Ok (q', df.2)) ∧ deadlines q' = df.1 ∧ queue_ok q'.
Proof.
  revert q fired. induction os as [|o os IH]; intros q fired Hok; cbn [exec_tops spec_tops].
  - intros [= <-]. eauto.
  - intros ([ds1 f1] & Ho & Hos)%bind_Some.
    destruct (exec_top_refines _ _ _ _ Hok Ho) as (q1 & -> & Hd & Hok1). simpl in *.
    apply IH; [done|]. by rewrite Hd.
Qed.

Lemma timeout_queue_refines_witness :
  ∃ q', exec_tops [TAdd 1 5; TAdd 2 3; TAdd 3 5; TTick 2; TRemove 2; TTick 4] ([], []) =
          Some (Ok (q', [3; 1]%nat)) ∧ deadlines q' = [].
Proof.
  destruct (timeout_queue_refines
    [TAdd 1 5; TAdd 2 3; TAdd 3 5; TTick 2; TRemove 2; TTick 4] [] [] ([], [3; 1]%nat))
    as (q' & ? & ? & _).
  - split; [constructor|]. split; [done|constructor].
  - reflexivity.
  - by exists q'.
Defined.

End Timeout.
