(* ===== verification/Bitmap.v ===== *)
(** Bitmaps of 32-bit words.

    The page allocator (kernel/mm/page.c, macros BITMAP_OFFSET, BITMAP_SHIFT
    and BITMAP_MASK) and the ext2 allocator (kernel/fs/ext2_bitmap.c,
    [bit_test], [bit_set], [bit_clear]) use the same three operations on an
    array of 32-bit words.  [bit] is their meaning. *)

From S2P Require Import Prelude.
#[local] Open Scope Z_scope.

Module Bitmap.

Definition BITS_PER_WORD : Z := 32.

Definition BITMAP_OFFSET (n : Z) : Z := n / BITS_PER_WORD.
Definition BITMAP_SHIFT (n : Z) : Z := n mod BITS_PER_WORD.
Definition BITMAP_MASK (n : Z) : Z := Z.shiftl 1 (BITMAP_SHIFT n).

Implicit Types w : list Z.

Definition bit_test w (n : Z) : outcome bool :=
  x ← deref (w !! Z.to_nat (BITMAP_OFFSET n)) "bitmap index out of range";
  Ok (negb (Z.land x (BITMAP_MASK n) =? 0)).

Definition bit_set w (n : Z) : outcome (list Z) :=
  x ← deref (w !! Z.to_nat (BITMAP_OFFSET n)) "bitmap index out of range";
  Ok (<[Z.to_nat (BITMAP_OFFSET n) := Z.lor x (BITMAP_MASK n)]> w).

Definition bit_clear w (n : Z) : outcome (list Z) :=
  x ← deref (w !! Z.to_nat (BITMAP_OFFSET n)) "bitmap index out of range";
  Ok (<[Z.to_nat (BITMAP_OFFSET n) := Z.land x (Z.lnot (BITMAP_MASK n))]> w).

(** The meaning of a bitmap. *)
Definition bit w (n : Z) : bool :=
  Z.testbit (default 0 (w !! Z.to_nat (n / 32))) (n mod 32).
Definition valid w (n : Z) : Prop := 0 ≤ n < 32 * Z.of_nat (length w).

Lemma valid_lookup w n : valid w n → ∃ x, w !! Z.to_nat (n / 32) = Some x.
Proof.
  intros [? ?]. apply lookup_lt_is_Some_2.
  assert (n / 32 < Z.of_nat (length w)) by (apply Z.div_lt_upper_bound; lia).
  assert (0 ≤ n / 32) by (apply Z.div_pos; lia). lia.
Qed.

Lemma land_mask_test x k : 0 ≤ k → negb (Z.land x (Z.shiftl 1 k) =? 0) = Z.testbit x k.
Proof.
  intros Hk. rewrite Z.shiftl_1_l. destruct (Z.testbit x k) eqn:E.
  - apply negb_true_iff, Z.eqb_neq. intros H0. apply (f_equal (λ z, Z.testbit z k)) in H0.
    rewrite Z.land_spec, Z.pow2_bits_true, E, Z.bits_0 in H0 by done. done.
  - apply negb_false_iff, Z.eqb_eq. apply Z.bits_inj'. intros j Hj.
    rewrite Z.land_spec, Z.bits_0. destruct (decide (j = k)) as [->|].
    + by rewrite E.
    + rewrite Z.pow2_bits_false by done. by rewrite andb_false_r.
Qed.

Lemma bit_test_ok w n : valid w n → bit_test w n = Ok (bit w n).
Proof.
  intros Hv. destruct (valid_lookup _ _ Hv) as [x Hx].
  unfold bit_test, bit, BITMAP_OFFSET, BITMAP_MASK, BITMAP_SHIFT, BITS_PER_WORD.
  rewrite Hx. simpl. f_equal. apply land_mask_test. apply Z.mod_pos_bound. lia.
Qed.

(** Two indices share a word and a position only when they are equal. *)
Lemma same_bit n m :
  0 ≤ n → 0 ≤ m → Z.to_nat (n / 32) = Z.to_nat (m / 32) → n mod 32 = m mod 32 → n = m.
Proof.
  intros Hn Hm Hq Hr. assert (n / 32 = m / 32).
  { apply Z2Nat.inj; [apply Z.div_pos; lia..|done]. }
  rewrite (Z.div_mod n 32), (Z.div_mod m 32) by lia. congruence.
Qed.

Lemma bit_update w n x y :
  valid w n → w !! Z.to_nat (n / 32) = Some x →
  (∀ j, 0 ≤ j → j ≠ n mod 32 → Z.testbit y j = Z.testbit x j) →
  ∀ m, 0 ≤ m → bit (<[Z.to_nat (n / 32) := y]> w) m =
    if decide (m = n) then Z.testbit y (n mod 32) else bit w m.
Proof.
  intros [Hn _] Hx Hy m Hm. unfold bit.
  destruct (decide (Z.to_nat (n / 32) = Z.to_nat (m / 32))) as [E|E].
  - rewrite <-E, list_lookup_insert_eq by (by eapply lookup_lt_Some). simpl.
    case_decide as Em; [by subst|]. rewrite Hx. simpl. apply Hy.
    + apply Z.mod_pos_bound. lia.
    + intros Hr. apply Em. symmetry. by apply same_bit.
  - rewrite list_lookup_insert_ne by done. rewrite decide_False; [done|]. by intros ->.
Qed.

Lemma bit_set_ok w n :
  valid w n →
  ∃ w', bit_set w n = Ok w' ∧ length w' = length w ∧
        ∀ m, 0 ≤ m → bit w' m = if decide (m = n) then true else bit w m.
Proof.
  intros Hv. destruct (valid_lookup _ _ Hv) as [x Hx].
  unfold bit_set, BITMAP_OFFSET, BITMAP_MASK, BITMAP_SHIFT, BITS_PER_WORD.
  rewrite Hx. simpl. eexists. split; [done|]. split; [by rewrite length_insert|].
  intros m Hm. assert (0 ≤ n mod 32) by (apply Z.mod_pos_bound; lia).
  rewrite (bit_update w n x) by (try done;
    intros j ? ?; rewrite Z.lor_spec, Z.shiftl_1_l, Z.pow2_bits_false by done; apply orb_false_r).
  case_decide; [|done].
  rewrite Z.lor_spec, Z.shiftl_1_l, Z.pow2_bits_true by done. apply orb_true_r.
Qed.

Lemma bit_clear_ok w n :
  valid w n →
  ∃ w', bit_clear w n = Ok w' ∧ length w' = length w ∧
        ∀ m, 0 ≤ m → bit w' m = if decide (m = n) then false else bit w m.
Proof.
  intros Hv. destruct (valid_lookup _ _ Hv) as [x Hx].
  unfold bit_clear, BITMAP_OFFSET, BITMAP_MASK, BITMAP_SHIFT, BITS_PER_WORD.
  rewrite Hx. simpl. eexists. split; [done|]. split; [by rewrite length_insert|].
  intros m Hm. assert (0 ≤ n mod 32) by (apply Z.mod_pos_bound; lia).
  rewrite (bit_update w n x) by (try done;
    intros j ? ?; rewrite Z.land_spec, Z.lnot_spec, Z.shiftl_1_l, Z.pow2_bits_false by done;
    apply andb_true_r).
  case_decide; [|done].
  rewrite Z.land_spec, Z.lnot_spec, Z.shiftl_1_l, Z.pow2_bits_true by done. apply andb_false_r.
Qed.

(** An all-zero bitmap. *)
Lemma bit_zero k n : bit (replicate k 0) n = false.
Proof.
  unfold bit. destruct (replicate k 0 !! _) as [x|] eqn:E; simpl.
  - apply lookup_replicate in E as [-> _]. apply Z.bits_0.
  - apply Z.bits_0.
Qed.

End Bitmap.
