(* ===== verification/PageAlloc.v ===== *)
(** The physical page allocator (kernel/mm/page.c, kernel/include/kernel/page.h).

    A binary buddy allocator.  Pages are named by their index in the [pages]
    array, so [page - pages] is the page itself.  The state has the free lists
    with their bitmaps, the descriptors' [ref_count] and [debug_tag] and the
    free counter; the contents of memory are not part of it.  All functions
    run under [page_lock], so they are atomic state transformers. *)

From S2P Require Import Prelude Bitmap.
Import Bitmap.
#[local] Open Scope Z_scope.

Module PageAlloc.

Definition PAGE_ORDER_MAX : nat := 10.
Definition PAGE_SHIFT : Z := 12.
Definition PAGE_SIZE : Z := 4096.
Definition PAGE_ALLOC_ZERO : Z := 1.

Record Page := MkPage { ref_count : Z; debug_tag : Z }.

Record pstate := MkPState {
  page_count : Z;
  pages : gmap Z Page;
  page_free_list : list (list Z);   (* the [link] members, by order *)
  bitmap : list (list Z);           (* the [bitmap] members, by order *)
  page_free_count : Z
}.

Implicit Types (st : pstate) (p q i : Z) (o : nat).

(** [1U << o] *)
Definition bsize o : Z := 2 ^ Z.of_nat o.

Definition set_lists (fl bm : list (list Z)) st : pstate :=
  MkPState (page_count st) (pages st) fl bm (page_free_count st).
Definition set_pages (pg : gmap Z Page) st : pstate :=
  MkPState (page_count st) pg (page_free_list st) (bitmap st) (page_free_count st).
Definition set_free_count (n : Z) st : pstate :=
  MkPState (page_count st) (pages st) (page_free_list st) (bitmap st) n.

Definition page_buddy p o : Z := Z.lxor p (bsize o).

Definition page_list_contains st p o : outcome bool :=
  w ← deref (bitmap st !! o) "bad order";
  bit_test w (p / bsize o).

(** [k_list_is_null (&page->link)]: the descriptor is on no free list. *)
Definition link_is_null st p : bool :=
  forallb (λ l, bool_decide (p ∉ l)) (page_free_list st).

Definition page_list_add st p o : outcome pstate :=
  _ ← k_assert (p mod bsize o =? 0) "Assertion failed: (block_idx % (1U << order)) == 0";
  b ← page_list_contains st p o;
  _ ← k_assert (negb b) "Assertion failed: !page_list_contains(page, order)";
  _ ← k_assert (link_is_null st p) "Assertion failed: k_list_is_null(link)";
  l ← deref (page_free_list st !! o) "bad order";
  w ← deref (bitmap st !! o) "bad order";
  w' ← bit_set w (p / bsize o);
  Ok (set_lists (<[o := p :: l]> (page_free_list st)) (<[o := w']> (bitmap st)) st).

(** [k_list_remove] takes the descriptor off whatever list it is on. *)
Definition page_k_list_remove st p o : outcome pstate :=
  _ ← k_assert (p mod bsize o =? 0) "Assertion failed: (block_idx % (1U << order)) == 0";
  b ← page_list_contains st p o;
  _ ← k_assert b "Assertion failed: page_list_contains(page, order)";
  w ← deref (bitmap st !! o) "bad order";
  w' ← bit_clear w (p / bsize o);
  Ok (set_lists (filter (.≠ p) <$> page_free_list st) (<[o := w']> (bitmap st)) st).

(** [for (o = order; o <= PAGE_ORDER_MAX; o++)]: the first order with a free
    block; [n] iterations are left. *)
Fixpoint first_nonempty (n : nat) (fl : list (list Z)) o : option nat :=
  match n with
  | O => None
  | S n =>
      match fl !! o with
      | Some (_ :: _) => Some o
      | _ => first_nonempty n fl (S o)
      end
  end.

(** [while (o > order)], with [k = o - order]. *)
Fixpoint split_loop (k : nat) (order : nat) p st : outcome (Z * pstate) :=
  match k with
  | O => Ok (p, st)
  | S k =>
      st ← page_list_add st p (order + k);
      split_loop k order (p + bsize (order + k)) st
  end.

(** The tag loops over the pages of a block; [n] pages are left. *)
Fixpoint set_tags (n : nat) p (tag : Z) (pg : gmap Z Page) : outcome (gmap Z Page) :=
  match n with
  | O => Ok pg
  | S n =>
      d ← deref (pg !! p) "bad page index";
      _ ← k_assert (debug_tag d =? 0) "Assertion failed: page[o].debug_tag == 0";
      set_tags n (p + 1) tag (<[p := MkPage (ref_count d) tag]> pg)
  end.

Fixpoint clear_tags (n : nat) p (pg : gmap Z Page) : outcome (gmap Z Page) :=
  match n with
  | O => Ok pg
  | S n =>
      d ← deref (pg !! p) "bad page index";
      clear_tags n (p + 1) (<[p := MkPage (ref_count d) 0]> pg)
  end.

Definition page2pa st p : outcome Z :=
  if (p <? 0) || (page_count st <=? p) then Panic "bad page index"
  else Ok (Z.shiftl p PAGE_SHIFT).

(** The first half of [page_alloc_block]: the search, the removal, the counter
    and the splitting loop. *)
Definition take_block st (order : nat) : outcome (Z * pstate) :=
  match first_nonempty (PAGE_ORDER_MAX + 1 - order) (page_free_list st) order with
  | None => Panic "out of memory"
  | Some o =>
      l ← deref (page_free_list st !! o) "bad order";
      page ← deref (head l) "empty list";
      st ← page_k_list_remove st page o;
      let st := set_free_count (u32 (page_free_count st - bsize order)) st in
      split_loop (o - order) order page st
  end.

Definition page_alloc_block st (order : nat) (flags tag : Z) : outcome (Z * pstate) :=
  '(page, st) ← take_block st order;
  d ← deref (pages st !! page) "bad page index";
  _ ← k_assert (ref_count d =? 0) "Assertion failed: page->ref_count == 0";
  b ← page_list_contains st page order;
  _ ← k_assert (negb b) "Assertion failed: !page_list_contains(page, order)";
  _ ← (if Z.land flags PAGE_ALLOC_ZERO =? 0 then Ok 0 else page2pa st page);
  pg ← set_tags (Z.to_nat (bsize order)) page tag (pages st);
  Ok (page, set_pages pg st).

(** [for (o = order; o < PAGE_ORDER_MAX; o++)], with [n = PAGE_ORDER_MAX - o]. *)
Fixpoint merge_loop (n : nat) o p st : outcome (Z * nat * pstate) :=
  match n with
  | O => Ok (p, o, st)
  | S n =>
      let buddy := page_buddy p o in
      b ← page_list_contains st buddy o;
      if (b : bool) then
        st ← page_k_list_remove st buddy o;
        merge_loop n (S o) (if buddy <? p then buddy else p) st
      else Ok (p, o, st)
  end.

Definition page_free_block st p (order : nat) : outcome pstate :=
  d ← deref (pages st !! p) "bad page index";
  if negb (ref_count d =? 0) then Panic "page->ref_count != 0" else
  pg ← clear_tags (Z.to_nat (bsize order)) p (pages st);
  let st := set_pages pg st in
  '(p, o, st) ← merge_loop (PAGE_ORDER_MAX - order) order p st;
  st ← page_list_add st p o;
  Ok (set_free_count (u32 (page_free_count st + bsize order)) st).

(** The inner loop of [page_free_region]: the largest order, at most [o], for
    which [idx] is aligned and the block ends before [last]. *)
Fixpoint region_order o (idx last : Z) : nat :=
  match o with
  | O => O
  | S o' =>
      if (Z.land idx (bsize o - 1) =? 0) && (idx + bsize o <=? last) then o
      else region_order o' idx last
  end.

(** The outer loop; every iteration frees at least one page. *)
Fixpoint free_region_loop (n : nat) (idx last : Z) st : outcome pstate :=
  match n with
  | O => Ok st
  | S n =>
      if idx <? last then
        let o := region_order PAGE_ORDER_MAX idx last in
        st ← page_free_block st idx o;
        free_region_loop n (idx + bsize o) last st
      else Ok st
  end.

Definition page_free_region st (start last : Z) : outcome pstate :=
  let page_idx := u32 (start + PAGE_SIZE - 1) / PAGE_SIZE in
  let last_page_idx := last / PAGE_SIZE in
  free_region_loop (Z.to_nat (last_page_idx - page_idx)) page_idx last_page_idx st.

(** [page_inc_ref] and [page_dec_ref] of page.h. *)
Definition add_ref (d : Z) st p : outcome pstate :=
  x ← deref (pages st !! p) "bad page index";
  Ok (set_pages (<[p := MkPage (ref_count x + d) (debug_tag x)]> (pages st)) st).

Definition page_inc_ref st p : outcome pstate := add_ref 1 st p.

Definition page_dec_ref st p (order : nat) : outcome pstate :=
  st ← add_ref (-1) st p;
  x ← deref (pages st !! p) "bad page index";
  if ref_count x =? 0 then page_free_block st p order else Ok st.

(** [page_estimate_order]: [PAGE_SIZE << page_order] is a 32-bit shift, so the
    loop finds no order once it has reached 20. *)
Fixpoint estimate_loop (n : nat) o (size : Z) : option nat :=
  match n with
  | O => None
  | S n => if u32 (PAGE_SIZE * bsize o) <? size then estimate_loop n (S o) size else Some o
  end.
Definition page_estimate_order (size : Z) : option nat := estimate_loop 20 0 size.

Definition pa2page st (pa : Z) : outcome Z :=
  if page_count st <=? Z.shiftr pa PAGE_SHIFT then Panic "bad page index"
  else Ok (Z.shiftr pa PAGE_SHIFT).

(** [page_assert]: the tag loop, then the reference count of the first page. *)
Fixpoint tags_are (n : nat) p (tag : Z) (pg : gmap Z Page) : outcome unit :=
  match n with
  | O => Ok tt
  | S n =>
      d ← deref (pg !! p) "bad page index";
      if debug_tag d =? tag then tags_are n (p + 1) tag pg else Panic "unexpected tag"
  end.
Definition page_assert st p (order : nat) (tag : Z) : outcome unit :=
  _ ← tags_are (Z.to_nat (bsize order)) p tag (pages st);
  d ← deref (pages st !! p) "bad page index";
  if ref_count d =? 0 then Panic "page not allocated" else Ok tt.

(** *** Initialisation *)

Definition PHYS_LIMIT : Z := 0x10000000.
Definition ROUND_UP (x n : Z) : Z := (x + (n - 1)) - (x + (n - 1)) mod n.
Definition sizeof_Page : Z := 16.

(** [boot_alloc] before [page_initialized] is set, on physical addresses:
    [kend] is the physical address of [_end] and [limit] is PHYS_ENTRY_LIMIT. *)
Definition boot_alloc (kend limit : Z) (next_free : option Z) (n : Z) : outcome (Z * option Z) :=
  let ret := default (ROUND_UP kend 4) next_free in
  if n =? 0 then Ok (ret, Some ret) else
  let next := ret + ROUND_UP n 4 in
  if limit <? next then Panic "out of memory" else Ok (ret, Some next).

(** The loop that allocates the bitmaps: [bitmap_len] zeroed bytes each. *)
Fixpoint init_bitmaps (kend limit : Z) (n : nat) (i : nat) (pc : Z) (nf : option Z)
  : outcome (list (list Z) * option Z) :=
  match n with
  | O => Ok ([], nf)
  | S n =>
      let bitmap_len := ROUND_UP (pc / bsize i) 8 in
      '(_, nf) ← boot_alloc kend limit nf bitmap_len;
      '(bm, nf) ← init_bitmaps kend limit n (S i) pc nf;
      Ok (replicate (Z.to_nat (bitmap_len / 4)) 0 :: bm, nf)
  end.

Definition zero_pages (pc : Z) : gmap Z Page :=
  list_to_map ((λ i, (i, MkPage 0 0)) <$> seqZ 0 pc).

Definition page_init_low (kend limit : Z) : outcome pstate :=
  let pc := PHYS_LIMIT / PAGE_SIZE in
  '(_, nf) ← boot_alloc kend limit None (pc * sizeof_Page);
  '(bm, nf) ← init_bitmaps kend limit (PAGE_ORDER_MAX + 1) 0 pc nf;
  '(start, _) ← boot_alloc kend limit nf 0;
  let st := MkPState pc (zero_pages pc) (replicate (PAGE_ORDER_MAX + 1) []) bm 0 in
  page_free_region st start limit.

Definition page_init_high (limit : Z) st : outcome pstate :=
  page_free_region st limit PHYS_LIMIT.

(** *** Geometry of blocks *)

Definition aligned p o : Prop := (bsize o | p).
Definition in_blk p o i : Prop := p ≤ i < p + bsize o.

Lemma bsize_pos o : 0 < bsize o.
Proof. apply Z.pow_pos_nonneg; lia. Qed.
#[local] Hint Resolve bsize_pos : core.

Lemma bsize_S o : bsize (S o) = 2 * bsize o.
Proof. unfold bsize. rewrite Nat2Z.inj_succ, Z.pow_succ_r; lia. Qed.

Lemma bsize_add o k : bsize (o + k) = bsize o * bsize k.
Proof. unfold bsize. rewrite Nat2Z.inj_add, Z.pow_add_r; lia. Qed.

Lemma bsize_mono o o' : (o ≤ o')%nat → bsize o ≤ bsize o'.
Proof. intros. apply Z.pow_le_mono_r; lia. Qed.

Lemma bsize_divide o o' : (o ≤ o')%nat → (bsize o | bsize o').
Proof.
  intros. replace o' with (o + (o' - o))%nat by lia. rewrite bsize_add. apply Z.divide_factor_l.
Qed.

Lemma aligned_le p o o' : (o ≤ o')%nat → aligned p o' → aligned p o.
Proof. intros ? ?. eapply Z.divide_trans; [by apply bsize_divide|done]. Qed.

Lemma aligned_mod p o : aligned p o ↔ p mod bsize o = 0.
Proof. symmetry. apply Z.mod_divide. pose proof (bsize_pos o); lia. Qed.

Lemma aligned_add p q o : aligned p o → aligned q o → aligned (p + q) o.
Proof. apply Z.divide_add_r. Qed.

Lemma aligned_bsize o o' : (o ≤ o')%nat → aligned (bsize o') o.
Proof. apply bsize_divide. Qed.

Lemma in_blk_first p o : in_blk p o p.
Proof. pose proof (bsize_pos o). unfold in_blk. lia. Qed.
#[local] Hint Resolve in_blk_first : core.

(** Aligned blocks are nested or disjoint. *)
Lemma nested p o q o' i :
  (o ≤ o')%nat → aligned p o → aligned q o' → in_blk p o i → in_blk q o' i →
  q ≤ p ∧ p + bsize o ≤ q + bsize o'.
Proof.
  intros Hle [a ->] [b ->] [??] [??]. pose proof (bsize_pos o).
  destruct (bsize_divide _ _ Hle) as [c Hc]. rewrite Hc in *.
  assert (b * c ≤ a) by nia. assert (a + 1 ≤ b * c + c) by nia. nia.
Qed.

Lemma same_order p q o i :
  aligned p o → aligned q o → in_blk p o i → in_blk q o i → p = q.
Proof.
  intros. destruct (nested p o q o i) as [??]; auto. lia.
Qed.

(** The buddy is the other half of the block of the next order. *)
Lemma testbit_aligned a o : Z.testbit (a * bsize o) (Z.of_nat o) = Z.odd a.
Proof.
  unfold bsize. rewrite <-Z.shiftl_mul_pow2 by lia.
  rewrite Z.shiftl_spec by lia. by rewrite Z.sub_diag, Z.bit0_odd.
Qed.

Lemma lxor_clear x o : Z.testbit x (Z.of_nat o) = false → Z.lxor x (bsize o) = x + bsize o.
Proof.
  intros Hb. symmetry. apply Z.add_nocarry_lxor, Z.bits_inj'. intros j ?.
  rewrite Z.land_spec, Z.bits_0. unfold bsize. destruct (decide (j = Z.of_nat o)) as [->|].
  - by rewrite Hb.
  - rewrite Z.pow2_bits_false by done. apply andb_false_r.
Qed.

Lemma page_buddy_involutive p o : page_buddy (page_buddy p o) o = p.
Proof. unfold page_buddy. by rewrite Z.lxor_assoc, Z.lxor_nilpotent, Z.lxor_0_r. Qed.

Lemma page_buddy_cases p o :
  aligned p o →
  (page_buddy p o = p + bsize o ∧ aligned p (S o)) ∨
  (page_buddy p o = p - bsize o ∧ aligned (p - bsize o) (S o)).
Proof.
  intros [a ->]. pose proof (bsize_S o) as HS. pose proof (testbit_aligned a o) as Ht.
  destruct (Z.odd a) eqn:Ha; [right|left].
  - apply Z.odd_spec in Ha as [b ->].
    replace ((2 * b + 1) * bsize o) with (2 * b * bsize o + bsize o) by lia.
    rewrite <-lxor_clear.
    2: { rewrite testbit_aligned, Z.odd_mul. done. }
    unfold page_buddy. rewrite Z.lxor_assoc, Z.lxor_nilpotent, Z.lxor_0_r.
    rewrite lxor_clear by (rewrite testbit_aligned, Z.odd_mul; done).
    split; [lia|]. exists b. lia.
  - split; [by apply lxor_clear|].
    assert (Z.even a = true) as [b ->]%Z.even_spec by (by rewrite <-Z.negb_odd, Ha).
    exists b. lia.
Qed.

(** *** The invariant *)

Definition is_free st o p : Prop := ∃ l, page_free_list st !! o = Some l ∧ p ∈ l.
Definition covered st i : Prop := ∃ o p, is_free st o p ∧ in_blk p o i.
Definition clean st i : Prop := pages st !! i = Some (MkPage 0 0).

(** The number of pages on the free lists. *)
Fixpoint total_from (k : nat) (fl : list (list Z)) : Z :=
  match fl with
  | [] => 0
  | l :: fl => Z.of_nat (length l) * bsize k + total_from (S k) fl
  end.
Definition total st : Z := total_from 0 (page_free_list st).

(** A block that lies in the page array. *)
Definition good_blk st p o : Prop :=
  0 ≤ p ∧ aligned p o ∧ p + bsize o ≤ page_count st ∧ (o ≤ PAGE_ORDER_MAX)%nat.

(** The free lists and bitmaps describe a set of disjoint aligned blocks of
    clean pages.  This part of the invariant also holds between the steps of
    an operation. *)
Record lists_ok st : Prop := {
  lo_count : 0 < page_count st ≤ 2 ^ 20 ∧ (bsize PAGE_ORDER_MAX | page_count st);
  lo_free_len : length (page_free_list st) = S PAGE_ORDER_MAX;
  lo_bitmap_len : length (bitmap st) = S PAGE_ORDER_MAX;
  lo_words : ∀ o w, bitmap st !! o = Some w → page_count st / bsize o ≤ 32 * Z.of_nat (length w);
  lo_bit : ∀ o w p, bitmap st !! o = Some w → good_blk st p o →
    bit w (p / bsize o) = true ↔ is_free st o p;
  lo_nodup : ∀ o l, page_free_list st !! o = Some l → NoDup l;
  lo_good : ∀ o p, is_free st o p → good_blk st p o;
  lo_disj : ∀ o1 p1 o2 p2 i, is_free st o1 p1 → is_free st o2 p2 →
    in_blk p1 o1 i → in_blk p2 o2 i → o1 = o2 ∧ p1 = p2;
  lo_clean : ∀ i, covered st i → clean st i;
  lo_pages : ∀ i, 0 ≤ i < page_count st → is_Some (pages st !! i)
}.

(** Between operations no two free buddies are left unmerged and the counter
    is the number of free pages. *)
Record wf st : Prop := {
  wf_lists :> lists_ok st;
  wf_coalesced : ∀ o p, (o < PAGE_ORDER_MAX)%nat → is_free st o p → ¬ is_free st o (page_buddy p o);
  wf_total : page_free_count st = total st
}.

(** *** The two list operations *)

Lemma total_insert k o l l' fl :
  fl !! o = Some l →
  total_from k (<[o := l']> fl) =
  total_from k fl + (Z.of_nat (length l') - Z.of_nat (length l)) * bsize (k + o).
Proof.
  revert k o. induction fl as [|x fl IH]; intros k [|o] Hl; simplify_eq/=.
  - rewrite Nat.add_0_r. lia.
  - rewrite IH by done. replace (k + S o)%nat with (S k + o)%nat by lia. lia.
Qed.

Lemma good_blk_word st p o w :
  lists_ok st → good_blk st p o → bitmap st !! o = Some w → valid w (p / bsize o).
Proof.
  intros Hst (Hp & [a ->] & Hc & _) Hw. pose proof (bsize_pos o).
  pose proof (lo_words _ Hst _ _ Hw). rewrite Z.div_mul by lia.
  split; [nia|]. eapply Z.lt_le_trans; [|done].
  assert ((a + 1) * bsize o / bsize o ≤ page_count st / bsize o) as Hd
    by (apply Z.div_le_mono; lia). rewrite Z.div_mul in Hd by lia. lia.
Qed.

Lemma order_bitmap st o : lists_ok st → (o ≤ PAGE_ORDER_MAX)%nat → ∃ w, bitmap st !! o = Some w.
Proof. intros Hst ?. apply lookup_lt_is_Some_2. rewrite (lo_bitmap_len _ Hst). lia. Qed.

Lemma order_list st o : lists_ok st → (o ≤ PAGE_ORDER_MAX)%nat → ∃ l, page_free_list st !! o = Some l.
Proof. intros Hst ?. apply lookup_lt_is_Some_2. rewrite (lo_free_len _ Hst). lia. Qed.

#[export] Instance is_free_dec st o p : Decision (is_free st o p).
Proof.
  unfold is_free. destruct (page_free_list st !! o) as [l|]; [destruct (decide (p ∈ l))|].
  - left. by exists l.
  - right. intros (? & ? & ?). by simplify_eq.
  - right. intros (? & ? & ?). by simplify_eq.
Defined.

Lemma page_list_contains_ok st p o :
  lists_ok st → good_blk st p o →
  page_list_contains st p o = Ok (bool_decide (is_free st o p)).
Proof.
  intros Hst Hg. destruct (order_bitmap st o Hst) as [w Hw]; [apply Hg|].
  unfold page_list_contains. rewrite Hw. simpl.
  rewrite bit_test_ok by (by eapply good_blk_word). f_equal.
  pose proof (lo_bit _ Hst _ _ _ Hw Hg) as Hb.
  destruct (bit _ _); symmetry; [apply bool_decide_eq_true|apply bool_decide_eq_false]; naive_solver.
Qed.

Lemma covered_self st o p : is_free st o p → covered st p.
Proof. intros. exists o, p. auto. Qed.

(** Two aligned pages of the same order have the same bitmap index only when
    they are equal. *)
Lemma index_inj st p q o :
  good_blk st p o → good_blk st q o → p / bsize o = q / bsize o → p = q.
Proof.
  intros (_ & [a ->] & _) (_ & [b ->] & _). pose proof (bsize_pos o).
  rewrite !Z.div_mul by lia. by intros ->.
Qed.

Lemma link_is_null_ok st p : (∀ o, ¬ is_free st o p) → link_is_null st p = true.
Proof.
  intros H. apply forallb_forall. intros l Hl%list_elem_of_In.
  apply bool_decide_eq_true. intros Hp. apply list_elem_of_lookup in Hl as [o Ho].
  apply (H o). by exists l.
Qed.

Lemma is_free_insert st o l l' bm o' q :
  page_free_list st !! o = Some l →
  is_free (set_lists (<[o := l']> (page_free_list st)) bm st) o' q ↔
  if decide (o' = o) then q ∈ l' else is_free st o' q.
Proof.
  intros Hl. unfold is_free. simpl. case_decide as E.
  - subst. rewrite list_lookup_insert_eq by (by eapply lookup_lt_Some). naive_solver.
  - by rewrite list_lookup_insert_ne by done.
Qed.

(** Replacing one list and its bitmap keeps [lists_ok] when the new blocks
    are good, clean and disjoint. *)
Lemma lists_ok_update st o l l' w w' :
  lists_ok st → (o ≤ PAGE_ORDER_MAX)%nat →
  page_free_list st !! o = Some l → bitmap st !! o = Some w →
  let st' := set_lists (<[o := l']> (page_free_list st)) (<[o := w']> (bitmap st)) st in
  length w' = length w →
  NoDup l' →
  (∀ p, good_blk st p o → bit w' (p / bsize o) = true ↔ p ∈ l') →
  (∀ p, p ∈ l' → p ∉ l →
     good_blk st p o ∧ (∀ i, in_blk p o i → clean st i ∧ ¬ covered st i)) →
  (∀ p q, p ∈ l' → q ∈ l' → p ∉ l → p = q ∨ q ∈ l) →
  lists_ok st'.
Proof.
  intros Hst Ho Hl Hw st' Hlen Hnd Hbit Hnew Hone.
  assert (∀ o' q, is_free st' o' q ↔ if decide (o' = o) then q ∈ l' else is_free st o' q) as Hf
    by (intros; by apply (is_free_insert _ _ l)).
  assert (∀ o' q, is_free st' o' q → is_free st o' q ∨ (o' = o ∧ q ∈ l' ∧ q ∉ l)) as Hor.
  { intros o' q. rewrite Hf. case_decide; [|by left]. subst. intros.
    destruct (decide (q ∈ l)); [left; by exists l|by right]. }
  pose proof (lo_good _ Hst) as Hgood.
  split; try apply Hst.
  - simpl. rewrite length_insert. apply Hst.
  - simpl. rewrite length_insert. apply Hst.
  - simpl. intros o' x Hx. destruct (decide (o' = o)) as [->|].
    + rewrite list_lookup_insert_eq in Hx by (by eapply lookup_lt_Some). simplify_eq.
      rewrite Hlen. by eapply Hst.
    + rewrite list_lookup_insert_ne in Hx by done. by eapply Hst.
  - simpl. intros o' x p Hx Hg. rewrite Hf. case_decide as E.
    + subst. rewrite list_lookup_insert_eq in Hx by (by eapply lookup_lt_Some). simplify_eq.
      by apply Hbit.
    + rewrite list_lookup_insert_ne in Hx by done. by apply (lo_bit _ Hst).
  - simpl. intros o' x Hx. destruct (decide (o' = o)) as [->|].
    + rewrite list_lookup_insert_eq in Hx by (by eapply lookup_lt_Some). by simplify_eq.
    + rewrite list_lookup_insert_ne in Hx by done. by eapply (lo_nodup _ Hst).
  - intros o' p [?|(-> & ? & ?)]%Hor; [by apply Hgood|by apply Hnew].
  - intros o1 p1 o2 p2 i H1 H2 Hi1 Hi2.
    destruct (Hor _ _ H1) as [F1|(-> & ? & ?)], (Hor _ _ H2) as [F2|(-> & ? & ?)].
    + by eapply (lo_disj _ Hst).
    + exfalso. eapply (Hnew p2); [done..|]. by exists o1, p1.
    + exfalso. eapply (Hnew p1); [done..|]. by exists o2, p2.
    + destruct (Hone p1 p2); [done..|done|]. exfalso. eauto.
  - intros i (o' & p & [?|(-> & ? & ?)]%Hor & Hi).
    + apply (lo_clean _ Hst). by exists o', p.
    + by apply (Hnew p).
Qed.

(** What an operation on the lists leaves alone. *)
Definition same_pages st st' : Prop :=
  page_count st' = page_count st ∧ pages st' = pages st ∧ page_free_count st' = page_free_count st.

Lemma page_list_add_ok st p o :
  lists_ok st → good_blk st p o → (∀ i, in_blk p o i → clean st i ∧ ¬ covered st i) →
  ∃ st', page_list_add st p o = Ok st' ∧ lists_ok st' ∧ same_pages st st' ∧
    total st' = total st + bsize o ∧
    ∀ o' q, is_free st' o' q ↔ is_free st o' q ∨ (o' = o ∧ q = p).
Proof.
  intros Hst Hg Hclean. pose proof Hg as (Hp0 & Hal & _ & Ho).
  destruct (order_bitmap st o Hst Ho) as [w Hw]. destruct (order_list st o Hst Ho) as [l Hl].
  assert (∀ o', ¬ is_free st o' p) as Hnf
    by (intros o' F; eapply (Hclean p); [done|]; by eapply covered_self).
  destruct (bit_set_ok w (p / bsize o)) as (w' & Hset & Hlen & Hbit); [by eapply good_blk_word|].
  assert (p ∉ l) as Hpl by (intros ?; apply (Hnf o); by exists l).
  unfold page_list_add. rewrite (proj1 (aligned_mod p o)) by done. simpl.
  rewrite page_list_contains_ok, bool_decide_eq_false_2 by auto. simpl.
  rewrite link_is_null_ok by done. simpl. rewrite Hl, Hw. simpl. rewrite Hset. simpl.
  eexists. split; [done|]. split; [|split; [done|split]].
  - eapply lists_ok_update; eauto.
    + constructor; [done|]. by eapply (lo_nodup _ Hst).
    + intros q Hq. rewrite Hbit by (apply Z.div_pos; [apply Hq|done]).
      rewrite elem_of_cons. case_decide as E.
      * apply (index_inj st) in E; [|done..]. naive_solver.
      * rewrite (lo_bit _ Hst _ _ _ Hw Hq). unfold is_free. rewrite Hl.
        split; [naive_solver|]. intros [->|?]; [done|eauto].
    + intros q [->|?]%elem_of_cons ?; [done|done].
    + intros q r [->|?]%elem_of_cons [->|?]%elem_of_cons ?; auto. done.
  - unfold total. simpl. rewrite (total_insert 0 o l) by done. simpl. lia.
  - intros o' q. rewrite (is_free_insert st o l) by done. case_decide; subst.
    + rewrite elem_of_cons. unfold is_free. rewrite Hl. naive_solver.
    + naive_solver.
Qed.

(** [k_list_remove] only affects the list of the block's own order. *)
Lemma remove_lists st p o l :
  lists_ok st → is_free st o p → page_free_list st !! o = Some l →
  filter (.≠ p) <$> page_free_list st = <[o := filter (.≠ p) l]> (page_free_list st).
Proof.
  intros Hst Hf Hl. apply list_eq. intros o'. rewrite list_lookup_fmap.
  destruct (decide (o' = o)) as [->|].
  - rewrite list_lookup_insert_eq by (by eapply lookup_lt_Some). by rewrite Hl.
  - rewrite list_lookup_insert_ne by done.
    destruct (page_free_list st !! o') as [l'|] eqn:E; [|done]. simpl. f_equal.
    apply filter_ne_notin. intros Hp.
    destruct (lo_disj _ Hst o' p o p p); auto; by exists l'.
Qed.

Lemma page_k_list_remove_ok st p o :
  lists_ok st → is_free st o p →
  ∃ st', page_k_list_remove st p o = Ok st' ∧ lists_ok st' ∧ same_pages st st' ∧
    total st' = total st - bsize o ∧
    ∀ o' q, is_free st' o' q ↔ is_free st o' q ∧ ¬ (o' = o ∧ q = p).
Proof.
  intros Hst Hf. pose proof (lo_good _ Hst _ _ Hf) as Hg. pose proof Hg as (Hp0 & Hal & _ & Ho).
  destruct (order_bitmap st o Hst Ho) as [w Hw]. pose proof Hf as (l & Hl & Hpl).
  destruct (bit_clear_ok w (p / bsize o)) as (w' & Hset & Hlen & Hbit); [by eapply good_blk_word|].
  pose proof (lo_nodup _ Hst _ _ Hl) as Hnd.
  unfold page_k_list_remove. rewrite (proj1 (aligned_mod p o)) by done. simpl.
  rewrite page_list_contains_ok, bool_decide_eq_true_2 by auto. simpl. rewrite Hw. simpl.
  rewrite Hset. simpl. rewrite (remove_lists st p o l) by done.
  eexists. split; [done|]. split; [|split; [done|split]].
  - eapply lists_ok_update; eauto.
    + by apply NoDup_filter.
    + intros q Hq. rewrite Hbit by (apply Z.div_pos; [apply Hq|done]).
      rewrite list_elem_of_filter. case_decide as E.
      * apply (index_inj st) in E; [|done..]. naive_solver.
      * rewrite (lo_bit _ Hst _ _ _ Hw Hq). unfold is_free. rewrite Hl. split; [|naive_solver].
        intros (? & ? & ?); simplify_eq. split; [by intros ->|done].
    + intros q [_ ?]%list_elem_of_filter ?. done.
    + intros q r [_ ?]%list_elem_of_filter _ ?. done.
  - unfold total. simpl. rewrite (total_insert 0 o l) by done.
    apply list_elem_of_split in Hpl as (l1 & l2 & ->).
    rewrite filter_ne_split by done. rewrite !length_app. cbn [length Nat.add]. lia.
  - intros o' q. rewrite (is_free_insert st o l) by done. case_decide; subst.
    + rewrite list_elem_of_filter. unfold is_free. rewrite Hl. naive_solver.
    + naive_solver.
Qed.

(** Changing the counter or the pages of blocks that are not free. *)
Lemma lists_ok_pages st st' :
  lists_ok st → page_count st' = page_count st → page_free_list st' = page_free_list st →
  bitmap st' = bitmap st →
  (∀ i, covered st i → pages st' !! i = pages st !! i) →
  (∀ i, is_Some (pages st !! i) → is_Some (pages st' !! i)) →
  lists_ok st'.
Proof.
  intros Hst Hc Hfl Hbm Hpg Hin. destruct st as [c pg fl bm n], st' as [c' pg' fl' bm' n'].
  simpl in *. subst. destruct Hst. split; try done.
  - intros i Hi. unfold clean. simpl. rewrite Hpg by done. by apply lo_clean0.
  - intros i Hi. by apply Hin, lo_pages0.
Qed.

Lemma covered_ext st st' :
  page_free_list st' = page_free_list st → ∀ i, covered st' i ↔ covered st i.
Proof. intros E i. unfold covered, is_free. by rewrite E. Qed.

Lemma is_free_ext st st' :
  page_free_list st' = page_free_list st → ∀ o p, is_free st' o p ↔ is_free st o p.
Proof. intros E o p. unfold is_free. by rewrite E. Qed.

Lemma total_nonneg k fl : 0 ≤ total_from k fl.
Proof.
  revert k. induction fl as [|l fl IH]; intros k; simpl; [done|].
  specialize (IH (S k)). pose proof (bsize_pos k). nia.
Qed.

(** *** Splitting *)

Lemma first_nonempty_Some n fl o0 o :
  first_nonempty n fl o0 = Some o →
  (o0 ≤ o < o0 + n)%nat ∧ ∃ p l, fl !! o = Some (p :: l).
Proof.
  revert o0. induction n as [|n IH]; intros o0 H; simpl in H; [done|].
  destruct (fl !! o0) as [[|p l]|] eqn:E; [|simplify_eq|].
  2: { split; [lia|eauto]. }
  all: apply IH in H as [? ?]; split; [lia|done].
Qed.

Lemma first_nonempty_None n fl o0 :
  first_nonempty n fl o0 = None →
  ∀ o p l, (o0 ≤ o < o0 + n)%nat → fl !! o = Some l → p ∉ l.
Proof.
  revert o0. induction n as [|n IH]; intros o0 H o p l Ho Hl; simpl in H; [lia|].
  destruct (decide (o = o0)) as [->|].
  - rewrite Hl in H. destruct l; [apply not_elem_of_nil|done].
  - apply (IH (S o0)) with (o := o); [|lia|done]. by destruct (fl !! o0) as [[|??]|].
Qed.

(** The pieces of a block of order [order + k] that [split_loop] puts back. *)
Definition piece (order k : nat) p o q : Prop :=
  ∃ j, (j < k)%nat ∧ o = (order + j)%nat ∧ q = p + bsize (order + k) - bsize (S (order + j)).

Lemma piece_S order k p o q :
  piece order (S k) p o q ↔
  (o = (order + k)%nat ∧ q = p) ∨ piece order k (p + bsize (order + k)) o q.
Proof.
  unfold piece. replace (order + S k)%nat with (S (order + k)) by lia. rewrite bsize_S. split.
  - intros (j & ? & -> & ->). destruct (decide (j = k)) as [->|].
    + left. split; [done|]. rewrite bsize_S. lia.
    + right. exists j. split; [lia|]. split; [done|lia].
  - intros [[-> ->]|(j & ? & -> & ->)].
    + exists k. rewrite bsize_S. split; [lia|]. split; [done|lia].
    + exists j. split; [lia|]. split; [done|lia].
Qed.

Definition allocatable st p o : Prop := ∀ i, in_blk p o i → clean st i ∧ ¬ covered st i.

Lemma split_loop_ok k : ∀ order p st,
  lists_ok st → good_blk st p (order + k) → allocatable st p (order + k) →
  ∃ st', split_loop k order p st = Ok (p + bsize (order + k) - bsize order, st') ∧
    lists_ok st' ∧ same_pages st st' ∧ total st' = total st + bsize (order + k) - bsize order ∧
    ∀ o q, is_free st' o q ↔ is_free st o q ∨ piece order k p o q.
Proof.
  induction k as [|k IH]; intros order p st Hst Hg Hcl; cbn [split_loop].
  - exists st. rewrite Nat.add_0_r. split; [do 2 f_equal; lia|]. split; [done|].
    split; [done|]. split; [lia|]. intros. split; [auto|]. intros [?|(? & ? & _)]; [done|lia].
  - replace (order + S k)%nat with (S (order + k)) in * by lia.
    destruct Hg as (? & Hal & Hend & Ho). rewrite bsize_S in Hend. pose proof (bsize_pos (order + k)).
    assert (aligned p (order + k)) by (eapply aligned_le; [|done]; lia).
    destruct (page_list_add_ok st p (order + k)) as (st1 & -> & Hst1 & (Hc1 & Hp1 & Hn1) & Ht1 & Hf1);
      [done|by repeat split; try lia|intros i [??]; apply Hcl; split; rewrite ?bsize_S; lia|].
    cbn [mbind outcome_bind].
    destruct (IH order (p + bsize (order + k)) st1) as (st2 & -> & Hst2 & (Hc2 & Hp2 & Hn2) & Ht2 & Hf2).
    + done.
    + repeat split; [lia| |lia|lia]. by apply aligned_add, aligned_bsize.
    + intros i [??]. assert (in_blk p (S (order + k)) i) as Hi by (split; rewrite ?bsize_S; lia).
      destruct (Hcl i Hi) as [Hci Hni]. split; [unfold clean; by rewrite Hp1|].
      intros (o & q & [?|[-> ->]]%Hf1 & [??]); [|lia]. apply Hni. by exists o, q.
    + exists st2. rewrite bsize_S. split; [do 2 f_equal; lia|]. split; [done|].
      split; [unfold same_pages in *; by rewrite Hc2, Hp2, Hn2|]. split; [lia|].
      intros o q. rewrite Hf2, Hf1.
      replace (S (order + k)) with (order + S k)%nat by lia. rewrite piece_S. tauto.
Qed.

(** The pages on the free lists. *)
Fixpoint cover_from (k : nat) (fl : list (list Z)) : list Z :=
  match fl with
  | [] => []
  | l :: fl => (l ≫= λ p, seqZ p (bsize k)) ++ cover_from (S k) fl
  end.

Lemma cover_block i k (l : list Z) :
  i ∈ (l ≫= λ p, seqZ p (bsize k)) ↔ ∃ p, p ∈ l ∧ in_blk p k i.
Proof. rewrite list_elem_of_bind. setoid_rewrite elem_of_seqZ. unfold in_blk. naive_solver. Qed.

Lemma elem_of_cover i k fl :
  i ∈ cover_from k fl ↔ ∃ o l p, fl !! o = Some l ∧ p ∈ l ∧ in_blk p (k + o) i.
Proof.
  revert k. induction fl as [|l fl IH]; intros k; cbn [cover_from].
  - split; [by intros ?%elem_of_nil|]. intros (o & ? & ? & Ho & _). by destruct o.
  - rewrite elem_of_app, cover_block, IH. split.
    + intros [(p & ? & ?)|(o & l' & p & ? & ? & ?)].
      * exists 0%nat, l, p. by rewrite Nat.add_0_r.
      * exists (S o), l', p. replace (k + S o)%nat with (S k + o)%nat by lia. done.
    + intros ([|o] & l' & p & Ho & ? & Hi); simplify_eq/=.
      * left. exists p. by rewrite Nat.add_0_r in Hi.
      * right. exists o, l', p. by replace (S (k + o)) with (k + S o)%nat by lia.
Qed.

Lemma length_cover k fl : Z.of_nat (length (cover_from k fl)) = total_from k fl.
Proof.
  revert k. induction fl as [|l fl IH]; intros k; simpl; [done|].
  rewrite length_app, Nat2Z.inj_add, IH. f_equal. pose proof (bsize_pos k).
  induction l as [|p l IHl]; [done|]. cbn [mbind list_bind length].
  rewrite length_app, length_seqZ, Nat2Z.inj_add. rewrite IHl. lia.
Qed.

Lemma NoDup_cover k fl :
  (∀ o l, fl !! o = Some l → NoDup l) →
  (∀ o1 l1 p1 o2 l2 p2 i, fl !! o1 = Some l1 → p1 ∈ l1 → fl !! o2 = Some l2 → p2 ∈ l2 →
     in_blk p1 (k + o1) i → in_blk p2 (k + o2) i → o1 = o2 ∧ p1 = p2) →
  NoDup (cover_from k fl).
Proof.
  revert k. induction fl as [|l fl IH]; intros k Hnd Hd; cbn [cover_from]; [constructor|].
  apply NoDup_app. split; [|split].
  - assert (∀ p1 p2 i, p1 ∈ l → p2 ∈ l → in_blk p1 k i → in_blk p2 k i → p1 = p2) as Hl.
    { intros p1 p2 i ????. destruct (Hd 0 l p1 0 l p2 i)%nat; by rewrite ?Nat.add_0_r. }
    specialize (Hnd 0%nat l eq_refl). clear -Hnd Hl.
    induction Hnd as [|p l Hp Hnd IHl]; [constructor|]. cbn [mbind list_bind].
    apply NoDup_app. split; [apply NoDup_seqZ|]. split.
    + intros i [??]%elem_of_seqZ (q & ? & ?)%cover_block. apply Hp.
      rewrite (Hl p q i); [done|by constructor|by (apply elem_of_cons; right)|done|done].
    + apply IHl. intros p1 p2 i ????. apply (Hl p1 p2 i); try done; by (apply elem_of_cons; right).
  - intros i (p & ? & ?)%cover_block (o & l' & q & ? & ? & ?)%elem_of_cover.
    destruct (Hd 0%nat l p (S o) l' q i) as [? _]; try done.
    + by rewrite Nat.add_0_r.
    + by replace (k + S o)%nat with (S k + o)%nat by lia.
  - apply IH; [intros o; apply (Hnd (S o))|].
    intros o1 l1 p1 o2 l2 p2 i ??????.
    destruct (Hd (S o1) l1 p1 (S o2) l2 p2 i); try done; [..|naive_solver].
    all: by rewrite <-Nat.add_succ_comm.
Qed.

(** The counted pages are distinct pages of the array. *)
Lemma total_bound st : lists_ok st → total st ≤ page_count st.
Proof.
  intros Hst. unfold total. rewrite <-length_cover. pose proof (lo_count _ Hst) as [? _].
  transitivity (Z.of_nat (length (seqZ 0 (page_count st)))); [|rewrite length_seqZ; lia].
  apply inj_le, submseteq_length, NoDup_submseteq.
  - apply NoDup_cover; [apply Hst|]. intros o1 l1 p1 o2 l2 p2 i ??????.
    eapply (lo_disj _ Hst); try done; unfold is_free; eauto.
  - intros i (o & l & p & ? & ? & [??])%elem_of_cover. simpl in *.
    destruct (lo_good _ Hst o p) as (? & _ & ? & _); [by exists l|].
    apply elem_of_seqZ. lia.
Qed.

(** *** Allocation *)

Lemma set_tags_ok n : ∀ p tag pg,
  (∀ i, p ≤ i < p + Z.of_nat n → pg !! i = Some (MkPage 0 0)) →
  ∃ pg', set_tags n p tag pg = Ok pg' ∧
    ∀ i, pg' !! i = if decide (p ≤ i < p + Z.of_nat n) then Some (MkPage 0 tag) else pg !! i.
Proof.
  induction n as [|n IH]; intros p tag pg H; cbn [set_tags].
  - exists pg. split; [done|]. intros i. rewrite decide_False by lia. done.
  - rewrite H by lia. simpl. destruct (IH (p + 1) tag (<[p:=MkPage 0 tag]> pg)) as (pg' & -> & Hpg').
    { intros i ?. rewrite lookup_insert_ne by lia. apply H. lia. }
    exists pg'. split; [done|]. intros i. rewrite Hpg'. destruct (decide (i = p)) as [->|].
    + rewrite decide_False, decide_True, lookup_insert_eq by lia. done.
    + rewrite lookup_insert_ne by done. repeat case_decide; try done; lia.
Qed.

Lemma clear_tags_ok n : ∀ p pg,
  (∀ i, p ≤ i < p + Z.of_nat n → ∃ d, pg !! i = Some d ∧ ref_count d = 0) →
  ∃ pg', clear_tags n p pg = Ok pg' ∧
    ∀ i, pg' !! i = if decide (p ≤ i < p + Z.of_nat n) then Some (MkPage 0 0) else pg !! i.
Proof.
  induction n as [|n IH]; intros p pg H; cbn [clear_tags].
  - exists pg. split; [done|]. intros i. rewrite decide_False by lia. done.
  - destruct (H p) as (d & Hd & Hr); [lia|]. rewrite Hd. simpl. rewrite Hr.
    destruct (IH (p + 1) (<[p:=MkPage 0 0]> pg)) as (pg' & -> & Hpg').
    { intros i ?. rewrite lookup_insert_ne by lia. apply H. lia. }
    exists pg'. split; [done|]. intros i. rewrite Hpg'. destruct (decide (i = p)) as [->|].
    + rewrite decide_False, decide_True, lookup_insert_eq by lia. done.
    + rewrite lookup_insert_ne by done. repeat case_decide; try done; lia.
Qed.

Lemma page_buddy_lower p o : aligned p (S o) → page_buddy p o = p + bsize o.
Proof.
  intros [a ->]. apply lxor_clear. rewrite bsize_S.
  replace (a * (2 * bsize o)) with (2 * a * bsize o) by lia.
  rewrite testbit_aligned. by rewrite Z.odd_mul.
Qed.

(** A piece and its buddy lie inside the block that was split. *)
Lemma piece_in order k p o q :
  aligned p (order + k) → piece order k p o q →
  (o < order + k)%nat ∧ (order ≤ o)%nat ∧ page_buddy q o = q + bsize o ∧
  p ≤ q ∧ q + 2 * bsize o ≤ p + bsize (order + k).
Proof.
  intros Hal (j & Hj & -> & ->). pose proof (bsize_pos (order + j)).
  assert (bsize (S (order + j)) ≤ bsize (order + k)) by (apply bsize_mono; lia).
  rewrite page_buddy_lower; [rewrite bsize_S in *; lia|].
  apply Z.divide_sub_r; [|done].
  apply aligned_add; [eapply aligned_le; [|done]; lia|apply aligned_bsize; lia].
Qed.

Lemma coalesced_split st order k p (fr : nat → Z → Prop) :
  wf st → is_free st (order + k) p →
  (∀ o q, fr o q ↔ (is_free st o q ∧ ¬ (o = (order + k)%nat ∧ q = p)) ∨ piece order k p o q) →
  ∀ o q, (o < PAGE_ORDER_MAX)%nat → fr o q → ¬ fr o (page_buddy q o).
Proof.
  intros Hst Hp Hfr. pose proof (lo_good _ Hst _ _ Hp) as (_ & Hal & _).
  assert (∀ o q, is_free st o (page_buddy q o) → ¬ (o = (order + k)%nat ∧ page_buddy q o = p) →
            piece order k p o q → False) as Hmix.
  { intros o q Hf Hne Hpc. pose proof (piece_in _ _ _ _ _ Hal Hpc) as (? & ? & E & ? & ?).
    pose proof (bsize_pos o). apply Hne.
    apply (lo_disj _ Hst _ _ _ _ (page_buddy q o)); auto. unfold in_blk. lia. }
  intros o q Ho H1%Hfr H2%Hfr. destruct H1 as [[H1 N1]|H1], H2 as [[H2 N2]|H2].
  - by apply (wf_coalesced _ Hst o q).
  - apply (Hmix o (page_buddy q o)); rewrite ?page_buddy_involutive; done.
  - by apply (Hmix o q).
  - pose proof (piece_in _ _ _ _ _ Hal H1) as (? & ? & E & ?). pose proof (bsize_pos o).
    destruct H1 as (j1 & ? & -> & ->), H2 as (j2 & ? & ? & E2).
    assert (j1 = j2) as -> by lia. lia.
Qed.

(** The first order that has a block, its first block, and what is left once
    that block is off its list. *)
Lemma find_block st order o0 p0 :
  (order ≤ o0)%nat → is_free st o0 p0 → lists_ok st →
  ∃ o p l, first_nonempty (PAGE_ORDER_MAX + 1 - order) (page_free_list st) order = Some o ∧
    (order ≤ o)%nat ∧ page_free_list st !! o = Some (p :: l) ∧ is_free st o p.
Proof.
  intros Hle Hf Hst. destruct (first_nonempty _ _ _) as [o|] eqn:E.
  - apply first_nonempty_Some in E as (? & p & l & Hl). exists o, p, l.
    split; [done|]. split; [lia|]. split; [done|]. exists (p :: l). split; [done|by constructor].
  - pose proof (lo_good _ Hst _ _ Hf) as (_ & _ & _ & ?). destruct Hf as (l & Hl & Hp).
    exfalso. eapply (first_nonempty_None _ _ _ E o0 p0 l); [|done..]. lia.
Qed.

Lemma piece_cover order k : ∀ p i,
  p ≤ i < p + bsize (order + k) - bsize order → ∃ o q, piece order k p o q ∧ in_blk q o i.
Proof.
  induction k as [|k IH]; intros p i Hi.
  - rewrite Nat.add_0_r in Hi. lia.
  - replace (order + S k)%nat with (S (order + k)) in Hi by lia. rewrite bsize_S in Hi.
    destruct (decide (i < p + bsize (order + k))).
    + exists (order + k)%nat, p. rewrite piece_S. unfold in_blk. split; [by left|lia].
    + destruct (IH (p + bsize (order + k)) i) as (o & q & ? & ?); [lia|].
      exists o, q. rewrite piece_S. auto.
Qed.

Lemma covered_split st order k p (fr : nat → Z → Prop) :
  lists_ok st → is_free st (order + k) p →
  (∀ o q, fr o q ↔ (is_free st o q ∧ ¬ (o = (order + k)%nat ∧ q = p)) ∨ piece order k p o q) →
  ∀ i, (∃ o q, fr o q ∧ in_blk q o i) ↔
       covered st i ∧ ¬ in_blk (p + bsize (order + k) - bsize order) order i.
Proof.
  intros Hst Hp Hfr i. pose proof (lo_good _ Hst _ _ Hp) as (_ & Hal & _).
  pose proof (bsize_mono order (order + k)). pose proof (bsize_pos order). split.
  - intros (o & q & [[Hf Hne]|Hpc]%Hfr & Hi).
    + split; [by exists o, q|]. intros [??]. apply Hne.
      apply (lo_disj _ Hst _ _ _ _ i); auto. unfold in_blk. lia.
    + pose proof (piece_in _ _ _ _ _ Hal Hpc) as (? & ? & _ & ? & ?). destruct Hi.
      assert (bsize order ≤ bsize o) by (by apply bsize_mono). split.
      * exists (order + k)%nat, p. split; [done|]. unfold in_blk. lia.
      * unfold in_blk. lia.
  - intros [(o & q & Hf & Hi) Hn].
    destruct (decide (o = (order + k)%nat ∧ q = p)) as [[-> ->]|].
    + destruct (piece_cover order k p i) as (o & q & ? & ?); [unfold in_blk in *; lia|].
      exists o, q. rewrite Hfr. auto.
    + exists o, q. rewrite Hfr. auto.
Qed.

(** What the allocator promises about the block [p] it hands out; [d] is the
    state in which the pages of the block are left. *)
Record allocated st p order (d : Page) st' : Prop := {
  al_good : good_blk st p order;
  al_was_free : ∀ i, in_blk p order i → covered st i;
  al_covered : ∀ i, covered st' i ↔ covered st i ∧ ¬ in_blk p order i;
  al_pages : ∀ i, pages st' !! i =
    if decide (p ≤ i < p + bsize order) then Some d else pages st !! i;
  al_count : page_count st' = page_count st;
  al_free_count : page_free_count st' = page_free_count st - bsize order
}.

(** Once a block is off its list its pages are clean and uncovered. *)
Lemma removed_allocatable st st1 p o :
  lists_ok st → is_free st o p → pages st1 = pages st →
  (∀ o' q, is_free st1 o' q ↔ is_free st o' q ∧ ¬ (o' = o ∧ q = p)) →
  allocatable st1 p o.
Proof.
  intros Hst Hf Hp1 Hf1 i Hi. split.
  - unfold clean. rewrite Hp1. apply (lo_clean _ Hst). by exists o, p.
  - intros (o' & q & Hq & Hqi). apply Hf1 in Hq as [Hq Hne]. apply Hne.
    by apply (lo_disj _ Hst _ _ _ _ i).
Qed.

(** The last [2^order] pages of an aligned block form an aligned block. *)
Lemma good_last st p order k :
  good_blk st p (order + k) → good_blk st (p + bsize (order + k) - bsize order) order.
Proof.
  intros (? & Hal & ? & ?). pose proof (bsize_pos order).
  pose proof (bsize_mono order (order + k) ltac:(lia)). unfold good_blk. repeat split; try lia.
  apply Z.divide_sub_r; [|done]. apply aligned_add; [eapply aligned_le; [|done]; lia|].
  apply aligned_bsize. lia.
Qed.

Lemma take_block_ok st order o0 p0 :
  wf st → is_free st o0 p0 → (order ≤ o0)%nat →
  ∃ p st', take_block st order = Ok (p, st') ∧ wf st' ∧ allocated st p order (MkPage 0 0) st'.
Proof.
  intros Hst Hf0 Hle. destruct (find_block st order o0 p0) as (o & p & l & Hfirst & Ho & Hl & Hf);
    [done..|apply Hst|].
  pose proof (lo_good _ Hst _ _ Hf) as Hg. unfold take_block. rewrite Hfirst, Hl. cbn [deref mbind outcome_bind head hd_error].
  replace o with (order + (o - order))%nat in * by lia. set (k := (o - order)%nat) in *. clearbody k.
  replace (order + k - order)%nat with k by lia. clear o Hfirst Ho.
  destruct (page_k_list_remove_ok st p (order + k)) as (st1 & -> & Hst1 & (Hc1 & Hp1 & Hn1) & Ht1 & Hf1);
    [apply Hst|done|]. cbn [mbind outcome_bind].
  pose proof (bsize_pos order). pose proof (bsize_mono order (order + k) ltac:(lia)).
  assert (0 ≤ total st1 ≤ 2 ^ 20) as Hb.
  { split; [apply total_nonneg|]. pose proof (total_bound st1 Hst1).
    pose proof (lo_count _ Hst1) as [? _]. lia. }
  assert (bsize (order + k) ≤ bsize 10) by (apply bsize_mono; apply Hg).
  change (bsize 10) with 1024 in *.
  rewrite u32_small by (rewrite Hn1, (wf_total _ Hst); lia). set (st1' := set_free_count _ st1).
  destruct (split_loop_ok k order p st1') as (st2 & -> & Hst2 & (Hc2 & Hp2 & Hn2) & Ht2 & Hf2).
  { by apply (lists_ok_pages st1). }
  { unfold good_blk. simpl. by rewrite Hc1. }
  { apply (removed_allocatable st); [apply Hst|done..]. }
  assert (∀ o q, is_free st2 o q ↔
     (is_free st o q ∧ ¬ (o = (order + k)%nat ∧ q = p)) ∨ piece order k p o q) as Hf2'
    by (intros o q; rewrite Hf2, <-Hf1; done).
  change (total st1') with (total st1) in Ht2. simpl in Hn2, Hc2, Hp2.
  assert (page_free_count st2 = page_free_count st - bsize order) as Hn by congruence.
  do 2 eexists. split; [done|]. split.
  - split; [done|by eapply coalesced_split|]. rewrite Hn, (wf_total _ Hst). lia.
  - assert (∀ i, in_blk (p + bsize (order + k) - bsize order) order i → covered st i) as Hcov.
    { intros i [??]. exists (order + k)%nat, p. split; [done|]. unfold in_blk. lia. }
    split; try done; [by apply good_last|apply (covered_split st); [apply Hst|done..]| |congruence].
    intros i. rewrite Hp2, Hp1. case_decide; [|done]. by apply (lo_clean _ Hst), Hcov.
Qed.

Lemma page_alloc_block_ok st order flags tag o0 p0 :
  wf st → is_free st o0 p0 → (order ≤ o0)%nat →
  ∃ p st', page_alloc_block st order flags tag = Ok (p, st') ∧ wf st' ∧
    allocated st p order (MkPage 0 tag) st'.
Proof.
  intros Hst Hf Hle. destruct (take_block_ok st order o0 p0 Hst Hf Hle) as (p & st1 & E & Hst1 & Hal).
  unfold page_alloc_block. rewrite E. cbn [mbind outcome_bind]. pose proof (bsize_pos order).
  destruct (al_good _ _ _ _ _ Hal) as (? & ? & Hend & ?).
  rewrite <-(al_count _ _ _ _ _ Hal) in Hend.
  rewrite (al_pages _ _ _ _ _ Hal), decide_True by lia. cbn [deref mbind outcome_bind k_assert ref_count Z.eqb].
  rewrite page_list_contains_ok, bool_decide_eq_false_2; [|..|apply Hst1|done]; cbn [negb k_assert mbind outcome_bind].
  2: { intros F%covered_self. apply (al_covered _ _ _ _ _ Hal) in F as [_ []]. auto. }
  assert ((if Z.land flags PAGE_ALLOC_ZERO =? 0 then Ok 0 else page2pa st1 p) =
          Ok (if Z.land flags PAGE_ALLOC_ZERO =? 0 then 0 else Z.shiftl p PAGE_SHIFT)) as ->.
  { case_match; [done|]. unfold page2pa.
    rewrite (proj2 (Z.ltb_ge _ _)), (proj2 (Z.leb_gt _ _)) by lia. done. }
  cbn [mbind outcome_bind].
  destruct (set_tags_ok (Z.to_nat (bsize order)) p tag (pages st1)) as (pg & -> & Hpg);
    rewrite Z2Nat.id in * by lia.
  { intros i Hi. by rewrite (al_pages _ _ _ _ _ Hal), decide_True. }
  cbn [mbind outcome_bind]. do 2 eexists. split; [done|]. split.
  - split; [|apply Hst1..]. apply (lists_ok_pages st1); [apply Hst1|done..| |]; simpl; intros i.
    + intros [_ Hn]%(al_covered _ _ _ _ _ Hal). rewrite Hpg, decide_False; [done|]. done.
    + rewrite Hpg. by case_decide.
  - destruct Hal as [A1 A2 A3 A4 A5 A6]. split; try done. simpl.
    intros i. rewrite Hpg, A4. by repeat case_decide.
Qed.

(** *** Freeing *)

Lemma good_parent st p o :
  lists_ok st → good_blk st p o → (o < PAGE_ORDER_MAX)%nat →
  let b := page_buddy p o in
  let m := if b <? p then b else p in
  good_blk st b o ∧ good_blk st m (S o) ∧
  (∀ i, in_blk m (S o) i ↔ in_blk p o i ∨ in_blk b o i) ∧
  (∀ i, in_blk p o i → ¬ in_blk b o i).
Proof.
  intros Hst (Hp & Hal & Hend & _) Ho b m. pose proof (bsize_pos o).
  destruct (lo_count _ Hst) as [Hc Hdiv].
  assert (aligned (page_count st) (S o)) as [c Hcnt] by (eapply aligned_le; [|done]; lia).
  destruct (page_buddy_cases p o Hal) as [[Hb Ha]|[Hb Ha]]; unfold m; unfold b in *; rewrite Hb.
  - rewrite (proj2 (Z.ltb_ge _ _)) by lia. pose proof Ha as [a ->].
    assert (a + 1 ≤ c) by (rewrite bsize_S in *; nia).
    assert (a * bsize (S o) + bsize (S o) ≤ page_count st) by (rewrite Hcnt; pose proof (bsize_pos (S o)); nia).
    unfold good_blk, in_blk. rewrite bsize_S in *.
    repeat split; try lia; try done. by apply aligned_add, aligned_bsize.
  - rewrite (proj2 (Z.ltb_lt _ _)) by lia. pose proof Ha as [a Ea].
    assert (0 ≤ a). { assert (-1 < a); [|lia]. rewrite bsize_S in *. nia. }
    assert (a * bsize (S o) + bsize (S o) ≤ page_count st) by (rewrite bsize_S in *; nia).
    unfold good_blk, in_blk. rewrite bsize_S in *.
    repeat split; try lia; try done. by apply (aligned_le _ _ (S o)); [lia|].
Qed.

(** What is left to do when the loop stops: [p'] of order [o'] is the block to
    put on its list. *)
Record merged st o p st' o' p' : Prop := {
  me_lists : lists_ok st';
  me_same : same_pages st st';
  me_good : good_blk st' p' o';
  me_alloc : allocatable st' p' o';
  me_total : total st' + bsize o' = total st + bsize o;
  me_covered : ∀ i, covered st' i ∨ in_blk p' o' i ↔ covered st i ∨ in_blk p o i;
  me_free : ∀ o1 q, is_free st' o1 q → is_free st o1 q;
  me_buddy : (o' < PAGE_ORDER_MAX)%nat → ¬ is_free st' o' (page_buddy p' o')
}.

Lemma merged_step st o p st1 o' p' st' :
  lists_ok st → good_blk st p o → (o < PAGE_ORDER_MAX)%nat →
  let b := page_buddy p o in
  is_free st o b → same_pages st st1 → total st1 = total st - bsize o →
  (∀ o' q, is_free st1 o' q ↔ is_free st o' q ∧ ¬ (o' = o ∧ q = b)) →
  merged st1 (S o) (if b <? p then b else p) st' o' p' → merged st o p st' o' p'.
Proof.
  intros Hst Hg Ho b Hb (Hc1 & Hp1 & Hn1) Ht1 Hf1 [? (Hc2 & Hp2 & Hn2) ? ? Ht Hcov Hfr ?].
  destruct (good_parent st p o Hst Hg Ho) as (Hgb & Hgm & Hin & Hdisj).
  split; try done.
  - unfold same_pages. split_and!; congruence.
  - rewrite bsize_S in Ht. lia.
  - intros i. fold b in Hin. rewrite (Hcov i), (Hin i). clear -Hf1 Hb. unfold covered. split.
    + intros [(o1 & q & [? _]%Hf1 & ?)|[?|?]]; eauto 10.
    + intros [(o1 & q & ? & ?)|?]; [|auto]. destruct (decide (o1 = o ∧ q = b)) as [[-> ->]|Hn]; [auto|].
      left. exists o1, q. rewrite Hf1. auto.
  - intros o1 q ?%Hfr%Hf1. tauto.
Qed.

Lemma merge_loop_ok n : ∀ o p st,
  (o + n = PAGE_ORDER_MAX)%nat → lists_ok st → good_blk st p o → allocatable st p o →
  ∃ p' o' st', merge_loop n o p st = Ok (p', o', st') ∧ merged st o p st' o' p'.
Proof.
  induction n as [|n IH]; intros o p st Ho Hst Hg Hall; cbn [merge_loop].
  - exists p, o, st. split; [done|]. split; try done. lia.
  - destruct (good_parent st p o) as (Hgb & Hgm & Hin & Hdisj); [done|done|lia|].
    rewrite page_list_contains_ok by done. cbn [mbind outcome_bind].
    case_bool_decide as Hb; [|by exists p, o, st].
    destruct (page_k_list_remove_ok st (page_buddy p o) o) as (st1 & -> & Hst1 & Hs1 & Ht1 & Hf1);
      [done..|]. cbn [mbind outcome_bind]. pose proof Hs1 as (Hc1 & Hp1 & _).
    destruct (IH (S o) (if page_buddy p o <? p then page_buddy p o else p) st1)
      as (p' & o' & st' & -> & Hm); [lia|done|unfold good_blk; by rewrite Hc1| |].
    + intros i [Hi|Hi]%Hin; [|by apply (removed_allocatable st _ (page_buddy p o) o)].
      destruct (Hall i Hi) as [Hcl Hnc]. split; [unfold clean; by rewrite Hp1|].
      intros (o1 & q & [? _]%Hf1 & ?). apply Hnc. by exists o1, q.
    + exists p', o', st'. split; [done|]. eapply merged_step; try done. lia.
Qed.

(** What [page_free_block] promises. *)
Record freed st p order st' : Prop := {
  fr_covered : ∀ i, covered st' i ↔ covered st i ∨ in_blk p order i;
  fr_pages : ∀ i, pages st' !! i =
    if decide (p ≤ i < p + bsize order) then Some (MkPage 0 0) else pages st !! i;
  fr_count : page_count st' = page_count st;
  fr_free_count : page_free_count st' = page_free_count st + bsize order
}.

(** The block belongs to the caller: it is not free and nobody references it. *)
Definition owned st p order : Prop :=
  good_blk st p order ∧
  ∀ i, in_blk p order i → ¬ covered st i ∧ ∃ d, pages st !! i = Some d ∧ ref_count d = 0.

Lemma page_free_block_ok st p order :
  wf st → owned st p order →
  ∃ st', page_free_block st p order = Ok st' ∧ wf st' ∧ freed st p order st'.
Proof.
  intros Hst [Hg Hown]. pose proof (bsize_pos order).
  destruct (proj2 (Hown p (in_blk_first p order))) as (d & Hd & Hr).
  unfold page_free_block. rewrite Hd. cbn [deref mbind outcome_bind]. rewrite Hr. cbn [Z.eqb negb].
  destruct (clear_tags_ok (Z.to_nat (bsize order)) p (pages st)) as (pg & -> & Hpg);
    rewrite Z2Nat.id in * by lia; [intros i Hi; apply (Hown i Hi)|]. cbn [mbind outcome_bind].
  set (st0 := set_pages pg st).
  assert (lists_ok st0) as Hst0.
  { apply (lists_ok_pages st); [apply Hst|done..| |]; simpl; intros i Hi; rewrite Hpg.
    - rewrite decide_False; [done|]. intros ?. by eapply Hown.
    - by case_decide. }
  destruct (merge_loop_ok (PAGE_ORDER_MAX - order) order p st0) as (p' & o' & st1 & -> & [Hl1 (Hc1 & Hp1 & Hn1) Hg1 Ha1 Ht1 Hcov1 Hf1 Hb1]);
    [destruct Hg as (_ & _ & _ & ?); lia|done|done| |].
  { intros i Hi. split; [unfold clean; simpl; by rewrite Hpg, decide_True|]. by apply Hown. }
  cbn [mbind outcome_bind].
  destruct (page_list_add_ok st1 p' o' Hl1 Hg1 Ha1) as (st2 & -> & Hl2 & (Hc2 & Hp2 & Hn2) & Ht2 & Hf2).
  cbn [mbind outcome_bind]. change (total st0) with (total st) in *.
  change (page_free_count st0) with (page_free_count st) in *.
  change (page_count st0) with (page_count st) in *. change (pages st0) with pg in *.
  assert (page_free_count st2 + bsize order = total st2) as Hcount
    by (rewrite Hn2, Hn1, (wf_total _ Hst); lia).
  pose proof (total_bound st2 Hl2). pose proof (total_nonneg 0 (page_free_list st2)).
  pose proof (lo_count _ Hl2) as [? _].
  rewrite Hcount, u32_small by (unfold total in *; lia).
  eexists. split; [done|]. split.
  - split; [by apply (lists_ok_pages st2)| |done].
    change (is_free (set_free_count (total st2) st2)) with (is_free st2).
    intros o q Ho [F1|[-> ->]]%Hf2 [F2|[E2 E3]]%Hf2.
    + by apply (wf_coalesced _ Hst o q); [|apply Hf1..].
    + subst. apply Hb1; [done|]. by rewrite page_buddy_involutive.
    + by apply Hb1.
    + rewrite E3 in *. assert (page_buddy p' o' = p') as E by done.
      destruct (page_buddy_cases p' o') as [[E' _]|[E' _]]; [apply Hg1|pose proof (bsize_pos o'); lia..].
  - split; simpl; [|by rewrite Hp2, Hp1|congruence|lia].
    intros i. change (covered (set_free_count (total st2) st2)) with (covered st2).
    change (covered st i) with (covered st0 i). rewrite <-(Hcov1 i). unfold covered at 1 2. setoid_rewrite Hf2. naive_solver.
Qed.

(** *** The free lists are determined by the set of free pages *)

Definition fully_free st p o : Prop := good_blk st p o ∧ ∀ i, in_blk p o i → covered st i.

Lemma is_free_fully st o p : lists_ok st → is_free st o p → fully_free st p o.
Proof. intros Hst Hf. split; [by apply (lo_good _ Hst)|]. intros i ?. by exists o, p. Qed.

(** Coalescing: a fully free aligned block lies inside one free block. *)
Lemma full_block st : wf st → ∀ o p,
  fully_free st p o →
  ∃ o' q, is_free st o' q ∧ (o ≤ o')%nat ∧ ∀ i, in_blk p o i → in_blk q o' i.
Proof.
  intros Hst. induction o as [|o IH]; intros p [(Hp & Hal & Hend & Ho) Hcov].
  - destruct (Hcov p) as (o' & q & Hf & Hi); [auto|]. exists o', q. split; [done|].
    split; [lia|]. intros i [? Hlt]. change (bsize 0) with 1 in Hlt.
    by replace i with p by lia.
  - pose proof (bsize_pos o). pose proof (page_buddy_lower p o Hal) as Hb. rewrite bsize_S in Hend.
    assert (∀ r, r = p ∨ r = p + bsize o → fully_free st r o) as Hhalf.
    { intros r Hr. split.
      - repeat split; [lia| |lia|lia]. assert (aligned p o) by (eapply aligned_le; [|done]; lia).
        destruct Hr as [->| ->]; [done|]. by apply aligned_add, aligned_bsize.
      - intros i [??]. apply Hcov. unfold in_blk. rewrite bsize_S. lia. }
    assert (∀ o' q r, (r = p ∨ r = p + bsize o) → is_free st o' q → (S o ≤ o')%nat → in_blk q o' r →
      ∃ o' q, is_free st o' q ∧ (S o ≤ o')%nat ∧ ∀ i, in_blk p (S o) i → in_blk q o' i) as Hbig.
    { intros o' q r Hr Hf Hle Hi. exists o', q. split_and!; [done..|].
      pose proof (lo_good _ Hst _ _ Hf) as (_ & Hq & _).
      destruct (nested p (S o) q o' r) as [??]; try done;
        [unfold in_blk; rewrite bsize_S; lia|]. unfold in_blk. lia. }
    destruct (IH p) as (o1 & q1 & H1 & Hle1 & Hin1); [auto|].
    destruct (IH (p + bsize o)) as (o2 & q2 & H2 & Hle2 & Hin2); [auto|].
    destruct (decide (S o ≤ o1)%nat); [eapply (Hbig o1 q1 p); auto|].
    destruct (decide (S o ≤ o2)%nat); [eapply (Hbig o2 q2 (p + bsize o)); auto|].
    assert (o1 = o ∧ o2 = o) as [-> ->] by lia. exfalso.
    destruct (Hhalf p) as [(_ & A1 & _) _]; [auto|].
    destruct (Hhalf (p + bsize o)) as [(_ & A2 & _) _]; [auto|].
    pose proof (lo_good _ Hst _ _ H1) as (_ & B1 & _). pose proof (lo_good _ Hst _ _ H2) as (_ & B2 & _).
    rewrite (same_order q1 p o p) in H1 by auto. rewrite (same_order q2 (p + bsize o) o (p + bsize o)) in H2 by auto.
    apply (wf_coalesced _ Hst o p); [lia|done|]. by rewrite Hb.
Qed.

Lemma free_lists_determined st st' :
  wf st → wf st' → page_count st' = page_count st → (∀ i, covered st' i ↔ covered st i) →
  ∀ o p, is_free st o p → is_free st' o p.
Proof.
  intros Hst Hst' Hc Hcov o p Hf. pose proof (is_free_fully _ _ _ Hst Hf) as [Hg Hall].
  destruct (full_block st' Hst' o p) as (o1 & q & Hq & Hle & Hin).
  { split; [unfold good_blk; by rewrite Hc|]. intros i Hi. by apply Hcov, Hall. }
  pose proof (is_free_fully _ _ _ Hst' Hq) as [Hgq Hallq].
  destruct (full_block st Hst o1 q) as (o2 & r & Hr & Hle2 & Hin2).
  { split; [unfold good_blk; by rewrite <-Hc|]. intros i Hi. by apply Hcov, Hallq. }
  destruct (lo_disj _ Hst o2 r o p p) as [-> ->]; auto.
  assert (o1 = o) as -> by lia. destruct Hg as (_ & ? & _), Hgq as (_ & ? & _).
  by rewrite <-(same_order q p o p) by auto.
Qed.

(** *** Freeing a region *)

Lemma region_order_ok o idx last :
  0 ≤ idx < last →
  (region_order o idx last ≤ o)%nat ∧ aligned idx (region_order o idx last) ∧
  idx + bsize (region_order o idx last) ≤ last.
Proof.
  intros Hi. induction o as [|o IH]; cbn [region_order].
  - split; [done|]. change (bsize 0) with 1. split; [apply Z.divide_1_l|lia].
  - destruct (_ && _) eqn:E; [|destruct IH as (? & ? & ?); auto].
    bool_to_prop. split; [done|]. split; [|done]. apply aligned_mod.
    unfold bsize in *. rewrite <-Z.land_ones by lia. rewrite Z.ones_equiv, <-Z.sub_1_r. done.
Qed.

Lemma free_region_loop_ok n : ∀ idx last st,
  wf st → 0 ≤ idx → last ≤ page_count st → last - idx ≤ Z.of_nat n →
  (∀ i, idx ≤ i < last → ¬ covered st i ∧ ∃ d, pages st !! i = Some d ∧ ref_count d = 0) →
  ∃ st', free_region_loop n idx last st = Ok st' ∧ wf st' ∧ page_count st' = page_count st ∧
    (∀ i, covered st' i ↔ covered st i ∨ idx ≤ i < last) ∧
    (∀ i, pages st' !! i = if decide (idx ≤ i < last) then Some (MkPage 0 0) else pages st !! i).
Proof.
  induction n as [|n IH]; intros idx last st Hst H0 Hend Hn Hown; cbn [free_region_loop].
  - exists st. split_and!; try done; intros i; [|rewrite decide_False by lia; done].
    split; [auto|intros [?|?]; [done|lia]].
  - destruct (idx <? last) eqn:E; bool_to_prop.
    2: { exists st. split_and!; try done; intros i; [|rewrite decide_False by lia; done].
         split; [auto|intros [?|?]; [done|lia]]. }
    destruct (region_order_ok PAGE_ORDER_MAX idx last) as (Ho & Hal & Hlast); [lia|].
    set (o := region_order PAGE_ORDER_MAX idx last) in *. pose proof (bsize_pos o).
    destruct (page_free_block_ok st idx o) as (st1 & -> & Hst1 & [Hc1 Hp1 Hn1 _]); [done| |].
    { split; [by split_and!; try lia|]. intros i [??]. apply Hown. lia. }
    cbn [mbind outcome_bind]. destruct (IH (idx + bsize o) last st1) as (st2 & -> & Hst2 & Hn2 & Hc2 & Hp2).
    + done.
    + lia.
    + by rewrite Hn1.
    + lia.
    + intros i Hi. rewrite Hc1, Hp1, decide_False by lia. destruct (Hown i) as [Hnc Hd]; [lia|].
      split; [|done]. intros [?|[??]]; [done|lia].
    + exists st2. split_and!; try done; [congruence|..]; intros i.
      * rewrite Hc2, Hc1. unfold in_blk. split; [intros [[?|?]|?]; auto; right; lia|].
        intros [?|?]; [auto|]. destruct (decide (i < idx + bsize o)); [left; right; lia|right; lia].
      * rewrite Hp2, Hp1. repeat case_decide; try done; lia.
Qed.

(** *** The initial state *)

Lemma boot_alloc_step kend limit nf n :
  0 < n → n mod 4 = 0 → nf + n ≤ limit →
  boot_alloc kend limit (Some nf) n = Ok (nf, Some (nf + n)).
Proof.
  intros Hn Hm Hl. unfold boot_alloc. simpl. rewrite (proj2 (Z.eqb_neq n 0)) by lia.
  assert (ROUND_UP n 4 = n) as ->.
  { unfold ROUND_UP. rewrite (Z.div_mod n 4) at 2 by lia.
    replace (4 * (n / 4) + n mod 4 + (4 - 1)) with (3 + (n / 4) * 4) by lia.
    rewrite Z.mod_add by lia. change (3 mod 4) with 3. lia. }
  by rewrite (proj2 (Z.ltb_ge _ _)) by lia.
Qed.

(** The bytes of the [pages] array and of the eleven bitmaps. *)
Definition boot_need : Z := 1179584.

Definition bitmap_words (i : nat) : nat := Z.to_nat (ROUND_UP (65536 / bsize i) 8 / 4).

Fixpoint bitmap_bytes (n i : nat) : Z :=
  match n with O => 0 | S n => ROUND_UP (65536 / bsize i) 8 + bitmap_bytes n (S i) end.

Lemma ROUND_UP_ge x n : 0 < n → x ≤ ROUND_UP x n.
Proof. intros. unfold ROUND_UP. pose proof (Z.mod_pos_bound (x + (n - 1)) n). lia. Qed.

Lemma bitmap_bytes_nonneg (n i : nat) : 0 ≤ bitmap_bytes n i.
Proof.
  revert i. induction n as [|n IH]; intros i; simpl; [done|]. specialize (IH (S i)).
  pose proof (ROUND_UP_ge (65536 / bsize i) 8). pose proof (bsize_pos i).
  assert (0 ≤ 65536 / bsize i) by (apply Z.div_pos; lia). lia.
Qed.

Lemma init_bitmaps_ok kend limit n : ∀ (i : nat) nf,
  (i + n ≤ 11)%nat → nf + bitmap_bytes n i ≤ limit →
  init_bitmaps kend limit n i 65536 (Some nf) =
  Ok ((λ i : nat, replicate (bitmap_words i) 0) <$> seq i n, Some (nf + bitmap_bytes n i)).
Proof.
  induction n as [|n IH]; intros i nf Hi Hl; cbn [init_bitmaps bitmap_bytes] in *.
  - by rewrite Z.add_0_r.
  - pose proof (bitmap_bytes_nonneg n (S i)).
    rewrite boot_alloc_step; [|do 11 (destruct i as [|i]; [done|]); lia..|lia].
    cbn [mbind outcome_bind]. rewrite IH by lia. cbn [mbind outcome_bind].
    by rewrite Z.add_assoc.
Qed.

Lemma zero_pages_lookup pc i :
  zero_pages pc !! i = if decide (0 ≤ i < pc) then Some (MkPage 0 0) else None.
Proof.
  unfold zero_pages. case_decide as Hi.
  - apply elem_of_list_to_map_1.
    + rewrite <-list_fmap_compose. simpl. rewrite list_fmap_id. apply NoDup_seqZ.
    + apply list_elem_of_fmap. exists i. split; [done|]. apply elem_of_seqZ. lia.
  - apply not_elem_of_list_to_map_1. rewrite <-list_fmap_compose. simpl. rewrite list_fmap_id.
    rewrite elem_of_seqZ. lia.
Qed.

(** The state before the first region is freed. *)
Definition init_state : pstate :=
  MkPState 65536 (zero_pages 65536) (replicate 11 [])
    ((λ n : nat, replicate (bitmap_words n) 0) <$> seq 0 11) 0.

Lemma init_not_free o p : ¬ is_free init_state o p.
Proof. intros (l & Hl & Hp). simpl in Hl. apply (lookup_replicate 11) in Hl as [-> _]. by apply elem_of_nil in Hp. Qed.

Lemma init_not_covered i : ¬ covered init_state i.
Proof. intros (o & p & ? & _). by eapply init_not_free. Qed.

Lemma init_state_wf : wf init_state.
Proof.
  split; [split|..].
  - simpl. split; [lia|]. exists 64. done.
  - done.
  - done.
  - cbn [init_state bitmap page_count]. intros o w Hw.
    apply list_lookup_fmap_Some_1 in Hw as (i & -> & Hi). apply lookup_seq in Hi as [-> Hi].
    rewrite length_replicate, Nat.add_0_l. unfold bitmap_words.
    do 11 (destruct o as [|o]; [rewrite Z2Nat.id by done; done|]). lia.
  - cbn [init_state bitmap]. intros o w p Hw _.
    apply list_lookup_fmap_Some_1 in Hw as (i & -> & _). rewrite bit_zero.
    split; [done|]. by intros ?%init_not_free.
  - intros o l Hl. apply (lookup_replicate 11) in Hl as [-> _]. constructor.
  - intros o p F. destruct (init_not_free _ _ F).
  - intros o1 p1 o2 p2 i F. destruct (init_not_free _ _ F).
  - intros i F. destruct (init_not_covered _ F).
  - cbn [init_state pages page_count]. intros i Hi. by rewrite zero_pages_lookup, decide_True.
  - intros o p _ F. destruct (init_not_free _ _ F).
  - done.
Qed.

(** The first page that [page_init_low] gives to the allocator. *)
Definition first_page (kend : Z) : Z := (ROUND_UP kend 4 + boot_need + PAGE_SIZE - 1) / PAGE_SIZE.

Lemma page_init_low_reduce kend limit :
  ROUND_UP kend 4 + boot_need ≤ limit →
  page_init_low kend limit = page_free_region init_state (ROUND_UP kend 4 + boot_need) limit.
Proof.
  unfold boot_need. intros Hl. unfold page_init_low. change (PHYS_LIMIT / PAGE_SIZE) with 65536.
  change (boot_alloc kend limit None (65536 * sizeof_Page))
    with (boot_alloc kend limit (Some (ROUND_UP kend 4)) 1048576).
  rewrite boot_alloc_step by (try done; lia). cbn [mbind outcome_bind].
  change (PAGE_ORDER_MAX + 1)%nat with 11%nat. rewrite init_bitmaps_ok; [|lia|change (bitmap_bytes 11 0) with 131008; lia].
  change (bitmap_bytes 11 0) with 131008.
  cbn [mbind outcome_bind]. unfold boot_alloc. cbn [Z.eqb default mbind outcome_bind].
  by replace (ROUND_UP kend 4 + 1048576 + 131008) with (ROUND_UP kend 4 + 1179584) by lia.
Qed.

Lemma page_free_region_ok st start last :
  wf st → 0 ≤ start → start + PAGE_SIZE ≤ 2 ^ 32 → last / PAGE_SIZE ≤ page_count st →
  let first := (start + PAGE_SIZE - 1) / PAGE_SIZE in
  (∀ i, first ≤ i < last / PAGE_SIZE →
     ¬ covered st i ∧ ∃ d, pages st !! i = Some d ∧ ref_count d = 0) →
  ∃ st', page_free_region st start last = Ok st' ∧ wf st' ∧ page_count st' = page_count st ∧
    (∀ i, covered st' i ↔ covered st i ∨ first ≤ i < last / PAGE_SIZE) ∧
    (∀ i, pages st' !! i =
       if decide (first ≤ i < last / PAGE_SIZE) then Some (MkPage 0 0) else pages st !! i).
Proof.
  intros Hst Hs Hs' Hl first Hown. unfold page_free_region. unfold PAGE_SIZE in *.
  rewrite u32_small by lia. apply free_region_loop_ok; try done; [|lia].
  apply Z.div_pos; lia.
Qed.

(** *** Theorems *)

(** With no aligned block of the order entirely free the machine stops. *)
Lemma page_alloc_block_cases st order flags tag :
  wf st →
  ((∃ q, fully_free st q order) ∧
   ∃ p st', page_alloc_block st order flags tag = Ok (p, st') ∧ wf st' ∧
     allocated st p order (MkPage 0 tag) st') ∨
  ((¬ ∃ q, fully_free st q order) ∧
   page_alloc_block st order flags tag = Panic "out of memory").
Proof.
  intros Hst.
  destruct (first_nonempty (PAGE_ORDER_MAX + 1 - order) (page_free_list st) order) as [o|] eqn:E.
  - left. pose proof (first_nonempty_Some _ _ _ _ E) as ([Ho _] & p & l & Hl).
    assert (is_free st o p) as Hf by (exists (p :: l); split; [done|by constructor]).
    destruct (page_alloc_block_ok st order flags tag o p Hst Hf Ho) as (q & st' & ? & ? & Hal).
    split; [exists q; split; by apply Hal|]. eauto.
  - right. unfold page_alloc_block, take_block. rewrite E. split; [|done].
    intros (q & Hq). destruct (full_block st Hst order q Hq) as (o & r & Hr & Hle & _).
    pose proof (lo_good _ Hst _ _ Hr) as (_ & _ & _ & ?). destruct Hr as (l & Hl & Hr).
    eapply (first_nonempty_None _ _ _ E o r l); [|done..]. lia.
Qed.

(** C22: From a well-formed state [page_alloc_block] gives out a block exactly
    when some aligned block of the requested order is entirely free.  The block it
    gives out is an aligned block of free pages, the pages that stay free are
    all the others, the pages of the block carry the tag, the counter drops by
    the size of the block and the state stays well formed. *)
Theorem page_alloc_block_spec st order flags tag :
  wf st →
  ((∃ p st', page_alloc_block st order flags tag = Ok (p, st')) ↔ ∃ q, fully_free st q order) ∧
  ∀ p st', page_alloc_block st order flags tag = Ok (p, st') →
    wf st' ∧ allocated st p order (MkPage 0 tag) st'.
Proof.
  intros Hst. destruct (page_alloc_block_cases st order flags tag Hst) as [[Hq (p & st' & E & H)]|[Hq E]]; rewrite E.
  - split; [split; eauto|]. by intros ? ? [= <- <-].
  - split; [split; [by intros (? & ? & ?)|done]|done].
Qed.

(** Freeing a block that the caller owns (an aligned block of unreferenced
    pages none of which is free) never stops the machine: the block's pages
    become free and untagged, no other page changes, buddies are merged until
    none are left, and the counter grows by the size of the block. *)
Theorem page_free_block_spec st p order :
  wf st → owned st p order →
  ∃ st', page_free_block st p order = Ok st' ∧ wf st' ∧ freed st p order st'.
Proof. apply page_free_block_ok. Qed.

(** Allocating a block and freeing it again restores the allocator: the
    same blocks are on the same free lists, every page descriptor and the
    counter are as before. *)
Theorem alloc_free_roundtrip st order flags tag p st1 :
  wf st → page_alloc_block st order flags tag = Ok (p, st1) →
  ∃ st2, page_free_block st1 p order = Ok st2 ∧ wf st2 ∧
    (∀ o q, is_free st2 o q ↔ is_free st o q) ∧ pages st2 = pages st ∧
    page_free_count st2 = page_free_count st.
Proof.
  intros Hst Halloc.
  assert (∃ o q, is_free st o q ∧ (order ≤ o)%nat) as (o & q & Hf & Ho).
  { unfold page_alloc_block, take_block in Halloc.
    destruct (first_nonempty _ _ _) as [o|] eqn:E; [|done].
    apply first_nonempty_Some in E as ([? _] & q & l & Hl). exists o, q.
    split; [|done]. exists (q :: l). split; [done|by constructor]. }
  destruct (page_alloc_block_ok st order flags tag o q Hst Hf Ho) as (p' & st1' & E & Hst1 & [A1 A2 A3 A4 A5 A6]).
  rewrite Halloc in E. simplify_eq.
  destruct (page_free_block_ok st1' p' order Hst1) as (st2 & E2 & Hst2 & [B1 B2 B3 B4]).
  { split; [unfold good_blk; by rewrite A5|]. intros i Hi. rewrite A3, A4, decide_True by done.
    split; [tauto|eauto]. }
  assert (∀ i, covered st2 i ↔ covered st i) as Hc.
  { intros i. rewrite B1, A3. split; [intros [[??]|?]; auto|].
    assert (Decision (in_blk p' order i)) by (unfold in_blk; apply _).
    destruct (decide (in_blk p' order i)); auto. }
  exists st2. split_and!; [done..| |apply map_eq|lia].
  - split; apply free_lists_determined; try done; congruence.
  - intros i. rewrite B2, A4. case_decide as Hi; [|done]. symmetry. by apply (lo_clean _ Hst), A2.
Qed.

(** [page_free_count] is the number of distinct free pages. *)
Theorem page_free_count_counts st :
  wf st → ∃ l : list Z, NoDup l ∧ (∀ i, i ∈ l ↔ covered st i) ∧
    page_free_count st = Z.of_nat (length l).
Proof.
  intros Hst. exists (cover_from 0 (page_free_list st)). split_and!.
  - apply NoDup_cover; [apply Hst|]. intros o1 l1 p1 o2 l2 p2 i ??????.
    eapply (lo_disj _ Hst); try done; unfold is_free; eauto.
  - intros i. rewrite elem_of_cover. unfold covered, is_free. simpl. naive_solver.
  - rewrite length_cover. apply Hst.
Qed.

(** Booting: when the kernel image and the allocator's own tables fit below
    PHYS_ENTRY_LIMIT (of either architecture), [page_init_low] followed by
    [page_init_high] never stops, and afterwards the free pages are exactly
    those from the first page after the tables to the end of memory, first up
    to the limit and then all of them. *)
Theorem page_init_spec kend limit :
  0 ≤ kend → limit = 0x01000000 ∨ limit = 0x00400000 → ROUND_UP kend 4 + boot_need ≤ limit →
  ∃ st1 st2, page_init_low kend limit = Ok st1 ∧ page_init_high limit st1 = Ok st2 ∧
    wf st1 ∧ wf st2 ∧
    (∀ i, covered st1 i ↔ first_page kend ≤ i < limit / PAGE_SIZE) ∧
    (∀ i, covered st2 i ↔ first_page kend ≤ i < 65536).
Proof.
  intros Hk Hlim Hfit. pose proof (ROUND_UP_ge kend 4 ltac:(lia)) as Hge. unfold boot_need in Hfit.
  assert (0 ≤ limit ≤ 0x01000000) by lia.
  rewrite page_init_low_reduce by done. unfold first_page, boot_need in *.
  destruct (page_free_region_ok init_state (ROUND_UP kend 4 + 1179584) limit)
    as (st1 & -> & Hst1 & Hn1 & Hc1 & Hp1).
  { apply init_state_wf. }
  { lia. }
  { unfold PAGE_SIZE. lia. }
  { apply Z.div_le_upper_bound; [done|]. cbn [init_state page_count]. unfold PAGE_SIZE. lia. }
  { intros i [Hi1 Hi2]. split; [apply init_not_covered|]. exists (MkPage 0 0). split; [|done].
    cbn [init_state pages]. rewrite zero_pages_lookup. rewrite decide_True; [done|].
    assert (0 ≤ (ROUND_UP kend 4 + 1179584 + PAGE_SIZE - 1) / PAGE_SIZE) by (apply Z.div_pos; unfold PAGE_SIZE in *; lia).
    assert (limit / PAGE_SIZE ≤ 4096) by (apply Z.div_le_upper_bound; unfold PAGE_SIZE; lia). lia. }
  assert (∀ i, covered st1 i ↔ (ROUND_UP kend 4 + 1179584 + PAGE_SIZE - 1) / PAGE_SIZE ≤ i < limit / PAGE_SIZE) as Hc1'.
  { intros i. rewrite Hc1. pose proof (init_not_covered i). tauto. }
  assert ((ROUND_UP kend 4 + 1179584 + PAGE_SIZE - 1) / PAGE_SIZE ≤ limit / PAGE_SIZE) as Hle.
  { replace (limit / PAGE_SIZE) with ((limit + PAGE_SIZE - 1) / PAGE_SIZE) by (destruct Hlim; subst; done).
    apply Z.div_le_mono; [done|]. lia. }
  assert ((limit + PAGE_SIZE - 1) / PAGE_SIZE = limit / PAGE_SIZE) as Hal by (destruct Hlim; subst; done).
  assert (limit / PAGE_SIZE ≤ 4096) by (apply Z.div_le_upper_bound; unfold PAGE_SIZE; lia).
  destruct (page_free_region_ok st1 limit PHYS_LIMIT) as (st2 & E & Hst2 & Hn2 & Hc2 & Hp2);
    [done|lia|unfold PAGE_SIZE; lia|by rewrite Hn1| |].
  { rewrite Hal. change (PHYS_LIMIT / PAGE_SIZE) with 65536. intros i Hi. rewrite Hc1', Hp1. split; [lia|].
    exists (MkPage 0 0). split; [|done]. rewrite decide_False by lia.
    cbn [init_state pages]. rewrite zero_pages_lookup, decide_True; [done|].
    assert (0 ≤ limit / PAGE_SIZE) by (apply Z.div_pos; unfold PAGE_SIZE; lia). lia. }
  exists st1, st2. split_and!; try done. intros i. rewrite Hc2, Hc1', Hal.
  change (PHYS_LIMIT / PAGE_SIZE) with 65536. lia.
Qed.

(** [page_estimate_order] finds the smallest order whose blocks hold [size]
    bytes, for every size up to 2 GiB. *)
Theorem page_estimate_order_spec size :
  size ≤ 2 ^ 31 →
  ∃ o, page_estimate_order size = Some o ∧ size ≤ PAGE_SIZE * bsize o ∧
    ∀ o', size ≤ PAGE_SIZE * bsize o' → (o ≤ o')%nat.
Proof.
  intros Hs. unfold page_estimate_order.
  assert (∀ n o, (o + n = 20)%nat → (∀ o', (o' < o)%nat → PAGE_SIZE * bsize o' < size) →
    n ≠ 0%nat → ∃ o1, estimate_loop n o size = Some o1 ∧ size ≤ PAGE_SIZE * bsize o1 ∧
      ∀ o', size ≤ PAGE_SIZE * bsize o' → (o1 ≤ o')%nat) as Hloop; [|by apply Hloop; [|lia|]].
  induction n as [|n IH]; intros o Ho Hlt Hn; [done|]. cbn [estimate_loop].
  assert (bsize o ≤ bsize 19) by (apply bsize_mono; lia). change (bsize 19) with 524288 in *.
  pose proof (bsize_pos o). rewrite u32_small by (unfold PAGE_SIZE; lia).
  destruct (_ <? _) eqn:E; bool_to_prop.
  - destruct n as [|n].
    + assert (o = 19%nat) as -> by lia. change (PAGE_SIZE * bsize 19) with (2 ^ 31) in E. lia.
    + apply IH; [lia| |done]. intros o' Ho'. destruct (decide (o' = o)) as [->|]; [done|]. apply Hlt. lia.
  - exists o. split_and!; [done..|]. intros o' Ho'. destruct (decide (o ≤ o')%nat); [done|].
    assert (PAGE_SIZE * bsize o' < size) by (apply Hlt; lia). lia.
Qed.

(** *** Witnesses: a machine with one maximal free block *)

Definition one_block : pstate :=
  MkPState 1024 (zero_pages 1024) (replicate 10 [] ++ [[0]])
    (replicate 10 (replicate 32 0) ++ [[1]]) 1024.

Lemma one_block_free o p : is_free one_block o p ↔ o = 10%nat ∧ p = 0.
Proof.
  unfold is_free. cbn [one_block page_free_list]. split.
  - intros (l & Hl & Hp). do 10 (destruct o as [|o]; [simplify_eq/=; by apply elem_of_nil in Hp|]).
    destruct o as [|o]; [|by destruct o]. simplify_eq/=. by apply list_elem_of_singleton in Hp.
  - intros [-> ->]. exists [0]. split; [done|]. by apply list_elem_of_singleton.
Qed.

Lemma one_block_wf : wf one_block.
Proof.
  assert (∀ o p, is_free one_block o p → o = 10%nat ∧ p = 0) as Hf by (intros; by apply one_block_free).
  split; [split|..].
  - cbn [one_block page_count]. split; [lia|]. by exists 1.
  - done.
  - done.
  - cbn [one_block bitmap page_count]. intros o w Hw.
    do 10 (destruct o as [|o]; [simplify_eq/=; done|]). destruct o as [|o]; [by simplify_eq/=|by destruct o].
  - cbn [one_block bitmap]. intros o w p Hw Hg. rewrite one_block_free.
    do 10 (destruct o as [|o]; [simplify_eq/=; rewrite (bit_zero 32); split; [done|intros [? _]; lia]|]).
    destruct o as [|o]; [|by destruct o]. destruct Hg as (? & _ & Hend & _).
    change (bsize 10) with 1024 in *. cbn [one_block page_count] in Hend.
    assert (p = 0) as -> by lia. simplify_eq/=. by split.
  - cbn [one_block page_free_list]. intros o l Hl.
    do 10 (destruct o as [|o]; [simplify_eq/=; constructor|]).
    destruct o as [|o]; [simplify_eq/=; apply NoDup_singleton|by destruct o].
  - intros o p [-> ->]%Hf. repeat split; [done| |done|done]. by exists 0.
  - intros o1 p1 o2 p2 i [-> ->]%Hf [-> ->]%Hf. done.
  - intros i (o & p & [-> ->]%Hf & [Hi1 Hi2]). unfold clean. cbn [one_block pages].
    change (0 + bsize 10) with 1024 in Hi2. by rewrite zero_pages_lookup, decide_True.
  - cbn [one_block pages page_count]. intros i Hi. by rewrite zero_pages_lookup, decide_True.
  - intros o p Ho [-> ->]%Hf. unfold PAGE_ORDER_MAX in Ho. lia.
  - done.
Qed.

Lemma page_alloc_block_spec_witness :
  wf one_block ∧ ∃ p st', page_alloc_block one_block 3 1 7 = Ok (p, st') ∧ wf st' ∧
    allocated one_block p 3 (MkPage 0 7) st'.
Proof.
  split; [apply one_block_wf|]. destruct (page_alloc_block_spec one_block 3 1 7 one_block_wf) as [_ H].
  destruct (page_alloc_block one_block 3 1 7) as [[p st']|] eqn:E; [|exfalso; vm_compute in E; discriminate].
  exists p, st'. split; [reflexivity|]. apply H. reflexivity.
Defined.

Lemma init_owned p order : good_blk init_state p order → owned init_state p order.
Proof.
  intros Hg. split; [done|]. intros i [Hi1 Hi2]. destruct Hg as (? & _ & Hend & _).
  cbn [init_state page_count pages] in *. split; [apply init_not_covered|].
  exists (MkPage 0 0). split; [|done]. rewrite zero_pages_lookup, decide_True; [done|lia].
Qed.

Lemma init_block_good : good_blk init_state 2040 3.
Proof.
  unfold good_blk. cbn [init_state page_count]. change (bsize 3) with 8. unfold PAGE_ORDER_MAX.
  split_and!; [lia| |lia|lia]. by exists 255.
Qed.

Lemma page_free_block_spec_witness :
  ∃ st', page_free_block init_state 2040 3 = Ok st' ∧ wf st' ∧ freed init_state 2040 3 st'.
Proof.
  apply page_free_block_spec; [apply init_state_wf|apply init_owned, init_block_good].
Defined.

Lemma alloc_free_roundtrip_witness :
  ∃ p st1, page_alloc_block one_block 3 1 7 = Ok (p, st1) ∧ p = 1016 ∧
  ∃ st2, page_free_block st1 p 3 = Ok st2 ∧ wf st2 ∧
    (∀ o q, is_free st2 o q ↔ is_free one_block o q) ∧ pages st2 = pages one_block ∧
    page_free_count st2 = page_free_count one_block.
Proof.
  assert (match page_alloc_block one_block 3 1 7 with Ok (p, _) => p | Panic _ => 0 end = 1016) as Hp
    by (vm_compute; reflexivity).
  destruct (page_alloc_block one_block 3 1 7) as [[p st1]|why] eqn:E; [|discriminate Hp].
  exists p, st1. split; [exact eq_refl|]. split; [exact Hp|].
  exact (alloc_free_roundtrip one_block 3 1 7 p st1 one_block_wf E).
Defined.

Lemma page_free_count_counts_witness :
  wf one_block ∧ ∃ l : list Z, NoDup l ∧ (∀ i, i ∈ l ↔ covered one_block i) ∧
    page_free_count one_block = Z.of_nat (length l).
Proof. split; [apply one_block_wf|apply page_free_count_counts, one_block_wf]. Defined.

Lemma page_init_spec_witness :
  ∃ st1 st2, page_init_low 0x100001 0x00400000 = Ok st1 ∧ page_init_high 0x00400000 st1 = Ok st2 ∧
    wf st1 ∧ wf st2 ∧
    (∀ i, covered st1 i ↔ first_page 0x100001 ≤ i < 0x00400000 / PAGE_SIZE) ∧
    (∀ i, covered st2 i ↔ first_page 0x100001 ≤ i < 65536).
Proof. apply page_init_spec; [lia|by right|by vm_compute]. Defined.

Lemma page_estimate_order_spec_witness :
  page_estimate_order 5000 = Some 1%nat ∧
  ∃ o, page_estimate_order 5000 = Some o ∧ 5000 ≤ PAGE_SIZE * bsize o ∧
    ∀ o', 5000 ≤ PAGE_SIZE * bsize o' → (o ≤ o')%nat.
Proof. split; [reflexivity|apply page_estimate_order_spec; lia]. Defined.

End PageAlloc.
