(* ===== verification/Spin.v ===== *)
(** Spinlocks and the interrupt state (kernel/core/spinlock.c, irq.c, cpu.c).

    CPUs run in any interleaving; acquiring and releasing a lock are split at
    every point where another CPU can see a difference.  Each CPU keeps the
    nesting depth of its critical sections and the interrupt state before the
    outermost one.  The machine operations k_arch_irq_* and k_arch_spinlock_*
    are modelled by their documented effect: the interrupt flag of the CPU, and
    an atomic test-and-set of the lock word that waits until it is clear. *)

From stdpp Require Import functions.
From S2P Require Import Prelude.
#[local] Open Scope Z_scope.

Module Spin.

Abbreviation cid := nat.
Abbreviation lid := nat.

Record KSpinLock := MkLock { locked : bool; cpu : option cid }.

(** Where a CPU is inside k_spinlock_acquire or k_spinlock_release. *)
Inductive place :=
| Outside
| Waiting (l : lid)       (* in k_arch_spinlock_acquire *)
| Took (l : lid)          (* has the lock word, [spin->cpu] not yet set *)
| Dropping (l : lid)      (* has cleared [spin->cpu], not the lock word *)
| Dropped.                (* has cleared the lock word *)

#[global] Instance place_eq_dec : EqDecision place.
Proof. solve_decision. Defined.

(** [irq_enabled] is the machine's flag.  The program on the CPU has [saves]
    calls of k_irq_state_save open and is between acquire and release of the
    locks [holds]. *)
Record KCpu := MkCpu {
  irq_enabled : bool;
  irq_save_count : Z;
  irq_flags : bool;
  at_ : place;
  saves : nat;
  holds : list lid
}.

Record st := MkSt { cpus : cid → KCpu; locks : lid → KSpinLock }.

Implicit Types (c : cid) (l : lid) (s : st) (x : KCpu).

Definition set_cpu c x s := MkSt (<[c := x]> (cpus s)) (locks s).
Definition set_lock l (k : KSpinLock) s := MkSt (cpus s) (<[l := k]> (locks s)).
Definition set_at (p : place) x := MkCpu (irq_enabled x) (irq_save_count x) (irq_flags x) p (saves x) (holds x).
Definition set_saves (n : nat) x := MkCpu (irq_enabled x) (irq_save_count x) (irq_flags x) (at_ x) n (holds x).
Definition set_holds (h : list lid) x := MkCpu (irq_enabled x) (irq_save_count x) (irq_flags x) (at_ x) (saves x) h.

(** [_k_cpu]: the structure of the CPU the code runs on. *)
Definition _k_cpu x : outcome unit := k_assert (negb (irq_enabled x)) "Assertion failed: !k_arch_irq_is_enabled()".

Definition k_irq_state_save x : outcome KCpu :=
  let flags := irq_enabled x in
  let x := MkCpu false (irq_save_count x) (irq_flags x) (at_ x) (saves x) (holds x) in
  _ ← _k_cpu x;
  let first := irq_save_count x =? 0 in
  Ok (MkCpu false (irq_save_count x + 1) (if first then flags else irq_flags x) (at_ x) (saves x) (holds x)).

Definition k_irq_state_restore x : outcome KCpu :=
  _ ← k_assert (negb (irq_enabled x)) "Assertion failed: !k_arch_irq_is_enabled()";
  let count := irq_save_count x - 1 in
  _ ← k_assert (0 <=? count) "Assertion failed: count >= 0";
  Ok (MkCpu (if count =? 0 then irq_flags x else irq_enabled x) count (irq_flags x) (at_ x) (saves x) (holds x)).

Definition k_spinlock_init : KSpinLock := MkLock false None.

Definition k_spinlock_holding c l s : outcome (bool * st) :=
  x ← k_irq_state_save (cpus s c);
  _ ← _k_cpu x;
  let r := locked (locks s l) && bool_decide (cpu (locks s l) = Some c) in
  x ← k_irq_state_restore x;
  Ok (r, set_cpu c x s).

(** [k_spinlock_acquire] up to the test-and-set, and after it. *)
Definition acquire_begin c l s : outcome st :=
  '(b, s) ← k_spinlock_holding c l s;
  if b : bool then Panic "CPU is already holding" else
  x ← k_irq_state_save (cpus s c);
  Ok (set_cpu c (set_at (Waiting l) x) s).

Definition acquire_end c l s : outcome st :=
  let x := cpus s c in
  _ ← _k_cpu x;
  Ok (set_cpu c (set_at Outside (set_holds (l :: holds x) x)) (set_lock l (MkLock (locked (locks s l)) (Some c)) s)).

(** [k_spinlock_release] up to clearing the lock word. *)
Definition release_begin c l s : outcome st :=
  '(b, s) ← k_spinlock_holding c l s;
  if b : bool then
    let x := cpus s c in
    Ok (set_cpu c (set_at (Dropping l) (set_holds (filter (.≠ l) (holds x)) x)) (set_lock l (MkLock (locked (locks s l)) None) s))
  else Panic "CPU cannot release".

Inductive event :=
| EAcquire (c : cid) (l : lid) | ETake (c : cid) | EOwn (c : cid)
| ERelease (c : cid) (l : lid) | EUnlock (c : cid) | EDrop (c : cid)
| ESave (c : cid) | ERestore (c : cid) | EIrq (c : cid) (b : bool).

Definition exec (e : event) s : outcome st :=
  match e with
  | EAcquire c l => acquire_begin c l s
  | ETake c =>
      match at_ (cpus s c) with
      | Waiting l => Ok (set_cpu c (set_at (Took l) (cpus s c)) (set_lock l (MkLock true (cpu (locks s l))) s))
      | _ => Ok s
      end
  | EOwn c => match at_ (cpus s c) with Took l => acquire_end c l s | _ => Ok s end
  | ERelease c l => release_begin c l s
  | EUnlock c =>
      match at_ (cpus s c) with
      | Dropping l => Ok (set_cpu c (set_at Dropped (cpus s c)) (set_lock l (MkLock false (cpu (locks s l))) s))
      | _ => Ok s
      end
  | EDrop c => x ← k_irq_state_restore (cpus s c); Ok (set_cpu c (set_at Outside x) s)
  | ESave c => x ← k_irq_state_save (cpus s c); Ok (set_cpu c (set_saves (S (saves x)) x) s)
  | ERestore c => x ← k_irq_state_restore (cpus s c); Ok (set_cpu c (set_saves (pred (saves x)) x) s)
  | EIrq c b =>
      let x := cpus s c in
      Ok (set_cpu c (MkCpu b (irq_save_count x) (irq_flags x) (at_ x) (saves x) (holds x)) s)
  end.

(** When an event can happen: the test-and-set waits for the lock word, a CPU
    finishes one call before the next, k_irq_state_restore follows a save, and
    interrupts are switched outside of all critical sections. *)
Definition enabled (e : event) s : bool :=
  match e with
  | EAcquire c _ | ERelease c _ | ESave c => bool_decide (at_ (cpus s c) = Outside)
  | ETake c => match at_ (cpus s c) with Waiting l => negb (locked (locks s l)) | _ => false end
  | EOwn c => match at_ (cpus s c) with Took _ => true | _ => false end
  | EUnlock c => match at_ (cpus s c) with Dropping _ => true | _ => false end
  | EDrop c => bool_decide (at_ (cpus s c) = Dropped)
  | ERestore c => bool_decide (at_ (cpus s c) = Outside) && negb (saves (cpus s c) =? 0)%nat
  | EIrq c _ => bool_decide (at_ (cpus s c) = Outside) && (irq_save_count (cpus s c) =? 0)
  end.

Definition boot : st := MkSt (λ _, MkCpu false 0 false Outside 0 []) (λ _, k_spinlock_init).

Inductive reachable : st → Prop :=
| reach_boot : reachable boot
| reach_step e s s' : reachable s → enabled e s = true → exec e s = Ok s' → reachable s'.

(** The CPU is in the critical section of [l], or entering or leaving it. *)
Definition inside x l : Prop := l ∈ holds x ∨ at_ x = Took l ∨ at_ x = Dropping l.

Definition depth x : Z :=
  Z.of_nat (saves x) + Z.of_nat (length (holds x)) + (if decide (at_ x = Outside) then 0 else 1).

Record inv s : Prop := {
  i_count : ∀ c, irq_save_count (cpus s c) = depth (cpus s c);
  i_irq : ∀ c, 0 < depth (cpus s c) → irq_enabled (cpus s c) = false;
  i_locked : ∀ l, locked (locks s l) = true ↔ ∃ c, inside (cpus s c) l;
  i_unique : ∀ l c c', inside (cpus s c) l → inside (cpus s c') l → c = c';
  i_cpu : ∀ l c, cpu (locks s l) = Some c ↔ l ∈ holds (cpus s c);
  i_once : ∀ c, NoDup (holds (cpus s c)) ∧ ∀ l, at_ (cpus s c) = Took l ∨ at_ (cpus s c) = Dropping l → l ∉ holds (cpus s c)
}.

Lemma save_ok x :
  k_irq_state_save x = Ok (MkCpu false (irq_save_count x + 1)
    (if irq_save_count x =? 0 then irq_enabled x else irq_flags x) (at_ x) (saves x) (holds x)).
Proof. done. Qed.

Lemma restore_ok x :
  irq_enabled x = false → 0 < irq_save_count x →
  k_irq_state_restore x = Ok (MkCpu (if irq_save_count x =? 1 then irq_flags x else false) (irq_save_count x - 1)
    (irq_flags x) (at_ x) (saves x) (holds x)).
Proof.
  intros Hi Hc. unfold k_irq_state_restore. rewrite Hi. simpl. rewrite (proj2 (Z.leb_le _ _)) by lia. simpl.
  do 2 f_equal. destruct (Z.eqb_spec (irq_save_count x - 1) 0), (Z.eqb_spec (irq_save_count x) 1); try lia; done.
Qed.

(** What [k_irq_state_restore] will bring back. *)
Definition effective x : bool := if irq_save_count x =? 0 then irq_enabled x else irq_flags x.

Lemma cpus_set c x s c' : cpus (set_cpu c x s) c' = if decide (c = c') then x else cpus s c'.
Proof. done. Qed.
Lemma locks_set c x l k s l' : locks (set_cpu c x (set_lock l k s)) l' = if decide (l = l') then k else locks s l'.
Proof. done. Qed.

(** A step of [c] on the lock [l]. *)
Lemma inv_step s c x l k :
  inv s → irq_save_count x = depth x → (0 < depth x → irq_enabled x = false) →
  (∀ l', l' ≠ l → (inside x l' ↔ inside (cpus s c) l') ∧ (l' ∈ holds x ↔ l' ∈ holds (cpus s c))) →
  (locked k = true ↔ inside x l ∨ ∃ c', c' ≠ c ∧ inside (cpus s c') l) →
  (inside x l → ∀ c', c' ≠ c → ¬ inside (cpus s c') l) →
  (cpu k = Some c ↔ l ∈ holds x) → (∀ c', c' ≠ c → cpu k = Some c' ↔ l ∈ holds (cpus s c')) →
  (NoDup (holds x) ∧ ∀ l', at_ x = Took l' ∨ at_ x = Dropping l' → l' ∉ holds x) →
  inv (set_cpu c x (set_lock l k s)).
Proof.
  intros [I1 I2 I3 I4 I5 I6] H1 H2 H3 H4 H5 H6 H7 H8.
  assert (∀ c' l', inside (cpus (set_cpu c x (set_lock l k s)) c') l' ↔
    if decide (c' = c) then (if decide (l' = l) then inside x l else inside (cpus s c) l') else inside (cpus s c') l') as Hin.
  { intros c' l'. rewrite cpus_set. case_decide as E; [subst|by rewrite decide_False by congruence].
    rewrite decide_True by done. case_decide; [by subst|]. by apply H3. }
  split.
  - intros c'. rewrite cpus_set. case_decide; [done|apply I1].
  - intros c'. rewrite cpus_set. case_decide; [done|apply I2].
  - intros l'. rewrite locks_set. case_decide as E.
    + subst l'. rewrite H4. split.
      * intros [?|(c' & ? & ?)]; [exists c|exists c']; rewrite Hin; [by rewrite !decide_True|by rewrite decide_False].
      * intros [c' Hc]. rewrite Hin in Hc. destruct (decide (c' = c)); [rewrite decide_True in Hc by done; by left|eauto].
    + rewrite I3. apply exist_proper. intros c'. rewrite Hin. case_decide; [subst|done]. by rewrite decide_False.
  - intros l' c1 c2. rewrite !Hin.
    destruct (decide (c1 = c)) as [->|], (decide (c2 = c)) as [->|]; [done|..|apply I4];
      (case_decide; [subst; intros ??; exfalso; naive_solver|apply I4]).
  - intros l' c'. rewrite locks_set, cpus_set. case_decide as E1; case_decide as E2; subst; [done|..|apply I5].
    + by apply H7.
    + rewrite I5. symmetry. by apply H3.
  - intros c'. rewrite cpus_set. case_decide; [done|apply I6].
Qed.

(** A step of [c] that touches no lock. *)
Lemma inv_quiet s c x :
  inv s → irq_save_count x = depth x → (0 < depth x → irq_enabled x = false) →
  (∀ l, inside x l ↔ inside (cpus s c) l) → holds x = holds (cpus s c) →
  (∀ l, at_ x = Took l ∨ at_ x = Dropping l → at_ x = at_ (cpus s c)) → inv (set_cpu c x s).
Proof.
  intros I H1 H2 H3 H4 H5. pose proof I as [I1 I2 I3 I4 I5 I6]. split.
  - intros c'. rewrite cpus_set. case_decide; [done|apply I1].
  - intros c'. rewrite cpus_set. case_decide; [done|apply I2].
  - intros l. change (locks (set_cpu c x s) l) with (locks s l). rewrite I3. apply exist_proper. intros c'.
    rewrite cpus_set. case_decide; [by subst; rewrite H3|done].
  - intros l c1 c2. rewrite !cpus_set. repeat case_decide; subst; rewrite ?H3; apply I4.
  - intros l c'. change (locks (set_cpu c x s) l) with (locks s l).
    rewrite cpus_set. case_decide; [subst; by rewrite H4|apply I5].
  - intros c'. rewrite cpus_set. case_decide; [subst c'|apply I6]. rewrite H4. split; [apply I6|].
    intros l Hl. apply I6. by rewrite <-(H5 l Hl).
Qed.

Lemma depth_nonneg x : 0 ≤ depth x.
Proof. unfold depth. case_decide; lia. Qed.

(** Testing a lock answers exactly, and changes nothing that matters. *)
Lemma holding_ok c l s :
  inv s → ∃ x, k_spinlock_holding c l s = Ok (bool_decide (l ∈ holds (cpus s c)), set_cpu c x s) ∧
    inv (set_cpu c x s) ∧ at_ x = at_ (cpus s c) ∧ saves x = saves (cpus s c) ∧ holds x = holds (cpus s c) ∧
    effective x = effective (cpus s c) ∧ irq_save_count x = irq_save_count (cpus s c) ∧ irq_enabled x = irq_enabled (cpus s c).
Proof.
  intros I. pose proof (depth_nonneg (cpus s c)) as Hd. pose proof (i_count _ I c) as Hc. pose proof (i_irq _ I c) as Hi.
  set (y := cpus s c) in *.
  exists (MkCpu (irq_enabled y) (irq_save_count y) (if irq_save_count y =? 0 then irq_enabled y else irq_flags y) (at_ y) (saves y) (holds y)).
  split_and!; try done.
  - unfold k_spinlock_holding. fold y. rewrite save_ok. cbn [mbind outcome_bind]. unfold _k_cpu. simpl.
    rewrite restore_ok; simpl; [|done|lia]. do 2 f_equal.
    + f_equal. apply eq_true_iff_eq. rewrite andb_true_iff, !bool_decide_eq_true, (i_locked _ I), (i_cpu _ I). fold y.
      split; [by intros [_ ?]|]. intros Hl. split; [|done]. exists c. by left.
    + f_equal. f_equal; [|lia]. destruct (Z.eqb_spec (irq_save_count y) 0), (Z.eqb_spec (irq_save_count y + 1) 1); try lia; [done|].
      symmetry. apply Hi. lia.
  - by apply inv_quiet.
  - unfold effective. simpl. by destruct (_ =? 0).
Qed.

Lemma depth_at p x : depth (set_at p x) = depth x - (if decide (at_ x = Outside) then 0 else 1) + (if decide (p = Outside) then 0 else 1).
Proof. unfold depth. simpl. repeat case_decide; lia. Qed.

(** The checks that catch a wrong use of the locks. *)
Definition misuse (e : event) s (w : string) : Prop :=
  match e with
  | EAcquire c l => l ∈ holds (cpus s c) ∧ w = "CPU is already holding"%string
  | ERelease c l => l ∉ holds (cpus s c) ∧ w = "CPU cannot release"%string
  | _ => False
  end.

Definition irq_kept (e : event) s s' : Prop :=
  ∀ c, (∀ b, e ≠ EIrq c b) → effective (cpus s' c) = effective (cpus s c).

Lemma kept_set c x s e (k : KSpinLock) l :
  effective x = effective (cpus s c) → irq_kept e s (set_cpu c x s) ∧ irq_kept e s (set_cpu c x (set_lock l k s)).
Proof. intros E. split; intros c' _; rewrite cpus_set; case_decide; by subst. Qed.

Lemma acquire_ok c l s :
  inv s → at_ (cpus s c) = Outside →
  wp (acquire_begin c l s) (misuse (EAcquire c l) s) (λ s', inv s' ∧ irq_kept (EAcquire c l) s s').
Proof.
  intros I Ho. destruct (holding_ok c l s I) as (x & E & I' & Hat & Hsv & Hh & Hef & Hcn & Hen).
  unfold acquire_begin. rewrite E. cbn [mbind outcome_bind]. case_bool_decide as Hl; [done|].
  rewrite save_ok, cpus_set, decide_True by done. cbn [mbind outcome_bind wp set_at irq_enabled irq_save_count irq_flags].
  pose proof (i_count _ I' c) as Hc. rewrite cpus_set, decide_True in Hc by done.
  pose proof (depth_nonneg x) as Hd. split.
  - apply inv_quiet; rewrite ?cpus_set, ?decide_True; simpl; try done.
    + rewrite Hc. unfold depth. simpl. repeat case_decide; first [congruence|lia].
    + intros l'. unfold inside. simpl. rewrite Hat, Ho. naive_solver.
    + by intros l' [?|?].
  - intros c' _. rewrite cpus_set. case_decide; [subst|by rewrite cpus_set, decide_False].
    rewrite <-Hef. unfold effective. simpl.
    destruct (Z.eqb_spec (irq_save_count x) 0), (Z.eqb_spec (irq_save_count x + 1) 0); try lia; done.
Qed.

(** The holder lets go of [spin->cpu]. *)
Lemma let_go s c l :
  let x := cpus s c in
  inv s → at_ x = Outside → l ∈ holds x →
  inv (set_cpu c (set_at (Dropping l) (set_holds (filter (.≠ l) (holds x)) x)) (set_lock l (MkLock (locked (locks s l)) None) s)).
Proof.
  intros x I Ho Hl. pose proof (i_once _ I c) as [Hnd _]. fold x in Hnd.
  pose proof (filter_ne_length l (holds x) Hnd Hl) as Hlen.
  assert (∀ c', c' ≠ c → ¬ inside (cpus s c') l) as Hun.
  { intros c' Hne Hin. apply Hne, (i_unique _ I l); [done|]. by left. }
  assert (depth (set_at (Dropping l) (set_holds (filter (.≠ l) (holds x)) x)) = depth x) as Hd.
  { unfold depth. simpl. repeat case_decide; first [congruence|lia]. }
  apply inv_step; fold x; simpl; try done.
  - rewrite Hd. apply I.
  - rewrite Hd. apply I.
  - intros l' Hne. unfold inside. simpl. rewrite Ho, list_elem_of_filter. naive_solver.
  - split; [|intros _; apply (i_locked _ I); exists c; by left]. intros _. left. right. by right.
  - split; [done|]. rewrite list_elem_of_filter. naive_solver.
  - intros c' Hne. split; [done|]. intros Hin. destruct (Hun c' Hne). by left.
  - split; [by apply NoDup_filter|]. intros l' [?|[= <-]]; [done|]. rewrite list_elem_of_filter. naive_solver.
Qed.

Lemma release_ok c l s :
  inv s → at_ (cpus s c) = Outside →
  wp (release_begin c l s) (misuse (ERelease c l) s) (λ s', inv s' ∧ irq_kept (ERelease c l) s s').
Proof.
  intros I Ho. destruct (holding_ok c l s I) as (x & E & I' & Hat & Hsv & Hh & Hef & Hcn & Hen).
  unfold release_begin. rewrite E. cbn [mbind outcome_bind]. case_bool_decide as Hl; [|done].
  pose proof (let_go (set_cpu c x s) c l I') as H. rewrite cpus_set, decide_True in H |- * by done. cbn [wp]. split.
  - apply H; congruence.
  - intros c' _. rewrite cpus_set. case_decide; [by subst|]. simpl. unfold insert, fn_insert. by rewrite decide_False.
Qed.

Lemma take_ok c l s :
  let x := cpus s c in
  inv s → at_ x = Waiting l → locked (locks s l) = false →
  inv (set_cpu c (set_at (Took l) x) (set_lock l (MkLock true (cpu (locks s l))) s)).
Proof.
  intros x I Hat Hl.
  assert (∀ c', ¬ inside (cpus s c') l) as Hno.
  { intros c' Hin. assert (locked (locks s l) = true) by (apply (i_locked _ I); eauto). congruence. }
  assert (depth (set_at (Took l) x) = depth x) as Hd by (unfold depth; simpl; repeat case_decide; first [congruence|lia]).
  apply inv_step; fold x; simpl; try done.
  - rewrite Hd. apply I.
  - rewrite Hd. apply I.
  - intros l' Hne. unfold inside. simpl. rewrite Hat. naive_solver.
  - split; [|done]. intros _. left. right. by left.
  - apply I.
  - intros c' _. apply I.
  - split; [apply I|]. intros l' [[= <-]|?]; [|done]. intros Hin. apply (Hno c). by left.
Qed.

Lemma own_ok c l s :
  let x := cpus s c in
  inv s → at_ x = Took l →
  inv (set_cpu c (set_at Outside (set_holds (l :: holds x) x)) (set_lock l (MkLock (locked (locks s l)) (Some c)) s)).
Proof.
  intros x I Hat. pose proof (i_once _ I c) as [Hnd Hni]. fold x in Hnd, Hni.
  assert (inside x l) as Hin by (right; by left).
  assert (∀ c', c' ≠ c → ¬ inside (cpus s c') l) as Hun.
  { intros c' Hne Hin'. by apply Hne, (i_unique _ I l). }
  assert (depth (set_at Outside (set_holds (l :: holds x) x)) = depth x) as Hd.
  { unfold depth. simpl. repeat case_decide; first [congruence|lia]. }
  apply inv_step; fold x; simpl; try done.
  - rewrite Hd. apply I.
  - rewrite Hd. apply I.
  - intros l' Hne. unfold inside. simpl. rewrite Hat, elem_of_cons. naive_solver.
  - split; [|intros _; apply (i_locked _ I); by exists c]. intros _. left. left. simpl. by left.
  - split; [intros _; by left|done].
  - intros c' Hne. split; [congruence|]. intros H. destruct (Hun c' Hne). by left.
  - split; [|by intros l' [?|?]]. constructor; [|done]. apply Hni. by left.
Qed.

Lemma spin_unlock_ok c l s :
  let x := cpus s c in
  inv s → at_ x = Dropping l →
  inv (set_cpu c (set_at Dropped x) (set_lock l (MkLock false (cpu (locks s l))) s)).
Proof.
  intros x I Hat. pose proof (i_once _ I c) as [Hnd Hni]. fold x in Hnd, Hni.
  assert (inside x l) as Hin by (right; by right).
  assert (∀ c', c' ≠ c → ¬ inside (cpus s c') l) as Hun.
  { intros c' Hne Hin'. by apply Hne, (i_unique _ I l). }
  assert (depth (set_at Dropped x) = depth x) as Hd by (unfold depth; simpl; repeat case_decide; first [congruence|lia]).
  assert (¬ inside (set_at Dropped x) l) as Hout.
  { unfold inside. simpl. intros [H|[?|?]]; [|done..]. apply Hni in H; [done|by right]. }
  apply inv_step; fold x; simpl; try done.
  - rewrite Hd. apply I.
  - rewrite Hd. apply I.
  - intros l' Hne. unfold inside. simpl. rewrite Hat. naive_solver.
  - naive_solver.
  - apply I.
  - intros c' _. apply I.
  - split; [done|]. by intros l' [?|?].
Qed.

(** Leaving a critical section that is open. *)
Lemma leave_ok s c x (f : KCpu → KCpu) :
  inv s → x = cpus s c → 0 < depth x →
  (∀ y, irq_save_count (f y) = irq_save_count y ∧ irq_enabled (f y) = irq_enabled y ∧ irq_flags (f y) = irq_flags y ∧
        holds (f y) = holds y) →
  (∀ y, at_ y = at_ x → saves y = saves x → holds y = holds x → depth (f y) = depth x - 1) →
  (∀ y, at_ y = at_ x → at_ (f y) = Outside ∧ ∀ l, at_ x ≠ Took l ∧ at_ x ≠ Dropping l) →
  ∃ y, k_irq_state_restore x = Ok y ∧ inv (set_cpu c (f y) s) ∧ effective (f y) = effective x.
Proof.
  intros I -> Hd Hf Hdf Hat. pose proof (i_count _ I c) as Hc. pose proof (i_irq _ I c Hd) as Hi.
  rewrite restore_ok by (done || lia). eexists. split; [done|].
  match goal with |- inv (set_cpu c (f ?Y) s) ∧ _ => set (y := Y) end.
  destruct (Hf y) as (F1 & F2 & F3 & F4). destruct (Hat y eq_refl) as [A1 A2].
  pose proof (Hdf y eq_refl eq_refl eq_refl) as D. split.
  - apply inv_quiet; try done.
    + rewrite F1, D. simpl. lia.
    + rewrite F2, D. simpl. intros ?. by rewrite (proj2 (Z.eqb_neq _ _)) by lia.
    + intros l. unfold inside. rewrite F4, A1. simpl. destruct (A2 l). naive_solver.
    + intros l. rewrite A1. by intros [?|?].
  - unfold effective. rewrite F1, F2, F3. simpl.
    destruct (Z.eqb_spec (irq_save_count (cpus s c) - 1) 0), (Z.eqb_spec (irq_save_count (cpus s c)) 1),
      (Z.eqb_spec (irq_save_count (cpus s c)) 0); try lia; done.
Qed.

Lemma spin_exec_ok e s :
  inv s → enabled e s = true → wp (exec e s) (misuse e s) (λ s', inv s' ∧ irq_kept e s s').
Proof.
  intros I He. destruct e as [c l|c|c|c l|c|c|c|c|c b]; cbn [exec enabled] in *; bool_to_prop.
  - by apply acquire_ok.
  - destruct (at_ (cpus s c)) as [|l| | |] eqn:E; try done. bool_to_prop. split; [by apply take_ok|].
    by eapply (kept_set c).
  - destruct (at_ (cpus s c)) as [| |l| |] eqn:E; try done. unfold acquire_end, _k_cpu.
    rewrite (i_irq _ I c); [|unfold depth; rewrite E; simpl; lia]. simpl. split; [by apply own_ok|].
    by eapply (kept_set c).
  - by apply release_ok.
  - destruct (at_ (cpus s c)) as [| | |l|] eqn:E; try done. split; [by apply spin_unlock_ok|]. by eapply (kept_set c).
  - destruct (leave_ok s c (cpus s c) (set_at Outside) I eq_refl) as (y & -> & Hy & Ef); try done.
    + unfold depth. rewrite decide_False by congruence. lia.
    + intros y E1 E2 E3. unfold depth. simpl. rewrite E2, E3, decide_False by congruence. lia.
    + intros y E1. split; [done|]. intros l. by rewrite He.
    + split; [done|]. by apply (kept_set c _ s _ k_spinlock_init 0%nat).
  - rewrite save_ok. cbn [mbind outcome_bind wp saves]. pose proof (i_count _ I c) as Hc. split.
    + apply inv_quiet; simpl; try done. rewrite Hc. unfold depth. simpl. case_decide; lia.
    + apply (kept_set c _ s _ k_spinlock_init 0%nat). pose proof (depth_nonneg (cpus s c)). unfold effective. simpl.
      destruct (Z.eqb_spec (irq_save_count (cpus s c)) 0), (Z.eqb_spec (irq_save_count (cpus s c) + 1) 0); try lia; done.
  - apply Nat.eqb_neq in H0.
    destruct (leave_ok s c (cpus s c) (λ x, set_saves (pred (saves x)) x) I eq_refl) as (y & -> & Hy & Ef); try done.
    + unfold depth. case_decide; lia.
    + intros y E1 E2 E3. unfold depth. simpl. rewrite E1, E2, E3. case_decide; lia.
    + intros y E1. split; [simpl; congruence|]. intros l. by rewrite H.
    + split; [done|]. by apply (kept_set c _ s _ k_spinlock_init 0%nat).
  - pose proof (i_count _ I c) as Hc. split.
    + apply inv_quiet; simpl; try done. intros Hd. change (0 < depth (cpus s c)) in Hd. lia.
    + intros c' Hne. rewrite cpus_set. case_decide; [subst|done]. by destruct (Hne b).
Qed.

Lemma spin_boot_inv : inv boot.
Proof.
  split; try done.
  - intros l. split; [done|]. intros (c & [H|[?|?]]); [by apply elem_of_nil in H|done..].
  - intros l c c' [H|[?|?]]; [by apply elem_of_nil in H|done..].
  - intros l c. split; [done|]. by intros ?%elem_of_nil.
  - intros c. split; [constructor|]. by intros l [?|?].
Qed.

Lemma spin_reachable_inv s : reachable s → inv s.
Proof.
  induction 1 as [|e s s' _ IH He E]; [apply spin_boot_inv|].
  pose proof (spin_exec_ok e s IH He) as H. rewrite E in H. apply H.
Qed.

(** C26: in every reachable state, a CPU between acquire and release of a lock
    is the only one: it has its interrupts off, the lock word is set and names
    it, and no other CPU is past the test-and-set of the same lock. *)
Theorem spinlock_mutual_exclusion s c l :
  reachable s → l ∈ holds (cpus s c) →
  irq_enabled (cpus s c) = false ∧ locks s l = MkLock true (Some c) ∧
  ∀ c', c' ≠ c → l ∉ holds (cpus s c') ∧ at_ (cpus s c') ≠ Took l ∧ at_ (cpus s c') ≠ Dropping l.
Proof.
  intros Hr Hl. pose proof (spin_reachable_inv s Hr) as I. assert (inside (cpus s c) l) as Hin by (by left). split_and!.
  - apply (i_irq _ I). pose proof (i_count _ I c). unfold depth. destruct (holds (cpus s c)); [by apply elem_of_nil in Hl|].
    simpl. case_decide; lia.
  - pose proof (proj2 (i_locked _ I l) (ex_intro _ c Hin)) as H1. pose proof (proj2 (i_cpu _ I l c) Hl) as H2.
    destruct (locks s l). simpl in *. congruence.
  - intros c' Hne. assert (¬ inside (cpus s c') l) as H; [|unfold inside in H; naive_solver].
    intros H. by apply Hne, (i_unique _ I l).
Qed.

(** A step on locks or interrupt state from a reachable state completes,
    or is an acquire by the holder or a release by another CPU and fails the
    check for that; and it leaves what the outermost restore will bring back:
    after as many restores as saves the interrupts are as they were. *)
Theorem spinlock_steps s e :
  reachable s → enabled e s = true →
  match exec e s with
  | Ok s' => reachable s' ∧ ∀ c, (∀ b, e ≠ EIrq c b) → effective (cpus s' c) = effective (cpus s c)
  | Panic w => misuse e s w
  end.
Proof.
  intros Hr He. pose proof (spin_exec_ok e s (spin_reachable_inv s Hr) He) as H.
  destruct (exec e s) as [s'|w] eqn:E; [|done]. split; [by eapply reach_step|apply H].
Qed.

(** A run: the events in order, each enabled when it happens. *)
Fixpoint run (es : list event) s : outcome st :=
  match es with
  | [] => Ok s
  | e :: es => _ ← k_assert (enabled e s) "not enabled"; s ← exec e s; run es s
  end.

Lemma spin_run_reachable es s s' : reachable s → run es s = Ok s' → reachable s'.
Proof.
  revert s. induction es as [|e es IH]; intros s Hr E; simpl in E; [congruence|].
  destruct (enabled e s) eqn:He; [|done]. simpl in E. destruct (exec e s) as [s1|] eqn:E1; [|done].
  apply (IH s1); [by eapply reach_step|done].
Qed.

Definition after (es : list event) : st := match run es boot with Ok s => s | Panic _ => boot end.

Lemma spin_after_reachable es : reachable (after es).
Proof.
  unfold after. destruct (run es boot) eqn:E; [|apply reach_boot]. by eapply spin_run_reachable; [apply reach_boot|].
Qed.

(** CPU 0 holds lock 3, CPU 1 waits for it. *)
Definition contended : list event :=
  [EIrq 0 true; EIrq 1 true; EAcquire 0 3; EAcquire 1 3; ETake 0; EOwn 0].

Lemma contended_holds : holds (cpus (after contended) 0%nat) = [3%nat].
Proof. vm_compute. reflexivity. Qed.

Lemma spinlock_mutual_exclusion_witness :
  let s := after contended in
  reachable s ∧ irq_enabled (cpus s 0%nat) = false ∧ locks s 3%nat = MkLock true (Some 0%nat).
Proof.
  assert (3%nat ∈ holds (cpus (after contended) 0%nat)) as Hl by (rewrite contended_holds; by left).
  revert Hl. generalize (spin_after_reachable contended). generalize (after contended). intros s Hr Hl s'.
  destruct (spinlock_mutual_exclusion s 0 3 Hr Hl) as (H1 & H2 & _). exact (conj Hr (conj H1 H2)).
Defined.

Lemma spinlock_steps_witness :
  let s := after contended in
  match exec (ERelease 0 3) s with
  | Ok s' => reachable s' ∧ effective (cpus s' 1%nat) = effective (cpus s 1%nat)
  | Panic w => misuse (ERelease 0 3) s w
  end.
Proof.
  assert (enabled (ERelease 0 3) (after contended) = true) as He by (vm_compute; reflexivity).
  revert He. generalize (spin_after_reachable contended). generalize (after contended). intros s Hr He s1.
  pose proof (spinlock_steps s (ERelease 0 3) Hr He) as H.
  change s1 with s. destruct (exec (ERelease 0 3) s) as [s'|w]; [|exact H].
  destruct H as [H1 H2]. split; [exact H1|]. by apply H2.
Defined.

End Spin.
