(* ===== verification/Sched.v ===== *)
(** The scheduler (kernel/core/sched.c), with the part of kernel/core/mutex.c
    that it calls back when priorities are raised.

    Everything here runs with [_k_sched_spinlock] held, so an operation is an
    atomic state transformer up to the context switch inside
    [_k_sched_yield_locked].  An operation that sleeps is therefore given in
    two halves: up to the switch, and from the switch back (module Kernel puts
    them together).

    A task's [link] is the queue it is on, and [queues] has the queues' members
    in order. *)

From S2P Require Import Prelude Timeout.
#[local] Open Scope Z_scope.

Module Sched.

Definition K_TASK_MAX_PRIORITIES : Z := 40.

Definition K_ERR_AGAIN : Z := - EAGAIN.
Definition K_ERR_DEADLK : Z := - EDEADLK.
Definition K_ERR_INVAL : Z := - EINVAL.
Definition K_ERR_TIMEDOUT : Z := - ETIMEDOUT.

Abbreviation tid := nat.
Abbreviation mid := nat.
Abbreviation wid := nat.
Abbreviation cid := nat.

Inductive tstate :=
| READY | RUNNING | SLEEP | SLEEP_UNWAKEABLE | SUSPENDED | DESTROYED.
#[export] Instance tstate_eq_dec : EqDecision tstate.
Proof. solve_decision. Defined.

(** Lists of tasks: [sched_queue[p]], the queue of a mutex, and the wait
    queues of semaphores, condition variables, mailboxes and the bare ones. *)
Inductive qid :=
| QRun (p : Z) | QMutex (m : mid)
| QSem (w : wid) | QCond (w : wid) | QRecv (w : wid) | QSend (w : wid) | QWait (w : wid).
#[export] Instance qid_eq_dec : EqDecision qid.
Proof. solve_decision. Defined.

Record KTask := MkTask {
  state : tstate;
  priority : Z;
  saved_priority : Z;
  reschedule : bool;                (* K_TASK_FLAG_RESCHEDULE in [flags] *)
  owned_mutexes : list mid;
  sleep_on_mutex : option mid;
  sleep_result : Z;
  link : option qid
}.

Record KMutex := MkMutex { owner : option tid; m_priority : Z }.

Record KCpu := MkCpu { cpu_task : option tid; lock_count : Z }.

Record kst := MkK {
  tasks : gmap tid KTask;
  mutexes : gmap mid KMutex;
  queues : qid → list tid;
  timeouts : Timeout.queue;          (* _k_sched_timeouts *)
  cpus : gmap cid KCpu
}.

Implicit Types (k : kst) (t o : tid) (m : mid) (p : Z) (q : qid) (c : cid) (x : KTask).

(** *** Field updates *)

Definition set_state (s : tstate) x := MkTask s (priority x) (saved_priority x) (reschedule x)
  (owned_mutexes x) (sleep_on_mutex x) (sleep_result x) (link x).
Definition set_priority p x := MkTask (state x) p (saved_priority x) (reschedule x)
  (owned_mutexes x) (sleep_on_mutex x) (sleep_result x) (link x).
Definition set_reschedule (b : bool) x := MkTask (state x) (priority x) (saved_priority x) b
  (owned_mutexes x) (sleep_on_mutex x) (sleep_result x) (link x).
Definition set_owned (l : list mid) x := MkTask (state x) (priority x) (saved_priority x)
  (reschedule x) l (sleep_on_mutex x) (sleep_result x) (link x).
Definition set_sleep_on (m : option mid) x := MkTask (state x) (priority x) (saved_priority x)
  (reschedule x) (owned_mutexes x) m (sleep_result x) (link x).
Definition set_result (r : Z) x := MkTask (state x) (priority x) (saved_priority x)
  (reschedule x) (owned_mutexes x) (sleep_on_mutex x) r (link x).
Definition set_link (q : option qid) x := MkTask (state x) (priority x) (saved_priority x)
  (reschedule x) (owned_mutexes x) (sleep_on_mutex x) (sleep_result x) q.

Definition upd_tasks (f : gmap tid KTask → gmap tid KTask) k :=
  MkK (f (tasks k)) (mutexes k) (queues k) (timeouts k) (cpus k).
Definition upd_task t (f : KTask → KTask) k := upd_tasks (alter f t) k.
Definition upd_mutexes (f : gmap mid KMutex → gmap mid KMutex) k :=
  MkK (tasks k) (f (mutexes k)) (queues k) (timeouts k) (cpus k).
Definition set_queue q (l : list tid) k :=
  MkK (tasks k) (mutexes k) (λ q', if decide (q' = q) then l else queues k q') (timeouts k) (cpus k).
Definition set_timeouts (d : Timeout.queue) k :=
  MkK (tasks k) (mutexes k) (queues k) d (cpus k).
Definition upd_cpus (f : gmap cid KCpu → gmap cid KCpu) k :=
  MkK (tasks k) (mutexes k) (queues k) (timeouts k) (f (cpus k)).

Definition task_at t k : outcome KTask := deref (tasks k !! t) "bad task".
Definition mutex_at m k : outcome KMutex := deref (mutexes k !! m) "bad mutex".
Definition cpu_at c k : outcome KCpu := deref (cpus k !! c) "bad cpu".

(** *** Links *)

(** [k_list_remove (&task->link)] *)
Definition list_remove t k : outcome kst :=
  x ← task_at t k;
  match link x with
  | None => Ok k
  | Some q => Ok (upd_task t (set_link None) (set_queue q (filter (.≠ t) (queues k q)) k))
  end.

(** [k_list_add_back], before the members from position [l2] on. *)
Definition list_add t q (l1 l2 : list tid) k : outcome kst :=
  x ← task_at t k;
  _ ← k_assert (bool_decide (link x = None)) "Assertion failed: k_list_is_null(link)";
  Ok (upd_task t (set_link (Some q)) (set_queue q (l1 ++ t :: l2) k)).

(** *** sched.c *)

Definition _k_sched_enqueue t k : outcome kst :=
  x ← task_at t k;
  let k := upd_task t (set_state READY) k in
  _ ← k_assert ((0 <=? priority x) && (priority x <? K_TASK_MAX_PRIORITIES)) "bad priority";
  list_add t (QRun (priority x)) (queues k (QRun (priority x))) [] k.

(** The loop over the run queues; [n] priorities are left. *)
Fixpoint dequeue_from (n : nat) p k : outcome (option tid * kst) :=
  match n with
  | O => Ok (None, k)
  | S n =>
      match queues k (QRun p) with
      | [] => dequeue_from n (p + 1) k
      | t :: _ => k ← list_remove t k; Ok (Some t, k)
      end
  end.
Definition k_sched_dequeue k : outcome (option tid * kst) :=
  dequeue_from (Z.to_nat K_TASK_MAX_PRIORITIES) 0 k.

(** [_k_sched_priority_cmp (t1, t2)] *)
Definition _k_sched_priority_cmp (x1 x2 : KTask) : Z := priority x2 - priority x1.

(** The loop of [_k_sched_add]: the members before and after the new one. *)
Fixpoint add_position (ts : gmap tid KTask) x (l : list tid) : outcome (list tid * list tid) :=
  match l with
  | [] => Ok ([], [])
  | o :: l' =>
      y ← deref (ts !! o) "bad task";
      if 0 <? _k_sched_priority_cmp x y then Ok ([], l)
      else '(l1, l2) ← add_position ts x l'; Ok (o :: l1, l2)
  end.

Definition _k_sched_add q t k : outcome kst :=
  x ← task_at t k;
  '(l1, l2) ← add_position (tasks k) x (queues k q);
  list_add t q l1 l2 k.

(** [_k_sched_yield_locked] hands the CPU to the scheduler loop, which clears
    [my_cpu->task] when [k_sched_switch] returns. *)
Definition _k_sched_yield_locked c k : outcome kst :=
  y ← cpu_at c k;
  Ok (upd_cpus <[c := MkCpu None (lock_count y)]> k).

(** [_k_sched_sleep] up to the context switch. *)
Definition sleep_begin c q (s : tstate) (timeout : Z) k : outcome kst :=
  y ← cpu_at c k;
  if 0 <? lock_count y then Panic "called from an IRQ context" else
  t ← deref (cpu_task y) "called not by a task";
  d ← (if timeout =? 0 then Ok (timeouts k) else Timeout._k_timeout_queue_add (timeouts k) t timeout);
  let k := upd_task t (set_state s) (set_timeouts d k) in
  k ← _k_sched_add q t k;
  _k_sched_yield_locked c k.

(** [_k_sched_sleep] from the context switch back; the result is
    [my_task->sleep_result]. *)
Definition sleep_end t (timeout : Z) k : outcome (Z * kst) :=
  d ← (if (timeout =? 0) || negb (Timeout.queued t (timeouts k)) then Ok (timeouts k)
       else Timeout._k_timeout_queue_remove (timeouts k) t);
  x ← task_at t k;
  Ok (sleep_result x, set_timeouts d k).

(** [_k_mutex_may_raise_priority], which calls [_k_sched_raise_priority] back. *)
Definition may_raise (raise : tid → Z → kst → outcome kst) m p k : outcome kst :=
  mx ← mutex_at m k;
  o ← deref (owner mx) "Assertion failed: mutex->owner != K_NULL";
  if p <? m_priority mx then
    let k := upd_mutexes <[m := MkMutex (owner mx) p]> k in
    y ← task_at o k;
    if p <? priority y then raise o p k else Ok k
  else Ok k.

Fixpoint raise_priority (fuel : nat) t p k : outcome kst :=
  match fuel with
  | O => Panic "out of fuel"
  | S fuel =>
      x ← task_at t k;
      _ ← k_assert (p <? priority x) "Assertion failed: task->priority > priority";
      let k := upd_task t (set_priority p) k in
      match state x with
      | READY => k ← list_remove t k; _k_sched_enqueue t k
      | SLEEP | SLEEP_UNWAKEABLE =>
          match sleep_on_mutex x with
          | Some m =>
              k ← list_remove t k;
              k ← _k_sched_add (QMutex m) t k;
              may_raise (raise_priority fuel) m p k
          | None => Ok k
          end
      | _ => Ok k
      end
  end.

(** The chain of owners has no more members than there are tasks. *)
Definition _k_sched_raise_priority t p k : outcome kst := raise_priority (S (size (tasks k))) t p k.
Definition _k_mutex_may_raise_priority m p k : outcome kst := may_raise _k_sched_raise_priority m p k.

Definition sleeping (s : tstate) : bool :=
  match s with SLEEP | SLEEP_UNWAKEABLE => true | _ => false end.

Definition _k_sched_resume t (result : Z) k : outcome kst :=
  x ← task_at t k;
  if sleeping (state x) then
    k ← list_remove t k;
    k ← list_remove t k;
    _k_sched_enqueue t (upd_task t (set_result result) k)
  else Ok k.

(** [while (!k_list_is_empty (queue))]: every iteration takes the first member
    off the queue. *)
Fixpoint wakeup_loop (fuel : nat) q (result : Z) k : outcome kst :=
  match queues k q with
  | [] => Ok k
  | t :: _ =>
      match fuel with
      | O => Panic "out of fuel"
      | S fuel => k ← _k_sched_resume t result k; wakeup_loop fuel q result k
      end
  end.
Definition _k_sched_wakeup_all_locked q (result : Z) k : outcome kst :=
  wakeup_loop (length (queues k q)) q result k.

Definition _k_sched_wakeup_one_locked q (result : Z) k : outcome (option tid * kst) :=
  match queues k q with
  | [] => Ok (None, k)
  | t :: _ => k ← _k_sched_resume t result k; Ok (Some t, k)
  end.

(** [_k_sched_may_yield]; the flag says whether the CPU was given up. *)
Definition _k_sched_may_yield c t k : outcome (bool * kst) :=
  y ← cpu_at c k;
  match cpu_task y with
  | None => Ok (false, k)
  | Some me =>
      x ← task_at t k;
      xme ← task_at me k;
      if 0 <? _k_sched_priority_cmp x xme then
        if 0 <? lock_count y then Ok (false, upd_task me (set_reschedule true) k)
        else k ← _k_sched_enqueue me k; k ← _k_sched_yield_locked c k; Ok (true, k)
      else Ok (false, k)
  end.

Definition k_task_timeout_callback t k : outcome kst :=
  x ← task_at t k;
  match state x with
  | SLEEP => _k_sched_resume t K_ERR_TIMEDOUT k
  | _ => Ok k
  end.

Definition _k_sched_check_quantum c k : outcome kst :=
  y ← cpu_at c k;
  match cpu_task y with
  | None => Ok k
  | Some t => _ ← task_at t k; Ok (upd_task t (set_reschedule true) k)
  end.

(** The callback does not touch the timeout queue, which is threaded beside
    the rest of the state. *)
Definition sched_callback (t : tid) (qk : Timeout.queue * kst) : outcome (Timeout.queue * kst) :=
  k ← k_task_timeout_callback t qk.2; Ok (qk.1, k).

Definition _k_sched_adjust_timeouts (delta : Z) k : outcome kst :=
  match Timeout._k_timeout_queue_adjust sched_callback (length (timeouts k) + 2) (timeouts k) k delta with
  | None => Panic "out of fuel"
  | Some r => '(d, k) ← r; Ok (set_timeouts d k)
  end.

(** [k_sched_start]: one iteration of the loop of an idle CPU. *)
Definition sched_dispatch c k : outcome (option tid * kst) :=
  '(r, k) ← k_sched_dequeue k;
  match r with
  | None => Ok (None, k)
  | Some t =>
      x ← task_at t k;
      _ ← k_assert (bool_decide (state x = READY)) "Assertion failed: next->state == K_TASK_STATE_READY";
      y ← cpu_at c k;
      Ok (Some t, upd_task t (set_state RUNNING) (upd_cpus <[c := MkCpu (Some t) (lock_count y)]> k))
  end.

(** *** The invariant of tasks, queues and mutexes *)

(** The priority of a task, and the priority of a mutex, by name. *)
Definition pr k t : Z := default K_TASK_MAX_PRIORITIES (priority <$> tasks k !! t).
Definition mpr (ms : gmap mid KMutex) m : Z := default K_TASK_MAX_PRIORITIES (m_priority <$> ms !! m).

(** The priority a task should have: its own, or that of the most urgent
    waiter of the mutexes it owns. *)
Definition eff (ms : gmap mid KMutex) x : Z :=
  foldr (λ m r, Z.min (mpr ms m) r) (saved_priority x) (owned_mutexes x).

(** The queues of sleeping tasks other than those of mutexes. *)
Definition is_wait q : bool :=
  match q with QRun _ | QMutex _ => false | _ => true end.

(** A task is on the queue its state calls for. *)
Definition placed (ms : gmap mid KMutex) x : Prop :=
  match state x with
  | READY => link x = Some (QRun (priority x))
  | SLEEP | SLEEP_UNWAKEABLE =>
      match sleep_on_mutex x with
      | Some m => link x = Some (QMutex m) ∧ is_Some (ms !! m)
      | None => ∃ q, link x = Some q ∧ is_wait q
      end
  | _ => link x = None
  end.

Definition prio_ok p : Prop := 0 ≤ p < K_TASK_MAX_PRIORITIES.

(** [e] is a task whose priority is about to be corrected and [b] a mutex
    whose priority is; both are [None] between operations. *)
Record kwf (e : option tid) (b : option mid) k : Prop := {
  w_link : ∀ q t, t ∈ queues k q ↔ ∃ x, tasks k !! t = Some x ∧ link x = Some q;
  w_nodup : ∀ q, NoDup (queues k q);
  w_placed : ∀ t x, tasks k !! t = Some x → placed (mutexes k) x;
  w_prio : ∀ t x, tasks k !! t = Some x → prio_ok (priority x) ∧ prio_ok (saved_priority x);
  w_sorted : ∀ m, StronglySorted (λ t1 t2, pr k t1 ≤ pr k t2) (queues k (QMutex m));
  w_mprio : ∀ m mx, mutexes k !! m = Some mx → 0 ≤ m_priority mx ≤ K_TASK_MAX_PRIORITIES;
  w_owner : ∀ m mx t, mutexes k !! m = Some mx →
    owner mx = Some t ↔ ∃ x, tasks k !! t = Some x ∧ m ∈ owned_mutexes x;
  w_owned : ∀ t x, tasks k !! t = Some x →
    NoDup (owned_mutexes x) ∧ ∀ m, m ∈ owned_mutexes x → is_Some (mutexes k !! m);
  w_bound : ∀ m mx t, b ≠ Some m → mutexes k !! m = Some mx → t ∈ queues k (QMutex m) →
    m_priority mx ≤ pr k t;
  w_eff : ∀ t x, e ≠ Some t → tasks k !! t = Some x → priority x = eff (mutexes k) x
}.

(** [k'] is [k] with task [t] changed to [x'] and put where [link x'] says. *)
Record moved k t x' k' : Prop := {
  mv_tasks : tasks k' = <[t := x']> (tasks k);
  mv_mutexes : mutexes k' = mutexes k;
  mv_timeouts : timeouts k' = timeouts k;
  mv_cpus : cpus k' = cpus k;
  mv_in : ∀ q s, s ∈ queues k' q ↔ (s ≠ t ∧ s ∈ queues k q) ∨ (s = t ∧ link x' = Some q);
  mv_nodup : ∀ q, NoDup (queues k' q);
  mv_order : ∀ q, filter (.≠ t) (queues k' q) = filter (.≠ t) (queues k q)
}.

(** The part of the invariant that relates links and queues. *)
Definition links_ok k : Prop :=
  (∀ q t, t ∈ queues k q ↔ ∃ x, tasks k !! t = Some x ∧ link x = Some q) ∧
  ∀ q, NoDup (queues k q).

Lemma kwf_links e b k : kwf e b k → links_ok k.
Proof. intros Hk. split; apply Hk. Qed.

Lemma moved_links k t x' k' : links_ok k → moved k t x' k' → links_ok k'.
Proof.
  intros [Hl _] [Ht _ _ _ Hin Hnd _]. split; [|done]. intros q s. rewrite Hin, Hl, Ht. split.
  - intros [(Hne & y & Hy & ?)|(-> & ?)].
    + exists y. by rewrite lookup_insert_ne.
    + exists x'. by rewrite lookup_insert_eq.
  - intros (y & Hy & Hq). destruct (decide (s = t)) as [->|].
    + rewrite lookup_insert_eq in Hy. simplify_eq. auto.
    + rewrite lookup_insert_ne in Hy by done. left. eauto.
Qed.

Lemma moved_trans k t x1 k1 x2 k2 : moved k t x1 k1 → moved k1 t x2 k2 → moved k t x2 k2.
Proof.
  intros [T1 M1 D1 C1 I1 N1 O1] [T2 M2 D2 C2 I2 N2 O2]. split; try congruence.
  - by rewrite T2, T1, insert_insert_eq.
  - intros q s. rewrite I2, I1. naive_solver.
  - done.
Qed.

Lemma moved_update k t x f :
  links_ok k → tasks k !! t = Some x → link (f x) = link x → moved k t (f x) (upd_task t f k).
Proof.
  intros [Hl Hnd] Hx Hlk. split; try done.
  - simpl. apply map_eq. intros s. destruct (decide (s = t)) as [->|].
    + by rewrite lookup_alter_eq, lookup_insert_eq, Hx.
    + by rewrite lookup_alter_ne, lookup_insert_ne.
  - intros q s. simpl. rewrite Hlk. split.
    + intros Hs. destruct (decide (s = t)) as [->|]; [|auto]. right. split; [done|].
      apply Hl in Hs as (y & ? & ?). by simplify_eq.
    + intros [[_ ?]|[-> ?]]; [done|]. apply Hl. eauto.
Qed.

Lemma list_remove_ok k t x :
  links_ok k → tasks k !! t = Some x →
  ∃ k', list_remove t k = Ok k' ∧ moved k t (set_link None x) k'.
Proof.
  intros [Hl Hnd] Hx. unfold list_remove, task_at. rewrite Hx. simpl.
  destruct (link x) as [q|] eqn:E; (eexists; split; [done|]).
  - split; try done; simpl.
    + apply map_eq. intros s. destruct (decide (s = t)) as [->|].
      * by rewrite lookup_alter_eq, lookup_insert_eq, Hx.
      * by rewrite lookup_alter_ne, lookup_insert_ne.
    + intros q' s. case_decide as Eq.
      * subst. rewrite list_elem_of_filter. naive_solver.
      * split; [|naive_solver]. intros Hs. left. split; [|done]. intros ->.
        apply Hl in Hs as (y & ? & ?). by simplify_eq.
    + intros q'. case_decide; [by apply NoDup_filter|done].
    + intros q'. case_decide; [subst|done]. by rewrite list_filter_filter_l by naive_solver.
  - assert (set_link None x = x) as -> by (by destruct x; simpl in *; subst).
    split; try done.
    + by rewrite insert_id.
    + intros q s. split; [|naive_solver]. intros Hs. left. split; [|done]. intros ->.
      apply Hl in Hs as (y & ? & ?). simplify_eq.
Qed.

Lemma list_add_ok k t x q l1 l2 :
  links_ok k → tasks k !! t = Some x → link x = None → queues k q = l1 ++ l2 →
  ∃ k', list_add t q l1 l2 k = Ok k' ∧ moved k t (set_link (Some q) x) k' ∧
    queues k' q = l1 ++ t :: l2.
Proof.
  intros [Hl Hnd] Hx Hlk Hq. unfold list_add, task_at. rewrite Hx. simpl.
  rewrite Hlk. simpl. eexists. split; [done|].
  assert (t ∉ l1 ++ l2) as Hnot.
  { rewrite <-Hq. intros (y & ? & ?)%Hl. simplify_eq. }
  split; [|simpl; by rewrite decide_True].
  split; try done; simpl.
  - apply map_eq. intros s. destruct (decide (s = t)) as [->|].
    + by rewrite lookup_alter_eq, lookup_insert_eq, Hx.
    + by rewrite lookup_alter_ne, lookup_insert_ne.
  - intros q' s. case_decide as Eq.
    + subst q'. rewrite Hq, !elem_of_app, elem_of_cons.
      rewrite elem_of_app in Hnot. naive_solver.
    + split; [|naive_solver]. intros Hs. left. split; [|done]. intros ->.
      apply Hl in Hs as (y & ? & ?). simplify_eq.
  - intros q'. case_decide; [|done]. rewrite <-Permutation_middle.
    constructor; [done|]. rewrite <-Hq. done.
  - intros q'. case_decide; [subst|done]. rewrite Hq, !filter_app, filter_cons_False by naive_solver. done.
Qed.


Lemma pr_insert k t x' k' s :
  tasks k' = <[t := x']> (tasks k) → pr k' s = if decide (s = t) then priority x' else pr k s.
Proof.
  intros E. unfold pr. rewrite E. case_decide; subst.
  - by rewrite lookup_insert_eq.
  - by rewrite lookup_insert_ne.
Qed.

(** The owned mutexes and saved priority decide [eff]. *)
Lemma eff_same ms x x' :
  owned_mutexes x' = owned_mutexes x → saved_priority x' = saved_priority x → eff ms x' = eff ms x.
Proof. intros E1 E2. unfold eff. by rewrite E1, E2. Qed.

Lemma sorted_ext k k' (l : list tid) :
  (∀ s, s ∈ l → pr k' s = pr k s) →
  StronglySorted (λ t1 t2, pr k t1 ≤ pr k t2) l → StronglySorted (λ t1 t2, pr k' t1 ≤ pr k' t2) l.
Proof.
  intros E. induction 1 as [|t l Hs IH Hall]; [constructor|].
  constructor; [apply IH; intros; apply E; by constructor|].
  eapply Forall_impl; [apply Forall_and; split; [exact Hall|apply Forall_forall; by intros s Hs'; exact Hs']|].
  intros s [? ?]. rewrite !E by (first [by constructor|by apply elem_of_cons; right]). done.
Qed.

Lemma sorted_filter (R : tid → tid → Prop) (P : tid → Prop) `{!∀ t, Decision (P t)} (l : list tid) :
  StronglySorted R l → StronglySorted R (filter P l).
Proof.
  induction 1 as [|t l Hs IH Hall]; [constructor|]. rewrite filter_cons. case_decide; [|done].
  constructor; [done|]. apply Forall_forall. intros s [_ Hs']%list_elem_of_filter.
  rewrite Forall_forall in Hall. auto.
Qed.

Lemma kwf_moved e b k t x x' k' e' b' :
  kwf e b k → tasks k !! t = Some x → moved k t x' k' →
  placed (mutexes k) x' → prio_ok (priority x') →
  owned_mutexes x' = owned_mutexes x → saved_priority x' = saved_priority x →
  (∀ m, link x' = Some (QMutex m) →
     StronglySorted (λ t1 t2, pr k' t1 ≤ pr k' t2) (queues k' (QMutex m))) →
  (∀ m mx, b' ≠ Some m → link x' = Some (QMutex m) → mutexes k !! m = Some mx → m_priority mx ≤ priority x') →
  (e' ≠ Some t → priority x' = eff (mutexes k) x') →
  (∀ s, s ≠ t → e' ≠ Some s → e ≠ Some s) → (∀ m, b' ≠ Some m → b ≠ Some m) →
  kwf e' b' k'.
Proof.
  intros Hk Hx [Ht Hm _ _ Hin Hnd Hord] Hpl Hp Hown Hsav Hsort Hbnd Heff He Hb.
  assert (∀ s, pr k' s = if decide (s = t) then priority x' else pr k s) as Hpr
    by (intros; by apply pr_insert).
  assert (∀ s y, tasks k' !! s = Some y → (s = t ∧ y = x') ∨ (s ≠ t ∧ tasks k !! s = Some y)) as Hlook.
  { intros s y. rewrite Ht. destruct (decide (s = t)) as [->|].
    - rewrite lookup_insert_eq. naive_solver.
    - rewrite lookup_insert_ne by done. auto. }
  assert (∀ s y, s ≠ t → tasks k !! s = Some y → tasks k' !! s = Some y) as Hback
    by (intros s y ? ?; rewrite Ht, lookup_insert_ne; done).
  assert (tasks k' !! t = Some x') as Hself by (by rewrite Ht, lookup_insert_eq).
  split; rewrite ?Hm.
  - intros q s. rewrite Hin, (w_link _ _ _ Hk). split.
    + intros [(Hne & y & Hy & Hl)|(-> & Hl)]; eauto.
    + intros (y & [[-> ->]|[Hne Hy]]%Hlook & Hl); eauto.
  - done.
  - intros s y [[-> ->]|[_ Hy]]%Hlook; [done|by apply (w_placed _ _ _ Hk s)].
  - intros s y [[-> ->]|[_ Hy]]%Hlook; [|by apply (w_prio _ _ _ Hk s)].
    split; [done|]. rewrite Hsav. by apply (w_prio _ _ _ Hk t).
  - intros m. destruct (decide (link x' = Some (QMutex m))) as [E|E]; [auto|].
    assert (t ∉ queues k' (QMutex m)) as Hnot by (rewrite Hin; naive_solver).
    rewrite <-(filter_ne_notin t (queues k' (QMutex m))), Hord by done. apply (sorted_ext k).
    + intros s [Hs _]%list_elem_of_filter. by rewrite Hpr, decide_False.
    + apply sorted_filter, (w_sorted _ _ _ Hk).
  - apply (w_mprio _ _ _ Hk).
  - intros m mx s Hmx. rewrite (w_owner _ _ _ Hk _ _ _ Hmx). split.
    + intros (y & Hy & Hin'). destruct (decide (s = t)) as [->|]; [|eauto].
      exists x'. rewrite Hown. by simplify_eq.
    + intros (y & [[-> ->]|[_ Hy]]%Hlook & Hin'); [|eauto]. exists x. by rewrite <-Hown.
  - intros s y [[-> ->]|[_ Hy]]%Hlook; [|by apply (w_owned _ _ _ Hk s)].
    rewrite Hown. by apply (w_owned _ _ _ Hk t).
  - intros m mx s Hbm Hmx [[Hne Hs]|[-> Hl]]%Hin; rewrite Hpr.
    + rewrite decide_False by done. eapply (w_bound _ _ _ Hk); eauto.
    + rewrite decide_True by done. eauto.
  - intros s y Hes [[-> ->]|[Hne Hy]]%Hlook; [by apply Heff|].
    by eapply (w_eff _ _ _ Hk); eauto.
Qed.

(** *** The primitives on queues *)

Lemma add_position_ok k x (l : list tid) :
  (∀ s, s ∈ l → is_Some (tasks k !! s)) →
  ∃ l1 l2, add_position (tasks k) x l = Ok (l1, l2) ∧ l = l1 ++ l2 ∧
    Forall (λ s, pr k s ≤ priority x) l1 ∧
    match l2 with [] => True | s :: _ => priority x < pr k s end.
Proof.
  induction l as [|o l IH]; intros Hl; cbn [add_position].
  - exists [], []. by repeat split.
  - destruct (Hl o) as [y Hy]; [by constructor|]. rewrite Hy. cbn [deref mbind outcome_bind].
    assert (pr k o = priority y) as Hpr by (unfold pr; by rewrite Hy).
    unfold _k_sched_priority_cmp. destruct (Z.ltb_spec 0 (priority y - priority x)).
    + exists [], (o :: l). split_and!; [done..|]. lia.
    + destruct IH as (l1 & l2 & -> & -> & H1 & H2); [intros s Hs; apply Hl; by apply elem_of_cons; right|].
      cbn [mbind outcome_bind]. exists (o :: l1), l2. split_and!; [done..| |done].
      constructor; [lia|done].
Qed.

(** Inserting where the loop stops keeps a sorted queue sorted. *)
Lemma sorted_insert (f : tid → Z) t (l1 l2 : list tid) :
  StronglySorted (λ a b, f a ≤ f b) (l1 ++ l2) →
  Forall (λ s, f s ≤ f t) l1 → match l2 with [] => True | s :: _ => f t < f s end →
  StronglySorted (λ a b, f a ≤ f b) (l1 ++ t :: l2).
Proof.
  intros Hs H1 H2. induction l1 as [|o l1 IH]; simpl in *.
  - constructor; [done|]. destruct l2 as [|s l2]; [done|].
    apply StronglySorted_inv in Hs as [_ Hs]. constructor; [lia|].
    eapply Forall_impl; [exact Hs|]. simpl. lia.
  - apply StronglySorted_inv in Hs as [Hs Ho]. apply Forall_cons in H1 as [Hot H1].
    constructor; [auto|]. rewrite Forall_app in *. destruct Ho. split; [done|]. by constructor.
Qed.

Lemma links_exist k q t : links_ok k → t ∈ queues k q → is_Some (tasks k !! t).
Proof. intros [Hl _] (x & ? & _)%Hl. eauto. Qed.

Lemma sched_add_ok k q t x :
  links_ok k → tasks k !! t = Some x → link x = None →
  ∃ k' l1 l2, _k_sched_add q t k = Ok k' ∧ moved k t (set_link (Some q) x) k' ∧
    queues k q = l1 ++ l2 ∧ queues k' q = l1 ++ t :: l2 ∧
    Forall (λ s, pr k s ≤ priority x) l1 ∧
    match l2 with [] => True | s :: _ => priority x < pr k s end.
Proof.
  intros Hk Hx Hl. unfold _k_sched_add, task_at. rewrite Hx. cbn [deref mbind outcome_bind].
  destruct (add_position_ok k x (queues k q)) as (l1 & l2 & -> & Hq & H1 & H2);
    [by intros s; apply links_exist|]. cbn [mbind outcome_bind].
  destruct (list_add_ok k t x q l1 l2) as (k' & -> & Hm & Hq'); [done..|].
  exists k', l1, l2. split_and!; try done.
Qed.

(** The queue stays sorted when the task is added where the loop stops. *)
Lemma sched_add_sorted k t x q k' l1 l2 :
  links_ok k → moved k t (set_link (Some q) x) k' → queues k q = l1 ++ l2 → t ∉ queues k q →
  queues k' q = l1 ++ t :: l2 →
  Forall (λ s, pr k s ≤ priority x) l1 → match l2 with [] => True | s :: _ => priority x < pr k s end →
  StronglySorted (λ a b, pr k a ≤ pr k b) (queues k q) →
  StronglySorted (λ a b, pr k' a ≤ pr k' b) (queues k' q).
Proof.
  intros Hk Hm Hq Hnot Hq' H1 H2 Hs. rewrite Hq'.
  assert (∀ s, pr k' s = if decide (s = t) then priority x else pr k s) as Hpr
    by (intros; by rewrite (pr_insert k t _ k' s (mv_tasks _ _ _ _ Hm))).
  assert (∀ s, s ∈ l1 ++ l2 → pr k' s = pr k s) as Hold.
  { intros s Hin. rewrite Hpr, decide_False; [done|]. intros ->. by rewrite <-Hq in Hin. }
  apply sorted_insert.
  - rewrite Hq in Hs. by apply (sorted_ext k).
  - rewrite Hpr, decide_True by done. apply Forall_forall. intros s Hin.
    rewrite Hold by (apply elem_of_app; auto). rewrite Forall_forall in H1. auto.
  - destruct l2 as [|s l2]; [done|]. rewrite (Hpr t), decide_True by done.
    rewrite Hold by (apply elem_of_app; right; by constructor). done.
Qed.

Lemma enqueue_ok k t x :
  links_ok k → tasks k !! t = Some x → link x = None → prio_ok (priority x) →
  ∃ k', _k_sched_enqueue t k = Ok k' ∧
    moved k t (set_link (Some (QRun (priority x))) (set_state READY x)) k' ∧
    queues k' (QRun (priority x)) = queues k (QRun (priority x)) ++ [t].
Proof.
  intros Hk Hx Hl [Hp1 Hp2]. unfold _k_sched_enqueue, task_at. rewrite Hx. cbn [deref mbind outcome_bind].
  rewrite (proj2 (Z.leb_le _ _)), (proj2 (Z.ltb_lt _ _)) by done. cbn [andb k_assert mbind outcome_bind].
  pose proof (moved_update k t x (set_state READY) Hk Hx eq_refl) as Hm.
  destruct (list_add_ok (upd_task t (set_state READY) k) t (set_state READY x) (QRun (priority x))
    (queues k (QRun (priority x))) []) as (k' & E & Hm' & Hq).
  - by eapply moved_links.
  - by rewrite (mv_tasks _ _ _ _ Hm), lookup_insert_eq.
  - done.
  - by rewrite app_nil_r.
  - exists k'. split; [exact E|]. split; [|done]. by eapply moved_trans.
Qed.

(** A task that keeps its priority, mutexes and saved priority keeps having
    the priority it should have. *)
Lemma eff_kept e b k t x x' :
  kwf e b k → e ≠ Some t → tasks k !! t = Some x → priority x' = priority x →
  owned_mutexes x' = owned_mutexes x → saved_priority x' = saved_priority x →
  priority x' = eff (mutexes k) x'.
Proof. intros Hk He Hx Hp Ho Hs. rewrite Hp, (w_eff _ _ _ Hk _ _ He Hx). symmetry. by apply eff_same. Qed.

Definition resumed (result : Z) x : KTask :=
  set_link (Some (QRun (priority x))) (set_state READY (set_result result x)).

Lemma moved_lookup k t x' k' : moved k t x' k' → tasks k' !! t = Some x'.
Proof. intros [-> _ _ _ _ _ _]. apply lookup_insert_eq. Qed.

Lemma resume_moved k t x result :
  links_ok k → tasks k !! t = Some x → sleeping (state x) = true → prio_ok (priority x) →
  ∃ k', _k_sched_resume t result k = Ok k' ∧ moved k t (resumed result x) k' ∧
    queues k' (QRun (priority x)) = filter (.≠ t) (queues k (QRun (priority x))) ++ [t].
Proof.
  intros Hk Hx Hs Hp. unfold _k_sched_resume. unfold task_at at 1. rewrite Hx. cbn [deref mbind outcome_bind].
  rewrite Hs. destruct (list_remove_ok k t x Hk Hx) as (k1 & -> & M1). cbn [mbind outcome_bind].
  pose proof (moved_links _ _ _ _ Hk M1) as L1. pose proof (moved_lookup _ _ _ _ M1) as X1.
  destruct (list_remove_ok k1 t _ L1 X1) as (k2 & -> & M2). cbn [mbind outcome_bind].
  pose proof (moved_links _ _ _ _ L1 M2) as L2. pose proof (moved_lookup _ _ _ _ M2) as X2.
  pose proof (moved_update k2 t _ (set_result result) L2 X2 eq_refl) as M3.
  pose proof (moved_links _ _ _ _ L2 M3) as L3. pose proof (moved_lookup _ _ _ _ M3) as X3.
  destruct (enqueue_ok _ t _ L3 X3 eq_refl Hp) as (k4 & -> & M4 & Hq).
  exists k4. split; [done|].
  assert (moved k t (set_link None (set_link None x)) k2) as M12 by (by eapply moved_trans).
  split; [eapply moved_trans; [|exact M4]; by eapply moved_trans|].
  cbn [set_result set_link priority] in Hq. rewrite Hq. f_equal. cbn [upd_task upd_tasks queues].
  rewrite <-(mv_order _ _ _ _ M12). symmetry. apply filter_ne_notin.
  rewrite (mv_in _ _ _ _ M12). simpl. naive_solver.
Qed.

Lemma resume_ok e b k t x result :
  kwf e b k → tasks k !! t = Some x → sleeping (state x) = true →
  ∃ k', _k_sched_resume t result k = Ok k' ∧ moved k t (resumed result x) k' ∧ kwf e b k'.
Proof.
  intros Hk Hx Hs. pose proof (w_prio _ _ _ Hk _ _ Hx) as [Hp _].
  destruct (resume_moved k t x result (kwf_links _ _ _ Hk) Hx Hs Hp) as (k' & E & M & _).
  exists k'. split_and!; [done..|].
  eapply (kwf_moved e b k t x); try done; simpl; auto.
  intros He. rewrite (w_eff _ _ _ Hk _ _ He Hx). by apply eff_same.
Qed.

Lemma resume_awake k t x result :
  tasks k !! t = Some x → sleeping (state x) = false → _k_sched_resume t result k = Ok k.
Proof. intros Hx Hs. unfold _k_sched_resume, task_at. rewrite Hx. simpl. by rewrite Hs. Qed.

(** *** Raising priorities *)

(** What raising priorities leaves alone. *)
Definition same_task p x x' : Prop :=
  state x' = state x ∧ saved_priority x' = saved_priority x ∧ reschedule x' = reschedule x ∧
  owned_mutexes x' = owned_mutexes x ∧ sleep_on_mutex x' = sleep_on_mutex x ∧
  sleep_result x' = sleep_result x ∧ priority x' ≤ priority x ∧
  (priority x' = priority x ∨ priority x' = p).

Record frame p k k' : Prop := {
  f_tasks : ∀ t x, tasks k !! t = Some x → ∃ x', tasks k' !! t = Some x' ∧ same_task p x x';
  f_dom : ∀ t, is_Some (tasks k' !! t) → is_Some (tasks k !! t);
  f_mutexes : ∀ m mx, mutexes k !! m = Some mx →
    ∃ mx', mutexes k' !! m = Some mx' ∧ owner mx' = owner mx ∧ m_priority mx' ≤ m_priority mx;
  f_timeouts : timeouts k' = timeouts k;
  f_cpus : cpus k' = cpus k
}.

Lemma frame_refl p k : frame p k k.
Proof. split; try done; intros; eexists; (split; [done|]); unfold same_task; split_and!; first [done|lia|by left]. Qed.

Lemma frame_trans p k1 k2 k3 : frame p k1 k2 → frame p k2 k3 → frame p k1 k3.
Proof.
  intros [T1 D1 M1 Q1 C1] [T2 D2 M2 Q2 C2]. split; [| |..|congruence|congruence].
  - intros t x (x1 & H1 & S1)%T1. destruct (T2 _ _ H1) as (x2 & H2 & S2). exists x2. split; [done|].
    unfold same_task in *. destruct_and!. split_and!; try congruence; [lia|].
    destruct_or!; first [by left; congruence|by right; congruence].
  - auto.
  - intros m mx (y & Hy & ? & ?)%M1. destruct (M2 _ _ Hy) as (z & Hz & ? & ?).
    exists z. split_and!; [done|congruence|lia].
Qed.

Lemma frame_moved p k t x x' k' :
  tasks k !! t = Some x → moved k t x' k' → same_task p x x' → frame p k k'.
Proof.
  intros Hx M Hs. split; try apply M.
  - intros s y Hy. rewrite (mv_tasks _ _ _ _ M). destruct (decide (s = t)) as [->|].
    + simplify_eq. exists x'. by rewrite lookup_insert_eq.
    + exists y. rewrite lookup_insert_ne by done. split; [done|]. unfold same_task. split_and!; first [done|lia|by left].
  - intros s. rewrite (mv_tasks _ _ _ _ M), lookup_insert_is_Some'. intros [->|?]; eauto.
  - intros m mx Hmx. exists mx. rewrite (mv_mutexes _ _ _ _ M). split_and!; [done..|lia].
Qed.

Lemma mpr_insert ms m mx m' :
  mpr (<[m := mx]> ms) m' = if decide (m' = m) then m_priority mx else mpr ms m'.
Proof.
  unfold mpr. case_decide; subst.
  - by rewrite lookup_insert_eq.
  - by rewrite lookup_insert_ne.
Qed.

Lemma eff_notin ms m mx x : m ∉ owned_mutexes x → eff (<[m := mx]> ms) x = eff ms x.
Proof.
  unfold eff. induction (owned_mutexes x) as [|m' l IH]; intros Hn; [done|].
  apply not_elem_of_cons in Hn as [Hne Hn]. simpl. by rewrite IH, mpr_insert, decide_False.
Qed.

Lemma eff_lower ms m mx x :
  m ∈ owned_mutexes x → m_priority mx ≤ mpr ms m →
  eff (<[m := mx]> ms) x = Z.min (m_priority mx) (eff ms x).
Proof.
  unfold eff. induction (owned_mutexes x) as [|m' l IH]; intros Hin Hle; [by apply elem_of_nil in Hin|].
  simpl. rewrite mpr_insert. destruct (decide (m ∈ l)) as [Hl|Hl].
  - rewrite IH by done. case_decide; subst; lia.
  - apply elem_of_cons in Hin as [->|?]; [|done]. rewrite decide_True by done.
    assert (foldr (λ m r, Z.min (mpr (<[m':=mx]> ms) m) r) (saved_priority x) l =
            foldr (λ m r, Z.min (mpr ms m) r) (saved_priority x) l) as ->; [|lia].
    clear -Hl. induction l as [|a l IHl]; [done|]. apply not_elem_of_cons in Hl as [? ?].
    simpl. rewrite mpr_insert, decide_False, IHl; done.
Qed.

(** Lowering the value (raising the priority) of a mutex corrects its bound
    and leaves its owner to be corrected. *)
Lemma kwf_set_mprio b k m mx p :
  kwf None b k → (b = None ∨ b = Some m) → mutexes k !! m = Some mx →
  0 ≤ p ≤ m_priority mx → (∀ s, s ∈ queues k (QMutex m) → p ≤ pr k s) →
  kwf (owner mx) None (upd_mutexes <[m := MkMutex (owner mx) p]> k).
Proof.
  intros Hk Hb Hmx Hp Hq. pose proof (w_mprio _ _ _ Hk _ _ Hmx) as Hmp. split; simpl.
  - apply Hk.
  - apply Hk.
  - intros t x Hx. pose proof (w_placed _ _ _ Hk _ _ Hx) as Hpl. unfold placed in *.
    destruct (state x); try done; (destruct (sleep_on_mutex x); [|done]);
      (split; [apply Hpl|]; apply lookup_insert_is_Some'; right; apply Hpl).
  - apply Hk.
  - intros m'. apply (sorted_ext k); [done|apply Hk].
  - intros m' mx'. rewrite lookup_insert. case_decide; [intros; simplify_eq/=; lia|apply Hk].
  - intros m' mx' t. rewrite lookup_insert. case_decide; [|apply Hk].
    intros; simplify_eq/=. by apply Hk.
  - intros t x Hx. destruct (w_owned _ _ _ Hk _ _ Hx) as [? Ho]. split; [done|].
    intros m' Hm'. apply lookup_insert_is_Some'. right. auto.
  - intros m' mx' t _. rewrite lookup_insert. case_decide as E.
    + intros ? Ht. simplify_eq/=. by apply Hq.
    + intros Hm' Ht. change (pr (upd_mutexes _ k) t) with (pr k t).
      eapply (w_bound _ _ _ Hk); try done. naive_solver.
  - intros t x Hne Hx. rewrite (w_eff _ _ _ Hk t x) by done. symmetry. apply eff_notin.
    intros Hin. apply Hne. apply (w_owner _ _ _ Hk _ _ _ Hmx). eauto.
Qed.

Lemma kwf_weaken k b : kwf None None k → kwf None b k.
Proof. intros Hk. split; try apply Hk. intros m mx t _. by apply Hk. Qed.

(** A task whose priority is already right need not be corrected. *)
Lemma kwf_fix k o y :
  kwf (Some o) None k → tasks k !! o = Some y → priority y = eff (mutexes k) y → kwf None None k.
Proof.
  intros Hk Hy He. split; try apply Hk. intros t x _ Hx. destruct (decide (t = o)) as [->|].
  - by simplify_eq.
  - apply (w_eff _ _ _ Hk t); [congruence|done].
Qed.

(** The number of tasks that a rise to [p] can still affect. *)
Definition above p k : nat := size (filter (λ tx : tid * KTask, p < priority tx.2) (tasks k)).

Lemma above_moved k t x x' k' p :
  tasks k !! t = Some x → p < priority x → moved k t x' k' → priority x' = p →
  above p k = S (above p k').
Proof.
  intros Hx Hp M Hp'. unfold above. rewrite (mv_tasks _ _ _ _ M).
  rewrite map_filter_insert_False by (simpl; lia).
  rewrite (map_filter_delete (λ tx : tid * KTask, p < priority tx.2)).
  rewrite map_size_delete_Some; [|exists x; by apply map_lookup_filter_Some].
  assert (size (filter (λ tx : tid * KTask, p < priority tx.2) (tasks k)) ≠ 0%nat); [|lia].
  apply (map_size_ne_0_lookup_2 _ t). exists x. by apply map_lookup_filter_Some.
Qed.

Lemma above_le_size p k : (above p k ≤ size (tasks k))%nat.
Proof. unfold above. apply map_subseteq_size, map_filter_subseteq. Qed.

(** The only check that can fail while priorities are raised: a task whose
    priority changes waits for a mutex that has no owner at the moment. *)
Definition no_owner : string → Prop :=
  λ w, w = "Assertion failed: mutex->owner != K_NULL"%string.

Lemma may_raise_ok raise m p b k :
  kwf None b k → (b = None ∨ b = Some m) → is_Some (mutexes k !! m) → 0 ≤ p →
  (∀ s, s ∈ queues k (QMutex m) → Z.min p (mpr (mutexes k) m) ≤ pr k s) →
  (∀ o y k2, kwf (Some o) None k2 → tasks k2 !! o = Some y → p < priority y →
     eff (mutexes k2) y = p → tasks k2 = tasks k →
     wp (raise o p k2) no_owner (λ k', kwf None None k' ∧ frame p k2 k')) →
  wp (may_raise raise m p k) no_owner
    (λ k', kwf None None k' ∧ frame p k k' ∧ mpr (mutexes k') m ≤ p).
Proof.
  intros Hk Hb [mx Hmx] Hp Hq Hraise. unfold may_raise, mutex_at. rewrite Hmx. cbn [deref mbind outcome_bind].
  assert (mpr (mutexes k) m = m_priority mx) as Hmpr by (unfold mpr; by rewrite Hmx).
  destruct (owner mx) as [o|] eqn:Ho; cbn [deref mbind outcome_bind]; [|by apply eq_refl].
  destruct (Z.ltb_spec p (m_priority mx)) as [Hlt|Hge]; cbn [wp].
  2: { split_and!; [|apply frame_refl|lia]. split; try apply Hk. intros m' mx' t _ Hm' Ht.
       destruct (decide (m' = m)) as [->|].
       - simplify_eq. specialize (Hq t Ht). lia.
       - apply (w_bound _ _ _ Hk m' mx' t); try done. naive_solver. }
  set (k2 := upd_mutexes <[m := MkMutex (Some o) p]> k).
  assert (kwf (Some o) None k2) as Hk2.
  { rewrite <-Ho. unfold k2. rewrite <-Ho. apply (kwf_set_mprio b); try done; [lia|].
    intros s Hs. specialize (Hq s Hs). lia. }
  assert (frame p k k2) as F.
  { split; try done.
    - intros t x Hx. exists x. split; [done|]. unfold same_task. split_and!; first [done|lia|by left].
    - intros m' mx' Hm'. unfold k2. simpl. rewrite lookup_insert. case_decide; [|exists mx'; split_and!; [done..|lia]].
      subst. simplify_eq. eexists. split_and!; [done|done|simpl; lia]. }
  destruct (proj1 (w_owner _ _ _ Hk _ _ _ Hmx) Ho) as (y & Hy & Hin).
  unfold task_at. change (tasks k2) with (tasks k). rewrite Hy. cbn [deref mbind outcome_bind].
  assert (eff (mutexes k2) y = Z.min p (priority y)) as Heff.
  { rewrite (w_eff _ _ _ Hk o y) by done. apply eff_lower; [done|]. simpl. lia. }
  assert (mpr (mutexes k2) m = p) as Hmp2 by (unfold mpr, k2; simpl; by rewrite lookup_insert_eq).
  destruct (Z.ltb_spec p (priority y)); cbn [wp].
  - eapply wp_mono; [apply (Hraise o y); try done; lia|done|]. intros k' [Hk' F']. split; [done|].
    split; [by eapply frame_trans|].
    destruct (f_mutexes _ _ _ F' m (MkMutex (Some o) p)) as (mx' & E & _ & ?); [simpl; by rewrite lookup_insert_eq|].
    unfold mpr. rewrite E. done.
  - split_and!; [|done|lia]. eapply kwf_fix; [done..|]. lia.
Qed.

Definition reprio p (q : option qid) x : KTask := set_link q (set_priority p x).

Lemma raise_ready k t x p :
  kwf (Some t) None k → tasks k !! t = Some x → state x = READY → prio_ok p → eff (mutexes k) x = p →
  ∃ k', (k ← list_remove t (upd_task t (set_priority p) k); _k_sched_enqueue t k) = Ok k' ∧
    moved k t (reprio p (Some (QRun p)) x) k' ∧ kwf None None k'.
Proof.
  intros Hk Hx Hs Hp He. pose proof (kwf_links _ _ _ Hk) as L.
  pose proof (moved_update k t x (set_priority p) L Hx eq_refl) as M1.
  pose proof (moved_links _ _ _ _ L M1) as L1. pose proof (moved_lookup _ _ _ _ M1) as X1.
  destruct (list_remove_ok _ t _ L1 X1) as (k2 & -> & M2). cbn [mbind outcome_bind].
  pose proof (moved_links _ _ _ _ L1 M2) as L2. pose proof (moved_lookup _ _ _ _ M2) as X2.
  destruct (enqueue_ok k2 t _ L2 X2 eq_refl Hp) as (k3 & -> & M3 & _).
  exists k3. split; [done|].
  assert (moved k t (reprio p (Some (QRun p)) x) k3) as M.
  { replace (reprio p (Some (QRun p)) x) with (set_link (Some (QRun p)) (set_state READY (set_link None (set_priority p x)))).
    - eapply moved_trans; [exact M1|]. by eapply moved_trans.
    - unfold reprio, set_link, set_state, set_priority. simpl. by rewrite Hs. }
  split; [done|]. eapply (kwf_moved (Some t) None k t x _ k3); try done; simpl.
  - unfold placed. simpl. by rewrite Hs.
  - intros s Hne _. congruence.
Qed.

Lemma raise_waiting k t x p m :
  kwf (Some t) None k → tasks k !! t = Some x → sleeping (state x) = true →
  sleep_on_mutex x = Some m → prio_ok p → p < priority x → eff (mutexes k) x = p →
  ∃ k', (k ← list_remove t (upd_task t (set_priority p) k); _k_sched_add (QMutex m) t k) = Ok k' ∧
    moved k t (reprio p (Some (QMutex m)) x) k' ∧ kwf None (Some m) k' ∧
    ∀ s, s ∈ queues k' (QMutex m) → Z.min p (mpr (mutexes k') m) ≤ pr k' s.
Proof.
  intros Hk Hx Hs Hm Hp Hlt He. pose proof (kwf_links _ _ _ Hk) as L.
  assert (link x = Some (QMutex m) ∧ is_Some (mutexes k !! m)) as [Hlk Hmx].
  { pose proof (w_placed _ _ _ Hk _ _ Hx) as Hpl. unfold placed in Hpl. rewrite Hm in Hpl.
    by destruct (state x). }
  pose proof (moved_update k t x (set_priority p) L Hx eq_refl) as M1.
  pose proof (moved_links _ _ _ _ L M1) as L1. pose proof (moved_lookup _ _ _ _ M1) as X1.
  destruct (list_remove_ok _ t _ L1 X1) as (k2 & -> & M2). cbn [mbind outcome_bind].
  pose proof (moved_links _ _ _ _ L1 M2) as L2. pose proof (moved_lookup _ _ _ _ M2) as X2.
  destruct (sched_add_ok k2 (QMutex m) t _ L2 X2 eq_refl) as (k3 & l1 & l2 & -> & M3 & Hq & Hq3 & H1 & H2).
  exists k3. split; [done|].
  assert (moved k t (set_link None (set_priority p x)) k2) as M12 by (by eapply moved_trans).
  assert (moved k t (reprio p (Some (QMutex m)) x) k3) as M by (by eapply moved_trans).
  assert (t ∉ queues k2 (QMutex m)) as Hnot by (rewrite (mv_in _ _ _ _ M12); simpl; naive_solver).
  split; [done|].
  assert (kwf None (Some m) k3) as Hk3; [|split; [done|]].
  - eapply (kwf_moved (Some t) None k t x _ k3); try done; simpl.
    + unfold placed. simpl. rewrite Hm. by destruct (state x).
    + intros m' [= <-]. eapply sched_add_sorted; try done.
      assert (queues k2 (QMutex m) = filter (.≠ t) (queues k (QMutex m))) as ->.
      { rewrite <-(mv_order _ _ _ _ M12). symmetry. by apply filter_ne_notin. }
      apply (sorted_ext k).
      * intros s [? _]%list_elem_of_filter. rewrite (pr_insert k t _ k2 s (mv_tasks _ _ _ _ M12)).
        by rewrite decide_False.
      * apply sorted_filter, (w_sorted _ _ _ Hk).
    + intros m' mx Hne [= ->]. done.
    + intros s Hne _. congruence.
  - destruct Hmx as [mx Hmx]. intros s Hs'. rewrite (pr_insert k t _ k3 s (mv_tasks _ _ _ _ M)).
    simpl. case_decide as E; [lia|]. apply (mv_in _ _ _ _ M) in Hs' as [[_ Hs']|[? _]]; [|done].
    pose proof (w_bound _ _ _ Hk m mx s ltac:(done) Hmx Hs').
    rewrite (mv_mutexes _ _ _ _ M). unfold mpr. rewrite Hmx. simpl. lia.
Qed.

Lemma raise_ok fuel : ∀ t p k x,
  kwf (Some t) None k → tasks k !! t = Some x → prio_ok p → p < priority x →
  eff (mutexes k) x = p → (above p k ≤ fuel)%nat →
  wp (raise_priority fuel t p k) no_owner (λ k', kwf None None k' ∧ frame p k k').
Proof.
  induction fuel as [|fuel IH]; intros t p k x Hk Hx Hp Hlt He Hf; cbn [raise_priority].
  { pose proof (moved_update k t x (set_priority p) (kwf_links _ _ _ Hk) Hx eq_refl) as M.
    pose proof (above_moved _ _ _ _ _ p Hx Hlt M eq_refl). lia. }
  unfold task_at. rewrite Hx. cbn [deref mbind outcome_bind].
  rewrite (proj2 (Z.ltb_lt _ _)) by done. cbn [k_assert mbind outcome_bind].
  assert (∀ ql : option qid, same_task p x (reprio p ql x)) as Hsame
    by (intros; unfold same_task, reprio; simpl; split_and!; first [done|lia|by right]).
  assert (sleep_on_mutex x = None ∨ sleeping (state x) = false → state x ≠ READY →
          kwf None None (upd_task t (set_priority p) k) ∧ frame p k (upd_task t (set_priority p) k)) as Hrest.
  { intros Hcase Hnr. pose proof (moved_update k t x (set_priority p) (kwf_links _ _ _ Hk) Hx eq_refl) as M.
    pose proof (w_placed _ _ _ Hk _ _ Hx) as Hpl.
    split; [|by eapply frame_moved; [..|apply (Hsame (link x))]].
    assert (∀ m, link x ≠ Some (QMutex m)) as Hnm.
    { intros m. unfold placed in Hpl. destruct (state x), Hcase as [E|E]; try discriminate E; try rewrite E in Hpl;
        naive_solver congruence. }
    eapply (kwf_moved (Some t) None k t x); try done; simpl.
    - unfold placed in *. simpl. destruct (state x); try done.
    - intros m Hm. by apply Hnm in Hm.
    - intros m mx _ Hm. by apply Hnm in Hm.
    - intros s Hne _. congruence. }
  assert (state x = READY → wp (k0 ← list_remove t (upd_task t (set_priority p) k); _k_sched_enqueue t k0)
            no_owner (λ k', kwf None None k' ∧ frame p k k')) as Hready.
  { intros Hs. destruct (raise_ready k t x p) as (k' & -> & M & ?); try done. split; [done|]. by eapply frame_moved. }
  assert (∀ m, sleep_on_mutex x = Some m → sleeping (state x) = true →
    wp (k0 ← list_remove t (upd_task t (set_priority p) k); k0 ← _k_sched_add (QMutex m) t k0;
        may_raise (raise_priority fuel) m p k0) no_owner (λ k', kwf None None k' ∧ frame p k k')) as Hwait.
  { intros m Hm Hs. destruct (raise_waiting k t x p m) as (k1 & E & M & Hk1 & Hmin); try done.
    apply bind_Ok in E as (k0 & -> & E). cbn [mbind outcome_bind]. rewrite E. cbn [mbind outcome_bind].
    assert (frame p k k1) as F by (by eapply frame_moved).
    eapply wp_mono; [apply (may_raise_ok _ _ _ (Some m) k1); try done| |].
    - by right.
    -
      pose proof (w_placed _ _ _ Hk _ _ Hx) as Hpl. unfold placed in Hpl. rewrite Hm in Hpl.
      rewrite (mv_mutexes _ _ _ _ M). destruct (state x); first [discriminate|apply Hpl].
    - apply Hp.
    - intros o y k2 Hk2 Hy Hly Hey Ht2. apply (IH o p k2 y); try done.
      pose proof (above_moved _ _ _ _ _ p Hx Hlt M eq_refl) as Ha.
      unfold above in *. rewrite Ht2. lia.
    - done.
    - intros k' (? & ? & _). split; [done|]. by eapply frame_trans. }
  destruct (state x) eqn:Es; try (by apply Hready); try (by apply Hrest; auto);
    (destruct (sleep_on_mutex x) eqn:Em; [by apply Hwait|by apply Hrest; auto]).
Qed.

Lemma mutex_may_raise_ok m p k :
  kwf None None k → is_Some (mutexes k !! m) → prio_ok p →
  wp (_k_mutex_may_raise_priority m p k) no_owner
    (λ k', kwf None None k' ∧ frame p k k' ∧ mpr (mutexes k') m ≤ p).
Proof.
  intros Hk Hm Hp. pose proof Hm as [mx Hmx]. apply (may_raise_ok _ _ _ None); try done; [by left|apply Hp|..].
  - intros s Hs. pose proof (w_bound _ _ _ Hk m mx s ltac:(done) Hmx Hs).
    unfold mpr. rewrite Hmx. simpl. lia.
  - intros o y k2 Hk2 Hy Hlt He Ht. apply (raise_ok _ o p k2 y); try done.
    pose proof (above_le_size p k2). lia.
Qed.

(** *** The invariant of CPUs and timeouts *)

Definition live (s : tstate) : bool :=
  match s with READY | SLEEP | SLEEP_UNWAKEABLE => true | _ => false end.

(** [e] is a task that has just been switched to and has yet to leave the
    structures it slept on. *)
Record cwf (e : option tid) k : Prop := {
  c_run : ∀ c y t, cpus k !! c = Some y → cpu_task y = Some t →
    ∃ x, tasks k !! t = Some x ∧ state x = RUNNING;
  c_inj : ∀ c1 c2 y1 y2 t, cpus k !! c1 = Some y1 → cpu_task y1 = Some t →
    cpus k !! c2 = Some y2 → cpu_task y2 = Some t → c1 = c2;
  c_all : ∀ t x, tasks k !! t = Some x → state x = RUNNING →
    ∃ c y, cpus k !! c = Some y ∧ cpu_task y = Some t;
  c_awake : ∀ t x, e ≠ Some t → tasks k !! t = Some x → live (state x) = false → sleep_on_mutex x = None;
  c_lock : ∀ c y, cpus k !! c = Some y → 0 ≤ lock_count y;
  c_timeouts : Timeout.queue_ok (timeouts k);
  c_ids : ∀ t, e ≠ Some t → t ∈ Timeout.te_id <$> timeouts k →
    ∃ x, tasks k !! t = Some x ∧ live (state x) = true
}.

Definition kinv k : Prop := kwf None None k ∧ cwf None k.

(** Only whether a task runs, is live, or neither, matters to [cwf]. *)
Definition same_kind x x' : Prop :=
  (state x' = RUNNING ↔ state x = RUNNING) ∧ live (state x') = live (state x).

Lemma cwf_frame e k k' :
  cpus k' = cpus k → timeouts k' = timeouts k →
  (∀ t x, tasks k !! t = Some x → ∃ x', tasks k' !! t = Some x' ∧ same_kind x x') →
  (∀ t x', tasks k' !! t = Some x' → ∃ x, tasks k !! t = Some x ∧ same_kind x x' ∧
     (live (state x') = false → sleep_on_mutex x = None → sleep_on_mutex x' = None)) →
  cwf e k → cwf e k'.
Proof.
  intros Hc Hd Hfw Hbw [R I A W L T D]. split; rewrite ?Hc, ?Hd; try done.
  - intros c y t Hy Ht. destruct (R c y t Hy Ht) as (x & Hx & Hs).
    destruct (Hfw t x Hx) as (x' & ? & Hk & _). exists x'. split; [done|]. by apply Hk.
  - intros t x' Hx' Hs. destruct (Hbw t x' Hx') as (x & Hx & [Hk _] & _). apply (A t x Hx). by apply Hk.
  - intros t x' He Hx' Hs. destruct (Hbw t x' Hx') as (x & Hx & [_ Hk] & Hsl).
    apply Hsl; [done|]. apply (W t x He Hx). congruence.
  - intros t He Ht. destruct (D t He Ht) as (x & Hx & Hl). destruct (Hfw t x Hx) as (x' & ? & _ & E).
    exists x'. split; [done|]. congruence.
Qed.

Lemma same_task_kind p x x' : same_task p x x' → same_kind x x'.
Proof. intros (E & _). unfold same_kind. by rewrite E. Qed.

Lemma cwf_of_frame e p k k' : frame p k k' → cwf e k → cwf e k'.
Proof.
  intros F. apply cwf_frame; try apply F.
  - intros t x (x' & ? & ?)%(f_tasks _ _ _ F). exists x'. split; [done|by eapply same_task_kind].
  - intros t x' Hx'. destruct (f_dom _ _ _ F t) as [x Hx]; [eauto|].
    destruct (f_tasks _ _ _ F t x Hx) as (x2 & ? & Hs). simplify_eq. exists x. split; [done|].
    split; [by eapply same_task_kind|]. destruct Hs as (_ & _ & _ & _ & -> & _). done.
Qed.

Lemma cwf_moved e k t x x' k' :
  tasks k !! t = Some x → moved k t x' k' → same_kind x x' →
  (live (state x') = false → sleep_on_mutex x = None → sleep_on_mutex x' = None) → cwf e k → cwf e k'.
Proof.
  intros Hx M Hs Hsl. apply cwf_frame; try apply M; intros s y; rewrite (mv_tasks _ _ _ _ M).
  - intros Hy. destruct (decide (s = t)) as [->|].
    + simplify_eq. exists x'. by rewrite lookup_insert_eq.
    + exists y. by rewrite lookup_insert_ne.
  - rewrite lookup_insert. case_decide; subst.
    + intros [= <-]. eauto.
    + intros Hy. exists y. by repeat split.
Qed.

Lemma resume_inv k t x result :
  kinv k → tasks k !! t = Some x → sleeping (state x) = true →
  ∃ k', _k_sched_resume t result k = Ok k' ∧ moved k t (resumed result x) k' ∧ kinv k'.
Proof.
  intros [Hk Hc] Hx Hs. destruct (resume_ok _ _ k t x result Hk Hx Hs) as (k' & ? & M & ?).
  exists k'. split_and!; [done..|]. split; [done|]. eapply cwf_moved; try done.
  unfold same_kind, resumed. simpl. by destruct (state x).
Qed.

(** A queue that is not a run queue holds sleeping tasks. *)
Lemma waiter_sleeps e b k q t :
  kwf e b k → (∀ p, q ≠ QRun p) → t ∈ queues k q → ∃ x, tasks k !! t = Some x ∧ sleeping (state x) = true.
Proof.
  intros Hk Hq (x & Hx & Hl)%(w_link _ _ _ Hk). exists x. split; [done|].
  pose proof (w_placed _ _ _ Hk _ _ Hx) as Hpl. unfold placed in Hpl.
  destruct (state x); try done; rewrite Hl in Hpl; naive_solver.
Qed.

(** What the continuations of tasks depend on. *)
Inductive tkind := Live | Runs | Off.
Definition kind (s : tstate) : tkind :=
  match s with RUNNING => Runs | READY | SLEEP | SLEEP_UNWAKEABLE => Live | _ => Off end.
Definition obs k t : option (tkind * option mid) :=
  (λ x, (kind (state x), sleep_on_mutex x)) <$> tasks k !! t.

Lemma obs_moved k t x' k' s :
  moved k t x' k' → obs k' s = if decide (s = t) then Some (kind (state x'), sleep_on_mutex x') else obs k s.
Proof.
  intros M. unfold obs. rewrite (mv_tasks _ _ _ _ M). case_decide; subst.
  - by rewrite lookup_insert_eq.
  - by rewrite lookup_insert_ne.
Qed.

Lemma obs_frame p k k' s : frame p k k' → obs k' s = obs k s.
Proof.
  intros F. unfold obs. destruct (tasks k !! s) as [x|] eqn:E.
  - destruct (f_tasks _ _ _ F s x E) as (x' & -> & Hs). simpl. destruct Hs as (-> & _ & _ & _ & -> & _). done.
  - destruct (tasks k' !! s) eqn:E'; [|done]. destruct (f_dom _ _ _ F s) as [? ?]; [eauto|]. congruence.
Qed.

Lemma obs_resumed k t x result k' s :
  tasks k !! t = Some x → sleeping (state x) = true → moved k t (resumed result x) k' → obs k' s = obs k s.
Proof.
  intros Hx Hs M. rewrite (obs_moved _ _ _ _ s M). case_decide; [|done]. subst.
  unfold obs. rewrite Hx. simpl. by destruct (state x).
Qed.

(** What waking tasks leaves alone. *)
Record quiet_step k k' : Prop := {
  qs_obs : ∀ s, obs k' s = obs k s;
  qs_mutexes : mutexes k' = mutexes k;
  qs_timeouts : timeouts k' = timeouts k;
  qs_cpus : cpus k' = cpus k
}.

Lemma quiet_refl k : quiet_step k k.
Proof. by split. Qed.

Lemma quiet_trans k1 k2 k3 : quiet_step k1 k2 → quiet_step k2 k3 → quiet_step k1 k3.
Proof. intros [O1 M1 T1 C1] [O2 M2 T2 C2]. split; [intros s; by rewrite O2|congruence..]. Qed.

Lemma resume_quiet k t x result k' :
  tasks k !! t = Some x → sleeping (state x) = true → moved k t (resumed result x) k' → quiet_step k k'.
Proof. intros Hx Hs M. split; [intros s; by eapply obs_resumed|apply M..]. Qed.

(** Waking the first waiter takes it off the queue. *)
Lemma resume_head k t x result k' q l :
  moved k t (resumed result x) k' → links_ok k → (∀ p, q ≠ QRun p) → queues k q = t :: l → queues k' q = l.
Proof.
  intros M [_ Hnd] Hq E. specialize (Hnd q). rewrite E in Hnd. apply NoDup_cons in Hnd as [Hn _].
  rewrite <-(filter_ne_notin t (queues k' q)).
  - rewrite (mv_order _ _ _ _ M), E, filter_cons_False by naive_solver. by apply filter_ne_notin.
  - rewrite (mv_in _ _ _ _ M). simpl. naive_solver.
Qed.

(** [wakeup_all]: every waiter becomes ready with the given result, nobody
    else changes. *)
Lemma wakeup_loop_ok q result : (∀ p, q ≠ QRun p) → ∀ n k, kinv k → length (queues k q) = n →
  ∃ k', wakeup_loop n q result k = Ok k' ∧ kinv k' ∧ quiet_step k k' ∧ queues k' q = [] ∧
    (∀ t x, tasks k !! t = Some x →
       tasks k' !! t = Some (if decide (t ∈ queues k q) then resumed result x else x)) ∧
    (∀ q', q' ≠ q → (∀ p, q' ≠ QRun p) → queues k' q' = queues k q').
Proof.
  intros Hq. induction n as [|n IH]; intros k Hk Hn.
  - apply length_zero_iff_nil in Hn. exists k. cbn [wakeup_loop]. rewrite Hn.
    split_and!; try done.
  - destruct (queues k q) as [|t l] eqn:E; [done|]. cbn [wakeup_loop]. rewrite E.
    destruct (waiter_sleeps _ _ k q t (proj1 Hk) Hq) as (x & Hx & Hs); [rewrite E; by constructor|].
    destruct (resume_inv k t x result Hk Hx Hs) as (k1 & -> & M & Hk1). cbn [mbind outcome_bind].
    pose proof (kwf_links _ _ _ (proj1 Hk)) as L.
    pose proof (resume_head _ _ _ _ _ q l M L Hq E) as Hq1.
    destruct (IH k1 Hk1) as (k2 & -> & Hk2 & Q2 & Hq2 & Ht2 & Ho2); [rewrite Hq1; simpl in Hn; lia|].
    assert (t ∉ l) as Hnot by (pose proof (proj2 L q) as Hnd; rewrite E in Hnd; by apply NoDup_cons in Hnd as [? _]).
    exists k2. split_and!; try done.
    + eapply quiet_trans; [|done]. by eapply resume_quiet.
    + intros s y Hy. destruct (decide (s = t)) as [->|Hne].
      * assert (y = x) as -> by congruence. rewrite (decide_True (P := t ∈ t :: l)) by (by constructor).
        rewrite (Ht2 t (resumed result x)) by (by apply moved_lookup in M).
        rewrite Hq1, decide_False; done.
      * rewrite (Ht2 s y) by (by rewrite (mv_tasks _ _ _ _ M), lookup_insert_ne).
        rewrite Hq1. f_equal. repeat case_decide; try done; rewrite elem_of_cons in *; naive_solver.
    + intros q' Hne Hq'. rewrite Ho2 by done.
      assert (t ∉ queues k q' ∧ t ∉ queues k1 q') as [N1 N2].
      { split.
        - intros (? & ? & ?)%(proj1 L). assert (t ∈ queues k q) as (? & ? & ?)%(proj1 L) by (rewrite E; by constructor).
          simplify_eq.
        - rewrite (mv_in _ _ _ _ M). simpl. naive_solver. }
      rewrite <-(filter_ne_notin t (queues k1 q')), (mv_order _ _ _ _ M) by done. by apply filter_ne_notin.
Qed.

(** *** Leaving and entering a CPU *)

Definition ids k : list tid := Timeout.te_id <$> timeouts k.

Lemma running_not_queued e k t x :
  cwf e k → e ≠ Some t → tasks k !! t = Some x → live (state x) = false → t ∉ ids k.
Proof. intros Hc He Hx Hl Hin. destruct (c_ids _ _ Hc t He Hin) as (y & ? & ?). simplify_eq. congruence. Qed.

(** [t] gives up CPU [c]; it becomes [x']. *)
Lemma cwf_leave e k c y t x' k1 :
  cwf e k → (e = None ∨ e = Some t) → cpus k !! c = Some y → cpu_task y = Some t → t ∉ ids k →
  tasks k1 = <[t := x']> (tasks k) → cpus k1 = cpus k → state x' ≠ RUNNING →
  (live (state x') = false → sleep_on_mutex x' = None) →
  Timeout.queue_ok (timeouts k1) →
  (∀ s, s ∈ ids k1 → s ∈ ids k ∨ (s = t ∧ live (state x') = true)) →
  cwf None (upd_cpus <[c := MkCpu None (lock_count y)]> k1).
Proof.
  intros Hc He Hy Hyt Hnq Ht Hcp Hs Hsl Hok Hids. split; simpl; rewrite ?Hcp, ?Ht.
  - intros c' y' s. rewrite lookup_insert. case_decide; [intros; by simplify_eq/=|]. intros Hy' Hs'.
    assert (s ≠ t) by (intros ->; by destruct (c_inj _ _ Hc c' c y' y t)).
    rewrite lookup_insert_ne by done. by eapply (c_run _ _ Hc).
  - intros c1 c2 y1 y2 s. rewrite !lookup_insert. do 2 case_decide; intros; simplify_eq/=; try done.
    by eapply (c_inj _ _ Hc).
  - intros s x Hx Hr. destruct (decide (s = t)) as [->|Hne].
    + rewrite lookup_insert_eq in Hx. by simplify_eq.
    + rewrite lookup_insert_ne in Hx by done. destruct (c_all _ _ Hc s x Hx Hr) as (c' & y' & Hy' & Hs').
      exists c', y'. rewrite lookup_insert_ne; [done|]. intros ->. by simplify_eq.
  - intros s x _ Hx. destruct (decide (s = t)) as [->|Hne].
    + rewrite lookup_insert_eq in Hx. by simplify_eq.
    + rewrite lookup_insert_ne in Hx by done. apply (c_awake _ _ Hc s); [destruct He; congruence|done].
  - intros c' y'. rewrite lookup_insert. case_decide; [intros; simplify_eq/=; by eapply (c_lock _ _ Hc)|apply (c_lock _ _ Hc)].
  - done.
  - intros s _ Hin. destruct (Hids s Hin) as [Hin'|[-> ?]].
    + assert (s ≠ t) by (by intros ->). rewrite lookup_insert_ne by done.
      apply (c_ids _ _ Hc); [destruct He; congruence|done].
    + exists x'. by rewrite lookup_insert_eq.
Qed.

Lemma kwf_cpus e b k f : kwf e b k → kwf e b (upd_cpus f k).
Proof. intros Hk. by split; apply Hk. Qed.

Lemma kwf_timeouts e b k d : kwf e b k → kwf e b (set_timeouts d k).
Proof. intros Hk. by split; apply Hk. Qed.

Lemma moved_timeouts k t x' k' d :
  moved (set_timeouts d k) t x' k' → moved k t x' (set_timeouts (timeouts k) k').
Proof. intros [? ? ? ? ? ? ?]. by split. Qed.

(** The current task of a CPU and its record. *)
Lemma current_ok e k c y t :
  cwf e k → cpus k !! c = Some y → cpu_task y = Some t →
  ∃ x, tasks k !! t = Some x ∧ state x = RUNNING.
Proof. intros Hc ? ?. by eapply (c_run _ _ Hc). Qed.

Lemma running_unlinked e b k t x : kwf e b k → tasks k !! t = Some x → state x = RUNNING → link x = None.
Proof. intros Hk Hx Hs. pose proof (w_placed _ _ _ Hk _ _ Hx) as Hpl. unfold placed in Hpl. by rewrite Hs in Hpl. Qed.

(** What [t] going off CPU [c] does to the rest. *)
Record left_cpu k c (t : tid) (kd : tkind) (sl : option mid) k' : Prop := {
  lc_obs : ∀ s, obs k' s = if decide (s = t) then Some (kd, sl) else obs k s;
  lc_mutexes : mutexes k' = mutexes k;
  lc_cpus : ∃ y, cpus k !! c = Some y ∧ cpus k' = <[c := MkCpu None (lock_count y)]> (cpus k)
}.

(** The current task yields to the scheduler: it is ready and last of its
    priority. *)
Lemma yield_ok k c y t x :
  kinv k → cpus k !! c = Some y → cpu_task y = Some t → tasks k !! t = Some x →
  ∃ k', (k ← _k_sched_enqueue t k; _k_sched_yield_locked c k) = Ok k' ∧ kinv k' ∧
    left_cpu k c t Live None k' ∧ timeouts k' = timeouts k ∧
    queues k' (QRun (priority x)) = queues k (QRun (priority x)) ++ [t].
Proof.
  intros [Hk Hc] Hy Hyt Hx. destruct (current_ok _ _ _ _ _ Hc Hy Hyt) as (? & ? & Hs). simplify_eq.
  pose proof (running_unlinked _ _ _ _ _ Hk Hx Hs) as Hl. pose proof (w_prio _ _ _ Hk _ _ Hx) as [Hp _].
  pose proof (c_awake _ _ Hc t x ltac:(done) Hx ltac:(by rewrite Hs)) as Hsl.
  destruct (enqueue_ok k t x (kwf_links _ _ _ Hk) Hx Hl Hp) as (k1 & -> & M & Hq). cbn [mbind outcome_bind].
  unfold _k_sched_yield_locked, cpu_at. rewrite (mv_cpus _ _ _ _ M), Hy. cbn [deref mbind outcome_bind].
  eexists. split; [done|]. split_and!; [split| |by apply M|done].
  - apply kwf_cpus. eapply (kwf_moved None None k t x); try done.
    intros _. by eapply eff_kept.
  - assert (t ∉ ids k) as Hn by (eapply running_not_queued; [done..|by rewrite Hs]).
    apply (cwf_leave None k c y t _ k1 Hc (or_introl eq_refl) Hy Hyt Hn (mv_tasks _ _ _ _ M) (mv_cpus _ _ _ _ M)); try done.
    + rewrite (mv_timeouts _ _ _ _ M). apply Hc.
    + intros s. unfold ids. rewrite (mv_timeouts _ _ _ _ M). auto.
  - split; simpl.
    + intros s. change (obs (upd_cpus _ k1) s) with (obs k1 s). rewrite (obs_moved _ _ _ _ _ M). simpl.
      by rewrite Hsl.
    + apply M.
    + exists y. by rewrite (mv_cpus _ _ _ _ M).
Qed.

(** The queue a task may sleep on: a mutex it has announced, or another wait
    queue. *)
Definition may_sleep_on k x q : Prop :=
  match q with
  | QRun _ => False
  | QMutex m => sleep_on_mutex x = Some m ∧ is_Some (mutexes k !! m) ∧ mpr (mutexes k) m ≤ priority x
  | _ => sleep_on_mutex x = None
  end.

(** Misuse of the sleeping functions. *)
Definition sleep_misuse (lc timeout : Z) (w : string) : Prop :=
  (0 < lc ∧ w = "called from an IRQ context"%string) ∨
  (timeout < 0 ∧ w = "Assertion failed: delay > 0"%string).

(** Entering the timeout queue. *)
Lemma timeout_add_ok k t timeout :
  Timeout.queue_ok (timeouts k) → t ∉ ids k →
  wp (if timeout =? 0 then Ok (timeouts k) else Timeout._k_timeout_queue_add (timeouts k) t timeout)
    (λ w, timeout < 0 ∧ w = "Assertion failed: delay > 0"%string)
    (λ d, Timeout.queue_ok d ∧
          ∀ s, s ∈ Timeout.te_id <$> d ↔ s ∈ ids k ∨ (s = t ∧ timeout ≠ 0)).
Proof.
  intros Hok Hn. destruct (Z.eqb_spec timeout 0) as [->|Hz]; simpl.
  { split; [done|]. unfold ids. naive_solver. }
  unfold Timeout._k_timeout_queue_add. apply wp_bind, wp_assert.
  { intros ?%Z.ltb_ge. split; [lia|done]. }
  intros Hpos%Z.ltb_lt. apply wp_bind, wp_assert.
  { unfold Timeout.queued. rewrite bool_decide_eq_false_2 by done. done. }
  intros _. simpl. split; [by apply Timeout.queue_insert_ok|].
  intros s. rewrite Timeout.queue_insert_ids, elem_of_cons. unfold ids. naive_solver.
Qed.

Lemma sleep_begin_ok k c y t x q st timeout :
  kwf None None k → cwf (Some t) k → t ∉ ids k → cpus k !! c = Some y → cpu_task y = Some t →
  tasks k !! t = Some x → may_sleep_on k x q → sleeping st = true →
  wp (sleep_begin c q st timeout k) (sleep_misuse (lock_count y) timeout)
    (λ k', kinv k' ∧ left_cpu k c t Live (sleep_on_mutex x) k' ∧
       (∀ s, s ∈ ids k' ↔ s ∈ ids k ∨ (s = t ∧ timeout ≠ 0)) ∧
       (∃ l1 l2, queues k q = l1 ++ l2 ∧ queues k' q = l1 ++ t :: l2 ∧ Forall (λ s, pr k s ≤ priority x) l1 ∧
          match l2 with [] => True | s :: _ => priority x < pr k s end) ∧
       (∀ q', q' ≠ q → queues k' q' = queues k q')).
Proof.
  intros Hk Hc Hn Hy Hyt Hx Hq Hst.
  destruct (current_ok _ _ _ _ _ Hc Hy Hyt) as (? & ? & Hs). simplify_eq.
  pose proof (running_unlinked _ _ _ _ _ Hk Hx Hs) as Hl. pose proof (w_prio _ _ _ Hk _ _ Hx) as [Hp _].
  unfold sleep_begin, cpu_at. rewrite Hy. cbn [deref mbind outcome_bind].
  destruct (Z.ltb_spec 0 (lock_count y)); [by left|]. rewrite Hyt. cbn [deref mbind outcome_bind].
  apply wp_bind. eapply wp_mono; [apply (timeout_add_ok k t timeout (c_timeouts _ _ Hc) Hn)|by right|].
  intros d [Hd Hdi]. simpl.
  set (k0 := set_timeouts d k). assert (kwf None None k0) as Hk0 by (by apply kwf_timeouts).
  pose proof (kwf_links _ _ _ Hk0) as L0.
  pose proof (moved_update k0 t x (set_state st) L0 Hx eq_refl) as M1. fold k0.
  set (k1 := upd_task t (set_state st) k0) in *.
  pose proof (moved_links _ _ _ _ L0 M1) as L1. pose proof (moved_lookup _ _ _ _ M1) as X1.
  destruct (sched_add_ok k1 q t _ L1 X1 Hl) as (k2 & l1 & l2 & -> & M2 & Hq1 & Hq2 & H1 & H2).
  cbn [mbind outcome_bind].
  assert (moved k0 t (set_link (Some q) (set_state st x)) k2) as M by (by eapply moved_trans).
  assert (∀ s, pr k1 s = pr k s) as Hpr.
  { intros s. rewrite (pr_insert k0 t _ k1 s (mv_tasks _ _ _ _ M1)). simpl. case_decide; [|done].
    subst. unfold pr. by rewrite Hx. }
  assert (t ∉ queues k q) as Hnq by (intros (? & ? & ?)%(w_link _ _ _ Hk); simplify_eq; congruence).
  unfold _k_sched_yield_locked, cpu_at. rewrite (mv_cpus _ _ _ _ M). change (cpus k0) with (cpus k). rewrite Hy.
  cbn [deref mbind outcome_bind wp]. split_and!; [split| | | |].
  - apply kwf_cpus. eapply (kwf_moved None None k0 t x); try done; simpl.
    + unfold placed. simpl. unfold may_sleep_on in Hq. change (mutexes k0) with (mutexes k).
      destruct st, q, (sleep_on_mutex x); simplify_eq/=; try done; naive_solver.
    + intros m [= ->]. eapply (sched_add_sorted k1 t _ (QMutex m)); try done.
      apply (sorted_ext k); [intros; apply Hpr|apply (w_sorted _ _ _ Hk)].
    + intros m mx _ [= ->] Hmx. destruct Hq as (_ & _ & Hq). change (mutexes k0) with (mutexes k) in Hmx.
      unfold mpr in Hq. by rewrite Hmx in Hq.
    + intros _. by apply (eff_kept None None k0 t x (set_link (Some q) (set_state st x))).
  - apply (cwf_leave (Some t) k c y t _ k2 Hc (or_intror eq_refl) Hy Hyt Hn (mv_tasks _ _ _ _ M) (mv_cpus _ _ _ _ M)).
    + simpl. by destruct st.
    + simpl. by destruct st.
    + rewrite (mv_timeouts _ _ _ _ M). done.
    + intros s. unfold ids at 1. rewrite (mv_timeouts _ _ _ _ M). simpl. rewrite Hdi.
      intros [?|[-> _]]; [by left|right]. split; [done|]. by destruct st.
  - split; simpl.
    + intros s. change (obs (upd_cpus _ k2) s) with (obs k2 s). rewrite (obs_moved _ _ _ _ _ M). simpl. by destruct st.
    + apply M.
    + exists y. by rewrite (mv_cpus _ _ _ _ M).
  - intros s. unfold ids at 1. simpl. rewrite (mv_timeouts _ _ _ _ M). apply Hdi.
  - exists l1, l2. split_and!; [done|done| |].
    + eapply Forall_impl; [exact H1|]. intros s. simpl. by rewrite Hpr.
    + destruct l2; [done|]. by rewrite Hpr in H2.
  - intros q' Hne. simpl.
    rewrite <-(filter_ne_notin t (queues k2 q')), (mv_order _ _ _ _ M).
    + apply filter_ne_notin. change (queues k0 q') with (queues k q'). intros (? & ? & ?)%(w_link _ _ _ Hk).
      simplify_eq.
    + rewrite (mv_in _ _ _ _ M). simpl. naive_solver.
Qed.

(** *** Dispatching *)

(** A queue outside [t]'s own old and new queue is unchanged. *)
Lemma moved_queue k t x x' k' q :
  links_ok k → tasks k !! t = Some x → moved k t x' k' → link x ≠ Some q → link x' ≠ Some q →
  queues k' q = queues k q.
Proof.
  intros [Hl _] Hx M H1 H2.
  rewrite <-(filter_ne_notin t (queues k' q)), (mv_order _ _ _ _ M).
  - apply filter_ne_notin. intros (? & ? & ?)%Hl. by simplify_eq.
  - rewrite (mv_in _ _ _ _ M). naive_solver.
Qed.

Lemma dequeue_from_ok n : ∀ p k, kwf None None k →
  ∃ r k', dequeue_from n p k = Ok (r, k') ∧
    match r with
    | None => k' = k ∧ ∀ p', p ≤ p' < p + Z.of_nat n → queues k (QRun p') = []
    | Some t => ∃ x l, tasks k !! t = Some x ∧ state x = READY ∧ queues k (QRun (priority x)) = t :: l ∧
        (∀ p', p ≤ p' < priority x → queues k (QRun p') = []) ∧ p ≤ priority x ∧
        moved k t (set_link None x) k'
    end.
Proof.
  induction n as [|n IH]; intros p k Hk; cbn [dequeue_from].
  { exists None, k. split; [done|]. split; [done|lia]. }
  destruct (queues k (QRun p)) as [|t l] eqn:E.
  - destruct (IH (p + 1) k Hk) as (r & k' & -> & H). exists r, k'. split; [done|].
    destruct r as [t|].
    + destruct H as (x & l & ? & ? & ? & Hemp & ? & ?). exists x, l. split_and!; try done; [|lia].
      intros p' Hp'. destruct (decide (p' = p)) as [->|]; [done|]. apply Hemp. lia.
    + destruct H as [-> Hemp]. split; [done|]. intros p' Hp'.
      destruct (decide (p' = p)) as [->|]; [done|]. apply Hemp. lia.
  - assert (t ∈ queues k (QRun p)) as Hin by (rewrite E; by constructor).
    apply (w_link _ _ _ Hk) in Hin as (x & Hx & Hl).
    pose proof (w_placed _ _ _ Hk _ _ Hx) as Hpl. unfold placed in Hpl.
    assert (state x = READY ∧ priority x = p) as [Hs Hp].
    { rewrite Hl in Hpl. destruct (state x); try done; [naive_solver|..];
        destruct (sleep_on_mutex x); naive_solver. }
    destruct (list_remove_ok k t x (kwf_links _ _ _ Hk) Hx) as (k' & -> & M). cbn [mbind outcome_bind].
    exists (Some t), k'. split; [done|]. exists x, l. rewrite Hp. split_and!; try done; lia.
Qed.

(** [t] starts running on the idle CPU [c]. *)
Lemma cwf_enter k c y t x x' k1 :
  cwf None k → cpus k !! c = Some y → cpu_task y = None → tasks k !! t = Some x → state x ≠ RUNNING →
  state x' = RUNNING → tasks k1 = <[t := x']> (tasks k) →
  cpus k1 = <[c := MkCpu (Some t) (lock_count y)]> (cpus k) → timeouts k1 = timeouts k →
  cwf (Some t) k1.
Proof.
  intros Hc Hy Hyt Hx Hs Hs' Ht Hcp Hd.
  assert (∀ c' y', cpus k !! c' = Some y' → cpu_task y' ≠ Some t) as Hno.
  { intros c' y' Hy' Hy''. destruct (c_run _ _ Hc c' y' t) as (z & ? & ?); [done..|]. congruence. }
  split; rewrite ?Ht, ?Hcp, ?Hd.
  - intros c' y' s. rewrite lookup_insert. case_decide; intros Hy' Hs''.
    + simplify_eq/=. exists x'. by rewrite lookup_insert_eq.
    + destruct (c_run _ _ Hc c' y' s) as (z & ? & ?); [done..|]. exists z.
      rewrite lookup_insert_ne; [done|]. intros <-. by eapply Hno.
  - intros c1 c2 y1 y2 s. rewrite !lookup_insert.
    do 2 case_decide; intros; simplify_eq/=; try done; [by exfalso; eapply Hno..|by eapply (c_inj _ _ Hc)].
  - intros s z Hz Hzs. destruct (decide (s = t)) as [->|].
    + exists c, (MkCpu (Some t) (lock_count y)). by rewrite lookup_insert_eq.
    + rewrite lookup_insert_ne in Hz by done. destruct (c_all _ _ Hc s z Hz Hzs) as (c' & y' & ? & ?).
      exists c', y'. rewrite lookup_insert_ne; [done|]. intros <-. simplify_eq.
  - intros s z Hne Hz. rewrite lookup_insert_ne in Hz by congruence. by apply (c_awake _ _ Hc s).
  - intros c' y'. rewrite lookup_insert. case_decide; [|apply (c_lock _ _ Hc)].
    intros; simplify_eq/=. by eapply (c_lock _ _ Hc).
  - apply Hc.
  - intros s Hne Hin. rewrite lookup_insert_ne by congruence. by apply (c_ids _ _ Hc).
Qed.

(** What the scheduler loop does on an idle CPU: the first task of the most
    urgent non-empty run queue is switched to. *)
Lemma dispatch_ok k c y :
  kinv k → cpus k !! c = Some y → cpu_task y = None →
  ∃ r k', sched_dispatch c k = Ok (r, k') ∧
    match r with
    | None => k' = k ∧ ∀ s x, tasks k !! s = Some x → state x ≠ READY
    | Some t => ∃ x l, tasks k !! t = Some x ∧ state x = READY ∧
        queues k (QRun (priority x)) = t :: l ∧
        (∀ s xs, tasks k !! s = Some xs → state xs = READY → priority x ≤ priority xs) ∧
        kwf None None k' ∧ cwf (Some t) k' ∧
        tasks k' = <[t := set_state RUNNING (set_link None x)]> (tasks k) ∧
        mutexes k' = mutexes k ∧ timeouts k' = timeouts k ∧
        cpus k' = <[c := MkCpu (Some t) (lock_count y)]> (cpus k) ∧
        (∀ q, (∀ p, q ≠ QRun p) → queues k' q = queues k q)
    end.
Proof.
  intros [Hk Hc] Hy Hyt. unfold sched_dispatch, k_sched_dequeue.
  destruct (dequeue_from_ok (Z.to_nat K_TASK_MAX_PRIORITIES) 0 k Hk) as (r & k1 & -> & H).
  rewrite Z2Nat.id in H by done. cbn [mbind outcome_bind].
  assert (∀ s xs, tasks k !! s = Some xs → state xs = READY →
    s ∈ queues k (QRun (priority xs)) ∧ prio_ok (priority xs)) as Hready.
  { intros s xs Hxs Hrs. split; [|by apply (w_prio _ _ _ Hk s)]. apply (w_link _ _ _ Hk). exists xs.
    pose proof (w_placed _ _ _ Hk _ _ Hxs) as Hpl. unfold placed in Hpl. by rewrite Hrs in Hpl. }
  destruct r as [t|]; cbn [mbind outcome_bind].
  2: { exists None, k1. split; [done|]. destruct H as [-> Hemp]. split; [done|].
       intros s xs Hxs Hrs. destruct (Hready s xs Hxs Hrs) as [Hin Hp].
       rewrite (Hemp (priority xs)) in Hin by (unfold prio_ok in Hp; lia). by apply elem_of_nil in Hin. }
  destruct H as (x & l & Hx & Hs & Hq & Hemp & _ & M).
  pose proof (w_prio _ _ _ Hk _ _ Hx) as [Hp _].
  unfold task_at, cpu_at. rewrite (moved_lookup _ _ _ _ M), (mv_cpus _ _ _ _ M), Hy. cbn [deref mbind outcome_bind].
  simpl (state _). rewrite Hs. cbn [k_assert mbind outcome_bind]. rewrite bool_decide_eq_true_2 by done.
  cbn [k_assert mbind outcome_bind]. eexists _, _. split; [done|]. exists x, l.
  pose proof (kwf_links _ _ _ Hk) as L. pose proof (moved_links _ _ _ _ L M) as L1.
  assert (moved k1 t (set_state RUNNING (set_link None x)) (upd_task t (set_state RUNNING) k1)) as M2
    by (apply (moved_update k1 t (set_link None x) (set_state RUNNING)); [done|by apply moved_lookup in M|done]).
  pose proof (moved_trans _ _ _ _ _ _ M M2) as M3.
  split_and!; try done; simpl.
  - intros s xs Hxs Hrs. destruct (Hready s xs Hxs Hrs) as [Hin [? _]].
    destruct (decide (priority x ≤ priority xs)); [done|].
    rewrite (Hemp (priority xs)) in Hin by lia. by apply elem_of_nil in Hin.
  - change (kwf None None (upd_cpus <[c := MkCpu (Some t) (lock_count y)]> (upd_task t (set_state RUNNING) k1))).
    apply kwf_cpus. eapply (kwf_moved None None k t x); try done.
    intros _. by apply (eff_kept None None k t x (set_state RUNNING (set_link None x))).
  - apply (cwf_enter k c y t x (set_state RUNNING (set_link None x))); try done.
    + by rewrite Hs.
    + apply (mv_tasks _ _ _ _ M3).
    + simpl. by rewrite (mv_cpus _ _ _ _ M).
    + apply M.
  - apply (mv_tasks _ _ _ _ M3).
  - apply M.
  - apply M.
  - by rewrite (mv_cpus _ _ _ _ M).
  - intros q Hq'. eapply (moved_queue k t x _ k1); try done.
    pose proof (w_placed _ _ _ Hk _ _ Hx) as Hpl. unfold placed in Hpl. rewrite Hs in Hpl. rewrite Hpl. congruence.
Qed.

(** *** After the switch back *)

Lemma sleep_end_ok k t x timeout :
  kwf None None k → cwf (Some t) k → tasks k !! t = Some x → (t ∈ ids k → timeout ≠ 0) →
  ∃ d, sleep_end t timeout k = Ok (sleep_result x, set_timeouts d k) ∧
    kwf None None (set_timeouts d k) ∧ cwf (Some t) (set_timeouts d k) ∧
    ∀ s, s ∈ Timeout.te_id <$> d ↔ s ≠ t ∧ s ∈ ids k.
Proof.
  intros Hk Hc Hx Hq. unfold sleep_end, Timeout.queued. fold (ids k).
  assert (∀ d, Timeout.queue_ok d → (∀ s, s ∈ Timeout.te_id <$> d → s ∈ ids k) → cwf (Some t) (set_timeouts d k)) as Hcw.
  { intros d Hd Hsub. split; try apply Hc; [done|]. intros s Hne Hin. apply (c_ids _ _ Hc); [done|]. by apply Hsub. }
  case_bool_decide as Hin.
  - rewrite (proj2 (Z.eqb_neq timeout 0)) by auto. simpl. unfold Timeout._k_timeout_queue_remove, Timeout.queued.
    rewrite bool_decide_eq_true_2 by done. unfold task_at. simpl. rewrite Hx. simpl.
    pose proof (c_timeouts _ _ Hc) as Hok. pose proof Hok as (_ & _ & Hnd).
    eexists. split; [done|]. split; [by apply kwf_timeouts|].
    split; [apply Hcw; [by apply Timeout.queue_unlink_ok|]|]; intros s; rewrite Timeout.queue_unlink_ids by done; tauto.
  - simpl. rewrite orb_true_r. simpl. unfold task_at. rewrite Hx. simpl. eexists. split; [done|].
    split; [by apply kwf_timeouts|]. split; [apply Hcw; [apply Hc|auto]|].
    intros s. fold (ids k). split; [|tauto]. intros Hs. split; [by intros ->|done].
Qed.

(** The task has left everything it slept on. *)
Lemma cwf_clear k t x :
  cwf (Some t) k → tasks k !! t = Some x → t ∉ ids k → sleep_on_mutex x = None → cwf None k.
Proof.
  intros Hc Hx Hn Hs. split; try apply Hc.
  - intros s z _ Hz Hl. destruct (decide (s = t)) as [->|]; [by simplify_eq|].
    apply (c_awake _ _ Hc s); [congruence|done|done].
  - intros s _ Hin. apply (c_ids _ _ Hc); [|done]. intros [= ->]. done.
Qed.

Lemma cwf_exempt k t : cwf None k → cwf (Some t) k.
Proof. intros Hc. split; try apply Hc; intros s; intros; by eapply Hc. Qed.

(** *** Timeouts *)

(** What the callback does to a task. *)
Definition timed_out x : KTask := if decide (state x = SLEEP) then resumed K_ERR_TIMEDOUT x else x.

Definition fire_timeout t k : kst :=
  match k_task_timeout_callback t k with Ok k' => k' | Panic _ => k end.

Lemma callback_ok k t x :
  kinv k → tasks k !! t = Some x →
  k_task_timeout_callback t k = Ok (fire_timeout t k) ∧ kinv (fire_timeout t k) ∧
  quiet_step k (fire_timeout t k) ∧ tasks (fire_timeout t k) = <[t := timed_out x]> (tasks k).
Proof.
  intros Hk Hx. unfold fire_timeout, k_task_timeout_callback, task_at, timed_out.
  rewrite Hx. cbn [deref mbind outcome_bind].
  destruct (decide (state x = SLEEP)) as [E|E].
  - rewrite E. destruct (resume_inv k t x K_ERR_TIMEDOUT Hk Hx) as (k' & -> & M & Hk'); [by rewrite E|].
    split_and!; [done|done| |apply (mv_tasks _ _ _ _ M)]. eapply resume_quiet; try done. by rewrite E.
  - assert (match state x with SLEEP => _k_sched_resume t K_ERR_TIMEDOUT k | _ => Ok k end = Ok k) as -> by (by destruct (state x)).
    split_and!; [done|done|apply quiet_refl|by rewrite insert_id].
Qed.

Lemma obs_alive k k' t : (∀ s, obs k' s = obs k s) → is_Some (tasks k !! t) → is_Some (tasks k' !! t).
Proof. intros H [x Hx]. specialize (H t). unfold obs in H. rewrite Hx in H. by destruct (tasks k' !! t). Qed.

Lemma fire_all_ok (l : list tid) : ∀ k, kinv k → NoDup l → (∀ t, t ∈ l → is_Some (tasks k !! t)) →
  let k' := Timeout.fire_all fire_timeout l k in
  kinv k' ∧ quiet_step k k' ∧
  ∀ s x, tasks k !! s = Some x → tasks k' !! s = Some (if decide (s ∈ l) then timed_out x else x).
Proof.
  induction l as [|t l IH]; intros k Hk Hnd Hl; simpl.
  { split_and!; [done|apply quiet_refl|]. done. }
  apply NoDup_cons in Hnd as [Hn Hnd]. destruct (Hl t) as [x Hx]; [by constructor|].
  destruct (callback_ok k t x Hk Hx) as (_ & Hk1 & Q1 & T1).
  destruct (IH (fire_timeout t k) Hk1 Hnd) as (Hk2 & Q2 & T2).
  { intros s Hs. eapply obs_alive; [apply Q1|]. apply Hl. by apply elem_of_cons; right. }
  split_and!; [done|by eapply quiet_trans|]. intros s y Hy. destruct (decide (s = t)) as [->|Hne].
  - rewrite (T2 t (timed_out x)) by (by rewrite T1, lookup_insert_eq). simplify_eq.
    rewrite decide_False by done. by rewrite decide_True by constructor.
  - rewrite (T2 s y) by (by rewrite T1, lookup_insert_ne). f_equal.
    repeat case_decide; try done; rewrite elem_of_cons in *; naive_solver.
Qed.

(** Advancing time wakes exactly the sleepers whose deadline has passed and
    keeps the other deadlines. *)
Lemma adjust_timeouts_ok k delta :
  kinv k → 0 ≤ delta →
  let ds := Timeout.deadlines_from 0 (timeouts k) in
  ∃ k', _k_sched_adjust_timeouts delta k = Ok k' ∧ kinv k' ∧
    (∀ s, obs k' s = obs k s) ∧ mutexes k' = mutexes k ∧ cpus k' = cpus k ∧
    Timeout.deadlines_from 0 (timeouts k') = Timeout.pending delta ds ∧
    (∀ s, s ∈ ids k' → s ∈ ids k) ∧
    ∀ s x, tasks k !! s = Some x →
      tasks k' !! s = Some (if decide (s ∈ Timeout.expired delta ds) then timed_out x else x).
Proof.
  intros Hk Hd ds. unfold _k_sched_adjust_timeouts.
  pose proof (c_timeouts _ _ (proj2 Hk)) as Hok.
  rewrite (Timeout.adjust_ext _ fire_timeout (λ a, kinv a ∧ ∀ s, obs a s = obs k s) (λ t, is_Some (tasks k !! t))).
  - destruct (Timeout.adjust_spec fire_timeout (timeouts k) k delta Hd Hok) as (d & -> & Hdd & Hokd).
    cbn [mbind outcome_bind].
    assert (∀ i, i ∈ Timeout.expired delta ds → i ∈ ids k) as Hexp.
    { intros i. unfold Timeout.expired, ids. rewrite <-(Timeout.deadlines_ids 0). rewrite !list_elem_of_fmap.
      setoid_rewrite list_elem_of_filter. naive_solver. }
    destruct (fire_all_ok (Timeout.expired delta ds) k Hk) as (Hk1 & Q1 & T1).
    { unfold Timeout.expired. destruct Hok as (_ & _ & Hnd). rewrite <-(Timeout.deadlines_ids 0) in Hnd.
      apply NoDup_fmap_fst_filter, Hnd. }
    { intros t Ht%Hexp. destruct (c_ids _ _ (proj2 Hk) t) as (x & ? & _); [done..|]. eauto. }
    assert (∀ s, s ∈ Timeout.te_id <$> d → s ∈ ids k) as Hsub.
    { intros s. unfold ids. rewrite <-!(Timeout.deadlines_ids 0). fold (Timeout.deadlines_from 0 d).
      change (Timeout.deadlines_from 0 d) with (Timeout.deadlines d). rewrite Hdd.
      unfold Timeout.pending. rewrite !list_elem_of_fmap.
      intros (z & -> & (z' & -> & [_ Hz]%list_elem_of_filter)%list_elem_of_fmap).
      exists z'. split; [by destruct z'|done]. }
    eexists. split; [done|]. split_and!; simpl; try apply Q1; try done.
    split; [apply kwf_timeouts, Hk1|]. destruct Hk1 as [_ Hc1]. split; try apply Hc1; [done|].
    simpl. intros s _ Hin. apply (c_ids _ _ Hc1); [done|]. rewrite (qs_timeouts _ _ Q1). by apply Hsub.
  - intros i q a [Ha Ho] Hi. destruct (obs_alive k a i Ho Hi) as [x Hx].
    destruct (callback_ok a i x Ha Hx) as (E & Ha' & Q & _). unfold sched_callback, Timeout.quiet. simpl.
    rewrite E. simpl. split; [done|]. split; [done|]. intros s. by rewrite (qs_obs _ _ Q).
  - done.
  - intros i Hi. destruct (c_ids _ _ (proj2 Hk) i) as (x & ? & _); [done..|]. eauto.
Qed.

Lemma wakeup_one_ok q result k :
  (∀ p, q ≠ QRun p) → kinv k →
  ∃ r k', _k_sched_wakeup_one_locked q result k = Ok (r, k') ∧ kinv k' ∧ quiet_step k k' ∧
    match queues k q with
    | [] => r = None ∧ k' = k
    | t :: l => r = Some t ∧ queues k' q = l ∧
        ∃ x, tasks k !! t = Some x ∧ sleeping (state x) = true ∧ moved k t (resumed result x) k'
    end.
Proof.
  intros Hq Hk. unfold _k_sched_wakeup_one_locked. destruct (queues k q) as [|t l] eqn:E.
  { exists None, k. split_and!; try done. }
  destruct (waiter_sleeps _ _ k q t (proj1 Hk) Hq) as (x & Hx & Hs); [rewrite E; by constructor|].
  destruct (resume_inv k t x result Hk Hx Hs) as (k1 & -> & M & Hk1). cbn [mbind outcome_bind].
  exists (Some t), k1. split_and!; [done|done|by eapply resume_quiet|done| |eauto].
  eapply resume_head; try done. apply (kwf_links _ _ _ (proj1 Hk)).
Qed.

End Sched.
