(* ===== verification/Mutex.v ===== *)
(** Mutexes with priority inheritance (kernel/core/mutex.c).

    The functions take the current task as an argument.  [_k_mutex_timed_lock]
    is given as the loop body up to the context switch and from it. *)

From S2P Require Import Prelude Timeout Sched.
Import Sched.
#[local] Open Scope Z_scope.

Module Mutex.

Implicit Types (k : kst) (t o : tid) (m : mid) (p : Z) (q : qid) (c : cid) (x : KTask).

Definition k_mutex_init m k : kst :=
  upd_mutexes <[m := MkMutex None K_TASK_MAX_PRIORITIES]> (set_queue (QMutex m) [] k).

Definition k_mutex_fini m k : outcome kst :=
  mx ← mutex_at m k;
  _ ← k_assert (bool_decide (owner mx = None)) "Assertion failed: mutex->owner == K_NULL";
  _k_sched_wakeup_all_locked (QMutex m) K_ERR_INVAL k.

Definition k_mutex_try_lock_locked t m k : outcome (Z * kst) :=
  mx ← mutex_at m k;
  match owner mx with
  | Some o => Ok (if decide (o = t) then K_ERR_DEADLK else K_ERR_AGAIN, k)
  | None =>
      x ← task_at t k;
      _ ← k_assert (priority x <=? m_priority mx) "Assertion failed: current->priority <= mutex->priority";
      let k := upd_mutexes <[m := MkMutex (Some t) (m_priority mx)]> k in
      Ok (0, upd_task t (set_owned (m :: owned_mutexes x)) k)
  end.

(** One iteration of the loop of [_k_mutex_timed_lock] for the task on [c]:
    either the loop ends with a result, or the task has gone to sleep. *)
Definition mutex_lock_step c t m (timeout : Z) k : outcome (option Z * kst) :=
  '(r, k) ← k_mutex_try_lock_locked t m k;
  if r =? 0 then Ok (Some 0, k)
  else if negb (r =? K_ERR_AGAIN) then Ok (Some r, k)
  else
    x ← task_at t k;
    k ← _k_mutex_may_raise_priority m (priority x) k;
    k ← sleep_begin c (QMutex m) SLEEP timeout (upd_task t (set_sleep_on (Some m)) k);
    Ok (None, k).

(** The rest of the iteration, once the task runs again. *)
Definition mutex_lock_resume c t m (timeout : Z) k : outcome (option Z * kst) :=
  '(r, k) ← sleep_end t timeout k;
  let k := upd_task t (set_sleep_on None) k in
  if r <? 0 then Ok (Some r, k) else mutex_lock_step c t m timeout k.

(** [K_LIST_FOREACH (mutex_list, link)], with the running [max_priority]. *)
Fixpoint highest_from (max_priority : Z) (ms : gmap mid KMutex) (l : list mid) : outcome Z :=
  match l with
  | [] => Ok max_priority
  | m :: l =>
      mx ← deref (ms !! m) "bad mutex";
      highest_from (if m_priority mx <? max_priority then m_priority mx else max_priority) ms l
  end.
Definition _k_mutex_get_highest_priority (ms : gmap mid KMutex) (l : list mid) : outcome Z :=
  highest_from K_TASK_MAX_PRIORITIES ms l.

Definition _k_mutex_recalc_priority m k : outcome kst :=
  mx ← mutex_at m k;
  match queues k (QMutex m) with
  | [] => Ok (upd_mutexes <[m := MkMutex (owner mx) K_TASK_MAX_PRIORITIES]> k)
  | t :: _ => x ← task_at t k; Ok (upd_mutexes <[m := MkMutex (owner mx) (priority x)]> k)
  end.

Definition _k_sched_update_effective_priority t k : outcome kst :=
  x ← task_at t k;
  h ← _k_mutex_get_highest_priority (mutexes k) (owned_mutexes x);
  Ok (upd_task t (set_priority (if h <? saved_priority x then h else saved_priority x)) k).

(** [t] is the current task; [k_list_remove (&mutex->link)] takes the mutex
    off its owner's list. *)
Definition _k_mutex_unlock t m k : outcome kst :=
  mx ← mutex_at m k;
  let k := match owner mx with
           | Some o => upd_task o (λ x, set_owned (filter (.≠ m) (owned_mutexes x)) x) k
           | None => k
           end in
  let k := upd_mutexes <[m := MkMutex None (m_priority mx)]> k in
  '(_, k) ← _k_sched_wakeup_one_locked (QMutex m) 0 k;
  k ← _k_mutex_recalc_priority m k;
  _k_sched_update_effective_priority t k.

Definition k_mutex_holding t m k : outcome bool :=
  mx ← mutex_at m k; Ok (bool_decide (owner mx = Some t)).

Definition k_mutex_unlock t m k : outcome kst :=
  b ← k_mutex_holding t m k;
  _ ← k_assert b "Assertion failed: k_mutex_holding(mutex)";
  _k_mutex_unlock t m k.

(** *** Locking *)

Definition prio_assert : string := "Assertion failed: current->priority <= mutex->priority".

Lemma eff_mpr ms ms' x : (∀ m, mpr ms' m = mpr ms m) → eff ms' x = eff ms x.
Proof. intros H. unfold eff. induction (owned_mutexes x) as [|m l IH]; [done|]. simpl. by rewrite H, IH. Qed.

Lemma mpr_owner ms m mx (ow : option tid) m' :
  ms !! m = Some mx → mpr (<[m := MkMutex ow (m_priority mx)]> ms) m' = mpr ms m'.
Proof.
  intros Hm. rewrite mpr_insert. case_decide; [|done]. subst. unfold mpr. by rewrite Hm.
Qed.

Lemma placed_mono ms ms' x :
  (∀ m, is_Some (ms !! m) → is_Some (ms' !! m)) → placed ms x → placed ms' x.
Proof.
  intros H. unfold placed. destruct (state x); try done; (destruct (sleep_on_mutex x); [|done]);
    intros [? ?]; auto.
Qed.

(** The state in which [t] has taken the free mutex [m]. *)
Definition taken t m mx x k : kst :=
  upd_task t (set_owned (m :: owned_mutexes x))
    (upd_mutexes <[m := MkMutex (Some t) (m_priority mx)]> k).

Lemma kwf_taken k t m mx x :
  kwf None None k → tasks k !! t = Some x → mutexes k !! m = Some mx → owner mx = None →
  priority x ≤ m_priority mx → kwf None None (taken t m mx x k).
Proof.
  intros Hk Hx Hm Ho Hp.
  assert (∀ s y, m ∈ owned_mutexes y → tasks k !! s = Some y → False) as Hfree.
  { intros s y Hin Hy. assert (owner mx = Some s) as E by (apply (w_owner _ _ _ Hk _ _ _ Hm); eauto). congruence. }
  assert (∀ s y, tasks (taken t m mx x k) !! s = Some y →
    (s = t ∧ y = set_owned (m :: owned_mutexes x) x) ∨ (s ≠ t ∧ tasks k !! s = Some y)) as Hlook.
  { intros s y. simpl. rewrite lookup_alter. case_decide; subst.
    - rewrite Hx. simpl. naive_solver.
    - auto. }
  assert (∀ s, pr (taken t m mx x k) s = pr k s) as Hpr.
  { intros s. unfold pr. simpl. rewrite lookup_alter. case_decide; [|done]. subst. by rewrite Hx. }
  assert (∀ m', is_Some (mutexes k !! m') → is_Some (mutexes (taken t m mx x k) !! m')) as Hdom.
  { intros m' ?. simpl. apply lookup_insert_is_Some'. by right. }
  split.
  - intros q s. change (queues (taken t m mx x k) q) with (queues k q). rewrite (w_link _ _ _ Hk). split.
    + intros (y & Hy & Hl). simpl. rewrite lookup_alter. case_decide; subst; [|eauto].
      rewrite Hy. simpl. eexists. split; [done|]. done.
    + intros (y & [[-> ->]|[_ Hy]]%Hlook & Hl); eauto.
  - apply Hk.
  - intros s y [[-> ->]|[_ Hy]]%Hlook; (eapply placed_mono; [exact Hdom|]);
      [apply (w_placed _ _ _ Hk t x Hx)|by apply (w_placed _ _ _ Hk s)].
  - intros s y [[-> ->]|[_ Hy]]%Hlook; [apply (w_prio _ _ _ Hk t x Hx)|by apply (w_prio _ _ _ Hk s)].
  - intros m'. apply (sorted_ext k); [done|apply Hk].
  - intros m' mx'. simpl. rewrite lookup_insert. case_decide; [|apply Hk].
    intros [= <-]. simpl. by apply (w_mprio _ _ _ Hk m).
  - intros m' mx' s Hm'. simpl in Hm'. rewrite lookup_insert in Hm'. case_decide.
    + simplify_eq/=. split.
      * intros [= <-]. eexists. rewrite lookup_alter_eq, Hx. split; [done|]. simpl. constructor.
      * intros (y & [[-> _]|[_ Hy]]%Hlook & Hin); [done|]. by destruct (Hfree s y).
    + rewrite (w_owner _ _ _ Hk _ _ _ Hm'). simpl. split.
      * intros (y & Hy & Hin). rewrite lookup_alter. case_decide; subst; [|eauto].
        rewrite Hx. eexists. split; [done|]. simplify_eq. simpl. by apply elem_of_cons; right.
      * intros (y & [[-> ->]|[_ Hy]]%Hlook & Hin); [|eauto]. exists x. split; [done|].
        simpl in Hin. apply elem_of_cons in Hin as [?|?]; [congruence|done].
  - intros s y [[-> ->]|[_ Hy]]%Hlook; simpl.
    + destruct (w_owned _ _ _ Hk t x Hx) as [Hnd Hex]. split.
      * constructor; [|done]. intros Hin. by destruct (Hfree t x).
      * intros m' [->|?]%elem_of_cons; [|by apply Hdom, Hex]. rewrite lookup_insert_eq. eauto.
    + destruct (w_owned _ _ _ Hk s y Hy) as [Hnd Hex]. split; [done|]. intros m' ?. by apply Hdom, Hex.
  - intros m' mx' s _ Hm' Hs. rewrite Hpr. simpl in Hm'. rewrite lookup_insert in Hm'. case_decide.
    + simplify_eq/=. by apply (w_bound _ _ _ Hk m' mx).
    + by apply (w_bound _ _ _ Hk m' mx').
  - intros s y _ [[-> ->]|[_ Hy]]%Hlook; simpl.
    + transitivity (Z.min (m_priority mx) (eff (<[m:=MkMutex (Some t) (m_priority mx)]> (mutexes k)) x)).
      * rewrite (eff_mpr (mutexes k)) by (intros; by apply mpr_owner).
        rewrite <-(w_eff _ _ _ Hk t x) by done. lia.
      * unfold eff. simpl. by rewrite mpr_insert, decide_True by done.
    + rewrite (w_eff _ _ _ Hk s y) by done. symmetry. apply eff_mpr. intros; by apply mpr_owner.
Qed.

Lemma quiet_taken k t m mx x :
  tasks k !! t = Some x → (∀ s, obs (taken t m mx x k) s = obs k s).
Proof.
  intros Hx s. unfold obs. simpl. rewrite lookup_alter. case_decide; [|done]. subst. by rewrite Hx.
Qed.

Lemma cwf_taken e k t m mx x : tasks k !! t = Some x → cwf e k → cwf e (taken t m mx x k).
Proof.
  intros Hx. apply cwf_frame; try done; intros s y; simpl; rewrite lookup_alter; case_decide; subst; intros Hy.
  - rewrite Hy. eexists. split; [done|]. by split.
  - exists y. by repeat split.
  - rewrite Hx in Hy. simplify_eq/=. exists x. by repeat split.
  - exists y. by repeat split.
Qed.

(** [k_mutex_try_lock_locked]: a free mutex is taken, unless the assertion on
    priorities fires; a busy one is left alone. *)
Lemma try_lock_ok k t m mx x :
  kinv k → tasks k !! t = Some x → mutexes k !! m = Some mx →
  wp (k_mutex_try_lock_locked t m k)
    (λ w, w = prio_assert ∧ owner mx = None ∧ m_priority mx < priority x)
    (λ rk, match owner mx with
           | Some o => rk = (if decide (o = t) then K_ERR_DEADLK else K_ERR_AGAIN, k)
           | None => rk = (0, taken t m mx x k) ∧ kinv (taken t m mx x k)
           end).
Proof.
  intros [Hk Hc] Hx Hm. unfold k_mutex_try_lock_locked, mutex_at. rewrite Hm. cbn [deref mbind outcome_bind].
  destruct (owner mx) as [o|] eqn:Ho; [done|].
  unfold task_at. rewrite Hx. cbn [deref mbind outcome_bind]. apply wp_bind, wp_assert.
  - intros ?%Z.leb_gt. done.
  - intros Hp%Z.leb_le. cbn [wp]. split; [done|].
    split; [by apply kwf_taken|by apply cwf_taken].
Qed.

(** *** Unlocking *)

(** The state in which [t] has let go of [m]. *)
Definition released t m mx k : kst :=
  upd_mutexes <[m := MkMutex None (m_priority mx)]>
    (upd_task t (λ x, set_owned (filter (.≠ m) (owned_mutexes x)) x) k).

Lemma kwf_released k t m mx :
  kwf None None k → mutexes k !! m = Some mx → owner mx = Some t →
  kwf (Some t) None (released t m mx k).
Proof.
  intros Hk Hm Ho.
  destruct (proj1 (w_owner _ _ _ Hk _ _ _ Hm) Ho) as (x & Hx & Hin).
  assert (∀ s y, tasks (released t m mx k) !! s = Some y →
    (s = t ∧ y = set_owned (filter (.≠ m) (owned_mutexes x)) x) ∨ (s ≠ t ∧ tasks k !! s = Some y)) as Hlook.
  { intros s y. simpl. rewrite lookup_alter. case_decide; subst.
    - rewrite Hx. simpl. naive_solver.
    - auto. }
  assert (∀ s, pr (released t m mx k) s = pr k s) as Hpr.
  { intros s. unfold pr. simpl. rewrite lookup_alter. case_decide; [|done]. subst. by rewrite Hx. }
  assert (∀ m', is_Some (mutexes k !! m') → is_Some (mutexes (released t m mx k) !! m')) as Hdom.
  { intros m' ?. simpl. apply lookup_insert_is_Some'. by right. }
  split.
  - intros q s. change (queues (released t m mx k) q) with (queues k q). rewrite (w_link _ _ _ Hk). split.
    + intros (y & Hy & Hl). simpl. rewrite lookup_alter. case_decide; subst; [|eauto].
      rewrite Hy. simpl. eexists. split; [done|]. done.
    + intros (y & [[-> ->]|[_ Hy]]%Hlook & Hl); eauto.
  - apply Hk.
  - intros s y [[-> ->]|[_ Hy]]%Hlook; (eapply placed_mono; [exact Hdom|]);
      [apply (w_placed _ _ _ Hk t x Hx)|by apply (w_placed _ _ _ Hk s)].
  - intros s y [[-> ->]|[_ Hy]]%Hlook; [apply (w_prio _ _ _ Hk t x Hx)|by apply (w_prio _ _ _ Hk s)].
  - intros m'. apply (sorted_ext k); [done|apply Hk].
  - intros m' mx'. simpl. rewrite lookup_insert. case_decide; [|apply Hk].
    intros [= <-]. simpl. by apply (w_mprio _ _ _ Hk m).
  - intros m' mx' s Hm'. simpl in Hm'. rewrite lookup_insert in Hm'. case_decide.
    + simplify_eq/=. split; [done|]. intros (y & [[-> ->]|[Hne Hy]]%Hlook & Hin').
      * simpl in Hin'. apply list_elem_of_filter in Hin' as [? _]. done.
      * assert (owner mx = Some s) by (apply (w_owner _ _ _ Hk _ _ _ Hm); eauto). congruence.
    + rewrite (w_owner _ _ _ Hk _ _ _ Hm'). simpl. split.
      * intros (y & Hy & Hin'). rewrite lookup_alter. case_decide; subst; [|eauto].
        rewrite Hx. eexists. split; [done|]. simplify_eq. simpl. by apply list_elem_of_filter.
      * intros (y & [[-> ->]|[_ Hy]]%Hlook & Hin'); [|eauto]. exists x. split; [done|].
        simpl in Hin'. by apply list_elem_of_filter in Hin' as [_ ?].
  - intros s y [[-> ->]|[_ Hy]]%Hlook; simpl.
    + destruct (w_owned _ _ _ Hk t x Hx) as [Hnd Hex]. split; [by apply NoDup_filter|].
      intros m' [_ ?]%list_elem_of_filter. by apply Hdom, Hex.
    + destruct (w_owned _ _ _ Hk s y Hy) as [Hnd Hex]. split; [done|]. intros m' ?. by apply Hdom, Hex.
  - intros m' mx' s _ Hm' Hs. rewrite Hpr. simpl in Hm'. rewrite lookup_insert in Hm'. case_decide.
    + simplify_eq/=. by apply (w_bound _ _ _ Hk m' mx).
    + by apply (w_bound _ _ _ Hk m' mx').
  - intros s y Hne [[-> ->]|[_ Hy]]%Hlook; simpl; [done|].
    rewrite (w_eff _ _ _ Hk s y) by done. symmetry. apply eff_mpr. intros; by apply mpr_owner.
Qed.

(** Setting the priority of a mutex nobody owns. *)
Lemma kwf_set_unowned e k m mx p :
  kwf e None k → mutexes k !! m = Some mx → owner mx = None → 0 ≤ p ≤ K_TASK_MAX_PRIORITIES →
  (∀ s, s ∈ queues k (QMutex m) → p ≤ pr k s) →
  kwf e None (upd_mutexes <[m := MkMutex (owner mx) p]> k).
Proof.
  intros Hk Hm Ho Hp Hq.
  assert (∀ m', is_Some (mutexes k !! m') → is_Some (<[m := MkMutex (owner mx) p]> (mutexes k) !! m')) as Hdom.
  { intros m' ?. apply lookup_insert_is_Some'. by right. }
  split; simpl; try apply Hk.
  - intros t x Hx. eapply placed_mono; [exact Hdom|]. by apply (w_placed _ _ _ Hk t).
  - intros m' mx'. rewrite lookup_insert. case_decide; [intros; simplify_eq/=; lia|apply Hk].
  - intros m' mx' t. rewrite lookup_insert. case_decide; [|apply Hk]. intros; simplify_eq/=. by apply Hk.
  - intros t x Hx. destruct (w_owned _ _ _ Hk _ _ Hx) as [? Hex]. split; [done|]. auto.
  - intros m' mx' t _. rewrite lookup_insert. change (pr (upd_mutexes _ k) t) with (pr k t). case_decide.
    + intros ? Ht. simplify_eq/=. auto.
    + intros Hm' Ht. by apply (w_bound _ _ _ Hk m' mx').
  - intros t x Hne Hx. rewrite (w_eff _ _ _ Hk t x) by done. symmetry. apply eff_notin.
    intros Hin. assert (owner mx = Some t) by (apply (w_owner _ _ _ Hk _ _ _ Hm); eauto). congruence.
Qed.

Lemma highest_from_ok ms l r :
  (∀ m, m ∈ l → is_Some (ms !! m)) →
  highest_from r ms l = Ok (foldr (λ m a, Z.min (mpr ms m) a) r l).
Proof.
  revert r. induction l as [|m l IH]; intros r Hl; cbn [highest_from]; [done|].
  destruct (Hl m) as [mx Hm]; [by constructor|]. rewrite Hm. cbn [deref mbind outcome_bind].
  rewrite IH by (intros; apply Hl; by apply elem_of_cons; right). f_equal. simpl.
  assert (mpr ms m = m_priority mx) as -> by (unfold mpr; by rewrite Hm).
  clear. revert r. induction l as [|a l IHl]; intros r; simpl.
  - destruct (Z.ltb_spec (m_priority mx) r); lia.
  - rewrite IHl. lia.
Qed.

Lemma foldr_min_init (f : mid → Z) l a b :
  foldr (λ m r, Z.min (f m) r) (Z.min a b) l = Z.min (foldr (λ m r, Z.min (f m) r) a l) b.
Proof. induction l as [|m l IH]; simpl; [done|]. rewrite IH. lia. Qed.

Lemma eff_range ms x :
  (∀ m mx, ms !! m = Some mx → 0 ≤ m_priority mx) → 0 ≤ saved_priority x → 0 ≤ eff ms x ≤ saved_priority x.
Proof.
  intros Hm Hs. unfold eff. induction (owned_mutexes x) as [|m l IH]; simpl; [lia|].
  assert (0 ≤ mpr ms m); [|lia]. unfold mpr. destruct (ms !! m) eqn:E; [by eapply Hm|done].
Qed.

(** [_k_sched_update_effective_priority] gives the current task the priority
    it should have. *)
Lemma update_effective_ok k t x :
  kwf (Some t) None k → tasks k !! t = Some x → state x = RUNNING →
  ∃ k', _k_sched_update_effective_priority t k = Ok k' ∧
    moved k t (set_priority (eff (mutexes k) x) x) k' ∧ kwf None None k'.
Proof.
  intros Hk Hx Hs. destruct (w_owned _ _ _ Hk t x Hx) as [_ Hex].
  destruct (w_prio _ _ _ Hk t x Hx) as [_ [Hp1 Hp2]].
  pose proof (running_unlinked _ _ _ _ _ Hk Hx Hs) as Hl.
  unfold _k_sched_update_effective_priority, task_at. rewrite Hx. cbn [deref mbind outcome_bind].
  unfold _k_mutex_get_highest_priority. rewrite highest_from_ok by done. cbn [mbind outcome_bind].
  set (h := foldr (λ m a, Z.min (mpr (mutexes k) m) a) K_TASK_MAX_PRIORITIES (owned_mutexes x)).
  assert (eff (mutexes k) x = Z.min h (saved_priority x)) as Heff.
  { unfold h, eff. rewrite <-(foldr_min_init (mpr (mutexes k))). by rewrite Z.min_r by lia. }
  assert ((if h <? saved_priority x then h else saved_priority x) = eff (mutexes k) x) as ->
    by (destruct (Z.ltb_spec h (saved_priority x)); lia).
  eexists. split; [done|].
  pose proof (moved_update k t x (set_priority (eff (mutexes k) x)) (kwf_links _ _ _ Hk) Hx eq_refl) as M.
  split; [done|]. eapply (kwf_moved (Some t) None k t x); try done; simpl.
  - unfold placed. simpl. by rewrite Hs.
  - pose proof (eff_range (mutexes k) x) as Hr. unfold prio_ok. 
    assert (0 ≤ eff (mutexes k) x ≤ saved_priority x); [|lia]. apply Hr; [|done].
    intros m mx Hm. by apply (w_mprio _ _ _ Hk m mx).
  - rewrite Hl. done.
  - rewrite Hl. done.
  - intros s Hne _. congruence.
Qed.

Lemma released_obs k t m mx s : obs (released t m mx k) s = obs k s.
Proof.
  unfold obs. simpl. rewrite lookup_alter. case_decide; [|done]. subst. by destruct (tasks k !! _).
Qed.

Lemma cwf_obs e k k' :
  cpus k' = cpus k → timeouts k' = timeouts k → (∀ s, obs k' s = obs k s) → cwf e k → cwf e k'.
Proof.
  intros Hc Hd Ho.
  assert (∀ s a b, kind s = a → kind b = a → (b = RUNNING ↔ s = RUNNING) ∧ live b = live s) as Hkind
    by (intros [] ? [] <-; simpl; intros; try discriminate; done).
  apply cwf_frame; try done; intros s y Hy; specialize (Ho s); unfold obs in Ho; rewrite Hy in Ho.
  - destruct (tasks k' !! s) as [y'|]; [|done]. simplify_eq/=. exists y'. split; [done|].
    by eapply Hkind.
  - destruct (tasks k !! s) as [y'|]; [|done]. simplify_eq/=. exists y'. split; [done|].
    split; [by eapply Hkind|]. congruence.
Qed.

(** The first waiter, if any, is made ready; [t] stays exempt. *)
Lemma unlock_wake k t m :
  kwf (Some t) None k → cwf None k →
  ∃ r k', _k_sched_wakeup_one_locked (QMutex m) 0 k = Ok (r, k') ∧ kwf (Some t) None k' ∧
    cwf None k' ∧ quiet_step k k' ∧
    match queues k (QMutex m) with
    | [] => k' = k
    | w :: l => queues k' (QMutex m) = l ∧
        ∃ x, tasks k !! w = Some x ∧ sleeping (state x) = true ∧ moved k w (resumed 0 x) k'
    end.
Proof.
  intros Hk Hc. unfold _k_sched_wakeup_one_locked. destruct (queues k (QMutex m)) as [|w l] eqn:E.
  { exists None, k. by split_and!. }
  destruct (waiter_sleeps _ _ k (QMutex m) w Hk ltac:(done)) as (x & Hx & Hs); [rewrite E; by constructor|].
  destruct (resume_ok _ _ k w x 0 Hk Hx Hs) as (k1 & -> & M & Hk1). cbn [mbind outcome_bind].
  pose proof (resume_quiet _ _ _ _ _ Hx Hs M) as Q.
  exists (Some w), k1. split_and!; [done|done| |done| |eauto].
  - apply (cwf_obs None k); [apply Q..|done].
  - eapply resume_head; try done. by eapply kwf_links.
Qed.

Lemma recalc_ok k t m mx :
  kwf (Some t) None k → cwf None k → mutexes k !! m = Some mx → owner mx = None →
  ∃ p, _k_mutex_recalc_priority m k = Ok (upd_mutexes <[m := MkMutex None p]> k) ∧
    kwf (Some t) None (upd_mutexes <[m := MkMutex None p]> k) ∧
    match queues k (QMutex m) with [] => p = K_TASK_MAX_PRIORITIES | w :: _ => p = pr k w end.
Proof.
  intros Hk Hc Hm Ho. unfold _k_mutex_recalc_priority, mutex_at. rewrite Hm. cbn [deref mbind outcome_bind].
  pose proof (w_sorted _ _ _ Hk m) as Hs.
  pose proof (λ p, kwf_set_unowned (Some t) k m mx p Hk Hm Ho) as Hset. rewrite Ho in *.
  destruct (queues k (QMutex m)) as [|w l] eqn:E.
  - exists K_TASK_MAX_PRIORITIES. split_and!; [done| |done]. apply Hset; [done|].
    by intros s ?%elem_of_nil.
  - assert (w ∈ queues k (QMutex m)) as Hin by (rewrite E; by constructor).
    apply (w_link _ _ _ Hk) in Hin as (x & Hx & _). unfold task_at. rewrite Hx. cbn [deref mbind outcome_bind].
    assert (pr k w = priority x) as Hpr by (unfold pr; by rewrite Hx).
    exists (priority x). split_and!; [done| |done]. pose proof (w_prio _ _ _ Hk _ _ Hx) as [[? ?] _].
    apply Hset; [lia|]. apply StronglySorted_inv in Hs as [_ Hs].
    rewrite Forall_forall in Hs. intros s [->|Hin]%elem_of_cons; [lia|]. specialize (Hs s Hin). simpl in Hs. lia.
Qed.

(** What unlocking [m] does: the first waiter becomes ready with result 0, the
    mutex is free. *)
Record unlocked k (t : tid) m k' : Prop := {
  ul_inv : kinv k';
  ul_obs : ∀ s, obs k' s = obs k s;
  ul_cpus : cpus k' = cpus k;
  ul_timeouts : timeouts k' = timeouts k;
  ul_mutex : ∃ p, mutexes k' = <[m := MkMutex None p]> (mutexes k);
  ul_woken : match queues k (QMutex m) with
    | [] => True
    | w :: l => queues k' (QMutex m) = l ∧
        ∃ x, tasks k' !! w = Some x ∧ state x = READY ∧ sleep_result x = 0
    end
}.

Lemma unlock_ok k t m mx x :
  kinv k → tasks k !! t = Some x → state x = RUNNING → mutexes k !! m = Some mx → owner mx = Some t →
  ∃ k', _k_mutex_unlock t m k = Ok k' ∧ unlocked k t m k'.
Proof.
  intros [Hk Hc] Hx Hs Hm Ho. unfold _k_mutex_unlock, mutex_at. rewrite Hm. cbn [deref mbind outcome_bind].
  rewrite Ho. fold (released t m mx k). set (k1 := released t m mx k).
  pose proof (kwf_released _ _ _ _ Hk Hm Ho) as Hk1. fold k1 in Hk1.
  assert (cwf None k1) as Hc1 by (apply (cwf_obs None k); try done; intros; apply released_obs).
  destruct (unlock_wake k1 t m Hk1 Hc1) as (r & k2 & -> & Hk2 & Hc2 & Q2 & Hw). cbn [mbind outcome_bind].
  assert (mutexes k2 !! m = Some (MkMutex None (m_priority mx))) as Hm2.
  { rewrite (qs_mutexes _ _ Q2). simpl. by rewrite lookup_insert_eq. }
  destruct (recalc_ok k2 t m _ Hk2 Hc2 Hm2 eq_refl) as (p & -> & Hk3 & _). cbn [mbind outcome_bind].
  set (k3 := upd_mutexes <[m := MkMutex None p]> k2).
  assert (∃ x3, tasks k3 !! t = Some x3 ∧ state x3 = RUNNING) as (x3 & Hx3 & Hs3).
  { pose proof (qs_obs _ _ Q2 t) as Ho2. unfold k1 in Ho2. rewrite released_obs in Ho2. unfold obs in Ho2. rewrite Hx in Ho2.
    change (tasks k3) with (tasks k2). destruct (tasks k2 !! t) as [x3|]; [|done]. simpl in Ho2.
    exists x3. split; [done|]. rewrite Hs in Ho2. by destruct (state x3). }
  destruct (update_effective_ok k3 t x3 Hk3 Hx3 Hs3) as (k4 & -> & M & Hk4).
  exists k4. split; [done|].
  assert (∀ s, obs k4 s = obs k s) as Hobs.
  { intros s. rewrite (obs_moved _ _ _ _ _ M). rewrite <-(released_obs k t m mx s). fold k1. rewrite <-(qs_obs _ _ Q2 s).
    change (obs k2 s) with (obs k3 s). case_decide; [|done]. subst. unfold obs. by rewrite Hx3. }
  split.
  - split; [done|]. apply (cwf_obs None k); try done.
    + rewrite (mv_cpus _ _ _ _ M). apply Q2.
    + rewrite (mv_timeouts _ _ _ _ M). apply Q2.
  - done.
  - rewrite (mv_cpus _ _ _ _ M). apply Q2.
  - rewrite (mv_timeouts _ _ _ _ M). apply Q2.
  - exists p. rewrite (mv_mutexes _ _ _ _ M). simpl. rewrite (qs_mutexes _ _ Q2). simpl. by rewrite insert_insert_eq.
  - change (queues k1 (QMutex m)) with (queues k (QMutex m)) in Hw.
    destruct (queues k (QMutex m)) as [|w l]; [done|]. destruct Hw as (Hq & xw & Hxw & Hsw & Mw).
    assert (w ≠ t) as Hne.
    { intros ->. change (tasks k1) with (alter (λ x, set_owned (filter (.≠ m) (owned_mutexes x)) x) t (tasks k)) in Hxw.
      rewrite lookup_alter_eq, Hx in Hxw. simplify_eq/=. by rewrite Hs in Hsw. }
    split.
    + rewrite <-Hq. change (queues k2 (QMutex m)) with (queues k3 (QMutex m)).
      pose proof (running_unlinked _ _ _ _ _ Hk3 Hx3 Hs3) as Hl3.
      eapply (moved_queue k3 t x3); [by eapply kwf_links|done|done|by rewrite Hl3|simpl; by rewrite Hl3].
    + exists (resumed 0 xw). rewrite (mv_tasks _ _ _ _ M), lookup_insert_ne by done.
      change (tasks k3) with (tasks k2). by rewrite (moved_lookup _ _ _ _ Mw).
Qed.

(** *** The locking loop *)

(** The checks that can fail while a mutex is being locked. *)
Definition lock_err (w : string) : Prop :=
  no_owner w ∨ w = prio_assert ∨ w = "called from an IRQ context"%string ∨
  w = "Assertion failed: delay > 0"%string.

(** Mutexes are never lost. *)
Definition keeps_mutexes k k' : Prop := ∀ m, is_Some (mutexes k !! m) → is_Some (mutexes k' !! m).

(** The outcome of a turn of the loop: with a result the task still runs, and
    owns the mutex when the result is 0; without one it sleeps on the mutex. *)
Definition locked k c (t : tid) m (timeout : Z) (r : option Z) k' : Prop :=
  kinv k' ∧ keeps_mutexes k k' ∧
  match r with
  | Some r => (∀ s, obs k' s = obs k s) ∧ cpus k' = cpus k ∧ timeouts k' = timeouts k ∧
      (r = 0 → ∃ mx, mutexes k' !! m = Some mx ∧ owner mx = Some t)
  | None => (∀ s, obs k' s = if decide (s = t) then Some (Live, Some m) else obs k s) ∧
      (∃ y, cpus k !! c = Some y ∧ cpus k' = <[c := MkCpu None (lock_count y)]> (cpus k)) ∧
      (∀ s, s ∈ ids k' ↔ s ∈ ids k ∨ (s = t ∧ timeout ≠ 0)) ∧
      t ∈ queues k' (QMutex m) ∧
      ∀ m' mx, mutexes k !! m' = Some mx → ∃ mx', mutexes k' !! m' = Some mx' ∧ owner mx' = owner mx
  end.

Lemma kwf_sleep_on k t x (sl : option mid) :
  kwf None None k → tasks k !! t = Some x → state x = RUNNING →
  kwf None None (upd_task t (set_sleep_on sl) k) ∧
  moved k t (set_sleep_on sl x) (upd_task t (set_sleep_on sl) k).
Proof.
  intros Hk Hx Hs. pose proof (moved_update k t x (set_sleep_on sl) (kwf_links _ _ _ Hk) Hx eq_refl) as M.
  pose proof (running_unlinked _ _ _ _ _ Hk Hx Hs) as Hl.
  split; [|done]. eapply (kwf_moved None None k t x); try done; simpl.
  - unfold placed. simpl. by rewrite Hs.
  - by apply (w_prio _ _ _ Hk t).
  - rewrite Hl. done.
  - rewrite Hl. done.
  - intros _. by apply (eff_kept None None k t x (set_sleep_on sl x)).
Qed.

Lemma lock_step_ok k c y t m timeout x :
  kinv k → cpus k !! c = Some y → cpu_task y = Some t → tasks k !! t = Some x → is_Some (mutexes k !! m) →
  wp (mutex_lock_step c t m timeout k) lock_err (λ rk, locked k c t m timeout rk.1 rk.2).
Proof.
  intros Hinv Hy Hyt Hx [mx Hm]. pose proof Hinv as [Hk Hc].
  destruct (current_ok _ _ _ _ _ Hc Hy Hyt) as (? & ? & Hs). simplify_eq.
  unfold mutex_lock_step. apply wp_bind.
  eapply wp_mono; [by apply (try_lock_ok k t m mx x)|intros w (-> & _); by right; left|].
  intros [r k1]. destruct (owner mx) as [o|] eqn:Ho.
  2: { intros [[= -> ->] Hk1]. simpl. split; [done|]. split.
       { intros m' ?. simpl. apply lookup_insert_is_Some'. by right. }
       split_and!; [by apply quiet_taken|done|done|].
       intros _. simpl. rewrite lookup_insert_eq. eauto. }
  intros [= -> ->]. destruct (decide (o = t)) as [->|Hne].
  { change (K_ERR_DEADLK =? 0) with false. change (K_ERR_DEADLK =? K_ERR_AGAIN) with false.
    cbn [negb wp fst snd]. unfold locked, keeps_mutexes. by split_and!. }
  change (K_ERR_AGAIN =? 0) with false. rewrite Z.eqb_refl. cbn [negb]. unfold task_at. rewrite Hx. cbn [deref mbind outcome_bind].
  apply wp_bind. destruct (w_prio _ _ _ Hk t x Hx) as [Hp _].
  eapply wp_mono; [apply mutex_may_raise_ok; eauto|by left|].
  intros k2 (Hk2 & F & Hmp). destruct (f_tasks _ _ _ F t x Hx) as (x2 & Hx2 & Hsame).
  destruct Hsame as (S1 & _ & _ & _ & S5 & _ & _ & S8).
  assert (priority x2 = priority x) as Hpx by (destruct S8; done).
  assert (cwf None k2) as Hc2 by (by eapply cwf_of_frame).
  assert (state x2 = RUNNING) as Hs2 by congruence.
  destruct (kwf_sleep_on k2 t x2 (Some m) Hk2 Hx2 Hs2) as [Hk3 M3].
  set (k3 := upd_task t (set_sleep_on (Some m)) k2) in *.
  assert (cwf (Some t) k3) as Hc3.
  { pose proof (cwf_exempt k2 t Hc2) as [R I A W L T D]. split; try done; rewrite ?(mv_tasks _ _ _ _ M3).
    - intros c' y' s Hy' Hs'. destruct (R c' y' s Hy' Hs') as (z & Hz & Hzs). destruct (decide (s = t)) as [->|].
      + exists (set_sleep_on (Some m) x2). by rewrite lookup_insert_eq.
      + exists z. by rewrite lookup_insert_ne.
    - intros s z Hz Hzs. destruct (decide (s = t)) as [->|].
      + rewrite lookup_insert_eq in Hz. simplify_eq. by apply (A t x2).
      + rewrite lookup_insert_ne in Hz by done. by apply (A s z).
    - intros s z Hne' Hz. rewrite lookup_insert_ne in Hz by congruence. by apply (W s).
    - intros s Hne' Hin. rewrite lookup_insert_ne by congruence. by apply D. }
  assert (t ∉ ids k3) as Hn3.
  { change (ids k3) with (ids k2). unfold ids. rewrite (f_timeouts _ _ _ F). fold (ids k).
    eapply running_not_queued; [done..|by rewrite Hs]. }
  destruct (f_mutexes _ _ _ F m mx Hm) as (mx2 & Hm2 & _ & _).
  apply wp_bind. eapply wp_mono; [eapply (sleep_begin_ok k3 c y t (set_sleep_on (Some m) x2)); try done| |].
  - change (cpus k3) with (cpus k2). by rewrite (f_cpus _ _ _ F).
  - by rewrite (moved_lookup _ _ _ _ M3).
  - simpl. split; [done|]. change (mutexes k3) with (mutexes k2). split; [eauto|]. by rewrite Hpx.
  - intros w [[_ ->]|[_ ->]]; [by right; right; left|by right; right; right].
  - intros k4 (Hk4 & [L1 L2 (y4 & L3 & L4)] & Hids & (l1 & l2 & _ & Hq & _) & _). simpl. split; [done|]. split.
    { intros m' [mx' Hm']. rewrite L2. change (mutexes k3) with (mutexes k2).
      destruct (f_mutexes _ _ _ F m' mx' Hm') as (? & ? & _). eauto. }
    change (cpus k3) with (cpus k2) in *. rewrite (f_cpus _ _ _ F) in *.
    split_and!.
    + intros s. rewrite L1. case_decide; [done|]. rewrite (obs_moved _ _ _ _ _ M3), decide_False by done.
      by eapply obs_frame.
    + exists y4. done.
    + intros s. rewrite Hids. change (ids k3) with (ids k2). unfold ids. by rewrite (f_timeouts _ _ _ F).
    + rewrite Hq. apply elem_of_app. right. by constructor.
    + intros m' mx' Hm'. rewrite L2. change (mutexes k3) with (mutexes k2).
      destruct (f_mutexes _ _ _ F m' mx' Hm') as (? & ? & ? & _). eauto.
Qed.

(** Which outcome a turn has: a free mutex is taken, unless the assertion on
    priorities fires, its owner is told so, and anybody else goes to sleep. *)
Lemma lock_step_cases k t m mx x c timeout :
  tasks k !! t = Some x → mutexes k !! m = Some mx →
  match owner mx with
  | None => mutex_lock_step c t m timeout k = Ok (Some 0, taken t m mx x k) ∧ priority x ≤ m_priority mx ∨
            mutex_lock_step c t m timeout k = Panic prio_assert ∧ m_priority mx < priority x
  | Some o => if decide (o = t) then mutex_lock_step c t m timeout k = Ok (Some K_ERR_DEADLK, k)
              else ∀ r k', mutex_lock_step c t m timeout k = Ok (r, k') → r = None
  end.
Proof.
  intros Hx Hm. unfold mutex_lock_step, k_mutex_try_lock_locked, mutex_at, task_at. rewrite Hm. cbn [deref mbind outcome_bind].
  destruct (owner mx) as [o|].
  - case_decide; [done|]. cbn [mbind outcome_bind]. change (K_ERR_AGAIN =? 0) with false. rewrite Z.eqb_refl. cbn [negb]. intros r k' E. inv_ok. congruence.
  - rewrite Hx. cbn [deref mbind outcome_bind]. destruct (Z.leb_spec (priority x) (m_priority mx)); [by left|by right].
Qed.

(** A task that has been switched to and has left what it slept on. *)
Record woke k (t : tid) k' : Prop := {
  wo_inv : kinv k';
  wo_obs : ∀ s, obs k' s = if decide (s = t) then Some (Runs, None) else obs k s;
  wo_cpus : cpus k' = cpus k;
  wo_mutexes : mutexes k' = mutexes k;
  wo_queues : queues k' = queues k;
  wo_ids : ∀ s, s ∈ ids k' ↔ s ≠ t ∧ s ∈ ids k
}.

Lemma woke_ok k t x timeout :
  kwf None None k → cwf (Some t) k → tasks k !! t = Some x → state x = RUNNING →
  (t ∈ ids k → timeout ≠ 0) →
  ∃ d, sleep_end t timeout k = Ok (sleep_result x, set_timeouts d k) ∧
    woke k t (upd_task t (set_sleep_on None) (set_timeouts d k)) ∧
    (sleep_on_mutex x = None → woke k t (set_timeouts d k)).
Proof.
  intros Hk Hc Hx Hs Hq. destruct (sleep_end_ok k t x timeout Hk Hc Hx Hq) as (d & E & Hk1 & Hc1 & Hd).
  exists d. split; [done|]. set (k1 := set_timeouts d k) in *.
  destruct (kwf_sleep_on k1 t x None Hk1 Hx Hs) as [Hk2 M].
  assert (t ∉ ids k1) as Hn by (intros [? _]%Hd; done).
  assert (∀ s, s ∈ ids k1 ↔ s ≠ t ∧ s ∈ ids k) as Hids by (intros; apply Hd).
  split; [|intros Hsl].
  - split; try done.
    + split; [done|]. eapply (cwf_clear _ t (set_sleep_on None x)); try done.
      * apply (cwf_moved (Some t) k1 t x _ _ Hx M); [|done|done]. by split.
      * by rewrite (moved_lookup _ _ _ _ M).
    + intros s. rewrite (obs_moved _ _ _ _ _ M). simpl. by rewrite Hs.
  - split; try done.
    + split; [done|]. by eapply cwf_clear.
    + intros s. case_decide; [|done]. subst. unfold obs. simpl. rewrite Hx. simpl. by rewrite Hs, Hsl.
Qed.

Lemma lock_resume_ok k c y t m timeout x :
  kwf None None k → cwf (Some t) k → cpus k !! c = Some y → cpu_task y = Some t →
  tasks k !! t = Some x → is_Some (mutexes k !! m) → (t ∈ ids k → timeout ≠ 0) →
  wp (mutex_lock_resume c t m timeout k) lock_err
    (λ rk, ∃ k1, woke k t k1 ∧
       ((rk = (Some (sleep_result x), k1) ∧ sleep_result x < 0) ∨ locked k1 c t m timeout rk.1 rk.2)).
Proof.
  intros Hk Hc Hy Hyt Hx Hm Hq.
  destruct (current_ok _ _ _ _ _ Hc Hy Hyt) as (? & ? & Hs). simplify_eq.
  destruct (woke_ok k t x timeout Hk Hc Hx Hs Hq) as (d & E & W & _).
  unfold mutex_lock_resume. rewrite E. cbn [mbind outcome_bind].
  set (k1 := upd_task t (set_sleep_on None) (set_timeouts d k)) in *.
  destruct (Z.ltb_spec (sleep_result x) 0); cbn [wp].
  { exists k1. auto. }
  eapply wp_mono; [apply (lock_step_ok k1 c y t m timeout (set_sleep_on None x)); try done| |].
  - apply W.
  - simpl. by rewrite lookup_alter_eq, Hx.
  - done.
  - intros rk Hl. exists k1. auto.
Qed.

(** [k_mutex_fini] wakes every waiter of a free mutex. *)
Lemma fini_ok k m mx :
  kinv k → mutexes k !! m = Some mx →
  wp (k_mutex_fini m k)
    (λ w, owner mx ≠ None ∧ w = "Assertion failed: mutex->owner == K_NULL"%string)
    (λ k', kinv k' ∧ quiet_step k k' ∧ queues k' (QMutex m) = []).
Proof.
  intros Hk Hm. unfold k_mutex_fini, mutex_at. rewrite Hm. cbn [deref mbind outcome_bind].
  apply wp_bind, wp_assert; [intros ?%bool_decide_eq_false; done|]. intros _.
  destruct (wakeup_loop_ok (QMutex m) K_ERR_INVAL ltac:(done) _ k Hk eq_refl) as (k' & E & ? & ? & ? & _).
  unfold _k_sched_wakeup_all_locked. rewrite E. done.
Qed.

(** A new mutex. *)
Lemma init_ok k m :
  kinv k → mutexes k !! m = None →
  kinv (k_mutex_init m k) ∧ (∀ s, obs (k_mutex_init m k) s = obs k s).
Proof.
  intros [Hk Hc] Hm. split; [|done].
  assert (queues k (QMutex m) = []) as Hq.
  { destruct (queues k (QMutex m)) as [|t l] eqn:E; [done|].
    assert (t ∈ queues k (QMutex m)) as Hin by (rewrite E; by constructor).
    apply (w_link _ _ _ Hk) in Hin as (x & Hx & Hl).
    pose proof (w_placed _ _ _ Hk t x Hx) as Hpl. unfold placed in Hpl. rewrite Hl in Hpl.
    destruct (state x), (sleep_on_mutex x); try done; try naive_solver.
    all: destruct Hpl as [[= ->] [? ?]]; congruence. }
  assert (∀ q, queues (k_mutex_init m k) q = queues k q) as Hqs.
  { intros q. simpl. case_decide; [by subst|done]. }
  assert (∀ s y, tasks k !! s = Some y → m ∉ owned_mutexes y) as Hno.
  { intros s y Hy Hin. destruct (w_owned _ _ _ Hk s y Hy) as [_ Hex]. destruct (Hex m Hin). congruence. }
  split.
  - split.
    + intros q t. rewrite Hqs. apply Hk.
    + intros q. rewrite Hqs. apply Hk.
    + intros t x Hx. apply (placed_mono (mutexes k)); [|by apply (w_placed _ _ _ Hk t)].
      intros m' ?. simpl. apply lookup_insert_is_Some'. by right.
    + apply Hk.
    + intros m'. rewrite Hqs. apply (sorted_ext k); [done|apply Hk].
    + intros m' mx'. simpl. rewrite lookup_insert. case_decide; [|apply Hk]. intros [= <-]. done.
    + intros m' mx' t. simpl. rewrite lookup_insert. case_decide; [|apply Hk].
      intros [= <-]. simpl. split; [done|]. intros (x & Hx & Hin). subst. by destruct (Hno t x).
    + intros t x Hx. destruct (w_owned _ _ _ Hk t x Hx) as [? Hex]. split; [done|].
      intros m' ?. simpl. apply lookup_insert_is_Some'. right. auto.
    + intros m' mx' t _. rewrite Hqs. simpl. rewrite lookup_insert. case_decide.
      * subst. rewrite Hq. by intros _ ?%elem_of_nil.
      * apply (w_bound _ _ _ Hk). done.
    + intros t x _ Hx. simpl. rewrite eff_notin by (by eapply Hno). by apply (w_eff _ _ _ Hk t).
  - by apply (cwf_obs None k).
Qed.

End Mutex.
