(* ===== verification/Task.v ===== *)
(** Tasks (kernel/core/task.c), the interrupt hooks that reschedule
    (kernel/core/irq.c), wait queues (kernel/core/waitqueue.c) and ticks
    (kernel/core/tick.c). *)

From S2P Require Import Prelude Timeout Sched Mutex.
Import Sched Mutex.
#[local] Open Scope Z_scope.

Module Task.

Implicit Types (k : kst) (t o : tid) (m : mid) (p : Z) (q : qid) (c : cid) (x : KTask).

Definition k_task_create t p k : kst :=
  upd_tasks <[t := MkTask SUSPENDED p p false [] None 0 None]> k.

Definition k_task_resume c t k : outcome (Z * bool * kst) :=
  x ← task_at t k;
  if negb (bool_decide (state x = SUSPENDED)) then Ok (- EINVAL, false, k) else
  _ ← k_assert (bool_decide (link x = None)) "Assertion failed: k_list_is_null(&task->link)";
  k ← _k_sched_enqueue t k;
  '(b, k) ← _k_sched_may_yield c t k;
  Ok (0, b, k).

Definition current c k : outcome tid :=
  y ← cpu_at c k; deref (cpu_task y) "no current task".

Definition k_task_yield c k : outcome kst :=
  t ← current c k;
  k ← _k_sched_enqueue t k;
  _k_sched_yield_locked c k.

Definition k_task_wake t k : outcome kst :=
  x ← task_at t k;
  if bool_decide (sleep_on_mutex x = None) && negb (bool_decide (state x = SLEEP_UNWAKEABLE))
  then _k_sched_resume t (- EINTR) k else Ok k.

(** [_k_timeout_destroy] unlinks the task's timeout entry without adjusting
    the entry that follows. *)
Definition k_task_exit c k : outcome kst :=
  t ← current c k;
  let k := set_timeouts (filter (λ n, Timeout.te_id n ≠ t) (timeouts k)) k in
  _k_sched_yield_locked c (upd_task t (set_state DESTROYED) k).

Definition k_task_suspend c k : outcome kst :=
  t ← current c k;
  _k_sched_yield_locked c (upd_task t (set_state SUSPENDED) k).

Definition k_irq_handler_begin c k : outcome kst :=
  y ← cpu_at c k;
  Ok (upd_cpus <[c := MkCpu (cpu_task y) (lock_count y + 1)]> k).

Definition k_irq_handler_end c k : outcome (bool * kst) :=
  y ← cpu_at c k;
  let count := lock_count y - 1 in
  let k := upd_cpus <[c := MkCpu (cpu_task y) count]> k in
  _ ← k_assert (0 <=? count) "Assertion failed: count >= 0";
  match cpu_task y with
  | Some t =>
      x ← task_at t k;
      if (count =? 0) && reschedule x then
        k ← _k_sched_enqueue t (upd_task t (set_reschedule false) k);
        k ← _k_sched_yield_locked c k;
        Ok (true, k)
      else Ok (false, k)
  | None => Ok (false, k)
  end.

(** *** Lemmas *)

(** A task that does not run changes state without touching CPUs. *)
Lemma cwf_moved_off e k t x x' k' :
  tasks k !! t = Some x → moved k t x' k' → state x ≠ RUNNING → state x' ≠ RUNNING →
  (live (state x) = true → live (state x') = true) →
  (live (state x') = false → sleep_on_mutex x' = None) → cwf e k → cwf e k'.
Proof.
  intros Hx M Hs Hs' Hl Hsl [R I A W L T D].
  split; rewrite ?(mv_cpus _ _ _ _ M), ?(mv_timeouts _ _ _ _ M), ?(mv_tasks _ _ _ _ M); try done.
  - intros c y s Hy Hys. destruct (R c y s Hy Hys) as (z & Hz & Hzs). exists z.
    rewrite lookup_insert_ne; [done|]. intros <-. by simplify_eq.
  - intros s z Hz Hzs. destruct (decide (s = t)) as [->|].
    + rewrite lookup_insert_eq in Hz. by simplify_eq.
    + rewrite lookup_insert_ne in Hz by done. by apply (A s z).
  - intros s z He Hz Hzs. destruct (decide (s = t)) as [->|].
    + rewrite lookup_insert_eq in Hz. simplify_eq. auto.
    + rewrite lookup_insert_ne in Hz by done. by apply (W s z).
  - intros s He Hin. destruct (D s He Hin) as (z & Hz & Hzs). destruct (decide (s = t)) as [->|].
    + exists x'. rewrite lookup_insert_eq. simplify_eq. auto.
    + exists z. by rewrite lookup_insert_ne.
Qed.

Lemma create_ok k t p :
  kinv k → tasks k !! t = None → prio_ok p →
  kinv (k_task_create t p k) ∧
  ∀ s, obs (k_task_create t p k) s = if decide (s = t) then Some (Off, None) else obs k s.
Proof.
  intros [Hk Hc] Ht Hp. split; [|intros s; unfold obs; simpl; rewrite lookup_insert; repeat case_decide; done].
  set (x' := MkTask SUSPENDED p p false [] None 0 None).
  assert (∀ s y, tasks (k_task_create t p k) !! s = Some y → (s = t ∧ y = x') ∨ (s ≠ t ∧ tasks k !! s = Some y)) as Hlook.
  { intros s y. simpl. rewrite lookup_insert. case_decide; naive_solver. }
  assert (∀ s y, tasks k !! s = Some y → tasks (k_task_create t p k) !! s = Some y) as Hback.
  { intros s y Hy. simpl. rewrite lookup_insert_ne; [done|]. congruence. }
  assert (∀ s, is_Some (tasks k !! s) → pr (k_task_create t p k) s = pr k s) as Hpr.
  { intros s [y Hy]. unfold pr. by rewrite (Hback s y Hy), Hy. }
  split; [split|split].
  - intros q s. change (queues (k_task_create t p k) q) with (queues k q). rewrite (w_link _ _ _ Hk). split.
    + intros (y & Hy & Hl). eauto.
    + intros (y & [[-> ->]|[_ Hy]]%Hlook & Hl); [done|eauto].
  - apply Hk.
  - intros s y [[-> ->]|[_ Hy]]%Hlook; [done|by apply (w_placed _ _ _ Hk s)].
  - intros s y [[-> ->]|[_ Hy]]%Hlook; [done|by apply (w_prio _ _ _ Hk s)].
  - intros m. apply (sorted_ext k); [|apply Hk]. intros s Hs. apply Hpr. eapply links_exist; [by eapply kwf_links|done].
  - apply Hk.
  - intros m mx s Hm. rewrite (w_owner _ _ _ Hk _ _ _ Hm). split.
    + intros (y & Hy & Hin). eauto.
    + intros (y & [[-> ->]|[_ Hy]]%Hlook & Hin); [by apply elem_of_nil in Hin|eauto].
  - intros s y [[-> ->]|[_ Hy]]%Hlook; [|by apply (w_owned _ _ _ Hk s)].
    split; [constructor|]. by intros m ?%elem_of_nil.
  - intros m mx s _ Hm Hs. rewrite Hpr by (eapply links_exist; [by eapply kwf_links|done]).
    by apply (w_bound _ _ _ Hk m mx).
  - intros s y _ [[-> ->]|[_ Hy]]%Hlook; [done|by apply (w_eff _ _ _ Hk s)].
  - intros c y s Hy Hys. destruct (c_run _ _ Hc c y s Hy Hys) as (z & ? & ?). eauto.
  - apply Hc.
  - intros s y [[-> ->]|[_ Hy]]%Hlook Hs; [done|by eapply (c_all _ _ Hc)].
  - intros s y He [[-> ->]|[_ Hy]]%Hlook Hs; [done|by eapply (c_awake _ _ Hc)].
  - apply Hc.
  - apply Hc.
  - intros s He Hin. destruct (c_ids _ _ Hc s He Hin) as (z & ? & ?). eauto.
Qed.

(** The current task stops for good or until it is resumed. *)
Lemma stop_ok k c y t x (s : tstate) :
  kinv k → cpus k !! c = Some y → cpu_task y = Some t → tasks k !! t = Some x →
  s = SUSPENDED ∨ s = DESTROYED →
  ∃ k', _k_sched_yield_locked c (upd_task t (set_state s) k) = Ok k' ∧ kinv k' ∧
    left_cpu k c t Off None k' ∧ timeouts k' = timeouts k ∧ queues k' = queues k.
Proof.
  intros [Hk Hc] Hy Hyt Hx Hs. destruct (current_ok _ _ _ _ _ Hc Hy Hyt) as (? & ? & Hr). simplify_eq.
  pose proof (running_unlinked _ _ _ _ _ Hk Hx Hr) as Hl. pose proof (w_prio _ _ _ Hk _ _ Hx) as [Hp _].
  pose proof (c_awake _ _ Hc t x ltac:(done) Hx ltac:(by rewrite Hr)) as Hsl.
  pose proof (moved_update k t x (set_state s) (kwf_links _ _ _ Hk) Hx eq_refl) as M.
  unfold _k_sched_yield_locked, cpu_at. rewrite (mv_cpus _ _ _ _ M), Hy. cbn [deref mbind outcome_bind].
  eexists. split; [done|]. split_and!; [split| |done|done].
  - apply kwf_cpus. eapply (kwf_moved None None k t x); try done; simpl; rewrite ?Hl; try done.
    + unfold placed. simpl. by destruct Hs as [-> | ->].
    + intros _. by apply (eff_kept None None k t x (set_state s x)).
  - assert (t ∉ ids k) as Hn by (eapply running_not_queued; [done..|by rewrite Hr]).
    apply (cwf_leave None k c y t _ (upd_task t (set_state s) k) Hc (or_introl eq_refl) Hy Hyt Hn (mv_tasks _ _ _ _ M) (mv_cpus _ _ _ _ M)); try done.
    + by destruct Hs as [-> | ->].
    + apply Hc.
    + auto.
  - split; simpl; [|done|by exists y].
    intros z. change (obs (upd_cpus _ (upd_task t (set_state s) k)) z) with (obs (upd_task t (set_state s) k) z).
    rewrite (obs_moved _ _ _ _ _ M). simpl. rewrite Hsl. by destruct Hs as [-> | ->].
Qed.

(** What a call may do to the CPU it runs on: nothing, or hand it over. *)
Definition stays_or_yields k c k' (yielded : bool) : Prop :=
  if yielded
  then ∃ t, (∃ y, cpus k !! c = Some y ∧ cpu_task y = Some t) ∧ left_cpu k c t Live None k'
  else (∀ s, obs k' s = obs k s) ∧ cpus k' = cpus k ∧ mutexes k' = mutexes k.

(** Changing only the RESCHEDULE flag. *)
Lemma flag_ok k t x b :
  kinv k → tasks k !! t = Some x →
  kinv (upd_task t (set_reschedule b) k) ∧ ∀ s, obs (upd_task t (set_reschedule b) k) s = obs k s.
Proof.
  intros [Hk Hc] Hx. pose proof (moved_update k t x (set_reschedule b) (kwf_links _ _ _ Hk) Hx eq_refl) as M.
  assert (∀ s, obs (upd_task t (set_reschedule b) k) s = obs k s) as Ho.
  { intros s. rewrite (obs_moved _ _ _ _ _ M). case_decide; [|done]. subst. unfold obs. by rewrite Hx. }
  split; [|done]. split; [|by apply (cwf_obs None k)].
  pose proof (w_prio _ _ _ Hk _ _ Hx) as [Hp _].
  eapply (kwf_moved None None k t x); try done; simpl.
  - apply (w_placed _ _ _ Hk t x Hx).
  - intros m Hl. apply (sorted_ext k); [|apply Hk]. intros s _.
    rewrite (pr_insert k t _ _ s (mv_tasks _ _ _ _ M)). case_decide; [|done]. subst. unfold pr. by rewrite Hx.
  - intros m mx _ Hl Hm.
    assert (t ∈ queues k (QMutex m)) as Hin by (apply (w_link _ _ _ Hk); eauto).
    pose proof (w_bound _ _ _ Hk m mx t ltac:(done) Hm Hin) as Hb. unfold pr in Hb. by rewrite Hx in Hb.
  - intros _. by apply (eff_kept None None k t x (set_reschedule b x)).
Qed.

Lemma may_yield_ok k c y t x :
  kinv k → cpus k !! c = Some y → tasks k !! t = Some x →
  ∃ b k', _k_sched_may_yield c t k = Ok (b, k') ∧ kinv k' ∧ stays_or_yields k c k' b ∧ timeouts k' = timeouts k.
Proof.
  intros Hinv Hy Hx. unfold _k_sched_may_yield, cpu_at. rewrite Hy. cbn [deref mbind outcome_bind].
  destruct (cpu_task y) as [me|] eqn:Hyt; [|by exists false, k].
  destruct (current_ok _ _ _ _ _ (proj2 Hinv) Hy Hyt) as (xme & Hxme & Hs).
  unfold task_at. rewrite Hx, Hxme. cbn [deref mbind outcome_bind].
  destruct (0 <? _k_sched_priority_cmp x xme); [|by exists false, k].
  destruct (0 <? lock_count y).
  { destruct (flag_ok k me xme true Hinv Hxme) as [Hk' Ho]. eexists false, _. split; [done|]. by split_and!. }
  destruct (yield_ok k c y me xme Hinv Hy Hyt Hxme) as (k' & E & Hk' & L & Ht & _).
  apply bind_Ok in E as (k0 & -> & E). cbn [mbind outcome_bind]. rewrite E. cbn [mbind outcome_bind].
  exists true, k'. split_and!; try done. exists me. split; [eauto|done].
Qed.

(** [k_task_resume]: a suspended task becomes ready; others are refused. *)
Lemma task_resume_ok k c y t x :
  kinv k → cpus k !! c = Some y → tasks k !! t = Some x →
  ∃ r b k', k_task_resume c t k = Ok (r, b, k') ∧ kinv k' ∧ timeouts k' = timeouts k ∧
    if decide (state x = SUSPENDED)
    then r = 0 ∧ ∃ k1, stays_or_yields k1 c k' b ∧ kinv k1 ∧ timeouts k1 = timeouts k ∧
      cpus k1 = cpus k ∧ mutexes k1 = mutexes k ∧
      (∀ s, obs k1 s = if decide (s = t) then Some (Live, None) else obs k s)
    else r = - EINVAL ∧ b = false ∧ k' = k.
Proof.
  intros Hinv Hy Hx. pose proof Hinv as [Hk Hc]. unfold k_task_resume, task_at. rewrite Hx. cbn [deref mbind outcome_bind].
  case_bool_decide as Hs; cbn [negb].
  2: { eexists _, _, _. split; [done|]. rewrite decide_False by done. by split_and!. }
  assert (link x = None) as Hl.
  { pose proof (w_placed _ _ _ Hk t x Hx) as Hpl. unfold placed in Hpl. by rewrite Hs in Hpl. }
  rewrite bool_decide_eq_true_2 by done. cbn [k_assert mbind outcome_bind].
  pose proof (w_prio _ _ _ Hk t x Hx) as [Hp _].
  pose proof (c_awake _ _ Hc t x ltac:(done) Hx ltac:(by rewrite Hs)) as Hsl.
  destruct (enqueue_ok k t x (kwf_links _ _ _ Hk) Hx Hl Hp) as (k1 & -> & M & _). cbn [mbind outcome_bind].
  assert (kinv k1) as Hk1.
  { split.
    - eapply (kwf_moved None None k t x); try done. intros _. by eapply eff_kept.
    - eapply (cwf_moved_off None k t x); try done. by rewrite Hs. }
  destruct (may_yield_ok k1 c y t (set_link (Some (QRun (priority x))) (set_state READY x)) Hk1) as (b & k2 & -> & Hk2 & Hy2 & Ht2);
    [by rewrite (mv_cpus _ _ _ _ M)|by apply moved_lookup in M|]. cbn [mbind outcome_bind].
  eexists _, _, _. split; [done|]. rewrite decide_True by done. split_and!; [done| |done|].
  { rewrite Ht2. apply M. }
  exists k1. split_and!; [done|done|apply M..|]. intros s. rewrite (obs_moved _ _ _ _ _ M). simpl. by rewrite Hsl.
Qed.

Lemma wake_ok k t x :
  kinv k → tasks k !! t = Some x →
  ∃ k', k_task_wake t k = Ok k' ∧ kinv k' ∧ quiet_step k k'.
Proof.
  intros Hinv Hx. unfold k_task_wake, task_at. rewrite Hx. cbn [deref mbind outcome_bind].
  destruct (_ && _); [|exists k; split_and!; [done|done|apply quiet_refl]].
  destruct (sleeping (state x)) eqn:Hs.
  - destruct (resume_inv k t x (- EINTR) Hinv Hx Hs) as (k' & -> & M & ?).
    exists k'. split_and!; [done|done|by eapply resume_quiet].
  - rewrite (resume_awake k t x) by done. exists k. split_and!; [done|done|apply quiet_refl].
Qed.

(** The lock count of a CPU. *)
Lemma cwf_lock e k c y n :
  cwf e k → cpus k !! c = Some y → 0 ≤ n → cwf e (upd_cpus <[c := MkCpu (cpu_task y) n]> k).
Proof.
  intros [R I A W L T D] Hy Hn.
  assert (∀ c' y', <[c := MkCpu (cpu_task y) n]> (cpus k) !! c' = Some y' →
    ∃ z, cpus k !! c' = Some z ∧ cpu_task z = cpu_task y' ∧ 0 ≤ lock_count y') as Hlook.
  { intros c' y'. rewrite lookup_insert. case_decide; intros; simplify_eq/=; eauto. }
  split; simpl; try done.
  - intros c' y' t (z & ? & E & _)%Hlook Ht. eapply R; [done|congruence].
  - intros c1 c2 y1 y2 t (z1 & ? & E1 & _)%Hlook H1 (z2 & ? & E2 & _)%Hlook H2.
    eapply (I c1 c2 z1 z2 t); congruence.
  - intros t x Hx Hs. destruct (A t x Hx Hs) as (c' & y' & Hy' & Ht). destruct (decide (c' = c)) as [->|].
    + exists c, (MkCpu (cpu_task y) n). rewrite lookup_insert_eq. simplify_eq/=. done.
    + exists c', y'. by rewrite lookup_insert_ne.
  - intros c' y' (z & _ & _ & ?)%Hlook. done.
Qed.

Lemma irq_begin_ok k c y :
  kinv k → cpus k !! c = Some y → ∃ k', k_irq_handler_begin c k = Ok k' ∧ kinv k' ∧
    (∀ s, obs k' s = obs k s) ∧ mutexes k' = mutexes k ∧ timeouts k' = timeouts k ∧
    cpus k' = <[c := MkCpu (cpu_task y) (lock_count y + 1)]> (cpus k).
Proof.
  intros [Hk Hc] Hy. unfold k_irq_handler_begin, cpu_at. rewrite Hy. eexists. split; [done|].
  pose proof (c_lock _ _ Hc c y Hy). split_and!; try done.
  split; [by apply kwf_cpus|]. apply cwf_lock; [done|done|lia].
Qed.

(** The end of an interrupt hands the CPU over when the task's time is up. *)
Lemma irq_end_ok k c y :
  kinv k → cpus k !! c = Some y →
  wp (k_irq_handler_end c k) (λ w, lock_count y = 0 ∧ w = "Assertion failed: count >= 0"%string)
    (λ bk, kinv bk.2 ∧ timeouts bk.2 = timeouts k ∧
       kinv (upd_cpus <[c := MkCpu (cpu_task y) (lock_count y - 1)]> k) ∧
       stays_or_yields (upd_cpus <[c := MkCpu (cpu_task y) (lock_count y - 1)]> k) c bk.2 bk.1).
Proof.
  intros [Hk Hc] Hy. unfold k_irq_handler_end, cpu_at. rewrite Hy. cbn [deref mbind outcome_bind].
  pose proof (c_lock _ _ Hc c y Hy). apply wp_bind, wp_assert; [intros ?%Z.leb_gt; split; [lia|done]|].
  intros Hn%Z.leb_le. set (k1 := upd_cpus _ k).
  assert (kinv k1) as Hk1 by (split; [by apply kwf_cpus|by apply cwf_lock]).
  assert (cpus k1 !! c = Some (MkCpu (cpu_task y) (lock_count y - 1))) as Hy1 by (simpl; by rewrite lookup_insert_eq).
  destruct (cpu_task y) as [t|] eqn:Hyt; [|by split_and!].
  destruct (c_run _ _ Hc c y t Hy Hyt) as (x & Hx & _). unfold task_at. change (tasks k1) with (tasks k).
  rewrite Hx. cbn [deref mbind outcome_bind]. destruct (_ && _) eqn:E; [|by split_and!].
  destruct (flag_ok k1 t x false Hk1 Hx) as [Hk2 Ho2]. set (k2 := upd_task t (set_reschedule false) k1) in *.
  destruct (yield_ok k2 c _ t (set_reschedule false x) Hk2 Hy1 eq_refl) as (k3 & E3 & Hk3 & L3 & Ht3 & _).
  { simpl. by rewrite lookup_alter_eq, Hx. }
  apply bind_Ok in E3 as (k0 & -> & E3). cbn [mbind outcome_bind]. rewrite E3. cbn [mbind outcome_bind wp fst snd].
  split_and!; [done..|]. exists t. split; [eauto|]. destruct L3 as [L1 L2 L3]. split; [|done|done].
  intros s. by rewrite L1, Ho2.
Qed.

Lemma quantum_ok k c y :
  kinv k → cpus k !! c = Some y → ∃ k', _k_sched_check_quantum c k = Ok k' ∧ kinv k' ∧
    (∀ s, obs k' s = obs k s) ∧ mutexes k' = mutexes k ∧ timeouts k' = timeouts k ∧ cpus k' = cpus k.
Proof.
  intros Hinv Hy. unfold _k_sched_check_quantum, cpu_at. rewrite Hy. cbn [deref mbind outcome_bind].
  destruct (cpu_task y) as [t|] eqn:Hyt; [|by exists k].
  destruct (current_ok _ _ _ _ _ (proj2 Hinv) Hy Hyt) as (x & Hx & _). unfold task_at. rewrite Hx.
  cbn [deref mbind outcome_bind]. destruct (flag_ok k t x true Hinv Hx) as [? ?]. eexists. split; [done|]. by split_and!.
Qed.

(** Time can be set back: the first deadline, and with it all, move away. *)
Lemma adjust_back_ok k delta :
  kinv k → delta < 0 → ∃ k', _k_sched_adjust_timeouts delta k = Ok k' ∧ kinv k' ∧
    tasks k' = tasks k ∧ mutexes k' = mutexes k ∧ cpus k' = cpus k ∧ ids k' = ids k.
Proof.
  intros [Hk Hc] Hd. unfold _k_sched_adjust_timeouts, Timeout._k_timeout_queue_adjust, ids.
  pose proof (c_timeouts _ _ Hc) as (H1 & H2 & H3).
  destruct (timeouts k) as [|n d] eqn:E.
  { eexists. split; [done|]. simpl. split_and!; try done. split; [by apply kwf_timeouts|].
    destruct Hc as [R I A W L T D]. split; try done. simpl. by intros s _ ?%elem_of_nil. }
  rewrite (proj2 (Z.eqb_neq delta 0)) by lia. pose proof (H2 n eq_refl).
  rewrite (proj2 (Z.eqb_neq (Timeout.remain n) 0)) by lia. rewrite (proj2 (Z.ltb_lt delta 0)) by lia.
  eexists. split; [done|]. simpl. split_and!; try done. split; [by apply kwf_timeouts|].
  destruct Hc as [R I A W L T D]. split; try done; simpl.
  - split_and!; [|intros z [= <-]; simpl; lia|done].
    apply Forall_cons in H1 as [? ?]. constructor; [simpl; lia|done].
  - intros s He. rewrite E in D. by apply D.
Qed.

End Task.
