(* ===== verification/Mailbox.v ===== *)
(** Mailbox buffers (kernel/core/mailbox.c).

    The part of a mailbox that holds the messages: a circular buffer of
    fixed-size slots, with [read_ptr] and [write_ptr] as byte offsets from
    [buf_start].  The reference is a bounded first-in first-out queue of
    messages.  Sleeping and waking are in module Kernel. *)

From S2P Require Import Prelude.
#[local] Open Scope Z_scope.

Module Mailbox.

Abbreviation byte := Z.

Record KMailBox := MkBox {
  buf : list byte;
  buf_end : Z;
  read_ptr : Z;
  write_ptr : Z;
  msg_size : Z;
  capacity : Z;
  size : Z
}.

Implicit Types (b : KMailBox) (msg : list byte).

(** [buf] is the caller's buffer of [length buf] bytes; a zero [msg_size]
    divides by zero. *)
Definition k_mailbox_create (msz : Z) (buf : list byte) : outcome KMailBox :=
  if msz =? 0 then Panic "division by zero" else
  let buf_size := Z.of_nat (length buf) in
  Ok (MkBox buf (buf_size - buf_size mod msz) 0 0 msz (buf_size / msz) 0).

(** [k_memmove] of [msg_size] bytes out of and into the buffer. *)
Definition copy_out b (off : Z) : list byte :=
  take (Z.to_nat (msg_size b)) (drop (Z.to_nat off) (buf b)).
Definition copy_in b (off : Z) msg : list byte :=
  take (Z.to_nat off) (buf b) ++ take (Z.to_nat (msg_size b)) msg ++
  drop (Z.to_nat (off + msg_size b)) (buf b).

(** [ptr += msg_size; if (ptr >= buf_end) ptr = buf_start] *)
Definition advance b (ptr : Z) : Z :=
  let p := ptr + msg_size b in if buf_end b <=? p then 0 else p.

(** [None] is K_ERR_AGAIN. *)
Definition k_mailbox_try_receive_locked b : option (list byte * KMailBox) :=
  if size b =? 0 then None else
  Some (copy_out b (read_ptr b),
        MkBox (buf b) (buf_end b) (advance b (read_ptr b)) (write_ptr b) (msg_size b)
          (capacity b) (size b - 1)).

Definition k_mailbox_try_send_locked b msg : option KMailBox :=
  if size b =? capacity b then None else
  Some (MkBox (copy_in b (write_ptr b) msg) (buf_end b) (read_ptr b) (advance b (write_ptr b))
          (msg_size b) (capacity b) (size b + 1)).

(** *** Reference: a bounded queue of messages *)

Definition fifo_send (cap : Z) (q : list (list byte)) msg : option (list (list byte)) :=
  if Z.of_nat (length q) =? cap then None else Some (q ++ [msg]).
Definition fifo_receive (q : list (list byte)) : option (list byte * list (list byte)) :=
  match q with [] => None | m :: q => Some (m, q) end.

(** *** Representation *)

Definition slot b (i : Z) : list byte := copy_out b (i * msg_size b).

(** Slot indices wrap around. *)
Definition wrap (cap i : Z) : Z := if i <? cap then i else i - cap.

Record rep b (q : list (list byte)) : Prop := {
  r_msz : 0 < msg_size b;
  r_cap : capacity b = Z.of_nat (length (buf b)) / msg_size b;
  r_end : buf_end b = capacity b * msg_size b;
  r_size : size b = Z.of_nat (length q);
  r_le : size b ≤ capacity b;
  r_ptrs : ∃ r, (0 ≤ r < capacity b ∨ r = 0) ∧ read_ptr b = r * msg_size b ∧
    write_ptr b = wrap (capacity b) (r + size b) * msg_size b ∧
    ∀ i msg, q !! i = Some msg → slot b (wrap (capacity b) (r + Z.of_nat i)) = msg
}.

Lemma create_rep msz l :
  0 < msz → ∃ b, k_mailbox_create msz l = Ok b ∧ rep b [] ∧ capacity b = Z.of_nat (length l) / msz ∧ msg_size b = msz.
Proof.
  intros Hm. unfold k_mailbox_create. rewrite (proj2 (Z.eqb_neq msz 0)) by lia. eexists. split; [done|].
  assert (0 ≤ Z.of_nat (length l) / msz) by (apply Z.div_pos; lia).
  split; [|done]. split; simpl; try done.
  - rewrite (Z.div_mod (Z.of_nat (length l)) msz) at 1 by lia. lia.
  - exists 0. split; [by right|]. split; [done|]. split; [|done].
    unfold wrap. destruct (Z.ltb_spec (0 + 0) (Z.of_nat (length l) / msz)); lia.
Qed.

(** Advancing a pointer is advancing its slot. *)
Lemma advance_slot b q r :
  rep b q → 0 ≤ r < capacity b → advance b (r * msg_size b) = wrap (capacity b) (r + 1) * msg_size b.
Proof.
  intros [Hm _ He _ _ _] Hr. unfold advance, wrap. rewrite He.
  destruct (Z.ltb_spec (r + 1) (capacity b)), (Z.leb_spec (capacity b * msg_size b) (r * msg_size b + msg_size b)); nia.
Qed.

Lemma wrap_range cap i : 0 ≤ i < 2 * cap → 0 ≤ wrap cap i < cap.
Proof. intros. unfold wrap. destruct (Z.ltb_spec i cap); lia. Qed.

Lemma wrap_succ cap i : 0 ≤ i < 2 * cap - 1 → wrap cap (i + 1) = wrap cap (wrap cap i + 1).
Proof. intros. unfold wrap. destruct (Z.ltb_spec i cap), (Z.ltb_spec (i + 1) cap); repeat case_match; lia. Qed.

Lemma receive_rep b q msg q' :
  rep b q → fifo_receive q = Some (msg, q') →
  ∃ b', k_mailbox_try_receive_locked b = Some (msg, b') ∧ rep b' q' ∧
    capacity b' = capacity b ∧ msg_size b' = msg_size b.
Proof.
  intros Hrep Hq. destruct q as [|m q]; [done|]. simplify_eq/=.
  pose proof Hrep as [Hm Hc He Hs Hle (r & Hr & Hrp & Hwp & Hsl)]. simpl in Hs.
  assert (0 ≤ r < capacity b) as Hr' by lia.
  unfold k_mailbox_try_receive_locked. rewrite (proj2 (Z.eqb_neq (size b) 0)) by lia.
  assert (copy_out b (read_ptr b) = msg) as ->.
  { rewrite Hrp. rewrite <-(Hsl 0%nat msg) by done. unfold slot, wrap.
    destruct (Z.ltb_spec (r + Z.of_nat 0) (capacity b)); [f_equal; lia|lia]. }
  eexists. split; [done|]. split; [|done]. split; simpl; try done; [lia|lia|].
  exists (wrap (capacity b) (r + 1)). pose proof (wrap_range (capacity b) (r + 1) ltac:(lia)).
  split; [by left|]. split; [rewrite Hrp; by eapply advance_slot|]. split.
  - rewrite Hwp. f_equal. unfold wrap. repeat case_match; bool_to_prop; lia.
  - intros i m' Hi. rewrite <-(Hsl (S i) m') by done. apply lookup_lt_Some in Hi.
    unfold slot, copy_out. simpl. do 2 f_equal. unfold wrap. repeat case_match; bool_to_prop; try lia; f_equal; lia.
Qed.

(** Writing one slot leaves the others. *)
Lemma slot_copy_in b i j msg :
  0 < msg_size b → 0 ≤ i → 0 ≤ j → (i + 1) * msg_size b ≤ Z.of_nat (length (buf b)) →
  Z.of_nat (length msg) = msg_size b →
  let l := copy_in b (i * msg_size b) msg in
  length l = length (buf b) ∧
  take (Z.to_nat (msg_size b)) (drop (Z.to_nat (j * msg_size b)) l) =
    if decide (i = j) then msg else slot b j.
Proof.
  intros Hm Hi Hj Hlen Hmsg l. unfold l, copy_in.
  set (n := Z.to_nat (msg_size b)). set (a := Z.to_nat (i * msg_size b)).
  replace (Z.to_nat (i * msg_size b + msg_size b)) with (a + n)%nat by (unfold a, n; nia).
  assert (length msg = n) as Hn by (unfold n; lia). assert (a + n ≤ length (buf b))%nat by (unfold a, n; nia).
  rewrite (take_ge msg n) by lia. split; [rewrite !length_app, length_take, length_drop; lia|].
  unfold slot, copy_out. fold n. case_decide as E.
  - subst. fold a. rewrite drop_app_ge by (rewrite length_take; lia). rewrite length_take.
    replace (a - a `min` length (buf b))%nat with 0%nat by lia. rewrite drop_0. by rewrite take_app_length'.
  - assert (i < j ∨ j < i) as [Hlt|Hlt] by lia.
    + assert (a + n ≤ Z.to_nat (j * msg_size b))%nat by (unfold a, n; nia).
      rewrite drop_app_ge by (rewrite length_take; lia). rewrite length_take.
      rewrite drop_app_ge by lia. rewrite drop_drop. do 2 f_equal. lia.
    + assert (Z.to_nat (j * msg_size b) + n ≤ a)%nat by (unfold a, n; nia).
      rewrite drop_app_le by (rewrite length_take; lia). rewrite take_app_le by (rewrite length_drop, length_take; lia).
      rewrite skipn_firstn_comm, firstn_firstn. f_equal. lia.
Qed.

Lemma send_rep b q msg q' :
  rep b q → Z.of_nat (length msg) = msg_size b → fifo_send (capacity b) q msg = Some q' →
  ∃ b', k_mailbox_try_send_locked b msg = Some b' ∧ rep b' q' ∧
    capacity b' = capacity b ∧ msg_size b' = msg_size b.
Proof.
  intros Hrep Hmsg Hq. pose proof Hrep as [Hm Hc He Hs Hle (r & Hr & Hrp & Hwp & Hsl)].
  unfold fifo_send in Hq. unfold k_mailbox_try_send_locked. rewrite Hs in *.
  destruct (Z.eqb_spec (Z.of_nat (length q)) (capacity b)) as [|Hne]; [done|]. simplify_eq.
  assert (0 ≤ r < capacity b) as Hr' by lia.
  pose proof (wrap_range (capacity b) (r + Z.of_nat (length q)) ltac:(lia)) as Hw.
  assert ((wrap (capacity b) (r + Z.of_nat (length q)) + 1) * msg_size b ≤ Z.of_nat (length (buf b))) as Hfit.
  { rewrite Hc in Hw |- *. pose proof (Z.mul_div_le (Z.of_nat (length (buf b))) (msg_size b) Hm). nia. }
  pose proof (slot_copy_in b _ 0 msg Hm ltac:(apply Hw) ltac:(lia) Hfit Hmsg) as [Hl _].
  eexists. split; [done|]. split; [|done]. rewrite <-Hwp in Hl. split; simpl; try done.
  - by rewrite Hl.
  - rewrite length_app. simpl. lia.
  - lia.
  - exists r. split; [done|]. split; [done|]. split.
    + rewrite Hwp. rewrite (advance_slot b q) by done.
      f_equal. replace (r + (Z.of_nat (length q) + 1)) with (r + Z.of_nat (length q) + 1) by lia.
      symmetry. apply wrap_succ. lia.
    + intros i m' Hi.
      assert (i < S (length q))%nat as Hlt by (apply lookup_lt_Some in Hi; rewrite length_app in Hi; simpl in Hi; lia).
      pose proof (wrap_range (capacity b) (r + Z.of_nat i) ltac:(lia)) as Hwi.
      unfold slot, copy_out at 1. simpl. rewrite Hwp.
      destruct (slot_copy_in b _ (wrap (capacity b) (r + Z.of_nat i)) msg Hm ltac:(apply Hw) ltac:(lia) Hfit Hmsg) as [_ ->].
      apply lookup_app_Some in Hi as [Hi|[Hge Hi]].
      * pose proof (lookup_lt_Some _ _ _ Hi). rewrite decide_False; [by apply Hsl|].
        unfold wrap. repeat case_match; bool_to_prop; lia.
      * assert (i = length q) as -> by lia. rewrite Nat.sub_diag in Hi. simplify_eq/=. by rewrite decide_True.
Qed.

(** *** Sequences of operations *)

Inductive op := Send (msg : list byte) | Receive.
Inductive reply := Sent (ok : bool) | Received (msg : option (list byte)).

Fixpoint run b (os : list op) : list reply :=
  match os with
  | [] => []
  | Send msg :: os =>
      match k_mailbox_try_send_locked b msg with
      | Some b' => Sent true :: run b' os
      | None => Sent false :: run b os
      end
  | Receive :: os =>
      match k_mailbox_try_receive_locked b with
      | Some (msg, b') => Received (Some msg) :: run b' os
      | None => Received None :: run b os
      end
  end.

Fixpoint fifo_run (cap : Z) (q : list (list byte)) (os : list op) : list reply :=
  match os with
  | [] => []
  | Send msg :: os =>
      match fifo_send cap q msg with
      | Some q' => Sent true :: fifo_run cap q' os
      | None => Sent false :: fifo_run cap q os
      end
  | Receive :: os =>
      match fifo_receive q with
      | Some (msg, q') => Received (Some msg) :: fifo_run cap q' os
      | None => Received None :: fifo_run cap q os
      end
  end.

(** Messages have the size of the mailbox's slots. *)
Definition fits (msz : Z) (o : op) : Prop :=
  match o with Send msg => Z.of_nat (length msg) = msz | Receive => True end.

Lemma run_refines os : ∀ b q, rep b q → Forall (fits (msg_size b)) os → run b os = fifo_run (capacity b) q os.
Proof.
  induction os as [|[msg|] os IH]; intros b q Hrep Hf; cbn [run fifo_run]; [done|..];
    apply Forall_cons in Hf as [Ho Hf].
  - destruct (fifo_send (capacity b) q msg) as [q'|] eqn:E.
    + destruct (send_rep b q msg q' Hrep Ho E) as (b' & -> & Hrep' & Hc & Hm).
      rewrite <-Hc. f_equal. apply IH; [done|by rewrite Hm].
    + unfold fifo_send in E. unfold k_mailbox_try_send_locked. rewrite (r_size _ _ Hrep).
      destruct (_ =? _); [|done]. f_equal. by apply IH.
  - destruct (fifo_receive q) as [[msg q']|] eqn:E.
    + destruct (receive_rep b q msg q' Hrep E) as (b' & -> & Hrep' & Hc & Hm).
      rewrite <-Hc. f_equal. apply IH; [done|by rewrite Hm].
    + destruct q as [|m q]; [|done]. unfold k_mailbox_try_receive_locked. rewrite (r_size _ _ Hrep). simpl.
      f_equal. by apply IH.
Qed.

(** C25: A mailbox behaves as a bounded first-in first-out queue: every sequence
    of sends and receives on a fresh mailbox gives the replies of a queue whose
    bound is the number of whole slots in the buffer, with messages delivered
    byte for byte in the order they were sent. *)
Theorem mailbox_refines_fifo msz (l : list byte) os :
  0 < msz → Forall (fits msz) os →
  ∃ b, k_mailbox_create msz l = Ok b ∧ run b os = fifo_run (Z.of_nat (length l) / msz) [] os.
Proof.
  intros Hm Hf. destruct (create_rep msz l Hm) as (b & E & Hrep & Hc & Hmsz).
  exists b. split; [done|]. rewrite <-Hc. apply run_refines; [done|]. by rewrite Hmsz.
Qed.

Lemma mailbox_refines_fifo_witness :
  ∃ b, k_mailbox_create 2 [0; 0; 0; 0; 0] = Ok b ∧
    run b [Send [1; 2]; Send [3; 4]; Send [5; 6]; Receive; Send [7; 8]; Receive; Receive; Receive] =
    fifo_run (Z.of_nat (length [0; 0; 0; 0; 0]) / 2) []
      [Send [1; 2]; Send [3; 4]; Send [5; 6]; Receive; Send [7; 8]; Receive; Receive; Receive].
Proof. apply mailbox_refines_fifo; [lia|repeat constructor]. Defined.

End Mailbox.
