(* ===== verification/Kernel.v ===== *)
(** The core of the kernel as a transition system (kernel/core).

    A step is one critical section of one CPU: a call into the kernel up to
    the context switch that puts the caller to sleep, or what a task does once
    it is switched back to.  Where a function goes on after a switch is the
    task's continuation.  Semaphores (kernel/core/semaphore.c), condition
    variables (kernel/core/condvar.c), mailboxes (kernel/core/mailbox.c), wait
    queues (kernel/core/waitqueue.c) and the tick (kernel/core/tick.c) are
    defined here on top of the scheduler; every interleaving of the steps of
    several CPUs is a run. *)

From S2P Require Import Prelude Timeout Sched Mutex Task Mailbox.
Import Sched Mutex Task.
#[local] Open Scope Z_scope.

Module Kernel.

Abbreviation sid := nat.
Abbreviation bid := nat.

(** [type] is reset when the object is destroyed. *)
Record KSemaphore := MkSem { sem_valid : bool; count : Z }.
Record KBox := MkKBox { box_valid : bool; box : Mailbox.KMailBox }.

(** The loops that sleep with a spinlock to take again: their object, message,
    timeout and kind of sleep. *)
Inductive loop :=
| LSem (s : sid) (timeout : Z) (st : tstate)
| LReceive (b : bid) (timeout : Z) (st : tstate)
| LSend (b : bid) (msg : list Z) (timeout : Z) (st : tstate)
| LWait (w : wid).

(** Where a task goes on after the context switch. *)
Inductive cont :=
| CMutex (m : mid) (timeout : Z)            (* in _k_mutex_timed_lock *)
| CCond (w : wid) (m : mid) (timeout : Z)   (* in the sleep of k_condvar_timed_wait *)
| CRelock (m : mid) (r : Z)                 (* in its _k_mutex_timed_lock (mutex, 0) *)
| CWait (timeout : Z) (l : loop)            (* in _k_sched_sleep, [lock] to retake *)
| CRetry (l : loop) (r : Z).                (* back from it with result [r] *)

Record sys := MkSys {
  ks : kst;
  conts : gmap tid cont;
  rets : gmap tid Z;                 (* result of the last call that slept *)
  inbox : gmap tid (list Z);         (* message received by that call *)
  sems : gmap sid KSemaphore;
  conds : gmap wid bool;             (* the [type] of condition variables *)
  boxes : gmap bid KBox;
  k_tick_counter : Z;
  k_tick_prev_counter : Z
}.

Implicit Types (s : sys) (k : kst) (t : tid) (m : mid) (c : cid) (w : wid).

Definition set_ks k s := MkSys k (conts s) (rets s) (inbox s) (sems s) (conds s) (boxes s)
  (k_tick_counter s) (k_tick_prev_counter s).
Definition set_cont t (x : option cont) s := MkSys (ks s) (partial_alter (λ _, x) t (conts s))
  (rets s) (inbox s) (sems s) (conds s) (boxes s) (k_tick_counter s) (k_tick_prev_counter s).
Definition set_ret t (r : Z) s := MkSys (ks s) (conts s) (<[t := r]> (rets s)) (inbox s) (sems s)
  (conds s) (boxes s) (k_tick_counter s) (k_tick_prev_counter s).
Definition set_inbox t (msg : list Z) s := MkSys (ks s) (conts s) (rets s) (<[t := msg]> (inbox s))
  (sems s) (conds s) (boxes s) (k_tick_counter s) (k_tick_prev_counter s).
Definition set_sem i (x : KSemaphore) s := MkSys (ks s) (conts s) (rets s) (inbox s)
  (<[i := x]> (sems s)) (conds s) (boxes s) (k_tick_counter s) (k_tick_prev_counter s).
Definition set_cond w (b : bool) s := MkSys (ks s) (conts s) (rets s) (inbox s) (sems s)
  (<[w := b]> (conds s)) (boxes s) (k_tick_counter s) (k_tick_prev_counter s).
Definition set_box b (x : KBox) s := MkSys (ks s) (conts s) (rets s) (inbox s) (sems s) (conds s)
  (<[b := x]> (boxes s)) (k_tick_counter s) (k_tick_prev_counter s).
Definition set_ticks (n p : Z) s := MkSys (ks s) (conts s) (rets s) (inbox s) (sems s) (conds s)
  (boxes s) n p.

(** Run a scheduler operation. *)
Definition lift (f : kst → outcome kst) s : outcome sys := k ← f (ks s); Ok (set_ks k s).

(** The call of [t] that slept returns [r]. *)
Definition return_ t (r : Z) s : sys := set_ret t r (set_cont t None s).

(** *** Mutexes *)

(** The end of a turn of the locking loop. *)
Definition lock_done t m (timeout : Z) (rk : option Z * kst) s : sys :=
  match rk.1 with
  | Some r => return_ t r (set_ks rk.2 s)
  | None => set_cont t (Some (CMutex m timeout)) (set_ks rk.2 s)
  end.

Definition k_mutex_timed_lock c m (timeout : Z) s : outcome sys :=
  t ← current c (ks s);
  rk ← mutex_lock_step c t m timeout (ks s);
  Ok (lock_done t m timeout rk s).

Definition k_mutex_try_lock c m s : outcome sys :=
  t ← current c (ks s);
  '(r, k) ← k_mutex_try_lock_locked t m (ks s);
  Ok (set_ret t r (set_ks k s)).

Definition mutex_unlock c m s : outcome sys :=
  t ← current c (ks s);
  lift (k_mutex_unlock t m) s.

(** *** Condition variables *)

Definition cond_ok w s : outcome unit :=
  b ← deref (conds s !! w) "bad condition variable";
  k_assert b "Assertion failed: cond->type == K_CONDVAR_TYPE".

Definition k_condvar_create w s : sys := set_cond w true s.

Definition k_condvar_destroy w s : outcome sys :=
  _ ← cond_ok w s;
  s ← lift (_k_sched_wakeup_all_locked (QCond w) (- K_ERR_INVAL)) s;
  Ok (set_cond w false s).

(** Up to the context switch. *)
Definition k_condvar_timed_wait c w m (timeout : Z) (st : tstate) s : outcome sys :=
  _ ← cond_ok w s;
  t ← current c (ks s);
  b ← k_mutex_holding t m (ks s);
  _ ← k_assert b "Assertion failed: k_mutex_holding(mutex)";
  k ← _k_mutex_unlock t m (ks s);
  k ← sleep_begin c (QCond w) st timeout k;
  Ok (set_cont t (Some (CCond w m timeout)) (set_ks k s)).

(** A turn of the final [_k_mutex_timed_lock (mutex, 0)], whose result is
    dropped: the call returns [r]. *)
Definition relock_done t m (r : Z) (rk : option Z * kst) s : sys :=
  match rk.1 with
  | Some _ => return_ t r (set_ks rk.2 s)
  | None => set_cont t (Some (CRelock m r)) (set_ks rk.2 s)
  end.

Definition k_condvar_notify_one w s : outcome sys :=
  _ ← cond_ok w s;
  lift (λ k, '(_, k) ← _k_sched_wakeup_one_locked (QCond w) 0 k; Ok k) s.

Definition k_condvar_notify_all w s : outcome sys :=
  _ ← cond_ok w s;
  lift (_k_sched_wakeup_all_locked (QCond w) 0) s.

(** *** Semaphores *)

Definition sem_at i s : outcome KSemaphore := deref (sems s !! i) "bad semaphore".
Definition sem_ok i s : outcome KSemaphore :=
  x ← sem_at i s;
  _ ← k_assert (sem_valid x) "Assertion failed: sem->type == K_SEMAPHORE_TYPE";
  Ok x.

Definition k_semaphore_create i (n : Z) s : sys := set_sem i (MkSem true n) s.

Definition k_semaphore_destroy i s : outcome sys :=
  x ← sem_ok i s;
  s ← lift (_k_sched_wakeup_all_locked (QSem i) K_ERR_INVAL) s;
  Ok (set_sem i (MkSem false (count x)) s).

Definition k_semaphore_try_get_locked (x : KSemaphore) : outcome (Z * KSemaphore) :=
  _ ← k_assert (0 <=? count x) "Assertion failed: sem->count >= 0";
  if count x =? 0 then Ok (K_ERR_AGAIN, x)
  else Ok (count x - 1, MkSem (sem_valid x) (count x - 1)).

(** A turn of the loop of [k_semaphore_timed_get] by task [t] on [c]. *)
Definition sem_turn c t i (timeout : Z) (st : tstate) s : outcome sys :=
  x ← sem_at i s;
  '(r, x') ← k_semaphore_try_get_locked x;
  if 0 <=? r then Ok (return_ t r (set_sem i x' s))
  else
    k ← sleep_begin c (QSem i) st timeout (ks s);
    Ok (set_cont t (Some (CWait timeout (LSem i timeout st))) (set_ks k s)).

Definition k_semaphore_timed_get c i (timeout : Z) (st : tstate) s : outcome sys :=
  _ ← sem_ok i s;
  t ← current c (ks s);
  sem_turn c t i timeout st s.

(** The calls that do not sleep may come from an interrupt handler; the result
    is the current task's, if there is one. *)
Definition reply c (r : Z) s : outcome sys :=
  y ← cpu_at c (ks s);
  Ok (match cpu_task y with Some t => set_ret t r s | None => s end).

Definition k_semaphore_try_get c i s : outcome sys :=
  x ← sem_ok i s;
  '(r, x') ← k_semaphore_try_get_locked x;
  reply c r (set_sem i x' s).

Definition k_semaphore_put i s : outcome sys :=
  x ← sem_ok i s;
  _ ← k_assert (0 <=? count x) "Assertion failed: sem->count >= 0";
  let s := set_sem i (MkSem (sem_valid x) (count x + 1)) s in
  lift (λ k, '(_, k) ← _k_sched_wakeup_one_locked (QSem i) 0 k; Ok k) s.

(** *** Mailboxes *)

Definition box_at b s : outcome KBox := deref (boxes s !! b) "bad mailbox".
Definition box_ok b s : outcome KBox :=
  x ← box_at b s;
  _ ← k_assert (box_valid x) "Assertion failed: mailbox->type == K_MAILBOX_TYPE";
  Ok x.

Definition k_mailbox_create b (msz : Z) (l : list Z) s : outcome sys :=
  x ← Mailbox.k_mailbox_create msz l;
  Ok (set_box b (MkKBox true x) s).

Definition k_mailbox_destroy b s : outcome sys :=
  x ← box_ok b s;
  s ← lift (_k_sched_wakeup_all_locked (QRecv b) K_ERR_INVAL) s;
  s ← lift (_k_sched_wakeup_all_locked (QSend b) K_ERR_INVAL) s;
  Ok (set_box b (MkKBox false (box x)) s).

(** [k_mailbox_try_receive_locked] and [k_mailbox_try_send_locked] with their
    wakeups; [None] is K_ERR_AGAIN. *)
Definition box_receive b (x : KBox) s : outcome (option (list Z * sys)) :=
  match Mailbox.k_mailbox_try_receive_locked (box x) with
  | None => Ok None
  | Some (msg, x') =>
      s ← lift (λ k, '(_, k) ← _k_sched_wakeup_one_locked (QSend b) 0 k; Ok k)
            (set_box b (MkKBox (box_valid x) x') s);
      Ok (Some (msg, s))
  end.

Definition box_send b (x : KBox) (msg : list Z) s : outcome (option sys) :=
  match Mailbox.k_mailbox_try_send_locked (box x) msg with
  | None => Ok None
  | Some x' =>
      s ← lift (λ k, '(_, k) ← _k_sched_wakeup_one_locked (QRecv b) 0 k; Ok k)
            (set_box b (MkKBox (box_valid x) x') s);
      Ok (Some s)
  end.

Definition receive_turn c t b (timeout : Z) (st : tstate) s : outcome sys :=
  x ← box_at b s;
  r ← box_receive b x s;
  match r with
  | Some (msg, s) => Ok (return_ t 0 (set_inbox t msg s))
  | None =>
      k ← sleep_begin c (QRecv b) st timeout (ks s);
      Ok (set_cont t (Some (CWait timeout (LReceive b timeout st))) (set_ks k s))
  end.

Definition send_turn c t b (msg : list Z) (timeout : Z) (st : tstate) s : outcome sys :=
  x ← box_at b s;
  r ← box_send b x msg s;
  match r with
  | Some s => Ok (return_ t 0 s)
  | None =>
      k ← sleep_begin c (QSend b) st timeout (ks s);
      Ok (set_cont t (Some (CWait timeout (LSend b msg timeout st))) (set_ks k s))
  end.

Definition k_mailbox_timed_receive c b (timeout : Z) (st : tstate) s : outcome sys :=
  _ ← box_ok b s;
  t ← current c (ks s);
  receive_turn c t b timeout st s.

Definition k_mailbox_timed_send c b (msg : list Z) (timeout : Z) (st : tstate) s : outcome sys :=
  _ ← box_ok b s;
  t ← current c (ks s);
  send_turn c t b msg timeout st s.

Definition k_mailbox_try_receive c b s : outcome sys :=
  x ← box_ok b s;
  r ← box_receive b x s;
  match r with
  | Some (msg, s) =>
      y ← cpu_at c (ks s);
      reply c 0 (match cpu_task y with Some t => set_inbox t msg s | None => s end)
  | None => reply c K_ERR_AGAIN s
  end.

Definition k_mailbox_try_send c b (msg : list Z) s : outcome sys :=
  x ← box_ok b s;
  r ← box_send b x msg s;
  match r with Some s => reply c 0 s | None => reply c K_ERR_AGAIN s end.

(** *** Wait queues *)

Definition k_waitqueue_timed_sleep c w (timeout : Z) s : outcome sys :=
  t ← current c (ks s);
  k ← sleep_begin c (QWait w) SLEEP timeout (ks s);
  Ok (set_cont t (Some (CWait timeout (LWait w))) (set_ks k s)).

Definition k_waitqueue_wakeup_one w s : outcome sys :=
  lift (λ k, '(_, k) ← _k_sched_wakeup_one_locked (QWait w) 0 k; Ok k) s.
Definition k_waitqueue_wakeup_all w s : outcome sys :=
  lift (_k_sched_wakeup_all_locked (QWait w) 0) s.

(** *** Going on after a switch *)

(** The scheduler has switched to [t] on [c], with its lock still held: the
    rest of [_k_sched_sleep], and what follows it under the same lock. *)
Definition switched c t s : outcome sys :=
  match conts s !! t with
  | None | Some (CRetry _ _) => Ok s
  | Some (CMutex m timeout) =>
      rk ← mutex_lock_resume c t m timeout (ks s); Ok (lock_done t m timeout rk s)
  | Some (CCond w m timeout) =>
      '(r, k) ← sleep_end t timeout (ks s);
      rk ← mutex_lock_step c t m 0 k;
      Ok (relock_done t m r rk s)
  | Some (CRelock m r) =>
      rk ← mutex_lock_resume c t m 0 (ks s); Ok (relock_done t m r rk s)
  | Some (CWait timeout l) =>
      '(r, k) ← sleep_end t timeout (ks s);
      Ok (set_cont t (Some (CRetry l r)) (set_ks k s))
  end.

Definition k_sched_start_iteration c s : outcome sys :=
  '(r, k) ← sched_dispatch c (ks s);
  match r with
  | None => Ok (set_ks k s)
  | Some t => switched c t (set_ks k s)
  end.

(** The object's spinlock is taken again and the loop goes on. *)
Definition go_on c s : outcome sys :=
  t ← current c (ks s);
  match conts s !! t with
  | Some (CRetry l r) =>
      if r <? 0 then Ok (return_ t r s) else
      match l with
      | LSem i timeout st => sem_turn c t i timeout st s
      | LReceive b timeout st => receive_turn c t b timeout st s
      | LSend b msg timeout st => send_turn c t b msg timeout st s
      | LWait w => Ok (return_ t r s)
      end
  | _ => Panic "not in a loop"
  end.

(** *** Ticks *)

Definition K_CPU_ID_MASTER : cid := 0%nat.

(** [k_tick] up to the timers, which are a component of their own: the ticks
    they are to be advanced by, on the CPU that keeps the time. *)
Definition tick_sched c s : outcome (option Z * sys) :=
  s ← lift (_k_sched_check_quantum c) s;
  if negb (bool_decide (c = K_CPU_ID_MASTER)) then Ok (None, s) else
  let counter := k_tick_counter s + 1 in
  let delta := counter - k_tick_prev_counter s in
  s ← lift (_k_sched_adjust_timeouts delta) (set_ticks counter counter s);
  Ok (Some delta, s).

Definition k_tick_get s : Z := k_tick_counter s.
Definition k_tick_set (n : Z) s : sys := set_ticks n (k_tick_prev_counter s) s.

(** *** Steps *)

Inductive event :=
| EDispatch (c : cid) | EGoOn (c : cid)
| ECreate (t : tid) (p : Z) | EResume (c : cid) (t : tid) | EYield (c : cid) | ESuspend (c : cid)
| EExit (c : cid) | EWake (t : tid)
| EMutexInit (m : mid) | EMutexFini (m : mid) | EMutexLock (c : cid) (m : mid) (timeout : Z)
| EMutexTryLock (c : cid) (m : mid) | EMutexUnlock (c : cid) (m : mid)
| ECondCreate (w : wid) | ECondDestroy (w : wid)
| ECondWait (c : cid) (w : wid) (m : mid) (timeout : Z) (st : tstate)
| ECondNotifyOne (w : wid) | ECondNotifyAll (w : wid)
| ESemCreate (i : sid) (n : Z) | ESemDestroy (i : sid)
| ESemGet (c : cid) (i : sid) (timeout : Z) (st : tstate) | ESemTryGet (c : cid) (i : sid)
| ESemPut (i : sid)
| EBoxCreate (b : bid) (msz : Z) (l : list Z) | EBoxDestroy (b : bid)
| EReceive (c : cid) (b : bid) (timeout : Z) (st : tstate) | ETryReceive (c : cid) (b : bid)
| ESend (c : cid) (b : bid) (msg : list Z) (timeout : Z) (st : tstate)
| ETrySend (c : cid) (b : bid) (msg : list Z)
| EWaitSleep (c : cid) (w : wid) (timeout : Z) | EWaitOne (w : wid) | EWaitAll (w : wid)
| EIrqBegin (c : cid) | EIrqEnd (c : cid) | ETick (c : cid) | ETickSet (n : Z).

Definition exec (e : event) s : outcome sys :=
  match e with
  | EDispatch c => k_sched_start_iteration c s
  | EGoOn c => go_on c s
  | ECreate t p => Ok (set_ks (k_task_create t p (ks s)) s)
  | EResume c t => '(r, _, k) ← k_task_resume c t (ks s); Ok (set_ks k s)
  | EYield c => lift (k_task_yield c) s
  | ESuspend c => lift (k_task_suspend c) s
  | EExit c => lift (k_task_exit c) s
  | EWake t => lift (k_task_wake t) s
  | EMutexInit m => Ok (set_ks (k_mutex_init m (ks s)) s)
  | EMutexFini m => lift (k_mutex_fini m) s
  | EMutexLock c m timeout => k_mutex_timed_lock c m timeout s
  | EMutexTryLock c m => k_mutex_try_lock c m s
  | EMutexUnlock c m => mutex_unlock c m s
  | ECondCreate w => Ok (k_condvar_create w s)
  | ECondDestroy w => k_condvar_destroy w s
  | ECondWait c w m timeout st => k_condvar_timed_wait c w m timeout st s
  | ECondNotifyOne w => k_condvar_notify_one w s
  | ECondNotifyAll w => k_condvar_notify_all w s
  | ESemCreate i n => Ok (k_semaphore_create i n s)
  | ESemDestroy i => k_semaphore_destroy i s
  | ESemGet c i timeout st => k_semaphore_timed_get c i timeout st s
  | ESemTryGet c i => k_semaphore_try_get c i s
  | ESemPut i => k_semaphore_put i s
  | EBoxCreate b msz l => k_mailbox_create b msz l s
  | EBoxDestroy b => k_mailbox_destroy b s
  | EReceive c b timeout st => k_mailbox_timed_receive c b timeout st s
  | ETryReceive c b => k_mailbox_try_receive c b s
  | ESend c b msg timeout st => k_mailbox_timed_send c b msg timeout st s
  | ETrySend c b msg => k_mailbox_try_send c b msg s
  | EWaitSleep c w timeout => k_waitqueue_timed_sleep c w timeout s
  | EWaitOne w => k_waitqueue_wakeup_one w s
  | EWaitAll w => k_waitqueue_wakeup_all w s
  | EIrqBegin c => lift (k_irq_handler_begin c) s
  | EIrqEnd c => '(_, k) ← k_irq_handler_end c (ks s); Ok (set_ks k s)
  | ETick c => '(_, s) ← tick_sched c s; Ok s
  | ETickSet n => Ok (k_tick_set n s)
  end.

(** The task that runs its own code on [c], and is not in the middle of a call. *)
Definition free_task c s : option tid :=
  y ← cpus (ks s) !! c;
  t ← cpu_task y;
  match conts s !! t with None => Some t | Some _ => None end.

(** When an event can happen: objects exist and are created once, priorities
    are in range, a call is made by a task that runs its own code, and the
    scheduler loop runs on an idle CPU. *)
Definition enabled (e : event) s : bool :=
  match e with
  | EDispatch c => match cpus (ks s) !! c with Some y => bool_decide (cpu_task y = None) | None => false end
  | EGoOn c =>
      match y ← cpus (ks s) !! c; t ← cpu_task y; conts s !! t with
      | Some (CRetry _ _) => true
      | _ => false
      end
  | ECreate t p => bool_decide (tasks (ks s) !! t = None) && (0 <=? p) && (p <? K_TASK_MAX_PRIORITIES)
  | EResume c t =>
      match cpus (ks s) !! c with
      | Some y => match cpu_task y with
                  | None => true
                  | Some me => bool_decide (conts s !! me = None)
                  end && bool_decide (is_Some (tasks (ks s) !! t))
      | None => false
      end
  | EYield c | ESuspend c | EExit c => bool_decide (is_Some (free_task c s))
  | EWake t => bool_decide (is_Some (tasks (ks s) !! t))
  | EMutexInit m => bool_decide (mutexes (ks s) !! m = None)
  | EMutexFini m => bool_decide (is_Some (mutexes (ks s) !! m))
  | EMutexLock c m _ | EMutexTryLock c m | EMutexUnlock c m =>
      bool_decide (is_Some (free_task c s)) && bool_decide (is_Some (mutexes (ks s) !! m))
  | ECondWait c _ m _ st =>
      bool_decide (is_Some (free_task c s)) && bool_decide (is_Some (mutexes (ks s) !! m)) && sleeping st
  | ESemCreate i n => bool_decide (sems s !! i = None) && (0 <=? n)
  | ESemGet c _ _ st | EReceive c _ _ st | ESend c _ _ _ st =>
      bool_decide (is_Some (free_task c s)) && sleeping st
  | EWaitSleep c _ _ => bool_decide (is_Some (free_task c s))
  | EBoxCreate b msz _ => bool_decide (boxes s !! b = None) && (0 <? msz)
  | ESemTryGet c _ | ETryReceive c _ | ETrySend c _ _ | EIrqBegin c | EIrqEnd c | ETick c =>
      bool_decide (is_Some (cpus (ks s) !! c))
  | _ => true
  end.

(** Processors start idle; [ncpu] of them exist. *)
Definition boot (ncpu : nat) : sys :=
  MkSys (MkK ∅ ∅ (λ _, []) [] (list_to_map ((λ c, (c, MkCpu None 0)) <$> seq 0 ncpu)))
    ∅ ∅ ∅ ∅ ∅ ∅ 0 0.

Inductive reachable (ncpu : nat) : sys → Prop :=
| reach_boot : reachable ncpu (boot ncpu)
| reach_step e s s' : reachable ncpu s → enabled e s = true → exec e s = Ok s' → reachable ncpu s'.

(** A run: the events in order, each enabled when it happens. *)
Fixpoint run (es : list event) s : outcome sys :=
  match es with
  | [] => Ok s
  | e :: es =>
      _ ← k_assert (enabled e s) "not enabled";
      s ← exec e s;
      run es s
  end.

(** *** The invariant *)

(** The loops sleep in one of the two sleeping states. *)
Definition loop_ok (l : loop) : bool :=
  match l with
  | LSem _ _ st | LReceive _ _ st | LSend _ _ _ st => sleeping st
  | LWait _ => true
  end.

(** The continuation of a task agrees with where the scheduler has it. *)
Definition cont_ok s t : Prop :=
  match conts s !! t with
  | None => t ∉ ids (ks s) ∧ ∀ kd sl, obs (ks s) t = Some (kd, sl) → sl = None
  | Some (CRetry l _) =>
      t ∉ ids (ks s) ∧ (∀ kd sl, obs (ks s) t = Some (kd, sl) → sl = None) ∧ loop_ok l
  | Some (CMutex m timeout) =>
      obs (ks s) t = Some (Live, Some m) ∧ is_Some (mutexes (ks s) !! m) ∧ (t ∈ ids (ks s) → timeout ≠ 0)
  | Some (CRelock m r) =>
      obs (ks s) t = Some (Live, Some m) ∧ is_Some (mutexes (ks s) !! m) ∧ t ∉ ids (ks s)
  | Some (CCond w m timeout) =>
      obs (ks s) t = Some (Live, None) ∧ is_Some (mutexes (ks s) !! m) ∧ (t ∈ ids (ks s) → timeout ≠ 0)
  | Some (CWait timeout l) =>
      obs (ks s) t = Some (Live, None) ∧ (t ∈ ids (ks s) → timeout ≠ 0) ∧ loop_ok l
  end.

Record sinv s : Prop := {
  si_k : kinv (ks s);
  si_cont : ∀ t, cont_ok s t;
  si_sem : ∀ i x, sems s !! i = Some x → 0 ≤ count x
}.

(** A step that leaves the continuations and what they depend on. *)
Lemma cont_ok_same s s' t :
  conts s' !! t = conts s !! t → obs (ks s') t = obs (ks s) t →
  (t ∈ ids (ks s') → t ∈ ids (ks s)) → keeps_mutexes (ks s) (ks s') →
  cont_ok s t → cont_ok s' t.
Proof.
  intros Hc Ho Hi Hm. unfold cont_ok. rewrite Hc, Ho.
  destruct (conts s !! t) as [[]|]; naive_solver.
Qed.

(** A step that only wakes tasks. *)
Lemma sinv_quiet s k :
  sinv s → kinv k → (∀ t, obs k t = obs (ks s) t) → (∀ t, t ∈ ids k → t ∈ ids (ks s)) →
  keeps_mutexes (ks s) k → sinv (set_ks k s).
Proof.
  intros [Hk Hc Hs] Hk' Ho Hi Hm. split; simpl; try done.
  intros t. apply (cont_ok_same s); [done|apply Ho|apply Hi|done|apply Hc].
Qed.

Lemma quiet_keeps k k' : quiet_step k k' → keeps_mutexes k k'.
Proof. intros Q m. by rewrite (qs_mutexes _ _ Q). Qed.

Lemma sinv_quiet_step s k : sinv s → kinv k → quiet_step (ks s) k → sinv (set_ks k s).
Proof.
  intros Hs Hk Q. apply sinv_quiet; try done; [apply Q| |by apply quiet_keeps].
  intros t. unfold ids. by rewrite (qs_timeouts _ _ Q).
Qed.

(** Messages of the checks on how the interface is used. *)
Definition misuse (w : string) : Prop :=
  w ∈ ["called from an IRQ context"; "Assertion failed: delay > 0";
       "Assertion failed: mutex->owner == K_NULL"; "Assertion failed: k_mutex_holding(mutex)";
       "Assertion failed: count >= 0"; "bad condition variable"; "bad semaphore"; "bad mailbox";
       "Assertion failed: cond->type == K_CONDVAR_TYPE";
       "Assertion failed: sem->type == K_SEMAPHORE_TYPE";
       "Assertion failed: mailbox->type == K_MAILBOX_TYPE"]%string.

(** The two internal assertions of mutex.c that can fail. *)
Definition internal (w : string) : Prop :=
  w = "Assertion failed: mutex->owner != K_NULL"%string ∨
  w = "Assertion failed: current->priority <= mutex->priority"%string.

Definition may_panic (w : string) : Prop := misuse w ∨ internal w.

Lemma lock_err_may (w : string) : lock_err w → may_panic w.
Proof.
  intros [->|[->|[->| ->]]]; [right; by left|right; by right|left|left]; unfold misuse; set_solver.
Qed.

Lemma sleep_misuse_may lc timeout (w : string) : sleep_misuse lc timeout w → may_panic w.
Proof. intros [[_ ->]|[_ ->]]; left; unfold misuse; set_solver. Qed.

Lemma free_task_ok c s t :
  sinv s → free_task c s = Some t →
  ∃ y x, cpus (ks s) !! c = Some y ∧ cpu_task y = Some t ∧ conts s !! t = None ∧
    tasks (ks s) !! t = Some x ∧ state x = RUNNING ∧ sleep_on_mutex x = None ∧ t ∉ ids (ks s).
Proof.
  intros Hs Hf. unfold free_task in Hf. destruct (cpus (ks s) !! c) as [y|] eqn:Hy; [|done]. simpl in Hf.
  destruct (cpu_task y) as [t'|] eqn:Hyt; [|done]. simpl in Hf.
  destruct (conts s !! t') eqn:Hc; [done|]. simplify_eq.
  destruct (current_ok _ _ _ _ _ (proj2 (si_k _ Hs)) Hy Hyt) as (x & Hx & Hr).
  exists y, x. split_and!; try done.
  - apply (c_awake _ _ (proj2 (si_k _ Hs)) t x); [done|done|by rewrite Hr].
  - pose proof (si_cont _ Hs t) as Hct. unfold cont_ok in Hct. rewrite Hc in Hct. apply Hct.
Qed.

Lemma current_of c k y t : cpus k !! c = Some y → cpu_task y = Some t → current c k = Ok t.
Proof. intros Hy Ht. unfold current, cpu_at. rewrite Hy. simpl. by rewrite Ht. Qed.

(** [t] has gone off its CPU into the continuation [x]. *)
Lemma sinv_left s s' k' t (kd : tkind) (sl : option mid) (x : option cont) c :
  sinv s → kinv k' → left_cpu (ks s) c t kd sl k' →
  (∀ u, u ≠ t → u ∈ ids k' → u ∈ ids (ks s)) →
  ks s' = k' → conts s' = partial_alter (λ _, x) t (conts s) → sems s' = sems s →
  (∀ s0, conts s0 !! t = x → ks s0 = k' → cont_ok s0 t) → sinv s'.
Proof.
  intros [Hk Hc Hs] Hk' [L1 L2 _] Hids Hks Hcs Hsm Ht. split; [by rewrite Hks| |by rewrite Hsm].
  intros u. destruct (decide (u = t)) as [->|Hne].
  - apply Ht; [|done]. by rewrite Hcs, lookup_partial_alter_eq.
  - apply (cont_ok_same s); [by rewrite Hcs, lookup_partial_alter_ne|..|done]; rewrite Hks.
    + by rewrite L1, decide_False.
    + auto.
    + intros m. by rewrite L2.
Qed.

(** The task is not in the middle of a call, or in one of its loops. *)
Definition awake s t : Prop :=
  match conts s !! t with None | Some (CRetry _ _) => True | _ => False end.

Lemma awake_ok s c y t :
  sinv s → cpus (ks s) !! c = Some y → cpu_task y = Some t →
  ∃ x, tasks (ks s) !! t = Some x ∧ state x = RUNNING ∧ sleep_on_mutex x = None ∧ t ∉ ids (ks s) ∧ awake s t.
Proof.
  intros Hs Hy Hyt. destruct (current_ok _ _ _ _ _ (proj2 (si_k _ Hs)) Hy Hyt) as (x & Hx & Hr).
  exists x. pose proof (c_awake _ _ (proj2 (si_k _ Hs)) t x ltac:(done) Hx ltac:(by rewrite Hr)) as Hsl.
  pose proof (si_cont _ Hs t) as Hct. unfold cont_ok, awake, obs in *. rewrite Hx in Hct. simpl in Hct. rewrite Hr in Hct.
  destruct (conts s !! t) as [[]|]; naive_solver.
Qed.

(** Sleeping on a wait queue other than a mutex's. *)
Lemma sinv_sleep s c y t q st timeout (cn : cont) :
  sinv s → cpus (ks s) !! c = Some y → cpu_task y = Some t → is_wait q = true → sleeping st = true →
  (∃ l, cn = CWait timeout l ∧ loop_ok l) ∨ (∃ w m, cn = CCond w m timeout ∧ is_Some (mutexes (ks s) !! m)) →
  wp (sleep_begin c q st timeout (ks s)) may_panic
    (λ k, ∀ s', ks s' = k → conts s' = <[t := cn]> (conts s) → sems s' = sems s → sinv s').
Proof.
  intros Hs Hy Hyt Hq Hst Hcn. destruct (awake_ok s c y t Hs Hy Hyt) as (x & Hx & Hr & Hsl & Hn & _).
  pose proof (si_k _ Hs) as [Hk Hc].
  eapply wp_mono; [apply (sleep_begin_ok (ks s) c y t x q st timeout); try done|apply sleep_misuse_may|].
  { by apply cwf_exempt. }
  { unfold may_sleep_on. by destruct q. }
  intros k (Hk' & L & Hids & _) s' Hks Hcs Hsm. rewrite Hsl in L.
  eapply (sinv_left s s' k t Live None (Some cn) c); try done.
  - intros u Hne [?|[-> _]]%Hids; [done|done].
  - intros s0 H0 Hk0. unfold cont_ok. rewrite H0, Hk0, (lc_obs _ _ _ _ _ _ L), decide_True by done.
    assert (t ∈ ids k → timeout ≠ 0) by (intros [?|[_ ?]]%Hids; [done|done]).
    destruct Hcn as [(l & -> & Hl)|(w & m & -> & Hm)]; [done|]. split_and!; try done.
    by rewrite (lc_mutexes _ _ _ _ _ _ L).
Qed.

(** A turn of the locking loop taken by a task whose continuation is [f]. *)
Lemma sinv_locked s0 s c y t m timeout r k :
  sinv s0 → cpus (ks s0) !! c = Some y → cpu_task y = Some t →
  locked (ks s0) c t m timeout r k → is_Some (mutexes (ks s0) !! m) →
  (∀ u, u ≠ t → conts s !! u = conts s0 !! u) → sems s = sems s0 →
  ∀ (cn : option cont),
  match r with
  | Some _ => cn = None
  | None => cn = Some (CMutex m timeout) ∨ (∃ v, cn = Some (CRelock m v) ∧ timeout = 0)
  end →
  ∀ s', ks s' = k → conts s' = partial_alter (λ _, cn) t (conts s) → sems s' = sems s → sinv s'.
Proof.
  intros Hs0 Hy Hyt (Hk' & Hkm & Hr) Hm Hcs Hsm cn Hcn s' Hks' Hcs' Hsm'.
  destruct (awake_ok s0 c y t Hs0 Hy Hyt) as (x & Hx & Hrun & Hsl & Hn & _).
  split; [by rewrite Hks'| |rewrite Hsm', Hsm; apply Hs0].
  intros u. destruct (decide (u = t)) as [->|Hne].
  - unfold cont_ok. rewrite Hcs', lookup_partial_alter_eq, Hks'. destruct r as [r|].
    + destruct Hr as (Ho & _ & Ht & _). subst cn. unfold ids. rewrite Ht, Ho. split; [done|].
      intros kd sl. unfold obs. rewrite Hx. simpl. congruence.
    + destruct Hr as (Ho & _ & Hids & _).
      assert (t ∈ ids k → timeout ≠ 0) as Hto by (intros [?|[_ ?]]%Hids; done).
      destruct Hcn as [->|(v & -> & ->)]; rewrite Ho, decide_True by done; split_and!; auto.
      intros Hin. by apply Hto in Hin.
  - apply (cont_ok_same s0); rewrite ?Hks'; try done; [|..|apply Hs0].
    + rewrite Hcs', lookup_partial_alter_ne by done. auto.
    + destruct r as [r|]; destruct Hr as [Ho _]; rewrite Ho; [done|by rewrite decide_False].
    + destruct r as [r|].
      * destruct Hr as (_ & _ & Ht & _). unfold ids. by rewrite Ht.
      * destruct Hr as (_ & _ & Hids & _). rewrite Hids. naive_solver.
Qed.

(** *** Steps preserve the invariant *)

(** A scheduler operation that only wakes tasks, as a step. *)
Lemma lift_quiet f s E :
  (∀ k, kinv k → wp (f k) E (λ k', kinv k' ∧ quiet_step k k')) → sinv s →
  wp (lift f s) E (λ s', ∃ k, s' = set_ks k s ∧ sinv s' ∧ quiet_step (ks s) k).
Proof.
  intros Hf Hs. unfold lift. apply wp_bind. eapply wp_mono; [apply Hf, Hs|done|].
  intros k [Hk Q]. simpl. exists k. split_and!; [done| |done]. by apply sinv_quiet_step.
Qed.

Lemma wake_all_quiet q r E :
  (∀ p, q ≠ QRun p) → ∀ k, kinv k → wp (_k_sched_wakeup_all_locked q r k) E (λ k', kinv k' ∧ quiet_step k k').
Proof.
  intros Hq k Hk. unfold _k_sched_wakeup_all_locked.
  destruct (wakeup_loop_ok q r Hq _ k Hk eq_refl) as (k' & -> & ? & ? & _). done.
Qed.

Lemma wake_one_quiet q r E :
  (∀ p, q ≠ QRun p) → ∀ k, kinv k →
  wp ('(_, k) ← _k_sched_wakeup_one_locked q r k; Ok k) E (λ k', kinv k' ∧ quiet_step k k').
Proof.
  intros Hq k Hk. destruct (wakeup_one_ok q r k Hq Hk) as (o & k' & -> & ? & ? & _). done.
Qed.

(** Changes outside the scheduler and the continuations. *)
Lemma sinv_objects s s' :
  sinv s → ks s' = ks s → conts s' = conts s → (∀ i x, sems s' !! i = Some x → 0 ≤ count x) → sinv s'.
Proof.
  intros [Hk Hc Hs] E1 E2 Hs'. split; [by rewrite E1| |done].
  intros t. unfold cont_ok. rewrite E1, E2. apply Hc.
Qed.

Lemma sinv_set_sem s i x : sinv s → 0 ≤ count x → sinv (set_sem i x s).
Proof.
  intros Hs Hx. apply (sinv_objects s); try done. intros j z. simpl. rewrite lookup_insert.
  case_decide; [congruence|apply Hs].
Qed.

Lemma sinv_reply c r s : sinv s → is_Some (cpus (ks s) !! c) → wp (reply c r s) may_panic sinv.
Proof.
  intros Hs [y Hy]. unfold reply, cpu_at. rewrite Hy. simpl.
  destruct (cpu_task y); apply (sinv_objects s); try done; apply Hs.
Qed.

(** A call returns to a task that is awake. *)
Lemma sinv_return s0 s t r :
  sinv s0 → awake s0 t → ks s = ks s0 → conts s = conts s0 → sems s = sems s0 → sinv (return_ t r s).
Proof.
  intros Hs Ha E1 E2 E3. split; simpl; rewrite ?E1, ?E3; [apply Hs| |apply Hs].
  intros u. pose proof (si_cont _ Hs u) as Hu. unfold cont_ok, awake in *. simpl. rewrite E1, E2.
  destruct (decide (u = t)) as [->|].
  - rewrite lookup_partial_alter_eq. destruct (conts s0 !! t) as [[]|]; naive_solver.
  - rewrite lookup_partial_alter_ne by done. done.
Qed.

Lemma set_cont_insert t (x : cont) s : conts (set_cont t (Some x) s) = <[t := x]> (conts s).
Proof. done. Qed.

(** *** Semaphores *)

Lemma sem_turn_ok c y t i timeout st s :
  sinv s → cpus (ks s) !! c = Some y → cpu_task y = Some t → sleeping st = true →
  wp (sem_turn c t i timeout st s) may_panic sinv.
Proof.
  intros Hs Hy Hyt Hst. unfold sem_turn, sem_at. apply wp_bind, wp_deref.
  { intros _. left. unfold misuse. set_solver. }
  intros x Hx. pose proof (si_sem _ Hs i x Hx) as Hn. apply wp_bind. unfold k_semaphore_try_get_locked.
  rewrite (proj2 (Z.leb_le _ _)) by done. cbn [k_assert mbind outcome_bind].
  destruct (awake_ok s c y t Hs Hy Hyt) as (z & _ & _ & _ & _ & Haw).
  destruct (Z.eqb_spec (count x) 0) as [E|E]; cbn [wp].
  - change (0 <=? K_ERR_AGAIN) with false. apply wp_bind.
    eapply wp_mono; [eapply (sinv_sleep s c y t _ _ _ (CWait timeout (LSem i timeout st))); eauto|done|].
    intros k Hk. simpl. by apply Hk.
  - rewrite (proj2 (Z.leb_le _ _)) by lia. cbn [wp].
    apply (sinv_return (set_sem i (MkSem (sem_valid x) (count x - 1)) s)); try done.
    apply sinv_set_sem; [done|simpl; lia].
Qed.

Lemma sem_ok_wp i s Q :
  (∀ x, sems s !! i = Some x → sem_valid x = true → Q x) → wp (sem_ok i s) may_panic Q.
Proof.
  intros HQ. unfold sem_ok, sem_at. apply wp_bind, wp_deref; [intros _; left; unfold misuse; set_solver|].
  intros x Hx. apply wp_bind, wp_assert; [intros _; left; unfold misuse; set_solver|]. intros Hv. simpl. auto.
Qed.

Lemma sem_put_ok i s : sinv s → wp (k_semaphore_put i s) may_panic sinv.
Proof.
  intros Hs. unfold k_semaphore_put. apply wp_bind, sem_ok_wp. intros x Hx Hv.
  pose proof (si_sem _ Hs i x Hx) as Hn. rewrite (proj2 (Z.leb_le _ _)) by done. cbn [k_assert mbind outcome_bind].
  eapply wp_mono; [apply lift_quiet; [by apply wake_one_quiet|apply (sinv_set_sem s); [done|simpl; lia]]|done|].
  intros s' (k & _ & ? & _). done.
Qed.

Lemma sem_destroy_ok i s : sinv s → wp (k_semaphore_destroy i s) may_panic sinv.
Proof.
  intros Hs. unfold k_semaphore_destroy. apply wp_bind, sem_ok_wp. intros x Hx Hv. apply wp_bind.
  eapply wp_mono; [apply lift_quiet; [by apply wake_all_quiet|done]|done|].
  intros s' (k & -> & Hs' & _). simpl. apply sinv_set_sem; [done|]. by apply (si_sem _ Hs i x).
Qed.

Lemma sem_try_get_ok c i s :
  sinv s → is_Some (cpus (ks s) !! c) → wp (k_semaphore_try_get c i s) may_panic sinv.
Proof.
  intros Hs Hc. unfold k_semaphore_try_get. apply wp_bind, sem_ok_wp. intros x Hx Hv.
  pose proof (si_sem _ Hs i x Hx) as Hn. unfold k_semaphore_try_get_locked.
  rewrite (proj2 (Z.leb_le _ _)) by done. cbn [k_assert mbind outcome_bind].
  destruct (Z.eqb_spec (count x) 0); cbn [mbind outcome_bind]; (apply sinv_reply; [apply sinv_set_sem; [done|simpl; lia]|done]).
Qed.

(** *** Condition variables *)

Lemma cond_ok_wp w s Q : Q tt → wp (cond_ok w s) may_panic Q.
Proof.
  intros HQ. unfold cond_ok. apply wp_bind, wp_deref; [intros _; left; unfold misuse; set_solver|].
  intros b Hb. apply wp_assert; [intros _; left; unfold misuse; set_solver|]. done.
Qed.

Lemma set_ks_twice k k' s : set_ks k' (set_ks k s) = set_ks k' s.
Proof. done. Qed.

(** Letting go of a mutex, as a step. *)
Lemma sinv_unlocked s t m k :
  sinv s → unlocked (ks s) t m k → sinv (set_ks k s).
Proof.
  intros Hs [U1 U2 U3 U4 (p & U5) _]. apply sinv_quiet; try done.
  - intros u. unfold ids. by rewrite U4.
  - intros m' Hm. rewrite U5. apply lookup_insert_is_Some'. by right.
Qed.

Lemma cond_wait_ok c w m timeout st s t :
  sinv s → free_task c s = Some t → is_Some (mutexes (ks s) !! m) → sleeping st = true →
  wp (k_condvar_timed_wait c w m timeout st s) may_panic sinv.
Proof.
  intros Hs Hf [mx Hm] Hst. destruct (free_task_ok c s t Hs Hf) as (y & x & Hy & Hyt & Hct & Hx & Hr & Hsl & Hn).
  unfold k_condvar_timed_wait. apply wp_bind, cond_ok_wp. rewrite (current_of _ _ _ _ Hy Hyt). cbn [mbind outcome_bind].
  unfold k_mutex_holding, mutex_at. rewrite Hm. cbn [deref mbind outcome_bind].
  apply wp_bind, wp_assert; [intros _; left; unfold misuse; set_solver|]. intros Ho%bool_decide_eq_true.
  destruct (unlock_ok (ks s) t m mx x (si_k _ Hs) Hx Hr Hm Ho) as (k1 & -> & U). cbn [mbind outcome_bind].
  pose proof (sinv_unlocked s t m k1 Hs U) as Hs1. apply wp_bind.
  eapply wp_mono; [eapply (sinv_sleep (set_ks k1 s) c y t _ _ _ (CCond w m timeout)); try done| |].
  - simpl. by rewrite (ul_cpus _ _ _ _ U).
  - right. exists w, m. split; [done|]. simpl. destruct (ul_mutex _ _ _ _ U) as [p ->]. by rewrite lookup_insert_eq.
  - done.
  - intros k2 Hk2. simpl. by apply Hk2.
Qed.

(** *** Being switched to *)

(** The scheduler has just switched to [t]: [k] is the state before the task
    has left what it slept on. *)
Record switching s (t : tid) k : Prop := {
  sw_kwf : kwf None None k;
  sw_cwf : cwf (Some t) k;
  sw_task : ∃ x x', tasks (ks s) !! t = Some x ∧ tasks k !! t = Some x' ∧ state x' = RUNNING ∧
    sleep_on_mutex x' = sleep_on_mutex x ∧ state x = READY;
  sw_obs : ∀ u, u ≠ t → obs k u = obs (ks s) u;
  sw_mutexes : mutexes k = mutexes (ks s);
  sw_timeouts : timeouts k = timeouts (ks s)
}.

Lemma sinv_woke s t k k1 (cn : option cont) s' :
  sinv s → switching s t k → woke k t k1 →
  match cn with None => True | Some (CRetry l _) => loop_ok l | _ => False end →
  ks s' = k1 → conts s' = partial_alter (λ _, cn) t (conts s) → sems s' = sems s → sinv s'.
Proof.
  intros Hs [_ _ _ S4 S5 S6] W Hcn E1 E2 E3.
  split; [rewrite E1; apply W| |rewrite E3; apply Hs].
  assert (∀ u, u ∈ ids k1 ↔ u ≠ t ∧ u ∈ ids (ks s)) as Hids.
  { intros u. rewrite (wo_ids _ _ _ W). unfold ids. by rewrite S6. }
  intros u. destruct (decide (u = t)) as [->|Hne].
  - unfold cont_ok. rewrite E2, lookup_partial_alter_eq, E1, (wo_obs _ _ _ W), decide_True by done.
    assert (t ∉ ids k1 ∧ ∀ kd sl, Some (Runs, @None mid) = Some (kd, sl) → sl = None).
    { split; [by rewrite Hids; intros [? _]|]. by intros kd sl [= _ <-]. }
    destruct cn as [[]|]; naive_solver.
  - apply (cont_ok_same s); rewrite ?E1; [| | | |apply Hs].
    + by rewrite E2, lookup_partial_alter_ne.
    + rewrite (wo_obs _ _ _ W), decide_False by done. auto.
    + rewrite Hids. tauto.
    + intros m. by rewrite (wo_mutexes _ _ _ W), S5.
Qed.

(** Taking up a turn of a locking loop after [t] has been switched to. *)
Lemma switched_locked s t k k1 c y m timeout r k2 (cn : option cont) s' :
  sinv s → switching s t k → woke k t k1 → cpus k !! c = Some y → cpu_task y = Some t →
  is_Some (mutexes (ks s) !! m) → locked k1 c t m timeout r k2 →
  match r with
  | Some _ => cn = None
  | None => cn = Some (CMutex m timeout) ∨ (∃ v, cn = Some (CRelock m v) ∧ timeout = 0)
  end →
  ks s' = k2 → conts s' = partial_alter (λ _, cn) t (conts s) → sems s' = sems s → sinv s'.
Proof.
  intros Hs Hsw W Hy Hyt Hm Hl Hcn E1 E2 E3.
  set (s0 := set_cont t None (set_ks k1 s)).
  assert (sinv s0) as Hs0 by (by apply (sinv_woke s t k k1 None)).
  apply (sinv_locked s0 s c y t m timeout r k2) with (cn := cn); try done.
  - simpl. by rewrite (wo_cpus _ _ _ W).
  - simpl. by rewrite (wo_mutexes _ _ _ W), (sw_mutexes _ _ _ Hsw).
  - intros u Hne. simpl. by rewrite lookup_partial_alter_ne.
Qed.

Lemma set_cont_id s t cn : conts s !! t = cn → partial_alter (λ _, cn) t (conts s) = conts s.
Proof.
  intros E. apply map_eq. intros u. destruct (decide (u = t)) as [->|].
  - by rewrite lookup_partial_alter_eq.
  - by rewrite lookup_partial_alter_ne.
Qed.

Lemma switched_ok s t k c y :
  sinv s → switching s t k → cpus k !! c = Some y → cpu_task y = Some t →
  wp (switched c t (set_ks k s)) may_panic sinv.
Proof.
  intros Hs Hsw Hy Hyt. pose proof Hsw as [S1 S2 (x & x' & Hx & Hx' & Hr & Hsl & Hrd) S4 S5 S6].
  pose proof (si_cont _ Hs t) as Hct. unfold switched. cbn [conts set_ks ks].
  assert (obs (ks s) t = Some (Live, sleep_on_mutex x)) as Hobs by (unfold obs; rewrite Hx; simpl; by rewrite Hrd).
  unfold cont_ok in Hct. rewrite Hobs in Hct.
  assert (ids k = ids (ks s)) as Hids by (unfold ids; by rewrite S6). rewrite <-Hids in Hct.
  assert (∀ cn, t ∉ ids k → sleep_on_mutex x = None → conts s !! t = cn →
    match cn with None => True | Some (CRetry l _) => loop_ok l | _ => False end → sinv (set_ks k s)) as Hidle.
  { intros cn Hn Hno Hcn Haw. apply (sinv_woke s t k k cn); try done; [|simpl; by rewrite set_cont_id].
    split; try done.
    - split; [done|]. apply (cwf_clear k t x'); try done. congruence.
    - intros u. case_decide; [|done]. subst. unfold obs. rewrite Hx'. simpl. by rewrite Hr, Hsl, Hno.
    - intros u. split; [|tauto]. intros Hu. split; [by intros ->|done]. }
  destruct (conts s !! t) as [[m timeout|w m timeout|m r|timeout l|l r]|] eqn:Ec.
  - destruct Hct as ([= Hsm] & Hm & Hto). apply wp_bind.
    eapply wp_mono; [eapply (lock_resume_ok k c y t m timeout x'); try done; by rewrite S5|apply lock_err_may|].
    intros [r k2] (k1 & W & [[[= -> ->] _]|Hl]); cbn [fst snd wp].
    + by apply (sinv_woke s t k k1 None).
    + destruct r as [r|].
      * by apply (switched_locked s t k k1 c y m timeout (Some r) k2 None).
      * eapply (switched_locked s t k k1 c y m timeout None k2 _); try done. by left.
  - destruct Hct as ([= Hsm] & Hm & Hto).
    destruct (woke_ok k t x' timeout S1 S2 Hx' Hr Hto) as (d & -> & _ & W). cbn [mbind outcome_bind].
    specialize (W ltac:(congruence)). set (k1 := set_timeouts d k) in *.
    apply wp_bind. eapply wp_mono; [eapply (lock_step_ok k1 c y t m 0 x'); try done|apply lock_err_may|].
    { apply W. }
    { simpl. by rewrite S5. }
    intros [r k2] Hl. cbn [fst snd wp relock_done].
    destruct r as [r|]; eapply (switched_locked s t k k1 c y m 0 _ k2 _); try done; simpl; eauto.
  - destruct Hct as ([= Hsm] & Hm & Hn). apply wp_bind.
    eapply wp_mono; [eapply (lock_resume_ok k c y t m 0 x'); try done; by rewrite S5|apply lock_err_may|].
    intros [r' k2] (k1 & W & [[[= -> ->] _]|Hl]); cbn [fst snd wp relock_done].
    + by apply (sinv_woke s t k k1 None).
    + destruct r' as [r'|]; eapply (switched_locked s t k k1 c y m 0 _ k2 _); try done; simpl; eauto.
  - destruct Hct as ([= Hsm] & Hto & Hlo).
    destruct (woke_ok k t x' timeout S1 S2 Hx' Hr Hto) as (d & -> & _ & W). cbn [mbind outcome_bind wp].
    specialize (W ltac:(congruence)). by eapply (sinv_woke s t k _ (Some (CRetry l (sleep_result x')))).
  - destruct Hct as (Hn & Hno & Hlo). cbn [wp]. apply (Hidle (Some (CRetry l r))); try done. by eapply Hno.
  - destruct Hct as [Hn Hno]. cbn [wp]. apply (Hidle None); try done. by eapply Hno.
Qed.

Lemma dispatch_step_ok c s :
  sinv s → enabled (EDispatch c) s = true → wp (k_sched_start_iteration c s) may_panic sinv.
Proof.
  intros Hs He. simpl in He. destruct (cpus (ks s) !! c) as [y|] eqn:Hy; [|done].
  apply bool_decide_eq_true in He. unfold k_sched_start_iteration.
  destruct (dispatch_ok (ks s) c y (si_k _ Hs) Hy He) as (r & k & -> & H). cbn [mbind outcome_bind].
  destruct r as [t|]; [|destruct H as [-> _]; by destruct s].
  destruct H as (x & l & Hx & Hr & _ & _ & Hk & Hc & Ht & Hm & Hd & Hcp & _).
  apply (switched_ok s t k c (MkCpu (Some t) (lock_count y))); try done.
  - split; try done.
    + exists x, (set_state RUNNING (set_link None x)). rewrite Ht, lookup_insert_eq. done.
    + intros u Hne. unfold obs. by rewrite Ht, lookup_insert_ne.
  - by rewrite Hcp, lookup_insert_eq.
Qed.

(** *** Mailboxes *)

Lemma box_ok_wp b s Q :
  (∀ x, boxes s !! b = Some x → Q x) → wp (box_ok b s) may_panic Q.
Proof.
  intros HQ. unfold box_ok, box_at. apply wp_bind, wp_deref; [intros _; left; unfold misuse; set_solver|].
  intros x Hx. apply wp_bind, wp_assert; [intros _; left; unfold misuse; set_solver|]. simpl. auto.
Qed.

Lemma sinv_set_box s b x : sinv s → sinv (set_box b x s).
Proof. intros Hs. apply (sinv_objects s); try done. apply Hs. Qed.

(** What a send or receive leaves alone. *)
Definition same_calls s s' : Prop :=
  conts s' = conts s ∧ cpus (ks s') = cpus (ks s) ∧ ∀ t, obs (ks s') t = obs (ks s) t.

Lemma box_receive_ok b x s :
  sinv s → wp (box_receive b x s) may_panic
    (λ r, match r with Some (_, s') => sinv s' ∧ same_calls s s' | None => True end).
Proof.
  intros Hs. unfold box_receive. destruct (Mailbox.k_mailbox_try_receive_locked (box x)) as [[msg x']|]; [|done].
  apply wp_bind. eapply wp_mono; [apply lift_quiet; [by apply wake_one_quiet|by apply sinv_set_box]|done|].
  intros s' (k & -> & Hs' & Q). simpl. split; [done|]. split_and!; [done|apply Q|apply Q].
Qed.

Lemma box_send_ok b x msg s :
  sinv s → wp (box_send b x msg s) may_panic
    (λ r, match r with Some s' => sinv s' ∧ same_calls s s' | None => True end).
Proof.
  intros Hs. unfold box_send. destruct (Mailbox.k_mailbox_try_send_locked (box x) msg) as [x'|]; [|done].
  apply wp_bind. eapply wp_mono; [apply lift_quiet; [by apply wake_one_quiet|by apply sinv_set_box]|done|].
  intros s' (k & -> & Hs' & Q). simpl. split; [done|]. split_and!; [done|apply Q|apply Q].
Qed.

Lemma same_calls_awake s s' t : same_calls s s' → awake s t → awake s' t.
Proof. intros (E & _ & _). unfold awake. by rewrite E. Qed.

Lemma receive_turn_ok c y t b timeout st s :
  sinv s → cpus (ks s) !! c = Some y → cpu_task y = Some t → sleeping st = true →
  wp (receive_turn c t b timeout st s) may_panic sinv.
Proof.
  intros Hs Hy Hyt Hst. destruct (awake_ok s c y t Hs Hy Hyt) as (z & _ & _ & _ & _ & Haw).
  unfold receive_turn, box_at. apply wp_bind, wp_deref; [intros _; left; unfold misuse; set_solver|].
  intros x Hx. apply wp_bind. eapply wp_mono; [by apply box_receive_ok|done|]. intros [[msg s']|]; simpl.
  - intros [Hs' Hc]. apply (sinv_return s'); try done. by eapply same_calls_awake.
  - intros _. apply wp_bind. eapply wp_mono; [eapply (sinv_sleep s c y t _ _ _ (CWait timeout (LReceive b timeout st))); eauto|done|].
    intros k Hk. simpl. by apply Hk.
Qed.

Lemma send_turn_ok c y t b msg timeout st s :
  sinv s → cpus (ks s) !! c = Some y → cpu_task y = Some t → sleeping st = true →
  wp (send_turn c t b msg timeout st s) may_panic sinv.
Proof.
  intros Hs Hy Hyt Hst. destruct (awake_ok s c y t Hs Hy Hyt) as (z & _ & _ & _ & _ & Haw).
  unfold send_turn, box_at. apply wp_bind, wp_deref; [intros _; left; unfold misuse; set_solver|].
  intros x Hx. apply wp_bind. eapply wp_mono; [by apply box_send_ok|done|]. intros [s'|]; simpl.
  - intros [Hs' Hc]. apply (sinv_return s'); try done. by eapply same_calls_awake.
  - intros _. apply wp_bind. eapply wp_mono; [eapply (sinv_sleep s c y t _ _ _ (CWait timeout (LSend b msg timeout st))); eauto|done|].
    intros k Hk. simpl. by apply Hk.
Qed.

Lemma box_destroy_ok b s : sinv s → wp (k_mailbox_destroy b s) may_panic sinv.
Proof.
  intros Hs. unfold k_mailbox_destroy. apply wp_bind, box_ok_wp. intros x Hx. apply wp_bind.
  eapply wp_mono; [apply lift_quiet; [by apply wake_all_quiet|done]|done|]. intros s1 (k1 & -> & Hs1 & _).
  apply wp_bind. eapply wp_mono; [apply lift_quiet; [by apply wake_all_quiet|done]|done|].
  intros s2 (k2 & -> & Hs2 & _). simpl. by apply sinv_set_box.
Qed.

Lemma box_try_receive_ok c b s :
  sinv s → is_Some (cpus (ks s) !! c) → wp (k_mailbox_try_receive c b s) may_panic sinv.
Proof.
  intros Hs Hc. unfold k_mailbox_try_receive. apply wp_bind, box_ok_wp. intros x Hx. apply wp_bind.
  eapply wp_mono; [by apply box_receive_ok|done|]. intros [[msg s']|].
  - intros [Hs' (_ & Hcp & _)]. destruct Hc as [y Hy]. rewrite <-Hcp in Hy. unfold cpu_at. rewrite Hy. cbn [deref mbind outcome_bind].
    destruct (cpu_task y); (apply sinv_reply; [|simpl; eauto]); [|done]. apply (sinv_objects s'); try done. apply Hs'.
  - intros _. by apply sinv_reply.
Qed.

Lemma box_try_send_ok c b msg s :
  sinv s → is_Some (cpus (ks s) !! c) → wp (k_mailbox_try_send c b msg s) may_panic sinv.
Proof.
  intros Hs Hc. unfold k_mailbox_try_send. apply wp_bind, box_ok_wp. intros x Hx. apply wp_bind.
  eapply wp_mono; [by apply box_send_ok|done|]. intros [s'|].
  - intros [Hs' (_ & Hcp & _)]. apply sinv_reply; [done|by rewrite Hcp].
  - intros _. by apply sinv_reply.
Qed.

(** *** Mutexes and tasks *)

Lemma mutex_lock_ok c m timeout s t :
  sinv s → free_task c s = Some t → is_Some (mutexes (ks s) !! m) →
  wp (k_mutex_timed_lock c m timeout s) may_panic sinv.
Proof.
  intros Hs Hf Hm. destruct (free_task_ok c s t Hs Hf) as (y & x & Hy & Hyt & Hct & Hx & Hr & Hsl & Hn).
  unfold k_mutex_timed_lock. rewrite (current_of _ _ _ _ Hy Hyt). cbn [mbind outcome_bind].
  apply wp_bind. eapply wp_mono; [eapply (lock_step_ok (ks s) c y t m timeout x); try done; apply Hs|apply lock_err_may|].
  intros [r k] Hl. cbn [fst snd wp].
  destruct r as [r|]; cbn [lock_done fst snd].
  - by apply (sinv_locked s s c y t m timeout (Some r) k) with (cn := None).
  - apply (sinv_locked s s c y t m timeout None k) with (cn := Some (CMutex m timeout)); try done. by left.
Qed.

Lemma mutex_try_lock_ok c m s t :
  sinv s → free_task c s = Some t → is_Some (mutexes (ks s) !! m) →
  wp (k_mutex_try_lock c m s) may_panic sinv.
Proof.
  intros Hs Hf [mx Hm]. destruct (free_task_ok c s t Hs Hf) as (y & x & Hy & Hyt & Hct & Hx & Hr & Hsl & Hn).
  unfold k_mutex_try_lock. rewrite (current_of _ _ _ _ Hy Hyt). cbn [mbind outcome_bind]. apply wp_bind.
  eapply wp_mono; [by apply (try_lock_ok (ks s) t m mx x (si_k _ Hs))|intros w (-> & _); right; by right|].
  intros [r k]. assert (∀ k', sinv (set_ks k' s) → sinv (set_ret t r (set_ks k' s))) as Hret.
  { intros k' Hk'. by apply (sinv_objects (set_ks k' s)); try done; apply Hk'. }
  destruct (owner mx) as [o|].
  - intros [= -> ->]. simpl. apply Hret. by destruct s.
  - intros [[= -> ->] Hk]. simpl. apply Hret. apply sinv_quiet; try done.
    + intros u. by apply quiet_taken.
    + intros m' Hm'. simpl. apply lookup_insert_is_Some'. by right.
Qed.

Lemma mutex_unlock_ok c m s t :
  sinv s → free_task c s = Some t → is_Some (mutexes (ks s) !! m) →
  wp (mutex_unlock c m s) may_panic sinv.
Proof.
  intros Hs Hf [mx Hm]. destruct (free_task_ok c s t Hs Hf) as (y & x & Hy & Hyt & Hct & Hx & Hr & Hsl & Hn).
  unfold mutex_unlock, lift, k_mutex_unlock, k_mutex_holding, mutex_at.
  rewrite (current_of _ _ _ _ Hy Hyt). cbn [mbind outcome_bind]. rewrite Hm. cbn [deref mbind outcome_bind].
  apply wp_bind, wp_bind, wp_assert; [intros _; left; unfold misuse; set_solver|]. intros Ho%bool_decide_eq_true.
  destruct (unlock_ok (ks s) t m mx x (si_k _ Hs) Hx Hr Hm Ho) as (k1 & -> & U). simpl.
  by apply (sinv_unlocked s t m).
Qed.

(** The current task leaves the CPU between calls. *)
Lemma sinv_leaves s c t kd k :
  sinv s → awake s t → kinv k → left_cpu (ks s) c t kd None k → timeouts k = timeouts (ks s) → sinv (set_ks k s).
Proof.
  intros Hs Ha Hk L Ht. apply (sinv_left s (set_ks k s) k t kd None (conts s !! t) c); try done.
  - intros u _. unfold ids. by rewrite Ht.
  - simpl. by rewrite set_cont_id.
  - intros s0 H0 Hk0. pose proof (si_cont _ Hs t) as Hct. unfold cont_ok, awake in *.
    rewrite H0, Hk0, (lc_obs _ _ _ _ _ _ L), decide_True by done. unfold ids in *. rewrite Ht.
    destruct (conts s !! t) as [[]|]; try done; destruct_and!; split_and!; try done; by intros ?? [= _ <-].
Qed.

Lemma sinv_stays_or_yields s k1 k2 c b :
  sinv (set_ks k1 s) → kinv k2 → timeouts k2 = timeouts k1 → stays_or_yields k1 c k2 b → sinv (set_ks k2 s).
Proof.
  intros Hs Hk Ht Hy. destruct b; simpl in Hy.
  - destruct Hy as (t & (y & Hy & Hyt) & L).
    destruct (awake_ok (set_ks k1 s) c y t Hs Hy Hyt) as (z & _ & _ & _ & _ & Haw).
    by apply (sinv_leaves (set_ks k1 s) c t Live k2).
  - destruct Hy as (Ho & Hc & Hm). apply (sinv_quiet (set_ks k1 s)); try done; simpl.
    + intros u. unfold ids. by rewrite Ht.
    + intros m. by rewrite Hm.
Qed.

Lemma resume_step_ok c t s :
  sinv s → enabled (EResume c t) s = true → wp (exec (EResume c t) s) may_panic sinv.
Proof.
  intros Hs He. simpl in He. destruct (cpus (ks s) !! c) as [y|] eqn:Hy; [|done].
  apply andb_true_iff in He as [_ He]. apply bool_decide_eq_true in He as [x Hx]. cbn [exec].
  destruct (task_resume_ok (ks s) c y t x (si_k _ Hs) Hy Hx) as (r & b & k & -> & Hk & Ht & H). simpl.
  case_decide as Hst; [|destruct H as (_ & _ & ->); by destruct s].
  destruct H as (_ & k1 & Hy1 & Hk1 & Ht1 & Hc1 & Hm1 & Ho1).
  apply (sinv_stays_or_yields s k1 k c b); try done; [|congruence].
  split; [done| |apply Hs]. intros u. destruct (decide (u = t)) as [->|Hne].
  - pose proof (si_cont _ Hs t) as Hct. unfold cont_ok in *. simpl. rewrite Ho1, decide_True by done.
    unfold ids, obs in *. rewrite Ht1. rewrite Hx in Hct. simpl in Hct. rewrite Hst in Hct.
    destruct (conts s !! t) as [[]|]; destruct_and!; try done; split_and!; try done; by intros ?? [= _ <-].
  - apply (cont_ok_same s); simpl; [done| | | |apply Hs].
    + by rewrite Ho1, decide_False.
    + unfold ids. by rewrite Ht1.
    + intros m. by rewrite Hm1.
Qed.

Lemma leave_step_ok c s t (f : kst → outcome kst) :
  sinv s → free_task c s = Some t →
  (∀ y x, cpus (ks s) !! c = Some y → cpu_task y = Some t → tasks (ks s) !! t = Some x →
     t ∉ ids (ks s) → ∃ k kd, f (ks s) = Ok k ∧ kinv k ∧ left_cpu (ks s) c t kd None k ∧ timeouts k = timeouts (ks s)) →
  wp (lift f s) may_panic sinv.
Proof.
  intros Hs Hf H. destruct (free_task_ok c s t Hs Hf) as (y & x & Hy & Hyt & Hct & Hx & Hr & Hsl & Hn).
  destruct (H y x Hy Hyt Hx Hn) as (k & kd & E & Hk & L & Ht). unfold lift. rewrite E. simpl.
  apply (sinv_leaves s c t kd k); try done. unfold awake. by rewrite Hct.
Qed.

Lemma yield_step_ok c s t : sinv s → free_task c s = Some t → wp (lift (k_task_yield c) s) may_panic sinv.
Proof.
  intros Hs Hf. apply (leave_step_ok c s t); [done..|]. intros y x Hy Hyt Hx _.
  destruct (yield_ok (ks s) c y t x (si_k _ Hs) Hy Hyt Hx) as (k & E & Hk & L & Ht & _).
  exists k, Live. unfold k_task_yield. rewrite (current_of _ _ _ _ Hy Hyt). cbn [mbind outcome_bind]. by split_and!.
Qed.

Lemma suspend_step_ok c s t : sinv s → free_task c s = Some t → wp (lift (k_task_suspend c) s) may_panic sinv.
Proof.
  intros Hs Hf. apply (leave_step_ok c s t); [done..|]. intros y x Hy Hyt Hx _.
  destruct (stop_ok (ks s) c y t x SUSPENDED (si_k _ Hs) Hy Hyt Hx) as (k & E & Hk & L & Ht & _); [by left|].
  exists k, Off. unfold k_task_suspend. rewrite (current_of _ _ _ _ Hy Hyt). cbn [mbind outcome_bind]. by split_and!.
Qed.

Lemma exit_step_ok c s t : sinv s → free_task c s = Some t → wp (lift (k_task_exit c) s) may_panic sinv.
Proof.
  intros Hs Hf. apply (leave_step_ok c s t); [done..|]. intros y x Hy Hyt Hx Hn.
  destruct (stop_ok (ks s) c y t x DESTROYED (si_k _ Hs) Hy Hyt Hx) as (k & E & Hk & L & Ht & _); [by right|].
  exists k, Off. unfold k_task_exit. rewrite (current_of _ _ _ _ Hy Hyt). cbn [mbind outcome_bind].
  assert (filter (λ n, Timeout.te_id n ≠ t) (timeouts (ks s)) = timeouts (ks s)) as ->.
  { apply filter_all, Forall_forall. intros n Hin Hid. apply Hn, list_elem_of_fmap. eauto. }
  assert (set_timeouts (timeouts (ks s)) (ks s) = ks s) as -> by (by destruct (ks s)). by split_and!.
Qed.

Lemma create_step_ok t p s : sinv s → enabled (ECreate t p) s = true → sinv (set_ks (k_task_create t p (ks s)) s).
Proof.
  intros Hs He. simpl in He. bool_to_prop.
  destruct (create_ok (ks s) t p (si_k _ Hs)) as [Hk Ho]; [done|done|].
  split; [done| |apply Hs]. intros u. destruct (decide (u = t)) as [->|Hne].
  - pose proof (si_cont _ Hs t) as Hct. unfold cont_ok in *. simpl. rewrite Ho, decide_True by done.
    assert (obs (ks s) t = None) as Hno by (unfold obs; by rewrite H). rewrite Hno in Hct.
    destruct (conts s !! t) as [[]|]; destruct_and!; try done; split_and!; try done; by intros ?? [= _ <-].
  - apply (cont_ok_same s); simpl; [done| |done|by intros m|apply Hs]. by rewrite Ho, decide_False.
Qed.

Lemma irq_end_step_ok c s :
  sinv s → is_Some (cpus (ks s) !! c) → wp (exec (EIrqEnd c) s) may_panic sinv.
Proof.
  intros Hs [y Hy]. cbn [exec]. apply wp_bind.
  eapply wp_mono; [by apply (irq_end_ok (ks s) c y (si_k _ Hs))|intros w [_ ->]; left; unfold misuse; set_solver|].
  intros [b k] (Hk & Ht & Hk1 & Hb). cbn [fst snd wp] in *.
  apply (sinv_stays_or_yields s (upd_cpus <[c := MkCpu (cpu_task y) (lock_count y - 1)]> (ks s)) k c b); try done.
  apply sinv_quiet; try done. by intros m.
Qed.

Lemma go_on_ok c s : sinv s → enabled (EGoOn c) s = true → wp (go_on c s) may_panic sinv.
Proof.
  intros Hs He. simpl in He. destruct (cpus (ks s) !! c) as [y|] eqn:Hy; [|done]. simpl in He.
  destruct (cpu_task y) as [t|] eqn:Hyt; [|done]. simpl in He.
  unfold go_on. rewrite (current_of _ _ _ _ Hy Hyt). cbn [mbind outcome_bind].
  destruct (awake_ok s c y t Hs Hy Hyt) as (z & _ & _ & _ & _ & Haw).
  pose proof (si_cont _ Hs t) as Hct. unfold cont_ok in Hct.
  destruct (conts s !! t) as [[| | | |l r]|] eqn:Ec; try done. destruct Hct as (_ & _ & Hl).
  destruct (r <? 0); [by apply (sinv_return s)|]. destruct l; cbn [loop_ok] in Hl; apply Is_true_true in Hl.
  - by eapply sem_turn_ok.
  - by eapply receive_turn_ok.
  - by eapply send_turn_ok.
  - by apply (sinv_return s).
Qed.

(** Events that only wake tasks. *)
Lemma wakes_step_ok f s :
  (∀ k, kinv k → wp (f k) may_panic (λ k', kinv k' ∧ quiet_step k k')) → sinv s →
  wp (lift f s) may_panic sinv.
Proof. intros Hf Hs. eapply wp_mono; [by apply lift_quiet|done|]. by intros s' (k & _ & ? & _). Qed.

Lemma wake_step_ok t s : sinv s → is_Some (tasks (ks s) !! t) → wp (lift (k_task_wake t) s) may_panic sinv.
Proof.
  intros Hs [x Hx]. destruct (wake_ok (ks s) t x (si_k _ Hs) Hx) as (k & E & Hk & Q).
  unfold lift. rewrite E. simpl. by apply sinv_quiet_step.
Qed.

Lemma fini_step_ok m s : sinv s → is_Some (mutexes (ks s) !! m) → wp (lift (k_mutex_fini m) s) may_panic sinv.
Proof.
  intros Hs [mx Hm]. unfold lift. apply wp_bind.
  eapply wp_mono; [by apply (fini_ok (ks s) m mx (si_k _ Hs))| |].
  - intros w [_ ->]. left. unfold misuse. set_solver.
  - intros k (Hk & Q & _). simpl. by apply sinv_quiet_step.
Qed.

Lemma init_step_ok m s : sinv s → mutexes (ks s) !! m = None → sinv (set_ks (k_mutex_init m (ks s)) s).
Proof.
  intros Hs Hm. destruct (init_ok (ks s) m (si_k _ Hs) Hm) as [Hk Ho]. apply sinv_quiet; try done.
  intros m' Hm'. simpl. apply lookup_insert_is_Some'. by right.
Qed.

Lemma cond_destroy_ok w s : sinv s → wp (k_condvar_destroy w s) may_panic sinv.
Proof.
  intros Hs. unfold k_condvar_destroy. apply wp_bind, cond_ok_wp, wp_bind.
  eapply wp_mono; [apply wakes_step_ok; [by apply wake_all_quiet|done]|done|].
  intros s' Hs'. apply (sinv_objects s'); try done. apply Hs'.
Qed.

Lemma cond_notify_ok w s :
  sinv s → wp (k_condvar_notify_one w s) may_panic sinv ∧ wp (k_condvar_notify_all w s) may_panic sinv.
Proof.
  intros Hs. split; apply wp_bind, cond_ok_wp, wakes_step_ok; try done; [by apply wake_one_quiet|by apply wake_all_quiet].
Qed.

Lemma wait_sleep_ok c w timeout s t :
  sinv s → free_task c s = Some t → wp (k_waitqueue_timed_sleep c w timeout s) may_panic sinv.
Proof.
  intros Hs Hf. destruct (free_task_ok c s t Hs Hf) as (y & x & Hy & Hyt & _).
  unfold k_waitqueue_timed_sleep. rewrite (current_of _ _ _ _ Hy Hyt). cbn [mbind outcome_bind]. apply wp_bind.
  eapply wp_mono; [eapply (sinv_sleep s c y t _ _ _ (CWait timeout (LWait w))); eauto|done|].
  intros k Hk. simpl. by apply Hk.
Qed.

Lemma irq_begin_step_ok c s :
  sinv s → is_Some (cpus (ks s) !! c) → wp (lift (k_irq_handler_begin c) s) may_panic sinv.
Proof.
  intros Hs [y Hy]. destruct (irq_begin_ok (ks s) c y (si_k _ Hs) Hy) as (k & E & Hk & Ho & Hm & Ht & _).
  unfold lift. rewrite E. simpl. apply sinv_quiet; try done.
  - intros t. unfold ids. by rewrite Ht.
  - intros m. by rewrite Hm.
Qed.

Lemma adjust_step_ok delta s : sinv s → wp (lift (_k_sched_adjust_timeouts delta) s) may_panic sinv.
Proof.
  intros Hs. unfold lift. destruct (decide (0 ≤ delta)) as [Hd|Hd].
  - destruct (adjust_timeouts_ok (ks s) delta (si_k _ Hs) Hd) as (k & -> & Hk & Ho & Hm & _ & _ & Hi & _).
    simpl. apply sinv_quiet; try done. intros m. by rewrite Hm.
  - destruct (adjust_back_ok (ks s) delta (si_k _ Hs)) as (k & -> & Hk & Ht & Hm & _ & Hi); [lia|].
    simpl. apply sinv_quiet; try done.
    + intros t. unfold obs. by rewrite Ht.
    + intros t. by rewrite Hi.
    + intros m. by rewrite Hm.
Qed.

Lemma tick_step_ok c s : sinv s → is_Some (cpus (ks s) !! c) → wp (exec (ETick c) s) may_panic sinv.
Proof.
  intros Hs [y Hy]. destruct (quantum_ok (ks s) c y (si_k _ Hs) Hy) as (k & E & Hk & Ho & Hm & Ht & _).
  cbn [exec]. unfold tick_sched. apply wp_bind, wp_bind. unfold lift at 1. rewrite E. cbn [mbind outcome_bind wp].
  assert (sinv (set_ks k s)) as Hs1.
  { apply sinv_quiet; try done; [|intros m; by rewrite Hm]. intros t. unfold ids. by rewrite Ht. }
  destruct (negb _); [done|]. apply wp_bind. eapply wp_mono; [apply adjust_step_ok|done|].
  - apply (sinv_objects (set_ks k s)); try done. apply Hs1.
  - done.
Qed.

Lemma tick_master_ok s :
  let delta := k_tick_counter s + 1 - k_tick_prev_counter s in
  sinv s → is_Some (cpus (ks s) !! K_CPU_ID_MASTER) → 0 ≤ delta →
  ∃ s', tick_sched K_CPU_ID_MASTER s = Ok (Some delta, s') ∧
    k_tick_counter s' = k_tick_counter s + 1 ∧ k_tick_prev_counter s' = k_tick_counter s + 1.
Proof.
  intros delta Hs [y Hy] Hd. destruct (quantum_ok (ks s) _ y (si_k _ Hs) Hy) as (k & E & Hk & _).
  unfold tick_sched, lift. rewrite E. cbn [mbind outcome_bind negb bool_decide].
  rewrite bool_decide_eq_true_2 by done. cbn [negb ks set_ticks set_ks k_tick_counter k_tick_prev_counter].
  fold delta. destruct (adjust_timeouts_ok k delta Hk Hd) as (k' & -> & _). by eexists.
Qed.

(** *** Every step *)

Lemma call_ok c s t (f : tid → outcome sys) :
  sinv s → free_task c s = Some t →
  (∀ y, cpus (ks s) !! c = Some y → cpu_task y = Some t → wp (f t) may_panic sinv) →
  wp (t ← current c (ks s); f t) may_panic sinv.
Proof.
  intros Hs Hf H. destruct (free_task_ok c s t Hs Hf) as (y & x & Hy & Hyt & _).
  rewrite (current_of _ _ _ _ Hy Hyt). by apply (H y).
Qed.

Lemma exec_ok e s : sinv s → enabled e s = true → wp (exec e s) may_panic sinv.
Proof.
  intros Hs He. pose proof He as He'.
  destruct e; simpl in He'; bool_to_prop;
    repeat match goal with H : is_Some (free_task _ _) |- _ => destruct H as [t0 Hf] end.
  all: try (cbn [exec]; by eauto using dispatch_step_ok, go_on_ok, yield_step_ok, suspend_step_ok,
    exit_step_ok, wake_step_ok, fini_step_ok, mutex_lock_ok, mutex_try_lock_ok, mutex_unlock_ok,
    cond_destroy_ok, cond_wait_ok, sem_destroy_ok, sem_try_get_ok, sem_put_ok, box_destroy_ok,
    box_try_receive_ok, box_try_send_ok, wait_sleep_ok, irq_begin_step_ok, tick_step_ok).
  - by apply create_step_ok.
  - by apply resume_step_ok.
  - by apply init_step_ok.
  - apply (sinv_objects s); try done. apply Hs.
  - by apply cond_notify_ok.
  - by apply cond_notify_ok.
  - by apply sinv_set_sem.
  - cbn [exec]. apply wp_bind, sem_ok_wp. intros _ _ _. apply (call_ok _ _ t0); [done..|]. eauto using sem_turn_ok.
  - cbn [exec]. unfold k_mailbox_create, Mailbox.k_mailbox_create. rewrite (proj2 (Z.eqb_neq msz 0)) by lia.
    simpl. by apply sinv_set_box.
  - cbn [exec]. apply wp_bind, box_ok_wp. intros _ _. apply (call_ok _ _ t0); [done..|]. eauto using receive_turn_ok.
  - cbn [exec]. apply wp_bind, box_ok_wp. intros _ _. apply (call_ok _ _ t0); [done..|]. eauto using send_turn_ok.
  - apply wakes_step_ok; [by apply wake_one_quiet|done].
  - apply wakes_step_ok; [by apply wake_all_quiet|done].
  - by apply irq_end_step_ok.
  - apply (sinv_objects s); try done. apply Hs.
Qed.

Lemma boot_inv n : sinv (boot n).
Proof.
  split; [| |done].
  2: { intros t. unfold cont_ok. simpl. rewrite lookup_empty. by split; [apply not_elem_of_nil|]. }
  assert (∀ c y, cpus (ks (boot n)) !! c = Some y → y = MkCpu None 0) as Hidle.
  { intros c y Hy. apply elem_of_list_to_map_2, list_elem_of_fmap in Hy as (? & ? & _). congruence. }
  split; split; try done.
  - intros q t. split; [by intros ?%elem_of_nil|]. by intros (x & Hx & _).
  - intros q. constructor.
  - intros m. constructor.
  - intros c y t Hy. by rewrite (Hidle c y Hy).
  - intros c1 c2 y1 y2 t Hy1 Ht. by rewrite (Hidle c1 y1 Hy1) in Ht.
  - intros c y Hy. by rewrite (Hidle c y Hy).
  - split_and!; simpl; [apply Forall_nil_2|done|apply NoDup_nil_2].
  - by intros t _ ?%elem_of_nil.
Qed.

Lemma reachable_inv n s : reachable n s → sinv s.
Proof.
  induction 1 as [|e s s' _ IH He E]; [apply boot_inv|].
  pose proof (exec_ok e s IH He) as H. by rewrite E in H.
Qed.

Lemma run_reachable n es s s' : reachable n s → run es s = Ok s' → reachable n s'.
Proof.
  revert s. induction es as [|e es IH]; intros s Hr E; simpl in E; [congruence|].
  destruct (enabled e s) eqn:He; [|done]. simpl in E. destruct (exec e s) as [s1|] eqn:E1; [|done].
  apply (IH s1); [by eapply reach_step|done].
Qed.

Lemma eff_le_saved ms x : eff ms x ≤ saved_priority x.
Proof. unfold eff. induction (owned_mutexes x); simpl; lia. Qed.

Lemma eff_le_mpr ms x m : m ∈ owned_mutexes x → eff ms x ≤ mpr ms m.
Proof.
  unfold eff. induction (owned_mutexes x) as [|m' l IH]; intros Hin; [by apply elem_of_nil in Hin|].
  apply elem_of_cons in Hin as [->|Hin]; simpl; [lia|]. specialize (IH Hin). lia.
Qed.

(** *** What holds in every run *)

(** C1: whatever the interleaving of the CPUs, a step of the kernel core from a
    reachable state completes, or fails one of the checks on how the interface
    is used, or one of the two assertions of mutex.c listed in [internal]: no
    list operation, no other assertion and no search of the scheduler ever
    fails, and the propagation of a raised priority along a chain of mutexes
    always ends. *)
Theorem core_no_unexpected_panic (ncpu : nat) s e :
  reachable ncpu s → enabled e s = true →
  match exec e s with Ok s' => reachable ncpu s' | Panic w => misuse w ∨ internal w end.
Proof.
  intros Hr He. pose proof (exec_ok e s (reachable_inv _ _ Hr) He) as H.
  destruct (exec e s) eqn:E; [|done]. by eapply reach_step.
Qed.

(** C3: in every reachable state each task is on the one queue its state calls
    for, and on no other: a ready task on the run queue of its priority, a
    sleeping task on one wait queue, a running task on none and on exactly one
    CPU, and a suspended or destroyed task nowhere. *)
Theorem task_placement (ncpu : nat) s t x :
  reachable ncpu s → tasks (ks s) !! t = Some x →
  (∀ q, t ∈ queues (ks s) q ↔ link x = Some q) ∧
  (∀ q, NoDup (queues (ks s) q)) ∧
  (state x = RUNNING ↔ ∃ c y, cpus (ks s) !! c = Some y ∧ cpu_task y = Some t) ∧
  (∀ c1 c2 y1 y2, cpus (ks s) !! c1 = Some y1 → cpu_task y1 = Some t →
     cpus (ks s) !! c2 = Some y2 → cpu_task y2 = Some t → c1 = c2) ∧
  match state x with
  | READY => link x = Some (QRun (priority x))
  | SLEEP | SLEEP_UNWAKEABLE => ∃ q, link x = Some q ∧ ∀ p, q ≠ QRun p
  | _ => link x = None
  end.
Proof.
  intros Hr Hx. destruct (reachable_inv _ _ Hr) as [[Hk Hc] _ _]. split_and!.
  - intros q. rewrite (w_link _ _ _ Hk). naive_solver.
  - apply Hk.
  - split; [by apply (c_all _ _ Hc)|]. intros (c & y & Hy & Ht).
    destruct (c_run _ _ Hc c y t Hy Ht) as (x' & Hx' & ?). congruence.
  - intros. by eapply (c_inj _ _ Hc).
  - pose proof (w_placed _ _ _ Hk _ _ Hx) as Hp. unfold placed in Hp.
    destruct (state x); try done; destruct (sleep_on_mutex x); naive_solver.
Qed.

(** C2: in every reachable state, the owner of a mutex runs at the priority of
    its most urgent waiter or better: its priority is the best of its own and
    of the recorded priorities of the mutexes it owns, which bound those of
    their waiters; the waiters are queued in the order of their priorities. *)
Theorem priority_inheritance (ncpu : nat) s m mx t :
  reachable ncpu s → mutexes (ks s) !! m = Some mx → owner mx = Some t →
  ∃ x, tasks (ks s) !! t = Some x ∧ m ∈ owned_mutexes x ∧ priority x ≤ saved_priority x ∧
    priority x = eff (mutexes (ks s)) x ∧
    (∀ u xu, u ∈ queues (ks s) (QMutex m) → tasks (ks s) !! u = Some xu →
       priority x ≤ m_priority mx ≤ priority xu) ∧
    StronglySorted (λ u1 u2, pr (ks s) u1 ≤ pr (ks s) u2) (queues (ks s) (QMutex m)).
Proof.
  intros Hr Hm Ho. destruct (reachable_inv _ _ Hr) as [[Hk Hc] _ _].
  apply (w_owner _ _ _ Hk m mx t Hm) in Ho as (x & Hx & Hin). exists x.
  pose proof (w_eff _ _ _ Hk t x ltac:(done) Hx) as He.
  split_and!; try done; [|..|by apply (w_sorted _ _ _ Hk)].
  - rewrite He. apply eff_le_saved.
  - intros u xu Hu Hxu. split.
    + rewrite He. transitivity (mpr (mutexes (ks s)) m); [by apply eff_le_mpr|]. unfold mpr. by rewrite Hm.
    + pose proof (w_bound _ _ _ Hk m mx u ltac:(done) Hm Hu) as Hb. unfold pr in Hb. by rewrite Hxu in Hb.
Qed.

(** C4: an idle CPU of a reachable state switches to the task that has been
    ready the longest among those of the best ready priority, which becomes
    its current task and leaves the run queue, or finds that no task is ready. *)
Theorem dispatch_picks_highest (ncpu : nat) s c y :
  reachable ncpu s → cpus (ks s) !! c = Some y → cpu_task y = None →
  ∃ r k, sched_dispatch c (ks s) = Ok (r, k) ∧
    match r with
    | None => k = ks s ∧ ∀ u xu, tasks (ks s) !! u = Some xu → state xu ≠ READY
    | Some t => ∃ x l, tasks (ks s) !! t = Some x ∧ state x = READY ∧
        queues (ks s) (QRun (priority x)) = t :: l ∧
        (∀ u xu, tasks (ks s) !! u = Some xu → state xu = READY → priority x ≤ priority xu) ∧
        tasks k = <[t := set_state RUNNING (set_link None x)]> (tasks (ks s)) ∧
        cpus k = <[c := MkCpu (Some t) (lock_count y)]> (cpus (ks s)) ∧
        mutexes k = mutexes (ks s) ∧ timeouts k = timeouts (ks s)
    end.
Proof.
  intros Hr Hy Hyt. destruct (dispatch_ok (ks s) c y (si_k _ (reachable_inv _ _ Hr)) Hy Hyt) as (r & k & E & H).
  exists r, k. split; [done|]. destruct r as [t|]; [|done].
  destruct H as (x & l & ? & ? & ? & ? & _ & _ & ? & ? & ? & ? & _). exists x, l. by split_and!.
Qed.

(** C5: what locking a mutex does in a reachable state, by the owner of the
    mutex.  A free mutex is taken: the call returns 0, the task owns the mutex
    and has it in its list, and nothing else changes; only the assertion that
    the task is as urgent as the mutex can fail.  The owner itself gets
    K_ERR_DEADLK, and nothing changes.  Anybody else does not return: the
    task sleeps on the mutex, off its CPU, in the timeout queue exactly if it
    gave a timeout, the owner is the same and has at least its priority. *)
Theorem mutex_lock_spec (ncpu : nat) s c t x m mx timeout :
  reachable ncpu s → free_task c s = Some t → tasks (ks s) !! t = Some x → mutexes (ks s) !! m = Some mx →
  match exec (EMutexLock c m timeout) s, owner mx with
  | Ok s', None => conts s' !! t = None ∧ rets s' !! t = Some 0 ∧
      mutexes (ks s') = <[m := MkMutex (Some t) (m_priority mx)]> (mutexes (ks s)) ∧
      tasks (ks s') = <[t := set_owned (m :: owned_mutexes x) x]> (tasks (ks s)) ∧
      queues (ks s') = queues (ks s) ∧ cpus (ks s') = cpus (ks s) ∧ timeouts (ks s') = timeouts (ks s)
  | Panic w, None => w = prio_assert ∧ m_priority mx < priority x
  | Ok s', Some o =>
      if decide (o = t) then conts s' !! t = None ∧ rets s' !! t = Some K_ERR_DEADLK ∧ ks s' = ks s
      else conts s' !! t = Some (CMutex m timeout) ∧ t ∈ queues (ks s') (QMutex m) ∧
        (∃ y, cpus (ks s') !! c = Some y ∧ cpu_task y = None) ∧
        (t ∈ ids (ks s') ↔ timeout ≠ 0) ∧
        ∃ mx' xo, mutexes (ks s') !! m = Some mx' ∧ owner mx' = Some o ∧
          tasks (ks s') !! o = Some xo ∧ priority xo ≤ pr (ks s') t
  | Panic w, Some o => o ≠ t ∧ lock_err w
  end.
Proof.
  intros Hr Hf Hx Hm. pose proof (reachable_inv _ _ Hr) as Hs.
  destruct (free_task_ok c s t Hs Hf) as (y & x' & Hy & Hyt & Hct & Hx' & Hrun & Hsl & Hn).
  assert (wp (mutex_lock_step c t m timeout (ks s)) lock_err (λ rk, locked (ks s) c t m timeout rk.1 rk.2)) as Hl
    by (eapply (lock_step_ok (ks s) c y t m timeout x); [apply Hs|done..|eauto]).
  pose proof (lock_step_cases (ks s) t m mx x c timeout Hx Hm) as Hc.
  cbn [exec]. unfold k_mutex_timed_lock. rewrite (current_of _ _ _ _ Hy Hyt). cbn [mbind outcome_bind].
  destruct (owner mx) as [o|] eqn:Ho; [case_decide as Hot|].
  - rewrite Hc. simpl. by rewrite lookup_partial_alter_eq, lookup_insert_eq.
  - destruct (mutex_lock_step c t m timeout (ks s)) as [[r k]|]; [|done]. cbn [mbind outcome_bind].
    rewrite (Hc r k eq_refl) in *. unfold lock_done. simpl in *. destruct Hl as (Hk & _ & _ & (y' & _ & Hcp) & Hids & Hq & Hmo).
    rewrite lookup_partial_alter_eq. destruct (Hmo m mx Hm) as (mx' & Hmx' & Ho'). rewrite Ho in Ho'. pose proof (proj1 Hk) as Hw.
    destruct (proj1 (w_owner _ _ _ Hw m mx' o Hmx') Ho') as (xo & Hxo & Hin). split_and!; try done.
    + rewrite Hcp, lookup_insert_eq. eauto.
    + rewrite Hids. naive_solver.
    + exists mx', xo. split_and!; try done. transitivity (m_priority mx'); [|by apply (w_bound _ _ _ Hw m mx' t)].
      rewrite (w_eff _ _ _ Hw o xo ltac:(done) Hxo). transitivity (mpr (mutexes k) m); [by apply eff_le_mpr|]. unfold mpr. by rewrite Hmx'.
  - destruct Hc as [[-> _]|[-> Hp]]; [|done]. simpl. rewrite lookup_partial_alter_eq, lookup_insert_eq. split_and!; try done.
    apply map_eq. intros u. destruct (decide (u = t)) as [->|Hne]; [by rewrite lookup_alter_eq, lookup_insert_eq, Hx|by rewrite lookup_alter_ne, lookup_insert_ne].
Qed.

Lemma expiry_ok (ncpu : nat) s delta :
  reachable ncpu s → 0 ≤ delta →
  let ds := Timeout.deadlines_from 0 (timeouts (ks s)) in
  ∃ k, _k_sched_adjust_timeouts delta (ks s) = Ok k ∧
    Timeout.deadlines_from 0 (timeouts k) = Timeout.pending delta ds ∧
    mutexes k = mutexes (ks s) ∧ cpus k = cpus (ks s) ∧
    ∀ u x, tasks (ks s) !! u = Some x →
      tasks k !! u = Some (if decide (u ∈ Timeout.expired delta ds ∧ state x = SLEEP)
                           then resumed K_ERR_TIMEDOUT x else x).
Proof.
  intros Hr Hd ds. destruct (adjust_timeouts_ok (ks s) delta (si_k _ (reachable_inv _ _ Hr)) Hd)
    as (k & E & _ & _ & Hm & Hc & Hds & _ & Ht). exists k. split_and!; try done.
  intros u x Hx. rewrite (Ht u x Hx). unfold timed_out. repeat case_decide; naive_solver.
Qed.

(** C6: when the clock advances by [delta] ticks, every task in a wakeable
    sleep whose deadline has passed is made ready with K_ERR_TIMEDOUT; the
    deadlines that have passed leave the queue and the others come [delta]
    closer; tasks whose deadline has not passed or that do not sleep, the mutexes
    and the CPUs do not change. *)
Theorem timeouts_expire (ncpu : nat) s delta :
  reachable ncpu s → 0 ≤ delta →
  let ds := Timeout.deadlines_from 0 (timeouts (ks s)) in
  ∃ k, _k_sched_adjust_timeouts delta (ks s) = Ok k ∧
    Timeout.deadlines_from 0 (timeouts k) = Timeout.pending delta ds ∧
    mutexes k = mutexes (ks s) ∧ cpus k = cpus (ks s) ∧
    (∀ u x, tasks (ks s) !! u = Some x → u ∈ Timeout.expired delta ds → state x = SLEEP →
      tasks k !! u = Some (resumed K_ERR_TIMEDOUT x)) ∧
    (∀ u x, tasks (ks s) !! u = Some x →
      u ∉ Timeout.expired delta ds ∨ state x ≠ SLEEP ∧ state x ≠ SLEEP_UNWAKEABLE → tasks k !! u = Some x).
Proof.
  intros Hr Hd ds. destruct (expiry_ok ncpu s delta Hr Hd) as (k & E & Hds & Hm & Hc & Ht). exists k.
  split_and!; try done; intros u x Hx; rewrite (Ht u x Hx); case_decide; naive_solver.
Qed.

(** A task in an unwakeable sleep does not time out: it loses its deadline and
    sleeps on. *)
Lemma unwakeable_sleeps_on (ncpu : nat) s delta u x :
  reachable ncpu s → 0 ≤ delta → tasks (ks s) !! u = Some x → state x = SLEEP_UNWAKEABLE →
  u ∈ Timeout.expired delta (Timeout.deadlines_from 0 (timeouts (ks s))) →
  ∃ k, _k_sched_adjust_timeouts delta (ks s) = Ok k ∧ tasks k !! u = Some x.
Proof.
  intros Hr Hd Hx Hu _. destruct (expiry_ok ncpu s delta Hr Hd) as (k & E & _ & _ & _ & Ht). exists k.
  split; [done|]. rewrite (Ht u x Hx), decide_False; [done|]. intros [_ ?]. congruence.
Qed.

(** *** Concrete runs *)

Definition after (n : nat) (es : list event) : sys :=
  match run es (boot n) with Ok s => s | Panic _ => boot n end.

Lemma after_reachable n es : reachable n (after n es).
Proof.
  unfold after. destruct (run es (boot n)) eqn:E; [|constructor].
  eapply run_reachable; [constructor|done].
Qed.

(** Task [t] of priority [p] is created and takes CPU 0. *)
Definition start (t : tid) (p : Z) : list event := [ECreate t p; EResume 0 t; EDispatch 0].

(** Task 1 owns mutex 0; task 2 waits for it, at most 7 ticks. *)
Definition contended : list event :=
  start 1 10 ++ [EMutexInit 0; EMutexLock 0 0 0] ++ start 2 5 ++ [EMutexLock 0 0 7].

(** Then task 3 waits as well, and task 1 unlocks the mutex. *)
Definition handed_over : list event :=
  contended ++ [EDispatch 0] ++ start 3 4 ++ [EMutexLock 0 0 0; EDispatch 0; EMutexUnlock 0 0].

(** The assertion of k_mutex_try_lock_locked on priorities can fail: a task
    that unlocks a mutex two tasks wait for, and tries to lock it again before
    the first of them runs, is less urgent than the mutex. *)
Theorem relock_assertion_reachable :
  ∃ s, reachable 1 s ∧ enabled (EMutexTryLock 0 0) s = true ∧
    exec (EMutexTryLock 0 0) s = Panic "Assertion failed: current->priority <= mutex->priority".
Proof. exists (after 1 handed_over). split; [apply after_reachable|]. split; vm_compute; reflexivity. Qed.

(** Task 3 owns mutex 1 and waits for mutex 0, which task 1 has unlocked in
    favour of task 2; task 4 is about to lock mutex 1. *)
Definition unowned_chain : list event :=
  start 1 10 ++ [EMutexInit 0; EMutexInit 1; EMutexLock 0 0 0] ++
  start 3 8 ++ [EMutexLock 0 1 0; EMutexLock 0 0 0; EDispatch 0] ++
  start 2 7 ++ [EMutexLock 0 0 0; EDispatch 0; EMutexUnlock 0 0] ++ start 4 3.

(** The assertion of _k_mutex_may_raise_priority that a mutex with waiters
    has an owner can fail: raising the priority of a task that waits for a
    mutex which has just been unlocked reaches a mutex nobody owns. *)
Theorem owner_assertion_reachable :
  ∃ s, reachable 1 s ∧ enabled (EMutexLock 0 1 0) s = true ∧
    exec (EMutexLock 0 1 0) s = Panic "Assertion failed: mutex->owner != K_NULL".
Proof. exists (after 1 unowned_chain). split; [apply after_reachable|]. split; vm_compute; reflexivity. Qed.

Lemma core_no_unexpected_panic_witness :
  match exec (EDispatch 0) (after 1 contended) with
  | Ok s' => reachable 1 s' | Panic w => misuse w ∨ internal w
  end.
Proof. apply core_no_unexpected_panic; [apply after_reachable|vm_compute; reflexivity]. Defined.

Lemma task_placement_witness :
  ∃ x, tasks (ks (after 1 contended)) !! 2%nat = Some x ∧
    ∀ q, 2%nat ∈ queues (ks (after 1 contended)) q ↔ link x = Some q.
Proof.
  destruct (tasks (ks (after 1 contended)) !! 2%nat) as [x|] eqn:E; [|exfalso; vm_compute in E; discriminate].
  exists x. split; [done|]. by apply (task_placement 1 (after 1 contended) 2 x (after_reachable _ _)).
Defined.

Lemma priority_inheritance_witness :
  ∃ x, tasks (ks (after 1 contended)) !! 1%nat = Some x ∧ priority x = eff (mutexes (ks (after 1 contended))) x.
Proof.
  destruct (mutexes (ks (after 1 contended)) !! 0%nat) as [mx|] eqn:E; [|exfalso; vm_compute in E; discriminate].
  destruct (priority_inheritance 1 (after 1 contended) 0 mx 1 (after_reachable _ _) E) as (x & ? & _ & _ & ? & _).
  - vm_compute in E. injection E as <-. reflexivity.
  - by exists x.
Defined.

Lemma dispatch_picks_highest_witness :
  ∃ r k, sched_dispatch 0 (ks (after 1 contended)) = Ok (r, k).
Proof.
  destruct (dispatch_picks_highest 1 (after 1 contended) 0 (MkCpu None 0)) as (r & k & ? & _);
    [apply after_reachable|vm_compute; reflexivity|reflexivity|]. by exists r, k.
Defined.

(** A state in which tasks 1 and 2 have run, and task 2 is about to lock the
    mutex that task 1 owns; task 1 has the lower priority. *)
Definition before_contention : list event := start 1 10 ++ [EMutexInit 0; EMutexLock 0 0 0] ++ start 2 5.

Lemma mutex_lock_spec_witness :
  let s := after 1 before_contention in
  ∃ s' mx' xo, exec (EMutexLock 0 0 7) s = Ok s' ∧ conts s' !! 2%nat = Some (CMutex 0 7) ∧ 2%nat ∈ queues (ks s') (QMutex 0) ∧
    (2%nat ∈ ids (ks s') ↔ 7 ≠ 0) ∧
    mutexes (ks s') !! 0%nat = Some mx' ∧ owner mx' = Some 1%nat ∧ tasks (ks s') !! 1%nat = Some xo ∧ priority xo ≤ pr (ks s') 2.
Proof.
  intros s. destruct (tasks (ks s) !! 2%nat) as [x|] eqn:Hx; [|exfalso; vm_compute in Hx; discriminate].
  destruct (mutexes (ks s) !! 0%nat) as [mx|] eqn:Hm; [|exfalso; vm_compute in Hm; discriminate].
  assert (owner mx = Some 1%nat) as Ho by (vm_compute in Hm; injection Hm as <-; reflexivity).
  pose proof (mutex_lock_spec 1 s 0 2 x 0 mx 7 (after_reachable _ _) ltac:(vm_compute; reflexivity) Hx Hm) as H.
  destruct (exec (EMutexLock 0 0 7) s) as [s'|] eqn:E; [|exfalso; vm_compute in E; discriminate].
  rewrite Ho in H. destruct (decide (1%nat = 2%nat)) as [Hne|_]; [discriminate|].
  destruct H as (? & ? & _ & ? & mx' & xo & ? & ? & ? & ?). exists s', mx', xo. split_and!; assumption || reflexivity || apply H0.
Defined.

Lemma timeouts_expire_witness :
  ∃ k, _k_sched_adjust_timeouts 9 (ks (after 1 contended)) = Ok k ∧ timeouts k = [].
Proof.
  destruct (timeouts_expire 1 (after 1 contended) 9 (after_reachable _ _) ltac:(lia)) as (k & ? & Hd & _).
  exists k. split; [done|]. destruct (timeouts k); [done|]. vm_compute in Hd. discriminate.
Defined.

End Kernel.
