(* ===== verification/Timer.v ===== *)
(** Software timers (kernel/core/timer.c) and the tick (kernel/core/tick.c).

    Timers are kept in a timeout queue.  The expiry callback of a timer runs
    with the timer lock released: it is a function of the whole state, which
    may start and stop timers and change the rest of the kernel.  The
    reference definition is a simulation on absolute deadlines, whose closed
    form says how often each timer fires and when it fires next. *)

From S2P Require Import Prelude Timeout Kernel.
Import Timeout.
#[local] Open Scope Z_scope.

Module Timer.

(** Callbacks are named by the function pointer. *)
Abbreviation fid := nat.

Record KTimer := MkTimer {
  valid : bool;              (* type == K_TIMER_TYPE *)
  callback : fid;
  callback_arg : Z;
  delay : Z;
  period : Z
}.

Record tst := MkTst {
  timers : gmap eid KTimer;
  k_timer_queue : queue;
  k_timer_current : option eid
}.

Implicit Types (ts : tst) (e : eid) (x : KTimer) (q : queue).

Definition set_queue q ts := MkTst (timers ts) q (k_timer_current ts).
Definition set_current (c : option eid) ts := MkTst (timers ts) (k_timer_queue ts) c.
Definition set_timer e x ts := MkTst (<[e := x]> (timers ts)) (k_timer_queue ts) (k_timer_current ts).

Definition timer_at e ts : outcome KTimer := deref (timers ts !! e) "Assertion failed: timer != K_NULL".
Definition timer_ok e ts : outcome KTimer :=
  x ← timer_at e ts;
  _ ← k_assert (valid x) "Assertion failed: timer->type == K_TIMER_TYPE";
  Ok x.

(** Creating a timer that is queued clears its links in place, which breaks
    the queue: no caller may do that. *)
Definition k_timer_create e (cb : fid) (arg delay period : Z) ts : outcome tst :=
  _ ← k_assert (negb (queued e (k_timer_queue ts))) "timer created while queued";
  Ok (set_timer e (MkTimer true cb arg delay period) ts).

Definition k_timer_enqueue e (d : Z) ts : outcome tst :=
  q ← _k_timeout_queue_add (k_timer_queue ts) e d;
  Ok (set_queue q ts).

Definition k_timer_dequeue e ts : outcome tst :=
  q ← _k_timeout_queue_remove (k_timer_queue ts) e;
  Ok (set_queue q ts).

Definition k_timer_start e ts : outcome (Z * tst) :=
  x ← timer_ok e ts;
  if queued e (k_timer_queue ts) then Ok (Sched.Sched.K_ERR_INVAL, ts)
  else ts ← k_timer_enqueue e (delay x) ts; Ok (0, ts).

Definition k_timer_stop e ts : outcome (Z * tst) :=
  _ ← timer_ok e ts;
  if queued e (k_timer_queue ts) then ts ← k_timer_dequeue e ts; Ok (0, ts)
  else if bool_decide (k_timer_current ts = Some e) then Ok (0, set_current None ts)
  else Ok (0, ts).

Definition k_timer_destroy e ts : outcome (Z * tst) :=
  '(_, ts) ← k_timer_stop e ts;
  x ← timer_at e ts;
  Ok (0, set_timer e (MkTimer false (callback x) (callback_arg x) (delay x) (period x)) ts).

Section Expiry.
(** The callback functions. *)
Context {A : Type} (call : fid → Z → tst * A → outcome (tst * A)).

Definition _k_timer_timeout e (ta : tst * A) : outcome (tst * A) :=
  x ← timer_at e ta.1;
  '(ts, a) ← call (callback x) (callback_arg x) (set_current (Some e) ta.1, ta.2);
  match k_timer_current ts with
  | None => Ok (ts, a)
  | Some e' =>
      _ ← k_assert (bool_decide (e' = e)) "Assertion failed: k_timer_current == timer";
      x ← timer_at e ts;
      ts ← if period x =? 0 then Ok ts else k_timer_enqueue e (period x) ts;
      Ok (set_current None ts, a)
  end.

(** As the callback of the timeout queue. *)
Definition timer_callback e (qa : queue * (tst * A)) : outcome (queue * (tst * A)) :=
  '(ts, a) ← _k_timer_timeout e (set_queue qa.1 qa.2.1, qa.2.2);
  Ok (k_timer_queue ts, (ts, a)).

Definition _k_timer_adjust_timeouts (fuel : nat) (ticks : Z) ts (a : A) : option (outcome (tst * A)) :=
  match _k_timeout_queue_adjust timer_callback fuel (k_timer_queue ts) (ts, a) ticks with
  | None => None
  | Some r => Some ('(q, (ts, a)) ← r; Ok (set_queue q ts, a))
  end.
End Expiry.

(** [k_tick] on CPU [c]: the scheduler's part, then the timers. *)
Definition k_tick (call : fid → Z → tst * Kernel.sys → outcome (tst * Kernel.sys)) (fuel c : nat)
    ts (s : Kernel.sys) : outcome (tst * Kernel.sys) :=
  '(d, s) ← Kernel.tick_sched c s;
  match d with
  | None => Ok (ts, s)
  | Some delta =>
      match _k_timer_adjust_timeouts call fuel delta ts s with
      | None => Panic "out of fuel"
      | Some r => r
      end
  end.

(** *** Reference semantics *)

(** How often a timer due at [d] with period [p] fires up to time [D], and
    when it is due next. *)
Definition firings (D d p : Z) : Z :=
  if D <? d then 0 else if p =? 0 then 1 else (D - d) / p + 1.
Definition next_due (D d p : Z) : option Z :=
  if D <? d then Some d else if p =? 0 then None else Some (d + p * firings D d p).

(** The simulation: the earliest timer that is due fires, and is put back. *)
Fixpoint sim (per : eid → Z) (fuel : nat) (D : Z) (ds : list (eid * Z)) : option (list (eid * Z) * list (eid * Z)) :=
  match ds with
  | [] => Some ([], [])
  | (e, d) :: ds' =>
      if D <? d then Some (ds, [])
      else match fuel with
           | O => None
           | S fuel =>
               let ds1 := if per e =? 0 then ds' else insert_deadline e (d + per e) ds' in
               '(r, log) ← sim per fuel D ds1; Some (r, (e, d) :: log)
           end
  end.

(** *** The loops follow the simulation *)

Section Silent.
(** Callbacks that leave the timers alone. *)
Context {A : Type} (fire : fid → Z → A → A).
Implicit Type a : A.

Definition silent (f : fid) (arg : Z) (ta : tst * A) : outcome (tst * A) := Ok (ta.1, fire f arg ta.2).

Context (T : gmap eid KTimer).
Definition per e : Z := default 0 (period <$> T !! e).
Definition fire_timer e a : A := match T !! e with Some x => fire (callback x) (callback_arg x) a | None => a end.
Definition fire_log (log : list (eid * Z)) a : A := foldl (λ a ed, fire_timer ed.1 a) a log.

(** The queued timers exist and their periods are not negative. *)
Definition known q : Prop := ∀ e, e ∈ te_id <$> q → is_Some (T !! e) ∧ 0 ≤ per e.

Definition put_back e q : queue := if per e =? 0 then q else queue_insert q e (per e).

Lemma callback_step e q ts a :
  timers ts = T → is_Some (T !! e) → 0 ≤ per e → e ∉ te_id <$> q →
  timer_callback silent e (q, (ts, a)) = Ok (put_back e q, (MkTst T (put_back e q) None, fire_timer e a)).
Proof.
  intros HT [x Hx] Hp He. unfold timer_callback, _k_timer_timeout, timer_at. simpl.
  rewrite HT, Hx. simpl. rewrite bool_decide_eq_true_2 by done. simpl. rewrite ?HT, ?Hx. simpl.
  unfold put_back, per, fire_timer in *. rewrite Hx in *. simpl in *.
  destruct (Z.eqb_spec (period x) 0); simpl; [unfold set_current; simpl; by rewrite HT|].
  unfold k_timer_enqueue, _k_timeout_queue_add. rewrite (proj2 (Z.ltb_lt _ _)) by lia. simpl.
  unfold queued. rewrite bool_decide_eq_false_2 by done. simpl. unfold set_current, set_queue. simpl. by rewrite HT.
Qed.

Lemma put_back_deadlines e now q :
  deadlines_from now (put_back e q) =
  (if per e =? 0 then deadlines_from now q else insert_deadline e (now + per e) (deadlines_from now q)).
Proof. unfold put_back. destruct (_ =? _); [done|]. apply queue_insert_deadlines. Qed.

Lemma queue_insert_nonneg q e d : Forall (λ n, 0 ≤ remain n) q → 0 ≤ d → Forall (λ n, 0 ≤ remain n) (queue_insert q e d).
Proof.
  intros Hq. revert d. induction Hq as [|n q Hn Hq IH]; intros d Hd; simpl; [by repeat constructor|].
  destruct (Z.ltb_spec d (remain n)); repeat constructor; simpl; try lia; [done|]. apply IH. lia.
Qed.

Lemma put_back_ok e q :
  0 ≤ per e → e ∉ te_id <$> q → Forall (λ n, 0 ≤ remain n) q → NoDup (te_id <$> q) →
  Forall (λ n, 0 ≤ remain n) (put_back e q) ∧ NoDup (te_id <$> put_back e q) ∧
  ∀ i, i ∈ te_id <$> put_back e q → i = e ∨ i ∈ te_id <$> q.
Proof.
  intros Hp He Hq Hnd. unfold put_back. destruct (_ =? _); [split_and!; auto|]. split_and!.
  - by apply queue_insert_nonneg.
  - rewrite queue_insert_ids. by constructor.
  - intros i. rewrite queue_insert_ids. by intros ?%elem_of_cons.
Qed.

Lemma sim_cons n D e d ds :
  sim per n D ((e, d) :: ds) =
  if D <? d then Some ((e, d) :: ds, []) else
  match n with
  | O => None
  | S n => '(r, log) ← sim per n D (if per e =? 0 then ds else insert_deadline e (d + per e) ds); Some (r, (e, d) :: log)
  end.
Proof. by destruct n. Qed.

Lemma sim_later n D now q :
  D < now → Forall (λ n, 0 ≤ remain n) q →
  sim per n D (deadlines_from now q) = Some (deadlines_from now q, []).
Proof.
  intros HD Hq. destruct n, q as [|m q]; simpl; try done;
    apply Forall_cons in Hq as [? _]; by rewrite (proj2 (Z.ltb_lt _ _)) by lia.
Qed.

Lemma expire_sim n : ∀ fuel q now D ts a r log,
  sim per n D (deadlines_from now q) = Some (r, log) → now ≤ D → (n < fuel)%nat →
  Forall (λ n, 0 ≤ remain n) q → NoDup (te_id <$> q) → known q → timers ts = T →
  ∃ n1 q1 ts1 log1 log2,
    expire_zero (timer_callback silent) fuel q (ts, a) = Some (Ok (q1, (ts1, fire_log log1 a))) ∧
    timers ts1 = T ∧ log = log1 ++ log2 ∧ sim per n1 D (deadlines_from now q1) = Some (r, log2) ∧
    (n1 ≤ n)%nat ∧ ((∃ m, head q = Some m ∧ remain m = 0) → (n1 < n)%nat) ∧
    queue_ok q1 ∧ known q1 ∧ Forall (λ ed, ed.2 = now) log1.
Proof.
  induction n as [n IH] using lt_wf_ind. intros fuel q now D ts a r log Hsim HD Hf Hq Hnd Hkn HT.
  destruct fuel as [|fuel]; [lia|]. destruct q as [|m q].
  { exists n, [], ts, [], log. split_and!; try done. by intros (? & ? & _). }
  pose proof Hnd as [Hm Hnd']%NoDup_cons. pose proof Hq as [Hr Hq']%Forall_cons. simpl in Hsim |- *. rewrite sim_cons in Hsim.
  destruct (Z.eqb_spec (remain m) 0) as [E|E].
  - rewrite (proj2 (Z.ltb_ge _ _)) in Hsim by lia. destruct n as [|n]; [done|].
    destruct (Hkn (te_id m)) as [Hx Hp]; [csimpl; by left|].
    rewrite callback_step by done.
    rewrite E, Z.add_0_r, <-(put_back_deadlines (te_id m) now q) in Hsim.
    destruct (sim per n D _) as [[r' log']|] eqn:Es; [|done]. simpl in Hsim. simplify_eq.
    destruct (put_back_ok (te_id m) q Hp Hm Hq' Hnd') as (P1 & P2 & P3).
    assert (known (put_back (te_id m) q)) as Hkn'.
    { intros i [->|Hi]%P3; [done|]. apply Hkn. csimpl. by right. }
    destruct (IH n ltac:(lia) fuel _ now D (MkTst T (put_back (te_id m) q) None) (fire_timer (te_id m) a) r log'
      Es HD ltac:(lia) P1 P2 Hkn' eq_refl) as (n1 & q1 & ts1 & log1 & log2 & E1 & T1 & -> & S1 & L1 & L2 & K1 & K2 & K3).
    exists n1, q1, ts1, ((te_id m, now) :: log1), log2. rewrite E1. split_and!; try done; try lia. by constructor.
  - exists n, (m :: q), ts, [], log. split_and!; try done; [by rewrite <-sim_cons in Hsim|..].
    + by intros (m' & [= <-] & ?).
    + split_and!; try done. intros m' [= <-]. lia.
Qed.

Lemma adjust_sim fuel : ∀ n q now D ts a r log,
  sim per n D (deadlines_from now q) = Some (r, log) → now ≤ D → (n + 1 < fuel)%nat →
  queue_ok q → known q → timers ts = T →
  ∃ q' ts', adjust_loop (timer_callback silent) fuel q (ts, a) (D - now) = Some (Ok (q', (ts', fire_log log a))) ∧
    timers ts' = T ∧ deadlines_from D q' = r ∧ queue_ok q' ∧ known q'.
Proof.
  induction fuel as [|fuel IH]; intros n q now D ts a r log Hsim HD Hf (Hq & Hhd & Hnd) Hkn HT; [lia|].
  cbn [adjust_loop]. destruct q as [|m q].
  { assert (r = [] ∧ log = []) as [-> ->] by (destruct n; naive_solver).
    exists [], ts. destruct (0 <? _); split_and!; try done. }
  pose proof (Hhd m eq_refl) as Hpos. simpl in Hsim. rewrite sim_cons in Hsim.
  destruct (Z.ltb_spec 0 (D - now)) as [Hd|Hd].
  2: { rewrite (proj2 (Z.ltb_lt _ _)) in Hsim by lia. simplify_eq. exists (m :: q), ts. split_and!; try done.
       simpl. by replace D with now by lia. }
  destruct (Z.ltb_spec (D - now) (remain m)) as [Hlt|Hge].
  - rewrite (proj2 (Z.ltb_lt _ _)) in Hsim by lia. simplify_eq. eexists _, ts. split; [done|].
    apply Forall_cons in Hq as [_ Hq]. split_and!; try done; simpl.
    + by replace (D + (remain m - (D - now))) with (now + remain m) by lia.
    + split_and!; [constructor; [simpl; lia|done]| |done]. intros ? [= <-]. simpl. lia.
  - assert ((if remain m <? D - now then remain m else D - now) = remain m) as ->
      by (destruct (Z.ltb_spec (remain m) (D - now)); lia).
    rewrite Z.sub_diag. rewrite <-sim_cons in Hsim.
    pose proof Hq as [_ Hq']%Forall_cons.
    destruct (expire_sim n fuel (MkEntry (te_id m) 0 :: q) (now + remain m) D ts a r log)
      as (n1 & q1 & ts1 & log1 & log2 & -> & T1 & -> & S1 & _ & L2 & K1 & K2 & _); try done; try lia.
    { simpl. by rewrite Z.add_0_r. }
    { by constructor. }
    specialize (L2 (ex_intro _ _ (conj eq_refl eq_refl))).
    replace (D - now - remain m) with (D - (now + remain m)) by lia. unfold fire_log at 1.
    destruct (IH n1 q1 (now + remain m) D ts1 (fire_log log1 a) r log2) as (q' & ts' & E & ?); try done; try lia.
    exists q', ts'. split; [|done]. unfold fire_log in *. by rewrite E, foldl_app.
Qed.

(** *** Closed form of the simulation *)

Lemma firings_step D d p :
  d ≤ D → 0 ≤ p → firings D d p = 1 + (if p =? 0 then 0 else firings D (d + p) p).
Proof.
  intros Hd Hp. unfold firings. rewrite (proj2 (Z.ltb_ge _ _)) by lia. destruct (Z.eqb_spec p 0); [done|].
  destruct (Z.ltb_spec D (d + p)).
  - rewrite Z.div_small by lia. lia.
  - replace (D - d) with (D - (d + p) + 1 * p) by lia. rewrite Z.div_add by done. lia.
Qed.

Lemma next_due_step D d p : d ≤ D → 0 < p → next_due D d p = next_due D (d + p) p.
Proof.
  intros Hd Hp. unfold next_due. rewrite (proj2 (Z.ltb_ge D d)), (proj2 (Z.eqb_neq p 0)) by lia.
  rewrite (firings_step D d p), (proj2 (Z.eqb_neq p 0)) by lia.
  destruct (Z.ltb_spec D (d + p)); [|f_equal; lia].
  unfold firings. rewrite (proj2 (Z.ltb_lt _ _)) by lia. f_equal. lia.
Qed.

Lemma firings_nonneg D d p : 0 ≤ p → 0 ≤ firings D d p.
Proof.
  intros Hp. unfold firings. destruct (Z.ltb_spec D d); [done|]. destruct (Z.eqb_spec p 0); [done|].
  pose proof (Z.div_pos (D - d) p). lia.
Qed.

Definition total (D : Z) (ds : list (eid * Z)) : nat :=
  foldr (λ ed n, Z.to_nat (firings D ed.2 (per ed.1)) + n)%nat 0%nat ds.

Lemma total_perm D ds ds' : ds ≡ₚ ds' → total D ds = total D ds'.
Proof. unfold total. induction 1; simpl; lia. Qed.

Lemma insert_deadline_perm e t ds : insert_deadline e t ds ≡ₚ (e, t) :: ds.
Proof.
  induction ds as [|d ds IH]; simpl; [done|]. destruct (_ <? _); [done|]. rewrite IH. apply Permutation_swap.
Qed.

Definition in_order (ds : list (eid * Z)) : Prop := StronglySorted (λ d1 d2, d1.2 ≤ d2.2) ds.

Lemma insert_deadline_sorted e t ds : in_order ds → in_order (insert_deadline e t ds).
Proof.
  unfold in_order. induction 1 as [|d ds Hs IH Hd]; simpl; [by repeat constructor|].
  destruct (Z.ltb_spec t d.2).
  - constructor; [by constructor|]. constructor; [simpl; lia|]. eapply Forall_impl; [done|]. simpl. lia.
  - constructor; [done|]. rewrite insert_deadline_perm. by constructor.
Qed.

Lemma deadlines_sorted now q : Forall (λ n, 0 ≤ remain n) q → in_order (deadlines_from now q).
Proof.
  intros Hq. revert now. induction Hq as [|n q Hn Hq IH]; intros now; simpl; [constructor|].
  constructor; [apply IH|]. apply deadlines_ge. done.
Qed.

(** What is due next, of every timer. *)
Definition due (D : Z) (ds : list (eid * Z)) : list (eid * Z) :=
  omap (λ ed, (λ d, (ed.1, d)) <$> next_due D ed.2 (per ed.1)) ds.

Lemma due_perm D ds ds' : ds ≡ₚ ds' → due D ds ≡ₚ due D ds'.
Proof. intros H. unfold due. by rewrite H. Qed.

(** The firings of one timer. *)
Definition times (e : eid) (D d : Z) : list (eid * Z) :=
  (λ i, (e, d + per e * i)) <$> seqZ 0 (firings D d (per e)).

Lemma times_step e D d :
  d ≤ D → 0 ≤ per e → times e D d = (e, d) :: (if per e =? 0 then [] else times e D (d + per e)).
Proof.
  intros Hd Hp. unfold times. rewrite firings_step by done.
  destruct (Z.eqb_spec (per e) 0) as [E|E].
  - rewrite E, Z.add_0_r. simpl. do 2 f_equal. lia.
  - rewrite seqZ_cons by (pose proof (firings_nonneg D (d + per e) (per e) Hp); lia).
    csimpl. f_equal; [f_equal; lia|].
    replace (Z.pred (1 + firings D (d + per e) (per e))) with (firings D (d + per e) (per e)) by lia.
    change (Z.succ 0) with (1 + 0). rewrite <-fmap_add_seqZ, <-list_fmap_compose. apply list_fmap_ext. intros _ i _. simpl. f_equal. lia.
Qed.

Lemma sim_stop D n ds :
  Forall (λ ed, D < ed.2) ds →
  sim per n D ds = Some (ds, []) ∧ due D ds = ds ∧ ∀ e d, (e, d) ∈ ds → times e D d = [].
Proof.
  intros H. split_and!.
  - destruct H as [|[e d]]; [by destruct n|]. rewrite sim_cons. by rewrite (proj2 (Z.ltb_lt _ _)).
  - induction H as [|[e d] ds Hd _ IH]; [done|]. unfold due in *. simpl in *.
    unfold next_due at 1. rewrite (proj2 (Z.ltb_lt _ _)) by done. simpl. f_equal. exact IH.
  - intros e d Hin. rewrite Forall_forall in H. specialize (H _ Hin). unfold times, firings.
    by rewrite (proj2 (Z.ltb_lt _ _)).
Qed.

(** What a simulation of [ds] up to [D] gives. *)
Definition closed (D : Z) (ds r log : list (eid * Z)) : Prop :=
  r ≡ₚ due D ds ∧ in_order log ∧
  Forall (λ ed, ed.2 ≤ D ∧ ∀ e d, head ds = Some (e, d) → d ≤ ed.2) log ∧
  (∀ e, e ∉ ds.*1 → filter (λ ed, ed.1 = e) log = []) ∧
  (∀ e d, (e, d) ∈ ds → filter (λ ed, ed.1 = e) log = times e D d).

Lemma closed_step D e d ds r log :
  let ds1 := if per e =? 0 then ds else insert_deadline e (d + per e) ds in
  d ≤ D → 0 ≤ per e → e ∉ ds.*1 → NoDup ds.*1 → Forall (λ ed, d ≤ ed.2) ds →
  closed D ds1 r log → closed D ((e, d) :: ds) r ((e, d) :: log).
Proof.
  intros ds1 HD Hp He Hnd Hd (C1 & C2 & C3 & C4 & C5).
  assert (ds1 ≡ₚ if per e =? 0 then ds else (e, d + per e) :: ds) as Hperm.
  { subst ds1. destruct (_ =? _); [done|]. apply insert_deadline_perm. }
  assert (Forall (λ ed, d ≤ ed.2) log) as Hlog.
  { destruct ds1 as [|[e1 d1] ds1'] eqn:E1.
    - destruct log as [|[e2 d2] log]; [constructor|]. exfalso.
      specialize (C4 e2 ltac:(apply not_elem_of_nil)). by rewrite filter_cons_True in C4.
    - assert (d ≤ d1).
      { assert ((e1, d1) ∈ (e1, d1) :: ds1') as Hin by (by left). rewrite Hperm in Hin.
        rewrite Forall_forall in Hd. destruct (_ =? _); [by apply (Hd _ Hin)|].
        apply elem_of_cons in Hin as [[= -> ->]|Hin]; [lia|by apply (Hd _ Hin)]. }
      eapply Forall_impl; [exact C3|]. intros [e2 d2] [_ Hh]. specialize (Hh e1 d1 eq_refl). simpl in *. lia. }
  split_and!.
  - rewrite C1, (due_perm _ _ _ Hperm). unfold due. destruct (Z.eqb_spec (per e) 0) as [E|E]; simpl.
    + unfold next_due at 2. rewrite (proj2 (Z.ltb_ge D d)), E by lia. done.
    + by rewrite (next_due_step D d) by lia.
  - by constructor.
  - constructor; [split; [done|by intros ?? [= <- <-]]|].
    rewrite Forall_forall in C3, Hlog |- *. intros ed Hed. split; [by apply C3|]. intros ?? [= <- <-]. by apply Hlog.
  - intros e' He'. csimpl in He'. apply not_elem_of_cons in He' as [Hne He'].
    rewrite filter_cons_False by (simpl; congruence). apply C4. rewrite Hperm. destruct (_ =? _); [done|].
    csimpl. by apply not_elem_of_cons.
  - intros e' d' [[= -> ->]|Hin]%elem_of_cons.
    + rewrite filter_cons_True, times_step by done. f_equal. destruct (_ =? _) eqn:E.
      * apply C4. by rewrite Hperm.
      * apply C5. rewrite Hperm. by left.
    + rewrite filter_cons_False.
      * apply C5. rewrite Hperm. destruct (_ =? _); [done|]. by right.
      * simpl. intros ->. apply He, list_elem_of_fmap. by exists (e', d').
Qed.

Lemma sim_closed D n : ∀ ds,
  (total D ds ≤ n)%nat → in_order ds → NoDup ds.*1 → (∀ e, e ∈ ds.*1 → 0 ≤ per e) →
  ∃ r log, sim per n D ds = Some (r, log) ∧ closed D ds r log.
Proof.
  induction n as [n IH] using lt_wf_ind. intros ds Hn Hs Hnd Hp.
  destruct (decide (Forall (λ ed, D < ed.2) ds)) as [Hall|Hsome].
  { destruct (sim_stop D n ds Hall) as (-> & E & Ht). exists ds, []. split; [done|].
    split_and!; [by rewrite E|constructor|done|done|]. intros e d Hin. by rewrite Ht. }
  destruct ds as [|[e d] ds]; [by destruct Hsome|]. apply StronglySorted_inv in Hs as [Hs Hd].
  csimpl in Hnd. apply NoDup_cons in Hnd as [He Hnd]. simpl in Hd.
  assert (d ≤ D) as HD.
  { apply Z.nlt_ge. intros ?. apply Hsome. constructor; [done|]. eapply Forall_impl; [done|]. simpl. lia. }
  assert (0 ≤ per e) as Hpe by (apply Hp; csimpl; by left).
  rewrite sim_cons, (proj2 (Z.ltb_ge D d)) by done. cbn [total foldr fst snd] in Hn.
  rewrite firings_step in Hn by done. pose proof (firings_nonneg D (d + per e) (per e) Hpe).
  destruct n as [|n]; [destruct (_ =? _); lia|].
  assert ((if per e =? 0 then ds else insert_deadline e (d + per e) ds) ≡ₚ
          if per e =? 0 then ds else (e, d + per e) :: ds) as Hperm.
  { destruct (_ =? _); [done|]. apply insert_deadline_perm. }
  destruct (IH n ltac:(lia) (if per e =? 0 then ds else insert_deadline e (d + per e) ds)) as (r & log & -> & C).
  - rewrite (total_perm _ _ _ Hperm). fold (total D ds) in Hn. destruct (_ =? _); simpl; fold (total D ds); lia.
  - destruct (_ =? _); [done|]. by apply insert_deadline_sorted.
  - rewrite Hperm. destruct (_ =? _); [done|]. csimpl. by constructor.
  - intros i. rewrite Hperm. intros Hi. apply Hp. csimpl. destruct (_ =? _); [by right|done].
  - exists r, ((e, d) :: log). split; [done|]. by apply closed_step.
Qed.

End Silent.

(** The queue is well formed and its timers exist with periods that are not
    negative. *)
Definition timers_ok ts : Prop := queue_ok (k_timer_queue ts) ∧ known (timers ts) (k_timer_queue ts).

Lemma adjust_timers_ok {A} (fire : fid → Z → A → A) ts a delta fuel :
  timers_ok ts → 0 ≤ delta →
  let T := timers ts in let ds := deadlines (k_timer_queue ts) in
  (total T delta ds + 1 < fuel)%nat →
  ∃ ts' log, _k_timer_adjust_timeouts (silent fire) fuel delta ts a = Some (Ok (ts', fire_log fire T log a)) ∧
    timers_ok ts' ∧ timers ts' = T ∧ deadlines_from delta (k_timer_queue ts') ≡ₚ due T delta ds ∧ in_order log ∧
    ∀ e d, (e, d) ∈ ds → filter (λ ed, ed.1 = e) log = times T e delta d.
Proof.
  intros [Hq Hkn] Hd T ds Hf. pose proof Hq as (Hq1 & Hq2 & Hq3).
  destruct (sim_closed T delta (total T delta ds) ds) as (r & log & Hsim & C1 & C2 & _ & _ & C5); [lia|..].
  { by apply deadlines_sorted. }
  { unfold ds. by rewrite deadlines_ids. }
  { intros e. unfold ds. rewrite deadlines_ids. intros He. by apply Hkn. }
  destruct (adjust_sim fire T fuel (total T delta ds) (k_timer_queue ts) 0 delta ts a r log Hsim Hd Hf Hq Hkn eq_refl)
    as (q' & ts' & E & HT & Hr & Hq' & Hkn'). rewrite Z.sub_0_r in E.
  exists (set_queue q' ts'), log. split_and!; try done.
  2: { split; [done|]. simpl. by rewrite HT. }
  2: { simpl. by rewrite Hr. }
  unfold _k_timer_adjust_timeouts.
  replace (_k_timeout_queue_adjust _ fuel _ _ _)
    with (adjust_loop (timer_callback (silent fire)) fuel (k_timer_queue ts) (ts, a) delta); [by rewrite E|].
  destruct fuel as [|fuel]; [lia|]. unfold _k_timeout_queue_adjust.
  destruct (k_timer_queue ts) as [|n q]; [simpl; by destruct (0 <? delta)|].
  destruct (Z.eqb_spec delta 0) as [->|]; [done|].
  pose proof (Hq2 n eq_refl). rewrite (proj2 (Z.eqb_neq (remain n) 0)), (proj2 (Z.ltb_ge delta 0)) by lia. done.
Qed.

(** Advancing the timers by [delta] ticks, with callbacks that leave them
    alone, fires every queued timer at its deadline and then at each multiple
    of its period up to [delta], in the order of time, and leaves it due at
    the first multiple after that, or off the queue when it is one-shot.  The
    loop ends: the number of firings bounds its steps. *)
Theorem timers_fire {A} (fire : fid → Z → A → A) ts a delta fuel :
  timers_ok ts → 0 ≤ delta →
  let T := timers ts in let ds := deadlines (k_timer_queue ts) in
  (total T delta ds + 1 < fuel)%nat →
  ∃ ts' log, _k_timer_adjust_timeouts (silent fire) fuel delta ts a = Some (Ok (ts', fire_log fire T log a)) ∧
    timers_ok ts' ∧ timers ts' = T ∧ deadlines_from delta (k_timer_queue ts') ≡ₚ due T delta ds ∧
    StronglySorted (λ d1 d2, d1.2 ≤ d2.2) log ∧
    ∀ e d, (e, d) ∈ ds →
      filter (λ ed, ed.1 = e) log = (λ i, (e, d + per T e * i)) <$> seqZ 0 (firings delta d (per T e)).
Proof. apply adjust_timers_ok. Qed.

(** A tick on the CPU that keeps the time, from a reachable state of the
    core and with callbacks that make kernel calls, completes: the core is
    again in a reachable state, the tick counter has advanced by one, and the
    timers have been advanced by the ticks since the last time. *)
Theorem k_tick_spec (ncpu : nat) (fire : fid → Z → Kernel.sys → Kernel.sys) ts (s : Kernel.sys) fuel :
  Kernel.reachable ncpu s → is_Some (Sched.Sched.cpus (Kernel.ks s) !! 0%nat) →
  (∀ f arg s', Kernel.reachable ncpu s' → Kernel.reachable ncpu (fire f arg s')) →
  timers_ok ts →
  let delta := Kernel.k_tick_counter s + 1 - Kernel.k_tick_prev_counter s in
  let ds := deadlines (k_timer_queue ts) in
  0 ≤ delta → (total (timers ts) delta ds + 1 < fuel)%nat →
  ∃ ts' s1 s', Kernel.exec (Kernel.ETick 0) s = Ok s1 ∧ k_tick (silent fire) fuel 0 ts s = Ok (ts', s') ∧
    Kernel.reachable ncpu s' ∧ Kernel.k_tick_counter s1 = Kernel.k_tick_counter s + 1 ∧
    Kernel.k_tick_prev_counter s1 = Kernel.k_tick_counter s1 ∧
    timers_ok ts' ∧ deadlines_from delta (k_timer_queue ts') ≡ₚ due (timers ts) delta ds.
Proof.
  intros Hr Hc Hfire Hts delta ds Hd Hf.
  destruct (Kernel.tick_master_ok s (Kernel.reachable_inv _ _ Hr) Hc Hd) as (s1 & E & E1 & E2).
  unfold Kernel.K_CPU_ID_MASTER in E.
  assert (Kernel.reachable ncpu s1) as Hr1.
  { apply (Kernel.reach_step _ (Kernel.ETick 0) s); [done| |].
    - simpl. by rewrite bool_decide_eq_true_2.
    - simpl. by rewrite E. }
  destruct (adjust_timers_ok fire ts s1 delta fuel Hts Hd Hf) as (ts' & log & Ea & Hok & _ & Hdue & _).
  exists ts', s1, (fire_log fire (timers ts) log s1). split_and!; try done.
  - simpl. by rewrite E.
  - unfold k_tick. rewrite E. simpl. fold delta. by rewrite Ea.
  - clear -Hr1 Hfire. unfold fire_log, fire_timer. revert s1 Hr1. induction log as [|ed log IH]; intros s1 Hr1; simpl; [done|].
    apply IH. destruct (_ !! _); auto.
  - congruence.
Qed.

Definition two_timers : tst :=
  MkTst (<[1%nat := MkTimer true 7 70 2 3]> (<[2%nat := MkTimer true 8 80 5 0]> ∅))
    [MkEntry 1 2; MkEntry 2 3] None.

Lemma two_timers_ok : timers_ok two_timers.
Proof.
  split; [split_and!; [by repeat constructor|by intros ? [= <-]|]|].
  - by apply (bool_decide_unpack _); vm_compute.
  - intros e He. simpl in He. set_unfold in He. destruct He as [->|[->|[]]]; (split; [by eexists|vm_compute; discriminate]).
Qed.

Lemma timers_fire_witness :
  ∃ ts', _k_timer_adjust_timeouts (silent (λ f arg (l : list Z), l ++ [arg])) 10 9 two_timers [] =
    Some (Ok (ts', [70; 80; 70; 70])).
Proof.
  destruct (timers_fire (λ f arg (l : list Z), l ++ [arg]) two_timers [] 9 10 two_timers_ok ltac:(lia)
    ltac:(vm_compute; lia)) as (ts' & log & E & _).
  exists ts'. rewrite E. vm_compute in E |- *. congruence.
Defined.

Lemma k_tick_spec_witness :
  ∃ ts' s', k_tick (silent (λ f arg s, s)) 10 0 two_timers (Kernel.boot 1) = Ok (ts', s') ∧ Kernel.reachable 1 s'.
Proof.
  destruct (k_tick_spec 1 (λ f arg s, s) two_timers (Kernel.boot 1) 10 (Kernel.reach_boot 1)) as (ts' & s1 & s' & _ & E & Hr & _);
    [by eexists|done|apply two_timers_ok|vm_compute; discriminate|vm_compute; lia|]. by exists ts', s'.
Defined.

End Timer.
