(* ===== verification/CLib.v ===== *)
(** The C library functions of the kernel (kernel/lib): memory and strings.

    Memory is a finite map from addresses to bytes; reading or writing an
    address that is not mapped is a fault.  Every function is the loop of its
    source on pointers; the theorems relate them to lists of bytes.  Loops over
    strings have no bound in the source: the number of mapped bytes is enough
    fuel, since a loop that goes on past it has met an unmapped address. *)

From S2P Require Import Prelude.
#[local] Open Scope Z_scope.

Module CLib.

Abbreviation ptr := Z.
Abbreviation mem := (gmap Z Z).

Implicit Types (m : mem) (p s : ptr) (n : nat).

Definition load m p : outcome Z := deref (m !! p) "fault".
Definition store m p (v : Z) : outcome mem := _ ← load m p; Ok (<[p := v]> m).

(** [(unsigned char) c]. *)
Definition uchar (c : Z) : Z := c mod 256.

(** *** mem* *)

Fixpoint memchr_loop n m p (uc : Z) : outcome (option ptr) :=
  match n with
  | O => Ok None
  | S n => v ← load m p; if v =? uc then Ok (Some p) else memchr_loop n m (p + 1) uc
  end.
Definition memchr m s (c : Z) n : outcome (option ptr) := memchr_loop n m s (uchar c).

Fixpoint memcmp m s1 s2 n : outcome Z :=
  match n with
  | O => Ok 0
  | S n =>
      v1 ← load m s1;
      v2 ← load m s2;
      if v1 =? v2 then memcmp m (s1 + 1) (s2 + 1) n else Ok (v1 - v2)
  end.

(** [*dst++ = *src++] and [*--dst = *--src], n times. *)
Fixpoint copy_up m (dst src : ptr) n : outcome mem :=
  match n with
  | O => Ok m
  | S n => v ← load m src; m ← store m dst v; copy_up m (dst + 1) (src + 1) n
  end.
Fixpoint copy_down m (dst src : ptr) n : outcome mem :=
  match n with
  | O => Ok m
  | S n => v ← load m (src - 1); m ← store m (dst - 1) v; copy_down m (dst - 1) (src - 1) n
  end.

Definition memcpy m s1 s2 n : outcome mem := copy_up m s1 s2 n.
Definition memmove m s1 s2 n : outcome mem :=
  if (s2 <? s1) && (s1 <? s2 + Z.of_nat n)
  then copy_down m (s1 + Z.of_nat n) (s2 + Z.of_nat n) n
  else copy_up m s1 s2 n.

Fixpoint memset_loop m p (uc : Z) n : outcome mem :=
  match n with
  | O => Ok m
  | S n => m ← store m p uc; memset_loop m (p + 1) uc n
  end.
Definition memset m s (c : Z) n : outcome mem := memset_loop m s (uchar c) n.

(** *** str* *)

(** Fuel for a loop over a string. *)
Definition str_fuel m : nat := S (size m).

Fixpoint strlen_loop (fuel : nat) m p : outcome ptr :=
  match fuel with
  | O => Panic "out of fuel"
  | S fuel => v ← load m p; if v =? 0 then Ok p else strlen_loop fuel m (p + 1)
  end.
Definition strlen m s : outcome Z := p ← strlen_loop (str_fuel m) m s; Ok (p - s).

(** [maxlen] iterations at most; the test of the character comes first. *)
Fixpoint strnlen_loop n m p : outcome Z :=
  v ← load m p;
  if v =? 0 then Ok 0 else
  match n with
  | O => Ok 0
  | S n => r ← strnlen_loop n m (p + 1); Ok (1 + r)
  end.
Definition strnlen m s n : outcome Z := strnlen_loop n m s.

Fixpoint strchr_loop (fuel : nat) m p (ch : Z) : outcome (option ptr) :=
  match fuel with
  | O => Panic "out of fuel"
  | S fuel =>
      v ← load m p;
      if v =? ch then Ok (Some p)
      else if v =? 0 then Ok None
      else strchr_loop fuel m (p + 1) ch
  end.
Definition strchr m s (c : Z) : outcome (option ptr) := strchr_loop (str_fuel m) m s (uchar c).

Fixpoint strcmp_loop (fuel : nat) m s1 s2 : outcome Z :=
  match fuel with
  | O => Panic "out of fuel"
  | S fuel =>
      v1 ← load m s1;
      v2 ← load m s2;
      if v1 =? v2 then if v1 =? 0 then Ok 0 else strcmp_loop fuel m (s1 + 1) (s2 + 1)
      else Ok (v1 - v2)
  end.
Definition strcmp m s1 s2 : outcome Z := strcmp_loop (str_fuel m) m s1 s2.

Fixpoint strncmp m s1 s2 n : outcome Z :=
  match n with
  | O => Ok 0
  | S n =>
      v1 ← load m s1;
      v2 ← load m s2;
      if v1 =? v2 then if v1 =? 0 then Ok 0 else strncmp m (s1 + 1) (s2 + 1) n
      else Ok (v1 - v2)
  end.

Fixpoint strcpy_loop (fuel : nat) m p s2 : outcome mem :=
  match fuel with
  | O => Panic "out of fuel"
  | S fuel =>
      v ← load m s2;
      if v =? 0 then store m p 0
      else m ← store m p v; strcpy_loop fuel m (p + 1) (s2 + 1)
  end.
Definition strcpy m s1 s2 : outcome mem := strcpy_loop (str_fuel m) m s1 s2.

(** The two loops: copying, then padding. *)
Fixpoint strncpy m p s2 n : outcome mem :=
  match n with
  | O => Ok m
  | S n' =>
      v ← load m s2;
      if v =? 0 then memset_loop m p 0 n
      else m ← store m p v; strncpy m (p + 1) (s2 + 1) n'
  end.

Fixpoint strpbrk_loop (fuel : nat) m p s2 : outcome (option ptr) :=
  match fuel with
  | O => Panic "out of fuel"
  | S fuel =>
      v ← load m p;
      if v =? 0 then Ok None else
      r ← strchr m s2 v;
      match r with Some _ => Ok (Some p) | None => strpbrk_loop fuel m (p + 1) s2 end
  end.
Definition strpbrk m s1 s2 : outcome (option ptr) := strpbrk_loop (str_fuel m) m s1 s2.

Fixpoint strspn_loop (fuel : nat) m p s2 : outcome ptr :=
  match fuel with
  | O => Panic "out of fuel"
  | S fuel =>
      v ← load m p;
      if v =? 0 then Ok p else
      r ← strchr m s2 v;
      match r with None => Ok p | Some _ => strspn_loop fuel m (p + 1) s2 end
  end.
Definition strspn m s1 s2 : outcome Z := p ← strspn_loop (str_fuel m) m s1 s2; Ok (p - s1).

(** [state] is the static variable; [empty] is the address of the literal
    [""] it points to when there is nothing left. *)
Definition strtok m (state empty : ptr) (s : option ptr) (sep : ptr) : outcome (option ptr * ptr * mem) :=
  let begin := match s with Some s => s | None => state end in
  k ← strspn m begin sep;
  let begin := begin + k in
  v ← load m begin;
  if v =? 0 then Ok (None, state, m) else
  e ← strpbrk m begin sep;
  match e with
  | Some e => m ← store m e 0; Ok (Some begin, e + 1, m)
  | None => Ok (Some begin, empty, m)
  end.

(** *** Bytes and strings in memory *)

Fixpoint bytes m p (l : list Z) : Prop :=
  match l with
  | [] => True
  | v :: l => m !! p = Some v ∧ bytes m (p + 1) l
  end.

(** The characters of a string are not zero. *)
Definition cstr m p (l : list Z) : Prop := bytes m p (l ++ [0]) ∧ Forall (λ v, 0 < v < 256) l.

Lemma bytes_app m p l1 l2 : bytes m p (l1 ++ l2) ↔ bytes m p l1 ∧ bytes m (p + Z.of_nat (length l1)) l2.
Proof.
  revert p. induction l1 as [|v l1 IH]; intros p; simpl; [rewrite Z.add_0_r; naive_solver|].
  rewrite IH. replace (p + 1 + Z.of_nat (length l1)) with (p + Z.of_nat (S (length l1))) by lia. naive_solver.
Qed.

Lemma bytes_spec m p l : bytes m p l ↔ ∀ i v, l !! i = Some v → m !! (p + Z.of_nat i) = Some v.
Proof.
  revert p. induction l as [|v l IH]; intros p; simpl; [done|]. rewrite IH. split.
  - intros [Hv Hl] [|i] w; simpl; [intros [= <-]; by rewrite Z.add_0_r|]. intros Hw.
    replace (p + Z.of_nat (S i)) with (p + 1 + Z.of_nat i) by lia. by apply Hl.
  - intros H. split; [rewrite <-(H 0%nat v eq_refl); f_equal; lia|]. intros i w Hw.
    replace (p + 1 + Z.of_nat i) with (p + Z.of_nat (S i)) by lia. by apply H.
Qed.

(** Memory with the bytes [l] written at [p]. *)
Fixpoint blit m p (l : list Z) : mem :=
  match l with
  | [] => m
  | v :: l => <[p := v]> (blit m (p + 1) l)
  end.

Lemma lookup_blit m p l a :
  blit m p l !! a = if decide (p ≤ a < p + Z.of_nat (length l)) then l !! Z.to_nat (a - p) else m !! a.
Proof.
  revert p. induction l as [|v l IH]; intros p; simpl; [by rewrite decide_False by lia|].
  destruct (decide (p = a)) as [->|Hne].
  - rewrite lookup_insert_eq, decide_True by lia. by rewrite Z.sub_diag.
  - rewrite lookup_insert_ne, IH by done. case_decide.
    + rewrite decide_True by lia. replace (Z.to_nat (a - p)) with (S (Z.to_nat (a - (p + 1)))) by lia. done.
    + by rewrite decide_False by lia.
Qed.

Lemma blit_app m p l1 l2 : blit m p (l1 ++ l2) = blit (blit m (p + Z.of_nat (length l1)) l2) p l1.
Proof.
  revert p. induction l1 as [|v l1 IH]; intros p; simpl; [by rewrite Z.add_0_r|]. rewrite IH. do 3 f_equal. lia.
Qed.

Lemma blit_cons m p v l : blit m p (v :: l) = blit (<[p := v]> m) (p + 1) l.
Proof.
  apply map_eq. intros a. simpl. destruct (decide (p = a)) as [->|].
  - by rewrite lookup_insert_eq, lookup_blit, decide_False, lookup_insert_eq by lia.
  - rewrite lookup_insert_ne, !lookup_blit by done. by rewrite lookup_insert_ne.
Qed.

Lemma bytes_blit_other m p l q l' :
  bytes m q l' → (q + Z.of_nat (length l') ≤ p ∨ p + Z.of_nat (length l) ≤ q) → bytes (blit m p l) q l'.
Proof.
  rewrite !bytes_spec. intros H Hd i v Hi. apply lookup_lt_Some in Hi as Hlt.
  rewrite lookup_blit, decide_False by lia. by apply H.
Qed.

Lemma bytes_blit m p l : bytes (blit m p l) p l.
Proof.
  apply bytes_spec. intros i v Hi. apply lookup_lt_Some in Hi as Hlt.
  rewrite lookup_blit, decide_True by lia. by replace (Z.to_nat (p + Z.of_nat i - p)) with i by lia.
Qed.

(** The [n] bytes from [p] on can be written. *)
Definition mapped m p (n : Z) : Prop := ∀ a, p ≤ a < p + n → is_Some (m !! a).

Lemma mapped_insert m p (n : Z) a v : mapped m p n → mapped (<[a := v]> m) p n.
Proof. intros H b Hb. apply lookup_insert_is_Some'. right. by apply H. Qed.

Lemma store_ok m p v : is_Some (m !! p) → store m p v = Ok (<[p := v]> m).
Proof. intros [w Hw]. unfold store, load. by rewrite Hw. Qed.

Lemma load_ok m p v : m !! p = Some v → load m p = Ok v.
Proof. intros H. unfold load. by rewrite H. Qed.

Lemma copy_up_ok l : ∀ m s1 s2,
  bytes m s2 l → mapped m s1 (Z.of_nat (length l)) → s1 ≤ s2 ∨ s2 + Z.of_nat (length l) ≤ s1 →
  copy_up m s1 s2 (length l) = Ok (blit m s1 l).
Proof.
  induction l as [|v l IH]; intros m s1 s2 Hb Hm Hd; [done|]. cbn [copy_up length] in *. destruct Hb as [Hv Hb].
  rewrite (load_ok _ _ _ Hv). cbn [mbind outcome_bind]. rewrite store_ok by (apply Hm; lia). cbn [mbind outcome_bind].
  rewrite IH, <-blit_cons; [done|..]; [|intros a Ha; apply lookup_insert_is_Some'; right; apply Hm; lia|lia].
  apply (bytes_blit_other m s1 [v] (s2 + 1) l Hb). simpl. lia.
Qed.

Lemma copy_down_ok l : ∀ m s1 s2,
  bytes m s2 l → mapped m s1 (Z.of_nat (length l)) → s2 < s1 →
  copy_down m (s1 + Z.of_nat (length l)) (s2 + Z.of_nat (length l)) (length l) = Ok (blit m s1 l).
Proof.
  induction l as [|v l IH] using rev_ind; intros m s1 s2 Hb Hm Hd; [done|].
  rewrite length_app in *. simpl in *. rewrite Nat.add_1_r in *. cbn [copy_down].
  apply bytes_app in Hb as [Hb [Hv _]].
  replace (s2 + Z.of_nat (S (length l)) - 1) with (s2 + Z.of_nat (length l)) by lia.
  replace (s1 + Z.of_nat (S (length l)) - 1) with (s1 + Z.of_nat (length l)) by lia.
  rewrite (load_ok _ _ _ Hv). cbn [mbind outcome_bind]. rewrite store_ok by (apply Hm; lia). cbn [mbind outcome_bind].
  rewrite blit_app. simpl. apply IH; [|intros a Ha; apply lookup_insert_is_Some'; right; apply Hm; lia|done].
  apply (bytes_blit_other m (s1 + Z.of_nat (length l)) [v] s2 l Hb). simpl. lia.
Qed.

(** Memmove copies the [n] bytes at [s2] to [s1] whatever their overlap:
    the destination then holds the bytes the source held before, and no other
    byte changes. *)
Theorem memmove_spec m s1 s2 (l : list Z) :
  bytes m s2 l → mapped m s1 (Z.of_nat (length l)) →
  ∃ m', memmove m s1 s2 (length l) = Ok m' ∧ bytes m' s1 l ∧
    ∀ a, a < s1 ∨ s1 + Z.of_nat (length l) ≤ a → m' !! a = m !! a.
Proof.
  intros Hb Hm. exists (blit m s1 l). split_and!.
  - unfold memmove. destruct (Z.ltb_spec s2 s1), (Z.ltb_spec s1 (s2 + Z.of_nat (length l))); simpl;
      first [by apply copy_down_ok|apply copy_up_ok; [done|done|lia]].
  - apply bytes_blit.
  - intros a Ha. by rewrite lookup_blit, decide_False by lia.
Qed.

Lemma memmove_spec_witness :
  let m : mem := list_to_map (zip (seqZ 0 8) [1; 2; 3; 4; 5; 6; 7; 8]) in
  ∃ m', memmove m 2 0 4 = Ok m' ∧ bytes m' 2 [1; 2; 3; 4].
Proof.
  intros m. destruct (memmove_spec m 2 0 [1; 2; 3; 4]) as (m' & H1 & H2 & _).
  - vm_compute. by repeat split.
  - intros a Ha. simpl in Ha. assert (a = 2 ∨ a = 3 ∨ a = 4 ∨ a = 5) as [->|[->|[->| ->]]] by lia; by eexists.
  - by exists m'.
Defined.

(** *** Strings *)

Lemma bytes_size m p l : bytes m p l → (length l ≤ size m)%nat.
Proof.
  intros Hb. rewrite <-(size_dom m).
  transitivity (size (list_to_set (seqZ p (Z.of_nat (length l))) : gset Z)).
  - rewrite size_list_to_set by apply NoDup_seqZ. rewrite length_seqZ. lia.
  - apply subseteq_size. intros a Ha. apply elem_of_list_to_set, elem_of_seqZ in Ha. apply elem_of_dom.
    rewrite bytes_spec in Hb. destruct (lookup_lt_is_Some_2 l (Z.to_nat (a - p))) as [v Hv]; [lia|].
    exists v. rewrite <-(Hb _ _ Hv). f_equal. lia.
Qed.

Lemma cstr_cons m p v l : cstr m p (v :: l) ↔ m !! p = Some v ∧ 0 < v < 256 ∧ cstr m (p + 1) l.
Proof. unfold cstr. simpl. rewrite Forall_cons. naive_solver. Qed.

Lemma cstr_nil m p : cstr m p [] ↔ m !! p = Some 0.
Proof. unfold cstr. simpl. naive_solver. Qed.

Lemma cstr_app m p l1 l2 :
  cstr m p (l1 ++ l2) → bytes m p l1 ∧ Forall (λ v, 0 < v < 256) l1 ∧ cstr m (p + Z.of_nat (length l1)) l2.
Proof.
  intros [H1 [H2 H3]%Forall_app]. rewrite <-app_assoc in H1. apply bytes_app in H1 as [H1 H4]. by split_and!.
Qed.

Lemma cstr_fuel m p l : cstr m p l → (length l < str_fuel m)%nat.
Proof. intros [H _]. apply bytes_size in H. rewrite length_app in H. unfold str_fuel. simpl in H. lia. Qed.

Lemma strlen_loop_ok l : ∀ fuel m p, cstr m p l → (length l < fuel)%nat → strlen_loop fuel m p = Ok (p + Z.of_nat (length l)).
Proof.
  induction l as [|v l IH]; intros [|fuel] m p Hs Hf; simpl in *; try lia.
  - apply cstr_nil in Hs. rewrite (load_ok _ _ _ Hs). simpl. by rewrite Z.add_0_r.
  - apply cstr_cons in Hs as (Hv & ? & Hs). rewrite (load_ok _ _ _ Hv). simpl. rewrite (proj2 (Z.eqb_neq v 0)) by lia.
    rewrite IH by (done || lia). f_equal. lia.
Qed.

Lemma strlen_ok m p l : cstr m p l → strlen m p = Ok (Z.of_nat (length l)).
Proof.
  intros Hs. unfold strlen. rewrite (strlen_loop_ok l) by eauto using cstr_fuel. simpl. f_equal. lia.
Qed.

Lemma strnlen_ok l : ∀ m p n, cstr m p l → strnlen m p n = Ok (Z.of_nat (length l `min` n)).
Proof.
  unfold strnlen. induction l as [|v l IH]; intros m p n Hs.
  - apply cstr_nil in Hs. destruct n; simpl; by rewrite (load_ok _ _ _ Hs).
  - apply cstr_cons in Hs as (Hv & ? & Hs).
    destruct n; simpl; rewrite (load_ok _ _ _ Hv); simpl; rewrite (proj2 (Z.eqb_neq v 0)) by lia; [done|].
    rewrite (IH m (p + 1) n Hs). simpl. f_equal. lia.
Qed.

(** The position of the first [ch], the terminator included. *)
Fixpoint find_char (ch : Z) (l : list Z) : option Z :=
  match l with
  | [] => if ch =? 0 then Some 0 else None
  | v :: l => if v =? ch then Some 0 else (λ i, 1 + i) <$> find_char ch l
  end.

Lemma strchr_loop_ok l : ∀ fuel m p ch, cstr m p l → (length l < fuel)%nat →
  strchr_loop fuel m p ch = Ok ((λ i, p + i) <$> find_char ch l).
Proof.
  induction l as [|v l IH]; intros [|fuel] m p ch Hs Hf; simpl in *; try lia.
  - apply cstr_nil in Hs. rewrite (load_ok _ _ _ Hs). cbn [mbind outcome_bind]. rewrite (Z.eqb_sym ch 0).
    destruct (0 =? ch); simpl; [by rewrite Z.add_0_r|done].
  - apply cstr_cons in Hs as (Hv & ? & Hs). rewrite (load_ok _ _ _ Hv). simpl.
    destruct (v =? ch); simpl; [by rewrite Z.add_0_r|]. rewrite (proj2 (Z.eqb_neq v 0)) by lia.
    rewrite IH by (done || lia). f_equal. destruct (find_char ch l); simpl; [f_equal; lia|done].
Qed.

Lemma strchr_ok m p l c : cstr m p l → strchr m p c = Ok ((λ i, p + i) <$> find_char (uchar c) l).
Proof. intros Hs. apply strchr_loop_ok; eauto using cstr_fuel. Qed.

Lemma find_char_elem ch l : ch ≠ 0 → is_Some (find_char ch l) ↔ ch ∈ l.
Proof.
  intros Hc. induction l as [|v l IH]; simpl.
  - rewrite (proj2 (Z.eqb_neq ch 0)) by done. split; [by intros [? ?]|by intros ?%elem_of_nil].
  - rewrite elem_of_cons. destruct (Z.eqb_spec v ch); [naive_solver|]. rewrite fmap_is_Some, IH. naive_solver.
Qed.

Lemma strchr_member m p l c (A : Type) (yes no : outcome A) :
  cstr m p l → 0 < c < 256 →
  (r ← strchr m p c; match r with Some _ => yes | None => no end) = if decide (c ∈ l) then yes else no.
Proof.
  intros Hs Hc. rewrite (strchr_ok m p l c Hs). unfold uchar. rewrite Z.mod_small by lia.
  pose proof (find_char_elem c l ltac:(lia)) as He. destruct (find_char c l) eqn:E; simpl.
  - rewrite decide_True; [done|]. by apply He.
  - rewrite decide_False; [done|]. intros Hin. apply He in Hin as [? ?]. done.
Qed.

(** Comparison of strings, as numbers of opposite sign or zero. *)
Fixpoint lex (l1 l2 : list Z) : Z :=
  match l1, l2 with
  | [], [] => 0
  | [], v2 :: _ => 0 - v2
  | v1 :: _, [] => v1 - 0
  | v1 :: l1, v2 :: l2 => if v1 =? v2 then lex l1 l2 else v1 - v2
  end.

Lemma strcmp_loop_ok l1 : ∀ l2 fuel m p1 p2, cstr m p1 l1 → cstr m p2 l2 → (length l1 < fuel)%nat →
  strcmp_loop fuel m p1 p2 = Ok (lex l1 l2).
Proof.
  induction l1 as [|v1 l1 IH]; intros [|v2 l2] [|fuel] m p1 p2 H1 H2 Hf; cbn [length] in *; try lia; cbn [strcmp_loop lex].
  - apply cstr_nil in H1, H2. by rewrite (load_ok _ _ _ H1), (load_ok _ _ _ H2).
  - apply cstr_nil in H1. apply cstr_cons in H2 as (H2 & ? & _). rewrite (load_ok _ _ _ H1), (load_ok _ _ _ H2). cbn [mbind outcome_bind].
    by rewrite (proj2 (Z.eqb_neq 0 v2)) by lia.
  - apply cstr_nil in H2. apply cstr_cons in H1 as (H1 & ? & _). rewrite (load_ok _ _ _ H1), (load_ok _ _ _ H2). cbn [mbind outcome_bind].
    by rewrite (proj2 (Z.eqb_neq v1 0)) by lia.
  - apply cstr_cons in H1 as (H1 & ? & H1'), H2 as (H2 & ? & H2'). rewrite (load_ok _ _ _ H1), (load_ok _ _ _ H2). cbn [mbind outcome_bind].
    destruct (v1 =? v2); [|done]. rewrite (proj2 (Z.eqb_neq v1 0)) by lia. apply IH; [done|done|lia].
Qed.

Lemma strncmp_ok n : ∀ l1 l2 m p1 p2, cstr m p1 l1 → cstr m p2 l2 →
  strncmp m p1 p2 n = Ok (lex (take n l1) (take n l2)).
Proof.
  induction n as [|n IH]; intros [|v1 l1] [|v2 l2] m p1 p2 H1 H2; try done; cbn [strncmp take lex].
  - apply cstr_nil in H1, H2. by rewrite (load_ok _ _ _ H1), (load_ok _ _ _ H2).
  - apply cstr_nil in H1. apply cstr_cons in H2 as (H2 & ? & _). rewrite (load_ok _ _ _ H1), (load_ok _ _ _ H2). cbn [mbind outcome_bind].
    by rewrite (proj2 (Z.eqb_neq 0 v2)) by lia.
  - apply cstr_nil in H2. apply cstr_cons in H1 as (H1 & ? & _). rewrite (load_ok _ _ _ H1), (load_ok _ _ _ H2). cbn [mbind outcome_bind].
    by rewrite (proj2 (Z.eqb_neq v1 0)) by lia.
  - apply cstr_cons in H1 as (H1 & ? & H1'), H2 as (H2 & ? & H2'). rewrite (load_ok _ _ _ H1), (load_ok _ _ _ H2). cbn [mbind outcome_bind].
    destruct (v1 =? v2); [|done]. rewrite (proj2 (Z.eqb_neq v1 0)) by lia. by apply IH.
Qed.

(** The order of strings: a proper prefix comes first, and otherwise the first
    difference decides. *)
Definition str_lt (l1 l2 : list Z) : Prop :=
  ∃ pre, (l1 = pre ∧ ∃ v r, l2 = pre ++ v :: r) ∨
         (∃ a b r1 r2, l1 = pre ++ a :: r1 ∧ l2 = pre ++ b :: r2 ∧ a < b).

Lemma str_lt_cons v l1 l2 : str_lt (v :: l1) (v :: l2) ↔ str_lt l1 l2.
Proof.
  split.
  - intros ([|w pre] & [(? & w' & r & ?)|(a & b & r1 & r2 & ? & ? & ?)]); simplify_eq/=; try lia.
    + exists pre. eauto.
    + exists pre. right. eauto 10.
  - intros (pre & [(-> & w & r & ->)|(a & b & r1 & r2 & -> & -> & ?)]); exists (v :: pre); [eauto|]. right. eauto 10.
Qed.

Lemma lex_spec l1 : ∀ l2, Forall (λ v, 0 < v < 256) l1 → Forall (λ v, 0 < v < 256) l2 →
  (lex l1 l2 = 0 ↔ l1 = l2) ∧ (lex l1 l2 < 0 ↔ str_lt l1 l2).
Proof.
  induction l1 as [|v1 l1 IH]; intros [|v2 l2] H1 H2; cbn [lex].
  - split; [done|]. split; [lia|]. intros (pre & [(? & v & r & ?)|(a & b & r1 & r2 & ? & ? & ?)]); by destruct pre.
  - apply Forall_cons in H2 as [? _]. split; [split; [lia|done]|]. split; [|lia]. intros _. exists []. left. eauto.
  - apply Forall_cons in H1 as [? _]. split; [split; [lia|done]|]. split; [lia|].
    intros (pre & [(? & v & r & ?)|(a & b & r1 & r2 & ? & ? & ?)]); by destruct pre.
  - apply Forall_cons in H1 as [? H1], H2 as [? H2]. destruct (Z.eqb_spec v1 v2) as [->|Hne].
    + rewrite str_lt_cons. destruct (IH l2 H1 H2) as [-> ->]. split; [|done]. split; congruence.
    + split; [split; [lia|congruence]|]. split.
      * intros. exists []. right. exists v1, v2, l1, l2. split_and!; [done|done|lia].
      * intros ([|w pre] & [(? & v & r & ?)|(a & b & r1 & r2 & ? & ? & ?)]); simplify_eq/=; lia.
Qed.

(** Strcmp compares strings: its result is zero exactly for equal strings
    and negative exactly when the first string comes before the second in the
    order of unsigned bytes. *)
Theorem strcmp_spec m p1 p2 (l1 l2 : list Z) :
  cstr m p1 l1 → cstr m p2 l2 →
  ∃ r, strcmp m p1 p2 = Ok r ∧ (r = 0 ↔ l1 = l2) ∧ (r < 0 ↔ str_lt l1 l2).
Proof.
  intros H1 H2. exists (lex l1 l2). split.
  - apply strcmp_loop_ok; [done|done|]. by apply cstr_fuel in H1.
  - apply lex_spec; [apply H1|apply H2].
Qed.

Definition two_strings : mem := list_to_map (zip (seqZ 10 6) [97; 98; 0; 97; 99; 0]).

Lemma strcmp_spec_witness :
  ∃ r, strcmp two_strings 10 13 = Ok r ∧ (r < 0 ↔ str_lt [97; 98] [97; 99]).
Proof.
  destruct (strcmp_spec two_strings 10 13 [97; 98] [97; 99]) as (r & E & _ & H).
  - split; [vm_compute; by repeat split|repeat constructor; lia].
  - split; [vm_compute; by repeat split|repeat constructor; lia].
  - by exists r.
Defined.

(** *** Copying strings *)

Lemma strcpy_loop_ok l : ∀ fuel m p s2,
  cstr m s2 l → mapped m p (Z.of_nat (S (length l))) → p ≤ s2 ∨ s2 + Z.of_nat (length l) < p → (length l < fuel)%nat →
  strcpy_loop fuel m p s2 = Ok (blit m p (l ++ [0])).
Proof.
  induction l as [|v l IH]; intros [|fuel] m p s2 Hs Hm Hd Hf; cbn [length strcpy_loop app] in *; try lia.
  - apply cstr_nil in Hs. rewrite (load_ok _ _ _ Hs). simpl. apply store_ok, Hm. lia.
  - apply cstr_cons in Hs as (Hv & ? & Hs). rewrite (load_ok _ _ _ Hv). cbn [mbind outcome_bind].
    rewrite (proj2 (Z.eqb_neq v 0)) by lia. rewrite store_ok by (apply Hm; lia). cbn [mbind outcome_bind].
    rewrite IH, <-blit_cons; [done|..]; [|intros a Ha; apply lookup_insert_is_Some'; right; apply Hm; lia|lia|lia].
    destruct Hs as [Hb Hr]. split; [|done]. apply (bytes_blit_other m p [v] (s2 + 1) _ Hb).
    rewrite length_app. simpl. lia.
Qed.

Lemma memset_loop_ok n : ∀ m p v, mapped m p (Z.of_nat n) → memset_loop m p v n = Ok (blit m p (replicate n v)).
Proof.
  induction n as [|n IH]; intros m p v Hm; [done|]. cbn [memset_loop replicate].
  rewrite store_ok by (apply Hm; lia). cbn [mbind outcome_bind].
  rewrite IH, <-blit_cons; [done|]. intros a Ha. apply lookup_insert_is_Some'. right. apply Hm. lia.
Qed.

(** The [n] bytes strncpy writes for the string [l]. *)
Definition padded n (l : list Z) : list Z := take n l ++ replicate (n - length l) 0.

Lemma strncpy_ok n : ∀ l m p s2,
  cstr m s2 l → mapped m p (Z.of_nat n) → p ≤ s2 ∨ s2 + Z.of_nat (length l) < p →
  strncpy m p s2 n = Ok (blit m p (padded n l)).
Proof.
  induction n as [|n IH]; intros [|v l] m p s2 Hs Hm Hd; try done; cbn [strncpy length] in *.
  - apply cstr_nil in Hs. rewrite (load_ok _ _ _ Hs). cbn [mbind outcome_bind]. by rewrite (memset_loop_ok (S n)).
  - apply cstr_cons in Hs as (Hv & ? & Hs). rewrite (load_ok _ _ _ Hv). cbn [mbind outcome_bind].
    rewrite (proj2 (Z.eqb_neq v 0)) by lia. rewrite store_ok by (apply Hm; lia). cbn [mbind outcome_bind].
    rewrite (IH l); [|..|lia].
    + unfold padded. cbn [take length app Nat.sub]. by rewrite blit_cons.
    + destruct Hs as [Hb Hr]. split; [|done]. apply (bytes_blit_other m p [v] (s2 + 1) _ Hb).
      rewrite length_app. simpl. lia.
    + intros a Ha. apply lookup_insert_is_Some'. right. apply Hm. lia.
Qed.

(** *** Tokens *)

(** How many leading elements satisfy [f]. *)
Fixpoint span_len (f : Z → bool) (l : list Z) : nat :=
  match l with
  | [] => 0
  | v :: l => if f v then S (span_len f l) else 0
  end.

Definition is_sep (seps : list Z) (v : Z) : bool := bool_decide (v ∈ seps).
Definition not_sep (seps : list Z) (v : Z) : bool := negb (is_sep seps v).

Lemma span_len_le f l : (span_len f l ≤ length l)%nat.
Proof. induction l as [|v l IH]; simpl; [done|]. destruct (f v); lia. Qed.

Lemma strspn_loop_ok seps s2 l : ∀ fuel m p,
  cstr m p l → cstr m s2 seps → (length l < fuel)%nat →
  strspn_loop fuel m p s2 = Ok (p + Z.of_nat (span_len (is_sep seps) l)).
Proof.
  induction l as [|v l IH]; intros [|fuel] m p Hs H2 Hf; cbn [length strspn_loop span_len] in *; try lia.
  - apply cstr_nil in Hs. rewrite (load_ok _ _ _ Hs). simpl. f_equal. lia.
  - apply cstr_cons in Hs as (Hv & ? & Hs). rewrite (load_ok _ _ _ Hv). cbn [mbind outcome_bind].
    rewrite (proj2 (Z.eqb_neq v 0)) by lia.
    transitivity (r ← strchr m s2 v; match r with Some _ => strspn_loop fuel m (p + 1) s2 | None => Ok p end).
    { unfold mbind, outcome_bind. by destruct (strchr m s2 v) as [[]|]. }
    rewrite (strchr_member m s2 seps) by done. unfold is_sep. case_decide as Hin.
    + rewrite bool_decide_eq_true_2 by done. rewrite IH by (done || lia). f_equal. unfold is_sep. lia.
    + rewrite bool_decide_eq_false_2 by done. f_equal. lia.
Qed.

Lemma strpbrk_loop_ok seps s2 l : ∀ fuel m p,
  cstr m p l → cstr m s2 seps → (length l < fuel)%nat →
  strpbrk_loop fuel m p s2 =
    Ok (let k := span_len (not_sep seps) l in if (k <? length l)%nat then Some (p + Z.of_nat k) else None).
Proof.
  induction l as [|v l IH]; intros [|fuel] m p Hs H2 Hf; cbn [length strpbrk_loop span_len] in *; try lia.
  - apply cstr_nil in Hs. by rewrite (load_ok _ _ _ Hs).
  - apply cstr_cons in Hs as (Hv & ? & Hs). rewrite (load_ok _ _ _ Hv). cbn [mbind outcome_bind].
    rewrite (proj2 (Z.eqb_neq v 0)) by lia. rewrite (strchr_member m s2 seps) by done.
    unfold not_sep, is_sep. case_decide as Hin.
    + rewrite bool_decide_eq_true_2 by done. simpl. do 2 f_equal. lia.
    + rewrite bool_decide_eq_false_2 by done. cbn [negb]. rewrite IH by (done || lia). f_equal.
      unfold not_sep, is_sep. cbv zeta.
      destruct (Nat.ltb_spec (span_len (λ v : Z, negb (bool_decide (v ∈ seps))) l) (length l)),
        (Nat.ltb_spec (S (span_len (λ v : Z, negb (bool_decide (v ∈ seps))) l)) (S (length l))); try lia; [|done].
      f_equal. lia.
Qed.

(** The maximal runs without separators, [cur] being the run so far. *)
Fixpoint tokens (seps cur l : list Z) : list (list Z) :=
  match l with
  | [] => if decide (cur = []) then [] else [cur]
  | v :: l =>
      if is_sep seps v then if decide (cur = []) then tokens seps [] l else cur :: tokens seps [] l
      else tokens seps (cur ++ [v]) l
  end.

Lemma tokens_skip seps l : tokens seps [] l = tokens seps [] (drop (span_len (is_sep seps) l) l).
Proof. induction l as [|v l IH]; simpl; [done|]. destruct (is_sep seps v) eqn:E; simpl; [done|]. by rewrite E. Qed.

Lemma tokens_run seps l : ∀ cur, cur ≠ [] →
  let k := span_len (not_sep seps) l in
  tokens seps cur l = (cur ++ take k l) :: tokens seps [] (drop (S k) l).
Proof.
  induction l as [|v l IH]; intros cur Hc; simpl.
  - by rewrite decide_False, app_nil_r by done.
  - change (not_sep seps v) with (negb (is_sep seps v)). destruct (is_sep seps v) eqn:E; simpl.
    + by rewrite decide_False, app_nil_r, drop_0 by done.
    + rewrite IH by (by destruct cur). by rewrite <-app_assoc.
Qed.

Lemma span_drop f l : ∀ v l', drop (span_len f l) l = v :: l' → f v = false.
Proof. induction l as [|w l IH]; intros v l'; simpl; [done|]. destruct (f w) eqn:E; simpl; [by apply IH|]. by intros [= <- <-]. Qed.

(** Calling strtok until it returns NULL. *)
Fixpoint strtok_all (fuel : nat) m (state empty : ptr) (s : option ptr) (sep : ptr) : outcome (list ptr * mem) :=
  match fuel with
  | O => Panic "out of fuel"
  | S fuel =>
      '(r, state, m) ← strtok m state empty s sep;
      match r with
      | None => Ok ([], m)
      | Some p => '(ps, m) ← strtok_all fuel m state empty None sep; Ok (p :: ps, m)
      end
  end.

(** The region of the string at [p] is apart from the [n] bytes at [q]. *)
Definition apart p (l : list Z) q (n : nat) : Prop :=
  p + Z.of_nat (length l) < q ∨ q + Z.of_nat n ≤ p.

Lemma strtok_ok m state empty (s : option ptr) sep p l seps :
  match s with Some s => s | None => state end = p → cstr m p l → cstr m sep seps →
  let a := span_len (is_sep seps) l in
  let rest := drop a l in
  let k := span_len (not_sep seps) rest in
  let b := p + Z.of_nat a in
  strtok m state empty s sep =
    match rest with
    | [] => Ok (None, state, m)
    | _ => if (k <? length rest)%nat then Ok (Some b, b + Z.of_nat k + 1, <[b + Z.of_nat k := 0]> m)
           else Ok (Some b, empty, m)
    end.
Proof.
  intros Hp Hs H2 a rest k b. unfold strtok, strspn. rewrite Hp.
  rewrite (strspn_loop_ok seps sep l) by eauto using cstr_fuel. fold a. cbn [mbind outcome_bind].
  replace (p + (p + Z.of_nat a - p)) with b by (unfold b; lia).
  pose proof (span_len_le (is_sep seps) l) as Ha. fold a in Ha.
  assert (cstr m b rest) as Hr.
  { unfold b, rest. replace (Z.of_nat a) with (Z.of_nat (length (take a l))) by (rewrite length_take; lia).
    apply (cstr_app m p (take a l)). by rewrite take_drop. }
  destruct rest as [|v rest'] eqn:E.
  { apply cstr_nil in Hr. by rewrite (load_ok _ _ _ Hr). }
  pose proof Hr as (Hv & ? & _)%cstr_cons. rewrite (load_ok _ _ _ Hv). cbn [mbind outcome_bind].
  rewrite (proj2 (Z.eqb_neq v 0)) by lia. unfold strpbrk.
  rewrite (strpbrk_loop_ok seps sep (v :: rest')) by eauto using cstr_fuel. fold k. cbn [mbind outcome_bind]. cbv zeta.
  destruct (Nat.ltb_spec k (length (v :: rest'))) as [Hk|]; [|done].
  rewrite store_ok; [done|]. destruct Hr as [Hb _]. rewrite bytes_spec in Hb.
  destruct (lookup_lt_is_Some_2 ((v :: rest') ++ [0]) k) as [w Hw]; [rewrite length_app; lia|]. by exists w; apply Hb.
Qed.

Lemma cstr_other m p v q l : cstr m q l → p < q ∨ q + Z.of_nat (length l) < p → cstr (<[p := v]> m) q l.
Proof.
  intros [Hb Hr] Hd. split; [|done]. apply (bytes_blit_other m p [v] q _ Hb). rewrite length_app. simpl. lia.
Qed.

(** The string at [p] cut after [k] characters. *)
Lemma cstr_cut m p l k :
  cstr m p l → (k < length l)%nat →
  cstr (<[p + Z.of_nat k := 0]> m) p (take k l) ∧ cstr (<[p + Z.of_nat k := 0]> m) (p + Z.of_nat k + 1) (drop (S k) l).
Proof.
  intros Hs Hk. destruct (lookup_lt_is_Some_2 l k Hk) as [v Hv].
  pose proof (take_drop_middle l k v Hv) as Hl. rewrite <-Hl in Hs at 1.
  apply cstr_app in Hs as (Hb & Hr & Hs). rewrite length_take, Nat.min_l in Hs by lia.
  apply cstr_cons in Hs as (_ & _ & Hs). split.
  - split; [|done]. apply bytes_app. split.
    + apply (bytes_blit_other m _ [0] p _ Hb). rewrite length_take. simpl. lia.
    + rewrite length_take, Nat.min_l by lia. simpl. by rewrite lookup_insert_eq.
  - apply cstr_other; [done|lia].
Qed.

Lemma cstr_agree m m' q l :
  cstr m q l → (∀ a, q ≤ a ≤ q + Z.of_nat (length l) → m' !! a = m !! a) → cstr m' q l.
Proof.
  intros [Hb Hr] Ha. split; [|done]. rewrite bytes_spec in Hb |- *. intros i v Hi.
  apply lookup_lt_Some in Hi as Hlt. rewrite length_app in Hlt. simpl in Hlt. rewrite Ha by lia. by apply Hb.
Qed.

Lemma strtok_all_ok seps sep empty fuel : ∀ m state (s : option ptr) p l,
  match s with Some s => s | None => state end = p →
  cstr m p l → cstr m sep seps → cstr m empty [] →
  l = [] ∨ (apart p l sep (S (length seps)) ∧ apart p l empty 1) → (length l < fuel)%nat →
  ∃ ps m', strtok_all fuel m state empty s sep = Ok (ps, m') ∧ Forall2 (cstr m') ps (tokens seps [] l) ∧
    ∀ a, a < p ∨ p + Z.of_nat (length l) ≤ a → m' !! a = m !! a.
Proof.
  induction fuel as [|fuel IH]; intros m state s p l Hp Hs H2 He Hap Hf; [lia|]. cbn [strtok_all].
  rewrite (strtok_ok m state empty s sep p l seps Hp Hs H2). cbv zeta. rewrite tokens_skip.
  set (a := span_len (is_sep seps) l). set (b := p + Z.of_nat a).
  pose proof (span_len_le (is_sep seps) l) as Ha. fold a in Ha.
  assert (cstr m b (drop a l)) as Hb.
  { unfold b. replace (Z.of_nat a) with (Z.of_nat (length (take a l))) by (rewrite length_take; lia).
    apply (cstr_app m p (take a l)). by rewrite take_drop. }
  assert (length (drop a l) = (length l - a)%nat) as Hlen by apply length_drop.
  destruct (drop a l) as [|v rest] eqn:E.
  { exists [], m. split_and!; [done|constructor|done]. }
  pose proof (span_drop (is_sep seps) l v rest E) as Hv.
  set (k := span_len (not_sep seps) (v :: rest)).
  assert (tokens seps [] (v :: rest) = take k (v :: rest) :: tokens seps [] (drop (S k) (v :: rest))) as ->.
  { unfold k. simpl. change (not_sep seps v) with (negb (is_sep seps v)). rewrite Hv. cbn [negb]. rewrite (tokens_run seps rest [v]) by done. done. }
  pose proof (span_len_le (not_sep seps) (v :: rest)) as Hk. fold k in Hk. cbn [length] in Hlen, Hk.
  assert (0 < k)%nat as Hk0 by (unfold k; simpl; change (not_sep seps v) with (negb (is_sep seps v)); rewrite Hv; simpl; lia).
  destruct (Nat.ltb_spec k (length (v :: rest))) as [Hlt|Hge]; cbn [mbind outcome_bind length] in *.
  - destruct Hap as [->|[Hap1 Hap2]]; [simpl in Hlen; lia|]. unfold apart in *.
    destruct (cstr_cut m b (v :: rest) k Hb) as [C1 C2]; [simpl; lia|].
    assert (length (drop (S k) (v :: rest)) = (length rest - k)%nat) as Hl1 by (rewrite length_drop; simpl; lia).
    destruct (IH (<[b + Z.of_nat k := 0]> m) (b + Z.of_nat k + 1) None (b + Z.of_nat k + 1) (drop (S k) (v :: rest)))
      as (ps & m' & -> & Hps & Hm'); [done|done|..].
    { apply cstr_other; [done|lia]. }
    { apply cstr_other; [done|simpl; lia]. }
    { right. unfold apart. rewrite Hl1. lia. }
    { rewrite Hl1. lia. }
    exists (b :: ps), m'. split_and!; [done| |].
    + constructor; [|done]. apply (cstr_agree _ _ _ _ C1). intros x Hx. rewrite length_take in Hx. apply Hm'. lia.
    + intros x Hx. rewrite Hm' by (rewrite Hl1; lia). rewrite lookup_insert_ne; [done|]. lia.
  - assert (k = S (length rest)) as Ek by lia. rewrite Ek, take_ge, drop_ge by (simpl; lia).
    destruct (IH m empty None empty []) as (ps & m' & -> & Hps & Hm'); [done|done|done|done|by left|simpl; lia|].
    exists (b :: ps), m'. split_and!; [done| |].
    + constructor; [|done]. apply (cstr_agree _ _ _ _ Hb). intros x Hx. apply Hm'. simpl. lia.
    + intros x Hx. apply Hm'. simpl. lia.
Qed.

(** Calling strtok on a string until it returns NULL visits the maximal
    runs of characters that are not separators, in order: the pointers it
    returned are, at the end, the tokens as terminated strings; nothing outside
    the string has been written. *)
Theorem strtok_spec m p sep empty state (l seps : list Z) :
  cstr m p l → cstr m sep seps → cstr m empty [] →
  apart p l sep (S (length seps)) → apart p l empty 1 →
  ∃ ps m', strtok_all (S (length l)) m state empty (Some p) sep = Ok (ps, m') ∧
    Forall2 (cstr m') ps (tokens seps [] l) ∧
    ∀ a, a < p ∨ p + Z.of_nat (length l) ≤ a → m' !! a = m !! a.
Proof. intros. apply strtok_all_ok; auto. Qed.

(** The string [,a,,bc] at 20, the separators at 10, the empty string at 12. *)
Definition tok_mem : mem := list_to_map (zip (seqZ 10 3 ++ seqZ 20 7) [44; 0; 0; 44; 97; 44; 44; 98; 99; 0]).

Lemma strtok_spec_witness :
  ∃ m', strtok_all 7 tok_mem 0 12 (Some 20) 10 = Ok ([21; 24], m') ∧ Forall2 (cstr m') [21; 24] [[97]; [98; 99]].
Proof.
  destruct (strtok_spec tok_mem 20 10 12 0 [44; 97; 44; 44; 98; 99] [44]) as (ps & m' & E & H & _).
  1-3: split; [vm_compute; by repeat split|repeat constructor; lia].
  1-2: unfold apart; simpl; lia.
  assert (ps = [21; 24]) as -> by (vm_compute in E; congruence). exists m'. split; [exact E|exact H].
Defined.

End CLib.
