(* ===== verification/Strtol.v ===== *)
(** Numbers in strings: strtol and atoi (kernel/lib/strtol.c, atoi.c).

    [long] has 32 bits on both targets; [unsigned long] arithmetic wraps.  The
    conversion is the value of the digits, clamped to the range of [long], as
    long as the digits denote less than 2^32; beyond that the overflow check
    of the source is not exact. *)

From S2P Require Import Prelude CLib.
Import CLib.
#[local] Open Scope Z_scope.

Module Strtol.

Implicit Types (m : mem) (s nptr : ptr).

Definition LONG_MAX : Z := 2 ^ 31 - 1.
Definition LONG_MIN : Z := - 2 ^ 31.

(** The table "0123456789abcdefghijklmnopqrstufvxyz". *)
Definition symbols : list Z := seqZ 48 10 ++ seqZ 97 21 ++ [102; 118; 120; 121; 122].

(** The string literal of blanks, without its terminator. *)
Definition blanks : list Z := [32; 9; 13; 10].

Definition tolower (c : Z) : Z := if (65 <=? c) && (c <=? 90) then c - (65 - 97) else c.

(** [memchr] on a table: the position of the first match. *)
Fixpoint index_of (uc : Z) (l : list Z) : option nat :=
  match l with
  | [] => None
  | v :: l => if v =? uc then Some 0%nat else S <$> index_of uc l
  end.

(** [memchr (symbols, tolower (c), base) - symbols]. *)
Definition digit (base c : Z) : option Z :=
  Z.of_nat <$> index_of (uchar (tolower c)) (take (Z.to_nat base) symbols).

(** [strchr (" \t\r\n", c)] also finds the terminator of the literal. *)
Fixpoint skip_blanks (fuel : nat) m s : outcome ptr :=
  match fuel with
  | O => Panic "out of fuel"
  | S fuel => v ← load m s; if bool_decide (v ∈ blanks ++ [0]) then skip_blanks fuel m (s + 1) else Ok s
  end.

Fixpoint digits_loop (fuel : nat) m s (base value : Z) (overflow : bool) : outcome (Z * bool * ptr) :=
  match fuel with
  | O => Panic "out of fuel"
  | S fuel =>
      v ← load m s;
      match digit base v with
      | None => Ok (value, overflow, s)
      | Some d =>
          if overflow then digits_loop fuel m (s + 1) base value overflow
          else
            let value' := u32 (value * base + d) in
            digits_loop fuel m (s + 1) base value' (value' <? value)
      end
  end.

(** The base and the position after an optional prefix. *)
Definition prefix m s (base : Z) : outcome (Z * ptr) :=
  if base =? 0 then
    v ← load m s;
    if v =? 48 then
      w ← load m (s + 1);
      if (w =? 120) || (w =? 88) then Ok (16, s + 2) else Ok (8, s + 1)
    else Ok (10, s)
  else if base =? 16 then
    v ← load m s;
    if v =? 48 then
      w ← load m (s + 1);
      if (w =? 120) || (w =? 88) then Ok (16, s + 2) else Ok (16, s + 1)
    else Ok (16, s)
  else Ok (base, s).

(** The result and [*endptr]. *)
Definition strtol m nptr (base : Z) : outcome (Z * ptr) :=
  if (base <? 0) || (base =? 1) || (32 <? base) then Ok (0, nptr) else
  s ← skip_blanks (str_fuel m) m nptr;
  v ← load m s;
  let negate := v =? 45 in
  let s := if (v =? 45) || (v =? 43) then s + 1 else s in
  '(base, s) ← prefix m s base;
  '(value, overflow, s) ← digits_loop (str_fuel m) m s base 0 false;
  let overflow := if (overflow : bool) then true else if negate then 2 ^ 31 <? value else LONG_MAX <? value in
  if overflow then Ok (if negate then LONG_MIN else LONG_MAX, s)
  else Ok (if negate then - value else value, s).

Definition atoi m nptr : outcome Z := '(v, _) ← strtol m nptr 10; Ok v.

(** *** Reference *)

(** The number written by digits, most significant first. *)
Definition number (base : Z) (ds : list Z) : Z := foldl (λ v d, v * base + d) 0 ds.

Definition clamp (v : Z) : Z := Z.max LONG_MIN (Z.min LONG_MAX v).

Inductive sign := Plus | Minus | NoSign.
#[global] Instance sign_eq_dec : EqDecision sign.
Proof. solve_decision. Defined.
Definition sign_chars (g : sign) : list Z := match g with Plus => [43] | Minus => [45] | NoSign => [] end.
Definition signed (g : sign) (v : Z) : Z := match g with Minus => - v | _ => v end.

(** [rest] goes on with something that is no digit, or ends the string. *)
Definition stops (base : Z) (rest : list Z) : Prop := digit base (default 0 (head rest)) = None.

Lemma digit_range base c d : digit base c = Some d → 0 ≤ base → 0 ≤ d < base.
Proof.
  unfold digit. intros (i & Hi & ->)%fmap_Some Hb.
  assert (i < length (take (Z.to_nat base) symbols))%nat as Hlt.
  { revert i Hi. generalize (take (Z.to_nat base) symbols). intros l. induction l as [|v l IH]; intros i; simpl; [done|].
    destruct (v =? _); [intros [= <-]; lia|]. intros (j & Hj & ->)%fmap_Some. specialize (IH j Hj). lia. }
  rewrite length_take in Hlt. lia.
Qed.

Abbreviation value_of base := (foldl (λ v d, v * base + d)).

Lemma value_ge base ds : 0 < base → Forall (λ d, 0 ≤ d) ds → ∀ v, 0 ≤ v → v ≤ value_of base v ds.
Proof.
  intros Hb. induction 1 as [|d ds Hd _ IH]; intros v Hv; simpl; [lia|].
  transitivity (v * base + d); [nia|]. apply IH. nia.
Qed.

Lemma digits_ok base rest cs ds : 2 ≤ base → Forall2 (λ c d, digit base c = Some d) cs ds → stops base rest →
  ∀ fuel m s v, cstr m s (cs ++ rest) → 0 ≤ v → value_of base v ds < 2 ^ 32 → (length cs < fuel)%nat →
  digits_loop fuel m s base v false = Ok (value_of base v ds, false, s + Z.of_nat (length cs)).
Proof.
  intros Hb H Hst. induction H as [|c d cs ds Hc H IH]; intros [|fuel] m s v Hs Hv Hlt Hf; cbn [length] in *; try lia;
    cbn [digits_loop app] in *.
  - assert (m !! s = Some (default 0 (head rest))) as Hl.
    { destruct rest; [by apply cstr_nil in Hs|by apply cstr_cons in Hs as (? & _)]. }
    rewrite (load_ok _ _ _ Hl). cbn [mbind outcome_bind]. rewrite Hst. simpl. by rewrite Z.add_0_r.
  - apply cstr_cons in Hs as (Hl & _ & Hs). rewrite (load_ok _ _ _ Hl). cbn [mbind outcome_bind]. rewrite Hc.
    pose proof (digit_range _ _ _ Hc ltac:(lia)) as Hd. cbn [foldl] in Hlt |- *.
    assert (Forall (λ d, 0 ≤ d) ds) as Hds.
    { clear -H Hb. induction H as [|c' d' cs ds Hc' _ IH]; constructor; [|done]. apply digit_range in Hc'; lia. }
    pose proof (value_ge base ds ltac:(lia) Hds (v * base + d) ltac:(nia)) as Hge.
    unfold u32. rewrite Z.mod_small by nia. rewrite (proj2 (Z.ltb_ge _ v)) by nia.
    rewrite IH by (done || lia || nia). do 2 f_equal. lia.
Qed.

Lemma skip_ok ws c l : ∀ fuel m s,
  Forall (λ v, v ∈ blanks) ws → c ∉ blanks → cstr m s (ws ++ c :: l) → (length ws < fuel)%nat →
  skip_blanks fuel m s = Ok (s + Z.of_nat (length ws)).
Proof.
  induction ws as [|w ws IH]; intros [|fuel] m s Hw Hc Hs Hf; cbn [length skip_blanks app] in *; try lia.
  - apply cstr_cons in Hs as (Hl & ? & _). rewrite (load_ok _ _ _ Hl). cbn [mbind outcome_bind].
    rewrite bool_decide_eq_false_2; [simpl; f_equal; lia|]. rewrite elem_of_app, list_elem_of_singleton. intros [?|?]; [done|lia].
  - apply Forall_cons in Hw as [Hw Hws]. apply cstr_cons in Hs as (Hl & ? & Hs). rewrite (load_ok _ _ _ Hl). cbn [mbind outcome_bind].
    rewrite bool_decide_eq_true_2 by (apply elem_of_app; by left). rewrite IH by (done || lia). f_equal. lia.
Qed.

Lemma digit_not_blank base c d : digit base c = Some d → c ∉ blanks ∧ c ≠ 45 ∧ c ≠ 43.
Proof.
  unfold digit. intros (i & Hi & _)%fmap_Some.
  assert (∀ c, c ∉ symbols → index_of c (take (Z.to_nat base) symbols) = None) as Hno.
  { intros c' Hc'. assert (c' ∉ take (Z.to_nat base) symbols) as Hn.
    { intros Hin. apply Hc'. rewrite <-(take_drop (Z.to_nat base)). apply elem_of_app. by left. }
    revert Hn. generalize (take (Z.to_nat base) symbols). intros l. induction l as [|v l IH]; simpl; intros Hn; [done|].
    apply not_elem_of_cons in Hn as [? Hn]. rewrite (proj2 (Z.eqb_neq v c')) by done. by rewrite IH. }
  split_and!.
  - intros Hin. rewrite (Hno (uchar (tolower c))) in Hi; [done|]. unfold blanks in Hin.
    repeat (apply elem_of_cons in Hin as [->|Hin]; [by apply (bool_decide_unpack _); vm_compute|]). by apply elem_of_nil in Hin.
  - intros ->. rewrite (Hno (uchar (tolower 45))) in Hi; [done|]. by apply (bool_decide_unpack _); vm_compute.
  - intros ->. rewrite (Hno (uchar (tolower 43))) in Hi; [done|]. by apply (bool_decide_unpack _); vm_compute.
Qed.

(** On blanks, an optional sign and digits of the base, strtol returns the
    number they denote, clamped to the range of long, and the position of the
    first character after them, for every base from 2 to 31 without a prefix
    and all digits that denote less than 2^32. *)
Theorem strtol_spec m nptr base (ws : list Z) (g : sign) (cs ds rest : list Z) :
  2 ≤ base ≤ 31 → base ≠ 16 →
  Forall (λ v, v ∈ blanks) ws → Forall2 (λ c d, digit base c = Some d) cs ds → ds ≠ [] → stops base rest →
  cstr m nptr (ws ++ sign_chars g ++ cs ++ rest) → number base ds < 2 ^ 32 →
  strtol m nptr base = Ok (clamp (signed g (number base ds)),
    nptr + Z.of_nat (length ws + length (sign_chars g) + length cs)).
Proof.
  intros Hb H16 Hws Hcs Hne Hst Hs Hlt. unfold strtol.
  rewrite (proj2 (Z.ltb_ge base 0)), (proj2 (Z.eqb_neq base 1)), (proj2 (Z.ltb_ge 32 base)) by lia. cbn [orb].
  destruct Hcs as [|c d cs ds Hc Hcs]; [done|]. destruct (digit_not_blank _ _ _ Hc) as (Hnb & Hn1 & Hn2).
  pose proof (cstr_fuel _ _ _ Hs) as Hf. rewrite !length_app in Hf. cbn [length] in Hf.
  assert (∃ w l, sign_chars g ++ (c :: cs) ++ rest = w :: l ∧ w ∉ blanks ∧ (w =? 45) = bool_decide (g = Minus) ∧
    ((w =? 45) || (w =? 43)) = negb (bool_decide (g = NoSign))) as (w & l & E & Hw & Hneg & Hsg).
  { destruct g; [eexists _, _; (split_and!; [done|by apply (bool_decide_unpack _); vm_compute|done|done])..|]. exists c, (cs ++ rest). split_and!; try done; simpl.
    - by rewrite (proj2 (Z.eqb_neq c 45)).
    - by rewrite (proj2 (Z.eqb_neq c 45)), (proj2 (Z.eqb_neq c 43)). }
  rewrite E in Hs. rewrite (skip_ok ws w l) by (done || lia). cbn [mbind outcome_bind].
  pose proof (cstr_app _ _ _ _ Hs) as (_ & _ & Hs1). pose proof Hs1 as (Hl & _)%cstr_cons.
  rewrite (load_ok _ _ _ Hl). cbn [mbind outcome_bind]. rewrite Hsg, Hneg.
  rewrite <-E in Hs1. apply cstr_app in Hs1 as (_ & _ & Hs2).
  set (q := nptr + Z.of_nat (length ws)) in *.
  replace (if negb (bool_decide (g = NoSign)) then q + 1 else q) with (q + Z.of_nat (length (sign_chars g)))
    by (destruct g; simpl; lia).
  unfold prefix. rewrite (proj2 (Z.eqb_neq base 0)), (proj2 (Z.eqb_neq base 16)) by lia. cbn [mbind outcome_bind].
  rewrite (digits_ok base rest (c :: cs) (d :: ds)) by (first [done|lia|by constructor|cbn [length]; lia]).
  cbn [mbind outcome_bind]. fold (number base (d :: ds)).
  assert (0 ≤ number base (d :: ds)) as Hpos.
  { unfold number. apply digit_range in Hc as ?; [|lia].
    apply (value_ge base (d :: ds)); [lia| |lia]. constructor; [lia|].
    clear -Hcs Hb. induction Hcs as [|c' d' cs ds Hc' _ IH]; constructor; [|done]. apply digit_range in Hc'; lia. }
  set (n := number base (d :: ds)) in *.
  replace (q + Z.of_nat (length (sign_chars g)) + Z.of_nat (length (c :: cs)))
    with (nptr + Z.of_nat (length ws + length (sign_chars g) + length (c :: cs))) by (unfold q; lia).
  unfold clamp, signed, LONG_MAX, LONG_MIN in *. clear -Hpos. destruct g; cbn [bool_decide].
  all: rewrite ?bool_decide_eq_true_2, ?bool_decide_eq_false_2 by done.
  all: case_match eqn:Hov; do 2 f_equal; bool_to_prop; lia.
Qed.

(** Memory that holds the text at address 1. *)
Definition text (l : list Z) : mem := list_to_map (zip (seqZ 1 (Z.of_nat (length l) + 1)) (l ++ [0])).

(** The text " -42;" in base 10. *)
Lemma strtol_spec_witness : strtol (text [32; 45; 52; 50; 59]) 1 10 = Ok (-42, 5).
Proof.
  exact (strtol_spec (text [32; 45; 52; 50; 59]) 1 10 [32] Minus [52; 50] [4; 2] [59] ltac:(lia) ltac:(lia)
    ltac:(repeat constructor) ltac:(repeat constructor) ltac:(done) ltac:(reflexivity)
    ltac:(split; [vm_compute; by repeat split|repeat constructor; lia]) ltac:(reflexivity)).
Defined.

(** The overflow check misses values whose wrapped sum is not smaller than
    the one before: the text 6000000000 in base 10 gives 1705032704, where the
    documentation promises LONG_MAX. *)
Theorem strtol_overflow_missed :
  strtol (text [54; 48; 48; 48; 48; 48; 48; 48; 48; 48]) 1 10 = Ok (1705032704, 11) ∧
  clamp (number 10 [6; 0; 0; 0; 0; 0; 0; 0; 0; 0]) = LONG_MAX.
Proof. split; vm_compute; reflexivity. Qed.

(** The blanks are skipped past the end of an empty string: the terminator of
    the literal counts as a blank. *)
Lemma strtol_empty_string_faults : strtol (text []) 1 10 = Panic "fault".
Proof. vm_compute. reflexivity. Qed.

(** In base 32 the digit v is not recognised. *)
Lemma strtol_base32_digit : digit 32 118 = None.
Proof. vm_compute. reflexivity. Qed.

End Strtol.
