(* ===== verification/CTime.v ===== *)
(** Calendar time: gmtime and mktime (kernel/lib/gmtime.c, mktime.c).

    The loop of gmtime counts years by their days; mktime adds them up again
    with the closed form of the leap days.  The theorems relate both to the
    number of days before a year of the Gregorian calendar. *)

From S2P Require Import Prelude.
#[local] Open Scope Z_scope.

Module CTime.

Record tm := MkTm {
  tm_sec : Z; tm_min : Z; tm_hour : Z; tm_mday : Z; tm_mon : Z; tm_year : Z;
  tm_wday : Z; tm_yday : Z; tm_isdst : Z
}.

(** An [int] result: leaving the range is undefined. *)
Definition int (z : Z) : outcome Z := if in_i32 z then Ok z else Panic "signed overflow".

(** Days to start of month. *)
Definition daysto (is_leap : bool) : list Z :=
  if is_leap then [0; 31; 60; 91; 121; 152; 182; 213; 244; 274; 305; 335]
  else [0; 31; 59; 90; 120; 151; 181; 212; 243; 273; 304; 334].

Definition leap (year : Z) : bool :=
  ((Z.rem year 4 =? 0) && negb (Z.rem year 100 =? 0)) || (Z.rem year 400 =? 0).

(** [while (days >= 365)]. *)
Fixpoint year_loop (fuel : nat) (days year : Z) (is_leap : bool) : outcome (Z * Z * bool) :=
  if 365 <=? days then
    match fuel with
    | O => Panic "out of fuel"
    | S fuel => year_loop fuel (days - if is_leap then 366 else 365) (year + 1) (leap (year + 1))
    end
  else Ok (days, year, is_leap).

(** The month loop, from [mon] with [n] months to go. *)
Fixpoint mon_loop (n : nat) (mon : nat) (days : Z) (starts : list Z) : outcome nat :=
  match n with
  | O => Ok mon
  | S n =>
      d ← deref (starts !! S mon) "bad month";
      if d <=? days then mon_loop n (S mon) days starts else Ok mon
  end.

Definition gmtime (timer : Z) : outcome tm :=
  days ← int (Z.quot timer 86400);
  let secs := Z.rem timer 86400 in
  let wday := Z.rem (days + 4) 7 in
  '(days, year, is_leap) ← year_loop (Z.to_nat days) days 1970 false;
  mon ← mon_loop 11 0 days (daysto is_leap);
  d ← deref (daysto is_leap !! mon) "bad month";
  Ok (MkTm (Z.rem secs 60) (Z.rem (Z.quot secs 60) 60) (Z.quot secs 3600) (days - d + 1) (Z.of_nat mon)
        (year - 1900) wday days 0).

(** The sum of mktime, from left to right. *)
Definition mktime (t : tm) : outcome Z :=
  a ← int (tm_min t * 60);
  s ← int (tm_sec t + a);
  a ← int (tm_hour t * 3600);
  s ← int (s + a);
  a ← int (tm_yday t * 86400);
  s ← int (s + a);
  a ← int ((tm_year t - 70) * 31536000);
  s ← int (s + a);
  a ← int (Z.quot (tm_year t - 69) 4 * 86400);
  s ← int (s + a);
  a ← int (Z.quot (tm_year t - 1) 100 * 86400);
  s ← int (s - a);
  a ← int (Z.quot (tm_year t + 299) 400 * 86400);
  int (s + a).

(** *** Reference *)

(** Days from the first of January 1970 to the first of January of [y]. *)
Definition days_before (y : Z) : Z :=
  365 * (y - 1970) + (y - 1969) `div` 4 - (y - 1901) `div` 100 + (y - 1601) `div` 400.

Definition year_days (y : Z) : Z := if leap y then 366 else 365.
Definition month_days (y : Z) (mon : nat) : Z :=
  default (year_days y) (daysto (leap y) !! S mon) - default 0 (daysto (leap y) !! mon).

Lemma days_before_next y : 1970 ≤ y → days_before (y + 1) = days_before y + year_days y.
Proof.
  intros Hy. unfold days_before, year_days, leap. rewrite !Z.rem_mod_nonneg by lia.
  destruct (Z.eqb_spec (y mod 4) 0), (Z.eqb_spec (y mod 100) 0), (Z.eqb_spec (y mod 400) 0); simpl;
    Z.to_euclidean_division_equations; lia.
Qed.

Lemma year_loop_ok fuel : ∀ days year,
  1970 ≤ year → -1 ≤ days → (Z.to_nat days ≤ fuel)%nat →
  ∃ days' year', year_loop fuel days year (leap year) = Ok (days', year', leap year') ∧
    year ≤ year' ∧ -1 ≤ days' < 365 ∧ days' + days_before year' = days + days_before year ∧
    (days' = -1 → (days = -1 ∧ year' = year) ∨ leap (year' - 1) = true).
Proof.
  induction fuel as [|fuel IH]; intros days year Hy Hd Hf; cbn [year_loop];
    (destruct (Z.leb_spec 365 days); [|exists days, year; split_and!; (done || lia || auto)]); [lia|].
  pose proof (days_before_next year Hy) as Hn. unfold year_days in Hn.
  destruct (leap year) eqn:El.
  - destruct (IH (days - 366) (year + 1)) as (d' & y' & E & H1 & H2 & H3 & H4); [lia..|].
    exists d', y'. split_and!; try done; try lia. intros Hm. right.
    destruct (H4 Hm) as [[_ ->]|H5]; [|done]. by replace (year + 1 - 1) with year by lia.
  - destruct (IH (days - 365) (year + 1)) as (d' & y' & E & H1 & H2 & H3 & H4); [lia..|].
    exists d', y'. split_and!; try done; try lia. intros Hm. right. destruct (H4 Hm) as [[? _]|H5]; [lia|done].
Qed.

(** The month loop finds the month a day of the year is in. *)
Lemma mon_loop_ok (b : bool) days :
  -1 ≤ days → (if b then days < 366 else days < 365) →
  ∃ mon d, mon_loop 11 0 days (daysto b) = Ok mon ∧ daysto b !! mon = Some d ∧ (mon < 12)%nat ∧
    (0 ≤ days → d ≤ days) ∧ (∀ d', daysto b !! S mon = Some d' → days < d') ∧ (days = -1 → mon = 0%nat).
Proof.
  intros H1 H2.
  assert (∀ n mon, (n + mon = 11)%nat → (∀ d, daysto b !! mon = Some d → (0 < mon)%nat → d ≤ days) →
    ∃ mon' d, mon_loop n mon days (daysto b) = Ok mon' ∧ daysto b !! mon' = Some d ∧ (mon' < 12)%nat ∧
      ((0 < mon')%nat → d ≤ days) ∧ (∀ d', daysto b !! S mon' = Some d' → days < d')) as H.
  { induction n as [|n IH]; intros mon Hn Hlo; cbn [mon_loop].
    - assert (mon = 11%nat) as -> by lia. destruct (daysto b !! 11%nat) as [d|] eqn:E; [|by destruct b].
      exists 11%nat, d. split_and!; try done; [lia|naive_solver|]. intros d'. by destruct b.
    - destruct (lookup_lt_is_Some_2 (daysto b) (S mon)) as [d Hd]; [destruct b; simpl; lia|].
      destruct (lookup_lt_is_Some_2 (daysto b) mon) as [d0 Hd0]; [destruct b; simpl; lia|].
      rewrite Hd. cbn [deref mbind outcome_bind]. destruct (Z.leb_spec d days).
      + apply IH; [lia|]. intros d1 E1 _. naive_solver.
      + exists mon, d0. split_and!; try done; [lia|naive_solver|]. intros d' E'. naive_solver. }
  destruct (H 11%nat 0%nat eq_refl) as (mon & d & E & Hd & Hm & Hlo & Hhi); [lia|].
  exists mon, d. split_and!; try done.
  - intros Hp. destruct mon; [|apply Hlo; lia]. assert (d = 0) as -> by (destruct b; simpl in Hd; congruence). lia.
  - intros ->. destruct mon; [done|]. specialize (Hlo ltac:(lia)). exfalso. clear -Hd Hlo Hm.
    assert (0 ≤ d); [|lia]. assert (Forall (λ d, 0 ≤ d) (daysto b)) as HF by (destruct b; repeat constructor; lia).
    by apply (Forall_lookup_1 _ _ _ _ HF Hd).
Qed.

Lemma int_ok z : - 2 ^ 31 ≤ z < 2 ^ 31 → int z = Ok z.
Proof. intros H. unfold int, in_i32. rewrite (proj2 (Z.leb_le _ _)), (proj2 (Z.ltb_lt _ _)) by lia. done. Qed.

(** What gmtime computes, whatever the day. *)
Lemma gmtime_ok t :
  0 ≤ t < 86400 * 2 ^ 31 →
  ∃ r, gmtime t = Ok r ∧
    tm_sec r = t mod 60 ∧ tm_min r = (t mod 86400) / 60 mod 60 ∧ tm_hour r = (t mod 86400) / 3600 ∧
    tm_wday r = (t / 86400 + 4) mod 7 ∧ tm_isdst r = 0 ∧
    1970 ≤ tm_year r + 1900 ∧ -1 ≤ tm_yday r < 365 ∧ tm_yday r + days_before (tm_year r + 1900) = t / 86400 ∧
    (tm_yday r = -1 → leap (tm_year r + 1899) = true ∧ tm_mon r = 0 ∧ tm_mday r = 0) ∧
    (0 ≤ tm_yday r → ∃ (mon : nat) d, tm_mon r = Z.of_nat mon ∧ (mon < 12)%nat ∧ daysto (leap (tm_year r + 1900)) !! mon = Some d ∧
       tm_mday r = tm_yday r - d + 1 ∧ 1 ≤ tm_mday r ≤ month_days (tm_year r + 1900) mon).
Proof.
  intros Ht. unfold gmtime. rewrite (Z.quot_div_nonneg t 86400), (Z.rem_mod_nonneg t 86400) by lia.
  assert (0 ≤ t / 86400 < 2 ^ 31) as Hd by (split; [apply Z.div_pos; lia|apply Z.div_lt_upper_bound; lia]).
  rewrite int_ok by lia. cbn [mbind outcome_bind].
  destruct (year_loop_ok (Z.to_nat (t / 86400)) (t / 86400) 1970) as (days & year & E & H1 & H2 & H3 & H4); [lia..|].
  change (leap 1970) with false in E. rewrite E. cbn [mbind outcome_bind].
  destruct (mon_loop_ok (leap year) days) as (mon & d & -> & Hm & Hlt & Hlo & Hhi & H0); [lia|destruct (leap year); lia|].
  cbn [mbind outcome_bind]. rewrite Hm. cbn [deref mbind outcome_bind]. change (days_before 1970) with 0 in H3.
  pose proof (Z.mod_pos_bound t 86400 ltac:(lia)) as Hs.
  rewrite !Z.quot_div_nonneg by lia. rewrite !Z.rem_mod_nonneg by (first [lia|apply Z.div_pos; lia]).
  eexists. split; [reflexivity|]. cbn [tm_sec tm_min tm_hour tm_wday tm_isdst tm_year tm_yday tm_mon tm_mday].
  replace (year - 1900 + 1900) with year by lia. replace (year - 1900 + 1899) with (year - 1) by lia.
  split_and!; try done; try lia.
  - rewrite <-(Z.mod_mod_divide t 86400 60) by (by exists 1440). done.
  - intros Hn. destruct (H4 Hn) as [[? _]|?]; [lia|]. rewrite (H0 Hn) in Hm |- *.
    assert (d = 0) as -> by (destruct (leap year); simpl in Hm; congruence). split_and!; [done|done|lia].
  - intros Hn. exists mon, d. specialize (Hlo Hn). split_and!; try done; [lia|]. unfold month_days. rewrite Hm. simpl.
    destruct (daysto (leap year) !! S mon) as [d'|] eqn:Ed; simpl; [specialize (Hhi d' eq_refl); lia|].
    assert (365 ≤ year_days year) by (unfold year_days; destruct (leap year); lia). lia.
Qed.

(** Except on the last day of a leap year, gmtime gives the date and time
    of day: the day of the year counts from the start of the year, the day of
    the month from the start of the month, and all fields are in range. *)
Theorem gmtime_calendar t :
  0 ≤ t < 86400 * 2 ^ 31 →
  (∀ y, 1970 ≤ y → leap y = true → t / 86400 ≠ days_before y + 365) →
  ∃ r (mon : nat) d, gmtime t = Ok r ∧
    t = 86400 * (days_before (tm_year r + 1900) + tm_yday r) + 3600 * tm_hour r + 60 * tm_min r + tm_sec r ∧
    0 ≤ tm_yday r < year_days (tm_year r + 1900) ∧
    tm_mon r = Z.of_nat mon ∧ (mon < 12)%nat ∧ daysto (leap (tm_year r + 1900)) !! mon = Some d ∧
    tm_yday r = d + tm_mday r - 1 ∧ 1 ≤ tm_mday r ≤ month_days (tm_year r + 1900) mon ∧
    0 ≤ tm_hour r < 24 ∧ 0 ≤ tm_min r < 60 ∧ 0 ≤ tm_sec r < 60 ∧ tm_wday r = (t / 86400 + 4) mod 7.
Proof.
  intros Ht Hx. destruct (gmtime_ok t Ht) as (r & E & F1 & F2 & F3 & F4 & _ & F5 & F6 & F7 & F8 & F9).
  assert (0 ≤ tm_yday r) as Hy.
  { destruct (decide (tm_yday r = -1)) as [Hm|]; [|lia]. destruct (F8 Hm) as (Hl & _). exfalso.
    assert (1970 ≤ tm_year r + 1899) as H0.
    { assert (tm_year r + 1900 ≠ 1970); [|lia]. intros H70. rewrite H70 in F7. change (days_before 1970) with 0 in F7.
      pose proof (Z.div_pos t 86400 ltac:(lia) ltac:(lia)). lia. }
    apply (Hx _ H0 Hl). pose proof (days_before_next _ H0) as Hn. unfold year_days in Hn. rewrite Hl in Hn.
    replace (tm_year r + 1899 + 1) with (tm_year r + 1900) in Hn by lia. lia. }
  destruct (F9 Hy) as (mon & d & G1 & G2 & G3 & G4 & G5). exists r, mon, d.
  pose proof (Z.mod_pos_bound t 86400 ltac:(lia)). pose proof (Z.mod_pos_bound t 60 ltac:(lia)).
  split_and!; try done; try lia.
  - rewrite F1, F2, F3. clear -F7 Ht. Z.to_euclidean_division_equations. lia.
  - unfold year_days. case_match; lia.
  - rewrite F3. apply Z.div_pos; lia.
  - rewrite F3. apply Z.div_lt_upper_bound; lia.
  - rewrite F2. apply Z.mod_pos_bound. lia.
  - rewrite F2. apply Z.mod_pos_bound. lia.
Qed.

(** C27: mktime takes back what gmtime gave, for every time before 2^31 seconds,
    the days gmtime gets wrong included, and no sum overflows. *)
Theorem mktime_gmtime t :
  0 ≤ t < 2 ^ 31 → ∃ r, gmtime t = Ok r ∧ mktime r = Ok t.
Proof.
  intros Ht. destruct (gmtime_ok t ltac:(lia)) as (r & E & F1 & F2 & F3 & _ & _ & F5 & F6 & F7 & _).
  exists r. split; [done|].
  pose proof (Z.mod_pos_bound t 86400 ltac:(lia)). pose proof (Z.mod_pos_bound t 60 ltac:(lia)).
  pose proof (Z.mod_pos_bound ((t mod 86400) / 60) 60 ltac:(lia)).
  assert (0 ≤ t mod 86400 / 3600 < 24) by (split; [apply Z.div_pos; lia|apply Z.div_lt_upper_bound; lia]).
  set (D := t / 86400) in *. assert (0 ≤ D ≤ 24855) as HD by (unfold D; Z.to_euclidean_division_equations; lia).
  assert (t = 86400 * D + 3600 * tm_hour r + 60 * tm_min r + tm_sec r) as Esum.
  { rewrite F1, F2, F3. unfold D. clear. Z.to_euclidean_division_equations. lia. }
  rewrite <-F1, <-F2, <-F3 in *. set (y := tm_year r) in *. unfold days_before in F7.
  assert (70 ≤ y ≤ 138) as Hy by (split; [lia|]; clear -F6 F7 HD F5; Z.to_euclidean_division_equations; lia).
  replace (y + 1900 - 1970) with (y - 70) in F7 by lia. replace (y + 1900 - 1969) with (y - 69) in F7 by lia.
  replace (y + 1900 - 1901) with (y - 1) in F7 by lia. replace (y + 1900 - 1601) with (y + 299) in F7 by lia.
  unfold mktime. fold y. rewrite !Z.quot_div_nonneg by lia.
  assert (0 ≤ (y - 69) / 4 ≤ 17) as L1 by (clear -Hy; Z.to_euclidean_division_equations; lia).
  assert (0 ≤ (y - 1) / 100 ≤ 1) as L2 by (clear -Hy; Z.to_euclidean_division_equations; lia).
  assert ((y + 299) / 400 = (y - 1) / 100) as L3 by (clear -Hy; Z.to_euclidean_division_equations; lia).
  rewrite L3 in *. repeat (rewrite int_ok by lia; cbn [mbind outcome_bind]). f_equal. lia.
Qed.

(** On the last day of a leap year gmtime gives day 0 of January of the
    following year: the 31st of December 1972. *)
Theorem gmtime_leap_day_wrong :
  ∃ r, gmtime (86400 * (days_before 1972 + 365)) = Ok r ∧ leap 1972 = true ∧
    tm_year r = 73 ∧ tm_yday r = -1 ∧ tm_mon r = 0 ∧ tm_mday r = 0.
Proof. eexists. split; [vm_compute; reflexivity|]. done. Qed.

Lemma gmtime_calendar_witness : ∃ r, gmtime 1000000000 = Ok r ∧ 0 ≤ tm_yday r < 366.
Proof.
  destruct (gmtime_calendar 1000000000) as (r & mon & d & E & _ & H & _); [lia| |].
  - change (1000000000 / 86400) with 11574. intros y Hy Hl Hd. unfold days_before in Hd.
    assert (y = 2000 ∨ y = 2001) as [->| ->] by (clear -Hy Hd; Z.to_euclidean_division_equations; lia); vm_compute in Hd; discriminate.
  - exists r. split; [exact E|]. unfold year_days in H. destruct (leap _); lia.
Defined.

Lemma mktime_gmtime_witness : ∃ r, gmtime 94608000 = Ok r ∧ mktime r = Ok 94608000.
Proof. exact (mktime_gmtime 94608000 ltac:(lia)). Defined.

End CTime.
