(* ===== verification/Store.v ===== *)
(** The interface between the file systems and the buffer cache.

    A file system reads a block into a buffer it then holds, may modify it, and
    gives it back with or without writing it ([buf_read], [buf_write],
    [buf_release] of kernel/fs/buf.c).  [BlockOps] are the operations and
    [BlockLaws] what their callers rely on: between its read and its release a
    buffer shows the bytes the block had, and a write of as many bytes replaces
    those of exactly that block.  [view] has the blocks the caller may use; Buf.v
    asks that they do not overlap on the device.  Buf.v discharges the laws for the cache; the ext2
    files are written against them. *)

From S2P Require Import Prelude.
#[local] Open Scope Z_scope.

(** A block: device, block size, block number. *)
Definition key : Type := Z * Z * Z.
Definition key_dev (k : key) : Z := k.1.1.
Definition key_size (k : key) : Z := k.1.2.
Definition key_no (k : key) : Z := k.2.

Class BlockOps (S : Type) := {
  bread : key → S → outcome (option (list Z) * S);
  bwrite : key → list Z → S → outcome S;
  brelease : key → S → outcome S;
}.

(** The most buffers one caller may hold at a time. *)
Definition HELD_MAX : nat := 8.

Class BlockLaws (S : Type) `{!BlockOps S} := {
  view : S → gmap key (list Z);
  held : S → gset key;
  bok : S → Prop;
  bread_ok k s d :
    bok s → k ∉ held s → (size (held s) < HELD_MAX)%nat → key_no k ≠ 2 ^ 32 - 1 → view s !! k = Some d →
    ∃ s', bread k s = Ok (Some d, s') ∧ bok s' ∧ view s' = view s ∧ held s' = {[k]} ∪ held s;
  bwrite_ok k s d0 d :
    bok s → k ∈ held s → view s !! k = Some d0 → length d = length d0 →
    ∃ s', bwrite k d s = Ok s' ∧ bok s' ∧ view s' = <[k := d]> (view s) ∧ held s' = held s ∖ {[k]};
  brelease_ok k s :
    bok s → k ∈ held s →
    ∃ s', brelease k s = Ok s' ∧ bok s' ∧ view s' = view s ∧ held s' = held s ∖ {[k]};
}.

(** ** Sessions

    A caller's sequence of operations, and its meaning on a plain map: [None]
    when the caller reads a block it already holds or that does not exist, holds
    too many, or gives back a block it does not hold or with another length. *)

Inductive op := ORead (k : key) | OWrite (k : key) (d : list Z) | ORelease (k : key).

Fixpoint spec_run (os : list op) (m : gmap key (list Z)) (h : gset key) : option (list (list Z) * gmap key (list Z) * gset key) :=
  match os with
  | [] => Some ([], m, h)
  | ORead k :: os =>
      if bool_decide (k ∈ h) || bool_decide (HELD_MAX ≤ size h)%nat || (key_no k =? 2 ^ 32 - 1) then None else
      d ← m !! k; '(ds, m, h) ← spec_run os m ({[k]} ∪ h); Some (d :: ds, m, h)
  | OWrite k d :: os =>
      if bool_decide (k ∈ h) && bool_decide (length <$> m !! k = Some (length d)) then spec_run os (<[k := d]> m) (h ∖ {[k]}) else None
  | ORelease k :: os => if bool_decide (k ∈ h) then spec_run os m (h ∖ {[k]}) else None
  end.

Section session.
Context {S : Type} `{BlockLaws S}.

Fixpoint store_run (os : list op) (s : S) : outcome (list (list Z) * S) :=
  match os with
  | [] => Ok ([], s)
  | ORead k :: os =>
      '(o, s) ← bread k s; d ← deref o "NULL buffer"; '(ds, s) ← store_run os s; Ok (d :: ds, s)
  | OWrite k d :: os => s ← bwrite k d s; store_run os s
  | ORelease k :: os => s ← brelease k s; store_run os s
  end.

Lemma store_run_ok os s ds m h :
  bok s → spec_run os (view s) (held s) = Some (ds, m, h) →
  ∃ s', store_run os s = Ok (ds, s') ∧ bok s' ∧ view s' = m ∧ held s' = h.
Proof.
  revert s ds. induction os as [|o os IH]; intros s ds Hok E; simpl in E; [simplify_eq; by exists s|].
  destruct o as [k|k d|k].
  - case_match eqn:Hc; [done|]. bool_to_prop. destruct (view s !! k) as [d|] eqn:Hd; [|done]. simpl in E.
    destruct (bread_ok k s d) as (s1 & E1 & Hok1 & Hv1 & Hh1); try done; [lia|].
    destruct (spec_run os (view s) ({[k]} ∪ held s)) as [[[ds' m'] h']|] eqn:E2; simplify_eq/=.
    rewrite <- Hv1, <- Hh1 in E2. destruct (IH s1 _ Hok1 E2) as (s2 & E3 & ?). exists s2. by rewrite E1; simpl; rewrite E3.
  - case_match eqn:Hc; [|done]. bool_to_prop. destruct (view s !! k) as [d0|] eqn:Hd; [|done].
    destruct (bwrite_ok k s d0 d) as (s1 & E1 & Hok1 & Hv1 & Hh1); [done|done|done|simpl in *; congruence|].
    rewrite <- Hv1, <- Hh1 in E. destruct (IH s1 _ Hok1 E) as (s2 & E3 & ?). exists s2. simpl. by rewrite E1.
  - case_bool_decide as Hk; [|done]. destruct (brelease_ok k s Hok Hk) as (s1 & E1 & Hok1 & Hv1 & Hh1).
    rewrite <- Hv1, <- Hh1 in E. destruct (IH s1 _ Hok1 E) as (s2 & E3 & ?). exists s2. simpl. by rewrite E1.
Qed.
End session.
