(* ===== verification/Bytes.v ===== *)
(** Block contents: little-endian fields and bits inside a list of bytes.

    The file system overlays C structures and arrays of 32-bit words on the
    data of a buffer.  [rd] and [wr] are the loads and stores this gives,
    [bit_test], [bit_set] and [bit_clear] the bitmap operations of
    kernel/fs/ext2_bitmap.c; an access that leaves the block is a fault.
    [fld] and [bit] are what they mean. *)

From S2P Require Import Prelude Bitmap.
#[local] Open Scope Z_scope.

Module Bytes.

Implicit Types d : list Z.

Definition byte (v : Z) : Prop := 0 ≤ v < 256.

(** The number a list of bytes stands for, least significant byte first. *)
Definition le d : Z := foldr (λ b v, b + 256 * v) 0 d.
Fixpoint le_bytes (n : nat) (v : Z) : list Z :=
  match n with O => [] | S n => v mod 256 :: le_bytes n (v / 256) end.

Definition splice d (off : nat) (l : list Z) : list Z := take off d ++ l ++ drop (off + length l) d.
Definition slice d (off n : nat) : list Z := take n (drop off d).

(** The field of [n] bytes at [off]. *)
Definition fld (n : nat) d (off : Z) : Z := le (slice d (Z.to_nat off) n).
Definition inside (n : nat) d (off : Z) : bool := (0 <=? off) && (off + Z.of_nat n <=? Z.of_nat (length d)).

Definition rd (n : nat) d (off : Z) : outcome Z :=
  _ ← k_assert (inside n d off) "access outside the block"; Ok (fld n d off).
Definition put (n : nat) d (off v : Z) : list Z := splice d (Z.to_nat off) (le_bytes n v).
Definition wr (n : nat) d (off v : Z) : outcome (list Z) :=
  _ ← k_assert (inside n d off) "access outside the block"; Ok (put n d off v).

Definition bit_test d (n : Z) : outcome bool :=
  w ← rd 4 d (4 * (n / 32)); Ok (negb (Z.land w (Z.shiftl 1 (n mod 32)) =? 0)).
Definition bit_set d (n : Z) : outcome (list Z) :=
  w ← rd 4 d (4 * (n / 32)); wr 4 d (4 * (n / 32)) (Z.lor w (Z.shiftl 1 (n mod 32))).
Definition bit_clear d (n : Z) : outcome (list Z) :=
  w ← rd 4 d (4 * (n / 32)); wr 4 d (4 * (n / 32)) (Z.land w (Z.lnot (Z.shiftl 1 (n mod 32)))).

Definition bit d (n : Z) : bool := Z.testbit (fld 4 d (4 * (n / 32))) (n mod 32).

(** ** Little-endian numbers *)

Lemma length_le_bytes n v : length (le_bytes n v) = n.
Proof. revert v. induction n; intros; simpl; auto. Qed.

Lemma le_bytes_byte n v : Forall byte (le_bytes n v).
Proof. revert v. induction n; intros; simpl; constructor; auto. apply Z.mod_pos_bound. lia. Qed.

Lemma le_range d : Forall byte d → 0 ≤ le d < 256 ^ Z.of_nat (length d).
Proof.
  induction 1 as [|b d Hb _ IH]; [simpl; lia|]. cbn [le foldr length]. fold (le d).
  rewrite Nat2Z.inj_succ, Z.pow_succ_r by lia. unfold byte in Hb. lia.
Qed.

Lemma le_le_bytes n v : 0 ≤ v < 256 ^ Z.of_nat n → le (le_bytes n v) = v.
Proof.
  revert v. induction n as [|n IH]; intros v Hv; [simpl in *; lia|].
  cbn [le_bytes le foldr]. fold (le (le_bytes n (v / 256))).
  rewrite Nat2Z.inj_succ, Z.pow_succ_r in Hv by lia. rewrite IH; [|split].
  - pose proof (Z.div_mod v 256). lia.
  - apply Z.div_pos; lia.
  - apply Z.div_lt_upper_bound; lia.
Qed.

(** ** Splicing *)

Lemma length_splice d off l : (off + length l ≤ length d)%nat → length (splice d off l) = length d.
Proof. intros. unfold splice. rewrite !length_app, length_take, length_drop. lia. Qed.

Lemma lookup_splice d off l i :
  (off + length l ≤ length d)%nat →
  splice d off l !! i = if decide (off ≤ i < off + length l)%nat then l !! (i - off)%nat else d !! i.
Proof.
  intros H. unfold splice. case_decide.
  - rewrite lookup_app_r by (rewrite length_take; lia). rewrite length_take, Nat.min_l by lia.
    by rewrite lookup_app_l by lia.
  - destruct (decide (i < off)%nat).
    + rewrite lookup_app_l by (rewrite length_take; lia). by rewrite lookup_take_lt.
    + rewrite lookup_app_r by (rewrite length_take; lia). rewrite length_take, Nat.min_l by lia.
      rewrite lookup_app_r by lia. rewrite lookup_drop. f_equal. lia.
Qed.

Lemma slice_ext d d' off n :
  (∀ i, (off ≤ i < off + n)%nat → d !! i = d' !! i) → slice d off n = slice d' off n.
Proof.
  intros H. unfold slice. apply list_eq. intros i. destruct (decide (i < n)%nat).
  - rewrite !lookup_take_lt, !lookup_drop by done. apply H. lia.
  - by rewrite !lookup_take_ge by lia.
Qed.

Lemma slice_splice d off l : (off + length l ≤ length d)%nat → slice (splice d off l) off (length l) = l.
Proof.
  intros H. unfold slice, splice. rewrite drop_app_length' by (rewrite length_take; lia).
  by rewrite take_app_length.
Qed.

Lemma slice_splice_other d off l off' n :
  (off + length l ≤ length d)%nat → (off' + n ≤ off ∨ off + length l ≤ off')%nat →
  slice (splice d off l) off' n = slice d off' n.
Proof. intros H Ho. apply slice_ext. intros i Hi. rewrite lookup_splice by done. rewrite decide_False by lia. done. Qed.

Lemma Forall_splice (P : Z → Prop) d off l : Forall P d → Forall P l → Forall P (splice d off l).
Proof. intros. unfold splice. repeat apply Forall_app_2; auto using Forall_take, Forall_drop. Qed.

(** ** Fields *)

Lemma inside_spec n d off : inside n d off = true ↔ 0 ≤ off ∧ off + Z.of_nat n ≤ Z.of_nat (length d).
Proof. unfold inside. rewrite andb_true_iff, !Z.leb_le. done. Qed.

Lemma rd_ok n d off : 0 ≤ off → off + Z.of_nat n ≤ Z.of_nat (length d) → rd n d off = Ok (fld n d off).
Proof. intros. unfold rd. by rewrite (proj2 (inside_spec _ _ _)). Qed.

Lemma wr_ok n d off v : 0 ≤ off → off + Z.of_nat n ≤ Z.of_nat (length d) → wr n d off v = Ok (put n d off v).
Proof. intros. unfold wr. by rewrite (proj2 (inside_spec _ _ _)). Qed.

Lemma length_put n d off v :
  0 ≤ off → off + Z.of_nat n ≤ Z.of_nat (length d) → length (put n d off v) = length d.
Proof. intros. apply length_splice. rewrite length_le_bytes. lia. Qed.

(** Side conditions on the length of a block after stores. *)
Ltac put_len := repeat rewrite length_put; simpl in *; lia.

Lemma put_bytes n d off v : Forall byte d → Forall byte (put n d off v).
Proof. intros. apply Forall_splice; auto using le_bytes_byte. Qed.

Lemma fld_put n d off v :
  0 ≤ off → off + Z.of_nat n ≤ Z.of_nat (length d) → 0 ≤ v < 256 ^ Z.of_nat n → fld n (put n d off v) off = v.
Proof.
  intros. unfold fld, put. pose proof (slice_splice d (Z.to_nat off) (le_bytes n v)) as Hs.
  rewrite length_le_bytes in Hs. rewrite Hs by lia. by apply le_le_bytes.
Qed.

Lemma fld_put_other n d off v n' off' :
  0 ≤ off → off + Z.of_nat n ≤ Z.of_nat (length d) → 0 ≤ off' → off' + Z.of_nat n' ≤ off ∨ off + Z.of_nat n ≤ off' →
  fld n' (put n d off v) off' = fld n' d off'.
Proof. intros. unfold fld, put. by rewrite slice_splice_other by (rewrite length_le_bytes; lia). Qed.

Lemma fld_range n d off :
  Forall byte d → off + Z.of_nat n ≤ Z.of_nat (length d) → 0 ≤ off → 0 ≤ fld n d off < 256 ^ Z.of_nat n.
Proof.
  intros Hb Hi Ho. pose proof (le_range (slice d (Z.to_nat off) n)) as H.
  replace (length (slice d (Z.to_nat off) n)) with n in H by (unfold slice; rewrite length_take, length_drop; lia).
  apply H. unfold slice. by apply Forall_take, Forall_drop.
Qed.

(** ** Bits *)

Definition words d : Prop := Z.of_nat (length d) mod 4 = 0.

Lemma word_inside d n :
  words d → 0 ≤ n < 8 * Z.of_nat (length d) → 0 ≤ 4 * (n / 32) ∧ 4 * (n / 32) + 4 ≤ Z.of_nat (length d).
Proof. unfold words. intros. Z.to_euclidean_division_equations; lia. Qed.

Lemma byte_bit_test_ok d n : words d → 0 ≤ n < 8 * Z.of_nat (length d) → bit_test d n = Ok (bit d n).
Proof.
  intros Hw Hn. destruct (word_inside d n Hw Hn). unfold bit_test, bit. rewrite rd_ok by (simpl; lia). simpl.
  f_equal. apply Bitmap.land_mask_test. apply Z.mod_pos_bound. lia.
Qed.

(** Replacing the word of a bit. *)
Lemma bit_put d n w m :
  words d → 0 ≤ n < 8 * Z.of_nat (length d) → 0 ≤ m < 8 * Z.of_nat (length d) → 0 ≤ w < 2 ^ 32 →
  bit (put 4 d (4 * (n / 32)) w) m = if decide (m / 32 = n / 32) then Z.testbit w (m mod 32) else bit d m.
Proof.
  intros Hw Hn Hm Hr. destruct (word_inside d n Hw Hn), (word_inside d m Hw Hm). unfold bit. case_decide as E.
  - rewrite E, fld_put; simpl; lia || done.
  - rewrite fld_put_other; simpl; try lia. done.
Qed.

Lemma log2_small w : 0 ≤ w → (∀ i, 32 ≤ i → Z.testbit w i = false) → w < 2 ^ 32.
Proof.
  intros Hw H. destruct (Z.eq_dec w 0) as [->|]; [lia|]. apply Z.log2_lt_pow2; [lia|].
  destruct (Z.lt_ge_cases (Z.log2 w) 32) as [|Hge]; [done|].
  specialize (H _ Hge). rewrite Z.bit_log2 in H by lia. done.
Qed.

Lemma high_bits w i : 0 ≤ w < 2 ^ 32 → 32 ≤ i → Z.testbit w i = false.
Proof.
  intros [? ?] ?. rewrite <- (Z.mod_small w (2 ^ 32)) by lia. by rewrite Z.mod_pow2_bits_high by lia.
Qed.

Lemma byte_bit_set_ok d n :
  words d → Forall byte d → 0 ≤ n < 8 * Z.of_nat (length d) →
  ∃ d', bit_set d n = Ok d' ∧ length d' = length d ∧ Forall byte d' ∧
    ∀ m, 0 ≤ m < 8 * Z.of_nat (length d) → bit d' m = bool_decide (m = n) || bit d m.
Proof.
  intros Hw Hb Hn. destruct (word_inside d n Hw Hn) as [H1 H2]. unfold bit_set. rewrite rd_ok by (simpl; lia). simpl.
  rewrite wr_ok by (simpl; lia). eexists. split; [done|]. split; [apply length_put; simpl; lia|]. split; [by apply put_bytes|].
  pose proof (fld_range 4 d (4 * (n / 32)) Hb H2 H1) as Hr. change (256 ^ Z.of_nat 4) with (2 ^ 32) in Hr.
  pose proof (Z.mod_pos_bound n 32 ltac:(lia)). rewrite Z.shiftl_1_l.
  assert (Hbits : ∀ i, 0 ≤ i → Z.testbit (Z.lor (fld 4 d (4 * (n / 32))) (2 ^ (n mod 32))) i =
    Z.testbit (fld 4 d (4 * (n / 32))) i || bool_decide (i = n mod 32)).
  { intros i Hi. rewrite Z.lor_spec, Z.pow2_bits_eqb by lia. f_equal. rewrite Z.eqb_sym.
    destruct (Z.eqb_spec i (n mod 32)); [by rewrite bool_decide_true|by rewrite bool_decide_false]. }
  intros m Hm. rewrite bit_put; try done.
  - case_decide as E; [|case_bool_decide; [congruence|done]].
    rewrite Hbits by (apply Z.mod_pos_bound; lia). unfold bit. rewrite E, orb_comm. f_equal.
    apply bool_decide_ext. split; [|by intros ->]. pose proof (Z.div_mod m 32). pose proof (Z.div_mod n 32). lia.
  - split; [apply Z.lor_nonneg; split; [lia|apply Z.pow_nonneg; lia]|].
    apply log2_small; [apply Z.lor_nonneg; split; [lia|apply Z.pow_nonneg; lia]|].
    intros i Hi. rewrite Hbits, high_bits, bool_decide_false by lia. done.
Qed.

Lemma byte_bit_clear_ok d n :
  words d → Forall byte d → 0 ≤ n < 8 * Z.of_nat (length d) →
  ∃ d', bit_clear d n = Ok d' ∧ length d' = length d ∧ Forall byte d' ∧
    ∀ m, 0 ≤ m < 8 * Z.of_nat (length d) → bit d' m = negb (bool_decide (m = n)) && bit d m.
Proof.
  intros Hw Hb Hn. destruct (word_inside d n Hw Hn) as [H1 H2]. unfold bit_clear. rewrite rd_ok by (simpl; lia). simpl.
  rewrite wr_ok by (simpl; lia). eexists. split; [done|]. split; [apply length_put; simpl; lia|]. split; [by apply put_bytes|].
  pose proof (fld_range 4 d (4 * (n / 32)) Hb H2 H1) as Hr. change (256 ^ Z.of_nat 4) with (2 ^ 32) in Hr.
  pose proof (Z.mod_pos_bound n 32 ltac:(lia)). rewrite Z.shiftl_1_l.
  assert (Hbits : ∀ i, 0 ≤ i → Z.testbit (Z.land (fld 4 d (4 * (n / 32))) (Z.lnot (2 ^ (n mod 32)))) i =
    Z.testbit (fld 4 d (4 * (n / 32))) i && negb (bool_decide (i = n mod 32))).
  { intros i Hi. rewrite Z.land_spec, Z.lnot_spec, Z.pow2_bits_eqb by lia. do 2 f_equal. rewrite Z.eqb_sym.
    destruct (Z.eqb_spec i (n mod 32)); [by rewrite bool_decide_true|by rewrite bool_decide_false]. }
  assert (0 ≤ Z.land (fld 4 d (4 * (n / 32))) (Z.lnot (2 ^ (n mod 32)))) by (apply Z.land_nonneg; lia).
  intros m Hm. rewrite bit_put; try done.
  - case_decide as E; [|case_bool_decide; [congruence|done]].
    rewrite Hbits by (apply Z.mod_pos_bound; lia). unfold bit. rewrite E, andb_comm. do 2 f_equal.
    apply bool_decide_ext. split; [|by intros ->]. pose proof (Z.div_mod m 32). pose proof (Z.div_mod n 32). lia.
  - split; [done|]. apply log2_small; [done|]. intros i Hi. rewrite Hbits, high_bits by lia. done.
Qed.

End Bytes.
