(* ===== verification/Buf.v ===== *)
(** The buffer cache (kernel/fs/buf.c).

    Cached blocks are buffers on one list, most recently released first.  Each
    buffer has a reference count, changed under the spinlock of the cache, and
    a mutex that protects its data and flags.  [buf_read] and [buf_release] are
    split where another task can run: after the spinlock is given up, while the
    mutex is waited for, and while the device is at work; [exec] runs one such
    step of one task.  The list is the abstract list Klist.v refines.

    A device is a list of bytes.  A request on it is one step, and moves a block
    from or to the address that [sd_start_transfer] (kernel/drivers/sd/sd.c)
    gives to the card, the product of block number and block size in 32 bits:
    blocks of different sizes can overlap, and the cache does not see it.  The
    theorems are about callers whose blocks do not ([layout_ok]); those of an ext2
    file system do not ([ext2_layout_ok]).  Whether an allocation succeeds is asked of an oracle.  The local variable
    [unused] of [buf_cache_lookup] is not initialised: [None] stands for its
    indeterminate value, and using it is a fault. *)

From S2P Require Import Prelude Store Bytes.
Import Bytes.
#[local] Open Scope Z_scope.

Module Buf.

Notation bid := Z (only parsing).
Notation tid := Z (only parsing).

Definition BUF_CACHE_MAX_SIZE : Z := 1024.

Record Buf := MkBuf {
  bkey : key;                     (* dev, block_size, block_no *)
  data : option (list Z);         (* None: not yet filled *)
  valid : bool;
  dirty : bool;
  ref_count : Z;
  mutex : option tid }.

(** *** Devices *)

Definition SD_BLOCKLEN : Z := 512.

(** [arg = buf->block_no * buf->block_size] *)
Definition block_off (k : key) : nat := Z.to_nat (u32 (key_no k * key_size k)).
Definition block_len (k : key) : nat := Z.to_nat (key_size k).

(** The bytes of all devices, by device number. *)
Abbreviation devices := (gmap Z (list Z)).

Definition dev_read (D : devices) (k : key) : option (list Z) :=
  B ← D !! key_dev k;
  if bool_decide (block_off k + block_len k ≤ length B)%nat then Some (slice B (block_off k) (block_len k)) else None.
Definition dev_write (D : devices) (k : key) (d : list Z) : devices :=
  match D !! key_dev k with Some B => <[key_dev k := splice B (block_off k) d]> D | None => D end.

(** Where a task is inside [buf_read] or [buf_release]. *)
Inductive place :=
| Locking (b : bid) (k : key)     (* asked for k, has its reference, waits for the mutex *)
| Filling (b : bid) (k : key)     (* has the mutex, about to read the block *)
| Putting (b : bid).              (* gave up the mutex, still has its reference *)

Record st := MkSt {
  cache : list bid;
  csize : Z;
  bufs : gmap bid Buf;
  next : bid;                     (* the next object of buf_pool *)
  devs : gset Z;
  disk : devices;
  oracle : nat → bool;
  asked : nat;
  places : gmap tid place }.

Implicit Types (s : st) (b : bid) (t : tid) (k : key) (x : Buf).

Definition set_cache (c : list bid) s :=
  MkSt c (csize s) (bufs s) (next s) (devs s) (disk s) (oracle s) (asked s) (places s).
Definition set_buf b x s :=
  MkSt (cache s) (csize s) (<[b := x]> (bufs s)) (next s) (devs s) (disk s) (oracle s) (asked s) (places s).
Definition set_disk k (d : list Z) s :=
  MkSt (cache s) (csize s) (bufs s) (next s) (devs s) (dev_write (disk s) k d) (oracle s) (asked s) (places s).
Definition set_place t (p : option place) s :=
  MkSt (cache s) (csize s) (bufs s) (next s) (devs s) (disk s) (oracle s) (asked s) (partial_alter (λ _, p) t (places s)).
Definition set_refs (n : Z) x := MkBuf (bkey x) (data x) (valid x) (dirty x) n (mutex x).
Definition set_mutex (o : option tid) x := MkBuf (bkey x) (data x) (valid x) (dirty x) (ref_count x) o.
Definition set_data (d : option (list Z)) x := MkBuf (bkey x) d (valid x) (dirty x) (ref_count x) (mutex x).
Definition set_flags (v d : bool) x := MkBuf (bkey x) (data x) v d (ref_count x) (mutex x).

Definition get b s : outcome Buf := deref (bufs s !! b) "no such buffer".

(** Ask the allocators for memory: an object of [buf_pool], a block's data. *)
Definition alloc s : bool * st :=
  (oracle s (asked s),
   MkSt (cache s) (csize s) (bufs s) (next s) (devs s) (disk s) (oracle s) (S (asked s)) (places s)).

(** [k_list_is_null] and [k_list_remove] of the link, then [k_list_add_front]. *)
Definition buf_cache_insert b s : st := set_cache (b :: filter (λ c, c ≠ b) (cache s)) s.

Definition buf_alloc k s : outcome (option bid * st) :=
  _ ← k_assert (csize s <? BUF_CACHE_MAX_SIZE) "Assertion failed: buf_cache.size < BUF_CACHE_MAX_SIZE";
  let '(ok, s) := alloc s in
  if negb ok then Ok (None, s) else
  let '(ok, s) := alloc s in
  if negb ok then Ok (None, s) else
  let b := next s in
  let s := MkSt (cache s) (csize s) (<[b := MkBuf k None false false 0 None]> (bufs s)) (b + 1) (devs s) (disk s)
             (oracle s) (asked s) (places s) in
  Ok (Some b, buf_cache_insert b s).

Definition buf_cache_grow k s : outcome (option bid * st) :=
  if BUF_CACHE_MAX_SIZE <=? csize s then Ok (None, s) else
  '(o, s) ← buf_alloc k s;
  match o with
  | None => Ok (None, s)
  | Some b =>
      let s := buf_cache_insert b s in
      Ok (Some b, MkSt (cache s) (csize s + 1) (bufs s) (next s) (devs s) (disk s) (oracle s) (asked s) (places s))
  end.

(** The buffer of the block, or the last unreferenced buffer of the list. *)
Fixpoint lookup_loop k (l : list bid) (unused : option bid) s : outcome (option bid * option bid) :=
  match l with
  | [] => Ok (None, unused)
  | b :: l =>
      x ← get b s;
      if bool_decide (bkey x = k) then Ok (Some b, unused)
      else lookup_loop k l (if ref_count x =? 0 then Some b else unused) s
  end.
Definition buf_cache_lookup k s : outcome (option bid * option bid) := lookup_loop k (cache s) None s.

Definition buf_reuse b k s : outcome (option bid * st) :=
  x ← get b s;
  if key_size (bkey x) =? key_size k then
    Ok (Some b, set_buf b (MkBuf k (data x) false false (ref_count x) (mutex x)) s)
  else
    let '(ok, s) := alloc s in
    if negb ok then Ok (None, s)
    else Ok (Some b, set_buf b (MkBuf k None false false (ref_count x) (mutex x)) s).

Definition buf_cache_get_locked k s : outcome (option bid * st) :=
  '(o, unused) ← buf_cache_lookup k s;
  match o with
  | Some b => Ok (Some b, s)
  | None =>
      '(o, s) ← buf_cache_grow k s;
      match o with
      | Some b => Ok (Some b, s)
      | None => b ← deref unused "unused is indeterminate"; buf_reuse b k s
      end
  end.

Definition buf_cache_get k s : outcome (option bid * st) :=
  '(o, s) ← buf_cache_get_locked k s;
  match o with
  | None => Ok (None, s)
  | Some b => x ← get b s; Ok (Some b, set_buf b (set_refs (ref_count x + 1) x) s)
  end.

Definition buf_cache_put b s : outcome st :=
  x ← get b s;
  let s := set_buf b (set_refs (ref_count x - 1) x) s in
  Ok (if ref_count x - 1 =? 0 then buf_cache_insert b s else s).

(** [buf_request] with [sd_request], on a card that does what it is asked. *)
Definition buf_request t b (write : bool) s : outcome st :=
  x ← get b s;
  _ ← k_assert (bool_decide (mutex x = Some t)) "Assertion failed: k_mutex_holding(&buf->_mutex)";
  _ ← k_assert (negb (valid x && negb (dirty x))) "Assertion failed: (buf->_flags & (BUF_FLAGS_DIRTY | BUF_FLAGS_VALID)) != BUF_FLAGS_VALID";
  _ ← k_assert (bool_decide (key_dev (bkey x) ∈ devs s)) "no block device";
  _ ← k_assert (key_size (bkey x) mod SD_BLOCKLEN =? 0) "block size must be a multiple of 512";
  old ← deref (dev_read (disk s) (bkey x)) "block beyond the end of the device";
  if write then d ← deref (data x) "indeterminate data"; Ok (set_disk (bkey x) d s)
  else Ok (set_buf b (set_data (Some old) x) s).

(** *** The steps of buf_read *)

Definition read_get t k s : outcome (bool * st) :=
  _ ← k_assert (negb (key_no k =? 2 ^ 32 - 1)) "Assertion failed: block_no != (unsigned) -1";
  '(o, s) ← buf_cache_get k s;
  match o with
  | None => Ok (false, s)
  | Some b => Ok (true, set_place t (Some (Locking b k)) s)
  end.

Definition read_lock t b k s : outcome st :=
  x ← get b s;
  _ ← k_assert (negb (bool_decide (mutex x = Some t))) "Assertion failed: r == 0";
  Ok (set_place t (Some (Filling b k)) (set_buf b (set_mutex (Some t) x) s)).

Definition read_fill t b s : outcome st :=
  x ← get b s;
  s ← (if valid x then Ok s else buf_request t b false s);
  x ← get b s;
  Ok (set_place t None (set_buf b (set_flags true (dirty x) x) s)).

(** *** The steps of buf_write and buf_release *)

Definition mark_dirty b s : outcome st :=
  x ← get b s; Ok (set_buf b (set_flags (valid x) true x) s).

Definition release_unlock t b s : outcome st :=
  x ← get b s;
  _ ← k_assert (valid x) "Assertion failed: buf->_flags & BUF_FLAGS_VALID";
  s ← (if dirty x then
         s ← buf_request t b true s;
         x ← get b s; Ok (set_buf b (set_flags (valid x) false x) s)
       else Ok s);
  x ← get b s;
  _ ← k_assert (bool_decide (mutex x = Some t)) "k_mutex_unlock: not owner";
  Ok (set_place t (Some (Putting b)) (set_buf b (set_mutex None x) s)).

Definition release_put t b s : outcome st :=
  s ← buf_cache_put b s; Ok (set_place t None s).

(** *** Interleaving

    The callers ask for the blocks of a given set [L], use a buffer between its
    read and its release only, do not write beyond its data, and write the
    buffers they change. *)

Inductive event :=
| EGet t k
| ELock t
| EFill t
| EWrite t b (d : list Z)         (* change the data, set DIRTY (buf_write) *)
| EUnlock t b
| EPut t.

Definition exec (e : event) s : outcome st :=
  match e with
  | EGet t k => '(_, s) ← read_get t k s; Ok s
  | ELock t => match places s !! t with Some (Locking b k) => read_lock t b k s | _ => Panic "not enabled" end
  | EFill t => match places s !! t with Some (Filling b _) => read_fill t b s | _ => Panic "not enabled" end
  | EWrite t b d => x ← get b s; mark_dirty b (set_buf b (set_data (Some d) x) s)
  | EUnlock t b => release_unlock t b s
  | EPut t => match places s !! t with Some (Putting b) => release_put t b s | _ => Panic "not enabled" end
  end.

Definition owner b s : option tid := x ← bufs s !! b; mutex x.

Definition enabled (L : gset key) (e : event) s : bool :=
  match e with
  | EGet t k => bool_decide (places s !! t = None) && bool_decide (k ∈ L)
  | ELock t =>
      match places s !! t with
      | Some (Locking b _) => bool_decide (owner b s = None ∨ owner b s = Some t)
      | _ => false
      end
  | EFill t => match places s !! t with Some (Filling _ _) => true | _ => false end
  | EWrite t b d => bool_decide (places s !! t = None) && bool_decide (owner b s = Some t) &&
      bool_decide ((λ x, block_len (bkey x)) <$> bufs s !! b = Some (length d))
  | EUnlock t b => bool_decide (places s !! t = None) && bool_decide (owner b s = Some t)
  | EPut t => match places s !! t with Some (Putting _) => true | _ => false end
  end.

(** [buf_init], on given devices and with given memory. *)
Definition buf_init (ds : gset Z) (dk : devices) (orc : nat → bool) : st :=
  MkSt [] 0 ∅ 0 ds dk orc 0 ∅.


(** ** Blocks of a device *)

(** Two blocks have no byte in common. *)
Definition apart (k k' : key) : Prop :=
  key_dev k ≠ key_dev k' ∨ (block_off k + block_len k ≤ block_off k')%nat ∨ (block_off k' + block_len k' ≤ block_off k)%nat.

(** Blocks that the callers may use together. *)
Record layout_ok (L : gset key) : Prop := {
  lo_size k : k ∈ L → key_size k mod SD_BLOCKLEN = 0;
  lo_apart k k' : k ∈ L → k' ∈ L → k ≠ k' → apart k k' }.

Lemma dev_read_len D k d : dev_read D k = Some d → length d = block_len k.
Proof.
  unfold dev_read. destruct (D !! key_dev k) as [B|]; simpl; [|done]. case_bool_decide; [|done]. intros [= <-].
  unfold slice. rewrite length_take, length_drop. lia.
Qed.

Lemma dev_read_write D k old d : dev_read D k = Some old → length d = block_len k → dev_read (dev_write D k d) k = Some d.
Proof.
  unfold dev_read, dev_write. destruct (D !! key_dev k) as [B|]; simpl; [|done]. case_bool_decide as Hl; [|done]. intros _ Hd.
  rewrite lookup_insert_eq. simpl. rewrite length_splice, bool_decide_true by lia. rewrite <- Hd. rewrite slice_splice; [done|lia].
Qed.

Lemma dev_read_other D k k' old d : dev_read D k = Some old → length d = block_len k → apart k k' → dev_read (dev_write D k d) k' = dev_read D k'.
Proof.
  unfold dev_read, dev_write. destruct (D !! key_dev k) as [B|] eqn:EB; simpl; [|done]. case_bool_decide as Hl; [|done]. intros _ Hd Ha.
  destruct (decide (key_dev k = key_dev k')) as [E|E]; [|by rewrite lookup_insert_ne]. rewrite <- E, lookup_insert_eq, EB. simpl.
  rewrite length_splice by lia. case_bool_decide; [|done]. rewrite slice_splice_other; [done|lia|]. destruct Ha as [?|[?|?]]; [done|lia..].
Qed.


Lemma dev_write_dom D k d i : is_Some (dev_write D k d !! i) ↔ is_Some (D !! i).
Proof.
  unfold dev_write. destruct (D !! key_dev k) as [B|] eqn:EB; [|done]. rewrite lookup_insert_is_Some'. split; [|auto]. intros [<-|?]; [by rewrite EB|done].
Qed.

(** An ext2 file system with blocks of [bs] bytes: the superblock, read as block 1
    of 1024 bytes, and the blocks from 1 on.  Block 0 is not used. *)
Definition ext2_layout (dev bs n : Z) : gset key := {[ (dev, 1024, 1) ]} ∪ list_to_set ((λ b, (dev, bs, b)) <$> seqZ 1 n).

Lemma ext2_layout_ok dev bs n : 1024 ≤ bs → bs mod 1024 = 0 → (n + 1) * bs ≤ 2 ^ 32 → layout_ok (ext2_layout dev bs n).
Proof.
  intros Hbs Hmod Hn. assert (Hel : ∀ k, k ∈ ext2_layout dev bs n → k = (dev, 1024, 1) ∨ ∃ b, k = (dev, bs, b) ∧ 1 ≤ b ≤ n).
  { intros k. unfold ext2_layout. rewrite elem_of_union, elem_of_singleton, elem_of_list_to_set, list_elem_of_fmap. intros [->|(b & -> & Hb%elem_of_seqZ)]; [by left|].
    right. exists b. split; [done|lia]. }
  assert (Hoff : ∀ b, 1 ≤ b ≤ n → block_off (dev, bs, b) = Z.to_nat (b * bs) ∧ block_len (dev, bs, b) = Z.to_nat bs).
  { intros b Hb. unfold block_off, block_len, key_no, key_size. simpl. rewrite u32_small by nia. done. }
  assert (H1 : block_off (dev, 1024, 1) = 1024%nat ∧ block_len (dev, 1024, 1) = 1024%nat) by (split; vm_compute; reflexivity).
  split.
  - intros k [->|(b & -> & _)]%Hel; [done|]. unfold key_size, SD_BLOCKLEN. simpl. Z.to_euclidean_division_equations; lia.
  - intros k k' [->|(b & -> & Hb)]%Hel [->|(b' & -> & Hb')]%Hel Hne; right; try done.
    + destruct H1 as [-> ->], (Hoff b' Hb') as [-> ->]. left. assert (bs ≠ 1024 ∨ b' ≠ 1) by (destruct (decide (bs = 1024)), (decide (b' = 1)); subst; auto). Z.to_euclidean_division_equations; nia.
    + destruct H1 as [-> ->], (Hoff b Hb) as [-> ->]. right. assert (bs ≠ 1024 ∨ b ≠ 1) by (destruct (decide (bs = 1024)), (decide (b = 1)); subst; auto). Z.to_euclidean_division_equations; nia.
    + destruct (Hoff b Hb) as [-> ->], (Hoff b' Hb') as [-> ->]. assert (b ≠ b') by congruence. destruct (decide (b < b')); [left|right]; nia.
Qed.

Section layout.
Context (L : gset key) (HL : layout_ok L).

(** ** The invariant *)

Definition pbuf (p : place) : bid := match p with Locking b _ | Filling b _ | Putting b => b end.

(** The references of tasks that do not own the mutex. *)
Definition waits b (p : place) : Z :=
  match p with Locking c _ | Putting c => if b =? c then 1 else 0 | Filling _ _ => 0 end.
Definition nwait b (m : gmap tid place) : Z := map_fold (λ _ p n, n + waits b p) 0 m.
Definition owned x : Z := match mutex x with None => 0 | Some _ => 1 end.

Definition place_ok t (p : place) x : Prop :=
  match p with
  | Locking _ k => bkey x = k
  | Filling _ k => bkey x = k ∧ mutex x = Some t ∧ dirty x = false
  | Putting _ => True
  end.

Record buf_ok s b x : Prop := {
  b_refs : ref_count x = nwait b (places s) + owned x;
  b_dirty : dirty x = true → is_Some (mutex x);
  b_valid : valid x = true → key_dev (bkey x) ∈ devs s ∧ is_Some (dev_read (disk s) (bkey x)) ∧
              ∃ d, data x = Some d ∧ length d = block_len (bkey x) ∧ (dirty x = false → dev_read (disk s) (bkey x) = Some d);
  b_owner t : mutex x = Some t → valid x = true ∨ ∃ k, places s !! t = Some (Filling b k) }.

Record inv s : Prop := {
  i_nodup : NoDup (cache s);
  i_dom b : b ∈ cache s ↔ is_Some (bufs s !! b);
  i_size : csize s = Z.of_nat (length (cache s));
  i_max : csize s ≤ BUF_CACHE_MAX_SIZE;
  i_next b : is_Some (bufs s !! b) → b < next s;
  i_key b1 b2 x1 x2 : bufs s !! b1 = Some x1 → bufs s !! b2 = Some x2 → bkey x1 = bkey x2 → b1 = b2;
  i_lay b x : bufs s !! b = Some x → bkey x ∈ L;
  i_buf b x : bufs s !! b = Some x → buf_ok s b x;
  i_place t p : places s !! t = Some p → ∃ x, bufs s !! pbuf p = Some x ∧ place_ok t p x }.

Definition wopt b (o : option place) : Z := from_option (waits b) 0 o.

Lemma nwait_alter b m t o :
  nwait b (partial_alter (λ _, o) t m) = nwait b m - wopt b (m !! t) + wopt b o.
Proof.
  assert (Hdel : ∀ m' : gmap tid place, nwait b m' = nwait b (delete t m') + wopt b (m' !! t)).
  { intros m'. destruct (m' !! t) as [p|] eqn:E; simpl.
    - unfold nwait. erewrite (map_fold_delete_L _ _ t) by (try exact E; intros; simpl; lia). simpl. lia.
    - rewrite delete_id by done. lia. }
  rewrite Hdel, (Hdel m), lookup_partial_alter_eq.
  replace (delete t (partial_alter (λ _, o) t m)) with (delete t m); [lia|].
  apply map_eq. intros i. destruct (decide (i = t)) as [->|].
  - by rewrite !lookup_delete_eq.
  - by rewrite !lookup_delete_ne, lookup_partial_alter_ne.
Qed.

Lemma nwait_nonneg b m : 0 ≤ nwait b m.
Proof.
  unfold nwait. apply (map_fold_weak_ind (λ r _, 0 ≤ r)); [lia|].
  intros i p m' r _ IH. destruct p; simpl; try case_match; lia.
Qed.

Lemma nwait_place b m t p : m !! t = Some p → waits b p ≤ nwait b m.
Proof.
  intros E. pose proof (nwait_alter b m t None) as H. rewrite E in H. simpl in H.
  pose proof (nwait_nonneg b (partial_alter (λ _, None) t m)). lia.
Qed.

(** One buffer and the place of one task change. *)
Lemma inv_update s s' t b x x' p :
  inv s → bufs s !! b = Some x → bufs s' = <[b := x']> (bufs s) →
  places s' = partial_alter (λ _, p) t (places s) →
  NoDup (cache s') → (∀ c, c ∈ cache s' ↔ c ∈ cache s) →
  csize s' = csize s → next s' = next s → devs s' = devs s →
  (∀ k, k ∈ L → k ≠ bkey x → dev_read (disk s') k = dev_read (disk s) k) → bkey x' = bkey x →
  (∀ q, places s !! t = Some q → pbuf q = b) → (∀ q, p = Some q → pbuf q = b ∧ place_ok t q x') →
  (∀ t' q, t' ≠ t → places s !! t' = Some q → pbuf q = b → place_ok t' q x') →
  buf_ok s' b x' → inv s'.
Proof.
  intros Hi Hb Eb Ep Hnd Hc Hs Hn Hd Hdk Hk Hold Hnew Hoth Hok.
  assert (Hsome : ∀ c, is_Some (bufs s' !! c) ↔ is_Some (bufs s !! c)).
  { intros c. rewrite Eb, lookup_insert_is_Some'. split; [intros [<-|]|]; eauto. }
  assert (Hkeys : ∀ c y', bufs s' !! c = Some y' → ∃ y, bufs s !! c = Some y ∧ bkey y' = bkey y).
  { intros c y'. rewrite Eb. intros [[<- <-]|[? ?]]%lookup_insert_Some; eauto. }
  split; try done.
  - intros c. by rewrite Hc, Hsome, (i_dom s Hi).
  - rewrite Hs, (i_size s Hi). f_equal. apply Permutation_length, NoDup_Permutation; [apply Hi|done|].
    intros c. by rewrite Hc.
  - rewrite Hs. apply Hi.
  - intros c. rewrite Hsome, Hn. apply Hi.
  - intros b1 b2 x1 x2 H1 H2 E. destruct (Hkeys _ _ H1) as (y1 & ? & ?), (Hkeys _ _ H2) as (y2 & ? & ?).
    eapply (i_key s Hi); eauto. congruence.
  - intros c y' Hy'. destruct (Hkeys _ _ Hy') as (y & Hy & ->). by apply (i_lay s Hi c y).
  - intros c y. rewrite Eb. intros [[<- <-]|[Hne Hy]]%lookup_insert_Some; [done|].
    destruct (i_buf s Hi c y Hy) as [R D V O]. split; [|done| |].
    + rewrite Ep, nwait_alter, R.
      assert (Hw : ∀ q, pbuf q = b → waits c q = 0).
      { intros [] <-; simpl in *; try done; destruct (Z.eqb_spec c b0); congruence. }
      destruct (places s !! t) as [q|] eqn:Eq; simpl; [rewrite Hw by eauto|];
        (destruct p as [q'|] eqn:Eq'; simpl; [rewrite Hw by (by apply Hnew)|]); lia.
    + intros Hv. rewrite Hd, Hdk; [by apply V|by apply (i_lay s Hi c)|]. intros E. apply Hne. by eapply (i_key s Hi).
    + intros t' Ht'. destruct (O t' Ht') as [?|(k & E)]; [by left|]. right. exists k.
      rewrite Ep, lookup_partial_alter_ne; [done|]. intros <-. by destruct Hne; rewrite <- (Hold _ E).
  - intros t' q. rewrite Ep. destruct (decide (t = t')) as [<-|Hne].
    + rewrite lookup_partial_alter_eq. intros ->. destruct (Hnew q eq_refl) as [<- ?].
      exists x'. by rewrite Eb, lookup_insert_eq.
    + rewrite lookup_partial_alter_ne by done. intros E. destruct (decide (pbuf q = b)) as [<-|Hb'].
      * exists x'. rewrite Eb, lookup_insert_eq. split; [done|]. eapply Hoth; eauto.
      * rewrite Eb, lookup_insert_ne by done. by apply (i_place s Hi).
Qed.

Lemma insert_nodup s b : NoDup (cache s) → NoDup (cache (buf_cache_insert b s)).
Proof.
  intros H. simpl. apply NoDup_cons. split; [|by apply NoDup_filter].
  rewrite list_elem_of_filter. naive_solver.
Qed.

Lemma insert_elem s b c : c ∈ cache (buf_cache_insert b s) ↔ c = b ∨ c ∈ cache s.
Proof. simpl. rewrite elem_of_cons, list_elem_of_filter. destruct (decide (c = b)); naive_solver. Qed.

Lemma lock_ok s t b k x :
  inv s → places s !! t = Some (Locking b k) → bufs s !! b = Some x → mutex x = None →
  wp (read_lock t b k s) no_panic (λ s', inv s' ∧
    s' = set_place t (Some (Filling b k)) (set_buf b (set_mutex (Some t) x) s)).
Proof.
  intros Hi Hp Hx Hm. unfold read_lock, get. rewrite Hx. simpl. rewrite bool_decide_false by congruence. simpl.
  destruct (i_place s Hi _ _ Hp) as (? & Hx' & Hk). simpl in *. simplify_eq. split; [|done].
  destruct (i_buf s Hi _ _ Hx) as [R D V O].
  assert (dirty x = false) by (destruct (dirty x); [destruct D; [done|congruence]|done]).
  eapply (inv_update s _ t b x); try done; simpl.
  - apply Hi.
  - intros q E. by simplify_eq.
  - by intros ? [= <-].
  - intros t' [] Hne Hq <-; destruct (i_place s Hi _ _ Hq) as (? & ? & Hpo); simpl in *; simplify_eq; naive_solver.
  - split; simpl.
    + rewrite nwait_alter, Hp, R. simpl. rewrite Z.eqb_refl. unfold owned. simpl. rewrite Hm. lia.
    + eauto.
    + done.
    + intros t' [= <-]. right. exists (bkey x). by rewrite lookup_partial_alter_eq.
Qed.

(** A task other than the owner sees only the key of a buffer. *)
Lemma others_place s b x x' t t' q :
  inv s → bufs s !! b = Some x → mutex x = Some t → bkey x' = bkey x →
  t' ≠ t → places s !! t' = Some q → pbuf q = b → place_ok t' q x'.
Proof.
  intros Hi Hx Hm Hk Hne Hq <-. destruct (i_place s Hi _ _ Hq) as (y & Hy & Hpo).
  destruct q; simpl in *; simplify_eq; naive_solver.
Qed.

Definition same_devices s s' : Prop := disk s' = disk s ∧ devs s' = devs s ∧ oracle s' = oracle s.
Definition no_block k s : Prop := key_dev k ∉ devs s ∨ dev_read (disk s) k = None.

Lemma fill_ok s t b k :
  inv s → places s !! t = Some (Filling b k) →
  wp (read_fill t b s) (λ _, no_block k s) (λ s', inv s' ∧ places s' = delete t (places s) ∧ disk s' = disk s ∧
    devs s' = devs s ∧
    ∃ x d, bufs s !! b = Some x ∧ bufs s' = <[b := MkBuf k (Some d) true false (ref_count x) (Some t)]> (bufs s) ∧
      cache s' = cache s ∧ asked s' = asked s ∧ oracle s' = oracle s ∧ dev_read (disk s) k = Some d).
Proof.
  intros Hi Hp. destruct (i_place s Hi _ _ Hp) as (x & Hx & Hk & Hm & Hd). simpl in Hx.
  destruct (i_buf s Hi _ _ Hx) as [R D V O].
  assert (Hfin : ∀ s' d, bufs s' = <[b := MkBuf k (Some d) true false (ref_count x) (Some t)]> (bufs s) →
    places s' = partial_alter (λ _, None) t (places s) → cache s' = cache s → csize s' = csize s → next s' = next s →
    devs s' = devs s → disk s' = disk s → key_dev k ∈ devs s → dev_read (disk s) k = Some d → inv s').
  { intros s' d E1 E2 E3 E4 E5 E6 E7 Hdev Hdk.
    eapply (inv_update s s' t b x); try done.
    - rewrite E3. apply Hi.
    - by rewrite E3.
    - by rewrite E7.
    - intros q E. by simplify_eq.
    - intros t' q. by eapply others_place.
    - split; simpl; rewrite ?E2, ?E6, ?E7.
      + rewrite nwait_alter, Hp, R. unfold owned. rewrite Hm. simpl. lia.
      + eauto.
      + intros _. split; [done|]. split; [eauto|]. exists d. eauto using dev_read_len.
      + auto. }
  destruct x as [k' dx v dt r m]. simpl in *. subst k' dt m.
  unfold read_fill, get. rewrite Hx. simpl. destruct v.
  - destruct (V eq_refl) as (Hdev & _ & d & -> & _ & Hdk). simpl. rewrite Hx. simpl.
    split; [apply (Hfin _ d); try done; by apply Hdk|]. repeat (split; [done|]). eexists _, d. auto 10.
  - unfold buf_request, get. rewrite Hx. simpl. rewrite (bool_decide_true (Some t = Some t)) by done. simpl.
    case_bool_decide as Hdev; simpl; [|by left].
    rewrite (proj2 (Z.eqb_eq _ _)) by (apply (lo_size L HL); exact (i_lay s Hi _ _ Hx)). simpl.
    destruct (dev_read (disk s) k) as [d|] eqn:Hdk; simpl; [|by right].
    rewrite lookup_insert_eq. simpl. rewrite insert_insert_eq.
    split; [apply (Hfin _ d); try done; simpl; by rewrite insert_insert_eq|]. repeat (split; [done|]). eexists _, d. done.
Qed.

Lemma write_ok s t b x d :
  inv s → bufs s !! b = Some x → mutex x = Some t → places s !! t = None → length d = block_len (bkey x) →
  wp (exec (EWrite t b d) s) no_panic (λ s', inv s' ∧ bufs s' = <[b := set_flags true true (set_data (Some d) x)]> (bufs s) ∧
    places s' = places s ∧ same_devices s s').
Proof.
  intros Hi Hx Hm Hp Hlen. unfold exec, mark_dirty, get. rewrite Hx. simpl. rewrite lookup_insert_eq. simpl.
  destruct (i_buf s Hi _ _ Hx) as [R D V O].
  assert (Hv : valid x = true) by (destruct (O t Hm) as [?|(? & ?)]; [done|congruence]).
  rewrite Hv, insert_insert_eq. split; [|done].
  eapply (inv_update s _ t b x (set_flags true true (set_data (Some d) x)) None); try done; simpl.
  - by rewrite insert_insert_eq.
  - rewrite <- delete_id at 1 by done. done.
  - apply Hi.
  - intros q E. congruence.
  - intros t' q. by eapply others_place.
  - destruct (V Hv) as (? & ? & ? & ? & ? & ?). split; simpl; auto. intros _. split_and!; [done..|]. by exists d.
Qed.

Lemma unlock_buf_ok s t b x :
  inv s → bufs s !! b = Some x → mutex x = Some t → places s !! t = None →
  wp (release_unlock t b s) no_panic (λ s', inv s' ∧ places s' = <[t := Putting b]> (places s) ∧
    bufs s' = <[b := set_flags true false (set_mutex None x)]> (bufs s) ∧
    devs s' = devs s ∧ oracle s' = oracle s ∧
    disk s' = (match data x with Some d => if dirty x then dev_write (disk s) (bkey x) d else disk s | None => disk s end)).
Proof.
  intros Hi Hx Hm Hp. destruct (i_buf s Hi _ _ Hx) as [R D V O].
  assert (Hv : valid x = true) by (destruct (O t Hm) as [?|(? & ?)]; [done|congruence]).
  destruct (V Hv) as (Hdev & [old Hold] & d & Hd & Hlen & Hdk).
  assert (Hfin : ∀ s', bufs s' = <[b := set_flags true false (set_mutex None x)]> (bufs s) →
    places s' = partial_alter (λ _, Some (Putting b)) t (places s) → cache s' = cache s → csize s' = csize s → next s' = next s →
    devs s' = devs s → disk s' = (if dirty x then dev_write (disk s) (bkey x) d else disk s) → inv s').
  { intros s' E1 E2 E3 E4 E5 E6 E7. eapply (inv_update s s' t b x); try done.
    - rewrite E3. apply Hi.
    - by rewrite E3.
    - intros k Hk Hne. rewrite E7. destruct (dirty x); [|done]. eapply dev_read_other; [done|done|]. apply (lo_apart L HL); [by apply (i_lay s Hi b)|done|done].
    - intros q E. congruence.
    - by intros q [= <-].
    - intros t' q. by eapply others_place.
    - split; simpl; rewrite ?E2, ?E6, ?E7; try done.
      + rewrite nwait_alter, Hp, R. unfold owned. rewrite Hm. simpl. rewrite Z.eqb_refl. lia.
      + intros _. split; [done|]. destruct (dirty x); [rewrite (dev_read_write _ _ old) by done|]; eauto 10. }
  unfold release_unlock, get. rewrite Hx. simpl. rewrite Hv. simpl. rewrite Hd.
  destruct (dirty x) eqn:Hdt; simpl.
  - unfold buf_request, get. rewrite Hx. simpl. rewrite (bool_decide_true (mutex x = _)) by done. rewrite Hv, Hdt. simpl.
    rewrite bool_decide_true by done. simpl. rewrite (proj2 (Z.eqb_eq _ _)) by (apply (lo_size L HL); exact (i_lay s Hi _ _ Hx)). simpl. rewrite Hold, Hd. simpl. rewrite Hx. simpl.
    rewrite lookup_insert_eq. simpl. rewrite bool_decide_true by done. simpl. rewrite Hv, insert_insert_eq.
    split; [apply Hfin; try done; simpl; rewrite ?Hv, ?insert_insert_eq, ?Hdt; done|done].
  - rewrite Hx. simpl. rewrite bool_decide_true by done. simpl.
    replace (set_mutex None x) with (set_flags true false (set_mutex None x)) by (unfold set_flags, set_mutex; simpl; by rewrite Hv, Hdt).
    split; [by apply Hfin|done].
Qed.

Lemma put_ok s t b :
  inv s → places s !! t = Some (Putting b) →
  wp (release_put t b s) no_panic (λ s', inv s' ∧ places s' = delete t (places s) ∧ same_devices s s' ∧
    ∃ x, bufs s !! b = Some x ∧ bufs s' = <[b := set_refs (ref_count x - 1) x]> (bufs s)).
Proof.
  intros Hi Hp. destruct (i_place s Hi _ _ Hp) as (x & Hx & _). simpl in Hx.
  destruct (i_buf s Hi _ _ Hx) as [R D V O].
  unfold release_put, buf_cache_put, get. rewrite Hx. simpl.
  assert (Hfin : ∀ s', bufs s' = <[b := set_refs (ref_count x - 1) x]> (bufs s) →
    places s' = partial_alter (λ _, None) t (places s) → cache s' = cache s ∨ cache s' = cache (buf_cache_insert b s) →
    csize s' = csize s → next s' = next s → devs s' = devs s → disk s' = disk s → inv s').
  { intros s' E1 E2 E3 E4 E5 E6 E7. eapply (inv_update s s' t b x); try done.
    - destruct E3 as [->| ->]; [|apply insert_nodup]; apply Hi.
    - intros c. destruct E3 as [->| ->]; [done|]. rewrite insert_elem.
      split; [intros [->|?]; [|done]|auto]. apply (i_dom s Hi). eauto.
    - by rewrite E7.
    - intros q E. by simplify_eq.
    - intros t' q _ Hq <-. destruct (i_place s Hi _ _ Hq) as (? & ? & ?). destruct q; naive_solver.
    - split; simpl; rewrite ?E2, ?E6, ?E7; try done.
      + rewrite nwait_alter, Hp, R. unfold owned. simpl. rewrite Z.eqb_refl. lia.
      + intros t' Ht'. destruct (O t' Ht') as [?|(k & E)]; [by left|]. right. exists k.
        rewrite lookup_partial_alter_ne; [done|]. congruence. }
  split; [|by case_match; repeat (split; [done|]); eauto]. case_match; eapply Hfin; simpl; auto.
Qed.

Lemma lookup_loop_ok s k l u :
  (∀ b, b ∈ l → is_Some (bufs s !! b)) →
  wp (lookup_loop k l u s) no_panic (λ '(o, u'),
    match o with
    | Some b => b ∈ l ∧ ∃ x, bufs s !! b = Some x ∧ bkey x = k
    | None =>
        (∀ b x, b ∈ l → bufs s !! b = Some x → bkey x ≠ k) ∧
        match u' with
        | Some b => u = Some b ∨ b ∈ l ∧ ∃ x, bufs s !! b = Some x ∧ ref_count x = 0
        | None => u = None ∧ ∀ b x, b ∈ l → bufs s !! b = Some x → ref_count x ≠ 0
        end
    end).
Proof.
  revert u. induction l as [|b l IH]; intros u Hl; simpl.
  { split; [intros ? ? []%not_elem_of_nil|]. destruct u; [by left|]. split; [done|]. intros ? ? []%not_elem_of_nil. }
  destruct (Hl b ltac:(left)) as [x Hx]. unfold get. rewrite Hx. simpl.
  case_bool_decide as Hk; simpl; [split; [left|eauto]|].
  eapply wp_mono; [apply (IH (if ref_count x =? 0 then Some b else u)); intros; apply Hl; by right|done|].
  intros [[b'|] u']; simpl.
  - intros [? ?]. split; [by right|done].
  - intros [Hn Hu]. split; [intros c y [->|?]%elem_of_cons ?; [congruence|eauto]|].
    destruct u' as [c|].
    + destruct Hu as [Hu|[? ?]]; [|right; split; [by right|done]].
      destruct (Z.eqb_spec (ref_count x) 0); simplify_eq; [|by left].
      right. split; [left|eauto].
    + destruct Hu as [Hu Hr]. destruct (Z.eqb_spec (ref_count x) 0); simplify_eq. split; [done|].
      intros c y [->|?]%elem_of_cons ?; [congruence|eauto].
Qed.

(** A buffer enters the cache, unreferenced. *)
Definition grown b k (n : nat) s : st :=
  MkSt (b :: cache s) (csize s + 1) (<[b := MkBuf k None false false 0 None]> (bufs s)) (b + 1) (devs s) (disk s)
    (oracle s) n (places s).

Lemma inv_asked s n : inv s → inv (MkSt (cache s) (csize s) (bufs s) (next s) (devs s) (disk s) (oracle s) n (places s)).
Proof. intros []. split; try done. intros b x Hx. by destruct (i_buf0 b x Hx). Qed.

Lemma no_waits s b : inv s → bufs s !! b = None → nwait b (places s) = 0.
Proof.
  intros Hi Hb. unfold nwait.
  apply (map_fold_weak_ind (λ r m, m ⊆ places s → r = 0)); [done| |done].
  intros t p m r Hm IH Hsub. rewrite IH by (etrans; [by apply insert_subseteq|done]).
  assert (Hp : places s !! t = Some p) by (eapply lookup_weaken; [apply lookup_insert_eq|done]).
  destruct (i_place s Hi t p Hp) as (x & Hx & _).
  destruct p as [c k|c k|c]; simpl in *; try lia; destruct (Z.eqb_spec b c); subst; try lia; congruence.
Qed.

Lemma next_fresh s : inv s → bufs s !! next s = None.
Proof. intros Hi. destruct (bufs s !! next s) eqn:E; [|done]. pose proof (i_next s Hi (next s) ltac:(eauto)). lia. Qed.

Lemma grown_inv s k n :
  inv s → k ∈ L → csize s < BUF_CACHE_MAX_SIZE → (∀ b x, bufs s !! b = Some x → bkey x ≠ k) → inv (grown (next s) k n s).
Proof.
  intros Hi HkL Hsz Hk. pose proof (next_fresh s Hi) as Hf. set (b := next s) in *.
  split; simpl.
  - apply NoDup_cons. split; [|apply Hi]. rewrite (i_dom s Hi), Hf. by intros [? ?].
  - intros c. rewrite elem_of_cons, lookup_insert_is_Some', (i_dom s Hi). naive_solver.
  - rewrite (i_size s Hi). simpl. lia.
  - lia.
  - intros c [<-|H]%lookup_insert_is_Some'; [lia|]. pose proof (i_next s Hi c H). fold b in H0. lia.
  - intros b1 b2 x1 x2 [[<- <-]|[? H1]]%lookup_insert_Some [[<- <-]|[? H2]]%lookup_insert_Some; simpl.
    + done.
    + intros E. by destruct (Hk _ _ H2).
    + intros E. by destruct (Hk _ _ H1).
    + by apply (i_key s Hi).
  - intros c x [[<- <-]|[? Hx]]%lookup_insert_Some; [done|by apply (i_lay s Hi c)].
  - intros c x [[<- <-]|[? Hx]]%lookup_insert_Some.
    + split; simpl; [|done..]. by rewrite no_waits.
    + by destruct (i_buf s Hi c x Hx).
  - intros t p Hp. destruct (i_place s Hi t p Hp) as (x & Hx & ?). exists x. split; [|done].
    rewrite lookup_insert_ne; [done|]. congruence.
Qed.

Lemma cache_grow_ok s k :
  inv s → (∀ b x, bufs s !! b = Some x → bkey x ≠ k) →
  ∃ o n, (asked s ≤ n ≤ S (S (asked s)))%nat ∧ match o with
  | Some b => b = next s ∧ csize s < BUF_CACHE_MAX_SIZE ∧ buf_cache_grow k s = Ok (Some b, grown b k n s)
  | None => (csize s = BUF_CACHE_MAX_SIZE ∨ ∃ i, (i < S (S (asked s)))%nat ∧ oracle s i = false) ∧
      buf_cache_grow k s = Ok (None, MkSt (cache s) (csize s) (bufs s) (next s) (devs s) (disk s) (oracle s) n (places s))
  end.
Proof.
  intros Hi Hk. unfold buf_cache_grow, buf_alloc, alloc. pose proof (i_max s Hi). destruct (Z.leb_spec BUF_CACHE_MAX_SIZE (csize s)).
  { exists None, (asked s). split; [lia|]. split; [left; lia|]. by destruct s. }
  destruct (Z.ltb_spec (csize s) BUF_CACHE_MAX_SIZE); [|lia]. simpl.
  destruct (oracle s (asked s)) eqn:E1; simpl.
  2:{ exists None, (S (asked s)). split; [lia|]. split; [right; exists (asked s); split; [lia|done]|done]. }
  destruct (oracle s (S (asked s))) eqn:E2; simpl.
  2:{ exists None, (S (S (asked s))). split; [lia|]. split; [right; exists (S (asked s)); split; [lia|done]|done]. }
  exists (Some (next s)), (S (S (asked s))). split; [lia|]. split_and!; [done..|].
  unfold grown, buf_cache_insert, set_cache. simpl.
  assert (Hnotin : next s ∉ cache s) by (rewrite (i_dom s Hi), next_fresh by done; by intros [? ?]).
  assert (Hf : filter (λ c, c ≠ next s) (cache s) = cache s)
    by (apply filter_all; rewrite Forall_forall; intros c Hc ->; done).
  rewrite filter_cons_False by naive_solver. by rewrite !Hf.
Qed.

Lemma rekey_inv s b x k d n :
  inv s → k ∈ L → bufs s !! b = Some x → ref_count x = 0 → (∀ b x, bufs s !! b = Some x → bkey x ≠ k) →
  mutex x = None ∧ inv (MkSt (cache s) (csize s) (<[b := MkBuf k d false false 0 None]> (bufs s)) (next s) (devs s)
    (disk s) (oracle s) n (places s)).
Proof.
  intros Hi HkL Hx Hr Hk. destruct (i_buf s Hi b x Hx) as [R D V O].
  pose proof (nwait_nonneg b (places s)) as Hn.
  assert (Hm : mutex x = None) by (unfold owned in R; destruct (mutex x); [lia|done]).
  unfold owned in R. rewrite Hm in R. split; [done|].
  assert (Hnp : ∀ t p, places s !! t = Some p → pbuf p ≠ b).
  { intros t p Hp <-. pose proof (nwait_place (pbuf p) _ _ _ Hp). destruct (i_place s Hi _ _ Hp) as (y & Hy & Hpo).
    destruct p; simpl in *; rewrite ?Z.eqb_refl in *; try lia. simplify_eq. naive_solver. }
  split; simpl.
  - apply Hi.
  - intros c. rewrite lookup_insert_is_Some', (i_dom s Hi). naive_solver.
  - apply Hi.
  - apply Hi.
  - intros c [<-|H]%lookup_insert_is_Some'; apply Hi; eauto.
  - intros b1 b2 x1 x2 [[<- <-]|[? H1]]%lookup_insert_Some [[<- <-]|[? H2]]%lookup_insert_Some; simpl.
    + done.
    + intros E. by destruct (Hk _ _ H2).
    + intros E. by destruct (Hk _ _ H1).
    + by apply (i_key s Hi).
  - intros c y [[<- <-]|[? Hy]]%lookup_insert_Some; [done|by apply (i_lay s Hi c)].
  - intros c y [[<- <-]|[? Hy]]%lookup_insert_Some; [|by destruct (i_buf s Hi c y Hy)].
    split; simpl; [|done..]. unfold owned. simpl. lia.
  - intros t p Hp. destruct (i_place s Hi t p Hp) as (y & Hy & ?). exists y. split; [|done].
    rewrite lookup_insert_ne; [done|]. by eapply not_eq_sym, Hnp.
Qed.

(** Taking a reference. *)
Lemma ref_inv s t b x :
  inv s → places s !! t = None → bufs s !! b = Some x →
  inv (set_place t (Some (Locking b (bkey x))) (set_buf b (set_refs (ref_count x + 1) x) s)).
Proof.
  intros Hi Hp Hx. destruct (i_buf s Hi b x Hx) as [R D V O].
  eapply (inv_update s _ t b x); try done; simpl.
  - apply Hi.
  - intros q E. congruence.
  - by intros q [= <-].
  - intros t' q _ Hq <-. destruct (i_place s Hi _ _ Hq) as (? & ? & ?). destruct q; naive_solver.
  - split; simpl; try done.
    + rewrite nwait_alter, Hp, R. simpl. rewrite Z.eqb_refl. unfold owned. simpl. lia.
    + intros t' Ht'. destruct (O t' Ht') as [?|(k & E)]; [by left|]. right. exists k.
      rewrite lookup_partial_alter_ne; [done|]. congruence.
Qed.

Definition all_referenced s : Prop := ∀ b x, bufs s !! b = Some x → ref_count x ≠ 0.
Definition no_memory s : Prop := ∃ i, (i < 3 + asked s)%nat ∧ oracle s i = false.

Definition get_fails k s (w : string) : Prop :=
  (w = "Assertion failed: block_no != (unsigned) -1" ∧ key_no k = 2 ^ 32 - 1) ∨
  (w = "unused is indeterminate" ∧ all_referenced s ∧ (csize s = BUF_CACHE_MAX_SIZE ∨ no_memory s)).

(** What [read_get] does to the buffers: it takes a buffer of the block, one
    that was there or one that was unused. *)
Definition got t k b x s s' : Prop :=
  bkey x = k ∧ places s' = <[t := Locking b k]> (places s) ∧ bufs s' = <[b := x]> (bufs s) ∧
  ((∃ y, bufs s !! b = Some y ∧ bkey y = k ∧ x = set_refs (ref_count y + 1) y) ∨
   (∀ c y, bufs s !! c = Some y → bkey y ≠ k) ∧ mutex x = None ∧
   (bufs s !! b = None ∨ ∃ y, bufs s !! b = Some y ∧ ref_count y = 0 ∧ mutex y = None)).

Lemma get_ok s t k :
  inv s → k ∈ L → places s !! t = None →
  wp (read_get t k s) (get_fails k s) (λ '(r, s'), inv s' ∧ same_devices s s' ∧
    if r then ∃ b x, got t k b x s s' else bufs s' = bufs s ∧ places s' = places s ∧ no_memory s).
Proof.
  intros Hi HkL Hp. unfold read_get. apply wp_bind, wp_assert.
  { intros E. left. split; [done|]. bool_to_prop. done. }
  intros _. unfold buf_cache_get, buf_cache_get_locked, buf_cache_lookup.
  pose proof (lookup_loop_ok s k (cache s) None ltac:(intros; by apply (i_dom s Hi))) as H.
  destruct (lookup_loop k (cache s) None s) as [[[b|] u]|]; [|..|done]; simpl in H |- *.
  - destruct H as (_ & x & Hx & Hk). unfold get. rewrite Hx. simpl. subst k.
    split; [by apply ref_inv|]. split; [done|]. exists b, (set_refs (ref_count x + 1) x). split_and!; [done..|].
    left. eauto.
  - destruct H as [Hn Hu].
    assert (Hk : ∀ b x, bufs s !! b = Some x → bkey x ≠ k) by (intros c y Hy; eapply Hn; [apply (i_dom s Hi); eauto|done]).
    destruct (cache_grow_ok s k Hi Hk) as (o & n & Hnn & Ho). destruct o as [b|].
    + destruct Ho as (-> & Hsz & ->). simpl. unfold get. simpl. rewrite lookup_insert_eq. simpl.
      split; [|split; [done|]].
      * apply (ref_inv (grown (next s) k n s) t (next s) (MkBuf k None false false 0 None)).
        { by apply grown_inv. } { done. } simpl. by rewrite lookup_insert_eq.
      * exists (next s), (MkBuf k None false false 1 None). split; [done|]. split; [done|]. simpl. rewrite insert_insert_eq. split; [done|].
        right. split_and!; [done..|]. left. by apply next_fresh.
    + destruct Ho as [Hfull ->]. simpl. destruct u as [b|]; simpl.
      2:{ right. split; [done|]. split.
          - intros c y Hy. destruct Hu as [_ Hu]. eapply Hu; [|done]. apply (i_dom s Hi). eauto.
          - destruct Hfull as [?|(i & ? & ?)]; [by left|right; exists i; split; [lia|done]]. }
      destruct Hu as [?|(_ & x & Hx & Hr)]; [done|].
      unfold buf_reuse, get. simpl. rewrite Hx. simpl.
      assert (Hfin : ∀ d n', let s1 := MkSt (cache s) (csize s) (<[b := MkBuf k d false false (ref_count x) (mutex x)]> (bufs s))
          (next s) (devs s) (disk s) (oracle s) n' (places s) in
        wp (x ← deref (bufs s1 !! b) "no such buffer"; Ok (Some b, set_buf b (set_refs (ref_count x + 1) x) s1))
          (get_fails k s) (λ '(o, s2), ∃ x, o = Some b ∧ inv (set_place t (Some (Locking b k)) s2) ∧ same_devices s s2 ∧
            got t k b x s (set_place t (Some (Locking b k)) s2))).
      { intros d n' s1. destruct (rekey_inv s b x k d n' Hi HkL Hx Hr Hk) as [Hm Hi1]. simpl. rewrite lookup_insert_eq. simpl.
        subst s1. rewrite Hr, Hm. exists (MkBuf k d false false 1 None). split; [done|]. split; [|split; [done|]].
        - apply (ref_inv _ t b (MkBuf k d false false 0 None)) in Hi1; [done|done|]. simpl. by rewrite lookup_insert_eq.
        - split; [done|]. split; [done|]. split; [simpl; by rewrite insert_insert_eq|]. right. eauto 10. }
      case_match; simpl.
      * specialize (Hfin (data x) n). simpl in Hfin. unfold set_buf in *. simpl in *. rewrite lookup_insert_eq in *. simpl in *.
        destruct Hfin as (x' & _ & ? & ? & ?). eauto 10.
      * destruct (oracle s n) eqn:E; simpl.
        -- specialize (Hfin None (S n)). simpl in Hfin. unfold set_buf in *. simpl in *. rewrite lookup_insert_eq in *. simpl in *.
           destruct Hfin as (x' & _ & ? & ? & ?). eauto 10.
        -- split; [by apply inv_asked|]. split; [done|]. split_and!; [done..|]. exists n. split; [lia|done].
Qed.

(** ** Interleaved tasks *)





Lemma init_inv ds dk orc : inv (buf_init ds dk orc).
Proof.
  split; simpl; try done; [constructor|..].
  - intros b. rewrite elem_of_nil, lookup_empty. split; [done|by intros [? ?]].
  - intros b [? ?]. done.
Qed.


End layout.


Fixpoint run L (es : list event) s : outcome st :=
  match es with
  | [] => Ok s
  | e :: es => if enabled L e s then s ← exec e s; run L es s else Panic "not enabled"
  end.


(** A card of eight kilobytes with an ext2 file system of two blocks of two.
    Task 1 has written block 2 and gives it back while task 2 waits for it; task 3
    has the superblock. *)
Definition card : devices := {[ 0 := replicate 8192 1 ]}.
Definition two_blocks : gset key := ext2_layout 0 2048 2.
Definition one_device : st := buf_init {[0]} card (λ _, true).

Lemma two_blocks_ok : layout_ok two_blocks.
Proof. apply ext2_layout_ok; vm_compute; congruence. Qed.


(** Blocks of different sizes that overlap are not coherent: a task that holds the
    superblock does not see what another writes to block 0. *)
Definition overlap : gset key := {[ (0, 1024, 1); (0, 2048, 0) ]}.
Lemma overlap_incoherent :
  match run overlap [EGet 3 (0, 1024, 1); ELock 3; EFill 3; EGet 1 (0, 2048, 0); ELock 1; EFill 1; EWrite 1 1 (replicate 2048 7); EUnlock 1 1; EPut 1] one_device with
  | Ok s => match bufs s !! 0 with Some x => valid x = true ∧ dirty x = false ∧ data x ≠ dev_read (disk s) (bkey x) | None => False end
  | Panic _ => False
  end.
Proof. vm_compute. repeat split; congruence. Qed.

(** ** One task: the cache as a block store *)

Definition me : tid := 0.

Definition find_buf k s : outcome bid :=
  '(o, _) ← buf_cache_lookup k s; deref o "no such buffer".

(** [buf_read]. *)
Definition buf_read k s : outcome (option (list Z) * st) :=
  '(ok, s) ← read_get me k s;
  if negb ok then Ok (None, s) else
  match places s !! me with
  | Some (Locking b k) =>
      s ← read_lock me b k s;
      s ← read_fill me b s;
      x ← get b s;
      d ← deref (data x) "indeterminate data";
      Ok (Some d, s)
  | _ => Panic "not reading"
  end.

(** [buf_release]. *)
Definition buf_release k s : outcome st :=
  b ← find_buf k s; s ← release_unlock me b s; release_put me b s.

(** Changing the data of a buffer and [buf_write]. *)
Definition buf_write k (d : list Z) s : outcome st :=
  b ← find_buf k s; s ← exec (EWrite me b d) s; s ← release_unlock me b s; release_put me b s.

#[export] Instance buf_ops : BlockOps st := {| bread := buf_read; bwrite := buf_write; brelease := buf_release |}.

Section session.
Context (L : gset key) (HL : layout_ok L).

Definition buf_held s : gset key :=
  map_to_set (λ _ x, bkey x) (filter (λ '(_, x), mutex x = Some me) (bufs s)).

(** The states of one task with memory to spare. *)
Record buf_bok s : Prop := {
  ok_inv : inv L s;
  ok_places : places s = ∅;
  ok_oracle n : oracle s n = true;
  ok_devs v : is_Some (disk s !! v) → v ∈ devs s;
  ok_me b x t : bufs s !! b = Some x → mutex x = Some t → t = me;
  ok_clean b x : bufs s !! b = Some x → dirty x = false }.

Lemma elem_of_held s k : k ∈ buf_held s ↔ ∃ b x, bufs s !! b = Some x ∧ bkey x = k ∧ mutex x = Some me.
Proof.
  unfold buf_held. rewrite elem_of_map_to_set. split.
  - intros (b & x & [? ?]%map_lookup_filter_Some & ?). eauto.
  - intros (b & x & ? & ? & ?). exists b, x. by rewrite map_lookup_filter_Some.
Qed.

(** The blocks of the layout that the devices have. *)
Definition blocks (D : devices) : gmap key (list Z) := map_imap (λ k _, dev_read D k) (gset_to_gmap () L).

Lemma blocks_lookup D k d : blocks D !! k = Some d ↔ k ∈ L ∧ dev_read D k = Some d.
Proof.
  unfold blocks. rewrite map_lookup_imap, lookup_gset_to_gmap. destruct (decide (k ∈ L)); [rewrite option_guard_True by done|rewrite option_guard_False by done]; simpl; naive_solver.
Qed.

Lemma blocks_write D k d0 d : blocks D !! k = Some d0 → length d = length d0 → blocks (dev_write D k d) = <[k := d]> (blocks D).
Proof.
  intros [Hk Hd]%blocks_lookup Hl. rewrite (dev_read_len _ _ _ Hd) in Hl. apply map_eq. intros k'. apply option_eq. intros d'. rewrite blocks_lookup, lookup_insert_Some, blocks_lookup.
  destruct (decide (k = k')) as [<-|Hne]; [rewrite (dev_read_write _ _ d0) by done; naive_solver|].
  split; [intros [Hk' E]; right; split; [done|split; [done|]]|intros [[]|(_ & Hk' & E)]; [done|split; [done|]]]; rewrite <- E; [symmetry|]; eapply dev_read_other; try done; by apply (lo_apart L HL).
Qed.

(** A card that is made of [n + 1] blocks, as ext2 sees it. *)
Lemma slice_concat (ls : list (list Z)) (n i : nat) l : Forall (λ l, length l = n) ls → ls !! i = Some l → slice (concat ls) (i * n) n = l.
Proof.
  unfold slice. revert i. induction ls as [|a ls IH]; intros [|i] Hf Hi; [done..| |]; apply Forall_cons in Hf as [Ha Hf]; cbn [concat].
  - injection Hi as <-. by rewrite drop_0, <- Ha, take_app_length.
  - rewrite drop_app_ge by (rewrite Ha; lia). replace (S i * n - length a)%nat with (i * n)%nat by lia. by apply IH.
Qed.

Lemma length_concat (ls : list (list Z)) n : Forall (λ l, length l = n) ls → length (concat ls) = (length ls * n)%nat.
Proof. induction 1 as [|l ls Hl _ IH]; [done|]. cbn [concat length]. rewrite length_app, IH. lia. Qed.

(** With fewer than 1024 buffers held, a full cache has an unused one. *)
Lemma held_all s : buf_bok s → all_referenced s → csize s ≤ Z.of_nat (size (buf_held s)).
Proof.
  intros Hok Hall. pose proof (ok_inv s Hok) as Hi. rewrite (i_size L s Hi). apply inj_le.
  set (f b := from_option bkey (0, 0, 0) (bufs s !! b)).
  rewrite <- (length_fmap f). unfold size, set_size. simpl. apply submseteq_length, NoDup_submseteq.
  - apply NoDup_fmap_2_strong; [|apply Hi]. intros b1 b2 [x1 H1]%(i_dom L s Hi) [x2 H2]%(i_dom L s Hi).
    unfold f. rewrite H1, H2. simpl. by apply (i_key L s Hi).
  - intros k. rewrite list_elem_of_fmap, elem_of_elements, elem_of_held. intros (b & -> & [x Hx]%(i_dom L s Hi)).
    unfold f. rewrite Hx. exists b, x. split_and!; [done..|].
    pose proof (Hall b x Hx) as Hr. rewrite (b_refs _ _ _ (i_buf L s Hi b x Hx)), (ok_places s Hok) in Hr.
    unfold owned in Hr. destruct (mutex x) as [t|] eqn:E; [|done]. by rewrite (ok_me s Hok b x t).
Qed.

(** Changing one buffer changes the held blocks at its key only. *)
Lemma held_update s s' b x :
  inv L s → inv L s' → bufs s' = <[b := x]> (bufs s) → (∀ y, bufs s !! b = Some y → bkey y = bkey x ∨ mutex y = None) →
  (∀ k, k ∈ buf_held s' ↔ (k = bkey x ∧ mutex x = Some me) ∨ (k ≠ bkey x ∧ k ∈ buf_held s)).
Proof.
  intros Hi Hi' E Hold k. rewrite !elem_of_held. split.
  - intros (c & y & Hc & <- & Hm). destruct (decide (c = b)) as [->|Hne].
    + rewrite E, lookup_insert_eq in Hc. simplify_eq. by left.
    + right. split; [intros Hk; apply Hne; eapply (i_key L s' Hi'); [done|by rewrite E, lookup_insert_eq|done]|].
      rewrite E, lookup_insert_ne in Hc by done. eauto.
  - intros [[-> Hm]|(Hne & c & y & Hc & <- & Hm)].
    + exists b, x. by rewrite E, lookup_insert_eq.
    + exists c, y. rewrite E, lookup_insert_ne; [done|]. intros ->. destruct (Hold y Hc); congruence.
Qed.

Lemma no_memory_absurd s : buf_bok s → ¬ no_memory s.
Proof. intros Hok (i & _ & Hf). rewrite (ok_oracle s Hok) in Hf. done. Qed.

(** The first half of [buf_read]: a buffer of the block that nobody holds. *)
Lemma read_get_ok k s d :
  buf_bok s → k ∉ buf_held s → (size (buf_held s) < HELD_MAX)%nat → key_no k ≠ 2 ^ 32 - 1 → blocks (disk s) !! k = Some d →
  ∃ s' b x, read_get me k s = Ok (true, s') ∧ inv L s' ∧ same_devices s s' ∧ bkey x = k ∧ mutex x = None ∧
    places s' = <[me := Locking b k]> ∅ ∧ bufs s' = <[b := x]> (bufs s) ∧
    (∀ y, bufs s !! b = Some y → bkey y = k ∨ mutex y = None).
Proof.
  intros Hok Hk Hsz Hno [HkL Hd]%blocks_lookup. pose proof (ok_inv s Hok) as Hi. pose proof (ok_places s Hok) as Hpl.
  pose proof (get_ok L s me k Hi HkL ltac:(by rewrite Hpl)) as H.
  destruct (read_get me k s) as [[r s']|w]; simpl in H.
  2:{ destruct H as [[_ ?]|(_ & Hall & [Hfull|Hn])]; [done| |by destruct (no_memory_absurd s Hok)].
      pose proof (held_all s Hok Hall). unfold BUF_CACHE_MAX_SIZE, HELD_MAX in *. lia. }
  destruct r.
  2:{ destruct H as (_ & _ & _ & _ & Hn). by destruct (no_memory_absurd s Hok). }
  destruct H as (Hi' & Hsd & b & x & Ek & Ep & Eb & Hc). rewrite Hpl in Ep.
  exists s', b, x. split_and!; try done.
  - destruct Hc as [(y & Hy & Hyk & ->)|(_ & ? & _)]; [|done]. simpl.
    destruct (mutex y) as [t|] eqn:E; [|done]. destruct Hk. apply elem_of_held. exists b, y.
    by rewrite <- (ok_me s Hok b y t).
  - intros y Hy. destruct Hc as [(y' & Hy' & Hyk & ->)|(_ & _ & [?|(y' & Hy' & _ & ?)])]; [|congruence|].
    + left. congruence.
    + right. congruence.
Qed.

Lemma buf_read_ok k s d :
  buf_bok s → k ∉ buf_held s → (size (buf_held s) < HELD_MAX)%nat → key_no k ≠ 2 ^ 32 - 1 → blocks (disk s) !! k = Some d →
  ∃ s', buf_read k s = Ok (Some d, s') ∧ buf_bok s' ∧ blocks (disk s') = blocks (disk s) ∧ buf_held s' = {[k]} ∪ buf_held s.
Proof.
  intros Hok Hk Hsz Hno Hd0. pose proof (ok_inv s Hok) as Hi. pose proof Hd0 as [HkL Hd]%blocks_lookup.
  destruct (read_get_ok k s d Hok Hk Hsz Hno Hd0) as (s1 & b & x & E & Hi1 & (Hdk1 & Hdv1 & Ho1) & Ek & Hm & Ep & Eb & Hold).
  unfold buf_read. rewrite E. simpl. rewrite Ep, lookup_insert_eq.
  assert (Hx : bufs s1 !! b = Some x) by (by rewrite Eb, lookup_insert_eq).
  destruct (wp_no_panic _ _ (lock_ok L s1 me b k x Hi1 ltac:(by rewrite Ep, lookup_insert_eq) Hx Hm)) as (s2 & E2 & Hi2 & Hs2).
  rewrite E2. simpl. pose proof (fill_ok L HL s2 me b k Hi2 ltac:(subst s2; simpl; by rewrite lookup_partial_alter_eq)) as H3.
  assert (Hb2 : bufs s2 = <[b := set_mutex (Some me) x]> (bufs s)) by (subst s2; simpl; by rewrite Eb, insert_insert_eq).
  assert (Hd2 : disk s2 = disk s) by (by subst s2). assert (Hv2 : devs s2 = devs s) by (by subst s2).
  assert (Ho2 : oracle s2 = oracle s) by (by subst s2).
  destruct (read_fill me b s2) as [s3|w]; simpl in *.
  2:{ destruct H3 as [Hv|Hv]; [destruct Hv; rewrite Hv2; apply (ok_devs s Hok); unfold dev_read in Hd; destruct (disk s !! key_dev k); [eauto|done]|congruence]. }
  destruct H3 as (Hi3 & Ep3 & Hd3 & Hv3 & y & d' & Hy & Eb3 & _ & _ & Ho3 & Hd').
  assert (d' = d) as -> by congruence. unfold get. rewrite Eb3, lookup_insert_eq. simpl.
  assert (Eb4 : bufs s3 = <[b := MkBuf k (Some d) true false (ref_count y) (Some me)]> (bufs s))
    by (by rewrite Eb3, Hb2, insert_insert_eq).
  exists s3. split; [done|]. split; [|split; [congruence|]].
  - split; [done|..].
    + rewrite Ep3. subst s2. simpl. rewrite Ep. apply map_eq. intros t. rewrite lookup_delete, lookup_empty.
      case_decide; [done|]. by rewrite lookup_partial_alter_ne, lookup_insert_ne.
    + intros n. rewrite Ho3, Ho2. apply Hok.
    + intros k'. rewrite Hd3, Hd2, Hv3, Hv2. apply Hok.
    + intros c z t Hz Hzm. rewrite Eb4 in Hz. apply lookup_insert_Some in Hz as [[<- <-]|[_ Hz]]; [by simplify_eq/=|].
      by eapply (ok_me s Hok).
    + intros c z Hz. rewrite Eb4 in Hz. apply lookup_insert_Some in Hz as [[<- <-]|[_ Hz]]; [done|]. by eapply (ok_clean s Hok).
  - apply set_eq. intros k'. rewrite (held_update s s3 b _ Hi Hi3 Eb4) by (simpl; naive_solver). simpl.
    rewrite elem_of_union, elem_of_singleton. destruct (decide (k' = k)); naive_solver.
Qed.

Lemma find_buf_ok s b x : inv L s → bufs s !! b = Some x → find_buf (bkey x) s = Ok b.
Proof.
  intros Hi Hx. unfold find_buf, buf_cache_lookup.
  pose proof (lookup_loop_ok s (bkey x) (cache s) None ltac:(intros; by apply (i_dom L s Hi))) as H.
  destruct (lookup_loop (bkey x) (cache s) None s) as [[[c|] u]|]; simpl in *; [| |done].
  - destruct H as (_ & y & Hy & E). f_equal. by eapply (i_key L s Hi).
  - destruct H as [H _]. destruct (H b x); [|done..]. apply (i_dom L s Hi). eauto.
Qed.

(** Unlocking and putting back a held buffer. *)
Lemma give_back_ok s b x d :
  inv L s → places s = ∅ → bufs s !! b = Some x → mutex x = Some me → data x = Some d →
  ∃ s' x', (s1 ← release_unlock me b s; release_put me b s1) = Ok s' ∧ inv L s' ∧ places s' = ∅ ∧
    bufs s' = <[b := x']> (bufs s) ∧ bkey x' = bkey x ∧ mutex x' = None ∧ dirty x' = false ∧
    devs s' = devs s ∧ oracle s' = oracle s ∧ disk s' = if dirty x then dev_write (disk s) (bkey x) d else disk s.
Proof.
  intros Hi Hp Hx Hm Hd.
  destruct (wp_no_panic _ _ (unlock_buf_ok L HL s me b x Hi Hx Hm ltac:(by rewrite Hp))) as (s1 & -> & Hi1 & Ep1 & Eb1 & Ev1 & Eo1 & Ed1).
  simpl. destruct (wp_no_panic _ _ (put_ok L s1 me b Hi1 ltac:(by rewrite Ep1, lookup_insert_eq)))
    as (s2 & -> & Hi2 & Ep2 & (Ed2 & Ev2 & Eo2) & y & Hy & Eb2).
  rewrite Eb1, lookup_insert_eq in Hy. injection Hy as <-.
  eexists s2, _. split; [done|]. split; [done|].
  split; [by rewrite Ep2, Ep1, Hp, delete_insert_eq|]. split; [rewrite Eb2, Eb1; apply insert_insert_eq|].
  split; [done|]. split; [done|]. split; [done|]. split; [congruence|]. split; [congruence|].
  rewrite Ed2, Ed1, Hd. done.
Qed.

Lemma given_back s s' b x x' :
  buf_bok s → inv L s' → places s' = ∅ → bufs s !! b = Some x → bufs s' = <[b := x']> (bufs s) → bkey x' = bkey x →
  mutex x' = None → dirty x' = false → devs s' = devs s → oracle s' = oracle s →
  (∀ v, is_Some (disk s' !! v) → is_Some (disk s !! v)) →
  buf_bok s' ∧ buf_held s' = buf_held s ∖ {[bkey x]}.
Proof.
  intros Hok Hi' Hp' Hx Eb Ek Em Edt Ev Eo Hd. split.
  - split; [done|done|intros n; rewrite Eo; apply Hok|..].
    + intros v Hv. rewrite Ev. by apply (ok_devs s Hok), Hd.
    + intros c z t Hz Hzm. rewrite Eb in Hz. apply lookup_insert_Some in Hz as [[<- <-]|[_ Hz]]; [congruence|].
      by eapply (ok_me s Hok).
    + intros c z Hz. rewrite Eb in Hz. apply lookup_insert_Some in Hz as [[<- <-]|[_ Hz]]; [done|]. by eapply (ok_clean s Hok).
  - apply set_eq. intros k. rewrite (held_update s s' b x' (ok_inv s Hok) Hi' Eb) by (rewrite Hx; naive_solver).
    rewrite Em, Ek, elem_of_difference, elem_of_singleton. naive_solver.
Qed.

Lemma held_buf s k :
  buf_bok s → k ∈ buf_held s → ∃ b x d, bufs s !! b = Some x ∧ bkey x = k ∧ mutex x = Some me ∧ data x = Some d.
Proof.
  intros Hok (b & x & Hx & <- & Hm)%elem_of_held. exists b, x.
  destruct (i_buf L s (ok_inv s Hok) b x Hx) as [_ _ V O].
  destruct (O me Hm) as [Hv|(k & E)]; [|rewrite (ok_places s Hok) in E; done].
  destruct (V Hv) as (_ & _ & d & ? & _). eauto 10.
Qed.

Lemma buf_release_ok k s :
  buf_bok s → k ∈ buf_held s →
  ∃ s', buf_release k s = Ok s' ∧ buf_bok s' ∧ blocks (disk s') = blocks (disk s) ∧ buf_held s' = buf_held s ∖ {[k]}.
Proof.
  intros Hok Hk. destruct (held_buf s k Hok Hk) as (b & x & d & Hx & <- & Hm & Hd).
  unfold buf_release. rewrite (find_buf_ok s b x (ok_inv s Hok) Hx). cbn [mbind outcome_bind].
  destruct (give_back_ok s b x d (ok_inv s Hok) (ok_places s Hok) Hx Hm Hd)
    as (s' & x' & -> & Hi' & Hp' & Eb & Ek & Em & Edt & Ev & Eo & Ed).
  rewrite (ok_clean s Hok b x Hx) in Ed. exists s'. split; [done|].
  destruct (given_back s s' b x x') as [? ?]; try done; [by rewrite Ed|]. by rewrite Ed.
Qed.

Lemma buf_write_ok k s d0 d :
  buf_bok s → k ∈ buf_held s → blocks (disk s) !! k = Some d0 → length d = length d0 →
  ∃ s', buf_write k d s = Ok s' ∧ buf_bok s' ∧ blocks (disk s') = <[k := d]> (blocks (disk s)) ∧ buf_held s' = buf_held s ∖ {[k]}.
Proof.
  intros Hok Hk Hv Hl. destruct (held_buf s k Hok Hk) as (b & x & d1 & Hx & <- & Hm & Hd).
  unfold buf_write. rewrite (find_buf_ok s b x (ok_inv s Hok) Hx). cbn [mbind outcome_bind].
  destruct (wp_no_panic _ _ (write_ok L s me b x d (ok_inv s Hok) Hx Hm ltac:(by rewrite (ok_places s Hok)) ltac:(apply blocks_lookup in Hv as [_ Hv]; by rewrite Hl, (dev_read_len _ _ _ Hv))))
    as (s1 & -> & Hi1 & Eb1 & Ep1 & Ed1 & Ev1 & Eo1). cbn [mbind outcome_bind].
  rewrite (ok_places s Hok) in Ep1.
  destruct (give_back_ok s1 b (set_flags true true (set_data (Some d) x)) d Hi1 Ep1)
    as (s' & x' & E & Hi' & Hp' & Eb & Ek & Em & Edt & Ev & Eo & Ed); [by rewrite Eb1, lookup_insert_eq|done..|].
  simpl in *. rewrite Eb1, insert_insert_eq in Eb. rewrite Ed1 in Ed. exists s'. split; [done|].
  destruct (given_back s s' b x x') as [? ?]; try done; [congruence..|intros v; rewrite Ed; apply dev_write_dom|].
  split; [done|]. split; [|done]. rewrite Ed. by apply (blocks_write _ _ d0).
Qed.

#[local] Instance buf_laws : BlockLaws st := {|
  view := λ s, blocks (disk s); held := buf_held; bok := buf_bok;
  bread_ok := buf_read_ok; bwrite_ok := buf_write_ok; brelease_ok := buf_release_ok |}.

Lemma init_bok ds dk orc :
  (∀ n, orc n = true) → (∀ v, is_Some (dk !! v) → v ∈ ds) → buf_bok (buf_init ds dk orc).
Proof. intros Ho Hd. by split; [apply init_inv|..]. Qed.

End session.

(** A card of [n + 1] blocks of 1024 bytes as an ext2 file system sees it. *)
Lemma blocks_concat dev n (g : Z → list Z) :
  1 ≤ n → (n + 1) * 1024 ≤ 2 ^ 32 → (∀ b, length (g b) = 1024%nat) →
  blocks (ext2_layout dev 1024 n) {[ dev := concat (g <$> seqZ 0 (n + 1)) ]} = list_to_map ((λ b, ((dev, 1024, b), g b)) <$> seqZ 1 n).
Proof.
  intros Hn1 Hn Hg. assert (Hf : Forall (λ l, length l = 1024%nat) (g <$> seqZ 0 (n + 1))) by (apply Forall_fmap, Forall_forall; intros b _; apply Hg).
  assert (Hrd : ∀ b, 1 ≤ b ≤ n → dev_read {[ dev := concat (g <$> seqZ 0 (n + 1)) ]} (dev, 1024, b) = Some (g b)).
  { intros b Hb. unfold dev_read, block_off, block_len, key_dev, key_no, key_size. cbn [fst snd]. rewrite lookup_singleton_eq. simpl.
    rewrite u32_small, (length_concat _ 1024 Hf), length_fmap, length_seqZ, bool_decide_true by lia. f_equal.
    replace (Z.to_nat (b * 1024)) with (Z.to_nat b * 1024)%nat by lia. apply slice_concat; [done|]. rewrite list_lookup_fmap, lookup_seqZ_lt by lia. simpl. do 2 f_equal. lia. }
  apply map_eq. intros k. apply option_eq. intros d. rewrite blocks_lookup, <- elem_of_list_to_map.
  2:{ rewrite <- list_fmap_compose. apply NoDup_fmap_2; [|apply NoDup_seqZ]. intros b b' E. by injection E. }
  rewrite list_elem_of_fmap. unfold ext2_layout. rewrite elem_of_union, elem_of_singleton, elem_of_list_to_set, list_elem_of_fmap. split.
  - intros [[->|(b & -> & Hb%elem_of_seqZ)] Hd]; rewrite Hrd in Hd by lia; injection Hd as <-; [exists 1|exists b]; (split; [done|]); apply elem_of_seqZ; lia.
  - intros (b & [= -> ->] & Hb). split; [right; by exists b|]. apply elem_of_seqZ in Hb. apply Hrd. lia.
Qed.

(** C29: a task that alone uses a freshly initialised cache, with memory to spare
    and for blocks that do not overlap on the devices, sees a plain map of
    blocks: every session that reads, writes and releases properly returns what
    the same session returns on the map that shows each block as the bytes at
    its address, never fails, and leaves devices that show as the map. *)
Theorem buf_cache_refines_store L ds dk orc (os : list op) (reads : list (list Z)) m h :
  layout_ok L → (∀ n, orc n = true) → (∀ v, is_Some (dk !! v) → v ∈ ds) → spec_run os (blocks L dk) ∅ = Some (reads, m, h) →
  ∃ s', store_run os (buf_init ds dk orc) = Ok (reads, s') ∧ blocks L (disk s') = m ∧ buf_held s' = h.
Proof.
  intros HL Ho Hd E. destruct (store_run_ok (H := buf_laws L HL) os (buf_init ds dk orc) reads m h) as (s' & ? & _ & ? & ?); [by apply init_bok|done|].
  eauto.
Qed.

Definition session : list op := [ORead (0, 2048, 2); OWrite (0, 2048, 2) (replicate 2048 7); ORead (0, 1024, 1); ORead (0, 2048, 2)].
Definition session_end := spec_run session (blocks two_blocks card) ∅.

Lemma buf_cache_refines_store_witness :
  ∃ reads s', store_run session one_device = Ok (reads, s') ∧ reads = [replicate 2048 1; replicate 1024 1; replicate 2048 7] ∧
    blocks two_blocks (disk s') !! (0, 2048, 2) = Some (replicate 2048 7).
Proof.
  assert (Hs : (λ o, match o with Some (reads, m, _) => bool_decide (reads = [replicate 2048 1; replicate 1024 1; replicate 2048 7]) && bool_decide (m !! (0, 2048, 2) = Some (replicate 2048 7)) | None => false end) session_end = true)
    by (vm_compute; reflexivity).
  destruct session_end as [[[reads m] h]|] eqn:E; [|discriminate]. apply andb_prop in Hs as [Hr%bool_decide_eq_true Hm%bool_decide_eq_true].
  destruct (buf_cache_refines_store two_blocks {[0]} card (λ _, true) session reads m h two_blocks_ok ltac:(done)
    ltac:(unfold card; intros v [? [<- _]%lookup_singleton_Some]; by apply elem_of_singleton) E) as (s' & H1 & H2 & _).
  exists reads, s'. rewrite H2. split; [exact H1|]. split; [exact Hr|exact Hm].
Defined.

End Buf.
