(* ===== verification/Ext2Base.v ===== *)
(** ext2: the mounted superblock and the monad the file-system code runs in.

    The state of a mounted file system is the superblock record the code keeps
    in memory (struct Ext2SuperblockData of kernel/fs/ext2.h) and the block
    store it reads and writes (Store.v).  Code of one file-system task runs
    alone: the mutex of the superblock is free whenever it is taken.

    Besides the monad, this file has reading and writing the superblock
    ([ext2_sb_sync] and the superblock part of [ext2_mount], kernel/fs/ext2.c),
    and the rules by which the other files reason about blocks. *)

From S2P Require Import Prelude Store Bytes.
Import Bytes.
#[local] Open Scope Z_scope.

Module Ext2Base.

Record Ext2SuperblockData := MkSb {
  inodes_count : Z;
  block_count : Z;
  r_blocks_count : Z;
  free_blocks_count : Z;
  free_inodes_count : Z;
  log_block_size : Z;
  blocks_per_group : Z;
  inodes_per_group : Z;
  wtime : Z;
  inode_size : Z;
  block_size : Z }.

Definition set_free_blocks (n : Z) (x : Ext2SuperblockData) :=
  MkSb (inodes_count x) (block_count x) (r_blocks_count x) n (free_inodes_count x) (log_block_size x)
    (blocks_per_group x) (inodes_per_group x) (wtime x) (inode_size x) (block_size x).
Definition set_free_inodes (n : Z) (x : Ext2SuperblockData) :=
  MkSb (inodes_count x) (block_count x) (r_blocks_count x) (free_blocks_count x) n (log_block_size x)
    (blocks_per_group x) (inodes_per_group x) (wtime x) (inode_size x) (block_size x).
Definition set_wtime (t : Z) (x : Ext2SuperblockData) :=
  MkSb (inodes_count x) (block_count x) (r_blocks_count x) (free_blocks_count x) (free_inodes_count x) (log_block_size x)
    (blocks_per_group x) (inodes_per_group x) t (inode_size x) (block_size x).

(** ** The monad *)

Record fs (S : Type) := MkFs { sb : Ext2SuperblockData; store : S }.
Arguments MkFs {S} sb store.
Arguments sb {S} f.
Arguments store {S} f.

Definition M (S A : Type) : Type := fs S → outcome (A * fs S).

#[export] Instance M_ret S : MRet (M S) := λ A a f, Ok (a, f).
#[export] Instance M_bind S : MBind (M S) := λ A B k m f,
  match m f with Ok (a, f') => k a f' | Panic w => Panic w end.

Section ops.
Context {S : Type} `{!BlockOps S} (dev now : Z).

Definition lift {A} (o : outcome A) : M S A := λ f, match o with Ok a => Ok (a, f) | Panic w => Panic w end.
Definition panic {A} (why : string) : M S A := λ _, Panic why.
Definition get_sb : M S Ext2SuperblockData := λ f, Ok (sb f, f).
Definition put_sb (x : Ext2SuperblockData) : M S unit := λ f, Ok (tt, MkFs x (store f)).

(** Reading a buffer, writing it back and releasing it, with a given block size. *)
Definition buf_read (no size : Z) : M S (option (list Z)) := λ f,
  match bread (dev, size, no) (store f) with Ok (o, s) => Ok (o, MkFs (sb f) s) | Panic w => Panic w end.
Definition buf_write (no size : Z) (d : list Z) : M S unit := λ f,
  match bwrite (dev, size, no) d (store f) with Ok s => Ok (tt, MkFs (sb f) s) | Panic w => Panic w end.
Definition buf_release (no size : Z) : M S unit := λ f,
  match brelease (dev, size, no) (store f) with Ok s => Ok (tt, MkFs (sb f) s) | Panic w => Panic w end.

Definition EXT2_SB_NO : Z := 1.
Definition EXT2_SB_SIZE : Z := 1024.

(** Offsets of the fields of struct Ext2Superblock. *)
Definition SB_inodes_count : Z := 0.
Definition SB_block_count : Z := 4.
Definition SB_r_blocks_count : Z := 8.
Definition SB_free_blocks_count : Z := 12.
Definition SB_free_inodes_count : Z := 16.
Definition SB_log_block_size : Z := 24.
Definition SB_blocks_per_group : Z := 32.
Definition SB_inodes_per_group : Z := 40.
Definition SB_wtime : Z := 48.
Definition SB_inode_size : Z := 88.

Definition ext2_sb_sync : M S unit :=
  x ← get_sb;
  put_sb (set_wtime now x);;
  o ← buf_read EXT2_SB_NO EXT2_SB_SIZE;
  d ← lift (deref o "cannot read the superblock");
  d ← lift (wr 4 d SB_wtime now);
  d ← lift (wr 4 d SB_free_blocks_count (free_blocks_count x));
  d ← lift (wr 4 d SB_free_inodes_count (free_inodes_count x));
  buf_write EXT2_SB_NO EXT2_SB_SIZE d.

(** [1024 << sb->log_block_size]: a shift by 32 or more is undefined, and so is
    one into the sign bit. *)
Definition block_size_of (log : Z) : outcome Z :=
  _ ← k_assert (log <=? 20) "undefined shift"; Ok (Z.shiftl 1024 log).

(** The superblock part of [ext2_mount]. *)
Definition ext2_mount : M S unit :=
  o ← buf_read EXT2_SB_NO EXT2_SB_SIZE;
  d ← lift (deref o "cannot read the superblock");
  bc ← lift (rd 4 d SB_block_count);
  ic ← lift (rd 4 d SB_inodes_count);
  rc ← lift (rd 4 d SB_r_blocks_count);
  fb ← lift (rd 4 d SB_free_blocks_count);
  fi ← lift (rd 4 d SB_free_inodes_count);
  lb ← lift (rd 4 d SB_log_block_size);
  bg ← lift (rd 4 d SB_blocks_per_group);
  ig ← lift (rd 4 d SB_inodes_per_group);
  wt ← lift (rd 4 d SB_wtime);
  sz ← lift (rd 2 d SB_inode_size);
  buf_release EXT2_SB_NO EXT2_SB_SIZE;;
  bs ← lift (block_size_of lb);
  put_sb (MkSb ic bc rc fb fi lb bg ig wt sz bs).

End ops.

(** ** Reasoning

    [mwp m f Q]: [m] returns from [f] without a fault, and its value and final
    state satisfy [Q]. *)

Definition mwp {S A} (m : M S A) (f : fs S) (Q : A → fs S → Prop) : Prop :=
  wp (m f) no_panic (λ r, Q r.1 r.2).

Section rules.
Context {S : Type} `{!BlockOps S}.
Implicit Types f : fs S.

Lemma mwp_ret {A} (a : A) f Q : Q a f → mwp (mret a : M S A) f Q.
Proof. done. Qed.

Lemma mwp_bind {A B} (m : M S A) (k : A → M S B) f Q :
  mwp m f (λ a f', mwp (k a) f' Q) → mwp (m ≫= k) f Q.
Proof. unfold mwp, mbind, M_bind, wp. by destruct (m f) as [[a f']|]. Qed.

Lemma mwp_mono {A} (m : M S A) f Q Q' : mwp m f Q → (∀ a f', Q a f' → Q' a f') → mwp m f Q'.
Proof. unfold mwp, wp. destruct (m f) as [[a f']|]; simpl; auto. Qed.

Lemma mwp_lift {A} (o : outcome A) a f Q : o = Ok a → Q a f → mwp (lift o) f Q.
Proof. by intros ->. Qed.

Lemma mwp_get_sb f Q : Q (sb f) f → mwp get_sb f Q.
Proof. done. Qed.

Lemma mwp_put_sb x f Q : Q tt (MkFs x (store f)) → mwp (put_sb x) f Q.
Proof. done. Qed.

Lemma mwp_run {A} (m : M S A) f Q : mwp m f Q → ∃ a f', m f = Ok (a, f') ∧ Q a f'.
Proof. unfold mwp, wp. destruct (m f) as [[a f']|]; simpl; [eauto|done]. Qed.

Context `{!BlockLaws S} (dev : Z).

Lemma mwp_read no size d f Q :
  bok (store f) → (dev, size, no) ∉ held (store f) → (base.size (held (store f)) < HELD_MAX)%nat → no ≠ 2 ^ 32 - 1 →
  view (store f) !! (dev, size, no) = Some d →
  (∀ s', bok s' → view s' = view (store f) → held s' = {[(dev, size, no)]} ∪ held (store f) → Q (Some d) (MkFs (sb f) s')) →
  mwp (buf_read dev no size) f Q.
Proof.
  intros Hok Hh Hs Hn Hd HQ. destruct (bread_ok _ _ d Hok Hh Hs Hn Hd) as (s' & E & ? & ? & ?).
  unfold mwp, buf_read. rewrite E. simpl. by apply HQ.
Qed.

Lemma mwp_write no size d0 d f Q :
  bok (store f) → (dev, size, no) ∈ held (store f) → view (store f) !! (dev, size, no) = Some d0 → length d = length d0 →
  (∀ s', bok s' → view s' = <[(dev, size, no) := d]> (view (store f)) → held s' = held (store f) ∖ {[(dev, size, no)]} →
    Q tt (MkFs (sb f) s')) →
  mwp (buf_write dev no size d) f Q.
Proof.
  intros Hok Hh Hv Hl HQ. destruct (bwrite_ok _ _ d0 d Hok Hh Hv Hl) as (s' & E & ? & ? & ?).
  unfold mwp, buf_write. rewrite E. simpl. by apply HQ.
Qed.

Lemma mwp_release no size f Q :
  bok (store f) → (dev, size, no) ∈ held (store f) →
  (∀ s', bok s' → view s' = view (store f) → held s' = held (store f) ∖ {[(dev, size, no)]} → Q tt (MkFs (sb f) s')) →
  mwp (buf_release dev no size) f Q.
Proof.
  intros Hok Hh HQ. destruct (brelease_ok _ _ Hok Hh) as (s' & E & ? & ? & ?).
  unfold mwp, buf_release. rewrite E. simpl. by apply HQ.
Qed.

End rules.

End Ext2Base.
