(* ===== verification/Ext2Alloc.v ===== *)
(** ext2: allocating blocks and inodes (kernel/fs/ext2_bitmap.c,
    ext2_block_alloc.c, ext2_inode_alloc.c).

    The free blocks and inodes of each block group are bits of on-disk bitmaps,
    counted in the group descriptor and in the superblock.  The theorems relate
    the three: on a consistent file system an allocation finds a free object
    exactly when the counts allow it, marks only that object as used and keeps
    the counts exact, and freeing undoes it. *)

From S2P Require Import Prelude Store Bytes Ext2Base.
Import Bytes Ext2Base.
#[local] Open Scope Z_scope.

Module Ext2Alloc.

(** struct Ext2BlockGroup: its size and the offsets of its fields. *)
Definition GD_SIZE : Z := 32.
Definition GD_block_bitmap : Z := 0.
Definition GD_inode_bitmap : Z := 4.
Definition GD_inode_table : Z := 8.
Definition GD_free_blocks_count : Z := 12.
Definition GD_free_inodes_count : Z := 14.

Definition EXT2_S_IFMASK : Z := Z.shiftl 15 12.
Definition EXT2_S_IFBLK : Z := Z.shiftl 6 12.
Definition EXT2_S_IFCHR : Z := Z.shiftl 2 12.

(** struct Ext2Inode: its size and the offsets of its fields. *)
Definition IN_SIZE : Z := 128.
Definition IN_mode : Z := 0.
Definition IN_uid : Z := 2.
Definition IN_size : Z := 4.
Definition IN_atime : Z := 8.
Definition IN_ctime : Z := 12.
Definition IN_mtime : Z := 16.
Definition IN_gid : Z := 24.
Definition IN_links_count : Z := 26.
Definition IN_blocks : Z := 28.
Definition IN_block : Z := 40.

(** [dev_t] is a short in the C library's headers. *)
Definition SIZEOF_DEV_T : Z := 2.

Definition gd_start (x : Ext2SuperblockData) : Z := if 1024 <? block_size x then 1 else 2.
Definition gds_per_block (x : Ext2SuperblockData) : Z := block_size x / GD_SIZE.
Definition bits_per_block (x : Ext2SuperblockData) : Z := u32 (block_size x * 8).

Section ops.
Context {S : Type} `{!BlockOps S} (dev now : Z).
Implicit Types x : Ext2SuperblockData.
Implicit Types d : list Z.

(** ** Bitmaps *)

Fixpoint scan_bits (n : nat) d (bi : Z) : outcome (option Z) :=
  match n with
  | O => Ok None
  | Datatypes.S n => t ← bit_test d bi; if t : bool then scan_bits n d (bi + 1) else Ok (Some bi)
  end.

Fixpoint bitmap_loop (fuel : nat) x (bstart blen b : Z) : M S (option Z) :=
  match fuel with
  | O => panic "out of fuel"
  | Datatypes.S fuel =>
      if b <? blen then
        let no := u32 (bstart + b / bits_per_block x) in
        o ← buf_read dev no (block_size x);
        d ← lift (deref o "cannot read the bitmap block");
        r ← lift (scan_bits (Z.to_nat (Z.min (bits_per_block x) (blen - b))) d 0);
        match r with
        | Some bi =>
            d ← lift (bit_set d bi);
            buf_write dev no (block_size x) d;;
            mret (Some (u32 (b + bi)))
        | None =>
            buf_release dev no (block_size x);;
            bitmap_loop fuel x bstart blen (u32 (b + bits_per_block x))
        end
      else mret None
  end.

(** [None] is -ENOMEM. *)
Definition ext2_bitmap_alloc x (bstart blen : Z) : M S (option Z) :=
  bitmap_loop (Datatypes.S (Z.to_nat blen)) x bstart blen 0.

Definition ext2_bitmap_free x (bstart bit_no : Z) : M S unit :=
  let no := u32 (bstart + bit_no / bits_per_block x) in
  let bi := bit_no mod bits_per_block x in
  o ← buf_read dev no (block_size x);
  d ← lift (deref o "cannot read the bitmap block");
  t ← lift (bit_test d bi);
  if negb t then panic "bit not allocated" else
  d ← lift (bit_clear d bi);
  buf_write dev no (block_size x) d.

(** ** Blocks *)

Definition ext2_block_zero x (block_id : Z) : M S unit :=
  o ← buf_read dev block_id (block_size x);
  d ← lift (deref o "cannot read block");
  buf_write dev block_id (block_size x) (replicate (Z.to_nat (block_size x)) 0).

(** Allocate from the group whose descriptor is at [off] of the block [d]; the
    descriptor is changed in place.  [None] is -ENOMEM. *)
Definition ext2_block_group_alloc x d (off : Z) : M S (option (Z * list Z)) :=
  c ← lift (rd 2 d (off + GD_free_blocks_count));
  if c =? 0 then mret None else
  bm ← lift (rd 4 d (off + GD_block_bitmap));
  r ← ext2_bitmap_alloc x bm (blocks_per_group x);
  b ← lift (deref r "no free blocks");
  d ← lift (wr 2 d (off + GD_free_blocks_count) (u16 (c - 1)));
  mret (Some (b, d)).

Fixpoint scan_groups (n : nat) x d (gi : Z) : M S (option (Z * Z * list Z)) :=
  match n with
  | O => mret None
  | Datatypes.S n =>
      r ← ext2_block_group_alloc x d (GD_SIZE * gi);
      match r with Some (b, d) => mret (Some (gi, b, d)) | None => scan_groups n x d (gi + 1) end
  end.

Fixpoint groups_loop (fuel : nat) x (gds_total g : Z) : M S (option Z) :=
  match fuel with
  | O => panic "out of fuel"
  | Datatypes.S fuel =>
      if g <? gds_total then
        let no := u32 (gd_start x + g / gds_per_block x) in
        o ← buf_read dev no (block_size x);
        d ← lift (deref o "cannot read the group descriptor table");
        r ← scan_groups (Z.to_nat (Z.min (gds_per_block x) (gds_total - g))) x d 0;
        match r with
        | Some (gi, b, d) =>
            buf_write dev no (block_size x) d;;
            let block_id := u32 (b + u32 ((g + gi) * blocks_per_group x)) in
            ext2_block_zero x block_id;;
            mret (Some block_id)
        | None =>
            buf_release dev no (block_size x);;
            groups_loop fuel x gds_total (u32 (g + gds_per_block x))
        end
      else mret None
  end.

(** [inl e] is the error [-e]. *)
Definition ext2_block_alloc (euid : Z) : M S (Z + Z) :=
  x ← get_sb;
  let gds_total := block_count x / blocks_per_group x in
  if free_blocks_count x =? 0 then mret (inl ENOSPC) else
  if (free_blocks_count x <? r_blocks_count x) && negb (euid =? 0) then mret (inl ENOSPC) else
  put_sb (set_free_blocks (u32 (free_blocks_count x - 1)) x);;
  ext2_sb_sync dev now;;
  r ← groups_loop (Datatypes.S (Z.to_nat gds_total)) x gds_total 0;
  match r with
  | Some b => mret (inr b)
  | None =>
      x ← get_sb;
      put_sb (set_free_blocks (u32 (free_blocks_count x + 1)) x);;
      ext2_sb_sync dev now;;
      mret (inl ENOMEM)
  end.

Definition ext2_block_free (bno : Z) : M S unit :=
  x ← get_sb;
  let gd_idx := bno / blocks_per_group x in
  let no := u32 (gd_start x + gd_idx / gds_per_block x) in
  let off := GD_SIZE * (gd_idx mod gds_per_block x) in
  o ← buf_read dev no (block_size x);
  d ← lift (deref o "NULL buffer");
  bm ← lift (rd 4 d (off + GD_block_bitmap));
  ext2_bitmap_free x bm (bno mod blocks_per_group x);;
  c ← lift (rd 2 d (off + GD_free_blocks_count));
  d ← lift (wr 2 d (off + GD_free_blocks_count) (u16 (c + 1)));
  buf_write dev no (block_size x) d;;
  x ← get_sb;
  put_sb (set_free_blocks (u32 (free_blocks_count x + 1)) x);;
  ext2_sb_sync dev now.

(** ** Inodes *)

Definition ext2_inode_group_alloc x d (off : Z) : M S (option (Z * list Z)) :=
  c ← lift (rd 2 d (off + GD_free_inodes_count));
  if c =? 0 then mret None else
  bm ← lift (rd 4 d (off + GD_inode_bitmap));
  r ← ext2_bitmap_alloc x bm (inodes_per_group x);
  i ← lift (deref r "no free inodes");
  d ← lift (wr 2 d (off + GD_free_inodes_count) (u16 (c - 1)));
  mret (Some (i, d)).

Definition is_device (mode : Z) : bool :=
  (Z.land mode EXT2_S_IFMASK =? EXT2_S_IFBLK) || (Z.land mode EXT2_S_IFMASK =? EXT2_S_IFCHR).

(** A device inode keeps its device number in its first block.  The status of
    the block allocation is not looked at: on failure [raw->block[0]] stays 0. *)
Definition device_block (euid : Z) (rdev : Z) d (off : Z) : M S (list Z) :=
  x ← get_sb;
  r ← ext2_block_alloc euid;
  d ← match r with inr b => lift (wr 4 d (off + IN_block) b) | inl _ => mret d end;
  b ← lift (rd 4 d (off + IN_block));
  o ← buf_read dev b (block_size x);
  bd ← lift (deref o "NULL buffer");
  bd ← lift (wr (Z.to_nat SIZEOF_DEV_T) bd 0 rdev);
  buf_write dev b (block_size x) bd;;
  d ← lift (wr 4 d (off + IN_size) SIZEOF_DEV_T);
  blocks ← lift (rd 4 d (off + IN_blocks));
  lift (wr 4 d (off + IN_blocks) (u32 (blocks + block_size x / 512))).

Definition ext2_inode_init (euid table inum mode rdev : Z) : M S unit :=
  x ← get_sb;
  let inodes_per_block := block_size x / inode_size x in
  let itab_idx := u32 (inum - 1) mod inodes_per_group x in
  let no := u32 (table + itab_idx / inodes_per_block) in
  let off := inode_size x * (itab_idx mod inodes_per_block) in
  o ← buf_read dev no (block_size x);
  d ← lift (deref o "cannot read the inode table");
  _ ← lift (k_assert (inside (Z.to_nat (inode_size x)) d off) "access outside the block");
  let d := splice d (Z.to_nat off) (replicate (Z.to_nat (inode_size x)) 0) in
  d ← lift (wr 2 d (off + IN_mode) mode);
  d ← lift (wr 4 d (off + IN_mtime) now);
  d ← lift (wr 4 d (off + IN_atime) now);
  d ← lift (wr 4 d (off + IN_ctime) now);
  d ← (if is_device mode then device_block euid rdev d off else mret d);
  buf_write dev no (block_size x) d.

(** Allocate from the group at [gi] of the descriptor block [no], which is held;
    [g] is the number of the block's first group. *)
Definition take_inode (euid : Z) x (no : Z) d (g gi mode rdev : Z) : M S (option Z) :=
  let off := GD_SIZE * gi in
  r ← ext2_inode_group_alloc x d off;
  match r with
  | Some (i, d) =>
      table ← lift (rd 4 d (off + GD_inode_table));
      let inum := u32 (i + u32 (1 + (g + gi) * inodes_per_group x)) in
      buf_write dev no (block_size x) d;;
      ext2_inode_init euid table inum mode rdev;;
      mret (Some inum)
  | None => mret None
  end.

(** The scan of one descriptor block goes over all of its descriptors. *)
Fixpoint scan_inodes (n : nat) (euid : Z) x (no : Z) d (g gi mode rdev : Z) : M S (option Z) :=
  match n with
  | O => mret None
  | Datatypes.S n =>
      r ← take_inode euid x no d g gi mode rdev;
      match r with Some i => mret (Some i) | None => scan_inodes n euid x no d g (gi + 1) mode rdev end
  end.

Fixpoint inode_groups_loop (fuel : nat) (euid : Z) x (g mode rdev : Z) : M S (option Z) :=
  match fuel with
  | O => panic "out of fuel"
  | Datatypes.S fuel =>
      if g <? inodes_count x / inodes_per_group x then
        let no := u32 (gd_start x + g / gds_per_block x) in
        o ← buf_read dev no (block_size x);
        d ← lift (deref o "cannot read the group descriptor table");
        r ← scan_inodes (Z.to_nat (gds_per_block x)) euid x no d g 0 mode rdev;
        match r with
        | Some i => mret (Some i)
        | None =>
            buf_release dev no (block_size x);;
            inode_groups_loop fuel euid x (u32 (g + gds_per_block x)) mode rdev
        end
      else mret None
  end.

Definition ext2_inode_alloc (euid mode rdev parent : Z) : M S (Z + Z) :=
  x ← get_sb;
  if free_inodes_count x =? 0 then mret (inl ENOSPC) else
  put_sb (set_free_inodes (u32 (free_inodes_count x - 1)) x);;
  ext2_sb_sync dev now;;
  let pg := u32 (parent - 1) / inodes_per_group x in
  let gi := pg mod gds_per_block x in
  let g := pg - gi in
  let no := u32 (gd_start x + g / gds_per_block x) in
  o ← buf_read dev no (block_size x);
  d ← lift (deref o "cannot read the group descriptor table");
  r ← take_inode euid x no d g gi mode rdev;
  match r with
  | Some i => mret (inr i)
  | None =>
      buf_release dev no (block_size x);;
      r ← inode_groups_loop (Datatypes.S (Z.to_nat (inodes_count x / inodes_per_group x))) euid x 0 mode rdev;
      match r with
      | Some i => mret (inr i)
      | None =>
          x ← get_sb;
          put_sb (set_free_inodes (u32 (free_inodes_count x + 1)) x);;
          ext2_sb_sync dev now;;
          mret (inl ENOMEM)
      end
  end.

Definition ext2_inode_free (ino : Z) : M S unit :=
  x ← get_sb;
  let gd_idx := u32 (ino - 1) / inodes_per_group x in
  let no := u32 (gd_start x + gd_idx / gds_per_block x) in
  let off := GD_SIZE * (gd_idx mod gds_per_block x) in
  o ← buf_read dev no (block_size x);
  d ← lift (deref o "NULL buffer");
  bm ← lift (rd 4 d (off + GD_inode_bitmap));
  ext2_bitmap_free x bm (u32 (ino - 1) mod inodes_per_group x);;
  c ← lift (rd 2 d (off + GD_free_inodes_count));
  d ← lift (wr 2 d (off + GD_free_inodes_count) (u16 (c + 1)));
  buf_write dev no (block_size x) d;;
  x ← get_sb;
  put_sb (set_free_inodes (u32 (free_inodes_count x + 1)) x);;
  ext2_sb_sync dev now.

End ops.

(** ** Sums over an initial segment of Z *)

Definition sumZ (f : Z → Z) (n : Z) : Z := foldr Z.add 0 (f <$> seqZ 0 n).

Lemma foldr_add_app l1 l2 : foldr Z.add 0 (l1 ++ l2) = foldr Z.add 0 l1 + foldr Z.add 0 l2.
Proof. induction l1; simpl; lia. Qed.

Lemma sumZ_0 f n : n ≤ 0 → sumZ f n = 0.
Proof. intros. unfold sumZ. by rewrite seqZ_nil by lia. Qed.

Lemma sumZ_S f n : 0 ≤ n → sumZ f (n + 1) = sumZ f n + f n.
Proof.
  intros. unfold sumZ. rewrite seqZ_app by lia. rewrite fmap_app, foldr_add_app.
  replace (seqZ (0 + n) 1) with [n] by (rewrite seqZ_cons, seqZ_nil by lia; f_equal; lia). simpl. lia.
Qed.

Lemma sumZ_ind (P : Z → Prop) : (∀ n, n ≤ 0 → P n) → (∀ n, 0 ≤ n → P n → P (n + 1)) → ∀ n, P n.
Proof.
  intros H0 HS n. destruct (Z.le_gt_cases n 0); [by apply H0|]. rewrite <- (Z2Nat.id n) by lia.
  induction (Z.to_nat n) as [|k IH]; [apply H0; lia|]. rewrite Nat2Z.inj_succ. apply HS; [lia|done].
Qed.

Lemma sumZ_ext f g n : (∀ i, 0 ≤ i < n → f i = g i) → sumZ f n = sumZ g n.
Proof.
  revert n. apply (sumZ_ind (λ n, (∀ i, 0 ≤ i < n → f i = g i) → sumZ f n = sumZ g n)).
  - intros. by rewrite !sumZ_0 by lia.
  - intros n Hn IH H. rewrite !sumZ_S by lia. rewrite IH, (H n); [done|lia|]. intros; apply H; lia.
Qed.

Lemma sumZ_update f g n i0 v :
  0 ≤ i0 < n → g i0 = f i0 + v → (∀ i, 0 ≤ i < n → i ≠ i0 → g i = f i) → sumZ g n = sumZ f n + v.
Proof.
  revert n. apply (sumZ_ind (λ n, 0 ≤ i0 < n → g i0 = f i0 + v → (∀ i, 0 ≤ i < n → i ≠ i0 → g i = f i) → sumZ g n = sumZ f n + v)).
  - intros; lia.
  - intros n Hn IH Hi H0 H. rewrite !sumZ_S by lia. destruct (decide (n = i0)) as [->|].
    + rewrite (sumZ_ext g f i0); [lia|]. intros; apply H; lia.
    + rewrite IH; [|lia|done|intros; apply H; lia]. rewrite (H n) by lia. lia.
Qed.

Lemma sumZ_nonneg f n : (∀ i, 0 ≤ i < n → 0 ≤ f i) → 0 ≤ sumZ f n.
Proof.
  revert n. apply (sumZ_ind (λ n, (∀ i, 0 ≤ i < n → 0 ≤ f i) → 0 ≤ sumZ f n)).
  - intros. by rewrite sumZ_0 by lia.
  - intros n Hn IH H. rewrite sumZ_S by lia. pose proof (H n ltac:(lia)). pose proof (IH ltac:(intros; apply H; lia)). lia.
Qed.

Lemma sumZ_zero f n : (∀ i, 0 ≤ i < n → f i = 0) → sumZ f n = 0.
Proof.
  intros H. rewrite (sumZ_ext f (λ _, 0)) by done.
  apply (sumZ_ind (λ n, sumZ (λ _, 0) n = 0)); [apply sumZ_0|]. intros m Hm IH. rewrite sumZ_S by lia. lia.
Qed.

Lemma sumZ_le f n b : 0 ≤ n → (∀ i, 0 ≤ i < n → f i ≤ b) → sumZ f n ≤ b * n.
Proof.
  revert n. apply (sumZ_ind (λ n, 0 ≤ n → (∀ i, 0 ≤ i < n → f i ≤ b) → sumZ f n ≤ b * n)).
  - intros n ? ? _. assert (n = 0) as -> by lia. rewrite sumZ_0 by lia. lia.
  - intros n Hn IH _ H. rewrite sumZ_S by lia. pose proof (H n ltac:(lia)). pose proof (IH Hn ltac:(intros; apply H; lia)). lia.
Qed.

(** ** A consistent file system

    Blocks and inodes are accounted for in the same way: [kind] selects the
    bitmaps and counts of one or the other. *)

Inductive kind := Blocks | Inodes.

Section wf.
Context (dev : Z).
Implicit Types (x : Ext2SuperblockData) (m : gmap key (list Z)) (k : kind).

Definition K x (b : Z) : key := (dev, block_size x, b).
Definition SBK : key := (dev, EXT2_SB_SIZE, EXT2_SB_NO).

Definition blk x m (b : Z) : list Z := default [] (m !! K x b).

(** The descriptor of group [g]. *)
Definition gd_block x (g : Z) : Z := gd_start x + g / gds_per_block x.
Definition gd_off x (g : Z) : Z := GD_SIZE * (g mod gds_per_block x).

Definition base x m k (g : Z) : Z :=
  fld 4 (blk x m (gd_block x g)) (gd_off x g + match k with Blocks => GD_block_bitmap | Inodes => GD_inode_bitmap end).
Definition cnt_off k : Z := match k with Blocks => GD_free_blocks_count | Inodes => GD_free_inodes_count end.
Definition cnt x m k (g : Z) : Z := fld 2 (blk x m (gd_block x g)) (gd_off x g + cnt_off k).
Definition table x m (g : Z) : Z := fld 4 (blk x m (gd_block x g)) (gd_off x g + GD_inode_table).

Definition per x k : Z := match k with Blocks => blocks_per_group x | Inodes => inodes_per_group x end.
Definition ngroups x k : Z :=
  match k with Blocks => block_count x / blocks_per_group x | Inodes => inodes_count x / inodes_per_group x end.
Definition free x k : Z := match k with Blocks => free_blocks_count x | Inodes => free_inodes_count x end.

(** Bit [n] of the bitmap that starts at block [bstart]. *)
Definition bmbit x m (bstart n : Z) : bool := bit (blk x m (bstart + n / bits_per_block x)) (n mod bits_per_block x).
Definition clear_bits x m (bstart n : Z) : Z := sumZ (λ i, if bmbit x m bstart i then 0 else 1) n.

(** Whether block number [n], or inode number [n + 1], is in use. *)
Definition used x m k (n : Z) : bool := bmbit x m (base x m k (n / per x k)) (n mod per x k).

(** The blocks that hold the bookkeeping. *)
Inductive role := RGd (j : Z) | RBm k (g i : Z).
Definition role_ok x (r : role) : Prop :=
  match r with
  | RGd j => 0 ≤ j ∧ (j * gds_per_block x < ngroups x Blocks ∨ j * gds_per_block x < ngroups x Inodes)
  | RBm k g i => 0 ≤ g < ngroups x k ∧ 0 ≤ i ∧ i * bits_per_block x < per x k
  end.
Definition role_block x m (r : role) : Z := match r with RGd j => gd_start x + j | RBm k g i => base x m k g + i end.

Definition total x : Z := ngroups x Blocks * per x Blocks.

Record geometry x : Prop := {
  geo_bs : 1024 ≤ block_size x ≤ 65536 ∧ block_size x mod 32 = 0;
  geo_per k : 0 < per x k < 65536;
  geo_count : 0 < block_count x < 2 ^ 31;
  geo_inodes : 0 ≤ inodes_count x < 2 ^ 31 }.

Definition block_ok x d : Prop := Z.of_nat (length d) = block_size x ∧ Forall byte d.

(** Everything but the totals of the superblock. *)
Record wfs x m : Prop := {
  w_geo : geometry x;
  w_blk b : 0 < b < block_count x → ∃ d, m !! K x b = Some d ∧ block_ok x d;
  w_sb : ∃ d, m !! SBK = Some d ∧ Z.of_nat (length d) = EXT2_SB_SIZE ∧ Forall byte d;
  w_role r : role_ok x r → 0 < role_block x m r < block_count x ∧ K x (role_block x m r) ≠ SBK ∧
    (role_block x m r < total x → used x m Blocks (role_block x m r) = true);
  w_inj r1 r2 : role_ok x r1 → role_ok x r2 → role_block x m r1 = role_block x m r2 → r1 = r2;
  w_reserved b : 0 ≤ b < total x → b = 0 ∨ K x b = SBK → used x m Blocks b = true;
  w_cnt k g : 0 ≤ g < ngroups x k → cnt x m k g = clear_bits x m (base x m k g) (per x k);
  w_slack g : ngroups x Inodes ≤ g → g / gds_per_block x * gds_per_block x < ngroups x Inodes → cnt x m Inodes g = 0 }.

Definition wf x m : Prop := wfs x m ∧ ∀ k, free x k = sumZ (cnt x m k) (ngroups x k).

End wf.

Lemma bpb_ok x : geometry x → bits_per_block x = 8 * block_size x.
Proof. intros [[? _] _ _ _]. unfold bits_per_block. rewrite u32_small by lia. lia. Qed.

Lemma gpb_ok x : geometry x → 32 ≤ gds_per_block x ≤ 2048 ∧ GD_SIZE * gds_per_block x = block_size x.
Proof. intros [[? Hm] _ _ _]. unfold gds_per_block, GD_SIZE. Z.to_euclidean_division_equations; lia. Qed.

Lemma block_words x d : geometry x → block_ok x d → words d ∧ 8 * Z.of_nat (length d) = bits_per_block x.
Proof.
  intros Hg [Hl _]. rewrite bpb_ok by done. destruct Hg as [[? Hm] _ _ _]. unfold words. rewrite Hl.
  split; [|done]. Z.to_euclidean_division_equations; lia.
Qed.

Lemma scan_bits_ok n d bi :
  words d → 0 ≤ bi → bi + Z.of_nat n ≤ 8 * Z.of_nat (length d) →
  ∃ o, scan_bits n d bi = Ok o ∧
    match o with
    | Some j => bi ≤ j < bi + Z.of_nat n ∧ bit d j = false ∧ ∀ i, bi ≤ i < j → bit d i = true
    | None => ∀ i, bi ≤ i < bi + Z.of_nat n → bit d i = true
    end.
Proof.
  intros Hw. revert bi. induction n as [|n IH]; intros bi H0 Hn; [exists None; split; [done|]; lia|].
  cbn [scan_bits]. rewrite byte_bit_test_ok by (done || lia). cbn [mbind outcome_bind]. destruct (bit d bi) eqn:E.
  - destruct (IH (bi + 1)) as (o & -> & Ho); [lia..|]. exists o. split; [done|]. destruct o as [j|].
    + destruct Ho as (? & ? & Hi). split; [lia|]. split; [done|]. intros i ?.
      destruct (decide (i = bi)) as [->|]; [done|]. apply Hi. lia.
    + intros i ?. destruct (decide (i = bi)) as [->|]; [done|]. apply Ho. lia.
  - exists (Some bi). split; [done|]. split; [lia|]. split; [done|]. lia.
Qed.

Section bitmap.
Context {S : Type} `{!BlockOps S, !BlockLaws S} (dev : Z).
Implicit Types (x : Ext2SuperblockData) (m : gmap key (list Z)) (h : gset key).

(** A state of the block store: usable, with contents [m] and buffers [h]. *)
Definition at_store m h (s : S) : Prop := bok s ∧ view s = m ∧ held s = h.

Definition bitmap_ok x m h (bstart blen : Z) : Prop :=
  ∀ i, 0 ≤ i → i * bits_per_block x < blen →
    0 ≤ bstart + i < 2 ^ 32 - 1 ∧ K dev x (bstart + i) ∉ h ∧ ∃ d, m !! K dev x (bstart + i) = Some d ∧ block_ok x d.

(** [m'] is [m] with bit [n] of the bitmap at [bstart] changed to [v]. *)
Definition bit_changed x m (bstart n : Z) (v : bool) m' : Prop :=
  ∃ d', m' = <[K dev x (bstart + n / bits_per_block x) := d']> m ∧ block_ok x d' ∧
    ∀ j, 0 ≤ j < bits_per_block x →
      bit d' j = if decide (j = n mod bits_per_block x) then v else bit (blk dev x m (bstart + n / bits_per_block x)) j.

Lemma bit_changed_blk x m bstart n v m' no d :
  bit_changed x m bstart n v m' → m !! K dev x no = Some d → block_ok x d → ∃ d', m' !! K dev x no = Some d' ∧ block_ok x d'.
Proof. intros (d' & -> & Hok & _) Hd Hdok. rewrite lookup_insert. case_decide; eauto. Qed.

Lemma union_difference_id h k : k ∉ h → ({[k]} ∪ h) ∖ {[k]} = h.
Proof. intros. set_solver. Qed.

Lemma bitmap_loop_ok fuel x bstart blen q (f : fs S) m h :
  geometry x → 0 ≤ q → blen < 65536 → at_store m h (store f) → (size h < HELD_MAX)%nat → bitmap_ok x m h bstart blen →
  (∀ i, 0 ≤ i < q * bits_per_block x → i < blen → bmbit dev x m bstart i = true) →
  Z.max 0 (blen - q * bits_per_block x) < Z.of_nat fuel → q * bits_per_block x < 2 ^ 31 →
  mwp (bitmap_loop dev fuel x bstart blen (q * bits_per_block x)) f (λ r f',
    sb f' = sb f ∧ match r with
    | Some n => 0 ≤ n < blen ∧ bmbit dev x m bstart n = false ∧ (∀ i, 0 ≤ i < n → bmbit dev x m bstart i = true) ∧
        ∃ m', bit_changed x m bstart n true m' ∧ at_store m' h (store f')
    | None => (∀ i, 0 ≤ i < blen → bmbit dev x m bstart i = true) ∧ at_store m h (store f')
    end).
Proof.
  intros Hg. pose proof (bpb_ok x Hg) as Hbpb. pose proof (geo_bs x Hg) as [Hbs _].
  revert q f. induction fuel as [|fuel IH]; intros q f Hq Hbl Hf Hh Hb Hset Hfuel Hov; [lia|].
  cbn [bitmap_loop]. destruct (Z.ltb_spec (q * bits_per_block x) blen).
  2:{ apply mwp_ret. split; [done|]. split; [|done]. intros i Hi. apply Hset; lia. }
  rewrite Z.div_mul by lia. destruct Hf as (Hok & Hv & Hhe).
  destruct (Hb q Hq ltac:(lia)) as (Hno & Hnh & d & Hd & Hdok).
  rewrite u32_small by lia. destruct (block_words x d Hg Hdok) as [Hw Hlen].
  apply mwp_bind. apply mwp_read with (d := d); [done|by rewrite Hhe|by rewrite Hhe|lia|by rewrite Hv|].
  intros s1 Hok1 Hv1 Hh1. apply mwp_bind. eapply mwp_lift; [done|].
  destruct (scan_bits_ok (Z.to_nat (Z.min (bits_per_block x) (blen - q * bits_per_block x))) d 0 Hw) as (o & Ho & Hr); [lia..|].
  apply mwp_bind. eapply mwp_lift; [exact Ho|]. clear Ho.
  assert (Hbit : ∀ j, 0 ≤ j < bits_per_block x → bmbit dev x m bstart (q * bits_per_block x + j) = bit d j).
  { intros j Hj. unfold bmbit, blk. rewrite (Z.add_comm (q * _)), Z.div_add, Z.mod_add by lia.
    rewrite Z.div_small, Z.mod_small by lia. rewrite Z.add_0_l, Hd. done. }
  destruct o as [bi|].
  - destruct Hr as (Hbi & Hfree & Hbefore). rewrite Z2Nat.id in Hbi by lia.
    destruct (byte_bit_set_ok d bi Hw (proj2 Hdok) ltac:(lia)) as (d' & Hset' & Hl' & Hb' & Hbits).
    apply mwp_bind. eapply mwp_lift; [exact Hset'|]. apply mwp_bind. apply mwp_write with (d0 := d); [done|simpl; rewrite Hh1; set_solver|simpl; by rewrite Hv1, Hv|done|].
    simpl. intros s2 Hok2 Hv2 Hh2. apply mwp_ret. rewrite u32_small by lia. split; [done|]. split; [lia|].
    split; [by rewrite Hbit by lia|]. split.
    { intros i Hi. destruct (Z.lt_ge_cases i (q * bits_per_block x)); [apply Hset; lia|].
      replace i with (q * bits_per_block x + (i - q * bits_per_block x)) by lia. rewrite Hbit by lia. apply Hbefore. lia. }
    eexists. split; [|split; [exact Hok2|split; [exact Hv2|simpl; rewrite Hh2, Hh1, Hhe; by apply union_difference_id]]].
    exists d'. rewrite (Z.add_comm (q * _)), Z.div_add, Z.mod_add, Z.div_small, Z.mod_small by lia. rewrite Z.add_0_l.
    split; [by rewrite Hv1, Hv|]. split; [split; [destruct Hdok; lia|done]|].
    intros j Hj. rewrite Hbits by lia. unfold blk. rewrite Hd. simpl. case_decide; [by rewrite bool_decide_true|by rewrite bool_decide_false].
  - apply mwp_bind. apply mwp_release; [done|simpl; rewrite Hh1; set_solver|]. simpl. intros s2 Hok2 Hv2 Hh2.
    rewrite u32_small by lia. replace (q * bits_per_block x + bits_per_block x) with ((q + 1) * bits_per_block x) by lia.
    eapply mwp_mono; [apply (IH (q + 1))|by simpl]; try done; try lia.
    + split; [done|]. split; [by simpl; rewrite Hv2, Hv1|]. simpl. rewrite Hh2, Hh1, Hhe. by apply union_difference_id.
    + intros i Hi Hil. destruct (Z.lt_ge_cases i (q * bits_per_block x)); [apply Hset; lia|].
      replace i with (q * bits_per_block x + (i - q * bits_per_block x)) by lia. rewrite Hbit by lia. apply Hr. lia.
Qed.

Lemma bitmap_alloc_ok x bstart blen (f : fs S) m h :
  geometry x → 0 ≤ blen < 65536 → at_store m h (store f) → (size h < HELD_MAX)%nat → bitmap_ok x m h bstart blen →
  mwp (ext2_bitmap_alloc dev x bstart blen) f (λ r f',
    sb f' = sb f ∧ match r with
    | Some n => 0 ≤ n < blen ∧ bmbit dev x m bstart n = false ∧ (∀ i, 0 ≤ i < n → bmbit dev x m bstart i = true) ∧
        ∃ m', bit_changed x m bstart n true m' ∧ at_store m' h (store f')
    | None => (∀ i, 0 ≤ i < blen → bmbit dev x m bstart i = true) ∧ at_store m h (store f')
    end).
Proof.
  intros Hg Hbl Hf Hh Hb. unfold ext2_bitmap_alloc. replace 0 with (0 * bits_per_block x) at 1 by lia.
  apply bitmap_loop_ok; try done; lia.
Qed.

Lemma bitmap_free_ok x bstart blen n (f : fs S) m h :
  geometry x → 0 ≤ n < blen → at_store m h (store f) → (size h < HELD_MAX)%nat → bitmap_ok x m h bstart blen →
  bmbit dev x m bstart n = true →
  mwp (ext2_bitmap_free dev x bstart n) f (λ _ f',
    sb f' = sb f ∧ ∃ m', bit_changed x m bstart n false m' ∧ at_store m' h (store f')).
Proof.
  intros Hg Hn (Hok & Hv & Hhe) Hh Hb Hbit. pose proof (bpb_ok x Hg) as Hbpb. pose proof (geo_bs x Hg) as [Hbs _].
  destruct (Hb (n / bits_per_block x)) as (Hno & Hnh & d & Hd & Hdok).
  { apply Z.div_pos; lia. } { pose proof (Z.mul_div_le n (bits_per_block x) ltac:(lia)). lia. }
  destruct (block_words x d Hg Hdok) as [Hw Hlen]. pose proof (Z.mod_pos_bound n (bits_per_block x) ltac:(lia)).
  unfold ext2_bitmap_free. rewrite u32_small by lia.
  apply mwp_bind. apply mwp_read with (d := d); [done|by rewrite Hhe|by rewrite Hhe|lia|by rewrite Hv|].
  intros s1 Hok1 Hv1 Hh1. apply mwp_bind. eapply mwp_lift; [done|].
  apply mwp_bind. eapply mwp_lift; [apply byte_bit_test_ok; [done|lia]|].
  unfold bmbit, blk in Hbit. rewrite Hd in Hbit. simpl in Hbit. rewrite Hbit. simpl.
  destruct (byte_bit_clear_ok d (n mod bits_per_block x) Hw (proj2 Hdok) ltac:(lia)) as (d' & Hc & Hl' & Hb' & Hbits).
  apply mwp_bind. eapply mwp_lift; [exact Hc|]. apply mwp_write with (d0 := d); [done|simpl; rewrite Hh1; set_solver|simpl; by rewrite Hv1, Hv|done|].
  simpl. intros s2 Hok2 Hv2 Hh2. split; [done|]. eexists.
  split; [|split; [exact Hok2|split; [exact Hv2|simpl; rewrite Hh2, Hh1, Hhe; by apply union_difference_id]]].
  exists d'. split; [by rewrite Hv1, Hv|]. split; [split; [destruct Hdok; lia|done]|].
  intros j Hj. rewrite Hbits by lia. unfold blk. rewrite Hd. simpl. case_decide; [by rewrite bool_decide_true|by rewrite bool_decide_false].
Qed.

Lemma block_zero_ok x b d (f : fs S) m h :
  geometry x → 0 ≤ b < 2 ^ 32 - 1 → at_store m h (store f) → (size h < HELD_MAX)%nat → K dev x b ∉ h → m !! K dev x b = Some d → block_ok x d →
  mwp (ext2_block_zero dev x b) f (λ _ f',
    sb f' = sb f ∧ at_store (<[K dev x b := replicate (Z.to_nat (block_size x)) 0]> m) h (store f')).
Proof.
  intros Hg Hb (Hok & Hv & Hhe) Hh Hnh Hd [Hlen _]. unfold ext2_block_zero.
  apply mwp_bind. apply mwp_read with (d := d); [done|by rewrite Hhe|by rewrite Hhe|lia|by rewrite Hv|].
  intros s1 Hok1 Hv1 Hh1. apply mwp_bind. eapply mwp_lift; [done|].
  apply mwp_write with (d0 := d); [done|simpl; rewrite Hh1; set_solver|simpl; by rewrite Hv1, Hv|rewrite length_replicate; lia|]. simpl. intros s2 Hok2 Hv2 Hh2. split; [done|].
  split; [done|]. split; [simpl; by rewrite Hv2, Hv1, Hv|]. simpl. rewrite Hh2, Hh1, Hhe. by apply union_difference_id.
Qed.

(** What [ext2_sb_sync] leaves in the superblock. *)
Record synced (now : Z) x (d d' : list Z) : Prop := {
  sy_len : Z.of_nat (length d') = EXT2_SB_SIZE;
  sy_bytes : Forall byte d';
  sy_wtime : fld 4 d' SB_wtime = now;
  sy_blocks : fld 4 d' SB_free_blocks_count = free_blocks_count x;
  sy_inodes : fld 4 d' SB_free_inodes_count = free_inodes_count x;
  sy_other n off : 0 ≤ off → off + Z.of_nat n ≤ EXT2_SB_SIZE →
    (off + Z.of_nat n ≤ 12 ∨ 20 ≤ off ∧ off + Z.of_nat n ≤ 48 ∨ 52 ≤ off) → fld n d' off = fld n d off }.

Lemma sb_sync_ok now d (f : fs S) m h :
  at_store m h (store f) → (size h < HELD_MAX)%nat → SBK dev ∉ h → m !! SBK dev = Some d →
  Z.of_nat (length d) = EXT2_SB_SIZE → Forall byte d →
  0 ≤ now < 2 ^ 32 → 0 ≤ free_blocks_count (sb f) < 2 ^ 32 → 0 ≤ free_inodes_count (sb f) < 2 ^ 32 →
  mwp (ext2_sb_sync dev now) f (λ _ f', sb f' = set_wtime now (sb f) ∧
    ∃ d', synced now (sb f) d d' ∧ at_store (<[SBK dev := d']> m) h (store f')).
Proof.
  intros (Hok & Hv & Hhe) Hh Hnh Hd Hl Hb Hnow Hfb Hfi. unfold ext2_sb_sync. unfold EXT2_SB_SIZE in Hl.
  apply mwp_bind, mwp_get_sb. apply mwp_bind, mwp_put_sb. apply mwp_bind.
  apply mwp_read with (d := d); simpl; [done|by rewrite Hhe|by rewrite Hhe|done|by rewrite Hv|].
  intros s1 Hok1 Hv1 Hh1. apply mwp_bind. eapply mwp_lift; [done|].
  unfold SB_wtime, SB_free_blocks_count, SB_free_inodes_count.
  do 3 (apply mwp_bind; eapply mwp_lift; [apply wr_ok; put_len|]).
  apply mwp_write with (d0 := d); [done|simpl; rewrite Hh1; set_solver|simpl; by rewrite Hv1, Hv|put_len|]. simpl. intros s2 Hok2 Hv2 Hh2. split; [done|]. eexists.
  split; [|split; [exact Hok2|split; [simpl; by rewrite Hv2, Hv1, Hv|simpl; rewrite Hh2, Hh1, Hhe; by apply union_difference_id]]].
  split; unfold EXT2_SB_SIZE, SB_wtime, SB_free_blocks_count, SB_free_inodes_count.
  - put_len.
  - by repeat apply put_bytes.
  - do 2 rewrite fld_put_other by put_len. rewrite fld_put by put_len. done.
  - rewrite fld_put_other, fld_put by put_len. done.
  - rewrite fld_put by put_len. done.
  - intros n off ? ? ?. rewrite !fld_put_other by put_len. done.
Qed.

End bitmap.

#[global] Arguments ngroups : simpl never.
#[global] Arguments per : simpl never.
#[global] Arguments free : simpl never.

(** ** Changing blocks *)

Section change.
Context (dev : Z).
Implicit Types (x : Ext2SuperblockData) (m : gmap key (list Z)) (k : kind).

Notation K := (K dev).
Notation blk := (blk dev).
Notation base := (base dev).
Notation cnt := (cnt dev).
Notation table := (table dev).
Notation used := (used dev).
Notation bmbit := (bmbit dev).
Notation wfs := (wfs dev).

Lemma K_inj x b b' : K x b = K x b' → b = b'.
Proof. unfold Ext2Alloc.K. congruence. Qed.

Lemma blk_insert x m b b' d : blk x (<[K x b := d]> m) b' = if decide (b' = b) then d else blk x m b'.
Proof.
  unfold Ext2Alloc.blk. case_decide as E; [by rewrite E, lookup_insert_eq|].
  rewrite lookup_insert_ne; [done|]. intros ?%K_inj. done.
Qed.

(** The descriptor of a group that exists, or that shares a block with one. *)
Definition gd_ok x (g : Z) : Prop := 0 ≤ g ∧ role_ok x (RGd (g / gds_per_block x)).

Lemma gd_ok_group x k g : geometry x → 0 ≤ g < ngroups x k → gd_ok x g.
Proof.
  intros Hg Hk. destruct (gpb_ok x Hg) as [? _]. split; [lia|]. simpl. split; [apply Z.div_pos; lia|].
  pose proof (Z.mul_div_le g (gds_per_block x) ltac:(lia)). destruct k; [left|right]; lia.
Qed.

Lemma gd_ok_slack x g :
  geometry x → ngroups x Inodes ≤ g → g / gds_per_block x * gds_per_block x < ngroups x Inodes → gd_ok x g.
Proof.
  intros Hg Hs Hb. destruct (gpb_ok x Hg) as [? _].
  assert (0 ≤ ngroups x Inodes) by (unfold ngroups; apply Z.div_pos; [apply Hg|apply (geo_per x Hg Inodes)]).
  split; [lia|]. split; [apply Z.div_pos; lia|]. by right.
Qed.

Lemma gd_off_ok x g : geometry x → 0 ≤ gd_off x g ∧ gd_off x g + 32 ≤ block_size x.
Proof.
  intros Hg. destruct (gpb_ok x Hg) as [? Hm]. unfold gd_off, GD_SIZE in *.
  pose proof (Z.mod_pos_bound g (gds_per_block x) ltac:(lia)). lia.
Qed.

Lemma gd_off_inj x g g' : geometry x → gd_block x g = gd_block x g' → g ≠ g' → 32 ≤ Z.abs (gd_off x g - gd_off x g').
Proof.
  intros Hg Hb Hne. destruct (gpb_ok x Hg) as [? Hm]. unfold gd_block, gd_off, GD_SIZE in *.
  assert (g mod gds_per_block x ≠ g' mod gds_per_block x); [|lia].
  intros E. apply Hne. rewrite (Z.div_mod g (gds_per_block x)), (Z.div_mod g' (gds_per_block x)) by lia.
  rewrite E. f_equal. f_equal. lia.
Qed.

Lemma bitmap_role x k g n :
  geometry x → 0 ≤ g < ngroups x k → 0 ≤ n < per x k → role_ok x (RBm k g (n / bits_per_block x)).
Proof.
  intros Hg Hk Hn. pose proof (bpb_ok x Hg). pose proof (geo_bs x Hg). simpl. split; [done|].
  split; [apply Z.div_pos; lia|]. pose proof (Z.mul_div_le n (bits_per_block x) ltac:(lia)). lia.
Qed.

Lemma group_of x k i :
  geometry x → 0 ≤ i < ngroups x k * per x k → 0 ≤ i / per x k < ngroups x k ∧ 0 ≤ i mod per x k < per x k.
Proof.
  intros Hg Hi. pose proof (geo_per x Hg k). split; [|apply Z.mod_pos_bound; lia].
  split; [apply Z.div_pos; lia|apply Z.div_lt_upper_bound; lia].
Qed.

(** *** Bookkeeping that is the same in two stores *)

Record same_meta x m m' : Prop := {
  sm_base k g : 0 ≤ g < ngroups x k → base x m' k g = base x m k g;
  sm_cnt k g : gd_ok x g → cnt x m' k g = cnt x m k g;
  sm_table g : gd_ok x g → table x m' g = table x m g;
  sm_used k i : 0 ≤ i < ngroups x k * per x k → used x m' k i = used x m k i }.

Lemma data_same_meta x m m' :
  wfs x m → (∀ r, role_ok x r → m' !! K x (role_block dev x m r) = m !! K x (role_block dev x m r)) → same_meta x m m'.
Proof.
  intros Hw Hr. pose proof (w_geo _ _ _ Hw) as Hg.
  assert (Hgd : ∀ g, gd_ok x g → blk x m' (gd_block x g) = blk x m (gd_block x g)).
  { intros g [_ Hok]. unfold Ext2Alloc.blk. specialize (Hr _ Hok). simpl in Hr. unfold gd_block. by rewrite Hr. }
  assert (Hb : ∀ k g, 0 ≤ g < ngroups x k → base x m' k g = base x m k g).
  { intros k g Hk. unfold Ext2Alloc.base. rewrite Hgd; [done|]. by eapply gd_ok_group. }
  split; [done|..].
  - intros k g Hk. unfold Ext2Alloc.cnt. by rewrite Hgd.
  - intros g Hk. unfold Ext2Alloc.table. by rewrite Hgd.
  - intros k i Hi. destruct (group_of x k i Hg Hi) as [Hq Hm]. unfold Ext2Alloc.used, Ext2Alloc.bmbit.
    rewrite Hb by done. unfold Ext2Alloc.blk. specialize (Hr _ (bitmap_role x k _ _ Hg Hq Hm)). simpl in Hr. by rewrite Hr.
Qed.

Lemma data_wfs x m m' :
  wfs x m → (∀ r, role_ok x r → m' !! K x (role_block dev x m r) = m !! K x (role_block dev x m r)) →
  (∀ b, 0 < b < block_count x → ∃ d, m' !! K x b = Some d ∧ block_ok x d) →
  (∃ d, m' !! SBK dev = Some d ∧ Z.of_nat (length d) = EXT2_SB_SIZE ∧ Forall byte d) → wfs x m'.
Proof.
  intros Hw Hr Hblk Hsb. pose proof (w_geo _ _ _ Hw) as Hg. destruct (data_same_meta x m m' Hw Hr) as [Sb Sc St Su].
  assert (Hrole : ∀ r, role_ok x r → role_block dev x m' r = role_block dev x m r).
  { intros [j|k g i] Hok; [done|]. destruct Hok as [? _]. simpl. by rewrite Sb. }
  split; [done|done|done|..].
  - intros r Hok. rewrite Hrole by done. destruct (w_role _ _ _ Hw r Hok) as (H1 & H2 & H3). split; [done|]. split; [done|].
    intros Ht. rewrite Su; [by apply H3|]. unfold total in Ht. simpl. lia.
  - intros r1 r2 H1 H2. rewrite !Hrole by done. by apply (w_inj _ _ _ Hw).
  - intros b Hb ?. rewrite Su by done. by apply (w_reserved _ _ _ Hw).
  - intros k g Hk. rewrite Sc by (by eapply gd_ok_group). rewrite (w_cnt _ _ _ Hw) by done.
    unfold clear_bits. apply sumZ_ext. intros i Hi. rewrite Sb by done.
    unfold Ext2Alloc.bmbit, Ext2Alloc.blk. specialize (Hr _ (bitmap_role x k _ _ Hg Hk Hi)). simpl in Hr. by rewrite Hr.
  - intros g H1 H2. rewrite Sc by (by apply gd_ok_slack). by apply (w_slack _ _ _ Hw).
Qed.

(** *** One bit changed and the count of its group adjusted *)

Definition delta (v : bool) : Z := if v then -1 else 1.

Definition flipped x m k (g n : Z) (v : bool) m1 m2 : Prop :=
  bit_changed dev x m (base x m k g) n v m1 ∧
  m2 = <[K x (gd_block x g) := put 2 (blk x m (gd_block x g)) (gd_off x g + cnt_off k) (cnt x m k g + delta v)]> m1.

#[global] Instance kind_eq_dec : EqDecision kind.
Proof. solve_decision. Defined.

Section flip.
Context x m k (g n : Z) (v : bool) m1 m2 (Hw : wfs x m) (Hk : 0 ≤ g < ngroups x k) (Hn : 0 ≤ n < per x k).
Context (Hbit : bmbit x m (base x m k g) n = negb v) (Hf : flipped x m k g n v m1 m2).

Let Hg : geometry x := w_geo _ _ _ Hw.
Let bm_no : Z := base x m k g + n / bits_per_block x.

Lemma flip_gd_ne : gd_block x g ≠ bm_no.
Proof.
  intros E. assert (RGd (g / gds_per_block x) = RBm k g (n / bits_per_block x)); [|done].
  apply (w_inj _ _ _ Hw); [by apply (gd_ok_group x k)|by apply bitmap_role|done].
Qed.

Lemma gd_block_ok g' : gd_ok x g' → block_ok x (blk x m (gd_block x g')).
Proof.
  intros [_ Hok]. destruct (w_role _ _ _ Hw _ Hok) as (Hr & _). simpl in Hr.
  destruct (w_blk _ _ _ Hw _ Hr) as (d & Hd & ?). unfold Ext2Alloc.blk, gd_block. by rewrite Hd.
Qed.

Lemma flip_other b : b ≠ gd_block x g → b ≠ bm_no → m2 !! K x b = m !! K x b.
Proof.
  intros H1 H2. destruct Hf as ((d' & -> & _) & ->). by rewrite !lookup_insert_ne by (intros ?%K_inj; unfold bm_no in *; congruence).
Qed.

Lemma flip_gd_block : blk x m2 (gd_block x g) =
  put 2 (blk x m (gd_block x g)) (gd_off x g + cnt_off k) (cnt x m k g + delta v).
Proof. destruct Hf as (_ & ->). rewrite blk_insert. by rewrite decide_True. Qed.

Lemma flip_gd_other g' : gd_ok x g' → gd_block x g' ≠ gd_block x g → blk x m2 (gd_block x g') = blk x m (gd_block x g').
Proof.
  intros Hok Hne. unfold Ext2Alloc.blk. rewrite flip_other; [done..|].
  intros E. assert (RGd (g' / gds_per_block x) = RBm k g (n / bits_per_block x)); [|done].
  apply (w_inj _ _ _ Hw); [apply Hok|by apply bitmap_role|done].
Qed.

Lemma cnt_off_ok k' : 12 ≤ cnt_off k' ≤ 14.
Proof. by destruct k'. Qed.

Lemma flip_field g' n' o :
  gd_ok x g' → 0 ≤ o → o + Z.of_nat n' ≤ 32 → g' ≠ g ∨ o + Z.of_nat n' ≤ cnt_off k ∨ cnt_off k + 2 ≤ o →
  fld n' (blk x m2 (gd_block x g')) (gd_off x g' + o) = fld n' (blk x m (gd_block x g')) (gd_off x g' + o).
Proof.
  intros Hok Ho Hn' Hd. destruct (decide (gd_block x g' = gd_block x g)) as [E|]; [|by rewrite flip_gd_other].
  rewrite E, flip_gd_block. pose proof (cnt_off_ok k). pose proof (gd_off_ok x g Hg). pose proof (gd_off_ok x g' Hg).
  assert (gd_ok x g) as [Hl _]%gd_block_ok by (by apply (gd_ok_group x k)).
  apply fld_put_other; simpl; try lia. destruct (decide (g' = g)) as [->|Hne]; [lia|].
  pose proof (gd_off_inj x g' g Hg E Hne). lia.
Qed.

Lemma flip_base k' g' : 0 ≤ g' < ngroups x k' → base x m2 k' g' = base x m k' g'.
Proof.
  intros Hk'. unfold Ext2Alloc.base. pose proof (cnt_off_ok k).
  apply flip_field; [by apply (gd_ok_group x k')|..]; destruct k'; unfold GD_block_bitmap, GD_inode_bitmap; simpl; lia.
Qed.

Lemma flip_table g' : gd_ok x g' → table x m2 g' = table x m g'.
Proof. intros. pose proof (cnt_off_ok k). apply flip_field; unfold GD_inode_table; simpl; lia || done. Qed.

Lemma flip_bit k' g' i :
  0 ≤ g' < ngroups x k' → 0 ≤ i < per x k' →
  bmbit x m2 (base x m2 k' g') i = if decide (k' = k ∧ g' = g ∧ i = n) then v else bmbit x m (base x m k' g') i.
Proof.
  intros Hk' Hi. rewrite flip_base by done. unfold Ext2Alloc.bmbit.
  pose proof (bpb_ok x Hg). pose proof (geo_bs x Hg).
  destruct (decide (base x m k' g' + i / bits_per_block x = bm_no)) as [E|Hne].
  - assert (RBm k' g' (i / bits_per_block x) = RBm k g (n / bits_per_block x)) as [= -> -> Ei].
    { apply (w_inj _ _ _ Hw); [by apply bitmap_role..|done]. }
    destruct Hf as ((d' & -> & _ & Hd') & ->). rewrite blk_insert, decide_False.
    2:{ rewrite Ei. intros E'. by apply flip_gd_ne. }
    rewrite Ei, blk_insert, decide_True by done. rewrite Hd' by (apply Z.mod_pos_bound; lia).
    apply decide_ext. split.
    + intros Em. split; [done|]. split; [done|].
      rewrite (Z.div_mod i (bits_per_block x)), (Z.div_mod n (bits_per_block x)) by lia. congruence.
    + by intros (_ & _ & ->).
  - rewrite decide_False by (intros (-> & -> & ->); done). unfold Ext2Alloc.blk. rewrite flip_other; [done| |done].
    intros E. assert (RBm k' g' (i / bits_per_block x) = RGd (g / gds_per_block x)); [|done].
    apply (w_inj _ _ _ Hw); [by apply bitmap_role|by apply (gd_ok_group x k)|done].
Qed.

Lemma flip_clear k' g' :
  0 ≤ g' < ngroups x k' →
  clear_bits dev x m2 (base x m2 k' g') (per x k') =
    clear_bits dev x m (base x m k' g') (per x k') + if decide (k' = k ∧ g' = g) then delta v else 0.
Proof.
  intros Hk'. unfold clear_bits. case_decide as E.
  - destruct E as [-> ->]. apply sumZ_update with (i0 := n); [done| |].
    + rewrite flip_bit, decide_True by done. rewrite Hbit. by destruct v.
    + intros i Hi Hne. by rewrite flip_bit, decide_False by naive_solver.
  - rewrite Z.add_0_r. apply sumZ_ext. intros i Hi. by rewrite flip_bit, decide_False by naive_solver.
Qed.

Lemma clear_range m' k' b : 0 ≤ clear_bits dev x m' b (per x k') ≤ per x k'.
Proof.
  pose proof (geo_per x Hg k'). split; [apply sumZ_nonneg; intros; case_match; lia|].
  unfold clear_bits. rewrite <- (Z.mul_1_l (per x k')) at 2. apply sumZ_le; [lia|]. intros; case_match; lia.
Qed.

Lemma flip_cnt k' g' :
  gd_ok x g' → cnt x m2 k' g' = cnt x m k' g' + if decide (k' = k ∧ g' = g) then delta v else 0.
Proof.
  intros Hok. pose proof (cnt_off_ok k). case_decide as E.
  - destruct E as [-> ->]. unfold Ext2Alloc.cnt at 1. rewrite flip_gd_block.
    pose proof (gd_off_ok x g Hg). pose proof (gd_block_ok g Hok) as [Hl _].
    rewrite fld_put; [done|lia|simpl; lia|]. change (256 ^ Z.of_nat 2) with 65536.
    pose proof (flip_clear k g Hk) as Hc. rewrite decide_True in Hc by done.
    rewrite (w_cnt _ _ _ Hw k g Hk), <- Hc. pose proof (clear_range m2 k (base x m2 k g)). pose proof (geo_per x Hg k). lia.
  - rewrite Z.add_0_r. unfold Ext2Alloc.cnt. apply flip_field; try done.
    + destruct k'; simpl; unfold GD_free_blocks_count, GD_free_inodes_count; lia.
    + destruct k'; simpl; unfold GD_free_blocks_count, GD_free_inodes_count; lia.
    + destruct (decide (g' = g)) as [->|]; [|by left]. right.
      destruct k, k'; simpl; unfold GD_free_blocks_count, GD_free_inodes_count; try lia; naive_solver.
Qed.

Lemma flip_used k' i :
  0 ≤ i < ngroups x k' * per x k' →
  used x m2 k' i = if decide (k' = k ∧ i = g * per x k + n) then v else used x m k' i.
Proof.
  intros Hi. destruct (group_of x k' i Hg Hi) as [H1 H2]. unfold Ext2Alloc.used. rewrite flip_bit by done.
  apply decide_ext. split; [intros (-> & <- & <-)|intros (-> & ->)].
  - split; [done|]. rewrite (Z.div_mod i (per x k)) at 1; lia.
  - split; [done|]. rewrite Z.add_comm, Z.div_add, Z.mod_add, Z.div_small, Z.mod_small by lia. lia.
Qed.

Lemma flip_role r : role_ok x r → role_block dev x m2 r = role_block dev x m r.
Proof. destruct r as [j|k' g' i]; [done|]. intros [? _]. simpl. by rewrite flip_base. Qed.

Lemma flip_ne_SBK : K x (gd_block x g) ≠ SBK dev ∧ K x bm_no ≠ SBK dev.
Proof.
  split; [apply (w_role _ _ _ Hw (RGd (g / gds_per_block x))); by apply (gd_ok_group x k)|].
  by apply (w_role _ _ _ Hw (RBm k g (n / bits_per_block x))), bitmap_role.
Qed.

Lemma flip_sb : m2 !! SBK dev = m !! SBK dev.
Proof. destruct flip_ne_SBK. destruct Hf as ((d' & -> & _) & ->). by rewrite !lookup_insert_ne. Qed.

Lemma flip_blk b : 0 < b < block_count x → ∃ d, m2 !! K x b = Some d ∧ block_ok x d.
Proof.
  intros Hb. destruct (decide (b = gd_block x g)) as [->|H1].
  { pose proof flip_gd_block as E. unfold Ext2Alloc.blk at 1 in E.
    destruct (m2 !! K x (gd_block x g)) as [d|] eqn:E2.
    - simpl in E. subst d. eexists. split; [done|].
      pose proof (gd_block_ok g (gd_ok_group x k g Hg Hk)) as [Hl Hby]. pose proof (gd_off_ok x g Hg). pose proof (cnt_off_ok k).
      split; [|by apply put_bytes]. rewrite length_put; simpl; lia.
    - destruct Hf as (_ & ->). by rewrite lookup_insert_eq in E2. }
  destruct (decide (b = bm_no)) as [->|H2]; [|rewrite flip_other by done; by apply (w_blk _ _ _ Hw)].
  destruct Hf as ((d' & E & ? & _) & ->). subst m1. rewrite lookup_insert_ne by (intros ?%K_inj; by apply flip_gd_ne).
  exists d'. by rewrite lookup_insert_eq.
Qed.

(** A freed block is not one the file system needs. *)
Definition may_free (b : Z) : Prop :=
  (∀ r, role_ok x r → role_block dev x m r ≠ b) ∧ b ≠ 0 ∧ K x b ≠ SBK dev.

Lemma flip_wfs : (v = false → k = Blocks → may_free (g * per x k + n)) → wfs x m2.
Proof.
  intros Hfree.
  assert (Hused : ∀ b, 0 ≤ b < total x → used x m Blocks b = true → (v = false → k = Blocks → b ≠ g * per x k + n) →
    used x m2 Blocks b = true).
  { intros b Hb Hu Hne. rewrite flip_used by done. case_decide as E; [|done]. destruct E as [<- ->]. destruct v; [done|].
    by destruct Hne. }
  split; [done|apply flip_blk|rewrite flip_sb; by apply (w_sb _ _ _ Hw)|..].
  - intros r Hr. rewrite flip_role by done. destruct (w_role _ _ _ Hw r Hr) as (H1 & H2 & H3).
    split; [done|]. split; [done|]. intros Ht. apply Hused; [lia|by apply H3|].
    intros Hv Hkb. by destruct (Hfree Hv Hkb) as [Hno _]; apply Hno.
  - intros r1 r2 H1 H2. rewrite !flip_role by done. by apply (w_inj _ _ _ Hw).
  - intros b Hb Hres. apply Hused; [done|by apply (w_reserved _ _ _ Hw)|].
    intros Hv Hkb ->. destruct (Hfree Hv Hkb) as (_ & ? & ?). naive_solver.
  - intros k' g' Hk'. rewrite flip_cnt by (by apply (gd_ok_group x k')). rewrite flip_clear by done.
    by rewrite (w_cnt _ _ _ Hw).
  - intros g' H1 H2. rewrite flip_cnt by (by apply gd_ok_slack). rewrite (w_slack _ _ _ Hw) by done.
    rewrite decide_False; [done|]. intros [<- ->]. lia.
Qed.

Lemma flip_sum k' :
  sumZ (cnt x m2 k') (ngroups x k') = sumZ (cnt x m k') (ngroups x k') + if decide (k' = k) then delta v else 0.
Proof.
  case_decide as E.
  - subst k'. apply sumZ_update with (i0 := g); [done| |].
    + rewrite flip_cnt, decide_True; [done..|by apply (gd_ok_group x k)].
    + intros i Hi Hne. rewrite flip_cnt, decide_False by (naive_solver || by apply (gd_ok_group x k)). lia.
  - rewrite Z.add_0_r. apply sumZ_ext. intros i Hi.
    rewrite flip_cnt, decide_False by (naive_solver || by apply (gd_ok_group x k')). lia.
Qed.

End flip.

(** The superblock record with one count replaced. *)
Definition set_free k (c : Z) x : Ext2SuperblockData :=
  match k with Blocks => set_free_blocks c x | Inodes => set_free_inodes c x end.

Lemma set_free_wfs k c x m : wfs x m → wfs (set_free k c x) m.
Proof. intros [[] ? ? ? ? ? ? ?]. by destruct k; split. Qed.

Lemma set_free_same k c x m m' : same_meta (set_free k c x) m m' → same_meta x m m'.
Proof. intros []. by destruct k; split. Qed.

Lemma set_wtime_wfs t x m : wfs x m → wfs (set_wtime t x) m.
Proof. intros [[] ? ? ? ? ? ? ?]. by split. Qed.

(** The superblock record after any number of allocations of blocks. *)
Definition later (t c : Z) x : Ext2SuperblockData := set_wtime t (set_free_blocks c x).

Lemma later_wfs t c x m : wfs (later t c x) m ↔ wfs x m.
Proof. split; intros [[] ? ? ? ? ? ? ?]; by split. Qed.

Lemma flip_wf x m k g n v m1 m2 :
  wf dev x m → 0 ≤ g < ngroups x k → 0 ≤ n < per x k → bmbit x m (base x m k g) n = negb v →
  flipped x m k g n v m1 m2 → (v = false → k = Blocks → may_free x m (g * per x k + n)) →
  wf dev (set_free k (free x k + delta v) x) m2.
Proof.
  intros [Hw Hs] Hk Hn Hbit Hf Hfree. split; [apply set_free_wfs; by eapply (flip_wfs x m k g n v m1 m2)|].
  intros k'. pose proof (flip_sum x m k g n v m1 m2 Hw Hk Hn Hbit Hf k') as Hsum. rewrite <- Hs in Hsum.
  destruct k, k'; (etrans; [|symmetry; exact Hsum]); unfold free; simpl; lia.
Qed.

End change.

(** ** The allocators *)

Section alloc.
Context {S : Type} `{!BlockOps S, !BlockLaws S} (dev now : Z).
Implicit Types (x : Ext2SuperblockData) (m : gmap key (list Z)) (h : gset key) (k : kind) (f : fs S).

Notation K := (K dev).
Notation blk := (blk dev).
Notation base := (base dev).
Notation cnt := (cnt dev).
Notation used := (used dev).
Notation bmbit := (bmbit dev).
Notation wfs := (wfs dev).

Definition group_alloc k : Ext2SuperblockData → list Z → Z → M S (option (Z * list Z)) :=
  match k with Blocks => ext2_block_group_alloc dev | Inodes => ext2_inode_group_alloc dev end.

(** The caller holds none of the blocks the allocator works on. *)
Record lets x m h : Prop := {
  l_role r : role_ok x r → K x (role_block dev x m r) ∉ h;
  l_sb : SBK dev ∉ h;
  l_free b : 0 ≤ b < total x → used x m Blocks b = false → K x b ∉ h;
  l_size : (size h + 2 < HELD_MAX)%nat }.

Lemma group_bitmap_ok x m h k g :
  wfs x m → 0 ≤ g < ngroups x k → (∀ i, role_ok x (RBm k g i) → K x (role_block dev x m (RBm k g i)) ∉ h) →
  bitmap_ok dev x m h (base x m k g) (per x k).
Proof.
  intros Hw Hk Hh i Hi0 Hi. assert (Hr : role_ok x (RBm k g i)) by done.
  destruct (w_role _ _ _ Hw _ Hr) as (Hb & _). simpl in Hb. pose proof (geo_count x (w_geo _ _ _ Hw)).
  split; [lia|]. split; [by apply Hh|]. by apply (w_blk _ _ _ Hw).
Qed.

Lemma group_alloc_ok k x m h g d f :
  wfs x m → gd_ok x g → (g < ngroups x k ∨ cnt x m k g = 0) → at_store m h (store f) → (size h < HELD_MAX)%nat →
  (∀ i, role_ok x (RBm k g i) → K x (role_block dev x m (RBm k g i)) ∉ h) → d = blk x m (gd_block x g) →
  mwp (group_alloc k x d (gd_off x g)) f (λ r f', sb f' = sb f ∧ match r with
    | None => cnt x m k g = 0 ∧ at_store m h (store f')
    | Some (n, d') => 0 ≤ g < ngroups x k ∧ 0 ≤ n < per x k ∧ bmbit x m (base x m k g) n = false ∧
        (∀ i, 0 ≤ i < n → bmbit x m (base x m k g) i = true) ∧
        ∃ m1, bit_changed dev x m (base x m k g) n true m1 ∧ at_store m1 h (store f') ∧
          d' = put 2 d (gd_off x g + cnt_off k) (cnt x m k g + delta true)
    end).
Proof.
  intros Hw Hgd Hlt Hf Hsz Hh Hd. pose proof (w_geo _ _ _ Hw) as Hg. pose proof (gd_off_ok x g Hg) as Hoff.
  pose proof (gd_block_ok dev x m Hw g Hgd) as [Hl Hby]. rewrite <- Hd in Hl, Hby.
  assert (Hc : rd 2 d (gd_off x g + cnt_off k) = Ok (cnt x m k g)).
  { rewrite rd_ok; [unfold Ext2Alloc.cnt; by rewrite Hd|..]; pose proof (cnt_off_ok k); simpl; lia. }
  assert (Hb : rd 4 d (gd_off x g + match k with Blocks => GD_block_bitmap | Inodes => GD_inode_bitmap end) = Ok (base x m k g)).
  { rewrite rd_ok; [unfold Ext2Alloc.base; by rewrite Hd|..]; destruct k; unfold GD_block_bitmap, GD_inode_bitmap; simpl; lia. }
  destruct (Z.eqb_spec (cnt x m k g) 0) as [E0|Hne].
  { destruct k; apply mwp_bind; (eapply mwp_lift; [exact Hc|]); rewrite E0; simpl; done. }
  assert (Hk : 0 ≤ g < ngroups x k) by (destruct Hgd; lia).
  pose proof (geo_per x Hg k) as Hper.
  assert (Hcr : 0 ≤ cnt x m k g ≤ per x k) by (rewrite (w_cnt _ _ _ Hw) by done; by apply (clear_range dev x m)).
  assert (Hbm : bitmap_ok dev x m h (base x m k g) (per x k)) by (by apply group_bitmap_ok).
  pose proof (bitmap_alloc_ok dev x (base x m k g) (per x k) f m h Hg ltac:(lia) Hf Hsz Hbm) as Ha.
  assert (Hfin : ∀ r f', (sb f' = sb f ∧ match r with
      | Some n => 0 ≤ n < per x k ∧ bmbit x m (base x m k g) n = false ∧ (∀ i, 0 ≤ i < n → bmbit x m (base x m k g) i = true) ∧
        ∃ m', bit_changed dev x m (base x m k g) n true m' ∧ at_store m' h (store f')
      | None => (∀ i, 0 ≤ i < per x k → bmbit x m (base x m k g) i = true) ∧ at_store m h (store f') end) → ∃ n, r = Some n).
  { intros [n|] f' [_ H]; [eauto|]. destruct H as [Hall _]. destruct Hne. rewrite (w_cnt _ _ _ Hw) by done.
    apply sumZ_zero. intros i Hi. by rewrite Hall. }
  assert (Hw16 : wr 2 d (gd_off x g + cnt_off k) (u16 (cnt x m k g - 1)) = Ok (put 2 d (gd_off x g + cnt_off k) (cnt x m k g + delta true))).
  { unfold u16. rewrite Z.mod_small by lia. rewrite wr_ok; [done|..]; pose proof (cnt_off_ok k); simpl; lia. }
  destruct k; apply mwp_bind; (eapply mwp_lift; [exact Hc|]); apply Z.eqb_neq in Hne; rewrite Hne;
    apply mwp_bind; (eapply mwp_lift; [exact Hb|]); apply mwp_bind; (eapply mwp_mono; [exact Ha|]);
    intros r f' Hr; destruct (Hfin r f' Hr) as [n ->]; destruct Hr as (Hsb & Hn & Hbit & Hfst & m1 & Hch & Hat);
    apply mwp_bind; (eapply mwp_lift; [done|]); apply mwp_bind; (eapply mwp_lift; [exact Hw16|]);
    apply mwp_ret; split; eauto 10.
Qed.

(** Group [q * gds_per_block + gi] has its descriptor in block [q] of the table. *)
Lemma gd_position x q gi :
  geometry x → 0 ≤ gi < gds_per_block x →
  gd_block x (q * gds_per_block x + gi) = gd_start x + q ∧ gd_off x (q * gds_per_block x + gi) = GD_SIZE * gi.
Proof.
  intros Hg Hi. destruct (gpb_ok x Hg) as [? _]. unfold gd_block, gd_off.
  rewrite (Z.add_comm (q * _)), Z.div_add, Z.mod_add, Z.div_small, Z.mod_small by lia. split; [|done]. lia.
Qed.

Lemma scan_groups_ok n x m h q gi d f :
  wfs x m → 0 ≤ q → 0 ≤ gi → gi + Z.of_nat n ≤ gds_per_block x → q * gds_per_block x + gi + Z.of_nat n ≤ ngroups x Blocks →
  at_store m h (store f) → (size h < HELD_MAX)%nat →
  (∀ k g i, role_ok x (RBm k g i) → K x (role_block dev x m (RBm k g i)) ∉ h) → d = blk x m (gd_start x + q) →
  mwp (scan_groups dev n x d gi) f (λ r f', sb f' = sb f ∧ match r with
    | None => (∀ i, gi ≤ i < gi + Z.of_nat n → cnt x m Blocks (q * gds_per_block x + i) = 0) ∧ at_store m h (store f')
    | Some (gi', b, d') => let g := q * gds_per_block x + gi' in
        gi ≤ gi' < gi + Z.of_nat n ∧ 0 ≤ b < per x Blocks ∧ bmbit x m (base x m Blocks g) b = false ∧
        ∃ m1, bit_changed dev x m (base x m Blocks g) b true m1 ∧ at_store m1 h (store f') ∧
          d' = put 2 d (gd_off x g + cnt_off Blocks) (cnt x m Blocks g + delta true)
    end).
Proof.
  intros Hw Hq. pose proof (w_geo _ _ _ Hw) as Hg. destruct (gpb_ok x Hg) as [Hgpb _]. revert gi f.
  induction n as [|n IH]; intros gi f Hgi Hn Hlim Hf Hsz Hh Hd; cbn [scan_groups].
  { apply mwp_ret. split; [done|]. split; [lia|done]. }
  destruct (gd_position x q gi Hg ltac:(lia)) as [Hp1 Hp2].
  apply mwp_bind. rewrite <- Hp2. eapply mwp_mono; [apply (group_alloc_ok Blocks x m h (q * gds_per_block x + gi)); try done|].
  - apply (gd_ok_group x Blocks); [done|]. lia.
  - left. lia.
  - intros i. apply Hh.
  - by rewrite Hp1.
  - intros r f' [Hsb Hr]. destruct r as [[b d']|].
    + destruct Hr as (_ & Hb & Hbit & _ & m1 & Hm1). apply mwp_ret. split; [done|]. split; [lia|]. split; [done|]. split; [done|]. by exists m1.
    + destruct Hr as [H0 Hat]. eapply mwp_mono; [apply IH; try done; lia|]. intros r f'' [Hsb' Hr]. split; [congruence|].
      destruct r as [[[gi' b] d']|].
      * destruct Hr as (? & Hr). split; [lia|done].
      * destruct Hr as [Hall ?]. split; [|done]. intros i Hi. destruct (decide (i = gi)) as [->|]; [done|]. apply Hall. lia.
Qed.

(** An allocated block, and the stores before and after it is zeroed. *)
Definition took x m (b : Z) m2 : Prop :=
  ∃ g n m1, 0 ≤ g < ngroups x Blocks ∧ 0 ≤ n < per x Blocks ∧ b = g * per x Blocks + n ∧
    bmbit x m (base x m Blocks g) n = false ∧ flipped dev x m Blocks g n true m1 m2.

Lemma total_le x : geometry x → total x ≤ block_count x.
Proof.
  intros Hg. pose proof (geo_per x Hg Blocks). unfold total, ngroups, per in *.
  pose proof (Z.mul_div_le (block_count x) (blocks_per_group x) ltac:(lia)). lia.
Qed.

Lemma took_range x m b m2 : geometry x → took x m b m2 → 0 ≤ b < total x ∧ used x m Blocks b = false.
Proof.
  intros Hg (g & n & m1 & Hgr & Hn & -> & Hbit & _). unfold total. split; [nia|]. unfold Ext2Alloc.used.
  rewrite Z.add_comm, Z.div_add, Z.mod_add, Z.div_small, Z.mod_small by lia. done.
Qed.

(** The block is not one of the bookkeeping blocks. *)
Lemma took_free_role x m b m2 r : wfs x m → took x m b m2 → role_ok x r → role_block dev x m r ≠ b.
Proof.
  intros Hw Ht Hr E. destruct (took_range x m b m2 (w_geo _ _ _ Hw) Ht) as [Hb Hu].
  destruct (w_role _ _ _ Hw r Hr) as (_ & _ & H). rewrite E, Hu in H. specialize (H ltac:(lia)). done.
Qed.

Lemma took_blk x m b m2 b' :
  wfs x m → took x m b m2 → 0 < b' < block_count x → ∃ d, m2 !! K x b' = Some d ∧ block_ok x d.
Proof. intros Hw (g & n & m1 & ? & ? & _ & _ & Hfl) Hb. by eapply (flip_blk dev x m Blocks g n true m1). Qed.

Lemma groups_loop_ok fuel x m h q f :
  wfs x m → lets x m h → 0 ≤ q → at_store m h (store f) →
  (∀ g, 0 ≤ g < q * gds_per_block x → g < ngroups x Blocks → cnt x m Blocks g = 0) →
  Z.max 0 (ngroups x Blocks - q * gds_per_block x) < Z.of_nat fuel → q * gds_per_block x < 2 ^ 32 →
  mwp (groups_loop dev fuel x (ngroups x Blocks) (q * gds_per_block x)) f (λ r f', sb f' = sb f ∧ match r with
    | None => (∀ g, 0 ≤ g < ngroups x Blocks → cnt x m Blocks g = 0) ∧ at_store m h (store f')
    | Some b => ∃ m2, took x m b m2 ∧ at_store (<[K x b := replicate (Z.to_nat (block_size x)) 0]> m2) h (store f')
    end).
Proof.
  intros Hw Hlets. pose proof (w_geo _ _ _ Hw) as Hg. destruct (gpb_ok x Hg) as [Hgpb _].
  pose proof (geo_per x Hg Blocks) as Hper. pose proof (geo_count x Hg) as Hcount. pose proof (total_le x Hg) as Htot.
  assert (Hng : ngroups x Blocks ≤ block_count x) by (unfold total in Htot; nia).
  revert q f. induction fuel as [|fuel IH]; intros q f Hq Hf Hz Hfuel Hov; [lia|]. cbn [groups_loop].
  destruct (Z.ltb_spec (q * gds_per_block x) (ngroups x Blocks)) as [Hlt|Hge].
  2:{ apply mwp_ret. split; [done|]. split; [|done]. intros g Hgr. apply Hz; lia. }
  assert (Hrole : role_ok x (RGd q)) by (split; [done|by left]).
  destruct (w_role _ _ _ Hw _ Hrole) as (Hno & Hnsb & _). simpl in Hno, Hnsb.
  pose proof (l_role _ _ _ Hlets _ Hrole) as Hnh. simpl in Hnh.
  destruct (w_blk _ _ _ Hw _ Hno) as (d & Hd & Hdok). destruct Hf as (Hok & Hv & Hhe). pose proof (l_size _ _ _ Hlets) as Hsz.
  rewrite Z.div_mul, u32_small by lia. apply mwp_bind.
  apply mwp_read with (d := d); [done|by rewrite Hhe|rewrite Hhe; lia|lia|by rewrite Hv|].
  intros s1 Hok1 Hv1 Hh1. apply mwp_bind. eapply mwp_lift; [done|]. apply mwp_bind.
  eapply mwp_mono; [apply (scan_groups_ok _ x m ({[K x (gd_start x + q)]} ∪ h) q 0 d); try done; try lia|].
  - split; [done|]. simpl. by rewrite Hv1, Hh1, Hv, Hhe.
  - pose proof (size_union_alt {[K x (gd_start x + q)]} h) as Hsu.
    pose proof (subseteq_size (h ∖ {[K x (gd_start x + q)]}) h ltac:(set_solver)). rewrite size_singleton in Hsu. lia.
  - intros k g i Hr. rewrite not_elem_of_union, not_elem_of_singleton. split; [|by apply (l_role _ _ _ Hlets)].
    intros E%K_inj. by pose proof (w_inj _ _ _ Hw (RBm k g i) (RGd q) Hr Hrole E).
  - unfold Ext2Alloc.blk. by rewrite Hd.
  - intros r f' [Hsb Hr]. destruct r as [[[gi b] d']|].
    + destruct Hr as (Hgi & Hb & Hbit & m1 & Hch & (Hok1' & Hv1' & Hh1') & Hd'). rewrite Z2Nat.id in Hgi by lia.
      destruct (bit_changed_blk dev _ _ _ _ _ _ _ d Hch Hd Hdok) as (d1 & Hd1 & Hdok1).
      apply mwp_bind. apply mwp_write with (d0 := d1); [done|rewrite Hh1'; set_solver|by rewrite Hv1'| |].
      { destruct Hdok, Hdok1. pose proof (gd_off_ok x (q * gds_per_block x + gi) Hg) as Hoff. pose proof (cnt_off_ok Blocks). rewrite Hd', length_put; [lia|..]; simpl in *; lia. }
      intros s2 Hok2 Hv2 Hh2. simpl.
      set (g := q * gds_per_block x + gi) in *.
      destruct (gd_position x q gi Hg ltac:(lia)) as [Hp1 Hp2]. fold g in Hp1, Hp2.
      assert (Hid : u32 (b + u32 (g * blocks_per_group x)) = g * per x Blocks + b).
      { unfold total in Htot. change (blocks_per_group x) with (per x Blocks).
        assert (0 ≤ g * per x Blocks ∧ (g + 1) * per x Blocks ≤ ngroups x Blocks * per x Blocks) by (split; nia).
        rewrite (u32_small (g * per x Blocks)), u32_small by lia. lia. }
      rewrite Hid.
      assert (Ht : took x m (g * per x Blocks + b) (view s2)).
      { exists g, b, m1. split; [lia|]. split; [done|]. split; [done|]. split; [done|]. split; [done|].
        rewrite Hv2, Hv1', Hp1, Hd'. unfold Ext2Alloc.blk. by rewrite Hd. }
      destruct (took_range _ _ _ _ Hg Ht) as [Hrange Hunused].
      assert (g * per x Blocks + b ≠ 0) by (intros E0; rewrite E0 in Hunused, Hrange; rewrite (w_reserved _ _ _ Hw 0) in Hunused by (lia || by left); done).
      destruct (took_blk x m _ (view s2) (g * per x Blocks + b) Hw Ht) as (d0 & Hd0 & Hdok0); [lia|].
      apply mwp_bind. eapply mwp_mono; [apply (block_zero_ok dev x (g * per x Blocks + b) d0 _ (view s2) h); try done; try lia|].
      * split; [done|]. split; [done|]. simpl. rewrite Hh2, Hh1'. apply union_difference_id. done.
      * by apply (l_free _ _ _ Hlets).
      * intros _ f'' [Hsb'' Hat]. apply mwp_ret. split; [simpl in *; congruence|]. by exists (view s2).
    + destruct Hr as [Hall (Hok1' & Hv1' & Hh1')]. rewrite Z2Nat.id in Hall by lia.
      apply mwp_bind. apply mwp_release; [done|rewrite Hh1'; set_solver|]. intros s2 Hok2 Hv2 Hh2.
      rewrite u32_small by lia. replace (q * gds_per_block x + gds_per_block x) with ((q + 1) * gds_per_block x) by lia.
      eapply mwp_mono; [apply (IH (q + 1))|]; try done; try lia.
      * split; [done|]. simpl. split; [congruence|]. rewrite Hh2, Hh1'. by apply union_difference_id.
      * intros g Hg1 Hg2. destruct (Z.lt_ge_cases g (q * gds_per_block x)); [apply Hz; lia|].
        replace g with (q * gds_per_block x + (g - q * gds_per_block x)) by lia. apply Hall. lia.
      * simpl in *. intros r f'' [Hsb'' Hr]. split; [congruence|done].
Qed.

Lemma later_lets t c x m h : lets (later t c x) m h ↔ lets x m h.
Proof. split; intros []; by split. Qed.

Lemma free_range x m k : wf dev x m → 0 ≤ free x k < 2 ^ 31.
Proof.
  intros [Hw Hs]. pose proof (w_geo _ _ _ Hw) as Hg. pose proof (geo_per x Hg k) as Hper. rewrite Hs.
  assert (Hng : 0 ≤ ngroups x k ∧ per x k * ngroups x k < 2 ^ 31).
  { pose proof (geo_count x Hg). pose proof (geo_inodes x Hg).
    destruct k; unfold ngroups, per in *; (split; [apply Z.div_pos; lia|]);
      (eapply Z.le_lt_trans; [apply Z.mul_div_le; lia|lia]). }
  assert (Hc : ∀ g, 0 ≤ g < ngroups x k → 0 ≤ cnt x m k g ≤ per x k)
    by (intros g Hgr; rewrite (w_cnt _ _ _ Hw) by done; by apply (clear_range dev x m)).
  split; [apply sumZ_nonneg; intros; by apply Hc|]. eapply Z.le_lt_trans; [apply (sumZ_le _ _ (per x k)); [lia|]|lia].
  intros; by apply Hc.
Qed.

Lemma same_role x m m' r : same_meta dev x m m' → role_ok x r → role_block dev x m' r = role_block dev x m r.
Proof. intros [Sb _ _ _]. destruct r as [j|k g i]; [done|]. intros [? _]. simpl. by rewrite Sb. Qed.

Lemma same_sum x m m' k : geometry x → same_meta dev x m m' → sumZ (cnt x m' k) (ngroups x k) = sumZ (cnt x m k) (ngroups x k).
Proof. intros Hg Hs. apply sumZ_ext. intros g Hgr. apply (sm_cnt _ _ _ _ Hs). by apply (gd_ok_group x k). Qed.

Lemma same_lets x m m' h : same_meta dev x m m' → lets x m h → lets x m' h.
Proof.
  intros Hs [Lr Ls Lf Lz]. split; [|done| |done].
  - intros r Hr. rewrite (same_role x m m') by done. by apply Lr.
  - intros b Hb. rewrite (sm_used _ _ _ _ Hs) by done. by apply Lf.
Qed.

(** Changing the superblock or a block that is not a bookkeeping block. *)
Lemma sb_write_meta x m d :
  wfs x m → Z.of_nat (length d) = EXT2_SB_SIZE → Forall byte d →
  wfs x (<[SBK dev := d]> m) ∧ same_meta dev x m (<[SBK dev := d]> m).
Proof.
  intros Hw Hl Hb.
  assert (Hr : ∀ r, role_ok x r → <[SBK dev := d]> m !! K x (role_block dev x m r) = m !! K x (role_block dev x m r)).
  { intros r Hr. rewrite lookup_insert_ne; [done|]. destruct (w_role _ _ _ Hw r Hr) as (_ & Hne & _). congruence. }
  split; [|by apply data_same_meta]. apply (data_wfs dev x m); try done.
  - intros b Hbr. destruct (decide (K x b = SBK dev)) as [E|Hne]; [|rewrite lookup_insert_ne by done; by apply (w_blk _ _ _ Hw)].
    rewrite E, lookup_insert_eq. exists d. split; [done|]. split; [|done].
    unfold Ext2Alloc.K, SBK in E. injection E as E _. congruence.
  - rewrite lookup_insert_eq. eauto.
Qed.

Lemma data_write_meta x m b d :
  wfs x m → (∀ r, role_ok x r → role_block dev x m r ≠ b) → K x b ≠ SBK dev → block_ok x d →
  wfs x (<[K x b := d]> m) ∧ same_meta dev x m (<[K x b := d]> m).
Proof.
  intros Hw Hrole Hsb Hd.
  assert (Hr : ∀ r, role_ok x r → <[K x b := d]> m !! K x (role_block dev x m r) = m !! K x (role_block dev x m r)).
  { intros r Hr. rewrite lookup_insert_ne; [done|]. intros E%K_inj. by destruct (Hrole r Hr). }
  split; [|by apply data_same_meta]. apply (data_wfs dev x m); try done.
  - intros b' Hbr. destruct (decide (b' = b)) as [->|Hne]; [rewrite lookup_insert_eq; eauto|].
    rewrite lookup_insert_ne by (intros ?%K_inj; congruence). by apply (w_blk _ _ _ Hw).
  - rewrite lookup_insert_ne by congruence. apply (w_sb _ _ _ Hw).
Qed.

Lemma zero_block_ok x : geometry x → block_ok x (replicate (Z.to_nat (block_size x)) 0).
Proof.
  intros [[? _] _ _ _]. split; [rewrite length_replicate; lia|]. apply Forall_replicate. unfold byte. lia.
Qed.

(** Object [i] is now in use, or not; the bookkeeping is otherwise the same
    and no block but a newly allocated one has changed. *)
Record accounted x m k (i : Z) (v : bool) m' : Prop := {
  ac_used k' i' : 0 ≤ i' < ngroups x k' * per x k' →
    used x m' k' i' = if decide (k' = k ∧ i' = i) then v else used x m k' i';
  ac_role r : role_ok x r → role_block dev x m' r = role_block dev x m r;
  ac_table g : gd_ok x g → table dev x m' g = table dev x m g;
  ac_data b : (v = true → k = Blocks → b ≠ i) → (∀ r, role_ok x r → role_block dev x m r ≠ b) → K x b ≠ SBK dev →
    m' !! K x b = m !! K x b }.

Lemma flipped_accounted x m k g n v m1 m2 :
  wfs x m → 0 ≤ g < ngroups x k → 0 ≤ n < per x k → bmbit x m (base x m k g) n = negb v →
  flipped dev x m k g n v m1 m2 → accounted x m k (g * per x k + n) v m2.
Proof.
  intros Hw Hk Hn Hbit Hf. pose proof (w_geo _ _ _ Hw) as Hg. split.
  - intros k' i' Hi. by eapply (flip_used dev x m k g n v m1 m2).
  - intros r Hr. by eapply flip_role.
  - intros g' Hg'. by eapply flip_table.
  - intros b _ Hb Hsb. eapply flip_other; try done.
    + apply not_eq_sym, (Hb (RGd (g / gds_per_block x))). by apply (gd_ok_group x k).
    + apply not_eq_sym, (Hb (RBm k g (n / bits_per_block x))). by apply bitmap_role.
Qed.

(** Syncing the superblock, before or after. *)
Lemma accounted_sync x m ds k i v m' :
  wfs x m → Z.of_nat (length ds) = EXT2_SB_SIZE → Forall byte ds →
  accounted x (<[SBK dev := ds]> m) k i v m' → accounted x m k i v m'.
Proof.
  intros Hw Hl Hb [Au Ar At Ad]. destruct (sb_write_meta x m ds Hw Hl Hb) as [_ Hs]. split.
  - intros k' i' Hi. rewrite Au by done. by rewrite (sm_used _ _ _ _ Hs).
  - intros r Hr. rewrite Ar by done. by apply same_role.
  - intros g Hgd. rewrite At by done. by apply (sm_table _ _ _ _ Hs).
  - intros b Hv Hr Hsb. rewrite Ad; [by rewrite lookup_insert_ne by congruence|done| |done].
    intros r Hrok. rewrite (same_role x m) by done. by apply Hr.
Qed.

Lemma accounted_sync' x m ds k i v m' :
  wfs x m' → Z.of_nat (length ds) = EXT2_SB_SIZE → Forall byte ds →
  accounted x m k i v m' → accounted x m k i v (<[SBK dev := ds]> m').
Proof.
  intros Hw Hl Hb [Au Ar At Ad]. destruct (sb_write_meta x m' ds Hw Hl Hb) as [_ Hs]. split.
  - intros k' i' Hi. rewrite (sm_used _ _ _ _ Hs) by done. by apply Au.
  - intros r Hr. rewrite (same_role x m') by done. by apply Ar.
  - intros g Hgd. rewrite (sm_table _ _ _ _ Hs) by done. by apply At.
  - intros b Hv Hr Hsb. rewrite lookup_insert_ne by congruence. by apply Ad.
Qed.

Lemma accounted_fill x m b d m' :
  same_meta dev x m' (<[K x b := d]> m') → accounted x m Blocks b true m' → accounted x m Blocks b true (<[K x b := d]> m').
Proof.
  intros Hs [Au Ar At Ad]. split.
  - intros k' i' Hi. rewrite (sm_used _ _ _ _ Hs) by done. by apply Au.
  - intros r Hr. rewrite (same_role x m') by done. by apply Ar.
  - intros g Hgd. rewrite (sm_table _ _ _ _ Hs) by done. by apply At.
  - intros c Hv Hr Hsb. rewrite lookup_insert_ne by (intros ?%K_inj; by destruct Hv). by apply Ad.
Qed.

Definition no_space x (euid : Z) : bool :=
  (free_blocks_count x =? 0) || (free_blocks_count x <? r_blocks_count x) && negb (euid =? 0).

Definition took_block x : Ext2SuperblockData := set_wtime now (set_free_blocks (free_blocks_count x - 1) x).

Lemma block_alloc_ok euid f m h :
  wf dev (sb f) m → at_store m h (store f) → lets (sb f) m h → 0 ≤ now < 2 ^ 32 →
  mwp (ext2_block_alloc dev now euid) f (λ r f', match r with
    | inl e => e = ENOSPC ∧ no_space (sb f) euid = true ∧ f' = f
    | inr b => no_space (sb f) euid = false ∧ sb f' = took_block (sb f) ∧ 0 < b < total (sb f) ∧
        used (sb f) m Blocks b = false ∧ ∃ m', accounted (sb f) m Blocks b true m' ∧
        m' !! K (sb f) b = Some (replicate (Z.to_nat (block_size (sb f))) 0) ∧ at_store m' h (store f') ∧ wf dev (sb f') m'
    end).
Proof.
  intros [Hw Hs] Hat Hlets Hnow. set (x := sb f) in *. pose proof (w_geo _ _ _ Hw) as Hg.
  pose proof (free_range x m Blocks (conj Hw Hs)) as Hfr. pose proof (free_range x m Inodes (conj Hw Hs)) as Hfi.
  change (free x Blocks) with (free_blocks_count x) in Hfr. change (free x Inodes) with (free_inodes_count x) in Hfi.
  pose proof (l_size _ _ _ Hlets) as Hsz. destruct (w_sb _ _ _ Hw) as (d0 & Hd0 & Hl0 & Hb0).
  unfold ext2_block_alloc. apply mwp_bind, mwp_get_sb. fold x. unfold no_space.
  destruct (free_blocks_count x =? 0) eqn:E0; [by apply mwp_ret|].
  destruct ((free_blocks_count x <? r_blocks_count x) && negb (euid =? 0)) eqn:E1; [by apply mwp_ret|].
  apply Z.eqb_neq in E0. apply mwp_bind, mwp_put_sb. rewrite u32_small by lia.
  apply mwp_bind. eapply mwp_mono; [apply (sb_sync_ok dev now d0 _ m h); try done; simpl; try lia; apply Hlets|].
  simpl. intros _ f1 (Hsb1 & ds & Hsy & Hat1).
  destruct (sb_write_meta x m ds Hw (sy_len _ _ _ _ Hsy) (sy_bytes _ _ _ _ Hsy)) as [Hw1 Hs1].
  pose proof (groups_loop_ok (Datatypes.S (Z.to_nat (ngroups x Blocks))) x _ h 0 f1 Hw1
    (same_lets x m _ h Hs1 Hlets) ltac:(lia) Hat1 ltac:(lia) ltac:(lia) ltac:(lia)) as Hgl.
  rewrite Z.mul_0_l in Hgl. apply mwp_bind. eapply mwp_mono; [exact Hgl|].
  intros r f2 [Hsb2 Hr]. destruct r as [b|]; simpl.
  2:{ destruct Hr as [Hz _]. destruct E0. change (free_blocks_count x) with (free x Blocks).
      rewrite Hs, <- (same_sum x m _ Blocks Hg Hs1). by apply sumZ_zero. }
  destruct Hr as (m2 & Ht & Hat2). apply mwp_ret.
  destruct (took_range _ _ _ _ Hg Ht) as [Hbr Hbu]. rewrite (sm_used _ _ _ _ Hs1) in Hbu by done.
  assert (Hnr : ∀ r, role_ok x r → role_block dev x m r ≠ b).
  { intros r Hr. rewrite <- (same_role x m _ r Hs1 Hr). by eapply took_free_role. }
  assert (Hres : b ≠ 0 ∧ K x b ≠ SBK dev).
  { split; intros E; pose proof (w_reserved _ _ _ Hw b Hbr) as Hu; rewrite Hbu in Hu; [discriminate Hu; by left|discriminate Hu; by right]. }
  assert (Hac : accounted x m Blocks b true m2).
  { destruct Ht as (g & n & m1 & ? & ? & -> & ? & Hfl). eapply accounted_sync; [done|apply Hsy..|]. by eapply flipped_accounted. }
  split; [done|]. split; [rewrite Hsb2; exact Hsb1|]. split; [lia|]. split; [done|].
  assert (Hwf2 : wf dev (set_free Blocks (free x Blocks + delta true) x) m2).
  { destruct Ht as (g & n & m1 & ? & ? & _ & ? & Hfl). eapply flip_wf; try done. split; [done|].
    intros k. rewrite (same_sum x m _ k Hg Hs1). apply Hs. }
  destruct Hwf2 as [Hw2 Hs2].
  assert (Hnr2 : ∀ r, role_ok x r → role_block dev x m2 r ≠ b) by (intros r Hr; rewrite (ac_role _ _ _ _ _ _ Hac) by done; by apply Hnr).
  destruct (data_write_meta _ m2 b _ Hw2 Hnr2 (proj2 Hres) (zero_block_ok x Hg)) as [Hw3 Hs3].
  eexists. split; [apply accounted_fill; [by eapply set_free_same|done]|]. split; [by rewrite lookup_insert_eq|]. split; [exact Hat2|].
  rewrite Hsb2, Hsb1. split; [by apply set_wtime_wfs|].
  intros k. specialize (Hs2 k). rewrite <- (same_sum _ m2 _ k) in Hs2 by (apply Hw2 || done). by destruct k.
Qed.

Lemma size_insert_held kk h : (size ({[kk]} ∪ h : gset key) ≤ 1 + size h)%nat.
Proof.
  rewrite size_union_alt, size_singleton. pose proof (subseteq_size (h ∖ {[kk]}) h ltac:(set_solver)). lia.
Qed.

Lemma clear_lt x m b n N : 0 ≤ n < N → bmbit x m b n = true → clear_bits dev x m b N < N.
Proof.
  intros Hn Hbit. unfold clear_bits. set (c := λ i, if bmbit x m b i then 0 else 1).
  pose proof (sumZ_update c (λ i, if decide (i = n) then 1 else c i) N n 1 Hn) as Hu.
  pose proof (sumZ_le (λ i, if decide (i = n) then 1 else c i) N 1) as Hle.
  rewrite Hu in Hle; [lapply Hle; [intros Hle'; lapply Hle'; [lia|]|lia]| |].
  - intros i Hi. unfold c. case_decide; [lia|]. case_match; lia.
  - rewrite decide_True by done. unfold c. rewrite Hbit. done.
  - intros i Hi Hne. by rewrite decide_False.
Qed.

Definition free_object k (i : Z) : M S unit :=
  match k with Blocks => ext2_block_free dev now i | Inodes => ext2_inode_free dev now (i + 1) end.

(** The two ways of freeing are the same program. *)
Definition free_program k x (no off n : Z) : M S unit :=
  o ← buf_read dev no (block_size x);
  d ← lift (deref o "NULL buffer");
  bm ← lift (rd 4 d (off + match k with Blocks => GD_block_bitmap | Inodes => GD_inode_bitmap end));
  ext2_bitmap_free dev x bm n;;
  c ← lift (rd 2 d (off + cnt_off k));
  d ← lift (wr 2 d (off + cnt_off k) (u16 (c + 1)));
  buf_write dev no (block_size x) d;;
  x ← get_sb;
  put_sb (set_free k (u32 (free x k + 1)) x);;
  ext2_sb_sync dev now.

Lemma free_object_program k i f :
  0 ≤ i < 2 ^ 32 →
  free_object k i f = free_program k (sb f) (u32 (gd_block (sb f) (i / per (sb f) k))) (gd_off (sb f) (i / per (sb f) k)) (i mod per (sb f) k) f.
Proof.
  intros Hi. destruct k; [done|]. simpl. unfold ext2_inode_free. rewrite Z.add_simpl_r. unfold mbind at 1, M_bind at 1, get_sb at 1.
  rewrite (u32_small i) by done. done.
Qed.

Definition gave_back k x : Ext2SuperblockData := set_wtime now (set_free k (free x k + 1) x).

Lemma free_object_ok k i f m h :
  wf dev (sb f) m → at_store m h (store f) → (∀ r, role_ok (sb f) r → K (sb f) (role_block dev (sb f) m r) ∉ h) →
  SBK dev ∉ h → (size h + 2 < HELD_MAX)%nat → 0 ≤ now < 2 ^ 32 →
  0 ≤ i < ngroups (sb f) k * per (sb f) k → used (sb f) m k i = true → (k = Blocks → may_free dev (sb f) m i) →
  mwp (free_object k i) f (λ _ f', sb f' = gave_back k (sb f) ∧
    ∃ m', accounted (sb f) m k i false m' ∧ at_store m' h (store f') ∧ wf dev (sb f') m').
Proof.
  intros [Hw Hs] (Hok & Hv & Hhe) Hlr Hlsb Hsz Hnow Hi Hu Hmay. set (x := sb f) in *. pose proof (w_geo _ _ _ Hw) as Hg.
  pose proof (geo_per x Hg k) as Hper. pose proof (geo_count x Hg) as Hcount. pose proof (geo_inodes x Hg) as Hinodes.
  pose proof (free_range x m Blocks (conj Hw Hs)) as Hfb. pose proof (free_range x m Inodes (conj Hw Hs)) as Hfi.
  destruct (group_of x k i Hg Hi) as [Hgr Hn]. set (g := i / per x k) in *. set (n := i mod per x k) in *.
  assert (Hin : i = g * per x k + n) by (unfold g, n; rewrite (Z.div_mod i (per x k)) at 1; lia).
  assert (Hgd : gd_ok x g) by (by apply (gd_ok_group x k)). pose proof (proj2 Hgd) as Hrole.
  destruct (w_role _ _ _ Hw _ Hrole) as (Hno & Hnsb & _). change (role_block dev x m (RGd (g / gds_per_block x))) with (gd_block x g) in *.
  pose proof (Hlr _ Hrole) as Hnh. change (role_block dev x m (RGd (g / gds_per_block x))) with (gd_block x g) in Hnh.
  destruct (w_blk _ _ _ Hw _ Hno) as (d & Hd & Hdok). pose proof (gd_off_ok x g Hg) as Hoff.
  assert (Hblk : blk x m (gd_block x g) = d) by (unfold Ext2Alloc.blk; by rewrite Hd).
  assert (Hu32 : u32 (gd_block x g) = gd_block x g) by (apply u32_small; lia).
  assert (Hrb : rd 4 d (gd_off x g + match k with Blocks => GD_block_bitmap | Inodes => GD_inode_bitmap end) = Ok (base x m k g)).
  { destruct Hdok. rewrite rd_ok; [unfold Ext2Alloc.base; by rewrite Hblk|..]; destruct k; unfold GD_block_bitmap, GD_inode_bitmap; simpl; lia. }
  assert (Hrc : rd 2 d (gd_off x g + cnt_off k) = Ok (cnt x m k g)).
  { destruct Hdok. rewrite rd_ok; [unfold Ext2Alloc.cnt; by rewrite Hblk|..]; pose proof (cnt_off_ok k); simpl; lia. }
  assert (Hcr : 0 ≤ cnt x m k g ≤ per x k) by (rewrite (w_cnt _ _ _ Hw) by done; by apply (clear_range dev x m)).
  assert (Hclt : cnt x m k g < per x k) by (rewrite (w_cnt _ _ _ Hw) by done; eapply clear_lt; [exact Hn|exact Hu]).
  assert (Hi32 : i < 2 ^ 31).
  { eapply Z.lt_le_trans; [apply Hi|]. destruct k; unfold ngroups, per in *; (etrans; [rewrite Z.mul_comm; apply Z.mul_div_le; lia|lia]). }
  unfold mwp. rewrite free_object_program by lia. fold x g n. rewrite Hu32.
  match goal with |- wp (?p f) no_panic ?Q => change (mwp p f (λ a b, Q (a, b))) end.
  unfold free_program. apply mwp_bind.
  apply mwp_read with (d := d); [done|by rewrite Hhe|rewrite Hhe; lia|lia|by rewrite Hv|].
  intros s1 Hok1 Hv1 Hh1. apply mwp_bind. eapply mwp_lift; [done|]. apply mwp_bind. eapply mwp_lift; [exact Hrb|].
  rewrite Hhe in Hh1. pose proof (size_insert_held (K x (gd_block x g)) h) as Hsz1.
  apply mwp_bind. eapply mwp_mono.
  { apply (bitmap_free_ok dev x (base x m k g) (per x k) n _ m ({[K x (gd_block x g)]} ∪ h)); try done.
    - simpl. split; [done|]. by rewrite Hv1, Hh1, Hv.
    - lia.
    - apply group_bitmap_ok; try done. intros j Hr. rewrite not_elem_of_union, not_elem_of_singleton. split; [|by apply Hlr].
      intros E%K_inj. by pose proof (w_inj _ _ _ Hw (RBm k g j) (RGd (g / gds_per_block x)) Hr Hrole E). }
  simpl. intros _ f2 (Hsb2 & m1 & Hch & Hok2 & Hv2 & Hh2). apply mwp_bind. eapply mwp_lift; [exact Hrc|].
  apply mwp_bind. eapply mwp_lift.
  { apply wr_ok; pose proof (cnt_off_ok k); destruct Hdok; simpl; lia. }
  destruct (bit_changed_blk dev _ _ _ _ _ _ _ d Hch Hd Hdok) as (d1 & Hd1 & Hdok1).
  apply mwp_bind. apply mwp_write with (d0 := d1); [done|rewrite Hh2; set_solver|by rewrite Hv2| |].
  { destruct Hdok, Hdok1. pose proof (cnt_off_ok k). rewrite length_put; simpl; lia. }
  intros s3 Hok3 Hv3 Hh3.
  apply mwp_bind, mwp_get_sb. apply mwp_bind, mwp_put_sb. simpl. rewrite Hsb2.
  assert (Hfl : flipped dev x m k g n false m1 (view s3)).
  { split; [done|]. rewrite Hv3, Hv2, Hblk. unfold u16. rewrite Z.mod_small by lia. done. }
  assert (Hbit : bmbit x m (base x m k g) n = negb false) by exact Hu.
  assert (Hfree : false = false → k = Blocks → may_free dev x m (g * per x k + n)) by (rewrite <- Hin; auto).
  pose proof (flip_wf dev x m k g n false m1 (view s3) (conj Hw Hs) Hgr Hn Hbit Hfl Hfree) as [Hw3 Hs3].
  pose proof (flipped_accounted x m k g n false m1 (view s3) Hw Hgr Hn Hbit Hfl) as Hac. rewrite <- Hin in Hac.
  assert (Hfk : 0 ≤ free x k < 2 ^ 31) by (by destruct k). fold x. rewrite (u32_small (free x k + 1)) by lia.
  destruct (w_sb _ _ _ Hw3) as (d0 & Hd0 & Hl0 & Hb0).
  eapply mwp_mono; [apply (sb_sync_ok dev now d0 _ (view s3) h); try done; try lia|].
  - split; [done|]. split; [done|]. simpl. rewrite Hh3, Hh2. by apply union_difference_id.
  - destruct k; simpl; unfold free in *; lia.
  - destruct k; simpl; unfold free in *; lia.
  - simpl. intros _ f4 (Hsb4 & ds & Hsy & Hat4). split; [done|]. eexists. split; [|split; [exact Hat4|]].
    + apply accounted_sync'; [|apply Hsy..|done]. eapply flip_wfs; eauto.
    + rewrite Hsb4. destruct (sb_write_meta _ (view s3) ds Hw3 (sy_len _ _ _ _ Hsy) (sy_bytes _ _ _ _ Hsy)) as [Hw4 Hs4].
      split; [by apply set_wtime_wfs|]. intros k'. specialize (Hs3 k'). rewrite <- (same_sum _ (view s3) _ k') in Hs3 by (apply Hw3 || done).
      destruct k, k'; exact Hs3.
Qed.

(** Without space the error is ENOSPC. *)
Lemma block_alloc_cases euid f :
  let x := sb f in let m := view (store f) in
  wf dev x m → bok (store f) → lets x m (held (store f)) → 0 ≤ now < 2 ^ 32 →
  ∃ r f', ext2_block_alloc dev now euid f = Ok (r, f') ∧
    if no_space x euid then r = inl ENOSPC ∧ f' = f
    else ∃ b, r = inr b ∧ 0 < b < total x ∧ used x m Blocks b = false ∧ sb f' = took_block x ∧
      accounted x m Blocks b true (view (store f')) ∧
      view (store f') !! K x b = Some (replicate (Z.to_nat (block_size x)) 0) ∧
      wf dev (sb f') (view (store f')) ∧ held (store f') = held (store f).
Proof.
  intros x m Hwf Hok Hl Hnow.
  destruct (mwp_run _ _ _ (block_alloc_ok euid f m (held (store f)) Hwf (conj Hok (conj eq_refl eq_refl)) Hl Hnow))
    as (r & f' & E & Hr). exists r, f'. split; [done|]. destruct r as [e|b].
  - destruct Hr as (-> & Hns & ->). unfold x. by rewrite Hns.
  - destruct Hr as (Hns & Hsb & Hb & Hu & m' & Hac & Hz & (_ & Hv & Hh) & Hwf'). unfold x. rewrite Hns.
    exists b. rewrite Hv. done.
Qed.

(** C30: on a consistent file system [ext2_block_alloc] returns an error, and
    changes nothing, exactly when no block is free or only reserved ones are
    and the caller is not the superuser.  Otherwise it returns a block that was
    free and is not a bookkeeping block, now marked used and filled with zeros;
    no other block is marked or, bookkeeping apart, changed, and the counts in
    the group and the superblock are exact again. *)
Theorem ext2_block_alloc_spec euid f :
  let x := sb f in let m := view (store f) in
  wf dev x m → bok (store f) → lets x m (held (store f)) → 0 ≤ now < 2 ^ 32 →
  ∃ r f', ext2_block_alloc dev now euid f = Ok (r, f') ∧
    match r with
    | inl e => no_space x euid = true ∧ 0 < e ∧ f' = f
    | inr b => no_space x euid = false ∧ 0 < b < total x ∧ used x m Blocks b = false ∧ sb f' = took_block x ∧
        accounted x m Blocks b true (view (store f')) ∧
        view (store f') !! K x b = Some (replicate (Z.to_nat (block_size x)) 0) ∧
        wf dev (sb f') (view (store f')) ∧ held (store f') = held (store f)
    end.
Proof.
  intros x m Hwf Hok Hl Hnow. destruct (block_alloc_cases euid f Hwf Hok Hl Hnow) as (r & f' & E & H). exists r, f'. split; [done|].
  fold x in H. destruct (no_space x euid).
  - by destruct H as [-> ->].
  - destruct H as (b & -> & H). split; [done|exact H].
Qed.

(** Freeing a block, or an inode, that is in use and is not part of the
    bookkeeping makes exactly that object free, adds one to the counts of its
    group and of the superblock, changes no other block, and leaves the file
    system consistent. *)
Theorem ext2_free_spec k i f :
  let x := sb f in let m := view (store f) in
  wf dev x m → bok (store f) → lets x m (held (store f)) → 0 ≤ now < 2 ^ 32 →
  0 ≤ i < ngroups x k * per x k → used x m k i = true → (k = Blocks → may_free dev x m i) →
  ∃ f', match k with Blocks => ext2_block_free dev now i | Inodes => ext2_inode_free dev now (i + 1) end f = Ok (tt, f') ∧
    sb f' = gave_back k x ∧ accounted x m k i false (view (store f')) ∧
    wf dev (sb f') (view (store f')) ∧ held (store f') = held (store f).
Proof.
  intros x m Hwf Hok Hl Hnow Hi Hu Hmay.
  destruct (mwp_run _ _ _ (free_object_ok k i f m (held (store f)) Hwf (conj Hok (conj eq_refl eq_refl))
    (l_role _ _ _ Hl) (l_sb _ _ _ Hl) (l_size _ _ _ Hl) Hnow Hi Hu Hmay)) as ([] & f' & E & Hsb & m' & Hac & (_ & <- & Hh) & Hwf').
  exists f'. split; [|done]. destruct k; exact E.
Qed.

End alloc.

End Ext2Alloc.
