(* ===== verification/Ext2Inode.v ===== *)
(** ext2: inodes and the blocks of a file (kernel/fs/ext2_inode.c).

    An inode names fifteen blocks: twelve of data and three roots of trees of
    pointer blocks, of depth one, two and three.  [ext2_inode_get_block] finds
    the block of a file at a given index, and on request allocates it with the
    pointer blocks on the way.  The theorems are about the map from indices to
    blocks this gives: looking up follows it and changes nothing, and
    allocating adds exactly one entry to it. *)

From S2P Require Import Prelude Store Bytes Ext2Base Ext2Alloc.
Import Bytes Ext2Base Ext2Alloc.
#[local] Open Scope Z_scope.

Module Ext2Inode.

Definition EIO : Z := 5.
Definition EXT2_MAX_DIRECT_BLOCKS : Z := 12.

(** struct Inode of kernel/fs/fs.h with its struct Ext2InodeExtra. *)
Record Inode := MkInode {
  ino : Z;
  mode : Z;
  nlink : Z;
  uid : Z;
  gid : Z;
  isize : Z;
  atime : Z;
  mtime : Z;
  ctime : Z;
  rdev : Z;
  idirty : bool;                (* FS_INODE_DIRTY *)
  blocks : Z;
  block : list Z }.

Definition set_block (n : Z) (id : Z) (i : Inode) : Inode :=
  MkInode (ino i) (mode i) (nlink i) (uid i) (gid i) (isize i) (atime i) (mtime i) (ctime i) (rdev i) (idirty i)
    (blocks i) (<[Z.to_nat n := id]> (block i)).
Definition add_blocks (inc : Z) (i : Inode) : Inode :=
  MkInode (ino i) (mode i) (nlink i) (uid i) (gid i) (isize i) (atime i) (mtime i) (ctime i) (rdev i) (idirty i)
    (u32 (blocks i + inc)) (block i).
Definition set_idirty (i : Inode) : Inode :=
  MkInode (ino i) (mode i) (nlink i) (uid i) (gid i) (isize i) (atime i) (mtime i) (ctime i) (rdev i) true (blocks i) (block i).
Definition set_rdev (r : Z) (i : Inode) : Inode :=
  MkInode (ino i) (mode i) (nlink i) (uid i) (gid i) (isize i) (atime i) (mtime i) (ctime i) r (idirty i) (blocks i) (block i).

(** Memory that holds [src] and can be read. *)
Definition readable (src : list Z) (total n : Z) : list Z := slice src (Z.to_nat total) (Z.to_nat n).

Section ops.
Context {S : Type} `{!BlockOps S} (dev now euid : Z).
Implicit Types (x : Ext2SuperblockData) (i : Inode) (d : list Z).

(** ** The inode table *)

(** Block and offset of an inode; block 0 when the descriptor cannot be read. *)
Definition ext2_locate_inode (ino : Z) : M S (Z * Z) :=
  x ← get_sb;
  let inodes_per_block := block_size x / inode_size x in
  let block_group := u32 (ino - 1) / inodes_per_group x in
  let no := u32 (gd_start x + block_group / gds_per_block x) in
  o ← buf_read dev no (block_size x);
  match o with
  | None => mret (0, 0)
  | Some d =>
      let local := u32 (ino - 1) mod inodes_per_group x in
      t ← lift (rd 4 d (GD_SIZE * (block_group mod gds_per_block x) + GD_inode_table));
      buf_release dev no (block_size x);;
      mret (u32 (t + local / inodes_per_block), local mod inodes_per_block * inode_size x)
  end.

(** [memmove(extra->block, raw->block, sizeof(extra->block))]. *)
Fixpoint read_words (n : nat) d (off : Z) : outcome (list Z) :=
  match n with
  | O => Ok []
  | Datatypes.S n => w ← rd 4 d off; ws ← read_words n d (off + 4); Ok (w :: ws)
  end.
Fixpoint write_words (ws : list Z) d (off : Z) : outcome (list Z) :=
  match ws with
  | [] => Ok d
  | w :: ws => d ← wr 4 d off w; write_words ws d (off + 4)
  end.

Definition S_ISCHR (mode : Z) : bool := Z.land mode EXT2_S_IFMASK =? EXT2_S_IFCHR.
Definition S_ISBLK (mode : Z) : bool := Z.land mode EXT2_S_IFMASK =? EXT2_S_IFBLK.

(** ** The blocks of a file *)

Definition blocks_inc x : Z := Z.shiftl 2 (log_block_size x).
Definition shift_per_lvl x : Z := 8 + log_block_size x.

(** Allocate a block for [i]; 0 on failure. *)
Definition new_block i : M S (Z * Inode) :=
  x ← get_sb;
  r ← ext2_block_alloc dev now euid;
  match r with
  | inl _ => mret (0, i)
  | inr id => mret (id, set_idirty (add_blocks (blocks_inc x) i))
  end.

(** The entry [n] of the inode's own table, allocated on request. *)
Definition own_block i (n : Z) (alloc : bool) : M S (Z * Inode) :=
  id ← lift (deref (block i !! Z.to_nat n) "access outside the array");
  if negb (id =? 0) then mret (id, i) else
  if negb alloc then mret (0, i) else
  '(id, i) ← new_block i;
  if id =? 0 then mret (0, i) else mret (id, set_block n id i).

(** The level of the tree that holds index [n], the index inside it and the
    shift of the index in its root. *)
Fixpoint find_level (k : nat) x (lvl n lvl_limit lvl_idx_shift : Z) : option (Z * Z * Z) :=
  match k with
  | O => None
  | Datatypes.S k =>
      if n <? lvl_limit then Some (lvl, n, lvl_idx_shift)
      else find_level k x (lvl + 1) (n - lvl_limit) (u32 (Z.shiftl lvl_limit (shift_per_lvl x)))
             (lvl_idx_shift + shift_per_lvl x)
  end.

(** Follow [k] pointer blocks from block [id]. *)
Fixpoint chain (k : nat) i (id n lvl_idx_shift : Z) (alloc : bool) : M S (Z * Inode) :=
  match k with
  | O => mret (id, i)
  | Datatypes.S k =>
      x ← get_sb;
      o ← buf_read dev id (block_size x);
      match o with
      | None => mret (0, i)
      | Some d =>
          let idx := Z.land (Z.shiftr n lvl_idx_shift) (u32 (Z.shiftl 1 (shift_per_lvl x)) - 1) in
          next ← lift (rd 4 d (4 * idx));
          if negb (next =? 0) then
            buf_release dev id (block_size x);;
            chain k i next n (u32 (lvl_idx_shift - shift_per_lvl x)) alloc
          else if negb alloc then buf_release dev id (block_size x);; mret (0, i)
          else
            '(next, i) ← new_block i;
            if next =? 0 then buf_release dev id (block_size x);; mret (0, i) else
            d ← lift (wr 4 d (4 * idx) next);
            buf_write dev id (block_size x) d;;
            chain k i next n (u32 (lvl_idx_shift - shift_per_lvl x)) alloc
      end
  end.

Definition ext2_inode_get_block i (n : Z) (alloc : bool) : M S (Z * Inode) :=
  x ← get_sb;
  if n <? EXT2_MAX_DIRECT_BLOCKS then own_block i n alloc else
  match find_level 3 x 0 (n - EXT2_MAX_DIRECT_BLOCKS) (u32 (Z.shiftl 1 (shift_per_lvl x))) 0 with
  | None => mret (0, i)
  | Some (lvl, n, shift) =>
      '(id, i) ← own_block i (EXT2_MAX_DIRECT_BLOCKS + lvl) alloc;
      if id =? 0 then mret (0, i) else chain (Z.to_nat (lvl + 1)) i id n shift alloc
  end.

(** ** Reading and writing *)

(** The bytes read, or the error. *)
Fixpoint read_loop (fuel : nat) i (nbyte off total : Z) : M S ((Z + list Z) * Inode) :=
  match fuel with
  | O => panic "out of fuel"
  | Datatypes.S fuel =>
      if total <? nbyte then
        x ← get_sb;
        '(block_id, i) ← ext2_inode_get_block i (off / block_size x) false;
        let n := Z.min (nbyte - total) (block_size x - off mod block_size x) in
        if block_id =? 0 then panic "zero block" else
        o ← buf_read dev block_id (block_size x);
        match o with
        | None => mret (inl EIO, i)
        | Some d =>
            let part := slice d (Z.to_nat (off mod block_size x)) (Z.to_nat n) in
            buf_release dev block_id (block_size x);;
            '(r, i) ← read_loop fuel i nbyte (off + n) (total + n);
            mret (match r with inl e => inl e | inr l => inr (part ++ l) end, i)
        end
      else mret (inr [], i)
  end.
Definition ext2_read_data i (nbyte off : Z) : M S ((Z + list Z) * Inode) := read_loop (Datatypes.S (Z.to_nat nbyte)) i nbyte off 0.

(** [ext2_read]: the same loop, with the bytes handed to a request. *)
Section request.
Context {R : Type} (request_write : R → list Z → Z * R).
Fixpoint read_request_loop (fuel : nat) (req : R) i (nbyte off total : Z) : M S (Z * R * Inode) :=
  match fuel with
  | O => panic "out of fuel"
  | Datatypes.S fuel =>
      if total <? nbyte then
        x ← get_sb;
        '(block_id, i) ← ext2_inode_get_block i (off / block_size x) false;
        let n := Z.min (nbyte - total) (block_size x - off mod block_size x) in
        if block_id =? 0 then panic "zero block req" else
        o ← buf_read dev block_id (block_size x);
        match o with
        | None => mret (- EIO, req, i)
        | Some d =>
            let '(r, req) := request_write req (slice d (Z.to_nat (off mod block_size x)) (Z.to_nat n)) in
            buf_release dev block_id (block_size x);;
            if r <? 0 then mret (r, req, i) else read_request_loop fuel req i nbyte (off + n) (total + n)
        end
      else mret (total, req, i)
  end.
Definition ext2_read (req : R) i (nbyte off : Z) : M S (Z * R * Inode) :=
  read_request_loop (Datatypes.S (Z.to_nat nbyte)) req i nbyte off 0.
End request.

(** [copy_in total n]: the bytes that [vm_space_copy_in] moves from [va + total] to
    the block, all [n] of them, or fewer when it fails: its result is ignored,
    and the rest of the block keeps what it had. *)
Fixpoint write_loop (fuel : nat) i (copy_in : Z → Z → list Z) (nbyte off total : Z) : M S ((Z + Z) * Inode) :=
  match fuel with
  | O => panic "out of fuel"
  | Datatypes.S fuel =>
      if total <? nbyte then
        x ← get_sb;
        '(block_id, i) ← ext2_inode_get_block i (off / block_size x) true;
        let n := Z.min (nbyte - total) (block_size x - off mod block_size x) in
        if block_id =? 0 then mret (inl ENOMEM, i) else
        o ← buf_read dev block_id (block_size x);
        match o with
        | None => mret (inl EIO, i)
        | Some d =>
            let d := splice d (Z.to_nat (off mod block_size x)) (copy_in total n) in
            buf_write dev block_id (block_size x) d;;
            write_loop fuel i copy_in nbyte (off + n) (total + n)
        end
      else mret (inr total, i)
  end.
Definition ext2_write_data i (copy_in : Z → Z → list Z) (nbyte off : Z) : M S ((Z + Z) * Inode) :=
  write_loop (Datatypes.S (Z.to_nat nbyte)) i copy_in nbyte off 0.

(** ** Inodes on disk *)

Definition ext2_inode_read (inum : Z) (rdev0 : Z) (dirty0 : bool) : M S (Z + Inode) :=
  x ← get_sb;
  '(no, off) ← ext2_locate_inode inum;
  o ← buf_read dev no (block_size x);
  match o with
  | None => mret (inl EIO)
  | Some d =>
      md ← lift (rd 2 d (off + IN_mode));
      nl ← lift (rd 2 d (off + IN_links_count));
      u ← lift (rd 2 d (off + IN_uid));
      g ← lift (rd 2 d (off + IN_gid));
      sz ← lift (rd 4 d (off + IN_size));
      at_ ← lift (rd 4 d (off + IN_atime));
      mt ← lift (rd 4 d (off + IN_mtime));
      ct ← lift (rd 4 d (off + IN_ctime));
      bl ← lift (rd 4 d (off + IN_blocks));
      bs ← lift (read_words 15 d (off + IN_block));
      let i := MkInode inum md nl u g sz at_ mt ct rdev0 dirty0 bl bs in
      i ← (if S_ISCHR md || S_ISBLK md then
             '(r, i) ← ext2_read_data i SIZEOF_DEV_T 0;
             mret (match r with inr l => set_rdev (le l) i | inl _ => i end)
           else mret i);
      buf_release dev no (block_size x);;
      mret (inr i)
  end.

Definition ext2_inode_write i : M S (Z + unit) :=
  x ← get_sb;
  '(no, off) ← ext2_locate_inode (ino i);
  o ← buf_read dev no (block_size x);
  match o with
  | None => mret (inl EIO)
  | Some d =>
      d ← lift (wr 2 d (off + IN_mode) (u16 (mode i)));
      d ← lift (wr 2 d (off + IN_links_count) (u16 (nlink i)));
      d ← lift (wr 2 d (off + IN_uid) (u16 (uid i)));
      d ← lift (wr 2 d (off + IN_gid) (u16 (gid i)));
      d ← lift (wr 4 d (off + IN_size) (u32 (isize i)));
      d ← lift (wr 4 d (off + IN_atime) (u32 (atime i)));
      d ← lift (wr 4 d (off + IN_mtime) (u32 (mtime i)));
      d ← lift (wr 4 d (off + IN_ctime) (u32 (ctime i)));
      d ← lift (wr 4 d (off + IN_blocks) (blocks i));
      d ← lift (write_words (block i) d (off + IN_block));
      buf_write dev no (block_size x) d;;
      mret (inr tt)
  end.

(** ** Truncation *)

Definition sub_blocks x i : Inode := add_blocks (- blocks_inc x) i.

(** [1U << (shift_per_lvl * lvl)]. *)
Definition lvl_inc x (lvl : Z) : Z := u32 (Z.shiftl 1 (shift_per_lvl x * lvl)).

(** [ext2_trunc_indirect] at level [lvl = k - 1] on the pointer [id]; the new
    value of the pointer is returned.  [go] is the loop over the entries [n] of
    a pointer block [d]. *)
Fixpoint ext2_trunc_indirect (k : nat) i (id to_ : Z) : M S (Z * Inode) :=
  if id =? 0 then mret (0, i) else
  x ← get_sb;
  i ← match k with
      | O => mret i
      | Datatypes.S k =>
          let inc := lvl_inc x (Z.of_nat k) in
          let lim := u32 (Z.shiftl inc (shift_per_lvl x)) in
          o ← buf_read dev id (block_size x);
          d ← lift (deref o "NULL buffer");
          '(d, i) ← (fix go (fuel : nat) i d (n : Z) : M S (list Z * Inode) :=
             match fuel with
             | O => panic "out of fuel"
             | Datatypes.S fuel =>
                 if n <? lim then
                   w ← lift (rd 4 d (4 * (n / inc)));
                   '(w, i) ← ext2_trunc_indirect k i w (n mod inc);
                   d ← lift (wr 4 d (4 * (n / inc)) w);
                   go fuel i d (u32 ((n + inc) / inc * inc))
                 else mret (d, i)
             end) (Datatypes.S (Z.to_nat (lim / inc))) i d to_;
          buf_write dev id (block_size x) d;;
          mret i
      end;
  if to_ =? 0 then
    ext2_block_free dev now id;;
    mret (0, sub_blocks x i)
  else mret (id, i).

Fixpoint trunc_direct (fuel : nat) i (n end_ : Z) : M S (Z * Inode) :=
  match fuel with
  | O => panic "out of fuel"
  | Datatypes.S fuel =>
      if (n <? end_) && (n <? EXT2_MAX_DIRECT_BLOCKS) then
        x ← get_sb;
        id ← lift (deref (block i !! Z.to_nat n) "access outside the array");
        if negb (id =? 0) then
          ext2_block_free dev now id;;
          trunc_direct fuel (sub_blocks x (set_block n 0 i)) (n + 1) end_
        else trunc_direct fuel i (n + 1) end_
      else mret (n, i)
  end.

(** The loop over the three trees, [k] of them left. *)
Fixpoint trunc_levels (k : nat) i (lvl n end_ lvl_start lvl_limit : Z) : M S Inode :=
  match k with
  | O => mret i
  | Datatypes.S k =>
      if n <? end_ then
        x ← get_sb;
        let lvl_end := u32 (lvl_start + lvl_limit) in
        i ← (if n <=? lvl_end then
               id ← lift (deref (block i !! Z.to_nat (EXT2_MAX_DIRECT_BLOCKS + lvl)) "access outside the array");
               '(id, i) ← ext2_trunc_indirect (Z.to_nat (lvl + 1)) i id (u32 (n - lvl_start));
               mret (set_block (EXT2_MAX_DIRECT_BLOCKS + lvl) id i)
             else mret i);
        trunc_levels k i (lvl + 1) lvl_end end_ (u32 (lvl_start + lvl_limit)) (u32 (Z.shiftl lvl_limit (shift_per_lvl x)))
      else mret i
  end.

Definition ext2_trunc i (length : Z) : M S Inode :=
  x ← get_sb;
  let n := (length + block_size x - 1) / block_size x in
  let end_ := (isize i + block_size x - 1) / block_size x in
  '(n, i) ← trunc_direct 13 i n end_;
  trunc_levels 3 i 0 n end_ EXT2_MAX_DIRECT_BLOCKS (u32 (Z.shiftl 1 (shift_per_lvl x))).

End ops.

(** ** The tree of a file *)

Section tree.
Context (dev : Z).
Implicit Types (x : Ext2SuperblockData) (m : gmap key (list Z)) (B : list Z) (ix : list Z).

Notation K := (K dev).
Notation blk := (blk dev).
Notation used := (used dev).
Notation wf := (wf dev).
Notation wfs := (wfs dev).

(** Block sizes of 1, 2 and 4 kilobytes. *)
Definition sized x : Prop := 0 ≤ log_block_size x ≤ 2 ∧ block_size x = 1024 * 2 ^ log_block_size x.

(** Pointers in a block. *)
Definition ppb x : Z := 2 ^ shift_per_lvl x.

Definition word x m (id idx : Z) : Z := fld 4 (blk x m id) (4 * idx).

(** Follow pointers from block [id]; 0 where there is none. *)
Fixpoint walk x m (id : Z) ix : Z :=
  match ix with
  | [] => id
  | i :: ix => if id =? 0 then 0 else walk x m (word x m id i) ix
  end.

Definition slot_id B (slot : Z) : Z := default 0 (B !! Z.to_nat slot).
Definition depth (slot : Z) : nat := Z.to_nat (slot - 11).

(** A place in the tables of a file: an entry of the inode, then indices. *)
Definition pos_ok x (slot : Z) ix : Prop :=
  0 ≤ slot < 15 ∧ (length ix ≤ depth slot)%nat ∧ Forall (λ i, 0 ≤ i < ppb x) ix.

Definition at_pos x m B (slot : Z) ix : Z := walk x m (slot_id B slot) ix.

(** A block that is in use for the contents of a file. *)
Definition file_block x m (b : Z) : Prop :=
  0 < b < total x ∧ used x m Blocks b = true ∧ (∀ r, role_ok x r → role_block dev x m r ≠ b) ∧ K x b ≠ SBK dev.

Record tree_ok x m B : Prop := {
  t_len : length B = 15%nat;
  t_ids slot ix : pos_ok x slot ix → at_pos x m B slot ix ≠ 0 → file_block x m (at_pos x m B slot ix);
  t_inj slot ix slot' ix' : pos_ok x slot ix → pos_ok x slot' ix' → at_pos x m B slot ix ≠ 0 →
    at_pos x m B slot ix = at_pos x m B slot' ix' → slot = slot' ∧ ix = ix' }.

Lemma walk_0 x m ix : walk x m 0 ix = 0.
Proof. by destruct ix. Qed.

Lemma walk_snoc x m id ix i :
  walk x m id (ix ++ [i]) = if walk x m id ix =? 0 then 0 else word x m (walk x m id ix) i.
Proof.
  revert id. induction ix as [|j ix IH]; intros id; simpl.
  - done.
  - destruct (id =? 0); [done|]. apply IH.
Qed.

Lemma walk_app x m id ix js : walk x m id (ix ++ js) = walk x m (walk x m id ix) js.
Proof.
  revert id. induction ix as [|j ix IH]; intros id; simpl; [done|].
  destruct (Z.eqb_spec id 0); [by rewrite walk_0|]. apply IH.
Qed.

Lemma pos_ok_prefix x slot ix js : pos_ok x slot (ix ++ js) → pos_ok x slot ix.
Proof. intros (? & Hl & Hf). rewrite length_app in Hl. apply Forall_app in Hf as [? _]. split; [done|]. split; [lia|done]. Qed.

(** Pointer blocks that keep their contents keep the tree. *)
Lemma walk_frame x m m' B :
  (∀ slot ix, pos_ok x slot ix → (length ix < depth slot)%nat → at_pos x m B slot ix ≠ 0 →
    blk x m' (at_pos x m B slot ix) = blk x m (at_pos x m B slot ix)) →
  ∀ slot ix, pos_ok x slot ix → at_pos x m' B slot ix = at_pos x m B slot ix.
Proof.
  intros Hf slot ix. induction ix as [|i ix IH] using rev_ind; intros Hp; [done|].
  pose proof (pos_ok_prefix _ _ _ _ Hp) as Hp'. unfold at_pos in *. rewrite !walk_snoc, (IH Hp').
  destruct (Z.eqb_spec (walk x m (slot_id B slot) ix) 0) as [|Hne]; [done|].
  unfold word. rewrite Hf; [done|done| |done]. destruct Hp as (_ & Hl & _). rewrite length_app in Hl. simpl in Hl. lia.
Qed.

(** Linking the fresh block [b], full of zeros, at the empty place [pos]: the
    entry of the inode, or a word of the pointer block before it, is set. *)
Definition linked x m B (slot : Z) ix (b : Z) m' B' : Prop :=
  match last ix with
  | None => m' = m ∧ B' = <[Z.to_nat slot := b]> B
  | Some idx => B' = B ∧ let p := at_pos x m B slot (removelast ix) in
      p ≠ 0 ∧ m' = <[K x p := put 4 (blk x m p) (4 * idx) b]> m
  end.

Section link.
Context x m B (slot : Z) ix (b : Z) m' B'.
Context (Hsz : block_size x = 4 * ppb x) (Hbk : ∀ c, 0 < c < total x → block_ok x (blk x m c)).
Context (Ht : tree_ok x m B) (Hp : pos_ok x slot ix) (H0 : at_pos x m B slot ix = 0).
Context (Hb : 0 < b < total x) (Hb32 : total x < 2 ^ 32) (Hzero : ∀ idx, 0 ≤ idx < ppb x → word x m b idx = 0).
Context (Hfresh : ∀ slot' ix', pos_ok x slot' ix' → at_pos x m B slot' ix' ≠ b) (Hl : linked x m B slot ix b m' B').

Lemma link_blk c : (∀ js idx, ix = js ++ [idx] → c ≠ at_pos x m B slot js) → blk x m' c = blk x m c.
Proof.
  intros Hc. unfold linked in Hl. destruct (last ix) as [idx|] eqn:E; [|by destruct Hl as [-> _]].
  apply last_Some in E as [js ->]. rewrite removelast_last in Hl. destruct Hl as (_ & _ & ->).
  rewrite blk_insert, decide_False; [done|]. by apply (Hc js idx).
Qed.

Lemma link_root s : 0 ≤ s < 15 →
  slot_id B' s = if decide (s = slot ∧ ix = []) then b else slot_id B s.
Proof.
  intros Hs. pose proof (t_len _ _ _ Ht) as HB. destruct Hp as (Hslot & _). unfold linked in Hl. destruct (last ix) as [idx|] eqn:E.
  - destruct Hl as [-> _]. rewrite decide_False; [done|]. intros [_ ->]. done.
  - apply last_None in E as ->. destruct Hl as [_ ->]. unfold slot_id. case_decide as E.
    + destruct E as [-> _]. rewrite list_lookup_insert_eq by lia. done.
    + rewrite list_lookup_insert_ne; [done|]. intros E'. apply E. split; [lia|done].
Qed.

Lemma link_word slot' ix' i :
  pos_ok x slot' (ix' ++ [i]) → at_pos x m B slot' ix' ≠ 0 →
  word x m' (at_pos x m B slot' ix') i =
    if decide (slot' = slot ∧ ix' ++ [i] = ix) then b else word x m (at_pos x m B slot' ix') i.
Proof.
  intros Hp' Hne. pose proof (pos_ok_prefix _ _ _ _ Hp') as Hpp.
  assert (Hi : 0 ≤ i < ppb x) by (destruct Hp' as (_ & _ & Hf); apply Forall_app in Hf as [_ Hf]; by inversion Hf).
  unfold linked in Hl. destruct (last ix) as [idx|] eqn:E.
  2:{ destruct Hl as [-> _]. rewrite decide_False; [done|]. intros [_ E']. rewrite <- E' in E. by rewrite last_snoc in E. }
  apply last_Some in E as [js Ejs]. rewrite Ejs, removelast_last in Hl. destruct Hl as (_ & Hpn & ->).
  assert (Hj : pos_ok x slot js) by (rewrite Ejs in Hp; by eapply pos_ok_prefix).
  assert (Hix : 0 ≤ idx < ppb x) by (rewrite Ejs in Hp; destruct Hp as (_ & _ & Hf); apply Forall_app in Hf as [_ Hf]; by inversion Hf).
  unfold word. rewrite blk_insert. destruct (decide (at_pos x m B slot' ix' = at_pos x m B slot js)) as [Eq|Hneq].
  - destruct (t_inj _ _ _ Ht slot' ix' slot js Hpp Hj Hne Eq) as [-> ->].
    pose proof (t_ids _ _ _ Ht slot js Hj Hpn) as ((? & ?) & _).
    destruct (Hbk (at_pos x m B slot js) ltac:(lia)) as [Hlen _].
    destruct (decide (i = idx)) as [->|Hii].
    + rewrite decide_True by (by rewrite Ejs). rewrite fld_put; simpl; lia || done.
    + rewrite decide_False by (rewrite Ejs; intros [_ [_ ?]%app_inj_2]; [congruence|done]).
      apply fld_put_other; simpl; lia.
  - rewrite decide_False; [done|]. intros [-> E']. rewrite Ejs in E'. apply app_inj_2 in E' as [-> _]; done.
Qed.

(** The place now holds [b], and every other place what it held. *)
Lemma link_at slot' ix' :
  pos_ok x slot' ix' → at_pos x m' B' slot' ix' = if decide (slot' = slot ∧ ix' = ix) then b else at_pos x m B slot' ix'.
Proof.
  induction ix' as [|i ix' IH] using rev_ind; intros Hp'.
  { unfold at_pos. simpl. rewrite link_root by apply Hp'. apply decide_ext. naive_solver. }
  pose proof (pos_ok_prefix _ _ _ _ Hp') as Hpp. specialize (IH Hpp). unfold at_pos in *. rewrite !walk_snoc, IH.
  assert (Hi : 0 ≤ i < ppb x) by (destruct Hp' as (_ & _ & Hf); apply Forall_app in Hf as [_ Hf]; by inversion Hf).
  case_decide as E.
  - destruct E as [-> ->]. rewrite (proj2 (Z.eqb_neq b 0)) by lia. rewrite H0. simpl.
    rewrite decide_False by (intros [_ E']; by apply (f_equal length) in E'; rewrite length_app in E'; simpl in E'; lia).
    unfold word. rewrite link_blk; [by apply Hzero|]. intros js idx -> E'.
    eapply (Hfresh slot js); [by eapply pos_ok_prefix|done].
  - destruct (Z.eqb_spec (walk x m (slot_id B slot') ix') 0) as [Ez|Hnz].
    + rewrite decide_False; [done|]. intros [-> E']. unfold linked in Hl. rewrite <- E', last_snoc, removelast_last in Hl.
      destruct Hl as (_ & Hpn & _). by apply Hpn.
    + by apply link_word.
Qed.

End link.

(** What linking a freshly allocated block does to the whole file system. *)
Record grew x m B (slot : Z) ix (b : Z) m' B' : Prop := {
  g_at s js : pos_ok x s js →
    at_pos x m' B' s js = if decide (s = slot ∧ js = ix) then b else at_pos x m B s js;
  g_tree : tree_ok x m' B';
  g_new : blk x m' b = replicate (Z.to_nat (block_size x)) 0;
  g_frame c : file_block x m c → (∀ js idx, ix = js ++ [idx] → c ≠ at_pos x m B slot js) → m' !! K x c = m !! K x c;
  g_file c : file_block x m c → file_block x m' c;
  g_used c : 0 ≤ c < total x → used x m' Blocks c = bool_decide (c = b) || used x m Blocks c;
  g_role r : role_ok x r → role_block dev x m' r = role_block dev x m r }.

Lemma word_zero x m b idx :
  blk x m b = replicate (Z.to_nat (block_size x)) 0 → word x m b idx = 0.
Proof.
  intros E. unfold word, fld. rewrite E. unfold slice. rewrite drop_replicate, take_replicate.
  induction (4 `min` _)%nat as [|n IH]; [done|]. simpl. unfold le in *. simpl. rewrite IH. done.
Qed.

Section grow.
Context x m B (slot : Z) ix (b : Z) m3 m' B'.
Context (Hw : wfs x m) (Hsized : sized x) (Ht : tree_ok x m B) (Hp : pos_ok x slot ix) (H0 : at_pos x m B slot ix = 0).
Context (Hb : 0 < b < total x) (Hu : used x m Blocks b = false) (Hac : accounted dev x m Blocks b true m3).
Context (Hz : m3 !! K x b = Some (replicate (Z.to_nat (block_size x)) 0)).
Context (Hw3 : wfs x m3) (Hl : linked x m3 B slot ix b m' B').

Lemma sized_ppb : block_size x = 4 * ppb x.
Proof. destruct Hsized as [? ->]. unfold ppb, shift_per_lvl. rewrite Z.pow_add_r by lia. lia. Qed.

Lemma new_not_file c : file_block x m c → c ≠ b.
Proof. intros (_ & Huc & _) ->. congruence. Qed.

Lemma new_reserved : (∀ r, role_ok x r → role_block dev x m r ≠ b) ∧ K x b ≠ SBK dev.
Proof.
  split.
  - intros r Hr E. destruct (w_role _ _ _ Hw r Hr) as (_ & _ & H). rewrite E, Hu in H. specialize (H ltac:(lia)). done.
  - intros E. pose proof (w_reserved _ _ _ Hw b ltac:(lia)) as H. rewrite Hu in H. discriminate H. by right.
Qed.

Lemma alloc_frame c : file_block x m c → m3 !! K x c = m !! K x c.
Proof. intros Hf. pose proof (new_not_file c Hf). destruct Hf as (_ & _ & Hr & Hsb). by apply (ac_data _ _ _ _ _ _ _ Hac). Qed.

Lemma alloc_used c : 0 ≤ c < total x → used x m3 Blocks c = bool_decide (c = b) || used x m Blocks c.
Proof.
  intros Hc. rewrite (ac_used _ _ _ _ _ _ _ Hac) by done. case_decide as E.
  - destruct E as [_ ->]. by rewrite bool_decide_true.
  - rewrite bool_decide_false by naive_solver. done.
Qed.

Lemma alloc_file c : file_block x m c → file_block x m3 c.
Proof.
  intros (Hc & Huc & Hr & Hsb). split; [done|]. split; [rewrite alloc_used by lia; rewrite Huc; apply orb_true_r|].
  split; [|done]. intros r Hrok. rewrite (ac_role _ _ _ _ _ _ _ Hac) by done. by apply Hr.
Qed.

Lemma new_file : file_block x m3 b.
Proof.
  destruct new_reserved as [Hr Hsb]. split; [done|]. split; [rewrite alloc_used by lia; by rewrite bool_decide_true|].
  split; [|done]. intros r Hrok. rewrite (ac_role _ _ _ _ _ _ _ Hac) by done. by apply Hr.
Qed.

(** The allocation alone does not touch the tree. *)
Lemma alloc_at s js : pos_ok x s js → at_pos x m3 B s js = at_pos x m B s js.
Proof.
  apply walk_frame. intros s' js' Hp' _ Hne. unfold Ext2Alloc.blk. rewrite alloc_frame; [done|].
  by apply (t_ids _ _ _ Ht).
Qed.

Lemma alloc_tree : tree_ok x m3 B.
Proof.
  split; [apply Ht|..].
  - intros s js Hps. rewrite alloc_at by done. intros Hne. apply alloc_file. by apply (t_ids _ _ _ Ht).
  - intros s js s' js' Hps Hps'. rewrite !alloc_at by done. by apply (t_inj _ _ _ Ht).
Qed.

Lemma blk_ok m0 c : wfs x m0 → 0 < c < total x → block_ok x (blk x m0 c).
Proof.
  intros Hw0 Hc. pose proof (total_le x (w_geo _ _ _ Hw)).
  destruct (w_blk _ _ _ Hw0 c ltac:(lia)) as (d & Hd & ?). unfold Ext2Alloc.blk. by rewrite Hd.
Qed.

(** The pointer block written by the link. *)
Lemma link_store : wfs x m' ∧ same_meta dev x m3 m' ∧
  ∀ c, (∀ js idx, ix = js ++ [idx] → c ≠ at_pos x m B slot js) → m' !! K x c = m3 !! K x c.
Proof.
  pose proof Hl as Hl'. unfold linked in Hl'. destruct (last ix) as [idx|] eqn:E.
  2:{ destruct Hl' as [-> _]. split; [done|]. split; [|done]. by apply data_same_meta. }
  apply last_Some in E as [js ->]. rewrite removelast_last in Hl'. destruct Hl' as (_ & Hne & ->).
  pose proof (pos_ok_prefix _ _ _ _ Hp) as Hpj. pose proof (t_ids _ _ _ alloc_tree slot js Hpj Hne) as (Hr & _ & Hro & Hsb).
  assert (Hix : 0 ≤ idx < ppb x) by (destruct Hp as (_ & _ & Hf); apply Forall_app in Hf as [_ Hf]; by inversion Hf).
  pose proof (blk_ok m3 (at_pos x m3 B slot js) Hw3 ltac:(lia)) as [Hlen Hby]. pose proof sized_ppb.
  destruct (data_write_meta dev x m3 (at_pos x m3 B slot js) (put 4 (blk x m3 (at_pos x m3 B slot js)) (4 * idx) b)) as [? ?]; try done.
  { split; [rewrite length_put; simpl; lia|by apply put_bytes]. }
  split; [done|]. split; [done|]. intros c Hc. rewrite lookup_insert_ne; [done|]. intros E%K_inj.
  by apply (Hc js idx eq_refl); rewrite <- E, alloc_at.
Qed.

Lemma grow_ok : grew x m B slot ix b m' B' ∧ wfs x m' ∧ same_meta dev x m3 m'.
Proof.
  pose proof sized_ppb as Hsz. destruct link_store as (Hw' & Hs' & Hfr). pose proof (total_le x (w_geo _ _ _ Hw)).
  pose proof (geo_count x (w_geo _ _ _ Hw)).
  assert (Hz3 : blk x m3 b = replicate (Z.to_nat (block_size x)) 0) by (unfold Ext2Alloc.blk; by rewrite Hz).
  assert (Hfresh : ∀ s js, pos_ok x s js → at_pos x m3 B s js ≠ b).
  { intros s js Hps. rewrite alloc_at by done. destruct (decide (at_pos x m B s js = 0)) as [->|Hne]; [lia|].
    by apply new_not_file, (t_ids _ _ _ Ht). }
  assert (Hat : ∀ s js, pos_ok x s js → at_pos x m' B' s js = if decide (s = slot ∧ js = ix) then b else at_pos x m B s js).
  { intros s js Hps. rewrite <- (alloc_at s js) by done.
    apply (link_at x m3 B slot ix b m' B'); try done; [intros; by apply blk_ok|apply alloc_tree|by rewrite alloc_at|lia|].
    intros idx _. by apply word_zero. }
  assert (Hfile : ∀ c, file_block x m3 c → file_block x m' c).
  { intros c (Hc & Huc & Hr & Hsb). split; [done|]. split; [by rewrite (sm_used _ _ _ _ Hs') by (unfold total in Hc; lia)|].
    split; [|done]. intros r Hrok. rewrite (same_role dev x m3) by done. by apply Hr. }
  split; [|done]. split; [done|..].
  - split.
    + pose proof Hl as Hl'. unfold linked in Hl'. destruct (last ix); [destruct Hl' as [-> _]|destruct Hl' as [_ ->]; rewrite length_insert]; apply Ht.
    + intros s js Hps. rewrite Hat by done. case_decide; intros Hne; [by apply Hfile, new_file|].
      by apply Hfile, alloc_file, (t_ids _ _ _ Ht).
    + intros s js s' js' Hps Hps'. rewrite !Hat by done.
      assert (Hnew : ∀ s js, pos_ok x s js → at_pos x m B s js = b → False).
      { intros s0 js0 Hp0 E0. apply (Hfresh s0 js0 Hp0). by rewrite alloc_at. }
      case_decide as E1; case_decide as E2; intros Hne Heq; [naive_solver|by destruct (Hnew s' js')|by destruct (Hnew s js)|].
      by apply (t_inj _ _ _ Ht).
  - unfold Ext2Alloc.blk. rewrite Hfr, Hz; [done|]. intros js idx -> E. eapply (Hfresh slot js); [by eapply pos_ok_prefix|].
    rewrite alloc_at by (by eapply pos_ok_prefix). done.
  - intros c Hc Hnp. rewrite Hfr by done. by apply alloc_frame.
  - intros c Hc. by apply Hfile, alloc_file.
  - intros c Hc. rewrite (sm_used _ _ _ _ Hs') by done. by apply alloc_used.
  - intros r Hr. rewrite (same_role dev x m3) by done. by apply (ac_role _ _ _ _ _ _ _ Hac).
Qed.

End grow.

(** ** Index paths *)

(** The indices of the last [k] pointer blocks on the way to index [n]. *)
Fixpoint idxs x (k : nat) (n : Z) : list Z :=
  match k with O => [] | Datatypes.S k => (n / ppb x ^ Z.of_nat k) mod ppb x :: idxs x k n end.

(** Where the block of index [n] is entered. *)
Definition index_path x (n : Z) : option (Z * list Z) :=
  if n <? 12 then Some (n, []) else
  let n1 := n - 12 in
  if n1 <? ppb x then Some (12, idxs x 1 n1) else
  let n2 := n1 - ppb x in
  if n2 <? ppb x ^ 2 then Some (13, idxs x 2 n2) else
  let n3 := n2 - ppb x ^ 2 in
  if n3 <? ppb x ^ 3 then Some (14, idxs x 3 n3) else None.

(** The block of a file at index [n], 0 if there is none. *)
Definition bmap x m B (n : Z) : Z :=
  match index_path x n with Some (slot, ix) => at_pos x m B slot ix | None => 0 end.

Lemma ppb_pos x : sized x → 256 ≤ ppb x ≤ 1024.
Proof.
  intros [H _]. unfold ppb, shift_per_lvl. rewrite Z.pow_add_r by lia.
  assert (log_block_size x = 0 ∨ log_block_size x = 1 ∨ log_block_size x = 2) as [->|[->| ->]] by lia; simpl; lia.
Qed.

Lemma length_idxs x k n : length (idxs x k n) = k.
Proof. induction k; simpl; auto. Qed.

Lemma idxs_range x k n : sized x → Forall (λ i, 0 ≤ i < ppb x) (idxs x k n).
Proof. intros Hs. pose proof (ppb_pos x Hs). induction k; simpl; constructor; auto. apply Z.mod_pos_bound. lia. Qed.

Lemma idxs_inj x k n n' : sized x → idxs x k n = idxs x k n' → n mod ppb x ^ Z.of_nat k = n' mod ppb x ^ Z.of_nat k.
Proof.
  intros Hs. pose proof (ppb_pos x Hs). induction k as [|k IH]; intros E; [by rewrite !Z.mod_1_r|].
  cbn [idxs] in E. injection E as E1 E2. specialize (IH E2).
  rewrite Nat2Z.inj_succ, Z.pow_succ_r, Z.mul_comm by lia.
  assert (0 < ppb x ^ Z.of_nat k) by (apply Z.pow_pos_nonneg; lia). rewrite !Z.rem_mul_r by lia. congruence.
Qed.

Lemma index_path_ok x n slot ix :
  sized x → 0 ≤ n → index_path x n = Some (slot, ix) → pos_ok x slot ix ∧ length ix = depth slot.
Proof.
  intros Hs Hn. unfold index_path. repeat case_match; bool_to_prop; intros; simplify_eq;
    (split; [split; [lia|split; [|by apply (idxs_range x _ _) || constructor]]|]); rewrite ?length_idxs; unfold depth; simpl; lia.
Qed.

Lemma index_path_inj x n n' p :
  sized x → 0 ≤ n → 0 ≤ n' → index_path x n = Some p → index_path x n' = Some p → n = n'.
Proof.
  intros Hs Hn Hn'. pose proof (ppb_pos x Hs). unfold index_path.
  assert (Hk : ∀ k a b, 0 ≤ a < ppb x ^ Z.of_nat k → 0 ≤ b < ppb x ^ Z.of_nat k → idxs x k a = idxs x k b → a = b).
  { intros k a b Ha Hb E%(idxs_inj x k a b Hs). by rewrite !Z.mod_small in E. }
  destruct (Z.ltb_spec n 12), (Z.ltb_spec n' 12); [intros; simplify_eq; lia|repeat case_match; intros; simplify_eq; lia..|].
  destruct (Z.ltb_spec (n - 12) (ppb x)), (Z.ltb_spec (n' - 12) (ppb x));
    [intros E1 E2; assert (E : idxs x 1 (n' - 12) = idxs x 1 (n - 12)) by congruence; apply Hk in E; [lia|rewrite Z.pow_1_r; lia..]|repeat case_match; intros; simplify_eq; lia..|].
  destruct (Z.ltb_spec (n - 12 - ppb x) (ppb x ^ 2)), (Z.ltb_spec (n' - 12 - ppb x) (ppb x ^ 2));
    [intros E1 E2; assert (E : idxs x 2 (n' - 12 - ppb x) = idxs x 2 (n - 12 - ppb x)) by congruence;
      apply Hk in E; [lia|change (Z.of_nat 2) with 2; lia..]|repeat case_match; intros; simplify_eq; lia..|].
  destruct (Z.ltb_spec (n - 12 - ppb x - ppb x ^ 2) (ppb x ^ 3)), (Z.ltb_spec (n' - 12 - ppb x - ppb x ^ 2) (ppb x ^ 3)); try done.
  intros E1 E2. assert (E : idxs x 3 (n' - 12 - ppb x - ppb x ^ 2) = idxs x 3 (n - 12 - ppb x - ppb x ^ 2)) by congruence.
  apply Hk in E; [lia|change (Z.of_nat 3) with 3; lia..].
Qed.

(** ** The tree after an allocation *)

(** A place that holds pointers to further blocks holds [c]. *)
Definition pointer_block x m B (c : Z) : Prop :=
  ∃ s js, pos_ok x s js ∧ (length js < depth s)%nat ∧ at_pos x m B s js = c.

(** From [m, B] to [m', B'] only empty places on the way to [full] were filled. *)
Record evolved x m B (slot : Z) (full : list Z) m' B' : Prop := {
  e_tree : tree_ok x m' B';
  e_at s js : pos_ok x s js →
    at_pos x m' B' s js = at_pos x m B s js ∨
    (s = slot ∧ js `prefix_of` full ∧ at_pos x m B s js = 0 ∧ 0 < at_pos x m' B' s js < total x ∧
     used x m Blocks (at_pos x m' B' s js) = false);
  e_frame c : file_block x m c → ¬ pointer_block x m B c → m' !! K x c = m !! K x c;
  e_file c : file_block x m c → file_block x m' c;
  e_used c : 0 ≤ c < total x → used x m Blocks c = true → used x m' Blocks c = true;
  e_role r : role_ok x r → role_block dev x m' r = role_block dev x m r }.

Lemma evolved_refl x m B slot full : tree_ok x m B → evolved x m B slot full m B.
Proof. intros Ht. split; auto. Qed.

Lemma grew_evolved x m B slot ix b m1 B1 full m' B' :
  grew x m B slot ix b m1 B1 → tree_ok x m B → pos_ok x slot ix → at_pos x m B slot ix = 0 → used x m Blocks b = false →
  0 < b < total x → ix `prefix_of` full → evolved x m1 B1 slot full m' B' → evolved x m B slot full m' B'.
Proof.
  intros Hg Ht Hp H0 Hub Hb Hpre [Et Ea Ef Efi Eu Er]. split; [done|..].
  - intros s js Hps. specialize (Ea s js Hps). rewrite (g_at _ _ _ _ _ _ _ _ Hg) in Ea by done. case_decide as E.
    + destruct E as [-> ->]. right. destruct Ea as [->|(_ & _ & -> & ? & _)]; [done|lia].
    + destruct Ea as [->|(-> & ? & ? & ? & Hnu)]; [by left|]. right. split_and!; try done; try lia.
      rewrite (g_used _ _ _ _ _ _ _ _ Hg) in Hnu by lia. by apply orb_false_iff in Hnu as [_ ?].
  - intros c Hc Hnp. rewrite Ef.
    + apply (g_frame _ _ _ _ _ _ _ _ Hg); [done|]. intros js idx -> E. apply Hnp. exists slot, js.
      split; [by eapply pos_ok_prefix|]. split; [|done]. destruct Hp as (_ & Hl & _). rewrite length_app in Hl. simpl in Hl. lia.
    + by apply (g_file _ _ _ _ _ _ _ _ Hg).
    + intros (s & js & Hps & Hlt & E). rewrite (g_at _ _ _ _ _ _ _ _ Hg) in E by done. case_decide.
      * subst c. destruct Hc as (_ & Huc & _). congruence.
      * apply Hnp. by exists s, js.
  - intros c Hc. by apply Efi, (g_file _ _ _ _ _ _ _ _ Hg).
  - intros c Hc Huc. apply Eu; [done|]. rewrite (g_used _ _ _ _ _ _ _ _ Hg) by done. rewrite Huc. apply orb_true_r.
  - intros r Hr. rewrite Er by done. by apply (g_role _ _ _ _ _ _ _ _ Hg).
Qed.

Lemma later_sized t c x : sized (later t c x) ↔ sized x.
Proof. done. Qed.

Lemma later_at t c x m B s js : at_pos (later t c x) m B s js = at_pos x m B s js.
Proof.
  unfold at_pos. generalize (slot_id B s). induction js as [|j js IH]; intros id; [done|].
  cbn [walk]. destruct (id =? 0); [done|]. apply IH.
Qed.

Lemma later_tree t c x m B : tree_ok (later t c x) m B ↔ tree_ok x m B.
Proof.
  split; intros [Hl Hi Hj]; (split; [done|..]).
  - intros s js Hp. specialize (Hi s js Hp). by rewrite later_at in Hi.
  - intros s js s' js' Hp Hp'. specialize (Hj s js s' js' Hp Hp'). by rewrite !later_at in Hj.
  - intros s js Hp. rewrite later_at. by apply Hi.
  - intros s js s' js' Hp Hp'. rewrite !later_at. by apply Hj.
Qed.

Lemma later_evolved t c x m B slot full m' B' :
  evolved (later t c x) m B slot full m' B' → evolved x m B slot full m' B'.
Proof.
  intros [Ht Ha Hf Hi Hu Hr]. split; try done; [exact (proj1 (later_tree t c x m' B') Ht)|..].
  - intros s js Hp. specialize (Ha s js Hp). by rewrite !later_at in Ha.
  - intros b Hb Hn. apply (Hf b Hb). intros (s & js & ? & ? & E). apply Hn. exists s, js. by rewrite later_at in E.
Qed.

(** The blocks of the file are not among the buffers the caller holds. *)
Record unheld x m B (h : gset key) : Prop := {
  u_lets : lets dev x m h;
  u_tree s js : pos_ok x s js → at_pos x m B s js ≠ 0 → K x (at_pos x m B s js) ∉ h }.

Lemma later_unheld t c x m B h : unheld (later t c x) m B h ↔ unheld x m B h.
Proof.
  split; intros [Hl Ht].
  - split; [exact (proj1 (later_lets dev t c x m h) Hl)|]. intros s js Hp. specialize (Ht s js Hp). by rewrite later_at in Ht.
  - split; [exact (proj2 (later_lets dev t c x m h) Hl)|]. intros s js Hp. rewrite later_at. by apply Ht.
Qed.

Lemma grew_unheld x m B slot ix b m' B' h :
  grew x m B slot ix b m' B' → unheld x m B h → 0 < b < total x → used x m Blocks b = false → unheld x m' B' h.
Proof.
  intros Hg [[Lr Ls Lf Lz] Ut] Hb Hu. split; [split; [|done| |done]|].
  - intros r Hr. rewrite (g_role _ _ _ _ _ _ _ _ Hg) by done. by apply Lr.
  - intros c Hc. rewrite (g_used _ _ _ _ _ _ _ _ Hg) by done. intros [_ ?]%orb_false_iff. by apply Lf.
  - intros s js Hps. rewrite (g_at _ _ _ _ _ _ _ _ Hg) by done. case_decide; [intros _; apply Lf; [lia|done]|]. by apply Ut.
Qed.

End tree.

(** ** The operations *)

Section file.
Context {S : Type} `{!BlockOps S, !BlockLaws S} (dev now euid : Z) (Hnow : 0 ≤ now < 2 ^ 32).
Implicit Types (x : Ext2SuperblockData) (m : gmap key (list Z)) (B : list Z) (ix : list Z) (h : gset key) (f : fs S) (i : Inode).

Notation K := (K dev).
Notation blk := (blk dev).
Notation used := (used dev).
Notation wf := (wf dev).
Notation at_pos := (at_pos dev).
Notation tree_ok := (tree_ok dev).
Notation file_block := (file_block dev).
Notation evolved := (evolved dev).

(** The fields of an inode that do not name blocks. *)
Definition attrs i := (ino i, mode i, nlink i, uid i, gid i, isize i, atime i, mtime i, ctime i, rdev i).

(** A consistent file system, and a file in it, with room for the buffers. *)
Record good f m B h : Prop := {
  go_wf : wf (sb f) m;
  go_sized : sized (sb f);
  go_tree : tree_ok (sb f) m B;
  go_at : at_store m h (store f);
  go_held : unheld dev (sb f) m B h;
  go_size : (size h + 3 < HELD_MAX)%nat }.

Definition zeros x : list Z := replicate (Z.to_nat (block_size x)) 0.

Lemma new_block_ok i f m h :
  wf (sb f) m → at_store m h (store f) → lets dev (sb f) m h →
  mwp (new_block dev now euid i) f (λ r f',
    (r = (0, i) ∧ no_space (sb f) euid = true ∧ f' = f) ∨
    (∃ b m3, r.1 = b ∧ attrs r.2 = attrs i ∧ block r.2 = block i ∧ 0 < b < total (sb f) ∧ used (sb f) m Blocks b = false ∧
      sb f' = later now (free_blocks_count (sb f) - 1) (sb f) ∧ accounted dev (sb f) m Blocks b true m3 ∧
      m3 !! K (sb f) b = Some (zeros (sb f)) ∧ at_store m3 h (store f') ∧ wf (sb f') m3)).
Proof.
  intros Hwf Hat Hl. unfold new_block. apply mwp_bind, mwp_get_sb, mwp_bind.
  eapply mwp_mono; [by apply (block_alloc_ok dev now euid f m h)|]. intros [e|b] f'.
  - intros (_ & Hns & ->). apply mwp_ret. by left.
  - intros (_ & Hsb & Hb & Hu & m3 & Hac & Hz & Hat3 & Hwf3). apply mwp_ret. right. exists b, m3. split_and!; done || lia.
Qed.

Lemma file_block_read x m c : wfs dev x m → file_block x m c → ∃ d, m !! K x c = Some d ∧ block_ok x d ∧ blk x m c = d ∧ 0 ≤ c < 2 ^ 31.
Proof.
  intros Hw (Hc & _). pose proof (total_le x (w_geo _ _ _ Hw)). pose proof (geo_count x (w_geo _ _ _ Hw)).
  destruct (w_blk _ _ _ Hw c ltac:(lia)) as (d & Hd & Hok). exists d. unfold Ext2Alloc.blk. rewrite Hd. split_and!; done || lia.
Qed.

(** Holding a block of the file keeps out of the allocator's way. *)
Lemma lets_hold x m h c : lets dev x m h → file_block x m c → (size h + 3 < HELD_MAX)%nat → lets dev x m ({[K x c]} ∪ h).
Proof.
  intros [Lr Ls Lf Lz] (Hc & Hu & Hr & Hsb) Hsz. split.
  - intros r Hrok. rewrite not_elem_of_union, not_elem_of_singleton. split; [|by apply Lr]. intros ?%K_inj. by destruct (Hr r Hrok).
  - rewrite not_elem_of_union, not_elem_of_singleton. done.
  - intros b Hb Hub. rewrite not_elem_of_union, not_elem_of_singleton. split; [|by apply Lf]. intros ->%K_inj. congruence.
  - pose proof (size_insert_held (K x c) h). lia.
Qed.

(** One entry filled: the state after a link. *)
Lemma grow_good f f' m h B slot ix b m3 m' B' c :
  good f m B h → pos_ok (sb f) slot ix → at_pos (sb f) m B slot ix = 0 → 0 < b < total (sb f) →
  used (sb f) m Blocks b = false → accounted dev (sb f) m Blocks b true m3 → m3 !! K (sb f) b = Some (zeros (sb f)) →
  sb f' = later now c (sb f) → wf (sb f') m3 → linked dev (sb f) m3 B slot ix b m' B' → at_store m' h (store f') →
  good f' m' B' h ∧ grew dev (sb f) m B slot ix b m' B'.
Proof.
  intros [[Hw Hs] Hsi Ht Hat Hh Hsz] Hp H0 Hb Hu Hac Hz Hsb Hwf3 Hl Hat'. rewrite Hsb in Hwf3.
  destruct Hwf3 as [Hw3 Hs3]. pose proof (proj1 (later_wfs dev _ _ _ _) Hw3) as Hw3'.
  destruct (grow_ok dev (sb f) m B slot ix b m3 m' B') as (Hg & Hw' & Hsm); try done. split; [|done].
  split; rewrite ?Hsb; try done.
  - split; [by apply later_wfs|]. intros k. specialize (Hs3 k).
    pose proof (same_sum dev (sb f) m3 m' k (w_geo _ _ _ Hw) Hsm) as Hsum. etrans; [exact Hs3|]. symmetry. exact Hsum.
  - apply later_tree, Hg.
  - apply later_unheld. by eapply grew_unheld.
Qed.

Lemma index_bits x n k :
  sized x → 0 ≤ n →
  Z.land (Z.shiftr n (shift_per_lvl x * Z.of_nat k)) (u32 (Z.shiftl 1 (shift_per_lvl x)) - 1) = (n / ppb x ^ Z.of_nat k) mod ppb x.
Proof.
  intros Hs Hn. pose proof (ppb_pos x Hs) as Hp. assert (0 ≤ shift_per_lvl x) by (destruct Hs; unfold shift_per_lvl; lia).
  rewrite Z.shiftl_1_l. fold (ppb x). rewrite u32_small by lia. unfold ppb.
  replace (2 ^ shift_per_lvl x - 1) with (Z.ones (shift_per_lvl x)) by (rewrite Z.ones_equiv; lia).
  rewrite Z.land_ones, Z.shiftr_div_pow2 by nia. rewrite Z.pow_mul_r by lia. done.
Qed.

Lemma later_idxs t c x k n : idxs (later t c x) k n = idxs x k n.
Proof. induction k as [|k IH]; [done|]. cbn [idxs]. by rewrite IH. Qed.

Lemma later_self x : x = later (wtime x) (free_blocks_count x) x.
Proof. by destruct x. Qed.

(** What [chain] and [ext2_inode_get_block] promise when they may allocate. *)
Definition filled f m i slot full h (r : Z * Inode) f' : Prop :=
  ∃ t c m', sb f' = later t c (sb f) ∧ good f' m' (block r.2) h ∧ attrs r.2 = attrs i ∧
    evolved (sb f) m (block i) slot full m' (block r.2) ∧
    if r.1 =? 0 then no_space (sb f') euid = true ∧ at_pos (sb f) m' (block r.2) slot full = 0
    else at_pos (sb f) m' (block r.2) slot full = r.1 ∧
      (at_pos (sb f) m (block i) slot full = 0 → blk (sb f) m' r.1 = zeros (sb f)).

Lemma leaf_not_pointer x m B slot ix :
  tree_ok x m B → pos_ok x slot ix → length ix = depth slot → at_pos x m B slot ix ≠ 0 →
  ¬ pointer_block dev x m B (at_pos x m B slot ix).
Proof.
  intros Ht Hp Hl Hne (s & js & Hps & Hlt & E). symmetry in E. destruct (t_inj _ _ _ _ Ht slot ix s js) as [<- <-]; try done. lia.
Qed.

(** A link followed by more of the same. *)
Lemma filled_after_grow f f1 m i i1 slot ix b m1 full h r f' c :
  good f m (block i) h → good f1 m1 (block i1) h → grew dev (sb f) m (block i) slot ix b m1 (block i1) →
  sb f1 = later now c (sb f) → attrs i1 = attrs i → pos_ok (sb f) slot full → length full = depth slot → ix `prefix_of` full →
  at_pos (sb f) m (block i) slot ix = 0 → used (sb f) m Blocks b = false → 0 < b < total (sb f) →
  filled f1 m1 i1 slot full h r f' → filled f m i slot full h r f'.
Proof.
  intros G0 G1 Hg Hsb1 Hattr Hpf Hlf Hpre H0 Hu Hb (t & c' & m' & Hsb' & G' & Ha & He & Hr). rewrite Hsb1 in Hsb', He, Hr.
  assert (Hpx : pos_ok (sb f) slot ix) by (destruct Hpre as [js ->]; by eapply pos_ok_prefix).
  apply later_evolved in He. exists t, c', m'. split; [done|]. split; [done|]. split; [congruence|].
  split; [eapply grew_evolved; try done; apply G0|].
  destruct (r.1 =? 0) eqn:E; rewrite !later_at in Hr; [done|]. destruct Hr as [Hr1 Hr2]. split; [done|]. intros Hf0.
  destruct (decide (full = ix)) as [->|Hne].
  - assert (Hat1 : at_pos (sb f) m1 (block i1) slot ix = b) by (rewrite (g_at _ _ _ _ _ _ _ _ _ Hg) by done; by rewrite decide_True).
    destruct (e_at _ _ _ _ _ _ _ _ He slot ix Hpx) as [E'|(_ & _ & ? & _)]; [|lia].
    rewrite Hat1, Hr1 in E'. rewrite E'. unfold Ext2Alloc.blk. rewrite (e_frame _ _ _ _ _ _ _ _ He).
    + apply (g_new _ _ _ _ _ _ _ _ _ Hg).
    + rewrite <- Hat1. apply (t_ids _ _ _ _ (g_tree _ _ _ _ _ _ _ _ _ Hg)); [done|lia].
    + rewrite <- Hat1. apply leaf_not_pointer; try done; [apply (g_tree _ _ _ _ _ _ _ _ _ Hg)|lia].
  - apply Hr2. rewrite (g_at _ _ _ _ _ _ _ _ _ Hg) by done. rewrite decide_False by naive_solver. done.
Qed.

Lemma chain_ok k i id n f m h slot pre shift :
  good f m (block i) h → pos_ok (sb f) slot pre → (length pre + k = depth slot)%nat →
  id = at_pos (sb f) m (block i) slot pre → id ≠ 0 → 0 ≤ n →
  (k ≠ 0%nat → shift = shift_per_lvl (sb f) * (Z.of_nat k - 1)) →
  mwp (chain dev now euid k i id n shift true) f (filled f m i slot (pre ++ idxs (sb f) k n) h).
Proof.
  revert i id f m pre shift. induction k as [|k IH]; intros i id f m pre shift G Hp Hk Hid Hne Hn Hsh.
  { apply mwp_ret. cbn [idxs]. rewrite app_nil_r. exists (wtime (sb f)), (free_blocks_count (sb f)), m.
    split; [apply later_self|]. split; [done|]. split; [done|]. split; [apply evolved_refl, G|].
    simpl. rewrite (proj2 (Z.eqb_neq id 0)) by done. split; [done|congruence]. }
  set (x := sb f) in *. cbn [chain]. pose proof (proj1 (go_wf _ _ _ _ G)) as Hw. pose proof (go_sized _ _ _ _ G) as Hsi. fold x in Hw, Hsi.
  destruct (go_at _ _ _ _ G) as (Hok & Hv & Hhe). pose proof (go_size _ _ _ _ G) as Hsz. pose proof (go_tree _ _ _ _ G) as Ht. fold x in Ht.
  assert (Hfb : file_block x m id) by (rewrite Hid; apply (t_ids _ _ _ _ Ht); [done|by rewrite <- Hid]).
  destruct (file_block_read x m id Hw Hfb) as (d & Hd & [Hlen Hby] & Hbd & Hid31).
  pose proof (u_tree _ _ _ _ _ (go_held _ _ _ _ G) slot pre Hp) as Hnh. fold x in Hnh. rewrite <- Hid in Hnh. specialize (Hnh Hne).
  pose proof (sized_ppb x Hsi) as Hbs. pose proof (ppb_pos x Hsi) as Hppb.
  rewrite Hsh by done. replace (Z.of_nat (Datatypes.S k) - 1) with (Z.of_nat k) by lia.
  apply mwp_bind, mwp_get_sb, mwp_bind. fold x.
  apply mwp_read with (d := d); [done|by rewrite Hhe|rewrite Hhe; lia|lia|by rewrite Hv|].
  intros s1 Hok1 Hv1 Hh1. rewrite Hhe in Hh1. rewrite Hv in Hv1. fold x. rewrite index_bits by done.
  set (idx := (n / ppb x ^ Z.of_nat k) mod ppb x). assert (Hix : 0 ≤ idx < ppb x) by (apply Z.mod_pos_bound; lia).
  apply mwp_bind. eapply mwp_lift; [apply rd_ok; simpl; lia|].
  assert (Hnext : fld 4 d (4 * idx) = at_pos x m (block i) slot (pre ++ [idx])).
  { pose proof Hid as Hid'. unfold Ext2Inode.at_pos in Hid' |- *. rewrite walk_snoc, <- Hid'.
    rewrite (proj2 (Z.eqb_neq id 0)) by done. unfold word. by rewrite Hbd. }
  assert (Hp' : pos_ok x slot (pre ++ [idx])).
  { destruct Hp as (? & _ & Hf). split; [done|]. rewrite length_app. split; [simpl; lia|]. apply Forall_app; split; [done|by constructor]. }
  assert (Hfull : pre ++ idxs x (Datatypes.S k) n = (pre ++ [idx]) ++ idxs x k n) by (cbn [idxs]; by rewrite <- app_assoc).
  assert (Hpf : pos_ok x slot ((pre ++ [idx]) ++ idxs x k n)).
  { destruct Hp' as (? & _ & Hf). split; [done|]. rewrite !length_app, length_idxs. split; [simpl; lia|].
    apply Forall_app; split; [done|by apply idxs_range]. }
  assert (Hlf : length ((pre ++ [idx]) ++ idxs x k n) = depth slot) by (rewrite !length_app, length_idxs; simpl; lia).
  assert (Hsh' : ∀ x', shift_per_lvl x' = shift_per_lvl x → k ≠ 0%nat →
    u32 (shift_per_lvl x * Z.of_nat k - shift_per_lvl x) = shift_per_lvl x' * (Z.of_nat k - 1)).
  { intros x' -> Hk0. destruct Hsi as [Hlog _]. unfold shift_per_lvl in *.
    assert (Z.of_nat k ≤ 4) by (destruct Hp as ((? & ?) & _ & _); unfold depth in Hk; lia). rewrite u32_small; nia. }
  rewrite Hfull, Hnext. destruct (Z.eqb_spec (at_pos x m (block i) slot (pre ++ [idx])) 0) as [H0|Hn0]; simpl.
  - (* an empty entry *)
    pose proof (lets_hold x m h id (u_lets _ _ _ _ _ (go_held _ _ _ _ G)) Hfb Hsz) as Hlets.
    apply mwp_bind. eapply mwp_mono; [apply (new_block_ok i _ m ({[K x id]} ∪ h)); [apply G|done|exact Hlets]|]. simpl.
    intros [nx i1] f2 [(E & Hns & ->)|(b & m3 & Eb & Ha1 & Hb1 & Hb & Hu & Hsb2 & Hac & Hz & (Hok2 & Hv2 & Hh2) & Hwf3)].
    + injection E as -> ->. simpl. apply mwp_bind. apply mwp_release; [done|simpl; rewrite Hh1; set_solver|]. simpl.
      intros s3 Hok3 Hv3 Hh3. apply mwp_ret. exists (wtime x), (free_blocks_count x), m.
      split; [apply later_self|]. split; [|split; [done|split; [apply evolved_refl, G|]]].
      2:{ split; [done|]. simpl. fold x. unfold Ext2Inode.at_pos in *. by rewrite walk_app, H0, walk_0. }
      destruct G as [? ? ? ? ? ?]. split; simpl; try done. split; [done|]. split; [congruence|].
      rewrite Hh3, Hh1. by apply union_difference_id.
    + simpl in Eb, Ha1, Hb1. subst nx. rewrite (proj2 (Z.eqb_neq b 0)) by lia.
      apply mwp_bind. eapply mwp_lift; [apply wr_ok; simpl; lia|]. apply mwp_bind.
      apply mwp_write with (d0 := d); [done|rewrite Hh2; set_solver|rewrite Hv2; etrans; [exact (alloc_frame dev x m b m3 Hu Hac id Hfb)|exact Hd]|apply length_put; simpl; lia|].
      intros s4 Hok4 Hv4 Hh4.
      assert (Hat4 : at_store (view s4) h s4) by (split; [done|]; split; [done|]; rewrite Hh4, Hh2; by apply union_difference_id).
      assert (Hm3 : blk x m3 id = d) by (unfold Ext2Alloc.blk; rewrite (alloc_frame dev x m b m3 Hu Hac id Hfb); by rewrite Hd).
      assert (Hpos3 : at_pos x m3 (block i) slot pre = id) by (rewrite (alloc_at dev x m (block i) b m3); done).
      destruct (grow_good f (MkFs (sb f2) s4) m h (block i) slot (pre ++ [idx]) b m3 (view s4) (block i1) (free_blocks_count x - 1)) as [G4 Hg]; try done.
      { unfold linked. rewrite last_snoc, removelast_last. split; [done|]. fold x. rewrite Hpos3, Hm3. split; [done|]. by rewrite Hv4, Hv2. }
      eapply mwp_mono; [apply (IH i1 b _ (view s4) (pre ++ [idx])); try done|].
      * simpl. by rewrite Hsb2.
      * rewrite length_app. simpl. lia.
      * simpl. rewrite Hsb2, later_at. fold x. rewrite (g_at _ _ _ _ _ _ _ _ _ Hg) by done. by rewrite decide_True.
      * lia.
      * intros Hk0. apply Hsh'; [simpl; by rewrite Hsb2|done].
      * intros r f' Hfill. simpl in Hfill.
        assert (Hlat : idxs (sb f2) k n = idxs x k n) by (rewrite Hsb2; apply later_idxs). rewrite Hlat in Hfill.
        eapply (filled_after_grow f _ m i i1 slot (pre ++ [idx]) b (view s4)); try done. by eexists.
  - apply mwp_bind. apply mwp_release; [done|simpl; rewrite Hh1; set_solver|]. simpl. intros s3 Hok3 Hv3 Hh3.
    assert (G3 : good (MkFs x s3) m (block i) h).
    { destruct G as [? ? ? ? ? ?]. split; simpl; try done. split; [done|]. split; [congruence|]. rewrite Hh3, Hh1. by apply union_difference_id. }
    eapply mwp_mono; [apply (IH i _ (MkFs x s3) m (pre ++ [idx])); try done|].
    + rewrite length_app. simpl. lia.
    + intros Hk0. by apply Hsh'.
    + intros r f' Hfill. exact Hfill.
Qed.

Lemma level_limit x k : sized x → (k ≤ 2)%nat → u32 (Z.shiftl (ppb x ^ Z.of_nat k) (shift_per_lvl x)) = ppb x ^ (Z.of_nat k + 1).
Proof.
  intros Hs Hk. pose proof (ppb_pos x Hs). assert (0 ≤ shift_per_lvl x) by (destruct Hs; unfold shift_per_lvl; lia).
  rewrite Z.shiftl_mul_pow2 by done. fold (ppb x). rewrite Z.pow_add_r, Z.pow_1_r by lia. apply u32_small.
  assert (k = 0%nat ∨ k = 1%nat ∨ k = 2%nat) as [->|[->| ->]] by lia; simpl Z.of_nat; rewrite ?Z.pow_0_r, ?Z.pow_1_r, ?Z.pow_2_r; nia.
Qed.

Lemma find_level_ok x n :
  sized x → 12 ≤ n →
  match find_level 3 x 0 (n - 12) (u32 (Z.shiftl 1 (shift_per_lvl x))) 0 with
  | None => index_path x n = None
  | Some (lvl, n', shift) => 0 ≤ lvl ≤ 2 ∧ 0 ≤ n' ∧ shift = shift_per_lvl x * lvl ∧
      index_path x n = Some (12 + lvl, idxs x (Z.to_nat (lvl + 1)) n')
  end.
Proof.
  intros Hs Hn. pose proof (ppb_pos x Hs).
  assert (L0 : u32 (Z.shiftl 1 (shift_per_lvl x)) = ppb x)
    by (pose proof (level_limit x 0 Hs ltac:(lia)) as L; change (Z.of_nat 0) with 0 in L; by rewrite Z.pow_0_r, Z.pow_1_r in L).
  assert (L1 : u32 (Z.shiftl (ppb x) (shift_per_lvl x)) = ppb x ^ 2)
    by (pose proof (level_limit x 1 Hs ltac:(lia)) as L; change (Z.of_nat 1) with 1 in L; by rewrite Z.pow_1_r in L).
  assert (L2 : u32 (Z.shiftl (ppb x ^ 2) (shift_per_lvl x)) = ppb x ^ 3) by (exact (level_limit x 2 Hs ltac:(lia))).
  unfold index_path. destruct (Z.ltb_spec n 12); [lia|]. cbn [find_level]. cbv zeta. rewrite L0.
  destruct (Z.ltb_spec (n - 12) (ppb x)); [split; [lia|]; split; [lia|]; split; [lia|done]|]. rewrite L1.
  destruct (Z.ltb_spec (n - 12 - ppb x) (ppb x ^ 2)); [split; [lia|]; split; [lia|]; split; [lia|done]|]. rewrite L2.
  destruct (Z.ltb_spec (n - 12 - ppb x - ppb x ^ 2) (ppb x ^ 3)); [split; [lia|]; split; [lia|]; split; [lia|done]|done].
Qed.

Lemma own_block_ok i f m h slot :
  good f m (block i) h → 0 ≤ slot < 15 →
  mwp (own_block dev now euid i slot true) f (λ r f',
    (r = (0, i) ∧ no_space (sb f) euid = true ∧ at_pos (sb f) m (block i) slot [] = 0 ∧ f' = f) ∨
    (r = (at_pos (sb f) m (block i) slot [], i) ∧ r.1 ≠ 0 ∧ f' = f) ∨
    (∃ b c m1, r.1 = b ∧ 0 < b < total (sb f) ∧ attrs r.2 = attrs i ∧ at_pos (sb f) m (block i) slot [] = 0 ∧ used (sb f) m Blocks b = false ∧
      sb f' = later now c (sb f) ∧ good f' m1 (block r.2) h ∧ grew dev (sb f) m (block i) slot [] b m1 (block r.2))).
Proof.
  intros G Hslot. pose proof (t_len _ _ _ _ (go_tree _ _ _ _ G)) as HB. unfold own_block.
  destruct (lookup_lt_is_Some_2 (block i) (Z.to_nat slot) ltac:(lia)) as [id Hid].
  assert (Hat : at_pos (sb f) m (block i) slot [] = id) by (unfold Ext2Inode.at_pos, slot_id; simpl; by rewrite Hid).
  apply mwp_bind. eapply mwp_lift; [by rewrite Hid|]. rewrite Hat. destruct (Z.eqb_spec id 0) as [->|Hne]; simpl; [|apply mwp_ret; auto].
  apply mwp_bind. eapply mwp_mono; [apply (new_block_ok i f m h); apply G|].
  intros [nx i1] f1 [(E & Hns & ->)|(b & m3 & Eb & Ha1 & Hb1 & Hb & Hu & Hsb & Hac & Hz & Hat3 & Hwf3)].
  - injection E as -> ->. apply mwp_ret. by left.
  - simpl in *. subst nx. rewrite (proj2 (Z.eqb_neq b 0)) by lia. apply mwp_ret. right. right.
    exists b, (free_blocks_count (sb f) - 1), m3. simpl. split_and!; try done; try lia;
      (eapply (grow_good f _ m h _ slot [] b m3); try done; [by split; [|split; [simpl; lia|constructor]]|by rewrite Hb1]).
Qed.

Lemma filled_grew f f1 m i i1 slot b m1 h c :
  good f m (block i) h → good f1 m1 (block i1) h → grew dev (sb f) m (block i) slot [] b m1 (block i1) → depth slot = 0%nat → 0 ≤ slot < 15 →
  sb f1 = later now c (sb f) → attrs i1 = attrs i → at_pos (sb f) m (block i) slot [] = 0 → used (sb f) m Blocks b = false →
  0 < b < total (sb f) → filled f m i slot [] h (b, i1) f1.
Proof.
  intros G G1 Hg Hdep Hslot Hsb Ha H0 Hu Hb.
  assert (Hp : pos_ok (sb f) slot []) by (split; [done|split; [simpl; lia|constructor]]).
  eapply (filled_after_grow f f1 m i i1 slot [] b m1); try done.
  exists (wtime (sb f1)), (free_blocks_count (sb f1)), m1. split; [apply later_self|]. split; [done|]. split; [done|].
  split; [apply evolved_refl; by rewrite Hsb; apply later_tree, (g_tree _ _ _ _ _ _ _ _ _ Hg)|]. simpl.
  assert (Hat : at_pos (sb f1) m1 (block i1) slot [] = b).
  { rewrite Hsb, later_at, (g_at _ _ _ _ _ _ _ _ _ Hg) by done. by rewrite decide_True. }
  rewrite (proj2 (Z.eqb_neq b 0)) by lia. rewrite Hat. split; [done|lia].
Qed.

(** The block of index [n], allocated if it is missing. *)
Lemma get_block_ok i f m h n slot full :
  good f m (block i) h → 0 ≤ n → index_path (sb f) n = Some (slot, full) →
  mwp (ext2_inode_get_block dev now euid i n true) f (filled f m i slot full h).
Proof.
  intros G Hn Hpath. pose proof (go_sized _ _ _ _ G) as Hsi. destruct (index_path_ok _ _ _ _ Hsi Hn Hpath) as [Hp Hlen].
  assert (Hfail : no_space (sb f) euid = true → at_pos (sb f) m (block i) slot [] = 0 → filled f m i slot full h (0, i) f).
  { intros Hns Hz. exists (wtime (sb f)), (free_blocks_count (sb f)), m. split; [apply later_self|].
    split; [done|]. split; [done|]. split; [apply evolved_refl, G|]. split; [done|].
    unfold Ext2Inode.at_pos in *. simpl in *. by rewrite Hz, walk_0. }
  assert (Hkeep : ∀ r, r ≠ 0 → at_pos (sb f) m (block i) slot full = r → filled f m i slot full h (r, i) f).
  { intros r Hr Hat. exists (wtime (sb f)), (free_blocks_count (sb f)), m. split; [apply later_self|]. split; [done|]. split; [done|].
    split; [apply evolved_refl, G|]. simpl. rewrite (proj2 (Z.eqb_neq r 0)) by done. split; [done|lia]. }
  unfold ext2_inode_get_block. apply mwp_bind, mwp_get_sb. unfold EXT2_MAX_DIRECT_BLOCKS.
  destruct (Z.ltb_spec n 12) as [Hlt|Hge].
  - unfold index_path in Hpath. rewrite (proj2 (Z.ltb_lt n 12)) in Hpath by done. injection Hpath as <- <-.
    eapply mwp_mono; [apply (own_block_ok i f m h n G); lia|].
    intros [r i1] f1 [(E & Hns & Hz & ->)|[(E & Hne & ->)|(b & c & m1 & <- & Hb & Ha & H0 & Hu & Hsb & G1 & Hg)]].
    + injection E as -> ->. by apply Hfail.
    + injection E as -> ->. by apply Hkeep.
    + simpl in *. eapply filled_grew; try done; lia.
  - pose proof (find_level_ok (sb f) n Hsi Hge) as Hlv.
    destruct (find_level 3 (sb f) 0 (n - 12) (u32 (Z.shiftl 1 (shift_per_lvl (sb f)))) 0) as [[[lvl n'] sh]|]; [|congruence].
    destruct Hlv as (Hlvl & Hn' & -> & Hpath'). rewrite Hpath' in Hpath. injection Hpath as <- <-.
    apply mwp_bind. eapply mwp_mono; [apply (own_block_ok i f m h (12 + lvl) G); lia|].
    intros [r i1] f1 [(E & Hns & Hz & ->)|[(E & Hne & ->)|(b & c & m1 & <- & Hb & Ha & H0 & Hu & Hsb & G1 & Hg)]].
    + injection E as -> ->. apply mwp_ret. by apply Hfail.
    + injection E as -> ->. simpl in Hne. rewrite (proj2 (Z.eqb_neq _ 0)) by done.
      apply (chain_ok _ i _ n' f m h (12 + lvl) []); try done; [split; [lia|split; [simpl; lia|constructor]]|unfold depth; simpl; lia|].
      intros _. f_equal. lia.
    + simpl in *. rewrite (proj2 (Z.eqb_neq r 0)) by lia.
      assert (Hp0 : pos_ok (sb f) (12 + lvl) []) by (split; [lia|split; [simpl; lia|constructor]]).
      eapply mwp_mono; [apply (chain_ok _ i1 r n' f1 m1 h (12 + lvl) []); try done|].
      * by rewrite Hsb.
      * unfold depth. simpl. lia.
      * rewrite Hsb, later_at, (g_at _ _ _ _ _ _ _ _ _ Hg) by done. by rewrite decide_True.
      * lia.
      * intros _. rewrite Hsb. change (shift_per_lvl (later now c (sb f))) with (shift_per_lvl (sb f)). f_equal. lia.
      * intros r' f' Hfill. simpl in Hfill.
        assert (Hlat : idxs (sb f1) (Z.to_nat (lvl + 1)) n' = idxs (sb f) (Z.to_nat (lvl + 1)) n') by (rewrite Hsb; apply later_idxs).
        rewrite Hlat in Hfill. eapply (filled_after_grow f f1 m i i1 (12 + lvl) [] r m1); try done. by eexists.
Qed.

(** ** Looking up *)

Lemma chain_lookup k i id n f m h slot pre shift :
  good f m (block i) h → pos_ok (sb f) slot pre → (length pre + k = depth slot)%nat →
  id = at_pos (sb f) m (block i) slot pre → id ≠ 0 → 0 ≤ n →
  (k ≠ 0%nat → shift = shift_per_lvl (sb f) * (Z.of_nat k - 1)) →
  mwp (chain dev now euid k i id n shift false) f (λ r f',
    r = (at_pos (sb f) m (block i) slot (pre ++ idxs (sb f) k n), i) ∧ sb f' = sb f ∧ at_store m h (store f')).
Proof.
  revert id f pre shift. induction k as [|k IH]; intros id f pre shift G Hp Hk Hid Hne Hn Hsh.
  { apply mwp_ret. cbn [idxs]. rewrite app_nil_r, Hid. split; [done|]. split; [done|apply G]. }
  set (x := sb f) in *. cbn [chain]. pose proof (proj1 (go_wf _ _ _ _ G)) as Hw. pose proof (go_sized _ _ _ _ G) as Hsi. fold x in Hw, Hsi.
  destruct (go_at _ _ _ _ G) as (Hok & Hv & Hhe). pose proof (go_size _ _ _ _ G) as Hsz. pose proof (go_tree _ _ _ _ G) as Ht. fold x in Ht.
  assert (Hfb : file_block x m id) by (rewrite Hid; apply (t_ids _ _ _ _ Ht); [done|by rewrite <- Hid]).
  destruct (file_block_read x m id Hw Hfb) as (d & Hd & [Hlen Hby] & Hbd & Hid31).
  pose proof (u_tree _ _ _ _ _ (go_held _ _ _ _ G) slot pre Hp) as Hnh. fold x in Hnh. rewrite <- Hid in Hnh. specialize (Hnh Hne).
  pose proof (sized_ppb x Hsi) as Hbs. pose proof (ppb_pos x Hsi) as Hppb.
  rewrite Hsh by done. replace (Z.of_nat (Datatypes.S k) - 1) with (Z.of_nat k) by lia.
  apply mwp_bind, mwp_get_sb, mwp_bind. fold x.
  apply mwp_read with (d := d); [done|by rewrite Hhe|rewrite Hhe; lia|lia|by rewrite Hv|].
  intros s1 Hok1 Hv1 Hh1. rewrite Hhe in Hh1. rewrite Hv in Hv1. fold x. rewrite index_bits by done.
  set (idx := (n / ppb x ^ Z.of_nat k) mod ppb x). assert (Hix : 0 ≤ idx < ppb x) by (apply Z.mod_pos_bound; lia).
  apply mwp_bind. eapply mwp_lift; [apply rd_ok; simpl; lia|].
  assert (Hnext : fld 4 d (4 * idx) = at_pos x m (block i) slot (pre ++ [idx])).
  { pose proof Hid as Hid'. unfold Ext2Inode.at_pos in Hid' |- *. rewrite walk_snoc, <- Hid'.
    rewrite (proj2 (Z.eqb_neq id 0)) by done. unfold word. by rewrite Hbd. }
  assert (Hfull : pre ++ idxs x (Datatypes.S k) n = (pre ++ [idx]) ++ idxs x k n) by (cbn [idxs]; by rewrite <- app_assoc).
  assert (Hat3 : ∀ s3, bok s3 → view s3 = view s1 → held s3 = held s1 ∖ {[K x id]} → at_store m h s3).
  { intros s3 ? Hv3 Hh3. split; [done|]. split; [congruence|]. rewrite Hh3, Hh1. by apply union_difference_id. }
  rewrite Hfull, Hnext. destruct (Z.eqb_spec (at_pos x m (block i) slot (pre ++ [idx])) 0) as [H0|Hn0]; simpl.
  - apply mwp_bind. apply mwp_release; [done|simpl; rewrite Hh1; set_solver|]. simpl. intros s3 Hok3 Hv3 Hh3. apply mwp_ret.
    split; [|split; [done|by apply Hat3]]. unfold Ext2Inode.at_pos in *. by rewrite walk_app, H0, walk_0.
  - apply mwp_bind. apply mwp_release; [done|simpl; rewrite Hh1; set_solver|]. simpl. intros s3 Hok3 Hv3 Hh3.
    assert (G3 : good (MkFs x s3) m (block i) h) by (destruct G as [? ? ? ? ? ?]; split; simpl; try done; by apply Hat3).
    eapply mwp_mono; [apply (IH _ (MkFs x s3) (pre ++ [idx])); try done|done].
    + destruct Hp as (? & _ & Hf). split; [done|]. rewrite length_app. split; [simpl; lia|]. apply Forall_app; split; [done|by constructor].
    + rewrite length_app. simpl. lia.
    + intros Hk0. destruct Hsi as [Hlog _]. unfold shift_per_lvl in *.
      assert (Z.of_nat k ≤ 4) by (destruct Hp as ((? & ?) & _ & _); unfold depth in Hk; lia). simpl. rewrite u32_small; nia.
Qed.

(** The block of index [n], without allocating. *)
Lemma get_block_lookup i f m h n :
  good f m (block i) h → 0 ≤ n →
  mwp (ext2_inode_get_block dev now euid i n false) f (λ r f',
    r = (bmap dev (sb f) m (block i) n, i) ∧ sb f' = sb f ∧ at_store m h (store f')).
Proof.
  intros G Hn. pose proof (go_sized _ _ _ _ G) as Hsi. unfold ext2_inode_get_block. apply mwp_bind, mwp_get_sb.
  unfold EXT2_MAX_DIRECT_BLOCKS. pose proof (t_len _ _ _ _ (go_tree _ _ _ _ G)) as HB.
  assert (Hown : ∀ slot, 0 ≤ slot < 15 → own_block dev now euid i slot false f = Ok ((at_pos (sb f) m (block i) slot [], i), f)).
  { intros slot Hs. unfold own_block. destruct (lookup_lt_is_Some_2 (block i) (Z.to_nat slot) ltac:(lia)) as [id Hid].
    unfold Ext2Inode.at_pos, slot_id. rewrite Hid. unfold mbind, M_bind, lift. simpl. destruct (Z.eqb_spec id 0) as [->|]; done. }
  unfold bmap. destruct (Z.ltb_spec n 12) as [Hlt|Hge].
  - unfold index_path. rewrite (proj2 (Z.ltb_lt n 12)) by done. unfold mwp. rewrite Hown by lia. split; [done|]. split; [done|apply G].
  - pose proof (find_level_ok (sb f) n Hsi Hge) as Hlv.
    destruct (find_level 3 (sb f) 0 (n - 12) (u32 (Z.shiftl 1 (shift_per_lvl (sb f)))) 0) as [[[lvl n'] sh]|].
    2:{ rewrite Hlv. apply mwp_ret. split; [done|]. split; [done|apply G]. }
    destruct Hlv as (Hlvl & Hn' & -> & ->). apply mwp_bind. unfold mwp at 1. rewrite Hown by lia. simpl.
    destruct (Z.eqb_spec (at_pos (sb f) m (block i) (12 + lvl) []) 0) as [E|Hne].
    + apply mwp_ret. split; [|split; [done|apply G]]. unfold Ext2Inode.at_pos in *. simpl in E. by rewrite E, walk_0.
    + apply (chain_lookup _ i _ n' f m h (12 + lvl) []); try done; [split; [lia|split; [simpl; lia|constructor]]|unfold depth; simpl; lia|].
      intros _. f_equal. lia.
Qed.

(** ** The bytes of a file *)

(** Byte [o] of the file; a hole reads as zero. *)
Definition fbyte x m B (o : Z) : Z :=
  let b := bmap dev x m B (o / block_size x) in
  if b =? 0 then 0 else default 0 (blk x m b !! Z.to_nat (o mod block_size x)).

Definition fbytes x m B (off n : Z) : list Z := fbyte x m B <$> seqZ off n.

Lemma slice_lookup d (off n : nat) : (off + n ≤ length d)%nat → slice d off n = (λ j, default 0 (d !! Z.to_nat j)) <$> seqZ (Z.of_nat off) (Z.of_nat n).
Proof.
  intros H. apply list_eq. intros k. unfold slice. rewrite list_lookup_fmap. destruct (decide (k < n)%nat) as [Hk|Hk].
  - rewrite lookup_take_lt, lookup_drop by done. rewrite lookup_seqZ_lt by lia. simpl.
    destruct (lookup_lt_is_Some_2 d (off + k)%nat ltac:(lia)) as [v Hv]. rewrite Hv. simpl. f_equal.
    replace (Z.to_nat (Z.of_nat off + Z.of_nat k)) with (off + k)%nat by lia. by rewrite Hv.
  - rewrite lookup_take_ge by lia. rewrite lookup_seqZ_ge by lia. done.
Qed.

Lemma seqZ_split a n k : 0 ≤ k ≤ n → seqZ a n = seqZ a k ++ seqZ (a + k) (n - k).
Proof. intros. rewrite <- seqZ_app by lia. f_equal. lia. Qed.

(** The part of a block that holds bytes of the file. *)
Lemma block_part x m B off n b :
  sized x → bmap dev x m B (off / block_size x) = b → b ≠ 0 → block_ok x (blk x m b) →
  0 ≤ off → 0 ≤ n → off mod block_size x + n ≤ block_size x →
  slice (blk x m b) (Z.to_nat (off mod block_size x)) (Z.to_nat n) = fbytes x m B off n.
Proof.
  intros Hs Hb Hne [Hl _] Ho Hn Hfit. pose proof (ppb_pos x Hs). pose proof (sized_ppb x Hs).
  pose proof (Z.mod_pos_bound off (block_size x) ltac:(lia)) as Hm. rewrite slice_lookup by lia.
  rewrite !Z2Nat.id by lia. unfold fbytes. apply list_eq. intros k. rewrite !list_lookup_fmap.
  destruct (decide (Z.of_nat k < n)) as [Hk|Hk]; [|by rewrite !lookup_seqZ_ge by lia].
  rewrite !lookup_seqZ_lt by lia. simpl. f_equal. unfold fbyte.
  pose proof (Z.div_mod off (block_size x) ltac:(lia)) as Hdm.
  assert (Hq : (off + Z.of_nat k) / block_size x = off / block_size x) by (symmetry; apply (Z.div_unique_pos _ _ _ (off mod block_size x + Z.of_nat k)); lia).
  assert (Hr : (off + Z.of_nat k) mod block_size x = off mod block_size x + Z.of_nat k)
    by (symmetry; apply (Z.mod_unique_pos _ _ (off / block_size x)); lia).
  rewrite Hq, Hr, Hb, (proj2 (Z.eqb_neq b 0)) by done. done.
Qed.

(** Every byte of the range has a block. *)
Definition mapped x m B (off n : Z) : Prop := ∀ o, off ≤ o < off + n → bmap dev x m B (o / block_size x) ≠ 0.

Lemma bmap_file x m B n : sized x → 0 ≤ n → tree_ok x m B → bmap dev x m B n ≠ 0 → file_block x m (bmap dev x m B n).
Proof.
  intros Hs Hn Ht. unfold bmap. destruct (index_path x n) as [[slot ix]|] eqn:E; [|done].
  destruct (index_path_ok _ _ _ _ Hs Hn E) as [Hp _]. by apply (t_ids _ _ _ _ Ht).
Qed.

Lemma bmap_unheld x m B n h : sized x → 0 ≤ n → unheld dev x m B h → bmap dev x m B n ≠ 0 → K x (bmap dev x m B n) ∉ h.
Proof.
  intros Hs Hn Hu. unfold bmap. destruct (index_path x n) as [[slot ix]|] eqn:E; [|done].
  destruct (index_path_ok _ _ _ _ Hs Hn E) as [Hp _]. by apply (u_tree _ _ _ _ _ Hu).
Qed.

Lemma read_loop_ok fuel i f m h nbyte off total :
  good f m (block i) h → 0 ≤ off → 0 ≤ total ≤ nbyte → nbyte - total < Z.of_nat fuel → mapped (sb f) m (block i) off (nbyte - total) →
  mwp (read_loop dev now euid fuel i nbyte off total) f (λ r f',
    r = (inr (fbytes (sb f) m (block i) off (nbyte - total)), i) ∧ sb f' = sb f ∧ at_store m h (store f')).
Proof.
  revert f off total. induction fuel as [|fuel IH]; intros f off total G Hoff Htot Hfuel Hmap; [lia|].
  cbn [read_loop]. destruct (Z.ltb_spec total nbyte) as [Hlt|Hge].
  2:{ apply mwp_ret. replace (nbyte - total) with 0 by lia. split; [done|]. split; [done|apply G]. }
  set (x := sb f) in *. pose proof (go_sized _ _ _ _ G) as Hsi. fold x in Hsi.
  pose proof (ppb_pos x Hsi). pose proof (sized_ppb x Hsi). pose proof (Z.mod_pos_bound off (block_size x) ltac:(lia)) as Hm.
  assert (Hq : 0 ≤ off / block_size x) by (apply Z.div_pos; lia).
  apply mwp_bind, mwp_get_sb, mwp_bind. fold x. eapply mwp_mono; [by apply (get_block_lookup i f m h)|].
  intros r f1 (-> & Hsb1 & Hok1 & Hv1 & Hh1). fold x. pose proof (Hmap off ltac:(lia)) as Hne. fold x in Hne.
  set (b := bmap dev x m (block i) (off / block_size x)) in *. rewrite (proj2 (Z.eqb_neq b 0)) by done.
  set (n := Z.min (nbyte - total) (block_size x - off mod block_size x)).
  pose proof (bmap_file x m (block i) _ Hsi Hq (go_tree _ _ _ _ G) Hne) as Hfb. fold b in Hfb.
  pose proof (bmap_unheld x m (block i) _ h Hsi Hq (go_held _ _ _ _ G) Hne) as Hnh. fold b in Hnh.
  destruct (file_block_read x m b (proj1 (go_wf _ _ _ _ G)) Hfb) as (d & Hd & Hdok & Hbd & Hb31).
  pose proof (go_size _ _ _ _ G) as Hsz. apply mwp_bind.
  apply mwp_read with (d := d); [done|by rewrite Hh1|rewrite Hh1; lia|lia|by rewrite Hv1|].
  intros s2 Hok2 Hv2 Hh2. apply mwp_bind. apply mwp_release; [done|simpl; rewrite Hh2; set_solver|]. simpl. intros s3 Hok3 Hv3 Hh3.
  assert (G3 : good (MkFs (sb f1) s3) m (block i) h).
  { destruct G as [? ? ? ? ? ?]. rewrite Hsb1. split; simpl; try done. split; [done|]. split; [congruence|].
    rewrite Hh3, Hh2, Hh1. by apply union_difference_id. }
  apply mwp_bind. eapply mwp_mono; [apply (IH (MkFs (sb f1) s3) (off + n) (total + n) G3); try lia|].
  - intros o Ho. simpl. rewrite Hsb1. apply Hmap. lia.
  - simpl. rewrite Hsb1. fold x. intros r f' (-> & Hsb' & Hat'). apply mwp_ret. split; [|by rewrite Hsb'].
    do 2 f_equal. rewrite <- Hbd, (block_part x m (block i)) by (done || lia || by rewrite Hbd).
    unfold fbytes. rewrite (seqZ_split off (nbyte - total) n) by lia. rewrite fmap_app. do 2 f_equal. f_equal. lia.
Qed.

(** ** Writing *)

Definition in_tree x m B (c : Z) : Prop := ∃ s js, pos_ok x s js ∧ at_pos x m B s js = c ∧ c ≠ 0.

(** The file may have grown new blocks, but its bytes are the same. *)
Record same_file x m B m' B' : Prop := {
  sf_bmap n : 0 ≤ n → bmap dev x m B n ≠ 0 → bmap dev x m' B' n = bmap dev x m B n;
  sf_other c : file_block x m c → ¬ in_tree x m B c → file_block x m' c ∧ ¬ in_tree x m' B' c ∧ m' !! K x c = m !! K x c }.

Lemma evolved_bmap x m B slot full m' B' n0 n :
  sized x → evolved x m B slot full m' B' → 0 ≤ n0 → 0 ≤ n → index_path x n0 = Some (slot, full) → n ≠ n0 →
  bmap dev x m' B' n = bmap dev x m B n.
Proof.
  intros Hs He Hn0 Hn Hp0 Hne. unfold bmap. destruct (index_path x n) as [[s js]|] eqn:Hpn; [|done].
  destruct (index_path_ok _ _ _ _ Hs Hn Hpn) as [Hp Hl]. destruct (index_path_ok _ _ _ _ Hs Hn0 Hp0) as [_ Hl0].
  destruct (e_at _ _ _ _ _ _ _ _ He s js Hp) as [?|(-> & Hpre & _)]; [done|]. destruct Hne.
  eapply (index_path_inj x n n0); [done..|]. rewrite Hp0. do 2 f_equal. symmetry. apply prefix_length_eq; [done|]. lia.
Qed.

Lemma evolved_same x m B slot full m' B' : evolved x m B slot full m' B' → sized x → tree_ok x m B → same_file x m B m' B'.
Proof.
  intros He Hs Ht. split.
  - intros n Hn Hne. unfold bmap in *. destruct (index_path x n) as [[s js]|] eqn:Hpn; [|done].
    destruct (index_path_ok _ _ _ _ Hs Hn Hpn) as [Hp _]. destruct (e_at _ _ _ _ _ _ _ _ He s js Hp) as [?|(_ & _ & ? & _)]; done.
  - intros c Hc Hnt. split; [by apply (e_file _ _ _ _ _ _ _ _ He)|]. split.
    + intros (s & js & Hp & E & Hne). destruct (e_at _ _ _ _ _ _ _ _ He s js Hp) as [E'|(_ & _ & _ & _ & Hu)].
      * apply Hnt. exists s, js. by rewrite <- E'.
      * destruct Hc as (_ & Huc & _). congruence.
    + apply (e_frame _ _ _ _ _ _ _ _ He); [done|]. intros (s & js & Hp & _ & E). apply Hnt. exists s, js.
      split; [done|]. split; [done|]. destruct Hc as ((? & _) & _). lia.
Qed.

(** The bytes of a file only depend on its blocks. *)
Lemma fbyte_ext x m B m' B' o :
  bmap dev x m' B' (o / block_size x) = bmap dev x m B (o / block_size x) →
  blk x m' (bmap dev x m B (o / block_size x)) = blk x m (bmap dev x m B (o / block_size x)) → fbyte x m' B' o = fbyte x m B o.
Proof. intros E1 E2. unfold fbyte. by rewrite E1, E2. Qed.

Lemma bmap_leaf x m B n :
  sized x → 0 ≤ n → tree_ok x m B → bmap dev x m B n ≠ 0 → ¬ pointer_block dev x m B (bmap dev x m B n).
Proof.
  intros Hs Hn Ht. unfold bmap. destruct (index_path x n) as [[s js]|] eqn:Hpn; [|done].
  destruct (index_path_ok _ _ _ _ Hs Hn Hpn) as [Hp Hl]. intros Hne. by apply leaf_not_pointer.
Qed.

Lemma filled_fbyte f m i slot full h r f' n0 t c m' :
  good f m (block i) h → 0 ≤ n0 → index_path (sb f) n0 = Some (slot, full) →
  sb f' = later t c (sb f) → evolved (sb f) m (block i) slot full m' (block r.2) →
  (if r.1 =? 0 then no_space (sb f') euid = true ∧ at_pos (sb f) m' (block r.2) slot full = 0
    else at_pos (sb f) m' (block r.2) slot full = r.1 ∧
      (at_pos (sb f) m (block i) slot full = 0 → blk (sb f) m' r.1 = zeros (sb f))) →
  ∀ o, 0 ≤ o → fbyte (sb f) m' (block r.2) o = fbyte (sb f) m (block i) o.
Proof.
  intros G Hn0 Hp0 Hsb He Hr o Ho. set (x := sb f) in *. pose proof (go_sized _ _ _ _ G) as Hs. fold x in Hs.
  pose proof (ppb_pos x Hs). pose proof (sized_ppb x Hs). pose proof (go_tree _ _ _ _ G) as Ht. fold x in Ht.
  assert (Hq : 0 ≤ o / block_size x) by (apply Z.div_pos; lia).
  assert (Hkeep : bmap dev x m (block i) (o / block_size x) ≠ 0 →
    blk x m' (bmap dev x m (block i) (o / block_size x)) = blk x m (bmap dev x m (block i) (o / block_size x))).
  { intros Hne. unfold Ext2Alloc.blk. rewrite (e_frame _ _ _ _ _ _ _ _ He); [done|by apply bmap_file|by apply bmap_leaf]. }
  destruct (decide (bmap dev x m (block i) (o / block_size x) = 0)) as [E0|Hne].
  2:{ apply fbyte_ext; [|by apply Hkeep]. by apply (sf_bmap _ _ _ _ _ (evolved_same _ _ _ _ _ _ _ He Hs Ht)). }
  assert (Hz : fbyte x m (block i) o = 0) by (unfold fbyte; by rewrite E0). rewrite Hz.
  destruct (decide (o / block_size x = n0)) as [En|Hn].
  - unfold fbyte. unfold bmap in E0 |- *. rewrite En, Hp0 in E0 |- *. destruct (r.1 =? 0) eqn:Er.
    + destruct Hr as [_ ->]. done.
    + destruct Hr as [-> Hzero]. rewrite Er, Hzero by done. unfold zeros. rewrite lookup_replicate_2; [done|].
      pose proof (Z.mod_pos_bound o (block_size x) ltac:(lia)). lia.
  - unfold fbyte. rewrite (evolved_bmap x m (block i) slot full m' _ n0) by done. by rewrite E0.
Qed.

(** Storing into a data block of the file. *)
Lemma store_good f f' m B h n d :
  good f m B h → 0 ≤ n → bmap dev (sb f) m B n ≠ 0 → block_ok (sb f) d → sb f' = sb f →
  at_store (<[K (sb f) (bmap dev (sb f) m B n) := d]> m) h (store f') →
  let m' := <[K (sb f) (bmap dev (sb f) m B n) := d]> m in
  good f' m' B h ∧ (∀ s js, pos_ok (sb f) s js → at_pos (sb f) m' B s js = at_pos (sb f) m B s js) ∧
  (∀ c, file_block (sb f) m c → file_block (sb f) m' c).
Proof.
  intros [[Hw Hsum] Hs Ht Hat Hh Hsz] Hn Hne Hd Hsb Hat' m'. set (x := sb f) in *. set (b := bmap dev x m B n) in *.
  pose proof (bmap_file x m B n Hs Hn Ht Hne) as Hfb. pose proof (bmap_leaf x m B n Hs Hn Ht Hne) as Hleaf. fold b in Hfb, Hleaf.
  destruct Hfb as (Hbr & Hbu & Hbro & Hbsb). destruct (data_write_meta dev x m b d Hw Hbro Hbsb Hd) as [Hw' Hsm]. fold m' in Hw', Hsm.
  assert (Hpos : ∀ s js, pos_ok x s js → at_pos x m' B s js = at_pos x m B s js).
  { apply walk_frame. intros s js Hp Hlt Hnz. unfold m'. rewrite blk_insert, decide_False; [done|].
    intros E. apply Hleaf. exists s, js. done. }
  assert (Hfile : ∀ c, file_block x m c → file_block x m' c).
  { intros c (Hc & Hu & Hr & Hcs). split; [done|]. split; [by rewrite (sm_used _ _ _ _ Hsm) by (unfold total in Hc; lia)|].
    split; [|done]. intros r Hrok. rewrite (same_role dev x m) by done. by apply Hr. }
  split; [|done]. split; rewrite ?Hsb; try done.
  - split; [done|]. intros k. rewrite (same_sum dev x m m' k (w_geo _ _ _ Hw) Hsm). apply Hsum.
  - split; [apply Ht|..].
    + intros s js Hp. rewrite Hpos by done. intros Hnz. by apply Hfile, (t_ids _ _ _ _ Ht).
    + intros s js s' js' Hp Hp'. rewrite !Hpos by done. by apply (t_inj _ _ _ _ Ht).
  - destruct Hh as [Hl Hu]. split; [by eapply same_lets|]. intros s js Hp. rewrite Hpos by done. by apply Hu.
Qed.

Lemma bmap_inj x m B n n' :
  sized x → 0 ≤ n → 0 ≤ n' → tree_ok x m B → bmap dev x m B n ≠ 0 → bmap dev x m B n = bmap dev x m B n' → n = n'.
Proof.
  intros Hs Hn Hn' Ht. unfold bmap. destruct (index_path x n) as [[s js]|] eqn:E; [|done].
  destruct (index_path x n') as [[s' js']|] eqn:E'; [|done]. intros Hne Heq.
  destruct (index_path_ok _ _ _ _ Hs Hn E) as [Hp _]. destruct (index_path_ok _ _ _ _ Hs Hn' E') as [Hp' _].
  destruct (t_inj _ _ _ _ Ht s js s' js' Hp Hp' Hne Heq) as [<- <-]. by eapply index_path_inj.
Qed.

Lemma store_fbyte f m B h n d o :
  good f m B h → 0 ≤ n → 0 ≤ o → bmap dev (sb f) m B n ≠ 0 →
  (∀ s js, pos_ok (sb f) s js → at_pos (sb f) (<[K (sb f) (bmap dev (sb f) m B n) := d]> m) B s js = at_pos (sb f) m B s js) →
  fbyte (sb f) (<[K (sb f) (bmap dev (sb f) m B n) := d]> m) B o =
    if decide (o / block_size (sb f) = n) then default 0 (d !! Z.to_nat (o mod block_size (sb f))) else fbyte (sb f) m B o.
Proof.
  intros G Hn Ho Hne Hpos. set (x := sb f) in *. pose proof (go_sized _ _ _ _ G) as Hs. fold x in Hs.
  pose proof (ppb_pos x Hs). pose proof (sized_ppb x Hs).
  assert (Hbm : ∀ k, 0 ≤ k → bmap dev x (<[K x (bmap dev x m B n) := d]> m) B k = bmap dev x m B k).
  { intros k Hk. unfold bmap at 1 3. destruct (index_path x k) as [[s js]|] eqn:E; [|done].
    destruct (index_path_ok _ _ _ _ Hs Hk E) as [Hp _]. by apply Hpos. }
  assert (Hq : 0 ≤ o / block_size x) by (apply Z.div_pos; lia).
  unfold fbyte. rewrite Hbm by done. case_decide as E.
  - rewrite E, (proj2 (Z.eqb_neq _ 0)) by done. rewrite blk_insert, decide_True; done.
  - destruct (Z.eqb_spec (bmap dev x m B (o / block_size x)) 0); [done|]. rewrite blk_insert, decide_False; [done|].
    intros E'. apply E. eapply (bmap_inj x m B); try done. apply G.
Qed.

Lemma same_file_trans x m B m1 B1 m2 B2 : same_file x m B m1 B1 → same_file x m1 B1 m2 B2 → same_file x m B m2 B2.
Proof.
  intros [S1 O1] [S2 O2]. split.
  - intros n Hn Hne. rewrite S2; [by apply S1|done|by rewrite S1].
  - intros c Hc Hnt. destruct (O1 c Hc Hnt) as (Hc1 & Hnt1 & E1). destruct (O2 c Hc1 Hnt1) as (Hc2 & Hnt2 & E2).
    split; [done|]. split; [done|]. congruence.
Qed.

Lemma later_bmap t c x m B n : bmap dev (later t c x) m B n = bmap dev x m B n.
Proof.
  unfold bmap. assert (E : index_path (later t c x) n = index_path x n).
  { unfold index_path. rewrite !later_idxs. done. }
  rewrite E. destruct (index_path x n) as [[s js]|]; [apply later_at|done].
Qed.

Lemma later_fbyte t c x m B o : fbyte (later t c x) m B o = fbyte x m B o.
Proof. unfold fbyte. rewrite later_bmap. done. Qed.

Lemma later_same_file t c x m B m' B' : same_file (later t c x) m B m' B' → same_file x m B m' B'.
Proof.
  assert (Hin : ∀ m B b, in_tree (later t c x) m B b ↔ in_tree x m B b).
  { intros m0 B0 b. unfold in_tree. split; intros (s & js & ? & E & ?); exists s, js; (split; [done|]; split; [|done]);
      [by rewrite later_at in E|by rewrite later_at]. }
  intros [Hb Ho]. split.
  - intros n Hn. specialize (Hb n Hn). by rewrite !later_bmap in Hb.
  - intros b Hfb Hnt. specialize (Ho b Hfb). rewrite !Hin in Ho. by apply Ho.
Qed.

(** The outcome of a write: [p] of the [n] bytes were stored. *)
Definition wrote f m i (src : list Z) (nbyte off total : Z) h (r : (Z + Z) * Inode) f' : Prop :=
  ∃ p t c m', sb f' = later t c (sb f) ∧ good f' m' (block r.2) h ∧ attrs r.2 = attrs i ∧ 0 ≤ p ≤ nbyte - total ∧
    same_file (sb f) m (block i) m' (block r.2) ∧
    (∀ o, 0 ≤ o → fbyte (sb f) m' (block r.2) o =
       if decide (off ≤ o < off + p) then default 0 (src !! Z.to_nat (total + (o - off))) else fbyte (sb f) m (block i) o) ∧
    match r.1 with
    | inr n => n = nbyte ∧ p = nbyte - total ∧ mapped (sb f) m' (block r.2) off (nbyte - total)
    | inl e => e = ENOMEM ∧ no_space (sb f') euid = true ∧ ¬ mapped (sb f) m (block i) off (nbyte - total)
    end.

(** The range lies below the largest size the tables can describe. *)
Definition indexed x (off n : Z) : Prop := ∀ o, off ≤ o < off + n → is_Some (index_path x (o / block_size x)).

Lemma same_block x off n o :
  0 < block_size x → 0 ≤ off → 0 ≤ n → off mod block_size x + n ≤ block_size x → off ≤ o < off + n →
  o / block_size x = off / block_size x ∧ o mod block_size x = off mod block_size x + (o - off).
Proof.
  intros Hbs Ho Hn Hfit Hr. pose proof (Z.div_mod off (block_size x) ltac:(lia)). pose proof (Z.mod_pos_bound off (block_size x) Hbs).
  split; symmetry; [apply (Z.div_unique_pos _ _ _ (off mod block_size x + (o - off)))|apply (Z.mod_unique_pos _ _ (off / block_size x))]; lia.
Qed.

(** One block's worth of a write. *)
Lemma write_part f m B h off n (part : list Z) :
  good f m B h → 0 ≤ off → 0 ≤ n → Z.of_nat (length part) = n → Forall byte part →
  off mod block_size (sb f) + n ≤ block_size (sb f) →
  let b := bmap dev (sb f) m B (off / block_size (sb f)) in b ≠ 0 →
  let d := splice (blk (sb f) m b) (Z.to_nat (off mod block_size (sb f))) part in
  block_ok (sb f) d ∧
  ((∀ s js, pos_ok (sb f) s js → at_pos (sb f) (<[K (sb f) b := d]> m) B s js = at_pos (sb f) m B s js) →
   ∀ o, 0 ≤ o → fbyte (sb f) (<[K (sb f) b := d]> m) B o =
     if decide (off ≤ o < off + n) then default 0 (part !! Z.to_nat (o - off)) else fbyte (sb f) m B o).
Proof.
  intros G Hoff Hn Hlp Hbp Hfit b Hne d. set (x := sb f) in *. pose proof (go_sized _ _ _ _ G) as Hs. fold x in Hs.
  pose proof (ppb_pos x Hs). pose proof (sized_ppb x Hs). pose proof (Z.mod_pos_bound off (block_size x) ltac:(lia)) as Hm.
  assert (Hq : 0 ≤ off / block_size x) by (apply Z.div_pos; lia).
  pose proof (bmap_file x m B _ Hs Hq (go_tree _ _ _ _ G) Hne) as Hfb.
  destruct (file_block_read x m b (proj1 (go_wf _ _ _ _ G)) Hfb) as (d0 & _ & [Hl0 Hb0] & Hbd & _).
  assert (Hfits : (Z.to_nat (off mod block_size x) + length part ≤ length (blk x m b))%nat) by (rewrite Hbd; lia).
  split.
  { split; [unfold d; rewrite length_splice by done; by rewrite Hbd|]. apply Forall_splice; [by rewrite Hbd|done]. }
  intros Hpos o Ho. unfold b. rewrite (store_fbyte f m B h) by done. fold x. fold b.
  destruct (decide (off ≤ o < off + n)) as [Hin|Hout].
  - destruct (same_block x off n o) as [E1 E2]; try lia. rewrite decide_True by done. unfold d.
    rewrite lookup_splice, decide_True by (done || lia). do 2 f_equal. lia.
  - case_decide as E; [|done]. unfold d. rewrite lookup_splice by done. rewrite decide_False.
    + unfold fbyte. rewrite E. fold b. rewrite (proj2 (Z.eqb_neq b 0)) by done. done.
    + intros Hr. apply Hout. pose proof (Z.div_mod o (block_size x) ltac:(lia)). pose proof (Z.div_mod off (block_size x) ltac:(lia)).
      pose proof (Z.mod_pos_bound o (block_size x) ltac:(lia)). rewrite E in *. lia.
Qed.

Lemma store_same_file x m B n d :
  sized x → 0 ≤ n → tree_ok x m B → bmap dev x m B n ≠ 0 →
  (∀ s js, pos_ok x s js → at_pos x (<[K x (bmap dev x m B n) := d]> m) B s js = at_pos x m B s js) →
  (∀ c, file_block x m c → file_block x (<[K x (bmap dev x m B n) := d]> m) c) →
  same_file x m B (<[K x (bmap dev x m B n) := d]> m) B.
Proof.
  intros Hs Hn Ht Hne Hpos Hfile. split.
  - intros k Hk _. unfold bmap at 1 3. destruct (index_path x k) as [[s js]|] eqn:E; [|done].
    destruct (index_path_ok _ _ _ _ Hs Hk E) as [Hp _]. by apply Hpos.
  - intros c Hc Hnt. split; [by apply Hfile|]. split.
    + intros (s & js & Hp & E & Hc0). apply Hnt. exists s, js. by rewrite <- Hpos.
    + rewrite lookup_insert_ne; [done|]. intros <-%K_inj. apply Hnt. unfold bmap in *.
      destruct (index_path x n) as [[s js]|] eqn:E; [|done]. destruct (index_path_ok _ _ _ _ Hs Hn E) as [Hp _]. by exists s, js.
Qed.

Lemma slice_src (src : list Z) (a n : nat) k : (k < n)%nat → slice src a n !! k = src !! (a + k)%nat.
Proof. intros. unfold slice. by rewrite lookup_take_lt, lookup_drop. Qed.

(** The part of a write that one block takes, then the rest. *)
Lemma wrote_step f f1 f2 m m1 i i1 src nbyte off total n h c t b d0 (r : (Z + Z) * Inode) f' :
  good f m (block i) h → 0 ≤ off → 0 ≤ total → 0 < n ≤ nbyte - total → off mod block_size (sb f) + n ≤ block_size (sb f) →
  sb f1 = later t c (sb f) → good f1 m1 (block i1) h → attrs i1 = attrs i → same_file (sb f) m (block i) m1 (block i1) →
  (∀ o, 0 ≤ o → fbyte (sb f) m1 (block i1) o = fbyte (sb f) m (block i) o) →
  Forall byte src → nbyte ≤ Z.of_nat (length src) →
  bmap dev (sb f) m1 (block i1) (off / block_size (sb f)) = b → b ≠ 0 → blk (sb f) m1 b = d0 →
  let d := splice d0 (Z.to_nat (off mod block_size (sb f))) (slice src (Z.to_nat total) (Z.to_nat n)) in
  sb f2 = sb f1 → at_store (<[K (sb f) b := d]> m1) h (store f2) →
  good f2 (<[K (sb f) b := d]> m1) (block i1) h ∧
  (wrote f2 (<[K (sb f) b := d]> m1) i1 src nbyte (off + n) (total + n) h r f' → wrote f m i src nbyte off total h r f').
Proof.
  intros G Hoff Htot Hn Hfit Hsb1 G1 Ha1 Hsf1 Hfb1 Hsrc Hlen Eb Hne <- d Hsb2 Hat2. set (x := sb f) in *. subst b. set (b := bmap dev x m1 (block i1) (off / block_size x)) in *.
  pose proof (go_sized _ _ _ _ G) as Hs. fold x in Hs. pose proof (ppb_pos x Hs). pose proof (sized_ppb x Hs).
  assert (Hq : 0 ≤ off / block_size x) by (apply Z.div_pos; lia).
  assert (Hb1 : bmap dev (sb f1) m1 (block i1) (off / block_size (sb f1)) = b) by (rewrite Hsb1; apply later_bmap).
  assert (Hlp : Z.of_nat (length (slice src (Z.to_nat total) (Z.to_nat n))) = n).
  { unfold slice. rewrite length_take, length_drop. lia. }
  destruct (write_part f1 m1 (block i1) h off n (slice src (Z.to_nat total) (Z.to_nat n))) as [Hdok Hfby]; try done; try lia.
  all: try (by (unfold slice; apply Forall_take, Forall_drop)); try (by (rewrite Hsb1; try rewrite later_bmap)).
  assert (Hsb2' : sb f2 = later t c x) by congruence. rewrite Hsb1 in Hdok, Hfby. rewrite Hsb1, later_bmap in Hb1.
  change (block_size (later t c x)) with (block_size x) in *. rewrite later_bmap in Hdok, Hfby. fold b in Hdok, Hfby.
  change (K (later t c x)) with (K x) in Hfby. change (blk (later t c x)) with (blk x) in Hdok, Hfby. fold d in Hdok, Hfby.
  destruct (store_good f1 f2 m1 (block i1) h (off / block_size x) d) as (G2 & Hpos & Hfile); try done; try (by rewrite Hsb1, later_bmap).
  { by rewrite Hsb1. }
  rewrite Hsb1, later_bmap in G2. fold b in G2. change (K (later t c x)) with (K x) in G2. split; [done|].
  rewrite Hsb1, later_bmap in Hpos, Hfile. fold b in Hpos, Hfile. change (K (later t c x)) with (K x) in Hpos, Hfile.
  specialize (Hfby Hpos).
  assert (Hpos' : ∀ s js, pos_ok x s js → at_pos x (<[K x b := d]> m1) (block i1) s js = at_pos x m1 (block i1) s js).
  { intros s js Hp. specialize (Hpos s js Hp). by rewrite !later_at in Hpos. }
  pose proof (go_tree _ _ _ _ G1) as Ht1. rewrite Hsb1 in Ht1. apply (proj1 (later_tree _ _ _ _ _ _)) in Ht1.
  pose proof (store_same_file x m1 (block i1) (off / block_size x) d Hs Hq Ht1 Hne Hpos' Hfile) as Hsf2. fold b in Hsf2.
  intros (p & t' & c' & m' & Hsb' & G' & Ha' & Hp & Hsf' & Hfb' & Hr). rewrite Hsb2' in Hsb', Hsf', Hfb', Hr.
  apply later_same_file in Hsf'. pose proof (same_file_trans _ _ _ _ _ _ _ Hsf1 (same_file_trans _ _ _ _ _ _ _ Hsf2 Hsf')) as Hsf.
  exists (n + p), t', c', m'. split; [exact Hsb'|]. split; [done|]. split; [congruence|]. split; [lia|]. split; [done|]. split.
  - intros o Ho. specialize (Hfb' o Ho). rewrite !later_fbyte in Hfb'. fold x. rewrite Hfb'. specialize (Hfby o Ho). rewrite !later_fbyte in Hfby.
    rewrite Hfby, Hfb1 by done. destruct (decide (off + n ≤ o < off + n + p)).
    + rewrite decide_True by lia. do 2 f_equal. lia.
    + destruct (decide (off ≤ o < off + n)).
      * rewrite (decide_True (P := off ≤ o < off + (n + p))) by lia. rewrite slice_src by lia. do 2 f_equal. lia.
      * rewrite decide_False by lia. done.
  - destruct (r.1) as [e|nn].
    { destruct Hr as (He & Hns & Hnm). split; [done|]. split; [done|]. intros Hmap. apply Hnm. intros o Ho. rewrite later_bmap.
      specialize (Hmap o ltac:(lia)). fold x in Hmap. assert (Hqo : 0 ≤ o / block_size x) by (apply Z.div_pos; lia).
      change (block_size (later t c x)) with (block_size x). rewrite (sf_bmap _ _ _ _ _ Hsf2), (sf_bmap _ _ _ _ _ Hsf1); try done; by rewrite (sf_bmap _ _ _ _ _ Hsf1). }
    destruct Hr as (-> & -> & Hmap). split; [done|]. split; [lia|].
    intros o Ho. destruct (Z.lt_ge_cases o (off + n)) as [Hlt|Hge].
    + destruct (same_block x off n o) as [E _]; try lia. fold x. rewrite E. rewrite (sf_bmap _ _ _ _ _ Hsf'); [|done|].
      * rewrite (sf_bmap _ _ _ _ _ Hsf2) by done. done.
      * rewrite (sf_bmap _ _ _ _ _ Hsf2) by done. done.
    + specialize (Hmap o ltac:(lia)). by rewrite later_bmap in Hmap.
Qed.

Lemma write_loop_ok fuel i f m h src nbyte off total :
  good f m (block i) h → 0 ≤ off → 0 ≤ total ≤ nbyte → nbyte - total < Z.of_nat fuel → Forall byte src →
  nbyte ≤ Z.of_nat (length src) → indexed (sb f) off (nbyte - total) →
  mwp (write_loop dev now euid fuel i (readable src) nbyte off total) f (wrote f m i src nbyte off total h).
Proof.
  revert i f m off total. induction fuel as [|fuel IH]; intros i f m off total G Hoff Htot Hfuel Hsrc Hlen Hidx; [lia|].
  assert (Hnone : ∀ r, match r with inr n => n = nbyte ∧ total = nbyte | inl e => False end → wrote f m i src nbyte off total h (r, i) f).
  { intros r Hr. exists 0, (wtime (sb f)), (free_blocks_count (sb f)), m. split; [apply later_self|]. split; [done|]. split; [done|].
    split; [lia|]. split; [split; auto|]. split; [intros o Ho; by rewrite decide_False by lia|]. simpl. destruct r; [done|].
    destruct Hr as [-> ->]. split; [done|]. split; [lia|]. intros o Ho. lia. }
  cbn [write_loop]. destruct (Z.ltb_spec total nbyte) as [Hlt|Hge]; [|apply mwp_ret, Hnone; split; lia].
  set (x := sb f) in *. pose proof (go_sized _ _ _ _ G) as Hs. fold x in Hs. pose proof (ppb_pos x Hs). pose proof (sized_ppb x Hs).
  pose proof (Z.mod_pos_bound off (block_size x) ltac:(lia)) as Hm. assert (Hq : 0 ≤ off / block_size x) by (apply Z.div_pos; lia).
  destruct (Hidx off ltac:(lia)) as [[slot full] Hpath].
  apply mwp_bind, mwp_get_sb, mwp_bind. fold x. eapply mwp_mono; [by apply (get_block_ok i f m h (off / block_size x) slot full)|].
  intros [b i1] f1 (t & c & m1 & Hsb1 & G1 & Ha1 & He & Hr). fold x. simpl in G1, Ha1, He.
  pose proof (filled_fbyte f m i slot full h (b, i1) f1 _ t c m1 G Hq Hpath Hsb1 He Hr) as Hfb1. simpl in Hfb1, Hr.
  pose proof (evolved_same x m (block i) slot full m1 (block i1) He Hs (go_tree _ _ _ _ G)) as Hsf1.
  set (n := Z.min (nbyte - total) (block_size x - off mod block_size x)).
  destruct (b =? 0) eqn:Eb.
  { apply mwp_ret. exists 0, t, c, m1. split; [done|]. split; [done|]. split; [done|]. split; [lia|]. split; [done|].
    split; [|split; [done|]; split; [by destruct Hr|]].
    - intros o Ho. rewrite decide_False by lia. by apply Hfb1.
    - intros Hmap. specialize (Hmap off ltac:(lia)). fold x in Hmap. pose proof (sf_bmap _ _ _ _ _ Hsf1 _ Hq Hmap) as Hkeep.
      apply Hmap. rewrite <- Hkeep. unfold bmap. rewrite Hpath. by destruct Hr. }
  apply Z.eqb_neq in Eb. destruct Hr as [Hat _].
  assert (Hbm : bmap dev x m1 (block i1) (off / block_size x) = b) by (unfold bmap; by rewrite Hpath).
  pose proof (go_tree _ _ _ _ G1) as Ht1. rewrite Hsb1 in Ht1. apply (proj1 (later_tree _ _ _ _ _ _)) in Ht1. fold x in Ht1.
  assert (Hne : bmap dev x m1 (block i1) (off / block_size x) ≠ 0) by (by rewrite Hbm).
  pose proof (bmap_file x m1 (block i1) _ Hs Hq Ht1 Hne) as Hfb. rewrite Hbm in Hfb.
  pose proof (go_held _ _ _ _ G1) as Hu1. rewrite Hsb1 in Hu1. apply (proj1 (later_unheld _ _ _ _ _ _ _)) in Hu1. fold x in Hu1.
  pose proof (bmap_unheld x m1 (block i1) _ h Hs Hq Hu1 Hne) as Hnh. rewrite Hbm in Hnh.
  pose proof (proj1 (go_wf _ _ _ _ G1)) as Hw1. rewrite Hsb1 in Hw1. apply (proj1 (later_wfs _ _ _ _ _)) in Hw1. fold x in Hw1.
  destruct (file_block_read x m1 b Hw1 Hfb) as (d & Hd & Hdok & Hbd & Hb31).
  destruct (go_at _ _ _ _ G1) as (Hok1 & Hv1 & Hh1). pose proof (go_size _ _ _ _ G) as Hsz.
  apply mwp_bind. apply mwp_read with (d := d); [done|by rewrite Hh1|rewrite Hh1; lia|lia|by rewrite Hv1|].
  intros s2 Hok2 Hv2 Hh2. apply mwp_bind.
  apply mwp_write with (d0 := d); [done|simpl; rewrite Hh2; set_solver|simpl; by rewrite Hv2, Hv1| |].
  { destruct Hdok. apply length_splice. unfold readable, slice. rewrite length_take. lia. }
  simpl. intros s3 Hok3 Hv3 Hh3. unfold readable in *.
  set (d' := splice d (Z.to_nat (off mod block_size x)) (slice src (Z.to_nat total) (Z.to_nat n))) in *.
  assert (Hat3 : at_store (<[K x b := d']> m1) h s3).
  { split; [done|]. split; [by rewrite Hv3, Hv2, Hv1|]. rewrite Hh3, Hh2, Hh1. by apply union_difference_id. }
  assert (Hstep : ∀ r f', good (MkFs (sb f1) s3) (<[K x b := d']> m1) (block i1) h ∧
    (wrote (MkFs (sb f1) s3) (<[K x b := d']> m1) i1 src nbyte (off + n) (total + n) h r f' → wrote f m i src nbyte off total h r f')).
  { intros r f'. apply (wrote_step f f1 (MkFs (sb f1) s3) m m1 i i1 src nbyte off total n h c t b d r f'); done || (fold x; lia). }
  eapply mwp_mono; [apply (IH i1 (MkFs (sb f1) s3) (<[K x b := d']> m1) (off + n) (total + n)); try done; try lia|].
  - apply (Hstep (inr 0, i) f1).
  - simpl. rewrite Hsb1. intros o Ho. destruct (Hidx o ltac:(lia)) as [p Hp]. exists p. unfold index_path in *. rewrite !later_idxs. exact Hp.
  - intros r f' Hw. by apply Hstep.
Qed.

Lemma wrote_read f m i src off h n i' f' :
  0 ≤ off → wrote f m i src (Z.of_nat (length src)) off 0 h (inr n, i') f' →
  mwp (ext2_read_data dev now euid i' n off) f' (λ r f2, r = (inr src, i') ∧ sb f2 = sb f').
Proof.
  intros Hoff (p & t & c & m' & Hsb & G & _ & _ & _ & Hby & -> & -> & Hmap). simpl in G, Hby, Hmap.
  rewrite Z.sub_0_r in *. unfold ext2_read_data. rewrite <- (Z.sub_0_r (Z.of_nat (length src))) in Hmap.
  eapply mwp_mono; [apply (read_loop_ok _ i' f' m' h); try done; try lia|].
  - intros o Ho. rewrite Hsb, later_bmap. by apply Hmap.
  - intros r f2 (-> & -> & _). split; [|done]. do 2 f_equal. rewrite Z.sub_0_r. unfold fbytes. apply list_eq. intros k.
    rewrite list_lookup_fmap. destruct (decide (k < length src)%nat) as [Hk|Hk].
    + rewrite lookup_seqZ_lt by lia. simpl. rewrite Hsb, later_fbyte, Hby by lia. rewrite decide_True by lia.
      replace (Z.to_nat (0 + (off + Z.of_nat k - off))) with k by lia. by destruct (lookup_lt_is_Some_2 src k Hk) as [v ->].
    + rewrite lookup_seqZ_ge by lia. symmetry. apply lookup_ge_None_2. lia.
Qed.

(** The whole of an allocating lookup, an index that no tree holds included. *)
Lemma get_block_far i f n alloc :
  sized (sb f) → 0 ≤ n → index_path (sb f) n = None → ext2_inode_get_block dev now euid i n alloc f = Ok ((0, i), f).
Proof.
  intros Hs Hn Hp. unfold ext2_inode_get_block, mbind, M_bind, get_sb, EXT2_MAX_DIRECT_BLOCKS.
  destruct (Z.ltb_spec n 12) as [|Hge]; [unfold index_path in Hp; by rewrite (proj2 (Z.ltb_lt n 12)) in Hp|].
  pose proof (find_level_ok (sb f) n Hs Hge) as Hlv.
  destruct (find_level 3 (sb f) 0 (n - 12) (u32 (Z.shiftl 1 (shift_per_lvl (sb f)))) 0) as [[[lvl n'] sh]|]; [|done].
  destruct Hlv as (_ & _ & _ & Hlv). congruence.
Qed.

(** The block map of a file ([ext2_inode_get_block]), on a consistent file
    system.  Without [alloc] the lookup answers with the entry of the map and
    changes nothing.  With [alloc] it adds the missing entry: the blocks the
    file had keep their places, the new data block is full of zeros and no
    other file loses or shares a block; 0 comes back only for an index past the
    triple-indirect tree or when the file system has no space left for the
    caller, and then the map of the file has not changed. *)
Theorem ext2_get_block_spec i f m h n :
  good f m (block i) h → 0 ≤ n →
  mwp (ext2_inode_get_block dev now euid i n false) f (λ r f',
    r = (bmap dev (sb f) m (block i) n, i) ∧ sb f' = sb f ∧ at_store m h (store f')) ∧
  mwp (ext2_inode_get_block dev now euid i n true) f (λ r f',
    match index_path (sb f) n with
    | None => r = (0, i) ∧ f' = f
    | Some (slot, full) => filled f m i slot full h r f'
    end).
Proof.
  intros G Hn. split; [by apply get_block_lookup|]. destruct (index_path (sb f) n) as [[slot full]|] eqn:E.
  - by apply (get_block_ok i f m h n).
  - unfold mwp. by rewrite (get_block_far i f n true (go_sized _ _ _ _ G) Hn E).
Qed.

(** C31: writing the bytes [src] of memory that can be read at [off] of a file and reading them back
    ([ext2_write_data], [ext2_read_data]).  The write ends, for every range the
    trees can index: it stores all of [src], and then the read returns exactly
    [src]; or part of the range has no block, the file system has no space left
    for the caller, and a prefix is stored.  Every byte outside the part written keeps its value, holes read as
    zeros, no block of another file changes, and the file system is consistent
    after it. *)
Theorem ext2_write_read_data i f m h src off :
  good f m (block i) h → 0 ≤ off → Forall byte src → indexed (sb f) off (Z.of_nat (length src)) →
  mwp (ext2_write_data dev now euid i (readable src) (Z.of_nat (length src)) off) f (λ r f',
    wrote f m i src (Z.of_nat (length src)) off 0 h r f' ∧
    ∀ n, r.1 = inr n → mwp (ext2_read_data dev now euid r.2 n off) f' (λ r2 f2, r2 = (inr src, r.2) ∧ sb f2 = sb f')).
Proof.
  intros G Hoff Hsrc Hidx. unfold ext2_write_data. eapply mwp_mono.
  - apply (write_loop_ok _ i f m h src); try done; try lia. by rewrite Z.sub_0_r.
  - intros [r1 i'] f' Hw. split; [done|]. intros n Hn. simpl in *. subst r1. by apply (wrote_read f m i src off h).
Qed.

End file.

(** ** Truncation past the first tree *)

Section truncation.
Context {S : Type} `{!BlockOps S} (dev now : Z).

(** The number of blocks of a file of [length] bytes. *)
Definition nblocks x (length : Z) : Z := (length + block_size x - 1) / block_size x.

Lemma trunc_direct_far fuel i (f : fs S) n end_ : 12 ≤ n → trunc_direct dev now (Datatypes.S fuel) i n end_ f = Ok ((n, i), f).
Proof. intros Hn. cbn [trunc_direct]. unfold EXT2_MAX_DIRECT_BLOCKS. by rewrite (proj2 (Z.ltb_ge n 12) Hn), andb_false_r. Qed.

(** A length past the single-indirect tree: the first step of the loop over the
    trees skips that tree and continues from its end, whatever the length. *)
Lemma trunc_far i (f : fs S) length :
  sized (sb f) → 12 + ppb (sb f) < nblocks (sb f) length < nblocks (sb f) (isize i) →
  ext2_trunc dev now i length f =
    trunc_levels dev now 2 i 1 (12 + ppb (sb f)) (nblocks (sb f) (isize i)) (12 + ppb (sb f))
      (u32 (Z.shiftl (u32 (Z.shiftl 1 (shift_per_lvl (sb f)))) (shift_per_lvl (sb f)))) f.
Proof.
  intros Hs [Hlo Hhi]. pose proof (ppb_pos _ Hs).
  assert (Hp : ppb (sb f) ≤ 1024).
  { destruct Hs as [Hl _]. unfold ppb, shift_per_lvl. change 1024 with (2 ^ 10). apply Z.pow_le_mono_r; lia. }
  assert (HL : u32 (Z.shiftl 1 (shift_per_lvl (sb f))) = ppb (sb f)).
  { destruct Hs as [Hl _]. rewrite Z.shiftl_1_l. fold (ppb (sb f)). apply u32_small. lia. }
  assert (HE : u32 (12 + ppb (sb f)) = 12 + ppb (sb f)) by (apply u32_small; lia).
  unfold ext2_trunc, mbind, M_bind, get_sb. fold (nblocks (sb f) length) (nblocks (sb f) (isize i)).
  rewrite trunc_direct_far by lia. unfold EXT2_MAX_DIRECT_BLOCKS. rewrite HL. cbn [trunc_levels]. rewrite (proj2 (Z.ltb_lt _ _) Hhi). unfold mbind, M_bind, get_sb.
  rewrite HE. rewrite (proj2 (Z.leb_gt _ _)) by lia. reflexivity.
Qed.

(** Truncating a file to a length beyond its single-indirect tree
    ([ext2_trunc]) does not depend on the length: all such lengths give the
    same inode and the same disk, because the loop over the trees sets [n] back
    to the end of the first one.  The blocks between that end and the new
    length, which the truncated file should keep, are freed. *)
Theorem ext2_trunc_ignores_length i (f : fs S) length1 length2 :
  sized (sb f) →
  12 + ppb (sb f) < nblocks (sb f) length1 < nblocks (sb f) (isize i) →
  12 + ppb (sb f) < nblocks (sb f) length2 < nblocks (sb f) (isize i) →
  ext2_trunc dev now i length1 f = ext2_trunc dev now i length2 f.
Proof. intros Hs H1 H2. by rewrite (trunc_far i f length1), (trunc_far i f length2). Qed.

End truncation.

End Ext2Inode.
