(* ===== verification/Ext2Dir.v ===== *)
(** ext2: directories (kernel/fs/ext2.c).

    A directory is a file of variable-length entries, each with the distance to
    the next one.  Looking up a name walks the entries; linking a name fills a
    hole, cuts off the unused end of an entry or appends a block; unlinking
    gives the room of an entry to the one before it.  The reference is a finite
    map from names to inode numbers.

    A name is the list of its bytes, without the terminating zero. *)

From S2P Require Import Prelude StateM Bytes Store Ext2Base Ext2Alloc Ext2Inode.
Import Bytes Store Ext2Base Ext2Alloc Ext2Inode.
#[local] Open Scope Z_scope.

Module Ext2Dir.

(** struct Ext2DirEntry; [name_len] is the length of [de_name]. *)
Record Ext2DirEntry := MkDe { de_inode : Z; rec_len : Z; file_type : Z; de_name : list Z }.
Implicit Types (d : Ext2DirEntry) (i j : Inode) (name : list Z).

Definition name_len d : Z := Z.of_nat (length (de_name d)).
Definition DE_NAME_OFFSET : Z := 8.
Definition NAME_MAX : Z := 255.
Definition EEXIST : Z := 17.
Definition ENAMETOOLONG : Z := 91.
Definition ENOTEMPTY : Z := 90.

Definition set_rec_len (n : Z) d : Ext2DirEntry := MkDe (de_inode d) n (file_type d) (de_name d).

(** The bytes of an entry in the file. *)
Definition de_bytes d : list Z := le_bytes 4 (de_inode d) ++ le_bytes 2 (rec_len d) ++ [name_len d; file_type d] ++ de_name d.

Definition ROUND_UP4 (n : Z) : Z := (n + 3) / 4 * 4.

Definition set_size (n : Z) i : Inode :=
  MkInode (ino i) (mode i) (nlink i) (uid i) (gid i) n (atime i) (mtime i) (ctime i) (rdev i) (idirty i) (blocks i) (block i).
Definition set_atime (t : Z) i : Inode :=
  MkInode (ino i) (mode i) (nlink i) (uid i) (gid i) (isize i) t (mtime i) (ctime i) (rdev i) (idirty i) (blocks i) (block i).
Definition set_ctime (t : Z) i : Inode :=
  MkInode (ino i) (mode i) (nlink i) (uid i) (gid i) (isize i) (atime i) (mtime i) t (rdev i) (idirty i) (blocks i) (block i).
Definition set_mtime (t : Z) i : Inode :=
  MkInode (ino i) (mode i) (nlink i) (uid i) (gid i) (isize i) (atime i) t (ctime i) (rdev i) (idirty i) (blocks i) (block i).
Definition set_nlink (n : Z) i : Inode :=
  MkInode (ino i) (mode i) n (uid i) (gid i) (isize i) (atime i) (mtime i) (ctime i) (rdev i) (idirty i) (blocks i) (block i).


Definition S_IFSOCK : Z := Z.shiftl 12 12.
Definition S_IFLNK : Z := Z.shiftl 10 12.
Definition S_IFREG : Z := Z.shiftl 8 12.
Definition S_IFDIR : Z := Z.shiftl 4 12.
Definition S_IFIFO : Z := Z.shiftl 1 12.
Definition S_ISDIR (mode : Z) : bool := Z.land mode EXT2_S_IFMASK =? S_IFDIR.

Definition type_of_mode (mode : Z) : option Z :=
  let t := Z.land mode EXT2_S_IFMASK in
  if t =? S_IFREG then Some 1 else
  if t =? S_IFSOCK then Some 6 else
  if t =? EXT2_S_IFBLK then Some 4 else
  if t =? EXT2_S_IFCHR then Some 3 else
  if t =? S_IFDIR then Some 2 else
  if t =? S_IFIFO then Some 5 else
  if t =? S_IFLNK then Some 7 else None.

Section ops.
Context {S : Type} `{!BlockOps S} (dev now euid : Z).

Definition io {A} (m : M S A) : sm (fs S) A := m.

Definition CANNOT_READ : string := "Cannot read directory".

(** The inode's access time changes, and it has to be written back. *)
Definition ext2_dirent_read i (off : Z) : sm (fs S) (Ext2DirEntry * Inode) :=
  '(r, i) ← io (ext2_read_data dev now euid i DE_NAME_OFFSET off);
  match r with
  | inl _ => stop CANNOT_READ
  | inr l =>
      '(r, i) ← io (ext2_read_data dev now euid i (fld 1 l 6) (off + DE_NAME_OFFSET));
      match r with
      | inl _ => stop CANNOT_READ
      | inr s => mret (MkDe (fld 4 l 0) (fld 2 l 4) (fld 1 l 7) s, set_idirty (set_atime now i))
      end
  end.

Definition ext2_dirent_write i d (off : Z) : sm (fs S) Inode :=
  '(r, i) ← io (ext2_write_data dev now euid i (readable (de_bytes d)) (DE_NAME_OFFSET + name_len d) off);
  match r with inr _ => mret i | inl _ => stop CANNOT_READ end.

(** The comparisons of lookup, unlink and the test for emptiness. *)
Definition has_name d name : bool := (name_len d =? Z.of_nat (length name)) && bool_decide (de_name d = name).

Definition NO_FUEL : string := "out of fuel".

(** The number of the inode found. *)
Fixpoint lookup_loop (fuel : nat) i name (off : Z) : sm (fs S) (option Z * Inode) :=
  match fuel with
  | O => stop NO_FUEL
  | Datatypes.S fuel =>
      if off <? isize i then
        '(d, i) ← ext2_dirent_read i off;
        if negb (de_inode d =? 0) && has_name d name then mret (Some (de_inode d), i)
        else lookup_loop fuel i name (off + rec_len d)
      else mret (None, i)
  end.

(** Every entry has at least eight bytes. *)
Definition scan_fuel i : nat := Datatypes.S (Z.to_nat (isize i)).

(** [get_ok n]: whether the inode cache has a slot for number [n]. *)
Definition ext2_lookup (get_ok : Z → bool) i name : sm (fs S) (option Z * Inode) :=
  check (S_ISDIR (mode i)) "not a directory";;
  '(o, i) ← lookup_loop (scan_fuel i) i name 0;
  match o with
  | Some n => check (get_ok n) "out of inodes";; mret (Some n, i)
  | None => mret (None, i)
  end.

(** The scan of [ext2_link]: whether the entry was placed, and where the scan
    ended. *)
Fixpoint link_loop (fuel : nat) i d (new_len off : Z) : sm (fs S) (bool * Z * Inode) :=
  match fuel with
  | O => stop NO_FUEL
  | Datatypes.S fuel =>
      if off <? isize i then
        '(de, i) ← ext2_dirent_read i off;
        if de_inode de =? 0 then
          if rec_len de <? new_len then link_loop fuel i d new_len (off + rec_len de) else
          i ← ext2_dirent_write i (set_rec_len (rec_len de) d) off;
          mret (true, off, i)
        else
          let de_len := ROUND_UP4 (DE_NAME_OFFSET + name_len de) in
          if new_len <=? rec_len de - de_len then
            i ← ext2_dirent_write i (set_rec_len de_len de) off;
            i ← ext2_dirent_write i (set_rec_len (rec_len de - de_len) d) (off + de_len);
            mret (true, off, i)
          else link_loop fuel i d new_len (off + rec_len de)
      else mret (false, off, i)
  end.

(** The result, whether the inode linked has one more link, and the directory.
    The inode may be the directory itself, so its fields are the caller's. *)
Definition ext2_link (get_ok : Z → bool) i name (number target_mode : Z) : sm (fs S) (Z * bool * Inode) :=
  '(o, i) ← ext2_lookup get_ok i name;
  match o with
  | Some _ => mret (- EEXIST, false, i)
  | None =>
      if NAME_MAX <? Z.of_nat (length name) then mret (- ENAMETOOLONG, false, i) else
      match type_of_mode target_mode with
      | None => mret (- EINVAL, false, i)
      | Some t =>
          let new_len := ROUND_UP4 (DE_NAME_OFFSET + Z.of_nat (length name)) in
          let d := MkDe number 0 t name in
          '(placed, off, i) ← link_loop (scan_fuel i) i d new_len 0;
          if placed : bool then mret (0, true, i) else
          x ← io get_sb;
          check (off mod block_size x =? 0) "Assertion failed: off % sb->block_size == 0";;
          i ← ext2_dirent_write (set_size (off + block_size x) i) (set_rec_len (block_size x) d) off;
          mret (0, true, i)
      end
  end.

(** The fields of the inode linked or unlinked. *)
Definition linked_inode j : Inode := set_idirty (set_nlink (u16 (nlink j + 1)) (set_ctime now j)).
Definition unlinked_inode j : Inode :=
  let n := u16 (nlink j - 1) in
  set_idirty (set_nlink n (if 0 <? n then set_ctime now j else j)).

Definition dot : list Z := [46].
Definition dotdot : list Z := [46; 46].

Fixpoint empty_loop (fuel : nat) i (off : Z) : sm (fs S) (bool * Inode) :=
  match fuel with
  | O => stop NO_FUEL
  | Datatypes.S fuel =>
      if off <? isize i then
        '(d, i) ← ext2_dirent_read i off;
        if (de_inode d =? 0) || has_name d dot || has_name d dotdot then empty_loop fuel i (off + rec_len d)
        else mret (false, i)
      else mret (true, i)
  end.
Definition ext2_dir_empty i : sm (fs S) (bool * Inode) := empty_loop (scan_fuel i) i 0.

Fixpoint unlink_loop (fuel : nat) i (number : Z) name (prev_off off : Z) : sm (fs S) (Z * bool * Inode) :=
  match fuel with
  | O => stop NO_FUEL
  | Datatypes.S fuel =>
      if off <? isize i then
        '(d, i) ← ext2_dirent_read i off;
        if negb (de_inode d =? number) || negb (has_name d name) then unlink_loop fuel i number name off (off + rec_len d) else
        if prev_off =? off then
          i ← ext2_dirent_write i (MkDe 0 (rec_len d) 0 []) off;
          mret (0, true, i)
        else
          '(p, i) ← ext2_dirent_read i prev_off;
          i ← ext2_dirent_write i (set_rec_len (u16 (rec_len p + rec_len d)) p) prev_off;
          mret (0, true, i)
      else mret (- ENOENT, false, i)
  end.
Definition ext2_unlink i (number : Z) name : sm (fs S) (Z * bool * Inode) :=
  if (ino i =? number) && negb (bool_decide (name = dot)) then mret (- EBUSY, false, i) else
  unlink_loop (scan_fuel i) i number name 0 0.

End ops.

(** ** The entries of a directory *)

Record de_ok d : Prop := {
  do_inode : 0 ≤ de_inode d < 2 ^ 32;
  do_rec : DE_NAME_OFFSET + name_len d ≤ rec_len d < 2 ^ 16;
  do_type : byte (file_type d);
  do_len : name_len d ≤ NAME_MAX;
  do_name : Forall byte (de_name d) }.

(** The bytes from [off] on are those of the entry. *)
Definition enc (c : Z → Z) (off : Z) d : Prop := ∀ (k : nat) b, de_bytes d !! k = Some b → c (off + Z.of_nat k) = b.

(** The entries [es] fill the bytes from [off] to [e]. *)
Fixpoint laid (c : Z → Z) (off : Z) (es : list Ext2DirEntry) (e : Z) : Prop :=
  match es with
  | [] => off = e
  | d :: es => enc c off d ∧ de_ok d ∧ laid c (off + rec_len d) es e
  end.

Lemma length_de d : Z.of_nat (length (de_bytes d)) = DE_NAME_OFFSET + name_len d.
Proof. unfold de_bytes. rewrite !length_app, !length_le_bytes. simpl. unfold DE_NAME_OFFSET, name_len. lia. Qed.

Lemma de_bytes_ok d : de_ok d → Forall byte (de_bytes d).
Proof.
  intros [? ? ? ? ?]. unfold de_bytes. repeat apply Forall_app_2; auto using le_bytes_byte. unfold NAME_MAX, name_len, byte in *. repeat constructor; lia.
Qed.

Lemma laid_mono c off es e : laid c off es e → off ≤ e.
Proof.
  revert off. induction es as [|d es IH]; intros off; simpl; [lia|]. intros (_ & [_ Hr _ _ _] & H%IH). unfold DE_NAME_OFFSET, name_len in Hr. lia.
Qed.

Lemma laid_cat c off es1 es2 e : laid c off (es1 ++ es2) e ↔ ∃ mid, laid c off es1 mid ∧ laid c mid es2 e.
Proof.
  revert off. induction es1 as [|d es1 IH]; intros off; simpl.
  - split; [by eauto|]. by intros (mid & <- & ?).
  - rewrite IH. naive_solver.
Qed.

Lemma enc_ext c c' off d : (∀ o, off ≤ o < off + DE_NAME_OFFSET + name_len d → c' o = c o) → enc c off d → enc c' off d.
Proof.
  intros H He k b Hk. rewrite H; [by apply He|]. apply lookup_lt_Some in Hk. pose proof (length_de d). lia.
Qed.

Lemma laid_ext c c' off es e : (∀ o, off ≤ o < e → c' o = c o) → laid c off es e → laid c' off es e.
Proof.
  revert off. induction es as [|d es IH]; intros off H; simpl; [done|]. intros (He & Hd & Hl). pose proof (laid_mono _ _ _ _ Hl). pose proof (do_rec _ Hd).
  split; [|split; [done|]].
  - eapply enc_ext; [|done]. intros o Ho. apply H. lia.
  - apply IH; [|done]. intros o Ho. apply H. unfold DE_NAME_OFFSET, name_len in *. lia.
Qed.

(** Bytes written at [off]. *)
Definition over (c : Z → Z) (off : Z) (l : list Z) (o : Z) : Z :=
  if decide (off ≤ o < off + Z.of_nat (length l)) then default 0 (l !! Z.to_nat (o - off)) else c o.

Lemma enc_over c off d : enc (over c off (de_bytes d)) off d.
Proof.
  intros k b Hk. pose proof (lookup_lt_Some _ _ _ Hk). unfold over. rewrite decide_True by lia. replace (Z.to_nat (off + Z.of_nat k - off)) with k by lia. by rewrite Hk.
Qed.

Lemma over_out c off l o : o < off ∨ off + Z.of_nat (length l) ≤ o → over c off l o = c o.
Proof. intros H. unfold over. by rewrite decide_False by lia. Qed.

(** An entry rewritten in place. *)
Lemma laid_rewrite c pre d d' post e off :
  laid c 0 pre off → laid c off (d :: post) e → de_ok d' → rec_len d' = rec_len d → laid (over c off (de_bytes d')) 0 (pre ++ d' :: post) e.
Proof.
  intros Hpre (He & Hd & Hpost) Hd' Hr. pose proof (length_de d') as Hl. pose proof (do_rec _ Hd') as Hr'. apply laid_cat. exists off. split.
  - eapply laid_ext; [|done]. intros o Ho. apply over_out. lia.
  - simpl. split; [apply enc_over|]. split; [done|]. rewrite Hr. eapply laid_ext; [|done]. intros o Ho. apply over_out. lia.
Qed.

(** The live entries. *)
Definition live_names (es : list Ext2DirEntry) : list (list Z * Z) := (λ d, (de_name d, de_inode d)) <$> filter (λ d, de_inode d ≠ 0) es.
Definition dict (es : list Ext2DirEntry) : gmap (list Z) Z := list_to_map (live_names es).

Lemma live_app es1 es2 : live_names (es1 ++ es2) = live_names es1 ++ live_names es2.
Proof. unfold live_names. by rewrite filter_app, fmap_app. Qed.

Lemma live_cons d es : live_names (d :: es) = if decide (de_inode d = 0) then live_names es else (de_name d, de_inode d) :: live_names es.
Proof. unfold live_names. rewrite filter_cons. repeat case_decide; done. Qed.

Lemma live_elem es name n : (name, n) ∈ live_names es ↔ ∃ d, d ∈ es ∧ de_inode d ≠ 0 ∧ de_name d = name ∧ de_inode d = n.
Proof.
  unfold live_names. rewrite list_elem_of_fmap. split.
  - intros (d & [= -> ->] & [? ?]%list_elem_of_filter). eauto.
  - intros (d & Hd & Hn & <- & <-). exists d. split; [done|]. by apply list_elem_of_filter.
Qed.

(** ** A directory as a finite map *)

Inductive dir_op :=
  | OpLookup (name : list Z)
  | OpLink (name : list Z) (number target_mode : Z)
  | OpUnlink (number : Z) (name : list Z)
  | OpEmpty.

Inductive reply :=
  | Found (o : option Z)
  | Code (e : Z)
  | Empty (b : bool).

(** What the operations do to the map from names to inode numbers. *)
Definition spec_op (self : Z) (op : dir_op) (s : gmap (list Z) Z) : reply * gmap (list Z) Z :=
  match op with
  | OpLookup name => (Found (s !! name), s)
  | OpLink name number target_mode =>
      if decide (is_Some (s !! name)) then (Code (- EEXIST), s) else
      if NAME_MAX <? Z.of_nat (length name) then (Code (- ENAMETOOLONG), s) else
      if decide (type_of_mode target_mode = None) then (Code (- EINVAL), s) else (Code 0, <[name := number]> s)
  | OpUnlink number name =>
      if (self =? number) && negb (bool_decide (name = dot)) then (Code (- EBUSY), s) else
      if decide (s !! name = Some number) then (Code 0, delete name s) else (Code (- ENOENT), s)
  | OpEmpty => (Empty (bool_decide (map_Forall (λ name _, name = dot ∨ name = dotdot) s)), s)
  end.

Fixpoint spec_ops (self : Z) (ops : list dir_op) (s : gmap (list Z) Z) : list reply * gmap (list Z) Z :=
  match ops with
  | [] => ([], s)
  | op :: ops => let '(r, s) := spec_op self op s in let '(rs, s) := spec_ops self ops s in (r :: rs, s)
  end.

Definition op_ok (op : dir_op) : Prop :=
  match op with
  | OpLink name number _ => 0 < number < 2 ^ 32 ∧ Forall byte name
  | OpUnlink number _ => 0 < number
  | _ => True
  end.

Section run.
Context {S : Type} `{!BlockOps S} (dev now euid : Z) (get_ok : Z → bool).

Definition run_op (op : dir_op) i : sm (fs S) (reply * Inode) :=
  match op with
  | OpLookup name => '(o, i) ← ext2_lookup dev now euid get_ok i name; mret (Found o, i)
  | OpLink name number target_mode => '(e, _, i) ← ext2_link dev now euid get_ok i name number target_mode; mret (Code e, i)
  | OpUnlink number name => '(e, _, i) ← ext2_unlink dev now euid i number name; mret (Code e, i)
  | OpEmpty => '(b, i) ← ext2_dir_empty dev now euid i; mret (Empty b, i)
  end.

Fixpoint run_ops (ops : list dir_op) i : sm (fs S) (list reply * Inode) :=
  match ops with
  | [] => mret ([], i)
  | op :: ops => '(r, i) ← run_op op i; '(rs, i) ← run_ops ops i; mret (r :: rs, i)
  end.
End run.

(** ** What a write may take from the free blocks *)

Section cost.
Context {S : Type} `{!BlockOps S} (dev now euid : Z).
Implicit Types f : fs S.

Definition quiet {A} (o : M S A) : Prop := ∀ f a f', o f = Ok (a, f') → sb f' = sb f.

Definition cost {A} (k : Z) (o : M S A) : Prop := ∀ f a f', o f = Ok (a, f') → 0 ≤ free_blocks_count (sb f) < 2 ^ 32 →
  free_blocks_count (sb f) - k ≤ free_blocks_count (sb f') ∧ 0 ≤ free_blocks_count (sb f') < 2 ^ 32 ∧ block_size (sb f') = block_size (sb f).

Lemma M_bind_Ok {A B} (o : M S A) (k : A → M S B) f b f' : (o ≫= k) f = Ok (b, f') → ∃ a f1, o f = Ok (a, f1) ∧ k a f1 = Ok (b, f').
Proof. unfold mbind, M_bind. destruct (o f) as [[a f1]|]; [|done]. eauto. Qed.

Lemma quiet_ret {A} (a : A) : quiet (mret a).
Proof. by intros f a' f' [= <- <-]. Qed.

Lemma quiet_bind {A B} (o : M S A) (k : A → M S B) : quiet o → (∀ a, quiet (k a)) → quiet (o ≫= k).
Proof. intros Ho Hk f b f' (a & f1 & H1%Ho & H2%Hk)%M_bind_Ok. congruence. Qed.

Lemma quiet_lift {A} (o : outcome A) : quiet (lift o).
Proof. intros f a f'. unfold lift. destruct o; [|done]. by intros [= <- <-]. Qed.

Lemma quiet_panic {A} why : quiet (panic why : M S A).
Proof. done. Qed.

Lemma quiet_read no size : quiet (buf_read dev no size).
Proof. intros f a f'. unfold buf_read. destruct (bread _ _) as [[]|]; [|done]. by intros [= <- <-]. Qed.

Lemma quiet_write no size l : quiet (buf_write dev no size l).
Proof. intros f a f'. unfold buf_write. destruct (bwrite _ _ _); [|done]. by intros [= <- <-]. Qed.

Lemma quiet_release no size : quiet (buf_release dev no size).
Proof. intros f a f'. unfold buf_release. destruct (brelease _ _); [|done]. by intros [= <- <-]. Qed.

#[local] Hint Resolve quiet_ret quiet_lift quiet_panic quiet_read quiet_write quiet_release : core.

Ltac quietly := repeat first [apply quiet_bind; [|intros ?] | solve [auto] | case_match; subst].

Lemma quiet_bitmap fuel x bstart blen b : quiet (bitmap_loop dev fuel x bstart blen b).
Proof. revert b. induction fuel as [|fuel IH]; intros b; cbn [bitmap_loop]; quietly. Qed.

Lemma quiet_group n x l gi : quiet (scan_groups dev n x l gi).
Proof.
  revert gi. induction n as [|n IH]; intros gi; cbn [scan_groups]; [auto|]. apply quiet_bind; [|intros r; quietly].
  unfold ext2_block_group_alloc, ext2_bitmap_alloc. pose proof quiet_bitmap. quietly.
Qed.

Lemma quiet_groups fuel x total g : quiet (groups_loop dev fuel x total g).
Proof. revert g. pose proof quiet_group. induction fuel as [|fuel IH]; intros g; cbn [groups_loop]; unfold ext2_block_zero; quietly. Qed.

Lemma quiet_cost {A} (o : M S A) : quiet o → cost 0 o.
Proof. intros H f a f' ->%H. lia. Qed.

Lemma cost_bind {A B} k1 k2 (o : M S A) (k : A → M S B) : cost k1 o → (∀ a, cost k2 (k a)) → cost (k1 + k2) (o ≫= k).
Proof. intros Ho Hk f b f' (a & f1 & H1 & H2)%M_bind_Ok Hr. destruct (Ho _ _ _ H1 Hr) as (? & ? & ?). destruct (Hk _ _ _ _ H2) as (? & ? & ?); [done|]. lia. Qed.

Lemma cost_mono {A} k1 k2 (o : M S A) : k1 ≤ k2 → cost k1 o → cost k2 o.
Proof. intros Hk H f a f' Ho Hr. destruct (H f a f' Ho Hr). lia. Qed.

Lemma cost_quiet {A B} k (o : M S A) (g : A → M S B) : quiet o → (∀ a, cost k (g a)) → cost k (o ≫= g).
Proof. intros Ho Hg. replace k with (0 + k) by lia. apply cost_bind; [by apply quiet_cost|done]. Qed.

Lemma sync_free f a f' : ext2_sb_sync dev now f = Ok (a, f') → free_blocks_count (sb f') = free_blocks_count (sb f) ∧ block_size (sb f') = block_size (sb f).
Proof.
  unfold ext2_sb_sync. intros (x & f1 & [= <- <-] & (u & f2 & [= <- <-] & H)%M_bind_Ok)%M_bind_Ok.
  match type of H with ?o _ = _ => assert (Hq : quiet o) by quietly end. by rewrite (Hq _ _ _ H).
Qed.

Lemma cost_alloc : cost 1 (ext2_block_alloc dev now euid).
Proof.
  intros f a f' (x & f1 & [= <- <-] & H)%M_bind_Ok Hr. revert H. destruct (free_blocks_count (sb f) =? 0) eqn:E0; [intros [= <- <-]; lia|]. apply Z.eqb_neq in E0.
  destruct (_ && _); [intros [= <- <-]; lia|]. intros (u & f2 & [= <- <-] & (v & f3 & Hsync & (r & f4 & Hg & H)%M_bind_Ok)%M_bind_Ok)%M_bind_Ok.
  apply sync_free in Hsync as [Hsync Hbs]. cbn [sb free_blocks_count block_size set_free_blocks] in Hsync, Hbs. rewrite u32_small in Hsync by lia.
  apply quiet_groups in Hg. destruct r as [b|]; [injection H as <- <-; rewrite Hg; lia|].
  apply M_bind_Ok in H as (x & f5 & [= <- <-] & (w & f6 & [= <- <-] & (w2 & f7 & H2 & [= <- <-])%M_bind_Ok)%M_bind_Ok).
  apply sync_free in H2 as [H2 H3]. cbn [sb free_blocks_count block_size set_free_blocks] in H2, H3. rewrite H2, H3, Hg, Hsync, u32_small by lia. lia.
Qed.

Lemma cost_new i : cost 1 (new_block dev now euid i).
Proof. unfold new_block. apply cost_quiet; [by intros f a f' [= <- <-]|]. intros x. replace 1 with (1 + 0) by lia. apply cost_bind; [apply cost_alloc|]. intros r. apply quiet_cost. quietly. Qed.

Lemma cost_own i n alloc : cost 1 (own_block dev now euid i n alloc).
Proof.
  unfold own_block. apply cost_quiet; [auto|]. intros id. destruct (negb (id =? 0)); [apply (cost_mono 0); [lia|]; apply quiet_cost; auto|]. destruct (negb alloc); [apply (cost_mono 0); [lia|]; apply quiet_cost; auto|].
  replace 1 with (1 + 0) by lia. apply cost_bind; [apply cost_new|]. intros [id' i']. apply quiet_cost. quietly.
Qed.

Lemma cost_chain k i id n sh alloc : cost (Z.of_nat k) (chain dev now euid k i id n sh alloc).
Proof.
  assert (Hq : ∀ A (j : nat) (o : M S A), quiet o → cost (Z.of_nat j) o) by (intros A j o Ho; apply (cost_mono 0); [lia|by apply quiet_cost]).
  revert i id n sh. induction k as [|k IH]; intros i id n sh; cbn [chain]; [apply Hq; auto|]. apply cost_quiet; [by intros f a f' [= <- <-]|]. intros x. apply cost_quiet; [auto|]. intros [l|]; [|apply Hq; auto].
  apply cost_quiet; [auto|]. intros next. destruct (negb (next =? 0)); [apply cost_quiet; [auto|]; intros _; apply (cost_mono (Z.of_nat k)); [lia|apply IH]|].
  destruct (negb alloc); [apply Hq; quietly|]. replace (Z.of_nat (Datatypes.S k)) with (1 + Z.of_nat k) by lia. apply cost_bind; [apply cost_new|]. intros [next' i'].
  destruct (next' =? 0); [apply Hq; quietly|]. apply cost_quiet; [auto|]. intros l'. apply cost_quiet; [auto|]. intros _. apply IH.
Qed.

(** A block of a file and the pointer blocks above it. *)
Lemma cost_get_block i n alloc : cost 4 (ext2_inode_get_block dev now euid i n alloc).
Proof.
  unfold ext2_inode_get_block. apply cost_quiet; [by intros f a f' [= <- <-]|]. intros x. destruct (n <? _); [apply (cost_mono 1); [lia|apply cost_own]|].
  destruct (find_level _ _ _ _ _ _) as [[[lvl n'] sh]|] eqn:El; [|apply (cost_mono 0); [lia|]; apply quiet_cost; auto]. assert (Hl : 0 ≤ lvl ≤ 2). { cbn [find_level] in El. repeat case_match; simplify_eq; lia. }
  replace 4 with (1 + 3) by lia. apply cost_bind; [apply cost_own|]. intros [id i']. destruct (id =? 0); [apply (cost_mono 0); [lia|]; apply quiet_cost; auto|].
  apply (cost_mono (Z.of_nat (Z.to_nat (lvl + 1)))); [lia|apply cost_chain].
Qed.

(** Bytes of one block, and of two. *)
Lemma cost_write_block fuel f i src nbyte off total r f' :
  total ≤ nbyte → off mod block_size (sb f) + (nbyte - total) ≤ block_size (sb f) → write_loop dev now euid fuel i src nbyte off total f = Ok (r, f') →
  0 ≤ free_blocks_count (sb f) < 2 ^ 32 → free_blocks_count (sb f) - 4 ≤ free_blocks_count (sb f').
Proof.
  intros Hn Hfit H Hr. destruct fuel as [|fuel]; [done|]. cbn [write_loop] in H. destruct (total <? nbyte); [|injection H as <- <-; lia].
  apply M_bind_Ok in H as (x & f1 & [= <- <-] & ([id i'] & f2 & Hg & H)%M_bind_Ok). destruct (cost_get_block _ _ _ _ _ _ Hg Hr) as [Hc _].
  rewrite Z.min_l in H by lia. enough (sb f' = sb f2) as -> by lia. revert H. match goal with |- ?o f2 = _ → _ => enough (quiet o) as Hq by (intros H; by eapply Hq) end.
  assert (Hend : ∀ j, quiet (write_loop dev now euid fuel j src nbyte (off + (nbyte - total)) (total + (nbyte - total)))).
  { intros j. destruct fuel; cbn [write_loop]; [auto|]. rewrite (proj2 (Z.ltb_ge _ _)) by lia. auto. }
  quietly.
Qed.

Lemma cost_write f i src nbyte off r f' :
  0 ≤ nbyte ≤ block_size (sb f) → 0 < block_size (sb f) → ext2_write_data dev now euid i src nbyte off f = Ok (r, f') →
  0 ≤ free_blocks_count (sb f) < 2 ^ 32 → free_blocks_count (sb f) - 8 ≤ free_blocks_count (sb f').
Proof.
  intros Hn Hbs H Hr. unfold ext2_write_data in H. cbn [write_loop] in H. destruct (0 <? nbyte); [|injection H as <- <-; lia]. pose proof (Z.mod_pos_bound off _ Hbs) as Hm. pose proof (Z.div_mod off (block_size (sb f))) as Hdm.
  apply M_bind_Ok in H as (x & f1 & [= <- <-] & ([id i'] & f2 & Hg & H)%M_bind_Ok). destruct (cost_get_block _ _ _ _ _ _ Hg Hr) as (Hc & Hr2 & Hb2).
  set (n := Z.min (nbyte - 0) (block_size (sb f) - off mod block_size (sb f))) in *. destruct (id =? 0); [injection H as <- <-; lia|]. apply M_bind_Ok in H as (o & f3 & H3%quiet_read & H).
  destruct o as [l|]; [|injection H as <- <-; rewrite H3; lia]. apply M_bind_Ok in H as (u & f4 & H4%quiet_write & H). assert (H42 : sb f4 = sb f2) by congruence.
  eapply cost_write_block in H; rewrite ?H42, ?Hb2; [rewrite H42 in H; lia|lia| |lia].
  destruct (decide (n = nbyte)) as [->|Hne]; [pose proof (Z.mod_pos_bound (off + nbyte) _ Hbs); lia|].
  assert ((off + n) mod block_size (sb f) = 0) as ->; [|lia]. replace (off + n) with ((off / block_size (sb f) + 1) * block_size (sb f)) by lia. apply Z.mod_mul. lia.
Qed.

End cost.

(** ** Reading and writing entries *)

Section entries.
Context {S : Type} `{!BlockOps S, !BlockLaws S} (dev now euid : Z) (Hnow : 0 ≤ now < 2 ^ 32) (E : string → Prop).
Implicit Types (f : fs S) (m : gmap key (list Z)) (h : gset key) (es : list Ext2DirEntry).

Notation good := (good dev).
Notation fbyte := (fbyte dev).
Notation mapped := (mapped dev).

Lemma io_ok {A} (o : M S A) f Q : mwp o f Q → swp (io o) f E Q.
Proof. unfold mwp, wp, swp, io. by destruct (o f) as [[a f']|]. Qed.

Lemma good_read f f' m B h : good f m B h → sb f' = sb f → at_store m h (store f') → good f' m B h.
Proof. intros [] Hs Hat. split; rewrite ?Hs; done. Qed.

Definition touched i i' : Prop := block i' = block i ∧ isize i' = isize i ∧ mode i' = mode i ∧ ino i' = ino i ∧ nlink i' = nlink i.

Lemma touched_refl i : touched i i.
Proof. done. Qed.

Lemma touched_trans i1 i2 i3 : touched i1 i2 → touched i2 i3 → touched i1 i3.
Proof. intros (? & ? & ? & ? & ?) (? & ? & ? & ? & ?). repeat split; congruence. Qed.

Definition unchanged f m h i f' i' : Prop := sb f' = sb f ∧ at_store m h (store f') ∧ touched i i'.

Lemma unchanged_trans f1 f2 f3 m h i1 i2 i3 : unchanged f1 m h i1 f2 i2 → unchanged f2 m h i2 f3 i3 → unchanged f1 m h i1 f3 i3.
Proof. intros (? & _ & ?) (? & ? & ?). split; [congruence|]. split; [done|]. by eapply touched_trans. Qed.

Lemma fbytes_enc x m B c off n : (∀ o, off ≤ o < off + n → fbyte x m B o = c o) → fbytes dev x m B off n = c <$> seqZ off n.
Proof.
  intros H. unfold fbytes. apply list_eq. intros k. rewrite !list_lookup_fmap. destruct (decide (Z.of_nat k < n)); [|by rewrite !lookup_seqZ_ge by lia].
  rewrite lookup_seqZ_lt by lia. simpl. f_equal. apply H. lia.
Qed.

(** The bytes of an encoded entry, as a list. *)
Lemma enc_slice c off d (a n : Z) : enc c off d → 0 ≤ a → 0 ≤ n → a + n ≤ DE_NAME_OFFSET + name_len d →
  c <$> seqZ (off + a) n = slice (de_bytes d) (Z.to_nat a) (Z.to_nat n).
Proof.
  intros He Ha Hn Hle. pose proof (length_de d) as Hl. apply list_eq. intros k. rewrite list_lookup_fmap. unfold slice. destruct (decide (Z.of_nat k < n)) as [Hk|Hk].
  - rewrite lookup_seqZ_lt, lookup_take_lt, lookup_drop by lia. simpl. destruct (lookup_lt_is_Some_2 (de_bytes d) (Z.to_nat a + k)) as [b Hb]; [lia|].
    rewrite Hb, <- (He _ _ Hb). f_equal. f_equal. lia.
  - rewrite lookup_seqZ_ge, lookup_take_ge by lia. done.
Qed.

Lemma de_fields d : de_ok d → let l := slice (de_bytes d) (Z.to_nat 0) (Z.to_nat 8) in
  fld 4 l 0 = de_inode d ∧ fld 2 l 4 = rec_len d ∧ fld 1 l 6 = name_len d ∧ fld 1 l 7 = file_type d.
Proof.
  intros [H1 H2 H3 H4 H5] l. assert (0 ≤ name_len d) by (unfold name_len; lia). unfold byte, NAME_MAX, DE_NAME_OFFSET in *.
  change (fld 4 l 0) with (le (le_bytes 4 (de_inode d))). change (fld 2 l 4) with (le (le_bytes 2 (rec_len d))).
  change (fld 1 l 6) with (name_len d + 256 * 0). change (fld 1 l 7) with (file_type d + 256 * 0). rewrite !le_le_bytes by lia. repeat split; lia.
Qed.

Lemma dirent_read_ok f m h i d off :
  good f m (block i) h → 0 ≤ off → off + DE_NAME_OFFSET + name_len d ≤ isize i → mapped (sb f) m (block i) 0 (isize i) →
  enc (fbyte (sb f) m (block i)) off d → de_ok d →
  swp (ext2_dirent_read dev now euid i off) f E (λ r f', r.1 = d ∧ unchanged f m h i f' r.2).
Proof.
  intros G Hoff Hend Hmap He Hd. pose proof (do_len _ Hd) as Hlen. assert (0 ≤ name_len d) by (unfold name_len; lia). unfold DE_NAME_OFFSET in *.
  unfold ext2_dirent_read, DE_NAME_OFFSET. apply swp_bind, io_ok. eapply mwp_mono; [apply (read_loop_ok dev now euid Hnow _ i f m h); try done; try lia; intros o Ho; apply Hmap; lia|].
  intros r f1 (-> & Hsb1 & Hat1). rewrite Z.sub_0_r, (fbytes_enc _ _ _ (fbyte (sb f) m (block i))) by done.
  pose proof (enc_slice _ _ _ 0 8 He ltac:(lia) ltac:(lia) ltac:(unfold DE_NAME_OFFSET; lia)) as Hs. rewrite Z.add_0_r in Hs. rewrite Hs.
  destruct (de_fields d Hd) as (F1 & F2 & F3 & F4). rewrite F1, F2, F3, F4. assert (G1 : good f1 m (block i) h) by (by eapply good_read).
  apply swp_bind, io_ok. eapply mwp_mono; [apply (read_loop_ok dev now euid Hnow _ i f1 m h); try done; try lia; rewrite Hsb1; intros o Ho; apply Hmap; lia|].
  intros r f2 (-> & Hsb2 & Hat2). rewrite Z.sub_0_r, Hsb1, (fbytes_enc _ _ _ (fbyte (sb f) m (block i))) by done.
  rewrite (enc_slice _ _ _ 8 (name_len d) He) by (unfold DE_NAME_OFFSET; lia). apply swp_ret. split.
  - destruct d as [n r t s]. simpl. f_equal. unfold slice, name_len. simpl. rewrite Nat2Z.id, firstn_all. done.
  - split; [congruence|]. split; [done|]. done.
Qed.

(** No more than [k] blocks were allocated. *)
Definition spent (k : Z) f f' : Prop := ∃ t c, sb f' = later t c (sb f) ∧ free_blocks_count (sb f) - k ≤ c.

Lemma spent_le k k' f f' : spent k f f' → k ≤ k' → spent k' f f'.
Proof. intros (t & c & Hsb & Hc) Hk. exists t, c. split; [done|lia]. Qed.

Lemma spent_trans k k' f f1 f2 : spent k f f1 → spent k' f1 f2 → spent (k + k') f f2.
Proof.
  intros (t & c & Hsb & Hc) (t' & c' & Hsb' & Hc'). exists t', c'. rewrite Hsb in Hsb', Hc'. change (free_blocks_count (later t c (sb f))) with c in Hc'. split; [done|lia].
Qed.

Lemma spent_same f f' : sb f' = sb f → spent 0 f f'.
Proof. intros H. exists (wtime (sb f)), (free_blocks_count (sb f)). rewrite H. split; [apply later_self|lia]. Qed.

(** Blocks for [k] allocations, beside those kept for the superuser. *)
Definition spare (k : Z) f : Prop := Z.max 1 (r_blocks_count (sb f)) + k ≤ free_blocks_count (sb f).

Lemma spare_spent k f f' : spare k f → spent k f f' → no_space (sb f') euid = false.
Proof.
  intros Hk (t & c & -> & Hc). unfold spare in Hk. unfold no_space. change (free_blocks_count (later t c (sb f))) with c. change (r_blocks_count (later t c (sb f))) with (r_blocks_count (sb f)).
  rewrite (proj2 (Z.eqb_neq c 0)), (proj2 (Z.ltb_ge c _)) by lia. done.
Qed.

Lemma spare_next k k' f f' : spare (k + k') f → spent k f f' → spare k' f'.
Proof. intros Hk (t & c & Hsb & Hc). unfold spare in *. rewrite Hsb. change (free_blocks_count (later t c (sb f))) with c. change (r_blocks_count (later t c (sb f))) with (r_blocks_count (sb f)). lia. Qed.

Lemma sized_bs x : sized x → 1024 ≤ block_size x ≤ 4096.
Proof. intros [Hlog ->]. assert (log_block_size x ∈ [0; 1; 2]) as Hc by (rewrite !elem_of_cons; lia). set_unfold in Hc. destruct Hc as [->|[->|[->|[]]]]; lia. Qed.

(** The bytes of the file are now those of [c']; no other file has changed. *)
Definition stored (k : Z) f m h i (c' : Z → Z) f' m' i' : Prop :=
  spent k f f' ∧ good f' m' (block i') h ∧ attrs i' = attrs i ∧ same_file dev (sb f) m (block i) m' (block i') ∧
  (∀ o, 0 ≤ o → fbyte (sb f') m' (block i') o = c' o).

Lemma mapped_indexed x m B off n : 0 ≤ off → sized x → mapped x m B off n → indexed x off n.
Proof.
  intros Ho Hs H o Hr. specialize (H o Hr). unfold bmap in H. by destruct (index_path x (o / block_size x)).
Qed.

(** What a write of an entry gives, whether or not its bytes had blocks. *)
Lemma dirent_write_any f m h i d off :
  good f m (block i) h → 0 ≤ off → de_ok d → indexed (sb f) off (DE_NAME_OFFSET + name_len d) →
  (¬ mapped (sb f) m (block i) off (DE_NAME_OFFSET + name_len d) → spare 8 f ∨ E CANNOT_READ) →
  swp (ext2_dirent_write dev now euid i d off) f E (λ i' f', ∃ m', stored 8 f m h i (over (fbyte (sb f) m (block i)) off (de_bytes d)) f' m' i' ∧
    mapped (sb f') m' (block i') off (DE_NAME_OFFSET + name_len d)).
Proof.
  intros G Hoff Hd Hidx HE. pose proof (length_de d) as Hl. pose proof (do_len _ Hd) as Hlen. pose proof (sized_bs _ (go_sized _ _ _ _ _ G)) as Hbs.
  pose proof (free_range dev (sb f) m Blocks (go_wf _ _ _ _ _ G)) as Hfr. change (free (sb f) Blocks) with (free_blocks_count (sb f)) in Hfr.
  unfold ext2_dirent_write. apply swp_bind, io_ok. rewrite <- Hl in *. pose proof (cost_write dev now euid f i (readable (de_bytes d)) (Z.of_nat (length (de_bytes d))) off) as Hcost. unfold DE_NAME_OFFSET, NAME_MAX in *.
  assert (W : mwp (ext2_write_data dev now euid i (readable (de_bytes d)) (Z.of_nat (length (de_bytes d))) off) f (wrote dev euid f m i (de_bytes d) (Z.of_nat (length (de_bytes d))) off 0 h)).
  { apply (write_loop_ok dev now euid Hnow _ i f m h (de_bytes d)); [done|done|lia|lia|by apply de_bytes_ok|lia|by rewrite Z.sub_0_r]. }
  unfold mwp, wp in *. destruct (ext2_write_data _ _ _ _ _ _ _ _) as [[[r i'] f']|]; [|done]. specialize (Hcost (r, i') f' ltac:(lia) ltac:(lia) eq_refl ltac:(lia)).
  destruct W as (p & t & c & m' & Hsb & G' & Ha & Hp & Hsf & Hby & Hr). rewrite Z.sub_0_r in *. simpl in *.
  assert (Hsp : spent 8 f f') by (exists t, c; split; [done|]; by rewrite Hsb in Hcost). destruct r as [e|n].
  - apply swp_stop. destruct Hr as (_ & Hns & Hnm). destruct (HE Hnm) as [Hs|?]; [|done]. by rewrite (spare_spent _ _ _ Hs Hsp) in Hns.
  - destruct Hr as (-> & -> & Hmap). apply swp_ret. exists m'. split; [|intros o Ho; rewrite Hsb, later_bmap; exact (Hmap o Ho)]. split; [done|]. split; [done|]. split; [done|]. split; [done|].
    intros o Ho. rewrite Hsb, later_fbyte, Hby by done. unfold over. repeat case_decide; done || lia.
Qed.

Lemma dirent_write_ok f m h i d off :
  good f m (block i) h → 0 ≤ off → de_ok d → mapped (sb f) m (block i) off (DE_NAME_OFFSET + name_len d) →
  swp (ext2_dirent_write dev now euid i d off) f E (λ i' f', ∃ m', stored 8 f m h i (over (fbyte (sb f) m (block i)) off (de_bytes d)) f' m' i').
Proof.
  intros G Hoff Hd Hmap. eapply swp_mono; [apply (dirent_write_any f m h i d off); try done; [eapply mapped_indexed; [done|apply G|done]]|].
  intros i' f' (m' & H & _). by exists m'.
Qed.

(** *** Directories *)

Record is_dir f m h i es : Prop := {
  dd_good : good f m (block i) h;
  dd_size : 0 ≤ isize i ∧ isize i mod block_size (sb f) = 0;
  dd_mapped : mapped (sb f) m (block i) 0 (isize i);
  dd_laid : laid (fbyte (sb f) m (block i)) 0 es (isize i);
  dd_names : NoDup (live_names es).*1 }.

Lemma is_dir_unchanged f m h i es f' i' : is_dir f m h i es → unchanged f m h i f' i' → is_dir f' m h i' es.
Proof.
  intros [G Hs Hm Hl Hn] (Hsb & Hat & Eb & Es & _). split; rewrite ?Hsb, ?Eb, ?Es; try done. by eapply good_read.
Qed.

Lemma attrs_size i i' : attrs i' = attrs i → isize i' = isize i ∧ mode i' = mode i ∧ ino i' = ino i ∧ nlink i' = nlink i.
Proof. unfold attrs. intros [= ? ? ? ? ? ? ? ? ? ?]. done. Qed.

Lemma stored_mapped k f m h i c' f' m' i' n : good f m (block i) h → stored k f m h i c' f' m' i' → mapped (sb f) m (block i) 0 n → mapped (sb f') m' (block i') 0 n.
Proof.
  intros G ((t & c & Hsb & _) & _ & _ & Hsf & _) Hm o Ho. rewrite Hsb, later_bmap. change (block_size (later t c (sb f))) with (block_size (sb f)). specialize (Hm o Ho).
  rewrite (sf_bmap _ _ _ _ _ _ Hsf); [done| |done]. pose proof (ppb_pos _ (go_sized _ _ _ _ _ G)). pose proof (sized_ppb _ (go_sized _ _ _ _ _ G)). apply Z.div_pos; lia.
Qed.

Lemma stored_trans k1 k2 f m h i c1 f1 m1 i1 c2 f2 m2 i2 : stored k1 f m h i c1 f1 m1 i1 → stored k2 f1 m1 h i1 c2 f2 m2 i2 → stored (k1 + k2) f m h i c2 f2 m2 i2.
Proof.
  intros (Hsp & _ & Ha & Hsf & _) (Hsp' & G' & Ha' & Hsf' & Hby). split; [by eapply spent_trans|]. destruct Hsp as (t & c & Hsb & _). split; [done|]. split; [congruence|].
  split; [|done]. rewrite Hsb in Hsf'. apply later_same_file in Hsf'. by eapply same_file_trans.
Qed.

Lemma over_ext c c' off l o : c o = c' o → over c off l o = over c' off l o.
Proof. intros H. unfold over. by case_decide. Qed.

(** A write that leaves well-formed entries leaves a directory. *)
Lemma is_dir_stored k f m h i es c' f' m' i' es' :
  is_dir f m h i es → stored k f m h i c' f' m' i' → laid c' 0 es' (isize i) → NoDup (live_names es').*1 → is_dir f' m' h i' es'.
Proof.
  intros [G Hs Hm Hl Hn] St Hl' Hn'. pose proof (stored_mapped _ _ _ _ _ _ _ _ _ _ G St Hm) as Hm'. destruct St as ((t & c & Hsb & _) & G' & (Esz & _)%attrs_size & Hsf & Hby).
  split; rewrite ?Esz; try done; [by rewrite Hsb|]. eapply laid_ext; [|exact Hl']. intros o Ho. apply Hby. lia.
Qed.

(** An entry of the directory is read. *)
Lemma dir_read_ok f m h i pre d post off :
  is_dir f m h i (pre ++ d :: post) → laid (fbyte (sb f) m (block i)) 0 pre off → laid (fbyte (sb f) m (block i)) off (d :: post) (isize i) →
  swp (ext2_dirent_read dev now euid i off) f E (λ r f', r.1 = d ∧ unchanged f m h i f' r.2).
Proof.
  intros [G _ Hm _ _] Hpre (He & Hd & Hpost). pose proof (laid_mono _ _ _ _ Hpre). pose proof (laid_mono _ _ _ _ Hpost). pose proof (do_rec _ Hd).
  apply (dirent_read_ok f m h i d off); try done. lia.
Qed.

(** *** Looking up *)

Lemma has_name_spec d name : has_name d name = bool_decide (de_name d = name).
Proof.
  unfold has_name, name_len. case_bool_decide as Hn; [subst; by rewrite Z.eqb_refl|by rewrite andb_false_r].
Qed.

Fixpoint find_name es name : option Z :=
  match es with
  | [] => None
  | d :: es => if negb (de_inode d =? 0) && has_name d name then Some (de_inode d) else find_name es name
  end.

Lemma find_name_dict es name : find_name es name = dict es !! name.
Proof.
  unfold dict. induction es as [|d es IH]; [done|]. rewrite live_cons. cbn [find_name]. rewrite has_name_spec, IH. case_decide as H0.
  - by rewrite H0.
  - rewrite (proj2 (Z.eqb_neq _ _) H0). simpl. case_bool_decide as Hn; [subst; by rewrite lookup_insert_eq|by rewrite lookup_insert_ne].
Qed.

Lemma laid_length c off es e : laid c off es e → 8 * Z.of_nat (length es) ≤ e - off.
Proof.
  revert off. induction es as [|d es IH]; intros off; simpl; [lia|]. intros (_ & Hd & H%IH). pose proof (do_rec _ Hd). unfold DE_NAME_OFFSET, name_len in *. lia.
Qed.

Lemma laid_snoc c pre off d : laid c 0 pre off → enc c off d → de_ok d → laid c 0 (pre ++ [d]) (off + rec_len d).
Proof. intros Hp He Hd. apply laid_cat. exists off. split; [done|]. simpl. done. Qed.

(** A scan has come to [off]: [pre] lies behind it, [post] is to come. *)
Definition scanning f m h i pre post (off : Z) (fuel : nat) : Prop :=
  is_dir f m h i (pre ++ post) ∧ laid (fbyte (sb f) m (block i)) 0 pre off ∧ laid (fbyte (sb f) m (block i)) off post (isize i) ∧ (length post < fuel)%nat.

Lemma scan_start f m h i es : is_dir f m h i es → scanning f m h i [] es 0 (scan_fuel i).
Proof.
  intros D. pose proof (laid_length _ _ _ _ (dd_laid _ _ _ _ _ D)). split; [done|]. split; [done|]. split; [apply (dd_laid _ _ _ _ _ D)|]. unfold scan_fuel. lia.
Qed.

Lemma scan_next f m h i pre d post off fuel f' i' : scanning f m h i pre (d :: post) off (Datatypes.S fuel) → unchanged f m h i f' i' →
  scanning f' m h i' (pre ++ [d]) post (off + rec_len d) fuel.
Proof.
  intros (D & Hp & (He & Hd & Hl) & Hf) U. pose proof U as (Hsb & _ & Eb & Es & _). split; [rewrite <- app_assoc; by eapply is_dir_unchanged|].
  rewrite Hsb, Eb, Es. split; [by apply laid_snoc|]. split; [done|]. simpl in Hf. lia.
Qed.

Lemma scan_in f m h i pre d post off fuel : scanning f m h i pre (d :: post) off fuel → 0 ≤ off < isize i ∧ off + DE_NAME_OFFSET + name_len d ≤ isize i ∧ de_ok d.
Proof.
  intros (D & Hp & (He & Hd & Hl) & Hf). pose proof (laid_mono _ _ _ _ Hp). pose proof (laid_mono _ _ _ _ Hl). pose proof (do_rec _ Hd). unfold DE_NAME_OFFSET, name_len in *. split; [lia|]. split; [lia|done].
Qed.

Lemma scan_end f m h i pre off fuel : scanning f m h i pre [] off fuel → off = isize i ∧ (off <? isize i) = false.
Proof. intros (_ & _ & Hl & _). simpl in Hl. split; [done|]. apply Z.ltb_ge. lia. Qed.

Lemma scan_read f m h i pre d post off fuel :
  scanning f m h i pre (d :: post) off fuel → swp (ext2_dirent_read dev now euid i off) f E (λ r f', r.1 = d ∧ unchanged f m h i f' r.2).
Proof. intros (D & Hp & Hl & _). by eapply dir_read_ok. Qed.

Lemma unchanged_refl f m h i es : is_dir f m h i es → unchanged f m h i f i.
Proof. intros D. split; [done|]. split; [apply (go_at _ _ _ _ _ (dd_good _ _ _ _ _ D))|done]. Qed.

Lemma name_loop_ok fuel f m h i pre post off name :
  scanning f m h i pre post off fuel →
  swp (lookup_loop dev now euid fuel i name off) f E (λ r f', r.1 = find_name post name ∧ unchanged f m h i f' r.2).
Proof.
  revert f i pre post off. induction fuel as [|fuel IH]; intros f i pre post off Sc; [destruct Sc as (_ & _ & _ & ?); lia|]. cbn [lookup_loop].
  destruct post as [|d post].
  { destruct (scan_end _ _ _ _ _ _ _ Sc) as [_ ->]. apply swp_ret. split; [done|]. destruct Sc as (D & _). by eapply unchanged_refl. }
  destruct (scan_in _ _ _ _ _ _ _ _ _ Sc) as (Hoff & _). rewrite (proj2 (Z.ltb_lt _ _)) by lia. apply swp_bind. eapply swp_mono; [by eapply scan_read|].
  intros [d' i1] f1 [Hd U]. cbn [fst snd] in Hd, U. subst d'. cbn [find_name]. destruct (negb (de_inode d =? 0) && has_name d name); [by apply swp_ret|].
  eapply swp_mono; [eapply IH; by eapply scan_next|]. intros r f2 [Hr U2]. split; [done|]. by eapply unchanged_trans.
Qed.

Lemma lookup_ok f m h i es get_ok name :
  is_dir f m h i es → S_ISDIR (mode i) = true → (∀ n, dict es !! name = Some n → get_ok n = true) →
  swp (ext2_lookup dev now euid get_ok i name) f E (λ r f', r.1 = dict es !! name ∧ unchanged f m h i f' r.2).
Proof.
  intros D Hm Hget. unfold ext2_lookup. apply swp_bind, swp_check; [by rewrite Hm|]. intros _. apply swp_bind. eapply swp_mono; [by eapply name_loop_ok, scan_start|].
  intros [o i1] f1 [Ho U]. simpl in *. subst o. rewrite find_name_dict. destruct (dict es !! name) as [n|]; [|by apply swp_ret].
  apply swp_bind, swp_check; [by rewrite (Hget n)|]. intros _. by apply swp_ret.
Qed.

(** *** Linking *)

Lemma ROUND_UP4_ok n : n ≤ ROUND_UP4 n < n + 4.
Proof. unfold ROUND_UP4. pose proof (Z.div_mod (n + 3) 4). pose proof (Z.mod_pos_bound (n + 3) 4). lia. Qed.

(** The entry that a link writes. *)
Record new_ok d name (number : Z) : Prop := {
  nw_inode : 0 < number < 2 ^ 32 ∧ de_inode d = number;
  nw_type : byte (file_type d);
  nw_name : de_name d = name;
  nw_len : Z.of_nat (length name) ≤ NAME_MAX;
  nw_bytes : Forall byte name }.

Lemma new_de_ok d name number n : new_ok d name number → ROUND_UP4 (DE_NAME_OFFSET + Z.of_nat (length name)) ≤ n < 2 ^ 16 → de_ok (set_rec_len n d).
Proof.
  intros [[H1 H1'] H2 H3 H4 H5] Hn. pose proof (ROUND_UP4_ok (DE_NAME_OFFSET + Z.of_nat (length name))). split; simpl; try done; unfold name_len; simpl; rewrite ?H3; try lia; done.
Qed.

(** An entry with room for [n] more bytes. *)
Definition fits (n : Z) d : bool := if de_inode d =? 0 then n <=? rec_len d else n <=? rec_len d - ROUND_UP4 (DE_NAME_OFFSET + name_len d).

(** What an operation allocates at most: two entries written, each on two blocks
    that are four levels deep. *)
Definition OP_COST : Z := 16.

(** What has become of the directory. *)
Definition added f m h i es name (number : Z) f' i' : Prop :=
  ∃ m' es', is_dir f' m' h i' es' ∧ live_names es' ≡ₚ (name, number) :: live_names es ∧ isize i' ≤ isize i + block_size (sb f) ∧
    mode i' = mode i ∧ ino i' = ino i ∧ nlink i' = nlink i ∧ spent OP_COST f f' ∧ same_file dev (sb f) m (block i) m' (block i').

Lemma stored_cost k f f' (P : Prop) (a b c : Z) : spent k f f' → P → k ≤ OP_COST → a = a ∧ b = b ∧ c = c ∧ spent OP_COST f f' ∧ P.
Proof. intros H HP Hk. split; [done|]. split; [done|]. split; [done|]. split; [by eapply spent_le|done]. Qed.

Lemma added_names es es' name number : live_names es' ≡ₚ (name, number) :: live_names es → NoDup (live_names es).*1 → name ∉ (live_names es).*1 → NoDup (live_names es').*1.
Proof. intros HP Hn Hni. rewrite HP. simpl. by constructor. Qed.

(** A hole is filled. *)
Lemma fill_hole_ok f m h i pre de post off d name number fuel :
  scanning f m h i pre (de :: post) off fuel → de_inode de = 0 → ROUND_UP4 (DE_NAME_OFFSET + Z.of_nat (length name)) ≤ rec_len de →
  new_ok d name number → name ∉ (live_names (pre ++ de :: post)).*1 →
  swp (ext2_dirent_write dev now euid i (set_rec_len (rec_len de) d) off) f E (λ i' f', added f m h i (pre ++ de :: post) name number f' i').
Proof.
  intros Sc H0 Hr Hd Hni. destruct (scan_in _ _ _ _ _ _ _ _ _ Sc) as (Hoff & _ & Hde). destruct Sc as (D & Hp & Hl & _). pose proof Hl as (_ & _ & Hl').
  pose proof (laid_mono _ _ _ _ Hl') as Hend. pose proof (do_rec _ Hde) as Hrd. assert (Hok : de_ok (set_rec_len (rec_len de) d)) by (eapply new_de_ok; [done|lia]).
  pose proof (do_rec _ Hok) as Hrn. simpl in Hrn. eapply swp_mono; [apply (dirent_write_ok f m h i); [apply D|lia|done|]|].
  - intros o Ho. apply (dd_mapped _ _ _ _ _ D). lia.
  - intros i' f' (m' & St). exists m', (pre ++ set_rec_len (rec_len de) d :: post). destruct Hd as [[Hn Hn'] _ Hnm _ _].
    assert (HP : live_names (pre ++ set_rec_len (rec_len de) d :: post) ≡ₚ (name, number) :: live_names (pre ++ de :: post)).
    { rewrite !live_app, !live_cons, decide_False, decide_True by (simpl; lia). simpl. rewrite Hnm, Hn'. by rewrite Permutation_middle. }
    split; [|split; [done|]].
    + eapply is_dir_stored; [exact D|exact St|by eapply laid_rewrite|]. eapply added_names; [exact HP|apply D|done].
    + pose proof (sized_bs _ (go_sized _ _ _ _ _ (dd_good _ _ _ _ _ D))). destruct St as (Hsp & _ & (-> & -> & -> & ->)%attrs_size & Hsf & _). split; [lia|]. eapply stored_cost; [exact Hsp|exact Hsf|unfold OP_COST; lia].
Qed.

(** An entry is cut into two. *)
Lemma laid_split c pre de post e off d1 d2 :
  laid c 0 pre off → laid c off (de :: post) e → de_ok d1 → de_ok d2 → rec_len d1 + rec_len d2 = rec_len de →
  laid (over (over c off (de_bytes d1)) (off + rec_len d1) (de_bytes d2)) 0 (pre ++ d1 :: d2 :: post) e.
Proof.
  intros Hpre (He & Hd & Hpost) H1 H2 Hr. pose proof (length_de d1). pose proof (length_de d2). pose proof (do_rec _ H1). pose proof (do_rec _ H2).
  assert (0 ≤ name_len d1 ∧ 0 ≤ name_len d2) by (unfold name_len; lia). unfold DE_NAME_OFFSET in *. apply laid_cat. exists off. split.
  - eapply laid_ext; [|exact Hpre]. intros o Ho. rewrite !over_out by lia. done.
  - simpl. split; [|split; [done|split; [apply enc_over|split; [done|]]]].
    + eapply enc_ext; [|apply enc_over]. intros o Ho. unfold DE_NAME_OFFSET in *. apply over_out. lia.
    + replace (off + rec_len d1 + rec_len d2) with (off + rec_len de) by lia. eapply laid_ext; [|exact Hpost]. intros o Ho. rewrite !over_out by lia. done.
Qed.

Lemma split_ok f m h i pre de post off d name number fuel :
  let de_len := ROUND_UP4 (DE_NAME_OFFSET + name_len de) in
  scanning f m h i pre (de :: post) off fuel → de_inode de ≠ 0 → ROUND_UP4 (DE_NAME_OFFSET + Z.of_nat (length name)) ≤ rec_len de - de_len →
  new_ok d name number → name ∉ (live_names (pre ++ de :: post)).*1 →
  swp (i ← ext2_dirent_write dev now euid i (set_rec_len de_len de) off;
       ext2_dirent_write dev now euid i (set_rec_len (rec_len de - de_len) d) (off + de_len)) f E (λ i' f', added f m h i (pre ++ de :: post) name number f' i').
Proof.
  intros de_len Sc H0 Hr Hd Hni. destruct (scan_in _ _ _ _ _ _ _ _ _ Sc) as (Hoff & _ & Hde). destruct Sc as (D & Hp & Hl & _). pose proof Hl as (_ & _ & Hl').
  pose proof (laid_mono _ _ _ _ Hl') as Hend. pose proof (do_rec _ Hde) as Hrd. pose proof (ROUND_UP4_ok (DE_NAME_OFFSET + name_len de)) as Hru. fold de_len in Hru.
  pose proof (ROUND_UP4_ok (DE_NAME_OFFSET + Z.of_nat (length name))) as Hrn. assert (0 ≤ name_len de) by (unfold name_len; lia). unfold DE_NAME_OFFSET in *.
  assert (Hok1 : de_ok (set_rec_len de_len de)). { destruct Hde. split; try done. unfold DE_NAME_OFFSET in *. simpl. change (name_len (set_rec_len de_len de)) with (name_len de). lia. }
  assert (Hok2 : de_ok (set_rec_len (rec_len de - de_len) d)) by (eapply new_de_ok; [done|unfold DE_NAME_OFFSET; lia]).
  pose proof (do_rec _ Hok2) as Hr2. simpl in Hr2. unfold DE_NAME_OFFSET in Hr2. pose proof (dd_mapped _ _ _ _ _ D) as Hmap.
  apply swp_bind. eapply swp_mono; [apply (dirent_write_ok f m h i); [apply D|lia|done|intros o Ho; apply Hmap; unfold DE_NAME_OFFSET in *; change (name_len (set_rec_len de_len de)) with (name_len de) in Ho; lia]|].
  intros i1 f1 (m1 & St1). pose proof (stored_mapped _ _ _ _ _ _ _ _ _ _ (dd_good _ _ _ _ _ D) St1 Hmap) as Hmap1. pose proof St1 as (_ & G1 & _ & _ & Hby1).
  eapply swp_mono; [apply (dirent_write_ok f1 m1 h i1); [exact G1|lia|done|intros o Ho; apply Hmap1; unfold DE_NAME_OFFSET in *; lia]|].
  intros i' f' (m' & St2). exists m', (pre ++ set_rec_len de_len de :: set_rec_len (rec_len de - de_len) d :: post).
  pose proof (stored_trans _ _ _ _ _ _ _ _ _ _ _ _ _ _ St1 St2) as St. destruct Hd as [[Hn Hn'] _ Hnm _ _].
  assert (HP : live_names (pre ++ set_rec_len de_len de :: set_rec_len (rec_len de - de_len) d :: post) ≡ₚ (name, number) :: live_names (pre ++ de :: post)).
  { rewrite !live_app, !live_cons, !decide_False by (simpl; lia). simpl. rewrite Hnm, Hn'. solve_Permutation. }
  split; [|split; [done|]].
  - eapply is_dir_stored; [exact D|exact St| |eapply added_names; [exact HP|apply D|done]].
    eapply laid_ext; [|eapply (laid_split (fbyte (sb f) m (block i))); [exact Hp|exact Hl|exact Hok1|exact Hok2|simpl; lia]].
    intros o Ho. apply over_ext, Hby1. lia.
  - pose proof (sized_bs _ (go_sized _ _ _ _ _ (dd_good _ _ _ _ _ D))). destruct St as (Hsp & _ & (-> & -> & -> & ->)%attrs_size & Hsf & _). split; [lia|]. eapply stored_cost; [exact Hsp|exact Hsf|unfold OP_COST; lia].
Qed.

Lemma added_unchanged f m h i f1 i1 es name number f' i' : unchanged f m h i f1 i1 → added f1 m h i1 es name number f' i' → added f m h i es name number f' i'.
Proof. intros (Hsb & _ & Eb & Es & Em & Ei & En) (m' & es' & H). unfold spent in *. rewrite Hsb, Eb, Es, Em, Ei, En in H. by exists m', es'. Qed.

Lemma swp_bind_inv {W A B} (o : sm W A) (k : A → sm W B) w Q : swp (o ≫= k) w E Q → swp o w E (λ a w', swp (k a) w' E Q).
Proof. unfold swp, mbind, sm_bind. by destruct (o w) as [[a w']|]. Qed.

Lemma link_loop_ok fuel f m h i pre post off d name number :
  let new_len := ROUND_UP4 (DE_NAME_OFFSET + Z.of_nat (length name)) in
  scanning f m h i pre post off fuel → new_ok d name number → name ∉ (live_names (pre ++ post)).*1 →
  swp (link_loop dev now euid fuel i d new_len off) f E (λ r f', let '(placed, off', i') := r in
    if placed then added f m h i (pre ++ post) name number f' i'
    else off' = isize i ∧ Forall (λ d, fits new_len d = false) post ∧ unchanged f m h i f' i').
Proof.
  intros new_len Sc Hd. revert f i pre post off Sc. induction fuel as [|fuel IH]; intros f i pre post off Sc Hni; [destruct Sc as (_ & _ & _ & ?); lia|]. cbn [link_loop].
  destruct post as [|de post].
  { destruct (scan_end _ _ _ _ _ _ _ Sc) as [Ho ->]. apply swp_ret. split; [done|]. split; [done|]. destruct Sc as (D & _). by eapply unchanged_refl. }
  destruct (scan_in _ _ _ _ _ _ _ _ _ Sc) as (Hoff & _). rewrite (proj2 (Z.ltb_lt _ _)) by lia. apply swp_bind. eapply swp_mono; [by eapply scan_read|].
  intros [d' i1] f1 [E1 U]. cbn [fst snd] in E1, U. subst d'. pose proof Sc as (D & Hp & Hl & Hf). pose proof U as (Hsb & _ & Eb & Es & _).
  assert (Sc1 : scanning f1 m h i1 pre (de :: post) off (Datatypes.S fuel)) by (split; [by eapply is_dir_unchanged|by rewrite Hsb, Eb, Es]).
  assert (Next : fits new_len de = false → swp (link_loop dev now euid fuel i1 d new_len (off + rec_len de)) f1 E (λ r f', let '(placed, off', i') := r in
    if placed then added f m h i (pre ++ de :: post) name number f' i'
    else off' = isize i ∧ Forall (λ d, fits new_len d = false) (de :: post) ∧ unchanged f m h i f' i')).
  { intros Hfit. eapply swp_mono; [eapply IH; [exact (scan_next _ _ _ _ _ _ _ _ _ _ _ Sc U)|rewrite <- app_assoc; exact Hni]|]. intros [[pl off'] i'] f'. rewrite <- app_assoc. destruct pl.
    - intros A. by eapply added_unchanged.
    - rewrite Es. intros (? & ? & U2). split; [done|]. split; [by constructor|]. by eapply unchanged_trans. }
  unfold fits in Next. destruct (Z.eqb_spec (de_inode de) 0) as [H0|H0].
  - destruct (Z.ltb_spec (rec_len de) new_len) as [Hr|Hr]; [apply Next, Z.leb_gt; done|]. apply swp_bind. eapply swp_mono; [eapply (fill_hole_ok f1 m h i1); eassumption|].
    intros i' f' A. apply swp_ret. by eapply added_unchanged.
  - cbv zeta. destruct (Z.leb_spec new_len (rec_len de - ROUND_UP4 (DE_NAME_OFFSET + name_len de))) as [Hr|Hr]; [|by apply Next].
    pose proof (swp_bind_inv _ _ _ _ (split_ok f1 m h i1 _ _ _ _ _ _ _ _ Sc1 H0 Hr Hd Hni)) as W. apply swp_bind. eapply swp_mono; [exact W|].
    intros i2 f2 W2. apply swp_bind. eapply swp_mono; [exact W2|]. intros i3 f3 A. apply swp_ret. by eapply added_unchanged.
Qed.

Lemma laid_append c off es e l : laid c off es e → laid (over c e l) off es e.
Proof. apply laid_ext. intros o Ho. apply over_out. lia. Qed.

(** A block is added at the end of the directory. *)
Lemma append_ok f m h i es d name number :
  let bs := block_size (sb f) in
  is_dir f m h i es → new_ok d name number → name ∉ (live_names es).*1 → indexed (sb f) (isize i) (DE_NAME_OFFSET + Z.of_nat (length name)) → spare 8 f ∨ E CANNOT_READ →
  swp (ext2_dirent_write dev now euid (set_size (isize i + bs) i) (set_rec_len bs d) (isize i)) f E (λ i' f', added f m h i es name number f' i').
Proof.
  intros bs D Hd Hni Hidx HE. pose proof D as [G [Hs Hsm] Hmap Hl Hn]. pose proof Hd as [[Hi Hi'] _ Hnm Hlen _].
  pose proof (sized_bs _ (go_sized _ _ _ _ _ G)) as Hbs. fold bs in Hbs.
  assert (Hok : de_ok (set_rec_len bs d)). { eapply new_de_ok; [done|]. pose proof (ROUND_UP4_ok (DE_NAME_OFFSET + Z.of_nat (length name))). unfold DE_NAME_OFFSET, NAME_MAX in *. lia. }
  pose proof (do_rec _ Hok) as Hrec. assert (Hnl : name_len (set_rec_len bs d) = Z.of_nat (length name)) by (unfold name_len; simpl; by rewrite Hnm). simpl in Hrec. rewrite Hnl in Hrec.
  eapply swp_mono; [apply (dirent_write_any f m h (set_size (isize i + bs) i)); [exact G|done|done|by rewrite Hnl|done]|].
  intros i' f' (m' & St & Hmap'). rewrite Hnl in Hmap'. exists m', (es ++ [set_rec_len bs d]).
  pose proof (stored_mapped _ _ _ _ (set_size (isize i + bs) i) _ _ _ _ _ G St Hmap) as Hmap0. destruct St as (Hsp & G' & (Esz & Em & Ei & En)%attrs_size & Hsf & Hby). simpl in Esz, Em, Ei, En.
  assert (HP : live_names (es ++ [set_rec_len bs d]) ≡ₚ (name, number) :: live_names es).
  { rewrite live_app, live_cons, decide_False by (simpl; lia). simpl. rewrite Hnm, Hi'. solve_Permutation. }
  assert (Ebs : block_size (sb f') = bs) by (by destruct Hsp as (t & c & -> & _)). split; [|split; [done|]].
  - split; [done| | | |eapply added_names; [exact HP|apply D|done]]; rewrite Esz, ?Ebs.
    + split; [lia|]. rewrite <- Z.add_mod_idemp_r, Z.mod_same, Z.add_0_r by lia. done.
    + intros o Ho. destruct (decide (o < isize i)); [apply Hmap0; lia|]. specialize (Hmap' (isize i)). rewrite Ebs in *.
      replace (o / bs) with (isize i / bs); [apply Hmap'; unfold DE_NAME_OFFSET; lia|]. symmetry. apply (same_block (sb f) (isize i) bs o); fold bs in Hsm |- *; lia.
    + eapply laid_ext; [intros o Ho; apply Hby; lia|]. apply laid_snoc; [by apply laid_append|apply enc_over|done].
  - rewrite Esz, Em, Ei, En. split; [done|]. eapply stored_cost; [exact Hsp|exact Hsf|unfold OP_COST; lia].
Qed.

Lemma type_of_mode_byte md t : type_of_mode md = Some t → byte t.
Proof. unfold type_of_mode, byte. intros H. repeat case_match; simplify_eq; lia. Qed.

Definition link_code es name target_mode : Z :=
  if decide (is_Some (dict es !! name)) then - EEXIST else if NAME_MAX <? Z.of_nat (length name) then - ENAMETOOLONG else
  if decide (type_of_mode target_mode = None) then - EINVAL else 0.

Lemma dict_None es name : dict es !! name = None → name ∉ (live_names es).*1.
Proof. apply not_elem_of_list_to_map_2. Qed.

Lemma link_ok f m h i es get_ok name number target_mode :
  let new_len := ROUND_UP4 (DE_NAME_OFFSET + Z.of_nat (length name)) in
  is_dir f m h i es → S_ISDIR (mode i) = true → (∀ n, dict es !! name = Some n → get_ok n = true) → 0 < number < 2 ^ 32 → Forall byte name →
  (Z.of_nat (length name) ≤ NAME_MAX → Forall (λ d, fits new_len d = false) es → indexed (sb f) (isize i) (DE_NAME_OFFSET + Z.of_nat (length name)) ∧ (spare 8 f ∨ E CANNOT_READ)) →
  swp (ext2_link dev now euid get_ok i name number target_mode) f E (λ r f', let '(e, linked, i') := r in
    e = link_code es name target_mode ∧ linked = (e =? 0) ∧ if linked then added f m h i es name number f' i' else unchanged f m h i f' i').
Proof.
  intros new_len D Hdir Hget Hnum Hbytes Hfull. unfold ext2_link, link_code. apply swp_bind. eapply swp_mono; [by eapply lookup_ok|].
  intros [o i1] f1 [Ho U]. cbn [fst snd] in Ho, U. subst o. destruct (dict es !! name) as [n|] eqn:Hname.
  { apply swp_ret. rewrite decide_True by eauto. done. }
  rewrite decide_False by (intros [? ?]; done). destruct (NAME_MAX <? Z.of_nat (length name)) eqn:Hlen; [by apply swp_ret|]. apply Z.ltb_ge in Hlen.
  destruct (type_of_mode target_mode) as [t|] eqn:Ht; [|apply swp_ret; by rewrite decide_True]. rewrite decide_False by done.
  assert (Hd : new_ok (MkDe number 0 t name) name number) by (split; eauto using type_of_mode_byte). pose proof (dict_None _ _ Hname) as Hni.
  pose proof (is_dir_unchanged _ _ _ _ _ _ _ D U) as D1. apply swp_bind. eapply swp_mono; [eapply (link_loop_ok _ f1 m h i1 [] es); [by apply scan_start|exact Hd|done]|].
  intros [[pl off] i2] f2. destruct pl.
  { intros A. apply swp_ret. split; [done|]. split; [done|]. by eapply added_unchanged. }
  intros (Hoff & Hno & U2). destruct (Hfull Hlen Hno) as [Hidx HE]. pose proof (is_dir_unchanged _ _ _ _ _ _ _ D1 U2) as D2. pose proof (unchanged_trans _ _ _ _ _ _ _ _ U U2) as U3.
  pose proof U2 as (_ & _ & _ & Es2 & _). pose proof U3 as (Hsb & _ & _ & Es & _). rewrite <- Es2 in Hoff. subst off. apply swp_bind, io_ok. unfold get_sb, mwp, wp. simpl.
  apply swp_bind, swp_check; [intros Hm; rewrite (proj2 (dd_size _ _ _ _ _ D2)) in Hm; done|]. intros _. apply swp_bind.
  eapply swp_mono; [apply (append_ok f2 m h i2 es); [done|exact Hd|done|by rewrite Hsb, Es|unfold spare; by rewrite Hsb]|].
  intros i3 f3 A. apply swp_ret. split; [done|]. split; [done|]. by eapply added_unchanged.
Qed.

(** *** Unlinking *)

Definition removed f m h i es name (number : Z) f' i' : Prop :=
  ∃ m' es', is_dir f' m' h i' es' ∧ live_names es ≡ₚ (name, number) :: live_names es' ∧
    isize i' = isize i ∧ mode i' = mode i ∧ ino i' = ino i ∧ nlink i' = nlink i ∧ spent OP_COST f f' ∧ same_file dev (sb f) m (block i) m' (block i').

Lemma removed_unchanged f m h i f1 i1 es name number f' i' : unchanged f m h i f1 i1 → removed f1 m h i1 es name number f' i' → removed f m h i es name number f' i'.
Proof. intros (Hsb & _ & Eb & Es & Em & Ei & En) (m' & es' & H). unfold spent in *. rewrite Hsb, Eb, Es, Em, Ei, En in H. by exists m', es'. Qed.

(** A write that leaves all names but one. *)
Lemma removed_stored k f m h i es c' f' m' i' es' name number :
  is_dir f m h i es → stored k f m h i c' f' m' i' → laid c' 0 es' (isize i) → live_names es ≡ₚ (name, number) :: live_names es' → k ≤ OP_COST → removed f m h i es name number f' i'.
Proof.
  intros D St Hl HP Hk. exists m', es'. split.
  - eapply is_dir_stored; [done|done|done|]. pose proof (dd_names _ _ _ _ _ D) as Hn. rewrite HP in Hn. simpl in Hn. by apply NoDup_cons in Hn as [_ Hn].
  - split; [done|]. destruct St as (Hsp & _ & (-> & -> & -> & ->)%attrs_size & Hsf & _). split; [done|]. eapply stored_cost; [exact Hsp|exact Hsf|done].
Qed.

(** The first entry becomes a hole. *)
Lemma clear_first_ok f m h i d post fuel name number :
  scanning f m h i [] (d :: post) 0 fuel → de_name d = name → de_inode d = number → 0 < number →
  swp (ext2_dirent_write dev now euid i (MkDe 0 (rec_len d) 0 []) 0) f E (λ i' f', removed f m h i (d :: post) name number f' i').
Proof.
  intros Sc Hn Hi Hpos. destruct (scan_in _ _ _ _ _ _ _ _ _ Sc) as (Hoff & Hend & Hd). destruct Sc as (D & Hp & Hl & _). pose proof (do_rec _ Hd) as Hr. assert (0 ≤ name_len d) by (unfold name_len; lia).
  assert (Hok : de_ok (MkDe 0 (rec_len d) 0 [])) by (split; unfold byte, name_len, NAME_MAX, DE_NAME_OFFSET in *; simpl in *; try lia; constructor).
  eapply swp_mono; [apply (dirent_write_ok f m h i); [apply D|done|done|intros o Ho; apply (dd_mapped _ _ _ _ _ D); unfold name_len in Ho; simpl in Ho; lia]|].
  intros i' f' (m' & St). eapply (removed_stored _ _ _ _ _ _ _ _ _ _ ([] ++ MkDe 0 (rec_len d) 0 [] :: post)); [exact D|exact St|by eapply laid_rewrite| |unfold OP_COST; lia].
  simpl. rewrite !live_cons, decide_False, decide_True by (simpl; lia). by rewrite Hn, Hi.
Qed.

(** An entry is merged into the one before it. *)
Lemma laid_merge c pre p d post e off p' :
  laid c 0 pre off → laid c off (p :: d :: post) e → de_ok p' → rec_len p' = rec_len p + rec_len d → laid (over c off (de_bytes p')) 0 (pre ++ p' :: post) e.
Proof.
  intros Hpre (He & Hp & He' & Hd & Hpost) Hp' Hr. pose proof (length_de p') as Hl. pose proof (do_rec _ Hp') as Hr'. apply laid_cat. exists off. split.
  - eapply laid_ext; [|done]. intros o Ho. apply over_out. lia.
  - simpl. split; [apply enc_over|]. split; [done|]. rewrite Hr, Z.add_assoc. eapply laid_ext; [|done]. intros o Ho. apply over_out. lia.
Qed.

Lemma merge_ok f m h i pre p d post prev_off name number :
  is_dir f m h i (pre ++ p :: d :: post) → laid (fbyte (sb f) m (block i)) 0 pre prev_off → laid (fbyte (sb f) m (block i)) prev_off (p :: d :: post) (isize i) →
  de_name d = name → de_inode d = number → 0 < number → rec_len p + rec_len d < 2 ^ 16 →
  swp (ext2_dirent_write dev now euid i (set_rec_len (u16 (rec_len p + rec_len d)) p) prev_off) f E (λ i' f', removed f m h i (pre ++ p :: d :: post) name number f' i').
Proof.
  intros D Hp Hl Hn Hi Hpos Hsum. pose proof Hl as (_ & Hpok & _ & Hdok & Hl'). pose proof (laid_mono _ _ _ _ Hp). pose proof (laid_mono _ _ _ _ Hl'). pose proof (do_rec _ Hpok) as Hrp. pose proof (do_rec _ Hdok) as Hrd.
  assert (0 ≤ name_len d ∧ 0 ≤ name_len p) as [? ?] by (unfold name_len; lia). unfold DE_NAME_OFFSET in *. unfold u16. rewrite Z.mod_small by lia.
  assert (Hok : de_ok (set_rec_len (rec_len p + rec_len d) p)). { destruct Hpok. split; try done. unfold DE_NAME_OFFSET in *. change (name_len (set_rec_len (rec_len p + rec_len d) p)) with (name_len p). simpl. lia. }
  eapply swp_mono; [apply (dirent_write_ok f m h i); [apply D|lia|done|intros o Ho; apply (dd_mapped _ _ _ _ _ D); change (name_len (set_rec_len (rec_len p + rec_len d) p)) with (name_len p) in Ho; unfold DE_NAME_OFFSET in Ho; lia]|].
  intros i' f' (m' & St). eapply (removed_stored _ _ _ _ _ _ _ _ _ _ (pre ++ set_rec_len (rec_len p + rec_len d) p :: post)); [exact D|exact St|by eapply laid_merge| |unfold OP_COST; lia].
  rewrite !live_app, !live_cons, (decide_False (P := de_inode d = 0)) by lia. change (de_inode (set_rec_len (rec_len p + rec_len d) p)) with (de_inode p). case_decide; simpl; rewrite Hn, Hi; solve_Permutation.
Qed.

(** Where the entry before the scan is: itself at the first entry. *)
Definition prev_at f m i pre (prev_off off : Z) : Prop :=
  (pre = [] ∧ prev_off = 0 ∧ off = 0) ∨
  ∃ pre' p, pre = pre' ++ [p] ∧ laid (fbyte (sb f) m (block i)) 0 pre' prev_off ∧ enc (fbyte (sb f) m (block i)) prev_off p ∧ de_ok p ∧ off = prev_off + rec_len p.

(** The record lengths that a removal adds fit in sixteen bits. *)
Definition mergeable es name (number : Z) : Prop :=
  ∀ pre p d post, es = pre ++ p :: d :: post → de_name d = name → de_inode d = number → rec_len p + rec_len d < 2 ^ 16.

Lemma unlink_hit f m h i pre d post prev_off off fuel name number :
  scanning f m h i pre (d :: post) off fuel → prev_at f m i pre prev_off off → mergeable (pre ++ d :: post) name number →
  de_name d = name → de_inode d = number → 0 < number →
  swp (if prev_off =? off then i ← ext2_dirent_write dev now euid i (MkDe 0 (rec_len d) 0 []) off; mret (0, true, i)
       else '(p, i) ← ext2_dirent_read dev now euid i prev_off;
            i ← ext2_dirent_write dev now euid i (set_rec_len (u16 (rec_len p + rec_len d)) p) prev_off; mret (0, true, i)) f E
    (λ r f', let '(e, hit, i') := r in e = 0 ∧ hit = true ∧ removed f m h i (pre ++ d :: post) name number f' i').
Proof.
  intros Sc [(-> & -> & ->)|(pre' & p & -> & Hp & He & Hpok & ->)] Hmg Hn Hi Hpos.
  - simpl. apply swp_bind. eapply swp_mono; [by eapply clear_first_ok|]. intros i' f' R. by apply swp_ret.
  - destruct Sc as (D & _ & Hl & _). rewrite <- app_assoc in *. pose proof (do_rec _ Hpok). rewrite (proj2 (Z.eqb_neq _ _)) by (unfold DE_NAME_OFFSET, name_len in *; lia).
    assert (Hl' : laid (fbyte (sb f) m (block i)) prev_off (p :: d :: post) (isize i)) by done. apply swp_bind. eapply swp_mono; [eapply dir_read_ok; [exact D|exact Hp|exact Hl']|].
    intros [p' i1] f1 [E1 U]. cbn [fst snd] in E1, U. subst p'. pose proof (is_dir_unchanged _ _ _ _ _ _ _ D U) as D1. pose proof U as (Hsb & _ & Eb & Es & _).
    apply swp_bind. eapply swp_mono; [eapply (merge_ok f1 m h i1 pre' p d post); [exact D1|by rewrite Hsb, Eb|by rewrite Hsb, Eb, Es|done|done|done|by eapply Hmg]|].
    intros i' f' R. apply swp_ret. split; [done|]. split; [done|]. by eapply removed_unchanged.
Qed.

Lemma unlink_loop_ok fuel f m h i pre post prev_off off name number :
  scanning f m h i pre post off fuel → prev_at f m i pre prev_off off → mergeable (pre ++ post) name number → 0 < number →
  swp (unlink_loop dev now euid fuel i number name prev_off off) f E (λ r f', let '(e, hit, i') := r in
    if hit then e = 0 ∧ removed f m h i (pre ++ post) name number f' i'
    else e = - ENOENT ∧ (name, number) ∉ live_names post ∧ unchanged f m h i f' i').
Proof.
  intros Sc Hpv Hmg Hpos. revert f i pre post prev_off off Sc Hpv Hmg. induction fuel as [|fuel IH]; intros f i pre post prev_off off Sc Hpv Hmg; [destruct Sc as (_ & _ & _ & ?); lia|]. cbn [unlink_loop].
  destruct post as [|d post].
  { destruct (scan_end _ _ _ _ _ _ _ Sc) as [Ho ->]. apply swp_ret. split; [done|]. split; [apply not_elem_of_nil|]. destruct Sc as (D & _). by eapply unchanged_refl. }
  destruct (scan_in _ _ _ _ _ _ _ _ _ Sc) as (Hoff & _). rewrite (proj2 (Z.ltb_lt _ _)) by lia. apply swp_bind. eapply swp_mono; [by eapply scan_read|].
  intros [d' i1] f1 [E1 U]. cbn [fst snd] in E1, U. subst d'. pose proof Sc as (D & Hp & Hl & Hf). pose proof U as (Hsb & _ & Eb & Es & _). rewrite has_name_spec.
  destruct (negb (de_inode d =? number) || negb (bool_decide (de_name d = name))) eqn:Hmiss.
  - eapply swp_mono; [eapply (IH f1 i1 (pre ++ [d]) post); [exact (scan_next _ _ _ _ _ _ _ _ _ _ _ Sc U)| |by rewrite <- app_assoc]|].
    + right. exists pre, d. rewrite Hsb, Eb. destruct Hl as (? & ? & _). done.
    + intros [[e hit] i'] f'. rewrite <- app_assoc. destruct hit; [intros [-> R]; split; [done|by eapply removed_unchanged]|]. intros (-> & Hno & U2). split; [done|]. split; [|by eapply unchanged_trans].
      rewrite live_cons. destruct (decide (de_inode d = 0)); [exact Hno|]. rewrite elem_of_cons. intros [[= -> ->]|?]; [|done]. rewrite Z.eqb_refl, bool_decide_true in Hmiss by done. done.
  - apply orb_false_iff in Hmiss as [H1%negb_false_iff%Z.eqb_eq H2%negb_false_iff%bool_decide_eq_true].
    eapply swp_mono; [eapply (unlink_hit f1 m h i1 pre d post); [|unfold prev_at; rewrite Hsb, Eb; exact Hpv|exact Hmg|done|done|done]|].
    + split; [by eapply is_dir_unchanged|]. rewrite Hsb, Eb, Es. done.
    + intros [[e hit] i'] f' (-> & -> & R). split; [done|]. by eapply removed_unchanged.
Qed.

Lemma dict_elem es name number : NoDup (live_names es).*1 → (name, number) ∈ live_names es ↔ dict es !! name = Some number.
Proof. intros Hn. by apply elem_of_list_to_map. Qed.

Definition unlink_code i es name (number : Z) : Z :=
  if (ino i =? number) && negb (bool_decide (name = dot)) then - EBUSY else if decide (dict es !! name = Some number) then 0 else - ENOENT.

Lemma unlink_ok f m h i es name number :
  is_dir f m h i es → 0 < number → mergeable es name number →
  swp (ext2_unlink dev now euid i number name) f E (λ r f', let '(e, hit, i') := r in
    e = unlink_code i es name number ∧ hit = (e =? 0) ∧ if hit then removed f m h i es name number f' i' else unchanged f m h i f' i').
Proof.
  intros D Hpos Hmg. unfold ext2_unlink, unlink_code. pose proof (dd_names _ _ _ _ _ D) as Hn. destruct ((ino i =? number) && negb (bool_decide (name = dot))).
  { apply swp_ret. split; [done|]. split; [done|]. by eapply unchanged_refl. }
  eapply swp_mono; [eapply (unlink_loop_ok _ f m h i [] es); [by apply scan_start|by left|done|done]|].
  intros [[e hit] i'] f'. destruct hit.
  - intros [-> R]. pose proof R as (m' & es' & _ & HP & _). rewrite decide_True; [done|]. apply dict_elem; [done|]. rewrite HP. apply elem_of_cons. by left.
  - intros (-> & Hno & U). rewrite decide_False; [done|]. by rewrite <- dict_elem.
Qed.

(** *** Emptiness *)

Definition only_dots es : Prop := Forall (λ p, p.1 = dot ∨ p.1 = dotdot) (live_names es).

Lemma empty_loop_ok fuel f m h i pre post off :
  scanning f m h i pre post off fuel → swp (empty_loop dev now euid fuel i off) f E (λ r f', (r.1 = true ↔ only_dots post) ∧ unchanged f m h i f' r.2).
Proof.
  revert f i pre post off. induction fuel as [|fuel IH]; intros f i pre post off Sc; [destruct Sc as (_ & _ & _ & ?); lia|]. cbn [empty_loop].
  destruct post as [|d post].
  { destruct (scan_end _ _ _ _ _ _ _ Sc) as [_ ->]. apply swp_ret. split; [split; [by constructor|done]|]. destruct Sc as (D & _). by eapply unchanged_refl. }
  destruct (scan_in _ _ _ _ _ _ _ _ _ Sc) as (Hoff & _). rewrite (proj2 (Z.ltb_lt _ _)) by lia. apply swp_bind. eapply swp_mono; [by eapply scan_read|].
  intros [d' i1] f1 [Hd U]. cbn [fst snd] in Hd, U. subst d'. rewrite !has_name_spec. destruct ((de_inode d =? 0) || _ || _) eqn:Hskip.
  - eapply swp_mono; [eapply IH; by eapply scan_next|]. intros r f2 [Hr U2]. split; [|by eapply unchanged_trans]. rewrite Hr. unfold only_dots. rewrite live_cons. destruct (decide (de_inode d = 0)); [tauto|].
    rewrite Forall_cons. simpl. rewrite !orb_true_iff, Z.eqb_eq, !bool_decide_eq_true in Hskip. naive_solver.
  - apply swp_ret. split; [|done]. unfold only_dots. rewrite live_cons. rewrite !orb_false_iff, Z.eqb_neq, !bool_decide_eq_false in Hskip. rewrite decide_False, Forall_cons by tauto. simpl. naive_solver.
Qed.

Lemma dir_empty_ok f m h i es : is_dir f m h i es → swp (ext2_dir_empty dev now euid i) f E (λ r f', (r.1 = true ↔ only_dots es) ∧ unchanged f m h i f' r.2).
Proof. intros D. by eapply empty_loop_ok, scan_start. Qed.

(** *** The operations implement the map *)

Lemma dict_perm es es' : live_names es ≡ₚ live_names es' → NoDup (live_names es).*1 → dict es = dict es'.
Proof. intros HP Hn. by apply list_to_map_proper. Qed.

Lemma added_dict f m h i es name number f' i' : name ∉ (live_names es).*1 → NoDup (live_names es).*1 → added f m h i es name number f' i' →
  ∃ m' es', is_dir f' m' h i' es' ∧ dict es' = <[name := number]> (dict es) ∧ isize i' ≤ isize i + block_size (sb f) ∧ mode i' = mode i ∧ ino i' = ino i ∧ spent OP_COST f f' ∧ same_file dev (sb f) m (block i) m' (block i').
Proof.
  intros Hni Hn (m' & es' & D & HP & Hsz & Hmd & Hino & _ & Hsp & Hsf). exists m', es'. split; [done|]. split; [|done].
  unfold dict. change (<[name := number]> (list_to_map (live_names es))) with (list_to_map ((name, number) :: live_names es) : gmap (list Z) Z). apply list_to_map_proper; [apply D|done].
Qed.

Lemma removed_dict f m h i es name number f' i' : NoDup (live_names es).*1 → removed f m h i es name number f' i' →
  ∃ m' es', is_dir f' m' h i' es' ∧ dict es' = delete name (dict es) ∧ isize i' = isize i ∧ mode i' = mode i ∧ ino i' = ino i ∧ spent OP_COST f f' ∧ same_file dev (sb f) m (block i) m' (block i').
Proof.
  intros Hn (m' & es' & D & HP & Hsz & Hmd & Hino & _ & Hsp & Hsf). exists m', es'. split; [done|]. split; [|done].
  assert (dict es = <[name := number]> (dict es')) as ->.
  { unfold dict. change (<[name := number]> (list_to_map (live_names es'))) with (list_to_map ((name, number) :: live_names es') : gmap (list Z) Z). by apply list_to_map_proper. }
  rewrite HP in Hn. simpl in Hn. apply NoDup_cons in Hn as [Hni _]. rewrite delete_insert_eq, delete_id; [done|]. by apply not_elem_of_list_to_map_1.
Qed.

Lemma only_dots_dict es : NoDup (live_names es).*1 → only_dots es ↔ map_Forall (λ name _, name = dot ∨ name = dotdot) (dict es).
Proof.
  intros Hn. unfold only_dots. rewrite Forall_forall, map_Forall_lookup. split.
  - intros H name n Hl. apply (H (name, n)). by apply dict_elem.
  - intros H [name n] Hl. apply (H name n). by apply dict_elem.
Qed.

Lemma laid_rec c off es e pre p d post : laid c off es e → es = pre ++ p :: d :: post → rec_len p + rec_len d ≤ e - off.
Proof.
  intros H ->. apply laid_cat in H as (mid & H1%laid_mono & _ & Hp & _ & Hd & H2%laid_mono). lia.
Qed.

Lemma small_indexed x off n : sized x → 0 ≤ off → off + n ≤ 2 ^ 17 → indexed x off n.
Proof.
  intros Hs Ho Hn o Hr. pose proof (ppb_pos x Hs). pose proof (sized_ppb x Hs). pose proof (sized_bs x Hs).
  assert (o / block_size x < 12 + ppb x) by (apply Z.div_lt_upper_bound; nia). unfold index_path. destruct (_ <? 12); [by eexists|]. rewrite (proj2 (Z.ltb_lt _ _)) by lia. by eexists.
Qed.

(** A state in which the directory may serve [n] more operations. *)
Definition serves (n : Z) f m h i es : Prop :=
  is_dir f m h i es ∧ S_ISDIR (mode i) = true ∧ isize i + n * block_size (sb f) < 2 ^ 16 ∧ spare (n * OP_COST) f.

Definition served f m h i (n : Z) (s : gmap (list Z) Z) f' i' : Prop :=
  ∃ m' es', serves n f' m' h i' es' ∧ dict es' = s ∧ ino i' = ino i ∧ (∃ t c, sb f' = later t c (sb f)) ∧ same_file dev (sb f) m (block i) m' (block i').

Lemma serves_unchanged n f m h i es f' i' : 0 ≤ n → serves (n + 1) f m h i es → unchanged f m h i f' i' → served f m h i n (dict es) f' i'.
Proof.
  intros Hn (D & Hm & Hsz & Hsp) U. exists m, es. pose proof (is_dir_unchanged _ _ _ _ _ _ _ D U) as D'. pose proof (sized_bs _ (go_sized _ _ _ _ _ (dd_good _ _ _ _ _ D))).
  destruct U as (Hsb & _ & Eb & Es & Em & Ei & _). unfold OP_COST in *. split; [|split; [done|split; [done|split]]].
  - split; [done|]. unfold spare in *. rewrite Em, Es, Hsb. split; [done|]. unfold OP_COST. lia.
  - rewrite Hsb. exists (wtime (sb f)), (free_blocks_count (sb f)). apply later_self.
  - rewrite Eb. split; auto.
Qed.

Lemma serves_changed n f m h i es f' m' i' es' :
  0 ≤ n → serves (n + 1) f m h i es → is_dir f' m' h i' es' → isize i' ≤ isize i + block_size (sb f) → mode i' = mode i → ino i' = ino i → spent OP_COST f f' →
  same_file dev (sb f) m (block i) m' (block i') → served f m h i n (dict es') f' i'.
Proof.
  intros Hn (D & Hm & Hsz & Hsp) D' Hsz' Hm' Hi Hspent Hsf. exists m', es'. split; [|split; [done|split; [done|split; [|done]]]].
  - split; [done|]. rewrite Hm'. split; [done|]. split; [|eapply spare_next; [|exact Hspent]; by replace (OP_COST + n * OP_COST) with ((n + 1) * OP_COST) by lia].
    destruct Hspent as (t & c & -> & _). change (block_size (later t c (sb f))) with (block_size (sb f)). lia.
  - destruct Hspent as (t & c & Hsb & _). by exists t, c.
Qed.

Lemma serves_mergeable n f m h i es name number : 0 ≤ n → serves n f m h i es → mergeable es name number.
Proof.
  intros Hn (D & _ & Hsz & _) pre p d post Hes _ _. pose proof (laid_rec _ _ _ _ _ _ _ _ (dd_laid _ _ _ _ _ D) Hes). pose proof (sized_bs _ (go_sized _ _ _ _ _ (dd_good _ _ _ _ _ D))). nia.
Qed.

Context (get_ok : Z → bool) (Hget : ∀ n, get_ok n = true).

Lemma run_op_ok op n f m h i es : 0 ≤ n → serves (n + 1) f m h i es → op_ok op →
  swp (run_op dev now euid get_ok op i) f E (λ r f', let '(rp, s) := spec_op (ino i) op (dict es) in r.1 = rp ∧ served f m h i n s f' r.2).
Proof.
  intros Hn Sv Hop. pose proof Sv as (D & Hm & Hsz & Hsp). pose proof (dd_names _ _ _ _ _ D) as Hnd. pose proof (sized_bs _ (go_sized _ _ _ _ _ (dd_good _ _ _ _ _ D))) as Hbs.
  destruct op as [name|name number md|number name|]; unfold run_op.
  - apply swp_bind. eapply swp_mono; [by eapply lookup_ok|]. intros [o i'] f' [Ho U]. cbn [fst snd] in Ho, U. apply swp_ret. unfold spec_op. split; [|by eapply serves_unchanged].
    simpl. by rewrite Ho.
  - destruct Hop as [Hnum Hby]. apply swp_bind. eapply swp_mono; [eapply (link_ok f m h i es); try done|].
    + intros Hlen _. split; [apply small_indexed; [apply D|apply D|unfold DE_NAME_OFFSET, NAME_MAX in *; nia]|]. left. unfold spare, OP_COST in *. lia.
    + intros [[e hit] i'] f' (-> & -> & H). apply swp_ret. unfold link_code, spec_op in *. destruct (decide (is_Some (dict es !! name))) as [Hs|Hno]; [split; [done|by eapply serves_unchanged]|].
      destruct (NAME_MAX <? _); [split; [done|by eapply serves_unchanged]|]. destruct (decide (type_of_mode md = None)); [split; [done|by eapply serves_unchanged]|].
      split; [done|]. apply eq_None_not_Some in Hno. destruct (added_dict _ _ _ _ _ _ _ _ _ (dict_None _ _ Hno) Hnd H) as (m' & es' & D' & <- & ? & ? & ? & ? & ?). by eapply serves_changed.
  - apply swp_bind. eapply swp_mono; [apply (unlink_ok f m h i es); [done|done|eapply (serves_mergeable (n + 1)); [lia|done]]|].
    intros [[e hit] i'] f' (-> & -> & H). apply swp_ret. unfold unlink_code, spec_op in *. destruct (_ && _); [split; [done|by eapply serves_unchanged]|].
    destruct (decide (dict es !! name = Some number)); [|split; [done|by eapply serves_unchanged]]. split; [done|].
    destruct (removed_dict _ _ _ _ _ _ _ _ _ Hnd H) as (m' & es' & D' & <- & Hsz' & ? & ? & ? & ?). eapply serves_changed; try done. cbn [snd]. lia.
  - apply swp_bind. eapply swp_mono; [by eapply dir_empty_ok|]. intros [b i'] f' [Hb U]. cbn [fst snd] in Hb, U. apply swp_ret. unfold spec_op. split; [|by eapply serves_unchanged].
    cbn [fst]. f_equal. rewrite (only_dots_dict _ Hnd) in Hb. destruct b; symmetry; [apply bool_decide_eq_true; tauto|]. apply bool_decide_eq_false. intros ?%Hb. done.
Qed.

Lemma dir_ops_ok ops f m h i es : serves (Z.of_nat (length ops)) f m h i es → Forall op_ok ops →
  swp (run_ops dev now euid get_ok ops i) f E (λ r f', let '(rs, s) := spec_ops (ino i) ops (dict es) in r.1 = rs ∧ served f m h i 0 s f' r.2).
Proof.
  revert f m i es. induction ops as [|op ops IH]; intros f m i es Sv Hok.
  - apply swp_ret. split; [done|]. exists m, es. split; [done|]. split; [done|]. split; [done|]. split; [|by split; auto].
    exists (wtime (sb f)), (free_blocks_count (sb f)). apply later_self.
  - cbn [run_ops spec_ops length] in *. rewrite Nat2Z.inj_succ in Sv. apply Forall_cons in Hok as [Hop Hok]. apply swp_bind. eapply swp_mono; [apply (run_op_ok op (Z.of_nat (length ops))); [lia|exact Sv|done]|].
    intros [r i1] f1. destruct (spec_op (ino i) op (dict es)) as [rp s]. intros (Hr & m1 & es1 & Sv1 & <- & Hi & (t & c & Hsb) & Hsf). cbn [fst snd] in *. subst rp.
    apply swp_bind. eapply swp_mono; [by eapply IH|]. intros [rs i2] f2. rewrite Hi. destruct (spec_ops (ino i) ops (dict es1)) as [rps s2].
    intros (Hrs & m2 & es2 & Sv2 & <- & Hi2 & (t2 & c2 & Hsb2) & Hsf2). cbn [fst snd] in *. subst rps. apply swp_ret. split; [done|]. exists m2, es2. split; [done|]. split; [done|]. cbn [fst snd] in *. split; [congruence|].
    rewrite Hsb in Hsb2, Hsf2. split; [by exists t2, c2|]. apply later_same_file in Hsf2. by eapply same_file_trans.
Qed.

End entries.

(** C32: On disk, a directory is a finite map from names to inode numbers: any
    sequence of [ext2_lookup], [ext2_link], [ext2_unlink] and [ext2_dir_empty]
    gives the answers, errors included, and leaves the names, that the map
    gives, whatever holes and record lengths the entries have; the entries stay
    well formed and no block of another file changes.  Nothing stops the kernel
    as long as the directory is below 64 KB and the disk has free blocks. *)
Theorem ext2_dir_refines {S} `{!BlockOps S, !BlockLaws S} dev now euid get_ok ops (f : fs S) m h i es :
  0 ≤ now < 2 ^ 32 → (∀ n, get_ok n = true) → is_dir dev f m h i es → S_ISDIR (mode i) = true →
  isize i + Z.of_nat (length ops) * block_size (sb f) < 2 ^ 16 → spare (Z.of_nat (length ops) * OP_COST) f → Forall op_ok ops →
  let '(replies, s) := spec_ops (ino i) ops (dict es) in
  ∃ i' f' m' es', run_ops dev now euid get_ok ops i f = Ok ((replies, i'), f') ∧ is_dir dev f' m' h i' es' ∧ dict es' = s ∧
    same_file dev (sb f) m (block i) m' (block i').
Proof.
  intros Hnow Hget D Hm Hsz Hsp Hok.
  destruct (swp_run _ _ _ (dir_ops_ok dev now euid Hnow no_panic get_ok Hget ops f m h i es ltac:(split; auto) Hok)) as ([rs i'] & f' & E & H).
  destruct (spec_ops (ino i) ops (dict es)) as [replies s]. destruct H as (Hr & m' & es' & (D' & _) & Hd & _ & _ & Hsf). simpl in Hr. subst rs. by exists i', f', m', es'.
Qed.

End Ext2Dir.
