(* ===== verification/Ext2DirOps.v ===== *)
(** Listing and removing ext2 directories ([ext2_readdir], [ext2_rmdir] of
    src/kernel/fs/ext2.c, [do_readdir_locked] of src/kernel/fs/service.c).

    A removal changes two directories.  That a change of one leaves the other as
    it was is a frame lemma, [other_dir], from the fact that the blocks of two
    files are apart. *)

From S2P Require Import Prelude StateM Bytes Store Ext2Base Ext2Alloc Ext2Inode Ext2Dir.
Import Bytes Store Ext2Base Ext2Alloc Ext2Inode Ext2Dir.
#[local] Open Scope Z_scope.

Module Ext2DirOps.
Implicit Types (i j : Inode) (name : list Z).

Definition EPERM : Z := 1.
Definition ENOTDIR : Z := 20.

(** ** Operations *)

Section ops.
Context {S : Type} `{!BlockOps S} (dev now euid : Z).

(** The directory [i], its name [name] and its parent [dir]. *)
Definition ext2_rmdir dir i name : sm (fs S) (Z * Inode * Inode) :=
  check (negb (bool_decide (name = dot))) "Assertion failed: strcmp(name, .) != 0";;
  check (negb (bool_decide (name = dotdot))) "Assertion failed: strcmp(name, ..) != 0";;
  '(b, i) ← ext2_dir_empty dev now euid i;
  if negb b then mret (- ENOTEMPTY, dir, i) else
  '(r, hit, i) ← ext2_unlink dev now euid i (ino i) dot;
  let i := if hit : bool then unlinked_inode now i else i in
  if r <? 0 then mret (r, dir, i) else
  '(r, hit, i) ← ext2_unlink dev now euid i (ino dir) dotdot;
  let dir := if hit : bool then unlinked_inode now dir else dir in
  if r <? 0 then mret (r, dir, i) else
  '(r, hit, dir) ← ext2_unlink dev now euid dir (ino i) name;
  let i := if hit : bool then unlinked_inode now i else i in
  if r <? 0 then mret (r, dir, i) else
  mret (0, set_idirty (set_ctime now (set_mtime now (set_nlink (u16 (nlink dir - 1)) dir))), i).

(** The entry at [off], for the caller's [filldir], and its record length. *)
Definition ext2_readdir i (off : Z) : sm (fs S) (Z * option (Z * list Z) * Inode) :=
  check (S_ISDIR (mode i)) "Assertion failed: S_ISDIR(dir->mode)";;
  if isize i <=? off then mret (0, None, i) else
  '(d, i) ← ext2_dirent_read dev now euid i off;
  mret (rec_len d, Some (de_inode d, de_name d), i).

(** [struct dirent]; the layout is that of the C library's headers. *)
Record dirent := MkDirent { d_ino : Z; d_reclen : Z; d_name : list Z }.

Context (d_name_offset : Z) {R : Type} (request_write : R → dirent → Z * R).

Definition fs_filldir (n : Z) name : dirent := MkDirent n (u16 (Z.of_nat (length name) + d_name_offset + 1)) (name ++ [0]).

Fixpoint readdir_loop (fuel : nat) (req : R) i (offset nbyte total : Z) : sm (fs S) (Z * R * Z * Inode) :=
  match fuel with
  | O => stop NO_FUEL
  | Datatypes.S fuel =>
      if 0 <? nbyte then
        '(nread, e, i) ← ext2_readdir i offset;
        if nread <? 0 then mret (nread, req, offset, i) else
        match e with
        | None => mret (total, req, offset, i)
        | Some (n, name) =>
            let de := fs_filldir n name in
            if nread =? 0 then mret (total, req, offset, i) else
            if nbyte <? d_reclen de then mret (if total =? 0 then - EINVAL else total, req, offset, i) else
            let '(r, req) := request_write req de in
            if r <? 0 then mret (r, req, offset + nread, i) else
            readdir_loop fuel req i (offset + nread) (nbyte - d_reclen de) (total + d_reclen de)
        end
      else mret (total, req, offset, i)
  end.

(** The result, the request and the file offset. *)
Definition do_readdir_locked (permitted : bool) (req : R) i (offset nbyte : Z) : sm (fs S) (Z * R * Z * Inode) :=
  if negb (S_ISDIR (mode i)) then mret (- ENOTDIR, req, offset, i) else
  if negb permitted then mret (- EPERM, req, offset, i) else
  readdir_loop (Datatypes.S (Z.to_nat nbyte)) req i offset nbyte 0.
End ops.

(** ** Two directories *)

Section two.
Context {S : Type} `{!BlockOps S, !BlockLaws S} (dev now euid : Z) (Hnow : 0 ≤ now < 2 ^ 32) (E : string → Prop).
Implicit Types (f : fs S) (m : gmap key (list Z)) (h : gset key) (es : list Ext2DirEntry).

Notation is_dir := (is_dir dev).

(** No block belongs to both files. *)
Definition apart x m (B1 B2 : list Z) : Prop := ∀ c, in_tree dev x m B1 c → in_tree dev x m B2 c → False.

Lemma apart_sym x m B1 B2 : apart x m B1 B2 → apart x m B2 B1.
Proof. intros H c H1 H2. by apply (H c). Qed.

Lemma later_in_tree t c x m B b : in_tree dev (later t c x) m B b ↔ in_tree dev x m B b.
Proof. unfold in_tree. split; intros (s & js & ? & Ea & ?); exists s, js; (split; [done|]; split; [|done]); [by rewrite later_at in Ea|by rewrite later_at]. Qed.

Lemma later_apart t c x m B1 B2 : apart (later t c x) m B1 B2 ↔ apart x m B1 B2.
Proof. unfold apart. split; intros H b; specialize (H b); rewrite !later_in_tree in *; done. Qed.

(** The places of a file that is apart from the one that changed. *)
Lemma other_at x m B1 m' B1' B2 :
  tree_ok dev x m B2 → apart x m B1 B2 → same_file dev x m B1 m' B1' → ∀ s js, pos_ok x s js → at_pos dev x m' B2 s js = at_pos dev x m B2 s js.
Proof.
  intros Ht Ha Hsf. apply walk_frame. intros s js Hp _ Hne. unfold Ext2Alloc.blk. destruct (sf_other _ _ _ _ _ _ Hsf (at_pos dev x m B2 s js)) as (_ & _ & ->); [by apply (t_ids _ _ _ _ Ht)| |done].
  intros Hin. apply (Ha _ Hin). by exists s, js.
Qed.

Lemma other_good f m h B1 f' m' B1' B2 :
  good dev f m B2 h → apart (sb f) m B1 B2 → (∃ t c, sb f' = later t c (sb f)) → good dev f' m' B1' h → same_file dev (sb f) m B1 m' B1' →
  good dev f' m' B2 h ∧ apart (sb f') m' B1' B2.
Proof.
  intros G Ha (t & c & Hsb) [Gwf Gs _ Gat Gh Gsz] Hsf. pose proof (go_tree _ _ _ _ _ G) as Ht. pose proof (other_at _ _ _ _ _ _ Ht Ha Hsf) as Hat.
  assert (Hother : ∀ s js, pos_ok (sb f) s js → at_pos dev (sb f) m B2 s js ≠ 0 → file_block dev (sb f) m' (at_pos dev (sb f) m B2 s js) ∧ ¬ in_tree dev (sb f) m' B1' (at_pos dev (sb f) m B2 s js)).
  { intros s js Hp Hne. destruct (sf_other _ _ _ _ _ _ Hsf (at_pos dev (sb f) m B2 s js)) as (H1 & H2 & _); [by apply (t_ids _ _ _ _ Ht)| |done]. intros Hin. apply (Ha _ Hin). by exists s, js. }
  split; [split; try done; rewrite Hsb|rewrite Hsb; apply later_apart].
  - apply later_tree. split; [apply Ht| |].
    + intros s js Hp. rewrite Hat by done. intros Hne. by apply Hother.
    + intros s js s' js' Hp Hp'. rewrite !Hat by done. by apply (t_inj _ _ _ _ Ht).
  - apply later_unheld. rewrite Hsb in Gh. apply (proj1 (later_unheld _ _ _ _ _ _ _)) in Gh. split; [apply Gh|]. intros s js Hp. rewrite Hat by done. apply (u_tree _ _ _ _ _ (go_held _ _ _ _ _ G)). done.
  - intros b Hb (s & js & Hp & Hb2 & Hne). rewrite Hat in Hb2 by done. subst b. by destruct (Hother s js Hp Hne).
Qed.

Lemma other_byte x m B1 m' B1' B2 :
  sized x → tree_ok dev x m B2 → apart x m B1 B2 → same_file dev x m B1 m' B1' →
  ∀ o, 0 ≤ o → bmap dev x m' B2 (o / block_size x) = bmap dev x m B2 (o / block_size x) ∧ fbyte dev x m' B2 o = fbyte dev x m B2 o.
Proof.
  intros Hs Ht Ha Hsf o Ho. pose proof (sized_bs x Hs). assert (Hq : 0 ≤ o / block_size x) by (apply Z.div_pos; lia).
  assert (Hb : bmap dev x m' B2 (o / block_size x) = bmap dev x m B2 (o / block_size x)).
  { unfold bmap. destruct (index_path x (o / block_size x)) as [[s js]|] eqn:Hp; [|done]. eapply other_at; [done|done|done|]. by apply (index_path_ok _ _ _ _ Hs Hq Hp). }
  split; [done|]. unfold fbyte. rewrite Hb. destruct (Z.eqb_spec (bmap dev x m B2 (o / block_size x)) 0) as [|Hne]; [done|]. unfold Ext2Alloc.blk.
  destruct (sf_other _ _ _ _ _ _ Hsf (bmap dev x m B2 (o / block_size x))) as (_ & _ & ->); [by apply bmap_file| |done]. intros Hin. apply (Ha _ Hin).
  unfold bmap in *. destruct (index_path x (o / block_size x)) as [[s js]|] eqn:Hp; [|done]. exists s, js. split; [|done]. by apply (index_path_ok _ _ _ _ Hs Hq Hp).
Qed.

(** A directory is as it was after a change of another file. *)
Lemma other_dir f m h i1 f' m' i1' i2 es2 :
  is_dir f m h i2 es2 → apart (sb f) m (block i1) (block i2) → (∃ t c, sb f' = later t c (sb f)) → good dev f' m' (block i1') h →
  same_file dev (sb f) m (block i1) m' (block i1') → is_dir f' m' h i2 es2 ∧ apart (sb f') m' (block i1') (block i2).
Proof.
  intros [G Hs Hm Hl Hn] Ha Hsb G' Hsf. destruct (other_good _ _ _ _ _ _ _ _ G Ha Hsb G' Hsf) as [G2 Ha2]. split; [|done]. destruct Hsb as (t & c & Hsb).
  pose proof (other_byte _ _ _ _ _ _ (go_sized _ _ _ _ _ G) (go_tree _ _ _ _ _ G) Ha Hsf) as Ho. split; [done|by rewrite Hsb| | |done].
  - intros o Hr. rewrite Hsb, later_bmap. change (block_size (later t c (sb f))) with (block_size (sb f)). rewrite (proj1 (Ho o ltac:(lia))). by apply Hm.
  - eapply laid_ext; [|exact Hl]. intros o Hr. rewrite Hsb, later_fbyte. apply Ho. lia.
Qed.

Lemma is_dir_fields f m h i i' es : block i' = block i → isize i' = isize i → is_dir f m h i es → is_dir f m h i' es.
Proof. intros Eb Es [G Hs Hm Hl Hn]. split; rewrite ?Eb, ?Es; done. Qed.

(** *** Removing a directory *)

(** Two directories, [P] and [I]. *)
Definition pair_ok f m h dir P i I : Prop :=
  is_dir f m h dir P ∧ is_dir f m h i I ∧ apart (sb f) m (block i) (block dir) ∧ isize dir < 2 ^ 16 ∧ isize i < 2 ^ 16.

Lemma pair_sym f m h dir P i I : pair_ok f m h dir P i I → pair_ok f m h i I dir P.
Proof. intros (? & ? & ?%apart_sym & ? & ?). done. Qed.

Lemma pair_fields f m h dir P i I dir' i' :
  block dir' = block dir → isize dir' = isize dir → block i' = block i → isize i' = isize i → pair_ok f m h dir P i I → pair_ok f m h dir' P i' I.
Proof. intros E1 E2 E3 E4 (H1 & H2 & H3 & H4 & H5). unfold pair_ok. rewrite E1, E2, E3, E4. split; [by eapply is_dir_fields|]. split; [by eapply is_dir_fields|]. done. Qed.

Lemma pair_unchanged f m h dir P i I f' i' : pair_ok f m h dir P i I → unchanged f m h i f' i' → pair_ok f' m h dir P i' I.
Proof.
  intros (H1 & H2 & H3 & H4 & H5) U. pose proof (is_dir_unchanged _ _ _ _ _ _ _ _ H2 U) as H2'. destruct U as (Hsb & Hat & Eb & Es & _). unfold pair_ok. rewrite Eb, Es, Hsb. split; [|done].
  destruct H1 as [G Hs Hm Hl Hn]. split; rewrite ?Hsb; try done. by eapply good_read.
Qed.

Lemma small_mergeable f m h i es name number : is_dir f m h i es → isize i < 2 ^ 16 → mergeable es name number.
Proof. intros D Hsz pre p d post Hes _ _. pose proof (laid_rec _ _ _ _ _ _ _ _ (dd_laid _ _ _ _ _ _ D) Hes). lia. Qed.

(** A name that is there is removed from one of them. *)
Lemma pair_unlink f m h dir P i I name number :
  pair_ok f m h dir P i I → 0 < number → dict I !! name = Some number → (ino i =? number) && negb (bool_decide (name = dot)) = false →
  swp (ext2_unlink dev now euid i number name) f E (λ r f', let '(e, hit, i') := r in e = 0 ∧ hit = true ∧
    nlink i' = nlink i ∧ ino i' = ino i ∧ ∃ m' I', pair_ok f' m' h dir P i' I' ∧ dict I' = delete name (dict I)).
Proof.
  intros (H1 & H2 & H3 & H4 & H5) Hpos Hn Hb. eapply swp_mono; [apply (unlink_ok dev now euid Hnow E f m h i I); [done|done|by eapply small_mergeable]|].
  intros [[e hit] i'] f' (-> & -> & H). unfold unlink_code in *. rewrite Hb, decide_True in * by done. split; [done|]. split; [done|]. simpl in H.
  pose proof H as (_ & _ & _ & _ & _ & _ & _ & Hnl & _). destruct (removed_dict _ _ _ _ _ _ _ _ _ _ (dd_names _ _ _ _ _ _ H2) H) as (m' & I' & D' & Hd & Hsz & _ & Hino & Hsp & Hsf).
  split; [done|]. split; [done|]. exists m', I'. split; [|done]. assert (Hsb : ∃ t c, sb f' = later t c (sb f)) by (destruct Hsp as (t & c & ? & _); eauto).
  destruct (other_dir _ _ _ _ _ _ _ _ _ H1 H3 Hsb (dd_good _ _ _ _ _ _ D') Hsf) as [H1' H3']. unfold pair_ok. rewrite Hsz. done.
Qed.

Lemma unlinked_fields i : let i' := unlinked_inode now i in block i' = block i ∧ isize i' = isize i ∧ ino i' = ino i ∧ nlink i' = u16 (nlink i - 1).
Proof. cbv zeta. unfold unlinked_inode. by destruct (0 <? u16 (nlink i - 1)). Qed.

Lemma u16_dec2 n : u16 (u16 (n - 1) - 1) = u16 (n - 2).
Proof. unfold u16. rewrite Zminus_mod_idemp_l. f_equal. lia. Qed.

Lemma only_dots_gone I : NoDup (live_names I).*1 → only_dots I → delete dotdot (delete dot (dict I)) = ∅.
Proof.
  intros Hn Ho%only_dots_dict; [|done]. apply map_empty. intros name. destruct (dict I !! name) as [n|] eqn:Hl; [|by rewrite !lookup_delete_None; auto].
  destruct (Ho name n Hl) as [->| ->]; rewrite !lookup_delete_None; auto.
Qed.

Lemma rmdir_ok f m h dir P i I name :
  pair_ok f m h dir P i I → 0 < ino dir → 0 < ino i → ino dir ≠ ino i → name ≠ dot → name ≠ dotdot →
  dict I !! dot = Some (ino i) → dict I !! dotdot = Some (ino dir) → dict P !! name = Some (ino i) →
  swp (ext2_rmdir dev now euid dir i name) f E (λ r f', let '(e, dir', i') := r in
    (only_dots I ∧ e = 0 ∧ nlink dir' = u16 (nlink dir - 2) ∧ nlink i' = u16 (nlink i - 2) ∧
      ∃ m' P' I', pair_ok f' m' h dir' P' i' I' ∧ dict P' = delete name (dict P) ∧ dict I' = ∅) ∨
    (¬ only_dots I ∧ e = - ENOTEMPTY ∧ nlink dir' = nlink dir ∧ nlink i' = nlink i ∧ pair_ok f' m h dir' P i' I)).
Proof.
  intros H Hd Hi Hne Hn1 Hn2 Hdot Hdd Hname. pose proof H as (_ & HI & _). unfold ext2_rmdir.
  apply swp_bind, swp_check; [by rewrite bool_decide_false|intros _]. apply swp_bind, swp_check; [by rewrite bool_decide_false|intros _].
  apply swp_bind. eapply swp_mono; [by eapply dir_empty_ok|]. intros [b i0] f0 [Hb U]. cbn [fst snd] in Hb, U. pose proof (pair_unchanged _ _ _ _ _ _ _ _ _ H U) as H0. destruct U as (_ & _ & _ & _ & _ & Ei & En).
  destruct b; [|apply swp_ret; right; split; [by intros ?%Hb|done]]. cbn [negb]. destruct Hb as [Hb _]. specialize (Hb eq_refl). rewrite <- En.
  rewrite <- Ei in Hi, Hne, Hdot, Hname. apply swp_bind. eapply swp_mono; [eapply pair_unlink; [exact H0|done|done|by rewrite bool_decide_true, andb_false_r]|].
  intros [[e1 hit1] i1] f1 (-> & -> & En1 & Ei1 & m1 & I1 & H1 & Hd1). cbv beta iota zeta. rewrite (proj2 (Z.ltb_ge 0 0)) by done.
  assert (H1' : pair_ok f1 m1 h dir P (unlinked_inode now i1) I1) by (eapply pair_fields; [..|exact H1]; done || apply unlinked_fields).
  assert (Hu1 : ino (unlinked_inode now i1) = ino i0 ∧ nlink (unlinked_inode now i1) = u16 (nlink i0 - 1)) by (rewrite <- Ei1, <- En1; apply unlinked_fields). destruct Hu1 as [Hu1 Hu1'].
  apply swp_bind. eapply swp_mono; [eapply pair_unlink; [exact H1'|exact Hd|by rewrite Hd1, lookup_delete_ne|by rewrite Hu1, (proj2 (Z.eqb_neq _ _)) by done]|].
  intros [[e2 hit2] i2] f2 (-> & -> & En2 & Ei2 & m2 & I2 & H2 & Hd2). cbv beta iota zeta. rewrite (proj2 (Z.ltb_ge 0 0)) by done. rewrite Hu1 in Ei2. rewrite Hu1' in En2.
  assert (H2' : pair_ok f2 m2 h i2 I2 (unlinked_inode now dir) P) by (apply pair_sym; eapply pair_fields; [..|exact H2]; done || apply unlinked_fields).
  assert (Hu2 : ino (unlinked_inode now dir) = ino dir ∧ nlink (unlinked_inode now dir) = u16 (nlink dir - 1)) by apply unlinked_fields. destruct Hu2 as [Hu2 Hu2'].
  rewrite Ei2. apply swp_bind. eapply swp_mono; [eapply pair_unlink; [exact H2'|exact Hi|exact Hname|by rewrite Hu2, (proj2 (Z.eqb_neq _ _)) by done]|].
  intros [[e3 hit3] dir3] f3 (-> & -> & En3 & Ei3 & m3 & P3 & H3 & Hd3). cbv beta iota zeta. rewrite (proj2 (Z.ltb_ge 0 0)) by done. apply swp_ret. left. split; [done|]. split; [done|].
  split; [cbn [nlink set_idirty set_ctime set_mtime set_nlink]; by rewrite En3, Hu2', u16_dec2|]. destruct (unlinked_fields i2) as (Hf1 & Hf2 & _ & ->). split; [by rewrite En2, u16_dec2|].
  exists m3, P3, I2. split; [apply pair_sym; eapply pair_fields; [..|exact H3]; done|]. split; [done|]. rewrite Hd2, Hd1. apply only_dots_gone; [apply HI|done].
Qed.

End two.

(** ** Listing *)

Section list.
Context {S : Type} `{!BlockOps S, !BlockLaws S} (dev now euid : Z) (Hnow : 0 ≤ now < 2 ^ 32) (E : string → Prop).
Context (d_name_offset : Z) (Hoff : 0 ≤ d_name_offset < 2 ^ 15) {R : Type} (request_write : R → dirent → Z * R) (Hreq : ∀ req d, 0 ≤ (request_write req d).1).
Implicit Types (f : fs S) (m : gmap key (list Z)) (h : gset key) (es : list Ext2DirEntry).

Definition filled_in d : dirent := fs_filldir d_name_offset (de_inode d) (de_name d).
Definition reclen d : Z := d_reclen (filled_in d).
Definition reclens es : Z := foldr Z.add 0 (reclen <$> es).
Definition rec_lens es : Z := foldr Z.add 0 (rec_len <$> es).

(** The request after the entries were handed to it. *)
Definition handed (req : R) es : R := foldl (λ req d, (request_write req (filled_in d)).2) req es.

Lemma reclen_pos d : de_ok d → 0 < reclen d.
Proof. intros [_ _ _ Hl _]. unfold reclen, filled_in, fs_filldir, name_len, NAME_MAX in *. cbn [d_reclen]. unfold u16. rewrite Z.mod_small; lia. Qed.

Lemma reclens_nonneg es : 0 ≤ reclens es.
Proof.
  induction es as [|d es IH]; [done|]. change (reclens (d :: es)) with (reclen d + reclens es). enough (0 ≤ reclen d) by lia.
  unfold reclen, filled_in, fs_filldir, u16. cbn [d_reclen]. apply Z.mod_pos_bound. lia.
Qed.

(** [got] was listed: as much of [post] as fits. *)
Definition listed req offset (nbyte total : Z) post (r : Z * R * Z) : Prop :=
  let '(n, req', offset') := r in
  ∃ got rest, post = got ++ rest ∧ req' = handed req got ∧ offset' = offset + rec_lens got ∧ reclens got ≤ nbyte ∧
    (rest = [] ∨ nbyte = reclens got ∨ ∃ d rest', rest = d :: rest' ∧ nbyte - reclens got < reclen d) ∧
    n = (if decide (total + reclens got = 0 ∧ rest ≠ [] ∧ 0 < nbyte) then - EINVAL else total + reclens got).

Lemma readdir_ok f m h i pre post off fuel :
  scanning dev f m h i pre post off fuel → S_ISDIR (mode i) = true →
  swp (ext2_readdir dev now euid i off) f E (λ r f', let '(n, e, i') := r in unchanged f m h i f' i' ∧
    match post with [] => n = 0 ∧ e = None | d :: _ => n = rec_len d ∧ e = Some (de_inode d, de_name d) end).
Proof.
  intros Sc Hm. unfold ext2_readdir. apply swp_bind, swp_check; [by rewrite Hm|]. intros _. destruct post as [|d post].
  - destruct (scan_end _ _ _ _ _ _ _ _ Sc) as [-> _]. rewrite Z.leb_refl. apply swp_ret. split; [|done]. destruct Sc as (D & _). by eapply unchanged_refl.
  - destruct (scan_in _ _ _ _ _ _ _ _ _ _ Sc) as (Ho & _). rewrite (proj2 (Z.leb_gt _ _)) by lia. apply swp_bind. eapply swp_mono; [by eapply scan_read|].
    intros [d' i'] f' [Hd U]. cbn [fst snd] in Hd, U. subst d'. by apply swp_ret.
Qed.

Lemma readdir_loop_ok fuel f m h i pre post off sf req nbyte total :
  scanning dev f m h i pre post off sf → S_ISDIR (mode i) = true → 0 ≤ nbyte < Z.of_nat fuel → 0 ≤ total → (length post < sf)%nat →
  swp (readdir_loop dev now euid d_name_offset request_write fuel req i off nbyte total) f E (λ r f', let '(n, req', off', i') := r in
    unchanged f m h i f' i' ∧ listed req off nbyte total post (n, req', off')).
Proof.
  revert f i pre post off sf req nbyte total. induction fuel as [|fuel IH]; intros f i pre post off sf req nbyte total Sc Hm Hn Ht Hsf; [lia|]. cbn [readdir_loop].
  destruct (Z.ltb_spec 0 nbyte) as [Hpos|Hz].
  2: { apply swp_ret. split; [destruct Sc as (D & _); by eapply unchanged_refl|]. exists [], post. split; [done|]. split; [done|]. unfold rec_lens, reclens. cbn [fmap list_fmap foldr].
       split; [lia|]. split; [lia|]. split; [right; left; lia|]. rewrite decide_False by lia. lia. }
  apply swp_bind. eapply swp_mono; [by eapply readdir_ok|]. intros [[nread e] i1] f1 [U He]. destruct post as [|d post].
  { destruct He as [-> ->]. rewrite (proj2 (Z.ltb_ge 0 0)) by done. apply swp_ret. split; [done|]. exists [], []. split; [done|]. split; [done|]. unfold rec_lens, reclens. cbn [fmap list_fmap foldr].
    split; [lia|]. split; [lia|]. split; [by left|]. rewrite decide_False by (intros (_ & ? & _); done). lia. }
  destruct He as [-> ->]. destruct (scan_in _ _ _ _ _ _ _ _ _ _ Sc) as (_ & _ & Hd). pose proof (do_rec _ Hd) as Hr. pose proof (reclen_pos d Hd) as Hrl. unfold DE_NAME_OFFSET, name_len in Hr.
  rewrite (proj2 (Z.ltb_ge (rec_len d) 0)), (proj2 (Z.eqb_neq (rec_len d) 0)) by lia. cbv zeta. fold (filled_in d). fold (reclen d).
  destruct (Z.ltb_spec nbyte (reclen d)) as [Hfull|Hfit].
  { apply swp_ret. split; [done|]. exists [], (d :: post). split; [done|]. split; [done|]. unfold rec_lens, reclens. cbn [fmap list_fmap foldr]. split; [lia|]. split; [lia|].
    split; [right; right; exists d, post; split; [done|lia]|]. rewrite Z.add_0_r. destruct (Z.eqb_spec total 0) as [H0|H0]; [by rewrite decide_True|rewrite decide_False; [done|tauto]]. }
  pose proof (Hreq req (filled_in d)) as Hq. destruct (request_write req (filled_in d)) as [r req1] eqn:Ereq. cbn [fst] in Hq. rewrite (proj2 (Z.ltb_ge r 0)) by lia.
  destruct sf as [|sf]; [simpl in Hsf; lia|]. pose proof U as (_ & _ & _ & _ & Em & _).
  eapply swp_mono; [eapply (IH f1 i1 (pre ++ [d]) post _ sf); [exact (scan_next _ _ _ _ _ _ _ _ _ _ _ _ Sc U)|by rewrite Em|lia|lia|simpl in Hsf; lia]|].
  intros [[[n req'] off'] i'] f' [U' (got & rest & -> & -> & -> & Hle & Hend & ->)]. split; [by eapply unchanged_trans|]. exists (d :: got), rest.
  assert (Hc : reclens (d :: got) = reclen d + reclens got ∧ rec_lens (d :: got) = rec_len d + rec_lens got) by done. destruct Hc as [-> ->].
  split; [done|]. split; [unfold handed; cbn [foldl]; by rewrite Ereq|]. split; [lia|]. split; [lia|]. pose proof (reclens_nonneg got). split.
  - destruct Hend as [->|[Hend|(d' & rest' & -> & Hlt)]]; [by left|right; left; lia|]. right; right. exists d', rest'. split; [done|lia].
  - rewrite !decide_False by lia. lia.
Qed.

Lemma do_readdir_ok f m h i pre post off sf permitted req nbyte :
  scanning dev f m h i pre post off sf → 0 ≤ nbyte →
  swp (do_readdir_locked dev now euid d_name_offset request_write permitted req i off nbyte) f E (λ r f', let '(n, req', off', i') := r in
    unchanged f m h i f' i' ∧
    if negb (S_ISDIR (mode i)) then n = - ENOTDIR ∧ req' = req ∧ off' = off else
    if negb permitted then n = - EPERM ∧ req' = req ∧ off' = off else listed req off nbyte 0 post (n, req', off')).
Proof.
  intros Sc Hn. unfold do_readdir_locked. pose proof Sc as (D & _ & _ & Hsf). pose proof (unchanged_refl _ _ _ _ _ _ D) as U. destruct (S_ISDIR (mode i)) eqn:Hm; cbn [negb]; [|by apply swp_ret].
  destruct permitted; cbn [negb]; [|by apply swp_ret]. eapply swp_mono; [eapply readdir_loop_ok; [exact Sc|done|lia|lia|done]|]. by intros [[[n req'] off'] i'] f'.
Qed.

Lemma rec_lens_app es1 es2 : rec_lens (es1 ++ es2) = rec_lens es1 + rec_lens es2.
Proof.
  induction es1 as [|d es1 IH]; [done|]. change (rec_len d + rec_lens (es1 ++ es2) = rec_len d + rec_lens es1 + rec_lens es2). lia.
Qed.

Lemma laid_at c off pre post e : laid c off (pre ++ post) e → laid c off pre (off + rec_lens pre) ∧ laid c (off + rec_lens pre) post e.
Proof.
  revert off. induction pre as [|d pre IH]; intros off; [unfold rec_lens; simpl; rewrite Z.add_0_r; by split|]. intros (He & Hd & Hl). destruct (IH _ Hl) as [H1 H2].
  change (rec_lens (d :: pre)) with (rec_len d + rec_lens pre). rewrite Z.add_assoc. by split.
Qed.

Lemma scan_at f m h i pre post : is_dir dev f m h i (pre ++ post) → scanning dev f m h i pre post (rec_lens pre) (Datatypes.S (length post)).
Proof. intros D. destruct (laid_at _ _ _ _ _ (dd_laid _ _ _ _ _ _ D)) as [H1 H2]. split; [done|]. split; [done|]. split; [done|lia]. Qed.

End list.

(** C39: A call of [do_readdir_locked] with the file offset at the entry after
    [pre] hands over the entries that follow, in order, as many as fit in the
    caller's [nbyte] bytes, and moves the offset to the first one left, so that
    the next call goes on there and no entry is lost or listed twice; it gives
    the bytes handed over, and -EINVAL when not even one entry fits. *)
Theorem readdir_spec {S} `{!BlockOps S, !BlockLaws S} dev now euid d_name_offset {R} (request_write : R → dirent → Z * R) (f : fs S) m h i pre post req nbyte :
  0 ≤ now < 2 ^ 32 → 0 ≤ d_name_offset < 2 ^ 15 → (∀ req d, 0 ≤ (request_write req d).1) → is_dir dev f m h i (pre ++ post) → S_ISDIR (mode i) = true → 0 ≤ nbyte →
  ∃ n req' i' f' got rest, do_readdir_locked dev now euid d_name_offset request_write true req i (rec_lens pre) nbyte f = Ok ((n, req', rec_lens (pre ++ got), i'), f') ∧
    post = got ++ rest ∧ req' = handed d_name_offset request_write req got ∧ is_dir dev f' m h i' ((pre ++ got) ++ rest) ∧
    reclens d_name_offset got ≤ nbyte ∧ (rest = [] ∨ nbyte = reclens d_name_offset got ∨ ∃ d rest', rest = d :: rest' ∧ nbyte - reclens d_name_offset got < reclen d_name_offset d) ∧
    n = (if decide (reclens d_name_offset got = 0 ∧ rest ≠ [] ∧ 0 < nbyte) then - EINVAL else reclens d_name_offset got).
Proof.
  intros Hnow Hoff Hreq D Hm Hn. pose proof (do_readdir_ok dev now euid Hnow no_panic d_name_offset Hoff request_write Hreq f m h i pre post (rec_lens pre) _ true req nbyte (scan_at _ _ _ _ _ _ _ D) Hn) as W.
  destruct (swp_run _ _ _ W) as ([[[n req'] off'] i'] & f' & Erun & U & H). rewrite Hm in H. destruct H as (got & rest & -> & Hreq' & Hoff' & Hle & Hend & Hres).
  exists n, req', i', f', got, rest. assert (Hc : rec_lens (pre ++ got) = off') by (by rewrite Hoff', rec_lens_app).
  rewrite Hc. split; [done|]. split; [done|]. split; [done|]. split; [rewrite <- app_assoc; by eapply is_dir_unchanged|]. rewrite Z.add_0_l in Hres. done.
Qed.

(** C35: [ext2_rmdir] removes a directory that has no names but "." and "..":
    its name leaves the parent, it has no names left, it loses its two links and
    the parent loses two, the other names of the parent stay.  A directory with
    a name left is not touched and -ENOTEMPTY is returned. *)
Theorem ext2_rmdir_spec {S} `{!BlockOps S, !BlockLaws S} dev now euid (f : fs S) m h dir P i I name :
  0 ≤ now < 2 ^ 32 → pair_ok dev f m h dir P i I → 0 < ino dir → 0 < ino i → ino dir ≠ ino i → name ≠ dot → name ≠ dotdot →
  dict I !! dot = Some (ino i) → dict I !! dotdot = Some (ino dir) → dict P !! name = Some (ino i) →
  ∃ e dir' i' f' m' P' I', ext2_rmdir dev now euid dir i name f = Ok ((e, dir', i'), f') ∧ pair_ok dev f' m' h dir' P' i' I' ∧
    ((only_dots I ∧ e = 0 ∧ dict P' = delete name (dict P) ∧ dict I' = ∅ ∧ nlink dir' = u16 (nlink dir - 2) ∧ nlink i' = u16 (nlink i - 2)) ∨
     (¬ only_dots I ∧ e = - ENOTEMPTY ∧ P' = P ∧ I' = I ∧ nlink dir' = nlink dir ∧ nlink i' = nlink i)).
Proof.
  intros Hnow H Hd Hi Hne Hn1 Hn2 Hdot Hdd Hname.
  destruct (swp_run _ _ _ (rmdir_ok dev now euid Hnow no_panic f m h dir P i I name H Hd Hi Hne Hn1 Hn2 Hdot Hdd Hname)) as ([[e dir'] i'] & f' & Erun & [(Ho & He & Hl1 & Hl2 & m' & P' & I' & H' & HP & HI)|(Ho & He & Hl1 & Hl2 & H')]).
  - exists e, dir', i', f', m', P', I'. split; [done|]. split; [done|]. left. done.
  - exists e, dir', i', f', m, P, I. split; [done|]. split; [done|]. right. done.
Qed.

End Ext2DirOps.
