(* ===== verification/InodeCache.v ===== *)
(** The inode cache (src/kernel/fs/inode.c, [ext2_inode_get] of
    src/kernel/fs/ext2.c, which devfs has a copy of).

    Thirty-two slots on a list, the least recently released one last.  A slot is
    found by inode number and device, counted, locked while its attributes are
    read or changed, written back when it is unlocked, and deleted by the file
    system when the last reference to an inode without links is put.

    The cache serves several file systems, one of which (devfs) stores nothing,
    and ignores the errors that they return.  Nothing is assumed of them: what
    [inode_read] leaves in an inode is an argument of the step, and the state
    records the calls made.

    Tasks call these operations at the same time.  Each critical section is one
    operation here, so that a sequence of operations is an interleaving;
    [fs_inode_put] has two, the check under the mutex of the inode and the
    release under the lock of the cache.  A task that asks for the mutex of an
    inode while another one holds it waits: the operation returns [false] and is
    to be tried again.  For the holder itself [k_mutex_lock] returns K_ERR_DEADLK,
    on which the code panics. *)

From S2P Require Import Prelude StateM.
#[local] Open Scope Z_scope.

Module InodeCache.

Definition INODE_CACHE_SIZE : nat := 32.

(** Inode number and device. *)
Abbreviation ikey := (Z * Z)%type.

(** [locked]: the owner of the mutex of the inode. *)
Record slot (A : Type) := MkSlot { key : ikey; ref_count : Z; has_fs : bool; valid : bool; dirty : bool; locked : option nat; attrs : A }.
Arguments MkSlot {A} key ref_count has_fs valid dirty locked attrs.
Arguments key {A} _.
Arguments ref_count {A} _.
Arguments has_fs {A} _.
Arguments valid {A} _.
Arguments dirty {A} _.
Arguments locked {A} _.
Arguments attrs {A} _.

(** A call of the file system: [inode_read] with the attributes it has left in
    the inode, [inode_write] with those it was given, [inode_delete]. *)
Inductive call (A : Type) :=
  | InodeRead (k : ikey) (a : A)
  | InodeWrite (k : ikey) (a : A)
  | InodeDelete (k : ikey).
Arguments InodeRead {A} k a.
Arguments InodeWrite {A} k a.
Arguments InodeDelete {A} k.

(** [calls]: the last one first. *)
Record icache (A : Type) := MkCache { order : list nat; slots : list (slot A); calls : list (call A) }.
Arguments MkCache {A} order slots calls.
Arguments order {A} _.
Arguments slots {A} _.
Arguments calls {A} _.

Section cache.
Context {A : Type} (nlink : A → Z).
Implicit Types (c : icache A) (x : slot A) (s t : nat) (k : ikey).

(** ** Operations *)

Definition set_ref (n : Z) x : slot A := MkSlot (key x) n (has_fs x) (valid x) (dirty x) (locked x) (attrs x).
Definition set_fs x : slot A := MkSlot (key x) (ref_count x) true (valid x) (dirty x) (locked x) (attrs x).
Definition set_valid (b : bool) x : slot A := MkSlot (key x) (ref_count x) (has_fs x) b (dirty x) (locked x) (attrs x).
Definition set_locked (o : option nat) x : slot A := MkSlot (key x) (ref_count x) (has_fs x) (valid x) (dirty x) o (attrs x).
Definition set_attrs (b : bool) (a : A) x : slot A := MkSlot (key x) (ref_count x) (has_fs x) (valid x) b (locked x) a.

Definition get_slot s : sm (icache A) (slot A) := c ← gets id; need (slots c !! s) "access outside the array".
Definition put_slot s x : sm (icache A) unit := modify (λ c, MkCache (order c) (<[s := x]> (slots c)) (calls c)).
Definition call_fs (e : call A) : sm (icache A) unit := modify (λ c, MkCache (order c) (slots c) (e :: calls c)).

(** [k_mutex_lock] on the mutex of an inode: [false] when the caller has to wait. *)
Definition lock_mutex t x : sm (icache A) bool :=
  match locked x with
  | None => mret true
  | Some o => if decide (o = t) then stop "TODO" else mret false
  end.

Definition fs_inode_cache_init (a : A) : icache A :=
  MkCache (seq 0 INODE_CACHE_SIZE) (replicate INODE_CACHE_SIZE (MkSlot (0, 0) 0 false false false None a)) [].

(** The slot of [k], or the last slot without references. *)
Fixpoint find_slot (xs : list (slot A)) (l : list nat) k (empty : option nat) : option nat + option nat :=
  match l with
  | [] => inr empty
  | s :: l =>
      match xs !! s with
      | None => inr empty
      | Some x => if decide (key x = k) then inl (Some s) else find_slot xs l k (if ref_count x =? 0 then Some s else empty)
      end
  end.

Definition fs_inode_get k : sm (icache A) nat :=
  c ← gets id;
  match find_slot (slots c) (order c) k None with
  | inl (Some s) => x ← get_slot s; put_slot s (set_ref (ref_count x + 1) x);; mret s
  | inr (Some s) => x ← get_slot s; put_slot s (MkSlot k 1 false false false (locked x) (attrs x));; mret s
  | _ => stop "out of inodes"
  end.

Definition ext2_inode_get k : sm (icache A) nat :=
  s ← fs_inode_get k;
  x ← get_slot s;
  when (negb (has_fs x)) (put_slot s (set_fs x));;
  mret s.

Definition fs_inode_duplicate s : sm (icache A) unit := x ← get_slot s; put_slot s (set_ref (ref_count x + 1) x).

(** The first part of [fs_inode_put], up to the unlock. *)
Definition fs_inode_put_check t s : sm (icache A) bool :=
  x ← get_slot s;
  b ← lock_mutex t x;
  if negb b then mret false else
  check (negb (dirty x)) "inode dirty";;
  when (valid x && (nlink (attrs x) =? 0) && (ref_count x =? 1))
    (check (has_fs x) "NULL pointer";; call_fs (InodeDelete (key x));; put_slot s (set_valid false x));;
  mret true.

(** The second part. *)
Definition fs_inode_put_drop s : sm (icache A) unit :=
  x ← get_slot s;
  put_slot s (set_ref (ref_count x - 1) x);;
  when (ref_count x - 1 =? 0) (modify (λ c, MkCache (s :: filter (.≠ s) (order c)) (slots c) (calls c))).

Definition fs_inode_holding t x : bool := bool_decide (locked x = Some t).

(** [a]: the attributes that [inode_read], when it is called, leaves in the inode. *)
Definition fs_inode_lock t s (a : A) : sm (icache A) bool :=
  x ← get_slot s;
  b ← lock_mutex t x;
  if negb b then mret false else
  if valid x then put_slot s (set_locked (Some t) x);; mret true else
  check (negb (dirty x)) "inode dirty";;
  check (has_fs x) "NULL pointer";;
  call_fs (InodeRead (key x) a);;
  put_slot s (set_valid true (set_locked (Some t) (set_attrs false a x)));;
  mret true.

Definition fs_inode_unlock t s : sm (icache A) unit :=
  x ← get_slot s;
  check (valid x) "inode not valid";;
  when (dirty x) (check (has_fs x) "NULL pointer";; call_fs (InodeWrite (key x) (attrs x)));;
  check (fs_inode_holding t x) "k_mutex_holding(mutex)";;
  put_slot s (set_locked None (set_attrs false (attrs x) x)).

(** The holder of the lock changes the attributes and sets FS_INODE_DIRTY. *)
Definition modify_inode s (a : A) : sm (icache A) unit := x ← get_slot s; put_slot s (set_attrs true a x).

End cache.

(** ** Permissions *)

Definition FS_PERM_EXEC : Z := 1.
Definition S_IXALL : Z := 73.

(** [who]: the effective or real ids of the process, [None] for the kernel. *)
Definition fs_inode_permission (who : option (Z * Z)) (imode iuid igid mode : Z) : bool :=
  let '(uid, gid) := default (0, 0) who in
  if uid =? 0 then (if negb (Z.land mode FS_PERM_EXEC =? 0) then negb (Z.land imode S_IXALL =? 0) else true) else
  let mode := if uid =? iuid then Z.shiftl mode 6 else if gid =? igid then Z.shiftl mode 3 else mode in
  Z.land imode mode =? mode.

(** ** Interleavings *)

Section proofs.
Context {A : Type} (nlink : A → Z).
Implicit Types (c : icache A) (x : slot A) (s t : nat) (k : ikey) (l : list (call A)).

(** References held by tasks, and those that a task is about to drop. *)
Record holders := MkHolders { held : nat → Z; leaving : nat → Z }.
Implicit Types g : holders.

Definition bump (h : nat → Z) s (n : Z) : nat → Z := λ s', if decide (s' = s) then h s' + n else h s'.

(** [t] is the task that calls. *)
Inductive iop :=
  | IGet (k : ikey)
  | IDup (s : nat)
  | ICheck (t s : nat)
  | IDrop (s : nat)
  | ILock (t s : nat) (a : A)
  | IUnlock (t s : nat)
  | IModify (t s : nat) (a : A).

(** What a task may call: it has a reference to the inode, and the lock where it
    changes or unlocks it. *)
Definition legal c g (op : iop) : Prop :=
  match op with
  | IGet k => k.1 ≠ 0
  | IDup s | ICheck _ s | ILock _ s _ => 0 < held g s
  | IDrop s => 0 < leaving g s
  | IUnlock t s | IModify t s _ => ∃ x, slots c !! s = Some x ∧ locked x = Some t
  end.

(** The references after the operation. *)
Definition exec g (op : iop) : sm (icache A) holders :=
  match op with
  | IGet k => s ← ext2_inode_get k; mret (MkHolders (bump (held g) s 1) (leaving g))
  | IDup s => fs_inode_duplicate s;; mret (MkHolders (bump (held g) s 1) (leaving g))
  | ICheck t s => b ← fs_inode_put_check nlink t s; mret (if b : bool then MkHolders (bump (held g) s (-1)) (bump (leaving g) s 1) else g)
  | IDrop s => fs_inode_put_drop s;; mret (MkHolders (held g) (bump (leaving g) s (-1)))
  | ILock t s a => fs_inode_lock t s a;; mret g
  | IUnlock t s => fs_inode_unlock t s;; mret g
  | IModify t s a => modify_inode s a;; mret g
  end.

Inductive reach (a : A) : icache A → holders → Prop :=
  | reach_init : reach a (fs_inode_cache_init a) (MkHolders (λ _, 0) (λ _, 0))
  | reach_step c g op c' g' : reach a c g → legal c g op → exec g op c = Ok (g', c') → reach a c' g'.

(** The calls that stop the kernel: a get of an inode that is not in the cache
    while all slots are in use, and a lock or a put by the task that holds the
    lock of the inode. *)
Definition stops c (op : iop) (why : string) : Prop :=
  match op with
  | IGet k => why = "out of inodes" ∧ ∀ s x, slots c !! s = Some x → 0 < ref_count x ∧ key x ≠ k
  | ICheck t s | ILock t s _ => why = "TODO" ∧ ∃ x, slots c !! s = Some x ∧ locked x = Some t
  | _ => False
  end.

(** The attributes of an inode as of the last call about it. *)
Fixpoint last_attrs k l : option A :=
  match l with
  | [] => None
  | InodeRead k' a :: l | InodeWrite k' a :: l => if decide (k' = k) then Some a else last_attrs k l
  | InodeDelete k' :: l => if decide (k' = k) then None else last_attrs k l
  end.

(** ** The invariant *)

Record slot_ok g l s x : Prop := {
  so_ref : ref_count x = held g s + leaving g s ∧ 0 ≤ held g s ∧ 0 ≤ leaving g s;
  so_live : 0 < ref_count x → (key x).1 ≠ 0 ∧ has_fs x = true;
  so_lock : is_Some (locked x) → 0 < held g s ∧ valid x = true;
  so_dirty : dirty x = true → is_Some (locked x);
  so_same : valid x = true → (key x).1 ≠ 0 ∧ (dirty x = false → last_attrs (key x) l = Some (attrs x)) }.

Definition unique (xs : list (slot A)) : Prop := ∀ s s' x x', xs !! s = Some x → xs !! s' = Some x' → s ≠ s' → (key x).1 ≠ 0 → key x ≠ key x'.

Record inv c g : Prop := {
  iv_perm : order c ≡ₚ seq 0 INODE_CACHE_SIZE;
  iv_len : length (slots c) = INODE_CACHE_SIZE;
  iv_out s : (INODE_CACHE_SIZE ≤ s)%nat → held g s = 0 ∧ leaving g s = 0;
  iv_uniq : unique (slots c);
  iv_slot s x : slots c !! s = Some x → slot_ok g (calls c) s x }.

Definition agree_off s g g' : Prop := ∀ s', s' ≠ s → held g' s' = held g s' ∧ leaving g' s' = leaving g s'.

Lemma slot_ok_agree s g g' l s' x : agree_off s g g' → s' ≠ s → slot_ok g l s' x → slot_ok g' l s' x.
Proof. intros Ha Hne [H1 H2 H3 H4 H5]. destruct (Ha s' Hne) as [E1 E2]. split; rewrite ?E1, ?E2; done. Qed.

Lemma unique_update (xs : list (slot A)) s x x' : unique xs → xs !! s = Some x → (key x' = key x ∨ (∀ s2 x2, xs !! s2 = Some x2 → key x2 ≠ key x')) → unique (<[s := x']> xs).
Proof.
  intros Hu Hx Hk s1 s2 x1 x2 H1 H2 Hne Hnz. pose proof (lookup_lt_Some _ _ _ Hx) as Hlt. destruct (decide (s1 = s)) as [->|N1], (decide (s2 = s)) as [->|N2]; [done|..].
  - rewrite list_lookup_insert_eq in H1 by done. rewrite list_lookup_insert_ne in H2 by done. injection H1 as <-. destruct Hk as [Hk|Hk]; [|intros E; by apply (Hk s2 x2)]. rewrite Hk in *. by apply (Hu s s2).
  - rewrite list_lookup_insert_ne in H1 by done. rewrite list_lookup_insert_eq in H2 by done. injection H2 as <-. destruct Hk as [Hk|Hk]; [|by apply (Hk s1 x1)]. rewrite Hk. by apply (Hu s1 s).
  - rewrite list_lookup_insert_ne in H1, H2 by done. by apply (Hu s1 s2).
Qed.

(** A slot changes, perhaps with calls about its inode. *)
Lemma slot_update c g g' s x x' l' :
  inv c g → slots c !! s = Some x → (key x' = key x ∨ (∀ s2 x2, slots c !! s2 = Some x2 → key x2 ≠ key x')) → agree_off s g g' → slot_ok g' l' s x' →
  (∀ k, k ≠ key x → last_attrs k l' = last_attrs k (calls c)) → inv (MkCache (order c) (<[s := x']> (slots c)) l') g'.
Proof.
  intros [Hp Hl Ho Hu Hs] Hx Hk Ha Hx' Hd. pose proof (lookup_lt_Some _ _ _ Hx) as Hlt. split; simpl; [done|by rewrite length_insert| |by eapply unique_update|].
  - intros s' Hs'. destruct (Ha s') as [-> ->]; [lia|]. by apply Ho.
  - intros s' y Hy. destruct (decide (s' = s)) as [->|Hne]; [rewrite list_lookup_insert_eq in Hy by done; by injection Hy as <-|]. rewrite list_lookup_insert_ne in Hy by done.
    destruct (slot_ok_agree _ _ _ _ _ _ Ha Hne (Hs s' y Hy)) as [H1 H2 H3 H4 H5]. split; try done. intros Hv. destruct (H5 Hv) as [Hz Hat]. split; [done|]. intros Hdt. rewrite Hd; [by apply Hat|]. by apply (Hu s' s).
Qed.

Lemma inv_lookup c g s : inv c g → (s < INODE_CACHE_SIZE)%nat → ∃ x, slots c !! s = Some x.
Proof. intros H Hs. apply lookup_lt_is_Some. by rewrite (iv_len _ _ H). Qed.

Lemma held_slot c g s : inv c g → 0 < held g s ∨ 0 < leaving g s → ∃ x, slots c !! s = Some x ∧ slot_ok g (calls c) s x.
Proof.
  intros H Hs. destruct (decide (s < INODE_CACHE_SIZE)%nat) as [Hlt|Hge]; [|pose proof (iv_out _ _ H s ltac:(lia)); lia]. destruct (inv_lookup c g s H Hlt) as [x Hx]. exists x. split; [done|]. by apply (iv_slot _ _ H).
Qed.

Lemma swp_slot (E : string → Prop) {B} c s x (k : slot A → sm (icache A) B) Q : slots c !! s = Some x → swp (k x) c E Q → swp (get_slot s ≫= k) c E Q.
Proof. intros Hx H. unfold get_slot. apply swp_bind, swp_bind, swp_gets, swp_need; unfold id; rewrite Hx; [done|]. by intros y [= <-]. Qed.

Lemma bump_off (h : nat → Z) s n s' : s' ≠ s → bump h s n s' = h s'.
Proof. intros H. unfold bump. by rewrite decide_False. Qed.

Lemma bump_at (h : nat → Z) s n : bump h s n s = h s + n.
Proof. unfold bump. by rewrite decide_True. Qed.

Lemma swp_bind_assoc (E : string → Prop) {W B} s (m : sm W unit) (k : nat → sm W B) w Q : swp (m;; k s) w E Q → swp (m;; mret s) w E (λ a w', swp (k a) w' E Q).
Proof. unfold swp, mbind, sm_bind, mret, sm_ret. by destruct (m w) as [[[] w']|]. Qed.

(** ** Finding a slot *)

Lemma find_slot_spec (xs : list (slot A)) (l : list nat) k empty :
  (∀ s, s ∈ l → is_Some (xs !! s)) → (∀ s, empty = Some s → ∃ x, xs !! s = Some x ∧ ref_count x = 0) →
  match find_slot xs l k empty with
  | inl (Some s) => s ∈ l ∧ ∃ x, xs !! s = Some x ∧ key x = k
  | inl None => False
  | inr e => (∀ s x, s ∈ l → xs !! s = Some x → key x ≠ k) ∧
      match e with
      | Some s => ∃ x, xs !! s = Some x ∧ ref_count x = 0
      | None => empty = None ∧ ∀ s x, s ∈ l → xs !! s = Some x → ref_count x ≠ 0
      end
  end.
Proof.
  revert empty. induction l as [|s l IH]; intros empty Hin He; cbn [find_slot].
  { split; [intros s x []%not_elem_of_nil|]. destruct empty as [s|]; [by apply He|]. split; [done|]. intros s x []%not_elem_of_nil. }
  destruct (Hin s) as [x Hx]; [apply elem_of_cons; by left|]. rewrite Hx. destruct (decide (key x = k)) as [Hk|Hk]; [split; [apply elem_of_cons; by left|eauto]|].
  specialize (IH (if ref_count x =? 0 then Some s else empty)). destruct (find_slot xs l k _) as [[s'|]|e].
  - destruct IH as [Hl Hx']; [..|split; [apply elem_of_cons; by right|done]].
    + intros s2 H2. apply Hin, elem_of_cons. by right.
    + intros s2. destruct (Z.eqb_spec (ref_count x) 0); [|apply He]. intros [= <-]. eauto.
  - apply IH; [intros s2 H2; apply Hin, elem_of_cons; by right|]. intros s2. destruct (Z.eqb_spec (ref_count x) 0); [|apply He]. intros [= <-]. eauto.
  - destruct IH as [Hno He']; [intros s2 H2; apply Hin, elem_of_cons; by right|intros s2; destruct (Z.eqb_spec (ref_count x) 0); [intros [= <-]; eauto|apply He]|].
    split; [intros s2 x2 [->|H2]%elem_of_cons Hx2; [congruence|by eapply Hno]|]. destruct e as [s'|]; [done|]. destruct He' as [He1 He2]. destruct (Z.eqb_spec (ref_count x) 0) as [|Hr]; [done|].
    split; [done|]. intros s2 x2 [->|H2]%elem_of_cons Hx2; [congruence|by eapply He2].
Qed.

Lemma find_inv c g k : inv c g →
  match find_slot (slots c) (order c) k None with
  | inl (Some s) => ∃ x, slots c !! s = Some x ∧ key x = k
  | inl None => False
  | inr (Some s) => (∀ s2 x2, slots c !! s2 = Some x2 → key x2 ≠ k) ∧ ∃ x, slots c !! s = Some x ∧ ref_count x = 0
  | inr None => ∀ s2 x2, slots c !! s2 = Some x2 → 0 < ref_count x2 ∧ key x2 ≠ k
  end.
Proof.
  intros H. assert (Hall : ∀ s x, slots c !! s = Some x → s ∈ order c) by (intros s x Hx; rewrite (iv_perm _ _ H); apply elem_of_seq; pose proof (lookup_lt_Some _ _ _ Hx); rewrite (iv_len _ _ H) in *; lia).
  pose proof (find_slot_spec (slots c) (order c) k None) as Hf. destruct (find_slot (slots c) (order c) k None) as [[s|]|[s|]].
  1: destruct Hf as [_ Hf]; [..|done]. 3: destruct Hf; try done. 4: destruct Hf as [Hno Hf]; [..|split; [|done]; intros s2 x2 Hx2; eapply Hno; [by eapply Hall|done]].
  6: destruct Hf as [Hno [_ Hf]]; [..|intros s2 x2 Hx2; pose proof (Hf s2 x2 (Hall s2 x2 Hx2) Hx2); destruct (iv_slot _ _ H s2 x2 Hx2) as [(? & ? & ?) _ _ _ _]; split; [lia|by eapply Hno, Hx2; eapply Hall]].
  all: try (intros s2 Hs2; discriminate). all: intros s2 Hs2; rewrite (iv_perm _ _ H) in Hs2; apply elem_of_seq in Hs2; apply lookup_lt_is_Some; rewrite (iv_len _ _ H); lia.
Qed.

(** ** Every operation keeps the invariant *)

Lemma agree_held s g n : agree_off s g (MkHolders (bump (held g) s n) (leaving g)).
Proof. intros s' Hne. simpl. by rewrite bump_off. Qed.

Lemma agree_refl s g : agree_off s g g.
Proof. done. Qed.

(** A slot taken, and its file system set. *)
Lemma inode_take_ok (E : string → Prop) c g s x y :
  inv c g → slots c !! s = Some x → (key y = key x ∨ (∀ s2 x2, slots c !! s2 = Some x2 → key x2 ≠ key y)) → slot_ok (MkHolders (bump (held g) s 1) (leaving g)) (calls c) s (set_fs y) →
  swp (put_slot s y;; x ← get_slot s; when (negb (has_fs x)) (put_slot s (set_fs x));; mret s) c E (λ s' c', s' = s ∧ inv c' (MkHolders (bump (held g) s 1) (leaving g))).
Proof.
  intros H Hx Hk Hok. pose proof (lookup_lt_Some _ _ _ Hx) as Hlt. assert (Hinv : inv (MkCache (order c) (<[s := set_fs y]> (slots c)) (calls c)) (MkHolders (bump (held g) s 1) (leaving g))).
  { eapply slot_update; [done|done|done|apply agree_held|done|done]. }
  apply swp_bind, swp_modify. eapply swp_slot; [by apply list_lookup_insert_eq|]. apply swp_bind, swp_when; intros Hf.
  - apply swp_modify, swp_ret. split; [done|]. simpl. rewrite list_insert_insert_eq. done.
  - apply swp_ret. split; [done|]. apply negb_false_iff in Hf. simpl. replace y with (set_fs y); [done|]. destruct y; simpl in *. by rewrite Hf.
Qed.

Lemma inode_get_ok c g k : inv c g → k.1 ≠ 0 → swp (ext2_inode_get k) c (stops c (IGet k)) (λ s c', inv c' (MkHolders (bump (held g) s 1) (leaving g))).
Proof.
  intros H Hk. pose proof (find_inv c g k H) as Hf. unfold ext2_inode_get, fs_inode_get. apply swp_bind, swp_bind, swp_gets. unfold id. destruct (find_slot (slots c) (order c) k None) as [[s|]|[s|]]; [|done| |by apply swp_stop].
  - destruct Hf as (x & Hx & Hkx). destruct (iv_slot _ _ H s x Hx) as [(Hr & Hh & Hl) H2 H3 H4 H5]. eapply swp_slot; [done|]. apply swp_bind_assoc.
    eapply swp_mono; [eapply (inode_take_ok _ c g s x (set_ref (ref_count x + 1) x)); [done|done|by left|]|by intros s' c' [-> ?]].
    split; simpl; rewrite ?bump_at; [lia|by rewrite Hkx|intros Hlk; destruct (H3 Hlk); split; [lia|done]|done|done].
  - destruct Hf as (Hno & x & Hx & Hr0). destruct (iv_slot _ _ H s x Hx) as [(Hr & Hh & Hl) H2 H3 H4 H5]. eapply swp_slot; [done|]. apply swp_bind_assoc.
    eapply swp_mono; [eapply (inode_take_ok _ c g s x (MkSlot k 1 false false false (locked x) (attrs x))); [done|done|by right|]|by intros s' c' [-> ?]].
    split; simpl; rewrite ?bump_at; [lia|done|intros Hlk; destruct (H3 Hlk); lia|done|done].
Qed.

(** The mutex of an inode. *)
Lemma swp_lock_mutex {B} (E : string → Prop) c t x (k : bool → sm (icache A) B) Q :
  (locked x = None → swp (k true) c E Q) → (∀ o, locked x = Some o → o ≠ t → swp (k false) c E Q) → (locked x = Some t → E "TODO") → swp (lock_mutex t x ≫= k) c E Q.
Proof.
  intros H1 H2 H3. apply swp_bind. unfold lock_mutex. destruct (locked x) as [o|]; [|by apply swp_ret, H1]. destruct (decide (o = t)) as [->|Hne]; [by apply swp_stop, H3|by eapply swp_ret, H2].
Qed.

Definition call_key (e : call A) : ikey := match e with InodeRead k _ | InodeWrite k _ | InodeDelete k => k end.

Lemma call_other e k l : k ≠ call_key e → last_attrs k (e :: l) = last_attrs k l.
Proof. intros H. destruct e as [k' a|k' a|k']; cbn [last_attrs call_key] in *; by rewrite decide_False by congruence. Qed.

Lemma call_this k a l : last_attrs k (InodeRead k a :: l) = Some a ∧ last_attrs k (InodeWrite k a :: l) = Some a.
Proof. cbn [last_attrs]. by rewrite decide_True. Qed.

Lemma not_dirty g l s x : slot_ok g l s x → locked x = None → dirty x = false.
Proof. intros [_ _ _ H _] Hl. destruct (dirty x); [|done]. rewrite Hl in H. by destruct (H eq_refl). Qed.

Lemma check_ok c g t s : inv c g → 0 < held g s →
  swp (fs_inode_put_check nlink t s) c (stops c (ICheck t s)) (λ b c', inv c' (if b : bool then MkHolders (bump (held g) s (-1)) (bump (leaving g) s 1) else g)).
Proof.
  intros H Hs. destruct (held_slot c g s H ltac:(auto)) as (x & Hx & Hok). pose proof Hok as [(Hr & Hh & Hl) H2 H3 H4 H5]. unfold fs_inode_put_check. eapply swp_slot; [done|].
  apply swp_lock_mutex; [intros Hlk|intros o _ _; by apply swp_ret|intros Hlk; split; [done|by exists x]]. cbn [negb].
  assert (Hnl : ¬ is_Some (locked x)) by (rewrite Hlk; by intros []). rewrite (not_dirty _ _ _ _ Hok Hlk). apply swp_bind, swp_check; [done|]. intros _.
  assert (Ha : agree_off s g (MkHolders (bump (held g) s (-1)) (bump (leaving g) s 1))) by (intros s' Hne; simpl; by rewrite !bump_off).
  pose proof (not_dirty _ _ _ _ Hok Hlk) as Hnd. apply swp_bind, swp_when; intros Hb.
  - apply andb_prop in Hb as [[Hv Hn]%andb_prop Hone]. apply swp_bind, swp_check; [rewrite (proj2 (H2 ltac:(lia))); done|]. intros _. apply swp_bind, swp_modify, swp_modify, swp_ret. cbn [order slots calls].
    eapply (slot_update c g _ s x); [done|done|by left|exact Ha| |intros k Hk; by apply call_other]. split; simpl; rewrite ?bump_at; [lia|done|done|congruence|done].
  - apply swp_ret. replace c with (MkCache (order c) (<[s := x]> (slots c)) (calls c)) by (destruct c; simpl in *; f_equal; by apply list_insert_id).
    eapply (slot_update c g _ s x); [done|done|by left|exact Ha| |done]. split; rewrite ?bump_at; simpl; rewrite ?bump_at; [lia|done|done|congruence|done].
Qed.

Lemma move_front s (l : list nat) : s ∈ l → NoDup l → l ≡ₚ s :: filter (.≠ s) l.
Proof.
  intros Hin Hnd. apply NoDup_Permutation; [done|apply NoDup_cons; split; [rewrite list_elem_of_filter; tauto|by apply NoDup_filter]|].
  intros y. rewrite elem_of_cons, list_elem_of_filter. destruct (decide (y = s)) as [->|]; naive_solver.
Qed.

Lemma inode_drop_ok c g s : inv c g → 0 < leaving g s → swp (fs_inode_put_drop s) c (stops c (IDrop s)) (λ _ c', inv c' (MkHolders (held g) (bump (leaving g) s (-1)))).
Proof.
  intros H Hs. destruct (held_slot c g s H ltac:(auto)) as (x & Hx & [(Hr & Hh & Hl) H2 H3 H4 H5]). unfold fs_inode_put_drop. eapply swp_slot; [done|]. apply swp_bind, swp_modify.
  assert (Hinv : inv (MkCache (order c) (<[s := set_ref (ref_count x - 1) x]> (slots c)) (calls c)) (MkHolders (held g) (bump (leaving g) s (-1)))).
  { eapply (slot_update c g _ s x); [done|done|by left|intros s' Hne; simpl; by rewrite bump_off| |done]. split; simpl; rewrite ?bump_at; [lia|intros ?; apply H2; lia|done|done|done]. }
  apply swp_when; intros _; [|done]. apply swp_modify. destruct Hinv as [Hp Hlen Ho Hu Hsl]. cbn [order slots calls] in *. split; cbn [order slots calls]; try done. rewrite <- Hp. symmetry. pose proof (lookup_lt_Some _ _ _ Hx) as Hlt. rewrite (iv_len _ _ H) in Hlt.
  apply move_front; [rewrite Hp; apply elem_of_seq; lia|rewrite Hp; apply NoDup_seq].
Qed.

(** What a lock that succeeds gives: the attributes as of the last call about the
    inode, which is a read exactly when they were not in the cache. *)
Definition locks_to c t s (a : A) x c' : Prop :=
  ∃ x', slots c' !! s = Some x' ∧ locked x' = Some t ∧ key x' = key x ∧ last_attrs (key x) (calls c') = Some (attrs x') ∧
    if valid x then attrs x' = attrs x ∧ calls c' = calls c else calls c' = InodeRead (key x) a :: calls c.

Lemma inode_lock_ok c g t s a : inv c g → 0 < held g s →
  swp (fs_inode_lock t s a) c (stops c (ILock t s a)) (λ b c', inv c' g ∧ ∃ x, slots c !! s = Some x ∧
    if b : bool then locked x = None ∧ locks_to c t s a x c' else is_Some (locked x) ∧ c' = c).
Proof.
  intros H Hs. destruct (held_slot c g s H ltac:(auto)) as (x & Hx & Hok). pose proof Hok as [(Hr & Hh & Hl) H2 H3 H4 H5]. unfold fs_inode_lock. eapply swp_slot; [done|].
  apply swp_lock_mutex; [intros Hlk|intros o Hlk _; apply swp_ret; split; [done|exists x; rewrite Hlk; by eauto]|intros Hlk; split; [done|by exists x]]. cbn [negb].
  pose proof (not_dirty _ _ _ _ Hok Hlk) as Hnd. pose proof (lookup_lt_Some _ _ _ Hx) as Hlt2. destruct (H2 ltac:(lia)) as [Hz Hf]. destruct (valid x) eqn:Hv.
  - apply swp_bind, swp_modify, swp_ret. destruct (H5 eq_refl) as [_ Hat]. split.
    + eapply (slot_update c g g s x); [done|done|by left|done| |done]. split; simpl; done.
    + exists x. split; [done|]. split; [done|]. exists (set_locked (Some t) x). split; [by apply list_lookup_insert_eq|]. rewrite Hv. do 2 (split; [done|]). split; [by apply Hat|done].
  - rewrite Hnd, Hf. apply swp_bind, swp_check; [done|intros _]. apply swp_bind, swp_check; [done|intros _]. apply swp_bind, swp_modify, swp_bind, swp_modify, swp_ret. cbn [order slots calls]. split.
    + eapply (slot_update c g g s x); [done|done|by left|done| |intros k Hk; by apply call_other]. split; simpl; rewrite ?decide_True; done.
    + exists x. split; [done|]. split; [done|]. eexists. split; [by apply list_lookup_insert_eq|]. rewrite Hv. simpl. by rewrite decide_True.
Qed.

Lemma inode_unlock_ok (E : string → Prop) c g t s x : inv c g → slots c !! s = Some x → locked x = Some t →
  swp (fs_inode_unlock t s) c E (λ _ c', inv c' g ∧ last_attrs (key x) (calls c') = Some (attrs x) ∧ calls c' = (if dirty x then [InodeWrite (key x) (attrs x)] else []) ++ calls c ∧
    ∃ x', slots c' !! s = Some x' ∧ locked x' = None ∧ key x' = key x ∧ attrs x' = attrs x).
Proof.
  intros H Hx Hlk. destruct (iv_slot _ _ H s x Hx) as [(Hr & Hh & Hl) H2 H3 H4 H5]. destruct (H3 ltac:(by rewrite Hlk)) as [Hheld Hv]. destruct (H5 Hv) as [Hz Hat]. destruct (H2 ltac:(lia)) as [_ Hf]. pose proof (lookup_lt_Some _ _ _ Hx) as Hlt.
  assert (Hho : fs_inode_holding t x = true) by by apply bool_decide_eq_true.
  unfold fs_inode_unlock. eapply swp_slot; [done|]. rewrite Hv, Hf, Hho. apply swp_bind, swp_check; [done|intros _]. apply swp_bind, swp_when; intros Hd.
  - apply swp_bind, swp_check; [done|intros _]. apply swp_modify, swp_bind, swp_check; [done|intros _]. apply swp_modify. cbn [order slots calls]. split.
    + eapply (slot_update c g g s x); [done|done|by left|done| |intros k Hk; by apply call_other]. split; simpl; rewrite ?decide_True; done || by intros [].
    + rewrite Hd. split; [simpl; by rewrite decide_True|]. split; [done|]. eexists. split; [by apply list_lookup_insert_eq|done].
  - apply swp_bind, swp_check; [done|intros _]. apply swp_modify. cbn [order slots calls]. split.
    + eapply (slot_update c g g s x); [done|done|by left|done| |done]. split; simpl; try done. intros _. split; [done|]. intros _. by apply Hat.
    + rewrite Hd. split; [by apply Hat|]. split; [done|]. eexists. split; [by apply list_lookup_insert_eq|done].
Qed.

Lemma inode_exec_ok c g op : inv c g → legal c g op → swp (exec g op) c (stops c op) (λ g' c', inv c' g').
Proof.
  intros H Hop. destruct op as [k|s|t s|s|t s a|t s|t s a]; cbn [exec legal] in *.
  - apply swp_bind. eapply swp_mono; [by apply inode_get_ok|]. intros s c' H'. by apply swp_ret.
  - destruct (held_slot c g s H ltac:(auto)) as (x & Hx & [(Hr & Hh & Hl) H2 H3 H4 H5]). apply swp_bind. unfold fs_inode_duplicate. eapply swp_slot; [done|]. apply swp_modify, swp_ret.
    eapply (slot_update c g _ s x); [done|done|by left|apply agree_held| |done]. split; simpl; rewrite ?bump_at; [lia|intros _; apply H2; lia|intros Hlk; destruct (H3 Hlk); split; [lia|done]|done|done].
  - apply swp_bind. eapply swp_mono; [by apply check_ok|]. intros b c' H'. by apply swp_ret.
  - apply swp_bind. eapply swp_mono; [by apply inode_drop_ok|]. intros ? c' H'. by apply swp_ret.
  - apply swp_bind. eapply swp_mono; [by apply inode_lock_ok|]. intros ? c' [H' _]. by apply swp_ret.
  - destruct Hop as (x & Hx & Hlk). apply swp_bind. eapply swp_mono; [by eapply inode_unlock_ok|]. intros ? c' [H' _]. by apply swp_ret.
  - destruct Hop as (x & Hx & Hlk). destruct (iv_slot _ _ H s x Hx) as [Hr H2 H3 H4 H5]. apply swp_bind. unfold modify_inode. eapply swp_slot; [done|]. apply swp_modify, swp_ret.
    eapply (slot_update c g g s x); [done|done|by left|done| |done]. split; simpl; try done. intros Hv. split; [by apply H5|done].
Qed.


Lemma inode_init_inv a : inv (fs_inode_cache_init a) (MkHolders (λ _, 0) (λ _, 0)).
Proof.
  split; unfold fs_inode_cache_init; cbn [order slots calls]; [done|done|done| |].
  - intros s s' x x' [-> _]%lookup_replicate _ _ []. done.
  - intros s x [-> _]%lookup_replicate. split; cbn; done || lia || by intros [].
Qed.

Lemma reach_inv a c g : reach a c g → inv c g.
Proof. induction 1 as [|c g op c' g' _ IH Hop Hex]; [apply inode_init_inv|]. by apply (swp_Ok _ _ _ _ _ _ (inode_exec_ok c g op IH Hop)) in Hex. Qed.

(** ** Running a sequence of operations *)

Definition legalb c g (op : iop) : bool :=
  match op with
  | IGet k => negb (k.1 =? 0)
  | IDup s | ICheck _ s | ILock _ s _ => 0 <? held g s
  | IDrop s => 0 <? leaving g s
  | IUnlock t s | IModify t s _ => match slots c !! s with Some x => fs_inode_holding t x | None => false end
  end.

Fixpoint run_ops g (ops : list iop) c : option (holders * icache A) :=
  match ops with
  | [] => Some (g, c)
  | op :: ops => if legalb c g op then match exec g op c with Ok (g, c) => run_ops g ops c | Panic _ => None end else None
  end.

Lemma legalb_ok c g (op : iop) : legalb c g op = true → legal c g op.
Proof. destruct op as [k|s|t s|s|t s a|t s|t s n]; simpl; intros H; try lia; destruct (slots c !! s) as [x|]; try done; apply bool_decide_eq_true in H; by eauto. Qed.

Lemma run_ops_reach a ops c g c' g' : reach a c g → run_ops g ops c = Some (g', c') → reach a c' g'.
Proof.
  revert c g. induction ops as [|op ops IH]; intros c g Hr; cbn [run_ops]; [by intros [= <- <-]|]. destruct (legalb c g op) eqn:Hl; [|done]. destruct (exec g op c) as [[g1 c1]|] eqn:He; [|done].
  apply IH. eapply reach_step; [done|by apply legalb_ok|exact He].
Qed.

(** One put of an inode, with the state it leads to. *)
Lemma check_eq c g t s x ops : slots c !! s = Some x → locked x = None → dirty x = false → has_fs x = true → 0 < held g s →
  run_ops g (ICheck t s :: ops) c = run_ops (MkHolders (bump (held g) s (-1)) (bump (leaving g) s 1)) ops
    (if valid x && (nlink (attrs x) =? 0) && (ref_count x =? 1) then MkCache (order c) (<[s := set_valid false x]> (slots c)) (InodeDelete (key x) :: calls c) else c).
Proof.
  intros Hx Hl Hd Hf Hh. cbn [run_ops legalb]. rewrite (proj2 (Z.ltb_lt _ _) Hh). unfold exec, fs_inode_put_check, get_slot, lock_mutex, check, when, call_fs, put_slot, modify, mbind, sm_bind, mret, sm_ret, gets, need, id.
  rewrite Hx. cbn. rewrite Hl, Hd, Hf. cbn. by destruct (valid x && (nlink (attrs x) =? 0) && (ref_count x =? 1)).
Qed.

Lemma drop_eq c g s x ops : slots c !! s = Some x → 0 < leaving g s →
  run_ops g (IDrop s :: ops) c = run_ops (MkHolders (held g) (bump (leaving g) s (-1))) ops
    (MkCache (if ref_count x - 1 =? 0 then s :: filter (.≠ s) (order c) else order c) (<[s := set_ref (ref_count x - 1) x]> (slots c)) (calls c)).
Proof.
  intros Hx Hh. cbn [run_ops legalb]. rewrite (proj2 (Z.ltb_lt _ _) Hh). unfold exec, fs_inode_put_drop, get_slot, when, put_slot, modify, mbind, sm_bind, mret, sm_ret, gets, need, id.
  rewrite Hx. cbn. by destruct (ref_count x - 1 =? 0).
Qed.

End proofs.



(** C40: When two tasks put the last two references to an unlinked inode at the
    same time, both may look at the count before either lowers it, and then
    neither deletes the inode: the file system is not called, and nobody refers
    to the inode any more.  One after the other, the second put deletes it. *)
Theorem put_race_leaks {A} (nlink : A → Z) (a : A) c g s x t1 t2 :
  reach nlink a c g → slots c !! s = Some x → held g s = 2 → leaving g s = 0 → locked x = None → valid x = true → nlink (attrs x) = 0 →
  ∃ c1 g1 x1 c2 g2 x2,
    run_ops nlink g [ICheck t1 s; ICheck t2 s; IDrop s; IDrop s] c = Some (g1, c1) ∧ slots c1 !! s = Some x1 ∧ ref_count x1 = 0 ∧ held g1 s = 0 ∧ leaving g1 s = 0 ∧ calls c1 = calls c ∧
    run_ops nlink g [ICheck t1 s; IDrop s; ICheck t2 s; IDrop s] c = Some (g2, c2) ∧ slots c2 !! s = Some x2 ∧ ref_count x2 = 0 ∧ calls c2 = InodeDelete (key x) :: calls c.
Proof.
  intros Hr Hx Hh Hl Hlk Hv Hn. pose proof (reach_inv nlink a c g Hr) as H. pose proof (iv_slot _ _ H s x Hx) as Hok. pose proof (not_dirty _ _ _ _ Hok Hlk) as Hd. destruct Hok as [(Hrc & _) Hlive _ _ _].
  destruct (Hlive ltac:(lia)) as [_ Hf]. assert (Hrc2 : ref_count x = 2) by lia. pose proof (lookup_lt_Some _ _ _ Hx) as Hlt.
  assert (Hno : valid x && (nlink (attrs x) =? 0) && (ref_count x =? 1) = false) by (rewrite Hrc2; apply andb_false_r). do 6 eexists. repeat match goal with |- _ ∧ _ => split end.
  - rewrite (check_eq _ _ _ _ _ x) by (done || lia). rewrite Hno. rewrite (check_eq _ _ _ _ _ x) by (done || (simpl; rewrite ?bump_at; lia)). rewrite Hno.
    rewrite (drop_eq _ _ _ _ x) by (done || (simpl; rewrite ?bump_at; lia)). rewrite (drop_eq _ _ _ _ (set_ref 1 x)) by ((simpl; rewrite ?bump_at; lia) || (simpl; rewrite Hrc2; by apply list_lookup_insert_eq)). reflexivity.
  - simpl. rewrite list_lookup_insert_eq by (by rewrite length_insert). reflexivity.
  - done.
  - simpl. rewrite !bump_at. lia.
  - simpl. rewrite !bump_at. lia.
  - done.
  - rewrite (check_eq _ _ _ _ _ x) by (done || lia). rewrite Hno. rewrite (drop_eq _ _ _ _ x) by (done || (simpl; rewrite ?bump_at; lia)).
    rewrite (check_eq _ _ _ _ _ (set_ref 1 x)) by (done || (simpl; rewrite ?bump_at; lia) || (simpl; rewrite Hrc2; by apply list_lookup_insert_eq)). cbn [attrs valid set_ref ref_count]. rewrite Hv, Hn. cbn [Z.eqb andb Pos.eqb].
    rewrite (drop_eq _ _ _ _ (set_valid false (set_ref 1 x))) by ((simpl; rewrite ?bump_at; lia) || (simpl; apply list_lookup_insert_eq; by rewrite length_insert)). reflexivity.
  - simpl. rewrite list_lookup_insert_eq by (by rewrite !length_insert). reflexivity.
  - done.
  - done.
Qed.

(** ** An example

    The attributes are the number of links. *)

Definition no_holders : holders := MkHolders (λ _, 0) (λ _, 0).

(** Two tasks open a file and one of them unlinks it. *)
Definition unlink_open : list (@iop Z) := [IGet (5, 1); IGet (5, 1); ILock 1 31 1; IModify 1 31 0; IUnlock 1 31].
Definition run_links (ops : list (@iop Z)) := run_ops id no_holders ops (fs_inode_cache_init 0).



Lemma put_race_leaks_witness :
  ∃ c g c1 g1, run_links unlink_open = Some (g, c) ∧ run_ops id g [ICheck 1 31; ICheck 2 31; IDrop 31; IDrop 31] c = Some (g1, c1) ∧ held g1 31 = 0 ∧ calls c1 = [InodeWrite (5, 1) 0; InodeRead (5, 1) 1].
Proof.
  destruct (run_links unlink_open) as [[g c]|] eqn:E; [|vm_compute in E; discriminate]. pose proof (run_ops_reach id 0 _ _ _ _ _ (reach_init _ _) E) as Hr.
  destruct (slots c !! 31%nat) as [x|] eqn:Hx; [|injection E as <- <-; vm_compute in Hx; discriminate].
  assert (Hk : (λ o, match o with Some x => Some (locked x, valid x, attrs x) | None => None end) (slots c !! 31%nat) = Some (None, true, 0)) by (injection E as <- <-; vm_compute; reflexivity).
  assert (Hg : held g 31 = 2 ∧ leaving g 31 = 0 ∧ calls c = [InodeWrite (5, 1) 0; InodeRead (5, 1) 1]) by (injection E as <- <-; vm_compute; repeat split).
  rewrite Hx in Hk. injection Hk as Hk1 Hk2 Hk3. destruct Hg as (Hg1 & Hg2 & Hg3).
  destruct (put_race_leaks id 0 c g 31 x 1 2 Hr Hx Hg1 Hg2 Hk1 Hk2 Hk3) as (c1 & g1 & x1 & c2 & g2 & x2 & R1 & _ & _ & R2 & _ & R3 & _). exists c, g, c1, g1. split; [reflexivity|]. split; [exact R1|]. split; [exact R2|]. rewrite R3. exact Hg3.
Defined.

End InodeCache.
