(* ===== verification/Ext2Image.v ===== *)
(** A small ext2 image, and the theorems of the ext2 files at work on it.

    128 blocks of one kilobyte in one group, with the superblock in block 1, the
    group descriptor in block 2, the bitmaps in blocks 3 and 4, the inode table
    in block 5, a file of one block, block 6, a directory of one block, block 7,
    and its parent, block 8.  The image is read
    through the buffer cache of Buf.v, so that the theorems about ext2 are
    applied here to the whole stack below it. *)

From S2P Require Import Prelude StateM Store Bytes Buf Ext2Base Ext2Alloc Ext2Inode Ext2Dir Ext2DirOps.
Import Bytes Buf Ext2Base Ext2Alloc Ext2Inode Ext2Dir Ext2DirOps.
#[local] Open Scope Z_scope.

Module Ext2Image.

Definition padded (l : list Z) : list Z := l ++ replicate (1024 - length l) 0.

Definition img_sb : Ext2SuperblockData := MkSb 8 128 0 119 4 0 128 8 0 128 1024.

(** The contents of block [b]. *)
Definition img_block (b : Z) : list Z :=
  padded match b with
  | 1 => [8;0;0;0; 128;0;0;0; 0;0;0;0; 119;0;0;0; 4;0;0;0; 1;0;0;0; 0;0;0;0; 0;0;0;0; 128;0;0;0; 128;0;0;0; 8;0;0;0; 0;0;0;0;
          0;0;0;0; 0;0;255;255; 83;239;1;0; 0;0;0;0; 0;0;0;0; 0;0;0;0; 0;0;0;0; 1;0;0;0; 0;0;0;0; 3;0;0;0; 128;0;0;0]
  | 2 => [3;0;0;0; 4;0;0;0; 5;0;0;0; 119;0; 4;0]
  | 3 => [255; 1]
  | 4 => [15]
  | 6 => [104; 101; 108; 108; 111]
  | 7 => [3;0;0;0; 12;0; 1;2; 46;0;0;0; 2;0;0;0; 244;3; 2;2; 46;46]
  | 8 => [2;0;0;0; 12;0; 1;2; 46;0;0;0; 2;0;0;0; 12;0; 2;2; 46;46;0;0; 3;0;0;0; 232;3; 1;2; 100]
  | _ => []
  end.

(** The card, and the blocks that ext2 sees on it. *)
Definition img_card : Buf.devices := {[ 0 := concat (img_block <$> seqZ 0 128) ]}.
Definition img_layout : gset key := Buf.ext2_layout 0 1024 127.
Definition img : gmap key (list Z) := list_to_map ((λ b, (K 0 img_sb b, img_block b)) <$> seqZ 1 127).
Definition img_cache : Buf.st := Buf.buf_init {[0]} img_card (λ _, true).

Lemma img_layout_ok : Buf.layout_ok img_layout.
Proof. apply Buf.ext2_layout_ok; vm_compute; congruence. Qed.
#[local] Instance img_laws : BlockLaws Buf.st := Buf.buf_laws img_layout img_layout_ok.

Lemma length_padded (l : list Z) : (length l ≤ 1024)%nat → length (padded l) = 1024%nat.
Proof. intros. unfold padded. rewrite length_app, length_replicate. lia. Qed.

Lemma img_block_length b : length (img_block b) = 1024%nat.
Proof. unfold img_block. apply length_padded. repeat case_match; simpl; lia. Qed.

Lemma img_blocks : Buf.blocks img_layout img_card = img.
Proof. apply (Buf.blocks_concat 0 127 img_block); [lia|lia|apply img_block_length]. Qed.

Definition img_fs : fs Buf.st := MkFs img_sb img_cache.

Definition one_block (b : Z) : list Z := b :: replicate 14 0.

(** A regular file in block 6, a directory in block 7 and its parent in block 8. *)
Definition img_inode : Inode := MkInode 4 33188 1 0 0 5 0 0 0 0 false 2 (one_block 6).
Definition img_dir : Inode := MkInode 3 16877 2 0 0 1024 0 0 0 0 false 2 (one_block 7).
Definition img_root : Inode := MkInode 2 16877 4 0 0 1024 0 0 0 0 false 2 (one_block 8).

Definition byteb (z : Z) : bool := (0 <=? z) && (z <? 256).
Definition block_okb (d : list Z) : bool := (Z.of_nat (length d) =? 1024) && forallb byteb d.

Lemma img_block_okb : forallb (λ b, match img !! K 0 img_sb b with Some d => block_okb d | None => false end) (seqZ 1 127) = true.
Proof. vm_compute. reflexivity. Qed.

Lemma block_okb_ok d : block_okb d = true → Z.of_nat (length d) = 1024 ∧ Forall byte d.
Proof.
  unfold block_okb. intros [Hl Hb]%andb_prop. split; [lia|]. apply Forall_forall. intros z Hz.
  pose proof (proj1 (forallb_forall _ _) Hb z (proj1 (list_elem_of_In _ _) Hz)) as H. unfold byteb, byte in *. lia.
Qed.

Lemma img_at b : 0 < b < 128 → ∃ d, img !! K 0 img_sb b = Some d ∧ Z.of_nat (length d) = 1024 ∧ Forall byte d.
Proof.
  intros Hb. pose proof (proj1 (forallb_forall _ _) img_block_okb b) as H. cbv beta in H.
  assert (Hin : In b (seqZ 1 127)) by (apply list_elem_of_In, elem_of_seqZ; lia). specialize (H Hin).
  destruct (img !! K 0 img_sb b) as [d|]; [|done]. exists d. split; [done|]. by apply block_okb_ok.
Qed.

Lemma img_roles r : role_ok img_sb r → r = RGd 0 ∨ r = RBm Blocks 0 0 ∨ r = RBm Inodes 0 0.
Proof.
  assert (Hn : ∀ k, ngroups img_sb k = 1) by (by intros []). assert (Hp : ∀ k, per img_sb k ≤ 128) by (by intros []).
  unfold role_ok. change (gds_per_block img_sb) with 32. change (bits_per_block img_sb) with 8192.
  destruct r as [j|k g i]; rewrite !Hn; intros Hr; [left; f_equal; lia|]. specialize (Hp k). right.
  assert (g = 0 ∧ i = 0) as [-> ->] by lia. destruct k; auto.
Qed.

Lemma img_wf : wf 0 img_sb img.
Proof.
  split; [split|].
  - split; [done|by intros []|done..].
  - apply img_at.
  - apply (img_at 1). lia.
  - intros r [->|[->| ->]]%img_roles; vm_compute; split; (done || split; done).
  - intros r1 r2 [->|[->| ->]]%img_roles [->|[->| ->]]%img_roles E; vm_compute in E; done.
  - change (total img_sb) with 128. intros b Hb Hr. assert (b = 0 ∨ b = 1) as [->| ->]; [|vm_compute; done..].
    destruct Hr as [->|Hr]; [by left|]. injection Hr. auto.
  - intros k g Hg. assert (g = 0) as -> by (destruct k; change (0 ≤ g < 1) in Hg; lia). destruct k; vm_compute; done.
  - change (ngroups img_sb Inodes) with 1. change (gds_per_block img_sb) with 32. intros g Hg Hs.
    assert (g < 32) by (Z.to_euclidean_division_equations; lia).
    assert (H31 : forallb (λ g, cnt 0 img_sb img Inodes g =? 0) (seqZ 1 31) = true) by (vm_compute; reflexivity).
    apply Z.eqb_eq, (proj1 (forallb_forall _ _) H31). apply list_elem_of_In, elem_of_seqZ. lia.
  - intros []; vm_compute; done.
Qed.

Lemma card_devs (B : list Z) v : is_Some (({[ 0 := B ]} : Buf.devices) !! v) → v ∈ ({[0]} : gset Z).
Proof. intros [? [<- _]%lookup_singleton_Some]. by apply elem_of_singleton. Qed.

Lemma img_bok : bok img_cache.
Proof. apply Buf.init_bok; [done|]. apply card_devs. Qed.

Lemma img_view : view img_cache = img.
Proof. exact img_blocks. Qed.

Lemma img_file_block b : 6 ≤ b ≤ 8 → file_block 0 img_sb img b.
Proof.
  intros Hr. assert (Hb : b = 6 ∨ b = 7 ∨ b = 8) by lia. split; [change (total img_sb) with 128; lia|]. split; [destruct Hb as [->|[->| ->]]; vm_compute; done|].
  split; [|by destruct Hb as [->|[->| ->]]]. intros r [->|[->| ->]]%img_roles; destruct Hb as [->|[->| ->]]; vm_compute; done.
Qed.

Lemma img_slots b slot ix : pos_ok img_sb slot ix → at_pos 0 img_sb img (one_block b) slot ix ≠ 0 →
  slot = 0 ∧ ix = [] ∧ at_pos 0 img_sb img (one_block b) slot ix = b.
Proof.
  intros (Hs & Hl & _). unfold Ext2Inode.at_pos, slot_id. destruct (decide (slot = 0)) as [->|Hne].
  - destruct ix; [done|]. unfold depth in Hl. simpl in Hl. lia.
  - unfold one_block. rewrite lookup_cons_ne_0 by lia. rewrite lookup_replicate_2 by lia.
    simpl. by rewrite walk_0.
Qed.

Lemma img_lets : lets 0 img_sb img ∅.
Proof. split; [set_solver..|]. rewrite size_empty. unfold HELD_MAX. lia. Qed.

Lemma img_good b : 6 ≤ b ≤ 8 → good 0 img_fs img (one_block b) ∅.
Proof.
  intros Hb. split.
  - apply img_wf.
  - done.
  - change (sb img_fs) with img_sb. split; [done| |].
    + intros s ix Hp Hne. destruct (img_slots b s ix Hp Hne) as (_ & _ & ->). by apply img_file_block.
    + intros s ix s' ix' Hp Hp' Hne E. destruct (img_slots b s ix Hp Hne) as (-> & -> & _).
      rewrite E in Hne. by destruct (img_slots b s' ix' Hp' Hne) as (-> & -> & _).
  - split; [apply img_bok|split; [exact img_view|done]].
  - split; [apply img_lets|set_solver].
  - vm_compute. lia.
Qed.

Lemma img_wf_fs : wf 0 (sb img_fs) (view (store img_fs)).
Proof. change (store img_fs) with img_cache. rewrite img_view. apply img_wf. Qed.

Lemma img_lets_fs : lets 0 (sb img_fs) (view (store img_fs)) (held (store img_fs)).
Proof. change (store img_fs) with img_cache. rewrite img_view. apply img_lets. Qed.

Lemma ext2_block_alloc_spec_witness :
  ∃ f', ext2_block_alloc 0 42 0 img_fs = Ok (inr 9, f') ∧ sb f' = took_block 42 img_sb ∧
    view (store f') !! K 0 img_sb 9 = Some (replicate 1024 0) ∧ wf 0 (sb f') (view (store f')).
Proof.
  destruct (ext2_block_alloc_spec 0 42 0 img_fs img_wf_fs img_bok img_lets_fs ltac:(lia)) as (r & f' & E & H).
  assert (Er : (λ o, match o with Ok (r, _) => r | Panic _ => inl 0 end) (ext2_block_alloc 0 42 0 img_fs) = inr 9) by (vm_compute; reflexivity).
  rewrite E in Er. subst r. exists f'. split; [exact E|].
  destruct H as (_ & _ & _ & Hsb & _ & Hz & Hwf & _).
  split; [exact Hsb|]. split; [exact Hz|exact Hwf].
Defined.

Lemma ext2_free_spec_witness :
  ∃ f', ext2_block_free 0 42 6 img_fs = Ok (tt, f') ∧ free_blocks_count (sb f') = 120 ∧ wf 0 (sb f') (view (store f')).
Proof.
  destruct (ext2_free_spec 0 42 Blocks 6 img_fs img_wf_fs img_bok img_lets_fs) as (f' & E & Hsb & _ & Hwf & _).
  - lia.
  - change (0 ≤ 6 < 128). lia.
  - change (store img_fs) with img_cache. rewrite img_view. vm_compute. reflexivity.
  - intros _. change (store img_fs) with img_cache. rewrite img_view. split; [|split; done]. intros r [->|[->| ->]]%img_roles; vm_compute; done.
  - exists f'. split; [exact E|]. split; [by rewrite Hsb|exact Hwf].
Defined.

Lemma ext2_get_block_spec_witness :
  ∃ r f', ext2_inode_get_block 0 42 0 img_inode 13 true img_fs = Ok (r, f') ∧ r.1 = 10 ∧
    filled 0 0 img_fs img img_inode 12 [1] ∅ r f'.
Proof.
  pose proof (ext2_get_block_spec 0 42 0 ltac:(lia) img_inode img_fs img ∅ 13 (img_good 6 ltac:(lia)) ltac:(lia)) as [_ H].
  change (index_path (sb img_fs) 13) with (Some (12, [1])) in H. apply mwp_run in H as (r & f' & E & H). exists r, f'. split; [done|].
  split; [|done]. assert (Er : (λ o, match o with Ok (r, _) => r.1 | Panic _ => 0 end) (ext2_inode_get_block 0 42 0 img_inode 13 true img_fs) = 10)
    by (vm_compute; reflexivity). by rewrite E in Er.
Defined.

(** A write that starts in block 6 and goes on in a block to be allocated. *)
Definition img_src : list Z := [33; 34; 35; 36].

Lemma ext2_write_read_data_witness :
  ∃ i' f', ext2_write_data 0 42 0 img_inode (readable img_src) 4 1022 img_fs = Ok ((inr 4, i'), f') ∧
    mwp (ext2_read_data 0 42 0 i' 4 1022) f' (λ r _, r.1 = inr img_src).
Proof.
  assert (Hb : Forall byte img_src) by (repeat constructor; done).
  assert (Hi : indexed (sb img_fs) 1022 (Z.of_nat (length img_src))).
  { intros o Ho. unfold index_path. change (block_size (sb img_fs)) with 1024. change (Z.of_nat (length img_src)) with 4 in Ho.
    assert (o / 1024 < 12) by (apply Z.div_lt_upper_bound; lia). by rewrite (proj2 (Z.ltb_lt _ _)). }
  destruct (mwp_run _ _ _ (ext2_write_read_data 0 42 0 ltac:(lia) img_inode img_fs img ∅ img_src 1022 (img_good 6 ltac:(lia)) ltac:(lia) Hb Hi)) as ([r i'] & f' & E & _ & H).
  exists i', f'. assert (Er : (λ o, match o with Ok (r, _) => r.1 | Panic _ => inr 0 end) (ext2_write_data 0 42 0 img_inode (readable img_src) 4 1022 img_fs) = inr 4)
    by (vm_compute; reflexivity). change (Z.of_nat (length img_src)) with 4 in E. rewrite E in Er. simpl in Er. subst r. split; [done|].
  eapply mwp_mono; [by apply H|]. intros ? ? [-> _]. done.
Defined.

(** The directory: itself and its parent. *)
Definition img_entries : list Ext2DirEntry := [MkDe 3 12 2 dot; MkDe 2 1012 2 dotdot].

Lemma img_enc c off d : (λ k, c (off + Z.of_nat k)) <$> seq 0 (length (de_bytes d)) = de_bytes d → enc c off d.
Proof.
  intros H k b Hk. rewrite <- H, list_lookup_fmap in Hk. apply fmap_Some in Hk as (j & Hj & ->). apply lookup_seq in Hj as [-> _]. done.
Qed.

Lemma img_is_dir : is_dir 0 img_fs img ∅ img_dir img_entries.
Proof.
  split.
  - apply img_good. lia.
  - done.
  - intros o Ho. change (block_size (sb img_fs)) with 1024. rewrite (Z.div_small o 1024) by (change (isize img_dir) with 1024 in Ho; lia). vm_compute. done.
  - split; [apply img_enc; vm_compute; reflexivity|]. split; [split; vm_compute; repeat constructor; done|].
    split; [apply img_enc; vm_compute; reflexivity|]. split; [split; vm_compute; repeat constructor; done|]. reflexivity.
  - vm_compute. apply NoDup_cons. split; [|apply NoDup_singleton]. rewrite list_elem_of_singleton. done.
Qed.

Definition img_ops : list dir_op :=
  [OpEmpty; OpLink [97] 2 33188; OpLink [97] 4 33188; OpLookup [97]; OpUnlink 2 [97]; OpUnlink 2 [97]; OpUnlink 3 dotdot].

Lemma ext2_dir_refines_witness :
  ∃ i' f' m' es', run_ops 0 42 0 (λ _, true) img_ops img_dir img_fs =
      Ok (([Empty true; Code 0; Code (- EEXIST); Found (Some 2); Code 0; Code (- ENOENT); Code (- EBUSY)], i'), f') ∧
    is_dir 0 f' m' ∅ i' es' ∧ dict es' = dict img_entries.
Proof.
  pose proof (ext2_dir_refines 0 42 0 (λ _, true) img_ops img_fs img ∅ img_dir img_entries ltac:(lia) ltac:(done) img_is_dir ltac:(done)) as H.
  specialize (H ltac:(vm_compute; reflexivity) ltac:(vm_compute; congruence)). assert (Hb : Forall byte [97]) by (apply Forall_singleton; done).
  assert (Hok : Forall op_ok img_ops) by (repeat apply Forall_cons_2; simpl; auto with lia; apply Forall_nil).
  specialize (H Hok). destruct (spec_ops _ _ _) as [rs s] eqn:Es. assert (Hs : spec_ops (ino img_dir) img_ops (dict img_entries) =
    ([Empty true; Code 0; Code (- EEXIST); Found (Some 2); Code 0; Code (- ENOENT); Code (- EBUSY)], dict img_entries)) by (vm_compute; reflexivity).
  rewrite Hs in Es. injection Es as <- <-. destruct H as (i' & f' & m' & es' & E & D & Hd & _). exists i', f', m', es'. split; [exact E|]. split; [exact D|exact Hd].
Defined.

Definition root_entries : list Ext2DirEntry := [MkDe 2 12 2 dot; MkDe 2 12 2 dotdot; MkDe 3 1000 2 [100]].

Lemma img_is_root : is_dir 0 img_fs img ∅ img_root root_entries.
Proof.
  split.
  - apply img_good. lia.
  - done.
  - intros o Ho. change (block_size (sb img_fs)) with 1024. rewrite (Z.div_small o 1024) by (change (isize img_root) with 1024 in Ho; lia). vm_compute. done.
  - split; [apply img_enc; vm_compute; reflexivity|]. split; [split; vm_compute; repeat constructor; done|].
    split; [apply img_enc; vm_compute; reflexivity|]. split; [split; vm_compute; repeat constructor; done|].
    split; [apply img_enc; vm_compute; reflexivity|]. split; [split; vm_compute; repeat constructor; done|]. reflexivity.
  - by apply (bool_decide_eq_true_1 _); vm_compute.
Qed.

Lemma img_pair : pair_ok 0 img_fs img ∅ img_root root_entries img_dir img_entries.
Proof.
  split; [apply img_is_root|]. split; [apply img_is_dir|]. split; [|done].
  intros c (s & js & Hp & Hc & Hne) (s' & js' & Hp' & Hc' & _). rewrite <- Hc in Hne. destruct (img_slots 7 s js Hp Hne) as (_ & _ & E).
  change (block img_dir) with (one_block 7) in Hc. change (sb img_fs) with img_sb in Hc. rewrite E in Hc. subst c.
  assert (Hne' : at_pos 0 img_sb img (one_block 8) s' js' ≠ 0) by (change (sb img_fs) with img_sb in Hc'; change (block img_root) with (one_block 8) in Hc'; by rewrite Hc').
  destruct (img_slots 8 s' js' Hp' Hne') as (_ & _ & E'). change (at_pos 0 img_sb img (one_block 8) s' js' = 7) in Hc'. congruence.
Qed.

Lemma ext2_rmdir_spec_witness :
  ∃ dir' i' f' m' P' I', ext2_rmdir 0 42 0 img_root img_dir [100] img_fs = Ok ((0, dir', i'), f') ∧ pair_ok 0 f' m' ∅ dir' P' i' I' ∧
    dict P' = delete [100] (dict root_entries) ∧ dict I' = ∅ ∧ nlink dir' = 2 ∧ nlink i' = 0.
Proof.
  destruct (ext2_rmdir_spec 0 42 0 img_fs img ∅ img_root root_entries img_dir img_entries [100] ltac:(lia) img_pair ltac:(done) ltac:(done) ltac:(done) ltac:(done) ltac:(done)
    ltac:(vm_compute; reflexivity) ltac:(vm_compute; reflexivity) ltac:(vm_compute; reflexivity)) as (e & dir' & i' & f' & m' & P' & I' & E & H & [Hok|(Hno & _)]).
  - destruct Hok as (_ & -> & HP & HI & Hl1 & Hl2). exists dir', i', f', m', P', I'. split; [exact E|]. split; [exact H|]. split; [exact HP|]. split; [exact HI|]. split; [exact Hl1|exact Hl2].
  - exfalso. apply Hno. unfold only_dots. vm_compute. apply Forall_cons_2; [by left|]. apply Forall_cons_2; [by right|constructor].
Defined.

(** Two entries of the three fit in thirty bytes. *)
Definition img_write (req : list dirent) (d : dirent) : Z * list dirent := (Z.of_nat (length (d_name d)), req ++ [d]).

Lemma readdir_spec_witness :
  ∃ i' f', do_readdir_locked 0 42 0 12 img_write true [] img_root 0 30 img_fs =
      Ok ((29, [MkDirent 2 14 [46; 0]; MkDirent 2 15 [46; 46; 0]], 24, i'), f') ∧ is_dir 0 f' img ∅ i' root_entries.
Proof.
  pose proof (readdir_spec 0 42 0 12 img_write img_fs img ∅ img_root [] root_entries [] 30 ltac:(lia) ltac:(lia) ltac:(intros req d; simpl; lia) img_is_root ltac:(done) ltac:(lia)) as H.
  destruct H as (n & req & i' & f' & got & rest & E & Hg & _ & D & _). change (rec_lens []) with 0 in E. rewrite app_nil_l in E. rewrite <- app_assoc, app_nil_l, <- Hg in D.
  assert (Er : (λ o, match o with Ok (r, _) => Some (r.1.1.1, r.1.1.2, r.1.2) | Panic _ => None end) (do_readdir_locked 0 42 0 12 img_write true [] img_root 0 30 img_fs) =
    Some (29, [MkDirent 2 14 [46; 0]; MkDirent 2 15 [46; 46; 0]], 24)) by (vm_compute; reflexivity).
  rewrite E in Er. cbn [fst snd] in Er. injection Er as E1 E2 E3. rewrite E1, E2, E3 in E. exists i', f'. split; [exact E|exact D].
Defined.

(** A file of 278 blocks with a hole in front: the double-indirect tree, rooted
    in block 7, has one pointer block, block 8, and ten data blocks, 9 to 18,
    the blocks 268 to 277 of the file. *)
Definition big_sb : Ext2SuperblockData := MkSb 8 24 0 5 6 0 24 8 0 128 1024.
Definition big_block (b : Z) : list Z :=
  padded match b with
  | 2 => [3;0;0;0; 4;0;0;0; 5;0;0;0; 5;0; 6;0]
  | 3 => [255; 255; 7]
  | 4 => [3]
  | 7 => [8]
  | 8 => concat ((λ b, [b; 0; 0; 0]) <$> seqZ 9 10)
  | _ => []
  end.
Definition big_cache : Buf.st := Buf.buf_init {[0]} {[ 0 := concat (big_block <$> seqZ 0 24) ]} (λ _, true).
Definition big_fs : fs Buf.st := MkFs big_sb big_cache.
Definition big_inode : Inode :=
  MkInode 2 33188 1 0 0 (278 * 1024) 0 0 0 0 false 24 (<[13%nat := 7]> (replicate 15 0)).

(** Truncated to 273 blocks, the file has lost its whole tree and twelve blocks
    are free again, where five data blocks had to go. *)
Lemma ext2_trunc_ignores_length_witness :
  ext2_trunc 0 42 big_inode (273 * 1024) big_fs = ext2_trunc 0 42 big_inode (269 * 1024) big_fs ∧
  match ext2_trunc 0 42 big_inode (273 * 1024) big_fs with
  | Ok (i, f') => block i = replicate 15 0 ∧ free_blocks_count (sb f') = 5 + 12
  | Panic _ => False
  end.
Proof.
  split; [|vm_compute; split; reflexivity].
  apply (ext2_trunc_ignores_length 0 42 big_inode big_fs (273 * 1024) (269 * 1024)); vm_compute; repeat split; congruence.
Defined.

End Ext2Image.
