(* ===== verification/VmArch.v ===== *)
(** Page tables: the interface between virtual memory and the machine.

    kernel/mm/vm.c works on page tables through the functions arch_vm_* of the
    architecture.  [ArchVm] are those functions and [ArchLaws] what vm.c relies
    on: a table is a map from pages of an address space to entries, an entry
    read after it was written shows what was written, and growing a table takes
    page frames that nobody uses.  ArmVm.v discharges the laws for ARM; Vm.v is
    written against them.

    The file starts with what one page frame sees of the page allocator. *)

From S2P Require Import Prelude Bitmap PageAlloc.
Import PageAlloc.
#[local] Open Scope Z_scope.

Module VmArch.

Definition PAGE_TAG_KERNEL_VM : Z := 0xABCD000A.
Definition PAGE_TAG_ANON : Z := 0xABCD0007.
Definition PAGE_TAG_PGTAB : Z := 0xABCD0008.
Definition PAGE_TAG_VM : Z := 0xABCD0009.

Definition VIRT_KERNEL_BASE : Z := 0x80000000.

Definition VM_READ : Z := 1.
Definition VM_WRITE : Z := 2.
Definition VM_EXEC : Z := 4.
Definition VM_NOCACHE : Z := 8.
Definition VM_USER : Z := 16.
Definition VM_COW : Z := 32.
Definition VM_PAGE : Z := 64.

(** ** Flags *)

Lemma land_bit_0 x n : 0 ≤ n → (Z.land x (2 ^ n) =? 0) = negb (Z.testbit x n).
Proof.
  intros Hn. destruct (Z.testbit x n) eqn:E; simpl.
  - apply Z.eqb_neq. intros H. assert (Hb : Z.testbit (Z.land x (2 ^ n)) n = true) by (rewrite Z.land_spec, E, Z.pow2_bits_true by lia; done).
    by rewrite H, Z.bits_0 in Hb.
  - apply Z.eqb_eq, Z.bits_inj'. intros j Hj. rewrite Z.land_spec, Z.bits_0.
    destruct (decide (j = n)) as [->|]; [by rewrite E|by rewrite Z.pow2_bits_false, andb_false_r by lia].
Qed.

Lemma land_bit_1 x n : 0 ≤ n → (Z.land x (2 ^ n) =? 2 ^ n) = Z.testbit x n.
Proof.
  intros Hn. destruct (Z.testbit x n) eqn:E.
  - apply Z.eqb_eq, Z.bits_inj'. intros j Hj. rewrite Z.land_spec.
    destruct (decide (j = n)) as [->|]; [by rewrite E|by rewrite Z.pow2_bits_false, andb_false_r by lia].
  - apply Z.eqb_neq. intros H. pose proof (land_bit_0 x n Hn) as H0. rewrite E, H in H0. simpl in H0.
    apply Z.eqb_eq in H0. pose proof (Z.pow_pos_nonneg 2 n). lia.
Qed.

(** ** Frames *)

Implicit Types (st : pstate) (p q r tag : Z).

(** Frame [p] is allocated, with [r] references and tag [tag]. *)
Definition live st p r tag : Prop :=
  0 ≤ p < page_count st ∧ pages st !! p = Some (MkPage r tag) ∧ ¬ covered st p.

(** Nothing but frame [p] differs. *)
Definition frame_step st p st' : Prop :=
  page_count st' = page_count st ∧ ∀ q r tag, q ≠ p → live st' q r tag ↔ live st q r tag.

Lemma frame_step_trans st p st1 st2 : frame_step st p st1 → frame_step st1 p st2 → frame_step st p st2.
Proof. intros [E1 H1] [E2 H2]. split; [congruence|]. intros q r tag Hq. by rewrite H2, H1. Qed.

Lemma live_unique st p r tag r' tag' : live st p r tag → live st p r' tag' → r = r' ∧ tag = tag'.
Proof. intros (_ & E & _) (_ & E' & _). simplify_eq. done. Qed.

Lemma in_blk_0 p i : in_blk p 0 i ↔ i = p.
Proof. unfold in_blk, bsize. simpl. lia. Qed.

Lemma page_alloc_cases st order flags tag :
  wf st → (order ≤ PAGE_ORDER_MAX)%nat →
  match page_alloc_block st order flags tag with
  | Ok (p, st') => wf st' ∧ allocated st p order (MkPage 0 tag) st'
  | Panic w => w = "out of memory"%string
  end.
Proof.
  intros Hw Hle. destruct (first_nonempty (PAGE_ORDER_MAX + 1 - order) (page_free_list st) order) as [o|] eqn:E.
  2:{ unfold page_alloc_block, take_block. rewrite E. done. }
  pose proof (first_nonempty_Some _ _ _ _ E) as ([Ho _] & p & l & Hl).
  destruct (page_alloc_block_ok st order flags tag o p Hw) as (q & st' & -> & Hw' & Ha); [by exists (p :: l); split; [|constructor]|lia|done].
Qed.

Lemma page_alloc_one_ok st flags tag :
  wf st →
  match page_alloc_block st 0 flags tag with
  | Ok (p, st') => wf st' ∧ live st' p 0 tag ∧ (∀ r t, ¬ live st p r t) ∧ frame_step st p st'
  | Panic w => w = "out of memory"%string
  end.
Proof.
  intros Hw. pose proof (page_alloc_cases st 0 flags tag Hw ltac:(lia)) as Ha.
  destruct (page_alloc_block st 0 flags tag) as [[q st']|]; [|done]. destruct Ha as [Hw' Ha].
  destruct Ha as [(Hq0 & _ & Hq1 & _) Hwas Hcov Hpg Hcnt _]. change (bsize 0) with 1 in *.
  split; [done|]. split; [|split; [|split; [done|]]].
  - split; [lia|]. split; [rewrite Hpg; by rewrite decide_True by lia|]. rewrite Hcov. intros [_ H]. by apply H, in_blk_0.
  - intros r t (_ & _ & Hn). by apply Hn, Hwas, in_blk_0.
  - intros q' r t Hne. unfold live. rewrite Hcnt, Hpg, Hcov, decide_False by lia. rewrite in_blk_0. tauto.
Qed.

Lemma page_free_one_ok st p tag :
  wf st → live st p 0 tag →
  ∃ st', page_free_block st p 0 = Ok st' ∧ wf st' ∧ (∀ r t, ¬ live st' p r t) ∧ frame_step st p st'.
Proof.
  intros Hw (Hp & Hpg & Hnc). destruct (page_free_block_ok st p 0 Hw) as (st' & E & Hw' & [Hcov Hpg' Hcnt _]).
  - split; [split; [lia|]; split; [apply aligned_mod; change (bsize 0) with 1; by rewrite Z.mod_1_r|];
      split; [change (bsize 0) with 1; lia|lia]|].
    intros i ->%in_blk_0. split; [done|]. by eexists.
  - change (bsize 0) with 1 in *. exists st'. split; [done|]. split; [done|]. split; [|split; [done|]].
    + intros r t (_ & _ & H). apply H, Hcov. right. by apply in_blk_0.
    + intros q r t Hne. unfold live. rewrite Hcnt, Hpg', Hcov, decide_False by lia. rewrite in_blk_0. tauto.
Qed.

Lemma add_ref_live d st p r tag :
  wf st → live st p r tag →
  ∃ st', add_ref d st p = Ok st' ∧ wf st' ∧ live st' p (r + d) tag ∧ frame_step st p st'.
Proof.
  intros Hw (Hp & Hpg & Hnc). unfold add_ref. rewrite Hpg. simpl. eexists. split; [done|].
  set (st' := set_pages _ _). assert (Hcov : ∀ i, covered st' i ↔ covered st i) by (by apply covered_ext).
  split; [|split; [|split; [done|]]].
  - destruct Hw as [Hl Hc Ht]. split; [|done|done]. apply (lists_ok_pages st); try done; intros i Hi; simpl.
    + rewrite lookup_insert_ne; [done|]. by intros <-.
    + destruct (decide (i = p)) as [->|]; [by rewrite lookup_insert_eq|by rewrite lookup_insert_ne].
  - split; [done|]. split; [simpl; by rewrite lookup_insert_eq|by rewrite Hcov].
  - intros q r' t Hne. unfold live. rewrite Hcov. simpl. by rewrite lookup_insert_ne.
Qed.

Lemma page_dec_ref_ok st q r tag :
  wf st → live st q r tag →
  ∃ st', page_dec_ref st q 0 = Ok st' ∧ wf st' ∧ frame_step st q st' ∧
    if decide (r = 1) then ∀ r' tag', ¬ live st' q r' tag' else live st' q (r - 1) tag.
Proof.
  intros Hw Hq. destruct (add_ref_live (-1) st q r tag Hw Hq) as (st1 & E1 & Hw1 & Hq1 & Hs1).
  unfold page_dec_ref. rewrite E1. simpl. destruct Hq1 as (Hr & Hpg & Hnc). rewrite Hpg. simpl. case_decide as Er.
  - subst r. simpl. destruct (page_free_one_ok st1 q tag Hw1) as (st2 & E2 & Hw2 & Hn & Hs2); [done|]. rewrite E2.
    exists st2. split; [done|]. split; [done|]. split; [by eapply frame_step_trans|done].
  - rewrite (proj2 (Z.eqb_neq _ _)) by lia. exists st1. split; [done|]. split; [done|]. split; [done|].
    split; [done|]. by replace (r - 1) with (r + -1) by lia.
Qed.

(** A block of several frames, allocated and freed. *)
Lemma block_live st p o d st' i r tag :
  allocated st p o d st' → live st' i r tag ↔ (p ≤ i < p + bsize o ∧ d = MkPage r tag) ∨ live st i r tag ∧ ¬ p ≤ i < p + bsize o.
Proof.
  intros [(Hp0 & _ & Hp1 & _) Hwas Hcov Hpg Hcnt _]. unfold live. rewrite Hpg, Hcov, Hcnt. unfold in_blk in *. case_decide as Hi.
  - split; [intros (? & [= ->] & _); by left|]. intros [[_ ->]|[_ ?]]; [|done]. split; [lia|]. split; [done|]. by intros [_ ?].
  - split; [intros (? & ? & Hn); right; split; [|done]; split; [done|]; split; [done|]; intros Hc; by apply Hn|].
    intros [[? _]|[(? & ? & Hn) _]]; [done|]. split; [done|]. split; [done|]. by intros [? _].
Qed.

Lemma block_was_free st p o d st' i r tag : allocated st p o d st' → p ≤ i < p + bsize o → ¬ live st i r tag.
Proof. intros Ha Hi (_ & _ & Hn). by apply Hn, (al_was_free _ _ _ _ _ Ha). Qed.

Lemma free_block_live st p o tag :
  wf st → (o ≤ PAGE_ORDER_MAX)%nat → p mod bsize o = 0 → live st p 1 tag → (∀ i, p < i < p + bsize o → live st i 0 tag) →
  ∃ st', page_dec_ref st p o = Ok st' ∧ wf st' ∧ ∀ i k tg, live st' i k tg ↔ live st i k tg ∧ ¬ p ≤ i < p + bsize o.
Proof.
  intros Hw Ho Hm Hl Hrest. destruct (add_ref_live (-1) st p 1 tag Hw Hl) as (st1 & E1 & Hw1 & Hl1 & Hc1 & Hf1). pose proof (bsize_pos o) as Hb.
  unfold page_dec_ref. rewrite E1. cbn [mbind outcome_bind]. pose proof Hl1 as (Hr & Hpg & Hnc). rewrite Hpg. cbn [deref mbind outcome_bind ref_count].
  change (1 + -1 =? 0) with true. cbn iota.
  assert (Hall : ∀ i, p ≤ i < p + bsize o → live st1 i 0 tag).
  { intros i Hi. destruct (decide (i = p)) as [->|]; [done|]. apply Hf1; [done|]. apply Hrest. lia. }
  destruct (page_free_block_ok st1 p o Hw1) as (st' & E & Hw' & [Hcov Hpg' Hcnt _]).
  - split; [split; [lia|]; split; [by apply aligned_mod|]; split; [destruct (Hall (p + bsize o - 1)); lia|done]|].
    intros i Hi. destruct (Hall i Hi) as (_ & Hpi & Hni). split; [done|]. by eexists.
  - exists st'. split; [done|]. split; [done|]. intros i k tg. unfold in_blk in *. destruct (decide (p ≤ i < p + bsize o)) as [Hi|Hi].
    + split; [|by intros [_ ?]]. intros (_ & _ & Hn). destruct Hn. apply Hcov. by right.
    + rewrite <- (Hf1 i) by lia. unfold live. rewrite Hcnt, Hpg', Hcov, decide_False by done. tauto.
Qed.

Lemma page_assert_ok st p r tag : live st p r tag → r ≠ 0 → page_assert st p 0 tag = Ok tt.
Proof.
  intros (_ & Hpg & _) Hr. unfold page_assert. change (Z.to_nat (bsize 0)) with 1%nat. cbn [tags_are]. rewrite Hpg. simpl.
  rewrite Z.eqb_refl. simpl. by rewrite (proj2 (Z.eqb_neq r 0)).
Qed.

Lemma pa2page_ok st p : 0 ≤ p < page_count st → pa2page st (p * PAGE_SIZE) = Ok p.
Proof.
  intros Hp. unfold pa2page, PAGE_SHIFT. rewrite Z.shiftr_div_pow2 by lia. change (2 ^ 12) with PAGE_SIZE.
  rewrite Z.div_mul by done. by rewrite (proj2 (Z.leb_gt _ _)) by lia.
Qed.

Lemma page2pa_ok st p : 0 ≤ p < page_count st → page2pa st p = Ok (p * PAGE_SIZE).
Proof.
  intros Hp. unfold page2pa, PAGE_SHIFT. rewrite (proj2 (Z.ltb_ge p 0)), (proj2 (Z.leb_gt _ _)) by lia. simpl.
  by rewrite Z.shiftl_mul_pow2.
Qed.

(** ** The interface *)

(** [arch_vm_lookup] returns a pointer to the entry for an address, or none;
    with [alloc] it may take page frames for the table. *)
Class ArchVm (T : Type) := {
  arch_vm_lookup : Z → Z → bool → T → pstate → outcome (option Z * T * pstate);
  arch_vm_pte_valid : Z → T → bool;
  arch_vm_pte_addr : Z → T → Z;
  arch_vm_pte_flags : Z → T → Z;
  arch_vm_pte_set : Z → Z → Z → T → T;
  arch_vm_pte_clear : Z → T → T;
}.

(** What an entry says: a physical address and flags. *)
Definition pt_entry {T} `{ArchVm T} (x : T) p : option (Z * Z) :=
  if arch_vm_pte_valid p x then Some (arch_vm_pte_addr p x, arch_vm_pte_flags p x) else None.

(** [pt_rep tabs P x st]: the page tables of [tabs] are well formed in [x], and
    [P] gives the entry of each page of each of them, where there is one. *)
Class ArchLaws (T : Type) `{!ArchVm T} := {
  pt_rep : gset Z → (Z * Z → option Z) → T → pstate → Prop;
  pt_keys tabs P x st t v p : pt_rep tabs P x st → P (t, v) = Some p → t ∈ tabs ∧ 0 ≤ v < VIRT_KERNEL_BASE / PAGE_SIZE;
  pt_inj tabs P x st k k' p : pt_rep tabs P x st → P k = Some p → P k' = Some p → k = k';
  pt_frames tabs P x st st' :
    pt_rep tabs P x st → page_count st' = page_count st →
    (∀ p r tag, tag ≠ PAGE_TAG_ANON → live st p r tag → live st' p r tag) → pt_rep tabs P x st';
  lookup_kernel tabs P x st t va alloc :
    pt_rep tabs P x st → t ∈ tabs → VIRT_KERNEL_BASE ≤ va →
    arch_vm_lookup t va alloc x st = Panic "user va must be below VIRT_KERNEL_BASE";
  lookup_hit tabs P x st t va p alloc :
    pt_rep tabs P x st → t ∈ tabs → 0 ≤ va < VIRT_KERNEL_BASE → P (t, va / PAGE_SIZE) = Some p →
    arch_vm_lookup t va alloc x st = Ok (Some p, x, st);
  lookup_miss tabs P x st t va :
    pt_rep tabs P x st → t ∈ tabs → 0 ≤ va < VIRT_KERNEL_BASE → P (t, va / PAGE_SIZE) = None →
    arch_vm_lookup t va false x st = Ok (None, x, st);
  lookup_grow tabs P x st t va :
    pt_rep tabs P x st → wf st → t ∈ tabs → 0 ≤ va < VIRT_KERNEL_BASE → P (t, va / PAGE_SIZE) = None →
    match arch_vm_lookup t va true x st with
    | Panic w => w = "out of memory"%string
    | Ok (o, x', st') => ∃ p P' q, o = Some p ∧ P' (t, va / PAGE_SIZE) = Some p ∧ (∀ k p, P k = Some p → P' k = Some p) ∧ pt_rep tabs P' x' st' ∧ wf st' ∧
        (∀ k p', P' k = Some p' → pt_entry x' p' = match P k with Some _ => pt_entry x p' | None => None end) ∧
        (∀ r tag, ¬ live st q r tag) ∧ (∀ r tag, live st' q r tag → tag ≠ PAGE_TAG_ANON) ∧ frame_step st q st'
    end;
  pte_set_ok tabs P x st k p q flags :
    pt_rep tabs P x st → P k = Some p → 0 ≤ q < 2 ^ 20 → 0 ≤ flags < 128 →
    let x' := arch_vm_pte_set p (q * PAGE_SIZE) flags x in
    pt_rep tabs P x' st ∧ pt_entry x' p = Some (q * PAGE_SIZE, flags) ∧
    ∀ k' p', P k' = Some p' → p' ≠ p → pt_entry x' p' = pt_entry x p';
  pte_clear_ok tabs P x st k p :
    pt_rep tabs P x st → P k = Some p →
    let x' := arch_vm_pte_clear p x in
    pt_rep tabs P x' st ∧ pt_entry x' p = None ∧
    ∀ k' p', P k' = Some p' → p' ≠ p → pt_entry x' p' = pt_entry x p';
}.

(** Creation and destruction of tables. *)
Class ArchTables (T : Type) := {
  arch_create : T → pstate → outcome (Z * T * pstate);
  arch_destroy : Z → T → pstate → outcome pstate;
}.

Class ArchTablesLaws (T : Type) `{!ArchVm T, !ArchLaws T, !ArchTables T} := {
  create_ok tabs P x st :
    pt_rep tabs P x st → wf st →
    match arch_create x st with
    | Panic w => w = "out of memory"%string
    | Ok (t, x', st') => t ∉ tabs ∧ pt_rep ({[t]} ∪ tabs) P x' st' ∧ wf st' ∧
        (∀ k p, P k = Some p → pt_entry x' p = pt_entry x p) ∧
        (∀ q r, live st' q r PAGE_TAG_ANON ↔ live st q r PAGE_TAG_ANON)
    end;
  destroy_ok tabs P x st t :
    pt_rep tabs P x st → wf st → t ∈ tabs →
    match arch_destroy t x st with
    | Panic w => w = "pte still in use"%string ∧ ∃ v p, P (t, v) = Some p ∧ pt_entry x p ≠ None
    | Ok st' => (∀ v p, P (t, v) = Some p → pt_entry x p = None) ∧ wf st' ∧
        pt_rep (tabs ∖ {[t]}) (λ k, if decide (k.1 = t) then None else P k) x st' ∧
        (∀ q r, live st' q r PAGE_TAG_ANON ↔ live st q r PAGE_TAG_ANON)
    end;
}.

End VmArch.
