(* ===== verification/ObjectPool.v ===== *)
(** Object pools (kernel/mm/object_pool.c): the slab allocator of the kernel.

    A pool hands out blocks of one size.  A slab is a block of pages cut into
    objects; an array of tags links the free ones.  The descriptor of a slab is
    at the end of its pages or, for large objects, an object of an anonymous
    pool.  The page allocator is the one of PageAlloc.v.  Slabs, pools and
    objects are named by their kernel addresses; [page_slab] are the slab
    pointers of the page descriptors.  Constructors and destructors, which only
    touch the contents of objects, are left out. *)

From S2P Require Import Prelude Bitmap PageAlloc VmArch.
Import PageAlloc VmArch.
#[local] Open Scope Z_scope.

Module ObjectPool.

Definition PAGE_TAG_SLAB : Z := 0xABCD0002.
Definition EINVAL : Z := 22.
Definition EBUSY : Z := 16.
Definition ANON_POOLS_LENGTH : nat := 12.
Definition ANON_POOLS_MIN_SIZE : Z := 8.
Definition sizeof_ptr : Z := 4.
Definition sizeof_KObjectSlab : Z := 24.
Definition sizeof_KObjectTag : Z := 4.
Definition sizeof_KObjectPool : Z := 192.

Record KObjectPool := MkPool {
  off_slab : bool;
  slabs_empty : list Z;
  slabs_partial : list Z;
  slabs_full : list Z;
  slab_capacity : Z;
  slab_page_order : nat;
  block_size : Z;
  block_align : Z;
  obj_size : Z;
  color_max : Z;
  color_next : Z
}.

(** Tags are named by their index. *)
Record KObjectSlab := MkSlab {
  sl_pool : Z;
  sl_data : Z;
  sl_free : option Z;
  sl_used : Z;
  sl_tags : list (option Z)
}.

Record world := MkWorld {
  pg : pstate;
  page_slab : gmap Z Z;
  pools : gmap Z KObjectPool;
  slabs : gmap Z KObjectSlab;
  pool_list : list Z;
  anon_pools : list (option Z);
  held : gset Z
}.

Implicit Types (w : world) (P : KObjectPool) (sl : KObjectSlab) (a p obj size align : Z).

Definition set_pg st w := MkWorld st (page_slab w) (pools w) (slabs w) (pool_list w) (anon_pools w) (held w).
Definition set_page_slab m w := MkWorld (pg w) m (pools w) (slabs w) (pool_list w) (anon_pools w) (held w).
Definition set_pools m w := MkWorld (pg w) (page_slab w) m (slabs w) (pool_list w) (anon_pools w) (held w).
Definition set_slabs m w := MkWorld (pg w) (page_slab w) (pools w) m (pool_list w) (anon_pools w) (held w).
Definition set_pool_list l w := MkWorld (pg w) (page_slab w) (pools w) (slabs w) l (anon_pools w) (held w).
Definition set_anon l w := MkWorld (pg w) (page_slab w) (pools w) (slabs w) (pool_list w) l (held w).
Definition set_held h w := MkWorld (pg w) (page_slab w) (pools w) (slabs w) (pool_list w) (anon_pools w) h.

Definition set_pool p P w := set_pools (<[p := P]> (pools w)) w.
Definition set_slab a sl w := set_slabs (<[a := sl]> (slabs w)) w.

Definition pool_at p w : outcome KObjectPool := deref (pools w !! p) "bad pool".
Definition slab_at a w : outcome KObjectSlab := deref (slabs w !! a) "bad slab".

(** The lock of a pool is known by the pool; taking a lock twice panics. *)
Definition acquire p w : outcome world :=
  if decide (p ∈ held w) then Panic "spinlock already held" else Ok (set_held ({[p]} ∪ held w) w).
Definition release p w : outcome world :=
  if decide (p ∈ held w) then Ok (set_held (held w ∖ {[p]}) w) else Panic "spinlock not held".

Definition page2kva st (page : Z) : outcome Z := pa ← page2pa st page; Ok (u32 (pa + VIRT_KERNEL_BASE)).
Definition kva2page st (va : Z) : outcome Z := pa2page st (u32 (va - VIRT_KERNEL_BASE)).

(** *** Lists of slabs *)

Definition set_lists (e s f : list Z) P : KObjectPool :=
  MkPool (off_slab P) e s f (slab_capacity P) (slab_page_order P) (block_size P) (block_align P) (obj_size P) (color_max P) (color_next P).

(** [k_list_remove (&slab->link)] *)
Definition unlink a P : KObjectPool :=
  set_lists (filter (.≠ a) (slabs_empty P)) (filter (.≠ a) (slabs_partial P)) (filter (.≠ a) (slabs_full P)) P.

(** *** Initialisation *)

(** [n] orders are left. *)
Fixpoint geometry (n order : nat) (off : bool) (block : Z) : outcome (option (nat * Z * Z)) :=
  match n with
  | O => Ok None
  | S n =>
      let total := PAGE_SIZE * bsize order in
      let extra := if off then 0 else sizeof_KObjectSlab in
      let per := if off then 0 else sizeof_KObjectTag in
      if u32 (block + per) =? 0 then Panic "division by zero" else
      let cap := (total - extra) / u32 (block + per) in
      let wastage := total - cap * (block + per) - extra in
      if wastage * 8 <=? total then Ok (Some (order, cap, wastage)) else geometry n (S order) off block
  end.

Definition round_up (x n : Z) : Z := let y := u32 (x + (n - 1)) in y - y mod n.

Definition k_object_pool_init p size align w : outcome (Z * world) :=
  if size <? align then Ok (- EINVAL, w) else
  if negb (align =? 0) && negb (PAGE_SIZE mod align =? 0) then Ok (- EINVAL, w) else
  let align := if align =? 0 then sizeof_ptr else round_up align sizeof_ptr in
  let off := PAGE_SIZE / 8 <? size in
  let block := round_up size align in
  g ← geometry (PAGE_ORDER_MAX + 1) 0 off block;
  match g with
  | None => Ok (- EINVAL, w)
  | Some (order, cap, wastage) =>
      Ok (0, set_pool_list (pool_list w ++ [p]) (set_pool p (MkPool off [] [] [] cap order block align size wastage 0) w))
  end.

(** *** Slabs *)

Definition object_to_tag sl P obj : Z := u32 (obj - sl_data sl) / block_size P.
Definition tag_to_object sl P (tag : Z) : Z := sl_data sl + block_size P * tag.

Fixpoint mark_pages (n : nat) (page a : Z) (m : gmap Z Z) : gmap Z Z :=
  match n with O => m | S n => mark_pages n (page + 1) a (<[page := a]> m) end.

(** The loop over the objects of a new slab; [n] are left, the next is at [x]. *)
Fixpoint init_objects (n : nat) (x last : Z) P sl : outcome KObjectSlab :=
  match n with
  | O => Ok sl
  | S n =>
      let i := object_to_tag sl P x in
      _ ← k_assert (bool_decide (Z.to_nat i < length (sl_tags sl))%nat) "tag out of range";
      let sl := MkSlab (sl_pool sl) (sl_data sl) (Some i) (sl_used sl) (<[Z.to_nat i := sl_free sl]> (sl_tags sl)) in
      let x := x + block_size P in
      _ ← k_assert (x <=? last) "Assertion failed: (void *) p <= (void *) end";
      init_objects n x last P sl
  end.

Definition next_color P : Z := let c := color_next P + block_align P in if color_max P <? c then 0 else c.

(** The pool with a new slab on the list of full slabs and the next color. *)
Definition colored a P : KObjectPool :=
  MkPool (off_slab P) (slabs_empty P) (slabs_partial P) (slabs_full P ++ [a]) (slab_capacity P) (slab_page_order P)
    (block_size P) (block_align P) (obj_size P) (color_max P) (next_color P).

(** The end of [k_object_pool_slab_create], with the descriptor at [a]. *)
Definition finish_slab p (page data last a : Z) (order : nat) w : outcome (option Z * world) :=
  let w := set_page_slab (mark_pages (Z.to_nat (bsize order)) page a (page_slab w)) w in
  st ← page_inc_ref (pg w) page;
  let w := set_pg st w in
  P ← pool_at p w;
  let data := data + color_next P in
  sl ← init_objects (Z.to_nat (slab_capacity P)) data last P (MkSlab p data None 0 (replicate (Z.to_nat (slab_capacity P)) None));
  Ok (Some a, set_pool p (colored a P) (set_slab a sl w)).

(** [malloc] is [k_malloc]. *)
Definition k_object_pool_slab_create (malloc : Z → world → outcome (option Z * world)) p w : outcome (option Z * world) :=
  _ ← k_assert (bool_decide (p ∈ held w)) "Assertion failed: k_spinlock_holding(&pool->lock)";
  P ← pool_at p w;
  '(page, st) ← page_alloc_block (pg w) (slab_page_order P) 0 PAGE_TAG_SLAB;
  let w := set_pg st w in
  data ← page2kva st page;
  let last := data + PAGE_SIZE * bsize (slab_page_order P) in
  let extra_size := sizeof_KObjectSlab + slab_capacity P * sizeof_KObjectTag in
  '(o, last, w) ← (if off_slab P then '(o, w) ← malloc extra_size w; Ok (o, last, w)
    else Ok (Some (last - extra_size), last - extra_size, w));
  match o with
  | None => st ← page_free_block (pg w) page (slab_page_order P); Ok (None, set_pg st w)
  | Some a =>
      finish_slab p page data last a (slab_page_order P) w
  end.

Definition k_object_pool_slab_get a w : outcome (Z * world) :=
  sl ← slab_at a w;
  P ← pool_at (sl_pool sl) w;
  page ← kva2page (pg w) (sl_data sl);
  _ ← page_assert (pg w) page (slab_page_order P) PAGE_TAG_SLAB;
  _ ← k_assert (sl_used sl <? slab_capacity P) "Assertion failed: slab->used_count < pool->slab_capacity";
  tag ← deref (sl_free sl) "Assertion failed: slab->free != NULL";
  next ← deref (sl_tags sl !! Z.to_nat tag) "tag out of range";
  let sl := MkSlab (sl_pool sl) (sl_data sl) next (sl_used sl + 1) (sl_tags sl) in
  let w := set_slab a sl w in
  if sl_used sl =? slab_capacity P then
    _ ← k_assert (bool_decide (sl_free sl = None)) "Assertion failed: slab->free == NULL";
    let U := unlink a P in
    Ok (tag_to_object sl P tag, set_pool (sl_pool sl) (set_lists (slabs_empty U ++ [a]) (slabs_partial U) (slabs_full U) U) w)
  else Ok (tag_to_object sl P tag, w).

Definition k_object_pool_slab_put a obj w : outcome world :=
  sl ← slab_at a w;
  P ← pool_at (sl_pool sl) w;
  _ ← k_assert (0 <? sl_used sl) "Assertion failed: slab->used_count > 0";
  page ← kva2page (pg w) (sl_data sl);
  _ ← page_assert (pg w) page (slab_page_order P) PAGE_TAG_SLAB;
  let tag := object_to_tag sl P obj in
  _ ← k_assert (bool_decide (Z.to_nat tag < length (sl_tags sl))%nat) "tag out of range";
  let sl := MkSlab (sl_pool sl) (sl_data sl) (Some tag) (sl_used sl - 1) (<[Z.to_nat tag := sl_free sl]> (sl_tags sl)) in
  let w := set_slab a sl w in
  let U := unlink a P in
  Ok (if sl_used sl =? 0 then
    set_pool (sl_pool sl) (set_lists (slabs_empty U) (slabs_partial U) (a :: slabs_full U) U) w
  else if sl_used sl =? slab_capacity P - 1 then
    set_pool (sl_pool sl) (set_lists (slabs_empty U) (a :: slabs_partial U) (slabs_full U) U) w
  else w).

(** *** Pools *)

(** The first anonymous pool that is large enough; [n] are left. *)
Fixpoint malloc_index (n i : nat) size : option nat :=
  match n with
  | O => None
  | S n => if size <=? Z.shiftl ANON_POOLS_MIN_SIZE (Z.of_nat i) then Some i else malloc_index n (S i) size
  end.

Definition malloc_with (get : Z → world → outcome (Z * world)) size w : outcome (option Z * world) :=
  match malloc_index ANON_POOLS_LENGTH 0 size with
  | None => Ok (None, w)
  | Some i =>
      o ← deref (anon_pools w !! i) "bad index";
      p ← deref o "null pool";
      '(obj, w) ← get p w;
      Ok (Some obj, w)
  end.

(** The slab to take an object from, put on the list of partial slabs. *)
Definition select_slab (malloc : Z → world → outcome (option Z * world)) p w : outcome (Z * world) :=
  P ← pool_at p w;
  match slabs_partial P with
  | a :: _ => Ok (a, w)
  | [] =>
      '(o, w) ← match slabs_full P with
        | a :: _ => Ok (Some a, w)
        | [] => k_object_pool_slab_create malloc p w
        end;
      match o with
      | None => Panic "out of memory"
      | Some a =>
          P ← pool_at p w;
          let U := unlink a P in
          Ok (a, set_pool p (set_lists (slabs_empty U) (slabs_partial U ++ [a]) (slabs_full U) U) w)
      end
  end.

(** A pool of large objects takes the descriptor of a slab from a pool of small
    ones, which keeps its own in the slab. *)
Fixpoint pool_get (fuel : nat) p w : outcome (Z * world) :=
  match fuel with
  | O => Panic "out of fuel"
  | S fuel =>
      w ← acquire p w;
      '(a, w) ← select_slab (malloc_with (pool_get fuel)) p w;
      '(obj, w) ← k_object_pool_slab_get a w;
      w ← release p w;
      Ok (obj, w)
  end.

Definition k_object_pool_get p w : outcome (Z * world) := pool_get 2 p w.

Definition k_malloc size w : outcome (option Z * world) := malloc_with k_object_pool_get size w.

Definition k_object_pool_put p obj w : outcome world :=
  w ← acquire p w;
  P ← pool_at p w;
  let bytes := PAGE_SIZE * bsize (slab_page_order P) in
  page ← kva2page (pg w) (obj - obj mod bytes);
  _ ← page_assert (pg w) page (slab_page_order P) PAGE_TAG_SLAB;
  a ← deref (page_slab w !! page) "null slab";
  w ← k_object_pool_slab_put a obj w;
  release p w.

Definition k_free obj w : outcome world :=
  page ← kva2page (pg w) obj;
  a ← deref (page_slab w !! page) "bad pointer";
  sl ← slab_at a w;
  k_object_pool_put (sl_pool sl) obj w.

(** The pages of a slab lose their slab pointers; [n] are left. *)
Fixpoint unmark_pages (n : nat) (page a : Z) (m : gmap Z Z) : outcome (gmap Z Z) :=
  match n with
  | O => Ok m
  | S n =>
      if bool_decide (m !! page = Some a) then unmark_pages n (page + 1) a (delete page m)
      else Panic "trying to free a page that doesn't belong to slab"
  end.

Definition k_object_pool_slab_destroy a w : outcome world :=
  sl ← slab_at a w;
  P ← pool_at (sl_pool sl) w;
  _ ← k_assert (bool_decide (sl_pool sl ∈ held w)) "Assertion failed: k_spinlock_holding(&slab->pool->lock)";
  _ ← k_assert (sl_used sl =? 0) "Assertion failed: slab->used_count == 0";
  page ← kva2page (pg w) (sl_data sl);
  _ ← page_assert (pg w) page (slab_page_order P) PAGE_TAG_SLAB;
  m ← unmark_pages (Z.to_nat (bsize (slab_page_order P))) page a (page_slab w);
  let w := set_slabs (delete a (slabs w)) (set_page_slab m w) in
  w ← (if off_slab P then k_free a w else Ok w);
  st ← add_ref (-1) (pg w) page;
  st ← page_free_block st page (slab_page_order P);
  Ok (set_pg st w).

(** The loop over the full slabs; [n] are left. *)
Fixpoint destroy_slabs (n : nat) p w : outcome world :=
  match n with
  | O => Ok w
  | S n =>
      P ← pool_at p w;
      match slabs_full P with
      | [] => Ok w
      | a :: _ => w ← k_object_pool_slab_destroy a (set_pool p (unlink a P) w); destroy_slabs n p w
      end
  end.

Definition k_object_pool_create (pool_of_pools : Z) size align w : outcome (option Z * world) :=
  '(p, w) ← k_object_pool_get pool_of_pools w;
  '(r, w) ← k_object_pool_init p size align w;
  if r <? 0 then w ← k_object_pool_put pool_of_pools p w; Ok (None, w) else Ok (Some p, w).

Definition k_object_pool_destroy (pool_of_pools : Z) p w : outcome (Z * world) :=
  if p =? pool_of_pools then Panic "trying to destroy the pool of pools" else
  w ← acquire p w;
  P ← pool_at p w;
  if negb (bool_decide (slabs_empty P = [])) || negb (bool_decide (slabs_partial P = [])) then
    w ← release p w; Ok (- EBUSY, w)
  else
  w ← destroy_slabs (length (slabs_full P)) p w;
  w ← release p w;
  let w := set_pools (delete p (pools w)) (set_pool_list (filter (.≠ p) (pool_list w)) w) in
  w ← k_object_pool_put pool_of_pools p w;
  Ok (0, w).

(** [n] anonymous pools are left, the next is [i]. *)
Fixpoint init_anon (n i : nat) (pool_of_pools : Z) w : outcome world :=
  match n with
  | O => Ok w
  | S n =>
      '(o, w) ← k_object_pool_create pool_of_pools (Z.shiftl ANON_POOLS_MIN_SIZE (Z.of_nat i)) 0 w;
      match o with
      | None => Panic "cannot initialize anon"
      | Some p => init_anon n (S i) pool_of_pools (set_anon (<[i := Some p]> (anon_pools w)) w)
      end
  end.

(** [pool_of_pools] is static; the pools of [k_malloc] are null before. *)
Definition k_object_pool_system_init (pool_of_pools : Z) (st : pstate) : outcome world :=
  '(r, w) ← k_object_pool_init pool_of_pools sizeof_KObjectPool 0 (MkWorld st ∅ ∅ ∅ [] (replicate ANON_POOLS_LENGTH None) ∅);
  if r <? 0 then Panic "cannot initialize pool_of_pools" else init_anon ANON_POOLS_LENGTH 0 pool_of_pools w.

(** ** Geometry *)

Definition total_of (o : nat) : Z := PAGE_SIZE * bsize o.
Definition extra_of (off : bool) : Z := if off then 0 else sizeof_KObjectSlab.
Definition per_of (off : bool) : Z := if off then 0 else sizeof_KObjectTag.

Lemma total_bounds o : (o ≤ PAGE_ORDER_MAX)%nat → 4096 ≤ total_of o ≤ 4194304.
Proof.
  intros Ho. unfold total_of, PAGE_SIZE, bsize, PAGE_ORDER_MAX in *.
  assert (2 ^ 0 ≤ 2 ^ Z.of_nat o ≤ 2 ^ 10) as Hb by (split; apply Z.pow_le_mono_r; lia). change (2 ^ 0) with 1 in Hb. change (2 ^ 10) with 1024 in Hb. lia.
Qed.

Lemma total_S o : total_of (S o) = 2 * total_of o.
Proof. unfold total_of, bsize. rewrite Nat2Z.inj_succ, Z.pow_succ_r by lia. lia. Qed.

(** The objects, their tags and the descriptor fill the slab but for [wst]. *)
Record fits (off : bool) (block : Z) (o : nat) (cap wst : Z) : Prop := {
  f_cap : 1 ≤ cap;
  f_total : cap * (block + per_of off) + extra_of off + wst = total_of o;
  f_waste : 0 ≤ wst < block + per_of off;
  f_eighth : wst * 8 ≤ total_of o
}.

Lemma geometry_some n o off block : (o + n ≤ S PAGE_ORDER_MAX)%nat → 0 < block < 2 ^ 32 - 4 →
  match geometry n o off block with
  | Ok (Some (o', cap, wst)) => (o ≤ o' < o + n)%nat ∧ fits off block o' cap wst ∧
      ∀ i, (o ≤ i < o')%nat → total_of i < 8 * (block + per_of off)
  | Ok None => ∀ i, (o ≤ i < o + n)%nat → total_of i < 8 * (block + per_of off)
  | Panic _ => False
  end.
Proof.
  revert o. induction n as [|n IH]; intros o Hn Hb; cbn [geometry]; [intros i Hi; lia|].
  pose proof (total_bounds o ltac:(lia)) as Ht. fold (total_of o). fold (extra_of off) (per_of off).
  assert (Hp : 0 ≤ per_of off ≤ 4 ∧ 0 ≤ extra_of off ≤ 24) by (by destruct off). rewrite u32_small by lia.
  rewrite (proj2 (Z.eqb_neq _ 0)) by lia. cbn zeta. set (t := total_of o) in *. set (b := block + per_of off) in *.
  pose proof (Z.div_mod (t - extra_of off) b ltac:(lia)) as Hdm. pose proof (Z.mod_pos_bound (t - extra_of off) b ltac:(lia)) as Hm.
  set (c := (t - extra_of off) / b) in *. set (m := (t - extra_of off) mod b) in *.
  destruct (Z.leb_spec ((t - c * b - extra_of off) * 8) t) as [Hle|Hgt].
  - split; [lia|]. split; [|intros i Hi; lia]. assert (0 ≤ c) by (apply Z.div_pos; lia). split; fold b t; try lia.
    destruct (decide (c = 0)) as [E|]; [rewrite E in *|]; lia.
  - specialize (IH (S o) ltac:(lia) Hb). destruct (geometry n (S o) off block) as [[[[o' cap] wst]|]|]; [..|done].
    + destruct IH as (Ho & Hf & Hi). split; [lia|]. split; [done|]. intros i Hi'. destruct (decide (i = o)) as [->|]; [fold t b; lia|apply Hi; lia].
    + intros i Hi'. destruct (decide (i = o)) as [->|]; [fold t b; lia|apply IH; lia].
Qed.

Lemma round_up_ok x n : 0 < n → 0 ≤ x → x + n ≤ 2 ^ 32 → round_up x n mod n = 0 ∧ x ≤ round_up x n < x + n.
Proof.
  intros Hn Hx Hb. unfold round_up. rewrite u32_small by lia. split.
  - rewrite Zminus_mod_idemp_r, Z.sub_diag. apply Z.mod_0_l. lia.
  - pose proof (Z.mod_pos_bound (x + (n - 1)) n Hn). lia.
Qed.

(** The layout of a pool. *)
Record pool_geometry P : Prop := {
  pg_fits : fits (off_slab P) (block_size P) (slab_page_order P) (slab_capacity P) (color_max P);
  pg_order : (slab_page_order P ≤ PAGE_ORDER_MAX)%nat;
  pg_align : 0 < block_align P ∧ PAGE_SIZE mod block_align P = 0 ∧ block_size P mod block_align P = 0;
  pg_obj : 0 < obj_size P ≤ block_size P;
  pg_color : 0 ≤ color_next P ≤ color_max P ∧ color_next P mod block_align P = 0;
  pg_page : color_max P < PAGE_SIZE;
  pg_desc : off_slab P = true → sizeof_KObjectSlab + slab_capacity P * sizeof_KObjectTag ≤ 128
}.

Lemma cap_pos P : pool_geometry P → 1 ≤ slab_capacity P.
Proof. intros G. apply (f_cap _ _ _ _ _ (pg_fits _ G)). Qed.

Lemma desc_small block o cap wst :
  512 < block → fits true block o cap wst → (o ≤ PAGE_ORDER_MAX)%nat → (∀ i, (0 ≤ i < o)%nat → total_of i < 8 * block) → cap ≤ 15.
Proof.
  intros Hb [_ Ht Hw _] Ho Hi. unfold per_of, extra_of in *. destruct o as [|o].
  - unfold total_of, PAGE_SIZE, bsize in Ht. simpl in Ht. nia.
  - specialize (Hi o ltac:(lia)). rewrite total_S in Ht. nia.
Qed.

(** The alignment that is used for a requested one. *)
Definition align_of align : Z := if align =? 0 then sizeof_ptr else round_up align sizeof_ptr.
Definition init_refused size align : bool := (size <? align) || negb (align =? 0) && negb (PAGE_SIZE mod align =? 0).

Lemma align_divides align : 0 < align ≤ PAGE_SIZE → PAGE_SIZE mod align = 0 → PAGE_SIZE mod round_up align sizeof_ptr = 0.
Proof.
  assert (H : forallb (λ a, implb (PAGE_SIZE mod a =? 0) (PAGE_SIZE mod round_up a sizeof_ptr =? 0)) (seqZ 1 PAGE_SIZE) = true) by (vm_compute; reflexivity).
  rewrite forallb_forall in H. intros Ha Hm. specialize (H align ltac:(apply list_elem_of_In, elem_of_seqZ; lia)). rewrite Hm in H. by apply Z.eqb_eq.
Qed.

Lemma align_ok size align : 0 < size ≤ PAGE_SIZE → 0 ≤ align → init_refused size align = false →
  0 < align_of align ∧ PAGE_SIZE mod align_of align = 0 ∧ align_of align ≤ Z.max 4 (size + 3).
Proof.
  intros Hs Ha Hr. unfold init_refused in Hr. apply orb_false_iff in Hr as [Hlt Hm]. apply Z.ltb_ge in Hlt. unfold align_of, sizeof_ptr.
  destruct (Z.eqb_spec align 0) as [->|Hne]; [split_and!; [lia|done|lia]|]. simpl in Hm. apply negb_false_iff, Z.eqb_eq in Hm.
  destruct (round_up_ok align 4) as [? ?]; [lia|lia|unfold PAGE_SIZE in *; lia|]. split; [lia|]. split; [|lia]. apply align_divides; [lia|done].
Qed.

Lemma block_fits size al : 0 < size ≤ PAGE_SIZE → 0 < al → PAGE_SIZE mod al = 0 → al ≤ Z.max 4 (size + 3) →
  round_up size al mod al = 0 ∧ size ≤ round_up size al ≤ PAGE_SIZE ∧ round_up size al ≤ 2 * size + 3.
Proof.
  intros Hs Ha Hm Hmax. destruct (round_up_ok size al) as [Hb Hr]; [lia|lia|unfold PAGE_SIZE in *; lia|]. split; [done|].
  assert (round_up size al ≤ PAGE_SIZE); [|lia]. apply Znot_gt_le. intros Hgt.
  apply Z.mod_divide in Hb as [k Hk]; [|lia]. apply Z.mod_divide in Hm as [j Hj]; [|lia].
  assert (j < k) by (apply (Z.mul_lt_mono_pos_r al); lia). pose proof (Z.mul_le_mono_nonneg_r (j + 1) k al). lia.
Qed.

Lemma pool_init_ok p size align w :
  0 < size ≤ PAGE_SIZE → 0 ≤ align →
  if init_refused size align then k_object_pool_init p size align w = Ok (- EINVAL, w)
  else ∃ P, k_object_pool_init p size align w = Ok (0, set_pool_list (pool_list w ++ [p]) (set_pool p P w)) ∧ pool_geometry P ∧
    obj_size P = size ∧ block_align P = align_of align ∧ off_slab P = (PAGE_SIZE / 8 <? size) ∧ slabs_empty P = [] ∧ slabs_partial P = [] ∧ slabs_full P = [].
Proof.
  intros Hs Ha. destruct (init_refused size align) eqn:Hr; unfold k_object_pool_init.
  { unfold init_refused in Hr. destruct (size <? align); [done|]. simpl in Hr. by rewrite Hr. }
  destruct (align_ok size align Hs Ha Hr) as (Hal & Hdiv & Hmax). unfold init_refused in Hr. apply orb_false_iff in Hr as [-> ->].
  fold (align_of align). set (al := align_of align) in *. set (off := PAGE_SIZE / 8 <? size).
  destruct (block_fits size al Hs Hal Hdiv Hmax) as (Hbm & Hb1 & Hb2). set (b := round_up size al) in *.
  pose proof (geometry_some (PAGE_ORDER_MAX + 1) 0 off b) as Hg. specialize (Hg ltac:(unfold PAGE_ORDER_MAX; lia) ltac:(unfold PAGE_SIZE in *; lia)).
  assert (Hper : 0 ≤ per_of off ≤ 4) by (by destruct off).
  destruct (geometry _ _ _ _) as [[[[o cap] wst]|]|]; [| |done].
  2:{ exfalso. specialize (Hg 10%nat ltac:(unfold PAGE_ORDER_MAX; lia)). unfold total_of, PAGE_SIZE in *. change (bsize 10) with 1024 in Hg. lia. }
  destruct Hg as (Ho & Hf & Hi). simpl. eexists. split; [done|]. unfold off in *. clear off. cbn [off_slab obj_size block_align slabs_empty slabs_partial slabs_full].
  change (PAGE_SIZE / 8) with 512 in *. split; [|done]. split; cbn; try done.
  - unfold PAGE_ORDER_MAX in *. lia.
  - lia.
  - destruct Hf. split; [lia|]. apply Z.mod_0_l. lia.
  - destruct Hf as [_ _ Hw _]. destruct (Z.ltb_spec 512 size); unfold per_of, sizeof_KObjectTag, PAGE_SIZE in *; lia.
  - intros Hoff. rewrite Hoff in *. apply Z.ltb_lt in Hoff. unfold sizeof_KObjectSlab, sizeof_KObjectTag.
    pose proof (desc_small b o cap wst ltac:(lia) Hf ltac:(unfold PAGE_ORDER_MAX in *; lia)) as Hc. unfold per_of in Hi.
    enough (cap ≤ 15) by lia. apply Hc. intros i Hi'. specialize (Hi i Hi'). lia.
Qed.

(** ** Free lists *)

(** The tags linked from [f] are those of [l], in order. *)
Fixpoint chain (tags : list (option Z)) (f : option Z) (l : list Z) : Prop :=
  match l with
  | [] => f = None
  | j :: l => f = Some j ∧ ∃ g, tags !! Z.to_nat j = Some g ∧ chain tags g l
  end.

Fixpoint walk (n : nat) (tags : list (option Z)) (f : option Z) : list Z :=
  match n, f with
  | S n, Some j => j :: walk n tags (default None (tags !! Z.to_nat j))
  | _, _ => []
  end.
Definition free_of sl : list Z := walk (length (sl_tags sl)) (sl_tags sl) (sl_free sl).

Lemma chain_walk n tags f l : chain tags f l → (length l ≤ n)%nat → walk n tags f = l.
Proof.
  revert n f. induction l as [|j l IH]; intros n f; simpl.
  - intros ->. by destruct n.
  - intros (-> & g & Hg & Hc) Hn. destruct n as [|n]; [lia|]. simpl. rewrite Hg. simpl. f_equal. apply IH; [done|lia].
Qed.

Lemma chain_insert tags f l j g : chain tags f l → Forall (λ i, 0 ≤ i) l → 0 ≤ j → j ∉ l → chain (<[Z.to_nat j := g]> tags) f l.
Proof.
  revert f. induction l as [|i l IH]; intros f; simpl; [done|]. intros (-> & h & Hh & Hc) Hf Hj Hni.
  apply Forall_cons in Hf as [Hi Hf]. apply not_elem_of_cons in Hni as [Hne Hni]. split; [done|]. exists h. split; [|by apply IH].
  rewrite list_lookup_insert_ne by lia. done.
Qed.

(** A free list of a slab of [cap] objects. *)
Record chain_ok sl (cap : Z) (l : list Z) : Prop := {
  ch_tags : Z.of_nat (length (sl_tags sl)) = cap;
  ch_chain : chain (sl_tags sl) (sl_free sl) l;
  ch_nodup : NoDup l;
  ch_range : Forall (λ j, 0 ≤ j < cap) l;
  ch_used : sl_used sl = cap - Z.of_nat (length l)
}.

Lemma nodup_range_length (l : list Z) (n : Z) : NoDup l → Forall (λ j, 0 ≤ j < n) l → Z.of_nat (length l) ≤ Z.max 0 n.
Proof.
  intros Hnd Hr. assert (H : l ⊆+ seqZ 0 n).
  { apply NoDup_submseteq; [done|]. intros j Hj. rewrite Forall_forall in Hr. apply elem_of_seqZ. specialize (Hr j Hj). lia. }
  apply submseteq_length in H. rewrite length_seqZ in H. lia.
Qed.

Lemma chain_free_of sl cap l : chain_ok sl cap l → free_of sl = l.
Proof.
  intros [Ht Hc Hnd Hr _]. apply chain_walk; [done|]. pose proof (nodup_range_length l cap Hnd Hr). lia.
Qed.

Lemma range_nonneg (l : list Z) (n : Z) : Forall (λ j, 0 ≤ j < n) l → Forall (λ j, 0 ≤ j) l.
Proof. intros H. eapply Forall_impl; [exact H|]. simpl. lia. Qed.

(** Taking the first free object and giving one back. *)
Lemma chain_pop sl cap j l g :
  chain_ok sl cap (j :: l) → sl_tags sl !! Z.to_nat j = Some g →
  chain_ok (MkSlab (sl_pool sl) (sl_data sl) g (sl_used sl + 1) (sl_tags sl)) cap l.
Proof.
  intros [Ht (E & h & Hh & Hc) Hnd Hr Hu] Hg. rewrite Hg in Hh. injection Hh as <-. apply NoDup_cons in Hnd as [_ Hnd]. apply Forall_cons in Hr as [_ Hr].
  split; simpl; try done. simpl in Hu. lia.
Qed.

Lemma chain_push sl cap j l :
  chain_ok sl cap l → 0 ≤ j < cap → j ∉ l →
  chain_ok (MkSlab (sl_pool sl) (sl_data sl) (Some j) (sl_used sl - 1) (<[Z.to_nat j := sl_free sl]> (sl_tags sl))) cap (j :: l).
Proof.
  intros [Ht Hc Hnd Hr Hu] Hj Hni. split; simpl.
  - by rewrite length_insert.
  - split; [done|]. exists (sl_free sl). split; [apply list_lookup_insert_eq; lia|]. apply chain_insert; [done|by eapply range_nonneg|lia|done].
  - by apply NoDup_cons.
  - by apply Forall_cons.
  - lia.
Qed.

(** The loop over a new slab, [k] objects after the first. *)
Lemma init_objects_ok n k last P sl l :
  let cap := slab_capacity P in
  0 < block_size P → Z.of_nat n + k = cap → 0 ≤ k → sl_data sl + cap * block_size P ≤ last → 0 ≤ sl_data sl → last ≤ 2 ^ 32 →
  Z.of_nat (length (sl_tags sl)) = cap → chain (sl_tags sl) (sl_free sl) l → NoDup l → Forall (λ j, 0 ≤ j < k) l →
  ∃ sl' l', init_objects n (sl_data sl + block_size P * k) last P sl = Ok sl' ∧ sl_pool sl' = sl_pool sl ∧ sl_data sl' = sl_data sl ∧ sl_used sl' = sl_used sl ∧
    Z.of_nat (length (sl_tags sl')) = cap ∧ chain (sl_tags sl') (sl_free sl') l' ∧ NoDup l' ∧ Forall (λ j, 0 ≤ j < cap) l' ∧ length l' = (n + length l)%nat.
Proof.
  cbv zeta. revert k sl l. induction n as [|n IH]; intros k sl l Hb Hn Hk Hlast Hd0 Hl32 Ht Hc Hnd Hr; cbn [init_objects].
  { exists sl, l. split_and!; try done. eapply Forall_impl; [exact Hr|]. simpl. lia. }
  assert (Hi : object_to_tag sl P (sl_data sl + block_size P * k) = k).
  { unfold object_to_tag. rewrite u32_small by nia. replace (sl_data sl + block_size P * k - sl_data sl) with (k * block_size P) by lia. apply Z.div_mul. lia. }
  rewrite Hi, bool_decide_true by lia. cbn [k_assert mbind outcome_bind]. rewrite (proj2 (Z.leb_le _ _)) by nia. cbn [k_assert mbind outcome_bind].
  replace (sl_data sl + block_size P * k + block_size P) with (sl_data sl + block_size P * (k + 1)) by lia.
  assert (Hni : k ∉ l) by (intros Hin; rewrite Forall_forall in Hr; specialize (Hr k Hin); lia).
  edestruct (IH (k + 1) (MkSlab (sl_pool sl) (sl_data sl) (Some k) (sl_used sl) (<[Z.to_nat k := sl_free sl]> (sl_tags sl))) (k :: l))
    as (sl' & l' & E & H1 & H2 & H3 & H4 & H5 & H6 & H7 & H8); simpl in *; try done; try lia.
  - by rewrite length_insert.
  - split; [done|]. exists (sl_free sl). split; [apply list_lookup_insert_eq; lia|]. apply chain_insert; [done|by eapply range_nonneg|lia|done].
  - by apply NoDup_cons.
  - apply Forall_cons. split; [lia|]. eapply Forall_impl; [exact Hr|]. simpl. lia.
  - exists sl', l'. rewrite E. split_and!; try done. lia.
Qed.

(** ** Pages of slabs *)

Definition kva (q : Z) : Z := VIRT_KERNEL_BASE + q * PAGE_SIZE.

(** All pages have kernel addresses. *)
Definition pages_mapped st : Prop := page_count st ≤ 65536.

Lemma page2kva_ok st q : pages_mapped st → 0 ≤ q < page_count st → page2kva st q = Ok (kva q).
Proof.
  intros Hm Hq. unfold page2kva, pages_mapped in *. rewrite page2pa_ok by done. cbn [mbind outcome_bind].
  unfold kva. rewrite u32_small by (unfold PAGE_SIZE, VIRT_KERNEL_BASE; lia). f_equal. lia.
Qed.

Lemma kva2page_ok st q x : pages_mapped st → 0 ≤ q < page_count st → kva q ≤ x < kva q + PAGE_SIZE → kva2page st x = Ok q.
Proof.
  intros Hm Hq Hx. unfold kva2page, pages_mapped, kva in *. rewrite u32_small by (unfold PAGE_SIZE, VIRT_KERNEL_BASE in *; lia).
  unfold pa2page, PAGE_SHIFT. rewrite Z.shiftr_div_pow2 by lia. change (2 ^ 12) with PAGE_SIZE.
  replace ((x - VIRT_KERNEL_BASE) / PAGE_SIZE) with q; [by rewrite (proj2 (Z.leb_gt _ _)) by lia|].
  apply (Z.div_unique_pos _ _ _ (x - kva q)); unfold kva; lia.
Qed.

(** The block of pages at [q] is allocated and belongs to slab [a]. *)
Record block_ok st (ps : gmap Z Z) a (q : Z) (o : nat) : Prop := {
  bk_align : q mod bsize o = 0;
  bk_first : live st q 1 PAGE_TAG_SLAB;
  bk_rest : ∀ i, q < i < q + bsize o → live st i 0 PAGE_TAG_SLAB;
  bk_slab : ∀ i, ps !! i = Some a ↔ q ≤ i < q + bsize o
}.

Lemma block_page st ps a q o i : block_ok st ps a q o → q ≤ i < q + bsize o → ∃ k, live st i k PAGE_TAG_SLAB.
Proof. intros [_ H1 H2 _] Hi. destruct (decide (i = q)) as [->|]; [by exists 1|]. exists 0. apply H2. lia. Qed.

Lemma slab_tags_are_ok n p tag m :
  (∀ i, p ≤ i < p + Z.of_nat n → ∃ k, m !! i = Some (MkPage k tag)) → tags_are n p tag m = Ok tt.
Proof.
  revert p. induction n as [|n IH]; intros p H; [done|]. cbn [tags_are]. destruct (H p ltac:(lia)) as [k ->]. simpl. rewrite Z.eqb_refl. apply IH.
  intros i Hi. apply H. lia.
Qed.

Lemma block_assert st ps a q o : block_ok st ps a q o → page_assert st q o PAGE_TAG_SLAB = Ok tt.
Proof.
  intros B. unfold page_assert. pose proof (bsize_pos o). rewrite slab_tags_are_ok.
  - simpl. destruct (bk_first _ _ _ _ _ B) as (_ & -> & _). done.
  - intros i Hi. destruct (block_page _ _ _ _ _ i B) as (k & _ & Hk & _); [lia|]. by exists k.
Qed.

Lemma mark_pages_ok n q a m i : mark_pages n q a m !! i = if decide (q ≤ i < q + Z.of_nat n) then Some a else m !! i.
Proof.
  revert q m. induction n as [|n IH]; intros q m; cbn [mark_pages]; [by rewrite decide_False by lia|]. rewrite IH, lookup_insert.
  repeat case_decide; try done; lia.
Qed.

Lemma unmark_pages_ok n q a m : (∀ i, q ≤ i < q + Z.of_nat n → m !! i = Some a) →
  ∃ m', unmark_pages n q a m = Ok m' ∧ ∀ i, m' !! i = if decide (q ≤ i < q + Z.of_nat n) then None else m !! i.
Proof.
  revert q m. induction n as [|n IH]; intros q m H; cbn [unmark_pages].
  - exists m. split; [done|]. intros i. by rewrite decide_False by lia.
  - rewrite bool_decide_true by (apply H; lia). destruct (IH (q + 1) (delete q m)) as (m' & E & Hm).
    { intros i Hi. rewrite lookup_delete_ne by lia. apply H. lia. }
    exists m'. split; [done|]. intros i. rewrite Hm. destruct (decide (i = q)) as [->|].
    + rewrite lookup_delete_eq. repeat case_decide; try done; lia.
    + rewrite lookup_delete_ne by lia. repeat case_decide; try done; lia.
Qed.

(** ** Slabs *)

(** The size of the descriptor of a slab with its tags. *)
Definition desc_size P : Z := sizeof_KObjectSlab + slab_capacity P * sizeof_KObjectTag.

Record slab_ok st ps a sl P (q c : Z) : Prop := {
  so_block : block_ok st ps a q (slab_page_order P);
  so_data : sl_data sl = kva q + c;
  so_color : 0 ≤ c ≤ color_max P ∧ c mod block_align P = 0;
  so_place : off_slab P = false → a = kva q + total_of (slab_page_order P) - desc_size P;
  so_chain : chain_ok sl (slab_capacity P) (free_of sl)
}.

(** The lists have the slabs of pool [p], by the number of objects in use. *)
Record lists_ok (m : gmap Z KObjectSlab) p P : Prop := {
  lo_nodup : NoDup (slabs_empty P) ∧ NoDup (slabs_partial P) ∧ NoDup (slabs_full P);
  lo_empty : ∀ a, a ∈ slabs_empty P ↔ ∃ sl, m !! a = Some sl ∧ sl_pool sl = p ∧ sl_used sl = slab_capacity P;
  lo_partial : ∀ a, a ∈ slabs_partial P ↔ ∃ sl, m !! a = Some sl ∧ sl_pool sl = p ∧ 0 < sl_used sl < slab_capacity P;
  lo_full : ∀ a, a ∈ slabs_full P ↔ ∃ sl, m !! a = Some sl ∧ sl_pool sl = p ∧ sl_used sl = 0
}.

(** Object [i] of slab [a] is [obj], of pool [p], and in use. *)
Definition used_at (pm : gmap Z KObjectPool) (m : gmap Z KObjectSlab) a (i : Z) p obj : Prop :=
  ∃ sl P, m !! a = Some sl ∧ sl_pool sl = p ∧ pm !! p = Some P ∧ 0 ≤ i < slab_capacity P ∧ i ∉ free_of sl ∧ obj = sl_data sl + block_size P * i.

Definition in_use w p obj : Prop := ∃ a i, used_at (pools w) (slabs w) a i p obj.

(** [a] is the descriptor of a slab that is an object itself. *)
Definition is_desc w a : Prop := ∃ sl P, slabs w !! a = Some sl ∧ pools w !! sl_pool sl = Some P ∧ off_slab P = true.

Record wf w : Prop := {
  w_pg : PageAlloc.wf (pg w);
  w_mapped : pages_mapped (pg w);
  w_pool : ∀ p P, pools w !! p = Some P → pool_geometry P;
  w_lists : ∀ p P, pools w !! p = Some P → lists_ok (slabs w) p P;
  w_slab : ∀ a sl, slabs w !! a = Some sl → ∃ P q c, pools w !! sl_pool sl = Some P ∧ slab_ok (pg w) (page_slab w) a sl P q c;
  w_page : ∀ i a, page_slab w !! i = Some a → is_Some (slabs w !! a);
  w_desc : ∀ a sl P, slabs w !! a = Some sl → pools w !! sl_pool sl = Some P → off_slab P = true →
    ∃ p Q, pools w !! p = Some Q ∧ off_slab Q = false ∧ desc_size P ≤ obj_size Q ∧ in_use w p a;
  w_anon : ∀ i p, anon_pools w !! i = Some (Some p) →
    ∃ P, pools w !! p = Some P ∧ obj_size P = Z.shiftl ANON_POOLS_MIN_SIZE (Z.of_nat i) ∧ off_slab P = (PAGE_SIZE / 8 <? obj_size P);
  w_small : ∀ p P, pools w !! p = Some P → off_slab P = true → ∀ i, (i < 5)%nat → ∃ p', anon_pools w !! i = Some (Some p')
}.

(** What the clients of the pools have. *)
Definition client w p obj : Prop := in_use w p obj ∧ ¬ is_desc w obj.

(** ** Objects in their slabs *)

Lemma slab_room st ps a sl P q c i :
  pool_geometry P → slab_ok st ps a sl P q c → 0 ≤ i < slab_capacity P →
  0 ≤ c + block_size P * i ∧ c + block_size P * i + block_size P ≤ total_of (slab_page_order P) - (if off_slab P then 0 else desc_size P).
Proof.
  intros [[Hc Ht Hw He] Ho Ha Hb Hcol Hp Hd] [_ _ [Hc1 _] _ _] Hi. unfold per_of, extra_of, desc_size in *. destruct (off_slab P); nia.
Qed.

(** The page of an address of the slab. *)
Lemma slab_page st ps a sl P q c x :
  pages_mapped st → pool_geometry P → slab_ok st ps a sl P q c → kva q ≤ x < kva q + total_of (slab_page_order P) →
  ∃ i, kva2page st x = Ok i ∧ q ≤ i < q + bsize (slab_page_order P) ∧ kva i ≤ x < kva i + PAGE_SIZE ∧ ps !! i = Some a.
Proof.
  intros Hm G S Hx. pose proof (so_block _ _ _ _ _ _ _ S) as B. exists (q + (x - kva q) / PAGE_SIZE). unfold total_of in Hx.
  pose proof (Z.div_mod (x - kva q) PAGE_SIZE ltac:(done)). pose proof (Z.mod_pos_bound (x - kva q) PAGE_SIZE ltac:(done)).
  assert (0 ≤ (x - kva q) / PAGE_SIZE < bsize (slab_page_order P)) by (split; [apply Z.div_pos; [lia|done]|apply Z.div_lt_upper_bound; [done|lia]]).
  assert (Hk : kva (q + (x - kva q) / PAGE_SIZE) = kva q + PAGE_SIZE * ((x - kva q) / PAGE_SIZE)) by (unfold kva; lia).
  destruct (block_page _ _ _ _ _ (q + (x - kva q) / PAGE_SIZE) B) as (k & Hr & _); [lia|].
  split; [apply kva2page_ok; [done|done|lia]|]. split; [lia|]. split; [lia|]. apply (bk_slab _ _ _ _ _ B). lia.
Qed.

Lemma obj_range st ps a sl P q c i :
  pool_geometry P → slab_ok st ps a sl P q c → 0 ≤ i < slab_capacity P →
  let obj := sl_data sl + block_size P * i in kva q ≤ obj ∧ obj + block_size P ≤ kva q + total_of (slab_page_order P).
Proof.
  intros G S Hi. cbv zeta. pose proof (slab_room _ _ _ _ _ _ _ _ G S Hi) as H. rewrite (so_data _ _ _ _ _ _ _ S).
  assert (0 ≤ (if off_slab P then 0 else desc_size P)) by (destruct G as [[? _ _ _] _ _ _ _ _ _]; unfold desc_size, sizeof_KObjectSlab, sizeof_KObjectTag; destruct (off_slab P); lia).
  lia.
Qed.

(** A used object with its slab. *)
Lemma used_slab w a i p obj : wf w → used_at (pools w) (slabs w) a i p obj →
  ∃ sl P q c, slabs w !! a = Some sl ∧ sl_pool sl = p ∧ pools w !! p = Some P ∧ pool_geometry P ∧ slab_ok (pg w) (page_slab w) a sl P q c ∧
    0 ≤ i < slab_capacity P ∧ i ∉ free_of sl ∧ obj = sl_data sl + block_size P * i.
Proof.
  intros W (sl & P & Hs & Hp & HP & Hi & Hni & Ho). destruct (w_slab _ W a sl Hs) as (P' & q & c & HP' & S). rewrite Hp, HP in HP'. injection HP' as <-.
  exists sl, P, q, c. split_and!; try done; [by apply (w_pool _ W p)|lia..].
Qed.

Lemma used_page w a i p obj : wf w → used_at (pools w) (slabs w) a i p obj →
  ∃ j, kva2page (pg w) obj = Ok j ∧ page_slab w !! j = Some a.
Proof.
  intros W H. destruct (used_slab _ _ _ _ _ W H) as (sl & P & q & c & _ & _ & _ & G & S & Hi & _ & ->).
  destruct (obj_range _ _ _ _ _ _ _ _ G S Hi) as [H1 H2]. pose proof (pg_obj _ G).
  destruct (slab_page _ _ _ _ _ _ _ (sl_data sl + block_size P * i) (w_mapped _ W) G S) as (j & E & _ & _ & Hj); [lia|]. by exists j.
Qed.

(** An object is in one slab, at one place. *)
Lemma used_unique w a i p a' i' p' obj : wf w →
  used_at (pools w) (slabs w) a i p obj → used_at (pools w) (slabs w) a' i' p' obj → a' = a ∧ i' = i ∧ p' = p.
Proof.
  intros W H H'. destruct (used_page _ _ _ _ _ W H) as (j & E & Hj). destruct (used_page _ _ _ _ _ W H') as (j' & E' & Hj').
  assert (a' = a) as -> by congruence. split; [done|].
  destruct (used_slab _ _ _ _ _ W H) as (sl & P & q & c & Hs & Hp & HP & G & S & Hi & _ & ->).
  destruct (used_slab _ _ _ _ _ W H') as (sl' & P' & q' & c' & Hs' & Hp' & HP' & _ & _ & Hi' & _ & E2).
  rewrite Hs in Hs'. injection Hs' as <-. rewrite Hp in Hp'. subst p'. rewrite HP in HP'. injection HP' as <-. split; [|done].
  pose proof (pg_obj _ G). nia.
Qed.

(** ** Updates *)

(** [P'] is [P] but for the lists. *)
Definition same_geometry P P' : Prop := P' = set_lists (slabs_empty P') (slabs_partial P') (slabs_full P') P.

Lemma same_geometry_pool P P' : same_geometry P P' → pool_geometry P → pool_geometry P'.
Proof. intros E G. rewrite E. destruct G. by split. Qed.

Lemma slab_ok_geometry st ps a sl P P' q c : same_geometry P P' → slab_ok st ps a sl P q c → slab_ok st ps a sl P' q c.
Proof. intros E S. rewrite E. destruct S. by split. Qed.

Lemma lists_update m p P P' a sl' :
  lists_ok m p P → (∀ sl, m !! a = Some sl → sl_pool sl = p) → sl_pool sl' = p → slab_capacity P' = slab_capacity P →
  NoDup (slabs_empty P') ∧ NoDup (slabs_partial P') ∧ NoDup (slabs_full P') →
  (∀ b, b ≠ a → (b ∈ slabs_empty P' ↔ b ∈ slabs_empty P) ∧ (b ∈ slabs_partial P' ↔ b ∈ slabs_partial P) ∧ (b ∈ slabs_full P' ↔ b ∈ slabs_full P)) →
  (a ∈ slabs_empty P' ↔ sl_used sl' = slab_capacity P) → (a ∈ slabs_partial P' ↔ 0 < sl_used sl' < slab_capacity P) →
  (a ∈ slabs_full P' ↔ sl_used sl' = 0) → lists_ok (<[a := sl']> m) p P'.
Proof.
  intros [_ He Hs Hf] Hold Hp Hcap Hnd Hb H1 H2 H3. split; [done|..]; intros b; rewrite lookup_insert; rewrite ?Hcap; case_decide as E; subst.
  1,3,5: rewrite ?H1, ?H2, ?H3; split; [intros ?; by exists sl'|by intros (? & [= <-] & _ & ?)].
  all: destruct (Hb b) as (Hb1 & Hb2 & Hb3); [done|]; rewrite ?Hb1, ?Hb2, ?Hb3, ?He, ?Hs, ?Hf; done.
Qed.

Lemma lists_other m p P a sl' :
  lists_ok m p P → (∀ sl, m !! a = Some sl → sl_pool sl ≠ p) → sl_pool sl' ≠ p → lists_ok (<[a := sl']> m) p P.
Proof.
  intros [Hnd He Hs Hf] Hold Hp. split; [done|..]; intros b; rewrite ?He, ?Hs, ?Hf, lookup_insert; case_decide as E; subst; try done;
    (split; [intros (sl & H1 & H2 & _); by destruct (Hold sl)|by intros (? & [= <-] & ? & _)]).
Qed.

(** Slab [a] of pool [p] changes its free list, and moves between lists. *)
Definition update p P' a sl' w : world := set_pool p P' (set_slab a sl' w).

Lemma update_pools w p P' a sl' p2 P2 P : pools w !! p = Some P → same_geometry P P' →
  pools (update p P' a sl' w) !! p2 = Some P2 → ∃ P1, pools w !! p2 = Some P1 ∧ same_geometry P1 P2.
Proof.
  intros HP Hg. unfold update. simpl. rewrite lookup_insert. case_decide as E; [subst; intros [= <-]; by exists P|]. intros H. exists P2.
  split; [done|]. by destruct P2.
Qed.

Lemma update_desc w p P P' a sl sl' b : slabs w !! a = Some sl → sl_pool sl' = sl_pool sl → pools w !! p = Some P → same_geometry P P' →
  is_desc (update p P' a sl' w) b → is_desc w b.
Proof.
  intros Hs Hp' HP Hg (sl0 & P0 & H1 & H2 & H3). destruct (update_pools w p P' a sl' _ _ P HP Hg H2) as (P1 & HP1 & E1).
  assert (off_slab P1 = true) by (rewrite E1 in H3; done). simpl in H1. rewrite lookup_insert in H1. case_decide as E; subst.
  - injection H1 as <-. exists sl, P1. by rewrite <- Hp'.
  - by exists sl0, P1.
Qed.

Lemma wf_update w a sl sl' p P P' :
  wf w → slabs w !! a = Some sl → sl_pool sl = p → pools w !! p = Some P →
  sl_pool sl' = sl_pool sl → sl_data sl' = sl_data sl → same_geometry P P' → chain_ok sl' (slab_capacity P) (free_of sl') →
  lists_ok (<[a := sl']> (slabs w)) p P' →
  (∀ p2 b, is_desc w b → in_use w p2 b → in_use (update p P' a sl' w) p2 b) → wf (update p P' a sl' w).
Proof.
  intros W Hs Hp HP Hp' Hd Hg Hch Hl Hdesc. set (w' := update p P' a sl' w).
  assert (Hpools := λ p2 P2, update_pools w p P' a sl' p2 P2 P HP Hg). fold w' in Hpools.
  split; try (by destruct W); simpl.
  - intros p2 P2 H2. destruct (Hpools p2 P2 H2) as (P1 & H1 & E). eapply same_geometry_pool; [exact E|]. by apply (w_pool _ W p2).
  - intros p2 P2. rewrite lookup_insert. case_decide as E; [subst p2; by intros [= <-]|]. intros H2. apply lists_other; [by apply (w_lists _ W)|..]; congruence.
  - intros b sl0. rewrite lookup_insert. case_decide as E.
    + subst b. intros [= <-]. destruct (w_slab _ W a sl Hs) as (P0 & q & c & HP0 & S). rewrite Hp, HP in HP0. injection HP0 as <-. exists P', q, c.
      rewrite Hp', Hp, lookup_insert_eq. split; [done|]. eapply slab_ok_geometry; [exact Hg|]. destruct S. split; try done. congruence.
    + intros H0. destruct (w_slab _ W b sl0 H0) as (P0 & q & c & HP0 & S). destruct (decide (sl_pool sl0 = p)) as [Ep|Ep].
      * rewrite Ep, HP in HP0. injection HP0 as <-. exists P', q, c. rewrite Ep, lookup_insert_eq. split; [done|]. by eapply slab_ok_geometry.
      * exists P0, q, c. by rewrite lookup_insert_ne.
  - intros i b Hb. rewrite lookup_insert. case_decide; [by eexists|]. by apply (w_page _ W i).
  - intros b sl0 P0 H1 H2 H3. assert (D : is_desc w b) by (apply (update_desc w p P P' a sl sl' b); try done; by exists sl0, P0).
    destruct (Hpools _ _ H2) as (P1 & HP1 & E1). destruct D as (sl1 & P1' & D1 & D2 & D3).
    destruct (w_desc _ W b sl1 P1' D1 D2 D3) as (p3 & Q & HQ & HQo & HQs & Hu).
    assert (Hq : ∃ Q', <[p := P']> (pools w) !! p3 = Some Q' ∧ off_slab Q' = off_slab Q ∧ obj_size Q' = obj_size Q).
    { rewrite lookup_insert. case_decide as E; [|by exists Q]. subst p3. rewrite HP in HQ. injection HQ as <-. exists P'. split; [done|]. by rewrite Hg. }
    destruct Hq as (Q' & HQ' & Eo & Es). exists p3, Q'. split; [done|]. split; [congruence|]. split; [|apply Hdesc; [by exists sl1, P1'|done]].
    rewrite Es. etrans; [|exact HQs]. assert (sl_pool sl0 = sl_pool sl1) as Esp by (simpl in H1; rewrite lookup_insert in H1; case_decide; simplify_eq; congruence).
    rewrite Esp, D2 in HP1. injection HP1 as <-. rewrite E1. done.
  - intros i p2 Hi. destruct (w_anon _ W i p2 Hi) as (P2 & H2 & H3 & H4). rewrite lookup_insert. case_decide as E; [|by exists P2].
    subst p2. rewrite HP in H2. injection H2 as <-. exists P'. split; [done|]. by rewrite Hg.
  - intros p2 P2 H2 Ho i Hi. destruct (Hpools p2 P2 H2) as (P1 & H1 & E). rewrite E in Ho. by apply (w_small _ W p2 P1 H1).
Qed.

(** *** Moving a slab *)

Lemma unlink_elem a b (l : list Z) : b ∈ filter (.≠ a) l ↔ b ≠ a ∧ b ∈ l.
Proof. by rewrite list_elem_of_filter. Qed.

Lemma nodup_snoc_unlink a (l : list Z) : NoDup l → NoDup (filter (.≠ a) l ++ [a]).
Proof.
  intros H. apply NoDup_app. split; [by apply NoDup_filter|]. split; [|apply NoDup_singleton]. intros b [Hb _]%unlink_elem ->%list_elem_of_singleton. done.
Qed.
Lemma nodup_cons_unlink a (l : list Z) : NoDup l → NoDup (a :: filter (.≠ a) l).
Proof. intros H. apply NoDup_cons. split; [by intros [? _]%unlink_elem|by apply NoDup_filter]. Qed.

Definition nodups P : Prop := NoDup (slabs_empty P) ∧ NoDup (slabs_partial P) ∧ NoDup (slabs_full P).

(** The slabs other than [a] are where they were. *)
Record kept a P P' : Prop := {
  kp_geometry : same_geometry P P';
  kp_nodup : nodups P';
  kp_others : ∀ b, b ≠ a → (b ∈ slabs_empty P' ↔ b ∈ slabs_empty P) ∧ (b ∈ slabs_partial P' ↔ b ∈ slabs_partial P) ∧ (b ∈ slabs_full P' ↔ b ∈ slabs_full P)
}.

(** [P'] has slab [a], with [n] objects in use, on the right list and the other
    slabs where they were. *)
Record moved a (n : Z) P P' : Prop := {
  mv_kept : kept a P P';
  mv_empty : a ∈ slabs_empty P' ↔ n = slab_capacity P;
  mv_partial : a ∈ slabs_partial P' ↔ 0 < n < slab_capacity P;
  mv_full : a ∈ slabs_full P' ↔ n = 0
}.

Lemma moved_lists m p P P' a n sl' :
  moved a n P P' → lists_ok m p P → (∀ sl, m !! a = Some sl → sl_pool sl = p) → sl_pool sl' = p → sl_used sl' = n → lists_ok (<[a := sl']> m) p P'.
Proof.
  intros [[Hg Hnd Ho] He Hp Hf] Hl Hold Hp' <-. apply (lists_update m p P P'); try done. by rewrite Hg.
Qed.

Lemma moved_same m p P a sl n :
  lists_ok m p P → m !! a = Some sl → sl_pool sl = p → 0 < sl_used sl < slab_capacity P → 0 < n < slab_capacity P → moved a n P P.
Proof.
  intros [Hnd He Hp Hf] Hs Hsp Hu Hn. split; [split; try done; by destruct P|..].
  - rewrite He. split; [intros (? & ? & _ & ?); simplify_eq; lia|lia].
  - rewrite Hp. split; [lia|]. intros _. by exists sl.
  - rewrite Hf. split; [intros (? & ? & _ & ?); simplify_eq; lia|lia].
Qed.

Lemma moved_empty P a :
  nodups P → 0 < slab_capacity P →
  let U := unlink a P in moved a (slab_capacity P) P (set_lists (slabs_empty U ++ [a]) (slabs_partial U) (slabs_full U) U).
Proof.
  intros (H1 & H2 & H3) Hc U. split; [split; [done|..]|..]; simpl.
  - split; [by apply nodup_snoc_unlink|]. by split; apply NoDup_filter.
  - intros b Hb. rewrite elem_of_app, !unlink_elem, list_elem_of_singleton. naive_solver.
  - rewrite elem_of_app, list_elem_of_singleton. naive_solver.
  - rewrite unlink_elem. split; [by intros [? _]|lia].
  - rewrite unlink_elem. split; [by intros [? _]|lia].
Qed.

Lemma moved_partial_back P a n :
  nodups P → 0 < n < slab_capacity P →
  let U := unlink a P in moved a n P (set_lists (slabs_empty U) (slabs_partial U ++ [a]) (slabs_full U) U).
Proof.
  intros (H1 & H2 & H3) Hc U. split; [split; [done|..]|..]; simpl.
  - split; [by apply NoDup_filter|]. split; [by apply nodup_snoc_unlink|by apply NoDup_filter].
  - intros b Hb. rewrite elem_of_app, !unlink_elem, list_elem_of_singleton. naive_solver.
  - rewrite unlink_elem. split; [by intros [? _]|lia].
  - rewrite elem_of_app, list_elem_of_singleton. naive_solver.
  - rewrite unlink_elem. split; [by intros [? _]|lia].
Qed.

Lemma moved_partial_front P a n :
  nodups P → 0 < n < slab_capacity P →
  let U := unlink a P in moved a n P (set_lists (slabs_empty U) (a :: slabs_partial U) (slabs_full U) U).
Proof.
  intros (H1 & H2 & H3) Hc U. split; [split; [done|..]|..]; simpl.
  - split; [by apply NoDup_filter|]. split; [by apply nodup_cons_unlink|by apply NoDup_filter].
  - intros b Hb. rewrite elem_of_cons, !unlink_elem. naive_solver.
  - rewrite unlink_elem. split; [by intros [? _]|lia].
  - rewrite elem_of_cons. naive_solver.
  - rewrite unlink_elem. split; [by intros [? _]|lia].
Qed.

Lemma moved_full_front P a :
  nodups P → 0 < slab_capacity P →
  let U := unlink a P in moved a 0 P (set_lists (slabs_empty U) (slabs_partial U) (a :: slabs_full U) U).
Proof.
  intros (H1 & H2 & H3) Hc U. split; [split; [done|..]|..]; simpl.
  - split; [by apply NoDup_filter|]. split; [by apply NoDup_filter|by apply nodup_cons_unlink].
  - intros b Hb. rewrite elem_of_cons, !unlink_elem. naive_solver.
  - rewrite unlink_elem. split; [by intros [? _]|lia].
  - rewrite unlink_elem. split; [by intros [? _]|lia].
  - rewrite elem_of_cons. naive_solver.
Qed.

Lemma slab_moved_trans a n P P1 P2 : kept a P P1 → moved a n P1 P2 → moved a n P P2.
Proof.
  intros [G1 _ O1] [[G2 N2 O2] He Hp Hf]. assert (Hc : slab_capacity P1 = slab_capacity P) by (by rewrite G1). rewrite Hc in *.
  split; [split; [|done|]|done..].
  - unfold same_geometry in *. rewrite G2 at 1. rewrite G1. done.
  - intros b Hb. destruct (O1 b Hb) as (? & ? & ?), (O2 b Hb) as (? & ? & ?). split_and!; etrans; done.
Qed.

(** The slab that [select_slab] takes off the list of full slabs. *)
Definition selected a P : KObjectPool := let U := unlink a P in set_lists (slabs_empty U) (slabs_partial U ++ [a]) (slabs_full U) U.

Lemma selected_kept a P : nodups P → kept a P (selected a P).
Proof.
  intros (H1 & H2 & H3). split; [done|..]; simpl.
  - split; [by apply NoDup_filter|]. split; [by apply nodup_snoc_unlink|by apply NoDup_filter].
  - intros b Hb. rewrite elem_of_app, !unlink_elem, list_elem_of_singleton. naive_solver.
Qed.

Definition popped sl (g : option Z) : KObjectSlab := MkSlab (sl_pool sl) (sl_data sl) g (sl_used sl + 1) (sl_tags sl).

Lemma update_same p P a sl w : pools w !! p = Some P → set_slab a sl w = update p P a sl w.
Proof. intros E. unfold update, set_pool, set_slab, set_pools, set_slabs. simpl. by rewrite (insert_id (pools w) p P E). Qed.

Lemma update_set_pool p P P1 a sl w : update p P a sl (set_pool p P1 w) = update p P a sl w.
Proof. unfold update, set_pool, set_slab, set_pools, set_slabs. simpl. by rewrite insert_insert_eq. Qed.

Lemma slab_kva2page st ps a sl P q c : pages_mapped st → pool_geometry P → slab_ok st ps a sl P q c → kva2page st (sl_data sl) = Ok q.
Proof.
  intros Hm G S. apply kva2page_ok; [done|apply (bk_first _ _ _ _ _ (so_block _ _ _ _ _ _ _ S))|]. rewrite (so_data _ _ _ _ _ _ _ S).
  destruct (so_color _ _ _ _ _ _ _ S). pose proof (pg_page _ G). lia.
Qed.

(** Taking an object from a slab with a free one. *)
Lemma slab_get_ok w a sl p P q c j l :
  pages_mapped (pg w) → slabs w !! a = Some sl → sl_pool sl = p → pools w !! p = Some P → pool_geometry P →
  slab_ok (pg w) (page_slab w) a sl P q c → free_of sl = j :: l → nodups P →
  ∃ P' g, k_object_pool_slab_get a w = Ok (sl_data sl + block_size P * j, update p P' a (popped sl g) w) ∧
    chain_ok (popped sl g) (slab_capacity P) l ∧
    (if decide (sl_used sl + 1 = slab_capacity P) then moved a (sl_used sl + 1) P P' else P' = P).
Proof.
  intros Hm Hs <- HP G S Hl Hnd. pose proof (so_chain _ _ _ _ _ _ _ S) as Hc. rewrite Hl in Hc. pose proof (so_block _ _ _ _ _ _ _ S) as B.
  destruct (ch_chain _ _ _ Hc) as (Ef & g & Hg & Hcl). pose proof (ch_used _ _ _ Hc) as Hu. simpl in Hu.
  pose proof (chain_pop _ _ _ _ _ Hc Hg) as Hc'. unfold k_object_pool_slab_get, slab_at, pool_at. rewrite Hs. cbn [deref mbind outcome_bind].
  rewrite HP. cbn [deref mbind outcome_bind].
  rewrite (slab_kva2page _ _ _ _ _ _ _ Hm G S). cbn [mbind outcome_bind]. rewrite (block_assert _ _ _ _ _ B). cbn [mbind outcome_bind].
  rewrite (proj2 (Z.ltb_lt _ _)) by lia. cbn [k_assert mbind outcome_bind]. rewrite Ef. cbn [deref mbind outcome_bind]. rewrite Hg. cbn [deref mbind outcome_bind sl_used sl_free sl_pool].
  fold (popped sl g). destruct (Z.eqb_spec (sl_used sl + 1) (slab_capacity P)) as [E|E].
  - assert (l = []) as -> by (apply length_zero_iff_nil; lia). simpl in Hcl. subst g. rewrite bool_decide_true by done. cbn [k_assert mbind outcome_bind].
    eexists _, None. split; [unfold tag_to_object; cbn [sl_data]; reflexivity|]. split; [done|]. rewrite decide_True, E by done. apply moved_empty; [done|]. pose proof (cap_pos _ G). lia.
  - exists P, g. split; [|split; [done|by rewrite decide_False]]. rewrite <- update_same by done. done.
Qed.

(** ** Getting an object *)

(** Slab [a] of pool [p] goes from [sl] to [sl'], and the pool from [P] to [P']. *)
Record slab_change p P P' a sl sl' w w' : Prop := {
  sc_slab : slabs w !! a = Some sl;
  sc_slabs : slabs w' = <[a := sl']> (slabs w);
  sc_pool : sl_pool sl = p ∧ sl_pool sl' = p;
  sc_data : sl_data sl' = sl_data sl;
  sc_at : pools w !! p = Some P;
  sc_pools : pools w' = <[p := P']> (pools w);
  sc_geometry : same_geometry P P'
}.

Lemma same_geometry_sym P P' : same_geometry P P' → same_geometry P' P.
Proof. intros E. rewrite E. by destruct P. Qed.

Lemma slab_change_sym p P P' a sl sl' w w' : slab_change p P P' a sl sl' w w' → slab_change p P' P a sl' sl w' w.
Proof.
  intros [H1 H2 [H3 H4] H5 H6 H7 H8]. split; try done.
  - rewrite H2. apply lookup_insert_eq.
  - rewrite H2, insert_insert_eq. by rewrite insert_id.
  - rewrite H7. apply lookup_insert_eq.
  - rewrite H7, insert_insert_eq. by rewrite insert_id.
  - by apply same_geometry_sym.
Qed.

(** One direction of what an update does to the objects in use. *)
Lemma change_used p P P' a sl sl' w w' b i p2 obj :
  slab_change p P P' a sl sl' w w' → used_at (pools w) (slabs w) b i p2 obj →
  b ≠ a ∧ used_at (pools w') (slabs w') b i p2 obj ∨
  b = a ∧ p2 = p ∧ 0 ≤ i < slab_capacity P ∧ i ∉ free_of sl ∧ obj = sl_data sl + block_size P * i.
Proof.
  intros [Hs Hs' [Hp Hp'] Hd HP HP' Hg] (sl0 & P0 & H1 & H2 & H3 & H4 & H5 & H6). destruct (decide (b = a)) as [->|Hb].
  - right. rewrite Hs in H1. injection H1 as <-. rewrite Hp in H2. subst p2. rewrite HP in H3. injection H3 as <-. done.
  - left. split; [done|]. rewrite Hs', HP'. exists sl0. rewrite lookup_insert_ne by done. destruct (decide (p2 = p)) as [->|Hn].
    + rewrite HP in H3. injection H3 as <-. exists P'. rewrite lookup_insert_eq. rewrite Hg. done.
    + exists P0. rewrite lookup_insert_ne by done. done.
Qed.

(** The slab [sl] has the object [j] free, and [sl'] has it in use. *)
Lemma change_in_use p P P' a sl sl' w w' j :
  slab_change p P P' a sl sl' w w' → 0 ≤ j < slab_capacity P → j ∉ free_of sl' → (∀ i, i ∈ free_of sl ↔ i = j ∨ i ∈ free_of sl') →
  ∀ p2 o, in_use w' p2 o ↔ in_use w p2 o ∨ p2 = p ∧ o = sl_data sl + block_size P * j.
Proof.
  intros C Hj Hnj Hfr p2 o. pose proof (slab_change_sym _ _ _ _ _ _ _ _ C) as C'.
  assert (Hcap : slab_capacity P' = slab_capacity P ∧ block_size P' = block_size P) by (by rewrite (sc_geometry _ _ _ _ _ _ _ _ C)). destruct Hcap as [Hcap Hbs].
  pose proof (sc_data _ _ _ _ _ _ _ _ C) as Hd. destruct (sc_pool _ _ _ _ _ _ _ _ C) as [Hp Hp']. split.
  - intros (b & i & H). apply (change_used _ _ _ _ _ _ _ _ _ _ _ _ C') in H as [[_ H]|(-> & -> & Hi & Hni & ->)]; [left; by exists b, i|].
    rewrite Hcap, Hbs, Hd in *. destruct (decide (i = j)) as [->|]; [by right|left]. exists a, i, sl, P. split; [apply C|]. split; [done|]. split; [apply C|].
    rewrite Hfr. naive_solver.
  - intros [(b & i & H)|[-> ->]].
    + apply (change_used _ _ _ _ _ _ _ _ _ _ _ _ C) in H as [[_ H]|(-> & -> & Hi & Hni & ->)]; [by exists b, i|]. exists a, i, sl', P'.
      rewrite Hcap, Hbs, Hd. rewrite Hfr in Hni. split; [apply C'|]. split; [done|]. split; [apply C'|]. naive_solver.
    + exists a, j, sl', P'. rewrite Hcap, Hbs, Hd. split; [apply C'|]. split; [done|]. split; [apply C'|]. done.
Qed.

Lemma change_desc p P P' a sl sl' w w' b : slab_change p P P' a sl sl' w w' → is_desc w b → is_desc w' b.
Proof.
  intros [Hs Hs' [Hp Hp'] Hd HP HP' Hg] (sl0 & P0 & H1 & H2 & H3). unfold is_desc. rewrite Hs', HP'. rewrite lookup_insert. destruct (decide (a = b)) as [<-|Hb].
  - exists sl', P'. rewrite Hs in H1. injection H1 as <-. rewrite Hp, HP in H2. injection H2 as <-. split; [done|]. rewrite Hp', lookup_insert_eq. split; [done|]. by rewrite Hg.
  - exists sl0. destruct (decide (sl_pool sl0 = p)) as [Ep|Ep].
    + exists P'. rewrite Ep, lookup_insert_eq. split; [done|]. split; [done|]. rewrite Ep, HP in H2. injection H2 as <-. by rewrite Hg.
    + exists P0. rewrite lookup_insert_ne by done. done.
Qed.

Lemma update_change p P P' a sl sl' w :
  slabs w !! a = Some sl → sl_pool sl = p → sl_pool sl' = p → sl_data sl' = sl_data sl → pools w !! p = Some P → same_geometry P P' →
  slab_change p P P' a sl sl' w (update p P' a sl' w).
Proof. by split. Qed.

Lemma take_moved m p P a sl P1 P' :
  lists_ok m p P → m !! a = Some sl → sl_pool sl = p → pool_geometry P → sl_used sl < slab_capacity P →
  0 < sl_used sl < slab_capacity P ∧ P1 = P ∨ sl_used sl = 0 ∧ P1 = selected a P →
  (if decide (sl_used sl + 1 = slab_capacity P) then moved a (sl_used sl + 1) P1 P' else P' = P1) → moved a (sl_used sl + 1) P P'.
Proof.
  intros L Hs Hp G Hu Hsel HP'. pose proof (lo_nodup _ _ _ L) as Hnd. destruct (decide _) as [E|E].
  - destruct Hsel as [[_ ->]|[_ ->]]; [done|]. eapply slab_moved_trans; [|exact HP']. by apply selected_kept.
  - subst P'. destruct Hsel as [[Hr ->]|[Hz ->]]; [eapply moved_same; [done..|lia]|]. rewrite Hz. apply moved_partial_back; [done|lia].
Qed.

(** Taking an object from slab [a] of pool [p], which has a free one and is
    selected before. *)
Lemma slab_take_ok w p P a sl P1 :
  wf w → pools w !! p = Some P → slabs w !! a = Some sl → sl_pool sl = p →
  0 < sl_used sl < slab_capacity P ∧ P1 = P ∨ sl_used sl = 0 ∧ P1 = selected a P →
  ∃ P' sl' j, slab_change p P P' a sl sl' w (update p P' a sl' w) ∧
    k_object_pool_slab_get a (set_pool p P1 w) = Ok (sl_data sl + block_size P * j, update p P' a sl' w) ∧
    0 ≤ j < slab_capacity P ∧ j ∉ free_of sl' ∧ (∀ i, i ∈ free_of sl ↔ i = j ∨ i ∈ free_of sl') ∧ wf (update p P' a sl' w).
Proof.
  intros W HP Hs Hp Hsel. pose proof (w_pool _ W p P HP) as G. destruct (w_slab _ W a sl Hs) as (P0 & q & c & HP0 & S). rewrite Hp, HP in HP0. injection HP0 as <-.
  pose proof (w_lists _ W p P HP) as L. pose proof (so_chain _ _ _ _ _ _ _ S) as Hc. pose proof (ch_used _ _ _ Hc) as Hu. pose proof (cap_pos _ G).
  assert (Hlt : sl_used sl < slab_capacity P) by (destruct Hsel; lia).
  destruct (free_of sl) as [|j l] eqn:Hl; [simpl in Hu; lia|].
  assert (K : kept a P P1) by (destruct Hsel as [[_ ->]|[_ ->]]; [split; [by destruct P|apply L|done]|apply selected_kept, L]).
  destruct (slab_get_ok (set_pool p P1 w) a sl p P1 q c j l) as (P' & g & E & Hc' & HP'); simpl; try done.
  { apply (w_mapped _ W). } { apply lookup_insert_eq. } { eapply same_geometry_pool; [apply K|done]. } { eapply slab_ok_geometry; [apply K|done]. } { apply K. }
  assert (Ecap : slab_capacity P1 = slab_capacity P ∧ block_size P1 = block_size P) by (by rewrite (kp_geometry _ _ _ K)). destruct Ecap as [Ecap Ebs].
  rewrite Ecap in *. rewrite Ebs, update_set_pool in E. pose proof (take_moved _ _ _ _ _ _ _ L Hs Hp G Hlt Hsel HP') as Mv.
  pose proof (kp_geometry _ _ _ (mv_kept _ _ _ _ Mv)) as Hg. pose proof (chain_free_of _ _ _ Hc') as Hf.
  assert (C : slab_change p P P' a sl (popped sl g) w (update p P' a (popped sl g) w)) by (by apply update_change).
  assert (Hj : j ∉ l ∧ 0 ≤ j < slab_capacity P) by (pose proof (ch_nodup _ _ _ Hc) as [? _]%NoDup_cons; pose proof (ch_range _ _ _ Hc) as [? _]%Forall_cons; done).
  assert (Hfr : ∀ i, i ∈ free_of sl ↔ i = j ∨ i ∈ free_of (popped sl g)) by (intros i; by rewrite Hl, Hf, elem_of_cons).
  destruct Hj as [Hj1 Hj2]. exists P', (popped sl g), j. split; [done|]. split; [done|]. split; [lia|]. split; [by rewrite Hf|]. rewrite <- Hl. split; [done|].
  apply (wf_update w a sl _ p P); try done; [by rewrite Hf| |].
  - eapply moved_lists; [exact Mv|done| |done|done]. intros sl0. rewrite Hs. by intros [= <-].
  - intros p2 b _ Hb. apply (change_in_use p P P' a sl (popped sl g) w _ j C); [lia|by rewrite Hf|done|by left].
Qed.

(** ** Giving an object back *)

Definition pushed sl (j : Z) : KObjectSlab :=
  MkSlab (sl_pool sl) (sl_data sl) (Some j) (sl_used sl - 1) (<[Z.to_nat j := sl_free sl]> (sl_tags sl)).

Lemma object_tag st ps a sl P q c j :
  pages_mapped st → pool_geometry P → slab_ok st ps a sl P q c → 0 ≤ j < slab_capacity P → object_to_tag sl P (sl_data sl + block_size P * j) = j.
Proof.
  intros Hm G S Hj. unfold object_to_tag. pose proof (slab_room _ _ _ _ _ _ _ _ G S Hj) as Hr. pose proof (pg_obj _ G). pose proof (so_color _ _ _ _ _ _ _ S) as [? _].
  pose proof (total_bounds _ (pg_order _ G)).
  assert (0 ≤ (if off_slab P then 0 else desc_size P)) by (unfold desc_size, sizeof_KObjectSlab, sizeof_KObjectTag; destruct (off_slab P); lia).
  replace (sl_data sl + block_size P * j - sl_data sl) with (j * block_size P) by lia. rewrite u32_small by nia. apply Z.div_mul. lia.
Qed.

Lemma slab_put_ok w a sl p P q c j :
  pages_mapped (pg w) → slabs w !! a = Some sl → sl_pool sl = p → pools w !! p = Some P → pool_geometry P →
  slab_ok (pg w) (page_slab w) a sl P q c → lists_ok (slabs w) p P → 0 ≤ j < slab_capacity P → j ∉ free_of sl →
  ∃ P', k_object_pool_slab_put a (sl_data sl + block_size P * j) w = Ok (update p P' a (pushed sl j) w) ∧
    chain_ok (pushed sl j) (slab_capacity P) (j :: free_of sl) ∧ moved a (sl_used sl - 1) P P'.
Proof.
  intros Hm Hs <- HP G S L Hj Hni. pose proof (so_chain _ _ _ _ _ _ _ S) as Hc. pose proof (so_block _ _ _ _ _ _ _ S) as B. pose proof (cap_pos _ G).
  pose proof (chain_push _ _ _ _ Hc Hj Hni) as Hc'. pose proof (ch_used _ _ _ Hc) as Hu.
  pose proof (nodup_range_length _ _ (ch_nodup _ _ _ Hc') (ch_range _ _ _ Hc')) as Hlen. simpl in Hlen. pose proof (lo_nodup _ _ _ L) as Hnd.
  unfold k_object_pool_slab_put, slab_at, pool_at. rewrite Hs. cbn [deref mbind outcome_bind]. rewrite HP. cbn [deref mbind outcome_bind].
  rewrite (proj2 (Z.ltb_lt _ _)) by lia. cbn [k_assert mbind outcome_bind]. rewrite (slab_kva2page _ _ _ _ _ _ _ Hm G S). cbn [mbind outcome_bind].
  rewrite (block_assert _ _ _ _ _ B). cbn [mbind outcome_bind]. rewrite (object_tag _ _ _ _ _ _ _ _ Hm G S Hj). pose proof (ch_tags _ _ _ Hc) as Ht.
  rewrite bool_decide_true by lia. cbn [k_assert mbind outcome_bind sl_used sl_pool]. fold (pushed sl j).
  destruct (Z.eqb_spec (sl_used sl - 1) 0) as [E0|E0]; [|destruct (Z.eqb_spec (sl_used sl - 1) (slab_capacity P - 1)) as [E1|E1]].
  - eexists. split; [reflexivity|]. split; [done|]. rewrite E0. apply moved_full_front; [done|lia].
  - eexists. split; [reflexivity|]. split; [done|]. apply moved_partial_front; [done|lia].
  - exists P. split; [by rewrite <- update_same|]. split; [done|]. eapply moved_same; [done..|lia|lia].
Qed.

Lemma put_slab_ok w p a j obj :
  wf w → used_at (pools w) (slabs w) a j p obj → ¬ is_desc w obj →
  ∃ P P' sl sl', slab_change p P P' a sl sl' w (update p P' a sl' w) ∧ k_object_pool_slab_put a obj w = Ok (update p P' a sl' w) ∧
    obj = sl_data sl + block_size P * j ∧ 0 ≤ j < slab_capacity P ∧ j ∉ free_of sl ∧ (∀ i, i ∈ free_of sl' ↔ i = j ∨ i ∈ free_of sl) ∧ wf (update p P' a sl' w).
Proof.
  intros W Hu Hnd. destruct (used_slab _ _ _ _ _ W Hu) as (sl & P & q & c & Hs & Hp & HP & G & S & Hj & Hni & ->).
  pose proof (w_lists _ W p P HP) as L. destruct (slab_put_ok w a sl p P q c j) as (P' & E & Hc' & Mv); try done; [apply (w_mapped _ W)|].
  pose proof (kp_geometry _ _ _ (mv_kept _ _ _ _ Mv)) as Hg. pose proof (chain_free_of _ _ _ Hc') as Hf.
  assert (C : slab_change p P P' a sl (pushed sl j) w (update p P' a (pushed sl j) w)) by (by apply update_change).
  assert (Hfr : ∀ i, i ∈ free_of (pushed sl j) ↔ i = j ∨ i ∈ free_of sl) by (intros i; by rewrite Hf, elem_of_cons).
  exists P, P', sl, (pushed sl j). split_and!; try done; try lia. apply (wf_update w a sl _ p P); try done; [by rewrite Hf| |].
  - eapply moved_lists; [exact Mv|done| |done|done]. intros sl0. rewrite Hs. by intros [= <-].
  - intros p2 b Hd Hb. apply slab_change_sym in C as C'. assert (Ecap : slab_capacity P' = slab_capacity P ∧ block_size P' = block_size P) by (by rewrite Hg).
    destruct Ecap as [Ecap Ebs]. apply (change_in_use p P' P a (pushed sl j) sl _ w j C') in Hb as [?|[-> ->]]; [done| |by rewrite Ecap|done|done].
    rewrite Ebs in Hd. done.
Qed.

Lemma wf_held h w : wf w → wf (set_held h w).
Proof. intros []. by split. Qed.

Lemma acquire_pool_ok p w : p ∉ held w → acquire p w = Ok (set_held ({[p]} ∪ held w) w).
Proof. intros H. unfold acquire. by rewrite decide_False. Qed.

Lemma release_pool_ok p h w : p ∉ h → held w = {[p]} ∪ h → release p w = Ok (set_held h w).
Proof.
  intros Hp Hh. unfold release. rewrite Hh, decide_True by set_solver. do 2 f_equal. set_solver.
Qed.

Lemma kva_aligned q o : (o ≤ PAGE_ORDER_MAX)%nat → q mod bsize o = 0 → kva q mod total_of o = 0.
Proof.
  intros Ho Hq. unfold kva, total_of. pose proof (bsize_pos o). apply Z.mod_divide in Hq as [k ->]; [|lia].
  replace VIRT_KERNEL_BASE with (2 ^ (19 - Z.of_nat o) * (PAGE_SIZE * bsize o)).
  - replace (2 ^ (19 - Z.of_nat o) * (PAGE_SIZE * bsize o) + k * bsize o * PAGE_SIZE) with ((2 ^ (19 - Z.of_nat o) + k) * (PAGE_SIZE * bsize o)) by lia. apply Z.mod_mul. unfold PAGE_SIZE. lia.
  - unfold bsize, PAGE_ORDER_MAX in *. change PAGE_SIZE with (2 ^ 12). rewrite <- !Z.pow_add_r by lia. replace (19 - Z.of_nat o + (12 + Z.of_nat o)) with 31 by lia. done.
Qed.

Lemma round_down_block x t b : 0 < t → b mod t = 0 → b ≤ x < b + t → x - x mod t = b.
Proof. intros Ht Hb Hx. apply Z.mod_divide in Hb as [k ->]; [|lia]. rewrite <- (Z.mod_unique_pos x t k (x - k * t)) by lia. lia. Qed.

(** [obj] is no longer in use; nothing else in use has changed. *)
Record gave_back w p obj w' : Prop := {
  gb_wf : wf w';
  gb_held : held w' = held w;
  gb_anon : anon_pools w' = anon_pools w;
  gb_pools : ∃ P P', pools w !! p = Some P ∧ pools w' = <[p := P']> (pools w) ∧ same_geometry P P';
  gb_use : ∀ p2 o, in_use w' p2 o ↔ in_use w p2 o ∧ o ≠ obj;
  gb_desc : ∀ b, is_desc w' b ↔ is_desc w b
}.

Lemma pool_put_ok w p obj : wf w → p ∉ held w → client w p obj → ∃ w', k_object_pool_put p obj w = Ok w' ∧ gave_back w p obj w'.
Proof.
  intros W Hh [(a & j & Hu) Hnd]. unfold k_object_pool_put. rewrite acquire_pool_ok by done. cbn [mbind outcome_bind]. set (w1 := set_held _ w).
  assert (W1 : wf w1) by (by apply wf_held). destruct (used_slab _ _ _ _ _ W Hu) as (sl & P & q & c & Hs & Hp & HP & G & S & Hj & Hni & Ho).
  unfold pool_at. simpl. rewrite HP. cbn [deref mbind outcome_bind]. fold (total_of (slab_page_order P)).
  pose proof (so_block _ _ _ _ _ _ _ S) as B. destruct (obj_range _ _ _ _ _ _ _ _ G S Hj) as [Hr1 Hr2]. rewrite <- Ho in Hr1, Hr2. pose proof (pg_obj _ G).
  pose proof (total_bounds _ (pg_order _ G)) as Ht. rewrite (round_down_block obj _ (kva q)); [|lia|apply kva_aligned; [apply G|apply B]|lia].
  rewrite (kva2page_ok _ q) by (apply (w_mapped _ W) || apply (bk_first _ _ _ _ _ B) || unfold PAGE_SIZE; lia). cbn [mbind outcome_bind].
  rewrite (block_assert _ _ _ _ _ B). cbn [mbind outcome_bind]. pose proof (bsize_pos (slab_page_order P)).
  rewrite (proj2 (bk_slab _ _ _ _ _ B q)) by lia. cbn [deref mbind outcome_bind].
  destruct (put_slab_ok w1 p a j obj W1 Hu Hnd) as (P0 & P' & sl0 & sl' & C & -> & E & Hj0 & Hni0 & Hfr & W2). cbn [mbind outcome_bind].
  rewrite (release_pool_ok p (held w)) by done. eexists. split; [done|]. set (w2 := update p P' a sl' w1) in *.
  assert (C' : slab_change p P0 P' a sl0 sl' w w2) by (destruct C; by split). apply slab_change_sym in C' as C2.
  assert (Ecap : slab_capacity P' = slab_capacity P0 ∧ block_size P' = block_size P0) by (by rewrite (sc_geometry _ _ _ _ _ _ _ _ C')). destruct Ecap as [Ecap Ebs].
  assert (Huse := change_in_use p P' P0 a sl' sl0 w2 w j C2). rewrite Ecap, Ebs, (sc_data _ _ _ _ _ _ _ _ C'), <- E in Huse. specialize (Huse Hj0 Hni0 Hfr).
  split; [by apply wf_held|done|done|exists P0, P'; split; [apply C'|split; [apply C'|apply C']]| |].
  - intros p2 o. change (in_use (set_held (held w) w2) p2 o) with (in_use w2 p2 o). rewrite Huse. split.
    + intros Hin. split; [by left|]. intros ->. destruct Hin as (b & i & Hb).
      assert (Hb' : used_at (pools w) (slabs w) b i p2 obj).
      { destruct (change_used _ _ _ _ _ _ _ _ _ _ _ _ C2 Hb) as [[_ ?]|(-> & -> & ? & Hn & E2)]; [done|]. exfalso. apply Hn, Hfr. left. rewrite Ebs, (sc_data _ _ _ _ _ _ _ _ C') in E2.
        pose proof (sc_at _ _ _ _ _ _ _ _ C') as HP0. rewrite HP in HP0. injection HP0 as <-. nia. }
      destruct (used_unique _ _ _ _ _ _ _ _ W Hu Hb') as (-> & -> & ->).
      destruct (change_used _ _ _ _ _ _ _ _ _ _ _ _ C2 Hb) as [[? _]|(_ & _ & _ & Hn & _)]; [done|]. apply Hn, Hfr. by left.
    + intros [[?|[_ ?]] ?]; done.
  - intros b. split; [apply (change_desc _ _ _ _ _ _ _ _ b C2)|apply (change_desc _ _ _ _ _ _ _ _ b C')].
Qed.

(** ** New slabs *)

(** A block that has been allocated and belongs to no slab yet. *)
Record unused_block w (q : Z) (o : nat) : Prop := {
  ub_align : q mod bsize o = 0;
  ub_live : ∀ i, q ≤ i < q + bsize o → live (pg w) i 0 PAGE_TAG_SLAB;
  ub_free : ∀ i, q ≤ i < q + bsize o → page_slab w !! i = None
}.

Definition keeps_live st st' : Prop := ∀ i k tag, live st i k tag → live st' i k tag.

Lemma block_ok_live st st' ps a q o : keeps_live st st' → block_ok st ps a q o → block_ok st' ps a q o.
Proof. intros H [B1 B2 B3 B4]. split; auto. Qed.

Lemma wf_set_pg st' w : wf w → PageAlloc.wf st' → page_count st' = page_count (pg w) → keeps_live (pg w) st' → wf (set_pg st' w).
Proof.
  intros W Hw Hc Hl. destruct W as [W1 W2 W3 W4 W5 W6 W7 W8 W9]. split; try done; simpl.
  - unfold pages_mapped in *. lia.
  - intros a sl Hs. destruct (W5 a sl Hs) as (P & q & c & HP & S). exists P, q, c. split; [done|]. destruct S. split; try done. by eapply block_ok_live.
Qed.

Lemma slab_pages_live w i a : wf w → page_slab w !! i = Some a → ∃ k, live (pg w) i k PAGE_TAG_SLAB.
Proof.
  intros W Hi. destruct (w_page _ W i a Hi) as [sl Hs]. destruct (w_slab _ W a sl Hs) as (P & q & c & _ & S).
  apply (block_page _ _ _ _ _ i (so_block _ _ _ _ _ _ _ S)). by apply (bk_slab _ _ _ _ _ (so_block _ _ _ _ _ _ _ S)).
Qed.

Lemma alloc_block_ok w o :
  wf w → (o ≤ PAGE_ORDER_MAX)%nat →
  match page_alloc_block (pg w) o 0 PAGE_TAG_SLAB with
  | Ok (q, st) => wf (set_pg st w) ∧ unused_block (set_pg st w) q o ∧ keeps_live (pg w) st ∧
      (∀ i, q ≤ i < q + bsize o → covered (pg w) i) ∧ ∀ i, covered st i → covered (pg w) i
  | Panic x => x = "out of memory"%string
  end.
Proof.
  intros W Ho. pose proof (page_alloc_cases (pg w) o 0 PAGE_TAG_SLAB (w_pg _ W) Ho) as Ha. destruct (page_alloc_block _ _ _ _) as [[q st]|]; [|done].
  destruct Ha as [Hw1 Ha]. assert (Hl := λ i k tag, block_live _ _ _ _ _ i k tag Ha). assert (Hf := λ i k tag, block_was_free _ _ _ _ _ i k tag Ha).
  assert (Hold : keeps_live (pg w) st) by (intros i k tag Hi; apply Hl; right; split; [done|]; intros Hin; by destruct (Hf i k tag Hin)).
  split; [apply wf_set_pg; [done|done|apply (al_count _ _ _ _ _ Ha)|done]|]. split; [|split; [done|]; split; [apply (al_was_free _ _ _ _ _ Ha)|intros i Hi; by apply (al_covered _ _ _ _ _ Ha)]]. split; simpl.
  - apply aligned_mod, Ha.
  - intros i Hi. apply Hl. by left.
  - intros i Hi. destruct (page_slab w !! i) as [a|] eqn:E; [|done]. destruct (slab_pages_live w i a W E) as [k Hk]. by destruct (Hf i k PAGE_TAG_SLAB Hi).
Qed.

Lemma add_ref_covered d st p st' i : add_ref d st p = Ok st' → covered st' i ↔ covered st i.
Proof. unfold add_ref. destruct (pages st !! p); [|done]. intros [= <-]. by apply covered_ext. Qed.

(** The block becomes that of slab [a]. *)
Lemma mark_block_ok w q o a :
  wf w → unused_block w q o → (∀ i, page_slab w !! i ≠ Some a) →
  ∃ st', page_inc_ref (pg w) q = Ok st' ∧ PageAlloc.wf st' ∧ page_count st' = page_count (pg w) ∧
    let ps' := mark_pages (Z.to_nat (bsize o)) q a (page_slab w) in
    block_ok st' ps' a q o ∧ (∀ i, ¬ q ≤ i < q + bsize o → ps' !! i = page_slab w !! i) ∧
    (∀ i k tag, i ≠ q → live (pg w) i k tag → live st' i k tag) ∧ (∀ b q2 o2, block_ok (pg w) (page_slab w) b q2 o2 → block_ok st' ps' b q2 o2) ∧ ∀ i, covered st' i → covered (pg w) i.
Proof.
  intros W [U1 U2 U3] Hna. pose proof (bsize_pos o) as Hb. destruct (add_ref_live 1 (pg w) q 0 PAGE_TAG_SLAB (w_pg _ W) (U2 q ltac:(lia))) as (st' & E & Hw' & Hq' & Hc' & Hfr).
  exists st'. split; [done|]. split; [done|]. split; [done|]. cbv zeta.
  assert (Hps : ∀ i, mark_pages (Z.to_nat (bsize o)) q a (page_slab w) !! i = if decide (q ≤ i < q + bsize o) then Some a else page_slab w !! i).
  { intros i. rewrite mark_pages_ok, Z2Nat.id by lia. done. }
  split; [|split; [|split; [|split]]].
  - split; [done|done| |].
    + intros i Hi. apply Hfr; [lia|]. apply U2. lia.
    + intros i. rewrite Hps. case_decide; split; try done. intros E1. by destruct (Hna i).
  - intros i Hi. by rewrite Hps, decide_False.
  - intros i k tag Hi. by apply Hfr.
  - intros b q2 o2 B. destruct B as [B1 B2 B3 B4]. pose proof (bsize_pos o2).
    assert (Hout : ∀ i, q2 ≤ i < q2 + bsize o2 → ¬ q ≤ i < q + bsize o) by (intros i Hi Hin; rewrite <- B4, U3 in Hi by done; done).
    assert (Hno : ∀ i, q2 ≤ i < q2 + bsize o2 → i ≠ q) by (intros i Hi ->; apply (Hout q Hi); lia).
    split; [done|apply Hfr; [apply Hno; lia|done]|intros i Hi; apply Hfr; [apply Hno; lia|by apply B3]|].
    intros i. rewrite Hps. case_decide as Hi; [|apply B4]. split; [|intros Hi2; by destruct (Hout i Hi2)].
    intros [= <-]. destruct (Hna q2). apply B4. lia.
  - intros i. rewrite (add_ref_covered _ _ _ _ i E). done.
Qed.

Lemma used_kva w a i p obj : wf w → used_at (pools w) (slabs w) a i p obj →
  ∃ j, kva j ≤ obj < kva j + PAGE_SIZE ∧ page_slab w !! j = Some a.
Proof.
  intros W H. destruct (used_slab _ _ _ _ _ W H) as (sl & P & q & c & _ & _ & _ & G & S & Hi & _ & ->).
  destruct (obj_range _ _ _ _ _ _ _ _ G S Hi) as [H1 H2]. pose proof (pg_obj _ G).
  destruct (slab_page _ _ _ _ _ _ _ (sl_data sl + block_size P * i) (w_mapped _ W) G S) as (j & _ & _ & Hj & Hs); [lia|]. by exists j.
Qed.

Lemma desc_fits P : pool_geometry P → off_slab P = false → 0 < desc_size P ≤ total_of (slab_page_order P).
Proof.
  intros G Ho. destruct (pg_fits _ G) as [Hc Ht Hw _]. pose proof (pg_obj _ G). rewrite Ho in *. unfold desc_size, per_of, extra_of, sizeof_KObjectSlab, sizeof_KObjectTag in *. nia.
Qed.

(** Descriptors are in pages of slabs. *)
Lemma slab_addr w a sl : wf w → slabs w !! a = Some sl → ∃ j, kva j ≤ a < kva j + PAGE_SIZE ∧ is_Some (page_slab w !! j).
Proof.
  intros W Hs. destruct (w_slab _ W a sl Hs) as (P & q & c & HP & S). pose proof (w_pool _ W _ _ HP) as G. destruct (off_slab P) eqn:Ho.
  - destruct (w_desc _ W a sl P Hs HP Ho) as (p' & Q & _ & _ & _ & b & i & Hu). destruct (used_kva _ _ _ _ _ W Hu) as (j & Hj & E). exists j. split; [done|]. by eexists.
  - pose proof (desc_fits P G Ho) as Hd. pose proof (so_place _ _ _ _ _ _ _ S Ho) as Ha.
    destruct (slab_page _ _ _ _ _ _ _ a (w_mapped _ W) G S) as (j & _ & _ & Hj & E); [lia|]. exists j. split; [done|]. by eexists.
Qed.

Lemma page_unique i j x : kva i ≤ x < kva i + PAGE_SIZE → kva j ≤ x < kva j + PAGE_SIZE → i = j.
Proof. unfold kva, PAGE_SIZE. lia. Qed.

(** A descriptor in a new block is new. *)
Lemma new_addr w q o a : wf w → unused_block w q o → kva q ≤ a < kva q + total_of o → slabs w !! a = None.
Proof.
  intros W U Ha. destruct (slabs w !! a) as [sl|] eqn:E; [|done]. exfalso. destruct (slab_addr w a sl W E) as (j & Hj & [b Hb]).
  unfold total_of in Ha. assert (Hq : q ≤ j < q + bsize o) by (unfold kva, PAGE_SIZE in *; lia). by rewrite (ub_free _ _ _ U j Hq) in Hb.
Qed.

Lemma full_chain (l : list Z) (n : Z) : NoDup l → Forall (λ j, 0 ≤ j < n) l → Z.of_nat (length l) = n → ∀ i, 0 ≤ i < n → i ∈ l.
Proof.
  intros Hnd Hr Hl i Hi. assert (H : l ⊆+ seqZ 0 n).
  { apply NoDup_submseteq; [done|]. intros j Hj. rewrite Forall_forall in Hr. apply elem_of_seqZ. specialize (Hr j Hj). lia. }
  assert (E : l ≡ₚ seqZ 0 n) by (apply submseteq_length_Permutation; [done|rewrite length_seqZ; lia]). rewrite E. apply elem_of_seqZ. lia.
Qed.

(** [P'] is [P] but for the lists and the next color. *)
Definition same_layout P P' : Prop :=
  P' = MkPool (off_slab P) (slabs_empty P') (slabs_partial P') (slabs_full P') (slab_capacity P) (slab_page_order P)
    (block_size P) (block_align P) (obj_size P) (color_max P) (color_next P').

Lemma slab_ok_layout st ps a sl P P' q c : same_layout P P' → slab_ok st ps a sl P q c → slab_ok st ps a sl P' q c.
Proof. intros E S. rewrite E. destruct S. by split. Qed.

Lemma colored_geometry a P : pool_geometry P → pool_geometry (colored a P).
Proof.
  intros [H1 H2 H3 H4 H5 H6 H7]. split; try done. simpl. unfold next_color. destruct (Z.ltb_spec (color_max P) (color_next P + block_align P)).
  - split; [lia|]. apply Z.mod_0_l. lia.
  - split; [lia|]. rewrite Z.add_mod, Z_mod_same_full, (proj2 H5) by lia. done.
Qed.

Lemma colored_lists m p P a sl :
  lists_ok m p P → m !! a = None → sl_pool sl = p → sl_used sl = 0 → 1 ≤ slab_capacity P → lists_ok (<[a := sl]> m) p (colored a P).
Proof.
  intros L Ha Hp Hu Hc. destruct L as [(N1 & N2 & N3) He Hs Hf].
  assert (Hn : a ∉ slabs_empty P ∧ a ∉ slabs_partial P ∧ a ∉ slabs_full P) by (split_and!; rewrite ?He, ?Hs, ?Hf, Ha; by intros (? & ? & _)).
  apply (lists_update m p P); try done; simpl.
  - by rewrite Ha.
  - split; [done|]. split; [done|]. apply NoDup_app. split; [done|]. split; [|apply NoDup_singleton]. intros b Hb ->%list_elem_of_singleton. naive_solver.
  - intros b Hb. rewrite elem_of_app, list_elem_of_singleton. naive_solver.
  - split; [naive_solver|lia].
  - split; [naive_solver|lia].
  - rewrite elem_of_app, list_elem_of_singleton. naive_solver.
Qed.

(** The world with a new slab [a] of pool [p]. *)
Definition with_slab p P a sl st ps w : world :=
  MkWorld st ps (<[p := colored a P]> (pools w)) (<[a := sl]> (slabs w)) (pool_list w) (anon_pools w) (held w).

Lemma with_slab_pools p P a sl st ps w p2 P2 : pools w !! p = Some P →
  pools (with_slab p P a sl st ps w) !! p2 = Some P2 → ∃ P1, pools w !! p2 = Some P1 ∧ same_layout P1 P2.
Proof.
  intros HP. simpl. rewrite lookup_insert. case_decide as E; [subst; intros [= <-]; by exists P|]. intros H. exists P2. split; [done|]. by destruct P2.
Qed.

(** No object of the new slab is in use. *)
Lemma with_slab_used p P a sl st ps w b i p2 o :
  pools w !! p = Some P → slabs w !! a = None → sl_pool sl = p → (∀ i, 0 ≤ i < slab_capacity P → i ∈ free_of sl) →
  used_at (pools (with_slab p P a sl st ps w)) (slabs (with_slab p P a sl st ps w)) b i p2 o ↔ used_at (pools w) (slabs w) b i p2 o.
Proof.
  intros HP Ha Hp Hfree. unfold used_at. split.
  - intros (sl0 & P0 & H1 & H2 & H3 & H4 & H5 & H6). destruct (with_slab_pools _ _ _ _ _ _ _ _ _ HP H3) as (P1 & HP1 & E1). simpl in H1. rewrite lookup_insert in H1.
    assert (slab_capacity P0 = slab_capacity P1 ∧ block_size P0 = block_size P1) as [Ec Eb] by (by rewrite E1). rewrite Ec in *. rewrite Eb in *. case_decide as Hb.
    + injection H1 as <-. rewrite Hp in H2. subst p2. rewrite HP in HP1. injection HP1 as <-. by destruct H5; apply Hfree.
    + by exists sl0, P1.
  - intros (sl0 & P0 & H1 & H2 & H3 & H4 & H5 & H6). exists sl0. simpl. destruct (decide (b = a)) as [->|Hb]; [congruence|].
    destruct (decide (p = p2)) as [<-|Hp2].
    + rewrite HP in H3. injection H3 as <-. exists (colored a P). rewrite lookup_insert_ne, lookup_insert_eq by done. done.
    + exists P0. rewrite !lookup_insert_ne by done. done.
Qed.

Lemma with_slab_desc p P a sl st ps w b :
  pools w !! p = Some P → slabs w !! a = None → sl_pool sl = p →
  is_desc (with_slab p P a sl st ps w) b ↔ is_desc w b ∨ b = a ∧ off_slab P = true.
Proof.
  intros HP Ha Hp. unfold is_desc. split.
  - intros (sl0 & P0 & H1 & H2 & H3). destruct (with_slab_pools _ _ _ _ _ _ _ _ _ HP H2) as (P1 & HP1 & E1). simpl in H1. rewrite lookup_insert in H1.
    rewrite E1 in H3. simpl in H3. case_decide as Hb; [|left; by exists sl0, P1]. injection H1 as <-. right. rewrite Hp, HP in HP1. injection HP1 as <-. done.
  - intros [(sl0 & P0 & H1 & H2 & H3)|[-> Ho]]; simpl.
    + exists sl0. destruct (decide (b = a)) as [->|Hb]; [congruence|]. destruct (decide (p = sl_pool sl0)) as [Ep|Ep].
      * exists (colored a P). rewrite <- Ep, HP in H2. injection H2 as <-. rewrite lookup_insert_ne by done. rewrite <- Ep, lookup_insert_eq. done.
      * exists P0. rewrite !lookup_insert_ne by done. done.
    + exists sl, (colored a P). rewrite Hp, !lookup_insert_eq. done.
Qed.

Lemma with_slab_ok p P a sl st ps w q c :
  wf w → pools w !! p = Some P → slabs w !! a = None → sl_pool sl = p → sl_used sl = 0 → (∀ i, 0 ≤ i < slab_capacity P → i ∈ free_of sl) →
  PageAlloc.wf st → page_count st = page_count (pg w) → slab_ok st ps a sl P q c →
  (∀ i, ¬ q ≤ i < q + bsize (slab_page_order P) → ps !! i = page_slab w !! i) →
  (∀ b q2 o2, block_ok (pg w) (page_slab w) b q2 o2 → block_ok st ps b q2 o2) →
  (off_slab P = true → ∃ p' Q, pools w !! p' = Some Q ∧ off_slab Q = false ∧ desc_size P ≤ obj_size Q ∧ in_use w p' a) →
  wf (with_slab p P a sl st ps w).
Proof.
  intros W HP Ha Hp Hu Hfree Hst Hc S Hps Hbl Hdesc. pose proof (w_pool _ W p P HP) as G. set (w' := with_slab p P a sl st ps w).
  assert (Hpools := λ p2 P2, with_slab_pools p P a sl st ps w p2 P2 HP). fold w' in Hpools.
  assert (Huse : ∀ p2 o, in_use w p2 o → in_use w' p2 o) by (intros p2 o (b & i & H); exists b, i; by apply with_slab_used).
  assert (Hup : ∀ p2 P2, pools w !! p2 = Some P2 → ∃ P3, pools w' !! p2 = Some P3 ∧ same_layout P2 P3).
  { intros p2 P2 H2. simpl. rewrite lookup_insert. case_decide as E; [|exists P2; split; [done|by destruct P2]]. subst p2.
    rewrite HP in H2. injection H2 as <-. by exists (colored a P). }
  split; simpl.
  - done.
  - unfold pages_mapped. rewrite Hc. apply (w_mapped _ W).
  - intros p2 P2. rewrite lookup_insert. case_decide; [intros [= <-]; by apply colored_geometry|apply (w_pool _ W)].
  - intros p2 P2. rewrite lookup_insert. case_decide as E.
    + subst p2. intros [= <-]. apply colored_lists; try done; [by apply (w_lists _ W)|by apply cap_pos].
    + intros H2. apply lists_other; [by apply (w_lists _ W)|by rewrite Ha|congruence].
  - intros b sl0. rewrite lookup_insert. case_decide as E.
    + subst b. intros [= <-]. exists (colored a P), q, c. rewrite Hp, lookup_insert_eq. split; [done|]. by eapply slab_ok_layout.
    + intros H0. destruct (w_slab _ W b sl0 H0) as (P0 & q0 & c0 & HP0 & S0). destruct (Hup _ _ HP0) as (P3 & H3 & E3). exists P3, q0, c0. split; [done|].
      eapply slab_ok_layout; [exact E3|]. destruct S0. split; try done. by apply Hbl.
  - intros i b Hi. rewrite lookup_insert. case_decide as E; [by eexists|]. destruct (decide (q ≤ i < q + bsize (slab_page_order P))) as [Hin|Hin].
    + apply (bk_slab _ _ _ _ _ (so_block _ _ _ _ _ _ _ S)) in Hin. congruence.
    + rewrite Hps in Hi by done. by apply (w_page _ W i).
  - intros b sl0 P0 H1 H2 H3. destruct (Hpools _ _ H2) as (P1 & HP1 & E1).
    assert (Hd : ∃ p' Q, pools w !! p' = Some Q ∧ off_slab Q = false ∧ desc_size P1 ≤ obj_size Q ∧ in_use w p' b).
    { rewrite E1 in H3. simpl in H3. rewrite lookup_insert in H1. case_decide as E; [subst b; injection H1 as <-; rewrite Hp, HP in HP1; injection HP1 as <-; by apply Hdesc|].
      by apply (w_desc _ W b sl0 P1). }
    destruct Hd as (p' & Q & HQ & Ho & Hsz & Hin). destruct (Hup _ _ HQ) as (Q' & HQ' & EQ). exists p', Q'. split; [done|]. rewrite EQ. split; [done|]. split; [|by apply Huse].
    simpl. rewrite E1. done.
  - intros i p2 Hi. destruct (w_anon _ W i p2 Hi) as (P2 & H2 & H3 & H4). destruct (Hup _ _ H2) as (P3 & HP3 & E3). exists P3. split; [done|]. by rewrite E3.
  - intros p2 P2 H2 Ho i Hi. destruct (Hpools p2 P2 H2) as (P1 & H1 & E). rewrite E in Ho. by apply (w_small _ W p2 P1 H1).
Qed.

Lemma init_slab_ok p P q last :
  pool_geometry P → last = kva q + total_of (slab_page_order P) - (if off_slab P then 0 else desc_size P) → 0 ≤ q → last ≤ 2 ^ 32 →
  ∃ sl, init_objects (Z.to_nat (slab_capacity P)) (kva q + color_next P) last P (MkSlab p (kva q + color_next P) None 0 (replicate (Z.to_nat (slab_capacity P)) None)) = Ok sl ∧
    sl_pool sl = p ∧ sl_data sl = kva q + color_next P ∧ sl_used sl = 0 ∧ chain_ok sl (slab_capacity P) (free_of sl) ∧
    ∀ i, 0 ≤ i < slab_capacity P → i ∈ free_of sl.
Proof.
  intros G Hlast Hq H32. pose proof (cap_pos _ G) as Hc. pose proof (pg_obj _ G) as Hb. destruct (pg_color _ G) as [Hcol _].
  set (sl0 := MkSlab p (kva q + color_next P) None 0 (replicate (Z.to_nat (slab_capacity P)) None)).
  destruct (init_objects_ok (Z.to_nat (slab_capacity P)) 0 last P sl0 []) as (sl & l & E & H1 & H2 & H3 & H4 & H5 & H6 & H7 & H8); simpl; try done; try lia.
  - rewrite Hlast. destruct (pg_fits _ G) as [_ Ht _ _]. unfold per_of, extra_of, desc_size in *. destruct (off_slab P); lia.
  - unfold kva, VIRT_KERNEL_BASE, PAGE_SIZE. lia.
  - rewrite length_replicate. lia.
  - apply NoDup_nil_2.
  - exists sl. simpl in E, H8. rewrite Z.mul_0_r, Z.add_0_r in E.
    assert (Hch : chain_ok sl (slab_capacity P) l) by (split; try done; simpl in H3; lia). rewrite (chain_free_of _ _ _ Hch).
    split_and!; try done. apply full_chain; [done|done|lia].
Qed.

Lemma finish_slab_ok w p P q a :
  wf w → pools w !! p = Some P → unused_block w q (slab_page_order P) → slabs w !! a = None →
  (if off_slab P then ∃ p' Q, pools w !! p' = Some Q ∧ off_slab Q = false ∧ desc_size P ≤ obj_size Q ∧ in_use w p' a
   else a = kva q + total_of (slab_page_order P) - desc_size P) →
  ∃ sl st ps, finish_slab p q (kva q) (kva q + total_of (slab_page_order P) - (if off_slab P then 0 else desc_size P)) a (slab_page_order P) w =
      Ok (Some a, with_slab p P a sl st ps w) ∧ sl_pool sl = p ∧ sl_used sl = 0 ∧ (∀ i, 0 ≤ i < slab_capacity P → i ∈ free_of sl) ∧
    wf (with_slab p P a sl st ps w) ∧ (∀ i k tag, ¬ q ≤ i < q + bsize (slab_page_order P) → live (pg w) i k tag → live st i k tag) ∧
    (∀ i, ¬ q ≤ i < q + bsize (slab_page_order P) → ps !! i = page_slab w !! i) ∧ ∀ i, covered st i → covered (pg w) i.
Proof.
  intros W HP U Ha Hplace. pose proof (w_pool _ W p P HP) as G. pose proof (bsize_pos (slab_page_order P)) as Hb.
  assert (Hna : ∀ i, page_slab w !! i ≠ Some a) by (intros i Hi; destruct (w_page _ W i a Hi); congruence).
  destruct (mark_block_ok w q (slab_page_order P) a W U Hna) as (st & E & Hst & Hc & B & Hps & Hlv & Hbl & Hcv). unfold finish_slab. simpl. rewrite E. cbn [mbind outcome_bind].
  unfold pool_at. simpl. rewrite HP. cbn [deref mbind outcome_bind].
  assert (Hq : 0 ≤ q ∧ kva q + total_of (slab_page_order P) ≤ 2 ^ 32).
  { destruct (ub_live _ _ _ U q ltac:(lia)) as ([? _] & _). destruct (ub_live _ _ _ U (q + bsize (slab_page_order P) - 1) ltac:(lia)) as ([_ Hlast] & _).
    pose proof (w_mapped _ W) as Hm. unfold pages_mapped, kva, total_of, VIRT_KERNEL_BASE, PAGE_SIZE in *. lia. }
  pose proof (f_cap _ _ _ _ _ (pg_fits _ G)).
  assert (0 ≤ (if off_slab P then 0 else desc_size P)) by (unfold desc_size, sizeof_KObjectSlab, sizeof_KObjectTag; destruct (off_slab P); lia).
  destruct (init_slab_ok p P q _ G eq_refl) as (sl & -> & H1 & H2 & H3 & H4 & H5); [lia|lia|]. cbn [mbind outcome_bind].
  eexists sl, st, _. split; [reflexivity|]. split; [done|]. split; [done|]. split; [done|]. split.
  - eapply (with_slab_ok p P a sl st _ w q (color_next P)); try done; [|intros Ho; by rewrite Ho in Hplace]. split; try done; [apply (pg_color _ G)|]. intros Ho. by rewrite Ho in Hplace.
  - split; [|done]. intros i k tag Hi. apply Hlv. intros ->. apply Hi. lia.
Qed.

(** ** The frame of an operation *)

(** A page that is not free and belongs to no slab. *)
Definition reserved w (i : Z) : Prop := ¬ covered (pg w) i ∧ page_slab w !! i = None.

(** Objects in use stay; the new ones are those of [E] and descriptors of slabs. *)
Record frame (E : Z → Z → Prop) w w' : Prop := {
  fr_wf : wf w';
  fr_held : held w' = held w;
  fr_anon : anon_pools w' = anon_pools w;
  fr_pools : ∀ p P, pools w !! p = Some P → ∃ P', pools w' !! p = Some P' ∧ same_layout P P';
  fr_dom : ∀ p P', pools w' !! p = Some P' → ∃ P, pools w !! p = Some P ∧ same_layout P P';
  fr_kept : ∀ p o, in_use w p o → in_use w' p o;
  fr_new : ∀ p o, in_use w' p o → in_use w p o ∨ is_desc w' o ∨ E p o;
  fr_descs : ∀ b, is_desc w b → is_desc w' b;
  fr_desc_new : ∀ b, is_desc w' b → is_desc w b ∨ ∀ p, ¬ in_use w p b;
  fr_live : keeps_live (pg w) (pg w');
  fr_pages : ∀ i k tag, live (pg w) i k tag → page_slab w' !! i = page_slab w !! i;
  fr_reserved : ∀ i, reserved w i → reserved w' i
}.

Lemma same_layout_refl P : same_layout P P.
Proof. by destruct P. Qed.
Lemma same_layout_trans P P1 P2 : same_layout P P1 → same_layout P1 P2 → same_layout P P2.
Proof. unfold same_layout. intros E1 E2. rewrite E2, E1. done. Qed.
Lemma same_geometry_layout P P' : same_geometry P P' → same_layout P P'.
Proof. intros E. rewrite E. done. Qed.

(** Descriptors are objects in use. *)
Lemma desc_in_use w b : wf w → is_desc w b → ∃ p, in_use w p b.
Proof. intros W (sl & P & H1 & H2 & H3). destruct (w_desc _ W b sl P H1 H2 H3) as (p & Q & _ & _ & _ & Hu). by exists p. Qed.

Definition nothing (p o : Z) : Prop := False.
Definition just (p0 o0 p o : Z) : Prop := p = p0 ∧ o = o0.

Lemma slab_frame_refl w : wf w → frame nothing w w.
Proof.
  intros W. split; try done; try (intros; by left); try (by intros ???); intros p P H; exists P; (split; [done|apply same_layout_refl]).
Qed.

(** A block more of pages changes nothing. *)
Lemma frame_set_pg st w : wf (set_pg st w) → keeps_live (pg w) st → (∀ i, covered st i → covered (pg w) i) → frame nothing w (set_pg st w).
Proof.
  intros W Hl Hcv. split; try done; try (intros; by left); try (intros i [H1 H2]; split; [by intros ?%Hcv|done]); intros p P H; exists P; (split; [done|apply same_layout_refl]).
Qed.

Lemma slab_frame_trans E1 E2 w w1 w2 : frame E1 w w1 → frame E2 w1 w2 → frame (λ p o, E1 p o ∨ E2 p o) w w2.
Proof.
  intros F1 F2. split.
  - apply F2.
  - rewrite (fr_held _ _ _ F2). apply F1.
  - rewrite (fr_anon _ _ _ F2). apply F1.
  - intros p P H. destruct (fr_pools _ _ _ F1 p P H) as (P1 & H1 & L1). destruct (fr_pools _ _ _ F2 p P1 H1) as (P2 & H2 & L2). exists P2. split; [done|by eapply same_layout_trans].
  - intros p P2 H. destruct (fr_dom _ _ _ F2 p P2 H) as (P1 & H1 & L1). destruct (fr_dom _ _ _ F1 p P1 H1) as (P & H0 & L0). exists P. split; [done|by eapply same_layout_trans].
  - intros p o H. by apply F2, F1.
  - intros p o H. destruct (fr_new _ _ _ F2 p o H) as [H1|[H1|H1]]; [|by auto|by auto]. destruct (fr_new _ _ _ F1 p o H1) as [?|[?|?]]; [by left|right; left; by apply F2|by auto].
  - intros b H. by apply F2, F1.
  - intros b H. destruct (fr_desc_new _ _ _ F2 b H) as [H1|H1]; [by apply F1|]. right. intros p Hp. by apply (H1 p), F1.
  - intros i k tag H. by apply F2, F1.
  - intros i k tag H. rewrite (fr_pages _ _ _ F2 i k tag) by (by apply F1). by apply (fr_pages _ _ _ F1 i k tag).
  - intros i H. by apply F2, F1.
Qed.

(** A new slab; its pages were those of an unused block. *)
Lemma frame_with_slab E E' p P a sl st ps w q w0 :
  wf (with_slab p P a sl st ps w) → pools w !! p = Some P → slabs w !! a = None → sl_pool sl = p →
  (∀ i, 0 ≤ i < slab_capacity P → i ∈ free_of sl) →
  (∀ i k tag, ¬ q ≤ i < q + bsize (slab_page_order P) → live (pg w) i k tag → live st i k tag) →
  (∀ i, ¬ q ≤ i < q + bsize (slab_page_order P) → ps !! i = page_slab w !! i) →
  frame E w0 w → (∀ i k tag, q ≤ i < q + bsize (slab_page_order P) → ¬ live (pg w0) i k tag) → (∀ p2, ¬ in_use w0 p2 a) →
  (∀ p2 o, E p2 o → E' p2 o ∨ o = a ∧ off_slab P = true) →
  (∀ i, q ≤ i < q + bsize (slab_page_order P) → covered (pg w0) i) → (∀ i, covered st i → covered (pg w) i) → frame E' w0 (with_slab p P a sl st ps w).
Proof.
  intros W' HP Ha Hp Hfree Hlv Hps F Hno Hna HE Hcov Hcst. set (w' := with_slab p P a sl st ps w).
  assert (Huse : ∀ p2 o, in_use w' p2 o ↔ in_use w p2 o) by (intros p2 o; split; intros (b & i & H); exists b, i; revert H; by apply with_slab_used).
  assert (Hdesc := λ b, with_slab_desc p P a sl st ps w b HP Ha Hp). fold w' in Hdesc. split.
  - done.
  - apply F.
  - apply F.
  - intros p2 P2 H. destruct (fr_pools _ _ _ F p2 P2 H) as (P1 & H1 & L1). simpl. rewrite lookup_insert. case_decide as Ep; [|by exists P1].
    subst p2. rewrite HP in H1. injection H1 as <-. exists (colored a P). split; [done|]. eapply same_layout_trans; [exact L1|done].
  - intros p2 P2 H. destruct (with_slab_pools _ _ _ _ _ _ _ _ _ HP H) as (P1 & H1 & L1). destruct (fr_dom _ _ _ F p2 P1 H1) as (P0 & H0 & L0).
    exists P0. split; [done|by eapply same_layout_trans].
  - intros p2 o H. by apply Huse, F.
  - intros p2 o H. apply Huse in H. destruct (fr_new _ _ _ F p2 o H) as [?|[?|He]]; [by left|right; left; apply Hdesc; by left|].
    destruct (HE p2 o He) as [?|?]; [by auto|]. right. left. apply Hdesc. by right.
  - intros b H. apply Hdesc. left. by apply F.
  - intros b H. apply Hdesc in H as [H|[-> _]]; [by apply F|by right].
  - intros i k tag H. apply Hlv; [|by apply F]. intros Hi. by apply (Hno i k tag).
  - intros i k tag H. simpl. rewrite Hps by (intros Hi; by apply (Hno i k tag)). by apply (fr_pages _ _ _ F i k tag).
  - intros i H. destruct (fr_reserved _ _ _ F i H) as [H1 H2]. split; [by intros ?%Hcst|]. simpl. rewrite Hps; [done|]. intros Hi. by apply H, Hcov.
Qed.

(** A new object of pool [p]. *)
Record got w p obj w' : Prop := {
  gt_frame : frame (just p obj) w w';
  gt_use : in_use w' p obj;
  gt_new : ∀ p2, ¬ in_use w p2 obj;
  gt_plain : ¬ is_desc w' obj
}.

(** What [k_object_pool_slab_create] relies on for a pool of large objects. *)
Definition malloc_ok (malloc : Z → world → outcome (option Z * world)) p (h : gset Z) : Prop :=
  ∀ w size P, wf w → held w = h → pools w !! p = Some P → off_slab P = true → 0 < size ≤ 128 →
    match malloc size w with
    | Ok (Some a, w') => ∃ p' Q, got w p' a w' ∧ pools w' !! p' = Some Q ∧ off_slab Q = false ∧ size ≤ obj_size Q
    | Ok (None, _) => False
    | Panic x => x = "out of memory"%string
    end.

Lemma unused_not_object w q o x p : wf w → unused_block w q o → kva q ≤ x < kva q + total_of o → ¬ in_use w p x.
Proof.
  intros W U Hx (a & i & Hu). destruct (used_kva _ _ _ _ _ W Hu) as (j & Hj & E).
  unfold total_of in Hx. assert (Hq : q ≤ j < q + bsize o) by (unfold kva, PAGE_SIZE in *; lia). by rewrite (ub_free _ _ _ U j Hq) in E.
Qed.

(** A descriptor in its slab is not an object. *)
Lemma on_desc_not_object w a sl P p : wf w → slabs w !! a = Some sl → pools w !! sl_pool sl = Some P → off_slab P = false → ¬ in_use w p a.
Proof.
  intros W Hs HP Ho (b & i & Hu). destruct (w_slab _ W a sl Hs) as (P0 & q & c & HP0 & S). rewrite HP in HP0. injection HP0 as <-.
  pose proof (w_pool _ W _ _ HP) as G. pose proof (desc_fits P G Ho) as Hd. pose proof (so_place _ _ _ _ _ _ _ S Ho) as Ha.
  destruct (slab_page _ _ _ _ _ _ _ a (w_mapped _ W) G S) as (j & _ & _ & Hj & Ej); [lia|]. destruct (used_kva _ _ _ _ _ W Hu) as (j' & Hj' & Ej').
  rewrite (page_unique j' j a) in Ej' by done. assert (b = a) as -> by congruence.
  destruct (used_slab _ _ _ _ _ W Hu) as (sl1 & P1 & q1 & c1 & Hs1 & Hp1 & HP1 & _ & S1 & Hi & _ & Ea). rewrite Hs in Hs1. injection Hs1 as <-. rewrite Hp1 in HP. rewrite HP in HP1. injection HP1 as <-.
  pose proof (slab_room _ _ _ _ _ _ _ _ G S Hi) as Hr. rewrite Ho in Hr. rewrite (so_data _ _ _ _ _ _ _ S) in Ea. pose proof (pg_obj _ G). lia.
Qed.

Lemma unused_frame E w w' q o : frame E w w' → unused_block w q o → unused_block w' q o.
Proof.
  intros F [U1 U2 U3]. split; [done|intros i Hi; by apply F, U2|]. intros i Hi. rewrite (fr_pages _ _ _ F i 0 PAGE_TAG_SLAB) by (by apply U2). by apply U3.
Qed.

(** A new slab [a] of pool [p]. *)
Definition created w p a w' : Prop :=
  frame nothing w w' ∧ ∃ sl P', slabs w' !! a = Some sl ∧ sl_pool sl = p ∧ sl_used sl = 0 ∧ pools w' !! p = Some P'.

Lemma create_on_ok w p P q st :
  wf w → pools w !! p = Some P → off_slab P = false → wf (set_pg st w) → unused_block (set_pg st w) q (slab_page_order P) →
  keeps_live (pg w) st → (∀ i, q ≤ i < q + bsize (slab_page_order P) → covered (pg w) i) → (∀ i, covered st i → covered (pg w) i) →
  let a := kva q + total_of (slab_page_order P) - desc_size P in
  ∃ w', finish_slab p q (kva q) a a (slab_page_order P) (set_pg st w) = Ok (Some a, w') ∧ created w p a w'.
Proof.
  intros W HP Ho W1 U Hl Hcov Hcs a. assert (Hno : ∀ i k tag, q ≤ i < q + bsize (slab_page_order P) → ¬ live (pg w) i k tag) by (intros i k tag Hi (_ & _ & Hn); by apply Hn, Hcov). pose proof (desc_fits P (w_pool _ W p P HP) Ho) as Hd.
  assert (Hin : kva q ≤ a < kva q + total_of (slab_page_order P)) by (subst a; lia). assert (Ha : slabs w !! a = None) by apply (new_addr _ _ _ _ W1 U Hin).
  destruct (finish_slab_ok (set_pg st w) p P q a W1 HP U Ha) as (sl & st' & ps & E & H1 & H2 & H3 & W2 & H4 & H5 & H6); [by rewrite Ho|]. rewrite Ho in E. fold a in E.
  eexists. split; [done|]. split.
  - eapply (frame_with_slab nothing nothing); try done; [by apply frame_set_pg|intros p2; exact (unused_not_object _ _ _ _ p2 W1 U Hin)].
  - exists sl, (colored a P). simpl. rewrite !lookup_insert_eq. done.
Qed.

Lemma create_off_ok w p P q st w2 a p' Q :
  wf w → pools w !! p = Some P → off_slab P = true → wf (set_pg st w) → unused_block (set_pg st w) q (slab_page_order P) →
  keeps_live (pg w) st → (∀ i, q ≤ i < q + bsize (slab_page_order P) → covered (pg w) i) → (∀ i, covered st i → covered (pg w) i) →
  got (set_pg st w) p' a w2 → pools w2 !! p' = Some Q → off_slab Q = false → desc_size P ≤ obj_size Q →
  ∃ w', finish_slab p q (kva q) (kva q + total_of (slab_page_order P)) a (slab_page_order P) w2 = Ok (Some a, w') ∧ created w p a w'.
Proof.
  intros W HP Ho W1 U Hl Hcov Hcs [F Hu Hnew Hpl] HQ HQo Hsz.
  assert (Hno : ∀ i k tag, q ≤ i < q + bsize (slab_page_order P) → ¬ live (pg w) i k tag) by (intros i k tag Hi (_ & _ & Hn); by apply Hn, Hcov). pose proof (fr_wf _ _ _ F) as W2. destruct (fr_pools _ _ _ F p P HP) as (P2 & HP2 & L).
  assert (Hord : slab_page_order P2 = slab_page_order P) by (by rewrite L). assert (Ho2 : off_slab P2 = true) by (by rewrite L).
  assert (Hds : desc_size P2 = desc_size P) by (by rewrite L).
  assert (Ha : slabs w2 !! a = None).
  { destruct (slabs w2 !! a) as [sl|] eqn:Es; [|done]. exfalso. destruct (w_slab _ W2 a sl Es) as (P3 & _ & _ & HP3 & _). destruct (off_slab P3) eqn:Eo.
    - apply Hpl. by exists sl, P3.
    - by apply (on_desc_not_object w2 a sl P3 p' W2 Es HP3 Eo). }
  pose proof (unused_frame _ _ _ _ _ F U) as U2. rewrite <- Hord in *.
  destruct (finish_slab_ok w2 p P2 q a W2 HP2 U2 Ha) as (sl & st' & ps & E & H1 & H2 & H3 & W3 & H4 & H5 & H6); [rewrite Ho2, Hds; by exists p', Q|]. rewrite Ho2, Z.sub_0_r in E.
  eexists. split; [done|]. split.
  - eapply (frame_with_slab _ nothing); try done; [eapply slab_frame_trans; [by apply frame_set_pg|exact F]|]. intros p2 o [[]|[-> ->]]. by right.
  - exists sl, (colored a P2). simpl. rewrite !lookup_insert_eq. done.
Qed.

Lemma slab_create_ok malloc p P w :
  wf w → p ∈ held w → pools w !! p = Some P → (off_slab P = true → malloc_ok malloc p (held w)) →
  match k_object_pool_slab_create malloc p w with
  | Ok (Some a, w') => created w p a w'
  | Ok (None, _) => False
  | Panic x => x = "out of memory"%string
  end.
Proof.
  intros W Hh HP Hm. pose proof (w_pool _ W p P HP) as G. unfold k_object_pool_slab_create, pool_at. rewrite bool_decide_true by done. cbn [k_assert mbind outcome_bind].
  rewrite HP. cbn [deref mbind outcome_bind]. pose proof (alloc_block_ok w (slab_page_order P) W (pg_order _ G)) as Ha.
  destruct (page_alloc_block (pg w) (slab_page_order P) 0 PAGE_TAG_SLAB) as [[q st]|]; [|done]. destruct Ha as (W1 & U & Hl & Hcov & Hcs). cbn [mbind outcome_bind].
  pose proof (bsize_pos (slab_page_order P)) as Hb. rewrite page2kva_ok by (apply (w_mapped _ W1) || apply (ub_live _ _ _ U q ltac:(lia))). cbn [mbind outcome_bind].
  fold (total_of (slab_page_order P)) (desc_size P). destruct (off_slab P) eqn:Ho.
  - assert (Hds : 0 < desc_size P ≤ 128) by (pose proof (pg_desc _ G Ho); pose proof (cap_pos _ G); unfold desc_size, sizeof_KObjectSlab, sizeof_KObjectTag in *; lia).
    pose proof (Hm eq_refl (set_pg st w) (desc_size P) P W1 eq_refl HP Ho Hds) as Hma. destruct (malloc (desc_size P) (set_pg st w)) as [[[a|] w2]|]; [|done|done].
    cbn [mbind outcome_bind]. destruct Hma as (p' & Q & Hg & HQ & HQo & Hsz).
    destruct (create_off_ok w p P q st w2 a p' Q) as (w' & -> & Hc); try done.
  - cbn [mbind outcome_bind]. destruct (create_on_ok w p P q st) as (w' & -> & Hc); done.
Qed.

(** ** Getting *)

Lemma change_got p P P' a sl sl' w w' j :
  slab_change p P P' a sl sl' w w' → wf w → wf w' → pg w' = pg w → page_slab w' = page_slab w → held w' = held w → anon_pools w' = anon_pools w →
  0 ≤ j < slab_capacity P → j ∉ free_of sl' → (∀ i, i ∈ free_of sl ↔ i = j ∨ i ∈ free_of sl') → got w p (sl_data sl + block_size P * j) w'.
Proof.
  intros C W W' Hpg Hps Hh Hn Hj Hni Hfr. pose proof (change_in_use _ _ _ _ _ _ _ _ _ C Hj Hni Hfr) as Huse. apply slab_change_sym in C as C'.
  set (obj := sl_data sl + block_size P * j) in *. assert (Hin : in_use w' p obj) by (apply Huse; by right).
  assert (Hnew : ∀ p2, ¬ in_use w p2 obj).
  { intros p2 (b & i & Hu). assert (Hu' : used_at (pools w') (slabs w') a j p obj).
    { exists sl', P'. assert (slab_capacity P' = slab_capacity P ∧ block_size P' = block_size P) as [-> ->] by (by rewrite (sc_geometry _ _ _ _ _ _ _ _ C)).
      rewrite (sc_data _ _ _ _ _ _ _ _ C). split; [apply C'|]. split; [apply C|]. split; [apply C'|]. done. }
    destruct (change_used _ _ _ _ _ _ _ _ _ _ _ _ C Hu) as [[Hb Hub]|(-> & -> & Hi & Hii & E)].
    - by destruct (used_unique _ _ _ _ _ _ _ _ W' Hu' Hub) as [? _].
    - apply Hii, Hfr. left. pose proof (pg_obj _ (w_pool _ W p P (sc_at _ _ _ _ _ _ _ _ C))). subst obj. nia. }
  split; [|done|done|].
  2:{ intros Hd. apply (change_desc _ _ _ _ _ _ _ _ _ C') in Hd. destruct (desc_in_use _ _ W Hd) as [p2 H2]. by apply (Hnew p2). }
  split; try done.
  - intros p2 P2 H2. rewrite (sc_pools _ _ _ _ _ _ _ _ C), lookup_insert. case_decide as E; [|exists P2; split; [done|apply same_layout_refl]].
    subst p2. rewrite (sc_at _ _ _ _ _ _ _ _ C) in H2. injection H2 as <-. exists P'. split; [done|apply same_geometry_layout, C].
  - intros p2 P2. rewrite (sc_pools _ _ _ _ _ _ _ _ C), lookup_insert. case_decide as E; [|intros H2; exists P2; split; [done|apply same_layout_refl]].
    subst p2. intros [= <-]. exists P. split; [apply C|apply same_geometry_layout, C].
  - intros p2 o H. apply Huse. by left.
  - intros p2 o H. apply Huse in H as [?|?]; [by left|by right; right].
  - intros b H. by apply (change_desc _ _ _ _ _ _ _ _ _ C).
  - intros b H. left. by apply (change_desc _ _ _ _ _ _ _ _ _ C').
  - intros i k tag. by rewrite Hpg.
  - intros i k tag _. by rewrite Hps.
  - intros i. unfold reserved. by rewrite Hpg, Hps.
Qed.

Lemma set_pool_id p P w : pools w !! p = Some P → set_pool p P w = w.
Proof. intros E. unfold set_pool, set_pools. rewrite insert_id by done. by destruct w. Qed.

(** The slab to take from, in a world with the same objects. *)
Definition selects w p a w1 : Prop :=
  ∃ w0 P0 sl P1, frame nothing w w0 ∧ pools w0 !! p = Some P0 ∧ slabs w0 !! a = Some sl ∧ sl_pool sl = p ∧
    (0 < sl_used sl < slab_capacity P0 ∧ P1 = P0 ∨ sl_used sl = 0 ∧ P1 = selected a P0) ∧ w1 = set_pool p P1 w0.

Lemma select_ok malloc p P w :
  wf w → p ∈ held w → pools w !! p = Some P → (off_slab P = true → malloc_ok malloc p (held w)) →
  match select_slab malloc p w with Ok (a, w1) => selects w p a w1 | Panic x => x = "out of memory"%string end.
Proof.
  intros W Hh HP Hm. pose proof (w_lists _ W p P HP) as L. unfold select_slab, pool_at. rewrite HP. cbn [deref mbind outcome_bind].
  destruct (slabs_partial P) as [|a l] eqn:Ep.
  2:{ assert (Ha : a ∈ slabs_partial P) by (rewrite Ep; apply elem_of_cons; by left). apply (lo_partial _ _ _ L) in Ha as (sl & Hs & Hp & Hu).
      exists w, P, sl, P. split; [by apply slab_frame_refl|]. split_and!; try done; [by left|by rewrite set_pool_id]. }
  destruct (slabs_full P) as [|a l] eqn:Ef.
  - pose proof (slab_create_ok malloc p P w W Hh HP Hm) as Hc. destruct (k_object_pool_slab_create malloc p w) as [[[a|] w0]|]; [|done|done]. cbn [mbind outcome_bind].
    destruct Hc as (F & sl & P' & Hs & Hp & Hu & HP'). rewrite HP'. cbn [deref mbind outcome_bind]. exists w0, P', sl, (selected a P'). split_and!; try done. by right.
  - cbn [mbind outcome_bind]. rewrite HP. cbn [deref mbind outcome_bind].
    assert (Ha : a ∈ slabs_full P) by (rewrite Ef; apply elem_of_cons; by left). apply (lo_full _ _ _ L) in Ha as (sl & Hs & Hp & Hu).
    exists w, P, sl, (selected a P). split; [by apply slab_frame_refl|]. split_and!; try done. by right.
Qed.

Lemma frame_got w w0 p obj w' : frame nothing w w0 → got w0 p obj w' → got w p obj w'.
Proof.
  intros F [F' Hu Hn Hp]. split; [|done| |done].
  - pose proof (slab_frame_trans _ _ _ _ _ F F') as F2. destruct F2. split; try done. intros p2 o H. destruct (fr_new0 p2 o H) as [?|[?|[[]|?]]]; auto.
  - intros p2 H. by apply (Hn p2), F.
Qed.

Lemma got_held h w p obj w' : got (set_held h w) p obj w' → got w p obj (set_held (held w) w').
Proof.
  intros [F Hu Hn Hp]. split; try done. destruct F as [F1 F2 F3 F4 F5 F6 F7 F8 F9 F10 F11 F12]. split; try done. by apply wf_held.
Qed.

Lemma pool_get_ok fuel p P w :
  wf w → p ∉ held w → pools w !! p = Some P → (off_slab P = true → malloc_ok (malloc_with (pool_get fuel)) p ({[p]} ∪ held w)) →
  match pool_get (S fuel) p w with Ok (obj, w') => got w p obj w' | Panic x => x = "out of memory"%string end.
Proof.
  intros W Hh HP Hm. cbn [pool_get]. rewrite acquire_pool_ok by done. cbn [mbind outcome_bind]. set (w1 := set_held _ w).
  pose proof (select_ok (malloc_with (pool_get fuel)) p P w1) as Hs. specialize (Hs ltac:(by apply wf_held) ltac:(simpl; set_solver) HP Hm).
  destruct (select_slab _ p w1) as [[a w2]|]; [|done]. destruct Hs as (w0 & P0 & sl & P1 & F & HP0 & Hsl & Hp & Hsel & ->). cbn [mbind outcome_bind].
  destruct (slab_take_ok w0 p P0 a sl P1 (fr_wf _ _ _ F) HP0 Hsl Hp Hsel) as (P' & sl' & j & C & -> & Hj & Hni & Hfr & W').
  cbn [mbind outcome_bind]. assert (Hg : got w0 p (sl_data sl + block_size P0 * j) (update p P' a sl' w0)) by (apply (change_got p P0 P' a sl sl'); try done; apply F).
  apply (frame_got _ _ _ _ _ F) in Hg. rewrite (release_pool_ok p (held w)); [|done|apply (fr_held _ _ _ (gt_frame _ _ _ _ Hg))]. cbn [mbind outcome_bind].
  by apply (got_held ({[p]} ∪ held w)).
Qed.

(** ** Sizes of the anonymous pools *)

Definition anon_size (i : nat) : Z := Z.shiftl ANON_POOLS_MIN_SIZE (Z.of_nat i).

Lemma anon_size_eq i : anon_size i = 8 * 2 ^ Z.of_nat i.
Proof. unfold anon_size, ANON_POOLS_MIN_SIZE. by rewrite Z.shiftl_mul_pow2 by lia. Qed.

Lemma anon_size_mono i j : (i ≤ j)%nat → anon_size i ≤ anon_size j.
Proof. intros H. rewrite !anon_size_eq. pose proof (Z.pow_le_mono_r 2 (Z.of_nat i) (Z.of_nat j)). lia. Qed.

Lemma malloc_index_ok n i size :
  match malloc_index n i size with
  | Some k => (i ≤ k < i + n)%nat ∧ size ≤ anon_size k ∧ ∀ j, (i ≤ j < k)%nat → anon_size j < size
  | None => ∀ j, (i ≤ j < i + n)%nat → anon_size j < size
  end.
Proof.
  revert i. induction n as [|n IH]; intros i; cbn [malloc_index]; [intros j Hj; lia|]. fold (anon_size i). destruct (Z.leb_spec size (anon_size i)).
  - split; [lia|]. split; [done|]. intros j Hj. lia.
  - specialize (IH (S i)). destruct (malloc_index n (S i) size) as [k|].
    + destruct IH as (Hk & Hs & Hj). split; [lia|]. split; [done|]. intros j Hj'. destruct (decide (j = i)) as [->|]; [done|apply Hj; lia].
    + intros j Hj'. destruct (decide (j = i)) as [->|]; [done|apply IH; lia].
Qed.

(** Descriptors come from pools that keep their own in the slab. *)
Lemma malloc_small_ok p : malloc_ok (malloc_with (pool_get 1)) p {[p]}.
Proof.
  intros w size P W Hh HP Ho Hsz. unfold malloc_with. pose proof (malloc_index_ok ANON_POOLS_LENGTH 0 size) as Hi. unfold ANON_POOLS_LENGTH in *.
  destruct (malloc_index 12 0 size) as [i|].
  2:{ specialize (Hi 4%nat ltac:(lia)). change (anon_size 4) with 128 in Hi. lia. }
  destruct Hi as (Hi & Hs & Hj). assert (Hi5 : (i < 5)%nat) by (destruct (decide (i < 5)%nat); [done|]; specialize (Hj 4%nat ltac:(lia)); change (anon_size 4) with 128 in Hj; lia).
  destruct (w_small _ W p P HP Ho i Hi5) as (p' & Hp'). destruct (w_anon _ W i p' Hp') as (Q & HQ & Hsize & Hoff). rewrite Hp'. cbn [deref mbind outcome_bind].
  fold (anon_size i) in Hsize. pose proof (anon_size_mono i 4 ltac:(lia)) as Hm. change (anon_size 4) with 128 in Hm. change (PAGE_SIZE / 8) with 512 in Hoff.
  assert (HQo : off_slab Q = false) by (rewrite Hoff; apply Z.ltb_ge; lia).
  pose proof (pool_get_ok 0 p' Q w W) as Hg. rewrite Hh in Hg. specialize (Hg ltac:(intros ->%elem_of_singleton; congruence) HQ ltac:(congruence)).
  destruct (pool_get 1 p' w) as [[a w']|]; [|done]. cbn [mbind outcome_bind]. destruct (fr_pools _ _ _ (gt_frame _ _ _ _ Hg) p' Q HQ) as (Q' & HQ' & L).
  exists p', Q'. split; [done|]. split; [done|]. rewrite L. simpl. split; [done|]. lia.
Qed.

Lemma object_pool_get_ok p P w :
  wf w → held w = ∅ → pools w !! p = Some P →
  match k_object_pool_get p w with Ok (obj, w') => got w p obj w' | Panic x => x = "out of memory"%string end.
Proof.
  intros W Hh HP. apply (pool_get_ok 1 p P w W); [rewrite Hh; set_solver|done|]. intros _. rewrite Hh, union_empty_r_L. apply malloc_small_ok.
Qed.

(** ** What clients see *)

Lemma got_client w p obj w' : wf w → got w p obj w' → ∀ p2 o, client w' p2 o ↔ client w p2 o ∨ p2 = p ∧ o = obj.
Proof.
  intros W [F Hu Hn Hp] p2 o. unfold client. split.
  - intros [Hin Hnd]. destruct (fr_new _ _ _ F p2 o Hin) as [H|[H|H]]; [|done|by right]. left. split; [done|]. intros Hd. by apply Hnd, F.
  - intros [[Hin Hnd]|[-> ->]]; [|done]. split; [by apply F|]. intros Hd. destruct (fr_desc_new _ _ _ F o Hd) as [?|H]; [done|by apply (H p2)].
Qed.

(** The bytes of an object. *)
Definition bytes_of w p obj (x : Z) : Prop := ∃ P, pools w !! p = Some P ∧ obj ≤ x < obj + obj_size P.

(** Objects do not overlap. *)
Lemma objects_apart w p obj p' obj' x : wf w → in_use w p obj → in_use w p' obj' → bytes_of w p obj x → bytes_of w p' obj' x → p' = p ∧ obj' = obj.
Proof.
  intros W (a & i & Hu) (a' & i' & Hu') (P & HP & Hx) (P' & HP' & Hx').
  destruct (used_slab _ _ _ _ _ W Hu) as (sl & P0 & q & c & Hs & Hp & HP0 & G & S & Hi & _ & Eo). rewrite HP in HP0. injection HP0 as <-.
  destruct (used_slab _ _ _ _ _ W Hu') as (sl' & P0 & q' & c' & Hs' & Hp' & HP0' & G' & S' & Hi' & _ & Eo'). rewrite HP' in HP0'. injection HP0' as <-.
  pose proof (obj_range _ _ _ _ _ _ _ _ G S Hi) as Hr. pose proof (obj_range _ _ _ _ _ _ _ _ G' S' Hi') as Hr'. cbv zeta in Hr, Hr'. rewrite <- Eo in Hr. rewrite <- Eo' in Hr'.
  pose proof (pg_obj _ G) as Ho. pose proof (pg_obj _ G') as Ho'.
  destruct (slab_page _ _ _ _ _ _ _ x (w_mapped _ W) G S) as (j & _ & _ & Hj & Ej); [lia|]. destruct (slab_page _ _ _ _ _ _ _ x (w_mapped _ W) G' S') as (j' & _ & _ & Hj' & Ej'); [lia|].
  rewrite (page_unique j' j x) in Ej' by done. assert (a' = a) as -> by congruence. rewrite Hs in Hs'. injection Hs' as <-. rewrite Hp in Hp'. subst p'. split; [done|].
  rewrite HP in HP'. injection HP' as <-. assert (i' = i) by nia. congruence.
Qed.

Lemma object_aligned w p obj P : wf w → in_use w p obj → pools w !! p = Some P → obj mod block_align P = 0.
Proof.
  intros W (a & i & Hu) HP. destruct (used_slab _ _ _ _ _ W Hu) as (sl & P0 & q & c & _ & _ & HP0 & G & S & _ & _ & ->). rewrite HP in HP0. injection HP0 as <-.
  destruct (pg_align _ G) as (Ha & Hpm & Hbm). rewrite (so_data _ _ _ _ _ _ _ S). destruct (so_color _ _ _ _ _ _ _ S) as [_ Hc]. unfold kva.
  apply Z.mod_divide in Hpm as [k Hk]; [|lia]. apply Z.mod_divide in Hbm as [b Hb]; [|lia]. apply Z.mod_divide in Hc as [d Hd]; [|lia].
  change VIRT_KERNEL_BASE with (524288 * PAGE_SIZE). rewrite Hk, Hb, Hd. apply Z.mod_divide; [lia|]. exists (524288 * k + q * k + d + b * i). lia.
Qed.

(** ** New pools *)

Definition no_slabs P : Prop := slabs_empty P = [] ∧ slabs_partial P = [] ∧ slabs_full P = [].

Definition with_pool p P l w : world := set_pool_list l (set_pool p P w).

Lemma new_pool_slab w p a sl : wf w → pools w !! p = None → slabs w !! a = Some sl → sl_pool sl ≠ p.
Proof. intros W Hp Hs E. destruct (w_slab _ W a sl Hs) as (P & _ & _ & HP & _). congruence. Qed.

Lemma with_pool_used w p P l a i p2 o : wf w → pools w !! p = None →
  used_at (pools (with_pool p P l w)) (slabs (with_pool p P l w)) a i p2 o ↔ used_at (pools w) (slabs w) a i p2 o.
Proof.
  intros W Hp. unfold used_at. simpl. split; intros (sl & P0 & H1 & H2 & H3 & H4); exists sl, P0; pose proof (new_pool_slab w p a sl W Hp H1) as Hne;
    [rewrite lookup_insert_ne in H3 by congruence|rewrite lookup_insert_ne by congruence]; done.
Qed.

Lemma with_pool_in_use w p P l p2 o : wf w → pools w !! p = None → in_use (with_pool p P l w) p2 o ↔ in_use w p2 o.
Proof. intros W Hp. split; intros (a & i & H); exists a, i; revert H; by apply with_pool_used. Qed.

Lemma with_pool_desc w p P l b : wf w → pools w !! p = None → is_desc (with_pool p P l w) b ↔ is_desc w b.
Proof.
  intros W Hp. unfold is_desc. simpl. split; intros (sl & P0 & H1 & H2 & H3); exists sl, P0; pose proof (new_pool_slab w p b sl W Hp H1) as Hne;
    [rewrite lookup_insert_ne in H2 by congruence|rewrite lookup_insert_ne by congruence]; done.
Qed.

Lemma with_pool_ok w p P l :
  wf w → pools w !! p = None → pool_geometry P → no_slabs P → (off_slab P = true → ∀ i, (i < 5)%nat → ∃ p', anon_pools w !! i = Some (Some p')) →
  wf (with_pool p P l w).
Proof.
  intros W Hp G (E1 & E2 & E3) Hsm. assert (Hne := λ a sl, new_pool_slab w p a sl W Hp). split; simpl; try (by destruct W).
  - intros p2 P2. rewrite lookup_insert. case_decide; [by intros [= <-]|apply (w_pool _ W)].
  - intros p2 P2. rewrite lookup_insert. case_decide as E; [|apply (w_lists _ W)]. subst p2. intros [= <-]. split; rewrite ?E1, ?E2, ?E3; [split_and!; apply NoDup_nil_2|..];
      intros a; (split; [by intros ?%elem_of_nil|intros (sl & H1 & H2 & _); by destruct (Hne a sl)]).
  - intros a sl Hs. destruct (w_slab _ W a sl Hs) as (P0 & q & c & HP0 & S). exists P0, q, c. rewrite lookup_insert_ne by (specialize (Hne a sl Hs); congruence). done.
  - intros a sl P0 Hs HP0 Ho. rewrite lookup_insert_ne in HP0 by (specialize (Hne a sl Hs); congruence).
    destruct (w_desc _ W a sl P0 Hs HP0 Ho) as (p' & Q & HQ & H1 & H2 & H3). exists p', Q. rewrite lookup_insert_ne by congruence. split_and!; try done. by apply with_pool_in_use.
  - intros i p2 Hi. destruct (w_anon _ W i p2 Hi) as (P2 & H2 & H3). exists P2. rewrite lookup_insert_ne by congruence. done.
  - intros p2 P2. rewrite lookup_insert. case_decide; [by intros [= <-]|apply (w_small _ W)].
Qed.

Lemma set_anon_ok w i p P :
  wf w → pools w !! p = Some P → obj_size P = anon_size i → off_slab P = (PAGE_SIZE / 8 <? obj_size P) → wf (set_anon (<[i := Some p]> (anon_pools w)) w).
Proof.
  intros W HP Hs Ho. destruct W as [W1 W2 W3 W4 W5 W6 W7 W8 W9]. split; try done; simpl.
  - intros j p2 Hj. apply list_lookup_insert_Some in Hj as [(-> & [= ->] & _)|[_ Hj]]; [by exists P|by apply W8].
  - intros p2 P2 H2 Ho2 j Hj. destruct (W9 p2 P2 H2 Ho2 j Hj) as [p' Hp']. destruct (decide (j = i)) as [->|Hne].
    + exists p. apply list_lookup_insert_eq. by eapply lookup_lt_Some.
    + exists p'. by rewrite list_lookup_insert_ne.
Qed.

(** The pools of [k_malloc] can be laid out. *)
Lemma anon_init_ok i p w : (i < 12)%nat →
  ∃ P, k_object_pool_init p (anon_size i) 0 w = Ok (0, with_pool p P (pool_list w ++ [p]) w) ∧ pool_geometry P ∧ no_slabs P ∧
    obj_size P = anon_size i ∧ off_slab P = (PAGE_SIZE / 8 <? anon_size i).
Proof.
  intros Hi. destruct (decide (i < 10)%nat) as [Hlt|Hge].
  - pose proof (anon_size_mono i 9 ltac:(lia)) as Hm. change (anon_size 9) with 4096 in Hm. pose proof (anon_size_mono 0 i ltac:(lia)) as H0. change (anon_size 0) with 8 in H0.
    pose proof (pool_init_ok p (anon_size i) 0 w ltac:(unfold PAGE_SIZE; lia) ltac:(lia)) as H. assert (E : init_refused (anon_size i) 0 = false) by (unfold init_refused; rewrite (proj2 (Z.ltb_ge _ _)) by lia; done).
    rewrite E in H. destruct H as (P & Ep & G & Hs & _ & Ho & H1 & H2 & H3). exists P. done.
  - assert (i = 10%nat ∨ i = 11%nat) as [-> | ->] by lia.
    + exists (MkPool true [] [] [] 1 1 8192 4 8192 0 0). split; [reflexivity|]. split; [|done]. split; simpl; try done; unfold PAGE_ORDER_MAX; lia.
    + exists (MkPool true [] [] [] 1 2 16384 4 16384 0 0). split; [reflexivity|]. split; [|done]. split; simpl; try done; unfold PAGE_ORDER_MAX; lia.
Qed.

(** ** Starting up *)

(** The pools are [pop], which is static, and objects of [pop]; [n] anonymous
    pools are there. *)
Record started (pop : Z) (n : nat) w : Prop := {
  st_wf : wf w;
  st_held : held w = ∅;
  st_pop : ∃ P, pools w !! pop = Some P;
  st_static : ∀ i, kva i ≤ pop < kva i + PAGE_SIZE → reserved w i;
  st_pools : ∀ p P, pools w !! p = Some P → p = pop ∨ client w pop p;
  st_length : length (anon_pools w) = 12%nat;
  st_anon : ∀ i, (i < n)%nat → ∃ p, anon_pools w !! i = Some (Some p);
  st_clients : ∀ p o, client w p o → p = pop
}.

(** The object that is to be a pool is not one. *)
Lemma started_fresh pop n w p w' : started pop n w → got w pop p w' → pools w' !! p = None.
Proof.
  intros S G. destruct (pools w' !! p) as [P'|] eqn:E; [|done]. exfalso. destruct (fr_dom _ _ _ (gt_frame _ _ _ _ G) p P' E) as (P & HP & _).
  destruct (st_pools _ _ _ S p P HP) as [->|[Hu _]]; [|by apply (gt_new _ _ _ _ G pop)].
  destruct (gt_use _ _ _ _ G) as (a & i & Hu). destruct (used_kva _ _ _ _ _ (fr_wf _ _ _ (gt_frame _ _ _ _ G)) Hu) as (j & Hj & Ej).
  destruct (fr_reserved _ _ _ (gt_frame _ _ _ _ G) j (st_static _ _ _ S j Hj)) as [_ Hn]. congruence.
Qed.

Lemma started_create pop i w : started pop i w → (i < 12)%nat →
  match k_object_pool_create pop (anon_size i) 0 w with
  | Ok (Some p, w') => started pop (S i) (set_anon (<[i := Some p]> (anon_pools w')) w')
  | Ok (None, _) => False
  | Panic x => x = "out of memory"%string
  end.
Proof.
  intros S Hi. destruct (st_pop _ _ _ S) as [P0 HP0]. unfold k_object_pool_create.
  pose proof (object_pool_get_ok pop P0 w (st_wf _ _ _ S) (st_held _ _ _ S) HP0) as Hg. destruct (k_object_pool_get pop w) as [[p w1]|]; [|done]. cbn [mbind outcome_bind].
  pose proof (gt_frame _ _ _ _ Hg) as F. pose proof (started_fresh _ _ _ _ _ S Hg) as Hnone. pose proof (fr_wf _ _ _ F) as W1.
  destruct (anon_init_ok i p w1 Hi) as (P & -> & G & Hns & Hsz & Hoff). cbn [mbind outcome_bind]. change (0 <? 0) with false. cbn iota.
  set (w2 := with_pool p P (pool_list w1 ++ [p]) w1).
  assert (W2 : wf w2).
  { apply with_pool_ok; try done. intros Ho j Hj. rewrite (fr_anon _ _ _ F). apply (st_anon _ _ _ S). rewrite Hoff in Ho. apply Z.ltb_lt in Ho. change (PAGE_SIZE / 8) with 512 in Ho.
    destruct (decide (5 ≤ i)%nat); [lia|]. pose proof (anon_size_mono i 4 ltac:(lia)) as Hm. change (anon_size 4) with 128 in Hm. lia. }
  assert (Hcl : ∀ p2 o, client w2 p2 o ↔ client w p2 o ∨ p2 = pop ∧ o = p).
  { intros p2 o. rewrite <- (got_client _ _ _ _ (st_wf _ _ _ S) Hg). unfold client, w2. rewrite with_pool_in_use, with_pool_desc by done. done. }
  split; simpl.
  - apply (set_anon_ok w2 i p P); try done; [apply lookup_insert_eq|congruence].
  - rewrite (fr_held _ _ _ F). apply S.
  - destruct (fr_pools _ _ _ F pop P0 HP0) as (P1 & HP1 & _). destruct (decide (p = pop)) as [->|]; [congruence|]. exists P1. by rewrite lookup_insert_ne.
  - intros j Hj. apply (fr_reserved _ _ _ F j), (st_static _ _ _ S j Hj).
  - intros p2 P2. rewrite lookup_insert. case_decide as E; [subst p2; intros _; right; apply Hcl; by right|]. intros H2. destruct (fr_dom _ _ _ F p2 P2 H2) as (P3 & HP3 & _).
    destruct (st_pools _ _ _ S p2 P3 HP3) as [?|?]; [by left|right]. apply Hcl. by left.
  - rewrite length_insert, (fr_anon _ _ _ F). apply S.
  - intros j Hj. rewrite (fr_anon _ _ _ F). destruct (decide (j = i)) as [->|]; [exists p; apply list_lookup_insert_eq; rewrite (st_length _ _ _ S); lia|].
    rewrite list_lookup_insert_ne by done. apply (st_anon _ _ _ S). lia.
  - intros p2 o H. apply Hcl in H as [H|[? _]]; [by apply (st_clients _ _ _ S p2 o)|done].
Qed.

Lemma init_anon_ok n i pop w : started pop i w → (i + n = 12)%nat →
  match init_anon n i pop w with Ok w' => started pop 12 w' | Panic x => x = "out of memory"%string end.
Proof.
  revert i w. induction n as [|n IH]; intros i w S Hn; cbn [init_anon]; [by replace 12%nat with i by lia|]. fold (anon_size i).
  pose proof (started_create pop i w S ltac:(lia)) as H. destruct (k_object_pool_create pop (anon_size i) 0 w) as [[[p|] w']|]; [|done|done].
  cbn [mbind outcome_bind]. apply IH; [done|lia].
Qed.

Lemma system_init_ok pop st :
  PageAlloc.wf st → pages_mapped st → (∀ i, kva i ≤ pop < kva i + PAGE_SIZE → ¬ covered st i) →
  match k_object_pool_system_init pop st with Ok w => started pop 12 w | Panic x => x = "out of memory"%string end.
Proof.
  intros Hst Hm Hpop. unfold k_object_pool_system_init. set (w0 := MkWorld st ∅ ∅ ∅ [] (replicate ANON_POOLS_LENGTH None) ∅).
  assert (W0 : wf w0).
  { split; simpl; try done. intros i p H. change (replicate ANON_POOLS_LENGTH (@None Z) !! i = Some (Some p)) in H. apply lookup_replicate in H as [? _]. done. }
  pose proof (pool_init_ok pop sizeof_KObjectPool 0 w0 ltac:(done) ltac:(done)) as H. change (init_refused sizeof_KObjectPool 0) with false in H. cbn iota in H.
  destruct H as (P & -> & G & _ & _ & Ho & H1 & H2 & H3). cbn [mbind outcome_bind]. change (0 <? 0) with false. cbn iota. change (PAGE_SIZE / 8 <? sizeof_KObjectPool) with false in Ho.
  fold (with_pool pop P (pool_list w0 ++ [pop]) w0). apply init_anon_ok; [|done].
  assert (Hnu : ∀ p o, ¬ in_use (with_pool pop P (pool_list w0 ++ [pop]) w0) p o) by (intros p o (a & i & sl & P' & Hs & _); simpl in Hs; by rewrite lookup_empty in Hs).
  split; simpl; try done.
  - apply with_pool_ok; try done. congruence.
  - exists P. apply lookup_insert_eq.
  - intros i Hi. split; [by apply Hpop|apply lookup_empty].
  - intros p P'. rewrite lookup_insert. case_decide; [by left|]. by rewrite lookup_empty.
  - intros i Hi. lia.
  - intros p o [Hu _]. by destruct (Hnu p o).
Qed.

(** ** [k_malloc] and [k_free] *)

Definition booted w : Prop := wf w ∧ held w = ∅ ∧ ∀ i, (i < 12)%nat → ∃ p, anon_pools w !! i = Some (Some p).

Lemma k_malloc_ok size w : booted w →
  match k_malloc size w with
  | Ok (Some obj, w') => ∃ p P, pools w !! p = Some P ∧ size ≤ obj_size P ∧ got w p obj w'
  | Ok (None, w') => anon_size 11 < size ∧ w' = w
  | Panic x => x = "out of memory"%string
  end.
Proof.
  intros (W & Hh & Hall). unfold k_malloc, malloc_with. pose proof (malloc_index_ok ANON_POOLS_LENGTH 0 size) as Hi. unfold ANON_POOLS_LENGTH in *.
  destruct (malloc_index 12 0 size) as [i|]; [|split; [apply Hi; lia|done]]. destruct Hi as (Hi & Hs & _). destruct (Hall i ltac:(lia)) as [p Hp].
  destruct (w_anon _ W i p Hp) as (P & HP & Hsz & _). fold (anon_size i) in Hsz. rewrite Hp. cbn [deref mbind outcome_bind].
  pose proof (object_pool_get_ok p P w W Hh HP) as Hg. destruct (k_object_pool_get p w) as [[obj w']|]; [|done]. cbn [mbind outcome_bind]. exists p, P. split; [done|]. split; [lia|done].
Qed.

Lemma k_free_ok p obj w : wf w → held w = ∅ → client w p obj → ∃ w', k_free obj w = Ok w' ∧ gave_back w p obj w'.
Proof.
  intros W Hh Hc. destruct (pool_put_ok w p obj W) as (w' & E & Hg); [rewrite Hh; set_solver|done|]. exists w'. split; [|done].
  destruct Hc as [(a & i & Hu) _]. destruct (used_page _ _ _ _ _ W Hu) as (j & Ej & Hj). destruct (used_slab _ _ _ _ _ W Hu) as (sl & P & _ & _ & Hs & Hp & _).
  unfold k_free. rewrite Ej. cbn [mbind outcome_bind]. rewrite Hj. cbn [deref mbind outcome_bind]. unfold slab_at. rewrite Hs. cbn [deref mbind outcome_bind]. by rewrite Hp.
Qed.

Lemma gave_back_client w p obj w' : gave_back w p obj w' → ∀ p2 o, client w' p2 o ↔ client w p2 o ∧ o ≠ obj.
Proof. intros G p2 o. unfold client. rewrite (gb_use _ _ _ _ G), (gb_desc _ _ _ _ G). tauto. Qed.

Lemma gave_back_pools w p obj w' : gave_back w p obj w' → ∀ p2 P, pools w !! p2 = Some P → ∃ P', pools w' !! p2 = Some P' ∧ same_layout P P'.
Proof.
  intros G p2 P2 H2. destruct (gb_pools _ _ _ _ G) as (P & P' & HP & E & Hg). rewrite E, lookup_insert. case_decide as Ep; [|exists P2; split; [done|apply same_layout_refl]].
  subst p2. rewrite HP in H2. injection H2 as <-. exists P'. split; [done|by apply same_geometry_layout].
Qed.

(** Clients that allocate and free; [blocks] are theirs, with the sizes asked
    for.  They free what they have. *)
Inductive op := Malloc (size : Z) | Free (obj : Z).

Definition run_op (x : op) w (blocks : list (Z * Z)) : outcome (world * list (Z * Z)) :=
  match x with
  | Malloc size => '(o, w) ← k_malloc size w; Ok (w, match o with Some obj => (obj, size) :: blocks | None => blocks end)
  | Free obj => if decide (obj ∈ blocks.*1) then w ← k_free obj w; Ok (w, filter (λ b, b.1 ≠ obj) blocks) else Ok (w, blocks)
  end.

Fixpoint run_ops (xs : list op) w (blocks : list (Z * Z)) : outcome (world * list (Z * Z)) :=
  match xs with
  | [] => Ok (w, blocks)
  | x :: xs => '(w, blocks) ← run_op x w blocks; run_ops xs w blocks
  end.

Record owned pop w (blocks : list (Z * Z)) : Prop := {
  ow_booted : booted w;
  ow_nodup : NoDup blocks.*1;
  ow_blocks : ∀ o n, (o, n) ∈ blocks → ∃ p P, client w p o ∧ pools w !! p = Some P ∧ n ≤ obj_size P;
  ow_clients : ∀ p o, client w p o → p = pop ∨ o ∈ blocks.*1
}.

Definition apart (b b' : Z * Z) : Prop := b.1 + b.2 ≤ b'.1 ∨ b'.1 + b'.2 ≤ b.1.

Lemma owned_apart pop w blocks i j b b' : owned pop w blocks → blocks !! i = Some b → blocks !! j = Some b' → i ≠ j → apart b b'.
Proof.
  intros [(W & _) Hnd Hbl _] Hi Hj Hne. destruct b as [o n], b' as [o' n']. unfold apart. simpl.
  destruct (Hbl o n) as (p & P & [Hu _] & HP & Hn); [by eapply list_elem_of_lookup_2|]. destruct (Hbl o' n') as (p' & P' & [Hu' _] & HP' & Hn'); [by eapply list_elem_of_lookup_2|].
  pose proof (pg_obj _ (w_pool _ W p P HP)). pose proof (pg_obj _ (w_pool _ W p' P' HP')). destruct (decide (o + n ≤ o' ∨ o' + n' ≤ o)); [done|]. exfalso.
  assert (o' = o) as ->.
  { apply (objects_apart w p o p' o' (Z.max o o') W Hu Hu'); [exists P; split; [done|lia]|exists P'; split; [done|lia]]. }
  apply Hne. apply (NoDup_lookup blocks.*1 i j o); [done|by rewrite list_lookup_fmap, Hi|by rewrite list_lookup_fmap, Hj].
Qed.

Lemma owned_malloc pop w blocks p P obj size w' :
  owned pop w blocks → pools w !! p = Some P → size ≤ obj_size P → got w p obj w' → owned pop w' ((obj, size) :: blocks).
Proof.
  intros [(W & Hh & Hall) Hnd Hbl Hcl] HP Hsz G. pose proof (gt_frame _ _ _ _ G) as F. assert (Hc := got_client _ _ _ _ W G). split.
  - split; [apply F|]. split; [rewrite (fr_held _ _ _ F); done|]. by rewrite (fr_anon _ _ _ F).
  - simpl. apply NoDup_cons. split; [|done]. intros ([o n] & -> & Hin)%list_elem_of_fmap. destruct (Hbl o n Hin) as (p2 & _ & [Hu _] & _). by apply (gt_new _ _ _ _ G p2).
  - intros o n [[= -> ->]|Hin]%elem_of_cons.
    + destruct (fr_pools _ _ _ F p P HP) as (P' & HP' & L). exists p, P'. split; [apply Hc; by right|]. split; [done|]. by rewrite L.
    + destruct (Hbl o n Hin) as (p2 & P2 & Hc2 & HP2 & Hn). destruct (fr_pools _ _ _ F p2 P2 HP2) as (P' & HP' & L). exists p2, P'. split; [apply Hc; by left|]. split; [done|]. by rewrite L.
  - intros p2 o H. simpl. apply Hc in H as [H|[_ ->]]; [|right; apply elem_of_cons; by left]. destruct (Hcl p2 o H); [by left|right; apply elem_of_cons; by right].
Qed.

Lemma nodup_filter_fst (blocks : list (Z * Z)) obj : NoDup blocks.*1 → NoDup (filter (λ b, b.1 ≠ obj) blocks).*1.
Proof.
  induction blocks as [|b l IH]; intros Hnd; [done|]. simpl in Hnd. apply NoDup_cons in Hnd as [Hni Hnd]. rewrite filter_cons. case_decide; [|by apply IH]. simpl.
  apply NoDup_cons. split; [|by apply IH]. intros (x & E & [_ Hin]%list_elem_of_filter)%list_elem_of_fmap. apply Hni. rewrite E. apply list_elem_of_fmap. by exists x.
Qed.

Lemma owned_free pop w blocks p obj w' :
  owned pop w blocks → client w p obj → gave_back w p obj w' → owned pop w' (filter (λ b, b.1 ≠ obj) blocks).
Proof.
  intros [(W & Hh & Hall) Hnd Hbl Hcl] Hc G. assert (Hc' := gave_back_client _ _ _ _ G).
  assert (Hf : ∀ o, o ∈ (filter (λ b, b.1 ≠ obj) blocks).*1 ↔ o ∈ blocks.*1 ∧ o ≠ obj).
  { intros o. rewrite !list_elem_of_fmap. split.
    - intros (b & -> & [Hb Hin]%list_elem_of_filter). split; [by exists b|done].
    - intros [(b & -> & Hin) Hb]. exists b. split; [done|]. by apply list_elem_of_filter. }
  split.
  - split; [apply G|]. split; [rewrite (gb_held _ _ _ _ G); done|]. by rewrite (gb_anon _ _ _ _ G).
  - by apply nodup_filter_fst.
  - intros o n [Hb Hin]%list_elem_of_filter. destruct (Hbl o n Hin) as (p2 & P2 & Hc2 & HP2 & Hn). destruct (gave_back_pools _ _ _ _ G p2 P2 HP2) as (P' & HP' & L).
    exists p2, P'. split; [by apply Hc'|]. split; [done|]. by rewrite L.
  - intros p2 o [H Hne]%Hc'. rewrite Hf. destruct (Hcl p2 o H); [by left|by right].
Qed.

Lemma run_ops_ok pop xs w blocks : owned pop w blocks →
  wp (run_ops xs w blocks) (λ x, x = "out of memory"%string) (λ r, owned pop r.1 r.2).
Proof.
  revert w blocks. induction xs as [|x xs IH]; intros w blocks O; [done|]. cbn [run_ops]. apply wp_bind.
  assert (H : wp (run_op x w blocks) (λ x, x = "out of memory"%string) (λ r, owned pop r.1 r.2)).
  { destruct x as [size|obj]; cbn [run_op].
    - pose proof (k_malloc_ok size w (ow_booted _ _ _ O)) as H. destruct (k_malloc size w) as [[[obj|] w']|]; simpl; [| |done].
      + destruct H as (p & P & HP & Hsz & G). by eapply owned_malloc.
      + by destruct H as [_ ->].
    - case_decide as Hin; [|done]. apply list_elem_of_fmap in Hin as ([o n] & -> & Hin). destruct (ow_blocks _ _ _ O o n Hin) as (p & P & Hc & _).
      destruct (ow_booted _ _ _ O) as (W & Hh & _). destruct (k_free_ok p o w W Hh Hc) as (w' & E & G). simpl. rewrite E. simpl. by eapply owned_free. }
  eapply wp_mono; [exact H|done|]. intros [w' bl'] O'. by apply IH.
Qed.

Lemma started_owned pop w : started pop 12 w → owned pop w [].
Proof.
  intros S. split.
  - split; [apply S|]. split; [apply S|apply S].
  - apply NoDup_nil_2.
  - by intros o n ?%elem_of_nil.
  - intros p o H. left. by apply (st_clients _ _ _ S p o).
Qed.

(** C21: [k_malloc] and [k_free] over the page allocator, from the start of the
    pools on ([k_object_pool_system_init], with the static pool at [pop]).
    However the kernel allocates and frees what it has, no assertion fails, no
    lock is taken twice, and the only panic is for want of memory; the blocks it
    has do not overlap, also when the descriptors of slabs are allocated by the
    same functions; and the allocator has nothing else in use but the pools. *)
Theorem k_malloc_safe pop st xs :
  PageAlloc.wf st → pages_mapped st → (∀ i, kva i ≤ pop < kva i + PAGE_SIZE → ¬ covered st i) →
  wp (w ← k_object_pool_system_init pop st; run_ops xs w []) (λ x, x = "out of memory"%string) (λ r, let '(w, blocks) := r in
    held w = ∅ ∧ (∀ i j b b', blocks !! i = Some b → blocks !! j = Some b' → i ≠ j → b.1 + b.2 ≤ b'.1 ∨ b'.1 + b'.2 ≤ b.1) ∧
    ∀ p o, client w p o → p = pop ∨ o ∈ blocks.*1).
Proof.
  intros Hst Hm Hpop. apply wp_bind. eapply (wp_mono _ _ _ (started pop 12)); [exact (system_init_ok pop st Hst Hm Hpop)|done|]. intros w S.
  eapply wp_mono; [apply (run_ops_ok pop), started_owned, S|done|]. intros [w' blocks] O. split; [apply O|]. split; [|apply O].
  intros i j b b'. by apply (owned_apart pop w').
Qed.

(** [k_object_pool_get] for any pool.  It gives an object that nobody has,
    aligned as the pool asks for, that overlaps with no other object; nothing
    else that is in use changes, and the invariant of pools, slabs and pages
    holds again.  The only panic is for want of memory. *)
Theorem object_pool_get_spec p P w :
  wf w → held w = ∅ → pools w !! p = Some P →
  wp (k_object_pool_get p w) (λ x, x = "out of memory"%string) (λ r, let '(obj, w') := r in
    wf w' ∧ held w' = ∅ ∧ (∀ p2, ¬ in_use w p2 obj) ∧ (∀ p2 o, client w' p2 o ↔ client w p2 o ∨ p2 = p ∧ o = obj) ∧
    obj mod block_align P = 0 ∧ ∀ p2 o x, in_use w' p2 o → bytes_of w' p obj x → bytes_of w' p2 o x → p2 = p ∧ o = obj).
Proof.
  intros W Hh HP. pose proof (object_pool_get_ok p P w W Hh HP) as H. destruct (k_object_pool_get p w) as [[obj w']|]; [|exact H].
  pose proof (gt_frame _ _ _ _ H) as F. pose proof (gt_use _ _ _ _ H) as Hu. destruct (fr_pools _ _ _ F p P HP) as (P' & HP' & L).
  split; [apply F|]. split; [by rewrite (fr_held _ _ _ F)|]. split; [apply H|]. split; [by apply got_client|]. split.
  - pose proof (object_aligned w' p obj P' (fr_wf _ _ _ F) Hu HP') as Ha. by rewrite L in Ha.
  - intros p2 o x Ho Hx Hx'. by apply (objects_apart w' p obj p2 o x (fr_wf _ _ _ F)).
Qed.

(** [k_object_pool_put] of an object a client has gives it back: no panic,
    the object is not in use any more, all others are, and the invariant
    holds. *)
Theorem object_pool_put_spec p obj w :
  wf w → held w = ∅ → client w p obj →
  ∃ w', k_object_pool_put p obj w = Ok w' ∧ wf w' ∧ held w' = ∅ ∧ ∀ p2 o, client w' p2 o ↔ client w p2 o ∧ o ≠ obj.
Proof.
  intros W Hh Hc. destruct (pool_put_ok w p obj W) as (w' & E & G); [rewrite Hh; set_solver|done|]. exists w'. split; [done|]. split; [apply G|].
  split; [by rewrite (gb_held _ _ _ _ G)|]. by apply (gave_back_client w p).
Qed.

(** ** A concrete kernel *)

(** 4 MiB of free memory; the static pool is above them. *)
Definition some_pop : Z := 0x80800000.

Lemma some_pop_static i : kva i ≤ some_pop < kva i + PAGE_SIZE → ¬ covered one_block i.
Proof.
  intros Hi (o & p & [-> ->]%one_block_free & Hb). unfold in_blk in Hb. change (bsize 10) with 1024 in Hb. unfold kva, some_pop, VIRT_KERNEL_BASE, PAGE_SIZE in Hi. lia.
Qed.

Lemma one_block_mapped : pages_mapped one_block.
Proof. unfold pages_mapped. simpl. lia. Qed.

(** Two large blocks, whose descriptors are small blocks, a small one, and one
    too large. *)
Definition some_ops : list op := [Malloc 5000; Malloc 100; Malloc 0; Malloc 3000; Free 0x80800000; Malloc 20000].

Lemma k_malloc_safe_witness :
  wp (w ← k_object_pool_system_init some_pop one_block; run_ops some_ops w []) (λ x, x = "out of memory"%string) (λ r, let '(w, blocks) := r in
    held w = ∅ ∧ (∀ i j b b', blocks !! i = Some b → blocks !! j = Some b' → i ≠ j → b.1 + b.2 ≤ b'.1 ∨ b'.1 + b'.2 ≤ b.1) ∧
    ∀ p o, client w p o → p = some_pop ∨ o ∈ blocks.*1) ∧
  match w ← k_object_pool_system_init some_pop one_block; run_ops some_ops w [] with Ok (_, blocks) => length blocks = 4%nat | Panic _ => False end.
Proof.
  split; [exact (k_malloc_safe some_pop one_block some_ops one_block_wf one_block_mapped some_pop_static)|vm_compute; reflexivity].
Defined.

Definition some_world : world := match k_object_pool_system_init some_pop one_block with Ok w => w | Panic _ => MkWorld one_block ∅ ∅ ∅ [] [] ∅ end.

Lemma some_world_started : started some_pop 12 some_world.
Proof.
  pose proof (system_init_ok some_pop one_block one_block_wf one_block_mapped some_pop_static) as H.
  assert (E : match k_object_pool_system_init some_pop one_block with Ok _ => true | Panic _ => false end = true) by (vm_compute; reflexivity).
  unfold some_world. destruct (k_object_pool_system_init some_pop one_block) as [w|]; [exact H|discriminate E].
Qed.

Lemma object_pool_get_spec_witness : ∃ P, pools some_world !! some_pop = Some P ∧
  wp (k_object_pool_get some_pop some_world) (λ x, x = "out of memory"%string) (λ r, let '(obj, w') := r in
    wf w' ∧ held w' = ∅ ∧ (∀ p2, ¬ in_use some_world p2 obj) ∧ (∀ p2 o, client w' p2 o ↔ client some_world p2 o ∨ p2 = some_pop ∧ o = obj) ∧
    obj mod block_align P = 0 ∧ ∀ p2 o x, in_use w' p2 o → bytes_of w' some_pop obj x → bytes_of w' p2 o x → p2 = some_pop ∧ o = obj).
Proof.
  pose proof some_world_started as S. destruct (st_pop _ _ _ S) as [P HP]. exists P. split; [exact HP|].
  exact (object_pool_get_spec some_pop P some_world (st_wf _ _ _ S) (st_held _ _ _ S) HP).
Defined.

Lemma object_pool_put_spec_witness : ∃ p, client some_world some_pop p ∧
  ∃ w', k_object_pool_put some_pop p some_world = Ok w' ∧ wf w' ∧ held w' = ∅ ∧ ∀ p2 o, client w' p2 o ↔ client some_world p2 o ∧ o ≠ p.
Proof.
  pose proof some_world_started as S. destruct (st_anon _ _ _ S 0%nat ltac:(lia)) as [p Hp].
  destruct (w_anon _ (st_wf _ _ _ S) 0%nat p Hp) as (P & HP & Hsz & _).
  assert (Hc : client some_world some_pop p).
  { destruct (st_pools _ _ _ S p P HP) as [->|Hc]; [|exact Hc]. exfalso.
    assert (E : (obj_size <$> (pools some_world !! some_pop)) = Some 192) by (vm_compute; reflexivity). rewrite HP in E. simpl in E. rewrite Hsz in E. discriminate E. }
  exists p. split; [exact Hc|]. exact (object_pool_put_spec some_pop p some_world (st_wf _ _ _ S) (st_held _ _ _ S) Hc).
Defined.

End ObjectPool.
