(* ===== verification/Vm.v ===== *)
(** Virtual memory: mappings, copying and copy-on-write (kernel/mm/vm.c).

    The state is the page allocator (PageAlloc.v), the page tables behind the
    interface of VmArch.v, the bytes of the page frames and whether this CPU
    holds [vm_lock].  The invariant ties them together: the reference count of
    a frame is the number of its mappings, and no anonymous frame is without
    one.  The theorems say what the address spaces of processes contain:
    copying to and from them, cloning them with copy-on-write, and that two
    clones do not see each other's writes. *)

From S2P Require Import Prelude Bitmap PageAlloc Bytes VmArch.
Import PageAlloc Bytes VmArch.
#[local] Open Scope Z_scope.

Module Vm.

Record vms (T : Type) := MkVms {
  pt : T;
  pg : pstate;
  mem : gmap Z (list Z);        (* contents of the page frames *)
  vm_lock : bool }.
Arguments MkVms {T} pt pg mem vm_lock.
Arguments pt {T} _.
Arguments pg {T} _.
Arguments mem {T} _.
Arguments vm_lock {T} _.

Section ops.
Context {T : Type} `{!ArchVm T}.
Implicit Types (s : vms T) (t va page flags : Z).

Definition zero_page : list Z := replicate (Z.to_nat PAGE_SIZE) 0.
Arguments zero_page : simpl never.

Definition set_lock (b : bool) s : vms T := MkVms (pt s) (pg s) (mem s) b.
Definition set_pg (st : pstate) s : vms T := MkVms (pt s) st (mem s) (vm_lock s).
Definition set_pt (x : T) s : vms T := MkVms x (pg s) (mem s) (vm_lock s).
Definition set_mem (m : gmap Z (list Z)) s : vms T := MkVms (pt s) (pg s) m (vm_lock s).

Definition acquire s : outcome (vms T) :=
  _ ← k_assert (negb (vm_lock s)) "spinlock already held"; Ok (set_lock true s).
Definition release s : outcome (vms T) :=
  _ ← k_assert (vm_lock s) "spinlock not held"; Ok (set_lock false s).
Definition holding s : outcome unit := k_assert (vm_lock s) "Assertion failed: k_spinlock_holding(&vm_lock)".

(** The functions of page.h on one page; PAGE_ALLOC_ZERO clears it. *)
Definition page_alloc_one s flags tag : outcome (Z * vms T) :=
  '(page, st) ← page_alloc_block (pg s) 0 flags tag;
  let m := if Z.land flags PAGE_ALLOC_ZERO =? 0 then mem s else <[page := zero_page]> (mem s) in
  Ok (page, set_mem m (set_pg st s)).
Definition page_free_one s page : outcome (vms T) :=
  st ← page_free_block (pg s) page 0; Ok (set_pg st s).

Definition lookup s t va (alloc : bool) : outcome (option Z * vms T) :=
  '(o, x, st) ← arch_vm_lookup t va alloc (pt s) (pg s); Ok (o, set_pg st (set_pt x s)).

(** An entry that is not valid, or is not a page of vm.c. *)
Definition no_page s (pte : Z) : bool :=
  negb (arch_vm_pte_valid pte (pt s)) || (Z.land (arch_vm_pte_flags pte (pt s)) VM_PAGE =? 0).

Definition vm_page_lookup s t va : outcome (option (Z * Z) * vms T) :=
  _ ← holding s;
  '(o, s) ← lookup s t va false;
  match o with
  | None => Ok (None, s)
  | Some pte =>
      if no_page s pte then Ok (None, s) else
      page ← pa2page (pg s) (arch_vm_pte_addr pte (pt s));
      _ ← page_assert (pg s) page 0 PAGE_TAG_ANON;
      Ok (Some (page, arch_vm_pte_flags pte (pt s)), s)
  end.

Definition vm_page_remove s t va : outcome (vms T) :=
  _ ← holding s;
  '(o, s) ← lookup s t va false;
  match o with
  | None => Ok s
  | Some pte =>
      if no_page s pte then Ok s else
      page ← pa2page (pg s) (arch_vm_pte_addr pte (pt s));
      _ ← page_assert (pg s) page 0 PAGE_TAG_ANON;
      st ← page_dec_ref (pg s) page 0;
      Ok (set_pt (arch_vm_pte_clear pte (pt s)) (set_pg st s))
  end.

(** 0 on success, or a negated error number. *)
Definition vm_page_insert s t page va flags : outcome (Z * vms T) :=
  _ ← holding s;
  '(o, s) ← lookup s t va true;
  match o with
  | None => Ok (- ENOMEM, s)
  | Some pte =>
      st ← page_inc_ref (pg s) page;
      s ← vm_page_remove (set_pg st s) t va;
      pa ← page2pa (pg s) page;
      Ok (0, set_pt (arch_vm_pte_set pte pa (Z.lor flags VM_PAGE) (pt s)) s)
  end.

Definition vm_page_cow s t va page flags : outcome (option Z * vms T) :=
  _ ← k_assert (negb (Z.land flags VM_COW =? 0)) "Assertion failed: flags & VM_COW";
  let flags := Z.lor (Z.ldiff flags VM_COW) VM_WRITE in
  x ← deref (pages (pg s) !! page) "bad page index";
  if ref_count x =? 1 then
    '(r, s) ← vm_page_insert s t page va flags;
    if r <? 0 then Ok (None, s) else Ok (Some page, s)
  else
    '(page_copy, s) ← page_alloc_one s PAGE_ALLOC_ZERO PAGE_TAG_ANON;
    d ← deref (mem s !! page) "unmapped memory";
    let s := set_mem (<[page_copy := d]> (mem s)) s in
    '(r, s) ← vm_page_insert s t page_copy va flags;
    if r <? 0 then s ← page_free_one s page_copy; Ok (None, s) else Ok (Some page_copy, s).

(** The page and the flags it was found with, or a negated error number. *)
Definition vm_page_lookup_cow s t va : outcome ((Z + Z * Z) * vms T) :=
  '(o, s) ← vm_page_lookup s t va;
  match o with
  | None => Ok (inl (- EFAULT), s)
  | Some (page, flags) =>
      if negb (Z.land flags VM_COW =? 0) then
        '(o, s) ← vm_page_cow s t va page flags;
        match o with None => Ok (inl (- ENOMEM), s) | Some page => Ok (inr (page, flags), s) end
      else Ok (inr (page, flags), s)
  end.

Definition vm_user_assert (start_va end_va : Z) : outcome unit :=
  k_assert (negb ((VIRT_KERNEL_BASE <=? start_va) || (end_va <? start_va))) "invalid va range".
Definition vm_user_assert_pages (start_va end_va : Z) : outcome unit :=
  _ ← k_assert (start_va mod PAGE_SIZE =? 0) "va not page-aligned"; vm_user_assert start_va end_va.

(** Store [l] at [offset] of a page frame. *)
Definition store_at s page offset (l : list Z) : outcome (vms T) :=
  d ← deref (mem s !! page) "unmapped memory";
  Ok (set_mem (<[page := splice d (Z.to_nat offset) l]> (mem s)) s).

(** The loop of [vm_copy_out]: [src] are the bytes left. *)
Fixpoint copy_out_loop (fuel : nat) s t va (src : list Z) : outcome (Z * vms T) :=
  match fuel with
  | O => Panic "out of fuel"
  | S fuel =>
      let n := Z.of_nat (length src) in
      if n =? 0 then Ok (0, s) else
      let offset := va mod PAGE_SIZE in
      let ncopy := Z.min (PAGE_SIZE - offset) n in
      s ← acquire s;
      '(r, s) ← vm_page_lookup_cow s t va;
      match r with
      | inl e => s ← release s; Ok (e, s)
      | inr (page, _) =>
          s ← store_at s page offset (take (Z.to_nat ncopy) src);
          s ← release s;
          copy_out_loop fuel s t (u32 (va + ncopy)) (drop (Z.to_nat ncopy) src)
      end
  end.
Definition vm_copy_out s t (src : list Z) va : outcome (Z * vms T) :=
  _ ← vm_user_assert va (u32 (va + Z.of_nat (length src)));
  copy_out_loop (S (length src)) s t va src.

(** [vm_clear] is the same loop with zeros for the bytes. *)
Fixpoint clear_loop (fuel : nat) s t va n : outcome (Z * vms T) :=
  match fuel with
  | O => Panic "out of fuel"
  | S fuel =>
      if n =? 0 then Ok (0, s) else
      let offset := va mod PAGE_SIZE in
      let ncopy := Z.min (PAGE_SIZE - offset) n in
      s ← acquire s;
      '(r, s) ← vm_page_lookup_cow s t va;
      match r with
      | inl e => s ← release s; Ok (e, s)
      | inr (page, _) =>
          s ← store_at s page offset (replicate (Z.to_nat ncopy) 0);
          s ← release s;
          clear_loop fuel s t (u32 (va + ncopy)) (n - ncopy)
      end
  end.
Definition vm_clear s t va n : outcome (Z * vms T) :=
  _ ← vm_user_assert va (u32 (va + n)); clear_loop (S (Z.to_nat n)) s t va n.

(** The code and the bytes copied before it was known. *)
Fixpoint copy_in_loop (fuel : nat) s t va n : outcome (Z * list Z * vms T) :=
  match fuel with
  | O => Panic "out of fuel"
  | S fuel =>
      if n =? 0 then Ok (0, [], s) else
      let offset := va mod PAGE_SIZE in
      let ncopy := Z.min (PAGE_SIZE - offset) n in
      s ← acquire s;
      '(o, s) ← vm_page_lookup s t va;
      match o with
      | None => s ← release s; Ok (- EFAULT, [], s)
      | Some (page, _) =>
          d ← deref (mem s !! page) "unmapped memory";
          s ← release s;
          '(r, l, s) ← copy_in_loop fuel s t (u32 (va + ncopy)) (n - ncopy);
          Ok (r, slice d (Z.to_nat offset) (Z.to_nat ncopy) ++ l, s)
      end
  end.
Definition vm_copy_in s t va n : outcome (Z * list Z * vms T) :=
  _ ← vm_user_assert va (u32 (va + n)); copy_in_loop (S (Z.to_nat n)) s t va n.

(** ** Ranges of pages *)

Definition round_up_page (a : Z) : Z := let y := u32 (a + PAGE_SIZE - 1) in y - y mod PAGE_SIZE.
Definition range_pages (start_va end_va : Z) : nat := Z.to_nat ((end_va - start_va) / PAGE_SIZE).

Fixpoint free_loop (fuel : nat) s t va end_va : outcome (vms T) :=
  match fuel with
  | O => Panic "out of fuel"
  | S fuel =>
      if va <? end_va then
        s ← acquire s; s ← vm_page_remove s t va; s ← release s;
        free_loop fuel s t (u32 (va + PAGE_SIZE)) end_va
      else Ok s
  end.
Definition vm_user_free s t start_va n : outcome (vms T) :=
  let end_va := round_up_page (u32 (start_va + n)) in
  _ ← vm_user_assert_pages start_va end_va;
  free_loop (S (range_pages start_va end_va)) s t start_va end_va.

(** The result of the assignment in the condition is that of the comparison, 1. *)
Fixpoint alloc_loop (fuel : nat) s t start_va va end_va flags : outcome (Z * vms T) :=
  match fuel with
  | O => Panic "out of fuel"
  | S fuel =>
      if va <? end_va then
        s ← acquire s;
        '(page, s) ← page_alloc_one s PAGE_ALLOC_ZERO PAGE_TAG_ANON;
        '(r, s) ← vm_page_insert s t page va flags;
        if negb (r =? 0) then
          s ← page_free_one s page; s ← release s; s ← vm_user_free s t start_va (va - start_va); Ok (1, s)
        else s ← release s; alloc_loop fuel s t start_va (u32 (va + PAGE_SIZE)) end_va flags
      else Ok (0, s)
  end.
Definition vm_user_alloc s t start_va n flags : outcome (Z * vms T) :=
  let end_va := round_up_page (u32 (start_va + n)) in
  _ ← vm_user_assert_pages start_va end_va;
  alloc_loop (S (range_pages start_va end_va)) s t start_va start_va end_va flags.

(** The page of [src] to be mapped in the clone, and with which flags. *)
Definition clone_source s src va (share : bool) : outcome ((Z + Z * Z) * vms T) :=
  if share then vm_page_lookup_cow s src va else
  '(o, s) ← vm_page_lookup s src va;
  match o with
  | None => Ok (inl (- EFAULT), s)
  | Some (page, flags) =>
      if negb (Z.land flags VM_WRITE =? 0) then
        let flags := Z.lor (Z.ldiff flags VM_WRITE) VM_COW in
        '(r, s) ← vm_page_insert s src page va flags;
        if r <? 0 then Ok (inl r, s) else Ok (inr (page, flags), s)
      else Ok (inr (page, flags), s)
  end.
Fixpoint clone_loop (fuel : nat) s src dst va end_va (share : bool) : outcome (Z * vms T) :=
  match fuel with
  | O => Panic "out of fuel"
  | S fuel =>
      if va <? end_va then
        s ← acquire s;
        '(r, s) ← clone_source s src va share;
        match r with
        | inl e => s ← release s; Ok (e, s)
        | inr (page, flags) =>
            '(r, s) ← vm_page_insert s dst page va flags;
            s ← release s;
            if r <? 0 then Ok (r, s) else clone_loop fuel s src dst (u32 (va + PAGE_SIZE)) end_va share
        end
      else Ok (0, s)
  end.
Definition vm_user_clone s src dst start_va n (share : bool) : outcome (Z * vms T) :=
  let end_va := round_up_page (u32 (start_va + n)) in
  _ ← vm_user_assert_pages start_va end_va;
  clone_loop (S (range_pages start_va end_va)) s src dst start_va end_va share.

(** ** Checks of user pointers *)

Definition vm_flags_check (curr_flags flags : Z) : bool :=
  let curr_flags := if negb (Z.land curr_flags VM_COW =? 0) then Z.lor (Z.ldiff curr_flags VM_COW) VM_WRITE else curr_flags in
  Z.land curr_flags flags =? flags.

Definition vm_user_check_ptr s t va flags : outcome (Z * vms T) :=
  if VIRT_KERNEL_BASE <=? va then Ok (- EFAULT, s) else
  s ← acquire s;
  '(o, s) ← vm_page_lookup s t va;
  s ← release s;
  match o with
  | None => Ok (- EFAULT, s)
  | Some (_, curr_flags) => Ok (if vm_flags_check curr_flags flags then 0 else - EFAULT, s)
  end.

(** The inner loop: the length at the terminator, or nothing and the length so far. *)
Fixpoint scan_str (l : list Z) (len : Z) : option Z * Z :=
  match l with
  | [] => (None, len)
  | c :: l => if c =? 0 then (Some len, len) else scan_str l (len + 1)
  end.
Fixpoint check_str_loop (fuel : nat) s t va len flags : outcome ((Z + Z) * vms T) :=
  match fuel with
  | O => Panic "out of fuel"
  | S fuel =>
      if va <? VIRT_KERNEL_BASE then
        s ← acquire s;
        '(o, s) ← vm_page_lookup s t va;
        match o with
        | None => s ← release s; Ok (inl (- EFAULT), s)
        | Some (page, curr_flags) =>
            if negb (vm_flags_check curr_flags flags) then s ← release s; Ok (inl (- EFAULT), s) else
            d ← deref (mem s !! page) "unmapped memory";
            s ← release s;
            match scan_str (drop (Z.to_nat (va mod PAGE_SIZE)) d) len with
            | (Some n, _) => Ok (inr n, s)
            | (None, len') => check_str_loop fuel s t (u32 (va + (len' - len))) len' flags
            end
        end
      else Ok (inl (- EFAULT), s)
  end.
(** The length of the string, or a negated error number. *)
Definition vm_user_check_str s t va flags : outcome ((Z + Z) * vms T) :=
  check_str_loop (Z.to_nat (VIRT_KERNEL_BASE / PAGE_SIZE + 1)) s t va 0 flags.

Fixpoint scan_args (n : nat) (d : list Z) (off len : Z) : option Z * Z :=
  match n with
  | O => (None, len)
  | S n => if fld 4 d (4 * off) =? 0 then (Some len, len) else scan_args n d (off + 1) (len + 1)
  end.
Fixpoint check_args_loop (fuel : nat) s t va len flags : outcome ((Z + Z) * vms T) :=
  match fuel with
  | O => Panic "out of fuel"
  | S fuel =>
      if va <? VIRT_KERNEL_BASE then
        s ← acquire s;
        '(o, s) ← vm_page_lookup s t va;
        match o with
        | None => s ← release s; Ok (inl (- EFAULT), s)
        | Some (page, curr_flags) =>
            if negb (vm_flags_check curr_flags flags) then s ← release s; Ok (inl (- EFAULT), s) else
            d ← deref (mem s !! page) "unmapped memory";
            s ← release s;
            let off := va mod PAGE_SIZE / 4 in
            match scan_args (Z.to_nat (PAGE_SIZE / 4 - off)) d off len with
            | (Some n, _) => Ok (inr n, s)
            | (None, len') => check_args_loop fuel s t (u32 (va + 4 * (len' - len))) len' flags
            end
        end
      else Ok (inl (- EFAULT), s)
  end.
Definition vm_user_check_args s t va flags : outcome ((Z + Z) * vms T) :=
  if negb (va mod 4 =? 0) then Ok (inl (- EFAULT), s) else
  check_args_loop (Z.to_nat (VIRT_KERNEL_BASE / PAGE_SIZE + 1)) s t va 0 flags.

Fixpoint check_buf_loop (fuel : nat) s t va end_va flags : outcome (Z * vms T) :=
  match fuel with
  | O => Panic "out of fuel"
  | S fuel =>
      if va <? end_va then
        s ← acquire s;
        '(r, s) ← vm_page_lookup_cow s t va;
        s ← release s;
        match r with
        | inl e => Ok (e, s)
        | inr (_, curr_flags) =>
            if negb (vm_flags_check curr_flags flags) then Ok (- EFAULT, s)
            else check_buf_loop fuel s t (u32 (va + PAGE_SIZE)) end_va flags
        end
      else Ok (0, s)
  end.
Definition vm_user_check_buf s t start_va n flags : outcome (Z * vms T) :=
  let end_va := round_up_page (u32 (start_va + n)) in
  if (VIRT_KERNEL_BASE <=? start_va) || (end_va <? start_va) then Ok (- EFAULT, s) else
  check_buf_loop (S (S (range_pages start_va end_va))) s t start_va end_va flags.

Definition vm_handle_fault s t va : outcome (Z * vms T) :=
  if (va <? PAGE_SIZE) || (VIRT_KERNEL_BASE <=? va) then Ok (- EFAULT, s) else
  s ← acquire s;
  '(o, s) ← vm_page_lookup s t va;
  match o with
  | None => s ← release s; Ok (- EFAULT, s)
  | Some (page, flags) =>
      if Z.land flags VM_COW =? 0 then s ← release s; Ok (- EFAULT, s) else
      '(o, s) ← vm_page_cow s t va page flags;
      s ← release s;
      Ok (match o with None => - ENOMEM | Some _ => 0 end, s)
  end.

End ops.

(** ** Mappings and reference counts

    [M] gives, for a page table and a page number, the frame and the flags. *)

Notation mapping := (gmap (Z * Z) (Z * Z)).

Definition refs (M : mapping) (p : Z) : Z := Z.of_nat (size (filter (λ kv, kv.2.1 = p) M)).

Section refs.
Implicit Types (M : mapping) (k : Z * Z) (p q fl : Z).

Lemma refs_nonneg M p : 0 ≤ refs M p.
Proof. unfold refs. lia. Qed.

Lemma refs_insert M k p fl q : M !! k = None → refs (<[k := (p, fl)]> M) q = refs M q + if decide (q = p) then 1 else 0.
Proof.
  intros Hk. unfold refs. case_decide as E.
  - subst q. rewrite map_filter_insert_True by done. rewrite map_size_insert_None; [lia|]. by apply map_lookup_filter_None; left.
  - rewrite map_filter_insert_False by (simpl; congruence). rewrite delete_id by done. lia.
Qed.

Lemma refs_delete M k p fl q : M !! k = Some (p, fl) → refs (delete k M) q = refs M q - if decide (q = p) then 1 else 0.
Proof.
  intros Hk. pose proof (refs_insert (delete k M) k p fl q (lookup_delete_eq _ _)) as H.
  rewrite insert_delete_id in H by done. lia.
Qed.

Lemma refs_replace M k p fl p' fl' q :
  M !! k = Some (p', fl') →
  refs (<[k := (p, fl)]> M) q = refs M q - (if decide (q = p') then 1 else 0) + (if decide (q = p) then 1 else 0).
Proof.
  intros Hk. rewrite <- insert_delete_eq, refs_insert by apply lookup_delete_eq. by rewrite (refs_delete M k p' fl').
Qed.

Lemma refs_pos M k p fl : M !! k = Some (p, fl) → 0 < refs M p.
Proof. intros Hk. pose proof (refs_delete M k p fl p Hk). rewrite decide_True in H by done. pose proof (refs_nonneg (delete k M) p). lia. Qed.

Lemma refs_unique M k k' p fl fl' : refs M p = 1 → M !! k = Some (p, fl) → M !! k' = Some (p, fl') → k' = k.
Proof.
  intros H1 Hk Hk'. destruct (decide (k' = k)) as [|Hne]; [done|]. exfalso.
  pose proof (refs_delete M k p fl p Hk) as H. rewrite decide_True in H by done.
  pose proof (refs_pos (delete k M) k' p fl') as H'. rewrite lookup_delete_ne in H' by done. specialize (H' Hk'). lia.
Qed.

Lemma refs_mapped M p : 0 < refs M p → ∃ k fl, M !! k = Some (p, fl).
Proof.
  intros Hp. unfold refs in Hp. destruct (map_choose (filter (λ kv, kv.2.1 = p) M)) as (k & [q fl] & Hk).
  - intros E. rewrite E, map_size_empty in Hp. lia.
  - apply map_lookup_filter_Some in Hk as [Hk E]. simpl in E. subst q. by exists k, fl.
Qed.
End refs.

Definition oom (w : string) : Prop := w = "out of memory"%string.

Section theory.
Context {T : Type} `{!ArchVm T, !ArchLaws T} (tabs : gset Z).
Implicit Types (s : vms T) (t va p q fl : Z) (P : Z * Z → option Z) (M : mapping) (E : gmap Z Z) (k : Z * Z).

(** Frame [p] belongs to virtual memory, with [r] references. *)
Definition alive s p r : Prop :=
  live (pg s) p r PAGE_TAG_ANON ∧ ∃ d, mem s !! p = Some d ∧ Z.of_nat (length d) = PAGE_SIZE ∧ Forall byte d.

Definition flags_ok fl : Prop := 0 ≤ fl < 128 ∧ Z.land fl VM_PAGE ≠ 0.

(** Frames hold their mappings in [M] and the references of [E], which an
    operation in progress has. *)
Record ginv P M E s : Prop := {
  g_rep : pt_rep tabs P (pt s) (pg s);
  g_wf : wf (pg s);
  g_map k p : P k = Some p → pt_entry (pt s) p = prod_map (λ q, q * PAGE_SIZE) id <$> M !! k;
  g_dom k : P k = None → M !! k = None;
  g_flags k q fl : M !! k = Some (q, fl) → flags_ok fl;
  g_extra p e : E !! p = Some e → 0 ≤ e;
  g_frame p : 0 < refs M p ∨ is_Some (E !! p) → alive s p (refs M p + default 0 (E !! p));
  g_leak p r : live (pg s) p r PAGE_TAG_ANON → 0 < refs M p ∨ is_Some (E !! p) }.

(** The invariant between operations. *)
Definition inv M s : Prop := (∃ P, ginv P M ∅ s) ∧ vm_lock s = false.

Lemma vms_eta s : set_pg (pg s) (set_pt (pt s) s) = s.
Proof. by destruct s. Qed.

Lemma count_20 P M E s : ginv P M E s → page_count (pg s) ≤ 2 ^ 20.
Proof. intros G. destruct (lo_count _ (wf_lists _ (g_wf _ _ _ _ G))) as [? _]. lia. Qed.

Lemma no_page_ok P M E s k p : ginv P M E s → P k = Some p → no_page s p = match M !! k with Some _ => false | None => true end.
Proof.
  intros G Hp. pose proof (g_map _ _ _ _ G k p Hp) as He. unfold no_page, pt_entry in *.
  destruct (arch_vm_pte_valid p (pt s)), (M !! k) as [[q fl]|] eqn:Ek; simpl in *; try done; simplify_eq.
  pose proof (g_flags _ _ _ _ G k q _ Ek) as [_ Hf]. by apply Z.eqb_neq in Hf.
Qed.

Lemma entry_ok P M E s k p q fl :
  ginv P M E s → P k = Some p → M !! k = Some (q, fl) → arch_vm_pte_addr p (pt s) = q * PAGE_SIZE ∧ arch_vm_pte_flags p (pt s) = fl.
Proof.
  intros G Hp Hk. pose proof (g_map _ _ _ _ G k p Hp) as He. rewrite Hk in He. unfold pt_entry in He.
  destruct (arch_vm_pte_valid p (pt s)); simpl in He; by simplify_eq.
Qed.

(** The pages the two checks before every use are about. *)
Lemma mapped_page P M E s k p q fl :
  ginv P M E s → P k = Some p → M !! k = Some (q, fl) →
  pa2page (pg s) (arch_vm_pte_addr p (pt s)) = Ok q ∧ page_assert (pg s) q 0 PAGE_TAG_ANON = Ok tt ∧
  alive s q (refs M q + default 0 (E !! q)).
Proof.
  intros G Hp Hk. destruct (entry_ok _ _ _ _ _ _ _ _ G Hp Hk) as [-> _]. pose proof (refs_pos M k q fl Hk) as Hr.
  destruct (g_frame _ _ _ _ G q (or_introl Hr)) as [Hl Hd]. split; [apply pa2page_ok, Hl|]. split; [|done].
  eapply page_assert_ok; [done|]. destruct (E !! q) as [e|] eqn:Ee; simpl; [pose proof (g_extra _ _ _ _ G _ _ Ee)|]; lia.
Qed.

Lemma vm_page_lookup_ok P M E s t va :
  ginv P M E s → vm_lock s = true → t ∈ tabs → 0 ≤ va < VIRT_KERNEL_BASE →
  vm_page_lookup s t va = Ok (M !! (t, va / PAGE_SIZE), s).
Proof.
  intros G Hl Ht Hva. unfold vm_page_lookup, holding, lookup. rewrite Hl. simpl. pose proof (g_rep _ _ _ _ G) as Hrep.
  destruct (P (t, va / PAGE_SIZE)) as [p|] eqn:Hp.
  - rewrite (lookup_hit tabs P _ _ _ _ p false Hrep Ht Hva Hp). simpl. rewrite vms_eta. rewrite (no_page_ok _ _ _ _ _ _ G Hp).
    destruct (M !! (t, va / PAGE_SIZE)) as [[q fl]|] eqn:Hk; [|done].
    destruct (mapped_page _ _ _ _ _ _ _ _ G Hp Hk) as (-> & E2 & _). simpl. rewrite E2. simpl.
    by rewrite (proj2 (entry_ok _ _ _ _ _ _ _ _ G Hp Hk)).
  - rewrite (lookup_miss tabs P _ _ _ _ Hrep Ht Hva Hp). simpl. by rewrite vms_eta, (g_dom _ _ _ _ G).
Qed.

(** A change to one anonymous frame leaves the page tables alone. *)
Lemma rep_step P x st q r st' :
  pt_rep tabs P x st → live st q r PAGE_TAG_ANON → frame_step st q st' → pt_rep tabs P x st'.
Proof.
  intros Hrep Hq [Hc Hs]. apply (pt_frames tabs P x st); [done..|]. intros p r' tag Ht Hp. apply Hs; [|done].
  intros ->. destruct (live_unique _ _ _ _ _ _ Hp Hq). done.
Qed.

(** Writing entry [k]: the new mapping is read back, the others are as before. *)
Lemma g_map_update P M k p x x' e :
  (∀ k p, P k = Some p → pt_entry x p = prod_map (λ q, q * PAGE_SIZE) id <$> M !! k) →
  (∀ k k' p, P k = Some p → P k' = Some p → k = k') → P k = Some p →
  pt_entry x' p = prod_map (λ q, q * PAGE_SIZE) id <$> e →
  (∀ k' p', P k' = Some p' → p' ≠ p → pt_entry x' p' = pt_entry x p') →
  ∀ k' p', P k' = Some p' → pt_entry x' p' = prod_map (λ q, q * PAGE_SIZE) id <$> partial_alter (λ _, e) k M !! k'.
Proof.
  intros Hm Hinj Hp He Ho k' p' Hp'. destruct (decide (k' = k)) as [->|Hne].
  - simplify_eq. by rewrite lookup_partial_alter_eq.
  - rewrite lookup_partial_alter_ne by done. rewrite (Ho k'); [by apply Hm|done|]. intros ->. by eapply Hne, Hinj.
Qed.

(** What an operation on page tables leaves alone. *)
Definition same_mem s s' : Prop := vm_lock s' = vm_lock s ∧ mem s' = mem s ∧ page_count (pg s') = page_count (pg s).

Lemma alive_step s s' q p r :
  frame_step (pg s) q (pg s') → mem s' = mem s → p ≠ q → alive s' p r ↔ alive s p r.
Proof. intros [_ Hs] Hm Hne. unfold alive. rewrite Hm. by rewrite Hs. Qed.

Lemma vm_page_remove_ok P M E s t va :
  ginv P M E s → vm_lock s = true → t ∈ tabs → 0 ≤ va < VIRT_KERNEL_BASE →
  (∀ q fl, M !! (t, va / PAGE_SIZE) = Some (q, fl) → E !! q ≠ Some 0) →
  ∃ s', vm_page_remove s t va = Ok s' ∧ ginv P (delete (t, va / PAGE_SIZE) M) E s' ∧ same_mem s s'.
Proof.
  intros G Hl Ht Hva HE. unfold vm_page_remove, holding, lookup. rewrite Hl. simpl. pose proof (g_rep _ _ _ _ G) as Hrep.
  set (k := (t, va / PAGE_SIZE)) in *.
  assert (Hsame : M !! k = None → ginv P (delete k M) E s ∧ same_mem s s) by (intros Hk; rewrite delete_id by done; done).
  destruct (P k) as [p|] eqn:Hp.
  2:{ rewrite (lookup_miss tabs P _ _ _ _ Hrep Ht Hva Hp). simpl. rewrite vms_eta. exists s. split; [done|]. by apply Hsame, (g_dom _ _ _ _ G). }
  rewrite (lookup_hit tabs P _ _ _ _ p false Hrep Ht Hva Hp). simpl. rewrite vms_eta, (no_page_ok _ _ _ _ _ _ G Hp).
  destruct (M !! k) as [[q fl]|] eqn:Hk; [|exists s; split; [done|]; by apply Hsame].
  destruct (mapped_page _ _ _ _ _ _ _ _ G Hp Hk) as (-> & E2 & Hlive & Hdata). simpl. rewrite E2. simpl.
  destruct (page_dec_ref_ok _ _ _ _ (g_wf _ _ _ _ G) Hlive) as (st & -> & Hw & Hs & Hq). simpl. eexists. split; [done|].
  pose proof (refs_pos M k q fl Hk) as Hpos. specialize (HE q fl eq_refl).
  assert (Hrep1 : pt_rep tabs P (pt s) st) by (by eapply rep_step).
  destruct (pte_clear_ok tabs P (pt s) st k p Hrep1 Hp) as (Hrep2 & He & Ho).
  split; [|split; [done|split; [done|apply Hs]]].
  assert (Hr : ∀ p', refs (delete k M) p' = refs M p' - if decide (p' = q) then 1 else 0) by (intros; by apply (refs_delete M k q fl)).
  split; simpl; [done|done| | | | | |].
  - apply (g_map_update P M k p (pt s) _ None); try done; [apply (g_map _ _ _ _ G)|intros; by eapply pt_inj].
  - intros k' Hk'. destruct (decide (k' = k)) as [->|]; [apply lookup_delete_eq|]. rewrite lookup_delete_ne by done. by apply (g_dom _ _ _ _ G).
  - intros k' q' fl' [_ Hk']%lookup_delete_Some. by apply (g_flags _ _ _ _ G k' q').
  - apply (g_extra _ _ _ _ G).
  - intros p' Hp'. rewrite Hr in Hp' |- *. destruct (decide (p' = q)) as [->|Hne].
    + split; [|done]. simpl. destruct (decide (refs M q + default 0 (E !! q) = 1)) as [E1|].
      * exfalso. destruct (E !! q) as [e|] eqn:Ee; simpl in *; [|destruct Hp' as [?|[? ?]]; [lia|done]].
        pose proof (g_extra _ _ _ _ G _ _ Ee). apply HE. f_equal. lia.
      * by replace (refs M q - 1 + default 0 (E !! q)) with (refs M q + default 0 (E !! q) - 1) by lia.
    + rewrite Z.sub_0_r in Hp' |- *. eapply (alive_step s _ q); [done..|]. by apply (g_frame _ _ _ _ G).
  - intros p' r Hp'. rewrite Hr. destruct (decide (p' = q)) as [->|Hne].
    + destruct (decide (refs M q + default 0 (E !! q) = 1)) as [E1|]; [by apply Hq in Hp'|].
      destruct (E !! q) as [e|] eqn:Ee; [right; eauto|left; simpl in *; lia].
    + rewrite Z.sub_0_r. apply (g_leak _ _ _ _ G p' r). by apply (proj2 Hs).
Qed.

Lemma lookup_alloc_ok P M E s t va :
  ginv P M E s → t ∈ tabs → 0 ≤ va < VIRT_KERNEL_BASE →
  wp (lookup s t va true) oom (λ r, ∃ p P', r.1 = Some p ∧ P' (t, va / PAGE_SIZE) = Some p ∧ ginv P' M E r.2 ∧ same_mem s r.2).
Proof.
  intros G Ht Hva. pose proof (g_rep _ _ _ _ G) as Hrep. unfold lookup. set (k := (t, va / PAGE_SIZE)).
  destruct (P k) as [p|] eqn:Hp.
  { rewrite (lookup_hit tabs P _ _ _ _ p true Hrep Ht Hva Hp). simpl. rewrite vms_eta. by exists p, P. }
  pose proof (lookup_grow tabs P _ _ _ _ Hrep (g_wf _ _ _ _ G) Ht Hva Hp) as Hg.
  destruct (arch_vm_lookup t va true (pt s) (pg s)) as [[[o x] st]|w]; simpl; [|done].
  destruct Hg as (p & P' & q & -> & Hp' & Hsub & Hrep' & Hw' & Hent & Hn & Hn' & Hs). exists p, P'. split; [done|]. split; [done|].
  split; [|split; [done|split; [done|apply Hs]]].
  assert (Hq : ∀ p r, live (pg s) p r PAGE_TAG_ANON ↔ live st p r PAGE_TAG_ANON).
  { intros p' r. destruct (decide (p' = q)) as [->|Hne]; [|symmetry; by apply Hs].
    split; [intros H; by apply Hn in H|intros H; by apply Hn' in H]. }
  split; simpl; [done|done| | | | | |].
  - intros k' p' Hk'. rewrite (Hent k' p' Hk'). destruct (P k') as [p''|] eqn:Hk.
    + pose proof (Hsub _ _ Hk). simplify_eq. by apply (g_map _ _ _ _ G).
    + by rewrite (g_dom _ _ _ _ G).
  - intros k' Hk'. apply (g_dom _ _ _ _ G). destruct (P k') as [p'|] eqn:Hp''; [|done]. pose proof (Hsub _ _ Hp''). congruence.
  - apply (g_flags _ _ _ _ G).
  - apply (g_extra _ _ _ _ G).
  - intros p' Hp2. destruct (g_frame _ _ _ _ G p' Hp2) as [Hl Hd]. split; [by apply Hq|done].
  - intros p' r Hl. by apply (g_leak _ _ _ _ G p' r), Hq.
Qed.

(** One more reference to a frame the operation has a hold of. *)
Definition hold E p : gmap Z Z := <[p := default 0 (E !! p) + 1]> E.

Lemma hold_default E p p' : default 0 (hold E p !! p') = default 0 (E !! p') + if decide (p' = p) then 1 else 0.
Proof. unfold hold. case_decide as H; [subst; by rewrite lookup_insert_eq|rewrite lookup_insert_ne by done; lia]. Qed.

Lemma hold_some E p p' : is_Some (hold E p !! p') ↔ p' = p ∨ is_Some (E !! p').
Proof. unfold hold. rewrite lookup_insert_is_Some'. naive_solver. Qed.

Lemma inc_ref_ok P M E s p :
  ginv P M E s → 0 < refs M p ∨ is_Some (E !! p) →
  ∃ st, page_inc_ref (pg s) p = Ok st ∧ ginv P M (hold E p) (set_pg st s) ∧ page_count st = page_count (pg s).
Proof.
  intros G Hp. destruct (g_frame _ _ _ _ G p Hp) as [Hl Hd].
  destruct (add_ref_live 1 _ _ _ _ (g_wf _ _ _ _ G) Hl) as (st & E1 & Hw & Hl' & Hs). exists st. split; [done|]. split; [|apply Hs].
  split; simpl; try apply G; [by eapply rep_step; [apply G|..]|done| | |].
  - intros p' e. unfold hold. destruct (decide (p' = p)) as [->|]; [rewrite lookup_insert_eq|rewrite lookup_insert_ne by done; apply (g_extra _ _ _ _ G)].
    intros [= <-]. destruct (E !! p) as [e'|] eqn:Ee; simpl; [pose proof (g_extra _ _ _ _ G _ _ Ee)|]; lia.
  - intros p' Hp'. rewrite hold_default. destruct (decide (p' = p)) as [->|Hne].
    + split; [|done]. simpl. by rewrite Z.add_assoc.
    + rewrite Z.add_0_r. apply (alive_step s _ p); [done..|]. apply (g_frame _ _ _ _ G).
      destruct Hp' as [?|[?|?]%hold_some]; [by left|done|by right].
  - intros p' r Hp'. rewrite hold_some. destruct (decide (p' = p)) as [->|Hne]; [by right; left|].
    apply (proj2 Hs) in Hp'; [|done]. destruct (g_leak _ _ _ _ G p' r Hp'); auto.
Qed.

(** Turning the extra reference into a mapping. *)
Lemma pte_set_step P M E s k pte p fl :
  ginv P M (hold E p) s → (∀ p e, E !! p = Some e → 0 ≤ e) → M !! k = None → P k = Some pte → flags_ok fl →
  ginv P (<[k := (p, fl)]> M) E (set_pt (arch_vm_pte_set pte (p * PAGE_SIZE) fl (pt s)) s).
Proof.
  intros G HE Hk Hp Hf.
  assert (Hr : 0 ≤ p < page_count (pg s)) by (apply (g_frame _ _ _ _ G p); right; apply hold_some; by left).
  pose proof (count_20 _ _ _ _ G). destruct (pte_set_ok tabs P (pt s) (pg s) k pte p fl (g_rep _ _ _ _ G) Hp) as (Hrep & He & Ho); [lia|apply Hf|].
  assert (Hrf : ∀ p', refs (<[k := (p, fl)]> M) p' = refs M p' + if decide (p' = p) then 1 else 0) by (intros; by apply refs_insert).
  split; simpl; [done|apply G| | | |done| |].
  - apply (g_map_update P M k pte (pt s) _ (Some (p, fl))); try done; [apply (g_map _ _ _ _ G)|intros; by eapply pt_inj; [apply G|..]].
  - intros k' Hk'. destruct (decide (k' = k)) as [->|]; [congruence|]. rewrite lookup_insert_ne by done. by apply (g_dom _ _ _ _ G).
  - intros k' q fl' [[<- [= <- <-]]|[_ Hk']]%lookup_insert_Some; [done|by apply (g_flags _ _ _ _ G k' q)].
  - intros p' Hp'. rewrite Hrf in *. pose proof (g_frame _ _ _ _ G p') as Hfr. rewrite hold_default in Hfr.
    replace (refs M p' + (if decide (p' = p) then 1 else 0) + default 0 (E !! p')) with
      (refs M p' + (default 0 (E !! p') + (if decide (p' = p) then 1 else 0))) by lia.
    apply Hfr. rewrite hold_some. case_decide; [by right; left|]. rewrite Z.add_0_r in Hp'. tauto.
  - intros p' r Hp'. rewrite Hrf. pose proof (refs_nonneg M p'). destruct (g_leak _ _ _ _ G p' r Hp') as [?|[->|?]%hold_some]; [|rewrite decide_True by done; lia|by right].
    left. case_decide; lia.
Qed.

Lemma flag_range fl m : 0 ≤ fl < 128 → 0 ≤ m < 128 → 0 ≤ Z.lor fl m < 128.
Proof.
  assert (Hlog : ∀ x, 0 ≤ x < 128 → Z.log2 x < 7).
  { intros x Hx. destruct (decide (x = 0)) as [->|]; [done|]. apply Z.log2_lt_pow2; lia. }
  intros H1 H2. assert (0 ≤ Z.lor fl m) by (apply Z.lor_nonneg; lia). split; [done|].
  destruct (decide (Z.lor fl m = 0)) as [->|]; [lia|]. change 128 with (2 ^ 7). apply Z.log2_lt_pow2; [lia|].
  rewrite Z.log2_lor by lia. pose proof (Hlog fl H1). pose proof (Hlog m H2). lia.
Qed.

Lemma ldiff_range fl m : 0 ≤ fl < 128 → 0 ≤ m → 0 ≤ Z.ldiff fl m < 128.
Proof.
  intros H1 H2. assert (0 ≤ Z.ldiff fl m ≤ fl); [|lia]. apply Z.ldiff_le; [lia|]. apply Z.bits_inj'. intros n _.
  rewrite !Z.ldiff_spec, Z.bits_0. by destruct (Z.testbit fl n), (Z.testbit m n).
Qed.

Lemma page_flag_ok fl : 0 ≤ fl < 128 → flags_ok (Z.lor fl VM_PAGE).
Proof.
  intros Hfl. split; [apply flag_range; [done|unfold VM_PAGE; lia]|].
  rewrite Z.land_comm, Z.land_lor_distr_r. change (Z.land VM_PAGE VM_PAGE) with 64. intros H. apply Z.lor_eq_0_iff in H. lia.
Qed.

Lemma vm_page_insert_ok P M E s t p va fl :
  ginv P M E s → vm_lock s = true → t ∈ tabs → 0 ≤ va < VIRT_KERNEL_BASE → 0 ≤ fl < 128 →
  0 < refs M p ∨ is_Some (E !! p) →
  (∀ q fl', M !! (t, va / PAGE_SIZE) = Some (q, fl') → q ≠ p → E !! q ≠ Some 0) →
  wp (vm_page_insert s t p va fl) oom (λ r, r.1 = 0 ∧
    ∃ P', ginv P' (<[(t, va / PAGE_SIZE) := (p, Z.lor fl VM_PAGE)]> M) E r.2 ∧ same_mem s r.2).
Proof.
  intros G Hl Ht Hva Hfl Hp HE. unfold vm_page_insert, holding. rewrite Hl. simpl. apply wp_bind.
  eapply wp_mono; [by apply (lookup_alloc_ok P M E s)|done|]. set (k := (t, va / PAGE_SIZE)) in *.
  intros [o s1] (pte & P1 & Ho & Hp1 & G1 & Hl1 & Hm1 & Hc1). simpl in Ho, G1, Hl1, Hm1, Hc1. subst o.
  destruct (inc_ref_ok P1 M E s1 p G1 Hp) as (st & -> & G2 & Hc2). simpl.
  destruct (vm_page_remove_ok P1 M (hold E p) (set_pg st s1) t va G2) as (s3 & -> & G3 & Hl3 & Hm3 & Hc3); try done; [by rewrite <- Hl|..].
  { intros q fl' Hk. unfold hold. destruct (decide (q = p)) as [->|Hne].
    - rewrite lookup_insert_eq. intros [= H0]. destruct (E !! p) as [e|] eqn:Ee; simpl in H0; [pose proof (g_extra _ _ _ _ G _ _ Ee)|]; lia.
    - rewrite lookup_insert_ne by done. by eapply HE. }
  simpl in *. rewrite page2pa_ok by (apply (g_frame _ _ _ _ G3 p); right; apply hold_some; by left). simpl. split; [done|]. exists P1.
  split; [|split; [simpl; congruence|split; [simpl; congruence|simpl; congruence]]].
  rewrite <- insert_delete_eq. apply pte_set_step; [done|apply G|apply lookup_delete_eq|done|by apply page_flag_ok].
Qed.

(** ** Contents *)

Definition good_page (d : list Z) : Prop := Z.of_nat (length d) = PAGE_SIZE ∧ Forall byte d.

(** The bytes of a page of an address space. *)
Definition upage s M k : option (list Z) := '(p, _) ← M !! k; mem s !! p.
Definition ubyte s M t va : option Z := d ← upage s M (t, va / PAGE_SIZE); d !! Z.to_nat (va mod PAGE_SIZE).

Lemma upage_good P M E s k p fl : ginv P M E s → M !! k = Some (p, fl) → ∃ d, mem s !! p = Some d ∧ upage s M k = Some d ∧ good_page d.
Proof.
  intros G Hk. pose proof (refs_pos M k p fl Hk) as Hr. destruct (g_frame _ _ _ _ G p (or_introl Hr)) as (_ & d & Hd & Hg).
  exists d. unfold upage. by rewrite Hk.
Qed.

Lemma set_mem_ginv P M E s p d : ginv P M E s → good_page d → ginv P M E (set_mem (<[p := d]> (mem s)) s).
Proof.
  intros G Hd. split; simpl; try apply G. intros p' Hp'. destruct (g_frame _ _ _ _ G p' Hp') as (Hl & d' & Hd').
  split; [done|]. simpl. destruct (decide (p' = p)) as [->|]; [rewrite lookup_insert_eq; by exists d|rewrite lookup_insert_ne by done; by exists d'].
Qed.

Lemma zeros_good : good_page zero_page.
Proof. unfold zero_page. split; [by rewrite length_replicate|]. apply Forall_replicate. done. Qed.

Lemma page_alloc_one_vm P M s :
  ginv P M ∅ s →
  wp (page_alloc_one s PAGE_ALLOC_ZERO PAGE_TAG_ANON) oom (λ r, refs M r.1 = 0 ∧ ginv P M {[r.1 := 0]} r.2 ∧
    vm_lock r.2 = vm_lock s ∧ mem r.2 = <[r.1 := zero_page]> (mem s)).
Proof.
  intros G. unfold page_alloc_one. change (Z.land PAGE_ALLOC_ZERO PAGE_ALLOC_ZERO =? 0) with false. cbv match.
  pose proof (page_alloc_one_ok (pg s) PAGE_ALLOC_ZERO PAGE_TAG_ANON (g_wf _ _ _ _ G)) as Ha.
  destruct (page_alloc_block (pg s) 0 PAGE_ALLOC_ZERO PAGE_TAG_ANON) as [[p st]|]; [|done].
  destruct Ha as (Hw & Hl & Hn & Hs). simpl.
  assert (Hz : refs M p = 0).
  { destruct (decide (refs M p = 0)); [done|]. pose proof (refs_nonneg M p).
    destruct (g_frame _ _ _ _ G p) as [Hc _]; [left; lia|]. by apply Hn in Hc. }
  split; [done|]. split; [|done].
  split; simpl; try apply G; [|done| | |].
  - apply (pt_frames tabs P _ (pg s)); [apply G|apply Hs|]. intros p' r tag _ Hp'. apply Hs; [|done]. intros ->. by apply Hn in Hp'.
  - intros p' e [<- <-]%lookup_singleton_Some. lia.
  - intros p' Hp'. destruct (decide (p' = p)) as [->|Hne].
    + rewrite lookup_singleton_eq, Hz. split; [done|]. simpl. rewrite lookup_insert_eq. eexists. split; [done|apply zeros_good].
    + rewrite lookup_singleton_ne in Hp' |- * by done. destruct (g_frame _ _ _ _ G p') as (Hl' & d & Hd); [rewrite lookup_empty; tauto|].
      rewrite lookup_empty in Hl'. split; [by apply Hs|]. exists d. simpl. by rewrite lookup_insert_ne.
  - intros p' r Hp'. destruct (decide (p' = p)) as [->|Hne]; [right; rewrite lookup_singleton_eq; eauto|].
    left. destruct (g_leak _ _ _ _ G p' r) as [?|[? H]]; [by apply Hs|done|by rewrite lookup_empty in H].
Qed.

(** A page that has got its mapping is no longer held by the operation. *)
Lemma ginv_mapped P M s p : ginv P M {[p := 0]} s → 0 < refs M p → ginv P M ∅ s.
Proof.
  intros G Hr. assert (Hd : ∀ p', default 0 (({[p := 0]} : gmap Z Z) !! p') = 0).
  { intros p'. destruct (decide (p' = p)) as [->|]; [by rewrite lookup_singleton_eq|by rewrite lookup_singleton_ne]. }
  split; try apply G; [intros p' e H; by rewrite lookup_empty in H| |].
  - intros p' [Hp'|[? H]]; [|by rewrite lookup_empty in H]. pose proof (g_frame _ _ _ _ G p' (or_introl Hp')) as H.
    rewrite Hd in H. by rewrite lookup_empty.
  - intros p' r Hp'. destruct (g_leak _ _ _ _ G p' r Hp') as [?|[e H]]; [by left|]. apply lookup_singleton_Some in H as [<- _]. by left.
Qed.

Definition cow fl : bool := negb (Z.land fl VM_COW =? 0).
(** The flags of a page after its copy. *)
Definition uncow fl : Z := Z.lor (Z.lor (Z.ldiff fl VM_COW) VM_WRITE) VM_PAGE.

Lemma uncow_range fl : 0 ≤ fl < 128 → 0 ≤ Z.lor (Z.ldiff fl VM_COW) VM_WRITE < 128.
Proof. intros H. apply flag_range; [by apply ldiff_range|unfold VM_WRITE; lia]. Qed.

(** A page shared copy-on-write becomes the caller's own: nothing any address
    space contains has changed, and the page has no other mapping. *)
Lemma vm_page_cow_ok P M s t va q fl :
  ginv P M ∅ s → vm_lock s = true → t ∈ tabs → 0 ≤ va < VIRT_KERNEL_BASE →
  M !! (t, va / PAGE_SIZE) = Some (q, fl) → cow fl = true →
  wp (vm_page_cow s t va q fl) oom (λ r, ∃ p P', let M' := <[(t, va / PAGE_SIZE) := (p, uncow fl)]> M in
    r.1 = Some p ∧ ginv P' M' ∅ r.2 ∧ vm_lock r.2 = true ∧ refs M' p = 1 ∧ ∀ k, upage r.2 M' k = upage s M k).
Proof.
  intros G Hl Ht Hva Hk Hc. set (k := (t, va / PAGE_SIZE)) in *. unfold vm_page_cow. unfold cow in Hc. rewrite Hc. simpl.
  pose proof (refs_pos M k q fl Hk) as Hr. destruct (g_frame _ _ _ _ G q (or_introl Hr)) as ((_ & Hpg & _) & d & Hd & Hgd).
  rewrite lookup_empty in Hpg. simpl in Hpg. rewrite Z.add_0_r in Hpg. rewrite Hpg. simpl.
  pose proof (proj1 (g_flags _ _ _ _ G k q fl Hk)) as Hfl. pose proof (uncow_range fl Hfl) as Hfl'.
  destruct (Z.eqb_spec (refs M q) 1) as [E1|E1].
  - apply wp_bind. eapply wp_mono; [apply (vm_page_insert_ok P M ∅ s t q va); try done; by left|done|].
    intros [r s1] (E & P1 & G1 & Hl1 & Hm1 & _). simpl in E, G1, Hl1, Hm1. subst r. simpl. exists q, P1. split; [done|].
    split; [done|]. split; [congruence|]. split; [fold k; rewrite (refs_replace M k q _ q fl) by done; rewrite decide_True by done; lia|].
    intros k'. unfold upage. rewrite Hm1. fold k. destruct (decide (k' = k)) as [->|]; [by rewrite lookup_insert_eq, Hk|by rewrite lookup_insert_ne].
  - apply wp_bind. eapply wp_mono; [by apply (page_alloc_one_vm P M s)|done|]. intros [p s1] (Hz & G1 & Hl1 & Hm1). simpl in Hz, G1, Hl1, Hm1.
    assert (Hqp : q ≠ p) by (intros ->; lia). assert (Hd1 : mem s1 !! q = Some d) by (by rewrite Hm1, lookup_insert_ne).
    rewrite Hd1. simpl. set (s2 := set_mem (<[p := d]> (mem s1)) s1). apply wp_bind.
    assert (G2 : ginv P M {[p := 0]} s2) by (by apply set_mem_ginv).
    eapply wp_mono; [apply (vm_page_insert_ok P M {[p := 0]} s2 t p va); try done; [subst s2; simpl; congruence|right; rewrite lookup_singleton_eq; eauto|]|done|].
    { intros q' fl' _ Hne. by rewrite lookup_singleton_ne. }
    intros [r s3] (E & P3 & G3 & Hl3 & Hm3 & _). simpl in E, G3, Hl3, Hm3. subst r. simpl. exists p, P3. fold k in G3 |- *.
    assert (Hrp : refs (<[k := (p, uncow fl)]> M) p = 1).
    { rewrite (refs_replace M k p _ q fl) by done. rewrite decide_False, decide_True by done. lia. }
    split; [done|]. split; [apply (ginv_mapped P3 (<[k := (p, uncow fl)]> M) s3 p); [exact G3|rewrite Hrp; lia]|]. split; [congruence|]. split; [done|].
    intros k'. unfold upage. rewrite Hm3, Hm1, insert_insert_eq. destruct (decide (k' = k)) as [->|Hne].
    + rewrite lookup_insert_eq, Hk. simpl. by rewrite lookup_insert_eq.
    + rewrite lookup_insert_ne by done. destruct (M !! k') as [[p' fl']|] eqn:Hk'; [|done]. simpl.
      rewrite lookup_insert_ne; [done|]. intros ->. pose proof (refs_pos M k' p' fl' Hk'). lia.
Qed.

(** The mapping after a page has been made ready for a write. *)
Definition owned_map M k p fl : mapping := if cow fl then <[k := (p, uncow fl)]> M else M.

Lemma vm_page_lookup_cow_ok P M s t va :
  ginv P M ∅ s → vm_lock s = true → t ∈ tabs → 0 ≤ va < VIRT_KERNEL_BASE →
  wp (vm_page_lookup_cow s t va) oom (λ r, let k := (t, va / PAGE_SIZE) in
    match M !! k with
    | None => r = (inl (- EFAULT), s)
    | Some (q, fl) => ∃ p P', let M' := owned_map M k p fl in
        r.1 = inr (p, fl) ∧ ginv P' M' ∅ r.2 ∧ vm_lock r.2 = true ∧ (∃ fl', M' !! k = Some (p, fl')) ∧
        (if cow fl then refs M' p = 1 else p = q) ∧ ∀ k', upage r.2 M' k' = upage s M k'
    end).
Proof.
  intros G Hl Ht Hva. unfold vm_page_lookup_cow. rewrite (vm_page_lookup_ok P M ∅) by done. simpl.
  destruct (M !! (t, va / PAGE_SIZE)) as [[q fl]|] eqn:Hk; [|done]. fold (cow fl). unfold owned_map. destruct (cow fl) eqn:Hc.
  - apply wp_bind. eapply wp_mono; [by apply (vm_page_cow_ok P M s)|done|]. intros [o s1] (p & P1 & E & G1 & Hl1 & Hr & Hu).
    simpl in E, G1, Hl1, Hu. subst o. simpl. exists p, P1. rewrite lookup_insert_eq. eauto 10.
  - simpl. exists q, P. rewrite Hk. eauto 10.
Qed.

(** ** Copying *)

Lemma store_page P M s k p fl off l :
  ginv P M ∅ s → M !! k = Some (p, fl) → refs M p = 1 → Forall byte l → 0 ≤ off → off + Z.of_nat (length l) ≤ PAGE_SIZE →
  ∃ s', store_at s p off l = Ok s' ∧ ginv P M ∅ s' ∧ vm_lock s' = vm_lock s ∧
    (∀ k', upage s' M k' = if decide (k' = k) then (λ d, splice d (Z.to_nat off) l) <$> upage s M k else upage s M k').
Proof.
  intros G Hk H1 Hl Ho Hfit. destruct (upage_good _ _ _ _ _ _ _ G Hk) as (d & Hd & Hu & Hgl & Hgb).
  unfold store_at. rewrite Hd. simpl. eexists. split; [done|]. split.
  - apply set_mem_ginv; [done|]. split; [rewrite length_splice; lia|]. unfold splice. rewrite !Forall_app.
    split; [by apply Forall_take|]. split; [done|by apply Forall_drop].
  - split; [done|]. intros k'. rewrite Hu. unfold upage. simpl. case_decide as E.
    + subst k'. rewrite Hk. simpl. by rewrite lookup_insert_eq.
    + destruct (M !! k') as [[p' fl']|] eqn:Hk'; [|done]. simpl. rewrite lookup_insert_ne; [done|]. intros <-.
      by apply E, (refs_unique M k k' p fl fl').
Qed.

(** Pages in the range are shared with nobody, or copy-on-write. *)
Definition private M t va n : Prop :=
  ∀ o q fl, va ≤ o < va + n → M !! (t, o / PAGE_SIZE) = Some (q, fl) → cow fl = true ∨ refs M q = 1.

(** The same pages are mapped, with the same permissions up to copying. *)
Definition same_pages M M' : Prop :=
  ∀ k, match M' !! k, M !! k with
       | Some (_, fl'), Some (_, fl) => fl' = fl ∨ cow fl = true ∧ fl' = uncow fl
       | None, None => True
       | _, _ => False
       end.

Lemma uncow_cow fl : cow (uncow fl) = false.
Proof.
  unfold cow, uncow. rewrite negb_false_iff. apply Z.eqb_eq, Z.bits_inj'. intros n Hn.
  rewrite Z.land_spec, !Z.lor_spec, Z.ldiff_spec, Z.bits_0. unfold VM_COW, VM_WRITE, VM_PAGE.
  destruct (decide (n = 5)) as [->|Hne]; [by rewrite andb_false_r|]. change 32 with (2 ^ 5). rewrite Z.pow2_bits_false by lia.
  by rewrite andb_false_r.
Qed.

Lemma same_pages_refl M : same_pages M M.
Proof. intros k. destruct (M !! k) as [[p fl]|]; auto. Qed.

Lemma same_pages_trans M1 M2 M3 : same_pages M1 M2 → same_pages M2 M3 → same_pages M1 M3.
Proof.
  intros H1 H2 k. specialize (H1 k). specialize (H2 k).
  destruct (M1 !! k) as [[p1 f1]|], (M2 !! k) as [[p2 f2]|], (M3 !! k) as [[p3 f3]|]; try done.
  destruct H1 as [->|[? ->]], H2 as [->|[Hc ->]]; auto. by rewrite uncow_cow in Hc.
Qed.

Lemma owned_map_same M k p q fl : M !! k = Some (q, fl) → same_pages M (owned_map M k p fl).
Proof.
  intros Hk k'. unfold owned_map. destruct (cow fl) eqn:Hc; [|apply same_pages_refl].
  destruct (decide (k' = k)) as [->|]; [rewrite lookup_insert_eq, Hk; auto|rewrite lookup_insert_ne by done; apply same_pages_refl].
Qed.

(** After the first page has been made private the rest of the range still is. *)
Lemma owned_map_private M t va n k p q fl :
  private M t va n → M !! k = Some (q, fl) → (if cow fl then refs (owned_map M k p fl) p = 1 else p = q) →
  private (owned_map M k p fl) t va n.
Proof.
  intros Hpr Hk Hp o q' fl' Ho. unfold owned_map in *. destruct (cow fl) eqn:Hc; [|by apply (Hpr o q' fl')].
  destruct (decide ((t, o / PAGE_SIZE) = k)) as [->|Hne].
  - rewrite lookup_insert_eq. intros [= <- <-]. by right.
  - rewrite lookup_insert_ne by done. intros Hk'. destruct (Hpr o q' fl' Ho Hk') as [?|H1]; [by left|right].
    rewrite (refs_replace M k p _ q fl) by done. destruct (decide (q' = q)) as [->|]; [by destruct (Hne (refs_unique M _ _ _ _ _ H1 Hk Hk'))|].
    destruct (decide (q' = p)) as [->|]; [|lia]. exfalso. apply Hne. symmetry. apply (refs_unique (<[k := (p, uncow fl)]> M) (t, o / PAGE_SIZE) k p fl' (uncow fl) Hp).
    + by rewrite lookup_insert_ne.
    + by rewrite lookup_insert_eq.
Qed.

Lemma ginv_lock P M E s b : ginv P M E (set_lock b s) ↔ ginv P M E s.
Proof. split; intros [? ? ? ? ? ? ? ?]; by split. Qed.

Lemma set_lock_id s b : vm_lock s = b → set_lock b (set_lock true s) = s.
Proof. by destruct s; intros <-. Qed.

Lemma page_pos va n o :
  0 ≤ n → va mod PAGE_SIZE + n ≤ PAGE_SIZE → va ≤ o < va + n →
  o / PAGE_SIZE = va / PAGE_SIZE ∧ o mod PAGE_SIZE = va mod PAGE_SIZE + (o - va).
Proof.
  intros Hn Hfit Ho. pose proof (Z.div_mod va PAGE_SIZE ltac:(done)). pose proof (Z.mod_pos_bound va PAGE_SIZE ltac:(done)).
  split; symmetry; [apply (Z.div_unique_pos _ _ _ (va mod PAGE_SIZE + (o - va)))|apply (Z.mod_unique_pos _ _ (va / PAGE_SIZE))]; lia.
Qed.

Lemma store_ubyte s M s' M' t va (part : list Z) d :
  let n := Z.of_nat (length part) in
  va mod PAGE_SIZE + n ≤ PAGE_SIZE → upage s M (t, va / PAGE_SIZE) = Some d → Z.of_nat (length d) = PAGE_SIZE →
  (∀ k', upage s' M' k' = if decide (k' = (t, va / PAGE_SIZE)) then Some (splice d (Z.to_nat (va mod PAGE_SIZE)) part) else upage s M k') →
  ∀ t' o, ubyte s' M' t' o = if decide (t' = t ∧ va ≤ o < va + n) then part !! Z.to_nat (o - va) else ubyte s M t' o.
Proof.
  intros n Hfit Hd Hl Hu t' o. pose proof (Z.mod_pos_bound va PAGE_SIZE ltac:(done)). pose proof (Z.mod_pos_bound o PAGE_SIZE ltac:(done)).
  unfold ubyte. rewrite Hu. case_decide as Ek.
  - injection Ek as -> Eo. simpl. rewrite lookup_splice by (subst n; lia). rewrite Eo, Hd. simpl.
    pose proof (Z.div_mod va PAGE_SIZE ltac:(done)). pose proof (Z.div_mod o PAGE_SIZE ltac:(done)). rewrite Eo in *.
    destruct (decide (Z.to_nat (va mod PAGE_SIZE) ≤ Z.to_nat (o mod PAGE_SIZE) < Z.to_nat (va mod PAGE_SIZE) + length part)%nat).
    + rewrite decide_True by (subst n; lia). f_equal. lia.
    + rewrite decide_False by (subst n; lia). done.
  - rewrite decide_False; [done|]. intros [-> Ho]. destruct (page_pos va n o) as [E _]; [subst n; lia..|]. by rewrite E in Ek.
Qed.

(** The ranges that are private in [M] are private in [M']. *)
Definition keeps_private M M' : Prop := ∀ t va n, private M t va n → private M' t va n.

(** [c] bytes of [src] are at [va] in [t]; nothing else has changed. *)
Definition copied M s t va (src : list Z) (c : Z) M' s' : Prop :=
  same_pages M M' ∧ keeps_private M M' ∧
  ∀ t' o, ubyte s' M' t' o = if decide (t' = t ∧ va ≤ o < va + c) then src !! Z.to_nat (o - va) else ubyte s M t' o.

Lemma copied_nil M s t va src : copied M s t va src 0 M s.
Proof. split; [apply same_pages_refl|]. split; [by intros ???|]. intros t' o. by rewrite decide_False by lia. Qed.

Lemma copied_step M s M1 s1 M2 s2 t va src n c :
  0 ≤ n → 0 ≤ c → copied M s t va src n M1 s1 → copied M1 s1 t (va + n) (drop (Z.to_nat n) src) c M2 s2 → copied M s t va src (n + c) M2 s2.
Proof.
  intros Hn Hc (S1 & K1 & H1) (S2 & K2 & H2). split; [by eapply same_pages_trans|]. split; [by intros ??? ?%K1%K2|]. intros t' o. rewrite H2, H1, lookup_drop.
  destruct (decide (t' = t ∧ va + n ≤ o < va + n + c)) as [[-> ?]|].
  - rewrite decide_True by lia. f_equal. lia.
  - destruct (decide (t' = t ∧ va ≤ o < va + n)) as [[-> ?]|]; [by rewrite decide_True by lia|]. by rewrite decide_False by lia.
Qed.

(** One page of a copy: made private, written. *)
Lemma copy_page P M s t va (part : list Z) q fl :
  ginv P M ∅ s → vm_lock s = true → t ∈ tabs → 0 ≤ va < VIRT_KERNEL_BASE → Forall byte part →
  va mod PAGE_SIZE + Z.of_nat (length part) ≤ PAGE_SIZE → M !! (t, va / PAGE_SIZE) = Some (q, fl) → cow fl = true ∨ refs M q = 1 →
  wp (vm_page_lookup_cow s t va) oom (λ r, ∃ p P' s', let M' := owned_map M (t, va / PAGE_SIZE) p fl in
    r.1 = inr (p, fl) ∧ (if cow fl then refs M' p = 1 else p = q) ∧ store_at r.2 p (va mod PAGE_SIZE) part = Ok s' ∧
    ginv P' M' ∅ s' ∧ vm_lock s' = true ∧ copied M s t va part (Z.of_nat (length part)) M' s').
Proof.
  intros G Hl Ht Hva Hpart Hfit Hk Hpr. pose proof (Z.mod_pos_bound va PAGE_SIZE ltac:(done)).
  eapply wp_mono; [by apply (vm_page_lookup_cow_ok P M s)|done|]. intros [r s1]. cbv zeta. rewrite Hk.
  intros (p & P1 & Hr & G1 & Hl1 & (fl' & Hk1) & Hp & Hu). simpl in Hr, G1, Hl1, Hu.
  set (M1 := owned_map M (t, va / PAGE_SIZE) p fl) in *.
  assert (H1 : refs M1 p = 1).
  { subst M1. unfold owned_map in *. destruct (cow fl) eqn:Hc; [done|]. subst p. by destruct Hpr. }
  destruct (store_page P1 M1 s1 _ p fl' (va mod PAGE_SIZE) part G1 Hk1 H1) as (s2 & E2 & G2 & Hl2 & Hu2); [done|lia|done|].
  destruct (upage_good _ _ _ _ _ _ _ G Hk) as (d & _ & Hd & Hgl & _).
  exists p, P1, s2. split; [done|]. split; [done|]. split; [done|]. split; [done|]. split; [congruence|].
  split; [by apply (owned_map_same M _ p q)|]. split; [intros t' va' n' H'; by apply (owned_map_private M t' va' n' _ p q fl)|]. apply (store_ubyte s M s2 M1 t va part d); [done..|].
  intros k'. rewrite Hu2, !Hu, Hd. done.
Qed.

Lemma vm_acquire_ok s : vm_lock s = false → acquire s = Ok (set_lock true s).
Proof. intros Hl. unfold acquire. by rewrite Hl. Qed.
Lemma vm_release_ok s : vm_lock s = true → release s = Ok (set_lock false s).
Proof. intros Hl. unfold release. by rewrite Hl. Qed.

(** The end of a copy: all of [n] bytes, or [c] and then a page that is not mapped. *)
Definition copy_end M t va n (r c : Z) : Prop :=
  r = 0 ∧ c = n ∨ r = - EFAULT ∧ 0 ≤ c < n ∧ M !! (t, (va + c) / PAGE_SIZE) = None.

Lemma same_pages_none M M' k : same_pages M M' → M' !! k = None → M !! k = None.
Proof. intros H1 H2. specialize (H1 k). rewrite H2 in H1. destruct (M !! k) as [[? ?]|]; done. Qed.

Lemma ubyte_lock s M b t o : ubyte (set_lock b s) M t o = ubyte s M t o.
Proof. done. Qed.

Lemma copy_out_loop_ok fuel P M s t va src :
  ginv P M ∅ s → vm_lock s = false → t ∈ tabs → 0 ≤ va → va + Z.of_nat (length src) ≤ VIRT_KERNEL_BASE → (length src < fuel)%nat →
  Forall byte src → private M t va (Z.of_nat (length src)) →
  wp (copy_out_loop fuel s t va src) oom (λ r, ∃ P' M' c, ginv P' M' ∅ r.2 ∧ vm_lock r.2 = false ∧
    copied M s t va src c M' r.2 ∧ copy_end M t va (Z.of_nat (length src)) r.1 c).
Proof.
  revert P M s va src. induction fuel as [|fuel IH]; intros P M s va src G Hl Ht Hva Hend Hfuel Hsrc Hpr; [lia|].
  cbn [copy_out_loop]. destruct (Z.eqb_spec (Z.of_nat (length src)) 0) as [E0|E0].
  { exists P, M, 0. split; [done|]. split; [done|]. split; [apply copied_nil|left; simpl; lia]. }
  pose proof (Z.mod_pos_bound va PAGE_SIZE ltac:(done)) as Hmod.
  set (n := Z.min (PAGE_SIZE - va mod PAGE_SIZE) (Z.of_nat (length src))).
  rewrite vm_acquire_ok by done. simpl. set (s0 := set_lock true s).
  assert (G0 : ginv P M ∅ s0) by (by apply ginv_lock). apply wp_bind.
  destruct (M !! (t, va / PAGE_SIZE)) as [[q fl]|] eqn:Hk.
  2:{ eapply wp_mono; [apply (vm_page_lookup_cow_ok P M s0 t va G0); try done; lia|done|]. intros r. cbv zeta. rewrite Hk. intros ->.
      subst s0. simpl. exists P, M, 0. rewrite set_lock_id by done. split; [done|]. split; [done|]. split; [apply copied_nil|right].
      rewrite Z.add_0_r. split; [done|]. split; [lia|done]. }
  set (part := take (Z.to_nat n) src). assert (Hlp : Z.of_nat (length part) = n) by (subst part; rewrite length_take; lia).
  eapply wp_mono; [apply (copy_page P M s0 t va part q fl G0); try done; [lia|by apply Forall_take|lia|apply (Hpr va q fl); [lia|done]]|done|].
  intros [r s1] (p & P1 & s2 & Hr & Hp & E2 & G2 & Hl2 & Hc2). simpl in Hr, E2. subst r. rewrite E2. simpl. rewrite vm_release_ok by done. simpl.
  set (M1 := owned_map M (t, va / PAGE_SIZE) p fl) in *. rewrite Hlp in Hc2. rewrite u32_small by (unfold VIRT_KERNEL_BASE in *; lia).
  assert (Hc2' : copied M s t va src n M1 (set_lock false s2)).
  { destruct Hc2 as (Hs2 & Hk2 & Hb2). split; [done|]. split; [done|]. intros t' o. rewrite ubyte_lock, Hb2. case_decide as Hd; [|done].
    subst part. rewrite lookup_take_lt by lia. done. }
  eapply wp_mono; [apply (IH P1 M1 (set_lock false s2) (va + n) (drop (Z.to_nat n) src)); try done; try (rewrite length_drop; lia)|done|].
  - by apply ginv_lock.
  - lia.
  - by apply Forall_drop.
  - intros o q' fl' Ho. rewrite length_drop in Ho. apply (owned_map_private M t va (Z.of_nat (length src)) _ p q fl Hpr Hk Hp). lia.
  - intros [r s3] (P3 & M3 & c & G3 & Hl3 & Hc3 & He). simpl in *. rewrite length_drop in He.
    assert (0 ≤ c) by (destruct He as [[_ ->]|[_ [? _]]]; lia). exists P3, M3, (n + c). split; [done|]. split; [done|].
    split; [by apply (copied_step M s M1 (set_lock false s2)); [lia|..]|].
    destruct He as [[-> ->]|(-> & ? & Hn)]; [left; lia|right]. split; [done|]. split; [lia|]. rewrite Z.add_assoc.
    eapply same_pages_none; [|exact Hn]. apply Hc2.
Qed.

Lemma clear_loop_eq fuel s t va n : 0 ≤ n → clear_loop fuel s t va n = copy_out_loop fuel s t va (replicate (Z.to_nat n) 0).
Proof.
  revert s va n. induction fuel as [|fuel IH]; intros s va n Hn; [done|]. cbn [clear_loop copy_out_loop].
  rewrite length_replicate, Z2Nat.id by done. destruct (n =? 0); [done|]. destruct (acquire s) as [s1|]; [|done]. simpl.
  pose proof (Z.mod_pos_bound va PAGE_SIZE ltac:(done)).
  destruct (vm_page_lookup_cow s1 t va) as [[r s2]|]; [|done]. simpl. destruct r as [e|[page fl]]; [done|].
  rewrite take_replicate, Nat.min_l by lia. destruct (store_at _ _ _ _) as [s3|]; [|done]. simpl. destruct (release s3) as [s4|]; [|done]. simpl.
  rewrite drop_replicate, IH by lia. do 3 f_equal. lia.
Qed.

Lemma slice_ubyte P M E s t va n p fl d j :
  ginv P M E s → M !! (t, va / PAGE_SIZE) = Some (p, fl) → mem s !! p = Some d → 0 ≤ n → va mod PAGE_SIZE + n ≤ PAGE_SIZE → 0 ≤ j < n →
  slice d (Z.to_nat (va mod PAGE_SIZE)) (Z.to_nat n) !! Z.to_nat j = ubyte s M t (va + j).
Proof.
  intros G Hk Hd Hn Hfit Hj. pose proof (Z.mod_pos_bound va PAGE_SIZE ltac:(done)).
  destruct (page_pos va n (va + j)) as [E1 E2]; [lia..|]. unfold ubyte, upage. rewrite E1, E2, Hk. simpl. rewrite Hd. simpl.
  unfold slice. rewrite lookup_take_lt, lookup_drop by lia. f_equal. lia.
Qed.

Lemma copy_in_loop_ok fuel P M s t va n :
  ginv P M ∅ s → vm_lock s = false → t ∈ tabs → 0 ≤ va → 0 ≤ n → va + n ≤ VIRT_KERNEL_BASE → n < Z.of_nat fuel →
  ∃ r l, copy_in_loop fuel s t va n = Ok (r, l, s) ∧ copy_end M t va n r (Z.of_nat (length l)) ∧
    ∀ j, 0 ≤ j < Z.of_nat (length l) → l !! Z.to_nat j = ubyte s M t (va + j).
Proof.
  intros G Hl Ht. revert va n. induction fuel as [|fuel IH]; intros va n Hva Hn Hend Hfuel; [lia|].
  cbn [copy_in_loop]. destruct (Z.eqb_spec n 0) as [->|E0].
  { exists 0, []. split; [done|]. split; [by left|]. simpl. lia. }
  pose proof (Z.mod_pos_bound va PAGE_SIZE ltac:(done)) as Hmod. set (c := Z.min (PAGE_SIZE - va mod PAGE_SIZE) n).
  rewrite vm_acquire_ok by done. simpl. rewrite (vm_page_lookup_ok P M ∅) by (done || lia || by apply ginv_lock). simpl.
  destruct (M !! (t, va / PAGE_SIZE)) as [[p fl]|] eqn:Hk.
  2:{ rewrite set_lock_id by done. exists (- EFAULT), []. split; [done|]. split; [right; simpl; rewrite Z.add_0_r; split; [done|]; split; [lia|done]|simpl; lia]. }
  destruct (upage_good _ _ _ _ _ _ _ G Hk) as (d & Hd & _ & Hgl & _). rewrite Hd. simpl. rewrite set_lock_id by done.
  rewrite u32_small by (unfold VIRT_KERNEL_BASE in *; lia).
  destruct (IH (va + c) (n - c)) as (r & l & -> & He & Hb); [lia..|]. simpl. eexists _, _. split; [done|].
  assert (Hls : Z.of_nat (length (slice d (Z.to_nat (va mod PAGE_SIZE)) (Z.to_nat c))) = c) by (unfold slice; rewrite length_take, length_drop; lia).
  rewrite length_app, Nat2Z.inj_add, Hls. split.
  - destruct He as [[-> ?]|(-> & ? & Hn')]; [left; lia|right]. split; [done|]. split; [lia|]. by rewrite Z.add_assoc.
  - intros j Hj. destruct (Z.lt_ge_cases j c) as [Hlt|Hge].
    + rewrite lookup_app_l by lia. eapply slice_ubyte; [done..|lia|lia|lia].
    + rewrite lookup_app_r by lia. replace (va + j) with (va + c + (j - c)) by lia. rewrite <- Hb by lia. f_equal. lia.
Qed.

(** ** Ranges of pages *)

(** Key [k] is a page of [t] in the range of addresses from [a] to [b]. *)
Definition in_range t (a b : Z) k : Prop := k.1 = t ∧ a ≤ k.2 * PAGE_SIZE < b.
#[local] Instance in_range_dec t a b k : Decision (in_range t a b k).
Proof. unfold in_range. apply _. Defined.

Definition aligned_range (a b : Z) : Prop := 0 ≤ a ∧ b ≤ VIRT_KERNEL_BASE ∧ a mod PAGE_SIZE = 0 ∧ b mod PAGE_SIZE = 0.

Lemma in_range_step t a b k :
  aligned_range a b → a < b → in_range t a b k ↔ k = (t, a / PAGE_SIZE) ∨ in_range t (a + PAGE_SIZE) b k.
Proof.
  intros (Ha & Hb & Hma & Hmb) Hab. destruct k as [t' v]. unfold in_range. simpl. unfold PAGE_SIZE in *.
  split.
  - intros [-> H]. destruct (decide (v = a / 4096)) as [->|]; [by left|right]. split; [done|]. Z.to_euclidean_division_equations. lia.
  - intros [[= -> ->]|[-> H]]; (split; [done|]); Z.to_euclidean_division_equations; lia.
Qed.

Lemma not_in_later t a b : aligned_range a b → ¬ in_range t (a + PAGE_SIZE) b (t, a / PAGE_SIZE).
Proof. intros (Ha & _ & Hm & _) [_ H]. simpl in H. unfold PAGE_SIZE in *. Z.to_euclidean_division_equations. lia. Qed.

Lemma aligned_step a b : aligned_range a b → a < b → aligned_range (a + PAGE_SIZE) b ∧ a + PAGE_SIZE ≤ b.
Proof. intros (Ha & Hb & Hma & Hmb) Hab. unfold aligned_range, PAGE_SIZE in *. Z.to_euclidean_division_equations. lia. Qed.

Lemma range_pages_step a b : aligned_range a b → a < b → range_pages a b = S (range_pages (a + PAGE_SIZE) b).
Proof.
  intros (Ha & Hb & Hma & Hmb) Hab. unfold range_pages. rewrite <- Z2Nat.inj_succ.
  - f_equal. unfold PAGE_SIZE in *. Z.to_euclidean_division_equations. lia.
  - apply Z.div_pos; [|done]. unfold PAGE_SIZE in *. Z.to_euclidean_division_equations. lia.
Qed.

Lemma round_up_page_ok a n :
  0 ≤ a → a mod PAGE_SIZE = 0 → 0 ≤ n → a + n ≤ VIRT_KERNEL_BASE →
  let b := round_up_page (u32 (a + n)) in aligned_range a b ∧ a + n ≤ b < a + n + PAGE_SIZE ∧ vm_user_assert_pages a b = k_assert (a <? VIRT_KERNEL_BASE) "invalid va range".
Proof.
  intros Ha Hm Hn Hend. unfold round_up_page. rewrite (u32_small (a + n)) by (unfold VIRT_KERNEL_BASE in *; lia).
  rewrite u32_small by (unfold VIRT_KERNEL_BASE, PAGE_SIZE in *; lia). cbv zeta.
  set (b := a + n + PAGE_SIZE - 1 - (a + n + PAGE_SIZE - 1) mod PAGE_SIZE).
  assert (Hb : b mod PAGE_SIZE = 0 ∧ a + n ≤ b < a + n + PAGE_SIZE ∧ b ≤ VIRT_KERNEL_BASE).
  { subst b. unfold PAGE_SIZE, VIRT_KERNEL_BASE in *. Z.to_euclidean_division_equations. lia. }
  destruct Hb as (? & ? & ?). split; [done|]. split; [done|]. unfold vm_user_assert_pages, vm_user_assert. rewrite Hm. simpl.
  rewrite (proj2 (Z.ltb_ge b a)) by lia. rewrite orb_false_r. f_equal. destruct (Z.leb_spec VIRT_KERNEL_BASE a), (Z.ltb_spec a VIRT_KERNEL_BASE); done || lia.
Qed.

(** The mappings left when a range has been removed. *)
Definition unmap M t (a b : Z) : mapping := filter (λ kv : (Z * Z) * (Z * Z), ¬ in_range t a b kv.1) M.

Lemma unmap_lookup M t a b k : unmap M t a b !! k = if decide (in_range t a b k) then None else M !! k.
Proof.
  unfold unmap. case_decide as Hr.
  - apply map_lookup_filter_None. right. intros x _ Hn. by apply Hn.
  - destruct (M !! k) as [x|] eqn:E; [apply map_lookup_filter_Some; by split|apply map_lookup_filter_None; by left].
Qed.

Lemma unmap_step M t a b : aligned_range a b → a < b → unmap (delete (t, a / PAGE_SIZE) M) t (a + PAGE_SIZE) b = unmap M t a b.
Proof.
  intros Ha Hab. apply map_eq. intros k. rewrite !unmap_lookup. pose proof (in_range_step t a b k Ha Hab) as Hs.
  destruct (decide (in_range t a b k)) as [Hi|Hn].
  - destruct (proj1 Hs Hi) as [->|?]; [by rewrite lookup_delete_eq; case_decide|by rewrite decide_True].
  - rewrite decide_False by tauto. apply lookup_delete_ne. intros <-. tauto.
Qed.

Lemma unmap_nil M t a b : b ≤ a → unmap M t a b = M.
Proof. intros Hab. apply map_eq. intros k. rewrite unmap_lookup. rewrite decide_False; [done|]. intros [_ ?]. lia. Qed.

Lemma free_loop_ok fuel P M s t a b :
  ginv P M ∅ s → vm_lock s = false → t ∈ tabs → aligned_range a b → (range_pages a b < fuel)%nat →
  ∃ s', free_loop fuel s t a b = Ok s' ∧ ginv P (unmap M t a b) ∅ s' ∧ vm_lock s' = false ∧ mem s' = mem s.
Proof.
  revert M s a. induction fuel as [|fuel IH]; intros M s a G Hl Ht Ha Hf; [lia|]. cbn [free_loop].
  destruct (Z.ltb_spec a b) as [Hab|Hab]; [|exists s; by rewrite unmap_nil].
  pose proof Ha as (Ha0 & Hb & _ & _). destruct (aligned_step a b Ha Hab) as [Ha' Hle].
  rewrite vm_acquire_ok by done. simpl. destruct (vm_page_remove_ok P M ∅ (set_lock true s) t a) as (s1 & -> & G1 & Hl1 & Hm1 & _); try done;
    [by apply ginv_lock|lia|]. simpl in *. rewrite vm_release_ok by done. simpl. rewrite u32_small by (unfold VIRT_KERNEL_BASE, PAGE_SIZE in *; lia).
  rewrite range_pages_step in Hf by done.
  destruct (IH (delete (t, a / PAGE_SIZE) M) (set_lock false s1) (a + PAGE_SIZE)) as (s2 & -> & G2 & Hl2 & Hm2); try done; [by apply ginv_lock|lia|].
  exists s2. rewrite unmap_step in G2 by done. simpl in Hm2. split; [done|]. split; [done|]. split; [done|congruence].
Qed.

(** A range of fresh zero pages of their own; the rest of memory as before. *)
Record allocated_range M s t (a b fl : Z) M' s' : Prop := {
  ar_new k : in_range t a b k → (∃ p, M' !! k = Some (p, Z.lor fl VM_PAGE) ∧ refs M' p = 1) ∧ upage s' M' k = Some zero_page;
  ar_old k : ¬ in_range t a b k → M' !! k = M !! k ∧ upage s' M' k = upage s M k;
  ar_refs k p fl' : ¬ in_range t a b k → M !! k = Some (p, fl') → refs M p = 1 → refs M' p = 1 }.

Lemma allocated_nil M s t a b fl : b ≤ a → allocated_range M s t a b fl M s.
Proof. intros Hab. split; [intros k [_ ?]; lia|done|done]. Qed.

(** The first page, inserted in [M] as the frame [p], then the others. *)
Lemma allocated_step M s M1 s1 M2 s2 t a b fl p :
  aligned_range a b → a < b → refs M p = 0 → M1 = <[(t, a / PAGE_SIZE) := (p, Z.lor fl VM_PAGE)]> M →
  mem s1 = <[p := zero_page]> (mem s) → allocated_range M1 s1 t (a + PAGE_SIZE) b fl M2 s2 → allocated_range M s t a b fl M2 s2.
Proof.
  intros Ha Hab Hz HM1 Hm [Hnew Hold Hrefs]. set (k0 := (t, a / PAGE_SIZE)) in *.
  assert (Hr1 : ∀ q, refs M1 q = refs M q - (match M !! k0 with Some (q', _) => if decide (q = q') then 1 else 0 | None => 0 end)
                       + if decide (q = p) then 1 else 0).
  { intros q. subst M1. destruct (M !! k0) as [[q' fl']|] eqn:E; [by apply (refs_replace _ _ _ _ _ fl')|]. rewrite refs_insert by done. lia. }
  assert (Hp1 : refs M1 p = 1).
  { rewrite Hr1, Hz. destruct (M !! k0) as [[q' fl']|] eqn:E; [|by rewrite decide_True by done].
    rewrite (decide_True (P := p = p)) by done. case_decide; [|lia]. subst q'. pose proof (refs_pos M k0 p fl' E). lia. }
  pose proof (not_in_later t a b Ha) as Hk0. assert (Hl0 : M1 !! k0 = Some (p, Z.lor fl VM_PAGE)) by (subst M1; apply lookup_insert_eq).
  assert (Hother : ∀ k, k ≠ k0 → upage s1 M1 k = upage s M k).
  { intros k Hne. unfold upage. subst M1. rewrite lookup_insert_ne, Hm by done. destruct (M !! k) as [[q f]|] eqn:E; [|done]. simpl.
    rewrite lookup_insert_ne; [done|]. intros ->. pose proof (refs_pos M k q f E). lia. }
  split.
  - intros k [->|Hk]%in_range_step; [|by apply Hnew|done|done]. destruct (Hold _ Hk0) as [E1 E2]. split.
    + exists p. rewrite E1. split; [done|]. by apply (Hrefs k0 p (Z.lor fl VM_PAGE)).
    + rewrite E2. unfold upage. fold k0. rewrite Hl0. simpl. by rewrite Hm, lookup_insert_eq.
  - intros k Hk. rewrite in_range_step in Hk by done. destruct (Hold k ltac:(tauto)) as [E1 E2]. rewrite E1, E2. fold k0 in Hk.
    split; [subst M1; apply lookup_insert_ne; intros <-; tauto|]. apply Hother. intros ->. tauto.
  - intros k q fl' Hk Hq H1. rewrite in_range_step in Hk by done. fold k0 in Hk. apply (Hrefs k q fl' ltac:(tauto)).
    + subst M1. rewrite lookup_insert_ne; [done|]. intros <-. tauto.
    + rewrite Hr1. assert (q ≠ p) by (intros ->; lia). rewrite (decide_False (P := q = p)) by done.
      destruct (M !! k0) as [[q' f']|] eqn:E; [|lia]. case_decide as Hd; [|lia]. subst q'. destruct Hk. left. by apply (refs_unique M k0 k q f' fl').
Qed.

Lemma alloc_loop_ok fuel P M s t start a b fl :
  ginv P M ∅ s → vm_lock s = false → t ∈ tabs → aligned_range a b → 0 ≤ fl < 128 → (range_pages a b < fuel)%nat →
  wp (alloc_loop fuel s t start a b fl) oom (λ r, r.1 = 0 ∧ ∃ P' M', ginv P' M' ∅ r.2 ∧ vm_lock r.2 = false ∧
    allocated_range M s t a b fl M' r.2).
Proof.
  revert P M s a. induction fuel as [|fuel IH]; intros P M s a G Hl Ht Ha Hfl Hf; [lia|]. cbn [alloc_loop].
  destruct (Z.ltb_spec a b) as [Hab|Hab]; [|split; [done|]; exists P, M; split; [done|]; split; [done|]; by apply allocated_nil].
  pose proof Ha as (Ha0 & Hb & _ & _). destruct (aligned_step a b Ha Hab) as [Ha' Hle].
  rewrite vm_acquire_ok by done. simpl. apply wp_bind.
  eapply wp_mono; [apply (page_alloc_one_vm P M (set_lock true s)); by apply ginv_lock|done|]. intros [p s1] (Hz & G1 & Hl1 & Hm1).
  simpl in Hz, G1, Hl1, Hm1. apply wp_bind.
  eapply wp_mono; [apply (vm_page_insert_ok P M {[p := 0]} s1 t p a fl); try done; [lia|right; rewrite lookup_singleton_eq; eauto|]|done|].
  { intros q fl' _ Hne. by rewrite lookup_singleton_ne. }
  intros [r s2] (E & P2 & G2 & Hl2 & Hm2 & _). simpl in E, G2, Hl2, Hm2. subst r. simpl. rewrite vm_release_ok by congruence. simpl.
  set (M2 := <[(t, a / PAGE_SIZE) := (p, Z.lor fl VM_PAGE)]> M) in *.
  rewrite u32_small by (unfold VIRT_KERNEL_BASE, PAGE_SIZE in *; lia). rewrite range_pages_step in Hf by done.
  assert (G2' : ginv P2 M2 ∅ s2) by (apply (ginv_mapped P2 M2 s2 p G2), (refs_pos M2 (t, a / PAGE_SIZE) p (Z.lor fl VM_PAGE)), lookup_insert_eq).
  eapply wp_mono; [apply (IH P2 M2 (set_lock false s2) (a + PAGE_SIZE)); try done; [by apply ginv_lock|lia]|done|].
  intros [r s3] (E & P3 & M3 & G3 & Hl3 & Hr3). split; [done|]. exists P3, M3. split; [done|]. split; [done|].
  apply (allocated_step M s M2 (set_lock false s2) M3 s3 t a b fl p); try done. simpl. congruence.
Qed.

(** ** Cloning *)

(** The flags both address spaces have for a page that was cloned. *)
Definition cloned_flags fl : Z :=
  Z.lor (if negb (Z.land fl VM_WRITE =? 0) then Z.lor (Z.ldiff fl VM_WRITE) VM_COW else fl) VM_PAGE.

Lemma lor_page fl : flags_ok fl → Z.lor fl VM_PAGE = fl.
Proof.
  intros [_ Hf]. apply Z.bits_inj'. intros n Hn. rewrite Z.lor_spec. change VM_PAGE with (2 ^ 6) in *.
  destruct (decide (n = 6)) as [->|]; [|by rewrite Z.pow2_bits_false, orb_false_r by lia].
  destruct (Z.testbit fl 6) eqn:E; [done|]. exfalso. apply Hf, Z.bits_inj'. intros j Hj. rewrite Z.land_spec, Z.bits_0.
  destruct (decide (j = 6)) as [->|]; [by rewrite E|by rewrite Z.pow2_bits_false, andb_false_r by lia].
Qed.

Record cloned M src dst (a e : Z) M' : Prop := {
  cl_pages v : a ≤ v * PAGE_SIZE < e → ∃ q fl, M !! (src, v) = Some (q, fl) ∧
    M' !! (src, v) = Some (q, cloned_flags fl) ∧ M' !! (dst, v) = Some (q, cloned_flags fl);
  cl_other k : ¬ in_range src a e k → ¬ in_range dst a e k → M' !! k = M !! k }.

Lemma clone_source_ok P M s src va :
  ginv P M ∅ s → vm_lock s = true → src ∈ tabs → 0 ≤ va < VIRT_KERNEL_BASE →
  wp (clone_source s src va false) oom (λ r, let k := (src, va / PAGE_SIZE) in
    match M !! k with
    | None => r = (inl (- EFAULT), s)
    | Some (q, fl) => ∃ P' fl', r.1 = inr (q, fl') ∧ 0 ≤ fl' < 128 ∧ Z.lor fl' VM_PAGE = cloned_flags fl ∧
        ginv P' (<[k := (q, cloned_flags fl)]> M) ∅ r.2 ∧ same_mem s r.2
    end).
Proof.
  intros G Hl Ht Hva. unfold clone_source. rewrite (vm_page_lookup_ok P M ∅) by done. simpl.
  destruct (M !! (src, va / PAGE_SIZE)) as [[q fl]|] eqn:Hk; [|done].
  pose proof (g_flags _ _ _ _ G _ _ _ Hk) as Hf. pose proof (proj1 Hf) as Hfl. unfold cloned_flags. destruct (negb (Z.land fl VM_WRITE =? 0)).
  - assert (Hfl' : 0 ≤ Z.lor (Z.ldiff fl VM_WRITE) VM_COW < 128) by (apply flag_range; [by apply ldiff_range|unfold VM_COW; lia]).
    apply wp_bind. eapply wp_mono; [apply (vm_page_insert_ok P M ∅ s src q va); try done; left; by eapply refs_pos|done|].
    intros [r s1] (E & P1 & G1 & Hs1). simpl in E, G1, Hs1. subst r. simpl. eauto 10.
  - simpl. exists P, fl. rewrite (lor_page fl Hf). split; [done|]. split; [done|]. split; [done|]. rewrite insert_id by done. done.
Qed.

Lemma cloned_step M src dst a b e q fl M' :
  aligned_range a b → a < b → src ≠ dst → M !! (src, a / PAGE_SIZE) = Some (q, fl) → a + PAGE_SIZE ≤ e →
  cloned (<[(dst, a / PAGE_SIZE) := (q, cloned_flags fl)]> (<[(src, a / PAGE_SIZE) := (q, cloned_flags fl)]> M)) src dst (a + PAGE_SIZE) e M' →
  cloned M src dst a e M'.
Proof.
  intros (Ha0 & Hb & Hma & _) Hab Hne Hk Hea [Hp3 Ho3]. set (M2 := <[(dst, a / PAGE_SIZE) := _]> _) in *.
  assert (H2 : ∀ k, k ≠ (src, a / PAGE_SIZE) → k ≠ (dst, a / PAGE_SIZE) → M2 !! k = M !! k).
  { intros k ? ?. subst M2. by rewrite !lookup_insert_ne. }
  assert (Hav : a / PAGE_SIZE * PAGE_SIZE = a) by (unfold PAGE_SIZE in *; Z.to_euclidean_division_equations; lia).
  split.
  - intros v Hr. destruct (decide (v = a / PAGE_SIZE)) as [->|Hva].
    + exists q, fl. split; [done|]. rewrite !Ho3; [|intros [? ?]; simpl in *; unfold PAGE_SIZE in *; lia..]. subst M2.
      rewrite lookup_insert_ne by congruence. by rewrite !lookup_insert_eq.
    + destruct (Hp3 v) as (q' & f' & Hsv & ? & ?); [unfold PAGE_SIZE in *; Z.to_euclidean_division_equations; lia|].
      exists q', f'. split; [|done]. rewrite H2 in Hsv; congruence.
  - intros k Hk1 Hk2. rewrite Ho3; [apply H2|..].
    + intros ->. apply Hk1. split; [done|]. simpl. unfold PAGE_SIZE in *. lia.
    + intros ->. apply Hk2. split; [done|]. simpl. unfold PAGE_SIZE in *. lia.
    + intros [? ?]. apply Hk1. split; [done|]. unfold PAGE_SIZE in *. lia.
    + intros [? ?]. apply Hk2. split; [done|]. unfold PAGE_SIZE in *. lia.
Qed.

Lemma clone_loop_ok fuel P M s src dst a b :
  ginv P M ∅ s → vm_lock s = false → src ∈ tabs → dst ∈ tabs → src ≠ dst → aligned_range a b → (range_pages a b < fuel)%nat →
  wp (clone_loop fuel s src dst a b false) oom (λ r, ∃ P' M' e, ginv P' M' ∅ r.2 ∧ vm_lock r.2 = false ∧ mem r.2 = mem s ∧
    cloned M src dst a e M' ∧ (r.1 = 0 ∧ e = Z.max a b ∨ r.1 = - EFAULT ∧ a ≤ e < b ∧ M !! (src, e / PAGE_SIZE) = None)).
Proof.
  revert P M s a. induction fuel as [|fuel IH]; intros P M s a G Hl Ht Htd Hne Ha Hf; [lia|]. cbn [clone_loop].
  assert (Hnil : cloned M src dst a a M) by (split; [lia|done]).
  destruct (Z.ltb_spec a b) as [Hab|Hab].
  2:{ exists P, M, a. split; [done|]. split; [done|]. split; [done|]. split; [done|]. left. simpl. lia. }
  pose proof Ha as (Ha0 & Hb & Hma & _). destruct (aligned_step a b Ha Hab) as [Ha' Hle].
  rewrite vm_acquire_ok by done. simpl. apply wp_bind.
  eapply wp_mono; [apply (clone_source_ok P M (set_lock true s) src a); try done; [by apply ginv_lock|lia]|done|]. intros r. cbv zeta.
  destruct (M !! (src, a / PAGE_SIZE)) as [[q fl]|] eqn:Hk.
  2:{ intros ->. simpl. rewrite set_lock_id by done. exists P, M, a. split; [done|]. split; [done|]. split; [done|]. split; [done|]. right. done. }
  destruct r as [r s1]. intros (P1 & fl' & E & Hfl & Hcf & G1 & Hl1 & Hm1 & _). simpl in E, G1, Hl1, Hm1. subst r. cbv iota. apply wp_bind.
  set (M1 := <[(src, a / PAGE_SIZE) := (q, cloned_flags fl)]> M) in *.
  assert (Hq1 : 0 < refs M1 q) by (eapply refs_pos; apply lookup_insert_eq).
  eapply wp_mono; [apply (vm_page_insert_ok P1 M1 ∅ s1 dst q a fl'); try done; [lia|by left]|done|].
  intros [r s2] (E & P2 & G2 & Hl2 & Hm2 & _). simpl in E, G2, Hl2, Hm2. subst r. simpl. rewrite vm_release_ok by congruence. simpl. rewrite Hcf in G2.
  set (M2 := <[(dst, a / PAGE_SIZE) := (q, cloned_flags fl)]> M1) in *.
  rewrite u32_small by (unfold VIRT_KERNEL_BASE, PAGE_SIZE in *; lia). rewrite range_pages_step in Hf by done.
  eapply wp_mono; [apply (IH P2 M2 (set_lock false s2) (a + PAGE_SIZE)); try done; [by apply ginv_lock|lia]|done|].
  intros [r s3] (P3 & M3 & e & G3 & Hl3 & Hm3 & [Hp3 Ho3] & He). simpl in *. exists P3, M3, e. split; [done|]. split; [done|]. split; [congruence|].
  assert (Hea : a + PAGE_SIZE ≤ e) by (destruct He as [[_ ->]|[_ [? _]]]; lia).
  split; [by apply (cloned_step M src dst a b e q fl)|]. destruct He as [[-> ->]|(-> & ? & Hn)]; [left; lia|right].
  split; [done|]. split; [unfold PAGE_SIZE in *; lia|]. subst M2 M1.
  rewrite !lookup_insert_ne in Hn; [done|..]; intros [= E]; unfold PAGE_SIZE in *; Z.to_euclidean_division_equations; lia.
Qed.

Lemma user_assert_ok va n : 0 ≤ va < VIRT_KERNEL_BASE → 0 ≤ n → va + n ≤ VIRT_KERNEL_BASE → vm_user_assert va (u32 (va + n)) = Ok tt.
Proof.
  intros Hva Hn Hend. rewrite u32_small by (unfold VIRT_KERNEL_BASE in *; lia). unfold vm_user_assert.
  by rewrite (proj2 (Z.leb_gt _ _)), (proj2 (Z.ltb_ge _ _)) by lia.
Qed.

Lemma vm_user_alloc_ok M s t start n fl :
  inv M s → t ∈ tabs → 0 ≤ start < VIRT_KERNEL_BASE → 0 ≤ n → start + n ≤ VIRT_KERNEL_BASE → start mod PAGE_SIZE = 0 → 0 ≤ fl < 128 →
  wp (vm_user_alloc s t start n fl) oom (λ r, r.1 = 0 ∧ ∃ M', inv M' r.2 ∧
    allocated_range M s t start (round_up_page (start + n)) fl M' r.2).
Proof.
  intros [[P G] Hl] Ht Hs Hn Hend Hal Hfl. unfold vm_user_alloc. destruct (round_up_page_ok start n) as (Hra & Hb & ->); [lia..|].
  rewrite (u32_small (start + n)) in * by (unfold VIRT_KERNEL_BASE in *; lia).
  rewrite (proj2 (Z.ltb_lt _ _)) by lia. cbn [k_assert mbind outcome_bind].
  eapply wp_mono; [apply (alloc_loop_ok _ P M s); try done; lia|done|].
  intros r (E & P1 & M1 & G1 & Hl1 & Ha). split; [done|]. exists M1. split; [split; [by exists P1|done]|done].
Qed.

Lemma vm_copy_out_ok M s t va src :
  inv M s → t ∈ tabs → 0 ≤ va < VIRT_KERNEL_BASE → va + Z.of_nat (length src) ≤ VIRT_KERNEL_BASE → Forall byte src →
  private M t va (Z.of_nat (length src)) →
  wp (vm_copy_out s t src va) oom (λ r, ∃ M' c, inv M' r.2 ∧ copied M s t va src c M' r.2 ∧ copy_end M t va (Z.of_nat (length src)) r.1 c).
Proof.
  intros [[P G] Hl] Ht Hva Hend Hsrc Hpr. unfold vm_copy_out. rewrite user_assert_ok by lia. cbn [mbind outcome_bind].
  eapply wp_mono; [apply (copy_out_loop_ok _ P M s t va src); try done; lia|done|].
  intros r (P' & M' & c & G' & Hl' & Hc & He). exists M', c. split; [split; [by exists P'|done]|done].
Qed.

Lemma vm_copy_in_ok M s t va n :
  inv M s → t ∈ tabs → 0 ≤ va < VIRT_KERNEL_BASE → 0 ≤ n → va + n ≤ VIRT_KERNEL_BASE →
  ∃ r l, vm_copy_in s t va n = Ok (r, l, s) ∧ copy_end M t va n r (Z.of_nat (length l)) ∧
    ∀ j, 0 ≤ j < Z.of_nat (length l) → l !! Z.to_nat j = ubyte s M t (va + j).
Proof.
  intros [[P G] Hl] Ht Hva Hn Hend. unfold vm_copy_in. rewrite user_assert_ok by lia. cbn [mbind outcome_bind].
  apply (copy_in_loop_ok _ P M s); try done; lia.
Qed.

(** C9: copying to user memory and back ([vm_copy_out], [vm_copy_in]) for a
    range of user addresses whose pages are copy-on-write or mapped once.  The
    copy stores all of [src], or the part before the first page that is not
    mapped and then returns EFAULT; no other byte of any address space changes,
    pages shared copy-on-write included; and copying back what was stored in
    full gives [src].  The only way to stop is to run out of memory. *)
Theorem vm_copy_roundtrip M s t va src :
  inv M s → t ∈ tabs → 0 ≤ va < VIRT_KERNEL_BASE → va + Z.of_nat (length src) ≤ VIRT_KERNEL_BASE → Forall byte src →
  private M t va (Z.of_nat (length src)) →
  wp (vm_copy_out s t src va) oom (λ r, ∃ M' c, inv M' r.2 ∧ copied M s t va src c M' r.2 ∧
    copy_end M t va (Z.of_nat (length src)) r.1 c ∧
    (r.1 = 0 → vm_copy_in r.2 t va (Z.of_nat (length src)) = Ok (0, src, r.2))).
Proof.
  intros Hi Ht Hva Hend Hsrc Hpr. eapply wp_mono; [by apply (vm_copy_out_ok M s t va src)|done|].
  intros [r s'] (M' & c & Hi' & Hc & He). simpl in *. exists M', c. split; [done|]. split; [done|]. split; [done|]. intros ->.
  destruct He as [[_ ->]|[? _]]; [|done].
  destruct (vm_copy_in_ok M' s' t va (Z.of_nat (length src)) Hi' Ht Hva) as (r2 & l & -> & He2 & Hb); [lia..|].
  assert (Hby : ∀ j, 0 ≤ j < Z.of_nat (length src) → ubyte s' M' t (va + j) = src !! Z.to_nat j).
  { intros j Hj. rewrite (proj2 (proj2 Hc)). rewrite decide_True by lia. f_equal. lia. }
  destruct He2 as [[-> Hlen]|(_ & Hlt & Hn)].
  - do 3 f_equal. apply list_eq. intros i. destruct (decide (i < length src)%nat).
    + rewrite <- (Nat2Z.id i), Hb, Hby by lia. done.
    + rewrite !lookup_ge_None_2 by lia. done.
  - exfalso. pose proof (Hby (Z.of_nat (length l)) ltac:(lia)) as H. unfold ubyte, upage in H. rewrite Hn in H. simpl in H.
    symmetry in H. apply lookup_ge_None_1 in H. lia.
Qed.

Lemma cow_bit fl : cow fl = Z.testbit fl 5.
Proof. unfold cow. change VM_COW with (2 ^ 5). by rewrite land_bit_0, negb_involutive. Qed.

Lemma write_check fl : vm_flags_check fl VM_WRITE = Z.testbit fl 5 || Z.testbit fl 1.
Proof.
  unfold vm_flags_check. fold (cow fl). rewrite cow_bit. change VM_WRITE with (2 ^ 1). rewrite land_bit_1 by lia.
  destruct (Z.testbit fl 5); [|done]. by rewrite Z.lor_spec, orb_true_r.
Qed.

(** A page that may be written is copy-on-write in both clones. *)
Lemma cloned_cow fl : vm_flags_check fl VM_WRITE = true → cow (cloned_flags fl) = true.
Proof.
  rewrite write_check, cow_bit. unfold cloned_flags. change VM_WRITE with (2 ^ 1). rewrite land_bit_0, negb_involutive by lia.
  intros H. rewrite Z.lor_spec. destruct (Z.testbit fl 1); [by rewrite Z.lor_spec, orb_true_r|]. by rewrite orb_false_r in H |- *; rewrite H.
Qed.

Lemma cloned_ubyte M s src dst a b M' s' :
  cloned M src dst a b M' → mem s' = mem s → 0 ≤ a → aligned_range a b → src ≠ dst →
  ∀ t o, ubyte s' M' t o = ubyte s M (if decide (t = dst ∧ a ≤ o < b) then src else t) o.
Proof.
  intros [Hp Ho] Hm Ha (_ & _ & Hma & Hmb) Hne t o. unfold ubyte, upage. rewrite Hm.
  assert (Hr : a ≤ o < b ↔ a ≤ o / PAGE_SIZE * PAGE_SIZE < b) by (unfold PAGE_SIZE in *; Z.to_euclidean_division_equations; lia).
  case_decide as Hd.
  - destruct Hd as [-> Hd]. destruct (Hp (o / PAGE_SIZE)) as (q & fl & -> & _ & ->); [tauto|done].
  - destruct (decide (a ≤ o < b)) as [Hb|Hb].
    + destruct (decide (t = src)) as [->|Hts]; [destruct (Hp (o / PAGE_SIZE)) as (q & fl & -> & -> & _); [tauto|done]|].
      rewrite Ho; [done|..]; intros [? _]; simpl in *; tauto.
    + rewrite Ho; [done|..]; intros [_ ?]; simpl in *; tauto.
Qed.

(** Every byte of the range is on a page that may be written. *)
Definition writable M t va n : Prop :=
  ∀ o, va ≤ o < va + n → ∃ q fl, M !! (t, o / PAGE_SIZE) = Some (q, fl) ∧ vm_flags_check fl VM_WRITE = true.

(** C7: copy-on-write cloning of an address space ([vm_user_clone] without
    sharing, as in fork).  When the clone is complete every byte of the range is
    in both address spaces, and no byte of any address space has changed.  From
    then on the two are isolated: a copy into either, to pages that may be
    written, is complete and changes no byte that any other address space sees. *)
Theorem vm_fork_isolation M s src dst start n :
  inv M s → src ∈ tabs → dst ∈ tabs → src ≠ dst →
  0 ≤ start < VIRT_KERNEL_BASE → start mod PAGE_SIZE = 0 → 0 ≤ n → start + n ≤ VIRT_KERNEL_BASE →
  wp (vm_user_clone s src dst start n false) oom (λ r, ∃ M', inv M' r.2 ∧ (r.1 = 0 →
    (∀ t o, ubyte r.2 M' t o = ubyte s M (if decide (t = dst ∧ start ≤ o < round_up_page (start + n)) then src else t) o) ∧
    (∀ t va l, t = src ∨ t = dst → start ≤ va → va + Z.of_nat (length l) ≤ start + n → va < VIRT_KERNEL_BASE → Forall byte l →
      writable M src va (Z.of_nat (length l)) →
      wp (vm_copy_out r.2 t l va) oom (λ r2, r2.1 = 0 ∧ ∃ M2, inv M2 r2.2 ∧ ∀ t' o,
        ubyte r2.2 M2 t' o = if decide (t' = t ∧ va ≤ o < va + Z.of_nat (length l)) then l !! Z.to_nat (o - va) else ubyte r.2 M' t' o)))).
Proof.
  intros [[P G] Hl] Hs Hd Hne Hst Hal Hn Hend. unfold vm_user_clone.
  destruct (round_up_page_ok start n) as (Hra & Hb & ->); try done; [lia|]. rewrite (u32_small (start + n)) in * by (unfold VIRT_KERNEL_BASE in *; lia).
  set (b := round_up_page (start + n)) in *. rewrite (proj2 (Z.ltb_lt _ _)) by lia. cbn [k_assert mbind outcome_bind].
  eapply wp_mono; [apply (clone_loop_ok _ P M s src dst start b); try done; lia|done|].
  intros [r s1] (P1 & M1 & e & G1 & Hl1 & Hm1 & Hc & He). simpl in *. exists M1. split; [split; [by exists P1|done]|]. intros ->.
  destruct He as [[_ ->]|[? _]]; [|done]. rewrite Z.max_r in Hc by lia. split; [apply (cloned_ubyte M s src dst start b); done || lia|].
  intros t va l Ht Hva Hvl Hvk Hbl Hw.
  assert (Hk : ∀ o, va ≤ o < va + Z.of_nat (length l) → ∃ q fl, M1 !! (t, o / PAGE_SIZE) = Some (q, cloned_flags fl) ∧ vm_flags_check fl VM_WRITE = true).
  { intros o Ho. destruct (Hw o Ho) as (q & fl & Hq & Hfl).
    destruct (cl_pages _ _ _ _ _ _ Hc (o / PAGE_SIZE)) as (q' & fl' & Hq' & H1 & H2).
    - destruct Hra as (_ & _ & ? & ?). unfold PAGE_SIZE in *. Z.to_euclidean_division_equations. lia.
    - rewrite Hq in Hq'. injection Hq' as <- <-. exists q, fl. destruct Ht as [-> | ->]; done. }
  eapply wp_mono; [apply (vm_copy_out_ok M1 s1 t va l); try done; [split; [by exists P1|done]|destruct Ht as [-> | ->]; done|lia|lia|]|done|].
  - intros o q fl Ho Hq. destruct (Hk o Ho) as (q' & fl' & Hq' & Hfl). rewrite Hq in Hq'. injection Hq' as -> ->. left. by apply cloned_cow.
  - intros [r2 s2] (M2 & c & Hi2 & (_ & _ & Hc2) & [[E ->]|(_ & Hcc & Hno)]); simpl in *.
    + split; [done|]. exists M2. done.
    + destruct (Hk (va + c)) as (? & ? & E & _); [lia|]. congruence.
Qed.

(** ** Every sequence of operations *)

Lemma ginv_inv P M s : ginv P M ∅ s → inv M (set_lock false s).
Proof. intros G. split; [exists P; by apply ginv_lock|done]. Qed.

(** A step under the lock that makes a page ready to be written. *)
Lemma locked_lookup_cow M s t va :
  inv M s → t ∈ tabs → 0 ≤ va < VIRT_KERNEL_BASE →
  wp (vm_page_lookup_cow (set_lock true s) t va) oom (λ r, vm_lock r.2 = true ∧ ∃ P' M', ginv P' M' ∅ r.2 ∧
    match r.1 with inl _ => True | inr (p, fl) => 0 ≤ fl < 128 ∧ 0 < refs M' p end).
Proof.
  intros [[P G] Hl] Ht Hva. eapply wp_mono; [apply (vm_page_lookup_cow_ok P M); try done; by apply ginv_lock|done|].
  intros [r s1]. cbv zeta. destruct (M !! (t, va / PAGE_SIZE)) as [[q fl]|] eqn:Hk.
  - intros (p & P1 & E & G1 & Hl1 & (fl' & Hk1) & _). simpl in *. subst r. split; [done|]. eexists _, _. split; [done|].
    split; [by apply (g_flags _ _ _ _ G _ _ _ Hk)|by eapply refs_pos].
  - intros [= -> ->]. split; [done|]. exists P, M. split; [by apply ginv_lock|done].
Qed.

Lemma copy_out_loop_inv fuel M s t va src :
  inv M s → t ∈ tabs → 0 ≤ va → va + Z.of_nat (length src) ≤ VIRT_KERNEL_BASE → (length src < fuel)%nat → Forall byte src →
  wp (copy_out_loop fuel s t va src) oom (λ r, ∃ M', inv M' r.2).
Proof.
  revert M s va src. induction fuel as [|fuel IH]; intros M s va src Hi Ht Hva Hend Hfuel Hsrc; [lia|].
  cbn [copy_out_loop]. destruct (Z.eqb_spec (Z.of_nat (length src)) 0) as [E0|E0]; [by exists M|].
  pose proof (Z.mod_pos_bound va PAGE_SIZE ltac:(done)) as Hmod. set (n := Z.min (PAGE_SIZE - va mod PAGE_SIZE) (Z.of_nat (length src))).
  rewrite vm_acquire_ok by apply Hi. simpl. apply wp_bind. eapply wp_mono; [apply (locked_lookup_cow M s t va Hi Ht); lia|done|].
  intros [r s1] (Hl1 & P1 & M1 & G1 & Hr). simpl in *. destruct r as [e|[p fl]].
  - rewrite vm_release_ok by done. exists M1. by eapply ginv_inv.
  - destruct Hr as [_ Hr]. apply refs_mapped in Hr as (k & fl' & Hk). destruct (upage_good _ _ _ _ _ _ _ G1 Hk) as (d & Hd & _ & Hgl & Hgb).
    unfold store_at. rewrite Hd. simpl. rewrite vm_release_ok by done. simpl. rewrite u32_small by (unfold VIRT_KERNEL_BASE in *; lia).
    apply (IH M1); try (rewrite length_drop; lia); try done; [|lia|by apply Forall_drop]. eapply ginv_inv, set_mem_ginv; [done|].
    split; [rewrite length_splice by (rewrite length_take; lia); done|]. unfold splice. rewrite !Forall_app.
    split; [by apply Forall_take|]. split; [by apply Forall_take|by apply Forall_drop].
Qed.

Lemma clone_share_inv fuel M s src dst a b :
  inv M s → src ∈ tabs → dst ∈ tabs → aligned_range a b → (range_pages a b < fuel)%nat →
  wp (clone_loop fuel s src dst a b true) oom (λ r, ∃ M', inv M' r.2).
Proof.
  revert M s a. induction fuel as [|fuel IH]; intros M s a Hi Ht Htd Ha Hf; [lia|]. cbn [clone_loop].
  destruct (Z.ltb_spec a b) as [Hab|Hab]; [|by exists M]. pose proof Ha as (Ha0 & Hb & Hma & _).
  destruct (aligned_step a b Ha Hab) as [Ha' Hle]. rewrite vm_acquire_ok by apply Hi. simpl. apply wp_bind.
  eapply wp_mono; [apply (locked_lookup_cow M s src a Hi Ht); lia|done|]. intros [r s1] (Hl1 & P1 & M1 & G1 & Hr). simpl in *.
  destruct r as [e|[p fl]]; [rewrite vm_release_ok by done; exists M1; by eapply ginv_inv|]. destruct Hr as [Hfl Hr]. apply wp_bind.
  eapply wp_mono; [apply (vm_page_insert_ok P1 M1 ∅ s1 dst p a fl); try done; [lia|by left]|done|].
  intros [r s2] (E & P2 & G2 & Hl2 & _). simpl in *. subst r. rewrite vm_release_ok by congruence. simpl.
  rewrite u32_small by (unfold VIRT_KERNEL_BASE, PAGE_SIZE in *; lia). rewrite range_pages_step in Hf by done.
  eapply IH; try done; [by eapply ginv_inv|lia].
Qed.

(** Address [o] is on a page that allows the accesses [flags]. *)
Definition access M t o flags : Prop := ∃ q fl, M !! (t, o / PAGE_SIZE) = Some (q, fl) ∧ vm_flags_check fl flags = true.

Lemma uncow_check fl flags : flags_ok fl → cow fl = true → vm_flags_check (uncow fl) flags = vm_flags_check fl flags.
Proof.
  intros Hf Hc. unfold vm_flags_check. fold (cow (uncow fl)) (cow fl). rewrite uncow_cow, Hc. unfold uncow. rewrite lor_page; [done|].
  destruct Hf as [Hr Hp]. split; [by apply uncow_range|]. apply Z.eqb_neq in Hp. apply Z.eqb_neq. change VM_PAGE with (2 ^ 6) in *.
  rewrite land_bit_0 in Hp |- * by lia. apply negb_false_iff in Hp. rewrite negb_false_iff, Z.lor_spec, Z.ldiff_spec, Hp. done.
Qed.

Lemma access_same P M E s M' t o flags : ginv P M E s → same_pages M M' → access M' t o flags ↔ access M t o flags.
Proof.
  intros G Hs. unfold access. specialize (Hs (t, o / PAGE_SIZE)).
  destruct (M !! (t, o / PAGE_SIZE)) as [[q fl]|] eqn:Hk, (M' !! (t, o / PAGE_SIZE)) as [[q' fl']|]; try done.
  assert (Hc : vm_flags_check fl' flags = vm_flags_check fl flags).
  { destruct Hs as [->|[Hc ->]]; [done|]. apply uncow_check; [|done]. by apply (g_flags _ _ _ _ G _ _ _ Hk). }
  split; intros (? & ? & [= <- <-] & H); eexists _, _; (split; [done|]); congruence.
Qed.

Lemma check_buf_loop_ok fuel M s t va b flags :
  inv M s → t ∈ tabs → 0 ≤ va → b ≤ VIRT_KERNEL_BASE → b - va ≤ PAGE_SIZE * Z.of_nat fuel →
  wp (check_buf_loop (S fuel) s t va b flags) oom (λ r, ∃ M', inv M' r.2 ∧ same_pages M M' ∧ (∀ t' o, ubyte r.2 M' t' o = ubyte s M t' o) ∧
    (r.1 = 0 ∧ (∀ i, 0 ≤ i → va + i * PAGE_SIZE < b → access M t (va + i * PAGE_SIZE) flags) ∨
     r.1 = - EFAULT ∧ ∃ i, 0 ≤ i ∧ va + i * PAGE_SIZE < b ∧ ¬ access M t (va + i * PAGE_SIZE) flags)).
Proof.
  revert M s va. induction fuel as [|fuel IH]; intros M s va Hi Ht Hva Hb Hf; cbn [check_buf_loop];
    (destruct (Z.ltb_spec va b) as [Hab|Hab]; [|exists M; split; [done|]; split; [apply same_pages_refl|]; split; [done|];
      left; split; [done|]; intros i ? ?; unfold PAGE_SIZE in *; lia]); [lia|].
  pose proof Hi as [[P G] Hl]. rewrite vm_acquire_ok by done. simpl. apply wp_bind.
  eapply wp_mono; [apply (vm_page_lookup_cow_ok P M (set_lock true s) t va); try done; [by apply ginv_lock|lia]|done|]. intros [r s1]. cbv zeta.
  destruct (M !! (t, va / PAGE_SIZE)) as [[q fl]|] eqn:Hk.
  2:{ intros [= -> ->]. rewrite vm_release_ok by done. simpl. exists M. rewrite set_lock_id by done. split; [done|]. split; [apply same_pages_refl|].
      split; [done|]. right. split; [done|]. exists 0. rewrite Z.mul_0_l, Z.add_0_r. split; [lia|]. split; [done|]. intros (? & ? & ? & _). congruence. }
  intros (p & P1 & E & G1 & Hl1 & _ & _ & Hu). simpl in E, G1, Hl1, Hu. subst r. rewrite vm_release_ok by done. simpl.
  set (M1 := owned_map M (t, va / PAGE_SIZE) p fl) in *. assert (Hs1 : same_pages M M1) by (by apply (owned_map_same M _ p q)).
  assert (Hi1 : inv M1 (set_lock false s1)) by (by eapply ginv_inv).
  assert (Hb1 : ∀ t' o, ubyte (set_lock false s1) M1 t' o = ubyte s M t' o) by (intros t' o; unfold ubyte; change (upage s M (t', o / PAGE_SIZE)) with (upage (set_lock true s) M (t', o / PAGE_SIZE)); by rewrite <- Hu).
  destruct (vm_flags_check fl flags) eqn:Hc; simpl.
  2:{ exists M1. split; [done|]. split; [done|]. split; [done|]. right. split; [done|]. exists 0. rewrite Z.mul_0_l, Z.add_0_r.
      split; [lia|]. split; [done|]. intros (? & ? & E & ?). rewrite Hk in E. injection E as <- <-. congruence. }
  rewrite u32_small by (unfold VIRT_KERNEL_BASE, PAGE_SIZE in *; lia).
  eapply wp_mono; [apply (IH M1 (set_lock false s1) (va + PAGE_SIZE)); try done; unfold PAGE_SIZE in *; lia|done|].
  intros [r s2] (M2 & Hi2 & Hs2 & Hb2 & Hr). simpl in *. exists M2. split; [done|]. split; [by eapply same_pages_trans|].
  split; [intros; by rewrite Hb2|]. destruct Hr as [[-> Hall]|(-> & i & Hi0 & Hib & Hn)]; [left|right]; (split; [done|]).
  - intros i Hi0 Hib. destruct (decide (i = 0)) as [->|]; [rewrite Z.mul_0_l, Z.add_0_r; by exists q, fl|].
    apply (access_same P M ∅ s M1 t _ flags G Hs1). replace (va + i * PAGE_SIZE) with (va + PAGE_SIZE + (i - 1) * PAGE_SIZE) in * by lia.
    apply Hall; [lia|done].
  - exists (i + 1). replace (va + (i + 1) * PAGE_SIZE) with (va + PAGE_SIZE + i * PAGE_SIZE) by lia. split; [lia|]. split; [done|].
    intros Ha. by apply Hn, (access_same P M ∅ s M1 t _ flags G Hs1).
Qed.

(** The pages the loop looks at are the pages of the buffer. *)
Lemma buf_pages start n o :
  0 ≤ start → 0 < n → start ≤ o < start + n → let b := round_up_page (start + n) in start + n ≤ VIRT_KERNEL_BASE →
  ∃ i, 0 ≤ i ∧ start + i * PAGE_SIZE < b ∧ (start + i * PAGE_SIZE) / PAGE_SIZE = o / PAGE_SIZE.
Proof.
  intros Hs Hn Ho b Hk. exists (o / PAGE_SIZE - start / PAGE_SIZE). subst b. unfold round_up_page.
  rewrite u32_small by (unfold VIRT_KERNEL_BASE, PAGE_SIZE in *; lia). rewrite Z.div_add by done. unfold PAGE_SIZE in *.
  Z.to_euclidean_division_equations. lia.
Qed.

Lemma pages_buf start n i :
  0 ≤ start → 0 < n → start + n ≤ VIRT_KERNEL_BASE → 0 ≤ i → start + i * PAGE_SIZE < round_up_page (start + n) →
  ∃ o, start ≤ o < start + n ∧ o / PAGE_SIZE = (start + i * PAGE_SIZE) / PAGE_SIZE.
Proof.
  intros Hs Hn Hk Hi. unfold round_up_page. rewrite u32_small by (unfold VIRT_KERNEL_BASE, PAGE_SIZE in *; lia). intros Hb.
  exists (Z.max start ((start + i * PAGE_SIZE) / PAGE_SIZE * PAGE_SIZE)). rewrite Z.div_add in * by done. unfold PAGE_SIZE in *.
  Z.to_euclidean_division_equations. lia.
Qed.

Lemma check_buf_inv M s t start n flags :
  inv M s → t ∈ tabs → 0 ≤ start → 0 < n → start + n ≤ VIRT_KERNEL_BASE →
  wp (vm_user_check_buf s t start n flags) oom (λ r, ∃ M', inv M' r.2 ∧ (∀ t' o, ubyte r.2 M' t' o = ubyte s M t' o) ∧
    (r.1 = 0 ∧ (∀ o, start ≤ o < start + n → access M t o flags) ∨
     r.1 = - EFAULT ∧ ∃ o, start ≤ o < start + n ∧ ¬ access M t o flags)).
Proof.
  intros Hi Ht Hs Hn Hend. unfold vm_user_check_buf. rewrite (u32_small (start + n)) by (unfold VIRT_KERNEL_BASE in *; lia).
  assert (Hb : start + n ≤ round_up_page (start + n) ≤ VIRT_KERNEL_BASE).
  { unfold round_up_page. rewrite u32_small by (unfold VIRT_KERNEL_BASE, PAGE_SIZE in *; lia). unfold PAGE_SIZE, VIRT_KERNEL_BASE in *.
    Z.to_euclidean_division_equations. lia. }
  rewrite (proj2 (Z.leb_gt _ _)), (proj2 (Z.ltb_ge _ _)) by lia. cbn [orb].
  eapply wp_mono; [apply (check_buf_loop_ok _ M s t start); try done; [lia|]|done|].
  { unfold range_pages. rewrite Nat2Z.inj_succ, Z2Nat.id by (apply Z.div_pos; unfold PAGE_SIZE; lia).
    unfold PAGE_SIZE. Z.to_euclidean_division_equations. lia. }
  intros [r s1] (M1 & Hi1 & _ & Hb1 & Hr). exists M1. split; [done|]. split; [done|]. simpl in *.
  destruct Hr as [[-> Hall]|(-> & i & Hi0 & Hib & Hno)]; [left|right]; (split; [done|]).
  - intros o Ho. destruct (buf_pages start n o) as (i & Hi0 & Hib & E); try done. unfold access. rewrite <- E. by apply Hall.
  - destruct (pages_buf start n i) as (o & Ho & E); try done. exists o. split; [done|]. unfold access. by rewrite E.
Qed.

(** C10: [vm_user_check_buf] accepts a user buffer, one that ends below the
    kernel, exactly when every byte of it is on a page that allows the access,
    and says EFAULT otherwise.  It changes no byte of any address space. *)
Theorem vm_user_check_buf_spec M s t start n flags :
  inv M s → t ∈ tabs → 0 ≤ start → 0 < n → start + n ≤ VIRT_KERNEL_BASE →
  wp (vm_user_check_buf s t start n flags) oom (λ r, ∃ M', inv M' r.2 ∧ (∀ t' o, ubyte r.2 M' t' o = ubyte s M t' o) ∧
    (r.1 = 0 ∧ (∀ o, start ≤ o < start + n → access M t o flags) ∨
     r.1 = - EFAULT ∧ ∃ o, start ≤ o < start + n ∧ ¬ access M t o flags)).
Proof. apply check_buf_inv. Qed.

(** ** Strings *)

Lemma scan_str_ok l len :
  match scan_str l len with
  | (Some n, _) => ∃ j : nat, n = len + Z.of_nat j ∧ l !! j = Some 0 ∧ ∀ i, (i < j)%nat → ∃ c, l !! i = Some c ∧ c ≠ 0
  | (None, len') => len' = len + Z.of_nat (length l) ∧ ∀ i, (i < length l)%nat → ∃ c, l !! i = Some c ∧ c ≠ 0
  end.
Proof.
  revert len. induction l as [|c l IH]; intros len; simpl; [split; [lia|lia]|].
  destruct (Z.eqb_spec c 0) as [->|Hc]; [exists 0%nat; split; [lia|]; split; [done|lia]|].
  assert (Hs : ∀ m, (∀ i, (i < m)%nat → ∃ c, l !! i = Some c ∧ c ≠ 0) → ∀ i, (i < S m)%nat → ∃ c', (c :: l) !! i = Some c' ∧ c' ≠ 0).
  { intros m Hm [|i] Hi; [by exists c|]. apply Hm. lia. }
  specialize (IH (len + 1)). destruct (scan_str l (len + 1)) as [[n|] len'].
  - destruct IH as (j & -> & Hj & Hi). exists (S j). split; [lia|]. split; [done|by apply Hs].
  - destruct IH as [-> Hi]. split; [lia|by apply Hs].
Qed.

(** There is a string of [n] characters at [va], on readable pages. *)
Definition string_at M s t va n flags : Prop :=
  0 ≤ n ∧ va + n < VIRT_KERNEL_BASE ∧ ubyte s M t (va + n) = Some 0 ∧ (∀ o, va ≤ o ≤ va + n → access M t o flags) ∧
  ∀ o, va ≤ o < va + n → ∃ c, ubyte s M t o = Some c ∧ c ≠ 0.

(** The characters before [va] are read, none is the terminator; the string
    goes on, or not, at [va]. *)
Lemma string_at_later M s t va m flags n :
  0 ≤ m → (∀ o, va ≤ o < va + m → access M t o flags ∧ ∃ c, ubyte s M t o = Some c ∧ c ≠ 0) →
  string_at M s t va n flags ↔ m ≤ n ∧ string_at M s t (va + m) (n - m) flags.
Proof.
  intros Hm Hpre. unfold string_at. split.
  - intros (Hn & Hk & H0 & Ha & Hc). assert (m ≤ n).
    { destruct (Z.le_gt_cases m n); [done|]. destruct (Hpre (va + n)) as (_ & c & E & ?); [lia|]. congruence. }
    split; [done|]. replace (va + m + (n - m)) with (va + n) by lia. split; [lia|]. split; [done|]. split; [done|].
    split; intros o Ho; [apply Ha|apply Hc]; lia.
  - intros (Hmn & _ & Hk & H0 & Ha & Hc). replace (va + m + (n - m)) with (va + n) in * by lia. split; [lia|]. split; [done|]. split; [done|].
    split; intros o Ho; destruct (Z.lt_ge_cases o (va + m)); [apply Hpre; lia|apply Ha; lia|apply Hpre; lia|apply Hc; lia].
Qed.

Lemma check_str_loop_ok fuel P M s t va0 va flags :
  ginv P M ∅ s → vm_lock s = false → t ∈ tabs → 0 ≤ va0 ≤ va → va ≤ VIRT_KERNEL_BASE → VIRT_KERNEL_BASE / PAGE_SIZE - va / PAGE_SIZE < Z.of_nat fuel →
  (∀ o, va0 ≤ o < va → access M t o flags ∧ ∃ c, ubyte s M t o = Some c ∧ c ≠ 0) →
  ∃ r, check_str_loop fuel s t va (va - va0) flags = Ok (r, s) ∧
    match r with inr n => string_at M s t va0 n flags | inl e => e = - EFAULT ∧ ∀ n, ¬ string_at M s t va0 n flags end.
Proof.
  intros G Hl Ht. revert va. induction fuel as [|fuel IH]; intros va Hva Hk Hf Hpre;
    [pose proof (Z.div_le_mono va VIRT_KERNEL_BASE PAGE_SIZE ltac:(done) Hk); lia|]. cbn [check_str_loop].
  assert (Hlater : ∀ n, string_at M s t va0 n flags ↔ va - va0 ≤ n ∧ string_at M s t va (n - (va - va0)) flags).
  { intros n. pose proof (string_at_later M s t va0 (va - va0) flags n) as Hs. replace (va0 + (va - va0)) with va in Hs by lia.
    apply Hs; [lia|done]. }
  destruct (Z.ltb_spec va VIRT_KERNEL_BASE) as [Hlt|Hge].
  2:{ exists (inl (- EFAULT)). split; [done|]. split; [done|]. intros n [? (? & ? & _)]%Hlater. lia. }
  rewrite vm_acquire_ok by done. simpl. rewrite (vm_page_lookup_ok P M ∅) by (done || lia || by apply ginv_lock). simpl.
  assert (Hbad : ¬ access M t va flags → ∀ n, ¬ string_at M s t va0 n flags).
  { intros Hno n [Hn (_ & _ & _ & Ha & _)]%Hlater. apply Hno, Ha. lia. }
  destruct (M !! (t, va / PAGE_SIZE)) as [[p fl]|] eqn:Hm.
  2:{ rewrite set_lock_id by done. exists (inl (- EFAULT)). split; [done|]. split; [done|]. apply Hbad. intros (? & ? & ? & _). congruence. }
  destruct (vm_flags_check fl flags) eqn:Hc; simpl.
  2:{ rewrite set_lock_id by done. exists (inl (- EFAULT)). split; [done|]. split; [done|]. apply Hbad. intros (? & ? & E & ?). rewrite Hm in E. injection E as <- <-. congruence. }
  destruct (upage_good _ _ _ _ _ _ _ G Hm) as (d & Hd & Hu & Hgl & _). rewrite Hd. simpl. rewrite set_lock_id by done.
  pose proof (Z.mod_pos_bound va PAGE_SIZE ltac:(done)) as Hmod. pose proof (scan_str_ok (drop (Z.to_nat (va mod PAGE_SIZE)) d) (va - va0)) as Hsc.
  assert (Hpos : ∀ i : nat, Z.of_nat i < PAGE_SIZE - va mod PAGE_SIZE →
    access M t (va + Z.of_nat i) flags ∧ ubyte s M t (va + Z.of_nat i) = drop (Z.to_nat (va mod PAGE_SIZE)) d !! i).
  { intros i Hi. destruct (page_pos va (PAGE_SIZE - va mod PAGE_SIZE) (va + Z.of_nat i)) as [E1 E2]; [lia..|].
    unfold access, ubyte. rewrite E1, E2, Hu. split; [by exists p, fl|]. simpl. rewrite lookup_drop. f_equal. lia. }
  assert (Hend : va + (PAGE_SIZE - va mod PAGE_SIZE) ≤ VIRT_KERNEL_BASE).
  { unfold PAGE_SIZE, VIRT_KERNEL_BASE in *. Z.to_euclidean_division_equations. lia. }
  destruct (scan_str _ _) as [[n|] len'].
  - destruct Hsc as (j & -> & Hj & Hi). pose proof (lookup_lt_Some _ _ _ Hj) as Hlen. rewrite length_drop in Hlen. eexists. split; [done|].
    apply Hlater. split; [lia|]. replace (va - va0 + Z.of_nat j - (va - va0)) with (Z.of_nat j) by lia.
    split; [lia|]. split; [lia|]. split; [rewrite (proj2 (Hpos j ltac:(lia))); done|]. split; intros o Ho; replace o with (va + Z.of_nat (Z.to_nat (o - va))) by lia.
    + apply Hpos. lia.
    + rewrite (proj2 (Hpos (Z.to_nat (o - va)) ltac:(lia))). apply Hi. lia.
  - destruct Hsc as [-> Hi]. rewrite length_drop in Hi |- *.
    replace (va - va0 + Z.of_nat (length d - Z.to_nat (va mod PAGE_SIZE)) - (va - va0)) with (PAGE_SIZE - va mod PAGE_SIZE) by lia.
    rewrite u32_small by (unfold VIRT_KERNEL_BASE in *; lia).
    replace (va - va0 + Z.of_nat (length d - Z.to_nat (va mod PAGE_SIZE))) with (va + (PAGE_SIZE - va mod PAGE_SIZE) - va0) by lia.
    apply IH; [lia|lia| |].
    + unfold PAGE_SIZE, VIRT_KERNEL_BASE in *. Z.to_euclidean_division_equations. lia.
    + intros o Ho. destruct (Z.lt_ge_cases o va); [apply Hpre; lia|]. replace o with (va + Z.of_nat (Z.to_nat (o - va))) by lia.
      split; [apply Hpos; lia|]. rewrite (proj2 (Hpos (Z.to_nat (o - va)) ltac:(lia))). apply Hi. lia.
Qed.

(** C11: [vm_user_check_str] finds the terminator of a string in user memory: it
    returns [n] only for a string of [n] characters on pages that allow the
    access, and EFAULT only when there is none; it always ends, crossing pages
    as far as the start of the kernel, and changes nothing. *)
Theorem vm_user_check_str_spec M s t va flags :
  inv M s → t ∈ tabs → 0 ≤ va ≤ VIRT_KERNEL_BASE →
  ∃ r, vm_user_check_str s t va flags = Ok (r, s) ∧
    match r with inr n => string_at M s t va n flags | inl e => e = - EFAULT ∧ ∀ n, ¬ string_at M s t va n flags end.
Proof.
  intros [[P G] Hl] Ht Hva. unfold vm_user_check_str.
  pose proof (check_str_loop_ok (Z.to_nat (VIRT_KERNEL_BASE / PAGE_SIZE + 1)) P M s t va va flags) as Hc. rewrite Z.sub_diag in Hc.
  apply Hc; try done; [lia|lia| |lia]. rewrite Z2Nat.id by done. pose proof (Z.div_pos va PAGE_SIZE ltac:(lia) ltac:(done)). lia.
Qed.

Lemma handle_fault_inv M s t va : inv M s → t ∈ tabs → wp (vm_handle_fault s t va) oom (λ r, ∃ M', inv M' r.2).
Proof.
  intros Hi Ht. unfold vm_handle_fault. destruct (Z.ltb_spec va PAGE_SIZE), (Z.leb_spec VIRT_KERNEL_BASE va); try by exists M.
  pose proof Hi as [[P G] Hl]. assert (Hva : 0 ≤ va < VIRT_KERNEL_BASE) by (unfold PAGE_SIZE in *; lia). simpl.
  rewrite vm_acquire_ok by done. cbn [mbind outcome_bind]. rewrite (vm_page_lookup_ok P M ∅) by (done || by apply ginv_lock). cbn [mbind outcome_bind].
  destruct (M !! (t, va / PAGE_SIZE)) as [[q fl]|] eqn:Hk; [|rewrite vm_release_ok, set_lock_id by done; by exists M].
  destruct (Z.land fl VM_COW =? 0) eqn:Hc; [rewrite vm_release_ok, set_lock_id by done; by exists M|].
  apply wp_bind. eapply wp_mono; [apply (vm_page_cow_ok P M (set_lock true s) t va q fl); try done; [by apply ginv_lock|unfold cow; by rewrite Hc]|done|].
  intros [o s1] (p & P1 & _ & G1 & Hl1 & _). simpl in *. rewrite vm_release_ok by done. simpl. eexists. by eapply ginv_inv.
Qed.

Inductive op :=
| OAlloc (t start n fl : Z) | OFree (t start n : Z) | OClone (src dst start n : Z) (share : bool)
| OOut (t : Z) (l : list Z) (va : Z) | OClear (t va n : Z) | OIn (t va n : Z)
| OCheckBuf (t start n fl : Z) | OFault (t va : Z).

Definition exec (o : op) s : outcome (vms T) :=
  match o with
  | OAlloc t start n fl => snd <$> vm_user_alloc s t start n fl
  | OFree t start n => vm_user_free s t start n
  | OClone src dst start n share => snd <$> vm_user_clone s src dst start n share
  | OOut t l va => snd <$> vm_copy_out s t l va
  | OClear t va n => snd <$> vm_clear s t va n
  | OIn t va n => snd <$> vm_copy_in s t va n
  | OCheckBuf t start n fl => snd <$> vm_user_check_buf s t start n fl
  | OFault t va => snd <$> vm_handle_fault s t va
  end.
Fixpoint run (os : list op) s : outcome (vms T) := match os with [] => Ok s | o :: os => s ← exec o s; run os s end.

(** User addresses below the kernel, whole pages where the code asserts it. *)
Definition user_range a n : Prop := 0 ≤ a < VIRT_KERNEL_BASE ∧ 0 ≤ n ∧ a + n ≤ VIRT_KERNEL_BASE.
Definition op_ok (o : op) : Prop :=
  match o with
  | OAlloc t start n fl => t ∈ tabs ∧ user_range start n ∧ start mod PAGE_SIZE = 0 ∧ 0 ≤ fl < 128
  | OFree t start n => t ∈ tabs ∧ user_range start n ∧ start mod PAGE_SIZE = 0
  | OClone src dst start n _ => src ∈ tabs ∧ dst ∈ tabs ∧ src ≠ dst ∧ user_range start n ∧ start mod PAGE_SIZE = 0
  | OOut t l va => t ∈ tabs ∧ user_range va (Z.of_nat (length l)) ∧ Forall byte l
  | OClear t va n | OIn t va n => t ∈ tabs ∧ user_range va n
  | OCheckBuf t start n _ => t ∈ tabs ∧ user_range start n ∧ 0 < n
  | OFault t _ => t ∈ tabs
  end.

Lemma wp_snd {A} (m : outcome (A * vms T)) (Q : vms T → Prop) : wp m oom (λ r, Q r.2) → wp (snd <$> m) oom Q.
Proof. by destruct m as [[a s]|]. Qed.

Lemma exec_inv o M s : inv M s → op_ok o → wp (exec o s) oom (λ s', ∃ M', inv M' s').
Proof.
  intros Hi Ho. destruct o as [t start n fl|t start n|src dst start n share|t l va|t va n|t va n|t start n fl|t va]; simpl in *.
  - destruct Ho as (Ht & (? & ? & ?) & Hal & Hfl). apply wp_snd. eapply wp_mono; [by apply (vm_user_alloc_ok M s t start n fl)|done|].
    intros r (_ & M1 & Hi1 & _). by exists M1.
  - destruct Ho as (Ht & (? & ? & ?) & Hal). unfold vm_user_free. destruct (round_up_page_ok start n) as (Hra & _ & ->); [lia..|].
    rewrite (proj2 (Z.ltb_lt _ _)) by lia. cbn [k_assert mbind outcome_bind]. destruct Hi as [[P G] Hl].
    destruct (free_loop_ok (S (range_pages start (round_up_page (u32 (start + n))))) P M s t start (round_up_page (u32 (start + n)))) as (s1 & -> & G1 & Hl1 & _); [done..|lia|].
    exists (unmap M t start (round_up_page (u32 (start + n)))). split; [by exists P|done].
  - destruct Ho as (Ht & Htd & Hne & (? & ? & ?) & Hal). apply wp_snd. unfold vm_user_clone. destruct (round_up_page_ok start n) as (Hra & _ & ->); [lia..|].
    rewrite (proj2 (Z.ltb_lt _ _)) by lia. cbn [k_assert mbind outcome_bind]. destruct share; [eapply clone_share_inv; try done; lia|]. destruct Hi as [[P G] Hl].
    eapply wp_mono; [apply (clone_loop_ok _ P M s); try done; lia|done|]. intros r (P1 & M1 & e & G1 & Hl1 & _). exists M1. split; [by exists P1|done].
  - destruct Ho as (Ht & (? & ? & ?) & Hb). apply wp_snd. unfold vm_copy_out. rewrite user_assert_ok by lia. cbn [mbind outcome_bind].
    apply (copy_out_loop_inv _ M); done || lia.
  - destruct Ho as (Ht & (? & ? & ?)). apply wp_snd. unfold vm_clear. rewrite user_assert_ok by lia. cbn [mbind outcome_bind]. rewrite clear_loop_eq by lia.
    apply (copy_out_loop_inv _ M); rewrite ?length_replicate; try done; try lia. by apply Forall_replicate.
  - destruct Ho as (Ht & (? & ? & ?)). apply wp_snd. destruct (vm_copy_in_ok M s t va n Hi Ht) as (r & l & -> & _); [lia..|]. by exists M.
  - destruct Ho as (Ht & (? & ? & ?) & Hn). apply wp_snd. eapply wp_mono; [apply (check_buf_inv M s t start n fl); done || lia|done|].
    intros r (M1 & Hi1 & _). by exists M1.
  - apply wp_snd. by apply (handle_fault_inv M).
Qed.

(** C8: reference counts are exact.  After every sequence of operations on
    address spaces, for any user ranges, the reference count of each frame of
    user memory is the number of page-table entries that map it, a frame without
    one is not allocated, page tables and allocator are consistent and the lock
    is free; the only way to stop is to run out of memory. *)
Theorem vm_refs_exact M s os :
  inv M s → Forall op_ok os →
  wp (run os s) oom (λ s', ∃ M', inv M' s' ∧ ∀ p r, live (pg s') p r PAGE_TAG_ANON ↔ 0 < refs M' p ∧ r = refs M' p).
Proof.
  intros Hi Hos. revert M s Hi. induction Hos as [|o os Ho Hos IH]; intros M s Hi; cbn [run].
  - exists M. split; [done|]. destruct Hi as [[P G] _]. intros p r. split.
    + intros Hp. destruct (g_leak _ _ _ _ G p r Hp) as [Hr|[? E]]; [|by rewrite lookup_empty in E].
      destruct (g_frame _ _ _ _ G p (or_introl Hr)) as [Hl _]. rewrite lookup_empty in Hl. simpl in Hl. rewrite Z.add_0_r in Hl.
      by destruct (live_unique _ _ _ _ _ _ Hp Hl) as [-> _].
    + intros [Hr ->]. destruct (g_frame _ _ _ _ G p (or_introl Hr)) as [Hl _]. rewrite lookup_empty in Hl. simpl in Hl. by rewrite Z.add_0_r in Hl.
  - apply wp_bind. eapply wp_mono; [by apply (exec_inv o M s)|done|]. intros s1 [M1 Hi1]. by apply (IH M1).
Qed.

(** A user buffer that reaches past the end of user memory stops the
    kernel: [vm_user_check_buf], whose purpose is to refuse bad buffers with
    EFAULT, looks up an address of the kernel in the page table of the user when
    the last page below the kernel, the top of the stack, allows the access. *)
Theorem vm_user_check_buf_panics M s t flags :
  inv M s → t ∈ tabs → access M t (VIRT_KERNEL_BASE - PAGE_SIZE) flags →
  wp (vm_user_check_buf s t (VIRT_KERNEL_BASE - PAGE_SIZE) (2 * PAGE_SIZE) flags)
    (λ w, oom w ∨ w = "user va must be below VIRT_KERNEL_BASE"%string) (λ _, False).
Proof.
  intros [[P G] Hl] Ht (q & fl & Hk & Hc). unfold vm_user_check_buf. set (a := VIRT_KERNEL_BASE - PAGE_SIZE) in *.
  assert (Hb : round_up_page (u32 (a + 2 * PAGE_SIZE)) = VIRT_KERNEL_BASE + PAGE_SIZE) by reflexivity. rewrite Hb.
  assert (Hg : (VIRT_KERNEL_BASE <=? a) || (VIRT_KERNEL_BASE + PAGE_SIZE <? a) = false) by reflexivity. rewrite Hg.
  change (range_pages a (VIRT_KERNEL_BASE + PAGE_SIZE)) with 2%nat. cbn [check_buf_loop].
  assert (H1 : a <? VIRT_KERNEL_BASE + PAGE_SIZE = true) by reflexivity. rewrite H1. rewrite vm_acquire_ok by done. cbn [mbind outcome_bind].
  apply wp_bind. eapply wp_mono; [apply (vm_page_lookup_cow_ok P M (set_lock true s) t a); try done; by apply ginv_lock|by left|].
  intros [r s1]. cbv zeta. rewrite Hk. intros (p & P1 & E & G1 & Hl1 & _). simpl in E, G1, Hl1. subst r.
  rewrite vm_release_ok by done. cbn [mbind outcome_bind]. rewrite Hc. cbn [negb]. assert (H2 : u32 (a + PAGE_SIZE) = VIRT_KERNEL_BASE) by reflexivity. rewrite H2.
  assert (H3 : VIRT_KERNEL_BASE <? VIRT_KERNEL_BASE + PAGE_SIZE = true) by reflexivity. rewrite H3. rewrite vm_acquire_ok by done. cbn [mbind outcome_bind].
  unfold vm_page_lookup_cow, vm_page_lookup, holding, lookup. simpl. rewrite (lookup_kernel tabs P1) by (done || apply G1). simpl. by right.
Qed.

End theory.

End Vm.
