(* ===== verification/ArmVm.v ===== *)
(** Page tables of ARM (kernel/arch/arm/mm/arch_vm.c).

    A first-level table of a process has 2048 entries for the lower half of the
    address space; each pair of entries shares a page frame that holds two
    second-level tables of 256 entries and, after them, a word of flags for
    every entry.  The memory of the tables is a map from physical addresses to
    words.  The file discharges the laws of VmArch.v, so that the theorems of
    Vm.v hold for these tables. *)

From S2P Require Import Prelude Bitmap PageAlloc VmArch.
Import PageAlloc VmArch.
#[local] Open Scope Z_scope.

Module ArmVm.

(** [kernel_pgtab] and the words of all tables; a word never written is 0. *)
Record tables := MkTables { kernel_pgtab : Z; words : gmap Z Z }.

Implicit Types (x : tables) (va pte t q : Z).

Definition rdw x (a : Z) : Z := default 0 (words x !! a).
Definition wrw x (a v : Z) : tables := MkTables (kernel_pgtab x) (<[a := v]> (words x)).

(** [PAGE_ALLOC_ZERO] on a frame that becomes a table. *)
Definition zero_frame x q : tables :=
  MkTables (kernel_pgtab x) (filter (λ kv : Z * Z, ¬ (q * PAGE_SIZE ≤ kv.1 < q * PAGE_SIZE + PAGE_SIZE)) (words x)).

Definition L1_IDX va : Z := Z.land (Z.shiftr va 20) 0xFFF.
Definition L2_IDX va : Z := Z.land (Z.shiftr va 12) 0xFF.
Definition L2_NR_ENTRIES : Z := 256.
Definition L2_TABLES_PER_PAGE : Z := 2.
Definition L2_TABLE_SIZE : Z := L2_NR_ENTRIES * 4.

Definition pte_ext pte : Z := pte + 4 * (L2_NR_ENTRIES * L2_TABLES_PER_PAGE).

Definition L2_DESC_TYPE_SM : Z := 2.
Definition pte_valid pte x : bool := Z.land (rdw x pte) L2_DESC_TYPE_SM =? L2_DESC_TYPE_SM.
Definition pte_addr pte x : Z := Z.ldiff (rdw x pte) 0xFFF.
Definition pte_flags pte x : Z := rdw x (pte_ext pte).

Definition prot_to_ap (i : Z) : Z :=
  match i with 1 => 0x21 | 2 => 0x01 | 3 => 0x01 | 17 => 0x02 | 18 => 0x03 | 19 => 0x03 | _ => 0 end.

Definition has (flags f : Z) : bool := negb (Z.land flags f =? 0).

Definition pte_bits (flags : Z) : Z :=
  let bits := Z.shiftl (prot_to_ap (Z.land flags (Z.lor VM_WRITE (Z.lor VM_READ VM_USER)))) 4 in
  let bits := if has flags VM_USER && negb (has flags VM_EXEC) then Z.lor bits 1 else bits in
  if negb (has flags VM_NOCACHE) then Z.lor bits (Z.lor 4 8) else bits.
Definition pte_set pte (pa flags : Z) x : tables :=
  wrw (wrw x pte (Z.lor (Z.lor pa (pte_bits flags)) L2_DESC_TYPE_SM)) (pte_ext pte) flags.
Definition pte_clear pte x : tables := wrw (wrw x pte 0) (pte_ext pte) 0.

Definition L1_DESC_TYPE_MASK : Z := 3.
Definition L1_DESC_TYPE_FAULT : Z := 0.
Definition L1_DESC_TYPE_TABLE : Z := 1.

(** The second half of the lookup, from the first-level entry. *)
Definition second_level x t va : Z := Z.ldiff (rdw x (t + 4 * L1_IDX va)) 0x3FF + 4 * L2_IDX va.

Definition lookup t va (alloc : bool) x (st : pstate) : outcome (option Z * tables * pstate) :=
  if (VIRT_KERNEL_BASE <=? va) && negb (t =? kernel_pgtab x) then Panic "user va must be below VIRT_KERNEL_BASE" else
  if (va <? VIRT_KERNEL_BASE) && (t =? kernel_pgtab x) then Panic "kernel va must be above VIRT_KERNEL_BASE" else
  let type := Z.land (rdw x (t + 4 * L1_IDX va)) L1_DESC_TYPE_MASK in
  if type =? L1_DESC_TYPE_FAULT then
    if negb alloc then Ok (None, x, st) else
    '(page, st) ← page_alloc_block st 0 PAGE_ALLOC_ZERO PAGE_TAG_PGTAB;
    let x := zero_frame x page in
    st ← page_inc_ref st page;
    pa ← page2pa st page;
    let i := Z.ldiff (L1_IDX va) 1 in
    let x := wrw x (t + 4 * i) (Z.lor pa L1_DESC_TYPE_TABLE) in
    let x := wrw x (t + 4 * (i + 1)) (Z.lor (pa + L2_TABLE_SIZE) L1_DESC_TYPE_TABLE) in
    Ok (Some (second_level x t va), x, st)
  else if negb (type =? L1_DESC_TYPE_TABLE) then Panic "not a page table"
  else Ok (Some (second_level x t va), x, st).

Definition PGTAB_ORDER : nat := 1.

Definition arch_vm_create x (st : pstate) : outcome (Z * tables * pstate) :=
  '(page, st) ← page_alloc_block st PGTAB_ORDER PAGE_ALLOC_ZERO PAGE_TAG_VM;
  let x := zero_frame (zero_frame x page) (page + 1) in
  st ← page_inc_ref st page;
  pa ← page2pa st page;
  Ok (pa, x, st).

(** Some entry of the two second-level tables at [pt] is valid. *)
Definition pte_in_use x (pt : Z) : bool :=
  existsb (λ j, pte_valid (pt + 4 * Z.of_nat j) x) (seq 0 (Z.to_nat (L2_NR_ENTRIES * L2_TABLES_PER_PAGE))).

Fixpoint destroy_loop (n : nat) t (i : Z) x (st : pstate) : outcome pstate :=
  match n with
  | O => Ok st
  | S n =>
      if rdw x (t + 4 * i) =? 0 then destroy_loop n t (i + L2_TABLES_PER_PAGE) x st else
      page ← pa2page st (Z.ldiff (rdw x (t + 4 * i)) 0xFFF);
      pt ← page2pa st page;
      if pte_in_use x pt then Panic "pte still in use" else
      st ← page_dec_ref st page 0;
      destroy_loop n t (i + L2_TABLES_PER_PAGE) x st
  end.

Definition arch_vm_destroy t x (st : pstate) : outcome pstate :=
  st ← destroy_loop (Z.to_nat (L1_IDX VIRT_KERNEL_BASE / L2_TABLES_PER_PAGE)) t 0 x st;
  page ← pa2page st t;
  page_dec_ref st page PGTAB_ORDER.

#[export] Instance arm_vm : ArchVm tables := {|
  arch_vm_lookup := lookup; arch_vm_pte_valid := pte_valid; arch_vm_pte_addr := pte_addr;
  arch_vm_pte_flags := pte_flags; arch_vm_pte_set := pte_set; arch_vm_pte_clear := pte_clear |}.

(** ** Arithmetic of addresses and descriptors *)

Lemma L1_IDX_ok va : 0 ≤ va < VIRT_KERNEL_BASE → L1_IDX va = va / PAGE_SIZE / 256 ∧ 0 ≤ L1_IDX va < 2048.
Proof.
  intros Hva. unfold L1_IDX, VIRT_KERNEL_BASE in *. rewrite Z.shiftr_div_pow2 by lia. change 0xFFF with (Z.ones 12).
  rewrite Z.land_ones by lia. unfold PAGE_SIZE. change (2 ^ 20) with 1048576. change (2 ^ 12) with 4096.
  Z.to_euclidean_division_equations. lia.
Qed.

Lemma L1_pair va : 0 ≤ va < VIRT_KERNEL_BASE → L1_IDX va / 2 = va / PAGE_SIZE / 512.
Proof. intros Hva. destruct (L1_IDX_ok va Hva) as [-> _]. by rewrite (Z.div_div _ 256 2) by lia. Qed.

Lemma L2_IDX_ok va : 0 ≤ va → L2_IDX va = (va / PAGE_SIZE) mod 256.
Proof.
  intros Hva. unfold L2_IDX. rewrite Z.shiftr_div_pow2 by lia. change 0xFF with (Z.ones 8). by rewrite Z.land_ones by lia.
Qed.

Lemma even_part i : 0 ≤ i → Z.ldiff i 1 = 2 * (i / 2).
Proof.
  intros Hi. change 1 with (Z.ones 1). rewrite Z.ldiff_ones_r, Z.shiftl_mul_pow2, Z.shiftr_div_pow2 by lia. change (2 ^ 1) with 2. lia.
Qed.

(** A first-level descriptor for a table at [a]. *)
Lemma tte_ok a : 0 ≤ a → a mod 1024 = 0 →
  Z.lor a L1_DESC_TYPE_TABLE = a + 1 ∧ Z.land (a + 1) L1_DESC_TYPE_MASK = L1_DESC_TYPE_TABLE ∧ Z.ldiff (a + 1) 0x3FF = a.
Proof.
  intros Ha Hm. unfold L1_DESC_TYPE_TABLE, L1_DESC_TYPE_MASK. split; [|split].
  - symmetry. rewrite <- Z.lxor_lor; [apply Z.add_nocarry_lxor|]; change 1 with (Z.ones 1); rewrite Z.land_ones by lia;
      change (2 ^ 1) with 2; Z.to_euclidean_division_equations; lia.
  - change 3 with (Z.ones 2). rewrite Z.land_ones by lia. change (2 ^ 2) with 4. Z.to_euclidean_division_equations. lia.
  - change 0x3FF with (Z.ones 10). rewrite Z.ldiff_ones_r, Z.shiftl_mul_pow2, Z.shiftr_div_pow2 by lia. change (2 ^ 10) with 1024.
    Z.to_euclidean_division_equations. lia.
Qed.

Lemma pte_bits_range flags : 0 ≤ pte_bits flags < 4096.
Proof.
  unfold pte_bits. set (ap := prot_to_ap _).
  assert (Hap : ap = 0x21 ∨ ap = 1 ∨ ap = 2 ∨ ap = 3 ∨ ap = 0) by (subst ap; unfold prot_to_ap; repeat case_match; auto 10).
  destruct (has flags VM_USER && negb (has flags VM_EXEC)), (negb (has flags VM_NOCACHE)), Hap as [->|[->|[->|[->| ->]]]]; vm_compute; split; congruence.
Qed.

Lemma desc_ok q flags : 0 ≤ q → let w := Z.lor (Z.lor (q * PAGE_SIZE) (pte_bits flags)) L2_DESC_TYPE_SM in
  Z.land w L2_DESC_TYPE_SM =? L2_DESC_TYPE_SM = true ∧ Z.ldiff w 0xFFF = q * PAGE_SIZE.
Proof.
  intros Hq w. pose proof (pte_bits_range flags) as Hb. unfold L2_DESC_TYPE_SM in *. split.
  - change 2 with (2 ^ 1). rewrite land_bit_1 by lia. subst w. by rewrite Z.lor_spec, orb_true_r.
  - change 0xFFF with (Z.ones 12). rewrite Z.ldiff_ones_r by lia. subst w. rewrite !Z.shiftr_lor. change (Z.shiftr 2 12) with 0.
    rewrite (Z.shiftr_div_pow2 (pte_bits flags)), Z.div_small by (change (2 ^ 12) with 4096; lia). rewrite !Z.lor_0_r.
    rewrite Z.shiftr_div_pow2, Z.shiftl_mul_pow2 by lia. change (2 ^ 12) with PAGE_SIZE. by rewrite Z.div_mul.
Qed.

Lemma rdw_wrw x a v b : rdw (wrw x a v) b = if decide (b = a) then v else rdw x b.
Proof. unfold rdw, wrw. simpl. case_decide as E; [subst; by rewrite lookup_insert_eq|by rewrite lookup_insert_ne]. Qed.

Lemma rdw_zero x q b : rdw (zero_frame x q) b = if decide (q * PAGE_SIZE ≤ b < q * PAGE_SIZE + PAGE_SIZE) then 0 else rdw x b.
Proof.
  unfold rdw, zero_frame. simpl. case_decide as E.
  - rewrite (proj2 (map_lookup_filter_None _ _ _)); [done|]. right. intros v _ Hn. by apply Hn.
  - destruct (words x !! b) as [v|] eqn:Hb; [rewrite (map_lookup_filter_Some_2 _ _ _ _ Hb E); done|].
    by rewrite (proj2 (map_lookup_filter_None _ _ _)) by (by left).
Qed.

(** ** The tables as a map

    [l2] gives the frame of second-level tables for each pair of first-level
    entries. *)

Record rep (tabs : gset Z) (l2 : gmap (Z * Z) Z) x (st : pstate) : Prop := {
  r_kernel : kernel_pgtab x mod PAGE_SIZE = 0 ∧ live st (kernel_pgtab x / PAGE_SIZE) 1 PAGE_TAG_KERNEL_VM;
  r_tab t : t ∈ tabs → t mod (2 * PAGE_SIZE) = 0 ∧
    live st (t / PAGE_SIZE) 1 PAGE_TAG_VM ∧ live st (t / PAGE_SIZE + 1) 0 PAGE_TAG_VM;
  r_l2 k q : l2 !! k = Some q → k.1 ∈ tabs ∧ 0 ≤ k.2 < 1024 ∧ live st q 1 PAGE_TAG_PGTAB;
  r_inj k k' q : l2 !! k = Some q → l2 !! k' = Some q → k = k';
  r_tte t i : t ∈ tabs → 0 ≤ i < 2048 →
    rdw x (t + 4 * i) = match l2 !! (t, i / 2) with None => 0 | Some q => q * PAGE_SIZE + 1024 * (i mod 2) + 1 end }.

(** The entry of page [v] of table [t]. *)
Definition ptes (l2 : gmap (Z * Z) Z) (k : Z * Z) : option Z :=
  if decide (0 ≤ k.2 < VIRT_KERNEL_BASE / PAGE_SIZE)
  then (λ q, q * PAGE_SIZE + 4 * (k.2 mod 512)) <$> l2 !! (k.1, k.2 / 512) else None.

Section rep.
Context (tabs : gset Z).

Lemma pte_frame l2 k p : ptes l2 k = Some p → ∃ q j, p = q * PAGE_SIZE + 4 * j ∧ 0 ≤ j < 512 ∧ j = k.2 mod 512 ∧
  l2 !! (k.1, k.2 / 512) = Some q ∧ 0 ≤ k.2 < VIRT_KERNEL_BASE / PAGE_SIZE.
Proof.
  unfold ptes. case_decide as Hr; [|done]. destruct (l2 !! (k.1, k.2 / 512)) as [q|] eqn:E; [|done]. intros [= <-].
  exists q, (k.2 mod 512). pose proof (Z.mod_pos_bound k.2 512 ltac:(done)). done.
Qed.

Lemma ptes_inj l2 x st k k' p : rep tabs l2 x st → ptes l2 k = Some p → ptes l2 k' = Some p → k = k'.
Proof.
  intros R (q & j & Ep & Hj & Ej & Hq & Hr)%pte_frame (q' & j' & Ep' & Hj' & Ej' & Hq' & Hr')%pte_frame.
  assert (q = q' ∧ j = j') as [-> ->] by (unfold PAGE_SIZE in *; lia).
  pose proof (r_inj _ _ _ _ R _ _ _ Hq Hq') as E. destruct k as [t v], k' as [t' v']. simpl in *. injection E as -> E. f_equal.
  Z.to_euclidean_division_equations. lia.
Qed.

(** A frame that is not one of a first-level table holds no first-level entry. *)
Lemma tte_frame l2 x st t i q a :
  rep tabs l2 x st → t ∈ tabs → 0 ≤ i < 2048 → (∀ r, ¬ live st q r PAGE_TAG_VM) → q * PAGE_SIZE ≤ a < q * PAGE_SIZE + PAGE_SIZE → t + 4 * i ≠ a.
Proof.
  intros R Ht Hi Hq Ha <-. destruct (r_tab _ _ _ _ R t Ht) as (Hm & Hl & Hl').
  assert (q = t / PAGE_SIZE ∨ q = t / PAGE_SIZE + 1) as [-> | ->] by (unfold PAGE_SIZE in *; Z.to_euclidean_division_equations; lia); by eapply Hq.
Qed.

Lemma pgtab_no_vm st q r : live st q r PAGE_TAG_PGTAB → ∀ r', ¬ live st q r' PAGE_TAG_VM.
Proof. intros H r' H'. by destruct (live_unique _ _ _ _ _ _ H H'). Qed.

Lemma tab_user l2 x st t : rep tabs l2 x st → t ∈ tabs → t ≠ kernel_pgtab x.
Proof.
  intros R Ht ->. destruct (r_tab _ _ _ _ R _ Ht) as (_ & H1 & _). by destruct (live_unique _ _ _ _ _ _ H1 (proj2 (r_kernel _ _ _ _ R))).
Qed.

(** First-level tables do not overlap. *)
Lemma tab_disj l2 x st t t' : rep tabs l2 x st → t ∈ tabs → t' ∈ tabs → t' = t ∨ t' + 8192 ≤ t ∨ t + 8192 ≤ t'.
Proof.
  intros R [Ht _]%(r_tab _ _ _ _ R) [Ht' _]%(r_tab _ _ _ _ R). unfold PAGE_SIZE in *. Z.to_euclidean_division_equations. lia.
Qed.

Lemma rep_words l2 x x' st :
  rep tabs l2 x st → kernel_pgtab x' = kernel_pgtab x →
  (∀ t i, t ∈ tabs → 0 ≤ i < 2048 → rdw x' (t + 4 * i) = rdw x (t + 4 * i)) → rep tabs l2 x' st.
Proof.
  intros [H1 H2 H3 H4 H5] Hk Hw. split; try done; [by rewrite Hk|].
  intros t i Ht Hi. rewrite Hw by done. by apply H5.
Qed.

Lemma rep_frames l2 x st st' :
  rep tabs l2 x st → (∀ p r tag, tag ≠ PAGE_TAG_ANON → live st p r tag → live st' p r tag) → rep tabs l2 x st'.
Proof.
  intros [[H0 H0'] H2 H3 H4 H5] Hs. split; [|intros t Ht|intros k q Hk| |]; try done.
  - split; [done|by apply Hs].
  - destruct (H2 t Ht) as (? & ? & ?). split; [done|]. split; by apply Hs.
  - destruct (H3 k q Hk) as (? & ? & ?). split; [done|]. split; [done|by apply Hs].
Qed.

(** A store to an entry, or to its flags, is seen by that entry only. *)
Lemma pte_store l2 x st k p v fl :
  rep tabs l2 x st → ptes l2 k = Some p →
  let x' := wrw (wrw x p v) (pte_ext p) fl in
  rep tabs l2 x' st ∧ rdw x' p = v ∧ rdw x' (pte_ext p) = fl ∧
  ∀ k' p', ptes l2 k' = Some p' → p' ≠ p → pt_entry x' p' = pt_entry x p'.
Proof.
  intros R Hp x'. destruct (pte_frame _ _ _ Hp) as (q & j & Ep & Hj & _ & Hq & _).
  destruct (r_l2 _ _ _ _ R _ _ Hq) as (_ & _ & Hl). unfold pte_ext, L2_NR_ENTRIES, L2_TABLES_PER_PAGE in *.
  assert (Hw : ∀ a, rdw x' a = if decide (a = p + 4 * (256 * 2)) then fl else if decide (a = p) then v else rdw x a)
    by (intros a; subst x'; by rewrite !rdw_wrw).
  split; [|split; [|split]].
  - apply (rep_words l2 x); [done|done|]. intros t i Ht Hi. rewrite Hw.
    rewrite !decide_False; [done|..]; apply (tte_frame l2 x st t i q _ R Ht Hi (pgtab_no_vm _ _ _ Hl)); unfold PAGE_SIZE in *; lia.
  - rewrite Hw, decide_False by lia. by rewrite decide_True.
  - by rewrite Hw, decide_True by lia.
  - intros k' p' Hp' Hne. destruct (pte_frame _ _ _ Hp') as (q' & j' & Ep' & Hj' & _).
    unfold pt_entry. simpl. unfold pte_valid, pte_addr, pte_flags, pte_ext, L2_NR_ENTRIES, L2_TABLES_PER_PAGE. rewrite !Hw.
    rewrite !(decide_False (P := p' = _)) by (unfold PAGE_SIZE in *; lia). rewrite !(decide_False (P := p' + _ = _)) by (unfold PAGE_SIZE in *; lia). done.
Qed.

(** ** Lookup *)

Lemma second_level_ok l2 x st t va q :
  rep tabs l2 x st → t ∈ tabs → 0 ≤ va < VIRT_KERNEL_BASE → l2 !! (t, va / PAGE_SIZE / 512) = Some q →
  rdw x (t + 4 * L1_IDX va) = q * PAGE_SIZE + 1024 * (L1_IDX va mod 2) + 1 ∧
  second_level x t va = q * PAGE_SIZE + 4 * ((va / PAGE_SIZE) mod 512).
Proof.
  intros R Ht Hva Hq. destruct (L1_IDX_ok va Hva) as [E1 Hi]. destruct (r_l2 _ _ _ _ R _ _ Hq) as (_ & _ & (Hq0 & _) & _).
  assert (E : rdw x (t + 4 * L1_IDX va) = q * PAGE_SIZE + 1024 * (L1_IDX va mod 2) + 1).
  { rewrite (r_tte _ _ _ _ R t) by done. by rewrite L1_pair, Hq. }
  split; [done|]. unfold second_level. rewrite E.
  destruct (tte_ok (q * PAGE_SIZE + 1024 * (L1_IDX va mod 2))) as (_ & _ & ->); [unfold PAGE_SIZE in *; Z.to_euclidean_division_equations; lia..|].
  rewrite L2_IDX_ok, E1 by lia. generalize (va / PAGE_SIZE). intros v. Z.to_euclidean_division_equations. lia.
Qed.

Lemma ptes_user l2 t va : 0 ≤ va < VIRT_KERNEL_BASE →
  ptes l2 (t, va / PAGE_SIZE) = (λ q, q * PAGE_SIZE + 4 * ((va / PAGE_SIZE) mod 512)) <$> l2 !! (t, va / PAGE_SIZE / 512).
Proof.
  intros Hva. unfold ptes. simpl. rewrite decide_True; [done|]. unfold VIRT_KERNEL_BASE, PAGE_SIZE in *. Z.to_euclidean_division_equations. lia.
Qed.

Lemma user_table l2 x st t va : rep tabs l2 x st → t ∈ tabs → 0 ≤ va < VIRT_KERNEL_BASE →
  (VIRT_KERNEL_BASE <=? va) && negb (t =? kernel_pgtab x) = false ∧ (va <? VIRT_KERNEL_BASE) && (t =? kernel_pgtab x) = false.
Proof.
  intros R Ht Hva. pose proof (tab_user _ _ _ _ R Ht) as Hk.
  rewrite (proj2 (Z.leb_gt _ _)), (proj2 (Z.eqb_neq t _) Hk), andb_false_r by lia. done.
Qed.

Lemma arm_lookup_hit l2 x st t va p alloc :
  rep tabs l2 x st → t ∈ tabs → 0 ≤ va < VIRT_KERNEL_BASE → ptes l2 (t, va / PAGE_SIZE) = Some p → lookup t va alloc x st = Ok (Some p, x, st).
Proof.
  intros R Ht Hva Hp. rewrite ptes_user in Hp by done. destruct (l2 !! (t, va / PAGE_SIZE / 512)) as [q|] eqn:Hq; [|done]. injection Hp as <-.
  destruct (second_level_ok l2 x st t va q R Ht Hva Hq) as [Ew Es]. unfold lookup. destruct (user_table l2 x st t va R Ht Hva) as [-> ->].
  rewrite Ew, Es. destruct (r_l2 _ _ _ _ R _ _ Hq) as (_ & _ & (Hq0 & _) & _).
  destruct (tte_ok (q * PAGE_SIZE + 1024 * (L1_IDX va mod 2))) as (_ & -> & _); [unfold PAGE_SIZE in *; Z.to_euclidean_division_equations; lia..|]. done.
Qed.

Lemma tte_fault l2 x st t va :
  rep tabs l2 x st → t ∈ tabs → 0 ≤ va < VIRT_KERNEL_BASE → l2 !! (t, va / PAGE_SIZE / 512) = None → rdw x (t + 4 * L1_IDX va) = 0.
Proof.
  intros R Ht Hva Hn. destruct (L1_IDX_ok va Hva) as [E1 Hi]. rewrite (r_tte _ _ _ _ R t) by done.
  by rewrite L1_pair, Hn.
Qed.

(** The tables after [lookup] took frame [page] for the pair of entries of [va]. *)
Definition grown x t va page : tables :=
  let i := Z.ldiff (L1_IDX va) 1 in
  wrw (wrw (zero_frame x page) (t + 4 * i) (Z.lor (page * PAGE_SIZE) L1_DESC_TYPE_TABLE))
      (t + 4 * (i + 1)) (Z.lor (page * PAGE_SIZE + L2_TABLE_SIZE) L1_DESC_TYPE_TABLE).

Lemma rdw_grown x t va page a : 0 ≤ va < VIRT_KERNEL_BASE → 0 ≤ page →
  let j := va / PAGE_SIZE / 512 in
  rdw (grown x t va page) a =
    if decide (a = t + 4 * (2 * j + 1)) then page * PAGE_SIZE + 1025 else
    if decide (a = t + 4 * (2 * j)) then page * PAGE_SIZE + 1 else
    if decide (page * PAGE_SIZE ≤ a < page * PAGE_SIZE + PAGE_SIZE) then 0 else rdw x a.
Proof.
  intros Hva Hp j. unfold grown. destruct (L1_IDX_ok va Hva) as [E Hi]. rewrite even_part by lia.
  rewrite L1_pair by done. fold j. rewrite !rdw_wrw, rdw_zero.
  unfold L2_TABLE_SIZE, L2_NR_ENTRIES.
  destruct (tte_ok (page * PAGE_SIZE)) as [-> _]; [unfold PAGE_SIZE; lia|unfold PAGE_SIZE; Z.to_euclidean_division_equations; lia|].
  destruct (tte_ok (page * PAGE_SIZE + 256 * 4)) as [-> _]; [unfold PAGE_SIZE; lia|unfold PAGE_SIZE; Z.to_euclidean_division_equations; lia|].
  by rewrite <- Z.add_assoc.
Qed.

Lemma grown_rep l2 x st st' t va page :
  rep tabs l2 x st → t ∈ tabs → 0 ≤ va < VIRT_KERNEL_BASE → l2 !! (t, va / PAGE_SIZE / 512) = None →
  (∀ r tag, ¬ live st page r tag) → live st' page 1 PAGE_TAG_PGTAB → frame_step st page st' →
  rep tabs (<[(t, va / PAGE_SIZE / 512) := page]> l2) (grown x t va page) st'.
Proof.
  intros R Ht Hva Hn Hnl Hl [_ Hf]. assert (Hp0 : 0 ≤ page) by (destruct Hl; lia).
  assert (Hlive : ∀ q r tag, live st q r tag → live st' q r tag) by (intros q r tag Hq; apply Hf; [intros ->; by apply (Hnl r tag)|done]).
  assert (Hold : ∀ k, l2 !! k ≠ Some page) by (intros k Hk; destruct (r_l2 _ _ _ _ R _ _ Hk) as (_ & _ & Hr); by eapply Hnl).
  split.
  - destruct (r_kernel _ _ _ _ R). eauto.
  - intros t' Ht'. destruct (r_tab _ _ _ _ R t' Ht') as (? & ? & ?). eauto.
  - intros k q. destruct (decide (k = (t, va / PAGE_SIZE / 512))) as [->|Hk].
    + rewrite lookup_insert_eq. intros [= <-]. simpl. split; [done|]. split; [|done].
      unfold VIRT_KERNEL_BASE, PAGE_SIZE in *. Z.to_euclidean_division_equations. lia.
    + rewrite lookup_insert_ne by done. intros Hq. destruct (r_l2 _ _ _ _ R _ _ Hq) as (? & ? & Hr). eauto.
  - intros k k' q. rewrite !lookup_insert_Some.
    intros [[<- <-]|[Hk Hq]] [[<- E]|[Hk' Hq']]; try done; [by destruct (Hold k')|subst; by destruct (Hold k)|by apply (r_inj _ _ _ _ R k k' q)].
  - intros t' i Ht' Hi. rewrite rdw_grown by done. set (j := va / PAGE_SIZE / 512) in *.
    rewrite (decide_False (P := page * PAGE_SIZE ≤ _ < _)) by (intros Ha; by apply (tte_frame l2 x st t' i page _ R Ht' Hi (λ r, Hnl r _) Ha)).
    destruct (decide (t' = t ∧ i / 2 = j)) as [[-> Ej]|Hne].
    + rewrite Ej, lookup_insert_eq. pose proof (Z.div_mod i 2 ltac:(done)). pose proof (Z.mod_pos_bound i 2 ltac:(done)).
      destruct (decide (i mod 2 = 0)) as [E0|E0]; [rewrite decide_False by lia; rewrite decide_True by lia; lia|rewrite decide_True by lia; lia].
    + rewrite lookup_insert_ne by (intros [= E1 E2]; apply Hne; split; congruence). rewrite <- (r_tte _ _ _ _ R t' i Ht' Hi).
      pose proof (tab_disj l2 x st t t' R Ht Ht') as Hd.
      assert (Hj : 0 ≤ j < 1024) by (unfold VIRT_KERNEL_BASE, PAGE_SIZE in *; subst j; Z.to_euclidean_division_equations; lia).
      rewrite !decide_False; [done|..]; intros E; apply Hne; (assert (t' = t) by lia); subst; split; try done; Z.to_euclidean_division_equations; lia.
Qed.

Lemma grown_entry l2 x st t va page k p :
  rep tabs l2 x st → t ∈ tabs → 0 ≤ va < VIRT_KERNEL_BASE → 0 ≤ page → l2 !! (t, va / PAGE_SIZE / 512) = None →
  (∀ r tag, ¬ live st page r tag) → ptes (<[(t, va / PAGE_SIZE / 512) := page]> l2) k = Some p →
  pt_entry (grown x t va page) p = match ptes l2 k with Some _ => pt_entry x p | None => None end.
Proof.
  intros R Ht Hva Hp0 Hn Hnl Hp. destruct (pte_frame _ _ _ Hp) as (q & i & -> & Hi & Ei & Hq & Hk).
  assert (Hj : 0 ≤ va / PAGE_SIZE / 512 < 1024) by (unfold VIRT_KERNEL_BASE, PAGE_SIZE in *; Z.to_euclidean_division_equations; lia).
  assert (Hnv : ∀ r, ¬ live st q r PAGE_TAG_VM).
  { apply lookup_insert_Some in Hq as [[_ <-]|[_ Hq]]; [intros r; apply Hnl|]. destruct (r_l2 _ _ _ _ R _ _ Hq) as (_ & _ & Hr). by apply (pgtab_no_vm st q 1). }
  assert (Hw : ∀ a, q * PAGE_SIZE ≤ a < q * PAGE_SIZE + PAGE_SIZE → rdw (grown x t va page) a = if decide (q = page) then 0 else rdw x a).
  { intros a Ha. rewrite rdw_grown by done. pose proof (λ i Hi, tte_frame l2 x st t i q a R Ht Hi Hnv Ha) as Hne.
    rewrite !(decide_False (P := a = _)) by (intros ->; eapply Hne; [|done]; lia).
    destruct (decide (q = page)) as [->|Hqp]; [by rewrite decide_True|]. rewrite decide_False; [done|]. unfold PAGE_SIZE in *. lia. }
  unfold pt_entry. simpl. unfold pte_valid, pte_addr, pte_flags, pte_ext, L2_NR_ENTRIES, L2_TABLES_PER_PAGE. rewrite !Hw by (unfold PAGE_SIZE; lia).
  apply lookup_insert_Some in Hq as [[Ek <-]|[Hne Hq]].
  - rewrite !decide_True by done. unfold ptes. rewrite decide_True by done. by rewrite <- Ek, Hn.
  - rewrite !decide_False by (intros ->; destruct (r_l2 _ _ _ _ R _ _ Hq) as (_ & _ & Hr); by eapply Hnl).
    unfold ptes. rewrite decide_True by done. by rewrite Hq.
Qed.

Lemma arm_lookup_grow l2 x st t va :
  rep tabs l2 x st → wf st → t ∈ tabs → 0 ≤ va < VIRT_KERNEL_BASE → ptes l2 (t, va / PAGE_SIZE) = None →
  match lookup t va true x st with
  | Panic w => w = "out of memory"%string
  | Ok (o, x', st') => ∃ p l2' q, o = Some p ∧ ptes l2' (t, va / PAGE_SIZE) = Some p ∧
      (∀ k p, ptes l2 k = Some p → ptes l2' k = Some p) ∧ rep tabs l2' x' st' ∧ wf st' ∧
      (∀ k p', ptes l2' k = Some p' → pt_entry x' p' = match ptes l2 k with Some _ => pt_entry x p' | None => None end) ∧
      (∀ r tag, ¬ live st q r tag) ∧ (∀ r tag, live st' q r tag → tag ≠ PAGE_TAG_ANON) ∧ frame_step st q st'
  end.
Proof.
  intros R Hw Ht Hva Hn. rewrite ptes_user in Hn by done. apply fmap_None in Hn.
  unfold lookup. destruct (user_table l2 x st t va R Ht Hva) as [-> ->]. rewrite (tte_fault l2 x st t va R Ht Hva Hn). cbn [Z.land Z.eqb L1_DESC_TYPE_FAULT negb].
  pose proof (page_alloc_one_ok st PAGE_ALLOC_ZERO PAGE_TAG_PGTAB Hw) as Ha.
  destruct (page_alloc_block st 0 PAGE_ALLOC_ZERO PAGE_TAG_PGTAB) as [[page st1]|w]; [|exact Ha]. destruct Ha as (Hw1 & Hl1 & Hnl & Hs1).
  cbn [mbind outcome_bind]. destruct (add_ref_live 1 st1 page 0 PAGE_TAG_PGTAB Hw1 Hl1) as (st2 & E2 & Hw2 & Hl2 & Hs2).
  unfold page_inc_ref. rewrite E2. cbn [mbind outcome_bind]. assert (Hp := proj1 Hl2). rewrite page2pa_ok by done. cbn [mbind outcome_bind].
  fold (grown x t va page). pose proof (frame_step_trans _ _ _ _ Hs1 Hs2) as Hs.
  pose proof (grown_rep l2 x st st2 t va page R Ht Hva Hn Hnl Hl2 Hs) as R'.
  destruct (second_level_ok _ _ _ _ va page R' Ht Hva ltac:(by rewrite lookup_insert_eq)) as [_ ->].
  exists (page * PAGE_SIZE + 4 * ((va / PAGE_SIZE) mod 512)), (<[(t, va / PAGE_SIZE / 512) := page]> l2), page. split; [done|].
  split; [by rewrite ptes_user, lookup_insert_eq|]. split; [|split; [done|split; [done|]]].
  - intros k p. unfold ptes. case_decide; [|done]. destruct (decide ((k.1, k.2 / 512) = (t, va / PAGE_SIZE / 512))) as [E|E]; [by rewrite E, Hn|].
    by rewrite lookup_insert_ne.
  - split; [intros k p' Hp'; apply (grown_entry l2 x st t va page k p'); [done..|lia|done|done|done]|]. split; [done|]. split; [|done].
    intros r tag Hl. by destruct (live_unique _ _ _ _ _ _ Hl2 Hl) as [_ <-].
Qed.

Lemma arm_pte_set l2 x st k p q flags :
  rep tabs l2 x st → ptes l2 k = Some p → 0 ≤ q →
  let x' := pte_set p (q * PAGE_SIZE) flags x in
  rep tabs l2 x' st ∧ pt_entry x' p = Some (q * PAGE_SIZE, flags) ∧
  ∀ k' p', ptes l2 k' = Some p' → p' ≠ p → pt_entry x' p' = pt_entry x p'.
Proof.
  intros R Hp Hq x'. destruct (pte_store l2 x st k p (Z.lor (Z.lor (q * PAGE_SIZE) (pte_bits flags)) L2_DESC_TYPE_SM) flags R Hp) as (R' & E1 & E2 & Ho). split; [exact R'|]. split; [|exact Ho].
  destruct (desc_ok q flags Hq) as [H1 H2]. unfold pt_entry. simpl. unfold pte_valid, pte_addr, pte_flags.
  unfold x', pte_set in *. rewrite E1, E2, H1, H2. done.
Qed.

Lemma arm_pte_clear l2 x st k p :
  rep tabs l2 x st → ptes l2 k = Some p →
  let x' := pte_clear p x in
  rep tabs l2 x' st ∧ pt_entry x' p = None ∧ ∀ k' p', ptes l2 k' = Some p' → p' ≠ p → pt_entry x' p' = pt_entry x p'.
Proof.
  intros R Hp x'. destruct (pte_store l2 x st k p 0 0 R Hp) as (R' & E1 & E2 & Ho). split; [exact R'|]. split; [|exact Ho].
  unfold pt_entry. simpl. unfold pte_valid. unfold x', pte_clear in *. by rewrite E1.
Qed.

End rep.

(** The tables of ARM keep the laws of page tables. *)
#[export] Program Instance arm_laws : ArchLaws tables := {|
  pt_rep tabs P x st := ∃ l2, rep tabs l2 x st ∧ ∀ k, P k = ptes l2 k |}.
Next Obligation.
  intros tabs P x st t v p (l2 & R & HP) Hp. rewrite HP in Hp. destruct (pte_frame _ _ _ Hp) as (q & j & _ & _ & _ & Hq & Hr).
  split; [by apply (r_l2 _ _ _ _ R _ _ Hq)|done].
Qed.
Next Obligation. intros tabs P x st k k' p (l2 & R & HP). rewrite !HP. by apply (ptes_inj tabs l2 x st). Qed.
Next Obligation. intros tabs P x st st' (l2 & R & HP) _ Hs. exists l2. split; [by apply (rep_frames tabs l2 x st)|done]. Qed.
Next Obligation.
  intros tabs P x st t va alloc (l2 & R & HP) Ht Hva. simpl. unfold lookup. pose proof (tab_user _ _ _ _ _ R Ht) as Hk.
  by rewrite (proj2 (Z.leb_le _ _) Hva), (proj2 (Z.eqb_neq t _) Hk).
Qed.
Next Obligation. intros tabs P x st t va p alloc (l2 & R & HP) Ht Hva. rewrite HP. by apply (arm_lookup_hit tabs). Qed.
Next Obligation.
  intros tabs P x st t va (l2 & R & HP) Ht Hva. rewrite HP, ptes_user by done. intros Hn%fmap_None. simpl. unfold lookup.
  destruct (user_table tabs l2 x st t va R Ht Hva) as [-> ->]. by rewrite (tte_fault tabs l2 x st t va R Ht Hva Hn).
Qed.
Next Obligation.
  intros tabs P x st t va (l2 & R & HP) Hw Ht Hva. rewrite HP. intros Hn. pose proof (arm_lookup_grow tabs l2 x st t va R Hw Ht Hva Hn) as H.
  simpl. destruct (lookup t va true x st) as [[[o x'] st']|w]; [|done]. destruct H as (p & l2' & q & H1 & H2 & H3 & H4 & H5 & H6 & H7).
  exists p, (ptes l2'), q. split; [done|]. split; [done|]. split; [intros k p'; rewrite HP; apply H3|]. split; [by exists l2'|].
  split; [done|]. split; [|done]. intros k p'. rewrite HP. apply H6.
Qed.
Next Obligation.
  intros tabs P x st k p q flags (l2 & R & HP) Hp Hq _ x'. rewrite HP in Hp. destruct (arm_pte_set tabs l2 x st k p q flags R Hp ltac:(lia)) as (R' & E & Ho).
  split; [by exists l2|]. split; [done|]. intros k' p'. rewrite HP. apply Ho.
Qed.
Next Obligation.
  intros tabs P x st k p (l2 & R & HP) Hp x'. rewrite HP in Hp. destruct (arm_pte_clear tabs l2 x st k p R Hp) as (R' & E & Ho).
  split; [by exists l2|]. split; [done|]. intros k' p'. rewrite HP. apply Ho.
Qed.

(** ** Creation and destruction *)

(** The tables after a block at frame [p], which held nothing, was cleared for a
    new table. *)
Lemma rdw_zero_block x p a :
  rdw (zero_frame (zero_frame x p) (p + 1)) a = if decide (p * PAGE_SIZE ≤ a < (p + 2) * PAGE_SIZE) then 0 else rdw x a.
Proof. rewrite !rdw_zero. repeat case_decide; try done; unfold PAGE_SIZE in *; lia. Qed.

Lemma create_entry tabs l2 x st p k a :
  rep tabs l2 x st → (∀ i r tag, p ≤ i < p + 2 → ¬ live st i r tag) → ptes l2 k = Some a →
  pt_entry (zero_frame (zero_frame x p) (p + 1)) a = pt_entry x a.
Proof.
  intros R Hnl Ha. destruct (pte_frame _ _ _ Ha) as (q & j & -> & Hj & _ & Hq & _). destruct (r_l2 _ _ _ _ R _ _ Hq) as (_ & _ & Hlq).
  assert (Hnq : ¬ p ≤ q < p + 2) by (intros Hb; by apply (Hnl q 1 PAGE_TAG_PGTAB)). unfold pt_entry. simpl.
  unfold pte_valid, pte_addr, pte_flags, pte_ext, L2_NR_ENTRIES, L2_TABLES_PER_PAGE. rewrite !rdw_zero_block, !decide_False by (unfold PAGE_SIZE; lia). done.
Qed.

Lemma create_table_rep tabs l2 x st st' p :
  rep tabs l2 x st → (∀ i r tag, p ≤ i < p + 2 → ¬ live st i r tag) → p mod 2 = 0 →
  (∀ i r tag, live st i r tag → live st' i r tag) → live st' p 1 PAGE_TAG_VM → live st' (p + 1) 0 PAGE_TAG_VM →
  p * PAGE_SIZE ∉ tabs ∧ rep ({[p * PAGE_SIZE]} ∪ tabs) l2 (zero_frame (zero_frame x p) (p + 1)) st'.
Proof.
  intros R Hnl Hm Hold Hl1 Hl2.
  assert (Hnt : p * PAGE_SIZE ∉ tabs).
  { intros Ht. destruct (r_tab _ _ _ _ R _ Ht) as (_ & Hl & _). rewrite Z.div_mul in Hl by done. eapply (Hnl p); [lia|done]. }
  split; [done|]. split.
  - split; [apply R|apply Hold, R].
  - intros t [->%elem_of_singleton|Ht]%elem_of_union.
    + rewrite Z.div_mul by done. split; [unfold PAGE_SIZE; Z.to_euclidean_division_equations; lia|done].
    + destruct (r_tab _ _ _ _ R t Ht) as (? & ? & ?). eauto.
  - intros k q Hk. destruct (r_l2 _ _ _ _ R k q Hk) as (? & ? & ?). split; [set_solver|]. eauto.
  - apply (r_inj _ _ _ _ R).
  - intros t i [->%elem_of_singleton|Ht]%elem_of_union Hi; rewrite rdw_zero_block.
    + rewrite decide_True by (unfold PAGE_SIZE; lia). destruct (l2 !! (p * PAGE_SIZE, i / 2)) as [q|] eqn:Eq; [|done].
      by destruct (r_l2 _ _ _ _ R _ _ Eq) as (Ht & _).
    + rewrite decide_False; [by apply (r_tte _ _ _ _ R)|]. intros Ha. destruct (decide (t + 4 * i < (p + 1) * PAGE_SIZE)).
      * apply (tte_frame tabs l2 x st t i p (t + 4 * i) R Ht Hi (λ r, Hnl p r _ ltac:(lia)) ltac:(unfold PAGE_SIZE in *; lia) eq_refl).
      * apply (tte_frame tabs l2 x st t i (p + 1) (t + 4 * i) R Ht Hi (λ r, Hnl (p + 1) r _ ltac:(lia)) ltac:(unfold PAGE_SIZE in *; lia) eq_refl).
Qed.

(** A new table is empty, and nothing else changes. *)
Lemma arch_vm_create_ok tabs l2 x st :
  rep tabs l2 x st → wf st →
  match arch_vm_create x st with
  | Panic w => w = "out of memory"%string
  | Ok (t, x', st') => t ∉ tabs ∧ rep ({[t]} ∪ tabs) l2 x' st' ∧ wf st' ∧
      (∀ k p, ptes l2 k = Some p → pt_entry x' p = pt_entry x p) ∧
      (∀ q r tag, tag ≠ PAGE_TAG_VM → live st' q r tag ↔ live st q r tag)
  end.
Proof.
  intros R Hw. unfold arch_vm_create, PGTAB_ORDER. pose proof (page_alloc_cases st 1 PAGE_ALLOC_ZERO PAGE_TAG_VM Hw ltac:(unfold PAGE_ORDER_MAX; lia)) as Ha.
  destruct (page_alloc_block st 1 PAGE_ALLOC_ZERO PAGE_TAG_VM) as [[p st1]|w]; [|exact Ha]. destruct Ha as [Hw1 Hal]. cbn [mbind outcome_bind].
  pose proof (λ i r tag, block_live st p 1 _ st1 i r tag Hal) as Hlv. change (bsize 1) with 2 in Hlv. destruct (al_good _ _ _ _ _ Hal) as (Hp0 & Hpm%aligned_mod & _). change (bsize 1) with 2 in Hpm.
  destruct (add_ref_live 1 st1 p 0 PAGE_TAG_VM Hw1) as (st2 & E2 & Hw2 & Hl2 & Hc2 & Hf2); [apply Hlv; left; split; [lia|done]|].
  unfold page_inc_ref. rewrite E2. cbn [mbind outcome_bind]. rewrite page2pa_ok by apply Hl2. cbn [mbind outcome_bind].
  assert (Hnl : ∀ i r tag, p ≤ i < p + 2 → ¬ live st i r tag).
  { intros i r tag Hi. by apply (block_was_free st p 1 _ st1 i r tag Hal). }
  assert (Hold : ∀ i r tag, live st i r tag → live st2 i r tag).
  { intros i r tag Hi. assert (Hni : ¬ p ≤ i < p + 2) by (intros Hb; by apply (Hnl i r tag)). apply Hf2; [lia|]. apply Hlv. by right. }
  destruct (create_table_rep tabs l2 x st st2 p) as [Hnt R']; try done.
  { apply Hf2; [lia|]. apply Hlv. left. split; [lia|done]. }
  split; [done|]. split; [done|]. split; [done|]. split; [intros k a; by apply (create_entry tabs l2 x st)|].
  intros q r tag Ht. split; [|apply Hold]. intros Hq. destruct (decide (q = p)) as [->|Hne].
  - by destruct (live_unique _ _ _ _ _ _ Hl2 Hq).
  - apply Hf2 in Hq; [|done]. apply Hlv in Hq as [[_ [= _ E]]|[Hq _]]; [by destruct Ht|done].
Qed.

(** Some page of [t] is mapped. *)
Definition mapped (l2 : gmap (Z * Z) Z) x t : Prop := ∃ v p, ptes l2 (t, v) = Some p ∧ pt_entry x p ≠ None.

Lemma pte_in_use_ok x pt : pte_in_use x pt = true ↔ ∃ j, 0 ≤ j < 512 ∧ pt_entry x (pt + 4 * j) ≠ None.
Proof.
  unfold pte_in_use. rewrite existsb_exists. unfold pt_entry. cbn [arch_vm_pte_valid arm_vm]. split.
  - intros (j & Hj%in_seq & Hv). exists (Z.of_nat j). rewrite Hv. split; [change (Z.to_nat _) with 512%nat in Hj; lia|done].
  - intros (j & Hj & Hv). exists (Z.to_nat j). split; [apply in_seq; change (Z.to_nat (_ * _)) with 512%nat; lia|]. rewrite Z2Nat.id by lia.
    by destruct (pte_valid _ x).
Qed.

(** Frames of second-level tables of pairs [0..i) of [t]. *)
Definition l2_frame (l2 : gmap (Z * Z) Z) t (i q : Z) : Prop := ∃ j, 0 ≤ j < i ∧ l2 !! (t, j) = Some q.

Lemma l2_frame_S l2 t i q : 0 ≤ i → l2_frame l2 t (i + 1) q ↔ l2_frame l2 t i q ∨ l2 !! (t, i) = Some q.
Proof.
  intros Hi. split.
  - intros (j & Hj & Hq). destruct (decide (j = i)) as [->|]; [by right|]. left. exists j. split; [lia|done].
  - intros [(j & Hj & Hq)|Hq]; [exists j|exists i]; (split; [lia|done]).
Qed.

Lemma destroy_rep tabs l2 x st st' t :
  rep tabs l2 x st → t ∈ tabs →
  (∀ q r tag, live st' q r tag ↔ live st q r tag ∧ ¬ (t / PAGE_SIZE ≤ q < t / PAGE_SIZE + 2) ∧ ¬ ∃ j, l2 !! (t, j) = Some q) →
  rep (tabs ∖ {[t]}) (filter (λ kv, kv.1.1 ≠ t) l2) x st'.
Proof.
  intros R Ht Hlv. destruct (r_tab _ _ _ _ R t Ht) as (Hm & Hl1 & Hl2).
  assert (Hkeep : ∀ q r tag, tag ≠ PAGE_TAG_VM → live st q r tag → (∀ j, l2 !! (t, j) ≠ Some q) → live st' q r tag).
  { intros q r tag Htag Hq Hn. apply Hlv. split; [done|]. split; [|by intros [j Hj]; apply (Hn j)].
    intros Hb. assert (q = t / PAGE_SIZE ∨ q = t / PAGE_SIZE + 1) as [-> | ->] by lia.
    - by destruct (live_unique _ _ _ _ _ _ Hl1 Hq).
    - by destruct (live_unique _ _ _ _ _ _ Hl2 Hq). }
  split.
  - split; [apply R|]. apply Hkeep; [done|apply R|]. intros j Hj. destruct (r_l2 _ _ _ _ R _ _ Hj) as (_ & _ & Hp).
    by destruct (live_unique _ _ _ _ _ _ Hp (proj2 (r_kernel _ _ _ _ R))).
  - intros t' [Ht' Hne%not_elem_of_singleton]%elem_of_difference. destruct (r_tab _ _ _ _ R t' Ht') as (Hm' & Hl1' & Hl2'). split; [done|].
    rewrite !Hlv. split; (split; [done|]); (split; [unfold PAGE_SIZE in *; Z.to_euclidean_division_equations; lia|]);
      intros [j Hj]; destruct (r_l2 _ _ _ _ R _ _ Hj) as (_ & _ & Hp); [by destruct (live_unique _ _ _ _ _ _ Hp Hl1')|by destruct (live_unique _ _ _ _ _ _ Hp Hl2')].
  - intros [t' i] q [Hk Hne]%map_lookup_filter_Some. simpl in Hne. destruct (r_l2 _ _ _ _ R _ _ Hk) as (Ht' & Hi & Hq). split; [set_solver|]. split; [done|].
    apply Hkeep; [done|done|]. intros j Hj. by pose proof (r_inj _ _ _ _ R _ _ _ Hk Hj) as [= ? ?].
  - intros k k' q [Hk _]%map_lookup_filter_Some [Hk' _]%map_lookup_filter_Some. by apply (r_inj _ _ _ _ R k k' q).
  - intros t' i [Ht' Hne%not_elem_of_singleton]%elem_of_difference Hi. rewrite (r_tte _ _ _ _ R) by done.
    rewrite map_lookup_filter. destruct (l2 !! (t', i / 2)) as [q|]; [|done]. simpl. by rewrite option_guard_True.
Qed.

Lemma destroy_loop_ok tabs l2 x st0 t :
  rep tabs l2 x st0 → t ∈ tabs → ∀ n i st, i + Z.of_nat n = 1024 → 0 ≤ i → wf st →
  (∀ q r tag, live st q r tag ↔ live st0 q r tag ∧ ¬ l2_frame l2 t i q) →
  match destroy_loop n t (2 * i) x st with
  | Ok st' => wf st' ∧ (∀ q r tag, live st' q r tag ↔ live st0 q r tag ∧ ¬ l2_frame l2 t 1024 q) ∧
      ∀ j q, i ≤ j → l2 !! (t, j) = Some q → pte_in_use x (q * PAGE_SIZE) = false
  | Panic w => w = "pte still in use"%string ∧ ∃ j q, l2 !! (t, j) = Some q ∧ pte_in_use x (q * PAGE_SIZE) = true
  end.
Proof.
  intros R Ht. induction n as [|n IH]; intros i st Hn Hi Hw Hlv; cbn [destroy_loop].
  { replace i with 1024 in * by lia. split; [done|]. split; [done|]. intros j q Hj Hq. destruct (r_l2 _ _ _ _ R _ _ Hq) as (_ & Hb & _). simpl in Hb. lia. }
  unfold L2_TABLES_PER_PAGE. replace (2 * i + 2) with (2 * (i + 1)) by lia. rewrite (r_tte _ _ _ _ R) by (done || lia).
  rewrite (Z.mul_comm 2 i), Z.div_mul, Z.mod_mul by done. destruct (l2 !! (t, i)) as [q|] eqn:Hq.
  - destruct (r_l2 _ _ _ _ R _ _ Hq) as (_ & _ & Hl0). assert (Hl : live st q 1 PAGE_TAG_PGTAB).
    { apply Hlv. split; [done|]. intros (j & Hj & Hqj). pose proof (r_inj _ _ _ _ R _ _ _ Hq Hqj) as [= ?]. lia. }
    pose proof (proj1 Hl) as Hb. rewrite (proj2 (Z.eqb_neq _ 0)) by (unfold PAGE_SIZE; lia).
    replace (Z.ldiff _ 0xFFF) with (q * PAGE_SIZE).
    2:{ change 0xFFF with (Z.ones 12). rewrite Z.ldiff_ones_r, Z.shiftl_mul_pow2, Z.shiftr_div_pow2 by lia. change (2 ^ 12) with 4096. unfold PAGE_SIZE.
        Z.to_euclidean_division_equations. lia. }
    rewrite pa2page_ok by done. cbn [mbind outcome_bind]. rewrite page2pa_ok by done. cbn [mbind outcome_bind].
    destruct (pte_in_use x (q * PAGE_SIZE)) eqn:Hu; [split; [done|]; by exists i, q|].
    destruct (page_dec_ref_ok st q 1 PAGE_TAG_PGTAB Hw Hl) as (st1 & -> & Hw1 & [Hc1 Hf1] & Hn1). rewrite decide_True in Hn1 by done. cbn [mbind outcome_bind].
    assert (Hlv1 : ∀ q' r tag, live st1 q' r tag ↔ live st0 q' r tag ∧ ¬ l2_frame l2 t (i + 1) q').
    { intros q' r tag. rewrite l2_frame_S, Hq by done. destruct (decide (q' = q)) as [->|Hne]; [split; [by intros ?%Hn1|]; intros [_ []]; by right|].
      rewrite Hf1, Hlv by done. split; intros [? Hnf]; (split; [done|]); [intros [?|[= ?]]; done|intros ?; apply Hnf; by left]. }
    specialize (IH (i + 1) st1 ltac:(lia) ltac:(lia) Hw1 Hlv1).
    destruct (destroy_loop n t (2 * (i + 1)) x st1); [|exact IH].
    destruct IH as (H1 & H2 & H3). split; [done|]. split; [done|]. intros j q' Hj Hq'.
    destruct (decide (j = i)) as [->|]; [by simplify_eq|apply (H3 j); [lia|done]].
  - assert (Hlv1 : ∀ q' r tag, live st q' r tag ↔ live st0 q' r tag ∧ ¬ l2_frame l2 t (i + 1) q').
    { intros q' r tag. rewrite l2_frame_S, Hq, Hlv by done. split; intros [? Hnf]; (split; [done|]); [intros [?|?]; done|intros ?; apply Hnf; by left]. }
    specialize (IH (i + 1) st ltac:(lia) ltac:(lia) Hw Hlv1). rewrite Z.eqb_refl.
    destruct (destroy_loop n t (2 * (i + 1)) x st); [|exact IH].
    destruct IH as (H1 & H2 & H3). split; [done|]. split; [done|]. intros j q' Hj Hq'.
    destruct (decide (j = i)) as [->|]; [by simplify_eq|apply (H3 j); [lia|done]].
Qed.

Lemma in_use_mapped tabs l2 x st t j q :
  rep tabs l2 x st → l2 !! (t, j) = Some q → pte_in_use x (q * PAGE_SIZE) = true → mapped l2 x t.
Proof.
  intros R Hq (i & Hi & He)%pte_in_use_ok. destruct (r_l2 _ _ _ _ R _ _ Hq) as (_ & Hj & _). simpl in Hj.
  exists (j * 512 + i), (q * PAGE_SIZE + 4 * i). split; [|done]. unfold ptes. simpl. rewrite decide_True by (unfold VIRT_KERNEL_BASE, PAGE_SIZE; change (_ / _) with 524288; lia).
  rewrite Z.div_add_l, Z.div_small, Z.add_0_r, Hq by lia. simpl. by rewrite (Z.add_comm (j * 512)), Z.mod_add, Z.mod_small by lia.
Qed.

Lemma arch_vm_destroy_ok tabs l2 x st t :
  rep tabs l2 x st → wf st → t ∈ tabs →
  match arch_vm_destroy t x st with
  | Panic w => w = "pte still in use"%string ∧ mapped l2 x t
  | Ok st' => ¬ mapped l2 x t ∧ wf st' ∧
      (∀ q r tag, live st' q r tag ↔ live st q r tag ∧ ¬ (t / PAGE_SIZE ≤ q < t / PAGE_SIZE + 2) ∧ ¬ ∃ j, l2 !! (t, j) = Some q) ∧
      rep (tabs ∖ {[t]}) (filter (λ kv, kv.1.1 ≠ t) l2) x st'
  end.
Proof.
  intros R Hw Ht. unfold arch_vm_destroy, PGTAB_ORDER. destruct (r_tab _ _ _ _ R t Ht) as (Hm & Hl1 & Hl2).
  change (Z.to_nat (L1_IDX VIRT_KERNEL_BASE / L2_TABLES_PER_PAGE)) with 1024%nat.
  assert (Hlv : ∀ q r tag, live st q r tag ↔ live st q r tag ∧ ¬ l2_frame l2 t 0 q) by (intros; split; [intros ?; split; [done|]; intros (j & ? & _); lia|by intros [? _]]).
  pose proof (destroy_loop_ok tabs l2 x st t R Ht 1024 0 st eq_refl ltac:(lia) Hw Hlv) as Hd. change (2 * 0) with 0 in Hd.
  destruct (destroy_loop 1024 t 0 x st) as [st1|w]; cbn [mbind outcome_bind].
  2:{ destruct Hd as (-> & j & q & Hq & Hu). split; [done|]. by apply (in_use_mapped tabs l2 x st t j q). }
  destruct Hd as (Hw1 & Hlv1 & Hclear).
  assert (Hvm : ∀ q r, live st q r PAGE_TAG_VM → live st1 q r PAGE_TAG_VM).
  { intros q r Hq. apply Hlv1. split; [done|]. intros (j & _ & Hj). destruct (r_l2 _ _ _ _ R _ _ Hj) as (_ & _ & Hp). by destruct (live_unique _ _ _ _ _ _ Hp Hq). }
  assert (Et : t = t / PAGE_SIZE * PAGE_SIZE) by (unfold PAGE_SIZE in *; Z.to_euclidean_division_equations; lia).
  replace (pa2page st1 t) with (Ok (t / PAGE_SIZE)) by (rewrite Et at 2; symmetry; apply pa2page_ok; apply (Hvm _ _ Hl1)). cbn [mbind outcome_bind].
  destruct (free_block_live st1 (t / PAGE_SIZE) 1 PAGE_TAG_VM Hw1) as (st' & -> & Hw' & Hlv'); [unfold PAGE_ORDER_MAX; lia| |by apply Hvm|..].
  { change (bsize 1) with 2. unfold PAGE_SIZE in *. Z.to_euclidean_division_equations. lia. }
  { change (bsize 1) with 2. intros i Hi. replace i with (t / PAGE_SIZE + 1) by lia. by apply Hvm. }
  change (bsize 1) with 2 in Hlv'.
  assert (Hlive : ∀ q r tag, live st' q r tag ↔ live st q r tag ∧ ¬ (t / PAGE_SIZE ≤ q < t / PAGE_SIZE + 2) ∧ ¬ ∃ j, l2 !! (t, j) = Some q).
  { intros q r tag. rewrite Hlv', Hlv1. split.
    - intros [[? Hn] ?]. split; [done|]. split; [done|]. intros [j Hj]. apply Hn. exists j. split; [apply (r_l2 _ _ _ _ R _ _ Hj)|done].
    - intros (? & ? & Hn). split; [|done]. split; [done|]. intros (j & _ & Hj). apply Hn. by exists j. }
  split; [|split; [done|split; [done|by apply (destroy_rep tabs l2 x st)]]].
  intros (v & p & Hp & He). destruct (pte_frame _ _ _ Hp) as (q & j & -> & Hj & _ & Hq & Hv). simpl in *.
  assert (Hu : pte_in_use x (q * PAGE_SIZE) = true) by (apply pte_in_use_ok; eauto).
  rewrite (Hclear (v / 512) q) in Hu; [done|apply (r_l2 _ _ _ _ R _ _ Hq)|done].
Qed.

(** [arch_vm_destroy] stops with "pte still in use" exactly when a page of
    the table is still mapped.  Otherwise it gives back the two frames of the
    table and every frame of its second-level tables and no other frame, and
    the tables of the other processes stay as they were. *)
Theorem arch_vm_destroy_spec tabs l2 x st t :
  rep tabs l2 x st → wf st → t ∈ tabs →
  match arch_vm_destroy t x st with
  | Panic w => w = "pte still in use"%string ∧ mapped l2 x t
  | Ok st' => ¬ mapped l2 x t ∧ wf st' ∧
      (∀ q r tag, live st' q r tag ↔ live st q r tag ∧ ¬ (t / PAGE_SIZE ≤ q < t / PAGE_SIZE + 2) ∧ ¬ ∃ j, l2 !! (t, j) = Some q) ∧
      rep (tabs ∖ {[t]}) (filter (λ kv, kv.1.1 ≠ t) l2) x st'
  end.
Proof. apply arch_vm_destroy_ok. Qed.

(** ** The laws of tables *)

#[export] Instance arm_tables : ArchTables tables := {| arch_create := arch_vm_create; arch_destroy := arch_vm_destroy |}.

Lemma ptes_filter l2 t k : ptes (filter (λ kv, kv.1.1 ≠ t) l2) k = if decide (k.1 = t) then None else ptes l2 k.
Proof.
  unfold ptes. case_decide as Hr; [|by case_decide]. rewrite map_lookup_filter. destruct (l2 !! (k.1, k.2 / 512)) as [q|]; [|by case_decide].
  simpl. case_decide; [by rewrite option_guard_False by tauto|by rewrite option_guard_True].
Qed.

#[export] Program Instance arm_tables_laws : ArchTablesLaws tables.
Next Obligation.
  intros tabs P x st (l2 & R & HP) Hw. pose proof (arch_vm_create_ok tabs l2 x st R Hw) as H. simpl.
  destruct (arch_vm_create x st) as [[[t x'] st']|]; [|exact H]. destruct H as (Hn & R' & Hw' & He & Hl).
  split; [done|]. split; [by exists l2|]. split; [done|]. split; [intros k p; rewrite HP; apply He|]. intros q r. by apply Hl.
Qed.
Next Obligation.
  intros tabs P x st t (l2 & R & HP) Hw Ht. pose proof (arch_vm_destroy_ok tabs l2 x st t R Hw Ht) as H. simpl.
  destruct (arch_vm_destroy t x st) as [st'|why].
  - destruct H as (Hn & Hw' & Hl & R'). split; [intros v p Hp; rewrite HP in Hp; destruct (pt_entry x p) eqn:E; [|done]; destruct Hn; exists v, p; by rewrite E|].
    split; [done|]. split; [exists (filter (λ kv, kv.1.1 ≠ t) l2); split; [done|]; intros k; by rewrite ptes_filter, HP|].
    intros q r. rewrite Hl. destruct (r_tab _ _ _ _ R t Ht) as (_ & H1 & H2). split; [by intros [? _]|]. intros Hq. split; [done|]. split.
    + intros Hb. assert (q = t / PAGE_SIZE ∨ q = t / PAGE_SIZE + 1) as [-> | ->] by lia;
        [by destruct (live_unique _ _ _ _ _ _ H1 Hq)|by destruct (live_unique _ _ _ _ _ _ H2 Hq)].
    + intros [j Hj]. destruct (r_l2 _ _ _ _ R _ _ Hj) as (_ & _ & H3). by destruct (live_unique _ _ _ _ _ _ H3 Hq).
  - destruct H as (-> & v & p & Hp & He). split; [done|]. exists v, p. by rewrite HP.
Qed.

End ArmVm.
