(* ===== verification/VmSpace.v ===== *)
(** Address spaces (kernel/process/vmspace.c).

    An address space is a page table and a list of areas, sorted by address.
    Mapping finds the first gap that is large enough and merges the new area
    with its neighbours; cloning copies areas and pages (fork); destroying frees
    the pages of all areas and then the table.  The object pools may refuse an
    allocation, which is an argument.  The lists of areas are those of
    kernel/core/list.h (Klist.v). *)

From S2P Require Import Prelude Bitmap PageAlloc Bytes VmArch Vm.
Import PageAlloc Bytes VmArch Vm.
#[local] Open Scope Z_scope.

Module VmSpace.

Record VMSpaceMapEntry := MkArea { a_start : Z; a_length : Z; a_flags : Z }.
Record VMSpace := MkSpace { pgtab : Z; areas : list VMSpaceMapEntry }.

Definition a_end (a : VMSpaceMapEntry) : Z := a_start a + a_length a.

Section ops.
Context {T : Type} `{!ArchVm T, !ArchTables T}.
Implicit Types (s : vms T) (sp : VMSpace) (a : VMSpaceMapEntry) (l : list VMSpaceMapEntry) (va n : Z).

Definition vm_space_create (pool : bool) s : outcome (option VMSpace * vms T) :=
  if negb pool then Ok (None, s) else
  '(t, x, st) ← arch_create (pt s) (pg s);
  Ok (Some (MkSpace t []), set_pg st (set_pt x s)).

Fixpoint free_areas l s (t : Z) : outcome (vms T) :=
  match l with
  | [] => Ok s
  | a :: l => s ← vm_user_free s t (a_start a) (a_length a); free_areas l s t
  end.

Definition vm_space_destroy sp s : outcome (vms T) :=
  s ← free_areas (areas sp) s (pgtab sp);
  st ← arch_destroy (pgtab sp) (pt s) (pg s);
  Ok (set_pg st s).

(** The areas still to be cloned; [new] has the others.  [pools] says which
    allocations succeed. *)
Fixpoint clone_areas l (pools : list bool) (t : Z) (new : VMSpace) (share : bool) s : outcome (option VMSpace * vms T) :=
  match l with
  | [] => Ok (Some new, s)
  | a :: l =>
      match pools with
      | true :: pools =>
          let new := MkSpace (pgtab new) (areas new ++ [a]) in
          '(r, s) ← vm_user_clone s t (pgtab new) (a_start a) (a_length a) share;
          if r <? 0 then s ← vm_space_destroy new s; Ok (None, s)
          else clone_areas l pools t new share s
      | _ => s ← vm_space_destroy new s; Ok (None, s)
      end
  end.

Definition vm_space_clone sp (share : bool) (pool : bool) (pools : list bool) s : outcome (option VMSpace * vms T) :=
  '(o, s) ← vm_space_create pool s;
  match o with
  | None => Ok (None, s)
  | Some new => clone_areas (areas sp) pools (pgtab sp) new share s
  end.

(** ** Mapping *)

(** The areas before the gap, those after it, and the address of the gap. *)
Fixpoint find_gap l va n (before : list VMSpaceMapEntry) : list VMSpaceMapEntry * list VMSpaceMapEntry * Z :=
  match l with
  | [] => (before, [], va)
  | a :: l' =>
      if u32 (va + n) <=? a_start a then (before, l, va) else
      let va := if va <? u32 (a_end a) then u32 (a_end a) else va in
      find_gap l' va n (before ++ [a])
  end.

(** The area before the gap, without the others, when the new area continues it. *)
Definition merge_prev (before : list VMSpaceMapEntry) va flags : option (list VMSpaceMapEntry * VMSpaceMapEntry) :=
  match rev before with
  | a :: l => if negb (u32 (a_end a) =? va) || negb (a_flags a =? flags) then None else Some (rev l, a)
  | [] => None
  end.

Definition merge_next (after : list VMSpaceMapEntry) (va n flags : Z) : option (VMSpaceMapEntry * list VMSpaceMapEntry) :=
  match after with
  | a :: l => if negb (a_start a =? u32 (va + n)) || negb (a_flags a =? flags) then None else Some (a, l)
  | [] => None
  end.

(** The list with the new area in it; no list when a new entry is needed and the
    pool has none. *)
Definition insert_area (before after : list VMSpaceMapEntry) va n flags (pool : bool) : option (list VMSpaceMapEntry) :=
  match merge_prev before va flags, merge_next after va n flags with
  | Some (l, p), Some (a, r) => Some (l ++ [MkArea (a_start p) (u32 (a_length p + u32 (a_length a + n))) (a_flags p)] ++ r)
  | Some (l, p), None => Some (l ++ [MkArea (a_start p) (u32 (a_length p + n)) (a_flags p)] ++ after)
  | None, Some (a, r) => Some (before ++ [MkArea va (a_length a) (a_flags a)] ++ r)
  | None, None => if pool then Some (before ++ [MkArea va n flags] ++ after) else None
  end.

Definition vmspace_map sp (addr n flags : Z) (pool : bool) s : outcome (Z * VMSpace * vms T) :=
  let va := if addr =? 0 then PAGE_SIZE else round_up_page addr in
  let n := round_up_page n in
  if (VIRT_KERNEL_BASE <=? va) || (VIRT_KERNEL_BASE <? u32 (va + n)) || (u32 (va + n) <=? va) then Ok (- EINVAL, sp, s) else
  let '(before, after, va) := find_gap (areas sp) va n [] in
  if VIRT_KERNEL_BASE <? u32 (va + n) then Ok (- ENOMEM, sp, s) else
  '(r, s) ← vm_user_alloc s (pgtab sp) va n flags;
  if r <? 0 then s ← vm_user_free s (pgtab sp) va n; Ok (r, sp, s) else
  match insert_area before after va n flags pool with
  | Some l => Ok (va, MkSpace (pgtab sp) l, s)
  | None => s ← vm_user_free s (pgtab sp) va n; Ok (- ENOMEM, sp, s)
  end.

(** *** Copies *)

(** [kmem]: the memory of the kernel, by address. *)
Definition mapped_range (kmem : gmap Z Z) va n : bool := bool_decide (Forall (λ x, is_Some (kmem !! x)) (seqZ va n)).

Definition vm_space_copy_out (t : option Z) (src : list Z) (dst_va : Z) (kmem : gmap Z Z) s : outcome (Z * gmap Z Z * vms T) :=
  let n := Z.of_nat (length src) in
  if u32 (dst_va + n) <? dst_va then Ok (- EFAULT, kmem, s) else
  if VIRT_KERNEL_BASE <? dst_va then
    _ ← k_assert (mapped_range kmem dst_va n) "kernel page fault"; Ok (0, list_to_map (zip (seqZ dst_va n) src) ∪ kmem, s)
  else
  t ← deref t "Assertion failed: process != NULL";
  '(r, s) ← vm_copy_out s t src dst_va;
  Ok (r, kmem, s).

Definition vm_space_copy_in (t : option Z) (src_va n : Z) (kmem : gmap Z Z) s : outcome (Z * list Z * vms T) :=
  if u32 (src_va + n) <? src_va then Ok (- EFAULT, [], s) else
  if VIRT_KERNEL_BASE <? src_va then
    l ← deref (mapM (λ x : Z, kmem !! x) (seqZ src_va n)) "kernel page fault"; Ok (0, l, s)
  else
  t ← deref t "Assertion failed: process != NULL";
  '(r, l, s) ← vm_copy_in s t src_va n;
  Ok (r, l, s).

Definition vm_space_clear (t va n : Z) (kmem : gmap Z Z) s : outcome (Z * gmap Z Z * vms T) :=
  if u32 (va + n) <? va then Ok (- EFAULT, kmem, s) else
  if VIRT_KERNEL_BASE <? va then
    _ ← k_assert (mapped_range kmem va n) "kernel page fault"; Ok (0, list_to_map ((λ x : Z, (x, 0)) <$> seqZ va n) ∪ kmem, s)
  else
  '(r, s) ← vm_clear s t va n;
  Ok (r, kmem, s).

End ops.

(** ** Lists of areas *)

Definition area_ok (a : VMSpaceMapEntry) : Prop :=
  a_start a mod PAGE_SIZE = 0 ∧ 0 < a_length a ∧ a_length a mod PAGE_SIZE = 0.

(** The areas of [l] follow one another between [lo] and [hi]. *)
Fixpoint laid (lo : Z) (l : list VMSpaceMapEntry) (hi : Z) : Prop :=
  match l with
  | [] => lo ≤ hi
  | a :: l => lo ≤ a_start a ∧ area_ok a ∧ laid (a_end a) l hi
  end.

(** Page [v] is in an area of [l]. *)
Definition covered_by (l : list VMSpaceMapEntry) (v : Z) : Prop := ∃ a, a ∈ l ∧ a_start a ≤ v * PAGE_SIZE < a_end a.

Implicit Types (l before after : list VMSpaceMapEntry) (a : VMSpaceMapEntry) (va n lo hi : Z).

Lemma laid_le lo l hi : laid lo l hi → lo ≤ hi.
Proof.
  revert lo. induction l as [|a l IH]; intros lo; [done|]. intros (? & (_ & ? & _) & Hle%IH). unfold a_end in Hle. lia.
Qed.

Lemma laid_hi lo l hi hi' : laid lo l hi → hi ≤ hi' → laid lo l hi'.
Proof. revert lo. induction l as [|a l IH]; intros lo; simpl; [lia|]. intros (? & ? & ?) ?. split_and!; auto. Qed.

Lemma laid_lo lo lo' l hi : laid lo l hi → lo' ≤ lo → laid lo' l hi.
Proof. destruct l as [|a l]; simpl; [lia|]. intros (? & ? & ?) ?. split; [lia|done]. Qed.

Lemma laid_app lo l1 l2 hi : laid lo (l1 ++ l2) hi ↔ ∃ m, laid lo l1 m ∧ laid m l2 hi.
Proof.
  revert lo. induction l1 as [|a l1 IH]; intros lo; simpl.
  - split; [intros H; exists lo; split; [lia|done]|]. intros (m & ? & ?). by apply (laid_lo m).
  - rewrite IH. naive_solver.
Qed.

Lemma covered_app l1 l2 v : covered_by (l1 ++ l2) v ↔ covered_by l1 v ∨ covered_by l2 v.
Proof. unfold covered_by. setoid_rewrite elem_of_app. naive_solver. Qed.

Lemma covered_one a v : covered_by [a] v ↔ a_start a ≤ v * PAGE_SIZE < a_end a.
Proof. unfold covered_by. setoid_rewrite list_elem_of_singleton. naive_solver. Qed.

Lemma covered_cons a l v : covered_by (a :: l) v ↔ covered_by [a] v ∨ covered_by l v.
Proof. apply (covered_app [a] l). Qed.

Lemma covered_laid lo l hi v : laid lo l hi → covered_by l v → lo ≤ v * PAGE_SIZE < hi.
Proof.
  revert lo. induction l as [|a l IH]; intros lo Hl (x & Hx & Hv); [by apply elem_of_nil in Hx|]. destruct Hl as (H1 & (_ & H2 & _) & Hl).
  apply elem_of_cons in Hx as [->|Hx]; [pose proof (laid_le _ _ _ Hl); lia|]. destruct (IH (a_end a) Hl) as [? ?]; [by exists x|]. unfold a_end in *. lia.
Qed.

(** ** The gap *)

(** A range of [n] bytes at [w] meets an area of [l]. *)
Definition meets l (w n : Z) : Prop := ∃ a, a ∈ l ∧ a_start a < w + n ∧ w < a_end a.

Lemma find_gap_ok l va n before lo :
  laid PAGE_SIZE before lo → laid PAGE_SIZE before va → laid lo l VIRT_KERNEL_BASE →
  va mod PAGE_SIZE = 0 → 0 ≤ va ≤ VIRT_KERNEL_BASE → 0 < n ≤ VIRT_KERNEL_BASE - PAGE_SIZE →
  let '(before', after, va') := find_gap l va n before in
  before' ++ after = before ++ l ∧ laid PAGE_SIZE before' va' ∧ (va' + n ≤ VIRT_KERNEL_BASE → laid (va' + n) after VIRT_KERNEL_BASE) ∧
  va ≤ va' ≤ VIRT_KERNEL_BASE ∧ va' mod PAGE_SIZE = 0 ∧ ∀ w, va ≤ w < va' → meets l w n.
Proof.
  revert va before lo. induction l as [|a l IH]; intros va before lo Hb Hbv Hl Hm Hva Hn; simpl.
  { split; [done|]. split; [done|]. split; [done|]. split; [lia|]. split; [done|]. intros w ?. lia. }
  destruct Hl as (Hlo & Ha & Hl). pose proof Ha as (Ha1 & Ha2 & Ha3). pose proof (laid_le _ _ _ Hl) as Hend.
  rewrite u32_small by (unfold VIRT_KERNEL_BASE, PAGE_SIZE in *; lia).
  assert (Hlo0 : 0 ≤ lo) by (pose proof (laid_le _ _ _ Hb); unfold PAGE_SIZE in *; lia).
  destruct (Z.leb_spec (va + n) (a_start a)) as [Hle|Hgt].
  { split; [done|]. split; [done|]. split; [intros _; simpl; split_and!; done || lia|]. split; [lia|]. split; [done|]. intros w ?. lia. }
  rewrite u32_small by (unfold VIRT_KERNEL_BASE, a_end in *; lia). set (va1 := if va <? a_end a then a_end a else va).
  assert (Hv1 : va ≤ va1 ∧ a_end a ≤ va1 ∧ va1 ≤ VIRT_KERNEL_BASE ∧ va1 mod PAGE_SIZE = 0 ∧ (va < va1 → va1 = a_end a)).
  { subst va1. unfold a_end in *. destruct (Z.ltb_spec va (a_start a + a_length a)); split_and!; try lia. by rewrite Z.add_mod, Ha1, Ha3. }
  assert (Hb' : ∀ hi, a_end a ≤ hi → laid PAGE_SIZE (before ++ [a]) hi).
  { intros hi Hhi. apply laid_app. exists lo. split; [done|]. simpl. split_and!; done || lia. }
  specialize (IH va1 (before ++ [a]) (a_end a)). destruct (find_gap l va1 n (before ++ [a])) as [[before' after] va'].
  destruct IH as (E & H1 & H2 & H3 & H4 & H5); [apply Hb'; lia|apply Hb'; lia|done|apply Hv1|lia|done|]. rewrite <- app_assoc in E. simpl in E.
  split; [done|]. split; [done|]. split; [done|]. split; [lia|]. split; [done|]. intros w Hw. destruct (decide (w < va1)) as [Hlt|Hge].
  - exists a. split; [left|]. lia.
  - destruct (H5 w) as (b & Hb2 & ?); [lia|]. exists b. split; [by right|done].
Qed.

(** ** The new area *)

(** The new area continues the one after it, of the same flags, and none before. *)
Definition next_only l va n flags : Prop :=
  (∃ a, a ∈ l ∧ a_start a = va + n ∧ a_flags a = flags) ∧ ¬ ∃ a, a ∈ l ∧ a_end a = va ∧ a_flags a = flags.

Lemma laid_elem lo l hi a : laid lo l hi → a ∈ l → lo ≤ a_start a ∧ a_end a ≤ hi ∧ area_ok a.
Proof.
  revert lo. induction l as [|b l IH]; intros lo Hl Ha; [by apply elem_of_nil in Ha|]. destruct Hl as (H1 & Hok & Hl).
  apply elem_of_cons in Ha as [->|Ha]; [pose proof (laid_le _ _ _ Hl); done|]. destruct (IH _ Hl Ha) as (? & ? & ?).
  destruct Hok as (? & ? & ?). unfold a_end in *. split_and!; done || lia.
Qed.

Lemma merge_prev_ok before va flags :
  laid PAGE_SIZE before va → va < 2 ^ 32 →
  match merge_prev before va flags with
  | Some (l, p) => before = l ++ [p] ∧ a_end p = va ∧ a_flags p = flags
  | None => ∀ a, a ∈ before → a_end a = va → a_flags a ≠ flags
  end.
Proof.
  intros Hl Hva. unfold merge_prev. destruct (rev before) as [|p l] eqn:E.
  { apply (f_equal (@rev _)) in E. rewrite rev_involutive in E. subst. intros a Ha. by apply elem_of_nil in Ha. }
  apply (f_equal (@rev _)) in E. rewrite rev_involutive in E. simpl in E. subst before. apply laid_app in Hl as (m & Hl & Hm & Hok & Hend). simpl in Hend.
  pose proof (laid_le _ _ _ Hl) as Hlm. rewrite u32_small by (destruct Hok; unfold PAGE_SIZE, a_end in *; lia).
  assert (Hlast : ∀ a, a ∈ rev l ++ [p] → a_end a = va → a = p).
  { intros a [Ha|Ha%list_elem_of_singleton]%elem_of_app Hae; [|done]. destruct (laid_elem _ _ _ a Hl Ha) as (_ & ? & _). destruct Hok. unfold a_end in *. lia. }
  destruct (Z.eqb_spec (a_end p) va) as [He|He]; simpl; [destruct (Z.eqb_spec (a_flags p) flags) as [Hf|Hf]; simpl|].
  - done.
  - intros a Ha Hae. by rewrite (Hlast a Ha Hae).
  - intros a Ha Hae. by rewrite (Hlast a Ha Hae) in Hae.
Qed.

Lemma merge_next_ok after va n flags :
  laid (va + n) after VIRT_KERNEL_BASE → 0 ≤ va + n →
  match merge_next after va n flags with
  | Some (a, r) => after = a :: r ∧ a_start a = va + n ∧ a_flags a = flags
  | None => ∀ a, a ∈ after → a_start a = va + n → a_flags a ≠ flags
  end.
Proof.
  intros Hl Hva. unfold merge_next. destruct after as [|a r]; [intros a Ha; by apply elem_of_nil in Ha|]. destruct Hl as (Hs & Hok & Hl).
  pose proof (laid_le _ _ _ Hl) as Hle. rewrite u32_small by (destruct Hok; unfold VIRT_KERNEL_BASE, a_end in *; lia).
  assert (Hfirst : ∀ b, b ∈ a :: r → a_start b = va + n → b = a).
  { intros b [->|Hb]%elem_of_cons Hbs; [done|]. destruct (laid_elem _ _ _ b Hl Hb). destruct Hok. unfold a_end in *. lia. }
  destruct (Z.eqb_spec (a_start a) (va + n)) as [He|He]; simpl; [destruct (Z.eqb_spec (a_flags a) flags) as [Hf|Hf]; simpl|].
  - done.
  - intros b Hb Hbs. by rewrite (Hfirst b Hb Hbs).
  - intros b Hb Hbs. by rewrite (Hfirst b Hb Hbs) in Hbs.
Qed.

Lemma merge_area_ok lo p len va n after hi :
  lo ≤ a_start p → area_ok p → a_end p = va → 0 < n → n mod PAGE_SIZE = 0 → len = a_length p + n → laid (va + n) after hi →
  laid lo ([MkArea (a_start p) len (a_flags p)] ++ after) hi ∧
  ∀ v, covered_by [MkArea (a_start p) len (a_flags p)] v ↔ covered_by [p] v ∨ va ≤ v * PAGE_SIZE < va + n.
Proof.
  intros Hlo (H1 & H2 & H3) He Hn Hnm -> Hl. unfold a_end in He. split.
  - simpl. unfold area_ok, a_end. simpl. replace (a_start p + (a_length p + n)) with (va + n) by lia. split_and!; try done; [lia|]. by rewrite Z.add_mod, H3, Hnm.
  - intros v. rewrite !covered_one. unfold a_end. simpl. lia.
Qed.

Lemma insert_area_ok before after va n flags pool l :
  laid PAGE_SIZE before va → laid (va + n) after VIRT_KERNEL_BASE → va mod PAGE_SIZE = 0 → 0 < n → n mod PAGE_SIZE = 0 →
  insert_area before after va n flags pool = Some l → ¬ next_only (before ++ after) va n flags →
  laid PAGE_SIZE l VIRT_KERNEL_BASE ∧ ∀ v, covered_by l v ↔ covered_by (before ++ after) v ∨ va ≤ v * PAGE_SIZE < va + n.
Proof.
  intros Hb Ha Hm Hn Hnm Hins Hno. pose proof (laid_le _ _ _ Hb) as Hle. pose proof (laid_le _ _ _ Ha) as Hle2.
  pose proof (merge_prev_ok before va flags Hb ltac:(unfold VIRT_KERNEL_BASE in *; lia)) as Hp.
  pose proof (merge_next_ok after va n flags Ha ltac:(unfold PAGE_SIZE in *; lia)) as Hx. unfold insert_area in Hins.
  destruct (merge_prev before va flags) as [[l1 p]|].
  - destruct Hp as (-> & Hpe & Hpf). apply laid_app in Hb as (m & Hb1 & Hb2 & Hpok & _).
    pose proof Hpok as (Hpl & Hpl2 & _). pose proof (laid_le _ _ _ Hb1).
    destruct (merge_next after va n flags) as [[a r]|]; injection Hins as <-.
    + destruct Hx as (-> & Has & Haf). destruct Ha as (_ & Haok & Har). pose proof (laid_le _ _ _ Har). pose proof Haok as (? & ? & ?).
      assert (Hn2 : (n + a_length a) mod PAGE_SIZE = 0) by (rewrite Z.add_mod, Hnm by done; by rewrite Z.add_0_l, Z.mod_mod).
      rewrite (u32_small (a_length a + n)), u32_small by (unfold VIRT_KERNEL_BASE, PAGE_SIZE, a_end in *; lia).
      destruct (merge_area_ok m p (a_length p + (a_length a + n)) va (n + a_length a) r VIRT_KERNEL_BASE) as [Hl Hc]; try done; [lia|lia|by replace (va + (n + a_length a)) with (a_end a) by (unfold a_end; lia)|].
      split; [apply laid_app; by exists m|]. intros v. rewrite !covered_app, !(covered_cons _ r), Hc, !covered_one. unfold a_end in *. intuition lia.
    + rewrite u32_small by (unfold VIRT_KERNEL_BASE, PAGE_SIZE, a_end in *; lia).
      destruct (merge_area_ok m p (a_length p + n) va n after VIRT_KERNEL_BASE) as [Hl Hc]; try done.
      split; [apply laid_app; by exists m|]. intros v. rewrite !covered_app, !(covered_cons _ after), Hc. tauto.
  - destruct (merge_next after va n flags) as [[a r]|].
    + destruct Hx as (-> & Has & Haf). destruct Hno. split; [exists a; split; [apply elem_of_app; right; left|done]|].
      intros (b & [Hb'|Hb']%elem_of_app & Hbe & Hbf); [by apply (Hp b)|]. destruct (laid_elem _ _ _ b Ha Hb') as (? & _ & ? & ? & _). unfold a_end in *. lia.
    + destruct pool; [|done]. injection Hins as <-. split.
      * apply laid_app. exists va. split; [done|]. simpl. unfold area_ok, a_end. simpl. split_and!; done || lia.
      * intros v. rewrite !covered_app, (covered_cons _ after), covered_one. unfold a_end. simpl. tauto.
Qed.

(** ** Pages and tables *)

Section theory.
Context {T : Type} `{!ArchVm T, !ArchLaws T, !ArchTables T, !ArchTablesLaws T}.
Implicit Types (s : vms T) (M : mapping) (t : Z) (sp : VMSpace) (tabs : gset Z).

(** The pages of the table are those of the areas. *)
Definition space_ok M sp : Prop :=
  laid PAGE_SIZE (areas sp) VIRT_KERNEL_BASE ∧ ∀ v, is_Some (M !! (pgtab sp, v)) ↔ covered_by (areas sp) v.

Lemma round_up_aligned x : x mod PAGE_SIZE = 0 → 0 ≤ x ≤ VIRT_KERNEL_BASE → round_up_page x = x.
Proof.
  intros Hm Hx. unfold round_up_page. rewrite u32_small by (unfold VIRT_KERNEL_BASE, PAGE_SIZE in *; lia). unfold PAGE_SIZE in *.
  Z.to_euclidean_division_equations. lia.
Qed.

(** A range of whole pages of user memory. *)
Definition page_range va n : Prop := 0 ≤ va < VIRT_KERNEL_BASE ∧ va mod PAGE_SIZE = 0 ∧ 0 < n ∧ n mod PAGE_SIZE = 0 ∧ va + n ≤ VIRT_KERNEL_BASE.

Lemma page_range_end va n : page_range va n → round_up_page (va + n) = va + n ∧ u32 (va + n) = va + n.
Proof.
  intros (? & Hm & ? & Hn & ?). split; [apply round_up_aligned; [by rewrite Z.add_mod, Hm, Hn|lia]|]. apply u32_small. unfold VIRT_KERNEL_BASE in *. lia.
Qed.

Lemma area_range lo l a : laid lo l VIRT_KERNEL_BASE → 0 ≤ lo → a ∈ l → page_range (a_start a) (a_length a).
Proof. intros Hl Hlo Ha. destruct (laid_elem _ _ _ a Hl Ha) as (? & ? & ? & ? & ?). unfold a_end in *. split_and!; done || lia. Qed.

Lemma vm_user_free_ok tabs M s t va n :
  inv tabs M s → t ∈ tabs → page_range va n →
  ∃ s', vm_user_free s t va n = Ok s' ∧ inv tabs (unmap M t va (va + n)) s' ∧ mem s' = mem s.
Proof.
  intros [[P G] Hl] Ht Hr. destruct (page_range_end va n Hr) as [E1 E2]. destruct Hr as (Hva & Hm & Hn & Hnm & Hend).
  unfold vm_user_free. destruct (round_up_page_ok va n) as (Hra & _ & ->); [lia|done|lia|done|]. rewrite E2, E1 in *.
  rewrite (proj2 (Z.ltb_lt _ _)) by lia. cbn [k_assert mbind outcome_bind].
  destruct (free_loop_ok tabs (S (range_pages va (va + n))) P M s t va (va + n)) as (s1 & -> & G1 & Hl1 & Hm1); [done..|lia|].
  exists s1. split; [done|]. split; [split; [by exists P|done]|done].
Qed.

Lemma vm_user_clone_ok tabs M s src dst va n :
  inv tabs M s → src ∈ tabs → dst ∈ tabs → src ≠ dst → page_range va n →
  wp (vm_user_clone s src dst va n false) oom (λ r, ∃ M' e, inv tabs M' r.2 ∧ mem r.2 = mem s ∧ cloned M src dst va e M' ∧
    (r.1 = 0 ∧ e = va + n ∨ r.1 = - EFAULT ∧ va ≤ e < va + n ∧ M !! (src, e / PAGE_SIZE) = None)).
Proof.
  intros [[P G] Hl] Hs Hd Hne Hr. destruct (page_range_end va n Hr) as [E1 E2]. destruct Hr as (Hva & Hm & Hn & Hnm & Hend).
  unfold vm_user_clone. destruct (round_up_page_ok va n) as (Hra & _ & ->); [lia|done|lia|done|]. rewrite E2, E1 in *.
  rewrite (proj2 (Z.ltb_lt _ _)) by lia. cbn [k_assert mbind outcome_bind].
  eapply wp_mono; [apply (clone_loop_ok tabs _ P M s src dst va (va + n)); try done; lia|done|].
  intros r (P1 & M1 & e & G1 & Hl1 & Hm1 & Hc & He). exists M1, e. split; [split; [by exists P1|done]|]. split; [done|]. split; [done|].
  destruct He as [[? ->]|?]; [left; split; [done|lia]|by right].
Qed.

Lemma unmap_page M t va n k : unmap M t va (va + n) !! k = if decide (in_range t va (va + n) k) then None else M !! k.
Proof. apply unmap_lookup. Qed.

Lemma free_areas_ok tabs l M s t lo :
  inv tabs M s → t ∈ tabs → laid lo l VIRT_KERNEL_BASE → 0 ≤ lo →
  ∃ s' M', free_areas l s t = Ok s' ∧ inv tabs M' s' ∧ mem s' = mem s ∧
    (∀ v, covered_by l v → M' !! (t, v) = None) ∧ (∀ k, ¬ (k.1 = t ∧ covered_by l k.2) → M' !! k = M !! k).
Proof.
  revert M s lo. induction l as [|a l IH]; intros M s lo Hi Ht Hl Hlo; simpl.
  { exists s, M. split; [done|]. split; [done|]. split; [done|]. split; [|done]. intros v (b & Hb & _). by apply elem_of_nil in Hb. }
  destruct (vm_user_free_ok tabs M s t (a_start a) (a_length a) Hi Ht) as (s1 & -> & Hi1 & Hm1); [apply (area_range lo (a :: l)); [done|done|left]|].
  cbn [mbind outcome_bind]. destruct Hl as (? & (? & ? & ?) & Hl).
  destruct (IH _ s1 (a_end a) Hi1 Ht Hl) as (s2 & M2 & -> & Hi2 & Hm2 & Hc & Ho); [unfold a_end; lia|].
  exists s2, M2. split; [done|]. split; [done|]. split; [congruence|]. split.
  - intros v Hv. destruct (decide (a_start a ≤ v * PAGE_SIZE < a_end a)) as [Hin|Hin].
    + destruct (M2 !! (t, v)) eqn:E; [|done]. rewrite Ho in E; [|intros [_ Hcv]; destruct (covered_laid _ _ _ _ Hl Hcv); simpl in *; lia].
      rewrite unmap_page, decide_True in E by (split; [done|]; exact Hin). done.
    + apply Hc. destruct Hv as (b & [->|Hb]%elem_of_cons & Hbv); [done|]. by exists b.
  - intros k Hk. rewrite Ho by (intros [Hkt (b & Hb & ?)]; apply Hk; split; [done|]; exists b; split; [by right|done]).
    rewrite unmap_page, decide_False; [done|]. intros [Hkt Hin]. apply Hk. split; [done|]. exists a. split; [left|done].
Qed.

Lemma no_table tabs M s t v : inv tabs M s → t ∉ tabs → M !! (t, v) = None.
Proof.
  intros [[P G] _] Ht. destruct (M !! (t, v)) as [e|] eqn:E; [|done]. destruct (P (t, v)) as [p|] eqn:Ep; [|by rewrite (g_dom _ _ _ _ _ G _ Ep) in E].
  by destruct (pt_keys _ _ _ _ _ _ _ (g_rep _ _ _ _ _ G) Ep).
Qed.

Lemma create_inv tabs M s :
  inv tabs M s →
  wp (arch_create (pt s) (pg s)) oom (λ '(t, x, st), t ∉ tabs ∧ inv ({[t]} ∪ tabs) M (set_pg st (set_pt x s))).
Proof.
  intros [[P G] Hl]. pose proof (create_ok tabs P (pt s) (pg s) (g_rep _ _ _ _ _ G) (g_wf _ _ _ _ _ G)) as H.
  destruct (arch_create (pt s) (pg s)) as [[[t x] st]|]; [|exact H]. destruct H as (Hn & Hrep & Hw & He & Hlv). split; [done|]. split; [|done]. exists P.
  destruct G as [G1 G2 G3 G4 G5 G6 G7 G8]. split; simpl; try done.
  - intros k p Hp. rewrite (He k p Hp). by apply G3.
  - intros p Hp. destruct (G7 p Hp) as [Ha Hd]. split; [by apply Hlv|done].
  - intros p r Hp%Hlv. by apply (G8 p r).
Qed.

Lemma destroy_inv tabs M s t :
  inv tabs M s → t ∈ tabs →
  match arch_destroy t (pt s) (pg s) with
  | Ok st => (∀ v, M !! (t, v) = None) ∧ inv (tabs ∖ {[t]}) M (set_pg st s)
  | Panic w => w = "pte still in use"%string ∧ ∃ v, is_Some (M !! (t, v))
  end.
Proof.
  intros [[P G] Hl] Ht. pose proof (destroy_ok tabs P (pt s) (pg s) t (g_rep _ _ _ _ _ G) (g_wf _ _ _ _ _ G) Ht) as H.
  destruct G as [G1 G2 G3 G4 G5 G6 G7 G8]. destruct (arch_destroy t (pt s) (pg s)) as [st|w].
  - destruct H as (Hn & Hw & Hrep & Hlv). assert (Hno : ∀ v, M !! (t, v) = None).
    { intros v. destruct (P (t, v)) as [p|] eqn:Ep; [|by apply G4]. pose proof (G3 _ _ Ep) as E. rewrite (Hn v p Ep) in E. by destruct (M !! (t, v)). }
    split; [done|]. split; [|done]. exists (λ k, if decide (k.1 = t) then None else P k). split; simpl; try done.
    + intros k p. case_decide; [done|]. apply G3.
    + intros k. case_decide as E; [|apply G4]. intros _. destruct k as [t' v]. simpl in E. subst. apply Hno.
    + intros p Hp. destruct (G7 p Hp) as [Ha Hd]. split; [by apply Hlv|done].
    + intros p r Hp%Hlv. by apply (G8 p r).
  - destruct H as (-> & v & p & Hp & He). split; [done|]. exists v. pose proof (G3 _ _ Hp) as E. destruct (M !! (t, v)); [by eexists|]. by rewrite E in He.
Qed.

Lemma destroy_space tabs M s sp :
  inv tabs M s → pgtab sp ∈ tabs → space_ok M sp →
  ∃ s' M', vm_space_destroy sp s = Ok s' ∧ inv (tabs ∖ {[pgtab sp]}) M' s' ∧ mem s' = mem s ∧
    (∀ v, M' !! (pgtab sp, v) = None) ∧ (∀ k, k.1 ≠ pgtab sp → M' !! k = M !! k).
Proof.
  intros Hi Ht [Hl Hc]. unfold vm_space_destroy.
  destruct (free_areas_ok tabs (areas sp) M s (pgtab sp) PAGE_SIZE Hi Ht Hl) as (s1 & M1 & -> & Hi1 & Hm1 & Hn1 & Ho1); [done|]. cbn [mbind outcome_bind].
  assert (Hnone : ∀ v, M1 !! (pgtab sp, v) = None).
  { intros v. destruct (M !! (pgtab sp, v)) as [e|] eqn:E.
    - apply Hn1, Hc. by rewrite E.
    - rewrite Ho1; [done|]. intros [_ Hcv]. apply Hc in Hcv. simpl in Hcv. rewrite E in Hcv. by destruct Hcv. }
  pose proof (destroy_inv tabs M1 s1 (pgtab sp) Hi1 Ht) as H. destruct (arch_destroy (pgtab sp) (pt s1) (pg s1)) as [st|w].
  - destruct H as [_ Hi2]. exists (set_pg st s1), M1. split; [done|]. split; [done|]. split; [done|]. split; [done|]. intros k Hk. apply Ho1. by intros [? _].
  - destruct H as (_ & v & e & He). by rewrite Hnone in He.
Qed.

(** No byte that any address space sees has changed. *)
Definition same_bytes M s M' s' : Prop := ∀ t o, ubyte s' M' t o = ubyte s M t o.

Lemma round_up_page_bounds x : 0 ≤ x ≤ 2 ^ 32 - PAGE_SIZE →
  round_up_page x mod PAGE_SIZE = 0 ∧ x ≤ round_up_page x < x + PAGE_SIZE.
Proof.
  intros Hx. unfold round_up_page. rewrite u32_small by (unfold PAGE_SIZE in *; lia). unfold PAGE_SIZE in *. Z.to_euclidean_division_equations. lia.
Qed.

Lemma round_up_page_aligned x : 0 ≤ x → round_up_page x mod PAGE_SIZE = 0 ∧ 0 ≤ round_up_page x < 2 ^ 32.
Proof.
  intros Hx. unfold round_up_page. assert (0 ≤ u32 (x + PAGE_SIZE - 1) < 2 ^ 32) by (unfold u32; apply Z.mod_pos_bound; done).
  unfold PAGE_SIZE in *. Z.to_euclidean_division_equations. lia.
Qed.

(** Where [vmspace_map] looks from. *)
Definition map_base (addr : Z) : Z := if addr =? 0 then PAGE_SIZE else round_up_page addr.

Lemma map_base_ok addr : 0 ≤ addr ≤ 2 ^ 32 - PAGE_SIZE → map_base addr mod PAGE_SIZE = 0 ∧ PAGE_SIZE ≤ map_base addr < 2 ^ 32 ∧ addr ≤ map_base addr.
Proof.
  intros Ha. unfold map_base. destruct (Z.eqb_spec addr 0) as [->|Hne]; [done|]. destruct (round_up_page_bounds addr Ha).
  unfold PAGE_SIZE in *. Z.to_euclidean_division_equations. lia.
Qed.

(** The checks on the arguments pass exactly for a range of user memory. *)
Lemma map_args va len : 0 ≤ va < 2 ^ 32 → 0 ≤ len < 2 ^ 32 →
  (VIRT_KERNEL_BASE <=? va) || (VIRT_KERNEL_BASE <? u32 (va + len)) || (u32 (va + len) <=? va) = false ↔ 0 < len ∧ va + len ≤ VIRT_KERNEL_BASE.
Proof.
  intros Hva Hlen. unfold VIRT_KERNEL_BASE. rewrite !orb_false_iff, Z.leb_gt, Z.ltb_ge, Z.leb_gt. unfold u32. change (2 ^ 32) with 4294967296 in *.
  Z.to_euclidean_division_equations. lia.
Qed.

Lemma not_meets before after va n v :
  laid PAGE_SIZE before va → laid (va + n) after VIRT_KERNEL_BASE → va ≤ v * PAGE_SIZE < va + n → ¬ covered_by (before ++ after) v.
Proof. intros Hb Ha Hv [Hc|Hc]%covered_app; [pose proof (covered_laid _ _ _ _ Hb Hc)|pose proof (covered_laid _ _ _ _ Ha Hc)]; lia. Qed.

Lemma gap_free before after va n : laid PAGE_SIZE before va → laid (va + n) after VIRT_KERNEL_BASE → ¬ meets (before ++ after) va n.
Proof.
  intros Hb Ha (a & [Hx|Hx]%elem_of_app & ? & ?); [destruct (laid_elem _ _ _ _ Hb Hx)|destruct (laid_elem _ _ _ _ Ha Hx)]; lia.
Qed.

(** The pages of a range that was free, after they were taken back. *)
Lemma alloc_undone M s t va n fl M1 s1 s2 :
  allocated_range M s t va (va + n) fl M1 s1 → mem s2 = mem s1 → (∀ v, va ≤ v * PAGE_SIZE < va + n → M !! (t, v) = None) →
  unmap M1 t va (va + n) = M ∧ same_bytes M s M s2.
Proof.
  intros [_ Hold _] Hm Hfree. split.
  - apply map_eq. intros [t' v]. rewrite unmap_page. case_decide as Hr; [|by apply Hold]. destruct Hr as [E Hr]. simpl in *. subst. by rewrite Hfree.
  - intros t' o. unfold ubyte. assert (E : upage s2 M (t', o / PAGE_SIZE) = upage s M (t', o / PAGE_SIZE)); [|by rewrite E].
    destruct (decide (in_range t va (va + n) (t', o / PAGE_SIZE))) as [[E Hr]|Hr].
    + simpl in *. subst. unfold upage. by rewrite Hfree.
    + destruct (Hold _ Hr) as [E1 E2]. rewrite <- E2. unfold upage. by rewrite E1, Hm.
Qed.

(** What [vmspace_map] did: nothing, or the gap at [va] between [before] and
    [after] was used. *)
Inductive mapped_space M s sp (base len flags : Z) (pool : bool) : Z → VMSpace → mapping → vms T → Prop :=
| ms_einval : ¬ (0 < len ∧ base + len ≤ VIRT_KERNEL_BASE) → mapped_space M s sp base len flags pool (- EINVAL) sp M s
| ms_full va : va ≤ VIRT_KERNEL_BASE → VIRT_KERNEL_BASE < va + len → (∀ w, base ≤ w < va → meets (areas sp) w len) →
    mapped_space M s sp base len flags pool (- ENOMEM) sp M s
| ms_nopool s' : pool = false → same_bytes M s M s' → mapped_space M s sp base len flags pool (- ENOMEM) sp M s'
| ms_done before after va l M' s' :
    areas sp = before ++ after → laid PAGE_SIZE before va → laid (va + len) after VIRT_KERNEL_BASE → base ≤ va → page_range va len →
    (∀ w, base ≤ w < va → meets (areas sp) w len) → insert_area before after va len flags pool = Some l →
    allocated_range M s (pgtab sp) va (va + len) flags M' s' → mapped_space M s sp base len flags pool va (MkSpace (pgtab sp) l) M' s'.

Lemma vmspace_map_ok tabs M s sp addr n flags pool :
  inv tabs M s → pgtab sp ∈ tabs → space_ok M sp → 0 ≤ addr ≤ 2 ^ 32 - PAGE_SIZE → 0 ≤ n → 0 ≤ flags < 128 →
  wp (vmspace_map sp addr n flags pool s) oom (λ '(r, sp', s'), ∃ M', inv tabs M' s' ∧
    mapped_space M s sp (map_base addr) (round_up_page n) flags pool r sp' M' s').
Proof.
  intros Hi Ht [Hl Hc] Haddr Hn Hfl. destruct (map_base_ok addr Haddr) as (Hbm & Hb & _). destruct (round_up_page_aligned n Hn) as [Hlm Hlen].
  unfold vmspace_map. fold (map_base addr). set (base := map_base addr) in *. set (len := round_up_page n) in *.
  pose proof (map_args base len ltac:(unfold PAGE_SIZE in *; lia) Hlen) as Hargs.
  destruct ((VIRT_KERNEL_BASE <=? base) || _ || _) eqn:E.
  { exists M. split; [done|]. apply ms_einval. intros H%Hargs. done. }
  destruct (proj1 Hargs eq_refl) as [Hl0 Hle]. clear Hargs.
  pose proof (find_gap_ok (areas sp) base len [] PAGE_SIZE) as Hg. destruct (find_gap (areas sp) base len []) as [[before after] va].
  destruct Hg as (Ea & Hlb & Hla & Hva & Hvm & Hmin); [simpl; lia|simpl; lia|done|done|unfold PAGE_SIZE in *; lia|lia|]. simpl in Ea.
  rewrite u32_small by (unfold VIRT_KERNEL_BASE, PAGE_SIZE in *; lia).
  destruct (Z.ltb_spec VIRT_KERNEL_BASE (va + len)) as [Hbig|Hfit]; [exists M; split; [done|]; by apply (ms_full M s sp base len flags pool va); try lia|].
  specialize (Hla Hfit). assert (Hr : page_range va len) by (pose proof (laid_le _ _ _ Hlb); unfold PAGE_SIZE in *; split_and!; done || lia).
  apply wp_bind. eapply wp_mono; [apply (vm_user_alloc_ok tabs M s (pgtab sp) va len flags Hi Ht); unfold page_range in Hr; tauto || lia|done|].
  intros [r s1] (Er & M1 & Hi1 & Ha). simpl in Er, Hi1, Ha. subst r. rewrite (proj1 (page_range_end va len Hr)) in Ha. cbn [Z.ltb Z.compare].
  assert (Hfree : ∀ v, va ≤ v * PAGE_SIZE < va + len → M !! (pgtab sp, v) = None).
  { intros v Hv. destruct (M !! (pgtab sp, v)) as [e|] eqn:Ee; [|done]. destruct (not_meets before after va len v Hlb Hla Hv). rewrite Ea. apply Hc. by rewrite Ee. }
  destruct (insert_area before after va len flags pool) as [l|] eqn:Ei.
  - exists M1. split; [done|]. by apply (ms_done M s sp base len flags pool before after va l M1 s1); try lia.
  - destruct (vm_user_free_ok tabs M1 s1 (pgtab sp) va len Hi1 Ht Hr) as (s2 & -> & Hi2 & Hm2). cbn [mbind outcome_bind].
    destruct (alloc_undone M s (pgtab sp) va len flags M1 s1 s2 Ha Hm2 Hfree) as [Eu Hsb]. rewrite Eu in Hi2. exists M. split; [done|].
    apply ms_nopool; [|done]. unfold insert_area in Ei. repeat case_match; done.
Qed.

(** [vmspace_map] maps fresh zero pages at the lowest free address from the
    one asked for, of the length asked for in whole pages, and returns it; no
    page and no byte of any address space outside the range changes, and the
    list of areas describes the address space again, except when the new area
    was merged only with the one after it.  It fails with EINVAL exactly for a
    range that is empty or leaves user memory, and with ENOMEM only when there
    is no gap, or no entry for a new area; then no byte has changed. *)
Theorem vmspace_map_spec tabs M s sp addr n flags pool :
  inv tabs M s → pgtab sp ∈ tabs → space_ok M sp → 0 ≤ addr ≤ 2 ^ 32 - PAGE_SIZE → 0 ≤ n → 0 ≤ flags < 128 →
  let base := map_base addr in let len := round_up_page n in
  wp (vmspace_map sp addr n flags pool s) oom (λ '(r, sp', s'), ∃ M', inv tabs M' s' ∧
    (r = - EINVAL ∧ sp' = sp ∧ same_bytes M s M' s' ∧ space_ok M' sp ∧ ¬ (0 < len ∧ base + len ≤ VIRT_KERNEL_BASE) ∨
     r = - ENOMEM ∧ sp' = sp ∧ same_bytes M s M' s' ∧ space_ok M' sp ∧
       (pool = false ∨ ∀ w, base ≤ w → w + len ≤ VIRT_KERNEL_BASE → meets (areas sp) w len) ∨
     base ≤ r ∧ page_range r len ∧ ¬ meets (areas sp) r len ∧ (∀ w, base ≤ w < r → meets (areas sp) w len) ∧
       allocated_range M s (pgtab sp) r (r + len) flags M' s' ∧ pgtab sp' = pgtab sp ∧
       (¬ next_only (areas sp) r len flags → space_ok M' sp'))).
Proof.
  intros Hi Ht Hsp Haddr Hn Hfl base len. eapply wp_mono; [by apply (vmspace_map_ok tabs M s sp addr n flags pool)|done|].
  fold base len. intros [[r sp'] s'] (M' & Hi' & Hms). exists M'. split; [done|]. destruct Hms as [Hno|va Hva Hbig Hmin|s' Hp Hsb|before after va l M' s' Ea Hb Ha Hbase Hr Hmin Hins Hal].
  - left. done.
  - right. left. split_and!; try done. right. intros w Hw Hwe. apply Hmin. lia.
  - right. left. split_and!; try done. by left.
  - right. right. split; [done|]. split; [done|]. rewrite Ea in *. split; [by apply gap_free|]. split; [done|]. split; [done|]. split; [done|].
    intros Hno. pose proof Hr as (? & ? & ? & ? & ?).
    destruct (insert_area_ok before after va len flags pool l) as [Hl Hc]; try done. split; [done|]. intros v. simpl. rewrite Hc.
    destruct Hal as [Hnew Hold _]. destruct (decide (in_range (pgtab sp) va (va + len) (pgtab sp, v))) as [Hin|Hin].
    + destruct (Hnew _ Hin) as [(p & -> & _) _]. split; [intros _; right; apply Hin|done].
    + destruct (Hold _ Hin) as [-> _]. destruct Hsp as [_ Hsp]. rewrite Hsp, Ea. split; [by left|]. intros [?|?]; [done|]. by destruct Hin.
Qed.

(** The merge with the following area alone loses its length.  When
    [vmspace_map] has merged the new area only with the one after it, the pages
    at the end of that area are in no area any more, and destroying the address
    space stops the kernel because they are still mapped. *)
Theorem vmspace_map_merge_loses tabs M s sp addr n flags pool :
  inv tabs M s → pgtab sp ∈ tabs → space_ok M sp → 0 ≤ addr ≤ 2 ^ 32 - PAGE_SIZE → 0 ≤ n → 0 ≤ flags < 128 →
  wp (vmspace_map sp addr n flags pool s) oom (λ '(r, sp', s'),
    0 ≤ r → next_only (areas sp) r (round_up_page n) flags → vm_space_destroy sp' s' = Panic "pte still in use").
Proof.
  intros Hi Ht Hsp Haddr Hn Hfl. eapply wp_mono; [by apply (vmspace_map_ok tabs M s sp addr n flags pool)|done|].
  intros [[r sp'] s'] (M' & Hi' & Hms) Hr0 Hnx. destruct Hms as [Hno|va Hva Hbig Hmin|s' Hp Hsb|before after va l M' s' Ea Hb Ha Hbase Hr Hmin Hins Hal];
    try (unfold EINVAL, ENOMEM in *; lia). set (len := round_up_page n) in *. pose proof Hr as (Hr1 & Hr2 & Hr3 & Hr4 & Hr5).
  destruct Hnx as [(a & Hax & Has & Haf) Hnp]. rewrite Ea in *.
  pose proof (merge_prev_ok before va flags Hb ltac:(unfold VIRT_KERNEL_BASE in *; lia)) as Hp. pose proof (merge_next_ok after va len flags Ha ltac:(lia)) as Hx.
  unfold insert_area in Hins. destruct (merge_prev before va flags) as [[l1 p]|].
  { destruct Hp as (-> & Hpe & Hpf). destruct Hnp. exists p. split; [|done]. apply elem_of_app. left. apply elem_of_app. right. left. }
  destruct (merge_next after va len flags) as [[b rest]|].
  2:{ apply elem_of_app in Hax as [Hax|Hax]; [destruct (laid_elem _ _ _ _ Hb Hax) as (? & ? & ? & ? & ?); unfold a_end in *; lia|by destruct (Hx a)]. }
  destruct Hx as (-> & Hbs & Hbf). injection Hins as <-. destruct Ha as (_ & Hbok & Hrest). pose proof Hbok as (Hb1 & Hb2 & Hb3). pose proof (laid_le _ _ _ Hrest) as Hbe.
  set (new := MkArea va (a_length b) (a_flags b)).
  assert (Hlaid : laid PAGE_SIZE (before ++ new :: rest) VIRT_KERNEL_BASE).
  { apply laid_app. exists va. split; [done|]. simpl. split; [lia|]. split; [done|]. apply (laid_lo (a_end b)); [done|]. unfold a_end. simpl. lia. }
  unfold vm_space_destroy. simpl.
  destruct (free_areas_ok tabs (before ++ new :: rest) M' s' (pgtab sp) PAGE_SIZE Hi' Ht Hlaid) as (s2 & M2 & -> & Hi2 & Hm2 & Hn2 & Ho2); [done|]. cbn [mbind outcome_bind].
  set (v := (a_end b - PAGE_SIZE) / PAGE_SIZE). assert (Hv : v * PAGE_SIZE = a_end b - PAGE_SIZE).
  { subst v. unfold a_end, PAGE_SIZE in *. Z.to_euclidean_division_equations. lia. }
  assert (Hps : 0 < PAGE_SIZE) by done. assert (Hlen : PAGE_SIZE ≤ len) by (unfold PAGE_SIZE in *; Z.to_euclidean_division_equations; lia).
  assert (Hblen : PAGE_SIZE ≤ a_length b) by (unfold PAGE_SIZE in *; Z.to_euclidean_division_equations; lia).
  assert (Hmap : is_Some (M2 !! (pgtab sp, v))).
  { rewrite Ho2.
    - destruct Hal as [_ Hold _]. destruct (Hold (pgtab sp, v)) as [-> _]; [intros [_ Hin]; simpl in Hin; unfold a_end in *; lia|].
      apply (proj2 Hsp). exists b. rewrite Ea. split; [apply elem_of_app; right; left|unfold a_end in *; lia].
    - intros [_ Hcv]. simpl in Hcv. apply covered_app in Hcv as [Hcv|Hcv%covered_cons]; [pose proof (covered_laid _ _ _ _ Hb Hcv); unfold a_end in *; lia|].
      destruct Hcv as [Hcv|Hcv]; [apply covered_one in Hcv; unfold a_end in *; simpl in Hcv; lia|]. pose proof (covered_laid _ _ _ _ Hrest Hcv). lia. }
  pose proof (destroy_inv tabs M2 s2 (pgtab sp) Hi2 Ht) as Hd. destruct (arch_destroy (pgtab sp) (pt s2) (pg s2)) as [st|w].
  - destruct Hd as [Hd _]. rewrite Hd in Hmap. by destruct Hmap.
  - destruct Hd as [-> _]. done.
Qed.

(** ** Cloning *)

(** The areas of [pre] are cloned from [src] to [dst]; [M] is the mapping before. *)
Record cloning src dst pre M M' : Prop := {
  cg_done v : covered_by pre v → ∃ q fl fl', M !! (src, v) = Some (q, fl) ∧ M' !! (src, v) = Some (q, fl') ∧ M' !! (dst, v) = Some (q, fl');
  cg_todo v : ¬ covered_by pre v → M' !! (dst, v) = None ∧ M' !! (src, v) = M !! (src, v);
  cg_other k : k.1 ≠ src → k.1 ≠ dst → M' !! k = M !! k }.

Lemma covered_dec l v : Decision (covered_by l v).
Proof.
  destruct (decide (Exists (λ a, a_start a ≤ v * PAGE_SIZE < a_end a) l)) as [He|He]; rewrite Exists_exists in He; [by left|by right].
Qed.

Lemma cloning_step src dst pre a M M1 M2 :
  src ≠ dst → cloning src dst pre M M1 → (∀ v, covered_by pre v → ¬ covered_by [a] v) →
  cloned M1 src dst (a_start a) (a_end a) M2 → cloning src dst (pre ++ [a]) M M2.
Proof.
  intros Hne [H1 H2 H3] Hdisj [Hp Ho]. assert (Hr : ∀ t v, in_range t (a_start a) (a_end a) (t, v) ↔ covered_by [a] v).
  { intros t v. rewrite covered_one. unfold in_range. simpl. naive_solver. }
  assert (Hkeep : ∀ t v, ¬ covered_by [a] v → M2 !! (t, v) = M1 !! (t, v)).
  { intros t v Hn. apply Ho; intros [E ?]; simpl in *; apply Hn; by apply covered_one. }
  split.
  - intros v Hv. apply covered_app in Hv as [Hv|Hv].
    + rewrite !(Hkeep _ v) by (by apply Hdisj). by apply H1.
    + destruct (Hp v) as (q & fl & E1 & E2 & E3); [by apply covered_one|]. destruct (H2 v) as [_ E]; [intros Hc; by apply (Hdisj v)|].
      rewrite E in E1. by exists q, fl, (cloned_flags fl).
  - intros v Hv. rewrite covered_app in Hv. rewrite !(Hkeep _ v) by tauto. apply H2. tauto.
  - intros [t v] Hs Hd. simpl in *. rewrite Ho; [by apply H3|by intros [? _]..].
Qed.

Lemma upage_same s s' M M' k k' : mem s' = mem s → fst <$> M' !! k = fst <$> M !! k' → upage s' M' k = upage s M k'.
Proof. intros Hm E. unfold upage. rewrite Hm. destruct (M' !! k) as [[q fl]|], (M !! k') as [[q' fl']|]; simpl in *; by simplify_eq. Qed.

(** Every address space but the new one sees what it saw. *)
Lemma cloning_bytes src dst pre M M' s s' t o :
  cloning src dst pre M M' → mem s' = mem s → t ≠ dst → ubyte s' M' t o = ubyte s M t o.
Proof.
  intros [H1 H2 H3] Hm Hd. unfold ubyte. rewrite (upage_same s s' M M' (t, o / PAGE_SIZE) (t, o / PAGE_SIZE)); [done|done|].
  destruct (decide (t = src)) as [->|Hs]; [|by rewrite H3]. destruct (covered_dec pre (o / PAGE_SIZE)) as [Hc|Hc].
  - destruct (H1 _ Hc) as (q & fl & fl' & -> & -> & _). done.
  - by destruct (H2 _ Hc) as [_ ->].
Qed.

Lemma cloning_new src dst pre M M' v : cloning src dst pre M M' → is_Some (M' !! (dst, v)) ↔ covered_by pre v.
Proof.
  intros [H1 H2 _]. destruct (covered_dec pre v) as [Hc|Hc].
  - destruct (H1 v Hc) as (q & fl & fl' & _ & _ & ->). split; [done|by eexists].
  - destruct (H2 v Hc) as [-> _]. split; [by intros []|done].
Qed.

Lemma cloning_old src dst pre M M' v : cloning src dst pre M M' → is_Some (M' !! (src, v)) ↔ is_Some (M !! (src, v)).
Proof.
  intros [H1 H2 _]. destruct (covered_dec pre v) as [Hc|Hc].
  - destruct (H1 v Hc) as (q & fl & fl' & -> & -> & _). done.
  - by destruct (H2 v Hc) as [_ ->].
Qed.

Lemma destroy_clone tabs M s M' s' sp new :
  pgtab new ∉ tabs → pgtab sp ∈ tabs → inv tabs M s → space_ok M sp → inv ({[pgtab new]} ∪ tabs) M' s' → mem s' = mem s →
  cloning (pgtab sp) (pgtab new) (areas new) M M' → laid PAGE_SIZE (areas new) VIRT_KERNEL_BASE →
  ∃ s2 M2, vm_space_destroy new s' = Ok s2 ∧ inv tabs M2 s2 ∧ space_ok M2 sp ∧ same_bytes M s M2 s2.
Proof.
  intros Hnew Hsrc Hi [Hlsp Hc] Hi' Hm Hcl Hl.
  assert (Hsp : space_ok M' new) by (split; [done|]; intros v; by apply (cloning_new (pgtab sp) _ _ M)).
  destruct (destroy_space _ M' s' new Hi' ltac:(set_solver) Hsp) as (s2 & M2 & E & Hi2 & Hm2 & Hn2 & Ho2).
  replace (({[pgtab new]} ∪ tabs) ∖ {[pgtab new]}) with tabs in Hi2 by set_solver. exists s2, M2. split; [done|]. split; [done|].
  assert (Hne : pgtab sp ≠ pgtab new) by congruence. split.
  - split; [done|]. intros v. rewrite Ho2, (cloning_old _ _ _ M M') by done. apply Hc.
  - intros t o. destruct (decide (t = pgtab new)) as [->|Ht].
    + unfold ubyte, upage. by rewrite Hn2, (no_table tabs M s).
    + rewrite <- (cloning_bytes _ _ _ M M' s s' t o Hcl Hm Ht). unfold ubyte. rewrite (upage_same s' s2 M' M2 _ (t, o / PAGE_SIZE)); [done|done|]. by rewrite Ho2.
Qed.

(** What [vm_space_clone] promises when it returns a space, and when not. *)
Definition clone_result tabs M s sp (granted : Prop) (r : option VMSpace * vms T) : Prop :=
  match r.1 with
  | Some new => ∃ M', pgtab new ∉ tabs ∧ inv ({[pgtab new]} ∪ tabs) M' r.2 ∧ areas new = areas sp ∧ space_ok M' new ∧ space_ok M' sp ∧
      ∀ t o, ubyte r.2 M' t o = ubyte s M (if decide (t = pgtab new) then pgtab sp else t) o
  | None => ¬ granted ∧ ∃ M', inv tabs M' r.2 ∧ space_ok M' sp ∧ same_bytes M s M' r.2
  end.

Lemma clone_done tabs M s sp new M' s' granted :
  space_ok M sp → pgtab new ∉ tabs → inv ({[pgtab new]} ∪ tabs) M' s' → mem s' = mem s → areas new = areas sp →
  cloning (pgtab sp) (pgtab new) (areas sp) M M' → clone_result tabs M s sp granted (Some new, s').
Proof.
  intros [Hl Hc] Hnew Hi' Hm Ea Hcl. exists M'. simpl. split; [done|]. split; [done|]. split; [done|].
  split; [split; rewrite Ea; [done|]; intros v; by apply (cloning_new (pgtab sp) _ _ M)|].
  split; [split; [done|]; intros v; by rewrite (cloning_old _ _ _ M M' v Hcl)|].
  intros t o. case_decide as Htn; [subst t|by apply (cloning_bytes (pgtab sp) (pgtab new) (areas sp))].
  unfold ubyte. rewrite (upage_same s s' M M' _ (pgtab sp, o / PAGE_SIZE)); [done|done|]. destruct Hcl as [H1 H2 _].
  destruct (covered_dec (areas sp) (o / PAGE_SIZE)) as [Hv|Hv].
  - destruct (H1 _ Hv) as (q & fl & fl' & -> & _ & ->). done.
  - rewrite (proj1 (H2 _ Hv)). destruct (M !! (pgtab sp, o / PAGE_SIZE)) eqn:E; [|done]. destruct Hv. apply Hc. by rewrite E.
Qed.

Lemma clone_areas_ok tabs M s sp new M' s' pre l pools :
  inv tabs M s → pgtab sp ∈ tabs → space_ok M sp → pgtab new ∉ tabs → inv ({[pgtab new]} ∪ tabs) M' s' → mem s' = mem s →
  areas sp = pre ++ l → areas new = pre → cloning (pgtab sp) (pgtab new) pre M M' →
  wp (clone_areas l pools (pgtab sp) new false s') oom
    (clone_result tabs M s sp (∀ i : nat, (i < length l)%nat → pools !! i = Some true)).
Proof.
  intros Hi Ht Hsp Hnew. revert pools new Hnew M' s' pre. induction l as [|a l IH]; intros pools new Hnew M' s' pre Hi' Hm Ea En Hcl; cbn [clone_areas].
  { rewrite app_nil_r in Ea. subst pre. apply (clone_done tabs M s sp new M' s'); congruence || by rewrite Ea. }
  pose proof Hsp as [Hl Hc]. rewrite Ea in Hl. pose proof Hl as (m & Hlp & Hm1 & Hok & Hlr)%laid_app.
  assert (Hne : pgtab sp ≠ pgtab new) by congruence. pose proof (laid_le _ _ _ Hlr) as Hle.
  assert (Hpl : laid PAGE_SIZE pre VIRT_KERNEL_BASE) by (apply (laid_hi _ _ m); [done|]; destruct Hok; unfold a_end in *; lia).
  assert (Hfail : ∀ (G : Prop), ¬ G → wp (s ← vm_space_destroy new s'; Ok (None, s)) oom (clone_result tabs M s sp G)).
  { intros G HG. destruct (destroy_clone tabs M s M' s' sp new) as (s2 & M2 & -> & H); try done; [by rewrite En|by rewrite En|]. split; [done|]. by exists M2. }
  destruct pools as [|[] pools]; [apply Hfail; intros H; discriminate (H 0%nat ltac:(simpl; lia))| |apply Hfail; intros H; discriminate (H 0%nat ltac:(simpl; lia))].
  apply wp_bind. eapply wp_mono; [apply (vm_user_clone_ok ({[pgtab new]} ∪ tabs) M' s' (pgtab sp) (pgtab new) (a_start a) (a_length a)); try done; [set_solver..|]|done|].
  { apply (area_range PAGE_SIZE (pre ++ a :: l)); [done|done|]. apply elem_of_app. right. left. }
  intros [r s1] (M1 & e & Hi1 & Hm1' & Hcl1 & He). simpl in Hi1, Hm1', He.
  assert (Hdisj : ∀ v, covered_by pre v → ¬ covered_by [a] v).
  { intros v Hv Hva%covered_one. pose proof (covered_laid _ _ _ _ Hlp Hv). lia. }
  destruct He as [[-> ->]|(_ & Hea & Hnone)].
  - cbn [Z.ltb Z.compare]. eapply wp_mono; [apply (IH pools (MkSpace (pgtab new) (areas new ++ [a])) Hnew M1 s1 (pre ++ [a])); try done; [congruence|by rewrite <- app_assoc|by rewrite En|]|done|].
    + by apply (cloning_step (pgtab sp) (pgtab new) pre a M M' M1).
    + intros [o s2]. unfold clone_result. simpl. destruct o; [done|]. intros [HG H]. split; [|done]. intros Hg. apply HG. intros i Hlt. apply (Hg (S i)). simpl. lia.
  - exfalso. assert (Hv : covered_by [a] (e / PAGE_SIZE)).
    { apply covered_one. destruct Hok as (? & ? & ?). unfold a_end, PAGE_SIZE in *. Z.to_euclidean_division_equations. lia. }
    destruct Hcl as [_ H2 _]. destruct (H2 (e / PAGE_SIZE)) as [_ E]; [intros Hp; by apply (Hdisj _ Hp)|]. rewrite E in Hnone.
    assert (Hs : is_Some (M !! (pgtab sp, e / PAGE_SIZE))) by (apply Hc; rewrite Ea, covered_app, covered_cons; tauto). rewrite Hnone in Hs. by destruct Hs.
Qed.

(** [vm_space_clone] (fork) when the pools grant all entries returns a new
    address space with the same areas, in which every byte of the original is
    seen, and no byte of any other address space changes; both spaces are well
    formed.  When a pool refuses, everything that was allocated is given back
    and no byte has changed. *)
Theorem vm_space_clone_spec tabs M s sp pool pools :
  inv tabs M s → pgtab sp ∈ tabs → space_ok M sp →
  wp (vm_space_clone sp false pool pools s) oom
    (clone_result tabs M s sp (pool = true ∧ ∀ i : nat, (i < length (areas sp))%nat → pools !! i = Some true)).
Proof.
  intros Hi Ht Hsp. unfold vm_space_clone, vm_space_create. destruct pool; cbn [negb].
  2:{ simpl. split; [by intros [? _]|]. by exists M. }
  apply wp_bind, wp_bind. eapply wp_mono; [by apply create_inv|done|]. intros [[t x] st] [Hnt Hi1]. cbn [wp mbind outcome_bind].
  eapply wp_mono; [apply (clone_areas_ok tabs M s sp (MkSpace t []) M (set_pg st (set_pt x s)) [] (areas sp)); try done|done|].
  - split; [intros v (a & Ha & _); by apply elem_of_nil in Ha| |done]. intros v _. split; [by apply (no_table tabs M s)|done].
  - intros [o s1]. unfold clone_result. simpl. destruct o; [done|]. intros [HG H]. split; [|done]. by intros [_ Hg].
Qed.

(** [vm_space_destroy] of a well-formed address space never stops: it gives
    back its pages and its table, and no byte of another address space changes. *)
Theorem vm_space_destroy_spec tabs M s sp :
  inv tabs M s → pgtab sp ∈ tabs → space_ok M sp →
  ∃ s' M', vm_space_destroy sp s = Ok s' ∧ inv (tabs ∖ {[pgtab sp]}) M' s' ∧
    (∀ v, M' !! (pgtab sp, v) = None) ∧ ∀ t o, t ≠ pgtab sp → ubyte s' M' t o = ubyte s M t o.
Proof.
  intros Hi Ht Hsp. destruct (destroy_space tabs M s sp Hi Ht Hsp) as (s' & M' & E & Hi' & Hm & Hn & Ho). exists s', M'. split; [done|]. split; [done|]. split; [done|].
  intros t o Hne. unfold ubyte. rewrite (upage_same s s' M M' _ (t, o / PAGE_SIZE)); [done|done|]. by rewrite Ho.
Qed.

End theory.

End VmSpace.
