(* ===== verification/VmImage.v ===== *)
(** A concrete machine: two address spaces on ARM.

    A kernel table, two user tables and some pages of user memory, built by the
    code itself from 4 MiB of free memory.  The witnesses of the theorems about
    virtual memory evaluate it. *)

From S2P Require Import Prelude Bitmap PageAlloc Bytes VmArch Vm ArmVm VmSpace.
Import PageAlloc Bytes VmArch Vm ArmVm VmSpace.
#[local] Open Scope Z_scope.

Module VmImage.

Definition prot : Z := Z.lor VM_READ (Z.lor VM_WRITE VM_USER).
Definition base : Z := 0x10000.
Definition stack : Z := VIRT_KERNEL_BASE - PAGE_SIZE.

(** The kernel table ([arch_vm_init] without the mappings of the kernel), then
    two user tables. *)
Definition boot_kernel : outcome (tables * pstate) :=
  '(p, st) ← page_alloc_block one_block 2 PAGE_ALLOC_ZERO PAGE_TAG_KERNEL_VM;
  st ← page_inc_ref st p;
  pa ← page2pa st p;
  Ok (MkTables pa ∅, st).

Definition boot_tables : outcome (Z * Z * tables * pstate) :=
  '(x, st) ← boot_kernel;
  '(t1, x, st) ← arch_vm_create x st;
  '(t2, x, st) ← arch_vm_create x st;
  Ok (t1, t2, x, st).

(** Two pages of data and one of stack in the first address space. *)
Definition boot : outcome (Z * Z * vms tables) :=
  '(t1, t2, x, st) ← boot_tables;
  '(_, s) ← vm_user_alloc (MkVms x st ∅ false) t1 base (2 * PAGE_SIZE) prot;
  '(_, s) ← vm_user_alloc s t1 stack PAGE_SIZE prot;
  Ok (t1, t2, s).

Definition tables_ok (tabs : gset Z) x st : Prop :=
  rep tabs ∅ x st ∧ wf st ∧ ∀ q r, ¬ live st q r PAGE_TAG_ANON.

Lemma one_block_empty q r tag : ¬ live one_block q r tag.
Proof.
  intros (Hq & _ & Hn). apply Hn. exists 10%nat, 0. split; [by apply one_block_free|]. unfold in_blk. change (bsize 10) with 1024. exact Hq.
Qed.

Lemma boot_kernel_ok : wp boot_kernel oom (λ r, tables_ok ∅ r.1 r.2).
Proof.
  unfold boot_kernel. pose proof (page_alloc_cases one_block 2 PAGE_ALLOC_ZERO PAGE_TAG_KERNEL_VM one_block_wf ltac:(unfold PAGE_ORDER_MAX; lia)) as Ha.
  destruct (page_alloc_block one_block 2 PAGE_ALLOC_ZERO PAGE_TAG_KERNEL_VM) as [[p st]|w]; [|exact Ha]. cbn [mbind outcome_bind].
  destruct Ha as [Hw [(Hp0 & _ & Hp1 & _) Hwas Hcov Hpg Hcnt _]]. change (bsize 2) with 4 in *.
  assert (Hl : live st p 0 PAGE_TAG_KERNEL_VM).
  { split; [rewrite Hcnt; lia|]. split; [rewrite Hpg; by rewrite decide_True by lia|]. rewrite Hcov. intros [_ Hn]. apply Hn, in_blk_first. }
  destruct (add_ref_live 1 st p 0 PAGE_TAG_KERNEL_VM Hw Hl) as (st2 & E2 & Hw2 & Hl2 & Hc2 & Hf2). unfold page_inc_ref. rewrite E2. cbn [mbind outcome_bind].
  rewrite page2pa_ok by apply Hl2. cbn [mbind outcome_bind wp fst snd]. split; [|split; [done|]].
  - split; try done. simpl. rewrite Z.div_mul by done. split; [by apply Z.mod_mul|done].
  - intros q r Hq. destruct (decide (q = p)) as [->|Hne]; [by destruct (live_unique _ _ _ _ _ _ Hq Hl2)|].
    apply Hf2 in Hq as (Hb & Hq & Hn); [|done]. rewrite Hpg in Hq. case_decide as Hi; [done|].
    apply (one_block_empty q r PAGE_TAG_ANON). split; [by rewrite <- Hcnt|]. split; [done|]. intros Hc. apply Hn, Hcov. split; [done|]. exact Hi.
Qed.

Lemma create_tables_ok tabs x st : tables_ok tabs x st →
  wp (arch_vm_create x st) oom (λ r, r.1.1 ∉ tabs ∧ tables_ok ({[r.1.1]} ∪ tabs) r.1.2 r.2).
Proof.
  intros (R & Hw & Hn). pose proof (arch_vm_create_ok tabs ∅ x st R Hw) as H. destruct (arch_vm_create x st) as [[[t x'] st']|w]; [|exact H].
  destruct H as (Ht & R' & Hw' & _ & Hlv). split; [done|]. split; [done|]. split; [done|]. intros q r. rewrite Hlv by done. apply Hn.
Qed.

Lemma boot_tables_ok : wp boot_tables oom (λ '(t1, t2, x, st), t1 ≠ t2 ∧ tables_ok {[t1; t2]} x st).
Proof.
  unfold boot_tables. apply wp_bind. eapply wp_mono; [apply boot_kernel_ok|done|]. intros [x st] H0. simpl in H0.
  apply wp_bind. eapply wp_mono; [by apply (create_tables_ok ∅)|done|]. intros [[t1 x1] st1] [_ H1]. simpl in H1. rewrite union_empty_r_L in H1.
  apply wp_bind. eapply wp_mono; [by apply (create_tables_ok {[t1]})|done|]. intros [[t2 x2] st2] [Hne H2]. simpl in *.
  split; [set_solver|]. by rewrite union_comm_L.
Qed.

(** Page [v] of [t] is in memory of its own, with all rights of data. *)
Definition data_page (M : mapping) t v : Prop := ∃ p, M !! (t, v) = Some (p, Z.lor prot VM_PAGE) ∧ refs M p = 1.

Definition ready '(t1, t2, s) : Prop :=
  t1 ≠ t2 ∧ ∃ M, inv {[t1; t2]} M s ∧
    ∀ v, if decide (base / PAGE_SIZE ≤ v < base / PAGE_SIZE + 2 ∨ v = stack / PAGE_SIZE) then data_page M t1 v else M !! (t1, v) = None.

Lemma tables_inv tabs x st : tables_ok tabs x st → inv tabs ∅ (MkVms x st ∅ false).
Proof.
  intros (R & Hw & Hn). split; [|done]. exists (ptes ∅). split; try done.
  - exists ∅. done.
  - intros [t v] p. unfold ptes. case_decide; [|done]. by rewrite lookup_empty.
  - intros p [Hr|[? E]]; [|by rewrite lookup_empty in E]. unfold refs in Hr. rewrite map_filter_empty, map_size_empty in Hr. lia.
  - intros p r Hp. by destruct (Hn p r).
Qed.

Lemma boot_ok : wp boot oom ready.
Proof.
  unfold boot. apply wp_bind. eapply wp_mono; [apply boot_tables_ok|done|]. intros [[[t1 t2] x] st] [Hne H0].
  apply wp_bind. eapply wp_mono; [apply (vm_user_alloc_ok {[t1; t2]} ∅); [by apply tables_inv|set_solver|done..]|done|].
  intros [r1 s1] (_ & M1 & Hi1 & A1). simpl in Hi1, A1.
  apply wp_bind. eapply wp_mono; [apply (vm_user_alloc_ok {[t1; t2]} M1); [done|set_solver|done..]|done|].
  intros [r2 s2] (_ & M2 & Hi2 & A2). simpl in Hi2, A2. split; [done|]. exists M2. split; [done|].
  change (round_up_page (base + 2 * PAGE_SIZE)) with (base + 2 * PAGE_SIZE) in A1. change (round_up_page (stack + PAGE_SIZE)) with VIRT_KERNEL_BASE in A2.
  intros v. case_decide as Hv; [destruct Hv as [Hv| ->]|].
  - change (base / PAGE_SIZE) with 16 in Hv.
    assert (H1 : in_range t1 base (base + 2 * PAGE_SIZE) (t1, v)) by (split; [done|]; change base with 65536; unfold PAGE_SIZE; simpl; lia).
    assert (H2 : ¬ in_range t1 stack VIRT_KERNEL_BASE (t1, v)) by (intros [_ H]; unfold stack, VIRT_KERNEL_BASE, PAGE_SIZE in H; simpl in H; lia).
    destruct (ar_new _ _ _ _ _ _ _ _ A1 _ H1) as [(p & Hp & Hr) _]. exists p. destruct (ar_old _ _ _ _ _ _ _ _ A2 _ H2) as [E _].
    rewrite E. split; [done|]. by apply (ar_refs _ _ _ _ _ _ _ _ A2 _ p _ H2 Hp).
  - apply (ar_new _ _ _ _ _ _ _ _ A2). split; [done|]. vm_compute. split; congruence.
  - change (base / PAGE_SIZE) with 16 in Hv. change (stack / PAGE_SIZE) with 524287 in Hv.
    assert (H1 : ¬ in_range t1 base (base + 2 * PAGE_SIZE) (t1, v)) by (intros [_ H]; change base with 65536 in H; unfold PAGE_SIZE in H; simpl in H; lia).
    assert (H2 : ¬ in_range t1 stack VIRT_KERNEL_BASE (t1, v)) by (intros [_ H]; unfold stack, VIRT_KERNEL_BASE, PAGE_SIZE in H; simpl in H; lia).
    destruct (ar_old _ _ _ _ _ _ _ _ A2 _ H2) as [-> _]. by destruct (ar_old _ _ _ _ _ _ _ _ A1 _ H1) as [-> _].
Qed.

Definition machine : Z * Z * vms tables := match boot with Ok r => r | Panic _ => (0, 0, MkVms (MkTables 0 ∅) one_block ∅ false) end.

Lemma machine_ready : ready machine.
Proof.
  assert (E : match boot with Ok _ => true | Panic _ => false end = true) by (vm_compute; reflexivity).
  pose proof boot_ok as H. unfold machine. destruct boot as [r|]; [exact H|discriminate E].
Qed.

Definition parent : Z := machine.1.1.
Definition child : Z := machine.1.2.
Definition state : vms tables := machine.2.
Definition tabs : gset Z := {[parent; child]}.

Lemma parent_tab : parent ∈ tabs.
Proof. apply elem_of_union_l. by apply elem_of_singleton. Qed.
Lemma child_tab : child ∈ tabs.
Proof. apply elem_of_union_r. by apply elem_of_singleton. Qed.

Lemma state_pages : parent ≠ child ∧ ∃ M, inv tabs M state ∧
  ∀ v, if decide (base / PAGE_SIZE ≤ v < base / PAGE_SIZE + 2 ∨ v = stack / PAGE_SIZE) then data_page M parent v else M !! (parent, v) = None.
Proof. pose proof machine_ready as H. unfold tabs, parent, child, state. destruct machine as [[t1 t2] s]. exact H. Qed.

Lemma state_ready : parent ≠ child ∧ ∃ M, inv tabs M state ∧
  ∀ v, base / PAGE_SIZE ≤ v < base / PAGE_SIZE + 2 ∨ v = stack / PAGE_SIZE → data_page M parent v.
Proof.
  destruct state_pages as (Hne & M & Hi & Hd). split; [exact Hne|]. exists M. split; [exact Hi|]. intros v Hv. specialize (Hd v). by rewrite decide_True in Hd.
Qed.

Lemma data_range o : base ≤ o < base + 2 * PAGE_SIZE → base / PAGE_SIZE ≤ o / PAGE_SIZE < base / PAGE_SIZE + 2.
Proof. change base with (16 * 4096). unfold PAGE_SIZE. intros Ho. Z.to_euclidean_division_equations. lia. Qed.

Lemma vm_copy_roundtrip_witness :
  let src := [104; 105; 0] in let va := base + PAGE_SIZE - 1 in
  ∃ M, inv tabs M state ∧
  wp (vm_copy_out state parent src va) oom (λ r, ∃ M' c, inv tabs M' r.2 ∧ copied M state parent va src c M' r.2 ∧
    copy_end M parent va 3 r.1 c ∧ (r.1 = 0 → vm_copy_in r.2 parent va 3 = Ok (0, src, r.2))).
Proof.
  destruct state_ready as (_ & M & Hi & Hd). exists M. split; [exact Hi|].
  apply (vm_copy_roundtrip tabs M state parent (base + PAGE_SIZE - 1) [104; 105; 0] Hi parent_tab).
  - split; [discriminate|reflexivity].
  - discriminate.
  - repeat constructor; discriminate.
  - intros o q fl Ho Hq. destruct (Hd (o / PAGE_SIZE)) as (p & Hp & Hr).
    + left. apply data_range. change (Z.of_nat (length [104; 105; 0])) with 3 in Ho. unfold PAGE_SIZE in *. lia.
    + rewrite Hp in Hq. injection Hq as <- <-. by right.
Defined.

Lemma vm_fork_isolation_witness : ∃ M, inv tabs M state ∧
  wp (vm_user_clone state parent child base (2 * PAGE_SIZE) false) oom (λ r, ∃ M', inv tabs M' r.2 ∧ (r.1 = 0 →
    (∀ t o, ubyte r.2 M' t o = ubyte state M (if decide (t = child ∧ base ≤ o < round_up_page (base + 2 * PAGE_SIZE)) then parent else t) o) ∧
    (∀ t va l, t = parent ∨ t = child → base ≤ va → va + Z.of_nat (length l) ≤ base + 2 * PAGE_SIZE → va < VIRT_KERNEL_BASE → Forall byte l →
      writable M parent va (Z.of_nat (length l)) →
      wp (vm_copy_out r.2 t l va) oom (λ r2, r2.1 = 0 ∧ ∃ M2, inv tabs M2 r2.2 ∧ ∀ t' o,
        ubyte r2.2 M2 t' o = if decide (t' = t ∧ va ≤ o < va + Z.of_nat (length l)) then l !! Z.to_nat (o - va) else ubyte r.2 M' t' o)))) ∧
  writable M parent base (2 * PAGE_SIZE).
Proof.
  destruct state_ready as (Hne & M & Hi & Hd). exists M. split; [exact Hi|]. split.
  - apply (vm_fork_isolation tabs M state parent child base (2 * PAGE_SIZE) Hi parent_tab child_tab Hne); [split; [discriminate|reflexivity]|reflexivity|discriminate|discriminate].
  - intros o Ho. destruct (Hd (o / PAGE_SIZE)) as (p & Hp & _); [left; by apply data_range|]. exists p, (Z.lor prot VM_PAGE). split; [exact Hp|reflexivity].
Defined.

Lemma vm_user_check_buf_spec_witness : ∃ M, inv tabs M state ∧
  wp (vm_user_check_buf state parent base (2 * PAGE_SIZE) VM_WRITE) oom (λ r, ∃ M', inv tabs M' r.2 ∧
    (∀ t' o, ubyte r.2 M' t' o = ubyte state M t' o) ∧
    (r.1 = 0 ∧ (∀ o, base ≤ o < base + 2 * PAGE_SIZE → access M parent o VM_WRITE) ∨
     r.1 = - EFAULT ∧ ∃ o, base ≤ o < base + 2 * PAGE_SIZE ∧ ¬ access M parent o VM_WRITE)).
Proof.
  destruct state_ready as (_ & M & Hi & _). exists M. split; [exact Hi|].
  apply (vm_user_check_buf_spec tabs M state parent base (2 * PAGE_SIZE) VM_WRITE Hi parent_tab); [discriminate|reflexivity|discriminate].
Defined.

Lemma vm_user_check_str_spec_witness : ∃ M, inv tabs M state ∧
  ∃ r, vm_user_check_str state parent base VM_READ = Ok (r, state) ∧
    match r with inr n => string_at M state parent base n VM_READ | inl e => e = - EFAULT ∧ ∀ n, ¬ string_at M state parent base n VM_READ end.
Proof.
  destruct state_ready as (_ & M & Hi & _). exists M. split; [exact Hi|].
  apply (vm_user_check_str_spec tabs M state parent base VM_READ Hi parent_tab). split; discriminate.
Defined.

Definition session : list op :=
  [OClone parent child base (2 * PAGE_SIZE) false; OOut child [1; 2; 3] (base + PAGE_SIZE - 1); OFault parent base;
   OFree parent base PAGE_SIZE; OCheckBuf child base PAGE_SIZE VM_WRITE; OIn child base 5; OAlloc child base PAGE_SIZE prot].

Lemma session_ok : Forall (op_ok tabs) session.
Proof.
  unfold session. repeat apply Forall_cons_2; [..|constructor]; unfold op_ok, user_range;
    repeat match goal with
    | |- _ ∧ _ => split
    | |- parent ∈ tabs => exact parent_tab
    | |- child ∈ tabs => exact child_tab
    | |- parent ≠ child => exact (proj1 state_ready)
    | |- Forall _ _ => repeat constructor; discriminate
    | |- _ ≤ _ => discriminate
    | |- _ => reflexivity
    end.
Qed.

Lemma vm_refs_exact_witness : ∃ M, inv tabs M state ∧ Forall (op_ok tabs) session ∧
  wp (run session state) oom (λ s', ∃ M', inv tabs M' s' ∧ ∀ p r, live (pg s') p r PAGE_TAG_ANON ↔ 0 < refs M' p ∧ r = refs M' p).
Proof.
  destruct state_ready as (_ & M & Hi & _). exists M. split; [exact Hi|]. split; [exact session_ok|].
  exact (vm_refs_exact tabs M state session Hi session_ok).
Defined.

Lemma vm_user_check_buf_panics_witness : ∃ M, inv tabs M state ∧ access M parent stack VM_READ ∧
  wp (vm_user_check_buf state parent stack (2 * PAGE_SIZE) VM_READ)
    (λ w, oom w ∨ w = "user va must be below VIRT_KERNEL_BASE"%string) (λ _, False).
Proof.
  destruct state_ready as (_ & M & Hi & Hd). exists M. split; [exact Hi|].
  assert (Ha : access M parent stack VM_READ).
  { destruct (Hd (stack / PAGE_SIZE)) as (p & Hp & _); [by right|]. exists p, (Z.lor prot VM_PAGE). split; [exact Hp|reflexivity]. }
  split; [exact Ha|]. exact (vm_user_check_buf_panics tabs M state parent VM_READ Hi parent_tab Ha).
Defined.

Lemma arch_vm_destroy_spec_witness : ∃ l2 : gmap (Z * Z) Z, rep tabs l2 (pt state) (pg state) ∧ wf (pg state) ∧
  match arch_vm_destroy child (pt state) (pg state) with
  | Panic w => w = "pte still in use"%string ∧ mapped l2 (pt state) child
  | Ok st' => ¬ mapped l2 (pt state) child ∧ wf st' ∧
      (∀ q r tag, live st' q r tag ↔ live (pg state) q r tag ∧ ¬ (child / PAGE_SIZE ≤ q < child / PAGE_SIZE + 2) ∧ ¬ ∃ j, l2 !! (child, j) = Some q) ∧
      rep (tabs ∖ {[child]}) (filter (λ kv, kv.1.1 ≠ child) l2) (pt state) st'
  end.
Proof.
  destruct state_ready as (_ & M & [[P G] _] & _). destruct (g_rep _ _ _ _ _ G) as (l2 & R & _). exists l2. split; [exact R|].
  split; [exact (g_wf _ _ _ _ _ G)|]. exact (arch_vm_destroy_spec tabs l2 (pt state) (pg state) child R (g_wf _ _ _ _ _ G) child_tab).
Defined.

(** The address space of the parent, as areas. *)
Definition space : VMSpace := MkSpace parent [MkArea base (2 * PAGE_SIZE) prot; MkArea stack PAGE_SIZE prot].

Lemma space_ready : ∃ M, inv tabs M state ∧ space_ok M space.
Proof.
  destruct state_pages as (_ & M & Hi & Hd). exists M. split; [exact Hi|]. split.
  - cbn [areas space laid]. unfold area_ok, a_end. cbn [a_start a_length a_flags]. split_and!; first [discriminate|reflexivity].
  - intros v. specialize (Hd v). cbn [areas space pgtab]. rewrite covered_cons, !covered_one. unfold a_end. cbn [a_start a_length].
    change (base / PAGE_SIZE) with 16 in Hd. change (stack / PAGE_SIZE) with 524287 in Hd. unfold base, stack, VIRT_KERNEL_BASE, PAGE_SIZE in *. case_decide as Hv.
    + destruct Hd as (p & -> & _). split; [intros _; lia|by eexists].
    + rewrite Hd. split; [by intros []|]. intros H. exfalso. apply Hv. lia.
Qed.

Lemma vmspace_map_spec_witness : ∃ M, inv tabs M state ∧ space_ok M space ∧
  let base := map_base 0x20000 in let len := round_up_page 5000 in
  wp (vmspace_map space 0x20000 5000 prot true state) oom (λ '(r, sp', s'), ∃ M', inv tabs M' s' ∧
    (r = - EINVAL ∧ sp' = space ∧ same_bytes M state M' s' ∧ space_ok M' space ∧ ¬ (0 < len ∧ base + len ≤ VIRT_KERNEL_BASE) ∨
     r = - ENOMEM ∧ sp' = space ∧ same_bytes M state M' s' ∧ space_ok M' space ∧
       (true = false ∨ ∀ w, base ≤ w → w + len ≤ VIRT_KERNEL_BASE → meets (areas space) w len) ∨
     base ≤ r ∧ page_range r len ∧ ¬ meets (areas space) r len ∧ (∀ w, base ≤ w < r → meets (areas space) w len) ∧
       allocated_range M state (pgtab space) r (r + len) prot M' s' ∧ pgtab sp' = pgtab space ∧
       (¬ next_only (areas space) r len prot → space_ok M' sp'))).
Proof.
  destruct space_ready as (M & Hi & Hsp). exists M. split; [exact Hi|]. split; [exact Hsp|].
  apply (vmspace_map_spec tabs M state space 0x20000 5000 prot true Hi parent_tab Hsp); [split; discriminate|discriminate|split; [discriminate|reflexivity]].
Defined.

Lemma vmspace_map_merge_loses_witness : ∃ M, inv tabs M state ∧ space_ok M space ∧
  next_only (areas space) (base - PAGE_SIZE) (round_up_page PAGE_SIZE) prot ∧
  wp (vmspace_map space (base - PAGE_SIZE) PAGE_SIZE prot true state) oom (λ '(r, sp', s'),
    0 ≤ r → next_only (areas space) r (round_up_page PAGE_SIZE) prot → vm_space_destroy sp' s' = Panic "pte still in use").
Proof.
  destruct space_ready as (M & Hi & Hsp). exists M. split; [exact Hi|]. split; [exact Hsp|]. split.
  - split.
    + exists (MkArea base (2 * PAGE_SIZE) prot). split; [left|split; reflexivity].
    + intros (a & [->|[->|Ha%elem_of_nil]%elem_of_cons]%elem_of_cons & He & _); [discriminate He|discriminate He|done].
  - apply (vmspace_map_merge_loses tabs M state space (base - PAGE_SIZE) PAGE_SIZE prot true Hi parent_tab Hsp); [split; discriminate|discriminate|split; [discriminate|reflexivity]].
Defined.

Lemma vm_space_clone_spec_witness : ∃ M, inv tabs M state ∧ space_ok M space ∧
  wp (vm_space_clone space false true [true; true] state) oom
    (clone_result tabs M state space (true = true ∧ ∀ i : nat, (i < length (areas space))%nat → [true; true] !! i = Some true)).
Proof.
  destruct space_ready as (M & Hi & Hsp). exists M. split; [exact Hi|]. split; [exact Hsp|].
  exact (vm_space_clone_spec tabs M state space true [true; true] Hi parent_tab Hsp).
Defined.

Lemma vm_space_destroy_spec_witness : ∃ M, inv tabs M state ∧ space_ok M space ∧
  ∃ s' M', vm_space_destroy space state = Ok s' ∧ inv (tabs ∖ {[pgtab space]}) M' s' ∧
    (∀ v, M' !! (pgtab space, v) = None) ∧ ∀ t o, t ≠ pgtab space → ubyte s' M' t o = ubyte state M t o.
Proof.
  destruct space_ready as (M & Hi & Hsp). exists M. split; [exact Hi|]. split; [exact Hsp|].
  exact (vm_space_destroy_spec tabs M state space Hi parent_tab Hsp).
Defined.

End VmImage.
