(* ===== verification/Pipe.v ===== *)
(** Pipes (kernel/pipe.c).

    A pipe is a ring buffer with a mutex and two condition variables.  The
    handlers of read and write requests run on several service tasks; what one
    does between locking the mutex and releasing it, or waiting, is a turn, and
    the turns of the tasks interleave.  A wait on a condition variable releases
    the mutex and sleeps in one step, and a task that is woken locks the mutex
    again before it goes on (Kernel.v).  A request is seen as the bytes it still
    has to send, the room it has for an answer and the bytes it has been given;
    Request.v shows that the vectors of a request are that. *)

From S2P Require Import Prelude Bitmap PageAlloc Bytes VmArch.
Import PageAlloc Bytes VmArch.
#[local] Open Scope Z_scope.

Module Pipe.

Definition PIPE_BUF_ORDER : nat := 4.
Definition PIPE_BUF_SIZE : Z := PAGE_SIZE * 2 ^ Z.of_nat PIPE_BUF_ORDER.

Record Pipe := MkPipe {
  buf : list Z;
  size : Z;
  max_size : Z;
  read_open : bool;
  write_open : bool;
  read_pos : Z;
  write_pos : Z }.

(** The streams of a request: the bytes it still sends, the room that is left for
    bytes it receives, and those it has received. *)
Record Req := MkReq { send : list Z; room : Z; got : list Z }.

Implicit Types (p : Pipe) (q : Req) (n i : Z) (l : list Z).

Definition request_read q n : Z * list Z * Req :=
  let l := take (Z.to_nat n) (send q) in
  (Z.of_nat (length l), l, MkReq (drop (Z.to_nat n) (send q)) (room q) (got q)).
Definition request_write q l : Z * Req :=
  let r := Z.min (room q) (Z.of_nat (length l)) in
  (r, MkReq (send q) (room q - r) (got q ++ take (Z.to_nat r) l)).

Definition pipe_create (b : list Z) : Pipe := MkPipe b 0 PIPE_BUF_SIZE true true 0 0.

(** *** Reading *)

(** [nread] bytes leave the buffer. *)
Definition consume p nread : Pipe :=
  let pos := read_pos p + nread in
  MkPipe (buf p) (size p - nread) (max_size p) (read_open p) (write_open p)
    (if pos =? max_size p then 0 else pos) (write_pos p).

Definition read_chunk p n i : Z :=
  let nread := Z.min (size p) (n - i) in
  if max_size p <? read_pos p + nread then max_size p - read_pos p else nread.

(** The reply and the bytes that the request accepted. *)
Fixpoint read_loop (fuel : nat) p q n i (out : list Z) : outcome (Z * list Z * Req * Pipe) :=
  match fuel with
  | O => Panic "out of fuel"
  | S fuel =>
      if (i <? n) && (0 <? size p) then
        let nread := read_chunk p n i in
        let l := slice (buf p) (Z.to_nat (read_pos p)) (Z.to_nat nread) in
        let '(r, q) := request_write q l in
        if r <? 0 then Ok (r, out, q, p) else
        read_loop fuel (consume p nread) q n (i + nread) (out ++ take (Z.to_nat r) l)
      else Ok (i, out, q, p)
  end.

(** [None]: the task waits on [read_cond].  Otherwise it has notified all that
    wait on [write_cond]. *)
Definition read_turn p q n : outcome (option (Z * list Z) * Req * Pipe) :=
  if write_open p && (size p =? 0) then Ok (None, q, p) else
  '(r, out, q, p) ← read_loop (S (Z.to_nat n)) p q n 0 [];
  Ok (Some (r, out), q, p).

(** *** Writing *)

(** [nwrite] bytes enter the buffer, of which [l] came from the request. *)
Definition produce p nwrite l : Pipe :=
  let pos := write_pos p + nwrite in
  MkPipe (splice (buf p) (Z.to_nat (write_pos p)) l) (size p + nwrite) (max_size p) (read_open p) (write_open p)
    (read_pos p) (if pos =? max_size p then 0 else pos).

Definition write_chunk p n i : Z :=
  let nwrite := Z.min (max_size p - size p) (n - i) in
  if max_size p <? write_pos p + nwrite then max_size p - write_pos p else nwrite.

(** How the turn of a writer ends: waiting on [write_cond] with [i] bytes
    written, or with a reply.  [nt]: those that wait on [read_cond] were
    notified. *)
Inductive write_end := WWait (i : Z) | WReply (r : Z).

Fixpoint write_loop (fuel : nat) p q n i (nt : bool) : outcome (write_end * bool * Req * Pipe) :=
  match fuel with
  | O => Panic "out of fuel"
  | S fuel =>
      if i <? n then
        if read_open p && (size p =? max_size p) then Ok (WWait i, nt, q, p) else
        let nwrite := write_chunk p n i in
        let '(r, l, q) := request_read q nwrite in
        if r <? 0 then Ok (WReply r, nt, q, p) else
        write_loop fuel (produce p nwrite l) q n (i + nwrite) (nt || (size p =? 0))
      else Ok (WReply i, nt, q, p)
  end.

Definition write_turn p q n i : outcome (write_end * bool * Req * Pipe) :=
  write_loop (S (Z.to_nat (n - i))) p q n i false.

(** *** Closing *)

(** The pipe with one end closed, and whether those waiting at the other end are
    notified. *)
Definition close_turn p (write : bool) : bool * Pipe :=
  if write then (read_open p, MkPipe (buf p) (size p) (max_size p) (read_open p) false (read_pos p) (write_pos p))
  else (write_open p, MkPipe (buf p) (size p) (max_size p) false (write_open p) (read_pos p) (write_pos p)).

(** [pipe_select]: ready, not ready, or waiting when there is no timeout. *)
Definition select_turn p (timeout : bool) : option Z :=
  if size p =? 0 then if timeout then Some 0 else None else Some 1.

(** ** The buffer as a queue *)

(** The bytes in the pipe, oldest first. *)
Definition contents p : list Z :=
  (λ j, nth (Z.to_nat ((read_pos p + Z.of_nat j) mod max_size p)) (buf p) 0) <$> seq 0 (Z.to_nat (size p)).

Record wf p : Prop := {
  wf_max : 0 < max_size p;
  wf_buf : Z.of_nat (length (buf p)) = max_size p;
  wf_size : 0 ≤ size p ≤ max_size p;
  wf_read : 0 ≤ read_pos p < max_size p;
  wf_write : 0 ≤ write_pos p < max_size p;
  wf_pos : write_pos p = (read_pos p + size p) mod max_size p }.

Lemma contents_length p : wf p → Z.of_nat (length (contents p)) = size p.
Proof. intros W. unfold contents. rewrite length_fmap, length_seq. pose proof (wf_size p W). lia. Qed.

Lemma contents_lookup p j :
  wf p → Z.of_nat j < size p → contents p !! j = buf p !! Z.to_nat ((read_pos p + Z.of_nat j) mod max_size p).
Proof.
  intros W Hj. unfold contents. rewrite list_lookup_fmap, lookup_seq_lt by lia. simpl.
  destruct (lookup_lt_is_Some_2 (buf p) (Z.to_nat ((read_pos p + Z.of_nat j) mod max_size p))) as [b Hb].
  - pose proof (wf_max p W). pose proof (Z.mod_pos_bound (read_pos p + Z.of_nat j) (max_size p)). pose proof (wf_buf p W). lia.
  - rewrite Hb. f_equal. by apply nth_lookup_Some.
Qed.

(** Equality of a list with the contents, byte by byte. *)
Lemma contents_eq p l :
  wf p → Z.of_nat (length l) = size p →
  (∀ j, Z.of_nat j < size p → l !! j = buf p !! Z.to_nat ((read_pos p + Z.of_nat j) mod max_size p)) → l = contents p.
Proof.
  intros W Hl Hb. apply list_eq. intros j. destruct (decide (Z.of_nat j < size p)) as [Hj|Hj].
  - rewrite contents_lookup by done. by apply Hb.
  - pose proof (contents_length p W). by rewrite !lookup_ge_None_2 by lia.
Qed.

Lemma read_chunk_bounds p n i : wf p → i < n → 0 < size p →
  0 < read_chunk p n i ≤ Z.min (size p) (n - i) ∧ read_pos p + read_chunk p n i ≤ max_size p.
Proof. intros [] Hi Hs. unfold read_chunk. case_match; bool_to_prop; lia. Qed.

Lemma mod_wrap a m : 0 < m → 0 ≤ a < m + m → a mod m = if a <? m then a else a - m.
Proof.
  intros Hm Ha. destruct (Z.ltb_spec a m); [apply Z.mod_small; lia|].
  symmetry. apply (Z.mod_unique a m 1); lia.
Qed.

Lemma consume_ok p k : wf p → 0 < k ≤ size p → read_pos p + k ≤ max_size p →
  wf (consume p k) ∧ slice (buf p) (Z.to_nat (read_pos p)) (Z.to_nat k) = take (Z.to_nat k) (contents p) ∧
  contents (consume p k) = drop (Z.to_nat k) (contents p).
Proof.
  intros W Hk Hend. assert (W' : wf (consume p k)).
  { destruct W as [? ? ? ? ? Hw]. rewrite mod_wrap in Hw by lia.
    split; simpl; try done; try lia; [destruct (Z.eqb_spec (read_pos p + k) (max_size p)); lia|].
    rewrite mod_wrap by (destruct (Z.eqb_spec (read_pos p + k) (max_size p)); lia).
    destruct (Z.eqb_spec (read_pos p + k) (max_size p)); repeat case_match; bool_to_prop; lia. }
  split; [done|]. pose proof W as []. split.
  - apply list_eq. intros j. unfold slice. destruct (decide (j < Z.to_nat k)%nat) as [Hj|Hj].
    + rewrite !lookup_take_lt, lookup_drop, contents_lookup by (done || lia). f_equal.
      rewrite mod_wrap by lia. rewrite (proj2 (Z.ltb_lt _ _)) by lia. lia.
    + rewrite !lookup_take_ge by lia. done.
  - symmetry. apply contents_eq; [done|rewrite length_drop; simpl; pose proof (contents_length p W); lia|].
    intros j Hj. simpl in *. rewrite lookup_drop, contents_lookup by (done || lia). f_equal.
    rewrite Nat2Z.inj_add, Z2Nat.id by lia. rewrite !mod_wrap by (try destruct (Z.eqb_spec (read_pos p + k) (max_size p)); lia).
    destruct (Z.eqb_spec (read_pos p + k) (max_size p)); repeat case_match; bool_to_prop; lia.
Qed.

Lemma write_chunk_bounds p n i : wf p → i < n → size p < max_size p →
  0 < write_chunk p n i ≤ Z.min (max_size p - size p) (n - i) ∧ write_pos p + write_chunk p n i ≤ max_size p.
Proof. intros [] Hi Hs. unfold write_chunk. case_match; bool_to_prop; lia. Qed.

Lemma produce_ok p k l : wf p → 0 ≤ k ≤ max_size p - size p → write_pos p + k ≤ max_size p → Z.of_nat (length l) = k →
  wf (produce p k l) ∧ contents (produce p k l) = contents p ++ l.
Proof.
  intros W Hk Hend Hl. pose proof W as [? ? ? ? ? Hw].
  assert (Hpos : write_pos p = if read_pos p + size p <? max_size p then read_pos p + size p else read_pos p + size p - max_size p)
    by (rewrite Hw, mod_wrap by lia; done).
  assert (W' : wf (produce p k l)).
  { split; simpl; try done; try lia; [rewrite length_splice by lia; lia|destruct (Z.eqb_spec (write_pos p + k) (max_size p)); lia|].
    destruct (decide (read_pos p + (size p + k) = max_size p + max_size p)) as [E|E]; [lia|]. rewrite mod_wrap by lia.
    destruct (Z.eqb_spec (write_pos p + k) (max_size p)); repeat case_match; bool_to_prop; lia. }
  split; [done|]. symmetry. apply contents_eq; [done|rewrite length_app; simpl; pose proof (contents_length p W); lia|].
  intros j Hj. simpl in *. rewrite mod_wrap by lia. rewrite lookup_splice by lia.
  destruct (decide (Z.of_nat j < size p)) as [Hj'|Hj'].
  - rewrite lookup_app_l by (pose proof (contents_length p W); lia). rewrite contents_lookup by done. rewrite mod_wrap by lia.
    rewrite decide_False; [done|]. repeat case_match; bool_to_prop; lia.
  - rewrite lookup_app_r by (pose proof (contents_length p W); lia). pose proof (contents_length p W).
    rewrite decide_True by (repeat case_match; bool_to_prop; lia). f_equal. repeat case_match; bool_to_prop; lia.
Qed.

(** What a change of the contents leaves alone. *)
Definition same_ends p p' : Prop :=
  max_size p' = max_size p ∧ read_open p' = read_open p ∧ write_open p' = write_open p.

Lemma pipe_read_loop_ok fuel p q n i out :
  wf p → 0 ≤ i ≤ n → n - i ≤ room q → n - i < Z.of_nat fuel →
  let k := Z.min (size p) (n - i) in
  ∃ p', read_loop fuel p q n i out = Ok (i + k, out ++ take (Z.to_nat k) (contents p), MkReq (send q) (room q - k) (got q ++ take (Z.to_nat k) (contents p)), p') ∧
    wf p' ∧ same_ends p p' ∧ contents p' = drop (Z.to_nat k) (contents p).
Proof.
  revert p q i out. induction fuel as [|fuel IH]; intros p q i out W Hi Hr Hf k; [lia|]. cbn [read_loop].
  destruct (Z.ltb_spec i n) as [Hin|Hin]; [destruct (Z.ltb_spec 0 (size p)) as [Hs|Hs]|]; cbn [andb].
  2,3: pose proof (wf_size p W); exists p; replace k with 0 by lia; rewrite Z.add_0_r, Z.sub_0_r; change (take (Z.to_nat 0) (contents p)) with (@nil Z); rewrite !app_nil_r; destruct q; split_and!; done.
  destruct (read_chunk_bounds p n i W Hin Hs) as [Hc Hce]. set (c := read_chunk p n i) in *.
  destruct (consume_ok p c W) as (W' & -> & Hd); [lia|lia|]. unfold request_write.
  assert (Hlen : Z.of_nat (length (take (Z.to_nat c) (contents p))) = c) by (rewrite length_take; pose proof (contents_length p W); lia).
  rewrite Hlen, (Z.min_r (room q)) by lia. rewrite (proj2 (Z.ltb_ge c 0)) by lia.
  destruct (IH (consume p c) (MkReq (send q) (room q - c) (got q ++ take (Z.to_nat c) (take (Z.to_nat c) (contents p)))) (i + c) (out ++ take (Z.to_nat c) (take (Z.to_nat c) (contents p))) W')
    as (p' & -> & W2 & (Hm & Hro & Hwo) & Hc2); [lia|simpl; lia|lia|]. exists p'. simpl in *.
  assert (Ek : k = c + Z.min (size p - c) (n - (i + c))) by lia. rewrite Hd, take_take, Nat.min_id in *. split; [|split; [done|split; [done|]]].
  - rewrite <- !app_assoc, !take_take_drop, <- Z2Nat.inj_add, <- Z.add_assoc, <- Ek by lia. by replace (room q - c - _) with (room q - k) by lia.
  - rewrite Hc2, drop_drop. f_equal. lia.
Qed.

Lemma pipe_write_loop_ok fuel p q n i nt :
  wf p → 0 ≤ i ≤ n → n - i ≤ Z.of_nat (length (send q)) → n - i < Z.of_nat fuel →
  (read_open p = true ∨ n - i ≤ max_size p - size p) →
  let k := Z.min (max_size p - size p) (n - i) in
  ∃ p', write_loop fuel p q n i nt = Ok (if i + k =? n then WReply n else WWait (i + k), nt || ((size p =? 0) && (0 <? k)),
      MkReq (drop (Z.to_nat k) (send q)) (room q) (got q), p') ∧
    wf p' ∧ same_ends p p' ∧ contents p' = contents p ++ take (Z.to_nat k) (send q).
Proof.
  revert p q i nt. induction fuel as [|fuel IH]; intros p q i nt W Hi Hr Hf Ho k; [lia|]. cbn [write_loop].
  pose proof (wf_size p W) as Hsz. destruct (Z.ltb_spec i n) as [Hin|Hin].
  2:{ exists p. replace k with 0 by lia. replace i with n by lia. rewrite Z.add_0_r, Z.eqb_refl, andb_false_r, orb_false_r. simpl.
      rewrite app_nil_r, drop_0. destruct q. split_and!; done. }
  destruct (Z.eqb_spec (size p) (max_size p)) as [Hfull|Hfull].
  { destruct Ho as [->|?]; [|lia]. exists p. replace k with 0 by lia. rewrite Z.add_0_r, (proj2 (Z.eqb_neq i n)) by lia. simpl.
    rewrite andb_false_r, orb_false_r, app_nil_r, drop_0. destruct q. split_and!; done. }
  rewrite andb_false_r. destruct (write_chunk_bounds p n i W Hin) as [Hc Hce]; [lia|]. set (c := write_chunk p n i) in *.
  unfold request_read. set (l := take (Z.to_nat c) (send q)). assert (Hl : Z.of_nat (length l) = c) by (subst l; rewrite length_take; lia).
  rewrite (proj2 (Z.ltb_ge _ 0)) by lia. destruct (produce_ok p c l W) as [W' Hp]; [lia..|].
  destruct (IH (produce p c l) (MkReq (drop (Z.to_nat c) (send q)) (room q) (got q)) (i + c) (nt || (size p =? 0)) W')
    as (p' & -> & W2 & (Hm & Hro & Hwo) & Hc2); [lia|simpl; rewrite length_drop; lia|lia|simpl; destruct Ho; [by left|right; lia]|]. simpl in *.
  exists p'. assert (Ek : k = c + Z.min (max_size p - (size p + c)) (n - (i + c))) by lia. split; [|split; [done|split; [done|]]].
  - rewrite (proj2 (Z.eqb_neq (size p + c) 0)) by lia. rewrite orb_false_r, drop_drop.
    rewrite (proj2 (Z.ltb_lt 0 k)), andb_true_r by lia. replace (i + c + Z.min (max_size p - (size p + c)) (n - (i + c))) with (i + k) by lia.
    by rewrite <- Z2Nat.inj_add, <- Ek by lia.
  - rewrite Hc2, Hp, <- app_assoc. f_equal. subst l. rewrite take_take_drop. f_equal. lia.
Qed.

(** ** The requests of many tasks *)

(** Where a handler is: about to lock the mutex, first or after a wait, or
    waiting on a condition variable. *)
Inductive pc :=
| PRead (n : Z) (q : Req) | PReadWait (n : Z) (q : Req)
| PWrite (n i : Z) (q : Req) | PWriteWait (n i : Z) (q : Req)
| PSelect (timeout : bool) | PSelectWait.

Record sys := MkSys { pipe : Pipe; tasks : gmap nat pc }.

Definition wake_reader (c : pc) : pc :=
  match c with PReadWait n q => PRead n q | PSelectWait => PSelect false | c => c end.
Definition wake_writer (c : pc) : pc := match c with PWriteWait n i q => PWrite n i q | c => c end.

(** The end of the pipe a handler works at. *)
Definition writes (c : pc) : bool := match c with PWrite _ _ _ | PWriteWait _ _ _ => true | _ => false end.

(** One step, with the bytes that enter and leave the pipe.  Requests come at
    open ends and have the bytes, or the room, they announce.  An end is closed
    when nobody uses it any more.  A lock or a wait can fail, which ends the
    request, and the memory of the writer can change while it waits. *)
Inductive step (s : sys) : list Z → list Z → sys → Prop :=
| step_read_request t n q :
    tasks s !! t = None → read_open (pipe s) = true → 0 ≤ n ≤ room q → step s [] [] (MkSys (pipe s) (<[t := PRead n q]> (tasks s)))
| step_write_request t n q :
    tasks s !! t = None → write_open (pipe s) = true → 0 ≤ n ≤ Z.of_nat (length (send q)) →
    step s [] [] (MkSys (pipe s) (<[t := PWrite n 0 q]> (tasks s)))
| step_select_request t b :
    tasks s !! t = None → read_open (pipe s) = true → step s [] [] (MkSys (pipe s) (<[t := PSelect b]> (tasks s)))
| step_read_wait t n q q' p' :
    tasks s !! t = Some (PRead n q) → read_turn (pipe s) q n = Ok (None, q', p') →
    step s [] [] (MkSys p' (<[t := PReadWait n q']> (tasks s)))
| step_read_done t n q r out q' p' :
    tasks s !! t = Some (PRead n q) → read_turn (pipe s) q n = Ok (Some (r, out), q', p') →
    step s [] out (MkSys p' (wake_writer <$> delete t (tasks s)))
| step_write_wait t n i q i' nt q' p' :
    tasks s !! t = Some (PWrite n i q) → write_turn (pipe s) q n i = Ok (WWait i', nt, q', p') →
    step s (take (length (send q) - length (send q')) (send q)) []
      (MkSys p' (<[t := PWriteWait n i' q']> (if nt then wake_reader <$> tasks s else tasks s)))
| step_write_done t n i q r nt q' p' :
    tasks s !! t = Some (PWrite n i q) → write_turn (pipe s) q n i = Ok (WReply r, nt, q', p') →
    step s (take (length (send q) - length (send q')) (send q)) []
      (MkSys p' (delete t (if nt then wake_reader <$> tasks s else tasks s)))
| step_select_wait t b :
    tasks s !! t = Some (PSelect b) → select_turn (pipe s) b = None → step s [] [] (MkSys (pipe s) (<[t := PSelectWait]> (tasks s)))
| step_select_done t b r :
    tasks s !! t = Some (PSelect b) → select_turn (pipe s) b = Some r → step s [] [] (MkSys (pipe s) (delete t (tasks s)))
| step_fail t c : tasks s !! t = Some c → step s [] [] (MkSys (pipe s) (delete t (tasks s)))
| step_memory t n i q l :
    tasks s !! t = Some (PWriteWait n i q) → length l = length (send q) →
    step s [] [] (MkSys (pipe s) (<[t := PWriteWait n i (MkReq l (room q) (got q))]> (tasks s)))
| step_close_write :
    write_open (pipe s) = true → (∀ t c, tasks s !! t = Some c → writes c = false) →
    step s [] [] (let '(nt, p') := close_turn (pipe s) true in MkSys p' (if nt then wake_reader <$> tasks s else tasks s))
| step_close_read :
    read_open (pipe s) = true → (∀ t c, tasks s !! t = Some c → writes c = true) →
    step s [] [] (let '(nt, p') := close_turn (pipe s) false in MkSys p' (if nt then wake_writer <$> tasks s else tasks s)).

(** Runs, with all bytes that entered and left. *)
Inductive steps (s : sys) : list Z → list Z → sys → Prop :=
| steps_refl : steps s [] [] s
| steps_step ins1 outs1 s1 ins2 outs2 s2 :
    steps s ins1 outs1 s1 → step s1 ins2 outs2 s2 → steps s (ins1 ++ ins2) (outs1 ++ outs2) s2.

(** A handler that waits has a reason to. *)
Definition pc_ok p (c : pc) : Prop :=
  match c with
  | PRead n q => read_open p = true ∧ 0 ≤ n ≤ room q
  | PReadWait n q => (read_open p = true ∧ 0 ≤ n ≤ room q) ∧ write_open p = true ∧ size p = 0
  | PWrite n i q => write_open p = true ∧ 0 ≤ i ≤ n ∧ n - i ≤ Z.of_nat (length (send q))
  | PWriteWait n i q =>
      (write_open p = true ∧ 0 ≤ i ≤ n ∧ n - i ≤ Z.of_nat (length (send q))) ∧ read_open p = true ∧ size p = max_size p ∧ i < n
  | PSelect _ => read_open p = true
  | PSelectWait => read_open p = true ∧ size p = 0
  end.

Definition sys_ok s : Prop := wf (pipe s) ∧ map_Forall (λ _, pc_ok (pipe s)) (tasks s).

Lemma size_contents p p' : wf p → wf p' → contents p' = contents p → size p' = size p.
Proof. intros W W' E. by rewrite <- (contents_length p), <- (contents_length p'), E. Qed.

(** Handlers that do not depend on the contents of the pipe. *)
Lemma pc_ok_ends p p' c :
  same_ends p p' → pc_ok p c → match c with PReadWait _ _ | PWriteWait _ _ _ | PSelectWait => size p' = size p | _ => True end → pc_ok p' c.
Proof. intros (Em & Er & Ew). destruct c; simpl; rewrite ?Er, ?Ew, ?Em; try done; by intros ? ->. Qed.

Lemma wake_reader_ok p p' c :
  same_ends p p' → pc_ok p c → match c with PWriteWait _ _ _ => size p' = size p | _ => True end → pc_ok p' (wake_reader c).
Proof. intros (Em & Er & Ew). destruct c; simpl; rewrite ?Er, ?Ew, ?Em; try done; try tauto. by intros ? ->. Qed.

Lemma wake_writer_ok p p' c :
  same_ends p p' → pc_ok p c → match c with PReadWait _ _ | PSelectWait => size p' = size p | _ => True end → pc_ok p' (wake_writer c).
Proof. intros (Em & Er & Ew). destruct c; simpl; rewrite ?Er, ?Ew, ?Em; try done; try tauto; by intros ? ->. Qed.

Lemma read_turn_ok p q n :
  wf p → 0 ≤ n ≤ room q →
  (write_open p = true ∧ size p = 0 ∧ read_turn p q n = Ok (None, q, p)) ∨
  (write_open p = false ∨ 0 < size p) ∧ let k := Z.min (size p) n in
  ∃ p', read_turn p q n = Ok (Some (k, take (Z.to_nat k) (contents p)), MkReq (send q) (room q - k) (got q ++ take (Z.to_nat k) (contents p)), p') ∧
    wf p' ∧ same_ends p p' ∧ contents p = take (Z.to_nat k) (contents p) ++ contents p'.
Proof.
  intros W Hn. unfold read_turn. pose proof (wf_size p W) as Hs. destruct (write_open p) eqn:Hw; [destruct (Z.eqb_spec (size p) 0) as [E|E]|]; cbn [andb].
  - left. done.
  - right. split; [right; lia|]. destruct (pipe_read_loop_ok (S (Z.to_nat n)) p q n 0 [] W) as (p' & -> & W' & He & Hc); [lia..|].
    rewrite Z.sub_0_r in *. exists p'. split; [done|]. split; [done|]. split; [done|]. by rewrite Hc, take_drop.
  - right. split; [by left|]. destruct (pipe_read_loop_ok (S (Z.to_nat n)) p q n 0 [] W) as (p' & -> & W' & He & Hc); [lia..|].
    rewrite Z.sub_0_r in *. exists p'. split; [done|]. split; [done|]. split; [done|]. by rewrite Hc, take_drop.
Qed.

(** A writer that finds the pipe full and its reader gone never leaves the loop. *)
Lemma write_loop_diverges fuel p q n i nt :
  wf p → read_open p = false → 0 ≤ i → max_size p - size p < n - i ≤ Z.of_nat (length (send q)) → write_loop fuel p q n i nt = Panic "out of fuel".
Proof.
  revert p q i nt. induction fuel as [|fuel IH]; intros p q i nt W Ho Hi Hn; [done|]. cbn [write_loop].
  pose proof (wf_size p W) as Hs. rewrite (proj2 (Z.ltb_lt i n)), Ho by lia. cbn [andb].
  assert (Hc : 0 ≤ write_chunk p n i ≤ max_size p - size p ∧ write_pos p + write_chunk p n i ≤ max_size p).
  { pose proof (wf_write p W). unfold write_chunk. case_match; bool_to_prop; lia. }
  set (c := write_chunk p n i) in *. unfold request_read. set (l := take (Z.to_nat c) (send q)).
  assert (Hl : Z.of_nat (length l) = c) by (subst l; rewrite length_take; lia). rewrite (proj2 (Z.ltb_ge _ 0)) by lia.
  destruct (produce_ok p c l W) as [W' _]; [lia..|]. apply IH; [done|done|lia|simpl; rewrite length_drop; lia].
Qed.

Lemma write_turn_ok p q n i e nt q' p' :
  wf p → 0 ≤ i ≤ n → n - i ≤ Z.of_nat (length (send q)) → write_turn p q n i = Ok (e, nt, q', p') →
  let k := Z.min (max_size p - size p) (n - i) in
  wf p' ∧ same_ends p p' ∧ contents p' = contents p ++ take (Z.to_nat k) (send q) ∧ q' = MkReq (drop (Z.to_nat k) (send q)) (room q) (got q) ∧
  nt = (size p =? 0) && (0 <? k) ∧ e = (if i + k =? n then WReply n else WWait (i + k)) ∧ (i + k < n → read_open p = true).
Proof.
  intros W Hi Hn E k. unfold write_turn in E. destruct (decide (read_open p = true ∨ n - i ≤ max_size p - size p)) as [Ho|Ho].
  - destruct (pipe_write_loop_ok (S (Z.to_nat (n - i))) p q n i false W Hi Hn ltac:(lia) Ho) as (p1 & E1 & W1 & He & Hc). rewrite E1 in E.
    injection E as <- <- <- <-. split_and!; try done. intros Hlt. destruct Ho; [done|lia].
  - rewrite write_loop_diverges in E; [done|done|by destruct (read_open p); [destruct Ho; left|]|lia|].
    destruct (read_open p); [destruct Ho; by left|lia].
Qed.

Lemma taken_length q k : 0 ≤ k ≤ Z.of_nat (length (send q)) →
  take (length (send q) - length (drop (Z.to_nat k) (send q))) (send q) = take (Z.to_nat k) (send q).
Proof. intros Hk. f_equal. rewrite length_drop. lia. Qed.

(** The bytes of one step. *)
Lemma step_contents s ins outs s' :
  sys_ok s → step s ins outs s' → contents (pipe s) ++ ins = outs ++ contents (pipe s').
Proof.
  intros [W Hpc] Hst. destruct Hst as [| | |t n q q' p' Ht E|t n q r out q' p' Ht E|t n i q i' nt q' p' Ht E|t n i q r nt q' p' Ht E| | | | | |];
    simpl; rewrite ?app_nil_r; try done; pose proof (Hpc _ _ Ht) as Hok; simpl in Hok.
  - destruct (read_turn_ok (pipe s) q n W) as [(_ & _ & E1)|(_ & p1 & E1 & _)]; [tauto|..]; rewrite E1 in E; by simplify_eq.
  - destruct (read_turn_ok (pipe s) q n W) as [(_ & _ & E1)|(_ & p1 & E1 & _ & _ & Hc)]; [tauto|..]; rewrite E1 in E; by simplify_eq.
  - destruct (write_turn_ok _ _ _ _ _ _ _ _ W (proj1 (proj2 Hok)) (proj2 (proj2 Hok)) E) as (_ & _ & Hc & -> & _).
    simpl. rewrite taken_length; [done|]. pose proof (wf_size _ W). lia.
  - destruct (write_turn_ok _ _ _ _ _ _ _ _ W (proj1 (proj2 Hok)) (proj2 (proj2 Hok)) E) as (_ & _ & Hc & -> & _).
    simpl. rewrite taken_length; [done|]. pose proof (wf_size _ W). lia.
Qed.

Lemma tasks_fmap (f : pc → pc) s p' (ts : gmap nat pc) :
  map_Forall (λ _, pc_ok (pipe s)) ts → (∀ t c, ts !! t = Some c → pc_ok (pipe s) c → pc_ok p' (f c)) → map_Forall (λ _, pc_ok p') (f <$> ts).
Proof. intros Hts Hf t c. rewrite lookup_fmap. intros (c0 & Hc & ->)%fmap_Some. by apply (Hf t c0 Hc), (Hts t). Qed.

Lemma step_write_ok s t n i q e nt q' p' :
  sys_ok s → tasks s !! t = Some (PWrite n i q) → write_turn (pipe s) q n i = Ok (e, nt, q', p') →
  wf p' ∧ map_Forall (λ _, pc_ok p') (if nt then wake_reader <$> tasks s else tasks s) ∧
  (∀ i', e = WWait i' → pc_ok p' (PWriteWait n i' q')).
Proof.
  intros [W Hpc] Ht E. pose proof (Hpc _ _ Ht) as (Hwo & Hi & Hn). simpl in *. pose proof (wf_size _ W) as Hs.
  destruct (write_turn_ok _ _ _ _ _ _ _ _ W Hi Hn E) as (W' & He & Hc & -> & -> & -> & Hro). set (k := Z.min _ _) in *.
  assert (Hsz : size p' = size (pipe s) + k).
  { rewrite <- (contents_length p' W'), Hc, length_app, length_take, Nat2Z.inj_add, (contents_length _ W). lia. }
  split; [done|]. split.
  - destruct (decide (k = 0)) as [Hk|Hk].
    + rewrite Hk, andb_false_r. intros t' c Hc'. apply (pc_ok_ends (pipe s)); [done|by apply (Hpc t')|]. destruct c; try done; lia.
    + rewrite (proj2 (Z.ltb_lt 0 k)), andb_true_r by lia. assert (Hnw : ∀ t' n' i' q1, tasks s !! t' ≠ Some (PWriteWait n' i' q1)).
      { intros t' n' i' q1 Hw. destruct (Hpc _ _ Hw) as (_ & _ & ? & _). lia. }
      destruct (Z.eqb_spec (size (pipe s)) 0) as [E0|E0].
      * apply (tasks_fmap wake_reader s); [done|]. intros t' c Hc' Hok. apply (wake_reader_ok (pipe s)); [done..|]. destruct c; try done. by destruct (Hnw t' n0 i0 q0).
      * intros t' c Hc'. pose proof (Hpc _ _ Hc') as Hok. simpl in Hok. apply (pc_ok_ends (pipe s)); [done|done|].
        destruct c; try done; simpl in Hok; [lia|by destruct (Hnw t' n0 i0 q0)|lia].
  - intros i'. destruct (Z.eqb_spec (i + k) n) as [?|Hlt]; [done|]. intros [= <-]. destruct He as (Em & Er & Ew). simpl.
    rewrite Em, Er, Ew, length_drop. split; [split; [done|]; lia|]. split; [apply Hro; lia|]. lia.
Qed.

Lemma pipe_step_ok s ins outs s' : sys_ok s → step s ins outs s' → sys_ok s'.
Proof.
  intros Hs Hst. pose proof Hs as [W Hpc]. destruct Hst as [t n q Ht Ho Hn|t n q Ht Ho Hn|t b Ht Ho|t n q q' p' Ht E|t n q r out q' p' Ht E
    |t n i q i' nt q' p' Ht E|t n i q r nt q' p' Ht E|t b Ht E|t b r Ht E|t c Ht|t n i q l Ht Hl|Ho Hnone|Ho Hnone].
  - split; [done|]. by apply map_Forall_insert_2.
  - split; [done|]. apply map_Forall_insert_2; [simpl; split; [done|lia]|done].
  - split; [done|]. by apply map_Forall_insert_2.
  - pose proof (Hpc _ _ Ht) as [Hr Hn]. destruct (read_turn_ok (pipe s) q n W Hn) as [(Hw & Hz & E1)|(_ & p1 & E1 & _)]; rewrite E1 in E; simplify_eq.
    split; [done|]. by apply map_Forall_insert_2.
  - pose proof (Hpc _ _ Ht) as [Hr Hn]. destruct (read_turn_ok (pipe s) q n W Hn) as [(_ & _ & E1)|(Hno & p1 & E1 & W1 & He & Hc)]; rewrite E1 in E; simplify_eq.
    split; [done|]. apply (tasks_fmap wake_writer s); [by apply map_Forall_delete|]. intros t' c Hc' Hok. apply (wake_writer_ok (pipe s)); [done..|].
    assert (Hz : size (pipe s) = 0 → size p' = size (pipe s)).
    { intros Hz. apply size_contents; [done..|]. assert (En : contents (pipe s) = []) by (apply nil_length_inv; pose proof (contents_length _ W); lia).
      rewrite En in *. symmetry in Hc. by apply app_nil in Hc as [_ ->]. }
    destruct c; try done; simpl in Hok; apply Hz; tauto.
  - destruct (step_write_ok s t n i q _ nt q' p' Hs Ht E) as (W' & Hts & Hw). split; [done|]. apply map_Forall_insert_2; [by apply Hw|done].
  - destruct (step_write_ok s t n i q _ nt q' p' Hs Ht E) as (W' & Hts & _). split; [done|]. by apply map_Forall_delete.
  - split; [done|]. apply map_Forall_insert_2; [|done]. split; [apply (Hpc _ _ Ht)|]. unfold select_turn in E. destruct (Z.eqb_spec (size (pipe s)) 0); [done|by destruct b].
  - split; [done|]. by apply map_Forall_delete.
  - split; [done|]. by apply map_Forall_delete.
  - split; [done|]. apply map_Forall_insert_2; [|done]. pose proof (Hpc _ _ Ht) as Hok. simpl in *. by rewrite Hl.
  - simpl. split; [by destruct W|]. destruct (read_open (pipe s)) eqn:Hro.
    + apply (tasks_fmap wake_reader s); [done|]. intros t c Hc Hok. pose proof (Hnone _ _ Hc). destruct c; simpl in *; try done; tauto.
    + intros t c Hc. pose proof (Hpc _ _ Hc) as Hok. pose proof (Hnone _ _ Hc). destruct c; simpl in *; try done; rewrite Hro in Hok; naive_solver.
  - simpl. split; [by destruct W|]. destruct (write_open (pipe s)) eqn:Hro.
    + apply (tasks_fmap wake_writer s); [done|]. intros t c Hc Hok. pose proof (Hnone _ _ Hc). destruct c; simpl in *; try done; tauto.
    + intros t c Hc. pose proof (Hpc _ _ Hc) as Hok. pose proof (Hnone _ _ Hc). destruct c; simpl in *; try done; rewrite Hro in Hok; naive_solver.
Qed.

Lemma steps_ok s ins outs s' : sys_ok s → steps s ins outs s' → sys_ok s' ∧ contents (pipe s) ++ ins = outs ++ contents (pipe s').
Proof.
  intros Hs Hst. induction Hst as [|ins1 outs1 s1 ins2 outs2 s2 _ [Hs1 IH] Hst]; [by rewrite app_nil_r|].
  split; [by apply (pipe_step_ok s1 ins2 outs2)|]. by rewrite app_assoc, IH, <- !app_assoc, (step_contents s1 ins2 outs2 s2).
Qed.

(** C16: a pipe is a first-in first-out queue of bytes, for every interleaving of
    readers, writers, failures and closing of its ends: what the readers got,
    followed by what is in the buffer, is exactly what was there before followed
    by what the writers put in, in the order in which they had the mutex.  The
    ring buffer stays well formed. *)
Theorem pipe_fifo s ins outs s' :
  sys_ok s → steps s ins outs s' → wf (pipe s') ∧ contents (pipe s) ++ ins = outs ++ contents (pipe s').
Proof. intros Hs Hst. destruct (steps_ok s ins outs s' Hs Hst) as [[W _] E]. done. Qed.

(** The turn of a writer on an open pipe. *)
Lemma writer_turn s t n i q :
  sys_ok s → tasks s !! t = Some (PWrite n i q) → read_open (pipe s) = true → i < n → size (pipe s) < max_size (pipe s) →
  ∃ ins s', step s ins [] s' ∧ ins ≠ [] ∧ same_ends (pipe s) (pipe s') ∧ 0 < size (pipe s') ∧
    ∀ t' c, t' ≠ t → size (pipe s) = 0 → tasks s !! t' = Some c → tasks s' !! t' = Some (wake_reader c).
Proof.
  intros [W Hpc] Ht Ho Hin Hsz. pose proof (Hpc _ _ Ht) as (Hwo & Hi & Hn). simpl in *. pose proof (wf_size _ W) as Hs.
  destruct (pipe_write_loop_ok (S (Z.to_nat (n - i))) (pipe s) q n i false W Hi Hn ltac:(lia) (or_introl Ho)) as (p' & E & W' & He & Hc).
  set (k := Z.min _ _) in *. cbn [orb] in E. fold (write_turn (pipe s) q n i) in E.
  assert (Hsp : size p' = size (pipe s) + k).
  { rewrite <- (contents_length p' W'), Hc, length_app, length_take, Nat2Z.inj_add, (contents_length _ W). lia. }
  assert (Hins : take (length (send q) - length (drop (Z.to_nat k) (send q))) (send q) ≠ []).
  { rewrite taken_length by lia. intros E0%(f_equal length). rewrite length_take in E0. simpl in E0. lia. }
  rewrite (proj2 (Z.ltb_lt 0 k)), andb_true_r in E by lia.
  destruct (i + k =? n); (do 2 eexists; split; [first [eapply step_write_done; [exact Ht|exact E]|eapply step_write_wait; [exact Ht|exact E]]|]); simpl;
    (split; [done|]; split; [done|]; split; [lia|]); intros t' c Hne Hz Hc'; rewrite Hz; simpl.
  - by rewrite lookup_delete_ne, lookup_fmap, Hc' by done.
  - by rewrite lookup_insert_ne, lookup_fmap, Hc' by done.
Qed.

(** The turn of a reader that finds bytes. *)
Lemma reader_turn s t n q :
  sys_ok s → tasks s !! t = Some (PRead n q) → 0 < n → 0 < size (pipe s) →
  ∃ out s', step s [] out s' ∧ out ≠ [] ∧ tasks s' !! t = None ∧ same_ends (pipe s) (pipe s') ∧ size (pipe s') < size (pipe s) ∧
    ∀ t' c, t' ≠ t → tasks s !! t' = Some c → tasks s' !! t' = Some (wake_writer c).
Proof.
  intros [W Hpc] Ht Hn Hsz. pose proof (Hpc _ _ Ht) as (Hwo & Hq). simpl in *.
  destruct (read_turn_ok (pipe s) q n W Hq) as [(_ & ? & _)|(_ & p' & E & W' & He & Hc)]; [lia|]. set (k := Z.min _ _) in *.
  assert (Hk : Z.of_nat (length (take (Z.to_nat k) (contents (pipe s)))) = k) by (rewrite length_take; pose proof (contents_length _ W); lia).
  do 2 eexists. split; [eapply step_read_done; [exact Ht|exact E]|]. split; [intros E0; rewrite E0 in Hk; simpl in Hk; lia|]. simpl.
  split; [by rewrite lookup_fmap, lookup_delete_eq|]. split; [done|]. split.
  - rewrite <- (contents_length _ W), <- (contents_length _ W'), Hc, length_app. lia.
  - intros t' c Hne Hc'. by rewrite lookup_fmap, lookup_delete_ne, Hc' by done.
Qed.

(** C17: no wake-up is lost.  In every state a pipe can reach, a reader waits
    only while the pipe is empty and its writing end open, a writer only while
    it is full and its reading end open.  A reader that waits gets bytes and is
    done after one turn of a writer and one of its own, and a writer that waits
    gets rid of bytes after one turn of a reader and one of its own. *)
Theorem pipe_progress p ins outs s :
  wf p → steps (MkSys p ∅) ins outs s →
  (∀ t n q, tasks s !! t = Some (PReadWait n q) → write_open (pipe s) = true ∧ size (pipe s) = 0) ∧
  (∀ t n i q, tasks s !! t = Some (PWriteWait n i q) → read_open (pipe s) = true ∧ size (pipe s) = max_size (pipe s)) ∧
  (∀ t n q t' n' i q', tasks s !! t = Some (PReadWait n q) → 0 < n → tasks s !! t' = Some (PWrite n' i q') → i < n' →
    ∃ ins1 s1 out s2, step s ins1 [] s1 ∧ step s1 [] out s2 ∧ out ≠ [] ∧ tasks s2 !! t = None) ∧
  (∀ t n i q t' n' q', tasks s !! t = Some (PWriteWait n i q) → tasks s !! t' = Some (PRead n' q') → 0 < n' →
    ∃ out s1 ins2 s2, step s [] out s1 ∧ step s1 ins2 [] s2 ∧ ins2 ≠ []).
Proof.
  intros W Hst. assert (Hs : sys_ok s) by (apply (steps_ok (MkSys p ∅) ins outs s); [split; [done|apply map_Forall_empty]|done]).
  pose proof Hs as [W' Hpc]. split; [intros t n q Ht; apply (Hpc _ _ Ht)|]. split; [intros t n i q Ht; pose proof (Hpc _ _ Ht); simpl in *; tauto|]. split.
  - intros t n q t' n' i q' Ht Hn Ht' Hi. pose proof (Hpc _ _ Ht) as ([Hro Hq] & Hwo & Hz). pose proof (wf_max _ W').
    destruct (writer_turn s t' n' i q' Hs Ht' Hro Hi) as (ins1 & s1 & Hst1 & _ & He & Hsz & Hw); [lia|].
    pose proof (pipe_step_ok _ _ _ _ Hs Hst1) as Hs1. assert (t ≠ t') by congruence. specialize (Hw t _ ltac:(done) Hz Ht). simpl in Hw.
    destruct (reader_turn s1 t n q Hs1 Hw Hn Hsz) as (out & s2 & Hst2 & Hout & Hd & _). by exists ins1, s1, out, s2.
  - intros t n i q t' n' q' Ht Ht' Hn'. pose proof (Hpc _ _ Ht) as (_ & Hro & Hz & Hi). pose proof (wf_max _ W').
    destruct (reader_turn s t' n' q' Hs Ht' Hn') as (out & s1 & Hst1 & _ & _ & (Em & Er & _) & Hsz & Hw); [lia|].
    pose proof (pipe_step_ok _ _ _ _ Hs Hst1) as Hs1. assert (t ≠ t') by congruence. specialize (Hw t _ ltac:(done) Ht). simpl in Hw.
    destruct (writer_turn s1 t n i q Hs1 Hw ltac:(congruence) Hi) as (ins2 & s2 & Hst2 & Hins & _); [lia|]. by exists out, s1, ins2, s2.
Qed.

(** A writer that has more to write than there is room for, after the
    reading end was closed, never leaves [pipe_write]: whatever number of turns
    of its loop is granted, it asks for more.  It holds the mutex of the pipe. *)
Theorem pipe_write_stuck p q n fuel :
  wf p → read_open p = false → max_size p - size p < n ≤ Z.of_nat (length (send q)) →
  write_loop fuel p q n 0 false = Panic "out of fuel".
Proof. intros W Ho Hn. apply write_loop_diverges; [done|done|lia|lia]. Qed.

(** [pipe_write] trusts the length in the message.  A request that announces
    [n] bytes and has none makes the next [n] bytes of the buffer, whatever they
    are, part of the contents of the pipe. *)
Theorem pipe_write_stale b n :
  0 < n ≤ PIPE_BUF_SIZE → Z.of_nat (length b) = PIPE_BUF_SIZE →
  ∃ p', write_turn (pipe_create b) (MkReq [] 0 []) n 0 = Ok (WReply n, true, MkReq [] 0 [], p') ∧ contents p' = take (Z.to_nat n) b.
Proof.
  intros Hn Hb. unfold write_turn. rewrite Z.sub_0_r.
  assert (Hw : write_chunk (pipe_create b) n 0 = n) by (unfold write_chunk; cbn [max_size size write_pos pipe_create]; case_match; bool_to_prop; lia).
  assert (Hf : ∃ m, Z.to_nat n = S m) by (exists (Z.to_nat n - 1)%nat; lia). destruct Hf as [m Hf]. rewrite Hf. cbn [write_loop].
  rewrite (proj2 (Z.ltb_lt 0 n)), Hw by lia. cbn [pipe_create read_open size max_size request_read send].
  rewrite take_nil, drop_nil, (proj2 (Z.eqb_neq 0 PIPE_BUF_SIZE)), andb_false_r by done. cbn [length]. change (Z.of_nat 0 <? 0) with false. cbn iota.
  rewrite Z.add_0_l, (proj2 (Z.ltb_ge n n)) by lia. eexists. split; [done|].
  unfold contents, produce. cbn [size max_size read_pos buf pipe_create write_pos]. rewrite Z.add_0_l, <- Hf.
  apply list_eq. intros j. destruct (decide (j < Z.to_nat n)%nat) as [Hj|Hj].
  - rewrite list_lookup_fmap, lookup_seq_lt, lookup_take_lt by lia. simpl. rewrite Z.add_0_l, Z.mod_small, Nat2Z.id by lia.
    destruct (lookup_lt_is_Some_2 b j) as [v Hv]; [lia|]. rewrite Hv. f_equal. by apply nth_lookup_Some.
  - rewrite !lookup_ge_None_2; [done|rewrite length_take; lia|rewrite length_fmap, length_seq; lia].
Qed.

(** ** Witnesses

    A pipe of four bytes, a writer of six and a reader of three. *)

Definition small : Pipe := MkPipe [0; 0; 0; 0] 0 4 true true 0 0.

Lemma small_wf : wf small.
Proof. split; simpl; first [lia|reflexivity]. Qed.

Definition wreq : Req := MkReq [1; 2; 3; 4; 5; 6] 0 [].
Definition rreq : Req := MkReq [] 3 [].

(** The writer fills the buffer and waits, the reader takes three bytes, the
    writer goes on. *)
Definition run0 : sys := MkSys small ∅.
Definition run1 : sys := MkSys small {[1%nat := PWrite 6 0 wreq]}.
Definition run2 : sys := MkSys (MkPipe [1; 2; 3; 4] 4 4 true true 0 0) {[1%nat := PWriteWait 6 4 (MkReq [5; 6] 0 [])]}.
Definition run3 : sys :=
  MkSys (MkPipe [1; 2; 3; 4] 4 4 true true 0 0) {[1%nat := PWriteWait 6 4 (MkReq [5; 6] 0 []); 2%nat := PRead 3 rreq]}.
Definition run4 : sys := MkSys (MkPipe [1; 2; 3; 4] 1 4 true true 3 0) {[1%nat := PWrite 6 4 (MkReq [5; 6] 0 [])]}.
Definition run5 : sys := MkSys (MkPipe [5; 6; 3; 4] 3 4 true true 3 2) ∅.

Lemma run_steps : steps run0 [1; 2; 3; 4; 5; 6] [1; 2; 3] run5.
Proof.
  apply (steps_step run0 [1; 2; 3; 4] [1; 2; 3] run4 [5; 6] []); [apply (steps_step run0 [1; 2; 3; 4] [] run3 [] [1; 2; 3])|].
  - apply (steps_step run0 [1; 2; 3; 4] [] run2 [] []); [apply (steps_step run0 [] [] run1 [1; 2; 3; 4] [])|].
    + apply (steps_step run0 [] [] run0 [] []); [apply steps_refl|]. apply (step_write_request run0 1%nat 6 wreq); [reflexivity|reflexivity|simpl; lia].
    + exact (step_write_wait run1 1%nat 6 0 wreq 4 true (MkReq [5; 6] 0 []) (pipe run2) eq_refl eq_refl).
    + apply (step_read_request run2 2%nat 3 rreq); [reflexivity|reflexivity|simpl; lia].
  - exact (step_read_done run3 2%nat 3 rreq 3 [1; 2; 3] (MkReq [] 0 [1; 2; 3]) (pipe run4) eq_refl eq_refl).
  - exact (step_write_done run4 1%nat 6 4 (MkReq [5; 6] 0 []) 6 false (MkReq [] 0 []) (pipe run5) eq_refl eq_refl).
Qed.

Lemma run0_ok : sys_ok run0.
Proof. split; [apply small_wf|apply map_Forall_empty]. Qed.

Lemma pipe_fifo_witness : sys_ok run0 ∧ steps run0 [1; 2; 3; 4; 5; 6] [1; 2; 3] run5 ∧
  wf (pipe run5) ∧ contents (pipe run0) ++ [1; 2; 3; 4; 5; 6] = [1; 2; 3] ++ contents (pipe run5).
Proof. split; [exact run0_ok|]. split; [exact run_steps|]. exact (pipe_fifo run0 _ _ run5 run0_ok run_steps). Defined.

(** A reader that waits and a writer that came after it. *)
Definition wait1 : sys := MkSys small {[2%nat := PRead 3 rreq]}.
Definition wait2 : sys := MkSys small {[2%nat := PReadWait 3 rreq]}.
Definition wait3 : sys := MkSys small {[2%nat := PReadWait 3 rreq; 1%nat := PWrite 6 0 wreq]}.

Lemma wait_steps : steps run0 [] [] wait3.
Proof.
  apply (steps_step run0 [] [] wait2 [] []); [apply (steps_step run0 [] [] wait1 [] [])|].
  - apply (steps_step run0 [] [] run0 [] []); [apply steps_refl|]. apply (step_read_request run0 2%nat 3 rreq); [reflexivity|reflexivity|simpl; lia].
  - exact (step_read_wait wait1 2%nat 3 rreq rreq small eq_refl eq_refl).
  - apply (step_write_request wait2 1%nat 6 wreq); [reflexivity|reflexivity|simpl; lia].
Qed.

Lemma pipe_progress_witness : wf small ∧ steps (MkSys small ∅) [] [] wait3 ∧ tasks wait3 !! 2%nat = Some (PReadWait 3 rreq) ∧
  ∃ ins1 s1 out s2, step wait3 ins1 [] s1 ∧ step s1 [] out s2 ∧ out ≠ [] ∧ tasks s2 !! 2%nat = None.
Proof.
  split; [exact small_wf|]. split; [exact wait_steps|]. split; [reflexivity|].
  destruct (pipe_progress small [] [] wait3 small_wf wait_steps) as (_ & _ & H & _).
  apply (H 2%nat 3 rreq 1%nat 6 0 wreq); [reflexivity|lia|reflexivity|lia].
Defined.

Lemma pipe_write_stuck_witness :
  let p := MkPipe [1; 2; 3; 4] 4 4 false true 0 0 in wf p ∧ ∀ fuel, write_loop fuel p wreq 6 0 false = Panic "out of fuel".
Proof.
  intros p. assert (W : wf p) by (split; simpl; first [lia|reflexivity]). split; [exact W|]. intros fuel.
  apply (pipe_write_stuck p wreq 6 fuel W); [reflexivity|simpl; lia].
Defined.

Lemma pipe_write_stale_witness :
  let b := replicate (Z.to_nat PIPE_BUF_SIZE) 7 in
  ∃ p', write_turn (pipe_create b) (MkReq [] 0 []) 3 0 = Ok (WReply 3, true, MkReq [] 0 [], p') ∧ contents p' = take (Z.to_nat 3) b.
Proof.
  intros b. apply (pipe_write_stale b 3); [split; [reflexivity|discriminate]|]. subst b. rewrite length_replicate, Z2Nat.id; [reflexivity|discriminate].
Defined.

End Pipe.
