(* ===== verification/PipeConn.v ===== *)
(** Opening and closing pipes (kernel/pipe.c, kernel/ipc/connection.c).

    Connections are counted references to an end of a pipe.  The state is the
    page allocator, the connections, the hash table from connections to ends
    and the pipes with the frame of their buffer.  Object pools and the heap may
    refuse an allocation, which is an argument; what a new buffer holds is one
    too. *)

From S2P Require Import Prelude Bitmap PageAlloc VmArch Pipe.
Import PageAlloc VmArch.
#[local] Open Scope Z_scope.

Module PipeConn.

Definition PAGE_TAG_PIPE : Z := 0xABCD000C.
Definition CONNECTION_TYPE_PIPE : Z := 2.
Definition O_RDONLY : Z := 0.
Definition O_WRONLY : Z := 1.
Definition O_ACCMODE : Z := 3.
Definition NBUCKET : Z := 256.

Record Connection := MkConn { c_type : Z; c_refs : Z; c_flags : Z; c_endpoint : bool }.
Record PipeEndpoint := MkEnd { e_connection : Z; e_pipe : Z; e_flags : Z }.

Record world := MkWorld {
  pst : pstate;
  conns : gmap Z Connection;
  table : list (list PipeEndpoint);
  pipes : gmap Z (Z * Pipe.Pipe) }.

Implicit Types (w : world) (c : Z) (e : PipeEndpoint) (t : list (list PipeEndpoint)).

Definition set_pst st w : world := MkWorld st (conns w) (table w) (pipes w).
Definition set_conns x w : world := MkWorld (pst w) x (table w) (pipes w).
Definition set_table t w : world := MkWorld (pst w) (conns w) t (pipes w).
Definition set_pipes x w : world := MkWorld (pst w) (conns w) (table w) x.

(** ** The hash table *)

Definition bucket c : nat := Z.to_nat (c mod NBUCKET).
Definition hash_put e t := alter (λ l, l ++ [e]) (bucket (e_connection e)) t.
Definition hash_remove c t := alter (filter (λ e, e_connection e ≠ c)) (bucket c) t.
Definition hash_get c t : option PipeEndpoint :=
  l ← t !! bucket c; snd <$> list_find (λ e, e_connection e = c) l.

Definition pipe_get_connection_endpoint w c : option PipeEndpoint := hash_get c (table w).

Definition pipe_set_connection_endpoint w c (pipe flags : Z) : outcome world :=
  x ← deref (conns w !! c) "bad connection";
  let w := set_conns (<[c := MkConn CONNECTION_TYPE_PIPE (c_refs x + 1) (c_flags x) true]> (conns w)) w in
  Ok (set_table (hash_put (MkEnd c pipe flags) (table w)) w).

(** ** Pipes *)

Definition pipe_alloc st : outcome (Z * pstate) :=
  '(page, st) ← page_alloc_block st Pipe.PIPE_BUF_ORDER 0 PAGE_TAG_PIPE;
  st ← page_inc_ref st page;
  Ok (page, st).

Definition pipe_free st (page : Z) : outcome pstate :=
  _ ← page_assert st page Pipe.PIPE_BUF_ORDER PAGE_TAG_PIPE;
  page_dec_ref st page Pipe.PIPE_BUF_ORDER.

Definition pipe_close w c : outcome world :=
  e ← deref (pipe_get_connection_endpoint w c) "null pointer";
  '(page, p) ← deref (pipes w !! e_pipe e) "bad pipe";
  let write := negb (Z.land (e_flags e) O_ACCMODE =? O_RDONLY) in
  let p := (Pipe.close_turn p write).2 in
  let w := set_table (hash_remove c (table w)) w in
  if Pipe.read_open p || Pipe.write_open p then Ok (set_pipes (<[e_pipe e := (page, p)]> (pipes w)) w)
  else
    st ← pipe_free (pst w) page;
    Ok (set_pipes (delete (e_pipe e) (pipes w)) (set_pst st w)).

(** ** Connections *)

Definition connection_alloc w c : world := set_conns (<[c := MkConn 0 0 0 false]> (conns w)) w.

Definition connection_ref w c : outcome world :=
  x ← deref (conns w !! c) "bad connection";
  Ok (set_conns (<[c := MkConn (c_type x) (c_refs x + 1) (c_flags x) (c_endpoint x)]> (conns w)) w).

(** The last reference sends the close request before it goes; a connection
    without an endpoint sends nothing. *)
Definition connection_unref w c : outcome world :=
  x ← deref (conns w !! c) "bad connection";
  if c_refs x <? 1 then Panic "bad ref_count" else
  w ← if (c_refs x =? 1) && c_endpoint x then pipe_close w c else Ok w;
  x ← deref (conns w !! c) "bad connection";
  if 0 <? c_refs x - 1 then Ok (set_conns (<[c := MkConn (c_type x) (c_refs x - 1) (c_flags x) (c_endpoint x)]> (conns w)) w)
  else Ok (set_conns (delete c (conns w)) w).

(** Which of the allocations of [pipe_open] succeed. *)
Record allocs := MkAllocs { a_pipe : bool; a_read : bool; a_write : bool; a_read_end : bool; a_write_end : bool }.

(** [id], [rc] and [wc] are the addresses of the new pipe and connections, and
    [b] what is in its buffer. *)
Definition pipe_open w (a : allocs) (id rc wc : Z) (b : list Z) : outcome (Z * world) :=
  if negb (a_pipe a) then Ok (- ENOMEM, w) else
  '(page, st) ← pipe_alloc (pst w);
  let w := set_pst st w in
  let undo w := (st ← pipe_free (pst w) page; Ok (- ENOMEM, set_pst st w)) in
  if negb (a_read a) then undo w else
  let w := connection_alloc w rc in
  if negb (a_write a) then w ← connection_unref w rc; undo w else
  let w := connection_alloc w wc in
  if negb (a_read_end a) || negb (a_write_end a) then w ← connection_unref w wc; w ← connection_unref w rc; undo w else
  let w := set_pipes (<[id := (page, Pipe.pipe_create b)]> (pipes w)) w in
  w ← pipe_set_connection_endpoint w rc id O_RDONLY;
  w ← pipe_set_connection_endpoint w wc id O_WRONLY;
  Ok (0, w).

(** ** Laws of the table *)

(** No end of connection [c] is in the table. *)
Definition fresh c t : Prop := ∀ i l e, t !! i = Some l → e ∈ l → e_connection e ≠ c.
Definition sized t : Prop := Z.of_nat (length t) = NBUCKET.

Lemma bucket_lt c t : sized t → is_Some (t !! bucket c).
Proof. intros Hs. apply lookup_lt_is_Some. unfold sized, bucket, NBUCKET in *. pose proof (Z.mod_pos_bound c 256). lia. Qed.

Lemma get_put e t : sized t → fresh (e_connection e) t → hash_get (e_connection e) (hash_put e t) = Some e.
Proof.
  intros Hs Hf. destruct (bucket_lt (e_connection e) t Hs) as [l Hl]. unfold hash_get, hash_put. rewrite list_lookup_alter_eq, Hl. simpl.
  rewrite list_find_app_r; [simpl; by rewrite decide_True|]. apply list_find_None, Forall_forall. intros x Hx. by apply (Hf _ _ _ Hl).
Qed.

Lemma get_put_ne c e t : sized t → e_connection e ≠ c → hash_get c (hash_put e t) = hash_get c t.
Proof.
  intros Hs Hne. unfold hash_get, hash_put. destruct (decide (bucket (e_connection e) = bucket c)) as [E|E].
  - rewrite E, list_lookup_alter_eq. destruct (t !! bucket c) as [l|]; [|done]. simpl.
    destruct (list_find (λ e0, e_connection e0 = c) l) as [[k x]|] eqn:F.
    + rewrite (list_find_app_l _ l [e] k x F). done.
    + rewrite list_find_app_r by done. simpl. by rewrite decide_False.
  - by rewrite list_lookup_alter_ne.
Qed.

Lemma alter_same {A} (f : A → A) (i : nat) (t : list A) : (∀ l, t !! i = Some l → f l = l) → alter f i t = t.
Proof.
  intros Hf. apply list_eq. intros j. destruct (decide (i = j)) as [->|Hne]; [|by rewrite list_lookup_alter_ne].
  rewrite list_lookup_alter_eq. destruct (t !! j) as [l|] eqn:E; [|done]. simpl. f_equal. by apply Hf.
Qed.

Lemma remove_fresh c t : fresh c t → hash_remove c t = t.
Proof.
  intros Hf. unfold hash_remove. apply alter_same. intros l Hl. apply filter_all, Forall_forall. intros e He. by apply (Hf _ _ _ Hl).
Qed.

Lemma remove_put e t : fresh (e_connection e) t → hash_remove (e_connection e) (hash_put e t) = t.
Proof.
  intros Hf. unfold hash_remove, hash_put. rewrite list_alter_alter_eq. apply alter_same. intros l Hl. simpl.
  rewrite filter_app, filter_cons_False, filter_nil, app_nil_r by (intros H; by apply H). apply filter_all, Forall_forall. intros x Hx. by apply (Hf _ _ _ Hl).
Qed.

Lemma remove_put_ne c e t : e_connection e ≠ c → hash_remove c (hash_put e t) = hash_put e (hash_remove c t).
Proof.
  intros Hne. unfold hash_remove, hash_put. destruct (decide (bucket (e_connection e) = bucket c)) as [->|E].
  - rewrite !list_alter_alter_eq. apply list_alter_ext; [|done]. intros l _. simpl. by rewrite filter_app, filter_cons_True.
  - by apply list_alter_alter_ne.
Qed.

Lemma fresh_put c e t : fresh c t → e_connection e ≠ c → fresh c (hash_put e t).
Proof.
  intros Hf Hne i l x. unfold hash_put. destruct (decide (i = bucket (e_connection e))) as [->|E].
  - rewrite list_lookup_alter_eq. intros (l0 & Hl0 & ->)%fmap_Some [Hx| ->%list_elem_of_singleton]%elem_of_app; [by apply (Hf _ _ _ Hl0)|done].
  - rewrite list_lookup_alter_ne by done. apply Hf.
Qed.

Lemma sized_put e t : sized t → sized (hash_put e t).
Proof. unfold sized, hash_put. by rewrite length_alter. Qed.

(** ** Opening and closing *)

Lemma pipe_alloc_ok st :
  PageAlloc.wf st →
  match pipe_alloc st with
  | Panic why => why = "out of memory"%string
  | Ok (page, st') => PageAlloc.wf st' ∧ page mod bsize Pipe.PIPE_BUF_ORDER = 0 ∧
      (∀ i r tag, page ≤ i < page + bsize Pipe.PIPE_BUF_ORDER → ¬ live st i r tag) ∧
      live st' page 1 PAGE_TAG_PIPE ∧ (∀ i, page < i < page + bsize Pipe.PIPE_BUF_ORDER → live st' i 0 PAGE_TAG_PIPE) ∧
      (∀ i r tag, ¬ page ≤ i < page + bsize Pipe.PIPE_BUF_ORDER → live st' i r tag ↔ live st i r tag)
  end.
Proof.
  intros Hw. unfold pipe_alloc. pose proof (page_alloc_cases st Pipe.PIPE_BUF_ORDER 0 PAGE_TAG_PIPE Hw ltac:(unfold Pipe.PIPE_BUF_ORDER, PAGE_ORDER_MAX; lia)) as Ha.
  destruct (page_alloc_block st Pipe.PIPE_BUF_ORDER 0 PAGE_TAG_PIPE) as [[p st1]|why]; [|exact Ha]. destruct Ha as [Hw1 Hal]. cbn [mbind outcome_bind].
  pose proof (λ i r tag, block_live st p _ _ st1 i r tag Hal) as Hlv. destruct (al_good _ _ _ _ _ Hal) as (Hp0 & Hpm%aligned_mod & _).
  pose proof (bsize_pos Pipe.PIPE_BUF_ORDER) as Hb. destruct (add_ref_live 1 st1 p 0 PAGE_TAG_PIPE Hw1) as (st2 & E2 & Hw2 & Hl2 & Hc2 & Hf2); [apply Hlv; left; split; [lia|done]|].
  unfold page_inc_ref. rewrite E2. cbn [mbind outcome_bind]. split; [done|]. split; [done|]. split; [intros i r tag; by apply (block_was_free _ _ _ _ _ _ _ _ Hal)|].
  split; [done|]. split.
  - intros i Hi. apply Hf2; [lia|]. apply Hlv. left. split; [lia|done].
  - intros i r tag Hi. rewrite Hf2, Hlv by lia. tauto.
Qed.

Lemma tags_are_ok tag st (o : nat) p :
  (∀ i, p ≤ i < p + Z.of_nat o → ∃ r, live st i r tag) → tags_are o p tag (pages st) = Ok tt.
Proof.
  revert p. induction o as [|o IH]; intros p Hl; [done|]. cbn [tags_are]. destruct (Hl p) as (r & _ & Hp & _); [lia|]. rewrite Hp. simpl. rewrite Z.eqb_refl.
  apply IH. intros i Hi. apply Hl. lia.
Qed.

Lemma pipe_free_ok st page :
  PageAlloc.wf st → page mod bsize Pipe.PIPE_BUF_ORDER = 0 → live st page 1 PAGE_TAG_PIPE →
  (∀ i, page < i < page + bsize Pipe.PIPE_BUF_ORDER → live st i 0 PAGE_TAG_PIPE) →
  ∃ st', pipe_free st page = Ok st' ∧ PageAlloc.wf st' ∧
    ∀ i r tag, live st' i r tag ↔ live st i r tag ∧ ¬ page ≤ i < page + bsize Pipe.PIPE_BUF_ORDER.
Proof.
  intros Hw Hm Hl Hr. unfold pipe_free, page_assert. pose proof (bsize_pos Pipe.PIPE_BUF_ORDER).
  rewrite (tags_are_ok PAGE_TAG_PIPE). 2:{ intros i Hi. rewrite Z2Nat.id in Hi by lia. destruct (decide (i = page)) as [->|]; [by eexists|]. eexists. apply Hr. lia. }
  destruct Hl as (Hb & Hp & Hn). rewrite Hp. simpl. apply (free_block_live st page Pipe.PIPE_BUF_ORDER PAGE_TAG_PIPE); try done. unfold Pipe.PIPE_BUF_ORDER, PAGE_ORDER_MAX. lia.
Qed.

(** The state [pipe_open] needs: addresses nobody uses. *)
Record openable w (id rc wc : Z) : Prop := {
  op_wf : PageAlloc.wf (pst w);
  op_table : sized (table w);
  op_read : conns w !! rc = None ∧ fresh rc (table w);
  op_write : conns w !! wc = None ∧ fresh wc (table w);
  op_pipe : pipes w !! id = None;
  op_ne : rc ≠ wc }.

Definition all_allocs : allocs := MkAllocs true true true true true.

(** What [pipe_open] leaves in the world. *)
Definition opened w st (page id rc wc : Z) (b : list Z) : world :=
  let x := MkConn CONNECTION_TYPE_PIPE 1 0 true in
  MkWorld st (<[wc := x]> (<[rc := x]> (conns w)))
    (hash_put (MkEnd wc id O_WRONLY) (hash_put (MkEnd rc id O_RDONLY) (table w))) (<[id := (page, Pipe.pipe_create b)]> (pipes w)).

Lemma pipe_open_eq w id rc wc b : openable w id rc wc →
  pipe_open w all_allocs id rc wc b = '(page, st) ← pipe_alloc (pst w); Ok (0, opened w st page id rc wc b).
Proof.
  intros [Hw Ht [Hr Hfr] [Hwr Hfw] Hp Hne]. unfold pipe_open. cbn [all_allocs a_pipe a_read a_write a_read_end a_write_end negb orb].
  destruct (pipe_alloc (pst w)) as [[page st]|]; [|done]. cbn [mbind outcome_bind].
  unfold pipe_set_connection_endpoint, connection_alloc, opened, set_pst, set_conns, set_table, set_pipes. cbn [conns table pipes pst].
  rewrite (lookup_insert_ne _ wc rc), lookup_insert_eq by done. cbn [deref mbind outcome_bind c_refs c_flags conns table pipes pst].
  rewrite (lookup_insert_ne _ rc wc), lookup_insert_eq by done. cbn [deref mbind outcome_bind c_refs c_flags conns table pipes pst].
  rewrite (insert_insert_ne _ rc wc), insert_insert_eq by done. by rewrite insert_insert_eq.
Qed.

(** Dropping the only reference to an end. *)
Lemma unref_first w c e page p :
  conns w !! c = Some (MkConn CONNECTION_TYPE_PIPE 1 0 true) → hash_get c (table w) = Some e → pipes w !! e_pipe e = Some (page, p) →
  let p' := (Pipe.close_turn p (negb (Z.land (e_flags e) O_ACCMODE =? O_RDONLY))).2 in
  Pipe.read_open p' || Pipe.write_open p' = true →
  connection_unref w c = Ok (MkWorld (pst w) (delete c (conns w)) (hash_remove c (table w)) (<[e_pipe e := (page, p')]> (pipes w))).
Proof.
  intros Hc He Hp p' Ho. unfold connection_unref. rewrite Hc. cbn [deref mbind outcome_bind c_refs c_endpoint]. change (1 <? 1) with false. change ((1 =? 1) && true) with true. cbn iota.
  unfold pipe_close, pipe_get_connection_endpoint. rewrite He. cbn [deref mbind outcome_bind]. rewrite Hp. cbn [deref mbind outcome_bind]. fold p'. rewrite Ho.
  cbn [mbind outcome_bind set_pipes set_table conns pipes table pst]. rewrite Hc. done.
Qed.

Lemma unref_last w c e page p st :
  conns w !! c = Some (MkConn CONNECTION_TYPE_PIPE 1 0 true) → hash_get c (table w) = Some e → pipes w !! e_pipe e = Some (page, p) →
  let p' := (Pipe.close_turn p (negb (Z.land (e_flags e) O_ACCMODE =? O_RDONLY))).2 in
  Pipe.read_open p' || Pipe.write_open p' = false → pipe_free (pst w) page = Ok st →
  connection_unref w c = Ok (MkWorld st (delete c (conns w)) (hash_remove c (table w)) (delete (e_pipe e) (pipes w))).
Proof.
  intros Hc He Hp p' Ho Hf. unfold connection_unref. rewrite Hc. cbn [deref mbind outcome_bind c_refs c_endpoint]. change (1 <? 1) with false. change ((1 =? 1) && true) with true. cbn iota.
  unfold pipe_close, pipe_get_connection_endpoint. rewrite He. cbn [deref mbind outcome_bind]. rewrite Hp. cbn [deref mbind outcome_bind]. fold p'. rewrite Ho.
  cbn [mbind outcome_bind set_pipes set_table set_pst conns pipes table pst]. rewrite Hf. cbn [mbind outcome_bind set_pipes set_table set_pst conns pipes table pst]. rewrite Hc. done.
Qed.

Lemma delete_both (m : gmap Z Connection) a c a' c' x y :
  m !! a = None → m !! c = None → (a', c') = (a, c) ∨ (a', c') = (c, a) → delete a' (delete c' (<[a := x]> (<[c := y]> m))) = m.
Proof.
  intros Ha Hc Hac. apply map_eq. intros k. rewrite !lookup_delete, !lookup_insert.
  destruct Hac as [[= -> ->]|[= -> ->]]; repeat case_decide; congruence.
Qed.

(** Opening a pipe and dropping both connections, in either order, gives
    back everything: the pages, the connections, the entries of the table and
    the pipe.  The only way to stop is to run out of memory. *)
Theorem pipe_open_close w id rc wc b :
  openable w id rc wc →
  match pipe_open w all_allocs id rc wc b with
  | Panic why => why = "out of memory"%string
  | Ok (r, w1) => r = 0 ∧ ∀ c1 c2, (c1, c2) = (rc, wc) ∨ (c1, c2) = (wc, rc) →
      ∃ w2 w3, connection_unref w1 c1 = Ok w2 ∧ connection_unref w2 c2 = Ok w3 ∧
        conns w3 = conns w ∧ table w3 = table w ∧ pipes w3 = pipes w ∧ PageAlloc.wf (pst w3) ∧
        ∀ i r tag, live (pst w3) i r tag ↔ live (pst w) i r tag
  end.
Proof.
  intros Hop. rewrite pipe_open_eq by done. destruct Hop as [Hw Ht [Hr Hfr] [Hwr Hfw] Hp Hne]. pose proof (pipe_alloc_ok (pst w) Hw) as Ha.
  destruct (pipe_alloc (pst w)) as [[page st]|why]; [|exact Ha]. destruct Ha as (Hw1 & Hm & Hnew & Hl1 & Hl2 & Hold). cbn [mbind outcome_bind]. split; [done|].
  destruct (pipe_free_ok st page Hw1 Hm Hl1 Hl2) as (st' & Ef & Hw' & Hlv).
  assert (Hlive : ∀ i r tag, live st' i r tag ↔ live (pst w) i r tag).
  { intros i r tag. rewrite Hlv. destruct (decide (page ≤ i < page + bsize Pipe.PIPE_BUF_ORDER)) as [Hi|Hi].
    - split; [by intros [_ ?]|]. intros Hx. by destruct (Hnew i r tag Hi).
    - rewrite Hold by done. tauto. }
  set (er := MkEnd rc id O_RDONLY). set (ew := MkEnd wc id O_WRONLY).
  assert (Hgr : hash_get rc (hash_put ew (hash_put er (table w))) = Some er).
  { rewrite get_put_ne by (apply sized_put, Ht || done). by apply (get_put er). }
  assert (Hgw : hash_get wc (hash_put ew (hash_put er (table w))) = Some ew).
  { apply (get_put ew); [by apply sized_put|]. by apply fresh_put. }
  assert (Hrr : hash_remove rc (hash_put er (table w)) = table w) by exact (remove_put er _ Hfr).
  assert (Hrw : ∀ t, fresh wc t → hash_remove wc (hash_put ew t) = t) by (intros t; exact (remove_put ew t)).
  assert (Hfw' : fresh wc (hash_put er (table w))) by (by apply fresh_put).
  intros c1 c2 [[= -> ->]|[= -> ->]].
  - eexists _, _. split; [|split].
    + apply (unref_first _ rc er page (Pipe.pipe_create b)); [simpl; by rewrite lookup_insert_ne, lookup_insert_eq by done|done|apply lookup_insert_eq|done].
    + eapply (unref_last _ wc ew page _ st'); simpl; [by rewrite lookup_delete_ne, lookup_insert_eq by done| |apply lookup_insert_eq|done|done].
      fold er ew. rewrite (remove_put_ne rc ew), Hrr by done. by apply (get_put ew).
    + simpl. fold er ew. split; [|split; [|split; [|done]]].
      * apply delete_both; auto.
      * rewrite (remove_put_ne rc ew), Hrr by done. by apply Hrw.
      * change (e_pipe _) with id. by rewrite insert_insert_eq, delete_insert_eq, delete_id.
  - eexists _, _. split; [|split].
    + apply (unref_first _ wc ew page (Pipe.pipe_create b)); [simpl; by rewrite lookup_insert_eq by done|done|apply lookup_insert_eq|done].
    + eapply (unref_last _ rc er page _ st'); simpl; [by rewrite lookup_delete_ne, lookup_insert_ne, lookup_insert_eq by done| |apply lookup_insert_eq|done|done].
      fold er ew. rewrite Hrw by done. by apply (get_put er).
    + simpl. fold er ew. split; [|split; [|split; [|done]]].
      * apply delete_both; auto.
      * rewrite Hrw by done. exact Hrr.
      * change (e_pipe _) with id. by rewrite insert_insert_eq, delete_insert_eq, delete_id.
Qed.

(** [pipe_open] when an allocation is refused.  Without a pipe, or without
    the first connection, it returns ENOMEM and nothing has changed.  When the
    second connection or one of the ends is refused it stops the kernel: it
    drops references to connections whose count is still zero. *)
Theorem pipe_open_refused w a id rc wc b :
  openable w id rc wc → a ≠ all_allocs →
  match pipe_open w a id rc wc b with
  | Panic why => why = "out of memory"%string ∨ why = "bad ref_count"%string ∧ a_pipe a = true ∧ a_read a = true
  | Ok (r, w') => r = - ENOMEM ∧ (a_pipe a = false ∨ a_read a = false) ∧
      conns w' = conns w ∧ table w' = table w ∧ pipes w' = pipes w ∧ PageAlloc.wf (pst w') ∧
      ∀ i r tag, live (pst w') i r tag ↔ live (pst w) i r tag
  end.
Proof.
  intros [Hw Ht [Hr Hfr] [Hwr Hfw] Hp Hne] Ha. unfold pipe_open. destruct a as [[] [] aw ar ae]; cbn [a_pipe a_read a_write a_read_end a_write_end negb].
  3,4: split_and!; try done; by left.
  - pose proof (pipe_alloc_ok (pst w) Hw) as Hal. destruct (pipe_alloc (pst w)) as [[page st]|why]; [|left; exact Hal]. cbn [mbind outcome_bind].
    assert (Hu : ∀ w' c, conns w' !! c = Some (MkConn 0 0 0 false) → connection_unref w' c = Panic "bad ref_count")
      by (intros w' c Hc; unfold connection_unref; by rewrite Hc).
    destruct aw; cbn [negb].
    + destruct ar, ae; try done; cbn [negb orb]; (rewrite Hu; [by right|]; apply lookup_insert_eq).
    + rewrite Hu; [by right|]. apply lookup_insert_eq.
  - pose proof (pipe_alloc_ok (pst w) Hw) as Hal. destruct (pipe_alloc (pst w)) as [[page st]|why]; [|left; exact Hal].
    destruct Hal as (Hw1 & Hm & Hnew & Hl1 & Hl2 & Hold). cbn [mbind outcome_bind set_pst pst].
    destruct (pipe_free_ok st page Hw1 Hm Hl1 Hl2) as (st' & -> & Hw' & Hlv). cbn [mbind outcome_bind conns table pipes pst].
    split; [done|]. split; [by right|]. split; [done|]. split; [done|]. split; [done|]. split; [done|].
    intros i r tag. rewrite Hlv. destruct (decide (page ≤ i < page + bsize Pipe.PIPE_BUF_ORDER)) as [Hi|Hi].
    + split; [by intros [_ ?]|]. intros Hx. by destruct (Hnew i r tag Hi).
    + rewrite Hold by done. tauto.
Qed.

(** ** Witnesses *)

Definition idle_world : world := MkWorld one_block ∅ (replicate 256 []) ∅.

Lemma idle_openable : openable idle_world 1 4096 8192.
Proof.
  assert (Hf : ∀ c, fresh c (replicate 256 [])) by (intros c i l e [-> _]%lookup_replicate He; by apply elem_of_nil in He).
  split; [exact one_block_wf|reflexivity|split; [reflexivity|apply Hf]|split; [reflexivity|apply Hf]|reflexivity|lia].
Qed.

Lemma pipe_open_close_witness :
  openable idle_world 1 4096 8192 ∧
  match pipe_open idle_world all_allocs 1 4096 8192 [] with
  | Panic why => why = "out of memory"%string
  | Ok (r, w1) => r = 0 ∧ ∀ c1 c2, (c1, c2) = (4096, 8192) ∨ (c1, c2) = (8192, 4096) →
      ∃ w2 w3, connection_unref w1 c1 = Ok w2 ∧ connection_unref w2 c2 = Ok w3 ∧
        conns w3 = conns idle_world ∧ table w3 = table idle_world ∧ pipes w3 = pipes idle_world ∧ PageAlloc.wf (pst w3) ∧
        ∀ i r tag, live (pst w3) i r tag ↔ live (pst idle_world) i r tag
  end.
Proof. split; [exact idle_openable|]. exact (pipe_open_close idle_world 1 4096 8192 [] idle_openable). Defined.

Lemma pipe_open_refused_witness :
  let a := MkAllocs true true true true false in
  openable idle_world 1 4096 8192 ∧ a ≠ all_allocs ∧
  match pipe_open idle_world a 1 4096 8192 [] with
  | Panic why => why = "out of memory"%string ∨ why = "bad ref_count"%string ∧ a_pipe a = true ∧ a_read a = true
  | Ok (r, w') => r = - ENOMEM ∧ (a_pipe a = false ∨ a_read a = false) ∧
      conns w' = conns idle_world ∧ table w' = table idle_world ∧ pipes w' = pipes idle_world ∧ PageAlloc.wf (pst w') ∧
      ∀ i r tag, live (pst w') i r tag ↔ live (pst idle_world) i r tag
  end.
Proof.
  split; [exact idle_openable|]. split; [discriminate|].
  exact (pipe_open_refused idle_world (MkAllocs true true true true false) 1 4096 8192 [] idle_openable ltac:(discriminate)).
Defined.

End PipeConn.
