(* ===== verification/Request.v ===== *)
(** Requests (kernel/ipc/request.c).

    A request carries two vectors of memory ranges of the client: the bytes it
    sends and the room for the answer.  A cursor (index and position) walks each
    vector; [request_read] and [request_write] move bytes between the server and
    the memory of the client through the copies of an address space
    (VmSpace.v).  The ranges may be in user memory or in kernel memory.  The
    reference view of a vector is the list of addresses it still covers. *)

From S2P Require Import Prelude Bitmap PageAlloc Bytes VmArch Vm VmSpace ArmVm VmImage Pipe.
Import PageAlloc Bytes VmArch Vm VmSpace.
#[local] Open Scope Z_scope.

Module Request.

Record iovec := MkIov { iov_base : Z; iov_len : Z }.

(** [send_iov], [send_iov_cnt], [send_idx] and [send_pos] of a request, and the
    same four fields for [recv]. *)
Record cursor := MkCur { iov : option (list iovec); iov_cnt : Z; idx : Z; pos : Z }.

(** [process] is the page table of the client. *)
Record Request := MkRequest {
  send : cursor;
  recv : cursor;
  process : option Z;
  connection : option Z;
  ref_count : Z;
  sem_count : Z;
  r : Z
}.

Implicit Types (c : cursor) (v : iovec) (q : Request) (kmem : gmap Z Z).

Definition no_iov : cursor := MkCur None 0 0 0.

(** [r] is not initialized. *)
Definition request_create (junk : Z) : Request := MkRequest no_iov no_iov None None 1 0 junk.

(** The request without the reference; [None] when it has been freed. *)
Definition request_destroy q : outcome (option Request) :=
  _ ← k_assert (0 <? ref_count q) "Assertion failed: req->ref_count > 0";
  let count := ref_count q - 1 in
  Ok (if count =? 0 then None else Some (MkRequest (send q) (recv q) None None count (sem_count q) (r q))).

Definition request_dup q : Request :=
  MkRequest (send q) (recv q) (process q) (connection q) (ref_count q + 1) (sem_count q) (r q).

(** [++idx; pos = 0] *)
Definition next_iov c : cursor := MkCur (iov c) (iov_cnt c) (idx c + 1) 0.

(** [n] bytes of the vector [v] at the cursor are done. *)
Definition advance c v n : cursor :=
  let p := u32 (pos c + n) in
  if p =? iov_len v then next_iov c else MkCur (iov c) (iov_cnt c) (idx c) p.

Definition iov_at c : outcome iovec :=
  deref (l ← iov c; l !! Z.to_nat (idx c))%stdpp "iovec out of range".

Section loops.
Context {T : Type} `{!ArchVm T}.
Implicit Types (s : vms T).

Fixpoint write_loop (fuel : nat) c (p : option Z) (msg : list Z) (total : Z) kmem s : outcome (Z * cursor * gmap Z Z * vms T) :=
  match fuel with
  | O => Panic "out of fuel"
  | S fuel =>
      let n := Z.of_nat (length msg) in
      if (0 <? n) && (idx c <? iov_cnt c) then
        v ← iov_at c;
        let nwrite := Z.min (u32 (iov_len v - pos c)) n in
        if nwrite =? 0 then write_loop fuel (next_iov c) p msg total kmem s else
        '(r, kmem, s) ← vm_space_copy_out p (take (Z.to_nat nwrite) msg) (u32 (iov_base v + pos c)) kmem s;
        if r <? 0 then Panic "copy" else
        write_loop fuel (advance c v nwrite) p (drop (Z.to_nat nwrite) msg) (total + nwrite) kmem s
      else Ok (total, c, kmem, s)
  end.

(** Each turn consumes a byte of the message or a vector. *)
Definition loop_fuel c (n : Z) : nat := S (Z.to_nat n + Z.to_nat (iov_cnt c - idx c)).

Definition request_write q (msg : list Z) kmem s : outcome (Z * Request * gmap Z Z * vms T) :=
  match iov (recv q) with
  | None => Ok (0, q, kmem, s)
  | Some _ =>
      '(total, c, kmem, s) ← write_loop (loop_fuel (recv q) (Z.of_nat (length msg))) (recv q) (process q) msg 0 kmem s;
      Ok (total, MkRequest (send q) c (process q) (connection q) (ref_count q) (sem_count q) (r q), kmem, s)
  end.

(** [out]: what has been stored to the caller's buffer. *)
Fixpoint read_loop (fuel : nat) c (p : option Z) (n : Z) (out : list Z) (total : Z) kmem s : outcome (Z * list Z * cursor * vms T) :=
  match fuel with
  | O => Panic "out of fuel"
  | S fuel =>
      if (0 <? n) && (idx c <? iov_cnt c) then
        v ← iov_at c;
        let nread := Z.min (u32 (iov_len v - pos c)) n in
        if nread =? 0 then read_loop fuel (next_iov c) p n out total kmem s else
        '(r, l, s) ← vm_space_copy_in p (u32 (iov_base v + pos c)) nread kmem s;
        if r <? 0 then Panic "copy" else
        read_loop fuel (advance c v nread) p (n - nread) (out ++ l) (total + nread) kmem s
      else Ok (total, out, c, s)
  end.

Definition request_read q (n : Z) kmem s : outcome (Z * list Z * Request * vms T) :=
  match iov (send q) with
  | None => Ok (0, [], q, s)
  | Some _ =>
      '(total, l, c, s) ← read_loop (loop_fuel (send q) n) (send q) (process q) n [] 0 kmem s;
      Ok (total, l, MkRequest c (recv q) (process q) (connection q) (ref_count q) (sem_count q) (r q), s)
  end.

End loops.

(** ** The addresses of a vector *)

Definition iov_addrs v : list Z := seqZ (iov_base v) (iov_len v).

(** The addresses that the cursor has still before it. *)
Definition addrs c : list Z :=
  match iov c with
  | None => []
  | Some l =>
      match drop (Z.to_nat (idx c)) l with
      | [] => []
      | v :: l => seqZ (iov_base v + pos c) (iov_len v - pos c) ++ concat (iov_addrs <$> l)
      end
  end.

(** A range of user addresses or one of kernel addresses. *)
Definition range_ok (a n : Z) : Prop :=
  0 ≤ n ∧ (0 ≤ a ∧ a + n ≤ VIRT_KERNEL_BASE ∨ VIRT_KERNEL_BASE < a ∧ a + n < 2 ^ 32).

Definition cursor_ok c : Prop :=
  ∀ l, iov c = Some l →
    iov_cnt c = Z.of_nat (length l) ∧ 0 ≤ idx c ∧ 0 ≤ pos c ∧ Forall (λ v, range_ok (iov_base v) (iov_len v)) l ∧
    match l !! Z.to_nat (idx c) with Some v => pos c ≤ iov_len v | None => True end.

(** ** Walking a vector *)

Lemma addrs_cons c l v :
  iov c = Some l → 0 ≤ idx c → l !! Z.to_nat (idx c) = Some v →
  addrs c = seqZ (iov_base v + pos c) (iov_len v - pos c) ++ addrs (next_iov c).
Proof.
  intros Hl Hi Hv. unfold addrs. simpl. rewrite Hl, (drop_S l v) by done. f_equal.
  replace (Z.to_nat (idx c + 1)) with (S (Z.to_nat (idx c))) by lia.
  destruct (drop (S (Z.to_nat (idx c))) l) as [|w l']; [done|]. simpl. unfold iov_addrs. by rewrite Z.add_0_r, Z.sub_0_r.
Qed.

Lemma addrs_end c l : iov c = Some l → Z.of_nat (length l) ≤ idx c → addrs c = [].
Proof. intros Hl Hi. unfold addrs. by rewrite Hl, drop_ge by lia. Qed.

Lemma cursor_next c : cursor_ok c → cursor_ok (next_iov c).
Proof.
  intros Hc l Hl. destruct (Hc l Hl) as (? & ? & ? & Hf & _). simpl in *. split; [done|]. split; [lia|]. split; [lia|]. split; [done|].
  destruct (l !! _) as [w|] eqn:Hw; [|done]. rewrite Forall_lookup in Hf. by destruct (Hf _ w Hw).
Qed.

(** The vector under the cursor. *)
Lemma cursor_at c l :
  cursor_ok c → iov c = Some l → idx c < iov_cnt c →
  ∃ v, iov_at c = Ok v ∧ l !! Z.to_nat (idx c) = Some v ∧ 0 ≤ pos c ≤ iov_len v ∧ range_ok (iov_base v) (iov_len v) ∧
    u32 (iov_len v - pos c) = iov_len v - pos c ∧ u32 (iov_base v + pos c) = iov_base v + pos c.
Proof.
  intros Hc Hl Hi. destruct (Hc l Hl) as (Hn & H0 & Hp & Hf & Hv). destruct (lookup_lt_is_Some_2 l (Z.to_nat (idx c))) as [v E]; [lia|].
  rewrite E in Hv. exists v. rewrite Forall_lookup in Hf. pose proof (Hf _ _ E) as Hr. split; [unfold iov_at; rewrite Hl; simpl; by rewrite E|].
  destruct Hr as [? Hr]. split; [done|]. split; [done|]. split; [done|]. unfold VIRT_KERNEL_BASE in *. rewrite !u32_small by lia. done.
Qed.

Lemma cursor_advance c l v n :
  cursor_ok c → iov c = Some l → idx c < iov_cnt c → l !! Z.to_nat (idx c) = Some v → 0 < n ≤ iov_len v - pos c →
  cursor_ok (advance c v n) ∧ iov (advance c v n) = iov c ∧ iov_cnt (advance c v n) = iov_cnt c ∧ idx c ≤ idx (advance c v n) ∧
  addrs (advance c v n) = drop (Z.to_nat n) (addrs c) ∧
  addrs c = seqZ (iov_base v + pos c) n ++ drop (Z.to_nat n) (addrs c).
Proof.
  intros Hc Hl Hi Hv Hn. destruct (cursor_at c l Hc Hl Hi) as (v' & _ & Hv' & Hp & [_ Hr] & _). rewrite Hv in Hv'. injection Hv' as <-.
  destruct (Hc l Hl) as (Hcnt & H0 & _ & Hf & _). rewrite (addrs_cons c l v) by done.
  replace (iov_len v - pos c) with (n + (iov_len v - pos c - n)) by lia. rewrite seqZ_app, <- app_assoc by lia.
  rewrite (drop_app_length' (seqZ _ n)) by (rewrite length_seqZ; done).
  unfold advance. rewrite u32_small by (unfold VIRT_KERNEL_BASE in *; lia). destruct (Z.eqb_spec (pos c + n) (iov_len v)) as [E|E].
  - split; [by apply cursor_next|]. split; [done|]. split; [done|]. split; [simpl; lia|]. split; [|done].
    replace (iov_len v - pos c - n) with 0 by lia. done.
  - simpl. split; [|split_and!; [done|done|lia| |done]].
    + intros l' Hl'. simpl in *. rewrite Hl in Hl'. injection Hl' as <-. rewrite Hv. split_and!; try done; lia.
    + rewrite (addrs_cons (MkCur (iov c) (iov_cnt c) (idx c) (pos c + n)) l v) by done. simpl. f_equal. f_equal; lia.
Qed.

(** ** The memory of a client *)

Section laws.
Context {T : Type} `{!ArchVm T, !ArchLaws T} (tabs : gset Z).
Implicit Types (s : vms T) (M : gmap (Z * Z) (Z * Z)) (t a n : Z).

(** The byte at an address: kernel memory is the same for all clients. *)
Definition vbyte kmem M s t (x : Z) : option Z := if VIRT_KERNEL_BASE <? x then kmem !! x else ubyte s M t x.

Definition fault (w : string) : Prop := w = "copy" ∨ w = "kernel page fault".

Lemma vbyte_kernel kmem M s t x : VIRT_KERNEL_BASE < x → vbyte kmem M s t x = kmem !! x.
Proof. intros. unfold vbyte. by rewrite (proj2 (Z.ltb_lt _ _)). Qed.
Lemma vbyte_user kmem M s t x : x ≤ VIRT_KERNEL_BASE → vbyte kmem M s t x = ubyte s M t x.
Proof. intros. unfold vbyte. by rewrite (proj2 (Z.ltb_ge _ _)). Qed.

Lemma ubyte_unmapped s M t o : M !! (t, o / PAGE_SIZE) = None → ubyte s M t o = None.
Proof. intros E. unfold ubyte, upage. by rewrite E. Qed.

Lemma mapM_app_bind {A B} (f : A → option B) (k1 k2 : list A) :
  mapM f (k1 ++ k2) = (l1 ← mapM f k1; l2 ← mapM f k2; Some (l1 ++ l2))%stdpp.
Proof.
  induction k1 as [|x k1 IH]; simpl; [by destruct (mapM f k2)|]. destruct (f x) as [y|]; simpl; [|done]. rewrite IH.
  destruct (mapM f k1); simpl; [|done]. by destruct (mapM f k2).
Qed.

Lemma mapM_ext_in {A B} (f g : A → option B) (k : list A) : (∀ x, x ∈ k → f x = g x) → mapM f k = mapM g k.
Proof.
  intros H. apply Forall2_mapM_ext, Forall_Forall2_diag, Forall_forall, H.
Qed.

Lemma space_copy_in_ok kmem M s t a n :
  inv tabs M s → t ∈ tabs → range_ok a n → 0 < n →
  match mapM (vbyte kmem M s t) (seqZ a n) with
  | Some l => vm_space_copy_in (Some t) a n kmem s = Ok (0, l, s)
  | None => (∃ l, vm_space_copy_in (Some t) a n kmem s = Ok (- EFAULT, l, s)) ∨ vm_space_copy_in (Some t) a n kmem s = Panic "kernel page fault"
  end.
Proof.
  intros Hi Ht [_ Hr] Hn. unfold vm_space_copy_in. rewrite u32_small, (proj2 (Z.ltb_ge _ _)) by (unfold VIRT_KERNEL_BASE in *; lia).
  destruct (Z.ltb_spec VIRT_KERNEL_BASE a).
  { rewrite (mapM_ext_in (vbyte kmem M s t) (λ x, kmem !! x)) by (intros x ?%elem_of_seqZ; apply vbyte_kernel; lia).
    destruct (mapM _ _) as [l|]; simpl; [done|by right]. }
  simpl. destruct (vm_copy_in_ok tabs M s t a n) as (r & l & -> & He & Hb); [done|done|lia..|]. simpl.
  destruct He as [[-> Hlen]|(-> & Hlt & Hno)].
  - rewrite (mapM_Some_2 _ _ l); [done|]. apply Forall2_same_length_lookup_2; [rewrite length_seqZ; lia|].
    intros i x y [-> ?]%lookup_seqZ Hy. rewrite vbyte_user, <- Hb by lia. by rewrite Nat2Z.id.
  - rewrite mapM_None_2; [left; by eexists|]. apply Exists_exists. exists (a + Z.of_nat (length l)). split; [apply elem_of_seqZ; lia|].
    rewrite vbyte_user by lia. by apply ubyte_unmapped.
Qed.

(** One turn of a loop over [n] bytes takes the part [k] of the vector. *)
Lemma take_chunk (l1 l2 : list Z) a k n :
  l1 = seqZ a k ++ l2 → 0 ≤ k ≤ n → take (Z.to_nat n) l1 = seqZ a k ++ take (Z.to_nat (n - k)) l2.
Proof. intros -> Hk. rewrite take_app, take_ge, length_seqZ by (rewrite length_seqZ; lia). do 2 f_equal. lia. Qed.

Lemma request_read_loop_ok fuel kmem M s t c l0 n out total :
  inv tabs M s → t ∈ tabs → cursor_ok c → iov c = Some l0 → 0 ≤ n → (Z.to_nat n + Z.to_nat (iov_cnt c - idx c) < fuel)%nat →
  match mapM (vbyte kmem M s t) (take (Z.to_nat n) (addrs c)) with
  | Some l => ∃ c', read_loop fuel c (Some t) n out total kmem s = Ok (total + Z.of_nat (length l), out ++ l, c', s) ∧
      cursor_ok c' ∧ addrs c' = drop (Z.to_nat n) (addrs c)
  | None => ∃ w, read_loop fuel c (Some t) n out total kmem s = Panic w ∧ fault w
  end.
Proof.
  intros Hi Ht. revert c n out total. induction fuel as [|fuel IH]; intros c n out total Hc Hl Hn Hf; [lia|]. cbn [read_loop].
  destruct (Z.ltb_spec 0 n) as [Hn0|]; cbn [andb].
  2:{ replace n with 0 by lia. simpl. exists c. by rewrite Z.add_0_r, app_nil_r. }
  destruct (Hc l0 Hl) as (Hcnt & H0 & _). destruct (Z.ltb_spec (idx c) (iov_cnt c)) as [Hlt|Hge].
  2:{ rewrite (addrs_end c l0) by (done || lia). rewrite take_nil, drop_nil. simpl. exists c. rewrite Z.add_0_r, app_nil_r.
      split; [done|]. split; [done|]. apply (addrs_end c l0); [done|lia]. }
  destruct (cursor_at c l0 Hc Hl Hlt) as (v & Ev & Hv & Hp & Hr & E1 & E2). rewrite Ev. cbn [mbind outcome_bind]. rewrite E1, E2.
  destruct (Z.eqb_spec (Z.min (iov_len v - pos c) n) 0) as [E|E].
  { rewrite (addrs_cons c l0 v) by done. replace (iov_len v - pos c) with 0 by lia. apply (IH (next_iov c)); [by apply cursor_next|done..|simpl; lia]. }
  set (k := Z.min (iov_len v - pos c) n) in *.
  destruct (cursor_advance c l0 v k) as (Hc1 & Hl1 & Hn1 & Hi1 & Ha1 & Hsp); [done|done|done|done|lia|].
  rewrite (take_chunk _ _ _ _ n Hsp), mapM_app_bind by lia.
  assert (Hrk : range_ok (iov_base v + pos c) k) by (destruct Hr as [? Hr]; split; [|destruct Hr]; lia).
  pose proof (space_copy_in_ok kmem M s t _ k Hi Ht Hrk ltac:(lia)) as Hcp. destruct (mapM _ (seqZ _ k)) as [l1|] eqn:El1; simpl.
  2:{ destruct Hcp as [[l1 ->]| ->]; simpl; eexists; (split; [done|]); [by left|by right]. }
  assert (Hlen : Z.of_nat (length l1) = k) by (apply length_mapM in El1; rewrite length_seqZ in El1; lia).
  rewrite Hcp. simpl. specialize (IH (advance c v k) (n - k) (out ++ l1) (total + k) Hc1).
  rewrite Hl1, Hn1 in IH. specialize (IH Hl ltac:(lia) ltac:(lia)). rewrite Ha1 in IH.
  destruct (mapM _ (take _ _)) as [l2|]; simpl; [|done]. destruct IH as (c' & -> & Hc' & Ha'). exists c'.
  rewrite length_app, Nat2Z.inj_add, Hlen, Z.add_assoc, app_assoc. split; [done|]. split; [done|]. rewrite Ha', drop_drop. f_equal. lia.
Qed.

(** ** Bytes stored *)

(** The last byte that is stored to each address. *)
Definition writes (ads msg : list Z) : gmap Z Z := list_to_map (reverse (zip ads msg)).

Lemma writes_app ads1 ads2 msg1 msg2 :
  length ads1 = length msg1 → writes (ads1 ++ ads2) (msg1 ++ msg2) = writes ads2 msg2 ∪ writes ads1 msg1.
Proof. intros Hl. unfold writes. by rewrite zip_with_app, reverse_app, list_to_map_app. Qed.

Lemma writes_seqZ a msg : writes (seqZ a (Z.of_nat (length msg))) msg = map_seqZ a msg.
Proof.
  rewrite <- list_to_map_zip_seqZ. apply list_to_map_proper; [|apply reverse_Permutation].
  rewrite fmap_reverse, reverse_Permutation, fst_zip by (rewrite length_seqZ; lia). apply NoDup_seqZ.
Qed.

(** The memory after the bytes have been stored: [f] and [f'] give the byte at
    an address of a client, before and after. *)
Definition stored t (ads msg : list Z) (f f' : Z → Z → option Z) : Prop :=
  ∀ t' x, f' t' x = if decide (t' = t ∨ VIRT_KERNEL_BASE < x) then writes ads msg !! x ∪ f t' x else f t' x.

Lemma stored_nil t ads f : stored t ads [] f f.
Proof. intros t' x. unfold writes. rewrite zip_with_nil_r. destruct (decide _); [|done]. rewrite reverse_nil. simpl. rewrite lookup_empty. by destruct (f t' x). Qed.

Lemma stored_app t ads1 ads2 msg1 msg2 f f1 f2 :
  length ads1 = length msg1 → stored t ads1 msg1 f f1 → stored t ads2 msg2 f1 f2 → stored t (ads1 ++ ads2) (msg1 ++ msg2) f f2.
Proof.
  intros Hl H1 H2 t' x. rewrite H2, H1, writes_app, lookup_union by done. case_decide; [|done]. by destruct (writes ads2 msg2 !! x), (writes ads1 msg1 !! x), (f t' x).
Qed.

Lemma ubyte_mapped M s t x : inv tabs M s → M !! (t, x / PAGE_SIZE) ≠ None → is_Some (ubyte s M t x).
Proof.
  intros [[P G] _] Hk. destruct (M !! _) as [[p fl]|] eqn:E; [|done]. destruct (upage_good _ _ _ _ _ _ _ _ G E) as (d & _ & Hd & Hl & _).
  unfold ubyte. rewrite Hd. simpl. apply lookup_lt_is_Some_2. pose proof (Z.mod_pos_bound x PAGE_SIZE ltac:(done)). lia.
Qed.

Lemma same_pages_unmapped M M' k : same_pages M M' → M !! k = None → M' !! k = None.
Proof. intros H E. specialize (H k). rewrite E in H. by destruct (M' !! k) as [[? ?]|]. Qed.

(** The ranges of user memory of the vector are private to the client. *)
Definition iov_private M t c : Prop :=
  ∀ l v, iov c = Some l → v ∈ l → iov_base v < VIRT_KERNEL_BASE → private M t (iov_base v) (iov_len v).

Lemma private_part M t a n a' n' : private M t a n → a ≤ a' → a' + n' ≤ a + n → private M t a' n'.
Proof. intros H ?? o q fl Ho. apply (H o q fl). lia. Qed.

(** The result of a store that has not failed. *)
Definition store_done M t ads msg kmem s kmem' s' : Prop :=
  ∃ M', inv tabs M' s' ∧ keeps_private M M' ∧ stored t ads msg (vbyte kmem M s) (vbyte kmem' M' s') ∧
    Forall (λ x, is_Some (vbyte kmem M s t x)) ads.

Lemma space_copy_out_ok kmem M s t a msg :
  inv tabs M s → t ∈ tabs → range_ok a (Z.of_nat (length msg)) → msg ≠ [] → Forall byte msg →
  (a < VIRT_KERNEL_BASE → private M t a (Z.of_nat (length msg))) →
  let ads := seqZ a (Z.of_nat (length msg)) in
  wp (vm_space_copy_out (Some t) msg a kmem s) (λ w, oom w ∨ w = "kernel page fault" ∧ Exists (λ x, vbyte kmem M s t x = None) ads)
    (λ res, let '(r, kmem', s') := res in
      r = 0 ∧ store_done M t ads msg kmem s kmem' s' ∨ r < 0 ∧ Exists (λ x, vbyte kmem M s t x = None) ads).
Proof.
  intros Hi Ht [_ Hr] Hne Hby Hpr ads. assert (0 < Z.of_nat (length msg)) by (destruct msg; [done|simpl; lia]).
  unfold vm_space_copy_out. rewrite u32_small, (proj2 (Z.ltb_ge _ _)) by (unfold VIRT_KERNEL_BASE in *; lia).
  destruct (Z.ltb_spec VIRT_KERNEL_BASE a).
  { assert (Hv : ∀ x, x ∈ ads → vbyte kmem M s t x = kmem !! x) by (intros x ?%elem_of_seqZ; apply vbyte_kernel; lia).
    unfold mapped_range. destruct (bool_decide_reflect (Forall (λ x, is_Some (kmem !! x)) (seqZ a (Z.of_nat (length msg))))) as [Hall|Hno]; simpl.
    - left. split; [done|]. exists M. split; [done|]. split; [by intros ???|]. split.
      + intros t' x. unfold ads. rewrite writes_seqZ, <- list_to_map_zip_seqZ. unfold vbyte. destruct (Z.ltb_spec VIRT_KERNEL_BASE x).
        * rewrite decide_True by auto. apply lookup_union.
        * case_decide; [|done]. rewrite list_to_map_zip_seqZ, (proj2 (lookup_map_seqZ_None _ _ _)) by lia. by destruct (ubyte s M t' x).
      + apply Forall_forall. intros x Hx. rewrite Hv by done. rewrite Forall_forall in Hall. by apply Hall.
    - right. split; [done|]. apply not_Forall_Exists in Hno; [|apply _]. apply Exists_exists in Hno as (x & Hx & Hn). apply Exists_exists. exists x.
      split; [done|]. rewrite Hv by done. by apply eq_None_not_Some. }
  simpl. apply wp_bind. eapply wp_mono; [apply (vm_copy_out_ok tabs M s t a msg); try done; [lia|lia|apply Hpr; lia]|by left|].
  intros [r s'] (M' & c & Hi' & (Hsp & Hkp & Hb) & He). simpl in *.
  destruct He as [[-> ->]|(-> & Hc & Hno)].
  2:{ right. split; [done|]. apply Exists_exists. exists (a + c). split; [apply elem_of_seqZ; lia|]. rewrite vbyte_user by lia. by apply ubyte_unmapped. }
  left. split; [done|]. exists M'. split; [done|]. split; [done|]. split.
  - intros t' x. unfold ads. rewrite writes_seqZ. unfold vbyte. destruct (Z.ltb_spec VIRT_KERNEL_BASE x).
    + rewrite decide_True, (proj2 (lookup_map_seqZ_None _ _ _)) by (auto || lia). by destruct (kmem !! x).
    + rewrite Hb. destruct (decide (t' = t ∧ a ≤ x < a + Z.of_nat (length msg))) as [[-> Hx]|Hx].
      * rewrite decide_True by auto. rewrite lookup_map_seqZ, option_guard_True by lia.
        destruct (lookup_lt_is_Some_2 msg (Z.to_nat (x - a))) as [y Hy]; [lia|]. rewrite Hy. by destruct (ubyte s M t x).
      * case_decide as Hd; [|done]. rewrite (proj2 (lookup_map_seqZ_None _ _ _)) by lia. by destruct (ubyte s M t' x).
  - apply Forall_forall. intros x Hx%elem_of_seqZ. rewrite vbyte_user by lia. apply (ubyte_mapped M s t x Hi). intros Hno.
    pose proof (Hb t x) as E. rewrite decide_True, (ubyte_unmapped s' M' t x) in E by (done || by eapply same_pages_unmapped).
    symmetry in E. apply lookup_ge_None_1 in E. lia.
Qed.

Lemma writes_elem ads msg x : is_Some (writes ads msg !! x) → x ∈ ads.
Proof.
  intros [y Hy]. apply elem_of_list_to_map_2 in Hy. rewrite elem_of_reverse in Hy. by apply elem_of_zip_l in Hy.
Qed.

Lemma stored_none t ads msg f f' x : stored t ads msg f f' → f' t x = None → f t x = None.
Proof. intros H E. rewrite H, decide_True in E by auto. by destruct (writes ads msg !! x), (f t x). Qed.

Lemma stored_some t ads msg f f' x :
  stored t ads msg f f' → Forall (λ y, is_Some (f t y)) ads → is_Some (f' t x) → is_Some (f t x).
Proof.
  intros H Hall E. rewrite H, decide_True in E by auto. rewrite Forall_forall in Hall.
  destruct (writes ads msg !! x) eqn:Ew; [apply Hall, (writes_elem ads msg); by rewrite Ew|]. by destruct (f t x).
Qed.

Lemma store_done_app M t ads1 ads2 msg1 msg2 kmem s kmem1 s1 kmem2 s2 M1 :
  length ads1 = length msg1 → keeps_private M M1 →
  stored t ads1 msg1 (vbyte kmem M s) (vbyte kmem1 M1 s1) → Forall (λ x, is_Some (vbyte kmem M s t x)) ads1 →
  store_done M1 t ads2 msg2 kmem1 s1 kmem2 s2 → store_done M t (ads1 ++ ads2) (msg1 ++ msg2) kmem s kmem2 s2.
Proof.
  intros Hl Hk1 Hs1 Ha1 (M2 & Hi2 & Hk2 & Hs2 & Ha2). exists M2. split; [done|]. split; [by intros ??? ?%Hk1%Hk2|].
  split; [by eapply stored_app|]. apply Forall_app. split; [done|]. eapply Forall_impl; [exact Ha2|]. intros x. by apply (stored_some t ads1 msg1).
Qed.

Lemma store_done_nil M t msg kmem s : inv tabs M s → store_done M t [] msg kmem s kmem s.
Proof. intros Hi. exists M. split; [done|]. split; [by intros ???|]. split; [|done]. apply (stored_nil t []). Qed.

(** What a loop over the addresses [ads] may end with. *)
Definition write_fault M t ads kmem s (w : string) : Prop := oom w ∨ fault w ∧ Exists (λ x, vbyte kmem M s t x = None) ads.
Definition write_end M t ads msg kmem s (R : Z → cursor → Prop) (res : Z * cursor * gmap Z Z * vms T) : Prop :=
  let '(n, c, kmem', s') := res in R n c ∧ store_done M t ads msg kmem s kmem' s'.

(** A copy to [a], and then the rest of the loop. *)
Lemma copy_then kmem M s t a m1 m2 ads2 (K : gmap Z Z → vms T → outcome (Z * cursor * gmap Z Z * vms T)) (R : Z → cursor → Prop) :
  inv tabs M s → t ∈ tabs → range_ok a (Z.of_nat (length m1)) → m1 ≠ [] → Forall byte m1 →
  (a < VIRT_KERNEL_BASE → private M t a (Z.of_nat (length m1))) →
  (∀ M1 kmem1 s1, inv tabs M1 s1 → keeps_private M M1 → wp (K kmem1 s1) (write_fault M1 t ads2 kmem1 s1) (write_end M1 t ads2 m2 kmem1 s1 R)) →
  let ads := seqZ a (Z.of_nat (length m1)) ++ ads2 in
  wp ('(r, kmem, s) ← vm_space_copy_out (Some t) m1 a kmem s; if r <? 0 then Panic "copy" else K kmem s)
    (write_fault M t ads kmem s) (write_end M t ads (m1 ++ m2) kmem s R).
Proof.
  intros Hi Ht Hr Hne Hby Hpr HK ads. apply wp_bind. eapply wp_mono; [by apply (space_copy_out_ok kmem M s t a m1)| |].
  { intros w [?|[-> Hex]]; [by left|]. right. split; [by right|]. apply Exists_app. by left. }
  intros [[r kmem1] s1] [[-> (M1 & Hi1 & Hk1 & Hs1 & Ha1)]|[Hneg Hex]].
  2:{ rewrite (proj2 (Z.ltb_lt _ _)) by lia. right. split; [by left|]. apply Exists_app. by left. }
  simpl. eapply wp_mono; [by apply (HK M1)| |].
  - intros w [?|[? Hex]]; [by left|]. right. split; [done|]. apply Exists_app. right. eapply Exists_impl; [exact Hex|].
    intros x. by apply (stored_none t (seqZ a (Z.of_nat (length m1))) m1 (vbyte kmem M s) (vbyte kmem1 M1 s1)).
  - intros [[[n c'] kmem2] s2] [HR Hsd]. split; [done|]. apply (store_done_app M t _ ads2 m1 m2 kmem s kmem1 s1 kmem2 s2 M1); try done.
    rewrite length_seqZ. lia.
Qed.

Lemma request_write_loop_ok fuel kmem M s t c l0 msg total :
  inv tabs M s → t ∈ tabs → cursor_ok c → iov c = Some l0 → iov_private M t c → Forall byte msg →
  (length msg + Z.to_nat (iov_cnt c - idx c) < fuel)%nat →
  let ads := take (length msg) (addrs c) in
  wp (write_loop fuel c (Some t) msg total kmem s) (write_fault M t ads kmem s) (write_end M t ads msg kmem s (λ n c',
    n = total + Z.of_nat (length ads) ∧ cursor_ok c' ∧ iov c' = iov c ∧ addrs c' = drop (length msg) (addrs c))).
Proof.
  intros Hi Ht. revert kmem M s c msg total Hi. induction fuel as [|fuel IH]; intros kmem M s c msg total Hi Hc Hl Hpr Hby Hf; [lia|]. cbn [write_loop].
  cbv zeta. destruct (Z.ltb_spec 0 (Z.of_nat (length msg))) as [Hn0|]; cbn [andb].
  2:{ destruct msg; [|simpl in *; lia]. simpl. split; [split_and!; [lia|done..]|]. by apply store_done_nil. }
  destruct (Hc l0 Hl) as (Hcnt & H0 & _). destruct (Z.ltb_spec (idx c) (iov_cnt c)) as [Hlt|Hge].
  2:{ rewrite (addrs_end c l0) by (done || lia). rewrite take_nil, drop_nil. simpl.
      split; [split_and!; [lia|done|done|apply (addrs_end c l0); [done|lia]]|]. by apply store_done_nil. }
  destruct (cursor_at c l0 Hc Hl Hlt) as (v & Ev & Hv & Hp & Hr & E1 & E2). rewrite Ev. cbn [mbind outcome_bind]. rewrite E1, E2.
  destruct (Z.eqb_spec (Z.min (iov_len v - pos c) (Z.of_nat (length msg))) 0) as [E|E].
  { rewrite (addrs_cons c l0 v) by done. replace (iov_len v - pos c) with 0 by lia.
    apply (IH kmem M s (next_iov c)); [done|by apply cursor_next|done|done|done|simpl; lia]. }
  set (k := Z.min (iov_len v - pos c) (Z.of_nat (length msg))) in *.
  destruct (cursor_advance c l0 v k) as (Hc1 & Hl1 & Hn1 & Hi1 & Ha1 & Hsp); [done|done|done|done|lia|].
  pose proof (take_chunk _ _ _ _ (Z.of_nat (length msg)) Hsp ltac:(lia)) as Hads. rewrite Nat2Z.id in Hads.
  set (m1 := take (Z.to_nat k) msg). set (m2 := drop (Z.to_nat k) msg).
  assert (Hm1 : Z.of_nat (length m1) = k) by (subst m1; rewrite length_take; lia).
  assert (Hm2 : length m2 = Z.to_nat (Z.of_nat (length msg) - k)) by (subst m2; rewrite length_drop; lia).
  assert (Hmm : m1 ++ m2 = msg) by apply take_drop.
  pose proof (copy_then kmem M s t (iov_base v + pos c) m1 m2 (take (length m2) (addrs (advance c v k)))
    (write_loop fuel (advance c v k) (Some t) m2 (total + k))) as Hct.
  rewrite Hm1, Hmm, Hm2, Ha1, <- Hads in Hct. apply Hct; clear Hct; [done|done|..].
  - destruct Hr as [? Hr]. split; [|destruct Hr]; lia.
  - intros E0. rewrite E0 in Hm1. simpl in Hm1. lia.
  - by apply Forall_take.
  - intros Hu. apply (private_part M t (iov_base v) (iov_len v)); [|lia..].
    apply (Hpr l0 v Hl); [by eapply list_elem_of_lookup_2|lia].
  - intros M1 kmem1 s1 Hi' Hk'. rewrite <- Hm2, <- Ha1.
    eapply wp_mono; [apply (IH kmem1 M1 s1 (advance c v k) m2 (total + k) Hi' Hc1)|done|].
    + by rewrite Hl1.
    + intros l w. rewrite Hl1. intros ? ? ?. by apply Hk', (Hpr l w).
    + by apply Forall_drop.
    + rewrite Hn1. lia.
    + intros [[[n c'] kmem2] s2] [(-> & Hc2 & Hv2 & Ha2) Hsd]. split; [|done]. split; [|split; [done|split; [congruence|]]].
      * rewrite Hads, length_app, length_seqZ, Ha1, Hm2. lia.
      * rewrite Ha2, Ha1, drop_drop. f_equal. lia.
Qed.

(** ** Reading and writing a request *)

Definition set_send c q : Request := MkRequest c (recv q) (process q) (connection q) (ref_count q) (sem_count q) (r q).
Definition set_recv c q : Request := MkRequest (send q) c (process q) (connection q) (ref_count q) (sem_count q) (r q).

Lemma request_read_ok kmem M s t q n :
  inv tabs M s → t ∈ tabs → process q = Some t → cursor_ok (send q) → 0 ≤ n →
  match mapM (vbyte kmem M s t) (take (Z.to_nat n) (addrs (send q))) with
  | Some l => ∃ c', request_read q n kmem s = Ok (Z.of_nat (length l), l, set_send c' q, s) ∧
      cursor_ok c' ∧ addrs c' = drop (Z.to_nat n) (addrs (send q))
  | None => ∃ w, request_read q n kmem s = Panic w ∧ fault w
  end.
Proof.
  intros Hi Ht Hp Hc Hn. unfold request_read. rewrite Hp. destruct (iov (send q)) as [l0|] eqn:El.
  2:{ assert (E : addrs (send q) = []) by (unfold addrs; by rewrite El). rewrite E, take_nil, drop_nil. simpl. exists (send q). by destruct q. }
  pose proof (request_read_loop_ok (loop_fuel (send q) n) kmem M s t (send q) l0 n [] 0 Hi Ht Hc El Hn ltac:(unfold loop_fuel; lia)) as H.
  destruct (mapM _ _) as [l|]; [destruct H as (c' & -> & Hc' & Ha')|destruct H as (w & -> & Hw)]; simpl; [|by exists w].
  exists c'. unfold set_send. by rewrite Hp.
Qed.

Lemma request_write_ok kmem M s t q msg :
  inv tabs M s → t ∈ tabs → process q = Some t → cursor_ok (recv q) → iov_private M t (recv q) → Forall byte msg →
  let ads := take (length msg) (addrs (recv q)) in
  wp (request_write q msg kmem s) (write_fault M t ads kmem s) (λ res, let '(n, q', kmem', s') := res in
    n = Z.of_nat (length ads) ∧ store_done M t ads msg kmem s kmem' s' ∧
    ∃ c', q' = set_recv c' q ∧ cursor_ok c' ∧ iov c' = iov (recv q) ∧ addrs c' = drop (length msg) (addrs (recv q))).
Proof.
  intros Hi Ht Hp Hc Hpr Hby. unfold request_write. rewrite Hp. destruct (iov (recv q)) as [l0|] eqn:El.
  2:{ assert (E : addrs (recv q) = []) by (unfold addrs; by rewrite El). cbv zeta. rewrite E, take_nil, drop_nil. simpl. split; [done|].
      split; [by apply store_done_nil|]. exists (recv q). by destruct q. }
  cbv zeta. apply wp_bind. eapply wp_mono; [apply (request_write_loop_ok _ kmem M s t (recv q) l0); try done; unfold loop_fuel; lia|done|].
  intros [[[n c'] kmem'] s'] [(-> & Hc' & Hv' & Ha') Hsd]. simpl. split; [done|]. split; [done|]. rewrite <- El. exists c'. unfold set_recv. by rewrite Hp.
Qed.

(** [request_read] of [n] bytes from a request whose vectors are ranges of
    user or kernel memory.  When each of the first [n] addresses of the vectors
    that are left (all of them, when there are fewer) can be read, the call
    returns the bytes there, in order, across vectors and empty vectors, and
    the cursor is left behind them; otherwise the kernel stops with a fault. *)
Theorem request_read_spec kmem M s t q n :
  inv tabs M s → t ∈ tabs → process q = Some t → cursor_ok (send q) → 0 ≤ n →
  match mapM (vbyte kmem M s t) (take (Z.to_nat n) (addrs (send q))) with
  | Some l => ∃ c', request_read q n kmem s = Ok (Z.of_nat (length l), l, set_send c' q, s) ∧
      cursor_ok c' ∧ addrs c' = drop (Z.to_nat n) (addrs (send q))
  | None => ∃ w, request_read q n kmem s = Panic w ∧ fault w
  end.
Proof. apply request_read_ok. Qed.

Lemma fst_zip_take {A B} (k : list A) (l : list B) : (zip k l).*1 = take (length l) k.
Proof. revert l. induction k as [|x k IH]; intros [|y l]; simpl; try done. by rewrite IH. Qed.

Lemma writes_lookup ads msg i x y : NoDup ads → ads !! i = Some x → msg !! i = Some y → writes ads msg !! x = Some y.
Proof.
  intros Hnd Hx Hy. unfold writes. apply elem_of_list_to_map_1.
  - rewrite fmap_reverse, reverse_Permutation. rewrite fst_zip_take. eapply sublist_NoDup; [exact Hnd|]. apply sublist_take.
  - apply elem_of_reverse, (list_elem_of_lookup_2 _ i). apply lookup_zip_with_Some. by exists x, y.
Qed.

(** Those that are stored to are those of the message. *)
Lemma stored_there t ads msg f f' : stored t ads msg f f' → NoDup ads → (length ads ≤ length msg)%nat → mapM (f' t) ads = Some (take (length ads) msg).
Proof.
  intros Hst Hnd Hl. apply mapM_Some_2, Forall2_same_length_lookup_2; [rewrite length_take; lia|]. intros i x y Hx Hy. rewrite Hst, decide_True by auto.
  apply lookup_take_Some in Hy as [Hy _]. rewrite (writes_lookup ads msg i x y) by done. by destruct (f t x).
Qed.

(** [request_write] stores a message to a request whose user ranges are
    copy-on-write or mapped once.  It stores as many bytes as the vectors have
    room for, at the next addresses of the vectors in order; the later of two
    bytes for one address wins, and no other byte of any client or of the
    kernel changes.  When the addresses are distinct, reading them gives the
    stored part of the message.  It stops only when memory runs out or one of
    the addresses cannot be written. *)
Theorem request_write_spec kmem M s t q msg :
  inv tabs M s → t ∈ tabs → process q = Some t → cursor_ok (recv q) → iov_private M t (recv q) → Forall byte msg →
  let ads := take (length msg) (addrs (recv q)) in
  wp (request_write q msg kmem s) (λ w, oom w ∨ fault w ∧ Exists (λ x, vbyte kmem M s t x = None) ads)
    (λ res, let '(n, q', kmem', s') := res in n = Z.of_nat (length ads) ∧ addrs (recv q') = drop (length msg) (addrs (recv q)) ∧
      send q' = send q ∧ ∃ M', inv tabs M' s' ∧
      (∀ t' x, vbyte kmem' M' s' t' x =
        if decide (t' = t ∨ VIRT_KERNEL_BASE < x) then writes ads msg !! x ∪ vbyte kmem M s t' x else vbyte kmem M s t' x) ∧
      (NoDup ads → mapM (vbyte kmem' M' s' t) ads = Some (take (length ads) msg))).
Proof.
  intros Hi Ht Hp Hc Hpr Hby ads. eapply wp_mono; [by apply (request_write_ok kmem M s t q msg)|done|].
  intros [[[n q'] kmem'] s'] (-> & (M' & Hi' & _ & Hst & _) & c' & -> & Hc' & _ & Ha'). split; [done|]. split; [done|]. split; [done|].
  exists M'. split; [done|]. split; [done|]. intros Hnd. apply (stored_there t ads msg (vbyte kmem M s)); [done|done|]. subst ads. rewrite length_take. lia.
Qed.

Lemma elem_of_dropped (n : nat) (l : list Z) (x : Z) : x ∈ drop n l → x ∈ l.
Proof. rewrite <- (take_drop n l) at 2. intros ?. apply elem_of_app. by right. Qed.

(** A request as the streams of Pipe.v: [ads] are the addresses that have been
    written so far. *)
Record streams kmem M s t q (ads : list Z) (p : Pipe.Req) : Prop := {
  st_process : process q = Some t;
  st_send : cursor_ok (send q);
  st_recv : cursor_ok (recv q);
  st_private : iov_private M t (recv q);
  st_bytes : mapM (vbyte kmem M s t) (addrs (send q)) = Some (Pipe.send p);
  st_room : Pipe.room p = Z.of_nat (length (addrs (recv q)));
  st_got : mapM (vbyte kmem M s t) ads = Some (Pipe.got p);
  st_nodup : NoDup (ads ++ addrs (recv q));
  st_apart : ∀ x, x ∈ addrs (send q) → x ∉ addrs (recv q)
}.

(** Bytes that are not stored to are the same. *)
Lemma stored_apart t ads msg f f' (k : list Z) : stored t ads msg f f' → (∀ x, x ∈ k → x ∉ ads) → mapM (f' t) k = mapM (f t) k.
Proof.
  intros Hst Hk. apply mapM_ext_in. intros x Hx. rewrite Hst, decide_True by auto. destruct (writes ads msg !! x) eqn:Ew; [|by destruct (f t x)].
  destruct (Hk x Hx). eapply writes_elem. by rewrite Ew.
Qed.

(** Reading moves the cursor of the bytes that are sent. *)
Lemma streams_read kmem M s t q ads p n :
  inv tabs M s → t ∈ tabs → streams kmem M s t q ads p → 0 ≤ n →
  ∃ q', let '(k, l, p') := Pipe.request_read p n in request_read q n kmem s = Ok (k, l, q', s) ∧ streams kmem M s t q' ads p'.
Proof.
  intros Hi Ht [Hp Hcs Hcr Hpr Hb Hrm Hg Hnd Hap] Hn. pose proof (request_read_ok kmem M s t q n Hi Ht Hp Hcs Hn) as H.
  rewrite <- (take_drop (Z.to_nat n) (addrs (send q))), mapM_app_bind in Hb.
  destruct (mapM _ (take _ _)) as [l1|] eqn:E1; [|done]. simpl in Hb. destruct (mapM _ (drop _ _)) as [l2|] eqn:E2; [|done]. simpl in Hb.
  injection Hb as Hb. destruct H as (c' & Hrd & Hc' & Ha'). exists (set_send c' q).
  apply length_mapM in E1 as Hl1. apply length_mapM in E2 as Hl2. rewrite length_take in Hl1. rewrite length_drop in Hl2.
  unfold Pipe.request_read. rewrite <- Hb.
  assert (take (Z.to_nat n) (l1 ++ l2) = l1 ∧ drop (Z.to_nat n) (l1 ++ l2) = l2) as [-> ->].
  { rewrite take_app, drop_app. destruct (decide (Z.to_nat n ≤ length l1)%nat).
    - rewrite take_ge, drop_ge by lia. replace (Z.to_nat n - length l1)%nat with 0%nat by lia. by rewrite app_nil_r.
    - assert (l2 = []) as -> by (apply length_zero_iff_nil; lia). rewrite take_nil, drop_nil, take_ge, drop_ge by lia. by rewrite app_nil_r. }
  split; [done|]. split; simpl; try done; [by rewrite Ha'|]. intros x. rewrite Ha'. intros Hx. apply Hap. by apply (elem_of_dropped (Z.to_nat n)).
Qed.

(** C20: requests implement the byte streams that the pipe's handlers are
    written against.  For a request that shows as the streams [p], whose vectors
    do not overlap, and which has been given the bytes at the addresses [ads]:
    [request_read] returns what the stream returns; [request_write] accepts as
    many bytes of the message as the stream has room for, and stores them, in
    order and across the vectors, at the next addresses for the answer, so that
    the memory of the client holds there, and at [ads], exactly the bytes that
    the stream has been given; no other byte of any client or of the kernel
    changes.  The request shows as the new streams afterwards.  A write stops
    only when memory runs out or one of the addresses cannot be written. *)
Theorem request_refines_streams kmem M s t q ads p :
  inv tabs M s → t ∈ tabs → streams kmem M s t q ads p →
  (∀ n, 0 ≤ n → ∃ q', let '(k, l, p') := Pipe.request_read p n in request_read q n kmem s = Ok (k, l, q', s) ∧ streams kmem M s t q' ads p') ∧
  (∀ msg, Forall byte msg → let new := take (length msg) (addrs (recv q)) in
    wp (request_write q msg kmem s) (write_fault M t new kmem s)
    (λ res, let '(n, q', kmem', s') := res in let '(k, p') := Pipe.request_write p msg in
      n = k ∧ ∃ M', inv tabs M' s' ∧ streams kmem' M' s' t q' (ads ++ new) p' ∧
        mapM (vbyte kmem' M' s' t) new = Some (take (Z.to_nat n) msg) ∧
        ∀ t' x, (t' ≠ t ∧ x ≤ VIRT_KERNEL_BASE ∨ x ∉ new) → vbyte kmem' M' s' t' x = vbyte kmem M s t' x)).
Proof.
  intros Hi Ht Hsm. split; [intros n; by apply streams_read|]. destruct Hsm as [Hp Hcs Hcr Hpr Hb Hrm Hg Hnd Hap].
  intros msg Hby new. eapply wp_mono; [by apply (request_write_ok kmem M s t q msg)|done|]. fold new.
  intros [[[n q'] kmem'] s'] (-> & (M' & Hi' & Hk' & Hst & _) & c' & -> & Hc' & Hv' & Ha'). simpl.
  assert (Hln : length new = (length msg `min` length (addrs (recv q)))%nat) by apply length_take.
  assert (Hin : ∀ x, x ∈ new → x ∈ addrs (recv q)) by (intros x (i & Hx & _)%elem_of_take; by eapply list_elem_of_lookup_2).
  assert (Hsp : new ++ drop (length msg) (addrs (recv q)) = addrs (recv q)) by apply take_drop.
  assert (Hnew : mapM (vbyte kmem' M' s' t) new = Some (take (length new) msg)).
  { apply (stored_there t new msg (vbyte kmem M s)); [done| |lia]. rewrite <- Hsp in Hnd. by apply NoDup_app in Hnd as (_ & _ & (? & _)%NoDup_app). }
  replace (Z.min (Pipe.room p) (Z.of_nat (length msg))) with (Z.of_nat (length new)) by lia. rewrite Nat2Z.id.
  split; [done|]. exists M'. split; [done|]. split; [split; simpl; try done|split; [done|]].
  - intros l v. rewrite Hv'. intros ???. by apply Hk', (Hpr l v).
  - rewrite <- Hb. apply (stored_apart t new msg); [done|]. intros x Hx Hx'. by destruct (Hap x Hx (Hin x Hx')).
  - rewrite Ha', length_drop. lia.
  - rewrite mapM_app_bind, Hnew, (stored_apart t new msg _ _ ads Hst), Hg; [done|]. intros x Hx Hx'. apply NoDup_app in Hnd as (_ & Hnd & _). by apply (Hnd x Hx), Hin.
  - rewrite Ha', <- app_assoc, Hsp. done.
  - intros x Hx. rewrite Ha'. intros Hx'. destruct (Hap x Hx). by apply (elem_of_dropped (length msg)).
  - intros t' x Hx. rewrite Hst. case_decide as Hd; [|done]. destruct (writes new msg !! x) eqn:Ew; [|by destruct (vbyte kmem M s t' x)].
    assert (x ∈ new) by (eapply writes_elem; by rewrite Ew). destruct Hx as [[??]|?]; [|done]. destruct Hd; [done|lia].
Qed.

End laws.

(** ** A concrete request *)

Import ArmVm.

(** A message in kernel memory, an empty vector, a range of user memory that
    crosses a page; two user ranges for the answer, the first partly used. *)
Definition some_kmem : gmap Z Z := map_seqZ 0x90000000 [7; 8; 9].
Definition some_iov : list iovec := [MkIov 0x90000000 3; MkIov 0 0; MkIov (VmImage.base + PAGE_SIZE - 1) 2].
Definition some_room : list iovec := [MkIov VmImage.base 2; MkIov VmImage.stack 4].
Definition some_request : Request :=
  MkRequest (MkCur (Some some_iov) 3 0 0) (MkCur (Some some_room) 2 0 1) (Some VmImage.parent) (Some 1) 2 0 0.

Lemma some_send_ok : cursor_ok (send some_request).
Proof.
  intros l [= <-]. split; [done|]. split; [done|]. split; [done|]. split; [|done].
  apply Forall_cons_2; [split; [done|by right]|]. apply Forall_cons_2; [split; [done|by left]|]. apply Forall_cons_2; [split; [done|by left]|done].
Qed.
Lemma some_recv_ok : cursor_ok (recv some_request).
Proof.
  intros l [= <-]. split; [done|]. split; [done|]. split; [done|]. split; [|done].
  apply Forall_cons_2; [split; [done|by left]|]. apply Forall_cons_2; [split; [done|by left]|done].
Qed.

Lemma some_addrs : addrs (send some_request) = [0x90000000; 0x90000001; 0x90000002; 0x10fff; 0x11000] ∧
  addrs (recv some_request) = [0x10001; 0x7ffff000; 0x7ffff001; 0x7ffff002; 0x7ffff003].
Proof. split; vm_compute; reflexivity. Qed.

Lemma some_private (M : mapping) : (∀ v : Z, VmImage.base / PAGE_SIZE ≤ v < VmImage.base / PAGE_SIZE + 2 ∨ v = VmImage.stack / PAGE_SIZE →
    VmImage.data_page M VmImage.parent v) → iov_private M VmImage.parent (recv some_request).
Proof.
  intros Hd l v [= <-] Hv _ o q fl Ho Hq. right.
  destruct (Hd (o / PAGE_SIZE)) as (p & Hp & Hr); [|rewrite Hp in Hq; by injection Hq as <- _].
  unfold PAGE_SIZE in *. apply elem_of_cons in Hv as [->|Hv]; [|apply list_elem_of_singleton in Hv as ->]; cbn [iov_base iov_len] in Ho;
    [left|right]; change VmImage.base with 65536 in *; change VmImage.stack with 2147479552 in *; Z.to_euclidean_division_equations; lia.
Qed.


Lemma request_read_spec_witness : ∃ M, inv VmImage.tabs M VmImage.state ∧
  match mapM (vbyte some_kmem M VmImage.state VmImage.parent) [0x90000000; 0x90000001; 0x90000002; 0x10fff] with
  | Some l => ∃ c', request_read some_request 4 some_kmem VmImage.state = Ok (Z.of_nat (length l), l, set_send c' some_request, VmImage.state) ∧
      cursor_ok c' ∧ addrs c' = [0x11000]
  | None => ∃ w, request_read some_request 4 some_kmem VmImage.state = Panic w ∧ fault w
  end.
Proof.
  destruct VmImage.state_ready as (_ & M & Hi & _). exists M. split; [exact Hi|].
  exact (request_read_spec VmImage.tabs some_kmem M VmImage.state VmImage.parent some_request 4 Hi VmImage.parent_tab eq_refl some_send_ok ltac:(discriminate)).
Defined.

Lemma request_write_spec_witness : ∃ M, inv VmImage.tabs M VmImage.state ∧
  let ads := [0x10001; 0x7ffff000; 0x7ffff001] in
  wp (request_write some_request [1; 2; 3] some_kmem VmImage.state)
    (λ w, oom w ∨ fault w ∧ Exists (λ x, vbyte some_kmem M VmImage.state VmImage.parent x = None) ads)
    (λ res, let '(n, q', kmem', s') := res in n = 3 ∧ addrs (recv q') = [0x7ffff002; 0x7ffff003] ∧
      send q' = send some_request ∧ ∃ M', inv VmImage.tabs M' s' ∧
      (∀ t' x, vbyte kmem' M' s' t' x =
        if decide (t' = VmImage.parent ∨ VIRT_KERNEL_BASE < x) then writes ads [1; 2; 3] !! x ∪ vbyte some_kmem M VmImage.state t' x
        else vbyte some_kmem M VmImage.state t' x) ∧
      (NoDup ads → mapM (vbyte kmem' M' s' VmImage.parent) ads = Some [1; 2; 3])).
Proof.
  destruct VmImage.state_ready as (_ & M & Hi & Hd). exists M. split; [exact Hi|].
  apply (request_write_spec VmImage.tabs some_kmem M VmImage.state VmImage.parent some_request [1; 2; 3] Hi VmImage.parent_tab eq_refl some_recv_ok (some_private M Hd)).
  repeat constructor; discriminate.
Defined.

Lemma some_streams M : inv VmImage.tabs M VmImage.state → (∀ v : Z, VmImage.base / PAGE_SIZE ≤ v < VmImage.base / PAGE_SIZE + 2 ∨ v = VmImage.stack / PAGE_SIZE →
    VmImage.data_page M VmImage.parent v) → ∃ p, streams some_kmem M VmImage.state VmImage.parent some_request [] p.
Proof.
  intros Hi Hd. destruct some_addrs as [Es Er].
  destruct (proj2 (mapM_is_Some (vbyte some_kmem M VmImage.state VmImage.parent) (addrs (send some_request)))) as [bs Hbs].
  - rewrite Es. do 3 (apply Forall_cons_2; [by eexists|]). change VmImage.base with 65536 in *.
    assert (Hu : ∀ x, x / PAGE_SIZE = 16 ∨ x / PAGE_SIZE = 17 → is_Some (ubyte VmImage.state M VmImage.parent x)).
    { intros x Hx. apply (ubyte_mapped VmImage.tabs); [exact Hi|]. destruct (Hd (x / PAGE_SIZE)) as (p & -> & _); [|done]. left. change (65536 / PAGE_SIZE) with 16. lia. }
    apply Forall_cons_2; [apply Hu; by left|]. apply Forall_cons_2; [apply Hu; by right|done].
  - exists (Pipe.MkReq bs 5 []). split; [done|apply some_send_ok|apply some_recv_ok|by apply some_private|done|by rewrite Er|done|rewrite Er; by apply (bool_decide_unpack _)|].
    rewrite Es, Er. intros x. rewrite !elem_of_cons, elem_of_nil. lia.
Qed.

Lemma request_refines_streams_witness : ∃ M p, streams some_kmem M VmImage.state VmImage.parent some_request [] p ∧
  wp (request_write some_request [1; 2; 3] some_kmem VmImage.state) (write_fault M VmImage.parent [0x10001; 0x7ffff000; 0x7ffff001] some_kmem VmImage.state)
    (λ res, let '(n, q', kmem', s') := res in n = 3 ∧ ∃ M', inv VmImage.tabs M' s' ∧
      mapM (vbyte kmem' M' s' VmImage.parent) [0x10001; 0x7ffff000; 0x7ffff001] = Some [1; 2; 3]).
Proof.
  destruct VmImage.state_ready as (_ & M & Hi & Hd). destruct (some_streams M Hi Hd) as [p Hp]. exists M, p. split; [exact Hp|].
  destruct (request_refines_streams VmImage.tabs some_kmem M VmImage.state VmImage.parent some_request [] p Hi VmImage.parent_tab Hp) as [_ H].
  specialize (H [1; 2; 3] ltac:(repeat constructor; discriminate)). cbv zeta in H. destruct some_addrs as [_ Er]. rewrite Er in H. cbn [take length] in H.
  refine (wp_mono _ _ _ _ _ H (λ w Hw, Hw) _). clear H. intros [[[n q'] kmem'] s']. unfold Pipe.request_write. rewrite (st_room _ _ _ _ _ _ _ Hp), Er.
  intros (-> & M' & Hi' & _ & Hb & _). split; [reflexivity|]. exists M'. split; [exact Hi'|exact Hb].
Defined.

End Request.
