(* ===== verification/Ipc.v ===== *)
(** Messages between clients and services (kernel/ipc/connection.c,
    endpoint.c and the life of a request in request.c).

    A client sends a request to the mailbox of an endpoint, waits on the
    semaphore of the request, reads the result and drops its reference.  A
    service task receives the request, works on it, stores the result, posts the
    semaphore and drops the other reference.  The tasks interleave between the
    critical sections, and the request is freed by whoever comes last.  A
    pointer to a freed request is never used again for another one here, so that
    each use of one is seen.  A handler may go to sleep on the way, as the ones of
    pipes and terminals do on their condition variables, and is woken by others:
    when is not said here.  The mailbox is the first-in first-out queue of
    Mailbox.v; sleeping and waking are in Kernel.v. *)

From S2P Require Import Prelude Bitmap PageAlloc Bytes VmArch Request.
Import VmArch Request.
#[local] Open Scope Z_scope.

Module Ipc.

Definition ENOMEM : Z := 12.
Definition ENDPOINT_MBOX_CAPACITY : Z := 20.

(** *** Sending *)

(** One vector of [connection_send]; [alloc] says if memory can be allocated. *)
Definition one_iov (alloc : bool) (msg bytes : Z) : outcome cursor :=
  if negb (msg =? 0) && negb (bytes =? 0) then
    if alloc then Ok (MkCur (Some [MkIov msg bytes]) 1 0 0) else Panic "out of memory"
  else Ok no_iov.

(** The vectors of [connection_sendv]: the copy of [cnt] entries. *)
Definition copy_iov (alloc : bool) (v : option (list iovec)) (cnt : Z) : outcome cursor :=
  match v with
  | Some l =>
      if cnt =? 0 then Ok no_iov else
      if alloc then
        _ ← k_assert ((0 <=? cnt) && (cnt <=? Z.of_nat (length l))) "bad iovec count";
        Ok (MkCur (Some (take (Z.to_nat cnt) l)) cnt 0 0)
      else Panic "out of memory"
  | None => Ok no_iov
  end.

(** The arguments of a call and the answers of the allocator. *)
Record call := MkCall {
  endpoint : bool; connection_id : Z; current : Z; junk : Z;
  a_request : bool; a_send : bool; a_recv : bool
}.

(** The part of a call before the message is sent: a code, or the request with
    a reference for the client and one for the service. *)
Definition connection_start (a : call) (vectors : outcome (cursor * cursor)) : outcome (Z + Request) :=
  if negb (endpoint a) then Ok (inl (-1)) else
  if negb (a_request a) then Ok (inl (- ENOMEM)) else
  let q := request_create (junk a) in
  '(sv, rv) ← vectors;
  Ok (inr (request_dup (MkRequest sv rv (Some (current a)) (Some (connection_id a)) (ref_count q) (sem_count q) (r q)))).

Definition connection_send a (smsg sbytes rmsg rbytes : Z) : outcome (Z + Request) :=
  connection_start a (sv ← one_iov (a_send a) smsg sbytes; rv ← one_iov (a_recv a) rmsg rbytes; Ok (sv, rv)).
Definition connection_sendv a (siov : option (list iovec)) (scnt : Z) (riov : option (list iovec)) (rcnt : Z) : outcome (Z + Request) :=
  connection_start a (sv ← copy_iov (a_send a) siov scnt; rv ← copy_iov (a_recv a) riov rcnt; Ok (sv, rv)).

Inductive message :=
  | Send (smsg sbytes rmsg rbytes : Z)
  | Sendv (siov : option (list iovec)) (scnt : Z) (riov : option (list iovec)) (rcnt : Z).

Definition prepare a (m : message) : outcome (Z + Request) :=
  match m with
  | Send smsg sbytes rmsg rbytes => connection_send a smsg sbytes rmsg rbytes
  | Sendv siov scnt riov rcnt => connection_sendv a siov scnt riov rcnt
  end.

(** *** Tasks *)

Inductive client_at := ToSend | Waiting | Got | HasResult (r : Z).
Inductive client := CIdle | CBusy (id : Z) (x : client_at) | CFailed (code : Z) | CDone (id r : Z).

(** [Serving]: in the handler; [Sleeping]: the handler waits for something. *)
Inductive service_at := Serving | Sleeping | Replied | Posted.
Inductive service := SIdle | SBusy (id : Z) (y : service_at).

(** [replies] is history: the result stored for each request. *)
Record sys := MkSys {
  heap : gmap Z Request;
  next : Z;
  mbox : list Z;
  clients : gmap nat client;
  services : gmap nat service;
  replies : gmap Z Z
}.

Implicit Types (s : sys) (cl sv : nat) (id : Z) (q : Request).

Definition set_heap h s := MkSys h (next s) (mbox s) (clients s) (services s) (replies s).
Definition set_client cl x s := MkSys (heap s) (next s) (mbox s) (<[cl := x]> (clients s)) (services s) (replies s).
Definition set_service sv y s := MkSys (heap s) (next s) (mbox s) (clients s) (<[sv := y]> (services s)) (replies s).
Definition set_mbox l s := MkSys (heap s) (next s) l (clients s) (services s) (replies s).
Definition set_reply id v s := MkSys (heap s) (next s) (mbox s) (clients s) (services s) (<[id := v]> (replies s)).

Definition request_at id s : outcome Request := deref (heap s !! id) "use after free".
Definition put_request id q s : sys := set_heap (<[id := q]> (heap s)) s.

Definition with_sem n q := MkRequest (send q) (recv q) (process q) (connection q) (ref_count q) n (r q).
Definition with_r v q := MkRequest (send q) (recv q) (process q) (connection q) (ref_count q) (sem_count q) v.

(** [request_destroy] of the request at [id]. *)
Definition drop_request id s : outcome sys :=
  q ← request_at id s;
  o ← request_destroy q;
  Ok (match o with Some q => put_request id q s | None => set_heap (delete id (heap s)) s end).

Inductive event :=
  | EStart cl (a : call) (m : message)   (* a call, up to [k_mailbox_timed_send] *)
  | EClient cl (timeout : bool)          (* the next step of the call *)
  | EReceive sv                          (* [endpoint_receive] *)
  | EWork sv (cs cr : cursor)            (* the service reads and writes the request *)
  | ESleep sv                            (* the handler waits on a condition variable *)
  | EWake sv                             (* and is woken *)
  | EService sv (v : Z).                 (* the next step of [request_reply] *)

(** The client of a busy call, with the place it is at. *)
Definition client_busy cl s : option (Z * client_at) :=
  match clients s !! cl with Some (CBusy id x) => Some (id, x) | _ => None end.
Definition service_busy sv s : option (Z * service_at) :=
  match services s !! sv with Some (SBusy id y) => Some (id, y) | _ => None end.

Definition start cl a m s : outcome (option sys) :=
  match clients s !! cl with
  | Some (CBusy _ _) | None => Ok None
  | Some _ =>
      o ← prepare a m;
      Ok (Some (match o with
        | inl code => set_client cl (CFailed code) s
        | inr q => set_client cl (CBusy (next s) ToSend)
            (MkSys (<[next s := q]> (heap s)) (next s + 1) (mbox s) (clients s) (services s) (replies s))
        end))
  end.

(** A step of the client; no state when it cannot be taken. *)
Definition client_step cl (timeout : bool) s : outcome (option sys) :=
  match client_busy cl s with
  | Some (id, ToSend) =>
      if timeout then Panic "fail send:" else
      if Z.of_nat (length (mbox s)) =? ENDPOINT_MBOX_CAPACITY then Ok None else
      Ok (Some (set_client cl (CBusy id Waiting) (set_mbox (mbox s ++ [id]) s)))
  | Some (id, Waiting) =>
      if timeout then Panic "fail recv:" else
      q ← request_at id s;
      if sem_count q =? 0 then Ok None else
      Ok (Some (set_client cl (CBusy id Got) (put_request id (with_sem (sem_count q - 1) q) s)))
  | Some (id, Got) => q ← request_at id s; Ok (Some (set_client cl (CBusy id (HasResult (r q))) s))
  | Some (id, HasResult v) => s ← drop_request id s; Ok (Some (set_client cl (CDone id v) s))
  | None => Ok None
  end.

Definition endpoint_receive sv s : option sys :=
  match services s !! sv, mbox s with
  | Some SIdle, id :: l => Some (set_service sv (SBusy id Serving) (set_mbox l s))
  | _, _ => None
  end.

(** The reads and writes of a handler need the process of the client. *)
Definition service_work sv (cs cr : cursor) s : outcome (option sys) :=
  match service_busy sv s with
  | Some (id, Serving) =>
      q ← request_at id s;
      _ ← deref (process q) "Assertion failed: process != NULL";
      Ok (Some (put_request id (set_recv cr (set_send cs q)) s))
  | _ => Ok None
  end.

Definition service_sleep sv s : option sys :=
  match service_busy sv s with Some (id, Serving) => Some (set_service sv (SBusy id Sleeping) s) | _ => None end.
Definition service_wake sv s : option sys :=
  match service_busy sv s with Some (id, Sleeping) => Some (set_service sv (SBusy id Serving) s) | _ => None end.

(** The three parts of [request_reply], the first one when the handler is done:
    not while it sleeps. *)
Definition service_step sv (v : Z) s : outcome (option sys) :=
  match service_busy sv s with
  | Some (id, Serving) =>
      q ← request_at id s; Ok (Some (set_service sv (SBusy id Replied) (set_reply id v (put_request id (with_r v q) s))))
  | Some (id, Replied) =>
      q ← request_at id s; Ok (Some (set_service sv (SBusy id Posted) (put_request id (with_sem (sem_count q + 1) q) s)))
  | Some (id, Posted) => s ← drop_request id s; Ok (Some (set_service sv SIdle s))
  | Some (_, Sleeping) | None => Ok None
  end.

Definition step (e : event) s : outcome (option sys) :=
  match e with
  | EStart cl a m => start cl a m s
  | EClient cl timeout => client_step cl timeout s
  | EReceive sv => Ok (endpoint_receive sv s)
  | EWork sv cs cr => service_work sv cs cr s
  | ESleep sv => Ok (service_sleep sv s)
  | EWake sv => Ok (service_wake sv s)
  | EService sv v => service_step sv v s
  end.

(** A schedule; an event that cannot happen is skipped. *)
Fixpoint run (es : list event) s : outcome sys :=
  match es with
  | [] => Ok s
  | e :: es => o ← step e s; run es (default s o)
  end.

(** [nc] clients and [ns] service tasks. *)
Definition start_state (nc ns : nat) : sys :=
  MkSys ∅ 1 [] (list_to_map ((λ i, (i, CIdle)) <$> seq 0 nc)) (list_to_map ((λ i, (i, SIdle)) <$> seq 0 ns)) ∅.

(** ** Invariant *)

(** Where the service's reference is. *)
Inductive place := NotSent | InBox | At (sv : nat) (y : service_at) | Finished.

(** A request's client, where the client is, and where the other reference is. *)
Abbreviation phase := (nat * option client_at * place)%type.

Implicit Types (x : option client_at) (w : place) (ph : gmap Z phase).

Definition replied w : bool := match w with At _ Replied | At _ Posted | Finished => true | _ => false end.
Definition posted w : bool := match w with At _ Posted | Finished => true | _ => false end.
Definition finished w : bool := match w with Finished => true | _ => false end.

Definition allowed x w : bool :=
  match x with
  | Some ToSend => match w with NotSent => true | _ => false end
  | Some Waiting => match w with NotSent => false | _ => true end
  | Some Got | Some (HasResult _) => posted w
  | None => posted w && negb (finished w)
  end.

Definition refs_of x w : Z := (if x then 1 else 0) + (if finished w then 0 else 1).
Definition sems_of x w : Z := match x with Some Waiting => if posted w then 1 else 0 | _ => 0 end.

Record phase_ok (rep : gmap Z Z) id x w q : Prop := {
  p_allowed : allowed x w = true;
  p_refs : ref_count q = refs_of x w;
  p_sem : sem_count q = sems_of x w;
  p_reply : if replied w then rep !! id = Some (r q) else rep !! id = None ∧ is_Some (process q);
  p_result : match x with Some (HasResult v) => v = r q | _ => True end
}.

Definition client_part (o : option phase) : option (nat * client_at) :=
  match o with Some (cl, Some z, _) => Some (cl, z) | _ => None end.
Definition service_part (o : option phase) : option (nat * service_at) :=
  match o with Some (_, _, At sv y) => Some (sv, y) | _ => None end.
Definition box_part (o : option phase) : bool := match o with Some (_, _, InBox) => true | _ => false end.

(** Tasks and requests agree on who works on what. *)
Definition linked {B} (busy : nat → option (Z * B)) (part : Z → option (nat * B)) : Prop :=
  ∀ k id z, busy k = Some (id, z) ↔ part id = Some (k, z).

Record inv ph s : Prop := {
  i_heap : ∀ id, match ph !! id, heap s !! id with
    | Some (_, x, w), Some q => phase_ok (replies s) id x w q | None, None => True | _, _ => False end;
  i_client : linked (λ cl, client_busy cl s) (λ id, client_part (ph !! id));
  i_service : linked (λ sv, service_busy sv s) (λ id, service_part (ph !! id));
  i_box : ∀ id, id ∈ mbox s ↔ box_part (ph !! id) = true;
  i_nodup : NoDup (mbox s);
  i_next : ∀ id, next s ≤ id → ph !! id = None ∧ replies s !! id = None;
  i_done : ∀ cl id v, clients s !! cl = Some (CDone id v) → replies s !! id = Some v
}.

Lemma linked_ext {B} (b b' : nat → option (Z * B)) p p' :
  linked b p → (∀ k, b' k = b k) → (∀ id, p' id = p id) → linked b' p'.
Proof. intros H Hb Hp k id z. by rewrite Hb, Hp. Qed.

(** Task [k], which works on nothing but [id], moves on. *)
Lemma linked_move {B} (b b' : nat → option (Z * B)) p p' k id :
  linked b p → (∀ k', k' ≠ k → b' k' = b k') → (∀ id', id' ≠ id → p' id' = p id') →
  (∀ i z, b k = Some (i, z) → i = id) → (∀ k' z, p id = Some (k', z) → k' = k) →
  match p' id with Some (k', z) => k' = k ∧ b' k = Some (id, z) | None => b' k = None end → linked b' p'.
Proof.
  intros L Hb Hp Hbk Hpk Hn k1 id1 z1. destruct (decide (k1 = k)) as [->|Hk], (decide (id1 = id)) as [->|Hi].
  - destruct (p' id) as [[k' z]|]; [destruct Hn as [-> ->]; naive_solver|rewrite Hn; naive_solver].
  - rewrite Hp by done. rewrite <- (L k id1 z1). split; [|naive_solver]. intros E. destruct (p' id) as [[k' z]|]; [destruct Hn as [_ Hn]|]; congruence.
  - rewrite Hb, (L k1 id z1) by done. split; [naive_solver|]. intros E. rewrite E in Hn. naive_solver.
  - rewrite Hb, Hp by done. apply L.
Qed.

Lemma inv_request ph s id cl x w :
  inv ph s → ph !! id = Some (cl, x, w) → ∃ q, heap s !! id = Some q ∧ phase_ok (replies s) id x w q.
Proof. intros I E. pose proof (i_heap _ _ I id) as H. rewrite E in H. destruct (heap s !! id) as [q|]; [by exists q|done]. Qed.

(** The phase of the request of a busy client, and of a busy service. *)
Lemma inv_client ph s cl id z : inv ph s → client_busy cl s = Some (id, z) → ∃ w, ph !! id = Some (cl, Some z, w).
Proof.
  intros I E. apply (i_client _ _ I) in E. unfold client_part in E. destruct (ph !! id) as [[[? [?|]] w]|]; try done. injection E as -> ->. by exists w.
Qed.
Lemma inv_service ph s sv id y : inv ph s → service_busy sv s = Some (id, y) → ∃ cl x, ph !! id = Some (cl, x, At sv y).
Proof.
  intros I E. apply (i_service _ _ I) in E. unfold service_part in E. destruct (ph !! id) as [[[? ?] [| |? ?|]]|]; try done. injection E as -> ->. by eexists _, _.
Qed.

(** The heap after the request at [id] changed phase. *)
Definition heap_ok ph (h : gmap Z Request) (rep : gmap Z Z) : Prop :=
  ∀ id, match ph !! id, h !! id with Some (_, x, w), Some q => phase_ok rep id x w q | None, None => True | _, _ => False end.

Lemma heap_update ph h rep id cl x w q :
  heap_ok ph h rep → phase_ok rep id x w q → heap_ok (<[id := (cl, x, w)]> ph) (<[id := q]> h) rep.
Proof. intros H Hq id'. rewrite !lookup_insert. case_decide as E; [by subst|apply H]. Qed.

Lemma heap_delete ph h rep id : heap_ok ph h rep → heap_ok (delete id ph) (delete id h) rep.
Proof. intros H id'. rewrite !lookup_delete. case_decide; [done|apply H]. Qed.

Lemma heap_same ph h rep id cl x w q :
  heap_ok ph h rep → h !! id = Some q → phase_ok rep id x w q → heap_ok (<[id := (cl, x, w)]> ph) h rep.
Proof. intros H E Hq. rewrite <- (insert_id h id q) by done. by apply heap_update. Qed.

(** ** Steps *)

Definition busy_client (c : client) : option (Z * client_at) := match c with CBusy id x => Some (id, x) | _ => None end.
Definition busy_service (y : service) : option (Z * service_at) := match y with SBusy id y => Some (id, y) | _ => None end.

Lemma client_busy_eq cl s : client_busy cl s = clients s !! cl ≫= busy_client.
Proof. unfold client_busy. by destruct (clients s !! cl) as [[]|]. Qed.
Lemma service_busy_eq sv s : service_busy sv s = services s !! sv ≫= busy_service.
Proof. unfold service_busy. by destruct (services s !! sv) as [[]|]. Qed.

(** Client [cl], at request [id], becomes [c]; the request becomes [o]. *)
Lemma client_move ph s cl id (o : option phase) c ph' s' :
  inv ph s → clients s' = <[cl := c]> (clients s) → ph' = partial_alter (λ _, o) id ph →
  (∀ i z, client_busy cl s = Some (i, z) → i = id) → (∀ k z, client_part (ph !! id) = Some (k, z) → k = cl) →
  match client_part o with Some (k, z) => k = cl ∧ c = CBusy id z | None => busy_client c = None end →
  linked (λ cl, client_busy cl s') (λ id, client_part (ph' !! id)).
Proof.
  intros I Hc -> H1 H2 H3. apply (linked_move _ _ _ _ cl id (i_client _ _ I)); [| |done|done|].
  - intros k Hk. by rewrite !client_busy_eq, Hc, lookup_insert_ne.
  - intros i Hi. by rewrite lookup_partial_alter_ne.
  - rewrite lookup_partial_alter_eq, client_busy_eq, Hc, lookup_insert_eq. destruct (client_part o) as [[k z]|]; [|done]. by destruct H3 as [-> ->].
Qed.

Lemma service_move ph s sv id (o : option phase) y ph' s' :
  inv ph s → services s' = <[sv := y]> (services s) → ph' = partial_alter (λ _, o) id ph →
  (∀ i z, service_busy sv s = Some (i, z) → i = id) → (∀ k z, service_part (ph !! id) = Some (k, z) → k = sv) →
  match service_part o with Some (k, z) => k = sv ∧ y = SBusy id z | None => busy_service y = None end →
  linked (λ sv, service_busy sv s') (λ id, service_part (ph' !! id)).
Proof.
  intros I Hc -> H1 H2 H3. apply (linked_move _ _ _ _ sv id (i_service _ _ I)); [| |done|done|].
  - intros k Hk. by rewrite !service_busy_eq, Hc, lookup_insert_ne.
  - intros i Hi. by rewrite lookup_partial_alter_ne.
  - rewrite lookup_partial_alter_eq, service_busy_eq, Hc, lookup_insert_eq. destruct (service_part o) as [[k z]|]; [|done]. by destruct H3 as [-> ->].
Qed.

(** The request at [id] becomes [o]; the clients, the services or the mailbox do
    not see it. *)
Lemma client_stay ph s id (o : option phase) ph' s' :
  inv ph s → clients s' = clients s → ph' = partial_alter (λ _, o) id ph → client_part o = client_part (ph !! id) →
  linked (λ cl, client_busy cl s') (λ id, client_part (ph' !! id)).
Proof.
  intros I Hc -> Ho. apply (linked_ext _ _ _ _ (i_client _ _ I)); [intros k; by rewrite !client_busy_eq, Hc|].
  intros i. destruct (decide (i = id)) as [->|]; [by rewrite lookup_partial_alter_eq|by rewrite lookup_partial_alter_ne].
Qed.

Lemma service_stay ph s id (o : option phase) ph' s' :
  inv ph s → services s' = services s → ph' = partial_alter (λ _, o) id ph → service_part o = service_part (ph !! id) →
  linked (λ sv, service_busy sv s') (λ id, service_part (ph' !! id)).
Proof.
  intros I Hc -> Ho. apply (linked_ext _ _ _ _ (i_service _ _ I)); [intros k; by rewrite !service_busy_eq, Hc|].
  intros i. destruct (decide (i = id)) as [->|]; [by rewrite lookup_partial_alter_eq|by rewrite lookup_partial_alter_ne].
Qed.

Lemma box_stay ph s id (o : option phase) :
  inv ph s → box_part o = box_part (ph !! id) → ∀ i, i ∈ mbox s ↔ box_part (partial_alter (λ _, o) id ph !! i) = true.
Proof.
  intros I Ho i. rewrite (i_box _ _ I). destruct (decide (i = id)) as [->|]; [by rewrite lookup_partial_alter_eq, Ho|by rewrite lookup_partial_alter_ne].
Qed.

Lemma next_stay ph s id e (o : option phase) :
  inv ph s → ph !! id = Some e → ∀ i, next s ≤ i → partial_alter (λ _, o) id ph !! i = None ∧ replies s !! i = None.
Proof.
  intros I E i Hi. destruct (i_next _ _ I i Hi) as [H1 H2]. split; [|done]. by rewrite lookup_partial_alter_ne by congruence.
Qed.

Lemma done_stay ph s cl c : inv ph s → (∀ id v, c = CDone id v → replies s !! id = Some v) →
  ∀ cl' id v, <[cl := c]> (clients s) !! cl' = Some (CDone id v) → replies s !! id = Some v.
Proof. intros I Hc cl' id v. rewrite lookup_insert. case_decide; [intros [= E]; by apply Hc|apply (i_done _ _ I)]. Qed.

(** A step that leads to a state of the invariant. *)
Definition steps_to (o : option sys) : Prop := match o with Some s' => ∃ ph', inv ph' s' | None => True end.

Lemma send_ok ph s cl id :
  inv ph s → client_busy cl s = Some (id, ToSend) →
  ∃ ph', inv ph' (set_client cl (CBusy id Waiting) (set_mbox (mbox s ++ [id]) s)).
Proof.
  intros I E. destruct (inv_client _ _ _ _ _ I E) as [w Hp]. destruct (inv_request _ _ _ _ _ _ I Hp) as (q & Hq & [Ha Hr Hs Hrep _]).
  destruct w; try done. exists (<[id := (cl, Some Waiting, InBox)]> ph). split; simpl.
  - apply (heap_same ph _ _ id _ _ _ q (i_heap _ _ I) Hq). by split.
  - apply (client_move ph s cl id (Some (cl, Some Waiting, InBox)) (CBusy id Waiting)); try done; [congruence|]. rewrite Hp. simpl. congruence.
  - apply (service_stay ph s id (Some (cl, Some Waiting, InBox))); try done. by rewrite Hp.
  - intros i. rewrite elem_of_app, (i_box _ _ I), list_elem_of_singleton. destruct (decide (i = id)) as [->|Hne].
    + rewrite lookup_insert_eq. simpl. naive_solver.
    + rewrite lookup_insert_ne by done. naive_solver.
  - apply NoDup_app. split; [apply (i_nodup _ _ I)|]. split; [|apply NoDup_singleton]. intros i Hi ->%list_elem_of_singleton.
    apply (i_box _ _ I) in Hi. by rewrite Hp in Hi.
  - apply (next_stay ph s id _ (Some _) I Hp).
  - by apply (done_stay ph).
Qed.

Lemma sem_get_ok ph s cl id q :
  inv ph s → client_busy cl s = Some (id, Waiting) → heap s !! id = Some q → sem_count q ≠ 0 →
  ∃ ph', inv ph' (set_client cl (CBusy id Got) (put_request id (with_sem (sem_count q - 1) q) s)).
Proof.
  intros I E Hq Hn. destruct (inv_client _ _ _ _ _ I E) as [w Hp]. destruct (inv_request _ _ _ _ _ _ I Hp) as (q' & Hq' & [Ha Hr Hs Hrep _]).
  rewrite Hq in Hq'. injection Hq' as <-. simpl in Hs. destruct (posted w) eqn:Ew; [|done].
  exists (<[id := (cl, Some Got, w)]> ph). split; simpl.
  - apply heap_update; [exact (i_heap _ _ I)|]. by split; simpl; [done|done|lia|..].
  - apply (client_move ph s cl id (Some (cl, Some Got, w)) (CBusy id Got)); try done; [congruence|]. rewrite Hp. simpl. congruence.
  - apply (service_stay ph s id (Some (cl, Some Got, w))); try done. by rewrite Hp.
  - apply (box_stay ph s id (Some _) I). by rewrite Hp.
  - apply (i_nodup _ _ I).
  - apply (next_stay ph s id _ (Some _) I Hp).
  - by apply (done_stay ph).
Qed.

Lemma result_ok ph s cl id q :
  inv ph s → client_busy cl s = Some (id, Got) → heap s !! id = Some q →
  ∃ ph', inv ph' (set_client cl (CBusy id (HasResult (r q))) s).
Proof.
  intros I E Hq. destruct (inv_client _ _ _ _ _ I E) as [w Hp]. destruct (inv_request _ _ _ _ _ _ I Hp) as (q' & Hq' & [Ha Hr Hs Hrep _]).
  rewrite Hq in Hq'. injection Hq' as <-. exists (<[id := (cl, Some (HasResult (r q)), w)]> ph). split; simpl.
  - apply (heap_same ph _ _ id _ _ _ q (i_heap _ _ I) Hq). by split.
  - apply (client_move ph s cl id (Some (cl, Some (HasResult (r q)), w)) (CBusy id (HasResult (r q)))); try done; [congruence|]. rewrite Hp. simpl. congruence.
  - apply (service_stay ph s id (Some (cl, Some (HasResult (r q)), w))); try done. by rewrite Hp.
  - apply (box_stay ph s id (Some _) I). by rewrite Hp.
  - apply (i_nodup _ _ I).
  - apply (next_stay ph s id _ (Some _) I Hp).
  - by apply (done_stay ph).
Qed.

(** Dropping a reference: the request stays while the other is there. *)
Lemma drop_request_ok ph s id cl x w :
  inv ph s → ph !! id = Some (cl, x, w) →
  (∃ q, heap s !! id = Some q ∧ phase_ok (replies s) id x w q ∧ drop_request id s =
    Ok (set_heap (if refs_of x w =? 1 then delete id (heap s)
      else <[id := MkRequest (send q) (recv q) None None (refs_of x w - 1) (sem_count q) (r q)]> (heap s)) s)).
Proof.
  intros I Hp. destruct (inv_request _ _ _ _ _ _ I Hp) as (q & Hq & P). exists q. split; [done|]. split; [done|].
  unfold drop_request, request_at. rewrite Hq. simpl. unfold request_destroy. pose proof (p_refs _ _ _ _ _ P) as Hr. rewrite Hr.
  assert (0 < refs_of x w) by (pose proof (p_allowed _ _ _ _ _ P) as Ha; unfold refs_of; destruct x; [destruct (finished w); lia|]; simpl in Ha; by destruct w).
  rewrite (proj2 (Z.ltb_lt _ _)) by lia. simpl. destruct (Z.eqb_spec (refs_of x w) 1) as [->|]; [done|].
  rewrite (proj2 (Z.eqb_neq _ _)) by lia. done.
Qed.

Lemma drop_ok ph s cl id v :
  inv ph s → client_busy cl s = Some (id, HasResult v) → ∃ s' ph', drop_request id s = Ok s' ∧ inv ph' (set_client cl (CDone id v) s').
Proof.
  intros I E. destruct (inv_client _ _ _ _ _ I E) as [w Hp]. destruct (drop_request_ok ph s id _ _ _ I Hp) as (q & Hq & [Ha Hr Hs Hrep Hv] & ->).
  simpl in Ha, Hv. set (o := if finished w then None else Some (cl, None, w) : option phase). eexists _, (partial_alter (λ _, o) id ph). split; [done|].
  assert (Hrp : replies s !! id = Some (r q)) by (by destruct w as [| |? []|]). split; simpl.
  - unfold refs_of, o. destruct (finished w) eqn:Ef; simpl; [apply heap_delete; exact (i_heap _ _ I)|].
    apply (heap_update ph _ _ id cl None w); [exact (i_heap _ _ I)|]. split; simpl; [by rewrite Ha, Ef|by unfold refs_of; rewrite Ef|done| |done].
    by destruct w as [| |? []|].
  - apply (client_move ph s cl id o (CDone id v)); try done; [congruence|rewrite Hp; simpl; congruence|]. unfold o. by destruct (finished w).
  - apply (service_stay ph s id o); try done. rewrite Hp. unfold o. by destruct w.
  - apply (box_stay ph s id o I). rewrite Hp. unfold o. by destruct w.
  - apply (i_nodup _ _ I).
  - apply (next_stay ph s id _ o I Hp).
  - apply (done_stay ph s cl (CDone id v) I). intros i v' [= <- <-]. by rewrite Hrp, Hv.
Qed.

Lemma receive_ok ph s sv s' : inv ph s → endpoint_receive sv s = Some s' → ∃ ph', inv ph' s'.
Proof.
  unfold endpoint_receive. intros I E. destruct (services s !! sv) as [[|? ?]|] eqn:Es; try done. destruct (mbox s) as [|id l] eqn:Em; [done|]. injection E as <-.
  assert (Hb : box_part (ph !! id) = true) by (apply (i_box _ _ I); rewrite Em; apply elem_of_cons; by left).
  destruct (ph !! id) as [[[cl x] [| | |]]|] eqn:Hp; try done. destruct (inv_request _ _ _ _ _ _ I Hp) as (q & Hq & [Ha Hr Hs Hrep Hv]).
  pose proof (i_nodup _ _ I) as Hnd. rewrite Em in Hnd. apply NoDup_cons in Hnd as [Hni Hnd].
  exists (<[id := (cl, x, At sv Serving)]> ph). split; simpl.
  - apply (heap_same ph _ _ id _ _ _ q (i_heap _ _ I) Hq). destruct x as [[]|]; by split.
  - apply (client_stay ph s id (Some (cl, x, At sv Serving))); try done. by rewrite Hp.
  - apply (service_move ph s sv id (Some (cl, x, At sv Serving)) (SBusy id Serving)); try done; [|by rewrite Hp].
    intros i z. rewrite service_busy_eq, Es. done.
  - intros i. destruct (decide (i = id)) as [->|Hne]; [rewrite lookup_insert_eq; naive_solver|]. rewrite lookup_insert_ne, <- (i_box _ _ I), Em, elem_of_cons by done.
    naive_solver.
  - done.
  - apply (next_stay ph s id _ (Some _) I Hp).
  - apply (i_done _ _ I).
Qed.

Lemma work_ok ph s sv id cs cr :
  inv ph s → service_busy sv s = Some (id, Serving) →
  ∃ q, heap s !! id = Some q ∧ is_Some (process q) ∧ ∃ ph', inv ph' (put_request id (set_recv cr (set_send cs q)) s).
Proof.
  intros I E. destruct (inv_service _ _ _ _ _ I E) as (cl & x & Hp). destruct (inv_request _ _ _ _ _ _ I Hp) as (q & Hq & [Ha Hr Hs [Hrep Hpr] Hv]).
  exists q. split; [done|]. split; [done|]. exists (<[id := (cl, x, At sv Serving)]> ph). split; simpl.
  - apply heap_update; [exact (i_heap _ _ I)|]. by split.
  - apply (client_stay ph s id (Some (cl, x, At sv Serving))); try done. by rewrite Hp.
  - apply (service_stay ph s id (Some (cl, x, At sv Serving))); try done. by rewrite Hp.
  - apply (box_stay ph s id (Some _) I). by rewrite Hp.
  - apply (i_nodup _ _ I).
  - apply (next_stay ph s id _ (Some _) I Hp).
  - apply (i_done _ _ I).
Qed.

Lemma reply_ok ph s sv id v :
  inv ph s → service_busy sv s = Some (id, Serving) →
  ∃ q, heap s !! id = Some q ∧ replies s !! id = None ∧
    ∃ ph', inv ph' (set_service sv (SBusy id Replied) (set_reply id v (put_request id (with_r v q) s))).
Proof.
  intros I E. destruct (inv_service _ _ _ _ _ I E) as (cl & x & Hp). destruct (inv_request _ _ _ _ _ _ I Hp) as (q & Hq & [Ha Hr Hs [Hrep Hpr] Hv]).
  assert (Hx : x = Some Waiting) by (by destruct x as [[]|]). subst x.
  exists q. split; [done|]. split; [done|]. exists (<[id := (cl, Some Waiting, At sv Replied)]> ph). split; simpl.
  - intros i. pose proof (i_heap _ _ I i) as Hi. rewrite !lookup_insert. case_decide as Ei.
    + subst i. split; simpl; try done. apply lookup_insert_eq.
    + destruct (ph !! i) as [[[? x] w]|], (heap s !! i) as [q'|]; try done. destruct Hi. split; try done. by rewrite lookup_insert_ne.
  - apply (client_stay ph s id (Some (cl, Some Waiting, At sv Replied))); try done. by rewrite Hp.
  - apply (service_move ph s sv id (Some (cl, Some Waiting, At sv Replied)) (SBusy id Replied)); try done; [congruence|]. rewrite Hp. simpl. congruence.
  - apply (box_stay ph s id (Some _) I). by rewrite Hp.
  - apply (i_nodup _ _ I).
  - intros i Hi. destruct (next_stay ph s id _ (Some (cl, Some Waiting, At sv Replied)) I Hp i Hi) as [H1 H2]. split; [done|].
    rewrite lookup_insert_ne; [done|]. intros <-. by rewrite lookup_partial_alter_eq in H1.
  - intros cl' i v' Hd. apply (i_done _ _ I) in Hd. rewrite lookup_insert_ne; [done|]. congruence.
Qed.

Definition in_handler (y : service_at) : bool := match y with Serving | Sleeping => true | _ => false end.

Lemma handler_request ph s sv id y :
  inv ph s → service_busy sv s = Some (id, y) → in_handler y = true → ∃ q, heap s !! id = Some q ∧ is_Some (process q) ∧ replies s !! id = None.
Proof.
  intros I E Hy. destruct (inv_service _ _ _ _ _ I E) as (cl & x & Hp). destruct (inv_request _ _ _ _ _ _ I Hp) as (q & Hq & [Ha Hr Hs Hrep Hv]).
  exists q. by destruct y; try done; destruct Hrep.
Qed.

(** A handler falls asleep or wakes up. *)
Lemma handler_ok ph s sv id y y' :
  inv ph s → service_busy sv s = Some (id, y) → in_handler y = true → in_handler y' = true → ∃ ph', inv ph' (set_service sv (SBusy id y') s).
Proof.
  intros I E Hy Hy'. destruct (inv_service _ _ _ _ _ I E) as (cl & x & Hp). destruct (inv_request _ _ _ _ _ _ I Hp) as (q & Hq & [Ha Hr Hs Hrep Hv]).
  exists (<[id := (cl, x, At sv y')]> ph). split; simpl.
  - apply (heap_same ph _ _ id _ _ _ q (i_heap _ _ I) Hq). destruct y, y'; try done; by split.
  - apply (client_stay ph s id (Some (cl, x, At sv y'))); try done. by rewrite Hp.
  - apply (service_move ph s sv id (Some (cl, x, At sv y')) (SBusy id y')); try done; [congruence|]. rewrite Hp. simpl. congruence.
  - apply (box_stay ph s id (Some _) I). by rewrite Hp.
  - apply (i_nodup _ _ I).
  - apply (next_stay ph s id _ (Some _) I Hp).
  - apply (i_done _ _ I).
Qed.

Lemma post_ok ph s sv id :
  inv ph s → service_busy sv s = Some (id, Replied) →
  ∃ q, heap s !! id = Some q ∧ ∃ ph', inv ph' (set_service sv (SBusy id Posted) (put_request id (with_sem (sem_count q + 1) q) s)).
Proof.
  intros I E. destruct (inv_service _ _ _ _ _ I E) as (cl & x & Hp). destruct (inv_request _ _ _ _ _ _ I Hp) as (q & Hq & [Ha Hr Hs Hrep Hv]).
  assert (Hx : x = Some Waiting) by (by destruct x as [[]|]). subst x. simpl in Hs.
  exists q. split; [done|]. exists (<[id := (cl, Some Waiting, At sv Posted)]> ph). split; simpl.
  - apply heap_update; [exact (i_heap _ _ I)|]. split; simpl; try done. lia.
  - apply (client_stay ph s id (Some (cl, Some Waiting, At sv Posted))); try done. by rewrite Hp.
  - apply (service_move ph s sv id (Some (cl, Some Waiting, At sv Posted)) (SBusy id Posted)); try done; [congruence|]. rewrite Hp. simpl. congruence.
  - apply (box_stay ph s id (Some _) I). by rewrite Hp.
  - apply (i_nodup _ _ I).
  - apply (next_stay ph s id _ (Some _) I Hp).
  - apply (i_done _ _ I).
Qed.

Lemma free_ok ph s sv id :
  inv ph s → service_busy sv s = Some (id, Posted) → ∃ s' ph', drop_request id s = Ok s' ∧ inv ph' (set_service sv SIdle s').
Proof.
  intros I E. destruct (inv_service _ _ _ _ _ I E) as (cl & x & Hp). destruct (drop_request_ok ph s id _ _ _ I Hp) as (q & Hq & [Ha Hr Hs Hrep Hv] & ->).
  set (o := match x with None => None | Some z => Some (cl, Some z, Finished) end : option phase). eexists _, (partial_alter (λ _, o) id ph). split; [done|].
  split; simpl.
  - unfold o. destruct x as [z|]; simpl; [|apply heap_delete; exact (i_heap _ _ I)].
    apply (heap_update ph _ _ id cl (Some z) Finished); [exact (i_heap _ _ I)|]. by split; simpl; [destruct z|..].
  - apply (client_stay ph s id o); try done. rewrite Hp. unfold o. by destruct x.
  - apply (service_move ph s sv id o SIdle); try done; [congruence|rewrite Hp; simpl; congruence|]. unfold o. by destruct x.
  - apply (box_stay ph s id o I). rewrite Hp. unfold o. by destruct x.
  - apply (i_nodup _ _ I).
  - apply (next_stay ph s id _ o I Hp).
  - apply (i_done _ _ I).
Qed.

(** What a call is refused for before its request exists. *)
Definition bad_call (w : string) : Prop := w = "out of memory" ∨ w = "bad iovec count".

Lemma prepare_ok a m : wp (prepare a m) bad_call (λ o, match o with
  | inl code => code = -1 ∨ code = - ENOMEM
  | inr q => ref_count q = 2 ∧ sem_count q = 0 ∧ process q = Some (current a) end).
Proof.
  assert (H : ∀ v, wp v bad_call (λ _, True) → wp (connection_start a v) bad_call (λ o, match o with
    | inl code => code = -1 ∨ code = - ENOMEM | inr q => ref_count q = 2 ∧ sem_count q = 0 ∧ process q = Some (current a) end)).
  { intros v Hv. unfold connection_start. destruct (endpoint a); simpl; [|by left]. destruct (a_request a); simpl; [|by right].
    by destruct v as [[? ?]|w]. }
  destruct m; simpl; apply H; clear H.
  - assert (H1 : ∀ b p n, wp (one_iov b p n) bad_call (λ _, True)) by (intros [] p n; unfold one_iov; destruct (_ && _); simpl; try done; by left).
    apply wp_bind. eapply wp_mono; [apply H1|done|]. intros ? _. apply wp_bind. eapply wp_mono; [apply H1|done|]. done.
  - assert (H1 : ∀ b l n, wp (copy_iov b l n) bad_call (λ _, True)).
    { intros [] l n; unfold copy_iov; (destruct l; [|done]); (destruct (n =? 0); [done|]); simpl; [|by left].
      unfold k_assert. destruct (_ && _); simpl; [done|by right]. }
    apply wp_bind. eapply wp_mono; [apply H1|done|]. intros ? _. apply wp_bind. eapply wp_mono; [apply H1|done|]. done.
Qed.

Lemma start_ok ph s cl a m : inv ph s → wp (start cl a m s) bad_call steps_to.
Proof.
  intros I. unfold start. destruct (clients s !! cl) as [c|] eqn:Ec; [|done].
  assert (Hb : client_busy cl s = busy_client c) by (by rewrite client_busy_eq, Ec).
  destruct (busy_client c) as [[? ?]|] eqn:Hc; [by destruct c|].
  assert (H : wp (o ← prepare a m; Ok (Some (match o with inl code => set_client cl (CFailed code) s
    | inr q => set_client cl (CBusy (next s) ToSend) (MkSys (<[next s := q]> (heap s)) (next s + 1) (mbox s) (clients s) (services s) (replies s)) end)))
    bad_call steps_to); [|by destruct c].
  apply wp_bind. eapply wp_mono; [apply prepare_ok|done|]. intros [code|q].
  - intros _. exists ph. destruct I as [I1 I2 I3 I4 I5 I6 I7]. split; try done.
    + apply (linked_ext _ _ _ _ I2); [|done]. intros k. rewrite !client_busy_eq. simpl. destruct (decide (k = cl)) as [->|].
      * by rewrite lookup_insert_eq, <- client_busy_eq, Hb.
      * by rewrite lookup_insert_ne.
    + apply (done_stay ph s cl (CFailed code)); [by split|done].
  - intros (Hr & Hs & Hp). destruct (i_next _ _ I (next s)) as [Hn1 Hn2]; [lia|]. exists (<[next s := (cl, Some ToSend, NotSent)]> ph). split; simpl.
    + apply heap_update; [exact (i_heap _ _ I)|]. by split.
    + apply (client_move ph s cl (next s) (Some (cl, Some ToSend, NotSent)) (CBusy (next s) ToSend)); try done; [by rewrite Hb|by rewrite Hn1].
    + apply (service_stay ph s (next s) (Some (cl, Some ToSend, NotSent))); try done. by rewrite Hn1.
    + apply (box_stay ph s (next s) (Some _) I). by rewrite Hn1.
    + apply (i_nodup _ _ I).
    + intros i Hi. destruct (i_next _ _ I i) as [H1 H2]; [lia|]. rewrite lookup_insert_ne by lia. done.
    + by apply (done_stay ph).
Qed.

(** What stops a schedule. *)
Definition stops (timeout : Prop) (w : string) : Prop := bad_call w ∨ timeout ∧ (w = "fail send:" ∨ w = "fail recv:").

Lemma client_step_ok ph s cl timeout : inv ph s → wp (client_step cl timeout s) (stops (timeout = true)) steps_to.
Proof.
  intros I. unfold client_step. destruct (client_busy cl s) as [[id x]|] eqn:E; [|done].
  destruct (inv_client _ _ _ _ _ I E) as [w Hp]. destruct (inv_request _ _ _ _ _ _ I Hp) as (q & Hq & _). destruct x.
  - destruct timeout; [right; by auto|]. destruct (_ =? _); [done|]. by apply (send_ok ph).
  - destruct timeout; [right; by auto|]. unfold request_at. rewrite Hq. simpl. destruct (Z.eqb_spec (sem_count q) 0); [done|]. by apply (sem_get_ok ph).
  - unfold request_at. rewrite Hq. simpl. by apply (result_ok ph).
  - destruct (drop_ok ph s cl id r0 I E) as (s' & ph' & -> & I'). simpl. by exists ph'.
Qed.

Lemma service_step_ok ph s sv v : inv ph s → ∃ o, service_step sv v s = Ok o ∧ steps_to o.
Proof.
  intros I. unfold service_step. destruct (service_busy sv s) as [[id y]|] eqn:E; [|by exists None]. destruct y.
  - destruct (reply_ok ph s sv id v I E) as (q & Hq & _ & H). unfold request_at. rewrite Hq. simpl. eexists. by split.
  - by exists None.
  - destruct (post_ok ph s sv id I E) as (q & Hq & H). unfold request_at. rewrite Hq. simpl. eexists. by split.
  - destruct (free_ok ph s sv id I E) as (s' & ph' & -> & H). simpl. eexists. split; [done|]. by exists ph'.
Qed.

Definition timed_out (e : event) : Prop := ∃ cl, e = EClient cl true.

Lemma ipc_step_ok ph s e : inv ph s → wp (step e s) (stops (timed_out e)) steps_to.
Proof.
  intros I. destruct e; simpl.
  - eapply wp_mono; [by apply (start_ok ph)|by left|done].
  - eapply wp_mono; [by apply (client_step_ok ph)| |done]. intros w [?|[-> ?]]; [by left|right]. split; [by eexists|done].
  - destruct (endpoint_receive sv s) as [s'|] eqn:E; [by apply (receive_ok ph s sv)|done].
  - unfold service_work. destruct (service_busy sv s) as [[id []]|] eqn:E; try done.
    destruct (work_ok ph s sv id cs cr I E) as (q & Hq & [t Ht] & H). unfold request_at. rewrite Hq. simpl. rewrite Ht. done.
  - unfold service_sleep. destruct (service_busy sv s) as [[id []]|] eqn:E; try done. by apply (handler_ok ph s sv id Serving).
  - unfold service_wake. destruct (service_busy sv s) as [[id []]|] eqn:E; try done. by apply (handler_ok ph s sv id Sleeping).
  - destruct (service_step_ok ph s sv v I) as (o & -> & H). done.
Qed.

Lemma run_ok ph s es : inv ph s → wp (run es s) (stops (∃ cl, EClient cl true ∈ es)) (λ s', ∃ ph', inv ph' s').
Proof.
  revert ph s. induction es as [|e es IH]; intros ph s I; simpl; [by exists ph|]. apply wp_bind. eapply wp_mono; [by apply (ipc_step_ok ph)| |].
  - intros w [?|[[cl ->] ?]]; [by left|right]. split; [exists cl; apply elem_of_cons; by left|done].
  - intros o Ho. assert (H : ∃ ph', inv ph' (default s o)) by (destruct o; [done|by exists ph]). destruct H as [ph' I'].
    eapply wp_mono; [by apply (IH ph')| |done]. intros w [?|[[cl Hcl] ?]]; [by left|right]. split; [exists cl; apply elem_of_cons; by right|done].
Qed.

Lemma start_inv nc ns : inv ∅ (start_state nc ns).
Proof.
  assert (Hc : ∀ cl c, clients (start_state nc ns) !! cl = Some c → c = CIdle).
  { intros cl c E. apply elem_of_list_to_map_2, list_elem_of_fmap in E as (? & [= -> ->] & _). done. }
  assert (Hs : ∀ sv y, services (start_state nc ns) !! sv = Some y → y = SIdle).
  { intros sv y E. apply elem_of_list_to_map_2, list_elem_of_fmap in E as (? & [= -> ->] & _). done. }
  split.
  - intros id. simpl. by rewrite !lookup_empty.
  - intros cl id z. rewrite client_busy_eq, lookup_empty. split; [|done]. destruct (clients _ !! cl) as [c|] eqn:E; [|done]. by rewrite (Hc cl c E).
  - intros sv id y. rewrite service_busy_eq, lookup_empty. split; [|done]. destruct (services _ !! sv) as [z|] eqn:E; [|done]. by rewrite (Hs sv z E).
  - intros id. rewrite lookup_empty. simpl. split; [by intros ?%elem_of_nil|done].
  - constructor.
  - done.
  - intros cl id v E. apply Hc in E. done.
Qed.

(** Nobody works on a request and none is on its way. *)
Definition quiet s : Prop := mbox s = [] ∧ (∀ cl, client_busy cl s = None) ∧ ∀ sv, service_busy sv s = None.

Lemma quiet_heap ph s : inv ph s → quiet s → heap s = ∅.
Proof.
  intros I (Hm & Hc & Hs). apply map_empty. intros id. pose proof (i_heap _ _ I id) as H. destruct (heap s !! id) as [q|]; [|done]. exfalso.
  destruct (ph !! id) as [[[cl x] w]|] eqn:Hp; [|done]. destruct H as [Ha _ _ _ _]. destruct x as [z|].
  - pose proof (proj2 (i_client _ _ I cl id z)) as E. cbv beta in E. rewrite Hp, Hc in E. by specialize (E eq_refl).
  - destruct w as [| |sv y|]; try done. pose proof (proj2 (i_service _ _ I sv id y)) as E. cbv beta in E. rewrite Hp, Hs in E. by specialize (E eq_refl).
Qed.

(** C18: requests under every interleaving of clients and services on an
    endpoint ([connection_send], [connection_sendv], [endpoint_receive],
    [request_reply], [request_destroy]).  No task uses a request that has been
    freed, drops a reference that is not there, or reads and writes for a client
    that has gone; a request gets one result, and its client gets that one;
    when nobody works on a request any more, all of them have been freed.  A
    schedule stops only in a call that is refused, or when a client has waited
    for as long as it may. *)
Theorem ipc_safe nc ns es :
  wp (run es (start_state nc ns))
    (λ w : string, w = "out of memory" ∨ w = "bad iovec count" ∨ (∃ cl, EClient cl true ∈ es) ∧ (w = "fail send:" ∨ w = "fail recv:"))
    (λ s, (∀ cl id v, clients s !! cl = Some (CDone id v) → replies s !! id = Some v) ∧
      (∀ sv id y, service_busy sv s = Some (id, y) → y = Serving ∨ y = Sleeping → ∃ q, heap s !! id = Some q ∧ is_Some (process q) ∧ replies s !! id = None) ∧
      (quiet s → heap s = ∅)).
Proof.
  eapply wp_mono; [apply (run_ok ∅), start_inv| |].
  - intros w [[?|?]|?]; auto.
  - intros s [ph I]. split; [apply (i_done _ _ I)|]. split; [|by apply (quiet_heap ph)]. intros sv id y E Hy. apply (handler_request ph s sv id y I E). by destruct Hy as [->| ->].
Qed.

(** ** Progress *)

Definition client_todo (c : client) : nat :=
  match c with CBusy _ ToSend => 8 | CBusy _ Waiting => 3 | CBusy _ Got => 2 | CBusy _ (HasResult _) => 1 | _ => 0 end.
Definition service_todo (y : service) : nat :=
  match y with SBusy _ (Serving | Sleeping) => 3 | SBusy _ Replied => 2 | SBusy _ Posted => 1 | SIdle => 0 end.

Definition total {A} (f : A → nat) (m : gmap nat A) : nat := sum_list_with f (map_to_list m).*2.

(** The steps that are left for the requests there are. *)
Definition todo s : nat := total client_todo (clients s) + 4 * length (mbox s) + total service_todo (services s).

Lemma todo_insert {A} (f : A → nat) (m : gmap nat A) (k : nat) (x y : A) : m !! k = Some x → (total f (<[k := y]> m) + f x = total f m + f y)%nat.
Proof.
  intros E. unfold total. rewrite <- (insert_delete_id m k x E) at 2. rewrite <- (insert_delete_eq m k y).
  rewrite !map_to_list_insert by apply lookup_delete_eq. simpl. lia.
Qed.

(** The steps of a call and of a service, a time out apart. *)
Definition progress (e : event) : Prop := match e with EClient _ false | EReceive _ | EService _ _ => True | _ => False end.

Lemma drop_request_tasks id s s' :
  drop_request id s = Ok s' → clients s' = clients s ∧ services s' = services s ∧ mbox s' = mbox s.
Proof.
  unfold drop_request. destruct (request_at id s) as [q|]; [|done]. simpl. destruct (request_destroy q) as [[q'|]|]; [..|done]; by intros [= <-].
Qed.

Lemma client_busy_some cl s id (x : client_at) : client_busy cl s = Some (id, x) → clients s !! cl = Some (CBusy id x).
Proof. unfold client_busy. destruct (clients s !! cl) as [[]|]; try done. by intros [= -> ->]. Qed.
Lemma service_busy_some sv s id y : service_busy sv s = Some (id, y) → services s !! sv = Some (SBusy id y).
Proof. unfold service_busy. destruct (services s !! sv) as [[]|]; try done. by intros [= -> ->]. Qed.

Lemma todo_client s s' cl c c' :
  clients s !! cl = Some c → clients s' = <[cl := c']> (clients s) → services s' = services s →
  (client_todo c' + 4 * length (mbox s') < client_todo c + 4 * length (mbox s))%nat → (todo s' < todo s)%nat.
Proof. intros E Hc Hs Hlt. unfold todo. rewrite Hc, Hs. pose proof (todo_insert client_todo (clients s) cl c c' E). lia. Qed.

Lemma todo_service s s' sv y y' :
  services s !! sv = Some y → services s' = <[sv := y']> (services s) → clients s' = clients s →
  (service_todo y' + 4 * length (mbox s') < service_todo y + 4 * length (mbox s))%nat → (todo s' < todo s)%nat.
Proof. intros E Hs Hc Hlt. unfold todo. rewrite Hc, Hs. pose proof (todo_insert service_todo (services s) sv y y' E). lia. Qed.

Lemma client_step_todo s cl s' : client_step cl false s = Ok (Some s') → (todo s' < todo s)%nat.
Proof.
  unfold client_step. destruct (client_busy cl s) as [[id x]|] eqn:E; [|done]. apply client_busy_some in E. destruct x.
  - destruct (_ =? _); [done|]. intros [= <-]. eapply todo_client; [done..|]. simpl. rewrite length_app. simpl. lia.
  - destruct (request_at id s) as [q|]; [|done]. simpl. destruct (_ =? _); [done|]. intros [= <-]. eapply todo_client; [done..|]. simpl. lia.
  - destruct (request_at id s) as [q|]; [|done]. intros [= <-]. eapply todo_client; [done..|]. simpl. lia.
  - destruct (drop_request id s) as [s1|] eqn:Ed; [|done]. apply drop_request_tasks in Ed as (Ec & Es & Em). intros [= <-].
    eapply todo_client; [done|by rewrite <- Ec|done|]. simpl. rewrite Em. lia.
Qed.

Lemma service_step_todo s sv v s' : service_step sv v s = Ok (Some s') → (todo s' < todo s)%nat.
Proof.
  unfold service_step. destruct (service_busy sv s) as [[id y]|] eqn:E; [|done]. apply service_busy_some in E. destruct y.
  - destruct (request_at id s) as [q|]; [|done]. intros [= <-]. eapply todo_service; [done..|]. simpl. lia.
  - done.
  - destruct (request_at id s) as [q|]; [|done]. intros [= <-]. eapply todo_service; [done..|]. simpl. lia.
  - destruct (drop_request id s) as [s1|] eqn:Ed; [|done]. apply drop_request_tasks in Ed as (Ec & Es & Em). intros [= <-].
    eapply todo_service; [done|by rewrite <- Es|done|]. simpl. rewrite Em. lia.
Qed.

Lemma receive_todo s sv s' : endpoint_receive sv s = Some s' → (todo s' < todo s)%nat.
Proof.
  unfold endpoint_receive. destruct (services s !! sv) as [[|? ?]|] eqn:Es; try done. destruct (mbox s) as [|id l] eqn:Em; [done|]. intros [= <-].
  eapply todo_service; [done..|]. simpl. rewrite Em. simpl. lia.
Qed.

Definition can_step s : Prop := ∃ e s', progress e ∧ step e s = Ok (Some s').

Definition awake (y : service_at) : bool := match y with Sleeping => false | _ => true end.

(** A busy service can go on unless its handler sleeps. *)
Lemma service_can ph s sv id y : inv ph s → service_busy sv s = Some (id, y) → awake y = true → can_step s.
Proof.
  intros I E Hy. destruct (service_step_ok ph s sv 0 I) as (o & Ho & _). destruct o as [s'|]; [by exists (EService sv 0), s'|].
  unfold service_step in Ho. rewrite E in Ho. destruct y; [|done|..].
  - destruct (request_at id s); simplify_eq/=.
  - destruct (request_at id s); simplify_eq/=.
  - destruct (drop_request id s); simplify_eq/=.
Qed.

Definition asleep sv s : Prop := ∃ id, service_busy sv s = Some (id, Sleeping).
Definition all_asleep s : Prop := ∀ sv, is_Some (services s !! sv) → asleep sv s.

(** A message in the mailbox is received unless all service tasks are asleep. *)
Lemma box_rest ph s : inv ph s → mbox s ≠ [] → can_step s ∨ all_asleep s.
Proof.
  intros I Hm. destruct (decide (map_Forall (λ _ y, busy_service y ≫= (λ p, Some (awake p.2)) = Some false) (services s))) as [Hs|Hs].
  - right. intros sv [y Ey]. specialize (Hs sv y Ey). destruct y as [|id []]; try done. exists id. by rewrite service_busy_eq, Ey.
  - left. apply map_not_Forall in Hs as (sv & y & Ey & Hy); [|apply _]. destruct y as [|id y].
    + destruct (mbox s) as [|id l] eqn:Em; [done|]. eexists (EReceive sv), _. split; [done|]. simpl. unfold endpoint_receive. by rewrite Ey, Em.
    + apply (service_can ph s sv id y I); [by rewrite service_busy_eq, Ey|]. by destruct y.
Qed.

(** A call whose client cannot go on. *)
Lemma client_rest ph s cl id (z : client_at) :
  inv ph s → client_busy cl s = Some (id, z) → can_step s ∨ (∃ sv, service_busy sv s = Some (id, Sleeping)) ∨ all_asleep s.
Proof.
  intros I E. destruct (inv_client _ _ _ _ _ I E) as [w Hp]. destruct (inv_request _ _ _ _ _ _ I Hp) as (q & Hq & [Ha Hr Hs Hrep Hv]).
  assert (Hcl : ∀ s', client_step cl false s = Ok (Some s') → can_step s) by (intros s' ?; by exists (EClient cl false), s').
  unfold client_step in Hcl. rewrite E in Hcl. unfold request_at in Hcl. rewrite Hq in Hcl. destruct z; simpl in Hcl.
  - destruct (Z.eqb_spec (Z.of_nat (length (mbox s))) ENDPOINT_MBOX_CAPACITY) as [Ef|]; [|left; by eapply Hcl].
    destruct (box_rest ph s I); [intros Em; by rewrite Em in Ef|by left|by right; right].
  - simpl in Hs. destruct (Z.eqb_spec (sem_count q) 0) as [E0|]; [|left; by eapply Hcl]. destruct w as [| |sv' y|]; simpl in Hs; try lia; [done| |].
    + destruct (box_rest ph s I); [|by left|by right; right]. intros Em. pose proof (proj2 (i_box _ _ I id)) as Hb. rewrite Hp, Em in Hb. by apply elem_of_nil in Hb.
    + assert (Ey : service_busy sv' s = Some (id, y)) by (apply (i_service _ _ I); by rewrite Hp). destruct y; [|right; left; by exists sv'|..]; left; by apply (service_can ph s sv' id _ I Ey).
  - left. by eapply Hcl.
  - destruct (drop_ok ph s cl id r0 I E) as (s' & _ & Ed & _). rewrite Ed in Hcl. left. by eapply Hcl.
Qed.

(** A finite disjunction over the clients. *)
Lemma clients_rest ph s : inv ph s → can_step s ∨ ∀ cl id z, client_busy cl s = Some (id, z) → (∃ sv, service_busy sv s = Some (id, Sleeping)) ∨ all_asleep s.
Proof.
  intros I. assert (H : can_step s ∨ ∀ cl c, (cl, c) ∈ map_to_list (clients s) → ∀ id z, c = CBusy id z → (∃ sv, service_busy sv s = Some (id, Sleeping)) ∨ all_asleep s).
  { assert (Hin : ∀ cl c, (cl, c) ∈ map_to_list (clients s) → clients s !! cl = Some c) by (intros cl c; by apply elem_of_map_to_list).
    induction (map_to_list (clients s)) as [|[cl c] l IH]; [right; by intros cl c ?%elem_of_nil|]. destruct IH as [IH|IH]; [intros; apply Hin, elem_of_cons; by right|by left|].
    assert (Ec := Hin cl c ltac:(apply elem_of_cons; by left)). destruct (busy_client c) as [[id z]|] eqn:Eb.
    - destruct c; try done. injection Eb as -> ->. destruct (client_rest ph s cl id z I) as [?|H]; [by rewrite client_busy_eq, Ec|by left|right].
      intros cl' c' [[= -> ->]|Hl]%elem_of_cons id' z' E; [by injection E as <- <-|by eapply IH].
    - right. intros cl' c' [[= -> ->]|Hl]%elem_of_cons id' z' E; [by rewrite E in Eb|by eapply IH]. }
  destruct H as [H|H]; [by left|right]. intros cl id z E. apply (H cl (CBusy id z)) with z; [|done]. apply elem_of_map_to_list. by apply client_busy_some.
Qed.

(** Somebody works on a request, and nobody can go on: a handler sleeps. *)
Lemma quiet_or_asleep ph s sv : inv ph s → is_Some (services s !! sv) → can_step s ∨ quiet s ∨ ∃ sv, asleep sv s.
Proof.
  intros I Hsv. destruct (decide (mbox s = [])) as [Em|Em]; [|destruct (box_rest ph s I Em); [by left|right; right; exists sv; auto]].
  destruct (decide (map_Forall (λ _ c, busy_client c = None) (clients s))) as [Hc|Hc].
  - destruct (decide (map_Forall (λ _ y, busy_service y = None) (services s))) as [Hs|Hs].
    + right; left. split; [done|]. split; intros k.
      * rewrite client_busy_eq. destruct (clients s !! k) as [c|] eqn:E; [|done]. by apply (Hc k c).
      * rewrite service_busy_eq. destruct (services s !! k) as [y|] eqn:E; [|done]. by apply (Hs k y).
    + apply map_not_Forall in Hs as (k & y & Ey & Hy); [|apply _]. destruct y as [|id y]; [done|].
      assert (E : service_busy k s = Some (id, y)) by by rewrite service_busy_eq, Ey. destruct y; [|right; right; by exists k, id|..]; left; by apply (service_can ph s k id _ I E).
  - apply map_not_Forall in Hc as (k & c & Ec & Hc); [|apply _]. destruct c as [|id z| |]; try done.
    destruct (client_rest ph s k id z I) as [?|[[sv' H]|H]]; [by rewrite client_busy_eq, Ec|by left|right; right; by exists sv', id|right; right; exists sv; by apply H].
Qed.

(** Going to sleep and waking up are no progress. *)
Lemma sleep_todo s sv s' : service_sleep sv s = Some s' ∨ service_wake sv s = Some s' → todo s' = todo s.
Proof.
  unfold service_sleep, service_wake. destruct (service_busy sv s) as [[id y]|] eqn:E; [|by intros [|]]. apply service_busy_some in E.
  assert (H : ∀ y', service_todo (SBusy id y') = service_todo (SBusy id y) → todo (set_service sv (SBusy id y') s) = todo s).
  { intros y' Hy. unfold todo. simpl. pose proof (todo_insert service_todo (services s) sv _ (SBusy id y') E). lia. }
  destruct y; intros [Hs|Hs]; try done; injection Hs as <-; by apply H.
Qed.

Lemma step_services e s s' sv : step e s = Ok (Some s') → is_Some (services s !! sv) → is_Some (services s' !! sv).
Proof.
  assert (Hins : ∀ k y, is_Some (services s !! sv) → is_Some (<[k := y]> (services s) !! sv)) by (intros; rewrite lookup_insert; case_decide; [by eexists|done]).
  destruct e as [cl a m|cl b|k|k cs cr|k|k|k v]; simpl.
  - unfold start. intros E H. assert (services s' = services s); [|congruence].
    destruct (clients s !! cl) as [[]|]; try done; destruct (prepare a m) as [[]|]; simplify_eq/=; done.
  - unfold client_step. intros E H. assert (services s' = services s); [|congruence]. destruct (client_busy cl s) as [[id []]|]; [destruct b..|]; try done;
      repeat (case_match; simplify_eq/=; try done).
    all: try (destruct (request_at id s); simplify_eq/=; repeat case_match; by simplify_eq/=).
    all: destruct (drop_request id s) eqn:Ed; simplify_eq/=; by apply drop_request_tasks in Ed as (_ & ? & _).
  - unfold endpoint_receive. destruct (services s !! k) as [[|? ?]|], (mbox s); try done. intros [= <-]. simpl. auto.
  - unfold service_work. intros E H. assert (services s' = services s); [|congruence]. destruct (service_busy k s) as [[id []]|]; try done.
    destruct (request_at id s) as [q|]; [|done]. simpl in E. destruct (process q); simplify_eq/=; done.
  - unfold service_sleep. destruct (service_busy k s) as [[id []]|]; try done. intros [= <-]. simpl. auto.
  - unfold service_wake. destruct (service_busy k s) as [[id []]|]; try done. intros [= <-]. simpl. auto.
  - unfold service_step. destruct (service_busy k s) as [[id []]|]; [..|done].
    + destruct (request_at id s) as [q|]; [|done]. intros [= <-]. simpl. auto.
    + done.
    + destruct (request_at id s) as [q|]; [|done]. intros [= <-]. simpl. auto.
    + destruct (drop_request id s) as [s1|] eqn:Ed; [|done]. apply drop_request_tasks in Ed as (_ & Es & _). intros [= <-]. simpl. rewrite Es. auto.
Qed.

Lemma run_services es s s' sv : run es s = Ok s' → is_Some (services s !! sv) → is_Some (services s' !! sv).
Proof.
  revert s. induction es as [|e es IH]; intros s; simpl; [by intros [= ->]|]. destruct (step e s) as [[s1|]|] eqn:E; [| |done]; simpl; intros Hr Hs.
  - apply (IH s1 Hr). by apply (step_services e s).
  - by apply (IH s).
Qed.

(** C19: with a service task on the endpoint, only a handler that sleeps keeps
    the tasks from going on, and nothing goes on for ever.  In every state that
    a schedule leads to, either nobody works on a request any more and all of
    them have been freed; or a client or a service can take a step other than a
    time out; or a handler is asleep, and the call of each client has its
    request in such a handler, or waits for a service task while all of them
    are asleep.  Each step lowers the count of the steps that are left, which a
    handler that goes to sleep or wakes up does not change. *)
Theorem ipc_progress nc ns es s :
  (0 < ns)%nat → run es (start_state nc ns) = Ok s →
  (quiet s ∧ heap s = ∅ ∨ (∃ e s', progress e ∧ step e s = Ok (Some s')) ∨
    (∃ sv, asleep sv s) ∧ ∀ cl id z, client_busy cl s = Some (id, z) → (∃ sv, service_busy sv s = Some (id, Sleeping)) ∨ all_asleep s) ∧
  (∀ e s', progress e → step e s = Ok (Some s') → (todo s' < todo s)%nat) ∧
  (∀ sv s', step (ESleep sv) s = Ok (Some s') ∨ step (EWake sv) s = Ok (Some s') → todo s' = todo s).
Proof.
  intros Hns Hr. pose proof (run_ok ∅ _ es (start_inv nc ns)) as H. rewrite Hr in H. destruct H as [ph I]. split; [|split].
  - assert (Hsv : is_Some (services s !! 0%nat)) by (apply (run_services es _ s 0 Hr); destruct ns; [lia|]; simpl; rewrite lookup_insert_eq; by eexists).
    destruct (quiet_or_asleep ph s 0%nat I Hsv) as [Hc|[Hq|Ha]]; [by right; left|left; split; [done|by apply (quiet_heap ph)]|].
    destruct (clients_rest ph s I) as [Hc|Hc]; [by right; left|by right; right].
  - intros e s' Hp. destruct e as [| cl []|sv| | | |sv v]; try done; simpl; intros E.
    + by apply (client_step_todo s cl).
    + injection E as E. by apply (receive_todo s sv).
    + by apply (service_step_todo s sv v).
  - intros sv s' [E|E]; injection E as E; apply (sleep_todo s sv); auto.
Qed.

(** A client, one service, whose handler goes to sleep. *)
Definition some_events : list event := [EStart 0 (MkCall true 1 7 0 true true true) (Send 0x90000000 3 0x10000 4); EClient 0 false; EReceive 0; ESleep 0].
Definition some_state : sys := match run some_events (start_state 1 1) with Ok s => s | Panic _ => start_state 0 0 end.

Lemma ipc_progress_witness :
  run some_events (start_state 1 1) = Ok some_state ∧ service_busy 0 some_state = Some (1, Sleeping) ∧
  (∃ s', step (EWake 0) some_state = Ok (Some s') ∧ todo s' = todo some_state) ∧
  (∀ e s', progress e → step e some_state = Ok (Some s') → (todo s' < todo some_state)%nat).
Proof.
  assert (E : run some_events (start_state 1 1) = Ok some_state) by (vm_compute; reflexivity).
  destruct (ipc_progress 1 1 some_events some_state ltac:(lia) E) as (_ & H1 & H2).
  split; [exact E|]. split; [vm_compute; reflexivity|]. split; [|exact H1].
  destruct (step (EWake 0) some_state) as [[s'|]|] eqn:Ew; [|vm_compute in Ew; discriminate..]. exists s'. split; [reflexivity|]. apply (H2 0%nat s'). right. exact Ew.
Defined.

End Ipc.
