(* ===== verification/Fd.v ===== *)
(** File descriptors (kernel/process/fd.c) and the reference counts of the
    connections they name (connection_ref and connection_unref of
    kernel/ipc/connection.c). *)

From S2P Require Import Prelude StateM.
#[local] Open Scope Z_scope.

Module Fd.

Definition OPEN_MAX : Z := 32.
Definition FD_CLOEXEC : Z := 1.

(** Connections and processes are named by their addresses. *)
Definition conn := nat.
Definition proc := nat.

(** struct ConnectionDesc. *)
Record ConnectionDesc := MkDesc { connection : option conn; flags : Z }.
#[export] Instance ConnectionDesc_eq_dec : EqDecision ConnectionDesc.
Proof. solve_decision. Defined.

(** The connections that are allocated, with their counts; the descriptor
    tables of the processes; the connections for which IPC_MSG_CLOSE was sent,
    newest first. *)
Record fds := MkFds {
  refs : gmap conn Z;
  tables : gmap proc (list ConnectionDesc);
  closed : list conn }.

Implicit Types (c : conn) (p q : proc) (n i : Z) (w : fds) (d : ConnectionDesc) (t : list ConnectionDesc).

Definition set_refs (r : gmap conn Z) w : fds := MkFds r (tables w) (closed w).
Definition set_table p t w : fds := MkFds (refs w) (<[p := t]> (tables w)) (closed w).

Definition connection_ref c : sm fds unit :=
  k ← gets (λ w, refs w !! c);
  k ← need k "use of a freed connection";
  modify (λ w, set_refs (<[c := k + 1]> (refs w)) w).

(** The last reference tells the endpoint and frees the connection.  The lock is
    released around the message and the count read again afterwards.  Between
    the two the count cannot change: it is 1, the reference is the caller's, and
    new references are made from a reference or a descriptor one has, so that
    nobody else can make one. *)
Definition connection_unref c : sm fds unit :=
  k ← gets (λ w, refs w !! c);
  k ← need k "use of a freed connection";
  if k <? 1 then stop "bad ref_count" else
  when (k =? 1) (modify (λ w, MkFds (refs w) (tables w) (c :: closed w)));;
  k ← gets (λ w, refs w !! c);
  k ← need k "use of a freed connection";
  modify (λ w, set_refs (<[c := k - 1]> (refs w)) w);;
  if 0 <? k - 1 then mret tt else modify (λ w, set_refs (delete c (refs w)) w).

Definition table_of p : sm fds (list ConnectionDesc) :=
  t ← gets (λ w, tables w !! p); need t "no such process".

(** [&process->connections[i]], read and written. *)
Definition desc p (i : Z) : sm fds ConnectionDesc :=
  t ← table_of p; need (t !! Z.to_nat i) "access outside the array".
Definition put_desc p (i : Z) d : sm fds unit :=
  t ← table_of p; modify (set_table p (<[Z.to_nat i := d]> t)).

Definition empty_desc : ConnectionDesc := MkDesc None 0.

Definition fd_init p : sm fds unit := modify (set_table p (replicate (Z.to_nat OPEN_MAX) empty_desc)).

Definition _fd_close p i : sm fds unit :=
  d ← desc p i;
  c ← need (connection d) "Assertion failed: fd->connection != NULL";
  connection_unref c;;
  put_desc p i empty_desc.

(** [for (i = start; i < OPEN_MAX; i++)]: the indices of the array. *)
Definition indices (start : Z) : list Z := seqZ start (OPEN_MAX - start).

Fixpoint each (body : Z → sm fds unit) (l : list Z) : sm fds unit :=
  match l with [] => mret tt | i :: l => body i;; each body l end.

Definition fd_close_all p : sm fds unit :=
  each (λ i, d ← desc p i; when (negb (bool_decide (connection d = None))) (_fd_close p i)) (indices 0).

Definition fd_close_on_exec p : sm fds unit :=
  each (λ i, d ← desc p i; when (negb (Z.land (flags d) FD_CLOEXEC =? 0)) (_fd_close p i)) (indices 0).

Definition fd_clone p q : sm fds unit :=
  each (λ i, d ← desc p i;
    match connection d with
    | Some c => connection_ref c;; put_desc q i (MkDesc (Some c) (flags d))
    | None => mret tt
    end) (indices 0).

Fixpoint alloc_loop p c (l : list Z) : sm fds Z :=
  match l with
  | [] => mret (- EMFILE)
  | i :: l =>
      d ← desc p i;
      match connection d with
      | None => connection_ref c;; put_desc p i (MkDesc (Some c) 0);; mret i
      | Some _ => alloc_loop p c l
      end
  end.
Definition fd_alloc p c (start : Z) : sm fds Z :=
  if (start <? 0) || (OPEN_MAX <=? start) then mret (- EINVAL) else alloc_loop p c (indices start).

Definition _fd_lookup p n : sm fds (option ConnectionDesc) :=
  if (n <? 0) || (OPEN_MAX <=? n) then mret None else d ← desc p n; mret (Some d).

Definition fd_lookup p n : sm fds (option conn) :=
  o ← _fd_lookup p n;
  match o ≫= connection with
  | None => mret None
  | Some c => connection_ref c;; mret (Some c)
  end.

Definition fd_close p n : sm fds Z :=
  o ← _fd_lookup p n;
  match o ≫= connection with
  | None => mret (- EBADF)
  | Some c => put_desc p n empty_desc;; connection_unref c;; mret 0
  end.

Definition fd_get_flags p n : sm fds Z :=
  o ← _fd_lookup p n;
  match o with
  | Some (MkDesc (Some _) f) => mret f
  | _ => mret (- EBADF)
  end.

Definition fd_set_flags p n (f : Z) : sm fds Z :=
  if negb (Z.land f (Z.lnot FD_CLOEXEC) =? 0) then mret (- EINVAL) else
  o ← _fd_lookup p n;
  match o with
  | Some (MkDesc (Some c) _) => put_desc p n (MkDesc (Some c) f);; mret 0
  | _ => mret (- EBADF)
  end.

(** ** Counting references *)

Definition one c d : Z := if decide (connection d = Some c) then 1 else 0.
Definition cnt c t : Z := foldr (λ d acc, one c d + acc) 0 t.
Definition uses (T : gmap proc (list ConnectionDesc)) c : Z := map_fold (λ _ t acc, cnt c t + acc) 0 T.

Lemma one_range c d : 0 ≤ one c d ≤ 1.
Proof. unfold one. case_decide; lia. Qed.

Lemma cnt_nonneg c t : 0 ≤ cnt c t.
Proof. induction t as [|d t IH]; simpl; [lia|]. pose proof (one_range c d). lia. Qed.

Lemma cnt_insert c t (i : nat) d d' : t !! i = Some d → cnt c (<[i := d']> t) = cnt c t - one c d + one c d'.
Proof. revert i. induction t as [|e t IH]; intros [|i] H; simplify_eq/=; [lia|]. rewrite IH by done. lia. Qed.

Lemma cnt_lookup c t (i : nat) d : t !! i = Some d → connection d = Some c → 1 ≤ cnt c t.
Proof.
  intros H Hc. pose proof (cnt_insert c t i d empty_desc H) as E. pose proof (cnt_nonneg c (<[i := empty_desc]> t)).
  unfold one in E. rewrite decide_True in E by done. simpl in E. lia.
Qed.

Lemma cnt_empty c k : cnt c (replicate k empty_desc) = 0.
Proof. induction k as [|k IH]; simpl; [done|]. rewrite IH. done. Qed.

Lemma uses_nonneg T c : 0 ≤ uses T c.
Proof.
  unfold uses. induction T as [|p t T Hp Hfold IH] using map_first_key_ind; [by rewrite map_fold_empty|].
  rewrite map_fold_insert_first_key by done. pose proof (cnt_nonneg c t). lia.
Qed.

Lemma uses_add T p t c : T !! p = None → uses (<[p := t]> T) c = cnt c t + uses T c.
Proof. intros H. unfold uses. rewrite map_fold_insert_L; [done|intros; lia|done]. Qed.

Lemma uses_split T p t c : T !! p = Some t → uses T c = cnt c t + uses (delete p T) c.
Proof. intros H. rewrite <- (uses_add (delete p T) p t c) by apply lookup_delete_eq. by rewrite insert_delete_id. Qed.

Lemma uses_insert T p t t' c : T !! p = Some t → uses (<[p := t']> T) c = uses T c - cnt c t + cnt c t'.
Proof.
  intros H. rewrite (uses_split T p t c H). rewrite <- insert_delete_eq, uses_add by apply lookup_delete_eq. lia.
Qed.

(** ** The invariant

    [ext c] is the number of references to [c] held outside the tables: by a
    system call that looked a descriptor up, or by the code that made the
    connection. *)

Record counted (ext : conn → Z) w : Prop := {
  ct_sum c : default 0 (refs w !! c) = uses (tables w) c + ext c;
  ct_pos c k : refs w !! c = Some k → 1 ≤ k }.

Definition table_ok t : Prop :=
  length t = Z.to_nat OPEN_MAX ∧ Forall (λ d, (flags d = 0 ∨ flags d = FD_CLOEXEC) ∧ (connection d = None → flags d = 0)) t.

Record wf (ext : conn → Z) w : Prop := {
  wf_counted : counted ext w;
  wf_ext c : 0 ≤ ext c;
  wf_tables p t : tables w !! p = Some t → table_ok t }.

Definition plus (ext : conn → Z) c (k : Z) : conn → Z := λ c', ext c' + if decide (c' = c) then k else 0.

Lemma counted_ext ext ext' w : (∀ c, ext c = ext' c) → counted ext w → counted ext' w.
Proof. intros H [S P]. split; [|done]. intros c. rewrite S, H. done. Qed.

(** A descriptor in use names an allocated connection. *)
Lemma used_allocated ext w p t (i : nat) d c :
  counted ext w → 0 ≤ ext c → tables w !! p = Some t → t !! i = Some d → connection d = Some c → ∃ k, refs w !! c = Some k ∧ 1 ≤ k.
Proof.
  intros [S P] He Ht Hi Hc. pose proof (S c) as Hs. rewrite (uses_split _ p t c Ht) in Hs.
  pose proof (cnt_lookup c t i d Hi Hc). pose proof (uses_nonneg (delete p (tables w)) c).
  destruct (refs w !! c) as [k|] eqn:E; simpl in Hs; [|lia]. exists k. split; [done|lia].
Qed.

Definition same_tables (T : gmap proc (list ConnectionDesc)) (ext : conn → Z) (_ : unit) w' : Prop :=
  counted ext w' ∧ tables w' = T.

Lemma ref_ok ext w c k :
  counted ext w → refs w !! c = Some k →
  swp (connection_ref c) w no_panic (same_tables (tables w) (plus ext c 1)).
Proof.
  intros [S P] Hk. unfold connection_ref. apply swp_bind, swp_gets, swp_bind, swp_need; [congruence|].
  intros k' Hk'. rewrite Hk in Hk'. injection Hk' as <-. apply swp_modify. split; [|done]. split.
  - intros c'. simpl. unfold plus. rewrite lookup_insert. pose proof (S c') as Hs. case_decide as E.
    + subst c'. rewrite decide_True by done. rewrite Hk in Hs. simpl in *. lia.
    + rewrite decide_False by congruence. lia.
  - intros c' j. simpl. rewrite lookup_insert. case_decide; [|by apply P]. intros [= <-]. specialize (P c k Hk). lia.
Qed.

Lemma unref_ok ext w c k :
  counted ext w → refs w !! c = Some k →
  swp (connection_unref c) w no_panic (same_tables (tables w) (plus ext c (-1))).
Proof.
  intros [S P] Hk. unfold connection_unref. apply swp_bind, swp_gets, swp_bind, swp_need; [congruence|].
  intros k' Hk'. rewrite Hk in Hk'. injection Hk' as <-. pose proof (P c k Hk) as Hpos.
  rewrite (proj2 (Z.ltb_ge k 1)) by lia.
  assert (Hrest : ∀ w0, refs w0 = refs w → tables w0 = tables w → swp (k ← gets (λ w, refs w !! c); k ← need k "use of a freed connection";
    modify (λ w, set_refs (<[c := k - 1]> (refs w)) w);; if 0 <? k - 1 then mret tt else modify (λ w, set_refs (delete c (refs w)) w)) w0 no_panic (same_tables (tables w) (plus ext c (-1)))).
  2:{ apply swp_bind, swp_when; [intros _; apply swp_modify|intros _]; by apply Hrest. }
  intros w0 Hr Ht. apply swp_bind, swp_gets, swp_bind, swp_need; [congruence|]. intros k' Hk'. rewrite Hr, Hk in Hk'. injection Hk' as <-. apply swp_bind, swp_modify.
  destruct (Z.ltb_spec 0 (k - 1)) as [Hlt|Hge]; [apply swp_ret|apply swp_modify]; (split; [|done]); split; simpl; rewrite ?delete_insert_eq, ?Hr, ?Ht.
  - intros c'. simpl. unfold plus. rewrite lookup_insert. pose proof (S c') as Hs. case_decide as E.
    + subst c'. rewrite decide_True by done. rewrite Hk in Hs. simpl in *. lia.
    + rewrite decide_False by congruence. lia.
  - intros c' j. simpl. rewrite lookup_insert. case_decide; [|by apply P]. intros [= <-]. lia.
  - intros c'. simpl. unfold plus. rewrite lookup_delete. pose proof (S c') as Hs. case_decide as E.
    + subst c'. rewrite decide_True by done. rewrite Hk in Hs. simpl in *. lia.
    + rewrite decide_False by congruence. lia.
  - intros c' j. simpl. rewrite lookup_delete. case_decide; [done|]. by apply P.
Qed.

Lemma fd_desc_ok w p t i d (E : string → Prop) (Q : ConnectionDesc → fds → Prop) :
  tables w !! p = Some t → t !! Z.to_nat i = Some d → Q d w → swp (desc p i) w E Q.
Proof.
  intros Ht Hi HQ. unfold desc, table_of. apply swp_bind, swp_bind, swp_gets, swp_need; [congruence|].
  intros t' Ht'. rewrite Ht in Ht'. injection Ht' as <-. apply swp_need; [congruence|]. intros d' Hd'. by simplify_eq.
Qed.

Lemma put_desc_ok ext w p t i d d' (E : string → Prop) :
  counted ext w → tables w !! p = Some t → t !! Z.to_nat i = Some d →
  swp (put_desc p i d') w E (λ _ w',
    counted (λ c, ext c + one c d - one c d') w' ∧ tables w' = <[p := <[Z.to_nat i := d']> t]> (tables w)).
Proof.
  intros [S P] Ht Hi. unfold put_desc, table_of. apply swp_bind, swp_bind, swp_gets, swp_need; [congruence|].
  intros t' Ht'. rewrite Ht in Ht'. injection Ht' as <-. apply swp_modify. split; [|done]. split; [|done].
  intros c. simpl. rewrite S, (uses_insert _ p t) by done. rewrite (cnt_insert c t _ d) by done. lia.
Qed.

(** ** Loops over the table *)

Lemma each_ok E body (I : Z → fds → Prop) a w :
  a ≤ OPEN_MAX → I a w → (∀ i w, a ≤ i < OPEN_MAX → I i w → swp (body i) w E (λ _, I (i + 1))) →
  swp (each body (indices a)) w E (λ _, I OPEN_MAX).
Proof.
  unfold indices. intros Ha. remember (Z.to_nat (OPEN_MAX - a)) as k eqn:Hk. revert a w Ha Hk.
  induction k as [|k IH]; intros a w Ha Hk HI Hb.
  - replace (OPEN_MAX - a) with 0 by lia. simpl. apply swp_ret. by replace OPEN_MAX with a by lia.
  - rewrite seqZ_cons by lia. simpl. apply swp_bind. eapply swp_mono; [apply Hb; [lia|done]|]. intros ? w' HI'.
    replace (Z.pred (OPEN_MAX - a)) with (OPEN_MAX - (a + 1)) by lia. replace (Z.succ a) with (a + 1) by lia.
    apply IH; [lia|lia|done|]. intros i v Hi. apply Hb. lia.
Qed.

Lemma table_ok_insert t (i : nat) d :
  table_ok t → (flags d = 0 ∨ flags d = FD_CLOEXEC) → (connection d = None → flags d = 0) → table_ok (<[i := d]> t).
Proof. intros [Hl Hf] H1 H2. split; [by rewrite length_insert|]. by apply Forall_insert. Qed.

Lemma wf_insert ext ext' w w' p t t' :
  wf ext w → counted ext' w' → (∀ c, ext' c = ext c) → tables w !! p = Some t → tables w' = <[p := t']> (tables w) → table_ok t' → wf ext w'.
Proof.
  intros [_ Hp Ht] Hc He _ HT Hok. split; [by apply (counted_ext ext')|done|]. intros q u. rewrite HT, lookup_insert.
  case_decide; [by intros [= <-]|]. apply Ht.
Qed.

Lemma _fd_close_ok ext w p t i d c :
  wf ext w → tables w !! p = Some t → t !! Z.to_nat i = Some d → connection d = Some c →
  swp (_fd_close p i) w no_panic (λ _ w', wf ext w' ∧ tables w' = <[p := <[Z.to_nat i := empty_desc]> t]> (tables w)).
Proof.
  intros Hw Ht Hi Hc. destruct (used_allocated ext w p t _ d c (wf_counted _ _ Hw) (wf_ext _ _ Hw c) Ht Hi Hc) as (k & Hk & _).
  unfold _fd_close. apply swp_bind. eapply fd_desc_ok; [done..|]. apply swp_bind, swp_need; [congruence|]. intros c' Hc'. rewrite Hc in Hc'. injection Hc' as <-.
  apply swp_bind. eapply swp_mono; [by apply (unref_ok ext w c k), Hk; apply Hw|]. intros ? w1 [H1 HT1].
  eapply swp_mono; [apply (put_desc_ok (plus ext c (-1)) w1 p t i d); [done|by rewrite HT1|done]|]. intros ? w2 [H2 HT2]. rewrite HT1 in HT2. split; [|done].
  eapply (wf_insert ext _ w w2 p t _ Hw H2); [|done..|].
  - intros c'. unfold plus, one. rewrite Hc. simpl. repeat case_decide; simplify_eq; lia.
  - apply table_ok_insert; [by apply (wf_tables _ _ Hw p)|by left|done].
Qed.

(** The table after a loop that closes the descriptors [sel] chooses. *)
Definition sweep (sel : ConnectionDesc → bool) t : list ConnectionDesc := (λ d, if sel d then empty_desc else d) <$> t.

Definition swept (sel : ConnectionDesc → bool) t i t' : Prop :=
  ∀ k : nat, t' !! k = if decide (Z.of_nat k < i) then sweep sel t !! k else t !! k.

Lemma swept_all sel t t' : length t = Z.to_nat OPEN_MAX → swept sel t OPEN_MAX t' → t' = sweep sel t.
Proof.
  intros Hl H. apply list_eq. intros k. rewrite H. case_decide; [done|]. unfold sweep. rewrite list_lookup_fmap.
  rewrite (lookup_ge_None_2 t) by lia. done.
Qed.

Lemma sweep_ok ext w p t sel :
  wf ext w → tables w !! p = Some t → (∀ d, d ∈ t → sel d = true → connection d ≠ None) →
  swp (each (λ i, d ← desc p i; when (sel d) (_fd_close p i)) (indices 0)) w no_panic (λ _ w',
    wf ext w' ∧ tables w' = <[p := sweep sel t]> (tables w)).
Proof.
  intros Hw Ht Hsel. pose proof (wf_tables _ _ Hw p t Ht) as [Hl _].
  eapply swp_mono; [apply (each_ok _ _ (λ i w', wf ext w' ∧ ∃ t', tables w' = <[p := t']> (tables w) ∧ swept sel t i t')); [done| |]|].
  - split; [done|]. exists t. rewrite insert_id by done. split; [done|]. intros k. by rewrite decide_False by lia.
  - intros i w1 Hi [Hw1 (t1 & HT1 & Hs1)]. assert (Hp1 : tables w1 !! p = Some t1) by (rewrite HT1; apply lookup_insert_eq).
    destruct (lookup_lt_is_Some_2 t (Z.to_nat i)) as [d Hd]; [unfold OPEN_MAX in *; lia|].
    assert (Hd1 : t1 !! Z.to_nat i = Some d) by (rewrite Hs1, decide_False by lia; done).
    assert (Hgo : ∀ t2, (∀ k, t2 !! k = if decide (k = Z.to_nat i) then sweep sel t !! k else t1 !! k) → swept sel t (i + 1) t2).
    { intros t2 H2 k. rewrite H2, Hs1. repeat case_decide; try done; lia. }
    apply swp_bind. eapply fd_desc_ok; [done..|]. apply swp_when; intros Es.
    + destruct (connection d) as [c|] eqn:Ec; [|by destruct (Hsel d (list_elem_of_lookup_2 _ _ _ Hd) Es)].
      eapply swp_mono; [by apply (_fd_close_ok ext w1 p t1 i d c)|]. intros ? w2 [Hw2 HT2]. split; [done|].
      exists (<[Z.to_nat i := empty_desc]> t1). split; [by rewrite HT2, HT1, insert_insert_eq|]. apply Hgo. intros k.
      case_decide as Ek; [|by rewrite list_lookup_insert_ne by congruence]. subst k.
      rewrite list_lookup_insert_eq by (by apply lookup_lt_Some in Hd1). unfold sweep. rewrite list_lookup_fmap, Hd. simpl. by rewrite Es.
    + split; [done|]. exists t1. split; [done|]. apply Hgo. intros k. case_decide as Ek; [|done]. subst k.
      unfold sweep. rewrite list_lookup_fmap, Hd, Hd1. simpl. by rewrite Es.
  - intros ? w' [Hw' (t' & HT' & Hs')]. split; [done|]. by rewrite HT', (swept_all sel t t').
Qed.

(** Taking a reference and storing it in a free descriptor. *)
Lemma store_ref_ok ext w p t i c k (f : Z) :
  wf ext w → tables w !! p = Some t → t !! Z.to_nat i = Some empty_desc → refs w !! c = Some k → (f = 0 ∨ f = FD_CLOEXEC) →
  swp (connection_ref c;; put_desc p i (MkDesc (Some c) f)) w no_panic (λ _ w',
    wf ext w' ∧ tables w' = <[p := <[Z.to_nat i := MkDesc (Some c) f]> t]> (tables w)).
Proof.
  intros Hw Ht Hi Hk Hf. apply swp_bind. eapply swp_mono; [by apply (ref_ok ext w c k), Hk; apply Hw|]. intros ? w1 [H1 HT1].
  eapply swp_mono; [apply (put_desc_ok (plus ext c 1) w1 p t i empty_desc); [done|by rewrite HT1|done]|]. intros ? w2 [H2 HT2].
  rewrite HT1 in HT2. split; [|done]. eapply (wf_insert ext _ w w2 p t _ Hw H2); [|done..|].
  - intros c'. unfold plus, one. simpl. repeat case_decide; simplify_eq; lia.
  - apply table_ok_insert; [by apply (wf_tables _ _ Hw p)|done|done].
Qed.

Lemma free_is_empty t (i : nat) d : table_ok t → t !! i = Some d → connection d = None → d = empty_desc.
Proof.
  intros [_ Hf] Hi Hc. rewrite Forall_lookup in Hf. destruct (Hf i d Hi) as [_ H0]. destruct d as [o f]. simpl in *. subst o. by rewrite H0.
Qed.

Definition all_free t : Prop := t = replicate (Z.to_nat OPEN_MAX) empty_desc.

Lemma clone_ok ext w p q t u :
  wf ext w → p ≠ q → tables w !! p = Some t → tables w !! q = Some u → all_free u →
  swp (fd_clone p q) w no_panic (λ _ w', wf ext w' ∧ tables w' = <[q := t]> (tables w)).
Proof.
  intros Hw Hpq Ht Hu Hfree. pose proof (wf_tables _ _ Hw p t Ht) as [Hl Hok]. unfold fd_clone.
  eapply swp_mono; [apply (each_ok _ _ (λ i w', wf ext w' ∧ ∃ t', tables w' = <[q := t']> (tables w) ∧
    ∀ k : nat, t' !! k = if decide (Z.of_nat k < i) then t !! k else u !! k)); [done| |]|].
  - split; [done|]. exists u. rewrite insert_id by done. split; [done|]. intros k. by rewrite decide_False by lia.
  - intros i w1 Hi [Hw1 (t1 & HT1 & Hs1)]. assert (Hq1 : tables w1 !! q = Some t1) by (rewrite HT1; apply lookup_insert_eq).
    assert (Hp1 : tables w1 !! p = Some t) by (rewrite HT1, lookup_insert_ne by congruence; done).
    destruct (lookup_lt_is_Some_2 t (Z.to_nat i)) as [d Hd]; [unfold OPEN_MAX in *; lia|].
    assert (Hd1 : t1 !! Z.to_nat i = Some empty_desc).
    { rewrite Hs1, decide_False by lia. rewrite Hfree. apply lookup_replicate_2. unfold OPEN_MAX in *. lia. }
    assert (Hgo : ∀ t2, (∀ k, t2 !! k = if decide (k = Z.to_nat i) then Some d else t1 !! k) →
      ∀ k : nat, t2 !! k = if decide (Z.of_nat k < i + 1) then t !! k else u !! k).
    { intros t2 H2 k. rewrite H2, Hs1. repeat case_decide; subst; try done; lia. }
    apply swp_bind. eapply fd_desc_ok; [exact Hp1|done|]. destruct d as [[c|] f]; simpl.
    + destruct (used_allocated ext w1 p t _ _ c (wf_counted _ _ Hw1) (wf_ext _ _ Hw1 c) Hp1 Hd eq_refl) as (k & Hk & _).
      rewrite Forall_lookup in Hok. destruct (Hok _ _ Hd) as [Hf _].
      eapply swp_mono; [by apply (store_ref_ok ext w1 q t1 i c k f)|]. intros ? w2 [Hw2 HT2]. split; [done|].
      eexists. split; [by rewrite HT2, HT1, insert_insert_eq|]. apply Hgo. intros k'. case_decide as Ek; [|by rewrite list_lookup_insert_ne by congruence].
      subst k'. apply list_lookup_insert_eq. by apply lookup_lt_Some in Hd1.
    + apply swp_ret. split; [done|]. exists t1. split; [done|]. apply Hgo. intros k. case_decide as Ek; [|done]. subst k. rewrite Hd1.
      by rewrite (free_is_empty t _ _ (wf_tables _ _ Hw p t Ht) Hd eq_refl).
  - intros ? w' [Hw' (t' & HT' & Hs')]. split; [done|]. rewrite HT'. f_equal. apply list_eq. intros k. rewrite Hs'.
    case_decide; [done|]. rewrite Hfree. rewrite (lookup_ge_None_2 t), lookup_ge_None_2; [done|rewrite length_replicate; lia|lia].
Qed.

(** The result of a search for a free descriptor from [start] on. *)
Definition lowest_free t (start r : Z) : Prop :=
  (start ≤ r < OPEN_MAX ∧ t !! Z.to_nat r = Some empty_desc ∧
     ∀ i, start ≤ i < r → ∃ d, t !! Z.to_nat i = Some d ∧ connection d ≠ None) ∨
  (r = - EMFILE ∧ ∀ i, start ≤ i < OPEN_MAX → ∃ d, t !! Z.to_nat i = Some d ∧ connection d ≠ None).

Lemma alloc_ok ext w p t c k start :
  wf ext w → tables w !! p = Some t → refs w !! c = Some k → 0 ≤ start ≤ OPEN_MAX →
  swp (alloc_loop p c (indices start)) w no_panic (λ r w', wf ext w' ∧ lowest_free t start r ∧
    tables w' = if 0 <=? r then <[p := <[Z.to_nat r := MkDesc (Some c) 0]> t]> (tables w) else tables w).
Proof.
  intros Hw Ht Hk. pose proof (wf_tables _ _ Hw p t Ht) as Htok. destruct Htok as [Hl _].
  unfold indices. remember (Z.to_nat (OPEN_MAX - start)) as n eqn:Hn. revert start Hn. induction n as [|n IH]; intros start Hn Hs.
  - replace (OPEN_MAX - start) with 0 by lia. apply swp_ret. split; [done|]. split; [right; split; [done|lia]|done].
  - rewrite seqZ_cons by lia. simpl. destruct (lookup_lt_is_Some_2 t (Z.to_nat start)) as [d Hd]; [unfold OPEN_MAX in *; lia|].
    apply swp_bind. eapply fd_desc_ok; [done..|]. destruct (connection d) as [c'|] eqn:Ec.
    + replace (Z.pred (OPEN_MAX - start)) with (OPEN_MAX - (start + 1)) by lia. replace (Z.succ start) with (start + 1) by lia.
      eapply swp_mono; [apply IH; lia|]. intros r w' (Hw' & Hr & HT'). split; [done|]. split; [|done].
      assert (Hused : ∃ d, t !! Z.to_nat start = Some d ∧ connection d ≠ None) by (exists d; by rewrite Ec).
      destruct Hr as [(Hr & Hfr & Hb)|[-> Hb]]; [left|right]; (split; [done || lia|]); [split; [done|]|]; intros i Hi;
        (destruct (decide (i = start)) as [->|]; [done|apply Hb; lia]).
    + pose proof (free_is_empty t _ d (wf_tables _ _ Hw p t Ht) Hd Ec) as ->.
      apply swp_bind. eapply swp_mono; [by apply (ref_ok ext w c k), Hk; apply Hw|]. intros ? w1 [H1 HT1]. apply swp_bind.
      eapply swp_mono; [apply (put_desc_ok (plus ext c 1) w1 p t start empty_desc); [done|by rewrite HT1|done]|]. intros ? w2 [H2 HT2].
      rewrite HT1 in HT2. apply swp_ret. rewrite (proj2 (Z.leb_le 0 start)) by lia. split; [|split; [left; split; [lia|split; [done|lia]]|done]].
      eapply (wf_insert ext _ w w2 p t _ Hw H2); [|done..|].
      * intros c'. unfold plus, one. simpl. repeat case_decide; simplify_eq; lia.
      * apply table_ok_insert; [by apply (wf_tables _ _ Hw p)|by left|done].
Qed.

(** ** The operations together *)

Inductive fdop :=
| OInit p
| OClone p q
| OAlloc p c (start : Z)
| OLookup p n
| ORelease c                    (* the caller of fd_lookup drops its reference *)
| OClose p n
| OCloseAll p
| OCloseOnExec p
| OGetFlags p n
| OSetFlags p n (f : Z).

Definition exec (o : fdop) : sm fds (Z * option conn) :=
  let ret (m : sm fds unit) : sm fds (Z * option conn) := m;; mret (0, None) in
  let num (m : sm fds Z) : sm fds (Z * option conn) := r ← m; mret (r, None) in
  match o with
  | OInit p => ret (fd_init p)
  | OClone p q => ret (fd_clone p q)
  | OAlloc p c start => num (fd_alloc p c start)
  | OLookup p n => r ← fd_lookup p n; mret (0, r)
  | ORelease c => ret (connection_unref c)
  | OClose p n => num (fd_close p n)
  | OCloseAll p => ret (fd_close_all p)
  | OCloseOnExec p => ret (fd_close_on_exec p)
  | OGetFlags p n => num (fd_get_flags p n)
  | OSetFlags p n f => num (fd_set_flags p n f)
  end.

(** What the caller must know: the process exists, a new table replaces only
    free descriptors, and only references the caller holds are dropped. *)
Definition allowed (o : fdop) (ext : conn → Z) w : Prop :=
  match o with
  | OInit p => ∀ t, tables w !! p = Some t → all_free t
  | OClone p q => p ≠ q ∧ is_Some (tables w !! p) ∧ ∃ u, tables w !! q = Some u ∧ all_free u
  | OAlloc p c _ => is_Some (tables w !! p) ∧ is_Some (refs w !! c)
  | ORelease c => 1 ≤ ext c
  | OLookup p _ | OClose p _ | OCloseAll p | OCloseOnExec p | OGetFlags p _ | OSetFlags p _ _ => is_Some (tables w !! p)
  end.

(** The references held outside the tables afterwards. *)
Definition held (o : fdop) (r : Z * option conn) (ext : conn → Z) : conn → Z :=
  match o, r.2 with
  | OLookup _ _, Some c => plus ext c 1
  | ORelease c, _ => plus ext c (-1)
  | _, _ => ext
  end.

(** The descriptor [n] of a table, when it is in use. *)
Definition open_at t n : option (conn * Z) :=
  if (n <? 0) || (OPEN_MAX <=? n) then None else
  d ← t !! Z.to_nat n; c ← connection d; Some (c, flags d).

(** The result and the tables afterwards. *)
Definition post (o : fdop) w (r : Z * option conn) (T : gmap proc (list ConnectionDesc)) : Prop :=
  let tab p := default [] (tables w !! p) in
  let put p n d := <[p := <[Z.to_nat n := d]> (tab p)]> (tables w) in
  match o with
  | OInit p => T = <[p := replicate (Z.to_nat OPEN_MAX) empty_desc]> (tables w)
  | OClone p q => T = <[q := tab p]> (tables w)
  | OAlloc p c start =>
      if (start <? 0) || (OPEN_MAX <=? start) then r.1 = - EINVAL ∧ T = tables w
      else lowest_free (tab p) start r.1 ∧ T = if 0 <=? r.1 then put p r.1 (MkDesc (Some c) 0) else tables w
  | OLookup p n => r.2 = fst <$> open_at (tab p) n ∧ T = tables w
  | ORelease _ => T = tables w
  | OClose p n =>
      match open_at (tab p) n with
      | Some _ => r.1 = 0 ∧ T = put p n empty_desc
      | None => r.1 = - EBADF ∧ T = tables w
      end
  | OCloseAll p => T = <[p := replicate (Z.to_nat OPEN_MAX) empty_desc]> (tables w)
  | OCloseOnExec p => T = <[p := sweep (λ d, flags d =? FD_CLOEXEC) (tab p)]> (tables w)
  | OGetFlags p n => r.1 = match open_at (tab p) n with Some (_, f) => f | None => - EBADF end ∧ T = tables w
  | OSetFlags p n f =>
      if negb ((f =? 0) || (f =? FD_CLOEXEC)) then r.1 = - EINVAL ∧ T = tables w else
      match open_at (tab p) n with
      | Some (c, _) => r.1 = 0 ∧ T = put p n (MkDesc (Some c) f)
      | None => r.1 = - EBADF ∧ T = tables w
      end
  end.

Lemma lookup_desc_ok w p t n (E : string → Prop) (Q : option ConnectionDesc → fds → Prop) :
  tables w !! p = Some t → table_ok t →
  (∀ o, (o ≫= λ d, c ← connection d; Some (c, flags d)) = open_at t n → (∀ d, o = Some d → t !! Z.to_nat n = Some d) → Q o w) →
  swp (_fd_lookup p n) w E Q.
Proof.
  intros Ht [Hl _] HQ. unfold _fd_lookup, open_at in *. destruct ((n <? 0) || (OPEN_MAX <=? n)) eqn:Er; [by apply swp_ret, HQ|].
  bool_to_prop. destruct (lookup_lt_is_Some_2 t (Z.to_nat n)) as [d Hd]; [unfold OPEN_MAX in *; lia|].
  apply swp_bind. eapply fd_desc_ok; [done..|]. apply swp_ret, HQ; [by rewrite Hd|]. by intros ? [= <-].
Qed.

Lemma flags_mask f : (Z.land f (Z.lnot FD_CLOEXEC) =? 0) = (f =? 0) || (f =? FD_CLOEXEC).
Proof.
  apply eq_true_iff_eq. rewrite orb_true_iff, !Z.eqb_eq. split.
  - intros H. destruct (decide (f = 0)); [by left|right]. apply Z.bits_inj'. intros i Hi.
    assert (Hb : Z.testbit (Z.land f (Z.lnot FD_CLOEXEC)) i = false) by (rewrite H; apply Z.bits_0).
    rewrite Z.land_spec, Z.lnot_spec in Hb by done.
    destruct (decide (i = 0)) as [->|Hi0].
    + destruct (Z.testbit f 0) eqn:E0; [done|]. exfalso. apply n. apply Z.bits_inj'. intros j Hj. rewrite Z.bits_0.
      destruct (decide (j = 0)) as [->|]; [done|]. assert (Hb' : Z.testbit (Z.land f (Z.lnot FD_CLOEXEC)) j = false) by (rewrite H; apply Z.bits_0).
      rewrite Z.land_spec, Z.lnot_spec in Hb' by done. unfold FD_CLOEXEC in Hb'. change 1 with (2 ^ 0) in Hb'.
      rewrite Z.pow2_bits_false in Hb' by lia. by rewrite andb_true_r in Hb'.
    + unfold FD_CLOEXEC in *. change 1 with (2 ^ 0) in *. rewrite Z.pow2_bits_false in * by lia. by rewrite andb_true_r in Hb.
  - by intros [-> | ->].
Qed.

Lemma sweep_ext sel sel' t : (∀ d, d ∈ t → sel d = sel' d) → sweep sel t = sweep sel' t.
Proof. intros H. apply list_fmap_ext. intros i d Hd. by rewrite (H d (list_elem_of_lookup_2 _ _ _ Hd)). Qed.

Lemma sweep_open t : table_ok t → sweep (λ d, negb (bool_decide (connection d = None))) t = replicate (Z.to_nat OPEN_MAX) empty_desc.
Proof.
  intros Hok. rewrite <- (proj1 Hok). apply list_eq. intros k. unfold sweep. rewrite list_lookup_fmap.
  destruct (t !! k) as [d|] eqn:E; simpl.
  - rewrite lookup_replicate_2 by (by apply lookup_lt_Some in E). f_equal. case_bool_decide as Hc; [|done]. by apply (free_is_empty t k).
  - symmetry. apply lookup_ge_None_2. rewrite length_replicate. by apply lookup_ge_None_1.
Qed.

Lemma sweep_cloexec t : table_ok t → sweep (λ d, negb (Z.land (flags d) FD_CLOEXEC =? 0)) t = sweep (λ d, flags d =? FD_CLOEXEC) t.
Proof. intros [_ Hf]. apply sweep_ext. intros d Hd. rewrite Forall_forall in Hf. by destruct (Hf d Hd) as [[-> | ->] _]. Qed.

Lemma close_ok ext w p t n :
  wf ext w → tables w !! p = Some t → swp (fd_close p n) w no_panic (λ r w', wf ext w' ∧ post (OClose p n) w (r, None) (tables w')).
Proof.
  intros Hw Ht. pose proof (wf_tables _ _ Hw p t Ht) as Hok. unfold fd_close, post. rewrite Ht. simpl.
  apply swp_bind. eapply (lookup_desc_ok w p t n); [done..|]. intros o Ho Hd. rewrite <- Ho.
  destruct o as [[[c|] f]|]; simpl; [|by apply swp_ret..]. specialize (Hd _ eq_refl).
  destruct (used_allocated ext w p t _ _ c (wf_counted _ _ Hw) (wf_ext _ _ Hw c) Ht Hd eq_refl) as (k & Hk & _).
  apply swp_bind. unfold put_desc, table_of. apply swp_bind, swp_bind, swp_gets, swp_need; [congruence|]. intros t' Ht'. rewrite Ht in Ht'. injection Ht' as <-.
  apply swp_modify, swp_bind. set (w1 := set_table p (<[Z.to_nat n := empty_desc]> t) w).
  assert (H1 : counted (plus ext c 1) w1).
  { destruct (wf_counted _ _ Hw) as [S P]. split; [|done]. intros c'. simpl. rewrite S, (uses_insert _ p t) by done. rewrite (cnt_insert c' t _ _ _ Hd).
    unfold plus, one. simpl. repeat case_decide; simplify_eq; lia. }
  eapply swp_mono; [by apply (unref_ok _ w1 c k H1)|]. intros ? w2 [H2 HT2]. apply swp_ret. split; [|done].
  eapply (wf_insert ext _ w w2 p t _ Hw H2); [|done|exact HT2|].
  - intros c'. unfold plus. case_decide; lia.
  - apply table_ok_insert; [done|by left|done].
Qed.

Lemma set_flags_ok ext w p t n f :
  wf ext w → tables w !! p = Some t → swp (fd_set_flags p n f) w no_panic (λ r w', wf ext w' ∧ post (OSetFlags p n f) w (r, None) (tables w')).
Proof.
  intros Hw Ht. pose proof (wf_tables _ _ Hw p t Ht) as Hok. unfold fd_set_flags, post. rewrite Ht, flags_mask. simpl.
  destruct (negb _) eqn:Ef; [by apply swp_ret|]. bool_to_prop.
  apply swp_bind. eapply (lookup_desc_ok w p t n); [done..|]. intros o Ho Hd. rewrite <- Ho.
  destruct o as [[[c|] g]|]; simpl; [|by apply swp_ret..]. specialize (Hd _ eq_refl).
  apply swp_bind. eapply swp_mono; [apply (put_desc_ok ext w p t n _ _ _ (wf_counted _ _ Hw) Ht Hd)|]. intros ? w2 [H2 HT2]. apply swp_ret. split; [|done].
  eapply (wf_insert ext _ w w2 p t _ Hw H2); [|done|exact HT2|].
  - intros c'. unfold one. simpl. lia.
  - apply table_ok_insert; [done| |done]. simpl. apply orb_true_iff in Ef as [?%Z.eqb_eq|?%Z.eqb_eq]; auto.
Qed.

Lemma fd_init_ok ext w p :
  wf ext w → (∀ t, tables w !! p = Some t → all_free t) → swp (fd_init p) w no_panic (λ _ w', wf ext w' ∧ post (OInit p) w (0, None) (tables w')).
Proof.
  intros Hw Hfree. apply swp_modify. split; [|done]. set (e := replicate (Z.to_nat OPEN_MAX) empty_desc).
  assert (HT : <[p := e]> (tables w) = tables w ∨ tables w !! p = None).
  { destruct (tables w !! p) as [t|] eqn:E; [left|by right]. apply insert_id. rewrite E. f_equal. by apply Hfree. }
  split; [split| |].
  - intros c. simpl. pose proof (ct_sum _ _ (wf_counted _ _ Hw) c) as S. fold e. destruct HT as [-> |HN]; [done|].
    rewrite uses_add by done. unfold e. rewrite cnt_empty. done.
  - apply (wf_counted _ _ Hw).
  - apply (wf_ext _ _ Hw).
  - intros q u. simpl. rewrite lookup_insert. case_decide; [|apply (wf_tables _ _ Hw)]. intros [= <-]. split; [apply length_replicate|].
    apply Forall_replicate. split; [by left|done].
Qed.

(** C14: the descriptor tables and the reference counts of connections, for
    every operation of fd.c.  In a state where the count of each connection is
    the number of descriptors naming it plus the references held outside the
    tables, no operation trips an assertion or touches a freed connection; the
    counts are exact again afterwards, so a connection is closed exactly when
    its last reference goes; and the operation does what it promises:
    [fd_alloc] takes the lowest free descriptor or reports EMFILE, fork copies
    the table, exec closes exactly the close-on-exec descriptors, and a bad
    descriptor gives EBADF and changes nothing. *)
Theorem fd_refs_exact o ext w :
  wf ext w → allowed o ext w →
  swp (exec o) w no_panic (λ r w', wf (held o r ext) w' ∧ post o w r (tables w')).
Proof.
  intros Hw Ha. destruct o as [p|p q|p c start|p n|c|p n|p|p|p n|p n f]; cbn [exec allowed held] in *;
    try (destruct Ha as [t Ht]; pose proof (wf_tables _ _ Hw p t Ht) as Hok).
  - apply swp_bind. eapply swp_mono; [by apply (fd_init_ok ext)|]. auto.
  - destruct Ha as (Hne & [t Ht] & u & Hu & Hf). apply swp_bind. eapply swp_mono; [by apply (clone_ok ext w p q t u)|].
    intros ? w' [Hw' HT]. apply swp_ret. split; [done|]. simpl. by rewrite Ht.
  - destruct Ha as [[t Ht] [k Hk]]. apply swp_bind. unfold fd_alloc, post. rewrite Ht. simpl.
    destruct (_ || _) eqn:Er; [by apply swp_ret|]. bool_to_prop.
    eapply swp_mono; [apply (alloc_ok ext w p t c k start); try done; lia|]. intros r w' (? & ? & ?). by apply swp_ret.
  - apply swp_bind. unfold fd_lookup, post. rewrite Ht. simpl. apply swp_bind. eapply (lookup_desc_ok w p t n); [done..|]. intros o Ho Hd.
    rewrite <- Ho. destruct o as [[[c|] f]|]; simpl; [|by apply swp_ret..]. specialize (Hd _ eq_refl).
    destruct (used_allocated ext w p t _ _ c (wf_counted _ _ Hw) (wf_ext _ _ Hw c) Ht Hd eq_refl) as (k & Hk & _).
    apply swp_bind. eapply swp_mono; [by apply (ref_ok ext w c k), Hk; apply Hw|]. intros ? w' [H' HT']. do 2 apply swp_ret. split; [|done]. cbn [held snd].
    split; [done| |].
    + intros c'. unfold plus. pose proof (wf_ext _ _ Hw c'). case_decide; lia.
    + rewrite HT'. apply (wf_tables _ _ Hw).
  - apply swp_bind. assert (Hc : ∃ k, refs w !! c = Some k).
    { pose proof (ct_sum _ _ (wf_counted _ _ Hw) c) as S. pose proof (uses_nonneg (tables w) c). destruct (refs w !! c); [eauto|]. simpl in S. lia. }
    destruct Hc as [k Hk]. eapply swp_mono; [by apply (unref_ok ext w c k), Hk; apply Hw|]. intros ? w' [H' HT']. apply swp_ret. split; [|done]. cbn [held snd].
    split; [done| |].
    + intros c'. unfold plus. pose proof (wf_ext _ _ Hw c'). case_decide; subst; lia.
    + rewrite HT'. apply (wf_tables _ _ Hw).
  - apply swp_bind. eapply swp_mono; [by apply (close_ok ext w p t n)|]. auto.
  - apply swp_bind. eapply swp_mono; [apply (sweep_ok ext w p t _ Hw Ht)|]; [intros d _ Hs; by bool_to_prop|].
    intros ? w' [Hw' HT]. apply swp_ret. split; [done|]. simpl. by rewrite HT, sweep_open.
  - apply swp_bind. eapply swp_mono; [apply (sweep_ok ext w p t _ Hw Ht)|].
    + intros d Hd Hs Hc. destruct Hok as [_ Hf]. rewrite Forall_forall in Hf. destruct (Hf d Hd) as [_ H0]. by rewrite H0 in Hs.
    + intros ? w' [Hw' HT]. apply swp_ret. split; [done|]. simpl. by rewrite HT, sweep_cloexec, Ht.
  - apply swp_bind. unfold fd_get_flags, post. rewrite Ht. simpl. apply swp_bind. eapply (lookup_desc_ok w p t n); [done..|]. intros o Ho _.
    rewrite <- Ho. by destruct o as [[[c|] f]|]; apply swp_ret, swp_ret.
  - apply swp_bind. eapply swp_mono; [by apply (set_flags_ok ext w p t n f)|]. auto.
Qed.

(** One process, with connection 7 as descriptor 0, to be closed on exec. *)
Definition one_file : fds :=
  MkFds {[7%nat := 1]} {[0%nat := MkDesc (Some 7%nat) FD_CLOEXEC :: replicate 31 empty_desc]} [].

Lemma one_file_wf : wf (λ _, 0) one_file.
Proof.
  split; [split| |].
  - intros c. simpl. rewrite lookup_singleton. unfold uses. rewrite map_fold_singleton. simpl. unfold one. simpl. repeat case_decide; simplify_eq; done.
  - intros c k. simpl. rewrite lookup_singleton. case_decide; [|done]. by intros [= <-].
  - done.
  - intros p t. simpl. rewrite lookup_singleton. case_decide; [|done]. intros [= <-]. split; [done|]. constructor; [split; [by right|done]|].
    change (Forall (λ d, (flags d = 0 ∨ flags d = FD_CLOEXEC) ∧ (connection d = None → flags d = 0)) (replicate 31 empty_desc)).
    apply Forall_replicate. split; [by left|done].
Qed.

Lemma fd_refs_exact_witness :
  swp (exec (OCloseOnExec 0%nat)) one_file no_panic (λ r w',
    wf (held (OCloseOnExec 0%nat) r (λ _, 0)) w' ∧ post (OCloseOnExec 0%nat) one_file r (tables w')).
Proof. apply (fd_refs_exact (OCloseOnExec 0%nat) (λ _, 0) one_file); [exact one_file_wf|]. by eexists. Defined.

Example one_file_close : (x ← exec (OCloseOnExec 0%nat); gets closed) one_file
  = Ok ([7%nat], MkFds ∅ {[0%nat := replicate 32 empty_desc]} [7%nat]).
Proof. reflexivity. Qed.

End Fd.
