(* ===== verification/Process.v ===== *)
(** Processes and signals (kernel/process/process.c, kernel/process/signal.c,
    kernel/arch/arm/process/arch_signal.c): the operations.

    An operation is one step of the state [pst]: it holds [process_lock] while it
    touches what others can see, and what it does before and after (descriptors
    and the pid table entry of the caller, objects no list holds any more) is its
    own.  What it does to the scheduler is recorded as a list of events: the
    tasks woken and the wait queues emptied. *)

From S2P Require Import Prelude StateM Fd VmArch.
#[local] Open Scope Z_scope.

Module Process.

(** ** Signals of the C library (sys/signal.h of newlib) *)

Definition SIGHUP : Z := 1.
Definition SIGINT : Z := 2.
Definition SIGQUIT : Z := 3.
Definition SIGILL : Z := 4.
Definition SIGTRAP : Z := 5.
Definition SIGABRT : Z := 6.
Definition SIGFPE : Z := 8.
Definition SIGKILL : Z := 9.
Definition SIGBUS : Z := 10.
Definition SIGSEGV : Z := 11.
Definition SIGSYS : Z := 12.
Definition SIGPIPE : Z := 13.
Definition SIGALRM : Z := 14.
Definition SIGTERM : Z := 15.
Definition SIGURG : Z := 16.
Definition SIGSTOP : Z := 17.
Definition SIGTSTP : Z := 18.
Definition SIGCONT : Z := 19.
Definition SIGCHLD : Z := 20.
Definition SIGTTIN : Z := 21.
Definition SIGTTOU : Z := 22.
Definition SIGXCPU : Z := 24.
Definition SIGXFSZ : Z := 25.
Definition SIGUSR1 : Z := 30.
Definition SIGUSR2 : Z := 31.
Definition NSIG : Z := 32.

Definition SIG_DFL : Z := 0.
Definition SIG_IGN : Z := 1.
Definition SA_NOCLDSTOP : Z := 1.
Definition SA_RESETHAND : Z := 8.
Definition SIG_SETMASK : Z := 0.
Definition SIG_BLOCK : Z := 1.
Definition SIG_UNBLOCK : Z := 2.
Definition ECHILD : Z := 10.
Definition ESRCH : Z := 3.

(** sigset_t is one word; the macros of sys/signal.h use the bit [1 << signo]
    of a 32-bit int (bit 32 is shifted out). *)
Definition sigbit (signo : Z) : Z := u32 (Z.shiftl 1 signo).
Definition sigaddset (set signo : Z) : Z := Z.lor set (sigbit signo).
Definition sigdelset (set signo : Z) : Z := Z.ldiff set (sigbit signo).
Definition sigismember (set signo : Z) : bool := negb (Z.land set (sigbit signo) =? 0).

(** ** State *)

Record siginfo := MkInfo { si_signo : Z; si_code : Z; si_value : Z }.
Record sigaction := MkAction { sa_handler : Z; sa_mask : Z; sa_flags : Z }.

(** The registers the signal code saves and restores (struct TrapFrame). *)
Record TrapFrame := MkTf { tf_r0 : Z; tf_sp : Z; tf_lr : Z; tf_pc : Z; tf_psr : Z }.

(** struct SignalFrame: handler, signal information, signal mask, registers. *)
Record SignalFrame := MkFrame { fr_handler : Z; fr_info : siginfo; fr_mask : Z; fr_regs : TrapFrame }.

(** struct Thread.  [signal_pending[i]] points to the queued signal of number
    [i + 1]; signals are named by their addresses. *)
Record Thread := MkThread {
  t_process : option nat;
  tf : TrapFrame;
  signal_pending : list (option nat);
  signal_queue : list nat;
  signal_mask : Z }.

Inductive pstate := ACTIVE | ZOMBIE | STOPPED.
#[export] Instance pstate_eq_dec : EqDecision pstate.
Proof. solve_decision. Defined.

Definition PROCESS_STATUS_AVAILABLE : Z := 1.

(** struct Process.  [vm] tells whether the process has an address space;
    [ustack] is the part of it the signal code writes: the frames on the user
    stack, by address. *)
Record Process := MkProcess {
  vm : bool;
  thread : option nat;
  pid : Z;
  pgid : Z;
  parent : option nat;
  children : list nat;
  state : pstate;
  status : Z;
  flags : Z;
  signal_stub : Z;
  signal_actions : list sigaction;
  utime : Z; stime : Z; cutime : Z; cstime : Z;
  ids : Z * Z * Z * Z * Z;      (* ruid, euid, rgid, egid, cmask *)
  ctty : Z;
  ustack : gmap Z SignalFrame }.

Inductive event :=
| Wake (t : nat)                (* k_task_wake of a thread's task *)
| WakeupAll (p : nat)           (* k_waitqueue_wakeup_all of a process's queue *)
| Resume (t : nat)              (* k_task_resume of a new thread *)
| Exit (t : nat).               (* k_task_exit of the current thread *)

Record pst := MkPst {
  procs : gmap nat Process;
  threads : gmap nat Thread;
  infos : gmap nat siginfo;     (* the contents of signal objects *)
  process_list : list nat;      (* __process_list *)
  pid_hash : list (list nat);   (* NBUCKET lists *)
  next_pid : Z;
  init_process : nat;
  current : nat;                (* process_current() *)
  process_pool : list nat;      (* free objects of process_cache, thread_cache, signal_cache *)
  thread_pool : list nat;
  signal_pool : list nat;
  thread_destroy_list : list nat;
  locked : bool;                (* __process_lock *)
  files : Fd.fds;
  log : list event }.

Implicit Types (p q : nat) (t : nat) (s : nat) (w : pst) (signo : Z) (x : Process) (h : Thread) (a : sigaction).

(** *** Field updates *)

Definition set_procs f w := MkPst (f (procs w)) (threads w) (infos w) (process_list w) (pid_hash w) (next_pid w) (init_process w)
  (current w) (process_pool w) (thread_pool w) (signal_pool w) (thread_destroy_list w) (locked w) (files w) (log w).
Definition set_threads f w := MkPst (procs w) (f (threads w)) (infos w) (process_list w) (pid_hash w) (next_pid w) (init_process w)
  (current w) (process_pool w) (thread_pool w) (signal_pool w) (thread_destroy_list w) (locked w) (files w) (log w).
Definition set_infos f w := MkPst (procs w) (threads w) (f (infos w)) (process_list w) (pid_hash w) (next_pid w) (init_process w)
  (current w) (process_pool w) (thread_pool w) (signal_pool w) (thread_destroy_list w) (locked w) (files w) (log w).
Definition set_list f w := MkPst (procs w) (threads w) (infos w) (f (process_list w)) (pid_hash w) (next_pid w) (init_process w)
  (current w) (process_pool w) (thread_pool w) (signal_pool w) (thread_destroy_list w) (locked w) (files w) (log w).
Definition set_hash f w := MkPst (procs w) (threads w) (infos w) (process_list w) (f (pid_hash w)) (next_pid w) (init_process w)
  (current w) (process_pool w) (thread_pool w) (signal_pool w) (thread_destroy_list w) (locked w) (files w) (log w).
Definition set_next_pid n w := MkPst (procs w) (threads w) (infos w) (process_list w) (pid_hash w) n (init_process w)
  (current w) (process_pool w) (thread_pool w) (signal_pool w) (thread_destroy_list w) (locked w) (files w) (log w).
Definition set_pools pp tp w := MkPst (procs w) (threads w) (infos w) (process_list w) (pid_hash w) (next_pid w) (init_process w)
  (current w) pp tp (signal_pool w) (thread_destroy_list w) (locked w) (files w) (log w).
Definition set_signal_pool f w := MkPst (procs w) (threads w) (infos w) (process_list w) (pid_hash w) (next_pid w) (init_process w)
  (current w) (process_pool w) (thread_pool w) (f (signal_pool w)) (thread_destroy_list w) (locked w) (files w) (log w).
Definition set_destroy_list f w := MkPst (procs w) (threads w) (infos w) (process_list w) (pid_hash w) (next_pid w) (init_process w)
  (current w) (process_pool w) (thread_pool w) (signal_pool w) (f (thread_destroy_list w)) (locked w) (files w) (log w).
Definition set_locked b w := MkPst (procs w) (threads w) (infos w) (process_list w) (pid_hash w) (next_pid w) (init_process w)
  (current w) (process_pool w) (thread_pool w) (signal_pool w) (thread_destroy_list w) b (files w) (log w).
Definition set_files f w := MkPst (procs w) (threads w) (infos w) (process_list w) (pid_hash w) (next_pid w) (init_process w)
  (current w) (process_pool w) (thread_pool w) (signal_pool w) (thread_destroy_list w) (locked w) f (log w).
Definition emit (e : event) w := MkPst (procs w) (threads w) (infos w) (process_list w) (pid_hash w) (next_pid w) (init_process w)
  (current w) (process_pool w) (thread_pool w) (signal_pool w) (thread_destroy_list w) (locked w) (files w) (e :: log w).

Definition set_state (v : pstate) x := MkProcess (vm x) (thread x) (pid x) (pgid x) (parent x) (children x) v (status x) (flags x)
  (signal_stub x) (signal_actions x) (utime x) (stime x) (cutime x) (cstime x) (ids x) (ctty x) (ustack x).
Definition set_status (v : Z) x := MkProcess (vm x) (thread x) (pid x) (pgid x) (parent x) (children x) (state x) v (flags x)
  (signal_stub x) (signal_actions x) (utime x) (stime x) (cutime x) (cstime x) (ids x) (ctty x) (ustack x).
Definition set_flags (v : Z) x := MkProcess (vm x) (thread x) (pid x) (pgid x) (parent x) (children x) (state x) (status x) v
  (signal_stub x) (signal_actions x) (utime x) (stime x) (cutime x) (cstime x) (ids x) (ctty x) (ustack x).
Definition set_stub (v : Z) x := MkProcess (vm x) (thread x) (pid x) (pgid x) (parent x) (children x) (state x) (status x) (flags x)
  v (signal_actions x) (utime x) (stime x) (cutime x) (cstime x) (ids x) (ctty x) (ustack x).
Definition set_actions (f : list sigaction → list sigaction) x := MkProcess (vm x) (thread x) (pid x) (pgid x) (parent x) (children x)
  (state x) (status x) (flags x) (signal_stub x) (f (signal_actions x)) (utime x) (stime x) (cutime x) (cstime x) (ids x) (ctty x) (ustack x).
Definition set_children (f : list nat → list nat) x := MkProcess (vm x) (thread x) (pid x) (pgid x) (parent x) (f (children x)) (state x)
  (status x) (flags x) (signal_stub x) (signal_actions x) (utime x) (stime x) (cutime x) (cstime x) (ids x) (ctty x) (ustack x).
Definition set_parent (v : option nat) x := MkProcess (vm x) (thread x) (pid x) (pgid x) v (children x) (state x)
  (status x) (flags x) (signal_stub x) (signal_actions x) (utime x) (stime x) (cutime x) (cstime x) (ids x) (ctty x) (ustack x).
Definition set_vm (v : bool) x := MkProcess v (thread x) (pid x) (pgid x) (parent x) (children x) (state x)
  (status x) (flags x) (signal_stub x) (signal_actions x) (utime x) (stime x) (cutime x) (cstime x) (ids x) (ctty x) (ustack x).
Definition set_thread (v : option nat) x := MkProcess (vm x) v (pid x) (pgid x) (parent x) (children x) (state x)
  (status x) (flags x) (signal_stub x) (signal_actions x) (utime x) (stime x) (cutime x) (cstime x) (ids x) (ctty x) (ustack x).
Definition set_pid (v : Z) x := MkProcess (vm x) (thread x) v (pgid x) (parent x) (children x) (state x)
  (status x) (flags x) (signal_stub x) (signal_actions x) (utime x) (stime x) (cutime x) (cstime x) (ids x) (ctty x) (ustack x).
Definition set_pgid (v : Z) x := MkProcess (vm x) (thread x) (pid x) v (parent x) (children x) (state x)
  (status x) (flags x) (signal_stub x) (signal_actions x) (utime x) (stime x) (cutime x) (cstime x) (ids x) (ctty x) (ustack x).
Definition set_times (u st cu cs : Z) x := MkProcess (vm x) (thread x) (pid x) (pgid x) (parent x) (children x) (state x)
  (status x) (flags x) (signal_stub x) (signal_actions x) u st cu cs (ids x) (ctty x) (ustack x).
Definition set_ids v (tty : Z) x := MkProcess (vm x) (thread x) (pid x) (pgid x) (parent x) (children x) (state x)
  (status x) (flags x) (signal_stub x) (signal_actions x) (utime x) (stime x) (cutime x) (cstime x) v tty (ustack x).
Definition set_ustack f x := MkProcess (vm x) (thread x) (pid x) (pgid x) (parent x) (children x) (state x)
  (status x) (flags x) (signal_stub x) (signal_actions x) (utime x) (stime x) (cutime x) (cstime x) (ids x) (ctty x) (f (ustack x)).

Definition set_t_process (v : option nat) h := MkThread v (tf h) (signal_pending h) (signal_queue h) (signal_mask h).
Definition set_tf (v : TrapFrame) h := MkThread (t_process h) v (signal_pending h) (signal_queue h) (signal_mask h).
Definition set_pending f h := MkThread (t_process h) (tf h) (f (signal_pending h)) (signal_queue h) (signal_mask h).
Definition set_queue f h := MkThread (t_process h) (tf h) (signal_pending h) (f (signal_queue h)) (signal_mask h).
Definition set_mask (v : Z) h := MkThread (t_process h) (tf h) (signal_pending h) (signal_queue h) v.

(** *** Memory access *)

Definition NULL : string := "NULL dereference".
Definition BOUNDS : string := "access outside the array".
Definition NO_THREAD : string := "Assertion failed: process->thread != NULL".

Definition proc_at p : sm pst Process := o ← gets (λ w, procs w !! p); need o NULL.
Definition thread_at t : sm pst Thread := o ← gets (λ w, threads w !! t); need o NULL.
Definition upd_proc p (f : Process → Process) : sm pst unit := x ← proc_at p; modify (set_procs <[p := f x]>).
Definition upd_thread t (f : Thread → Thread) : sm pst unit := h ← thread_at t; modify (set_threads <[t := f h]>).

(** [process->thread], dereferenced after a check or not. *)
Definition thread_of p (why : string) : sm pst nat := x ← proc_at p; need (thread x) why.

Definition at_index {A} (l : list A) (i : Z) : option A := if i <? 0 then None else l !! Z.to_nat i.

Definition SIGNAL_INDEX signo : Z := signo - 1.

Definition process_lock : sm pst unit :=
  b ← gets locked; check (negb b) "already holding process_lock";; modify (set_locked true).
Definition process_unlock : sm pst unit :=
  b ← gets locked; check b "not holding process_lock";; modify (set_locked false).
Definition holding (why : string) : sm pst unit := b ← gets locked; check b why.
Definition HOLDING : string := "Assertion failed: k_spinlock_holding(&__process_lock)".

Definition with_files {A} (m : sm Fd.fds A) : sm pst A := λ w,
  match m (files w) with Ok (a, f) => Ok (a, set_files f w) | Panic why => Panic why end.

(** ** signal.c *)

(** [k_object_pool_get(signal_cache)]: a free object, or the NULL that the
    interface of the pools allows for and the callers handle. *)
Definition signal_create signo (code value : Z) : sm pst (option nat) :=
  l ← gets signal_pool;
  match l with
  | [] => mret None
  | s :: l =>
      modify (set_signal_pool (λ _, l));;
      modify (set_infos <[s := MkInfo signo code value]>);;
      mret (Some s)
  end.
Definition signal_free s : sm pst unit := modify (set_signal_pool (s ::.)).
Definition info_at s : sm pst siginfo := o ← gets (λ w, infos w !! s); need o NULL.

Definition no_pending : list (option nat) := replicate (Z.to_nat NSIG) None.
Definition set_default a : sigaction := MkAction SIG_DFL (sa_mask a) (sa_flags a).

Definition signal_init p : sm pst unit :=
  t ← thread_of p NO_THREAD;
  upd_proc p (set_stub 0);;
  upd_thread t (set_mask 0);;
  upd_proc p (set_actions (fmap set_default));;
  upd_thread t (set_pending (λ _, no_pending)).

Fixpoint drain (n : nat) t : sm pst unit :=
  match n with
  | O => stop "out of fuel"
  | S n =>
      h ← thread_at t;
      match signal_queue h with
      | [] => mret tt
      | s :: l => upd_thread t (set_queue (λ _, l));; signal_free s;; drain n t
      end
  end.

Definition signal_reset p : sm pst unit :=
  t ← thread_of p NO_THREAD;
  upd_thread t (set_mask 0);;
  upd_proc p (set_actions (fmap set_default));;
  upd_thread t (set_pending (λ _, no_pending));;
  h ← thread_at t;
  drain (S (length (signal_queue h))) t.

Definition signal_clone p q : sm pst unit :=
  t ← thread_of p "Assertion failed: parent->thread != NULL";
  holding "process_lock not acquired";;
  x ← proc_at p;
  h ← thread_at t;
  u ← thread_of q NULL;
  upd_proc q (set_stub (signal_stub x));;
  upd_thread u (set_mask (signal_mask h));;
  upd_proc q (set_actions (λ _, signal_actions x));;
  upd_thread u (set_pending (λ _, no_pending)).

Definition signal_is_stop signo : bool :=
  (signo =? SIGSTOP) || (signo =? SIGTSTP) || (signo =? SIGTTIN) || (signo =? SIGTTOU).

Definition ignored_by a signo : bool :=
  if sa_handler a =? SIG_IGN then true else
  if sa_handler a =? SIG_DFL then (signo =? SIGCHLD) || (signo =? SIGURG) else false.

Definition signal_is_ignored p signo : sm pst bool :=
  x ← proc_at p;
  a ← need (at_index (signal_actions x) (SIGNAL_INDEX signo)) BOUNDS;
  mret (ignored_by a signo).

Definition signal_can_be_ignored signo : bool := negb (signo =? SIGKILL) && negb (signo =? SIGSTOP).

(** [signal_pending[SIGNAL_INDEX(signo)]], read and cleared. *)
Definition pending_at t signo : sm pst (option nat) :=
  h ← thread_at t; need (at_index (signal_pending h) (SIGNAL_INDEX signo)) BOUNDS.
Definition put_pending t signo (o : option nat) : sm pst unit :=
  upd_thread t (set_pending <[Z.to_nat (SIGNAL_INDEX signo) := o]>).

(** The signal leaves the queue; it is not returned to its pool. *)
Definition signal_discard p signo : sm pst unit :=
  t ← thread_of p NO_THREAD;
  o ← pending_at t signo;
  match o with
  | None => mret tt
  | Some s => put_pending t signo None;; upd_thread t (set_queue (filter (.≠ s)))
  end.

Definition blocked_by h signo : bool := signal_can_be_ignored signo && sigismember (signal_mask h) signo.

Definition signal_is_blocked p signo : sm pst bool :=
  t ← thread_of p NO_THREAD; h ← thread_at t; mret (blocked_by h signo).

(** The caller always asks for the old action. *)
Definition signal_action_change signo (stub : Z) (action : option sigaction) : sm pst (Z * option sigaction) :=
  p ← gets current;
  if (signo <? 0) || (NSIG <=? signo) then mret (- EINVAL, None) else
  if match action with
     | Some a => negb (sa_handler a =? SIG_DFL) && negb (signal_can_be_ignored signo)
     | None => false
     end then mret (- EINVAL, None) else
  process_lock;;
  x ← proc_at p;
  old ← need (at_index (signal_actions x) (SIGNAL_INDEX signo)) BOUNDS;
  match action with
  | None => mret tt
  | Some a =>
      upd_proc p (set_actions <[Z.to_nat (SIGNAL_INDEX signo) := a]>);;
      b ← signal_is_ignored p signo;
      when b (signal_discard p signo)
  end;;
  when (negb (stub =? 0)) (upd_proc p (set_stub stub));;
  process_unlock;;
  mret (0, Some old).

(** [for (i = 1; i <= NSIG; i++)]. *)
Definition signals : list Z := seqZ 1 NSIG.

Definition pending_set (l : list (option nat)) : Z :=
  foldl (λ set i, match at_index l (SIGNAL_INDEX i) with Some (Some _) => sigaddset set i | _ => set end) 0 signals.

Definition sys_signal_pending : sm pst Z :=
  p ← gets current;
  process_lock;;
  t ← thread_of p NO_THREAD;
  h ← thread_at t;
  process_unlock;;
  mret (pending_set (signal_pending h)).

Definition block_all (set mask : Z) : Z :=
  foldl (λ m i, if negb (i =? SIGKILL) && sigismember set i then sigaddset m i else m) mask signals.
Definition unblock_all (set mask : Z) : Z :=
  foldl (λ m i, if sigismember set i then sigdelset m i else m) mask signals.

Definition signal_mask_change (how : Z) (set : option Z) : sm pst (Z * Z) :=
  p ← gets current;
  t ← thread_of p NO_THREAD;
  h ← thread_at t;
  let old := signal_mask h in
  match set with
  | None => mret (0, old)
  | Some set =>
      process_lock;;
      r ← (if how =? SIG_SETMASK then upd_thread t (set_mask (sigdelset set SIGKILL));; mret 0
           else if how =? SIG_BLOCK then upd_thread t (set_mask (block_all set old));; mret 0
           else if how =? SIG_UNBLOCK then upd_thread t (set_mask (unblock_all set old));; mret 0
           else mret (- EINVAL));
      process_unlock;;
      mret (r, old)
  end.

(** [signal_suspend], up to the sleep and from the wakeup on. *)
Definition signal_suspend_sleep (mask : Z) : sm pst Z :=
  p ← gets current;
  process_lock;;
  t ← thread_of p NO_THREAD;
  h ← thread_at t;
  upd_thread t (set_mask (sigdelset mask SIGKILL));;
  process_unlock;;
  mret (signal_mask h).
Definition signal_suspend_wake (saved r : Z) : sm pst Z :=
  p ← gets current;
  process_lock;;
  t ← thread_of p NULL;
  upd_thread t (set_mask saved);;
  process_unlock;;
  mret r.

(** [_signal_state_change_to_parent], [_process_continue] and
    [signal_generate_one] call one another: a continue signal tells the parent
    with SIGCHLD.  [generate] is what the first two call. *)
Section parent.
Context (generate : nat → Z → Z → sm pst Z).

Definition state_change_to_parent p : sm pst unit :=
  holding HOLDING;;
  x ← proc_at p;
  match parent x with
  | None => mret tt
  | Some q =>
      if bool_decide (q = p) then mret tt else
      y ← proc_at q;
      a ← need (at_index (signal_actions y) (SIGNAL_INDEX SIGCHLD)) BOUNDS;
      if negb (bool_decide (state x = ZOMBIE)) && negb (Z.land (sa_flags a) SA_NOCLDSTOP =? 0) then mret tt else
      _ ← generate q SIGCHLD 0;
      modify (emit (WakeupAll q))
  end.

Definition process_continue p : sm pst unit :=
  x ← proc_at p;
  check (vm x) "Assertion failed: process->vm != NULL";;
  holding HOLDING;;
  when (bool_decide (state x = STOPPED)) (
    upd_proc p (set_state ACTIVE);;
    check (negb (flags x =? 0)) "Assertion failed: process->flags != 0";;
    t ← thread_of p NO_THREAD;
    modify (emit (Wake t));;
    state_change_to_parent p).

End parent.

Definition BAD_SIGNO : string := "Assertion failed: (signo > 0) && (signo <= NSIG)".

Fixpoint generate_one (fuel : nat) p signo (code : Z) : sm pst Z :=
  match fuel with
  | O => stop "out of fuel"
  | S fuel =>
      check ((0 <? signo) && (signo <=? NSIG)) BAD_SIGNO;;
      holding HOLDING;;
      t ← thread_of p NULL;
      o ← pending_at t signo;
      match o with
      | Some _ => mret 0
      | None =>
          (if signal_is_stop signo then signal_discard p SIGCONT
           else when (signo =? SIGCONT) (
             signal_discard p SIGSTOP;; signal_discard p SIGTSTP;; signal_discard p SIGTTIN;; signal_discard p SIGTTOU;;
             process_continue (generate_one fuel) p));;
          b ← signal_is_ignored p signo;
          if b : bool then mret 0 else
          o ← signal_create signo code 0;
          match o with
          | None => mret (- ENOMEM)
          | Some s =>
              upd_thread t (set_queue (λ l, l ++ [s]));;
              put_pending t signo (Some s);;
              b ← signal_is_blocked p signo;
              when (negb b) (modify (emit (Wake t)));;
              mret 0
          end
      end
  end.
Definition signal_generate_one : nat → Z → Z → sm pst Z := generate_one 2.
Definition _signal_state_change_to_parent : nat → sm pst unit := state_change_to_parent signal_generate_one.
Definition _process_continue : nat → sm pst unit := process_continue signal_generate_one.

Definition process_match_pid p (pid' : Z) : sm pst bool :=
  x ← proc_at p;
  if pid' =? -1 then mret true else
  if pid x =? pid' then mret true else
  if pid' <? 0 then mret (pgid x =? - pid') else
  if pid' =? 0 then c ← gets current; y ← proc_at c; mret (pgid x =? pgid y)
  else mret false.

Fixpoint generate_loop (l : list nat) (pid' : Z) signo (code : Z) : sm pst Z :=
  match l with
  | [] => mret 0
  | p :: l =>
      b ← process_match_pid p pid';
      x ← proc_at p;
      if negb b || (signo =? 0) || bool_decide (thread x = None) then generate_loop l pid' signo code else
      r ← signal_generate_one p signo code;
      if negb (r =? 0) then mret r else generate_loop l pid' signo code
  end.

Definition signal_generate (pid' : Z) signo (code : Z) : sm pst Z :=
  process_lock;;
  l ← gets process_list;
  r ← generate_loop l pid' signo code;
  process_unlock;;
  mret r.

(** The first queued signal that may be delivered, taken off the queue. *)
Definition deliverable x h signo : bool :=
  negb (blocked_by h signo) &&
  negb (bool_decide (state x = STOPPED) && negb (signo =? SIGKILL) && negb (signo =? SIGCONT)).

Fixpoint dequeue_loop p t (l : list nat) : sm pst (option nat) :=
  match l with
  | [] => mret None
  | s :: l =>
      i ← info_at s;
      let signo := si_signo i in
      x ← proc_at p;
      h ← thread_at t;
      if negb (deliverable x h signo) then dequeue_loop p t l else
      upd_thread t (set_queue (filter (.≠ s)));;
      put_pending t signo None;;
      mret (Some s)
  end.
Definition signal_dequeue p : sm pst (option nat) :=
  t ← thread_of p NULL; h ← thread_at t; dequeue_loop p t (signal_queue h).

Definition _process_stop p : sm pst unit :=
  x ← proc_at p;
  check (vm x) "Assertion failed: process->vm != NULL";;
  holding HOLDING;;
  when (negb (bool_decide (state x = STOPPED))) (
    upd_proc p (λ x, set_status 127 (set_state STOPPED x));;
    _signal_state_change_to_parent p).

Definition terminates signo : bool :=
  bool_decide (signo ∈ [SIGABRT; SIGBUS; SIGFPE; SIGILL; SIGQUIT; SIGSEGV; SIGSYS; SIGTRAP; SIGXCPU; SIGXFSZ;
                        SIGALRM; SIGHUP; SIGINT; SIGKILL; SIGPIPE; SIGTERM; SIGUSR1; SIGUSR2]).

Definition IGNORED : string := "ignored signals should not be delivered".

Definition signal_action_default p signo : sm pst Z :=
  if terminates signo then mret signo else
  if (signo =? SIGCHLD) || (signo =? SIGURG) then stop IGNORED else
  if signal_is_stop signo then _process_stop p;; mret 0 else
  if signo =? SIGCONT then
    x ← proc_at p;
    if bool_decide (state x = STOPPED) then stop "The process must be already continued" else mret 0
  else mret 0.

(** *** Frames on the user stack (arch_signal.c)

    [mapped va] tells whether the pages of a frame at [va] are mapped, so that
    [vm_copy_out] can copy it; [frame_size] is the size of a SignalFrame. *)
Section frames.
Context (mapped : Z → bool) (frame_size : Z).

(** [vm_user_assert] of vm.c, the first thing both copies do. *)
Definition INVALID_RANGE : string := "invalid va range".
Definition user_range (va : Z) : bool := negb ((VmArch.VIRT_KERNEL_BASE <=? va) || (u32 (va + frame_size) <? va)).

Definition PSR_M_MASK : Z := 31.
Definition PSR_M_USR : Z := 16.

(** The frames that a frame copied to [va] does not overwrite. *)
Definition without (va : Z) (m : gmap Z SignalFrame) : gmap Z SignalFrame := filter (λ e, frame_size ≤ Z.abs (e.1 - va)) m.

Definition arch_signal_prepare p (i : siginfo) (handler mask : Z) : sm pst Z :=
  t ← thread_of p NO_THREAD;
  h ← thread_at t;
  x ← proc_at p;
  let r := tf h in
  let ctx_va := u32 (tf_sp r - frame_size) in
  check (user_range ctx_va) INVALID_RANGE;;
  if negb (mapped ctx_va) then mret SIGKILL else
  upd_proc p (set_ustack (λ m, <[ctx_va := MkFrame handler i mask r]> (without ctx_va m)));;
  upd_thread t (set_tf (MkTf ctx_va ctx_va (tf_lr r) (signal_stub x) (tf_psr r)));;
  mret 0.

(** The frame and the value for r0; [ustack] has what [vm_copy_in] reads there, if
    it can.  A failed copy gives 1, the value of the comparison in
    [(r = vm_copy_in(..) < 0)]. *)
Definition arch_signal_return p : sm pst (Z * option (SignalFrame * Z)) :=
  t ← thread_of p NO_THREAD;
  h ← thread_at t;
  x ← proc_at p;
  check (user_range (tf_sp (tf h))) INVALID_RANGE;;
  match ustack x !! tf_sp (tf h) with
  | None => mret (1, None)
  | Some f =>
      if negb (Z.land (tf_psr (fr_regs f)) PSR_M_MASK =? PSR_M_USR) then mret (- EINVAL, None) else
      upd_thread t (set_tf (fr_regs f));;
      mret (0, Some (f, tf_r0 (fr_regs f)))
  end.

Definition signal_action_custom p s signo a : sm pst Z :=
  t ← thread_of p NULL;
  h ← thread_at t;
  i ← info_at s;
  r ← arch_signal_prepare p i (sa_handler a) (signal_mask h);
  if negb (r =? 0) then mret SIGKILL else
  upd_thread t (λ h, set_mask (Z.lor (signal_mask h) (sa_mask a)) h);;
  when (negb (Z.land (sa_flags a) SA_RESETHAND =? 0))
    (upd_proc p (set_actions <[Z.to_nat (SIGNAL_INDEX signo) := set_default a]>));;
  mret 0.

(** On an error the lock stays held. *)
Definition signal_return : sm pst Z :=
  p ← gets current;
  process_lock;;
  t ← thread_of p "Assertion failed: current->thread != NULL";
  '(r, o) ← arch_signal_return p;
  match o with
  | None => mret r
  | Some (f, ret) =>
      upd_thread t (set_mask (sigdelset (fr_mask f) SIGKILL));;
      process_unlock;;
      mret ret
  end.

End frames.

(** ** process.c *)

Definition NBUCKET : Z := 256.
Definition bucket (n : Z) : nat := Z.to_nat (u32 n mod NBUCKET).
Definition hash_put p (n : Z) (l : list (list nat)) : list (list nat) := alter (λ b, b ++ [p]) (bucket n) l.
Definition hash_remove p (l : list (list nat)) : list (list nat) := filter (.≠ p) <$> l.

Fixpoint find_pid (n : Z) (l : list nat) : sm pst (option nat) :=
  match l with
  | [] => mret None
  | p :: l => x ← proc_at p; if pid x =? n then mret (Some p) else find_pid n l
  end.
Definition pid_lookup (n : Z) : sm pst (option nat) :=
  b ← gets (λ w, pid_hash w !! bucket n); b ← need b BOUNDS; find_pid n b.

Definition OUT_OF_MEMORY : string := "out of memory".
Definition zero_tf : TrapFrame := MkTf 0 0 0 0 0.

(** The objects come from their pools with the contents they were freed with;
    [memory] tells whether a page for the kernel stack can be had.  Without a
    page, for the stack or for a pool that has to grow, [page_alloc_block] stops
    the kernel, so that the answer NULL is never given. *)
Definition process_alloc (memory : bool) : sm pst (option nat) :=
  tp ← gets thread_pool;
  pp ← gets process_pool;
  match tp, pp with
  | t :: tp, p :: pp =>
      check memory OUT_OF_MEMORY;;
      modify (set_pools pp tp);;
      upd_proc p (set_thread (Some t));;
      upd_thread t (λ h, set_tf zero_tf (set_t_process (Some p) h));;
      upd_proc p (λ x, set_children (λ _, []) (set_vm false (set_parent None (set_state ACTIVE (set_flags 0 x)))));;
      upd_proc p (λ x, set_ids (ids x) 0 (set_times 0 0 0 0 x));;
      n ← gets next_pid;
      let n := n + 1 in
      modify (set_next_pid n);;
      upd_proc p (set_pid n);;
      if 2 ^ 31 <=? n then stop "pid overflow" else
      modify (set_hash (hash_put p n));;
      with_files (Fd.fd_init p);;
      mret (Some p)
  | _, _ => stop OUT_OF_MEMORY
  end.

Definition process_free p : sm pst unit :=
  process_lock;;
  modify (set_list (filter (.≠ p)));;
  process_unlock;;
  modify (set_hash (hash_remove p));;
  x ← proc_at p;
  check (bool_decide (thread x = None)) "Assertion failed: process->thread == NULL";;
  l ← gets process_pool;
  l' ← gets thread_pool;
  modify (set_pools (p :: l) l').

(** Move the children to the init process; the answer tells whether one of
    them waits to be cleaned up. *)
Fixpoint reparent (fuel : nat) p (zombies : bool) : sm pst bool :=
  match fuel with
  | O => stop "out of fuel"
  | S fuel =>
      x ← proc_at p;
      i ← gets init_process;
      match children x with
      | [] => mret zombies
      | c :: l =>
          upd_proc p (set_children (λ _, l));;
          upd_proc c (set_parent (Some i));;
          upd_proc i (set_children (λ l, l ++ [c]));;
          y ← proc_at c;
          reparent fuel p (zombies || bool_decide (state y = ZOMBIE))
      end
  end.

Definition process_destroy (st : Z) : sm pst unit :=
  p ← gets current;
  modify (set_hash (hash_remove p));;
  with_files (Fd.fd_close_all p);;
  process_lock;;
  upd_proc p (λ x, set_ustack (λ _, ∅) (set_vm false x));;
  x ← proc_at p;
  z ← reparent (S (length (children x))) p false;
  i ← gets init_process;
  when z (modify (emit (WakeupAll i)));;
  upd_proc p (λ x, set_status st (set_flags (Z.lor (flags x) PROCESS_STATUS_AVAILABLE) (set_state ZOMBIE x)));;
  _signal_state_change_to_parent p;;
  t ← thread_of p NULL;
  upd_thread t (set_t_process None);;
  upd_proc p (set_thread None);;
  process_unlock;;
  modify (emit (Exit t)).

(** [vm_ok]: whether [vm_space_clone] returned an address space. *)
Definition process_copy (memory vm_ok : bool) : sm pst Z :=
  p ← gets current;
  o ← process_alloc memory;
  match o with
  | None => mret (- ENOMEM)
  | Some q =>
      x ← proc_at p;
      if negb vm_ok then process_free q;; mret (- ENOMEM) else
      upd_proc q (λ y, set_ustack (λ _, ustack x) (set_vm true y));;
      process_lock;;
      upd_proc q (set_parent (Some p));;
      t ← thread_of p NO_THREAD;
      u ← thread_of q NO_THREAD;
      h ← thread_at t;
      let r := tf h in
      upd_thread u (set_tf (MkTf 0 (tf_sp r) (tf_lr r) (tf_pc r) (tf_psr r)));;
      with_files (Fd.fd_clone p q);;
      signal_clone p q;;
      upd_proc q (λ y, set_ids (ids x) (ctty x) (set_pgid (pgid x) y));;
      modify (set_list (λ l, l ++ [q]));;
      upd_proc p (set_children (λ l, l ++ [q]));;
      process_unlock;;
      u ← thread_of q "Assertion failed: child->thread != NULL";
      modify (emit (Resume u));;
      y ← proc_at q;
      mret (pid y)
  end.

(** The init process.  [vm_ok]: whether there is an address space; [loaded]: the
    error of [process_load_binary], or the registers it sets.  A failing
    [process_setup_vm] gives 1, the value of the comparison in
    [(r = process_setup_vm(proc) < 0)]. *)
Definition process_create (memory vm_ok : bool) (loaded : Z + TrapFrame) : sm pst (Z * option nat) :=
  o ← process_alloc memory;
  match o with
  | None => mret (- ENOMEM, None)
  | Some p =>
      if negb vm_ok then process_free p;; mret (1, None) else
      upd_proc p (set_vm true);;
      match loaded with
      | inl r => process_free p;; mret (r, None)
      | inr f =>
          t ← thread_of p NULL;
          upd_thread t (set_tf f);;
          upd_proc p (λ x, set_ids (0, 0, 0, 0, 0) (ctty x) (set_pgid 0 x));;
          process_lock;;
          modify (set_list (λ l, l ++ [p]));;
          process_unlock;;
          modify (emit (Resume t));;
          mret (0, Some p)
      end
  end.

Definition WNOHANG : Z := 1.
Definition WUNTRACED : Z := 2.

(** One pass of [process_wait] over the children: the caller's answer with the
    status stored, or the decision to sleep on the process's wait queue. *)
Inductive wait_result := Waited (r : Z) (stat : option Z) | Sleeps.

Fixpoint wait_loop p (l : list nat) (pid' options match_ : Z) : sm pst wait_result :=
  match l with
  | [] =>
      process_unlock;;
      mret (if match_ =? 0 then Waited (- ECHILD) None
            else if negb (Z.land options WNOHANG =? 0) then Waited 0 None else Sleeps)
  | q :: l =>
      b ← process_match_pid q pid';
      if negb b then wait_loop p l pid' options match_ else
      y ← proc_at q;
      let match_ := pid y in
      if (Z.land (flags y) PROCESS_STATUS_AVAILABLE =? 0)
         || (bool_decide (state y = STOPPED) && (Z.land options WUNTRACED =? 0))
         || bool_decide (state y = ACTIVE)
      then wait_loop p l pid' options match_ else
      upd_proc q (set_flags (Z.ldiff (flags y) PROCESS_STATUS_AVAILABLE));;
      (if bool_decide (state y = ZOMBIE) then
         upd_proc p (set_children (filter (.≠ q)));;
         modify (set_list (filter (.≠ q)));;
         upd_proc p (λ x, set_times (utime x) (stime x) (cutime x + utime y) (cstime x + stime y) x);;
         process_unlock;;
         process_free q
       else process_unlock);;
      mret (Waited match_ (Some (status y)))
  end.
Definition process_wait (pid' options : Z) : sm pst wait_result :=
  if negb (Z.land options (Z.lnot (Z.lor WNOHANG WUNTRACED)) =? 0) then mret (Waited (- EINVAL) None) else
  p ← gets current;
  process_lock;;
  x ← proc_at p;
  wait_loop p (children x) pid' options 0.
(** After the sleep: [None] is another pass. *)
Definition process_wait_woken (r options : Z) : option Z :=
  if negb (r =? 0) && (negb (r =? - EINTR) || negb (Z.land options WNOHANG =? 0)) then Some r else None.

Definition process_get_gid (n : Z) : sm pst Z :=
  c ← gets current;
  if n =? 0 then x ← proc_at c; mret (pgid x) else
  if n <? 0 then mret (- EINVAL) else
  process_lock;;
  o ← pid_lookup n;
  r ← match o with None => mret (- ESRCH) | Some p => x ← proc_at p; mret (pgid x) end;
  process_unlock;;
  mret r.

Definition process_set_gid (n g : Z) : sm pst Z :=
  c ← gets current;
  x ← proc_at c;
  let n := if n =? 0 then pid x else n in
  let g := if g =? 0 then pgid x else g in
  if g <? 0 then mret (- EINVAL) else
  process_lock;;
  o ← pid_lookup n;
  r ← match o with None => mret (- ESRCH) | Some p => upd_proc p (set_pgid g);; mret 0 end;
  process_unlock;;
  mret r.

Definition process_update_times p (user system : Z) : sm pst unit :=
  process_lock;;
  upd_proc p (λ x, set_times (utime x + user) (stime x + system) (cutime x) (cstime x) x);;
  process_unlock.

Definition process_get_times p : sm pst (Z * Z * Z * Z) :=
  process_lock;;
  x ← proc_at p;
  process_unlock;;
  mret (utime x, stime x, cutime x, cstime x).

Definition thread_on_destroy t : sm pst unit := modify (set_destroy_list (λ l, l ++ [t])).

(** The idle task returns the objects of dead threads to their pool. *)
Fixpoint idle_loop (l : list nat) : sm pst unit :=
  match l with
  | [] => mret tt
  | t :: l =>
      modify (set_destroy_list (λ _, l));;
      pp ← gets process_pool;
      tp ← gets thread_pool;
      modify (set_pools pp (t :: tp));;
      idle_loop l
  end.
Definition thread_idle : sm pst unit := l ← gets thread_destroy_list; idle_loop l.

(** ** Delivery *)

Definition signal_deliver_pending (mapped : Z → bool) (frame_size : Z) : sm pst unit :=
  p ← gets current;
  process_lock;;
  o ← signal_dequeue p;
  match o with
  | None => process_unlock
  | Some s =>
      i ← info_at s;
      let signo := si_signo i in
      x ← proc_at p;
      a ← need (at_index (signal_actions x) (SIGNAL_INDEX signo)) BOUNDS;
      exit_code ← (if sa_handler a =? SIG_DFL then signal_action_default p signo
                   else if sa_handler a =? SIG_IGN then stop IGNORED
                   else signal_action_custom mapped frame_size p s signo a);
      signal_free s;;
      process_unlock;;
      when (negb (exit_code =? 0)) (process_destroy exit_code)
  end.

End Process.
