(* ===== verification/Signals.v ===== *)
(** Signals: the invariant of a process's queue, and what each operation of
    signal.c does to it. *)

From S2P Require Import Prelude StateM Fd Process.
Import Process.
#[local] Open Scope Z_scope.

Module Signals.

Implicit Types (p q : nat) (t : nat) (s : nat) (w : pst) (signo : Z) (x y : Process) (h k : Thread) (a : sigaction).
Implicit Types (I : gmap nat siginfo) (P : list nat).

(** Signal [signo] is pending, as the object [s]. *)
Definition is_pend h signo s : Prop :=
  1 ≤ signo ≤ NSIG ∧ signal_pending h !! Z.to_nat (SIGNAL_INDEX signo) = Some (Some s).
Definition pends h signo : Prop := ∃ s, is_pend h signo s.

(** The queue holds one object for each pending signal, none of them ignored;
    a continue signal and a stop signal are never pending together, nor a
    continue signal with the process stopped. *)
Record sig_ok I x h : Prop := {
  so_len : length (signal_pending h) = Z.to_nat NSIG;
  so_act : length (signal_actions x) = Z.to_nat NSIG;
  so_nodup : NoDup (signal_queue h);
  so_both s : s ∈ signal_queue h ↔ ∃ signo, is_pend h signo s;
  so_info signo s : is_pend h signo s → ∃ i, I !! s = Some i ∧ si_signo i = signo;
  so_ignored signo a : pends h signo → signal_actions x !! Z.to_nat (SIGNAL_INDEX signo) = Some a → ignored_by a signo = false;
  so_cont : pends h SIGCONT → state x ≠ STOPPED ∧ ∀ signo, signal_is_stop signo = true → ¬ pends h signo;
  so_dfl signo a : signal_can_be_ignored signo = false → signal_actions x !! Z.to_nat (SIGNAL_INDEX signo) = Some a → sa_handler a = SIG_DFL }.

(** An operation that changes only one process: its descriptor, its thread, the
    signal objects. *)
Definition put w p t x h I P (L : list event) : pst :=
  MkPst (<[p := x]> (procs w)) (<[t := h]> (threads w)) I (process_list w) (pid_hash w) (next_pid w) (init_process w) (current w)
    (process_pool w) (thread_pool w) P (thread_destroy_list w) (locked w) (files w) L.

(** Where a process is: its descriptor and its thread. *)
Definition at_ w p t x h : Prop := procs w !! p = Some x ∧ thread x = Some t ∧ threads w !! t = Some h.

Lemma put_id w p t x h : at_ w p t x h → put w p t x h (infos w) (signal_pool w) (log w) = w.
Proof. intros (Hp & _ & Ht). destruct w. unfold put. simpl in *. by rewrite !insert_id. Qed.

Lemma put_put w p t x h I P L x' h' I' P' L' : put (put w p t x h I P L) p t x' h' I' P' L' = put w p t x' h' I' P' L'.
Proof. unfold put. simpl. by rewrite !insert_insert_eq. Qed.

Lemma at_put w p t x h I P L : thread x = Some t → at_ (put w p t x h I P L) p t x h.
Proof. intros Hx. split; [apply lookup_insert_eq|]. split; [done|]. apply lookup_insert_eq. Qed.

Section steps.
Context (E : string → Prop).

Lemma proc_at_ok w p x (Q : Process → pst → Prop) : procs w !! p = Some x → Q x w → swp (proc_at p) w E Q.
Proof. intros Hp HQ. unfold proc_at. apply swp_bind, swp_gets, swp_need; [congruence|]. intros y Hy. by simplify_eq. Qed.

Lemma thread_at_ok w t h (Q : Thread → pst → Prop) : threads w !! t = Some h → Q h w → swp (thread_at t) w E Q.
Proof. intros Hp HQ. unfold thread_at. apply swp_bind, swp_gets, swp_need; [congruence|]. intros y Hy. by simplify_eq. Qed.

Lemma thread_of_ok w p x t why (Q : nat → pst → Prop) : procs w !! p = Some x → thread x = Some t → Q t w → swp (thread_of p why) w E Q.
Proof. intros Hp Ht HQ. unfold thread_of. apply swp_bind. eapply proc_at_ok; [done|]. apply swp_need; [congruence|]. intros y Hy. by simplify_eq. Qed.

Lemma upd_proc_ok w p t x h f (Q : unit → pst → Prop) :
  at_ w p t x h → Q tt (put w p t (f x) h (infos w) (signal_pool w) (log w)) → swp (upd_proc p f) w E Q.
Proof.
  intros (Hp & Hx & Ht) HQ. unfold upd_proc. apply swp_bind. eapply proc_at_ok; [done|]. apply swp_modify.
  unfold put in HQ. by rewrite (insert_id (threads w)) in HQ.
Qed.

Lemma upd_thread_ok w p t x h f (Q : unit → pst → Prop) :
  at_ w p t x h → Q tt (put w p t x (f h) (infos w) (signal_pool w) (log w)) → swp (upd_thread t f) w E Q.
Proof.
  intros (Hp & Hx & Ht) HQ. unfold upd_thread. apply swp_bind. eapply thread_at_ok; [done|]. apply swp_modify.
  unfold put in HQ. by rewrite (insert_id (procs w)) in HQ.
Qed.

Lemma p_holding_ok w why (Q : unit → pst → Prop) : locked w = true → Q tt w → swp (holding why) w E Q.
Proof. intros Hl HQ. unfold holding. apply swp_bind, swp_gets, swp_check; congruence. Qed.

Lemma at_index_ok {A} (l : list A) signo : 1 ≤ signo ≤ NSIG → at_index l (SIGNAL_INDEX signo) = l !! Z.to_nat (SIGNAL_INDEX signo).
Proof. intros H. unfold at_index, SIGNAL_INDEX. by rewrite (proj2 (Z.ltb_ge _ _)) by lia. Qed.

Lemma pending_at_ok w t h signo (Q : option nat → pst → Prop) :
  threads w !! t = Some h → length (signal_pending h) = Z.to_nat NSIG → 1 ≤ signo ≤ NSIG →
  (∀ o, signal_pending h !! Z.to_nat (SIGNAL_INDEX signo) = Some o → Q o w) → swp (pending_at t signo) w E Q.
Proof.
  intros Ht Hl Hs HQ. unfold pending_at. apply swp_bind. eapply thread_at_ok; [done|]. rewrite at_index_ok by done.
  apply swp_need; [|done]. intros Hge%lookup_ge_None_1. unfold SIGNAL_INDEX, NSIG in *. lia.
Qed.

End steps.

(** *** Taking a signal off the queue *)

Definition clear signo h : Thread :=
  match signal_pending h !! Z.to_nat (SIGNAL_INDEX signo) with
  | Some (Some s) => set_queue (filter (.≠ s)) (set_pending <[Z.to_nat (SIGNAL_INDEX signo) := None]> h)
  | _ => h
  end.

Lemma sig_index_inj signo signo' : 1 ≤ signo → 1 ≤ signo' → Z.to_nat (SIGNAL_INDEX signo) = Z.to_nat (SIGNAL_INDEX signo') → signo = signo'.
Proof. unfold SIGNAL_INDEX. lia. Qed.

Lemma is_pend_inj I x h signo signo' s : sig_ok I x h → is_pend h signo s → is_pend h signo' s → signo = signo'.
Proof. intros O H1 H2. destruct (so_info _ _ _ O _ _ H1) as (i & Hi & <-). destruct (so_info _ _ _ O _ _ H2) as (j & Hj & <-). congruence. Qed.

Lemma clear_pend I x h signo signo' s :
  sig_ok I x h → 1 ≤ signo ≤ NSIG → is_pend (clear signo h) signo' s ↔ is_pend h signo' s ∧ signo' ≠ signo.
Proof.
  intros O Hs. unfold clear. destruct (signal_pending h !! Z.to_nat (SIGNAL_INDEX signo)) as [[s0|]|] eqn:Ep.
  - unfold is_pend. simpl. split.
    + intros [Hr Hp]. destruct (decide (signo' = signo)) as [->|Hne].
      * rewrite list_lookup_insert_eq in Hp by (by apply lookup_lt_Some in Ep). done.
      * rewrite list_lookup_insert_ne in Hp by (intros ?%sig_index_inj; lia || congruence). done.
    + intros [[Hr Hp] Hne]. split; [done|]. rewrite list_lookup_insert_ne; [done|]. intros ?%sig_index_inj; lia || congruence.
  - split; [|by intros [? _]]. intros H. split; [done|]. intros ->. destruct H as [_ H]. congruence.
  - split; [|by intros [? _]]. intros H. split; [done|]. intros ->. destruct H as [_ H]. congruence.
Qed.

Lemma clear_queue I x h signo s :
  sig_ok I x h → 1 ≤ signo ≤ NSIG → s ∈ signal_queue (clear signo h) ↔ s ∈ signal_queue h ∧ ¬ is_pend h signo s.
Proof.
  intros O Hs. unfold clear. destruct (signal_pending h !! Z.to_nat (SIGNAL_INDEX signo)) as [[s0|]|] eqn:Ep.
  - simpl. rewrite list_elem_of_filter. split.
    + intros [Hne Hq]. split; [done|]. intros [_ H]. congruence.
    + intros [Hq Hn]. split; [|done]. intros ->. by destruct Hn.
  - split; [|by intros [? _]]. intros H. split; [done|]. intros [_ ?]. congruence.
  - split; [|by intros [? _]]. intros H. split; [done|]. intros [_ ?]. congruence.
Qed.

Lemma clear_ok I x h signo : sig_ok I x h → 1 ≤ signo ≤ NSIG → sig_ok I x (clear signo h) ∧ ¬ pends (clear signo h) signo.
Proof.
  intros O Hs. assert (Hp : ∀ signo' s, is_pend (clear signo h) signo' s ↔ is_pend h signo' s ∧ signo' ≠ signo) by (intros; by eapply clear_pend).
  assert (Hps : ∀ signo', pends (clear signo h) signo' ↔ pends h signo' ∧ signo' ≠ signo).
  { intros signo'. unfold pends. setoid_rewrite Hp. naive_solver. }
  split; [|rewrite Hps; tauto]. split.
  - rewrite <- (so_len _ _ _ O). unfold clear. case_match; [|done]. case_match; [|done]. simpl. by rewrite length_insert.
  - apply (so_act _ _ _ O).
  - pose proof (so_nodup _ _ _ O) as Hn. unfold clear. case_match; [|done]. case_match; [|done]. simpl. by apply NoDup_filter.
  - intros s. rewrite (clear_queue I x h) by done. rewrite (so_both _ _ _ O). setoid_rewrite Hp. split.
    + intros [[signo' Hp'] Hn]. exists signo'. split; [done|]. intros ->. done.
    + intros (signo' & Hp' & Hne). split; [eauto|]. intros Hp2. apply Hne. by eapply is_pend_inj.
  - intros signo' s [Hp' _]%Hp. by apply (so_info _ _ _ O).
  - intros signo' a [H _]%Hps. by apply (so_ignored _ _ _ O).
  - intros [H _]%Hps. destruct (so_cont _ _ _ O H) as [? Hst]. split; [done|]. intros signo' H' [? _]%Hps. by apply (Hst signo').
  - apply (so_dfl _ _ _ O).
Qed.

Lemma clear_subset I x h signo : sig_ok I x h → 1 ≤ signo ≤ NSIG → ∀ s, s ∈ signal_queue (clear signo h) → s ∈ signal_queue h.
Proof. intros O Hs s H. by apply (clear_queue I x h signo s O Hs) in H as [? _]. Qed.

Lemma clear_same signo h : t_process (clear signo h) = t_process h ∧ tf (clear signo h) = tf h ∧ signal_mask (clear signo h) = signal_mask h.
Proof. unfold clear. case_match; [|done]. by case_match. Qed.

Lemma discard_ok E w p t x h signo (Q : unit → pst → Prop) :
  at_ w p t x h → length (signal_pending h) = Z.to_nat NSIG → 1 ≤ signo ≤ NSIG →
  Q tt (put w p t x (clear signo h) (infos w) (signal_pool w) (log w)) → swp (signal_discard p signo) w E Q.
Proof.
  intros Ha Hl Hs HQ. pose proof Ha as (Hp & Hx & Ht). unfold signal_discard. apply swp_bind. eapply thread_of_ok; [done..|].
  apply swp_bind. eapply pending_at_ok; [done|done|done|]. intros o Ho. unfold clear in HQ. rewrite Ho in HQ. destruct o as [s|].
  - apply swp_bind. unfold put_pending. eapply upd_thread_ok; [exact Ha|].
    eapply upd_thread_ok; [by apply at_put|]. rewrite put_put. exact HQ.
  - apply swp_ret. by rewrite put_id in HQ.
Qed.

(** *** Generating a signal *)

Definition enqueue signo s h : Thread :=
  set_pending <[Z.to_nat (SIGNAL_INDEX signo) := Some s]> (set_queue (λ l, l ++ [s]) h).

Lemma enqueue_pend h signo s signo' s' :
  length (signal_pending h) = Z.to_nat NSIG → 1 ≤ signo ≤ NSIG →
  is_pend (enqueue signo s h) signo' s' ↔ (signo' = signo ∧ s' = s) ∨ (signo' ≠ signo ∧ is_pend h signo' s').
Proof.
  intros Hl Hs. unfold is_pend. simpl. destruct (decide (signo' = signo)) as [->|Hne].
  - rewrite list_lookup_insert_eq by (unfold SIGNAL_INDEX, NSIG in *; lia). naive_solver.
  - split.
    + intros [Hr Hp]. rewrite list_lookup_insert_ne in Hp by (intros ?%sig_index_inj; lia || congruence). naive_solver.
    + intros [[? _]|[_ [Hr Hp]]]; [done|]. split; [done|]. rewrite list_lookup_insert_ne; [done|]. intros ?%sig_index_inj; lia || congruence.
Qed.

(** What must hold to queue [signo] next to the signals pending in [h]. *)
Definition may_queue x h signo : Prop :=
  ¬ pends h signo ∧ (signal_is_stop signo = true → ¬ pends h SIGCONT) ∧
  (signo = SIGCONT → state x ≠ STOPPED ∧ ∀ signo', signal_is_stop signo' = true → ¬ pends h signo').

Lemma sig_enqueue_ok I x h signo s i a :
  sig_ok I x h → 1 ≤ signo ≤ NSIG → si_signo i = signo → s ∉ signal_queue h → may_queue x h signo →
  signal_actions x !! Z.to_nat (SIGNAL_INDEX signo) = Some a → ignored_by a signo = false →
  sig_ok (<[s := i]> I) x (enqueue signo s h).
Proof.
  intros O Hs Hi Hq (Hn & Hstop & Hcont) Ha Hig.
  assert (Hp : ∀ signo' s', is_pend (enqueue signo s h) signo' s' ↔ (signo' = signo ∧ s' = s) ∨ (signo' ≠ signo ∧ is_pend h signo' s'))
    by (intros; apply enqueue_pend; [apply (so_len _ _ _ O)|done]).
  assert (Hps : ∀ signo', pends (enqueue signo s h) signo' → signo' = signo ∨ pends h signo').
  { intros signo' [s' H]. apply Hp in H as [[-> _]|[_ ?]]; [by left|right; by eexists]. }
  split.
  - simpl. rewrite length_insert. apply (so_len _ _ _ O).
  - apply (so_act _ _ _ O).
  - simpl. apply NoDup_app. split; [apply (so_nodup _ _ _ O)|]. split; [|apply NoDup_singleton]. intros s' Hs' ->%list_elem_of_singleton. done.
  - intros s'. simpl. rewrite elem_of_app, list_elem_of_singleton, (so_both _ _ _ O). setoid_rewrite Hp. split.
    + intros [[signo' H']| ->]; [|exists signo; by left]. exists signo'. right. split; [|done]. intros ->. apply Hn. by eexists.
    + intros [signo' [[-> ->]|[_ ?]]]; [by right|left; by eexists].
  - intros signo' s' [[-> ->]|[Hne H']]%Hp; [exists i; by rewrite lookup_insert_eq|].
    rewrite lookup_insert_ne; [by apply (so_info _ _ _ O)|]. intros ->. apply Hq. apply (so_both _ _ _ O). by eexists.
  - intros signo' a' [->|H']%Hps; [congruence|]. by apply (so_ignored _ _ _ O).
  - intros H. assert (Hc : signo = SIGCONT ∨ (signo ≠ SIGCONT ∧ pends h SIGCONT)).
    { destruct H as [s' H]. apply Hp in H as [[<- _]|[Hne H']]; [by left|right]. split; [congruence|by eexists]. }
    destruct Hc as [->|[Hne Hc]].
    + destruct (Hcont eq_refl) as [? Hst]. split; [done|]. intros signo' H' [-> |?]%Hps; [done|]. by apply (Hst signo').
    + destruct (so_cont _ _ _ O Hc) as [? Hst]. split; [done|]. intros signo' H' [-> |?]%Hps; [by apply (Hstop H')|by apply (Hst signo')].
  - apply (so_dfl _ _ _ O).
Qed.

(** The signals a new one cancels. *)
Definition cancel signo h : Thread :=
  if signal_is_stop signo then clear SIGCONT h
  else if signo =? SIGCONT then clear SIGTTOU (clear SIGTTIN (clear SIGTSTP (clear SIGSTOP h)))
  else h.

Lemma in_range : 1 ≤ SIGCONT ≤ NSIG ∧ 1 ≤ SIGSTOP ≤ NSIG ∧ 1 ≤ SIGTSTP ≤ NSIG ∧ 1 ≤ SIGTTIN ≤ NSIG ∧ 1 ≤ SIGTTOU ≤ NSIG ∧ 1 ≤ SIGCHLD ≤ NSIG.
Proof. by vm_compute. Qed.

Lemma stop_cases signo : signal_is_stop signo = true → signo = SIGSTOP ∨ signo = SIGTSTP ∨ signo = SIGTTIN ∨ signo = SIGTTOU.
Proof. unfold signal_is_stop. rewrite !orb_true_iff, !Z.eqb_eq. tauto. Qed.

Lemma clear_pends I x h signo signo' : sig_ok I x h → 1 ≤ signo ≤ NSIG → pends (clear signo h) signo' ↔ pends h signo' ∧ signo' ≠ signo.
Proof. intros O Hs. unfold pends. setoid_rewrite (clear_pend I x h signo signo' _ O Hs). naive_solver. Qed.

Lemma cancel_ok I x h signo :
  sig_ok I x h → 1 ≤ signo ≤ NSIG → ¬ pends h signo → (signo = SIGCONT → state x ≠ STOPPED) →
  sig_ok I x (cancel signo h) ∧ may_queue x (cancel signo h) signo ∧ (∀ s, s ∈ signal_queue (cancel signo h) → s ∈ signal_queue h) ∧
  t_process (cancel signo h) = t_process h.
Proof.
  intros O Hs Hn Hst. destruct in_range as (Hc & H1 & H2 & H3 & H4 & _). unfold cancel, may_queue.
  destruct (signal_is_stop signo) eqn:Es.
  - destruct (clear_ok I x h SIGCONT O Hc) as [O' Hn']. split; [done|]. rewrite !(clear_pends I x) by done.
    split; [|split; [by apply (clear_subset I x)|apply clear_same]]. split; [tauto|]. split; [tauto|]. intros ->. done.
  - destruct (Z.eqb_spec signo SIGCONT) as [->|Hne].
    + destruct (clear_ok I x h _ O H1) as [O1 N1]. destruct (clear_ok I x _ _ O1 H2) as [O2 N2].
      destruct (clear_ok I x _ _ O2 H3) as [O3 N3]. destruct (clear_ok I x _ _ O3 H4) as [O4 N4].
      split; [done|]. split; [split; [|split; [done|]]|split].
      * rewrite !(clear_pends I x) by done. tauto.
      * intros _. split; [by apply Hst|]. intros signo' H'. rewrite !(clear_pends I x) by done.
        destruct (stop_cases _ H') as [->|[->|[->| ->]]]; tauto.
      * intros s' Hs'. do 4 (eapply (clear_subset I x) in Hs'; [|done..]). done.
      * by rewrite !(proj1 (clear_same _ _)).
    + split; [done|]. split; [|done]. split; [done|]. split; [done|]. done.
Qed.

(** [signal_generate_one] as a function on the process it is for. *)
Record sigs := MkSigs { g_thread : Thread; g_infos : gmap nat siginfo; g_pool : list nat; g_log : list event }.

Definition gen t x h I P (L : list event) signo (code : Z) : Z * sigs :=
  match signal_pending h !! Z.to_nat (SIGNAL_INDEX signo) with
  | Some (Some _) => (0, MkSigs h I P L)
  | _ =>
      let h := cancel signo h in
      if match signal_actions x !! Z.to_nat (SIGNAL_INDEX signo) with Some a => ignored_by a signo | None => true end
      then (0, MkSigs h I P L) else
      match P with
      | [] => (- ENOMEM, MkSigs h I P L)
      | s :: P =>
          let h' := enqueue signo s h in
          (0, MkSigs h' (<[s := MkInfo signo code 0]> I) P (if blocked_by h' signo then L else Wake t :: L))
      end
  end.

Definition putg w p t x (g : sigs) : pst := put w p t x (g_thread g) (g_infos g) (g_pool g) (g_log g).

Definition FLAGS : string := "Assertion failed: process->flags != 0".

Lemma ignored_ok E w p x signo (Q : bool → pst → Prop) :
  procs w !! p = Some x → length (signal_actions x) = Z.to_nat NSIG → 1 ≤ signo ≤ NSIG →
  (∀ a, signal_actions x !! Z.to_nat (SIGNAL_INDEX signo) = Some a → Q (ignored_by a signo) w) → swp (signal_is_ignored p signo) w E Q.
Proof.
  intros Hp Hl Hs HQ. unfold signal_is_ignored. apply swp_bind. eapply proc_at_ok; [done|]. apply swp_bind. rewrite at_index_ok by done.
  apply swp_need; [|intros a Ha; by apply swp_ret, HQ]. intros Hge%lookup_ge_None_1. unfold SIGNAL_INDEX, NSIG in *. lia.
Qed.

Lemma blocked_ok E w p t x h signo (Q : bool → pst → Prop) :
  at_ w p t x h → Q (blocked_by h signo) w → swp (signal_is_blocked p signo) w E Q.
Proof.
  intros (Hp & Hx & Ht) HQ. unfold signal_is_blocked. apply swp_bind. eapply thread_of_ok; [done..|]. apply swp_bind. eapply thread_at_ok; [done|].
  by apply swp_ret.
Qed.

(** The last part: the signal is queued unless it is ignored. *)
Lemma enqueue_code E w p t x h signo code (Q : Z → pst → Prop) :
  at_ w p t x h → sig_ok (infos w) x h → 1 ≤ signo ≤ NSIG →
  signal_pending h !! Z.to_nat (SIGNAL_INDEX signo) = Some None → cancel signo h = h →
  (let '(r, g) := gen t x h (infos w) (signal_pool w) (log w) signo code in Q r (putg w p t x g)) →
  swp (b ← signal_is_ignored p signo;
       if b : bool then mret 0 else
       o ← signal_create signo code 0;
       match o with
       | None => mret (- ENOMEM)
       | Some s =>
           upd_thread t (set_queue (λ l, l ++ [s]));;
           put_pending t signo (Some s);;
           b ← signal_is_blocked p signo;
           when (negb b) (modify (emit (Wake t)));;
           mret 0
       end) w E Q.
Proof.
  intros Ha O Hs Hpe Hca HQ. pose proof Ha as (Hp & Hx & Ht). unfold gen in HQ. rewrite Hpe, Hca in HQ.
  apply swp_bind. eapply ignored_ok; [done|apply (so_act _ _ _ O)|done|]. intros a Hact. rewrite Hact in HQ.
  destruct (ignored_by a signo); [apply swp_ret; unfold putg in HQ; simpl in HQ; by rewrite put_id in HQ|].
  unfold signal_create. apply swp_bind, swp_bind, swp_gets. destruct (signal_pool w) as [|s P] eqn:EP.
  { do 2 apply swp_ret. unfold putg in HQ. simpl in HQ. rewrite <- EP in HQ. by rewrite put_id in HQ. }
  apply swp_bind, swp_modify, swp_bind, swp_modify, swp_ret. apply swp_bind.
  set (w1 := set_infos _ _). assert (H1 : at_ w1 p t x h) by done.
  eapply upd_thread_ok; [exact H1|]. apply swp_bind. unfold put_pending. eapply upd_thread_ok; [by apply at_put|]. rewrite put_put.
  apply swp_bind. eapply blocked_ok; [by apply at_put|]. apply swp_bind. simpl.
  change (set_pending <[Z.to_nat (SIGNAL_INDEX signo):=Some s]> (set_queue (λ l, l ++ [s]) h)) with (enqueue signo s h).
  destruct (blocked_by (enqueue signo s h) signo); simpl; [by do 2 apply swp_ret|]. apply swp_modify, swp_ret. exact HQ.
Qed.

Lemma cancelled_pending I x h signo :
  sig_ok I x h → 1 ≤ signo ≤ NSIG → signal_pending h !! Z.to_nat (SIGNAL_INDEX signo) = Some None → (signo = SIGCONT → state x ≠ STOPPED) →
  sig_ok I x (cancel signo h) ∧ signal_pending (cancel signo h) !! Z.to_nat (SIGNAL_INDEX signo) = Some None ∧
  cancel signo (cancel signo h) = cancel signo h.
Proof.
  intros O Hs Hpe Hst. assert (Hn : ¬ pends h signo) by (intros (s & _ & H); congruence).
  destruct (cancel_ok I x h signo O Hs Hn Hst) as (O' & (Hn' & Hq1 & Hq2) & _). split; [done|].
  assert (Hnone : ∀ signo', 1 ≤ signo' ≤ NSIG → ¬ pends (cancel signo h) signo' → signal_pending (cancel signo h) !! Z.to_nat (SIGNAL_INDEX signo') = Some None).
  { intros signo' Hs' H. destruct (lookup_lt_is_Some_2 (signal_pending (cancel signo h)) (Z.to_nat (SIGNAL_INDEX signo'))) as [[s|] E].
    - rewrite (so_len _ _ _ O'). unfold SIGNAL_INDEX, NSIG in *. lia.
    - destruct H. exists s. by split.
    - done. }
  split; [by apply Hnone|]. destruct in_range as (Hc & H1 & H2 & H3 & H4 & _).
  assert (Hcl : ∀ signo', 1 ≤ signo' ≤ NSIG → ¬ pends (cancel signo h) signo' → clear signo' (cancel signo h) = cancel signo h).
  { intros signo' Hs' H. unfold clear. by rewrite Hnone. }
  unfold cancel at 1. destruct (signal_is_stop signo) eqn:Es; [by apply Hcl, Hq1|].
  destruct (Z.eqb_spec signo SIGCONT) as [->|]; [|done]. destruct (Hq2 eq_refl) as [_ H].
  rewrite !Hcl; (done || by apply H).
Qed.

Lemma generate_one_ok E fuel w p t x h signo code (Q : Z → pst → Prop) :
  at_ w p t x h → sig_ok (infos w) x h → locked w = true → 1 ≤ signo ≤ NSIG → vm x = true → flags x = 0 →
  (signo = SIGCONT → state x = STOPPED → E FLAGS) →
  (¬ (signo = SIGCONT ∧ state x = STOPPED) →
     let '(r, g) := gen t x h (infos w) (signal_pool w) (log w) signo code in Q r (putg w p t x g)) →
  swp (generate_one (S fuel) p signo code) w E Q.
Proof.
  intros Ha O Hlk Hs Hvm Hfl HE HQ. pose proof Ha as (Hp & Hx & Ht). destruct in_range as (Hc & H1 & H2 & H3 & H4 & _). cbn [generate_one].
  apply swp_bind, swp_check; [intros Hb; unfold NSIG in *; lia|]. intros _. apply swp_bind. eapply p_holding_ok; [done|].
  apply swp_bind. eapply thread_of_ok; [done..|]. apply swp_bind. eapply pending_at_ok; [done|apply (so_len _ _ _ O)|done|]. intros o Ho.
  destruct o as [s|].
  { apply swp_ret. unfold gen in HQ. rewrite Ho in HQ. unfold putg in HQ. simpl in HQ. rewrite put_id in HQ by done. apply HQ.
    intros [-> Hst]. destruct (so_cont _ _ _ O) as [? _]; [exists s; by split|done]. }
  apply swp_bind. assert (Hgo : ∀ w1, ¬ (signo = SIGCONT ∧ state x = STOPPED) → w1 = put w p t x (cancel signo h) (infos w) (signal_pool w) (log w) →
    swp (b ← signal_is_ignored p signo; if b : bool then mret 0 else o ← signal_create signo code 0;
       match o with
       | None => mret (- ENOMEM)
       | Some s => upd_thread t (set_queue (λ l, l ++ [s]));; put_pending t signo (Some s);; b ← signal_is_blocked p signo;
           when (negb b) (modify (emit (Wake t)));; mret 0
       end) w1 E Q).
  { intros w1 Hok ->. destruct (cancelled_pending (infos w) x h signo O Hs Ho) as (O' & Hpe & Hca); [intros -> ?; by apply Hok|].
    eapply enqueue_code; [by apply at_put|exact O'|done|exact Hpe|exact Hca|]. specialize (HQ Hok). unfold gen in *. rewrite Ho in HQ. rewrite Hpe, Hca.
    simpl. destruct (signal_actions x !! _) as [a|]; [destruct (ignored_by a signo); [|destruct (signal_pool w)]|];
      unfold putg in *; simpl in *; by rewrite put_put. }
  unfold cancel in Hgo. destruct (signal_is_stop signo) eqn:Es.
  { eapply discard_ok; [done|apply (so_len _ _ _ O)|done|]. apply Hgo; [|done]. intros [-> _]. done. }
  unfold when. destruct (Z.eqb_spec signo SIGCONT) as [->|Hne]; [|apply swp_ret, Hgo; [naive_solver|by rewrite put_id]].
  apply swp_bind. eapply discard_ok; [done|apply (so_len _ _ _ O)|done|]. destruct (clear_ok (infos w) x h SIGSTOP O H1) as [O1 _].
  apply swp_bind. eapply discard_ok; [by apply at_put|apply (so_len _ _ _ O1)|done|]. rewrite put_put. destruct (clear_ok _ x _ SIGTSTP O1 H2) as [O2 _].
  apply swp_bind. eapply discard_ok; [by apply at_put|apply (so_len _ _ _ O2)|done|]. rewrite put_put. destruct (clear_ok _ x _ SIGTTIN O2 H3) as [O3 _].
  apply swp_bind. eapply discard_ok; [by apply at_put|apply (so_len _ _ _ O3)|done|]. rewrite put_put. simpl.
  unfold process_continue. apply swp_bind. eapply proc_at_ok; [apply lookup_insert_eq|]. apply swp_bind, swp_check; [congruence|]. intros _.
  apply swp_bind. eapply p_holding_ok; [done|]. case_bool_decide as Est.
  - apply swp_when; [|done]. intros _. apply swp_bind. eapply upd_proc_ok; [by apply at_put|]. apply swp_bind, swp_check; [|by rewrite Hfl].
    intros _. by apply HE.
  - apply swp_when; [done|]. intros _. by apply Hgo; [intros [_ ?]|].
Qed.

(** *** Objects move between the pool and the queues *)

(** The pool and the queue of one process before and after an operation. *)
Record moves I P h I' P' h' : Prop := {
  mv_nodup : NoDup P';
  mv_apart s : s ∈ signal_queue h' → s ∉ P';
  mv_pool s : s ∈ P' → s ∈ P ∨ s ∈ signal_queue h;
  mv_queue s : s ∈ signal_queue h' → s ∈ signal_queue h ∨ s ∈ P;
  mv_infos s : s ∉ P → s ∉ signal_queue h → I' !! s = I !! s }.

Lemma moves_sub I P h h' : NoDup P → (∀ s, s ∈ signal_queue h → s ∉ P) → (∀ s, s ∈ signal_queue h' → s ∈ signal_queue h) → moves I P h I P h'.
Proof. intros Hn Ha Hs. split; auto. Qed.

Lemma gen_ok t x h I P L signo code :
  sig_ok I x h → 1 ≤ signo ≤ NSIG → NoDup P → (∀ s, s ∈ signal_queue h → s ∉ P) → (signo = SIGCONT → state x ≠ STOPPED) →
  let g := (gen t x h I P L signo code).2 in
  sig_ok (g_infos g) x (g_thread g) ∧ t_process (g_thread g) = t_process h ∧ moves I P h (g_infos g) (g_pool g) (g_thread g).
Proof.
  intros O Hs Hnd Hap Hst. unfold gen. destruct (lookup_lt_is_Some_2 (signal_pending h) (Z.to_nat (SIGNAL_INDEX signo))) as [o Ho].
  { rewrite (so_len _ _ _ O). unfold SIGNAL_INDEX, NSIG in *. lia. }
  rewrite Ho. destruct o as [s|]; simpl; [split; [done|]; split; [done|]; by apply moves_sub|].
  assert (Hn : ¬ pends h signo) by (intros (s & _ & H); congruence).
  destruct (cancel_ok I x h signo O Hs Hn Hst) as (O' & Hmay & Hsub & Htp).
  destruct (signal_actions x !! Z.to_nat (SIGNAL_INDEX signo)) as [a|] eqn:Ea; [|simpl; split; [done|]; split; [done|]; by apply moves_sub].
  destruct (ignored_by a signo) eqn:Ei; simpl; [split; [done|]; split; [done|]; by apply moves_sub|].
  destruct P as [|s P]; simpl; [split; [done|]; split; [done|]; by apply moves_sub|].
  assert (Hsq : s ∉ signal_queue h) by (intros H; apply (Hap s H); left).
  split; [|split; [done|]].
  - eapply sig_enqueue_ok; try done. intros H. by apply Hsq, Hsub.
  - apply NoDup_cons in Hnd as [HsP Hnd]. split; simpl.
    + done.
    + intros s' [H|H%list_elem_of_singleton]%elem_of_app Hin; [|by subst]. apply (Hap s'); [by apply Hsub|by right].
    + intros s' H. left. by right.
    + intros s' [H|H%list_elem_of_singleton]%elem_of_app; [left; by apply Hsub|right; subst; left].
    + intros s' H1 H2. rewrite lookup_insert_ne; [done|]. intros ->. apply H1. left.
Qed.

(** *** Changes to a process that keep its signals in order *)

Lemma sig_ok_action I x h signo a :
  sig_ok I x h → 1 ≤ signo ≤ NSIG → (pends h signo → ignored_by a signo = false) → (signal_can_be_ignored signo = false → sa_handler a = SIG_DFL) →
  sig_ok I (set_actions <[Z.to_nat (SIGNAL_INDEX signo) := a]> x) h.
Proof.
  intros [Ol Oa On Ob Oi Og Oc Od] Hs Hig Hdf. split; simpl; try done.
  - by rewrite length_insert.
  - intros signo' a' Hp. destruct (decide (signo' = signo)) as [->|Hne].
    + rewrite list_lookup_insert_eq by (unfold SIGNAL_INDEX, NSIG in *; lia). intros [= <-]. by apply Hig.
    + rewrite list_lookup_insert_ne; [by apply Og|]. destruct Hp as (s & Hr & _). intros ?%sig_index_inj; lia || congruence.
  - intros signo' a' Hc. destruct (decide (signo' = signo)) as [->|Hne].
    + rewrite list_lookup_insert_eq by (unfold SIGNAL_INDEX, NSIG in *; lia). intros [= <-]. by apply Hdf.
    + rewrite list_lookup_insert_ne; [by apply Od|]. intros ?%sig_index_inj; [congruence|lia|].
      unfold signal_can_be_ignored in Hc. apply andb_false_iff in Hc as [?%negb_false_iff%Z.eqb_eq|?%negb_false_iff%Z.eqb_eq]; subst; done.
Qed.

(** The fields of a process and of a thread that the signals do not depend on. *)
Lemma sig_ok_ext I x x' h h' :
  sig_ok I x h → signal_actions x' = signal_actions x → (state x' = STOPPED → state x = STOPPED ∨ ¬ pends h SIGCONT) →
  signal_pending h' = signal_pending h → signal_queue h' = signal_queue h → sig_ok I x' h'.
Proof.
  intros [Ol Oa On Ob Oi Og Oc Od] Ha Hst Hp Hq.
  assert (He : ∀ signo s, is_pend h' signo s ↔ is_pend h signo s) by (intros; unfold is_pend; by rewrite Hp).
  assert (Hes : ∀ signo, pends h' signo ↔ pends h signo) by (intros; unfold pends; by setoid_rewrite He).
  split; rewrite ?Hp, ?Hq, ?Ha; try done.
  - intros s. rewrite Ob. by setoid_rewrite He.
  - intros signo s ?%He. by apply Oi.
  - intros signo a ?%Hes. by apply Og.
  - intros H%Hes. destruct (Oc H) as [? Hs]. split; [naive_solver|]. intros signo H' ?%Hes. by apply (Hs signo).
Qed.

Lemma sig_ok_reset I x h m :
  sig_ok I x h →
  sig_ok I (set_actions (fmap set_default) x) (MkThread (t_process h) (tf h) no_pending [] m).
Proof.
  intros [Ol Oa On Ob Oi Og Oc Od].
  assert (Hn : ∀ signo s, ¬ is_pend (MkThread (t_process h) (tf h) no_pending [] m) signo s).
  { intros signo s [_ H]. simpl in H. by apply lookup_replicate in H as [? _]. }
  split; simpl; try done.
  - by rewrite length_fmap.
  - constructor.
  - intros s. split; [by intros ?%not_elem_of_nil|]. intros [signo H]. by destruct (Hn signo s).
  - intros signo s H. by destruct (Hn signo s).
  - intros signo a [s H]. by destruct (Hn signo s).
  - intros [s H]. by destruct (Hn SIGCONT s).
  - intros signo a _. rewrite list_lookup_fmap. intros (b & _ & ->)%fmap_Some. done.
Qed.

End Signals.
