(* ===== verification/ProcessInv.v ===== *)
(** The process table: its invariant, and that every operation of process.c and
    signal.c preserves it. *)

From S2P Require Import Prelude StateM Fd Process Signals.
Import Process Signals.
#[local] Open Scope Z_scope.

Module ProcessInv.

Implicit Types (p q c : nat) (t u : nat) (s : nat) (w : pst) (signo : Z) (x y : Process) (h k : Thread) (a : sigaction).
Implicit Types (I : gmap nat siginfo) (P : list nat).

Definition live w p t x h : Prop := p ∈ process_list w ∧ at_ w p t x h.
Definition alive w p : Prop := ∃ t x h, live w p t x h.

(** A process that runs or is stopped has a thread and an address space; one
    that has ended keeps its descriptor for the parent.  [ex] is a process on
    its way from the one to the other. *)
Definition proc_ok (ex : option nat) w p x : Prop :=
  match thread x with
  | Some t => ∃ h, threads w !! t = Some h ∧ t_process h = Some p ∧ sig_ok (infos w) x h ∧
      (ex ≠ Some p → state x ≠ ZOMBIE ∧ vm x = true ∧ flags x = 0)
  | None => state x = ZOMBIE ∧ flags x = PROCESS_STATUS_AVAILABLE
  end.

(** Parents and children point at each other; parents are alive. *)
Definition family_ok w p x : Prop :=
  (∀ q, parent x = Some q → q ≠ p ∧ alive w q ∧ ∃ y, procs w !! q = Some y ∧ p ∈ children y) ∧
  NoDup (children x) ∧ (∀ c, c ∈ children x → c ∈ process_list w ∧ ∃ y, procs w !! c = Some y ∧ parent y = Some p).

(** A thread object no process uses. *)
Definition unused w t : Prop := ∃ h, threads w !! t = Some h ∧ ∀ p x, procs w !! p = Some x → thread x ≠ Some t.

Record files_ok w : Prop := {
  f_wf : ∃ ext, Fd.wf ext (files w);
  f_open p x : procs w !! p = Some x → thread x ≠ None → is_Some (Fd.tables (files w) !! p);
  f_closed p x tb : procs w !! p = Some x → thread x = None → Fd.tables (files w) !! p = Some tb → Fd.all_free tb }.

(** What the pid table and the uniqueness of pids depend on. *)
Definition key x : option nat * Z := (thread x, pid x).
Definition same_keys w w' : Prop := ∀ p, key <$> procs w' !! p = key <$> procs w !! p.

Definition pids_ok w : Prop :=
  ∀ p q x y, p ∈ process_list w → q ∈ process_list w → procs w !! p = Some x → procs w !! q = Some y → pid x = pid y → p = q.

(** The pid table holds the processes that have a thread, each in the bucket of
    its pid; the process [ex] that ends has left it. *)
Definition hash_ok (ex : option nat) w : Prop :=
  length (pid_hash w) = Z.to_nat NBUCKET ∧
  (∀ b l p, pid_hash w !! b = Some l → p ∈ l → ex ≠ Some p ∧ ∃ x, procs w !! p = Some x ∧ thread x ≠ None ∧ b = bucket (pid x)) ∧
  (∀ p x, procs w !! p = Some x → thread x ≠ None → ex ≠ Some p → ∃ l, pid_hash w !! bucket (pid x) = Some l ∧ p ∈ l).

Lemma keys_lookup w w' p x : same_keys w w' → procs w !! p = Some x → ∃ y, procs w' !! p = Some y ∧ thread y = thread x ∧ pid y = pid x.
Proof. intros H Hp. specialize (H p). rewrite Hp in H. simpl in H. apply fmap_Some in H as (y & Hy & [= ? ?]). eauto. Qed.

Lemma keys_lookup' w w' p y : same_keys w w' → procs w' !! p = Some y → ∃ x, procs w !! p = Some x ∧ thread y = thread x ∧ pid y = pid x.
Proof. intros H Hp. specialize (H p). rewrite Hp in H. simpl in H. symmetry in H. apply fmap_Some in H as (x & Hx & [= ? ?]). eauto. Qed.

Lemma keys_insert w p x x' : procs w !! p = Some x → thread x' = thread x → pid x' = pid x → ∀ w', procs w' = <[p := x']> (procs w) → same_keys w w'.
Proof. intros Hp Ht Hn w' Hw q. rewrite Hw, lookup_insert. case_decide; [|done]. subst. rewrite Hp. simpl. unfold key. by rewrite Ht, Hn. Qed.

Lemma pids_ok_ext w w' : process_list w' = process_list w → same_keys w w' → pids_ok w → pids_ok w'.
Proof.
  intros Hl K H p q x y. rewrite Hl. intros Hp Hq (x0 & Hx0 & _ & ->)%(keys_lookup' _ _ _ _ K) (y0 & Hy0 & _ & ->)%(keys_lookup' _ _ _ _ K). by eapply H.
Qed.

Lemma hash_ok_ext ex w w' : pid_hash w' = pid_hash w → same_keys w w' → hash_ok ex w → hash_ok ex w'.
Proof.
  intros Hh K (Hl & H1 & H2). unfold hash_ok. rewrite Hh. split; [done|]. split.
  - intros b l p Hb Hp. destruct (H1 b l p Hb Hp) as (He & x & Hx & Ht & Eb). split; [done|]. destruct (keys_lookup _ _ _ _ K Hx) as (y & Hy & Et & En). exists y. by rewrite Et, En.
  - intros p y Hy Ht He. destruct (keys_lookup' _ _ _ _ K Hy) as (x & Hx & Et & En). rewrite Et in Ht. rewrite En. by apply H2.
Qed.

Record inv_but (ex : option nat) w : Prop := {
  v_nodup : NoDup (process_list w);
  v_proc p : p ∈ process_list w → ∃ x, procs w !! p = Some x ∧ proc_ok ex w p x ∧ family_ok w p x ∧ 1 ≤ pid x ≤ next_pid w;
  v_apart p q t u x y h k s : live w p t x h → live w q u y k → p ≠ q → s ∈ signal_queue h → s ∉ signal_queue k;
  v_pool_nodup : NoDup (signal_pool w);
  v_pool p t x h s : live w p t x h → s ∈ signal_queue h → s ∉ signal_pool w;
  v_threads_nodup : NoDup (thread_pool w ++ thread_destroy_list w);
  v_threads t : t ∈ thread_pool w ++ thread_destroy_list w → unused w t;
  v_procs_nodup : NoDup (process_pool w);
  v_procs p : p ∈ process_pool w → p ∉ process_list w ∧ ∃ x, procs w !! p = Some x ∧ thread x = None;
  v_unlisted p x t : procs w !! p = Some x → thread x = Some t → p ∈ process_list w;
  v_init : alive w (init_process w) ∧ ∀ x, procs w !! init_process w = Some x → parent x = None;
  v_hash : hash_ok ex w;
  v_pids : pids_ok w;
  v_files : files_ok w;
  v_next : 0 ≤ next_pid w }.
Arguments v_nodup {ex} _ _.
Arguments v_proc {ex} _ _.
Arguments v_apart {ex} _ _.
Arguments v_pool_nodup {ex} _ _.
Arguments v_pool {ex} _ _.
Arguments v_threads_nodup {ex} _ _.
Arguments v_threads {ex} _ _.
Arguments v_procs_nodup {ex} _ _.
Arguments v_procs {ex} _ _.
Arguments v_unlisted {ex} _ _.
Arguments v_init {ex} _ _.
Arguments v_hash {ex} _ _.
Arguments v_pids {ex} _ _.
Arguments v_files {ex} _ _.
Arguments v_next {ex} _ _.
Notation inv := (inv_but None).

Lemma live_ok ex w p t x h : inv_but ex w → live w p t x h → ex ≠ Some p →
  t_process h = Some p ∧ sig_ok (infos w) x h ∧ state x ≠ ZOMBIE ∧ vm x = true ∧ flags x = 0 ∧ family_ok w p x ∧ 1 ≤ pid x ≤ next_pid w.
Proof.
  intros V (Hin & Hp & Hx & Ht) He. destruct (v_proc _ V p Hin) as (x' & Hp' & Hok & Hf & Hn). rewrite Hp in Hp'. injection Hp' as <-.
  unfold proc_ok in Hok. rewrite Hx in Hok. destruct Hok as (h' & Ht' & ? & ? & Hex). destruct (Hex He) as (? & ? & ?). rewrite Ht in Ht'. by injection Ht' as <-.
Qed.

Lemma live_fun w p t u x y h k : live w p t x h → live w p u y k → t = u ∧ x = y ∧ h = k.
Proof. intros (_ & Hp & Hx & Ht) (_ & Hp' & Hx' & Ht'). simplify_eq. done. Qed.

Lemma thread_inj ex w p q t x y : inv_but ex w → procs w !! p = Some x → procs w !! q = Some y → thread x = Some t → thread y = Some t → p = q.
Proof.
  intros V Hp Hq Hx Hy.
  assert (H : ∀ r z, procs w !! r = Some z → thread z = Some t → ∃ h, threads w !! t = Some h ∧ t_process h = Some r).
  { intros r z Hr Hz. destruct (v_proc _ V r (v_unlisted _ V r z t Hr Hz)) as (z' & Hr' & Hok & _). rewrite Hr in Hr'. injection Hr' as <-.
    unfold proc_ok in Hok. rewrite Hz in Hok. destruct Hok as (h & ? & ? & _). eauto. }
  destruct (H p x Hp Hx) as (h & Hh & E1). destruct (H q y Hq Hy) as (k & Hk & E2). congruence.
Qed.

(** An object that is neither free nor queued. *)
Definition loose w s : Prop := s ∉ signal_pool w ∧ ∀ p t x h, live w p t x h → s ∉ signal_queue h.

(** *** Changing one process *)

Lemma live_sig ex w p t x h : inv_but ex w → live w p t x h →
  t_process h = Some p ∧ sig_ok (infos w) x h ∧ family_ok w p x ∧ 1 ≤ pid x ≤ next_pid w.
Proof.
  intros V (Hin & Hp & Hx & Ht). destruct (v_proc _ V p Hin) as (x' & Hp' & Hok & Hf & Hn). rewrite Hp in Hp'. injection Hp' as <-.
  unfold proc_ok in Hok. rewrite Hx in Hok. destruct Hok as (h' & Ht' & ? & ? & _). rewrite Ht in Ht'. by injection Ht' as <-.
Qed.

Section put_facts.
Context {ex : option nat} (w : pst) (p t : nat) (x : Process) (h : Thread) (V : inv_but ex w) (L : live w p t x h).
Context (x' : Process) (h' : Thread) (I' : gmap nat siginfo) (P' : list nat) (L' : list event) (Hth : thread x' = Some t).

Notation w' := (put w p t x' h' I' P' L').

Lemma put_self : live w' p t x' h'.
Proof. destruct L as (Hin & _). split; [done|]. by apply at_put. Qed.

Lemma put_other q y : q ≠ p → procs w' !! q = Some y ↔ procs w !! q = Some y.
Proof. intros Hne. simpl. by rewrite lookup_insert_ne. Qed.

Lemma live_put q u y k : live w' q u y k → q ≠ p → live w q u y k.
Proof.
  destruct L as (Hin & Hp & Hx & Ht). intros (Hl & Hy & Hu & Hk) Hq. apply put_other in Hy; [|done].
  split; [done|]. split; [done|]. split; [done|]. simpl in Hk. rewrite lookup_insert_ne in Hk; [done|]. intros <-. apply Hq. by eapply thread_inj.
Qed.

Lemma put_live q u y k : live w q u y k → q ≠ p → live w' q u y k.
Proof.
  destruct L as (Hin & Hp & Hx & Ht). intros (Hl & Hy & Hu & Hk) Hq. split; [done|]. split; [by apply put_other|]. split; [done|].
  simpl. rewrite lookup_insert_ne; [done|]. intros <-. apply Hq. by eapply thread_inj.
Qed.

Lemma put_alive q : alive w q → alive w' q.
Proof.
  intros (u & y & k & H). destruct (decide (q = p)) as [->|Hq]; [exists t, x', h'; apply put_self|]. exists u, y, k. by apply put_live.
Qed.

Lemma put_loose s : moves (infos w) (signal_pool w) h I' P' h' → loose w s → loose w' s.
Proof.
  intros M [Hp Hq]. split.
  - intros [H|H]%(mv_pool _ _ _ _ _ _ M); [done|]. by eapply Hq.
  - intros q u y k H. destruct (decide (q = p)) as [->|Hqp]; [|by eapply Hq, live_put].
    destruct (live_fun _ _ _ _ _ _ _ _ H put_self) as (-> & -> & ->). intros [Hs|Hs]%(mv_queue _ _ _ _ _ _ M); [by eapply Hq|done].
Qed.

Lemma put_family q y y' :
  parent x' = parent x → children x' = children x → (q ≠ p ∧ y' = y ∨ q = p ∧ y = x ∧ y' = x') → family_ok w q y → family_ok w' q y'.
Proof.
  intros Hpa Hch Hcase (F1 & F2 & F3). pose proof L as (Hin & Hp & Hx & Ht). unfold family_ok.
  assert (parent y' = parent y ∧ children y' = children y) as [-> ->] by (destruct Hcase as [[_ ->]|(-> & -> & ->)]; done).
  split; [|split; [done|]].
  - intros r Hr. destruct (F1 r Hr) as (Hrq & Hra & z & Hz & Hc). split; [done|]. split; [by apply put_alive|].
    destruct (decide (r = p)) as [->|Hrp]; [|exists z; by rewrite put_other]. exists x'. rewrite Hp in Hz. injection Hz as <-.
    split; [apply lookup_insert_eq|by rewrite Hch].
  - intros c Hc. destruct (F3 c Hc) as (Hl & z & Hz & Hpz). split; [done|].
    destruct (decide (c = p)) as [->|Hcp]; [|exists z; by rewrite put_other]. exists x'. rewrite Hp in Hz. injection Hz as <-.
    split; [apply lookup_insert_eq|by rewrite Hpa].
Qed.

Lemma put_files : files_ok w → files_ok w'.
Proof.
  pose proof L as (Hin & Hp & Hx & Ht). intros [Fw Fo Fc]. split; [done| |].
  - intros q y Hy Hyt. destruct (decide (q = p)) as [->|Hqp]; [apply (Fo p x); [done|congruence]|]. apply put_other in Hy; [|done]. by eapply Fo.
  - intros q y tb Hy Hyt. destruct (decide (q = p)) as [->|Hqp]; [simpl in Hy; rewrite lookup_insert_eq in Hy; congruence|].
    apply put_other in Hy; [|done]. by eapply Fc.
Qed.

Lemma put_unused u : unused w u → unused w' u.
Proof.
  pose proof L as (Hin & Hp & Hx & Ht). intros (k & Hk & Hno). assert (u ≠ t) by (intros E; apply (Hno p x Hp); congruence).
  exists k. simpl. rewrite lookup_insert_ne by done. split; [done|]. intros q y. rewrite lookup_insert.
  case_decide; [intros [= <-]; congruence|]. apply Hno.
Qed.

End put_facts.

(** An operation on one live process keeps the invariant. *)
Lemma inv_local ex w p t x h x' h' I' P' L' :
  inv_but ex w → live w p t x h →
  thread x' = Some t → parent x' = parent x → children x' = children x → pid x' = pid x →
  (ex ≠ Some p → state x' ≠ ZOMBIE ∧ vm x' = true ∧ flags x' = 0) →
  t_process h' = t_process h → sig_ok I' x' h' → moves (infos w) (signal_pool w) h I' P' h' →
  inv_but ex (put w p t x' h' I' P' L').
Proof.
  intros V L Hth Hpa Hch Hpid Hex Htp O M. pose proof (live_sig ex w p t x h V L) as (Htp0 & O0 & Hfam & Hpn).
  pose proof L as (Hin & Hp & Hx & Ht). pose proof (put_self w p t x h L x' h' I' P' L' Hth) as Hself.
  assert (Hsig : ∀ q u y k, q ≠ p → live w q u y k → ∀ s, s ∈ signal_queue k → I' !! s = infos w !! s).
  { intros q u y k Hq Hk s Hs. apply (mv_infos _ _ _ _ _ _ M); [by eapply v_pool|]. by eapply (v_apart _ V q p). }
  split.
  - apply (v_nodup _ V).
  - intros q Hq. destruct (decide (q = p)) as [->|Hqp].
    + exists x'. split; [apply lookup_insert_eq|]. split; [|split; [by eapply put_family; [..|right|]|simpl; lia]].
      unfold proc_ok. rewrite Hth. exists h'. rewrite Htp. split; [apply lookup_insert_eq|done].
    + destruct (v_proc _ V q Hq) as (y & Hy & Hok & Hf & Hn). exists y. split; [by apply put_other|]. split; [|split; [by eapply put_family; [..|left|]|done]].
      unfold proc_ok in *. destruct (thread y) as [u|] eqn:Eu; [|done]. destruct Hok as (k & Hk & Hkp & Ok & ?). assert (Hl : live w q u y k) by done.
      destruct (put_live w p t x h V L x' h' I' P' L' q u y k Hl Hqp) as (_ & _ & _ & Hk'). exists k. split; [done|]. split; [done|]. split; [|done].
      destruct Ok. split; try done. intros signo s Hs. simpl. rewrite (Hsig q u y k Hqp Hl); [by apply so_info0|]. apply so_both0. by eexists.
  - intros q r u v y z k l s H1 H2 Hqr Hs1 Hs2. destruct (decide (q = p)) as [->|Hqp]; [|destruct (decide (r = p)) as [->|Hrp]].
    + destruct (live_fun _ _ _ _ _ _ _ _ H1 Hself) as (-> & -> & ->). eapply live_put in H2; [|done|done|congruence].
      destruct (mv_queue _ _ _ _ _ _ M s Hs1) as [H|H]; [by eapply (v_apart _ V p r)|by eapply (v_pool _ V r)].
    + destruct (live_fun _ _ _ _ _ _ _ _ H2 Hself) as (-> & -> & ->). eapply live_put in H1; [|done|done|congruence].
      destruct (mv_queue _ _ _ _ _ _ M s Hs2) as [H|H]; [by eapply (v_apart _ V q p)|by eapply (v_pool _ V q)].
    + eapply live_put in H1, H2; [|done..]. by eapply (v_apart _ V q r).
  - apply (mv_nodup _ _ _ _ _ _ M).
  - intros q u y k s H1 Hs Hin'. destruct (decide (q = p)) as [->|Hqp].
    + destruct (live_fun _ _ _ _ _ _ _ _ H1 Hself) as (-> & -> & ->). by eapply (mv_apart _ _ _ _ _ _ M).
    + eapply live_put in H1; [|done..]. destruct (mv_pool _ _ _ _ _ _ M s Hin') as [H|H]; [by eapply (v_pool _ V q)|by eapply (v_apart _ V q p)].
  - apply (v_threads_nodup _ V).
  - intros u Hu. eapply put_unused; [done|done|]. by apply (v_threads _ V).
  - apply (v_procs_nodup _ V).
  - intros q Hq. destruct (v_procs _ V q Hq) as (Hnl & y & Hy & Hyt). assert (q ≠ p) by (intros ->; done). split; [done|]. exists y. by rewrite put_other.
  - intros q y u Hy Hu. destruct (decide (q = p)) as [->|Hqp]; [done|]. apply put_other in Hy; [|done]. exact (v_unlisted _ V q y u Hy Hu).
  - destruct (v_init _ V) as [Ha Hpi]. split; [by eapply put_alive|]. intros y. simpl. rewrite lookup_insert. case_decide as E; [|apply Hpi].
    intros [= <-]. rewrite Hpa. apply Hpi. by rewrite <- E.
  - apply (hash_ok_ext ex w); [done|eapply (keys_insert w p x x'); [done|congruence|done|done]|apply (v_hash _ V)].
  - apply (pids_ok_ext w); [done|eapply (keys_insert w p x x'); [done|congruence|done|done]|apply (v_pids _ V)].
  - eapply put_files; [done|done|]. apply (v_files _ V).
  - apply (v_next _ V).
Qed.

(** ** Operations on one process *)

Lemma files_ok_ext w w' : files w' = files w → procs w' = procs w → files_ok w → files_ok w'.
Proof. intros Hf Hp [Fw Fo Fc]. split; rewrite ?Hf, ?Hp; done. Qed.

Lemma inv_locked ex b w : inv_but ex w → inv_but ex (set_locked b w).
Proof. intros []. split; try done. by apply (files_ok_ext w). Qed.

Lemma inv_log ex e w : inv_but ex w → inv_but ex (emit e w).
Proof. intros []. split; try done. by apply (files_ok_ext w). Qed.

Definition kept {A} (_ : A) w : Prop := inv w ∧ locked w = false.

Section local_ops.
Context (E : string → Prop).

Lemma p_lock_ok w (Q : unit → pst → Prop) : locked w = false → Q tt (set_locked true w) → swp process_lock w E Q.
Proof. intros Hl HQ. unfold process_lock. apply swp_bind, swp_gets, swp_bind, swp_check; [by rewrite Hl|]. intros _. by apply swp_modify. Qed.

Lemma p_unlock_ok w (Q : unit → pst → Prop) : locked w = true → Q tt (set_locked false w) → swp process_unlock w E Q.
Proof. intros Hl HQ. unfold process_unlock. apply swp_bind, swp_gets, swp_bind, swp_check; [by rewrite Hl|]. intros _. by apply swp_modify. Qed.

Lemma unlock_kept w : inv w → locked w = true → swp process_unlock w E kept.
Proof. intros V Hl. apply p_unlock_ok; [done|]. split; [by apply inv_locked|done]. Qed.

Lemma unlock_ret {A} (r : A) w : inv w → locked w = true → swp (process_unlock;; mret r) w E kept.
Proof. intros V Hl. apply swp_bind. eapply swp_mono; [by apply unlock_kept|]. intros ? w' H. by apply swp_ret. Qed.

(** The common case: nothing but the current process and its thread change. *)
Lemma inv_cur w p t x h x' h' :
  inv w → live w p t x h → x' = set_actions (λ _, signal_actions x') (set_stub (signal_stub x') (set_state (state x') (set_status (status x') (set_ustack (λ _, ustack x') x)))) →
  state x' ≠ ZOMBIE → t_process h' = t_process h → sig_ok (infos w) x' h' → (∀ s, s ∈ signal_queue h' → s ∈ signal_queue h) →
  inv (put w p t x' h' (infos w) (signal_pool w) (log w)).
Proof.
  intros V L Hx Hst Htp O Hq. pose proof (live_ok None w p t x h V L ltac:(done)) as (_ & O0 & _ & Hvm & Hfl & _). destruct L as (Hin & Ha). pose proof Ha as (Hp & Hxt & Ht).
  eapply (inv_local None w p t x h); try done; try (rewrite Hx; done).
  apply moves_sub; [apply (v_pool_nodup _ V)| |done]. intros s Hs. by eapply (v_pool _ V p t x h).
Qed.

Lemma action_change_ok w signo stub act :
  inv w → alive w (current w) → locked w = false → (signo = 0 → E BOUNDS) → swp (signal_action_change signo stub act) w E kept.
Proof.
  intros V Hcur Hl HE. unfold signal_action_change. apply swp_bind, swp_gets. destruct (_ || _) eqn:Er; [by apply swp_ret|]. bool_to_prop.
  destruct (match act with Some _ => _ | None => _ end) eqn:Ea; [by apply swp_ret|].
  apply swp_bind, p_lock_ok; [done|]. apply (inv_locked None true) in V. set (w0 := set_locked true w) in *. assert (Hl0 : locked w0 = true) by done.
  change (alive w0 (current w0)) in Hcur. change (current w) with (current w0). destruct Hcur as (t & x & h & L). set (p := current w0) in *.
  pose proof (live_ok None _ _ _ _ _ V L ltac:(done)) as (Htp & O & Hst & _). pose proof L as (Hin & Hat). pose proof Hat as (Hp & Hx & Ht). clearbody w0 p. clear w Hl.
  apply swp_bind. eapply proc_at_ok; [done|]. apply swp_bind. destruct (decide (signo = 0)) as [->|Hs0]; [apply swp_need; [by intros _; apply HE|done]|].
  assert (Hs : 1 ≤ signo ≤ NSIG) by lia. rewrite at_index_ok by done. apply swp_need.
  { intros Hge%lookup_ge_None_1. rewrite (so_act _ _ _ O) in Hge. unfold SIGNAL_INDEX, NSIG in *. lia. }
  intros old Hold.
  assert (Hgo : ∀ w1 x1 h1, w1 = put w0 p t x1 h1 (infos w0) (signal_pool w0) (log w0) → sig_ok (infos w0) x1 h1 →
    x1 = set_actions (λ _, signal_actions x1) x → t_process h1 = t_process h → (∀ s, s ∈ signal_queue h1 → s ∈ signal_queue h) →
    swp (when (negb (stub =? 0)) (upd_proc p (set_stub stub));; process_unlock;; mret (0, Some old)) w1 E kept).
  { intros w1 x1 h1 -> O1 Hx1 Htp1 Hq1. apply swp_bind, swp_when; intros _.
    - eapply upd_proc_ok; [apply at_put; by rewrite Hx1|]. rewrite put_put. apply unlock_ret; [|done].
      apply (inv_cur w0 p t x h); [done|done|by rewrite Hx1|by rewrite Hx1|done| |done]. apply (sig_ok_ext _ x1 _ h1); auto.
    - apply unlock_ret; [|done]. apply (inv_cur w0 p t x h); [done|done|by rewrite Hx1; destruct x|by rewrite Hx1|done|done|done]. }
  destruct act as [a|]; [|apply swp_bind, swp_ret; eapply Hgo; [by rewrite put_id|done|by destruct x|done|done]].
  apply swp_bind, swp_bind. eapply upd_proc_ok; [done|]. apply swp_bind. eapply ignored_ok; [apply lookup_insert_eq|simpl; rewrite length_insert; apply (so_act _ _ _ O)|done|].
  intros a' Ha'. simpl in Ha'. rewrite list_lookup_insert_eq in Ha' by (by apply lookup_lt_Some in Hold). injection Ha' as <-.
  assert (Hdf : signal_can_be_ignored signo = false → sa_handler a = SIG_DFL).
  { intros Hc. rewrite Hc in Ea. simpl in Ea. rewrite andb_true_r in Ea. by apply negb_false_iff, Z.eqb_eq in Ea. }
  apply swp_when; intros Hig.
  - eapply discard_ok; [by apply at_put|apply (so_len _ _ _ O)|done|]. rewrite put_put. destruct (clear_ok _ _ _ _ O Hs) as [O1 Hn1].
    eapply Hgo; [done|by apply sig_ok_action|done|apply clear_same|by apply (clear_subset (infos w0) x)].
  - eapply Hgo; [done|by apply sig_ok_action|done|done|done].
Qed.

(** Reading and changing the mask. *)
Lemma cur_thread_ok {A} w (m : nat → Thread → sm pst A) Q :
  inv w → alive w (current w) → (∀ p t x h, live w p t x h → p = current w → swp (m t h) w E Q) →
  swp (p ← gets current; t ← thread_of p NO_THREAD; h ← thread_at t; m t h) w E Q.
Proof.
  intros V (t & x & h & L) HQ. apply swp_bind, swp_gets. pose proof L as (_ & Hp & Hx & Ht).
  apply swp_bind. eapply thread_of_ok; [done..|]. apply swp_bind. eapply thread_at_ok; [done|]. by eapply HQ.
Qed.

Lemma set_mask_ok {A} w p t x h m (Q : sm pst A) (R : A → pst → Prop) :
  inv w → live w p t x h → (∀ w', inv w' → locked w' = locked w → swp Q w' E R) → swp (upd_thread t (set_mask m);; Q) w E R.
Proof.
  intros V L HQ. pose proof (live_ok None _ _ _ _ _ V L ltac:(done)) as (_ & O & Hst & _). apply swp_bind. eapply upd_thread_ok; [apply L|]. apply HQ; [|done].
  apply (inv_cur w p t x h); [done|done|by destruct x|done|done| |done]. by apply (sig_ok_ext _ x _ h); auto.
Qed.

Lemma mask_change_ok w how set : inv w → alive w (current w) → locked w = false → swp (signal_mask_change how set) w E kept.
Proof.
  intros V Hcur Hl. unfold signal_mask_change. apply cur_thread_ok; [done..|]. intros p t x h L _. destruct set as [set|]; [|by apply swp_ret].
  apply swp_bind, p_lock_ok; [done|]. apply (inv_locked None true) in V. change (live (set_locked true w) p t x h) in L.
  set (w0 := set_locked true w) in *. assert (Hl0 : locked w0 = true) by done. clearbody w0.
  assert (Hset : ∀ m, swp (upd_thread t (set_mask m);; mret 0) w0 E (λ _ w', inv w' ∧ locked w' = true)).
  { intros m. eapply set_mask_ok; [done..|]. intros w' V' Hl'. apply swp_ret. split; [done|congruence]. }
  apply swp_bind. apply (swp_mono _ _ _ (λ _ w', inv w' ∧ locked w' = true)).
  - repeat case_goal; try apply Hset. by apply swp_ret.
  - intros r w' [V' Hl']. by apply unlock_ret.
Qed.

Lemma signal_pending_ok w : inv w → alive w (current w) → locked w = false → swp sys_signal_pending w E kept.
Proof.
  intros V (t & x & h & _ & Hp & Hx & Ht) Hl. unfold sys_signal_pending. apply swp_bind, swp_gets, swp_bind, p_lock_ok; [done|].
  apply swp_bind. eapply thread_of_ok; [done..|]. apply swp_bind. eapply thread_at_ok; [done|]. apply unlock_ret; [by apply inv_locked|done].
Qed.

Lemma suspend_sleep_ok w m : inv w → alive w (current w) → locked w = false → swp (signal_suspend_sleep m) w E kept.
Proof.
  intros V (t & x & h & L) Hl. unfold signal_suspend_sleep. apply swp_bind, swp_gets, swp_bind, p_lock_ok; [done|]. pose proof L as (_ & Hp & Hx & Ht). apply (inv_locked None true) in V. change (live (set_locked true w) (current w) t x h) in L.
  apply swp_bind. eapply thread_of_ok; [done..|]. apply swp_bind. eapply thread_at_ok; [done|]. eapply set_mask_ok; [done..|].
  intros w' V' Hl'. by apply unlock_ret.
Qed.

Lemma suspend_wake_ok w saved r : inv w → alive w (current w) → locked w = false → swp (signal_suspend_wake saved r) w E kept.
Proof.
  intros V (t & x & h & L) Hl. unfold signal_suspend_wake. apply swp_bind, swp_gets, swp_bind, p_lock_ok; [done|]. pose proof L as (_ & Hp & Hx & Ht). apply (inv_locked None true) in V. change (live (set_locked true w) (current w) t x h) in L.
  apply swp_bind. eapply thread_of_ok; [done..|]. eapply set_mask_ok; [done..|]. intros w' V' Hl'. by apply unlock_ret.
Qed.

(** *** exec *)

Lemma drain_ok l w p t x h (Q : unit → pst → Prop) fuel :
  at_ w p t x h → signal_queue h = l → (length l < fuel)%nat →
  Q tt (put w p t x (set_queue (λ _, []) h) (infos w) (reverse l ++ signal_pool w) (log w)) → swp (drain fuel t) w E Q.
Proof.
  revert w h fuel. induction l as [|s l IH]; intros w h fuel Ha Hq Hf HQ; (destruct fuel as [|fuel]; [simpl in Hf; lia|]); cbn [drain]; pose proof Ha as (Hp & Hx & Ht).
  - apply swp_bind. eapply thread_at_ok; [done|]. rewrite Hq. apply swp_ret. simpl in HQ.
    replace (set_queue (λ _, []) h) with h in HQ by (destruct h; simpl in *; by subst). by rewrite put_id in HQ.
  - apply swp_bind. eapply thread_at_ok; [done|]. rewrite Hq. apply swp_bind. eapply upd_thread_ok; [done|]. apply swp_bind, swp_modify.
    eapply IH; [split; [apply lookup_insert_eq|split; [done|apply lookup_insert_eq]]|done|simpl in Hf; lia|].
    rewrite reverse_cons, <- (assoc_L (++)) in HQ. simpl in HQ. unfold put in *. simpl. by rewrite !insert_insert_eq.
Qed.

(** A signal object goes back to the pool. *)
Lemma moves_drain I P h h' l :
  NoDup P → NoDup (signal_queue h) → (∀ s, s ∈ signal_queue h → s ∉ P) → l ≡ₚ signal_queue h → signal_queue h' = [] → moves I P h I (l ++ P) h'.
Proof.
  intros Hn Hq Ha Hl Hq'. split.
  - apply NoDup_app. split; [by rewrite Hl|]. split; [|done]. intros s Hs. apply Ha. by rewrite <- Hl.
  - rewrite Hq'. intros s []%not_elem_of_nil.
  - intros s [H|H]%elem_of_app; [right; by rewrite <- Hl|by left].
  - rewrite Hq'. intros s []%not_elem_of_nil.
  - done.
Qed.

Lemma reset_ok w : inv w → alive w (current w) → swp (signal_reset (current w)) w E (λ _ w', inv w' ∧ locked w' = locked w).
Proof.
  intros V (t & x & h & L). unfold signal_reset. pose proof L as (_ & Ha). pose proof Ha as (Hp & Hx & Ht).
  pose proof (live_ok None _ _ _ _ _ V L ltac:(done)) as (_ & O & Hst & Hvm & Hfl & _). apply swp_bind. eapply thread_of_ok; [done..|]. apply swp_bind. eapply upd_thread_ok; [done|].
  apply swp_bind. eapply upd_proc_ok; [by apply at_put|]. rewrite put_put. apply swp_bind. eapply upd_thread_ok; [by apply at_put|]. rewrite put_put.
  apply swp_bind. eapply thread_at_ok; [apply lookup_insert_eq|]. eapply drain_ok; [by apply at_put|done|simpl; lia|]. rewrite put_put. split; [|done].
  apply (inv_local None w _ t x h); try done; [exact (sig_ok_reset (infos w) x h 0 O)|]. apply (moves_drain (infos w)); [apply (v_pool_nodup _ V)|apply (so_nodup _ _ _ O)| |apply reverse_Permutation|done].
  intros s Hs. by eapply (v_pool _ V).
Qed.

(** *** Generating a signal *)

(** Signals change nothing of the process table but threads and objects. *)
Record quiet (ex : option nat) w w' : Prop := {
  q_inv : inv_but ex w';
  q_locked : locked w' = locked w;
  q_procs : procs w' = procs w;
  q_list : process_list w' = process_list w;
  q_current : current w' = current w;
  q_init : init_process w' = init_process w;
  q_files : files w' = files w;
  q_alive p : alive w p → alive w' p;
  q_loose s : loose w s → loose w' s }.

Lemma generate_inv ex w p t x h signo code :
  inv_but ex w → locked w = true → live w p t x h → ex ≠ Some p → 1 ≤ signo ≤ NSIG → (signo = SIGCONT → state x = STOPPED → E FLAGS) →
  swp (signal_generate_one p signo code) w E (λ _, quiet ex w).
Proof.
  intros V Hl L Hex Hs HE. pose proof (live_ok ex _ _ _ _ _ V L Hex) as (Htp & O & Hst & Hvm & Hfl & _). pose proof L as (_ & Ha). pose proof Ha as (Hp & Hx & Ht).
  assert (Hap : ∀ s, s ∈ signal_queue h → s ∉ signal_pool w) by (intros s Hsq; by eapply (v_pool _ V p)).
  unfold signal_generate_one. eapply generate_one_ok; try done. intros Hok.
  destruct (gen_ok t x h (infos w) (signal_pool w) (log w) signo code O Hs (v_pool_nodup _ V) Hap) as (Og & Htg & Mg); [intros -> ?; by apply Hok|].
  destruct (gen t x h (infos w) (signal_pool w) (log w) signo code) as [r g]. simpl in *. unfold putg. split; try done.
  - by apply (inv_local ex w p t x h).
  - simpl. by apply insert_id.
  - intros q. by eapply put_alive.
  - intros s. by eapply put_loose.
Qed.

Lemma match_pid_ok w p x n (Q : bool → pst → Prop) :
  is_Some (procs w !! current w) → procs w !! p = Some x → (∀ b, Q b w) → swp (process_match_pid p n) w E Q.
Proof.
  intros [y Hc] Hp HQ. unfold process_match_pid. apply swp_bind. eapply proc_at_ok; [done|]. repeat case_goal; try by apply swp_ret.
  apply swp_bind, swp_gets, swp_bind. eapply proc_at_ok; [done|]. by apply swp_ret.
Qed.

Lemma p_quiet_refl ex w : inv_but ex w → quiet ex w w.
Proof. by split. Qed.

Lemma p_quiet_trans ex w1 w2 w3 : quiet ex w1 w2 → quiet ex w2 w3 → quiet ex w1 w3.
Proof. intros [] []. split; try congruence; auto. Qed.

Lemma generate_loop_ok w l n signo code :
  inv w → is_Some (procs w !! current w) → locked w = true → (∀ p, p ∈ l → p ∈ process_list w) → 0 ≤ signo ≤ NSIG →
  (signo = SIGCONT → ∀ p x, procs w !! p = Some x → state x = STOPPED → E FLAGS) →
  swp (generate_loop l n signo code) w E (λ _, quiet None w).
Proof.
  intros V Hcur Hl Hin Hs HE. revert w V Hcur Hl Hin HE. induction l as [|p l IH]; intros w V Hcur Hl Hin HE; cbn [generate_loop]; [by apply swp_ret, p_quiet_refl|].
  destruct (v_proc _ V p) as (x & Hp & Hok & _); [apply Hin; left|]. assert (Hin' : ∀ q, q ∈ l → q ∈ process_list w) by (intros q Hq; apply Hin; by right).
  apply swp_bind. eapply match_pid_ok; [done..|]. intros b. apply swp_bind. eapply proc_at_ok; [done|].
  destruct (_ || _) eqn:Eb; [by apply IH|]. bool_to_prop. unfold proc_ok in Hok. destruct (thread x) as [t|] eqn:Ex; [|done]. destruct Hok as (h & Ht & _).
  apply swp_bind. eapply swp_mono; [apply (generate_inv None w p t x h); try done|].
  - split; [apply Hin; left|done].
  - unfold NSIG in *. lia.
  - intros -> Hst. by eapply HE.
  - intros r w1 Q1. destruct (negb _); [by apply swp_ret|]. pose proof Q1 as [V1 Hl1 Hp1 Hli1 Hc1 _ _ _ _]. eapply swp_mono; [apply IH; try done|].
    + rewrite Hp1, Hc1. exact Hcur.
    + congruence.
    + by rewrite Hli1.
    + rewrite Hp1. done.
    + intros r' w2 Q2. exact (p_quiet_trans _ _ _ _ Q1 Q2).
Qed.

(** A number that is no signal stops the kernel at the first process it is for. *)
Lemma generate_bad w l n signo code :
  inv w → is_Some (procs w !! current w) → (∀ p, p ∈ l → p ∈ process_list w) → ¬ 0 ≤ signo ≤ NSIG → E BAD_SIGNO →
  swp (generate_loop l n signo code) w E (λ _ w', w' = w).
Proof.
  intros V Hcur Hin Hs HE. induction l as [|p l IH]; cbn [generate_loop]; [by apply swp_ret|].
  destruct (v_proc _ V p) as (x & Hp & _); [apply Hin; left|]. apply swp_bind. eapply match_pid_ok; [done..|]. intros b. apply swp_bind. eapply proc_at_ok; [done|].
  case_goal; [apply IH; intros q Hq; apply Hin; by right|]. apply swp_bind. unfold signal_generate_one. cbn [generate_one]. apply swp_bind, swp_check; [done|].
  intros Hb. exfalso. bool_to_prop. unfold NSIG in *. lia.
Qed.

Lemma signal_generate_ok w n signo code :
  inv w → alive w (current w) → locked w = false → (¬ 0 ≤ signo ≤ NSIG → E BAD_SIGNO) → (signo = SIGCONT → ∀ p x, procs w !! p = Some x → state x = STOPPED → E FLAGS) →
  swp (signal_generate n signo code) w E kept.
Proof.
  intros V (t & x & h & _ & Hc & _) Hl Hs HE. unfold signal_generate. apply swp_bind, p_lock_ok; [done|]. apply swp_bind, swp_gets, swp_bind.
  destruct (decide (0 ≤ signo ≤ NSIG)) as [Hr|Hr]; swap 1 2.
  { eapply swp_mono; [apply generate_bad; [by apply inv_locked|simpl; by rewrite Hc|done|done|by apply Hs]|]. intros r w' ->. by apply unlock_ret; [apply inv_locked|]. }
  eapply swp_mono; [apply generate_loop_ok; [by apply inv_locked|simpl; by rewrite Hc|done|done|done|done]|]. intros r w' [V' Hl' _ _ _ _ _ _ _]. by apply unlock_ret.
Qed.

(** *** Telling the parent *)

Lemma quiet_log ex e w w' : quiet ex w w' → quiet ex w (emit e w').
Proof. intros [V Hl Hp Hli Hc Hi Hf Ha Hlo]. split; try done; [by apply inv_log|..]; auto. Qed.

Lemma sigchld_ok : 1 ≤ SIGCHLD ≤ NSIG.
Proof. apply in_range. Qed.

Lemma state_change_ok ex w p x :
  inv_but ex w → locked w = true → procs w !! p = Some x → (∀ q, parent x = Some q → ex ≠ Some q ∧ alive w q) →
  swp (_signal_state_change_to_parent p) w E (λ _, quiet ex w).
Proof.
  intros V Hl Hp Hpar. unfold _signal_state_change_to_parent, state_change_to_parent. apply swp_bind. eapply p_holding_ok; [done|].
  apply swp_bind. eapply proc_at_ok; [done|]. destruct (parent x) as [q|]; [|by apply swp_ret, p_quiet_refl].
  destruct (Hpar q eq_refl) as (Hex & u & y & k & L). pose proof L as (_ & Hq & _). pose proof (live_ok ex _ _ _ _ _ V L Hex) as (_ & O & _).
  case_bool_decide; [by apply swp_ret, p_quiet_refl|]. apply swp_bind. eapply proc_at_ok; [done|]. apply swp_bind. rewrite at_index_ok by apply sigchld_ok. apply swp_need.
  { intros Hge%lookup_ge_None_1. rewrite (so_act _ _ _ O) in Hge. vm_compute in Hge. lia. }
  intros a Ha. case_goal; [by apply swp_ret, p_quiet_refl|]. apply swp_bind. eapply swp_mono; [apply (generate_inv ex w q u y k); [done|done|done|done|apply sigchld_ok|done]|].
  - intros r w' Q. apply swp_modify. by apply quiet_log.
Qed.

(** *** Delivery *)

Lemma dequeue_ok w p t x h l :
  at_ w p t x h → sig_ok (infos w) x h → (∀ s, s ∈ l → s ∈ signal_queue h) →
  swp (dequeue_loop p t l) w E (λ o w',
    match o with
    | None => w' = w ∧ Forall (λ s, ∃ i, infos w !! s = Some i ∧ deliverable x h (si_signo i) = false) l
    | Some s => ∃ i l1 l2, l = l1 ++ s :: l2 ∧ Forall (λ s, ∃ i, infos w !! s = Some i ∧ deliverable x h (si_signo i) = false) l1 ∧
        infos w !! s = Some i ∧ is_pend h (si_signo i) s ∧ deliverable x h (si_signo i) = true ∧
        w' = put w p t x (clear (si_signo i) h) (infos w) (signal_pool w) (log w)
    end).
Proof.
  intros Ha O. pose proof Ha as (Hp & Hx & Ht). induction l as [|s l IH]; intros Hin; cbn [dequeue_loop]; [by apply swp_ret|].
  destruct (proj1 (so_both _ _ _ O s)) as [signo Hpe]; [apply Hin; left|]. destruct (so_info _ _ _ O _ _ Hpe) as (i & Hi & Hsi).
  apply swp_bind. unfold info_at. apply swp_bind, swp_gets, swp_need; [congruence|]. intros i' Hi'. rewrite Hi in Hi'. injection Hi' as <-.
  apply swp_bind. eapply proc_at_ok; [done|]. apply swp_bind. eapply thread_at_ok; [done|]. destruct (deliverable x h (si_signo i)) eqn:Ed; simpl.
  - apply swp_bind. eapply upd_thread_ok; [done|]. apply swp_bind. unfold put_pending. eapply upd_thread_ok; [by apply at_put|]. rewrite put_put. apply swp_ret.
    exists i, [], l. rewrite Hsi. split; [done|]. split; [constructor|]. split; [done|]. split; [done|]. rewrite Hsi in Ed. split; [done|].
    f_equal. unfold clear. destruct Hpe as [_ ->]. done.
  - eapply swp_mono; [apply IH; intros s' Hs'; apply Hin; by right|]. intros [s'|] w'.
    + intros (i' & l1 & l2 & -> & Hf & Hrest). exists i', (s :: l1), l2. split; [done|]. split; [|done]. constructor; [eauto|done].
    + intros [-> Hf]. split; [done|]. constructor; [eauto|done].
Qed.

(** Returning an object to the pool. *)
Lemma signal_free_ok ex w s : inv_but ex w → loose w s → inv_but ex (set_signal_pool (s ::.) w).
Proof.
  intros V [Hp Hq]. destruct V. split; try done.
  - by constructor.
  - intros p t x h s' L Hs' [->|Hin]%elem_of_cons; [by eapply Hq|]. by eapply v_pool0.
  - by apply (files_ok_ext w).
Qed.

Lemma p_stop_ok w p t x h :
  inv w → locked w = true → live w p t x h → ¬ pends h SIGCONT →
  swp (_process_stop p) w E (λ _ w', inv w' ∧ locked w' = true ∧ alive w' p ∧ current w' = current w ∧ init_process w' = init_process w ∧ ∀ s, loose w s → loose w' s).
Proof.
  intros V Hl L Hnc. pose proof (live_ok None _ _ _ _ _ V L ltac:(done)) as (Htp & O & Hst & Hvm & Hfl & (F1 & _) & _). pose proof L as (Hin & Ha). pose proof Ha as (Hp & Hx & Ht).
  unfold _process_stop. apply swp_bind. eapply proc_at_ok; [done|]. apply swp_bind, swp_check; [by rewrite Hvm|]. intros _. apply swp_bind. eapply p_holding_ok; [done|].
  apply swp_when; [|intros _; split; [done|]; split; [done|]; split; [by do 3 eexists|done]]. intros Hs. apply swp_bind. eapply upd_proc_ok; [done|].
  set (w1 := put _ _ _ _ _ _ _ _). assert (V1 : inv w1).
  { apply (inv_cur w p t x h); [done|done|by destruct x|done|done| |done]. apply (sig_ok_ext _ x _ h); auto. }
  assert (M : moves (infos w) (signal_pool w) h (infos w) (signal_pool w) h).
  { apply moves_sub; [apply (v_pool_nodup _ V)| |done]. intros s Hsq. by eapply (v_pool _ V p). }
  eapply swp_mono; [apply (state_change_ok None w1 p (set_status 127 (set_state STOPPED x))); [done|done|apply lookup_insert_eq|]|].
  - intros q Hq. destruct (F1 q Hq) as (_ & Haq & _). split; [done|]. by eapply put_alive.
  - intros ? w' [V' Hl' _ _ Hc' Hi' _ Ha' Hlo']. split; [done|]. split; [by rewrite Hl'|].
    split; [apply Ha'; eapply put_alive; [done|done|done|by do 3 eexists]|]. split; [by rewrite Hc'|]. split; [by rewrite Hi'|]. intros s Hs'. apply Hlo'. by eapply put_loose.
Qed.

(** A step of the current process that may leave an object loose. *)
Record acted w p w' : Prop := {
  ac_inv : inv w';
  ac_locked : locked w' = true;
  ac_alive : alive w' p;
  ac_current : current w' = current w;
  ac_init : init_process w' = init_process w;
  ac_loose s : loose w s → loose w' s }.

Lemma acted_put w p t x h x' h' :
  inv w → locked w = true → live w p t x h →
  x' = set_actions (λ _, signal_actions x') (set_stub (signal_stub x') (set_state (state x') (set_status (status x') (set_ustack (λ _, ustack x') x)))) →
  state x' ≠ ZOMBIE → t_process h' = t_process h → sig_ok (infos w) x' h' → (∀ s, s ∈ signal_queue h' → s ∈ signal_queue h) →
  acted w p (put w p t x' h' (infos w) (signal_pool w) (log w)).
Proof.
  intros V Hl L Hx' Hst Htp O Hq. assert (Hth : thread x' = Some t) by (rewrite Hx'; apply L). split; try done.
  - by apply (inv_cur w p t x h).
  - exists t, x', h'. by eapply put_self.
  - intros s. eapply put_loose; [done|done|done|]. apply moves_sub; [apply (v_pool_nodup _ V)| |done]. intros s' Hs'. by eapply (v_pool _ V p).
Qed.

(** Where the frame of a signal goes. *)
Definition frame_va (fsz : Z) h : Z := u32 (tf_sp (tf h) - fsz).

Lemma custom_ok sok fsz w p t x h s i a :
  inv w → locked w = true → live w p t x h → infos w !! s = Some i → 1 ≤ si_signo i ≤ NSIG → ¬ pends h (si_signo i) →
  (user_range fsz (frame_va fsz h) = false → E INVALID_RANGE) →
  swp (signal_action_custom sok fsz p s (si_signo i) a) w E (λ r w', acted w p w' ∧ (sok (frame_va fsz h) = true → r = 0)).
Proof.
  intros V Hl L Hi Hs Hn HE. pose proof (live_ok None _ _ _ _ _ V L ltac:(done)) as (Htp & O & Hst & _). pose proof L as (_ & Ha). pose proof Ha as (Hp & Hx & Ht).
  assert (Hself : acted w p w).
  { rewrite <- (put_id w p t x h Ha) at 2. apply (acted_put w p t x h); try done. by destruct x. }
  unfold signal_action_custom. apply swp_bind. eapply thread_of_ok; [done..|]. apply swp_bind. eapply thread_at_ok; [done|].
  apply swp_bind. unfold info_at. apply swp_bind, swp_gets, swp_need; [congruence|]. intros i' Hi'. rewrite Hi in Hi'. injection Hi' as <-.
  unfold arch_signal_prepare. apply swp_bind, swp_bind. eapply thread_of_ok; [done..|]. apply swp_bind. eapply thread_at_ok; [done|].
  apply swp_bind. eapply proc_at_ok; [done|]. fold (frame_va fsz h). apply swp_bind, swp_check; [done|]. intros _.
  destruct (sok (frame_va fsz h)) eqn:Hok; cbn [negb]; [|by apply swp_ret, swp_ret].
  apply swp_bind. eapply upd_proc_ok; [done|]. apply swp_bind. eapply upd_thread_ok; [by apply at_put|]. rewrite put_put. apply swp_ret. simpl.
  apply swp_bind. eapply upd_thread_ok; [by apply at_put|]. rewrite put_put. apply swp_bind. simpl. apply swp_when; intros Hr.
  - eapply upd_proc_ok; [by apply at_put|]. rewrite put_put. apply swp_ret. split; [|done]. apply (acted_put w p t x h); try done. apply sig_ok_action; [|done|done|done].
    by apply (sig_ok_ext _ x _ h); auto.
  - apply swp_ret. split; [|done]. apply (acted_put w p t x h); try done. by apply (sig_ok_ext _ x _ h); auto.
Qed.

Lemma default_ok w p t x h h0 signo :
  inv w → locked w = true → live w p t x h → sig_ok (infos w) x h0 → pends h0 signo → (∀ signo', pends h signo' → pends h0 signo') →
  ignored_by (MkAction SIG_DFL 0 0) signo = false →
  swp (signal_action_default p signo) w E (λ r w', acted w p w' ∧ (terminates signo = false → r = 0)).
Proof.
  intros V Hl L O0 Hpe Hsub Hig. pose proof (live_ok None _ _ _ _ _ V L ltac:(done)) as (Htp & O & Hst & _). pose proof L as (_ & Ha). pose proof Ha as (Hp & Hx & Ht).
  assert (Hself : acted w p w).
  { rewrite <- (put_id w p t x h Ha) at 2. apply (acted_put w p t x h); try done. by destruct x. }
  unfold signal_action_default. destruct (terminates signo); [by apply swp_ret|].
  change (ignored_by (MkAction SIG_DFL 0 0) signo) with ((signo =? SIGCHLD) || (signo =? SIGURG)) in Hig. rewrite Hig.
  destruct (signal_is_stop signo) eqn:Es.
  - apply swp_bind. assert (Hnc : ¬ pends h SIGCONT) by (intros Hc%Hsub; destruct (so_cont _ _ _ O0 Hc) as [_ Hno]; by apply (Hno signo)).
    eapply swp_mono; [by apply (p_stop_ok w p t x h)|]. intros ? w' (V' & Hl' & Ha' & Hc' & Hi' & Hlo'). by apply swp_ret.
  - destruct (Z.eqb_spec signo SIGCONT) as [->|]; [|by apply swp_ret]. apply swp_bind. eapply proc_at_ok; [done|].
    destruct (so_cont _ _ _ O0 Hpe) as [Hns _]. rewrite bool_decide_eq_false_2 by done. by apply swp_ret.
Qed.

End local_ops.

(** ** The family tree *)

(** Two descriptors that differ at most in what the invariant relates to other
    processes, and in fields it does not mention. *)
Definition alike x y : Prop :=
  thread y = thread x ∧ pid y = pid x ∧ state y = state x ∧ vm y = vm x ∧ flags y = flags x ∧ signal_actions y = signal_actions x.

Lemma alike_refl x : alike x x.
Proof. done. Qed.

Lemma alike_trans x y z : alike x y → alike y z → alike x z.
Proof. intros (? & ? & ? & ? & ? & ?) (? & ? & ? & ? & ? & ?). repeat split; congruence. Qed.

Section tree_update.
Context {ex : option nat} (w : pst) (V : inv_but ex w) (m : gmap nat Process).
Context (Hm : ∀ q y, m !! q = Some y → ∃ x, procs w !! q = Some x ∧ alike x y).
Context (Hm' : ∀ q x, procs w !! q = Some x → ∃ y, m !! q = Some y ∧ alike x y).

Notation w' := (set_procs (λ _, m) w).

Lemma tree_live q u y k : live w' q u y k → ∃ x, live w q u x k ∧ alike x y.
Proof. intros (Hl & Hy & Hu & Hk). destruct (Hm q y Hy) as (x & Hx & A). exists x. split; [|done]. destruct A as (E & _). split; [done|]. split; [done|]. by rewrite <- E. Qed.

Lemma live_tree q u x k : live w q u x k → ∃ y, live w' q u y k ∧ alike x y.
Proof. intros (Hl & Hx & Hu & Hk). destruct (Hm' q x Hx) as (y & Hy & A). exists y. split; [|done]. destruct A as (E & _). split; [done|]. split; [done|]. by rewrite E. Qed.

Lemma tree_alive q : alive w q → alive w' q.
Proof. intros (u & x & k & (y & H & _)%live_tree). by exists u, y, k. Qed.

Lemma tree_keys : same_keys w w'.
Proof.
  intros q. simpl. destruct (m !! q) as [y|] eqn:E; [|destruct (procs w !! q) as [x|] eqn:E'; [|done]; destruct (Hm' q x E') as (y & Hy & _); congruence].
  destruct (Hm q y E) as (x & -> & Et & En & _). simpl. unfold key. by rewrite Et, En.
Qed.

Lemma inv_tree :
  (∀ q y, q ∈ process_list w → m !! q = Some y → family_ok w' q y) → (∀ y, m !! init_process w = Some y → parent y = None) → inv_but ex w'.
Proof.
  intros Hfam Hini. split.
  - apply (v_nodup _ V).
  - intros q Hq. destruct (v_proc _ V q Hq) as (x & Hx & Hok & _ & Hn). destruct (Hm' q x Hx) as (y & Hy & A). exists y. split; [done|].
    destruct A as (E1 & E2 & E3 & E4 & E5 & E6). split; [|split; [by apply Hfam|by rewrite E2]].
    unfold proc_ok in *. rewrite E1. destruct (thread x) as [u|]; [|by rewrite E3, E5]. destruct Hok as (k & Hk & Hkp & O & Hs). exists k.
    split; [done|]. split; [done|]. split; [|by rewrite E3, E4, E5]. apply (sig_ok_ext _ x _ k); try done. rewrite E3. auto.
  - intros p q t u x y h k s (x' & H1 & _)%tree_live (y' & H2 & _)%tree_live. by eapply (v_apart _ V).
  - apply (v_pool_nodup _ V).
  - intros p t x h s (x' & H1 & _)%tree_live. by eapply (v_pool _ V).
  - apply (v_threads_nodup _ V).
  - intros u Hu. destruct (v_threads _ V u Hu) as (k & Hk & Hno). exists k. split; [done|]. intros q y Hy. destruct (Hm q y Hy) as (x & Hx & A & _).
    rewrite A. by eapply Hno.
  - apply (v_procs_nodup _ V).
  - intros q Hq. destruct (v_procs _ V q Hq) as (Hnl & x & Hx & Hxt). split; [done|]. destruct (Hm' q x Hx) as (y & Hy & A & _). exists y. by rewrite A.
  - intros q y u Hy Hu. destruct (Hm q y Hy) as (x & Hx & A & _). rewrite A in Hu. exact (v_unlisted _ V q x u Hx Hu).
  - split; [apply tree_alive, (v_init _ V)|done].
  - apply (hash_ok_ext ex w); [done|apply tree_keys|apply (v_hash _ V)].
  - apply (pids_ok_ext w); [done|apply tree_keys|apply (v_pids _ V)].
  - destruct (v_files _ V) as [Fw Fo Fc]. split; [done| |].
    + intros q y Hy Hyt. destruct (Hm q y Hy) as (x & Hx & A & _). rewrite A in Hyt. by eapply Fo.
    + intros q y tb Hy Hyt. destruct (Hm q y Hy) as (x & Hx & A & _). rewrite A in Hyt. by eapply Fc.
  - apply (v_next _ V).
Qed.

End tree_update.

(** A process moves from the children of [p] to those of [i]. *)
Section adopt.
Context {ex : option nat} (w : pst) (V : inv_but ex w) (p i c : nat) (l : list nat) (x z y : Process).
Context (Hp : procs w !! p = Some x) (Hi : procs w !! i = Some z) (Hc : procs w !! c = Some y).
Context (Hpl : p ∈ process_list w) (Hpi : p ≠ i) (Hia : alive w i) (Hch : children x = c :: l) (Hini : init_process w = i).

Definition adopted : gmap nat Process :=
  <[i := set_children (λ l, l ++ [c]) z]> (<[c := set_parent (Some i) y]> (<[p := set_children (λ _, l) x]> (procs w))).

Lemma adopt_facts : c ∈ process_list w ∧ parent y = Some p ∧ c ≠ p ∧ c ≠ i ∧ c ∉ l ∧ NoDup l ∧ c ∉ children z ∧ NoDup (children z).
Proof.
  destruct (v_proc _ V p Hpl) as (x' & Hx' & _ & (_ & Hnd & Hcs) & _). rewrite Hp in Hx'. injection Hx' as <-. rewrite Hch in *.
  apply NoDup_cons in Hnd as [Hcl Hnd]. destruct (Hcs c ltac:(left)) as (Hcl' & y' & Hy' & Hpa). rewrite Hc in Hy'. injection Hy' as <-.
  destruct (v_proc _ V c Hcl') as (y' & Hy' & _ & (Hpar & _) & _). rewrite Hc in Hy'. injection Hy' as <-. destruct (Hpar p Hpa) as (Hne & _).
  destruct Hia as (u & z' & k & Hil & Hz' & _). rewrite Hi in Hz'. injection Hz' as <-.
  destruct (v_proc _ V i Hil) as (z' & Hz' & _ & (_ & Hndz & Hcz) & _). rewrite Hi in Hz'. injection Hz' as <-.
  assert (c ≠ i). { intros ->. destruct (v_init _ V) as [_ Hpn]. rewrite Hini in Hpn. specialize (Hpn z Hi). congruence. }
  split; [done|]. split; [done|]. split; [done|]. split; [done|]. split; [done|]. split; [done|]. split; [|done].
  intros Hin. destruct (Hcz c Hin) as (_ & y' & Hy' & Hpa'). congruence.
Qed.

Lemma adopted_lookup q : adopted !! q =
  if decide (q = i) then Some (set_children (λ l, l ++ [c]) z) else if decide (q = c) then Some (set_parent (Some i) y)
  else if decide (q = p) then Some (set_children (λ _, l) x) else procs w !! q.
Proof. unfold adopted. rewrite !lookup_insert. repeat case_decide; congruence || done. Qed.

Lemma inv_adopt : inv_but ex (set_procs (λ _, adopted) w).
Proof.
  destruct adopt_facts as (Hcl & Hpar & Hcp & Hci & Hcl' & Hnd & Hcz & Hndz).
  assert (Hm : ∀ q y', adopted !! q = Some y' → ∃ x', procs w !! q = Some x' ∧ alike x' y').
  { intros q y'. rewrite adopted_lookup. repeat case_decide; subst; intros; simplify_eq; by eexists. }
  assert (Hm' : ∀ q x', procs w !! q = Some x' → ∃ y', adopted !! q = Some y' ∧ alike x' y').
  { intros q x' Hq. rewrite adopted_lookup. repeat case_decide; subst; simplify_eq; by eexists. }
  apply inv_tree; [done|done|done| |].
  - intros q y' Hq Hy'. destruct (v_proc _ V q Hq) as (x' & Hx' & _ & (F1 & F2 & F3) & _).
    assert (Hpc : ∀ r, parent x' = Some r → q ≠ c → r ≠ q ∧ alive (set_procs (λ _, adopted) w) r ∧
      ∃ y, procs (set_procs (λ _, adopted) w) !! r = Some y ∧ q ∈ children y).
    { intros r Hr Hqc. destruct (F1 r Hr) as (Hrq & Hra & y2 & Hy2 & Hin). split; [done|]. split; [by apply (tree_alive w adopted Hm')|].
      simpl. rewrite adopted_lookup. repeat case_decide; subst; simplify_eq; eexists; (split; [done|]); simpl; rewrite ?elem_of_app; auto.
      rewrite Hch in Hin. by apply elem_of_cons in Hin as [->|?]. }
    assert (Hcc : ∀ (r : nat) (l' : list nat), (∀ d, d ∈ l' → (d = c ∧ r = i) ∨ (d ≠ c ∧ d ∈ process_list w ∧ ∃ y, procs w !! d = Some y ∧ parent y = Some r)) →
      ∀ d, d ∈ l' → d ∈ process_list w ∧ ∃ y, procs (set_procs (λ _, adopted) w) !! d = Some y ∧ parent y = Some r).
    { intros r l' H d Hd. destruct (H d Hd) as [[-> ->]|(Hdc & Hdl & y2 & Hy2 & Hpy)].
      - split; [done|]. simpl. rewrite adopted_lookup, decide_False, decide_True by done. by eexists.
      - split; [done|]. simpl. rewrite adopted_lookup. repeat case_decide; subst; simplify_eq; by eexists. }
    rewrite adopted_lookup in Hy'. repeat case_decide; subst; simplify_eq; unfold family_ok; simpl.
    + split; [intros r Hr; by apply Hpc|]. split; [apply NoDup_app; split; [done|split; [by intros ? ? ->%list_elem_of_singleton|apply NoDup_singleton]]|].
      apply Hcc. intros d [Hd|Hd%list_elem_of_singleton]%elem_of_app; [right|by left]. destruct (F3 d Hd) as (? & ?). split; [intros ->; done|done].
    + split; [intros r [= <-]|split; [done|]].
      * split; [done|]. split; [by apply (tree_alive w adopted Hm')|]. rewrite adopted_lookup, decide_True by done. eexists. split; [done|]. simpl.
        apply elem_of_app. right. by apply list_elem_of_singleton.
      * apply Hcc. intros d Hd. right. destruct (F3 d Hd) as (? & ? & ? & Hpd). split; [|eauto]. intros ->. simplify_eq.
    + split; [intros r Hr; by apply Hpc|]. split; [done|]. apply Hcc. intros d Hd. right. destruct (F3 d) as (? & ?); [rewrite Hch; by right|].
      split; [|done]. intros ->. done.
    + split; [intros r Hr; by apply Hpc|]. split; [done|]. apply Hcc. intros d Hd. right. destruct (F3 d Hd) as (? & y2 & Hy2 & Hpd). split; [|eauto]. intros ->. simplify_eq.
  - intros y'. rewrite adopted_lookup, Hini, decide_True by done. intros [= <-]. simpl. apply (v_init _ V). by rewrite Hini.
Qed.

End adopt.

(** ** Exit *)

Section exit.
Context (E : string → Prop).

Lemma upd_ok w p x f (Q : unit → pst → Prop) : procs w !! p = Some x → Q tt (set_procs <[p := f x]> w) → swp (upd_proc p f) w E Q.
Proof. intros Hp HQ. unfold upd_proc. apply swp_bind. eapply proc_at_ok; [done|]. by apply swp_modify. Qed.

Lemma reparent_ok l w p t x h z fuel :
  inv_but (Some p) w → live w p t x h → children x = l → p ≠ init_process w → (length l < fuel)%nat →
  swp (reparent fuel p z) w E (λ _ w', inv_but (Some p) w' ∧ live w' p t (set_children (λ _, []) x) h ∧
    locked w' = locked w ∧ current w' = current w ∧ init_process w' = init_process w ∧ files w' = files w ∧
    ∀ q, alive w q → alive w' q).
Proof.
  revert w x z fuel. induction l as [|c l IH]; intros w x z fuel V L Hch Hpi Hf; (destruct fuel as [|fuel]; [simpl in Hf; lia|]); cbn [reparent];
    pose proof L as (Hin & Hp & Hx & Ht); apply swp_bind; (eapply proc_at_ok; [done|]); apply swp_bind, swp_gets; rewrite Hch.
  - apply swp_ret. split; [done|]. split; [|done]. destruct x. simpl in *. by subst.
  - destruct (v_init _ V) as [Hia _]. pose proof Hia as (ui & zi & ki & _ & Hi & _).
    assert (Hc : ∃ y, procs w !! c = Some y).
    { destruct (v_proc _ V p Hin) as (x' & Hx' & _ & (_ & _ & F3) & _). rewrite Hp in Hx'. injection Hx' as <-. destruct (F3 c) as (_ & y & Hy & _); [rewrite Hch; left|]. eauto. }
    destruct Hc as [y Hc]. destruct (adopt_facts w V p _ c l x zi y Hp Hi Hc Hin Hpi Hia Hch eq_refl) as (_ & _ & Hcp & Hci & _).
    pose proof (inv_adopt w V p _ c l x zi y Hp Hi Hc Hin Hpi Hia Hch eq_refl) as V'. pose proof (adopted_lookup w p (init_process w) c l x zi y Hpi) as Hlk.
    apply swp_bind. eapply upd_ok; [done|]. apply swp_bind. eapply upd_ok; [simpl; rewrite lookup_insert_ne by congruence; done|].
    apply swp_bind. eapply upd_ok; [simpl; rewrite !lookup_insert_ne by congruence; done|]. apply swp_bind.
    set (w1 := set_procs (λ _, adopted w p (init_process w) c l x zi y) w) in *.
    change (set_procs _ (set_procs _ (set_procs _ w))) with w1.
    eapply proc_at_ok; [simpl; rewrite Hlk, decide_False, decide_True by done; done|].
    eapply swp_mono; [apply (IH w1 (set_children (λ _, l) x)); try done; [|simpl in Hf; lia]|].
    + split; [done|]. split; [simpl; by rewrite Hlk, !decide_False, decide_True by congruence|done].
    + intros z' w' (Vr & Lr & H1 & H2 & H3 & H4 & H5). split; [done|]. split; [done|]. split; [done|]. split; [done|]. split; [done|]. split; [done|].
      intros q Hq. apply H5. eapply tree_alive; [|done]. intros r x' Hr. rewrite Hlk. repeat case_decide; subst; simplify_eq; by eexists.
Qed.

(** The thread of an ended process is let go. *)
Lemma inv_gone w p t x h :
  inv_but (Some p) w → live w p t x h → state x = ZOMBIE → flags x = PROCESS_STATUS_AVAILABLE → children x = [] → p ≠ init_process w →
  Fd.tables (files w) !! p = Some (replicate (Z.to_nat Fd.OPEN_MAX) Fd.empty_desc) →
  inv (set_procs <[p := set_thread None x]> (set_threads <[t := set_t_process None h]> w)).
Proof.
  intros V L Hst Hfl Hch Hpi Hfd. pose proof L as (Hin & Hp & Hx & Ht). set (w' := set_procs _ _).
  assert (Hself : procs w' !! p = Some (set_thread None x)) by apply lookup_insert_eq.
  assert (Ho : ∀ q, q ≠ p → procs w' !! q = procs w !! q) by (intros q Hq; simpl; by rewrite lookup_insert_ne).
  assert (Htu : ∀ q y u, q ≠ p → procs w !! q = Some y → thread y = Some u → threads w' !! u = threads w !! u).
  { intros q y u Hq Hy Hu. simpl. rewrite lookup_insert_ne; [done|]. intros <-. apply Hq. by eapply thread_inj. }
  assert (Hl1 : ∀ q u y k, live w' q u y k → q ≠ p ∧ live w q u y k).
  { intros q u y k (Hl & Hy & Hu & Hk). destruct (decide (q = p)) as [->|Hq]; [rewrite Hself in Hy; by simplify_eq|]. split; [done|]. rewrite Ho in Hy by done.
    rewrite (Htu q y u) in Hk by done. done. }
  assert (Hl2 : ∀ q u y k, q ≠ p → live w q u y k → live w' q u y k).
  { intros q u y k Hq (Hl & Hy & Hu & Hk). split; [done|]. split; [by rewrite Ho|]. split; [done|]. by rewrite (Htu q y u). }
  assert (Hal : ∀ q, q ≠ p → alive w q → alive w' q) by (intros q Hq (u & y & k & H); exists u, y, k; by apply Hl2).
  assert (Hnp : ∀ q y, q ∈ process_list w → procs w !! q = Some y → parent y ≠ Some p).
  { intros q y Hq Hy Hpar. destruct (v_proc _ V q Hq) as (y' & Hy' & _ & (F1 & _) & _). rewrite Hy in Hy'. injection Hy' as <-.
    destruct (F1 p Hpar) as (_ & _ & x' & Hx' & Hcx). rewrite Hp in Hx'. injection Hx' as <-. rewrite Hch in Hcx. by apply not_elem_of_nil in Hcx. }
  split.
  - apply (v_nodup _ V).
  - intros q Hq. destruct (v_proc _ V q Hq) as (y & Hy & Hok & (F1 & F2 & F3) & Hn).
    assert (Hfam : ∀ y', parent y' = parent y → children y' = children y → family_ok w' q y').
    { intros y' Epar Ech. unfold family_ok. rewrite Epar, Ech. split; [|split; [done|]].
      - intros r Hr. destruct (F1 r Hr) as (Hrq & Hra & z & Hz & Hcz). assert (r ≠ p) by (intros ->; by apply (Hnp q y)).
        split; [done|]. split; [by apply Hal|]. exists z. by rewrite Ho.
      - intros c Hc. destruct (F3 c Hc) as (Hcl & z & Hz & Hpz). split; [done|]. destruct (decide (c = p)) as [->|Hcp]; [|exists z; by rewrite Ho].
        rewrite Hp in Hz. injection Hz as <-. by eexists. }
    destruct (decide (q = p)) as [->|Hqp].
    + rewrite Hp in Hy. injection Hy as <-. exists (set_thread None x). split; [done|]. split; [done|]. split; [by apply Hfam|done].
    + exists y. split; [by rewrite Ho|]. split; [|split; [by apply Hfam|done]]. unfold proc_ok in *. destruct (thread y) as [u|] eqn:Eu; [|done].
      destruct Hok as (k & Hk & Hkp & O & Hs). exists k. rewrite (Htu q y u) by done. split; [done|]. split; [done|]. split; [done|]. intros _. apply Hs. congruence.
  - intros a b ta tb xa xb ha hb s [_ H1]%Hl1 [_ H2]%Hl1. by eapply (v_apart _ V).
  - apply (v_pool_nodup _ V).
  - intros a ta xa ha s [_ H1]%Hl1. by eapply (v_pool _ V).
  - apply (v_threads_nodup _ V).
  - intros u Hu. destruct (v_threads _ V u Hu) as (k & Hk & Hno). assert (u ≠ t) by (intros ->; by apply (Hno p x)). exists k. simpl. rewrite lookup_insert_ne by done.
    split; [done|]. intros q y. rewrite lookup_insert. case_decide; [by intros [= <-]|]. apply Hno.
  - apply (v_procs_nodup _ V).
  - intros q Hq. destruct (v_procs _ V q Hq) as (Hnl & y & Hy & Hyt). assert (q ≠ p) by (intros ->; done). split; [done|]. exists y. by rewrite Ho.
  - intros q y u Hy Hu. destruct (decide (q = p)) as [->|Hqp]; [done|]. rewrite Ho in Hy by done. exact (v_unlisted _ V q y u Hy Hu).
  - destruct (v_init _ V) as [Ha Hpn]. split; [by apply Hal|]. intros y. simpl. rewrite lookup_insert_ne by done. apply Hpn.
  - destruct (v_hash _ V) as (Hl & H1 & H2). split; [done|]. split.
    + intros b l q Hb Hq. destruct (H1 b l q Hb Hq) as (He & y & Hy & Hyt). assert (q ≠ p) by congruence. split; [done|]. exists y. by rewrite Ho.
    + intros q y Hy Hyt _. destruct (decide (q = p)) as [->|Hqp]; [rewrite Hself in Hy; by simplify_eq|]. rewrite Ho in Hy by done. apply H2; [done|done|congruence].
  - intros q r y z Hq Hr Hy Hz. assert (Hold : ∀ q y, procs w' !! q = Some y → ∃ y0, procs w !! q = Some y0 ∧ pid y0 = pid y).
    { intros q0 y0. destruct (decide (q0 = p)) as [->|Hq0]; [rewrite Hself; intros [= <-]; by exists x|]. rewrite Ho by done. eauto. }
    destruct (Hold q y Hy) as (y0 & Hy0 & <-), (Hold r z Hz) as (z0 & Hz0 & <-). by apply (v_pids _ V).
  - destruct (v_files _ V) as [Fw Fo Fc]. split; [done| |].
    + intros q y Hy Hyt. destruct (decide (q = p)) as [->|Hqp]; [rewrite Hself in Hy; by simplify_eq|]. rewrite Ho in Hy by done. by eapply Fo.
    + intros q y tb Hy Hyt. destruct (decide (q = p)) as [->|Hqp]; [|rewrite Ho in Hy by done; by eapply Fc]. simpl. rewrite Hfd. by intros [= <-].
  - apply (v_next _ V).
Qed.

Lemma hash_remove_ok p w : hash_ok None w → hash_ok (Some p) (set_hash (hash_remove p) w).
Proof.
  intros (Hl & H1 & H2). unfold hash_ok. simpl. unfold hash_remove. split; [by rewrite length_fmap|]. split.
  - intros b l q. rewrite list_lookup_fmap. intros (l' & Hl' & ->)%fmap_Some [Hn Hq]%list_elem_of_filter. destruct (H1 b l' q Hl' Hq) as [_ H]. split; [congruence|done].
  - intros q y Hy Hyt Hq. destruct (H2 q y Hy Hyt ltac:(done)) as (l & Hlk & Hin). rewrite list_lookup_fmap, Hlk. eexists. split; [done|].
    apply list_elem_of_filter. split; [congruence|done].
Qed.

(** A process that ends leaves the pid table first. *)
Lemma inv_hash_remove p w : inv w → inv_but (Some p) (set_hash (hash_remove p) w).
Proof.
  intros V. pose proof (hash_remove_ok p w (v_hash _ V)) as Hh. pose proof (v_proc _ V) as Hp. destruct V. split; try done; [|by apply (files_ok_ext w)].
  intros q Hin. destruct (Hp q Hin) as (x & Hx & Hok & Hrest). exists x. split; [done|]. split; [|done].
  unfold proc_ok in *. destruct (thread x); [|done]. destruct Hok as (h & ? & ? & ? & H). exists h. split; [done|]. split; [done|]. split; [done|]. intros _. by apply H.
Qed.

Lemma inv_files ex f w : inv_but ex w → files_ok (set_files f w) → inv_but ex (set_files f w).
Proof. intros [] Hf. by split. Qed.

Lemma with_files_ok {A} (m : sm Fd.fds A) w (R : A → Fd.fds → Prop) (Q : A → pst → Prop) :
  swp m (files w) no_panic R → (∀ (a : A) f, R a f → Q a (set_files f w)) → swp (with_files m) w E Q.
Proof. unfold swp, with_files. destruct (m (files w)) as [[a f]|]; [|done]. intros H HQ. by apply HQ. Qed.

(** Closing the files of the process that ends. *)
Lemma close_files_ok ex w p t x h (Q : unit → pst → Prop) :
  inv_but ex w → live w p t x h →
  (∀ f, inv_but ex (set_files f w) → Fd.tables f !! p = Some (replicate (Z.to_nat Fd.OPEN_MAX) Fd.empty_desc) → Q tt (set_files f w)) →
  swp (with_files (Fd.fd_close_all p)) w E Q.
Proof.
  intros V (Hin & Hp & Hx & Ht) HQ. destruct (v_files _ V) as [[ext Fw] Fo Fc]. destruct (Fo p x Hp ltac:(congruence)) as [tb Htb].
  pose proof (Fd.wf_tables _ _ Fw p tb Htb) as Hok. eapply with_files_ok.
  - apply (Fd.sweep_ok ext _ p tb _ Fw Htb). intros d _ Hs. by bool_to_prop.
  - intros [] f [Hf HT]. rewrite Fd.sweep_open in HT by done. apply HQ; [|rewrite HT; apply lookup_insert_eq]. apply inv_files; [done|]. split; simpl.
    + by exists ext.
    + intros q y Hy Hyt. rewrite HT. apply lookup_insert_is_Some'. right. by eapply Fo.
    + intros q y tb' Hy Hyt. rewrite HT, lookup_insert. case_decide; [by intros [= <-]|]. by eapply Fc.
Qed.

(** What is left of a process that ended with the status [st]. *)
Definition remains (st : Z) x y : Prop :=
  thread y = None ∧ status y = st ∧ pid y = pid x ∧ pgid y = pgid x ∧ parent y = parent x ∧ utime y = utime x ∧ stime y = stime x.
Definition ended_as (p : nat) (st : Z) x (i : nat) w : Prop :=
  inv w ∧ locked w = false ∧ (∃ y, procs w !! p = Some y ∧ remains st x y) ∧ p ∈ process_list w ∧ init_process w = i.

(** The second half of [process_destroy]: the parent learns of the end. *)
Lemma zombie_ok w p t x h st :
  inv_but (Some p) w → live w p t x h → locked w = true → p ≠ init_process w → children x = [] → flags x = 0 →
  Fd.tables (files w) !! p = Some (replicate (Z.to_nat Fd.OPEN_MAX) Fd.empty_desc) →
  swp (upd_proc p (λ x, set_status st (set_flags (Z.lor (flags x) PROCESS_STATUS_AVAILABLE) (set_state ZOMBIE x)));;
      _signal_state_change_to_parent p;; t ← thread_of p NULL; upd_thread t (set_t_process None);; upd_proc p (set_thread None);;
      process_unlock;; modify (emit (Exit t))) w E (λ _, ended_as p st x (init_process w)).
Proof.
  intros V L Hl Hne Hch Hfl Hfd. pose proof L as (Hin & Ha). pose proof Ha as (Hp & Hx & Ht). pose proof (live_sig _ _ _ _ _ _ V L) as (Htp & O & (F1 & _) & _).
  apply swp_bind. eapply upd_proc_ok; [done|]. set (x1 := set_status _ _). set (w1 := put _ _ _ _ _ _ _ _).
  assert (V1 : inv_but (Some p) w1).
  { apply (inv_local (Some p) w p t x h); try done; [by apply (sig_ok_ext _ x _ h); auto|].
    apply moves_sub; [apply (v_pool_nodup _ V)| |done]. intros s Hs. by eapply (v_pool _ V p). }
  assert (L1 : live w1 p t x1 h) by (by eapply put_self). apply swp_bind.
  eapply swp_mono; [apply (state_change_ok E (Some p) w1 p x1); [done|done|apply L1|]|].
  { intros q Hq. destruct (F1 q Hq) as (Hqp & Hqa & _). split; [congruence|]. by eapply put_alive. }
  intros ? w2 [V2 Hl2 Hp2 Hli2 Hc2 Hi2 Hf2 Ha2 _]. destruct (Ha2 p) as (t2 & x2 & h2 & L2); [by do 3 eexists|].
  assert (x2 = x1 ∧ t2 = t) as [-> ->].
  { destruct L2 as (_ & Hx2 & Ht2 & _). rewrite Hp2 in Hx2. destruct L1 as (_ & Hx1 & Ht1 & _). by simplify_eq. }
  pose proof L2 as (Hin2 & Ha3). pose proof Ha3 as (Hpx & Hxt & Htt). apply swp_bind. eapply thread_of_ok; [done..|].
  apply swp_bind. unfold upd_thread. apply swp_bind. eapply thread_at_ok; [done|]. apply swp_modify. apply swp_bind. eapply upd_ok; [exact Hpx|].
  apply swp_bind, p_unlock_ok; [exact (eq_trans Hl2 Hl)|]. apply swp_modify. split; [|split; [done|]; split; [|split; [done|exact Hi2]]].
  2: { eexists. split; [apply lookup_insert_eq|done]. }
  apply inv_log, inv_locked. apply inv_gone; try done.
  - simpl. by rewrite Hfl.
  - by rewrite Hi2.
  - by rewrite Hf2.
Qed.

Lemma destroy_ok w st :
  inv w → alive w (current w) → locked w = false → current w ≠ init_process w →
  swp (process_destroy st) w E (λ _ w', ∃ x, procs w !! current w = Some x ∧ ended_as (current w) st x (init_process w) w').
Proof.
  intros V Hcur Hl Hne. unfold process_destroy. apply swp_bind, swp_gets. set (p := current w) in *. apply swp_bind, swp_modify.
  destruct Hcur as (t & x & h & L). pose proof (live_ok _ _ _ _ _ _ V L ltac:(done)) as (_ & _ & _ & _ & Hfl & _). apply (inv_hash_remove p) in V. apply swp_bind. eapply close_files_ok; [exact V|exact L|]. intros f V1 Hfd. apply swp_bind, p_lock_ok; [done|].
  apply (inv_locked (Some p) true) in V1. set (w1 := set_locked true _) in V1. fold w1. assert (L1 : live w1 p t x h) by exact L. pose proof L1 as (Hin & Ha). pose proof Ha as (Hp & Hx & Ht).
  pose proof (live_sig _ _ _ _ _ _ V1 L1) as (Htp & O & _ & _). apply swp_bind. eapply upd_proc_ok; [exact Ha|]. set (x2 := set_ustack _ _).
  assert (V2 : inv_but (Some p) (put w1 p t x2 h (infos w1) (signal_pool w1) (log w1))).
  { apply (inv_local (Some p) w1 p t x h); try done; [by apply (sig_ok_ext _ x _ h); auto|].
    apply moves_sub; [apply (v_pool_nodup _ V1)| |done]. intros s Hs. by eapply (v_pool _ V1 p). }
  set (w2 := put _ _ _ _ _ _ _ _) in *. assert (L2 : live w2 p t x2 h) by (by eapply put_self).
  apply swp_bind. eapply proc_at_ok; [apply L2|]. apply swp_bind. eapply swp_mono; [apply (reparent_ok (children x2) w2 p t x2 h); try done; lia|].
  intros z w3 (V3 & L3 & Hl3 & Hc3 & Hi3 & Hf3 & _). apply swp_bind, swp_gets, swp_bind. unfold when.
  assert (Hend : ∀ w4, locked w4 = true → inv_but (Some p) w4 → live w4 p t (set_children (λ _, []) x2) h → init_process w4 = init_process w → files w4 = files w2 →
    swp (upd_proc p (λ x, set_status st (set_flags (Z.lor (flags x) PROCESS_STATUS_AVAILABLE) (set_state ZOMBIE x)));;
      _signal_state_change_to_parent p;; t ← thread_of p NULL; upd_thread t (set_t_process None);; upd_proc p (set_thread None);;
      process_unlock;; modify (emit (Exit t))) w4 E (λ _ w', ∃ x, procs w !! p = Some x ∧ ended_as p st x (init_process w) w')).
  { intros w4 Hl4 V4 L4 Hi4 Hf4. eapply swp_mono; [apply (zombie_ok _ p t (set_children (λ _, []) x2) h); [exact V4|exact L4|exact Hl4|rewrite Hi4; exact Hne|done|exact Hfl|rewrite Hf4; exact Hfd]|].
    intros ? w5 (? & ? & (y & Hy & R) & ? & Hi5). exists x. split; [apply L|]. split; [done|]. split; [done|]. split; [exists y; split; [done|exact R]|]. split; [done|congruence]. }
  destruct z; [apply swp_modify|apply swp_ret]; (apply Hend; [exact Hl3|first [exact V3|apply inv_log; exact V3]|exact L3|exact Hi3|exact Hf3]).
Qed.

(** ** Delivery *)

Lemma dequeued_loose w p t x h signo s :
  inv w → live w p t x h → is_pend h signo s → loose (put w p t x (clear signo h) (infos w) (signal_pool w) (log w)) s.
Proof.
  intros V L Hpe. pose proof (live_sig _ _ _ _ _ _ V L) as (_ & O & _). assert (Hs : s ∈ signal_queue h) by (apply (so_both _ _ _ O); by eexists).
  pose proof Hpe as [Hr _]. split; [by eapply (v_pool _ V p)|]. intros q u y k Hq. destruct (decide (q = p)) as [->|Hqp].
  - assert (Hself : live (put w p t x (clear signo h) (infos w) (signal_pool w) (log w)) p t x (clear signo h)) by (eapply put_self; [done|apply L]).
    destruct (live_fun _ _ _ _ _ _ _ _ Hq Hself) as (-> & -> & ->). intros [_ Hn]%(clear_queue _ _ _ _ _ O Hr). done.
  - eapply live_put in Hq; [|done|done|done]. by eapply (v_apart _ V p q).
Qed.

(** No signal that is queued would end the current process: its default action is
    not to terminate, or the frame for its handler can be copied. *)
Definition harmless (mapped : Z → bool) (fsz : Z) w : Prop := ∀ t x h s i a,
  live w (current w) t x h → s ∈ signal_queue h → infos w !! s = Some i → signal_actions x !! Z.to_nat (SIGNAL_INDEX (si_signo i)) = Some a →
  if sa_handler a =? SIG_DFL then terminates (si_signo i) = false else mapped (frame_va fsz h) = true.

Lemma deliver_ok sok fsz w :
  inv w → alive w (current w) → locked w = false → (current w = init_process w → harmless sok fsz w) →
  (∀ t x h, live w (current w) t x h → user_range fsz (frame_va fsz h) = false → E INVALID_RANGE) → swp (signal_deliver_pending sok fsz) w E kept.
Proof.
  intros V (t & x & h & L) Hl Hne HE. specialize (HE t x h L).
  assert (Hhl : current w = init_process w → ∀ s i a, s ∈ signal_queue h → infos w !! s = Some i → signal_actions x !! Z.to_nat (SIGNAL_INDEX (si_signo i)) = Some a →
    if sa_handler a =? SIG_DFL then terminates (si_signo i) = false else sok (frame_va fsz h) = true) by (intros Hi s i a; by apply (Hne Hi t x h s i a L)).
  unfold signal_deliver_pending. apply swp_bind, swp_gets, swp_bind, p_lock_ok; [done|].
  apply (inv_locked None true) in V. set (w0 := set_locked true w) in *. set (p := current w) in *. change (live w0 p t x h) in L.
  pose proof (live_ok _ _ _ _ _ _ V L ltac:(done)) as (Htp & O & Hst & _). pose proof L as (Hin & Ha). pose proof Ha as (Hp & Hx & Ht).
  unfold signal_dequeue. apply swp_bind, swp_bind. eapply thread_of_ok; [done..|]. apply swp_bind. eapply thread_at_ok; [done|].
  eapply swp_mono; [by apply (dequeue_ok E w0 p t x h)|]. intros [s|] w1; [|intros [-> _]; by apply unlock_kept].
  intros (i & _ & _ & _ & _ & Hi & Hpe & _ & ->). pose proof Hpe as [Hr _]. set (signo := si_signo i) in *.
  destruct (clear_ok _ _ _ _ O Hr) as [O1 Hn1].
  set (w1 := put w0 p t x (clear signo h) (infos w0) (signal_pool w0) (log w0)).
  assert (V1 : inv w1).
  { apply (inv_cur w0 p t x h); [done|done|by destruct x|done|apply clear_same|done|by apply (clear_subset (infos w0) x)]. }
  assert (L1 : live w1 p t x (clear signo h)) by (eapply put_self; done). assert (Hlo : loose w1 s) by (by apply (dequeued_loose w0)).
  apply swp_bind. unfold info_at. apply swp_bind, swp_gets, swp_need; [intros HN; change (infos w0 !! s = None) in HN; congruence|].
  intros i' Hi'. change (infos w0 !! s = Some i') in Hi'. rewrite Hi in Hi'. injection Hi' as <-. apply swp_bind. eapply proc_at_ok; [apply L1|]. apply swp_bind. fold signo. rewrite at_index_ok by done. apply swp_need.
  { intros Hge%lookup_ge_None_1. rewrite (so_act _ _ _ O) in Hge. unfold SIGNAL_INDEX, NSIG in *. lia. }
  intros a Hact. pose proof (so_ignored _ _ _ O signo a ltac:(by eexists) Hact) as Hig.
  assert (Hsq : s ∈ signal_queue h) by (apply (so_both _ _ _ O); by eexists).
  apply swp_bind. apply (swp_mono _ _ _ (λ r w', acted w1 p w' ∧ (p = init_process w → r = 0))).
  - destruct (Z.eqb_spec (sa_handler a) SIG_DFL) as [Ed|Ed].
    + eapply swp_mono; [apply (default_ok E w1 p t x (clear signo h) h); try done; [by eexists| |]|].
      3: { intros r w' [A Hr0]. split; [done|]. intros Hi'. apply Hr0. specialize (Hhl Hi' s i a Hsq Hi Hact). by rewrite Ed in Hhl. }
      * intros signo'. rewrite (clear_pends _ _ _ _ _ O Hr). tauto.
      * unfold ignored_by in *. rewrite Ed in Hig. done.
    + destruct (Z.eqb_spec (sa_handler a) SIG_IGN) as [Eg|Eg]; [unfold ignored_by in Hig; rewrite Eg in Hig; done|].
      assert (Etf : frame_va fsz (clear signo h) = frame_va fsz h) by (unfold frame_va, clear; by destruct (signal_pending h !! _) as [[]|]).
      eapply swp_mono; [apply (custom_ok E sok fsz w1 p t x (clear signo h) s i); try done; by rewrite Etf|].
      intros r w' [A Hr0]. split; [done|]. intros Hi'. apply Hr0. rewrite Etf. specialize (Hhl Hi' s i a Hsq Hi Hact). by destruct (Z.eqb_spec (sa_handler a) SIG_DFL).
  - intros code w2 [[V2 Hl2 Ha2 Hc2 Hi2 Hlo2] Hcode]. apply swp_bind, swp_modify, swp_bind, p_unlock_ok; [done|]. apply swp_when.
    + intros Hnz. eapply swp_mono; [apply destroy_ok; [by apply inv_locked, signal_free_ok, Hlo2|simpl; by rewrite Hc2|done|simpl; rewrite Hc2, Hi2]|].
      { intros Hi'. by rewrite (Hcode Hi') in Hnz. }
      intros ? w3 (? & _ & ? & ? & _). done.
    + intros _. split; [by apply inv_locked, signal_free_ok, Hlo2|done].
Qed.

End exit.

(** ** Fork *)

Lemma elem_hash_put q n l b (lb : list nat) r :
  hash_put q n l !! b = Some lb → r ∈ lb → (r = q ∧ b = bucket n) ∨ ∃ lb', l !! b = Some lb' ∧ r ∈ lb'.
Proof.
  unfold hash_put. rewrite list_lookup_alter. case_decide as E'; [|by eauto]. subst b.
  intros (lb' & Hl & ->)%fmap_Some. intros [Hr|Hr%list_elem_of_singleton]%elem_of_app; eauto.
Qed.

Lemma hash_put_elem q n l b (lb : list nat) r : l !! b = Some lb → r ∈ lb ∨ r = q ∧ b = bucket n → ∃ lb', hash_put q n l !! b = Some lb' ∧ r ∈ lb'.
Proof.
  unfold hash_put. rewrite list_lookup_alter. intros Hl Hr. case_decide as E'.
  - rewrite E', Hl. eexists. split; [done|]. apply elem_of_app. destruct Hr as [Hr|[-> _]]; [by left|right; by apply list_elem_of_singleton].
  - exists lb. split; [done|]. destruct Hr as [?|[_ ?]]; [done|congruence].
Qed.

Lemma pid_bucket_lt n : (bucket n < Z.to_nat NBUCKET)%nat.
Proof. unfold bucket. pose proof (Z.mod_pos_bound (u32 n) NBUCKET ltac:(done)). lia. Qed.

Lemma fork_fresh w p t x h q u pp tp :
  inv w → live w p t x h → process_pool w = q :: pp → thread_pool w = u :: tp →
  q ∉ process_list w ∧ q ≠ p ∧ (∃ y0, procs w !! q = Some y0 ∧ thread y0 = None) ∧ unused w u.
Proof.
  intros V L Hpp Htp. destruct (v_procs _ V q) as (Hnl & y0 & Hy0 & Ht0); [rewrite Hpp; left|]. split; [done|]. split; [intros ->; by destruct L|]. split; [eauto|].
  apply (v_threads _ V). rewrite Htp. left.
Qed.

Section fork.
Context (w w' : pst) (p t : nat) (x : Process) (h : Thread) (V : inv w) (L : live w p t x h).
Context (q u : nat) (pp tp : list nat) (y : Process) (k : Thread).
Context (Hpp : process_pool w = q :: pp) (Htp : thread_pool w = u :: tp).
Context (Hlist : process_list w' = process_list w ++ [q]) (Hpp' : process_pool w' = pp) (Htp' : thread_pool w' = tp).
Context (Hdl : thread_destroy_list w' = thread_destroy_list w) (Hin : infos w' = infos w) (Hsp : signal_pool w' = signal_pool w).
Context (Hini : init_process w' = init_process w) (Hnext : next_pid w ≤ next_pid w').
Context (Hp' : procs w' !! p = Some (set_children (λ l, l ++ [q]) x)) (Hq' : procs w' !! q = Some y).
Context (Hother : ∀ r, r ≠ p → r ≠ q → procs w' !! r = procs w !! r).
Context (Hu' : threads w' !! u = Some k) (Hthreads : ∀ v, v ≠ u → threads w' !! v = threads w !! v).
Context (Hy : thread y = Some u ∧ parent y = Some p ∧ children y = [] ∧ state y = ACTIVE ∧ vm y = true ∧ flags y = 0 ∧ next_pid w < pid y ≤ next_pid w').
Context (Hk : t_process k = Some q ∧ signal_queue k = [] ∧ sig_ok (infos w) y k).
Context (Hhash : pid_hash w' = hash_put q (pid y) (pid_hash w)).
Context (Hfiles : files_ok w').

Lemma fork_live r v z l : live w' r v z l →
  (r = q ∧ v = u ∧ z = y ∧ l = k) ∨ (r ≠ q ∧ ∃ z0, live w r v z0 l ∧ (r ≠ p → z0 = z) ∧ signal_actions z0 = signal_actions z).
Proof.
  destruct (fork_fresh w p t x h q u pp tp V L Hpp Htp) as (Hnl & Hqp & _ & Hun). intros (Hrl & Hz & Hv & Hl). destruct (decide (r = q)) as [->|Hrq].
  - left. rewrite Hq' in Hz. injection Hz as <-. destruct Hy as (Ey & _). rewrite Ey in Hv. injection Hv as <-. rewrite Hu' in Hl. by injection Hl as <-.
  - right. split; [done|]. rewrite Hlist in Hrl. apply elem_of_app in Hrl as [Hrl|Hrl%list_elem_of_singleton]; [|done].
    assert (Hzz : ∃ z0, procs w !! r = Some z0 ∧ thread z0 = thread z ∧ (r ≠ p → z0 = z) ∧ signal_actions z0 = signal_actions z).
    { destruct (decide (r = p)) as [->|Hrp]; [|exists z; by rewrite <- Hother]. rewrite Hp' in Hz. injection Hz as <-. exists x. by destruct L as (_ & ? & _). }
    destruct Hzz as (z0 & Hz0 & Et & Ez & Ea). rewrite <- Et in Hv. exists z0. split; [|done]. split; [done|]. split; [done|]. split; [done|].
    rewrite <- Hthreads; [done|]. intros ->. destruct Hun as (? & _ & Hno). by apply (Hno r z0).
Qed.

Lemma live_fork r v z l : live w r v z l → live w' r v (if decide (r = p) then set_children (λ l, l ++ [q]) x else z) l.
Proof.
  destruct (fork_fresh w p t x h q u pp tp V L Hpp Htp) as (Hnl & Hqp & _ & Hun). intros (Hrl & Hz & Hv & Hl).
  assert (v ≠ u) by (intros ->; destruct Hun as (? & _ & Hno); by apply (Hno r z)).
  split; [rewrite Hlist; apply elem_of_app; by left|]. case_decide as E.
  - subst r. destruct L as (_ & Hpx & Hxt & _). rewrite Hz in Hpx. injection Hpx as ->. split; [done|]. split; [done|]. by rewrite Hthreads.
  - split; [rewrite Hother; [done|done|intros ->; done]|]. split; [done|]. by rewrite Hthreads.
Qed.

Lemma fork_alive r : alive w r → alive w' r.
Proof. intros (v & z & l & H). by eexists _, _, _; apply live_fork. Qed.

Lemma fork_family r z : r ∈ process_list w → procs w !! r = Some z → family_ok w r z →
  family_ok w' r (if decide (r = p) then set_children (λ l, l ++ [q]) x else z).
Proof.
  destruct (fork_fresh w p t x h q u pp tp V L Hpp Htp) as (Hnl & Hqp & _ & Hun). pose proof L as (Hpl & Hpx & _). intros Hrl Hz (F1 & F2 & F3).
  assert (Hpar : ∀ r0, parent z = Some r0 → r0 ≠ r ∧ alive w' r0 ∧ ∃ y0, procs w' !! r0 = Some y0 ∧ r ∈ children y0).
  { intros r0 Hr0. destruct (F1 r0 Hr0) as (Hne & Hra & z1 & Hz1 & Hc1). split; [done|]. split; [by apply fork_alive|].
    destruct (decide (r0 = p)) as [->|Hr0p]; [eexists; split; [done|]; rewrite Hpx in Hz1; injection Hz1 as <-; simpl; apply elem_of_app; by left|].
    exists z1. rewrite Hother; [done|done|]. intros ->. destruct Hra as (? & ? & ? & Hl & _). done. }
  assert (Hchi : ∀ c, c ∈ children z → c ∈ process_list w' ∧ ∃ y0, procs w' !! c = Some y0 ∧ parent y0 = Some r).
  { intros c Hc. destruct (F3 c Hc) as (Hcl & z1 & Hz1 & Hp1). split; [rewrite Hlist; apply elem_of_app; by left|].
    destruct (decide (c = p)) as [->|Hcp]; [eexists; split; [done|]; rewrite Hpx in Hz1; by injection Hz1 as <-|].
    exists z1. rewrite Hother; [done|done|]. intros ->. done. }
  case_decide as E; [|done]. subst r. rewrite Hpx in Hz. injection Hz as <-. split; [done|]. simpl. split.
  - apply NoDup_app. split; [done|]. split; [|apply NoDup_singleton]. intros c Hc ->%list_elem_of_singleton. by destruct (F3 q Hc).
  - intros c [Hc|Hc%list_elem_of_singleton]%elem_of_app; [by apply Hchi|]. subst c. split; [rewrite Hlist; apply elem_of_app; right; by apply list_elem_of_singleton|].
    exists y. split; [done|]. by destruct Hy as (_ & ? & _).
Qed.

Lemma fork_hash : hash_ok None w'.
Proof.
  destruct (fork_fresh w p t x h q u pp tp V L Hpp Htp) as (Hnl & Hqp & (y0 & Hy0 & Ht0) & _). destruct Hy as (Eyt & _). pose proof L as (Hpl & Hpx & Hxt & _).
  destruct (v_hash _ V) as (Hl & H1 & H2). unfold hash_ok. rewrite Hhash. split; [unfold hash_put; by rewrite length_alter|]. split.
  - intros b l r Hb Hr. split; [done|]. destruct (elem_hash_put _ _ _ _ _ _ Hb Hr) as [[-> ->]|(lb & Hlb & Hr')]; [exists y; by rewrite Hq', Eyt|].
    destruct (H1 b lb r Hlb Hr') as (_ & z & Hz & Hzt & Eb). assert (r ≠ q) by (intros ->; congruence).
    destruct (decide (r = p)) as [->|]; [rewrite Hpx in Hz; injection Hz as <-; by eexists|]. exists z. by rewrite Hother.
  - intros r z Hz Hzt _. destruct (decide (r = q)) as [->|Hrq].
    + rewrite Hq' in Hz. injection Hz as <-. destruct (lookup_lt_is_Some_2 (pid_hash w) (bucket (pid y))) as [lb Hlb]; [rewrite Hl; apply pid_bucket_lt|].
      apply (hash_put_elem _ _ _ _ lb); [done|by right].
    + assert (Hz0 : ∃ z0, procs w !! r = Some z0 ∧ thread z0 = thread z ∧ pid z0 = pid z).
      { destruct (decide (r = p)) as [->|]; [rewrite Hp' in Hz; injection Hz as <-; by exists x|]. exists z. by rewrite <- Hother. }
      destruct Hz0 as (z0 & Hz0 & Et & <-). destruct (H2 r z0 Hz0 ltac:(congruence) ltac:(done)) as (lb & Hlb & Hr). apply (hash_put_elem _ _ _ _ lb); [done|by left].
Qed.

Lemma fork_pids : pids_ok w'.
Proof.
  destruct (fork_fresh w p t x h q u pp tp V L Hpp Htp) as (Hnl & Hqp & _). destruct Hy as (_ & _ & _ & _ & _ & _ & Hn). pose proof L as (Hpl & Hpx & _).
  assert (Hold : ∀ r z, r ∈ process_list w' → procs w' !! r = Some z → r = q ∧ z = y ∨ r ∈ process_list w ∧ ∃ z0, procs w !! r = Some z0 ∧ pid z0 = pid z).
  { intros r z Hr Hz. rewrite Hlist in Hr. destruct (decide (r = q)) as [->|Hrq]; [left; split; [done|congruence]|right].
    apply elem_of_app in Hr as [Hr|?%list_elem_of_singleton]; [|done]. split; [done|].
    destruct (decide (r = p)) as [->|]; [rewrite Hp' in Hz; injection Hz as <-; by exists x|]. exists z. by rewrite <- Hother. }
  assert (Hle : ∀ r z0, r ∈ process_list w → procs w !! r = Some z0 → pid z0 ≤ next_pid w).
  { intros r z0 Hr Hz. destruct (v_proc _ V r Hr) as (z' & Hz' & _ & _ & Hb). rewrite Hz in Hz'. injection Hz' as <-. lia. }
  intros r r' z z' Hr Hr' Hz Hz' E. destruct (Hold r z Hr Hz) as [[-> ->]|(Hl & z0 & Hz0 & E0)], (Hold r' z' Hr' Hz') as [[-> ->]|(Hl' & z0' & Hz0' & E0')]; [done| | |].
  - pose proof (Hle _ _ Hl' Hz0'). lia.
  - pose proof (Hle _ _ Hl Hz0). lia.
  - eapply (v_pids _ V); try done. congruence.
Qed.

Lemma inv_fork : inv w'.
Proof.
  destruct (fork_fresh w p t x h q u pp tp V L Hpp Htp) as (Hnl & Hqp & (y0 & Hy0 & Ht0) & Hun). destruct Hy as (Eyt & Eyp & Eyc & Eys & Eyv & Eyf & Eyn). destruct Hk as (Ekp & Ekq & Oq).
  pose proof L as (Hpl & Hpx & Hxt & Htt). split.
  - rewrite Hlist. apply NoDup_app. split; [apply (v_nodup _ V)|]. split; [|apply NoDup_singleton]. by intros r Hr ->%list_elem_of_singleton.
  - intros r. rewrite Hlist. intros [Hr|Hr%list_elem_of_singleton]%elem_of_app.
    + assert (r ≠ q) by (intros ->; done). destruct (v_proc _ V r Hr) as (z & Hz & Hok & Hf & Hn). exists (if decide (r = p) then set_children (λ l, l ++ [q]) x else z).
      split; [case_decide; [by subst|by rewrite Hother]|]. split; [|split; [by apply fork_family|case_decide; [subst; rewrite Hpx in Hz; injection Hz as <-; simpl; lia|lia]]].
      assert (Hok' : proc_ok None w' r z).
      { unfold proc_ok in *. destruct (thread z) as [v|] eqn:Ev; [|done]. destruct Hok as (l & Hl & Hlp & O & Hs). exists l. rewrite Hin, Hthreads; [done|].
        intros ->. destruct Hun as (? & _ & Hno). by apply (Hno r z). }
      case_decide; [|done]. subst r. rewrite Hpx in Hz. injection Hz as <-. unfold proc_ok in *. simpl. rewrite Hxt in *. destruct Hok' as (l & Hl & Hlp & O & Hs).
      exists l. split; [done|]. split; [done|]. split; [by apply (sig_ok_ext _ x _ l); auto|done].
    + subst r. exists y. split; [done|]. split; [|split; [|pose proof (v_next _ V); lia]].
      * unfold proc_ok. rewrite Eyt, Hin. exists k. split; [done|]. split; [done|]. split; [done|]. by rewrite Eys, Eyv, Eyf.
      * unfold family_ok. rewrite Eyp, Eyc. split; [|split; [constructor|by intros c ?%not_elem_of_nil]]. intros r [= <-]. split; [done|].
        split; [apply fork_alive; by do 3 eexists|]. eexists. split; [done|]. simpl. apply elem_of_app. right. by apply list_elem_of_singleton.
  - intros a b ta tb xa xb ha hb s [(-> & -> & -> & ->)|[Ha (za & La & _)]]%fork_live [(-> & -> & -> & ->)|[Hb (zb & Lb & _)]]%fork_live Hne Hs1 Hs2; try done.
    + rewrite Ekq in Hs1. by apply not_elem_of_nil in Hs1.
    + rewrite Ekq in Hs2. by apply not_elem_of_nil in Hs2.
    + by eapply (v_apart _ V a b).
  - rewrite Hsp. apply (v_pool_nodup _ V).
  - intros a ta xa ha s [(-> & -> & -> & ->)|[Ha (za & La & _)]]%fork_live Hs; [rewrite Ekq in Hs; by apply not_elem_of_nil in Hs|]. rewrite Hsp. by eapply (v_pool _ V a).
  - rewrite Htp', Hdl. pose proof (v_threads_nodup _ V) as Hnd. rewrite Htp in Hnd. by apply NoDup_cons in Hnd as [_ ?].
  - intros v Hv. rewrite Htp', Hdl in Hv. pose proof (v_threads_nodup _ V) as Hnd. rewrite Htp in Hnd. apply NoDup_cons in Hnd as [Hu _].
    destruct (v_threads _ V v) as (l & Hl & Hno); [rewrite Htp; by right|]. assert (v ≠ u) by (intros ->; done). exists l. rewrite Hthreads by done. split; [done|].
    intros r z. destruct (decide (r = q)) as [->|]; [rewrite Hq'; intros [= <-]; congruence|]. destruct (decide (r = p)) as [->|]; [|rewrite Hother by done; apply Hno].
    rewrite Hp'. intros [= <-]. simpl. by apply (Hno p x).
  - rewrite Hpp'. pose proof (v_procs_nodup _ V) as Hnd. rewrite Hpp in Hnd. by apply NoDup_cons in Hnd as [_ ?].
  - intros r Hr. rewrite Hpp' in Hr. pose proof (v_procs_nodup _ V) as Hnd. rewrite Hpp in Hnd. apply NoDup_cons in Hnd as [Hq _].
    assert (r ≠ q) by (intros ->; done). destruct (v_procs _ V r) as (Hrl & z & Hz & Hzt); [rewrite Hpp; by right|]. assert (r ≠ p) by (intros ->; done).
    split; [|exists z; by rewrite Hother]. rewrite Hlist. by intros [?|?%list_elem_of_singleton]%elem_of_app.
  - intros r z v Hz Hv. rewrite Hlist. apply elem_of_app. destruct (decide (r = q)) as [->|]; [right; by apply list_elem_of_singleton|left].
    destruct (decide (r = p)) as [->|]; [done|]. rewrite Hother in Hz by done. exact (v_unlisted _ V r z v Hz Hv).
  - rewrite Hini. destruct (v_init _ V) as [Ha Hpn]. split; [by apply fork_alive|]. intros z. destruct (decide (init_process w = p)) as [E|Hne].
    + rewrite E, Hp'. intros [= <-]. simpl. apply Hpn. by rewrite E.
    + rewrite Hother; [apply Hpn|done|]. intros E. destruct Ha as (? & ? & ? & Hl & _). by rewrite E in Hl.
  - apply fork_hash.
  - apply fork_pids.
  - done.
  - pose proof (v_next _ V). lia.
Qed.

End fork.

Section copy.
Context (E : string → Prop).

Definition NO_FREE : string := "Assertion failed: process->thread == NULL".

(** The thread object the next process gets has an empty signal queue.  This is
    not so for the thread of a process that ended with signals pending. *)
Definition clean_thread w : Prop := ∀ u tp k, thread_pool w = u :: tp → threads w !! u = Some k → signal_queue k = [].

Definition rest w w1 : Prop :=
  infos w = infos w1 ∧ process_list w = process_list w1 ∧ pid_hash w = pid_hash w1 ∧ next_pid w = next_pid w1 ∧
  init_process w = init_process w1 ∧ current w = current w1 ∧ process_pool w = process_pool w1 ∧ thread_pool w = thread_pool w1 ∧
  signal_pool w = signal_pool w1 ∧ thread_destroy_list w = thread_destroy_list w1.

(** The state while the child [q] and its thread [u] are filled in; the rest of
    it is that of [w1]. *)
Record stage (w1 : pst) (q u : nat) (w : pst) (y : Process) (k : Thread) (b : bool) (f : Fd.fds) : Prop := {
  sg_q : procs w !! q = Some y;
  sg_procs r : r ≠ q → procs w !! r = procs w1 !! r;
  sg_u : threads w !! u = Some k;
  sg_threads v : v ≠ u → threads w !! v = threads w1 !! v;
  sg_rest : rest w w1;
  sg_locked : locked w = b;
  sg_files : files w = f }.

Lemma rest_next n w w1 : rest w w1 → rest (set_next_pid n w) (set_next_pid n w1).
Proof. by intros (? & ? & ? & ? & ? & ? & ? & ? & ? & ?). Qed.

Lemma rest_hash g w w1 : rest w w1 → rest (set_hash g w) (set_hash g w1).
Proof. intros (? & ? & Hh & ? & ? & ? & ? & ? & ? & ?). unfold rest. simpl. by rewrite Hh. Qed.

Section stages.
Context (w1 : pst) (q u : nat).

Lemma stage_proc w y k b f g (Q : unit → pst → Prop) :
  stage w1 q u w y k b f → (∀ w', stage w1 q u w' (g y) k b f → Q tt w') → swp (upd_proc q g) w E Q.
Proof.
  intros [Hq Hp Hu Ht Hr Hl Hf] HQ. eapply upd_ok; [exact Hq|]. apply HQ. split; try done; simpl; [apply lookup_insert_eq|].
  intros r Hne. rewrite lookup_insert_ne by done. by apply Hp.
Qed.

Lemma stage_thread w y k b f g (Q : unit → pst → Prop) :
  stage w1 q u w y k b f → (∀ w', stage w1 q u w' y (g k) b f → Q tt w') → swp (upd_thread u g) w E Q.
Proof.
  intros [Hq Hp Hu Ht Hr Hl Hf] HQ. unfold upd_thread. apply swp_bind. eapply thread_at_ok; [exact Hu|]. apply swp_modify, HQ. split; try done; simpl; [apply lookup_insert_eq|].
  intros r Hne. rewrite lookup_insert_ne by done. by apply Ht.
Qed.

Lemma stage_lock w y k f (Q : unit → pst → Prop) :
  stage w1 q u w y k false f → (∀ w', stage w1 q u w' y k true f → Q tt w') → swp process_lock w E Q.
Proof. intros [Hq Hp Hu Ht Hr Hl Hf] HQ. apply p_lock_ok; [done|]. by apply HQ. Qed.

Lemma stage_files w y k b f (m : sm Fd.fds unit) (R : unit → Fd.fds → Prop) (Q : unit → pst → Prop) :
  stage w1 q u w y k b f → swp m f no_panic R → (∀ w' f', stage w1 q u w' y k b f' → R tt f' → Q tt w') → swp (with_files m) w E Q.
Proof. intros [Hq Hp Hu Ht Hr Hl Hf] Hm HQ. eapply with_files_ok; [by rewrite Hf|]. intros [] f' HR. by eapply HQ. Qed.

Lemma stage_over (g : pst → pst) w y k b f :
  stage w1 q u w y k b f → (∀ v, procs (g v) = procs v ∧ threads (g v) = threads v ∧ locked (g v) = locked v ∧ files (g v) = files v) →
  (∀ v v', rest v v' → rest (g v) (g v')) → stage (g w1) q u (g w) y k b f.
Proof.
  intros [Hq Hp Hu Ht Hr Hl Hf] Hg Hg'. destruct (Hg w) as (E1 & E2 & E3 & E4), (Hg w1) as (E1' & E2' & _).
  split; [by rewrite E1|by rewrite E1, E1'|by rewrite E2|by rewrite E2, E2'|by apply Hg'|congruence..].
Qed.

Lemma stage_thread_of w y k b f why (Q : nat → pst → Prop) : stage w1 q u w y k b f → thread y = Some u → Q u w → swp (thread_of q why) w E Q.
Proof. intros S Hy HQ. eapply thread_of_ok; [apply (sg_q _ _ _ _ _ _ _ _ S)|done|done]. Qed.

End stages.

Lemma process_alloc_ok w q u pp tp y k (R : Fd.fds → Prop) (Q : option nat → pst → Prop) :
  let n := next_pid w + 1 in
  process_pool w = q :: pp → thread_pool w = u :: tp → procs w !! q = Some y → threads w !! u = Some k →
  (2 ^ 31 ≤ n → E "pid overflow") → swp (Fd.fd_init q) (files w) no_panic (λ _, R) →
  (∀ w' y' k' f, stage (set_hash (hash_put q n) (set_next_pid n (set_pools pp tp w))) q u w' y' k' (locked w) f → R f →
     thread y' = Some u ∧ children y' = [] ∧ state y' = ACTIVE ∧ flags y' = 0 ∧ pid y' = n →
     t_process k' = Some q ∧ signal_queue k' = signal_queue k → Q (Some q) w') →
  swp (process_alloc true) w E Q.
Proof.
  intros n Hpp Htp Hq Hu HE Hfd HQ. unfold process_alloc. apply swp_bind, swp_gets, swp_bind, swp_gets. rewrite Hpp, Htp. apply swp_bind, swp_check; [done|]. intros _. apply swp_bind, swp_modify.
  assert (S : stage (set_pools pp tp w) q u (set_pools pp tp w) y k (locked w) (files w)) by (split; try done; repeat (split; [done|]); done).
  apply swp_bind. eapply stage_proc; [exact S|]. clear S. intros w' S. apply swp_bind. eapply stage_thread; [exact S|]. clear S w'. intros w' S.
  apply swp_bind. eapply stage_proc; [exact S|]. clear S w'. intros w' S. apply swp_bind. eapply stage_proc; [exact S|]. clear S w'. intros w' S.
  assert (Hn : next_pid w' + 1 = n) by (destruct (sg_rest _ _ _ _ _ _ _ _ S) as (_ & _ & _ & -> & _); done).
  apply swp_bind, swp_gets, swp_bind, swp_modify. rewrite Hn. eapply (stage_over _ _ _ (set_next_pid n)) in S; [|done|apply rest_next].
  apply swp_bind. eapply stage_proc; [exact S|]. clear S w' Hn. intros w' S.
  destruct (Z.leb_spec (2 ^ 31) n) as [Hov|Hno]; [apply swp_stop; by apply HE|]. apply swp_bind, swp_modify. eapply (stage_over _ _ _ (set_hash (hash_put q n))) in S; [|done|apply rest_hash].
  apply swp_bind. eapply stage_files; [exact S|exact Hfd|]. clear S w'. intros w' f S HR. apply swp_ret. eapply HQ; [exact S|done|done|done].
Qed.

(** The body of [process_copy] once the child has its objects and its address
    space. *)
Definition copy_body p q : sm pst Z :=
  x ← proc_at p;
  upd_proc q (λ y, set_ustack (λ _, ustack x) (set_vm true y));;
  process_lock;;
  upd_proc q (set_parent (Some p));;
  t ← thread_of p NO_THREAD;
  u ← thread_of q NO_THREAD;
  h ← thread_at t;
  let r := tf h in
  upd_thread u (set_tf (MkTf 0 (tf_sp r) (tf_lr r) (tf_pc r) (tf_psr r)));;
  with_files (Fd.fd_clone p q);;
  signal_clone p q;;
  upd_proc q (λ y, set_ids (ids x) (ctty x) (set_pgid (pgid x) y));;
  modify (set_list (λ l, l ++ [q]));;
  upd_proc p (set_children (λ l, l ++ [q]));;
  process_unlock;;
  u ← thread_of q "Assertion failed: child->thread != NULL";
  modify (emit (Resume u));;
  y ← proc_at q;
  mret (pid y).

Lemma copy_body_ok w1 w p t x h q u y k f tb tb' (Q : Z → pst → Prop) ext :
  stage w1 q u w y k false f → at_ w1 p t x h → p ≠ q → t ≠ u → thread y = Some u →
  Fd.wf ext f → Fd.tables f !! p = Some tb → Fd.tables f !! q = Some tb' → Fd.all_free tb' →
  (∀ w2 y' k' f', stage w1 q u w2 y' k' true f' → Fd.wf ext f' → Fd.tables f' = <[q := tb]> (Fd.tables f) →
     (thread y' = thread y ∧ parent y' = Some p ∧ children y' = children y ∧ state y' = state y ∧ vm y' = true ∧ flags y' = flags y ∧
      pid y' = pid y ∧ pgid y' = pgid x ∧ signal_actions y' = signal_actions x) →
     (t_process k' = t_process k ∧ signal_queue k' = signal_queue k ∧ signal_mask k' = signal_mask h ∧ signal_pending k' = no_pending) →
     Q (pid y') (emit (Resume u) (set_locked false (set_procs <[p := set_children (λ l, l ++ [q]) x]> (set_list (λ l, l ++ [q]) w2))))) →
  swp (copy_body p q) w E Q.
Proof.
  intros S Ha Hpq Htu Hyt Hwf Htb Htq Hfree HQ. destruct Ha as (Hp & Hx & Ht).
  assert (Hpw : ∀ w y k b f, stage w1 q u w y k b f → procs w !! p = Some x) by (intros v ? ? ? ? S'; by rewrite (sg_procs _ _ _ _ _ _ _ _ S')).
  assert (Htw : ∀ w y k b f, stage w1 q u w y k b f → threads w !! t = Some h) by (intros v ? ? ? ? S'; by rewrite (sg_threads _ _ _ _ _ _ _ _ S')).
  unfold copy_body. apply swp_bind. eapply proc_at_ok; [by eapply Hpw|]. apply swp_bind. eapply stage_proc; [exact S|]. clear S w. intros w S.
  apply swp_bind. eapply stage_lock; [exact S|]. clear S w. intros w S. apply swp_bind. eapply stage_proc; [exact S|]. clear S w. intros w S.
  apply swp_bind. eapply thread_of_ok; [by eapply Hpw|done|]. apply swp_bind. eapply stage_thread_of; [exact S|done|].
  apply swp_bind. eapply thread_at_ok; [by eapply Htw|]. apply swp_bind. eapply stage_thread; [exact S|]. clear S w. intros w S.
  apply swp_bind. eapply stage_files; [exact S|by eapply (Fd.clone_ok ext f p q tb)|]. clear S w. intros w f' S [Hwf' HT'].
  unfold signal_clone. apply swp_bind, swp_bind. eapply thread_of_ok; [by eapply Hpw|done|]. apply swp_bind. eapply p_holding_ok; [apply (sg_locked _ _ _ _ _ _ _ _ S)|].
  apply swp_bind. eapply proc_at_ok; [by eapply Hpw|]. apply swp_bind. eapply thread_at_ok; [by eapply Htw|]. apply swp_bind. eapply stage_thread_of; [exact S|done|].
  apply swp_bind. eapply stage_proc; [exact S|]. clear S w. intros w S. apply swp_bind. eapply stage_thread; [exact S|]. clear S w. intros w S.
  apply swp_bind. eapply stage_proc; [exact S|]. clear S w. intros w S. eapply stage_thread; [exact S|]. clear S w. intros w S.
  apply swp_bind. eapply stage_proc; [exact S|]. clear S w. intros w S. pose proof (Hpw _ _ _ _ _ S) as Hpx.
  match type of S with stage _ _ _ _ ?c ?d _ _ => assert (Hc : thread c = Some u) by done; assert (Hq : ∀ z, (<[p := z]> (procs w)) !! q = Some c)
    by (intros z; rewrite lookup_insert_ne by done; apply (sg_q _ _ _ _ _ _ _ _ S)) end.
  apply swp_bind, swp_modify, swp_bind. eapply upd_ok; [exact Hpx|]. apply swp_bind, p_unlock_ok; [exact (sg_locked _ _ _ _ _ _ _ _ S)|].
  apply swp_bind. eapply thread_of_ok; [apply Hq|exact Hc|]. apply swp_bind, swp_modify, swp_bind. eapply proc_at_ok; [apply Hq|]. apply swp_ret.
  eapply HQ; [exact S|done|done|repeat (split; [done|]); done|repeat (split; [done|]); done].
Qed.

Lemma child_sig I x h y k :
  sig_ok I x h → signal_actions y = signal_actions x → signal_pending k = no_pending → signal_queue k = [] → sig_ok I y k.
Proof.
  intros O Ea Ep Eq. assert (Hno : ∀ signo s, ¬ is_pend k signo s).
  { intros signo s [_ H]. rewrite Ep in H. apply lookup_replicate in H as [? _]. done. }
  assert (Hno' : ∀ signo, ¬ pends k signo) by (intros signo [s H]; by apply (Hno signo s)).
  split; try rewrite Ea; try rewrite Eq; try rewrite Ep.
  - apply length_replicate.
  - apply (so_act _ _ _ O).
  - constructor.
  - intros s. split; [by intros ?%not_elem_of_nil|]. intros [signo H]. by apply Hno in H.
  - intros signo s H. by apply Hno in H.
  - intros signo a H. by apply Hno' in H.
  - intros H. by apply Hno' in H.
  - apply (so_dfl _ _ _ O).
Qed.

Lemma process_copy_body memory vm_ok :
  process_copy memory vm_ok = (p ← gets current; o ← process_alloc memory;
    match o with None => mret (- ENOMEM) | Some q => if negb vm_ok then _ ← proc_at p; process_free q;; mret (- ENOMEM) else copy_body p q end).
Proof. unfold process_copy, copy_body. by destruct vm_ok. Qed.

(** A file table for the child. *)
Lemma copy_files w q pp : inv w → process_pool w = q :: pp →
  ∃ ext, Fd.wf ext (files w) ∧ swp (Fd.fd_init q) (files w) no_panic (λ _ f, Fd.wf ext f ∧ Fd.tables f = <[q := replicate (Z.to_nat Fd.OPEN_MAX) Fd.empty_desc]> (Fd.tables (files w))).
Proof.
  intros V Hpp. destruct (v_files _ V) as [[ext Fw] Fo Fc]. exists ext. split; [done|]. apply Fd.fd_init_ok; [done|].
  destruct (v_procs _ V q) as (_ & y & Hy & Hyt); [rewrite Hpp; left|]. intros tb Htb. by eapply Fc.
Qed.

(** What a fork leaves: a new process, with the caller's group and actions. *)
Definition forked w (r : Z) w' : Prop :=
  inv w' ∧ init_process w' = init_process w ∧ current w' = current w ∧ locked w' = false ∧
  (r = next_pid w + 1 ∧ ∃ q y, q ∉ process_list w ∧ process_list w' = process_list w ++ [q] ∧ procs w' !! q = Some y ∧
     pid y = r ∧ parent y = Some (current w) ∧ alive w' q ∧ ∃ x, procs w !! current w = Some x ∧ pgid y = pgid x ∧ signal_actions y = signal_actions x).

Lemma copy_ok w memory vm_ok :
  inv w → alive w (current w) → locked w = false → clean_thread w →
  (memory = false ∨ thread_pool w = [] ∨ process_pool w = [] → E OUT_OF_MEMORY) → (2 ^ 31 ≤ next_pid w + 1 → E "pid overflow") → (vm_ok = false → E NO_FREE) →
  swp (process_copy memory vm_ok) w E (forked w).
Proof.
  intros V (t & x & h & L) Hlk Hcl Hom Hov Hfr. set (p := current w) in *. rewrite process_copy_body. apply swp_bind, swp_gets, swp_bind.
  destruct (thread_pool w) as [|u tp] eqn:Htp; [unfold process_alloc; apply swp_bind, swp_gets, swp_bind, swp_gets; rewrite Htp; apply swp_stop; by auto|].
  destruct (process_pool w) as [|q pp] eqn:Hpp; [unfold process_alloc; apply swp_bind, swp_gets, swp_bind, swp_gets; rewrite Htp, Hpp; apply swp_stop; by auto|].
  destruct memory; [|unfold process_alloc; apply swp_bind, swp_gets, swp_bind, swp_gets; rewrite Htp, Hpp; apply swp_bind, swp_check; by auto].
  destruct (fork_fresh w p t x h q u pp tp V L Hpp Htp) as (Hnl & Hqp & (y0 & Hy0 & Ht0) & k0 & Hk0 & Hun). destruct (copy_files w q pp V Hpp) as (ext & Fw & Hfd).
  destruct (live_sig _ _ _ _ _ _ V L) as (Htp0 & O & F & Hpid). pose proof L as (Hpl & Hpx & Hxt & Htt).
  assert (Htu : t ≠ u) by (intros ->; by apply (Hun p x)). pose proof (v_next _ V) as Hnx.
  eapply process_alloc_ok; [done|done|done|done|done|exact Hfd|]. intros w2 y k f S [Fw' HT] (Ey1 & Ey2 & Ey3 & Ey4 & Ey5) (Ek1 & Ek2).
  destruct vm_ok; cbn [negb]; swap 1 2.
  { apply swp_bind. eapply proc_at_ok; [rewrite (sg_procs _ _ _ _ _ _ _ _ S) by done; exact Hpx|]. apply swp_bind. unfold process_free.
    apply swp_bind, p_lock_ok; [by rewrite (sg_locked _ _ _ _ _ _ _ _ S)|]. apply swp_bind, swp_modify, swp_bind, p_unlock_ok; [done|]. apply swp_bind, swp_modify, swp_bind.
    eapply proc_at_ok; [exact (sg_q _ _ _ _ _ _ _ _ S)|]. apply swp_bind, swp_check; [|intros Hb; bool_to_prop; congruence]. intros _. by apply Hfr. }
  rewrite Hlk in S. destruct (f_open _ (v_files _ V) p x Hpx ltac:(congruence)) as [tb Htb].
  eapply copy_body_ok with (tb := tb); [exact S|by split|done|done|done|exact Fw'|by rewrite HT, lookup_insert_ne|rewrite HT; apply lookup_insert_eq|done|].
  intros w3 y' k' f' S3 Fw3 HT3 (E1 & E2 & E3 & E4 & E5 & E6 & E7 & E8 & E9) (G1 & G2 & G3 & G4).
  destruct S3 as [Sq Sp Su St (R1 & R2 & R3 & R4 & R5 & R6 & R7 & R8 & R9 & R10) Slk Sf]. simpl in R1, R2, R3, R4, R5, R6, R7, R8, R9, R10.
  set (w' := emit _ _). assert (Hq' : procs w' !! q = Some y') by (simpl; by rewrite lookup_insert_ne).
  assert (Hlist : process_list w' = process_list w ++ [q]) by (simpl; by rewrite R2).
  assert (Hothers : ∀ r, r ≠ p → r ≠ q → procs w' !! r = procs w !! r) by (intros r Hr1 Hr2; simpl; rewrite lookup_insert_ne by done; by apply Sp).
  assert (Hlive : live w' q u y' k') by (split; [rewrite Hlist; apply elem_of_app; right; by apply list_elem_of_singleton|]; split; [done|]; split; [congruence|done]).
  split; [|split; [done|]; split; [done|]; split; [done|]; split; [congruence|]; exists q, y'; split; [done|]; split; [done|]; split; [done|]; split; [done|];
    split; [done|]; split; [by eexists _, _, _|]; exists x; done].
  eapply (inv_fork w w' p t x h V L q u pp tp y' k' Hpp Htp Hlist); try done.
  - simpl. rewrite R4. lia.
  - simpl. apply lookup_insert_eq.
  - simpl. rewrite R4. repeat (split; [first [done|congruence]|]). rewrite E7, Ey5. lia.
  - split; [congruence|]. assert (signal_queue k' = []) by (rewrite G2, Ek2; by eapply Hcl). split; [done|]. by eapply child_sig.
  - simpl. rewrite R3. by rewrite E7, Ey5.
  - destruct (v_files _ V) as [_ Fo Fc]. split; simpl; rewrite Sf.
    + by exists ext.
    + intros r z Hz Hzt. rewrite HT3. apply lookup_insert_is_Some'. destruct (decide (r = q)) as [->|Hrq]; [by left|right]. rewrite HT, lookup_insert_ne by done.
      destruct (decide (r = p)) as [->|Hrp]; [done|]. apply (Fo r z); [|done]. by rewrite <- Hothers.
    + intros r z tb' Hz Hzt. destruct (decide (r = q)) as [->|Hrq]; [rewrite lookup_insert_ne, Sq in Hz by done; injection Hz as <-; congruence|].
      rewrite HT3, lookup_insert_ne, HT, lookup_insert_ne by done. destruct (decide (r = p)) as [->|Hrp].
      * rewrite lookup_insert_eq in Hz. injection Hz as <-. simpl in Hzt. congruence.
      * intros H. apply (Fc r z tb'); [by rewrite <- Hothers|done|done].
Qed.

End copy.

End ProcessInv.
