(* ===== verification/ProcessTable.v ===== *)
(** The process table as a whole: waiting for children, process groups and
    times, the free threads; every system call of process.c and signal.c keeps
    the invariant, and what a parent learns of a child that ended. *)

From S2P Require Import Prelude StateM Fd Process Signals ProcessInv.
Import Process Signals ProcessInv.
#[local] Open Scope Z_scope.

Module ProcessTable.

Implicit Types (p q c : nat) (t u : nat) (s : nat) (w : pst) (signo : Z) (x y : Process) (h k : Thread) (a : sigaction).

Notation inv := (inv_but None).

(** ** Reaping a child *)

Lemma child_facts w p t x h q y : inv w → live w p t x h → q ∈ children x → procs w !! q = Some y → thread y = None →
  q ∈ process_list w ∧ p ≠ q ∧ parent y = Some p.
Proof.
  intros V L Hq Hy Hyt. destruct (live_sig _ _ _ _ _ _ V L) as (_ & _ & (_ & _ & F) & _). destruct (F q Hq) as (Hl & z & Hz & Hpz). simplify_eq. split; [done|]. split; [|done].
  intros ->. destruct L as (_ & ? & ? & _). congruence.
Qed.

Section reap.
Context (w w' : pst) (p t : nat) (x : Process) (h : Thread) (V : inv w) (L : live w p t x h).
Context (q : nat) (y x' y' : Process) (Hq : q ∈ children x) (Hy : procs w !! q = Some y) (Hyt : thread y = None).
Context (Hx' : alike x x' ∧ parent x' = parent x ∧ children x' = filter (.≠ q) (children x)) (Hyt' : thread y' = None).
Context (Hp' : procs w' !! p = Some x') (Hq' : procs w' !! q = Some y').
Context (Hother : ∀ r, r ≠ p → r ≠ q → procs w' !! r = procs w !! r).
Context (Hthreads : threads w' = threads w) (Hlist : process_list w' = filter (.≠ q) (process_list w)).
Context (Hpool : process_pool w' = q :: process_pool w) (Hhash : pid_hash w' = hash_remove q (pid_hash w)).
Context (Hrest : infos w' = infos w ∧ next_pid w' = next_pid w ∧ init_process w' = init_process w ∧ thread_pool w' = thread_pool w ∧
  signal_pool w' = signal_pool w ∧ thread_destroy_list w' = thread_destroy_list w ∧ files w' = files w).

Lemma reap_live r v z l : live w' r v z l → r ≠ q ∧ ∃ z0, live w r v z0 l ∧ (r ≠ p → z0 = z).
Proof.
  intros (Hrl & Hz & Hv & Hl). rewrite Hlist in Hrl. apply list_elem_of_filter in Hrl as [Hrq Hrl]. split; [done|]. rewrite Hthreads in Hl.
  destruct (decide (r = p)) as [->|Hrp]; [|exists z; split; [|done]; split; [done|]; by rewrite Hother in Hz].
  rewrite Hp' in Hz. injection Hz as <-. destruct Hx' as ((Et & _) & _), L as (_ & Hpx & Hxt & Htt). exists x. split; [|done].
  split; [done|]. split; [done|]. split; [congruence|done].
Qed.

Lemma live_reap r v z l : live w r v z l → ∃ z', live w' r v z' l.
Proof.
  destruct (child_facts w p t x h q y V L Hq Hy Hyt) as (Hql & Hpq & _). intros (Hrl & Hz & Hv & Hl). assert (Hrq : r ≠ q) by (intros ->; congruence).
  assert (Hin : r ∈ process_list w') by (rewrite Hlist; apply list_elem_of_filter; done). unfold live, at_. rewrite Hthreads.
  destruct (decide (r = p)) as [->|Hrp]; [|exists z; by rewrite Hother]. destruct Hx' as ((Et & _) & _), L as (_ & Hpx & _). simplify_eq.
  exists x'. split; [done|]. split; [done|]. split; [congruence|done].
Qed.

Lemma reap_alive r : alive w r → alive w' r.
Proof. intros (v & z & l & [z' H]%live_reap). by eexists _, _, _. Qed.

Lemma reap_child r z c : r ∈ process_list w → procs w !! r = Some z → c ∈ children z → c ≠ q →
  c ∈ process_list w' ∧ ∃ y0, procs w' !! c = Some y0 ∧ parent y0 = Some r.
Proof.
  intros Hrl Hz Hc Hcq. destruct (v_proc _ V r Hrl) as (z' & Hz' & _ & (_ & _ & F) & _). simplify_eq. destruct (F c Hc) as (Hcl & y0 & Hy0 & Hpar).
  split; [rewrite Hlist; by apply list_elem_of_filter|]. destruct (decide (c = p)) as [->|Hcp]; [|exists y0; by rewrite Hother].
  destruct Hx' as (_ & Ep & _), L as (_ & Hpx & _). simplify_eq. exists x'. split; [done|congruence].
Qed.

Lemma reap_parent r z r0 : r ∈ process_list w → r ≠ q → procs w !! r = Some z → parent z = Some r0 →
  r0 ≠ r ∧ alive w' r0 ∧ ∃ y0, procs w' !! r0 = Some y0 ∧ r ∈ children y0.
Proof.
  intros Hrl Hrq Hz Hr0. destruct (v_proc _ V r Hrl) as (z' & Hz' & _ & (F & _ & _) & _). simplify_eq. destruct (F r0 Hr0) as (Hne & Ha & y0 & Hy0 & Hin).
  split; [done|]. split; [by apply reap_alive|]. destruct (decide (r0 = p)) as [->|Hr0p].
  - destruct Hx' as (_ & _ & Ec), L as (_ & Hpx & _). simplify_eq. exists x'. split; [done|]. rewrite Ec. by apply list_elem_of_filter.
  - exists y0. rewrite Hother; [done|done|]. intros ->. destruct Ha as (v & z1 & l & _ & Hz1 & Hv & _). congruence.
Qed.

Lemma reap_family r z : r ∈ process_list w → r ≠ q → procs w !! r = Some z → family_ok w' r (if decide (r = p) then x' else z).
Proof.
  destruct (child_facts w p t x h q y V L Hq Hy Hyt) as (Hql & Hpq & Hyp). intros Hrl Hrq Hz. destruct (v_proc _ V r Hrl) as (z' & Hz' & _ & (F1 & F2 & F3) & _). simplify_eq.
  pose proof L as (_ & Hpx & _). destruct Hx' as (_ & Ep & Ec). split; [|split].
  - intros r0 Hr0. eapply reap_parent; [done|done|exact Hz|]. case_decide; [|done]. subst. simplify_eq. congruence.
  - case_decide; [|done]. rewrite Ec. subst. simplify_eq. by apply NoDup_filter.
  - intros c Hc. eapply reap_child; [done|exact Hz| |].
    + case_decide; [|done]. subst. simplify_eq. rewrite Ec in Hc. by apply list_elem_of_filter in Hc as [_ ?].
    + intros ->. case_decide; [rewrite Ec in Hc; by apply list_elem_of_filter in Hc as [? _]|]. destruct (F3 q Hc) as (_ & y0 & Hy0 & Hp0). simplify_eq.
Qed.

Lemma inv_reap : inv w'.
Proof.
  destruct (child_facts w p t x h q y V L Hq Hy Hyt) as (Hql & Hpq & Hyp). destruct Hrest as (E1 & E2 & E3 & E4 & E5 & E6 & E7). pose proof L as (Hpl & Hpx & Hxt & Htt). destruct Hx' as (A & Ep & Ec).
  assert (Hold : ∀ r z, procs w' !! r = Some z → r ≠ q → ∃ z0, procs w !! r = Some z0 ∧ thread z0 = thread z ∧ pid z0 = pid z).
  { intros r z Hz Hrq. destruct (decide (r = p)) as [->|Hrp]; [|exists z; by rewrite <- Hother]. rewrite Hp' in Hz. injection Hz as <-. exists x. destruct A as (-> & -> & _). done. }
  split.
  - rewrite Hlist. apply NoDup_filter, (v_nodup _ V).
  - intros r. rewrite Hlist. intros [Hrq Hrl]%list_elem_of_filter. destruct (v_proc _ V r Hrl) as (z & Hz & Hok & _ & Hn). exists (if decide (r = p) then x' else z).
    split; [case_decide; [by subst|by rewrite Hother]|]. rewrite E2. split; [|split; [by apply reap_family|case_decide; [|done]; subst; simplify_eq; by destruct A as (_ & -> & _)]].
    unfold proc_ok in *. case_decide; [|by rewrite Hthreads, E1]. subst r. simplify_eq. destruct A as (A1 & A2 & A3 & A4 & A5 & A6). rewrite A1, Hthreads, E1. rewrite Hxt in *.
    destruct Hok as (l & Hl & Hlp & O & Hs). exists l. split; [done|]. split; [done|]. split; [|by rewrite A3, A4, A5]. apply (sig_ok_ext _ x _ l); try done. rewrite A3. auto.
  - intros a b ta tb xa xb ha hb s [_ (za & La & _)]%reap_live [_ (zb & Lb & _)]%reap_live. by eapply (v_apart _ V a b).
  - rewrite E5. apply (v_pool_nodup _ V).
  - intros a ta xa ha s [_ (za & La & _)]%reap_live. rewrite E5. by eapply (v_pool _ V a).
  - rewrite E4, E6. apply (v_threads_nodup _ V).
  - intros v. rewrite E4, E6. intros (l & Hl & Hno)%(v_threads _ V). exists l. rewrite Hthreads. split; [done|]. intros r z Hz.
    destruct (decide (r = q)) as [->|Hrq]; [rewrite Hq' in Hz; injection Hz as <-; congruence|]. destruct (Hold r z Hz Hrq) as (z0 & Hz0 & <- & _). by apply (Hno r z0).
  - rewrite Hpool. apply NoDup_cons. split; [|apply (v_procs_nodup _ V)]. by intros [? _]%(v_procs _ V).
  - intros r. rewrite Hpool, Hlist. intros [->|Hr]%elem_of_cons; [split; [by intros [? _]%list_elem_of_filter|by exists y']|].
    destruct (v_procs _ V r Hr) as (Hrl & z & Hz & Hzt). split; [by intros [_ ?]%list_elem_of_filter|]. exists z.
    rewrite Hother; [done|intros ->; done|intros ->; done].
  - intros r z v Hz Hv. rewrite Hlist. assert (Hrq : r ≠ q) by (intros ->; congruence). apply list_elem_of_filter. split; [done|].
    destruct (Hold r z Hz Hrq) as (z0 & Hz0 & Et & _). eapply (v_unlisted _ V r z0 v); congruence.
  - rewrite E3. destruct (v_init _ V) as [Ha Hn]. split; [by apply reap_alive|]. intros z Hz. destruct (decide (init_process w = p)) as [Ei|Hi].
    + rewrite Ei, Hp' in Hz. injection Hz as <-. rewrite Ep. apply Hn. by rewrite Ei.
    + apply Hn. rewrite <- Hother; [done|done|]. intros Ei. destruct Ha as (v & z1 & l & _ & Hz1 & Hv & _). rewrite Ei in Hz1. congruence.
  - destruct (v_hash _ V) as (Hl & H1 & H2). unfold hash_ok. rewrite Hhash. unfold hash_remove. split; [by rewrite length_fmap|]. split.
    + intros b l r. rewrite list_lookup_fmap. intros (l' & Hl' & ->)%fmap_Some [Hrq Hr]%list_elem_of_filter. split; [done|]. destruct (H1 b l' r Hl' Hr) as (_ & z & Hz & Hzt & Eb).
      destruct (decide (r = p)) as [->|Hrp]; [|exists z; by rewrite Hother]. exists x'. simplify_eq. destruct A as (-> & -> & _). done.
    + intros r z Hz Hzt _. assert (Hrq : r ≠ q) by (intros ->; congruence). destruct (Hold r z Hz Hrq) as (z0 & Hz0 & Et & <-).
      destruct (H2 r z0 Hz0 ltac:(congruence) ltac:(done)) as (l & Hlk & Hin). rewrite list_lookup_fmap, Hlk. eexists. split; [done|]. by apply list_elem_of_filter.
  - intros r r' z z'. rewrite Hlist. intros [Hrq Hr]%list_elem_of_filter [Hrq' Hr']%list_elem_of_filter Hz Hz' En.
    destruct (Hold r z Hz Hrq) as (z0 & Hz0 & _ & E0), (Hold r' z' Hz' Hrq') as (z0' & Hz0' & _ & E0'). eapply (v_pids _ V); try done. congruence.
  - destruct (v_files _ V) as [F Fo Fc]. split; rewrite E7; [done| |].
    + intros r z Hz Hzt. assert (Hrq : r ≠ q) by (intros ->; congruence). destruct (Hold r z Hz Hrq) as (z0 & Hz0 & Et & _). eapply (Fo r z0); congruence.
    + intros r z tb Hz Hzt. destruct (decide (r = q)) as [->|Hrq]; [by apply (Fc q y)|]. destruct (Hold r z Hz Hrq) as (z0 & Hz0 & Et & _). eapply (Fc r z0); congruence.
  - rewrite E2. apply (v_next _ V).
Qed.

End reap.

(** ** Waiting *)

(** The processes a pid argument of wait or kill stands for. *)
Definition matches w (n : Z) q : bool :=
  match procs w !! q with
  | None => false
  | Some x => (n =? -1) || (pid x =? n) || (if n <? 0 then pgid x =? - n else
      (n =? 0) && match procs w !! current w with Some y => pgid x =? pgid y | None => false end)
  end.
Definition ended w q : bool := match procs w !! q with Some y => bool_decide (thread y = None) | None => false end.

(** The child [q] of [p] is gone: its object is free again, its times are added
    to those of the parent. *)
Record reaped w p q (r : wait_result) w' : Prop := {
  rp_answer : ∃ x y x', procs w !! p = Some x ∧ procs w !! q = Some y ∧ r = Waited (pid y) (Some (status y)) ∧ procs w' !! p = Some x' ∧
    children x' = filter (.≠ q) (children x) ∧ cutime x' = cutime x + utime y ∧ cstime x' = cstime x + stime y;
  rp_list : process_list w' = filter (.≠ q) (process_list w);
  rp_pool : process_pool w' = q :: process_pool w }.

Definition waited w p (l : list nat) (n options m : Z) (r : wait_result) w' : Prop :=
  match List.find (λ q, matches w n q && ended w q) l with
  | Some q => reaped w p q r w'
  | None => w' = set_locked false w ∧
      r = if (m =? 0) && negb (existsb (matches w n) l) then Waited (- ECHILD) None
          else if negb (Z.land options WNOHANG =? 0) then Waited 0 None else Sleeps
  end.

Section wait.
Context (E : string → Prop).

Lemma match_ok w q x n (Q : bool → pst → Prop) :
  is_Some (procs w !! current w) → procs w !! q = Some x → Q (matches w n q) w → swp (process_match_pid q n) w E Q.
Proof.
  intros [y Hc] Hp. unfold process_match_pid, matches. rewrite Hp, Hc. intros HQ. apply swp_bind. eapply proc_at_ok; [done|].
  destruct (n =? -1) eqn:E1; [by apply swp_ret|]. destruct (pid x =? n) eqn:E2; [by apply swp_ret|]. simpl in HQ.
  destruct (n <? 0) eqn:E3; [by apply swp_ret|]. destruct (n =? 0) eqn:E4; [|by apply swp_ret].
  apply swp_bind, swp_gets, swp_bind. eapply proc_at_ok; [done|]. by apply swp_ret.
Qed.

(** The child [q] has ended: it is removed. *)
Lemma reap_ok w p t x h q y :
  inv w → live w p t x h → locked w = true → q ∈ children x → procs w !! q = Some y → thread y = None →
  swp (upd_proc q (set_flags (Z.ldiff (flags y) PROCESS_STATUS_AVAILABLE));;
      (upd_proc p (set_children (filter (.≠ q)));;
       modify (set_list (filter (.≠ q)));;
       upd_proc p (λ x, set_times (utime x) (stime x) (cutime x + utime y) (cstime x + stime y) x);;
       process_unlock;;
       process_free q);;
      mret (Waited (pid y) (Some (status y)))) w E (λ r w', inv w' ∧ locked w' = false ∧ reaped w p q r w').
Proof.
  intros V L Hlk Hq Hy Hyt. destruct (child_facts w p t x h q y V L Hq Hy Hyt) as (Hql & Hpq & _). pose proof L as (Hpl & Hpx & _).
  apply swp_bind. eapply upd_ok; [exact Hy|]. apply swp_bind, swp_bind. eapply upd_ok; [by apply lookup_insert_Some; right|]. apply swp_bind, swp_modify.
  apply swp_bind. eapply upd_ok; [apply lookup_insert_eq|]. apply swp_bind, p_unlock_ok; [done|]. set (x' := set_times _ _ _ _ _). set (y' := set_flags _ _).
  unfold process_free. apply swp_bind, p_lock_ok; [done|]. apply swp_bind, swp_modify, swp_bind, p_unlock_ok; [done|]. apply swp_bind, swp_modify.
  assert (Hq' : (<[p := x']> (<[p := set_children (filter (.≠ q)) x]> (<[q := y']> (procs w)))) !! q = Some y')
    by (rewrite !lookup_insert_ne by done; apply lookup_insert_eq).
  apply swp_bind. eapply proc_at_ok; [exact Hq'|]. apply swp_bind, swp_check; [simpl; by rewrite Hyt|]. intros _. apply swp_bind, swp_gets, swp_bind, swp_gets, swp_modify, swp_ret.
  assert (Hlist : filter (.≠ q) (filter (.≠ q) (process_list w)) = filter (.≠ q) (process_list w)).
  { rewrite list_filter_filter. apply list_filter_iff. tauto. }
  split; [|split; [done|]; split; [exists x, y, x'; repeat (split; [done|]); split; [apply lookup_insert_eq|done]|exact Hlist|done]].
  eapply (inv_reap w _ p t x h V L q y x' y'); try done.
  - apply lookup_insert_eq.
  - intros r Hr1 Hr2. cbn. by rewrite !lookup_insert_ne.
Qed.

Lemma wait_loop_ok w p t x h l n options m :
  inv w → p = current w → live w p t x h → locked w = true → (∀ q, q ∈ l → q ∈ children x) →
  swp (wait_loop p l n options m) w E (λ r w', inv w' ∧ locked w' = false ∧ waited w p l n options m r w').
Proof.
  intros V Hcur L Hlk. assert (Hc : is_Some (procs w !! current w)) by (rewrite <- Hcur; destruct L as (_ & -> & _); done).
  revert m. induction l as [|q l IH]; intros m Hl; simpl.
  { apply swp_bind, p_unlock_ok; [done|]. apply swp_ret. split; [by apply inv_locked|]. split; [done|]. unfold waited. simpl. by rewrite andb_true_r. }
  destruct (live_sig _ _ _ _ _ _ V L) as (_ & _ & (_ & _ & F) & _). destruct (F q (Hl q ltac:(left))) as (Hql & y & Hy & Hpar).
  destruct (v_proc _ V q Hql) as (y' & Hy' & Hok & _ & Hpid). simplify_eq.
  assert (IH' : ∀ m', (m' =? 0) = (m =? 0) && negb (matches w n q) → (matches w n q && ended w q) = false →
    swp (wait_loop (current w) l n options m') w E (λ r w', inv w' ∧ locked w' = false ∧ waited w (current w) (q :: l) n options m r w')).
  { intros m' Hm Hno. eapply swp_mono; [apply IH; intros; apply Hl; by right|]. intros r w' (? & ? & Hw). split; [done|]. split; [done|].
    unfold waited in *. simpl. rewrite Hno. destruct (List.find _ l); [done|]. rewrite Hm in Hw. destruct (matches w n q); simpl in *; [by rewrite !andb_false_r in *|].
    by rewrite !andb_true_r in Hw. }
  apply swp_bind. eapply match_ok; [done|exact Hy|]. destruct (matches w n q) eqn:Em; simpl; [|apply IH'; [by rewrite andb_true_r|done]].
  apply swp_bind. eapply proc_at_ok; [exact Hy|]. unfold proc_ok in Hok. destruct (thread y) as [v|] eqn:Ey.
  - destruct Hok as (k & _ & _ & _ & Hs). destruct (Hs ltac:(done)) as (_ & _ & ->). simpl. apply IH'; [rewrite andb_false_r; lia|]. unfold ended. by rewrite Hy, Ey.
  - destruct Hok as [Hst Hfl]. assert (Hf : (Z.land (flags y) PROCESS_STATUS_AVAILABLE =? 0) = false) by (by rewrite Hfl).
    rewrite (bool_decide_eq_true_2 (state y = ZOMBIE)), (bool_decide_eq_false_2 (state y = STOPPED)), (bool_decide_eq_false_2 (state y = ACTIVE)), Hf by congruence.
    cbn [orb andb]. eapply swp_mono; [by eapply reap_ok; [| | |apply Hl; left| |]|].
    intros r w' (? & ? & Hr). split; [done|]. split; [done|]. unfold waited. simpl. rewrite Em. unfold ended. rewrite Hy, Ey. done.
Qed.

Lemma wait_ok w n options :
  inv w → alive w (current w) → locked w = false →
  swp (process_wait n options) w E (λ r w', kept r w' ∧
    if negb (Z.land options (Z.lnot (Z.lor WNOHANG WUNTRACED)) =? 0) then r = Waited (- EINVAL) None ∧ w' = w
    else ∃ x, procs w !! current w = Some x ∧ waited (set_locked true w) (current w) (children x) n options 0 r w').
Proof.
  intros V (t & x & h & L) Hlk. unfold process_wait. case_match; [by apply swp_ret|]. apply swp_bind, swp_gets, swp_bind, p_lock_ok; [done|]. pose proof L as (_ & Hp & _).
  apply swp_bind. eapply proc_at_ok; [exact Hp|]. eapply swp_mono; [apply (wait_loop_ok (set_locked true w) (current w) t x h); try done; by apply inv_locked|].
  intros r w' (? & ? & ?). split; [done|]. by exists x.
Qed.

End wait.

(** ** Groups, times, free threads *)


Section groups.
Context (E : string → Prop).











End groups.

(** ** Every operation *)















(** ** Runs *)

(** The scheduler lets another process run. *)
Definition run_as p w := MkPst (procs w) (threads w) (infos w) (process_list w) (pid_hash w) (next_pid w) (init_process w)
  p (process_pool w) (thread_pool w) (signal_pool w) (thread_destroy_list w) (locked w) (files w) (log w).

Lemma inv_run_as ex p w : inv_but ex w → inv_but ex (run_as p w).
Proof. intros []. split; try done. by apply (files_ok_ext w). Qed.






Lemma find_unique (f : nat → bool) (l : list nat) q : q ∈ l → f q = true → (∀ r, r ∈ l → f r = true → r = q) → List.find f l = Some q.
Proof.
  induction l as [|a l IH]; intros Hin Hf Hu; [by apply not_elem_of_nil in Hin|]. simpl. destruct (f a) eqn:Ea; [by rewrite (Hu a ltac:(left) Ea)|].
  apply elem_of_cons in Hin as [->|Hin]; [congruence|]. apply IH; [done|done|]. intros r Hr. apply Hu. by right.
Qed.

(** C13: What a child passes to exit is what its parent gets from wait.  After
    [process_destroy st] by a child of [p], [process_wait] by [p] for that pid
    returns at once with the pid and the status [st]; the child is then out of
    the process list and out of its parent's children, and its object is free. *)
Theorem exit_wait w st options p x :
  inv w → alive w (current w) → locked w = false → current w ≠ init_process w →
  procs w !! current w = Some x → parent x = Some p → Z.land options (Z.lnot (Z.lor WNOHANG WUNTRACED)) = 0 →
  ∃ w1 w2, process_destroy st w = Ok (tt, w1) ∧ process_wait (pid x) options (run_as p w1) = Ok (Waited (pid x) (Some st), w2) ∧
    inv w2 ∧ current w ∉ process_list w2 ∧ current w ∈ process_pool w2 ∧ ∀ y, procs w2 !! p = Some y → current w ∉ children y.
Proof.
  intros V Hc Hlk Hni Hx Hpar Ho. set (c := current w) in *. pose proof Hc as (tc & xc & hc & Lc).
  destruct (live_sig _ _ _ _ _ _ V Lc) as (_ & _ & _ & Hpid). pose proof Lc as (_ & Hxc & _). rewrite Hx in Hxc. injection Hxc as <-.
  destruct (swp_run _ _ _ (destroy_ok no_panic w st V Hc Hlk Hni)) as ([] & w1 & E1 & x0 & Hx0 & V1 & Hlk1 & (y & Hy & Hyt & Hst & Hn & _ & Hyp & _) & Hin & _).
  fold c in Hx0, Hy, Hin. rewrite Hx in Hx0. injection Hx0 as <-. destruct (v_proc _ V1 c Hin) as (y' & Hy' & _ & (F1 & _) & _). rewrite Hy in Hy'. injection Hy' as <-.
  destruct (F1 p ltac:(congruence)) as (Hpc & Hpa & z & Hz & Hcz). set (w1' := run_as p w1). assert (V1' : inv w1') by (by apply inv_run_as).
  destruct (swp_run _ _ _ (wait_ok no_panic w1' (pid x) options V1' Hpa Hlk1)) as (r & w2 & E2 & [V2 Hlk2] & HW). rewrite Ho in HW. simpl in HW.
  destruct HW as (z' & Hz' & HW). rewrite Hz in Hz'. injection Hz' as <-. unfold waited in HW. rewrite (find_unique _ (children z) c) in HW; [|done| |].
  - destruct HW as [(a & b & a' & Ha & Hb & -> & Ha' & Hch & _) Hl Hpl]. simpl in Ha, Hb, Hl, Hpl. rewrite Hy in Hb. injection Hb as <-. exists w1, w2. rewrite Hn, Hst in E2.
    split; [done|]. split; [exact E2|]. split; [done|]. split; [rewrite Hl; by intros [? _]%list_elem_of_filter|]. split; [rewrite Hpl; left|].
    intros y0 Hy0. rewrite Ha' in Hy0. injection Hy0 as <-. rewrite Hch. by intros [? _]%list_elem_of_filter.
  - unfold matches, ended. simpl. rewrite Hy, Hn, Hyt, Z.eqb_refl. by rewrite orb_true_r.
  - intros r' Hr' [Hm He]%andb_true_iff.
    unfold matches in Hm. simpl in Hm. destruct (procs w1 !! r') as [z'|] eqn:Ez; [|done].
    assert (Hpl : p ∈ process_list w1) by (by destruct Hpa as (? & ? & ? & ? & _)). destruct (v_proc _ V1 p Hpl) as (z2 & Hz2 & _ & (_ & _ & F3) & _).
    rewrite Hz in Hz2. injection Hz2 as <-. destruct (F3 r' Hr') as (Hrl & _). apply (v_pids _ V1 r' c z' y); try done. rewrite Hn.
    apply orb_true_iff in Hm as [Hm|Hm]; [apply orb_true_iff in Hm as [Hm|Hm]; lia|]. destruct (Z.ltb_spec (pid x) 0); lia || (apply andb_true_iff in Hm as [? _]; lia).
Qed.

(** ** Handlers *)

Lemma prepare_runs E sok fsz w p t x h i handler mask (Q : Z → pst → Prop) :
  at_ w p t x h → user_range fsz (frame_va fsz h) = true → sok (frame_va fsz h) = true →
  (let va := u32 (tf_sp (tf h) - fsz) in
   Q 0 (put w p t (set_ustack (λ m, <[va := MkFrame handler i mask (tf h)]> (without fsz va m)) x)
     (set_tf (MkTf va va (tf_lr (tf h)) (signal_stub x) (tf_psr (tf h))) h) (infos w) (signal_pool w) (log w))) →
  swp (arch_signal_prepare sok fsz p i handler mask) w E Q.
Proof.
  intros Ha Hr Hok HQ. pose proof Ha as (Hp & Hx & Ht). unfold arch_signal_prepare. apply swp_bind. eapply thread_of_ok; [done..|].
  apply swp_bind. eapply thread_at_ok; [done|]. apply swp_bind. eapply proc_at_ok; [done|]. fold (frame_va fsz h). apply swp_bind, swp_check; [by rewrite Hr|]. intros _. rewrite Hok. simpl.
  apply swp_bind. eapply upd_proc_ok; [done|]. apply swp_bind. eapply upd_thread_ok; [by apply at_put|]. rewrite put_put. by apply swp_ret.
Qed.

(** C15: A caught signal leaves what the kernel saves of the program as it was:
    when the frame can be copied to the user stack, the handler starts in the
    stub with the frame's address as its argument and its mask added to the
    blocked signals; when it returns through [signal_return], the registers and
    the mask (SIGKILL apart) are those at the interruption and the call's value
    is the interrupted r0. *)
Theorem handler_roundtrip sok fsz w t x h s i signo a :
  let p := current w in
  let va := u32 (tf_sp (tf h) - fsz) in
  live w p t x h → locked w = true → infos w !! s = Some i → user_range fsz va = true → sok va = true → Z.land (tf_psr (tf h)) PSR_M_MASK = PSR_M_USR →
  ∃ w1 w2, signal_action_custom sok fsz p s signo a w = Ok (0, w1) ∧
    threads w1 !! t = Some (set_mask (Z.lor (signal_mask h) (sa_mask a)) (set_tf (MkTf va va (tf_lr (tf h)) (signal_stub x) (tf_psr (tf h))) h)) ∧
    signal_return fsz (set_locked false w1) = Ok (tf_r0 (tf h), w2) ∧ threads w2 !! t = Some (set_mask (sigdelset (signal_mask h) SIGKILL) h).
Proof.
  intros p va L Hlk Hi Hr Hok Hm. pose proof L as (Hin & Ha). pose proof Ha as (Hp & Hx & Ht).
  set (h1 := set_mask (Z.lor (signal_mask h) (sa_mask a)) (set_tf (MkTf va va (tf_lr (tf h)) (signal_stub x) (tf_psr (tf h))) h)).
  assert (H1 : swp (signal_action_custom sok fsz p s signo a) w no_panic (λ r w1, r = 0 ∧ ∃ x1,
    w1 = put w p t x1 h1 (infos w) (signal_pool w) (log w) ∧ thread x1 = Some t ∧ ustack x1 !! va = Some (MkFrame (sa_handler a) i (signal_mask h) (tf h)))).
  { unfold signal_action_custom. apply swp_bind. eapply thread_of_ok; [done..|]. apply swp_bind. eapply thread_at_ok; [done|].
    apply swp_bind. unfold info_at. apply swp_bind, swp_gets, swp_need; [congruence|]. intros i' Hi'. rewrite Hi in Hi'. injection Hi' as <-.
    apply swp_bind. eapply prepare_runs; [exact Ha|exact Hr|exact Hok|]. cbv zeta. fold va. change (negb (0 =? 0)) with false. cbv iota. apply swp_bind. eapply upd_thread_ok; [by apply at_put|]. rewrite put_put. apply swp_bind, swp_when; intros _.
    - eapply upd_proc_ok; [by apply at_put|]. rewrite put_put. apply swp_ret. split; [reflexivity|]. eexists. split; [reflexivity|]. split; [exact Hx|]. apply lookup_insert_eq.
    - apply swp_ret. split; [reflexivity|]. eexists. split; [reflexivity|]. split; [exact Hx|]. apply lookup_insert_eq. }
  destruct (swp_run _ _ _ H1) as (r & w1 & E1 & -> & x1 & -> & Hx1 & Hf). exists (put w p t x1 h1 (infos w) (signal_pool w) (log w)).
  assert (H2 : swp (signal_return fsz) (set_locked false (put w p t x1 h1 (infos w) (signal_pool w) (log w))) no_panic (λ r w2, r = tf_r0 (tf h) ∧
    threads w2 !! t = Some (set_mask (sigdelset (signal_mask h) SIGKILL) h))).
  { set (w' := set_locked false _). assert (Ha' : at_ w' p t x1 h1) by (by apply at_put). pose proof Ha' as (Hp' & Hx' & Ht').
    unfold signal_return. apply swp_bind, swp_gets, swp_bind, p_lock_ok; [done|]. apply swp_bind. eapply thread_of_ok; [done..|].
    unfold arch_signal_return. apply swp_bind, swp_bind. eapply thread_of_ok; [done..|]. apply swp_bind. eapply thread_at_ok; [done|]. apply swp_bind. eapply proc_at_ok; [done|].
    change (tf_sp (tf h1)) with va. apply swp_bind, swp_check; [by rewrite Hr|]. intros _. rewrite Hf. cbn [fr_regs]. rewrite Hm. simpl. apply swp_bind. eapply upd_thread_ok; [exact Ha'|]. apply swp_ret.
    apply swp_bind. eapply upd_thread_ok; [by apply at_put|]. rewrite put_put. apply swp_bind, p_unlock_ok; [done|]. apply swp_ret. split; [done|].
    etrans; [apply lookup_insert_eq|]. by destruct h. }
  destruct (swp_run _ _ _ H2) as (r & w2 & E2 & -> & Ht2). exists w2. split; [done|]. split; [apply lookup_insert_eq|done].
Qed.

(** SIGCONT sent to a stopped process stops the kernel: [_process_continue]
    asserts that the process has a status to report, but [_process_stop] does
    not set the flag, and no live process has it. *)
Theorem continue_panics w p t x h code :
  inv w → live w p t x h → locked w = true → state x = STOPPED → signal_generate_one p SIGCONT code w = Panic FLAGS.
Proof.
  intros V L Hlk Hst. destruct (live_ok _ _ _ _ _ _ V L ltac:(done)) as (_ & O & _ & Hvm & Hfl & _).
  assert (H : swp (signal_generate_one p SIGCONT code) w (.= FLAGS) (λ _ _, False)).
  { apply (generate_one_ok _ 1 w p t x h); [apply L|exact O|exact Hlk|unfold SIGCONT, NSIG; lia|exact Hvm|exact Hfl|done|]. intros Hn. exfalso. by apply Hn. }
  unfold swp in H. destruct (signal_generate_one p SIGCONT code w) as [[]|]; [done|congruence].
Qed.

(** ** A small system: the init process, then a child of it *)

Definition no_actions : list sigaction := replicate (Z.to_nat NSIG) (MkAction SIG_DFL 0 0).
Definition process0 (v : bool) (t : option nat) (n : Z) : Process :=
  MkProcess v t n 0 None [] ACTIVE 0 0 0 no_actions 0 0 0 0 (0, 0, 0, 0, 0) 0 ∅.
Definition user_tf : TrapFrame := MkTf 3 4096 5 6 PSR_M_USR.
Definition free_thread : Thread := MkThread None zero_tf no_pending [] 0.

(** Before the init process is made: two processes and two threads in the pools. *)
Definition empty_table : pst :=
  MkPst {[0%nat := process0 false None 0; 1%nat := process0 false None 0]} {[0%nat := free_thread; 1%nat := free_thread]}
    {[0%nat := MkInfo 0 0 0]} [] (replicate (Z.to_nat NBUCKET) []) 0 0 0 [0%nat; 1%nat] [0%nat; 1%nat] [0%nat] [] false (Fd.MkFds ∅ ∅ []) [].
Definition boot : pst :=
  MkPst {[0%nat := process0 true (Some 0%nat) 1; 1%nat := process0 false None 0]}
    {[0%nat := MkThread (Some 0%nat) user_tf no_pending [] 0; 1%nat := free_thread]}
    {[0%nat := MkInfo 0 0 0]} [0%nat] (hash_put 0 1 (replicate (Z.to_nat NBUCKET) [])) 1 0 0 [1%nat] [1%nat] [0%nat] [] false
    (Fd.MkFds ∅ {[0%nat := replicate (Z.to_nat Fd.OPEN_MAX) Fd.empty_desc]} []) [Resume 0].

(** [process_init]: the first process. *)
Example boot_created : process_create true true (inr user_tf) empty_table = Ok ((0, Some 0%nat), boot).
Proof. vm_compute. reflexivity. Qed.

Lemma boot_procs p x : procs boot !! p = Some x → p = 0%nat ∧ x = process0 true (Some 0%nat) 1 ∨ p = 1%nat ∧ x = process0 false None 0.
Proof. simpl. rewrite lookup_insert, lookup_singleton. repeat case_decide; intros; simplify_eq; auto. Qed.

Lemma boot_live p t x h : live boot p t x h → p = 0%nat ∧ t = 0%nat ∧ signal_queue h = [].
Proof.
  intros (_ & [[-> ->]|[-> ->]]%boot_procs & Ht & Hh); [|done]. injection Ht as <-. cbn [threads boot] in Hh. rewrite lookup_insert_eq in Hh. by injection Hh as <-.
Qed.

Lemma boot_sig : sig_ok (infos boot) (process0 true (Some 0%nat) 1) (MkThread (Some 0%nat) user_tf no_pending [] 0).
Proof.
  assert (Hno : ∀ signo s, ¬ is_pend (MkThread (Some 0%nat) user_tf no_pending [] 0) signo s) by (intros signo s [_ H]; apply lookup_replicate in H as [? _]; done).
  split; try done.
  - constructor.
  - intros s. split; [by intros ?%not_elem_of_nil|]. by intros [signo ?%Hno].
  - by intros signo s ?%Hno.
  - by intros signo a [s ?%Hno].
  - by intros [s ?%Hno].
  - intros signo a _ [-> _]%lookup_replicate. done.
Qed.

Lemma first_inv : inv boot.
Proof.
  assert (Ha : alive boot 0) by (eexists _, _, _; split; [left|]; split; [apply lookup_insert_eq|]; split; [done|]; apply lookup_insert_eq).
  split.
  - apply NoDup_singleton.
  - intros p ->%list_elem_of_singleton. eexists. split; [apply lookup_insert_eq|]. split; [|split; [|done]].
    + eexists. split; [apply lookup_insert_eq|]. split; [done|]. split; [exact boot_sig|done].
    + split; [done|]. split; [constructor|]. by intros c ?%not_elem_of_nil.
  - intros p q t u x y h k s (-> & _)%boot_live (-> & _)%boot_live. done.
  - apply NoDup_singleton.
  - intros p t x h s (_ & _ & ->)%boot_live ?%not_elem_of_nil. done.
  - apply NoDup_singleton.
  - intros t ->%list_elem_of_singleton. eexists. split; [done|]. by intros p x [[-> ->]|[-> ->]]%boot_procs.
  - apply NoDup_singleton.
  - intros p ->%list_elem_of_singleton. split; [by intros ?%list_elem_of_singleton|]. eexists. by split.
  - intros p x t [[-> ->]|[-> ->]]%boot_procs Ht; [left|done].
  - split; [done|]. intros x [[_ ->]|[? ->]]%boot_procs; done.
  - split; [done|]. split.
    + intros b l p Hb Hp. split; [done|]. destruct (elem_hash_put _ _ _ _ _ _ Hb Hp) as [[-> ->]|(lb & [-> _]%lookup_replicate & ?%not_elem_of_nil)]; [|done].
      eexists. by split; [apply lookup_insert_eq|].
    + intros p x [[-> ->]|[-> ->]]%boot_procs Ht _; [|done]. by apply (hash_put_elem _ _ _ _ []); [|right].
  - intros p q x y ->%list_elem_of_singleton ->%list_elem_of_singleton. done.
  - split.
    + exists (λ _, 0). split; [split| |].
      * intros c. simpl. rewrite lookup_empty. unfold Fd.uses. rewrite map_fold_singleton. done.
      * intros c k Hk. exfalso. exact (lookup_empty_Some c k Hk).
      * done.
      * intros p t Ht. assert (t = replicate (Z.to_nat Fd.OPEN_MAX) Fd.empty_desc) as -> by (exact (eq_sym (proj2 (proj1 (lookup_singleton_Some _ _ _ _) Ht)))). split; [done|]. apply Forall_replicate. split; [by left|done].
    + intros p x [[-> ->]|[-> ->]]%boot_procs Ht; [by eexists; apply lookup_singleton_eq|done].
    + intros p x tb [[-> ->]|[-> ->]]%boot_procs Ht; [done|]. simpl. by rewrite lookup_singleton_ne.
  - done.
Qed.

(** After a fork by init, the child runs. *)
Definition forked_boot : pst := match process_copy true true boot with Ok (_, w) => w | Panic _ => boot end.
Definition forked_state : pst := run_as 1 forked_boot.

Lemma fork_result : match process_copy true true boot with Ok (r, w) => r = 2 ∧ process_list w = [0%nat; 1%nat] | Panic _ => False end.
Proof. vm_compute. by split. Qed.


Lemma boot_alive : alive boot 0.
Proof. eexists _, _, _; split; [left|]; split; [apply lookup_insert_eq|]; split; [done|]; apply lookup_insert_eq. Qed.

Lemma boot_clean : clean_thread boot.
Proof. intros u tp k [= <- <-] Hk. by injection Hk as <-. Qed.

Lemma forked_facts : inv forked_state ∧ alive forked_state 1 ∧ locked forked_state = false.
Proof.
  pose proof fork_result as Hres. unfold forked_state, forked_boot.
  assert (H : swp (process_copy true true) boot no_panic (forked boot)) by (apply copy_ok; [exact first_inv|exact boot_alive|done|exact boot_clean|by intros [?|[?|?]]|done|done]).
  unfold swp in H. destruct (process_copy true true boot) as [[r w]|]; [|done]. destruct H as (V' & _ & _ & Hlk & Hr), Hres as [-> Hl].
  split; [by apply inv_run_as|]. split; [|done]. destruct Hr as (_ & q & y & _ & Hl' & _ & _ & _ & Hq & _). rewrite Hl in Hl'. by injection Hl' as <-.
Qed.


Definition the_child : Process := default (process0 true None 0) (procs forked_state !! 1%nat).

Lemma the_child_ok : procs forked_state !! 1%nat = Some the_child.
Proof. destruct forked_facts as (_ & (t & x & h & _ & Hx & _) & _). unfold the_child. by rewrite Hx. Qed.

Lemma exit_wait_witness : ∃ w1 w2, process_destroy 5 forked_state = Ok (tt, w1) ∧
  process_wait (pid the_child) 0 (run_as 0 w1) = Ok (Waited (pid the_child) (Some 5), w2) ∧
  inv w2 ∧ current forked_state ∉ process_list w2 ∧ current forked_state ∈ process_pool w2 ∧ ∀ y, procs w2 !! 0%nat = Some y → current forked_state ∉ children y.
Proof.
  destruct forked_facts as (V & Ha & Hlk). apply (exit_wait forked_state 5 0 0%nat the_child); [exact V| |exact Hlk| | | |reflexivity].
  - assert (current forked_state = 1%nat) as -> by (vm_compute; reflexivity). exact Ha.
  - assert (current forked_state = 1%nat ∧ init_process forked_state = 0%nat) as [-> ->] by (vm_compute; split; reflexivity). done.
  - assert (current forked_state = 1%nat) as -> by (vm_compute; reflexivity). exact the_child_ok.
  - vm_compute. reflexivity.
Defined.

Lemma handler_roundtrip_witness :
  let w := set_locked true boot in
  let h := MkThread (Some 0%nat) user_tf no_pending [] 0 in
  ∃ w1 w2, signal_action_custom (λ _, true) 200 0 0 2 (MkAction 1000 8 0) w = Ok (0, w1) ∧
    threads w1 !! 0%nat = Some (set_mask 8 (set_tf (MkTf 3896 3896 5 0 PSR_M_USR) h)) ∧
    signal_return 200 (set_locked false w1) = Ok (3, w2) ∧ threads w2 !! 0%nat = Some (set_mask 0 h).
Proof.
  intros w h. apply (handler_roundtrip (λ _, true) 200 w 0%nat (process0 true (Some 0%nat) 1) h 0%nat (MkInfo 0 0 0) 2 (MkAction 1000 8 0)); try reflexivity.
  split; [left|]. split; [reflexivity|]. split; reflexivity.
Defined.

(** Init, stopped. *)
Definition stopped_state : pst :=
  let h := MkThread (Some 0%nat) user_tf no_pending [] 0 in
  put (set_locked true boot) 0 0 (set_state STOPPED (process0 true (Some 0%nat) 1)) h (infos boot) (signal_pool boot) (log boot).

Lemma continue_panics_witness : signal_generate_one 0 SIGCONT 0 stopped_state = Panic FLAGS.
Proof.
  set (h := MkThread (Some 0%nat) user_tf no_pending [] 0). set (x := process0 true (Some 0%nat) 1). assert (L : live (set_locked true boot) 0 0 x h) by (split; [left|]; split; [reflexivity|]; split; reflexivity).
  apply (continue_panics stopped_state 0 0 (set_state STOPPED x) h 0); [|by eapply put_self|reflexivity|reflexivity].
  apply (inv_local None (set_locked true boot) 0 0 x h); try done; [apply inv_locked, first_inv| |].
  - pose proof boot_sig as O. destruct O. split; try done. intros [s [_ H]]. by apply lookup_replicate in H as [? _].
  - apply moves_sub; [apply NoDup_singleton| |done]. by intros s ?%not_elem_of_nil.
Defined.

End ProcessTable.
