(* ===== verification/Tty.v ===== *)
(** Terminals (src/kernel/tty.c): the line discipline of the virtual consoles.

    The characters typed go through [tty_process_input] into a ring buffer of 256
    characters, where they can be erased until [tty_read] takes them; what is
    shown, the signals sent and the readers woken are events.  The mutexes of a
    terminal make every character processed and every character read one step;
    [tty_process_input] and [tty_read] let go of them only between two
    characters, to send a signal and to wait for input. *)

From S2P Require Import Prelude StateM.
#[local] Open Scope Z_scope.

Module Tty.

(** ** Data *)

Definition TTY_INPUT_MAX : Z := 256.
Definition NTTYS : Z := 6.
Definition NCCS : nat := 40.

Definition BRKINT : Z := 1.
Definition ICRNL : Z := 2.
Definition IGNCR : Z := 8.
Definition INLCR : Z := 32.
Definition ISTRIP : Z := 128.
Definition IXOFF : Z := 256.
Definition IXON : Z := 512.
Definition IXANY : Z := 2048.
Definition OPOST : Z := 1.
Definition ONLCR : Z := 2.
Definition CREAD : Z := 2.
Definition CS8 : Z := 12.
Definition HUPCL : Z := 32.
Definition ECHO : Z := 1.
Definition ECHOE : Z := 2.
Definition ECHOK : Z := 4.
Definition ECHONL : Z := 8.
Definition ICANON : Z := 16.
Definition ISIG : Z := 64.
Definition B9600 : Z := 53248.
Definition VEOF : nat := 0.
Definition VEOL : nat := 1.
Definition VERASE : nat := 2.
Definition VINTR : nat := 3.
Definition VKILL : nat := 4.
Definition VMIN : nat := 5.
Definition VQUIT : nat := 6.
Definition VTIME : nat := 7.
Definition VSUSP : nat := 8.
Definition VSTART : nat := 9.
Definition VSTOP : nat := 10.
Definition _POSIX_VDISABLE : Z := 255.
Definition SIGINT : Z := 2.
Definition SIGQUIT : Z := 3.
Definition SIGSTOP : Z := 17.
Definition CR : Z := 13.
Definition NL : Z := 10.
Definition IN_EOF : Z := 1.
Definition IN_EOL : Z := 2.

(** The control character of a letter. *)
Definition C (x : Z) : Z := x - 64.

Record termios := MkTermios { c_iflag : Z; c_oflag : Z; c_cflag : Z; c_lflag : Z; c_cc : list Z; c_ispeed : Z; c_ospeed : Z }.

Record Tty := MkTty { in_buf : list Z; in_size : Z; read_pos : Z; write_pos : Z; stopped : bool; tio : termios; pgrp : Z; cols : Z; rows : Z }.

Definition cc (t : Tty) (k : nat) : Z := default 0 (c_cc (tio t) !! k).
Definition has (flags bit : Z) : bool := negb (Z.land flags bit =? 0).
Definition iflag (t : Tty) (bit : Z) : bool := has (c_iflag (tio t)) bit.
Definition lflag (t : Tty) (bit : Z) : bool := has (c_lflag (tio t)) bit.

Definition set_in (b : list Z) (n r w : Z) (t : Tty) : Tty := MkTty b n r w (stopped t) (tio t) (pgrp t) (cols t) (rows t).
Definition set_stopped (s : bool) (t : Tty) : Tty := MkTty (in_buf t) (in_size t) (read_pos t) (write_pos t) s (tio t) (pgrp t) (cols t) (rows t).
Definition set_tio (x : termios) (t : Tty) : Tty := MkTty (in_buf t) (in_size t) (read_pos t) (write_pos t) (stopped t) x (pgrp t) (cols t) (rows t).
Definition set_pgrp (p : Z) (t : Tty) : Tty := MkTty (in_buf t) (in_size t) (read_pos t) (write_pos t) (stopped t) (tio t) p (cols t) (rows t).

(** What a terminal does to the world. *)
Inductive event :=
  | Out (c : Z)
  | Flush
  | Erase
  | Signal (pgrp signo : Z)
  | Notify.

(** A terminal at work: its state and what it has done. *)
Record tst := MkTst { tty : Tty; trace : list event }.

Definition upd (g : Tty → Tty) : sm tst unit := modify (λ s, MkTst (g (tty s)) (trace s)).
Definition emit (e : event) : sm tst unit := modify (λ s, MkTst (tty s) (trace s ++ [e])).

(** ** Input *)

Section input.
Context (signal_generate : Z → Z → Z).
Implicit Types c : Z.

Definition tty_echo c : sm tst unit := emit (Out c);; emit Flush.

Definition tty_signal (signo : Z) : sm tst unit :=
  t ← gets tty;
  if pgrp t <=? 1 then mret tt else
  check (signal_generate (- pgrp t) signo =? 0) "cannot generate signal";;
  emit (Signal (pgrp t) signo).

Definition tty_erase_input : sm tst bool :=
  t ← gets tty;
  if in_size t =? 0 then mret false else
  when (lflag t ECHOE) (emit Erase);;
  upd (set_in (in_buf t) (in_size t - 1) (read_pos t) (if write_pos t =? 0 then TTY_INPUT_MAX - 1 else write_pos t - 1));;
  mret true.

(** [while (tty_erase_input(tty));] *)
Fixpoint erase_all (fuel : nat) : sm tst unit :=
  match fuel with
  | O => stop "out of fuel"
  | S fuel => b ← tty_erase_input; if b : bool then erase_all fuel else mret tt
  end.

(** Strip and map a character; [None] if it is ignored. *)
Definition map_char (t : Tty) c : option Z :=
  let c := if iflag t ISTRIP then Z.land c 127 else c in
  if c =? CR then
    if iflag t IGNCR then None else Some (if iflag t ICRNL then NL else c)
  else if c =? NL then Some (if iflag t INLCR then CR else c)
  else Some c.

(** Start and stop characters; whether the character has been used up. *)
Definition flow_control c : sm tst bool :=
  t ← gets tty;
  if negb (iflag t (Z.lor IXON IXOFF)) then mret false else
  if c =? cc t VSTOP then
    upd (set_stopped true);;
    when (iflag t IXOFF) (tty_echo c);;
    mret true
  else if (c =? cc t VSTART) || iflag t IXANY then
    upd (set_stopped false);;
    if c =? cc t VSTART then when (iflag t IXOFF) (tty_echo c);; mret true else mret false
  else mret false.

Definition signal_char c : sm tst bool :=
  t ← gets tty;
  if negb (lflag t ISIG) then mret false else
  let sig := if c =? cc t VINTR then SIGINT else if c =? cc t VQUIT then SIGQUIT else if c =? cc t VSUSP then SIGSTOP else 0 in
  if sig =? 0 then mret false else
  tty_signal sig;;
  tty_echo c;;
  mret true.

Definition is_end (t : Tty) c : bool := (c =? cc t VEOL) || (c =? cc t VEOF) || (c =? NL).

(** Whether the buffer has a place for the character: the last one is kept for the
    end of a line. *)
Definition has_place (t : Tty) c : bool :=
  if in_size t =? TTY_INPUT_MAX - 1 then lflag t ICANON && is_end t c else negb (in_size t =? TTY_INPUT_MAX).

Definition echo_and_store c : sm tst unit :=
  t ← gets tty;
  (if negb (c =? cc t VEOF) && lflag t ECHO then tty_echo c else when ((c =? NL) && lflag t ECHONL) (tty_echo c));;
  if negb (has_place t c) then mret tt else
  check ((0 <=? write_pos t) && (write_pos t <? TTY_INPUT_MAX)) "access outside the array";;
  upd (set_in (<[Z.to_nat (write_pos t) := c]> (in_buf t)) (in_size t + 1) (read_pos t) ((write_pos t + 1) mod TTY_INPUT_MAX)).

(** One round of the loop of [tty_process_input], for a character not 0. *)
Definition input_char c (status : Z) : sm tst Z :=
  t ← gets tty;
  match map_char t c with
  | None => mret status
  | Some c =>
      let canon := lflag t ICANON in
      if canon && (c =? cc t VERASE) then tty_erase_input;; mret status else
      if canon && (c =? cc t VKILL) then
        erase_all (S (Z.to_nat (in_size t)));;
        when (lflag t ECHOK) (tty_echo c);;
        mret status
      else
      let status := if canon && (c =? cc t VEOF) then Z.lor status IN_EOF else status in
      let status := if canon && ((c =? cc t VEOL) || (c =? NL)) then Z.lor status IN_EOL else status in
      used ← flow_control c;
      if used : bool then mret status else
      used ← signal_char c;
      if used : bool then mret status else
      echo_and_store c;;
      mret status
  end.

Fixpoint input_loop (buf : list Z) (status : Z) : sm tst Z :=
  match buf with
  | [] => mret status
  | c :: buf => if c =? 0 then mret status else status ← input_char c status; input_loop buf status
  end.

Definition tty_process_input (buf : list Z) : sm tst unit :=
  status ← input_loop buf 0;
  t ← gets tty;
  when (negb (Z.land status (Z.lor IN_EOF IN_EOL) =? 0) || negb (lflag t ICANON)) (emit Notify).

End input.

(** ** Reading, writing and control *)

Definition ENODEV : Z := 19.
Definition O_NOCTTY : Z := 32768.

(** A call that is over, or one that waits for input; [i] characters are read. *)
Inductive answer (R : Type) :=
  | Done (r : Z) (req : R)
  | Sleep (i : Z) (req : R).
Arguments Done {R} r req.
Arguments Sleep {R} i req.

Section device.
Context {R : Type} (request_write : R → Z → Z * R) (request_read : R → Z * Z * R).
Implicit Types req : R.

(** The next character of the buffer. *)
Definition next_char : sm tst Z :=
  t ← gets tty;
  c ← need (in_buf t !! Z.to_nat (read_pos t)) "access outside the array";
  upd (set_in (in_buf t) (in_size t - 1) ((read_pos t + 1) mod TTY_INPUT_MAX) (write_pos t));;
  mret c.

(** The loop of [tty_read], up to the wait for input; a reader that is woken
    goes on with the same [i], one whose wait fails returns the error. *)
Fixpoint read_loop (fuel : nat) req (nbytes i : Z) : sm tst (answer R) :=
  match fuel with
  | O => stop "out of fuel"
  | S fuel =>
      if negb (i <? nbytes) then mret (Done i req) else
      t ← gets tty;
      if in_size t =? 0 then mret (Sleep i req) else
      c ← next_char;
      if lflag t ICANON then
        if c =? cc t VEOF then mret (Done i req) else
        let '(r, req) := request_write req c in
        if r <? 0 then mret (Done r req) else
        if (c =? cc t VEOL) || (c =? NL) then mret (Done (i + 1) req) else read_loop fuel req nbytes (i + 1)
      else
        let '(r, req) := request_write req c in
        if r <? 0 then mret (Done r req) else
        if cc t VMIN <=? i + 1 then mret (Done (i + 1) req) else read_loop fuel req nbytes (i + 1)
  end.
Definition tty_read req (nbytes i : Z) : sm tst (answer R) := read_loop (S (Z.to_nat (nbytes - i))) req nbytes i.

Fixpoint write_loop (n : nat) req (i : Z) : sm tst (Z * R) :=
  match n with
  | O => emit Flush;; mret (i, req)
  | S n =>
      let '(r, c, req) := request_read req in
      if r <? 0 then mret (r, req) else emit (Out c);; write_loop n req (i + 1)
  end.

(** [None]: the value of a variable that has not been set. *)
Definition tty_write req (nbytes : Z) : sm tst (option Z * R) :=
  t ← gets tty;
  if stopped t then mret (None, req) else
  '(r, req) ← write_loop (Z.to_nat nbytes) req 0;
  mret (Some r, req).

Definition tty_try_select (t : Tty) : Z := if 0 <? in_size t then if negb (lflag t ICANON) then 1 else 0 else 0.

Definition tty_select req (timeout : bool) : sm tst (answer R) :=
  t ← gets tty;
  let r := tty_try_select t in
  if negb (r =? 0) then mret (Done r req) else
  if timeout then mret (Done 0 req) else mret (Sleep 0 req).
End device.

(** ** The consoles *)

Record consoles := MkConsoles { ttys : list Tty; tty_current : Z; acts : list (Z * event) }.

(** Run on terminal [n]. *)
Definition on_tty {A} (n : Z) (m : sm tst A) : sm consoles A := λ w,
  match ttys w !! Z.to_nat n with
  | None => Panic "access outside the array"
  | Some t =>
      match m (MkTst t []) with
      | Panic why => Panic why
      | Ok (a, s) => Ok (a, MkConsoles (<[Z.to_nat n := tty s]> (ttys w)) (tty_current w) (acts w ++ map (pair n) (trace s)))
      end
  end.

(** The terminal of a device, for a process with the given controlling terminal. *)
Definition tty_from_dev (ctty : option Z) (dev : Z) : option Z :=
  let major := Z.land (Z.shiftr dev 8) 255 in
  let minor := Z.land dev 255 in
  if major =? 1 then if minor <? NTTYS then Some minor else None else
  if major =? 3 then
    match ctty with
    | None => None
    | Some ct => if Z.land (Z.shiftr ct 8) 255 =? 1 then if minor <? NTTYS then Some minor else None else None
    end
  else None.

(** The result and the new controlling terminal of the process. *)
Definition tty_open (ctty dev oflag : Z) : Z * Z :=
  match tty_from_dev (Some ctty) dev with
  | None => (- ENODEV, ctty)
  | Some _ => (0, if negb (has oflag O_NOCTTY) && (ctty =? 0) then dev else ctty)
  end.

Definition tty_switch (n : Z) : sm consoles unit :=
  w ← gets id;
  if (n <? 0) || (NTTYS <=? n) then mret tt else
  when (negb (tty_current w =? n)) (modify (λ w, MkConsoles (ttys w) n (acts w))).

Inductive ioctl_request := TIOCGETA | TIOCSETAW | TIOCSETA | TIOCGPGRP | TIOCSPGRP | TIOCGWINSZ | TIOCSWINSZ | TIOC (n : Z).

Section ioctl.
Context {R : Type} (write_termios : R → termios → Z * R) (read_termios : R → termios → Z * termios * R).
Context (write_winsize : R → Z * Z * Z * Z → Z * R) (read_winsize : R → Z * R).

Definition tty_ioctl (ctty : option Z) (req : R) (dev : Z) (request : ioctl_request) (arg : Z) : sm consoles (Z * R) :=
  match tty_from_dev ctty dev with
  | None => mret (- ENODEV, req)
  | Some n =>
      w ← gets id;
      match request with
      | TIOCGETA => t ← on_tty n (gets tty); mret (write_termios req (tio t))
      | TIOCSETAW | TIOCSETA =>
          t ← on_tty n (gets tty);
          let '(r, x, req) := read_termios req (tio t) in
          on_tty n (upd (set_tio x));;
          mret (r, req)
      | TIOCGPGRP => t ← on_tty (tty_current w) (gets tty); mret (pgrp t, req)
      | TIOCSPGRP => on_tty (tty_current w) (upd (set_pgrp arg));; mret (0, req)
      | TIOCGWINSZ => t ← on_tty (tty_current w) (gets tty); mret (write_winsize req (cols t, rows t, cols t * 8, rows t * 16))
      | TIOCSWINSZ => let '(r, req) := read_winsize req in mret (if r <? 0 then - EFAULT else 0, req)
      | TIOC _ => stop "TODO"
      end
  end.
End ioctl.

(** The settings that [tty_init] gives every terminal. *)
Definition init_termios : termios :=
  MkTermios (Z.lor (Z.lor (Z.lor BRKINT ICRNL) IXON) IXANY) (Z.lor OPOST ONLCR) (Z.lor (Z.lor CREAD CS8) HUPCL)
    (Z.lor (Z.lor (Z.lor ISIG ICANON) ECHO) ECHOE)
    (<[VEOF := C 68]> (<[VEOL := _POSIX_VDISABLE]> (<[VERASE := C 72]> (<[VINTR := C 67]> (<[VKILL := C 85]> (<[VMIN := 1]>
      (<[VQUIT := C 92]> (<[VTIME := 0]> (<[VSUSP := C 90]> (<[VSTART := C 81]> (<[VSTOP := C 83]> (replicate NCCS 0))))))))))))
    B9600 B9600.

(** [screen n]: the columns and rows of the screen of terminal [n]. *)
Definition tty_init (screen : Z → Z * Z) : consoles :=
  MkConsoles ((λ n, MkTty (replicate (Z.to_nat TTY_INPUT_MAX) 0) 0 0 0 false init_termios 0 (screen n).1 (screen n).2) <$> seqZ 0 NTTYS) 0 [].

(** ** The ring buffer is a queue *)

Implicit Types (t : Tty) (s : tst) (q : list Z).

Record tty_ok t : Prop := {
  tk_len : Z.of_nat (length (in_buf t)) = TTY_INPUT_MAX;
  tk_size : 0 ≤ in_size t ≤ TTY_INPUT_MAX;
  tk_read : 0 ≤ read_pos t < TTY_INPUT_MAX;
  tk_write : write_pos t = (read_pos t + in_size t) mod TTY_INPUT_MAX }.

Definition at_ring t (k : Z) : Z := default 0 (in_buf t !! Z.to_nat ((read_pos t + k) mod TTY_INPUT_MAX)).
Definition queue t : list Z := at_ring t <$> seqZ 0 (in_size t).

Definition stored t c : Tty := set_in (<[Z.to_nat (write_pos t) := c]> (in_buf t)) (in_size t + 1) (read_pos t) ((write_pos t + 1) mod TTY_INPUT_MAX) t.
Definition erased t : Tty := set_in (in_buf t) (in_size t - 1) (read_pos t) (if write_pos t =? 0 then TTY_INPUT_MAX - 1 else write_pos t - 1) t.
Definition taken t : Tty := set_in (in_buf t) (in_size t - 1) ((read_pos t + 1) mod TTY_INPUT_MAX) (write_pos t) t.

Lemma length_queue t : tty_ok t → Z.of_nat (length (queue t)) = in_size t.
Proof. intros [_ H _ _]. unfold queue. rewrite length_fmap, length_seqZ. lia. Qed.

Lemma ring_mod a : 0 ≤ a mod TTY_INPUT_MAX < TTY_INPUT_MAX.
Proof. apply Z.mod_pos_bound. done. Qed.

Lemma stored_ok t c : tty_ok t → in_size t < TTY_INPUT_MAX → tty_ok (stored t c) ∧ queue (stored t c) = queue t ++ [c].
Proof.
  intros [Hl Hs Hr Hw] Hlt. pose proof (ring_mod (read_pos t + in_size t)) as Hm. split.
  - split; simpl; rewrite ?length_insert; try done; [lia|]. rewrite Hw, Zplus_mod_idemp_l. f_equal. lia.
  - unfold queue. simpl. rewrite seqZ_app by lia. rewrite fmap_app. simpl. f_equal.
    + apply list_fmap_ext. intros k x [-> Hk]%lookup_seqZ. unfold at_ring. simpl. rewrite list_lookup_insert_ne; [done|]. rewrite Hw. pose proof (ring_mod (read_pos t + (0 + Z.of_nat k))).
      intros Heq%Z2Nat.inj; [|lia..]. unfold TTY_INPUT_MAX in *. Z.to_euclidean_division_equations. lia.
    + f_equal. unfold at_ring. simpl. rewrite Hw, list_lookup_insert_eq by lia. done.
Qed.

Lemma erased_ok t : tty_ok t → 0 < in_size t → tty_ok (erased t) ∧ ∃ x, queue t = queue (erased t) ++ [x].
Proof.
  intros [Hl Hs Hr Hw] Hlt. split.
  - split; simpl; try done; [lia|]. unfold TTY_INPUT_MAX in *. case_match eqn:Hz; bool_to_prop; rewrite Hw in *; Z.to_euclidean_division_equations; lia.
  - exists (at_ring t (in_size t - 1)). unfold queue. simpl. replace (in_size t) with (in_size t - 1 + 1) at 1 by lia. rewrite seqZ_app by lia. rewrite fmap_app. simpl. by rewrite Z.add_0_l.
Qed.

Lemma taken_ok t : tty_ok t → 0 < in_size t → tty_ok (taken t) ∧ ∃ c, in_buf t !! Z.to_nat (read_pos t) = Some c ∧ queue t = c :: queue (taken t).
Proof.
  intros [Hl Hs Hr Hw] Hlt. pose proof (ring_mod (read_pos t + 1)). split.
  - split; simpl; try done; [lia|]. rewrite Hw, Zplus_mod_idemp_l. f_equal. lia.
  - destruct (lookup_lt_is_Some_2 (in_buf t) (Z.to_nat (read_pos t))) as [c Hc]; [lia|]. exists c. split; [done|]. unfold queue. simpl. rewrite seqZ_cons by lia. simpl. f_equal.
    + unfold at_ring. rewrite Z.add_0_r, Z.mod_small by lia. by rewrite Hc.
    + rewrite <- (fmap_add_seqZ 1 0). rewrite <- list_fmap_compose. replace (Z.pred (in_size t)) with (in_size t - 1) by lia. apply list_fmap_ext. intros k x _. unfold at_ring, compose. simpl.
      rewrite Zplus_mod_idemp_l. do 4 f_equal. lia.
Qed.

(** ** Editing *)

Definition flow_used t c : bool := iflag t (Z.lor IXON IXOFF) && ((c =? cc t VSTOP) || (c =? cc t VSTART)).
Definition sig_used t c : bool := lflag t ISIG && ((c =? cc t VINTR) || (c =? cc t VQUIT) || (c =? cc t VSUSP)).

(** Place for a character behind [n] others. *)
Definition place t (n : Z) c : bool := if n =? TTY_INPUT_MAX - 1 then lflag t ICANON && is_end t c else negb (n =? TTY_INPUT_MAX).

(** What typing a character does to the characters that wait to be read. *)
Definition edit t q c : list Z :=
  match map_char t c with
  | None => q
  | Some c =>
      if lflag t ICANON && (c =? cc t VERASE) then take (length q - 1) q else
      if lflag t ICANON && (c =? cc t VKILL) then [] else
      if flow_used t c || sig_used t c then q else
      if place t (Z.of_nat (length q)) c then q ++ [c] else q
  end.

(** Whether it completes a line, or ends the input. *)
Definition completes t c : Z :=
  match map_char t c with
  | None => 0
  | Some c =>
      if lflag t ICANON && ((c =? cc t VERASE) || (c =? cc t VKILL)) then 0 else
      Z.lor (if lflag t ICANON && (c =? cc t VEOF) then IN_EOF else 0) (if lflag t ICANON && ((c =? cc t VEOL) || (c =? NL)) then IN_EOL else 0)
  end.

Definition same_settings t t' : Prop := tio t' = tio t ∧ pgrp t' = pgrp t.

Lemma settings_refl t : same_settings t t.
Proof. done. Qed.

Lemma settings_trans t1 t2 t3 : same_settings t1 t2 → same_settings t2 t3 → same_settings t1 t3.
Proof. intros [? ?] [? ?]. split; congruence. Qed.

Lemma settings_edit t t' : same_settings t t' → edit t' = edit t ∧ completes t' = completes t.
Proof.
  intros [E _]. unfold edit, completes, map_char, place, flow_used, sig_used, is_end, cc, iflag, lflag. rewrite E. done.
Qed.

Section proofs.
Context (signal_generate : Z → Z → Z) (E : string → Prop).
Context (Hsig : (∀ p g, signal_generate p g = 0) ∨ E "cannot generate signal").

Lemma emit_ok e s Q : Q tt (MkTst (tty s) (trace s ++ [e])) → swp (emit e) s E Q.
Proof. intros H. by apply swp_modify. Qed.

Lemma tty_upd_ok g s Q : Q tt (MkTst (g (tty s)) (trace s)) → swp (upd g) s E Q.
Proof. intros H. by apply swp_modify. Qed.

Lemma echo_ok c s : swp (tty_echo c) s E (λ _ s', tty s' = tty s).
Proof. by apply swp_bind, emit_ok, emit_ok. Qed.

Lemma when_echo_ok b c s : swp (when b (tty_echo c)) s E (λ _ s', tty s' = tty s).
Proof. apply swp_when; intros _; [apply echo_ok|done]. Qed.

Lemma tty_signal_ok sig s : swp (tty_signal signal_generate sig) s E (λ _ s', tty s' = tty s).
Proof.
  unfold tty_signal. apply swp_bind, swp_gets. destruct (pgrp (tty s) <=? 1); [by apply swp_ret|].
  apply swp_bind, swp_check; [intros H; destruct Hsig as [Hs|?]; [by rewrite Hs in H|done]|]. intros _. by apply emit_ok.
Qed.

Lemma erase_ok s : tty_ok (tty s) → swp tty_erase_input s E (λ b s', tty_ok (tty s') ∧ same_settings (tty s) (tty s') ∧
  b = negb (in_size (tty s) =? 0) ∧ queue (tty s') = take (length (queue (tty s)) - 1) (queue (tty s))).
Proof.
  intros Hok. unfold tty_erase_input. apply swp_bind, swp_gets. pose proof (length_queue _ Hok) as Hl. destruct (Z.eqb_spec (in_size (tty s)) 0) as [H0|H0].
  - apply swp_ret. split; [done|]. split; [done|]. split; [done|]. destruct (queue (tty s)); [done|simpl in Hl; lia].
  - apply swp_bind. apply (swp_mono _ _ _ (λ _ s1, tty s1 = tty s)); [apply swp_when; [intros _; by apply emit_ok|done]|]. intros ? s1 E1. apply swp_bind, tty_upd_ok, swp_ret. rewrite E1. simpl.
    pose proof (tk_size _ Hok). destruct (erased_ok (tty s) Hok ltac:(lia)) as (Hok' & x & Hq). fold (erased (tty s)). split; [done|]. split; [done|]. split; [done|].
    rewrite Hq, length_app. simpl. rewrite take_app_le by lia. rewrite take_ge by lia. done.
Qed.

Lemma erase_all_ok fuel s : tty_ok (tty s) → in_size (tty s) < Z.of_nat fuel →
  swp (erase_all fuel) s E (λ _ s', tty_ok (tty s') ∧ same_settings (tty s) (tty s') ∧ queue (tty s') = []).
Proof.
  revert s. induction fuel as [|fuel IH]; intros s Hok Hf; [pose proof (tk_size _ Hok); lia|]. cbn [erase_all]. apply swp_bind. eapply swp_mono; [by apply erase_ok|].
  intros b s1 (Hok1 & Hs1 & -> & Hq1). pose proof (length_queue _ Hok) as Hl. pose proof (length_queue _ Hok1) as Hl1. rewrite Hq1, length_take in Hl1. destruct (Z.eqb_spec (in_size (tty s)) 0) as [H0|H0]; simpl.
  - apply swp_ret. split; [done|]. split; [done|]. rewrite Hq1. destruct (queue (tty s)); [done|simpl in Hl; lia].
  - eapply swp_mono; [apply IH; [done|lia]|]. intros _ s2 (Hok2 & Hs2 & Hq2). split; [done|]. split; [by eapply settings_trans|done].
Qed.

Lemma flow_ok c s : tty_ok (tty s) → swp (flow_control c) s E (λ b s', tty_ok (tty s') ∧ same_settings (tty s) (tty s') ∧ queue (tty s') = queue (tty s) ∧ b = flow_used (tty s) c).
Proof.
  intros Hok. assert (Hst : ∀ b, tty_ok (set_stopped b (tty s))) by (intros b; destruct Hok; by split). unfold flow_control, flow_used. apply swp_bind, swp_gets.
  destruct (iflag (tty s) (Z.lor IXON IXOFF)); simpl; [|by apply swp_ret]. destruct (c =? cc (tty s) VSTOP); simpl.
  { apply swp_bind, tty_upd_ok, swp_bind. eapply swp_mono; [apply when_echo_ok|]. intros ? s1 E1. simpl in E1. apply swp_ret. rewrite E1. split; [apply Hst|done]. }
  destruct (c =? cc (tty s) VSTART) eqn:Hstart; simpl.
  - apply swp_bind, tty_upd_ok, swp_bind. eapply swp_mono; [apply when_echo_ok|]. intros ? s1 E1. simpl in E1. apply swp_ret. rewrite E1. split; [apply Hst|done].
  - destruct (iflag (tty s) IXANY); [|by apply swp_ret]. apply swp_bind, tty_upd_ok, swp_ret. split; [apply Hst|done].
Qed.

Lemma signal_char_ok c s : swp (signal_char signal_generate c) s E (λ b s', tty s' = tty s ∧ b = sig_used (tty s) c).
Proof.
  unfold signal_char, sig_used. apply swp_bind, swp_gets. destruct (lflag (tty s) ISIG); simpl; [|by apply swp_ret].
  assert (Hgo : ∀ sig, swp (tty_signal signal_generate sig;; tty_echo c;; mret true) s E (λ b s', tty s' = tty s ∧ b = true)).
  { intros sig. apply swp_bind. eapply swp_mono; [apply tty_signal_ok|]. intros ? s1 E1. apply swp_bind. eapply swp_mono; [apply echo_ok|]. intros ? s2 E2. apply swp_ret. split; [congruence|done]. }
  destruct (c =? cc (tty s) VINTR); simpl; [apply Hgo|]. destruct (c =? cc (tty s) VQUIT); simpl; [apply Hgo|]. destruct (c =? cc (tty s) VSUSP); simpl; [apply Hgo|by apply swp_ret].
Qed.

Lemma tty_store_ok c s : tty_ok (tty s) → swp (echo_and_store c) s E (λ _ s', tty_ok (tty s') ∧ same_settings (tty s) (tty s') ∧
  queue (tty s') = if place (tty s) (Z.of_nat (length (queue (tty s)))) c then queue (tty s) ++ [c] else queue (tty s)).
Proof.
  intros Hok. unfold echo_and_store. apply swp_bind, swp_gets, swp_bind. apply (swp_mono _ _ _ (λ _ s1, tty s1 = tty s)); [case_match; [apply echo_ok|apply when_echo_ok]|].
  intros ? s1 E1. rewrite (length_queue _ Hok). change (has_place (tty s) c) with (place (tty s) (in_size (tty s)) c). destruct (place (tty s) (in_size (tty s)) c) eqn:Hp; simpl; [|apply swp_ret; by rewrite E1].
  pose proof Hok as [_ Hsz _ Hw]. pose proof (ring_mod (read_pos (tty s) + in_size (tty s))). apply swp_bind, swp_check; [intros Hb; exfalso; rewrite Hw in Hb; lia|]. intros _. apply tty_upd_ok. simpl. rewrite E1.
  fold (stored (tty s) c). destruct (stored_ok (tty s) c Hok) as [Hok' Hq]; [|done]. unfold place in Hp. destruct (Z.eqb_spec (in_size (tty s)) (TTY_INPUT_MAX - 1)); [lia|]. apply negb_true_iff, Z.eqb_neq in Hp. lia.
Qed.

Lemma input_char_ok c st s : tty_ok (tty s) → swp (input_char signal_generate c st) s E (λ st' s', tty_ok (tty s') ∧ same_settings (tty s) (tty s') ∧
  queue (tty s') = edit (tty s) (queue (tty s)) c ∧ st' = Z.lor st (completes (tty s) c)).
Proof.
  intros Hok. unfold input_char, edit, completes. apply swp_bind, swp_gets. destruct (map_char (tty s) c) as [c'|]; [|apply swp_ret; by rewrite Z.lor_0_r].
  destruct (lflag (tty s) ICANON && (c' =? cc (tty s) VERASE)) eqn:H1.
  { apply andb_prop in H1 as [-> ->]. simpl. apply swp_bind. eapply swp_mono; [by apply erase_ok|]. intros _ s1 (? & ? & _ & ?). apply swp_ret. by rewrite Z.lor_0_r. }
  destruct (lflag (tty s) ICANON && (c' =? cc (tty s) VKILL)) eqn:H2.
  { apply andb_prop in H2 as [-> ->]. rewrite orb_true_r. cbn [andb]. apply swp_bind. eapply swp_mono; [apply erase_all_ok; [done|pose proof (tk_size _ Hok); lia]|]. intros _ s1 (Hok1 & Hs1 & Hq1).
    apply swp_bind. eapply swp_mono; [apply when_echo_ok|]. intros ? s2 E2. apply swp_ret. rewrite E2, Z.lor_0_r. done. }
  assert (Hne : lflag (tty s) ICANON && ((c' =? cc (tty s) VERASE) || (c' =? cc (tty s) VKILL)) = false) by (by rewrite andb_orb_distrib_r, H1, H2). rewrite Hne.
  set (st' := Z.lor st (Z.lor (if lflag (tty s) ICANON && (c' =? cc (tty s) VEOF) then IN_EOF else 0) (if lflag (tty s) ICANON && ((c' =? cc (tty s) VEOL) || (c' =? NL)) then IN_EOL else 0))).
  cbv zeta. assert (Est : (if lflag (tty s) ICANON && ((c' =? cc (tty s) VEOL) || (c' =? NL))
      then Z.lor (if lflag (tty s) ICANON && (c' =? cc (tty s) VEOF) then Z.lor st IN_EOF else st) IN_EOL
      else if lflag (tty s) ICANON && (c' =? cc (tty s) VEOF) then Z.lor st IN_EOF else st) = st').
  { unfold st'. destruct (lflag (tty s) ICANON); cbn [andb]; [|by rewrite !Z.lor_0_r]. destruct (c' =? cc (tty s) VEOF), ((c' =? cc (tty s) VEOL) || (c' =? NL)); rewrite ?Z.lor_0_l, ?Z.lor_0_r, ?Z.lor_assoc; done. }
  rewrite Est. apply swp_bind. eapply swp_mono; [by apply flow_ok|]. intros b s1 (Hok1 & Hs1 & Hq1 & ->). destruct (flow_used (tty s) c') eqn:Hfl; cbn [orb]; [apply swp_ret; by rewrite Hq1|].
  assert (Es : sig_used (tty s1) c' = sig_used (tty s) c' ∧ place (tty s1) = place (tty s)) by (destruct Hs1 as [Et _]; unfold sig_used, place, is_end, lflag, cc; by rewrite Et). destruct Es as [Es Ep].
  apply swp_bind. eapply swp_mono; [apply signal_char_ok|]. intros b s2 (E2 & ->). rewrite Es. destruct (sig_used (tty s) c'); [apply swp_ret; rewrite E2; done|].
  apply swp_bind. eapply swp_mono; [apply tty_store_ok; by rewrite E2|]. intros _ s3 (Hok3 & Hs3 & Hq3). apply swp_ret. rewrite E2 in *. split; [done|]. split; [by eapply settings_trans|]. by rewrite Hq3, Ep, Hq1.
Qed.

Lemma input_loop_ok buf st s : tty_ok (tty s) → Forall (λ c, c ≠ 0) buf → swp (input_loop signal_generate buf st) s E (λ st' s', tty_ok (tty s') ∧ same_settings (tty s) (tty s') ∧
  queue (tty s') = foldl (edit (tty s)) (queue (tty s)) buf ∧ st' = foldl (λ st c, Z.lor st (completes (tty s) c)) st buf).
Proof.
  intros Hok Hnz. revert st s Hok. induction Hnz as [|c buf Hc Hnz IH]; intros st s Hok; cbn [input_loop]; [by apply swp_ret|]. rewrite (proj2 (Z.eqb_neq c 0)) by done.
  apply swp_bind. eapply swp_mono; [by apply input_char_ok|]. intros st1 s1 (Hok1 & Hs1 & Hq1 & ->). eapply swp_mono; [by apply IH|]. intros st2 s2 (Hok2 & Hs2 & Hq2 & ->).
  destruct (settings_edit _ _ Hs1) as [Ee Ec]. rewrite Ee, Hq1 in Hq2. rewrite Ec. split; [done|]. split; [by eapply settings_trans|done].
Qed.

Lemma completes_land t c : Z.land (completes t c) (Z.lor IN_EOF IN_EOL) = completes t c.
Proof. unfold completes. destruct (map_char t c); [|done]. repeat case_match; done. Qed.

Lemma status_zero t buf st : Z.land (foldl (λ st c, Z.lor st (completes t c)) st buf) (Z.lor IN_EOF IN_EOL) = 0 →
  Z.land st (Z.lor IN_EOF IN_EOL) = 0 ∧ Forall (λ c, completes t c = 0) buf.
Proof.
  revert st. induction buf as [|c buf IH]; intros st; cbn [foldl]; [done|]. intros [H Hf]%IH. rewrite Z.land_lor_distr_l, Z.lor_eq_0_iff, completes_land in H. destruct H. split; [done|]. by constructor.
Qed.

(** Typing: the characters edit the queue, and readers are told of a line. *)
Lemma process_input_ok buf s : tty_ok (tty s) → Forall (λ c, c ≠ 0) buf → swp (tty_process_input signal_generate buf) s E (λ _ s',
  tty_ok (tty s') ∧ same_settings (tty s) (tty s') ∧ queue (tty s') = foldl (edit (tty s)) (queue (tty s)) buf ∧
  (lflag (tty s) ICANON = false ∨ Exists (λ c, completes (tty s) c ≠ 0) buf → ∃ l, trace s' = l ++ [Notify])).
Proof.
  intros Hok Hnz. unfold tty_process_input. apply swp_bind. eapply swp_mono; [by apply input_loop_ok|]. intros st s1 (Hok1 & Hs1 & Hq1 & ->). apply swp_bind, swp_gets.
  assert (El : lflag (tty s1) ICANON = lflag (tty s) ICANON) by (unfold lflag; by destruct Hs1 as [-> _]). rewrite El. apply swp_when; intros Hb.
  - apply emit_ok. split; [done|]. split; [done|]. split; [done|]. intros _. by exists (trace s1).
  - split; [done|]. split; [done|]. split; [done|]. apply orb_false_iff in Hb as [Hz Hc]. apply negb_false_iff in Hz, Hc. apply Z.eqb_eq, status_zero in Hz as [_ Hz].
    intros [H|H]; [congruence|]. apply Exists_exists in H as (c & Hin & Hne). rewrite Forall_forall in Hz. by destruct (Hne (Hz c Hin)).
Qed.

(** ** Reading *)

Context {R : Type} (request_write : R → Z → Z * R) (Hreq : ∀ req c, 0 ≤ (request_write req c).1).
Implicit Types req : R.

Definition handed req (l : list Z) : R := foldl (λ req c, (request_write req c).2) req l.

(** What a read takes: the characters, whether it is over, and what is left. *)
Fixpoint line t q (n : nat) (i : Z) {struct n} : list Z * bool * list Z :=
  match n with
  | O => ([], true, q)
  | S n =>
      match q with
      | [] => ([], false, [])
      | c :: q =>
          if lflag t ICANON && (c =? cc t VEOF) then ([], true, q) else
          if (if lflag t ICANON then (c =? cc t VEOL) || (c =? NL) else cc t VMIN <=? i + 1) then ([c], true, q) else
          let '(l, d, rest) := line t q n (i + 1) in (c :: l, d, rest)
      end
  end.

Lemma settings_line t t' q n i : same_settings t t' → line t' q n i = line t q n i.
Proof.
  intros [Et _]. revert q i. induction n as [|n IH]; intros q i; [done|]. destruct q as [|c q]; [done|]. cbn [line]. rewrite IH. unfold lflag, cc. by rewrite Et.
Qed.

Lemma next_ok s : tty_ok (tty s) → in_size (tty s) ≠ 0 → swp next_char s E (λ c s', tty_ok (tty s') ∧ same_settings (tty s) (tty s') ∧ queue (tty s) = c :: queue (tty s')).
Proof.
  intros Hok Hne. pose proof (tk_size _ Hok). destruct (taken_ok _ Hok ltac:(lia)) as (Hok' & c & Hc & Hq). unfold next_char. apply swp_bind, swp_gets, swp_bind, swp_need; [by rewrite Hc|].
  intros c' Hc'. rewrite Hc in Hc'. injection Hc' as <-. apply swp_bind, tty_upd_ok, swp_ret. done.
Qed.

Lemma tty_read_loop_ok fuel req nbytes i s : tty_ok (tty s) → 0 ≤ i ≤ nbytes → nbytes - i < Z.of_nat fuel →
  swp (read_loop request_write fuel req nbytes i) s E (λ a s', let '(l, d, rest) := line (tty s) (queue (tty s)) (Z.to_nat (nbytes - i)) i in
    tty_ok (tty s') ∧ same_settings (tty s) (tty s') ∧ queue (tty s') = rest ∧
    a = (if d : bool then Done else Sleep) (i + Z.of_nat (length l)) (handed req l)).
Proof.
  revert req i s. induction fuel as [|fuel IH]; intros req i s Hok Hi Hf; [lia|]. cbn [read_loop]. destruct (Z.ltb_spec i nbytes) as [Hlt|Hge]; cbn [negb].
  2: { replace (Z.to_nat (nbytes - i)) with 0%nat by lia. apply swp_ret. split; [done|]. split; [done|]. split; [done|]. f_equal. simpl. lia. }
  replace (Z.to_nat (nbytes - i)) with (S (Z.to_nat (nbytes - (i + 1)))) by lia. apply swp_bind, swp_gets. pose proof (length_queue _ Hok) as Hl.
  destruct (Z.eqb_spec (in_size (tty s)) 0) as [H0|H0].
  { destruct (queue (tty s)) eqn:Hq; [|simpl in Hl; lia]. apply swp_ret. split; [done|]. split; [done|]. split; [done|]. f_equal. simpl. lia. }
  apply swp_bind. eapply swp_mono; [by apply next_ok|]. intros c s1 (Hok1 & Hs1 & Hq). rewrite Hq. cbn [line]. pose proof (Hreq req c) as Hr. destruct (request_write req c) as [r req1] eqn:Ereq. cbn [fst] in Hr.
  rewrite (proj2 (Z.ltb_ge r 0)) by lia. assert (E1 : handed req [c] = req1) by (unfold handed; simpl; by rewrite Ereq).
  assert (Hnext : swp (read_loop request_write fuel req1 nbytes (i + 1)) s1 E (λ a s', let '(l, d, rest) := let '(l, d, rest) := line (tty s) (queue (tty s1)) (Z.to_nat (nbytes - (i + 1))) (i + 1) in (c :: l, d, rest) in
    tty_ok (tty s') ∧ same_settings (tty s) (tty s') ∧ queue (tty s') = rest ∧ a = (if d : bool then Done else Sleep) (i + Z.of_nat (length l)) (handed req l))).
  { eapply swp_mono; [apply IH; [done|lia|lia]|]. intros a s2. rewrite (settings_line _ _ _ _ _ Hs1). destruct (line _ _ _ _) as [[l d] rest]. intros (Hok2 & Hs2 & Hq2 & ->).
    split; [done|]. split; [by eapply settings_trans|]. split; [done|]. unfold handed. cbn [foldl length]. rewrite Ereq. cbn [snd]. destruct d; f_equal; lia. }
  destruct (lflag (tty s) ICANON); cbn [andb].
  - destruct (c =? cc (tty s) VEOF); [apply swp_ret; split; [done|]; split; [done|]; split; [done|]; f_equal; simpl; lia|]. destruct ((c =? cc (tty s) VEOL) || (c =? NL)); [|exact Hnext].
    apply swp_ret. rewrite E1. done.
  - destruct (cc (tty s) VMIN <=? i + 1); [|exact Hnext]. apply swp_ret. rewrite E1. done.
Qed.

Lemma tty_read_ok req nbytes i s : tty_ok (tty s) → 0 ≤ i ≤ nbytes →
  swp (tty_read request_write req nbytes i) s E (λ a s', let '(l, d, rest) := line (tty s) (queue (tty s)) (Z.to_nat (nbytes - i)) i in
    tty_ok (tty s') ∧ same_settings (tty s) (tty s') ∧ queue (tty s') = rest ∧
    a = (if d : bool then Done else Sleep) (i + Z.of_nat (length l)) (handed req l)).
Proof. intros Hok Hi. apply tty_read_loop_ok; [done|done|lia]. Qed.

(** A line that is complete is taken whole. *)
Lemma line_complete t l c rest n i : lflag t ICANON = true → Forall (λ c, is_end t c = false) l → c ≠ cc t VEOF → (c = cc t VEOL ∨ c = NL) → (length l < n)%nat →
  line t (l ++ c :: rest) n i = (l ++ [c], true, rest).
Proof.
  intros Hc Hl Hne He. revert n i. induction Hl as [|x l Hx Hl IH]; intros n i Hn; (destruct n as [|n]; [simpl in Hn; lia|]); cbn [line app]; rewrite Hc; cbn [andb].
  - rewrite (proj2 (Z.eqb_neq _ _)) by done. destruct He as [->| ->]; [by rewrite Z.eqb_refl|]. by rewrite (Z.eqb_refl NL), orb_true_r.
  - unfold is_end in Hx. apply orb_false_iff in Hx as [[Hx1 Hx2]%orb_false_iff Hx3]. rewrite Hx1, Hx2, Hx3. cbn [orb]. rewrite IH by (simpl in Hn; lia). done.
Qed.

(** A buffer that is full holds the end of a line. *)
Definition room_kept t q : Prop := (length q ≤ 256)%nat ∧ (length q = 256%nat → ∃ c, c ∈ q ∧ is_end t c = true).

Lemma edit_room t q c : room_kept t q → room_kept t (edit t q c).
Proof.
  intros [Hle Hfull]. unfold edit. destruct (map_char t c) as [c'|]; [|done]. destruct (lflag t ICANON && _); [split; rewrite length_take; lia|]. destruct (lflag t ICANON && _); [split; simpl; lia|].
  destruct (_ || _); [done|]. unfold place, TTY_INPUT_MAX. destruct (Z.eqb_spec (Z.of_nat (length q)) (256 - 1)) as [Hn|Hn].
  - destruct (lflag t ICANON && is_end t c') eqn:He; [|done]. apply andb_prop in He as [_ He]. split; rewrite length_app; simpl; [lia|]. intros _. exists c'. split; [|done]. apply elem_of_app. right. by apply list_elem_of_singleton.
  - destruct (Z.eqb_spec (Z.of_nat (length q)) 256); simpl; [done|]. split; rewrite length_app; simpl; lia.
Qed.

Lemma typed_room t typed q : room_kept t q → room_kept t (foldl (edit t) q typed).
Proof. revert q. induction typed as [|c typed IH]; intros q H; [done|]. cbn [foldl]. by apply IH, edit_room. Qed.

Lemma open_line_room t q : room_kept t q → Forall (λ c, is_end t c = false) q → (length q ≤ 255)%nat.
Proof.
  intros [Hle Hfull] Hno. destruct (decide (length q = 256%nat)) as [Hn|]; [|lia]. destruct (Hfull Hn) as (c & Hin & He). rewrite Forall_forall in Hno. rewrite (Hno c Hin) in He. done.
Qed.

(** NL is an ordinary end of line. *)
Record plain_nl t : Prop := {
  pn_canon : lflag t ICANON = true;
  pn_map : iflag t INLCR = false;
  pn_eof : NL ≠ cc t VEOF;
  pn_edit : NL ≠ cc t VERASE ∧ NL ≠ cc t VKILL;
  pn_flow : NL ≠ cc t VSTOP ∧ NL ≠ cc t VSTART;
  pn_sig : NL ≠ cc t VINTR ∧ NL ≠ cc t VQUIT ∧ NL ≠ cc t VSUSP }.

Lemma nl_map t : plain_nl t → map_char t NL = Some NL.
Proof. intros H. unfold map_char. rewrite (pn_map _ H). by destruct (iflag t ISTRIP). Qed.

Lemma nl_used t : plain_nl t → flow_used t NL || sig_used t NL = false.
Proof.
  intros [_ _ _ _ [H1 H2] (H3 & H4 & H5)]. unfold flow_used, sig_used. rewrite !(proj2 (Z.eqb_neq NL _)) by done. by rewrite !andb_false_r.
Qed.

Lemma edit_nl t q : plain_nl t → (length q ≤ 255)%nat → edit t q NL = q ++ [NL].
Proof.
  intros H Hl. unfold edit. rewrite (nl_map t H), (nl_used t H), (pn_canon _ H). destruct (pn_edit _ H) as [H1 H2]. rewrite !(proj2 (Z.eqb_neq NL _)) by done. cbn [andb].
  unfold place, is_end, TTY_INPUT_MAX. rewrite Z.eqb_refl, !orb_true_r, (pn_canon _ H). destruct (Z.of_nat (length q) =? 256 - 1); [done|]. by rewrite (proj2 (Z.eqb_neq _ 256)) by lia.
Qed.

Lemma completes_nl t : plain_nl t → completes t NL ≠ 0.
Proof.
  intros H. unfold completes. rewrite (nl_map t H), (pn_canon _ H). destruct (pn_edit _ H) as [H1 H2]. rewrite (proj2 (Z.eqb_neq NL (cc t VERASE))), (proj2 (Z.eqb_neq NL (cc t VKILL))), (proj2 (Z.eqb_neq NL (cc t VEOF))) by first [done|apply H].
  rewrite (Z.eqb_refl NL), orb_true_r. done.
Qed.

Lemma type_and_read_ok s0 typed l req nbytes :
  let t := tty s0 in
  tty_ok t → queue t = [] → plain_nl t → Forall (λ c, c ≠ 0) typed → foldl (edit t) [] typed = l → Forall (λ c, is_end t c = false) l → Z.of_nat (length l) < nbytes →
  swp (tty_process_input signal_generate (typed ++ [NL]);; tty_read request_write req nbytes 0) s0 E (λ a s',
    a = Done (Z.of_nat (length l) + 1) (handed req (l ++ [NL])) ∧ queue (tty s') = [] ∧ tty_ok (tty s') ∧ same_settings t (tty s')).
Proof.
  intros t Hok Hq Hnl Hnz Hl Hend Hn. apply swp_bind. eapply swp_mono; [apply process_input_ok; [done|apply Forall_app; split; [done|by repeat constructor]]|].
  intros _ s1 (Hok1 & Hs1 & Hq1 & _). rewrite foldl_app in Hq1. fold t in Hq1, Hs1. rewrite Hq, Hl in Hq1. cbn [foldl] in Hq1.
  assert (Hroom : (length l ≤ 255)%nat) by (apply (open_line_room t); [rewrite <- Hl; apply typed_room; split; simpl; lia|done]). rewrite (edit_nl t l Hnl Hroom) in Hq1.
  eapply swp_mono; [apply (tty_read_ok req nbytes 0); [done|lia]|]. intros a s2. rewrite Z.sub_0_r, Hq1, (settings_line _ _ _ _ _ Hs1).
  rewrite (line_complete t l NL []); [|apply Hnl|done|apply Hnl|by right|lia]. intros (Hok2 & Hs2 & Hq2 & ->). split; [|split; [done|]; split; [done|by eapply settings_trans]].
  rewrite length_app. f_equal. simpl. lia.
Qed.

End proofs.

(** ** All terminals *)

Inductive con_op :=
  | CInput (n : Z) (buf : list Z)
  | CRead (n nbytes i : Z)
  | CWrite (n nbytes : Z)
  | CSelect (n : Z) (timeout : bool)
  | CIoctl (ctty : option Z) (dev : Z) (request : ioctl_request) (arg : Z)
  | CSwitch (n : Z).

Definition con_ok (op : con_op) : Prop :=
  match op with
  | CInput n buf => 0 ≤ n < NTTYS ∧ Forall (λ c, c ≠ 0) buf
  | CRead n nbytes i => 0 ≤ n < NTTYS ∧ 0 ≤ i ≤ nbytes
  | CWrite n _ | CSelect n _ => 0 ≤ n < NTTYS
  | _ => True
  end.

Section consoles.
Context (signal_generate : Z → Z → Z) {R : Type} (req : R) (request_write : R → Z → Z * R) (request_read : R → Z * Z * R).
Context (write_termios : R → termios → Z * R) (read_termios : R → termios → Z * termios * R) (write_winsize : R → Z * Z * Z * Z → Z * R) (read_winsize : R → Z * R).

Definition run_con (op : con_op) : sm consoles unit :=
  match op with
  | CInput n buf => on_tty n (tty_process_input signal_generate buf)
  | CRead n nbytes i => on_tty n (tty_read request_write req nbytes i);; mret tt
  | CWrite n nbytes => on_tty n (tty_write request_read req nbytes);; mret tt
  | CSelect n timeout => on_tty n (tty_select req timeout);; mret tt
  | CIoctl ctty dev request arg => tty_ioctl write_termios read_termios write_winsize read_winsize ctty req dev request arg;; mret tt
  | CSwitch n => tty_switch n
  end.

Fixpoint run_cons (ops : list con_op) : sm consoles unit :=
  match ops with
  | [] => mret tt
  | op :: ops => run_con op;; run_cons ops
  end.

Record consoles_ok w : Prop := {
  co_len : Z.of_nat (length (ttys w)) = NTTYS;
  co_ttys : Forall tty_ok (ttys w);
  co_current : 0 ≤ tty_current w < NTTYS }.

Definition allowed (why : string) : Prop := why = "cannot generate signal" ∨ why = "TODO".

Definition keeps {A} (m : sm tst A) : Prop := ∀ s, tty_ok (tty s) → swp m s allowed (λ _ s', tty_ok (tty s')).

Lemma read_keeps nbytes i : 0 ≤ i ≤ nbytes → keeps (tty_read request_write req nbytes i).
Proof.
  intros Hi. unfold tty_read. assert (Hgen : ∀ fuel rq j s, tty_ok (tty s) → 0 ≤ j ≤ nbytes → nbytes - j < Z.of_nat fuel → swp (read_loop request_write fuel rq nbytes j) s allowed (λ _ s', tty_ok (tty s')));
    [|intros s Hok; apply Hgen; [done|done|lia]].
  induction fuel as [|fuel IH]; intros rq j s Hok Hj Hf; [lia|]. cbn [read_loop]. destruct (Z.ltb_spec j nbytes); cbn [negb]; [|by apply swp_ret]. apply swp_bind, swp_gets. destruct (Z.eqb_spec (in_size (tty s)) 0); [by apply swp_ret|].
  apply swp_bind. eapply swp_mono; [by apply next_ok|]. intros c s1 (Hok1 & _). destruct (request_write rq c) as [r rq1].
  destruct (lflag (tty s) ICANON); [destruct (c =? cc (tty s) VEOF); [by apply swp_ret|]|]; (destruct (r <? 0); [by apply swp_ret|]); case_match; first [by apply swp_ret|apply IH; [done|lia|lia]].
Qed.

Lemma write_keeps nbytes : keeps (tty_write request_read req nbytes).
Proof.
  intros s Hok. unfold tty_write. apply swp_bind, swp_gets. destruct (stopped (tty s)); [by apply swp_ret|]. apply swp_bind.
  assert (Hgen : ∀ n rq i s, tty_ok (tty s) → swp (write_loop request_read n rq i) s allowed (λ _ s', tty_ok (tty s'))).
  { induction n as [|n IH]; intros rq i s1 Hok1; cbn [write_loop]; [by apply swp_bind, emit_ok, swp_ret|]. destruct (request_read rq) as [[r c] rq1]. destruct (r <? 0); [by apply swp_ret|]. apply swp_bind, emit_ok. by apply IH. }
  eapply swp_mono; [by apply Hgen|]. intros [r rq] s' H. by apply swp_ret.
Qed.

Lemma input_keeps buf : Forall (λ c, c ≠ 0) buf → keeps (tty_process_input signal_generate buf).
Proof. intros Hnz s Hok. eapply swp_mono; [apply process_input_ok; [right; by left|done|done]|]. by intros ? s' [? _]. Qed.

Lemma select_keeps timeout : keeps (tty_select req timeout).
Proof. intros s Hok. unfold tty_select. apply swp_bind, swp_gets. destruct (negb _); [by apply swp_ret|]. by destruct timeout; apply swp_ret. Qed.

Lemma on_tty_ok {A} n (m : sm tst A) w : consoles_ok w → 0 ≤ n < NTTYS → keeps m → swp (on_tty n m) w allowed (λ _ w', consoles_ok w').
Proof.
  intros [Hl Ht Hc] Hn Hm. unfold swp, on_tty. destruct (lookup_lt_is_Some_2 (ttys w) (Z.to_nat n)) as [t Htn]; [lia|]. rewrite Htn. pose proof (Hm (MkTst t []) (Forall_lookup_1 _ _ _ _ Ht Htn)) as H. unfold swp in H.
  destruct (m (MkTst t [])) as [[a s']|]; [|done]. split; simpl; [by rewrite length_insert|by apply Forall_insert|done].
Qed.

Lemma run_con_ok op w : consoles_ok w → con_ok op → swp (run_con op) w allowed (λ _ w', consoles_ok w').
Proof.
  intros Hw Hop. pose proof Hw as [_ _ Hc]. assert (Hget : keeps (gets tty)) by (intros s Hok; by apply swp_gets).
  assert (Hset : ∀ x, keeps (upd (set_tio x))) by (intros x s [? ? ? ?]; apply tty_upd_ok; by split). assert (Hpg : ∀ x, keeps (upd (set_pgrp x))) by (intros x s [? ? ? ?]; apply tty_upd_ok; by split).
  destruct op as [n buf|n nbytes i|n nbytes|n timeout|ctty dev request arg|n]; cbn [run_con con_ok] in *.
  - destruct Hop as [Hn Hb]. by apply on_tty_ok, input_keeps.
  - destruct Hop as [Hn Hi]. apply swp_bind. eapply swp_mono; [by apply on_tty_ok, read_keeps|]. by intros ? w' ?.
  - apply swp_bind. eapply swp_mono; [by apply on_tty_ok, write_keeps|]. by intros ? w' ?.
  - apply swp_bind. eapply swp_mono; [by apply on_tty_ok, select_keeps|]. by intros ? w' ?.
  - apply swp_bind. apply (swp_mono _ _ _ (λ _ w', consoles_ok w')); [|by intros ? w' ?]. unfold tty_ioctl. destruct (tty_from_dev ctty dev) as [n|] eqn:Hdev; [|by apply swp_ret].
    assert (Hn : 0 ≤ n < NTTYS). { unfold tty_from_dev in Hdev. pose proof (Z.land_nonneg dev 255). repeat case_match; simplify_eq; bool_to_prop; lia. }
    apply swp_bind, swp_gets. destruct request; try by apply swp_stop; right.
    + apply swp_bind. eapply swp_mono; [by apply on_tty_ok|]. by intros t w' ?.
    + apply swp_bind. eapply swp_mono; [by apply on_tty_ok|]. intros t w' Hw'. destruct (read_termios req (tio t)) as [[r x] rq]. apply swp_bind. eapply swp_mono; [by apply on_tty_ok|]. by intros ? w2 ?.
    + apply swp_bind. eapply swp_mono; [by apply on_tty_ok|]. intros t w' Hw'. destruct (read_termios req (tio t)) as [[r x] rq]. apply swp_bind. eapply swp_mono; [by apply on_tty_ok|]. by intros ? w2 ?.
    + apply swp_bind. eapply swp_mono; [by apply on_tty_ok|]. by intros t w' ?.
    + apply swp_bind. eapply swp_mono; [by apply on_tty_ok|]. by intros ? w' ?.
    + apply swp_bind. eapply swp_mono; [by apply on_tty_ok|]. by intros t w' ?.
    + destruct (read_winsize req) as [r rq]. by apply swp_ret.
  - unfold tty_switch. apply swp_bind, swp_gets. destruct ((n <? 0) || (NTTYS <=? n)) eqn:Hn; [by apply swp_ret|]. apply orb_false_iff in Hn as [? ?]. apply swp_when; intros _; [|done]. apply swp_modify. destruct Hw. split; simpl; try done. lia.
Qed.

Lemma run_cons_ok ops w : consoles_ok w → Forall con_ok ops → swp (run_cons ops) w allowed (λ _ w', consoles_ok w').
Proof.
  intros Hw Hops. revert w Hw. induction Hops as [|op ops Hop Hops IH]; intros w Hw; cbn [run_cons]; [by apply swp_ret|]. apply swp_bind. eapply swp_mono; [by apply run_con_ok|]. intros ? w' Hw'. by apply IH.
Qed.

Lemma tty_init_ok screen : consoles_ok (tty_init screen).
Proof.
  split; [done| |done]. unfold tty_init. cbn [ttys]. apply Forall_fmap, Forall_forall. intros n _. unfold compose. split; [reflexivity| | |reflexivity]; cbn; unfold TTY_INPUT_MAX; lia.
Qed.
End consoles.

(** C37: Whatever is typed, read, written and set, on whichever terminals and in
    whatever order, the positions of every input buffer stay inside it and its
    size is the distance between them; nothing in tty.c stops the kernel but a
    signal that cannot be generated and a request that [tty_ioctl] does not
    know.  The screen below, to which the characters go, is that of Screen.v and
    no part of this. *)
Theorem tty_bounds signal_generate {R} (req : R) request_write request_read write_termios read_termios write_winsize read_winsize screen ops :
  Forall con_ok ops →
  match run_cons signal_generate req request_write request_read write_termios read_termios write_winsize read_winsize ops (tty_init screen) with
  | Ok (_, w) => consoles_ok w
  | Panic why => why = "cannot generate signal" ∨ why = "TODO"
  end.
Proof. intros Hops. apply (run_cons_ok signal_generate req request_write request_read write_termios read_termios write_winsize read_winsize ops _ (tty_init_ok screen) Hops). Qed.

(** C36: In canonical mode a line is edited as it is typed and read as a whole:
    [l], what is left of the characters typed after the erase and kill
    characters did their work, and NL are handed to the reader, and nothing is
    left in the buffer.  However much is typed before it, NL finds a place. *)
Theorem tty_line_roundtrip signal_generate {R} (request_write : R → Z → Z * R) s0 typed l req nbytes :
  (∀ p g, signal_generate p g = 0) → (∀ rq c, 0 ≤ (request_write rq c).1) → tty_ok (tty s0) → queue (tty s0) = [] → plain_nl (tty s0) →
  Forall (λ c, c ≠ 0) typed → foldl (edit (tty s0)) [] typed = l → Forall (λ c, is_end (tty s0) c = false) l → Z.of_nat (length l) < nbytes →
  ∃ s', (tty_process_input signal_generate (typed ++ [NL]);; tty_read request_write req nbytes 0) s0 =
      Ok (Done (Z.of_nat (length l) + 1) (handed request_write req (l ++ [NL])), s') ∧ queue (tty s') = [] ∧ tty_ok (tty s').
Proof.
  intros Hsig Hreq Hok Hq Hnl Hnz Hl Hend Hn.
  destruct (swp_run _ _ _ (type_and_read_ok signal_generate no_panic (or_introl Hsig) request_write Hreq s0 typed l req nbytes Hok Hq Hnl Hnz Hl Hend Hn)) as (a & s' & E & -> & Hq' & Hok' & _). by exists s'.
Qed.

(** A terminal with the settings of [tty_init], and a request that keeps what it
    is given. *)
Definition fresh : tst := MkTst (MkTty (replicate 256 0) 0 0 0 false init_termios 0 80 30) [].
Definition keep (rq : list Z) (c : Z) : Z * list Z := (1, rq ++ [c]).

(** "ax", the erase character and "b". *)
Lemma tty_line_roundtrip_witness :
  ∃ s', (tty_process_input (λ _ _, 0) ([97; 120; 8; 98] ++ [NL]);; tty_read keep [] 10 0) fresh = Ok (Done 3 [97; 98; 10], s') ∧ queue (tty s') = [] ∧ tty_ok (tty s').
Proof.
  apply (tty_line_roundtrip (λ _ _, 0) keep fresh [97; 120; 8; 98] [97; 98] [] 10); try (vm_compute; reflexivity); [done| | | |].
  - split; [reflexivity| | |reflexivity]; cbn; unfold TTY_INPUT_MAX; lia.
  - split; vm_compute; repeat split; congruence.
  - repeat (apply Forall_cons_2; [done|]). constructor.
  - repeat (apply Forall_cons_2; [reflexivity|]). constructor.
Defined.

Lemma tty_bounds_witness :
  match run_cons (λ _ _, 0) [] keep (λ rq, (1, 65, rq)) (λ rq _, (0, rq)) (λ rq x, (0, x, rq)) (λ rq _, (0, rq)) (λ rq, (0, rq))
    [CInput 0 [3; 97; 10]; CRead 0 5 0; CWrite 1 2; CIoctl None 256 TIOCSPGRP 7; CSwitch 4] (tty_init (λ _, (80, 30))) with
  | Ok (_, w) => consoles_ok w
  | Panic why => why = "cannot generate signal" ∨ why = "TODO"
  end.
Proof.
  apply tty_bounds. apply Forall_cons_2; [split; [done|repeat (apply Forall_cons_2; [done|]); constructor]|]. repeat (apply Forall_cons_2; [done|]). constructor.
Defined.

End Tty.
