(* ===== verification/Screen.v ===== *)
(** The screen of a terminal (src/kernel/drivers/console/screen.c): characters,
    the cursor and the escape sequences, and what the displays do with it
    (src/kernel/drivers/framebuffer.c, src/kernel/arch/i386/drivers/vga.c).

    The positions are unsigned words, the screen is an array of 2400 cells of
    which the first [cols * rows] are shown.  A call of the display is an event,
    and what the display does to the cells and to its cursor follows; the pixels
    are not modelled.  An access outside the array is a panic, and so is the loop that
    [screen_handle_esc] enters for a sequence it does not know.  A [char] is
    unsigned, as it is on ARM. *)

From S2P Require Import Prelude StateM.
#[local] Open Scope Z_scope.

Module Screen.

(** ** Data *)

Definition SCREEN_ESC_MAX : Z := 16.
Definition SCREEN_COLS_MAX : Z := 80.
Definition SCREEN_ROWS_MAX : Z := 30.
Definition CELLS : Z := SCREEN_COLS_MAX * SCREEN_ROWS_MAX.
Definition DISPLAY_TAB_WIDTH : Z := 4.
Definition COLOR_MASK : Z := 7.
Definition COLOR_BLACK : Z := 0.
Definition COLOR_WHITE : Z := 7.
Definition COLOR_BRIGHT : Z := 8.

Inductive ParserState := PARSER_NORMAL | PARSER_ESC | PARSER_CSI.

Record cell := MkCell { ch : Z; fg : Z; bg : Z }.

Inductive event := DrawChar (i : Z) | UpdateCursor (i : Z) | EraseCells (a b : Z) | ScrollDown (n : Z) | Update.

(** The displays, and the cursor that the framebuffer draws. *)
Inductive display := Framebuffer | Vga.

Record FrameBuffer := MkFb { cursor_pos : Z; cursor_visible : bool }.

Record screen := MkScreen {
  fg_color : Z; bg_color : Z; state : ParserState; esc_params : list Z; esc_cur_param : Z; esc_question : bool;
  buf : list cell; cols : Z; rows : Z; old_pos : Z; new_pos : Z; drawn : list event; fb : FrameBuffer }.
Implicit Types s : screen.

Definition set_colors (f b : Z) s := MkScreen f b (state s) (esc_params s) (esc_cur_param s) (esc_question s) (buf s) (cols s) (rows s) (old_pos s) (new_pos s) (drawn s) (fb s).
Definition set_parser (st : ParserState) (ps : list Z) (n : Z) (q : bool) s := MkScreen (fg_color s) (bg_color s) st ps n q (buf s) (cols s) (rows s) (old_pos s) (new_pos s) (drawn s) (fb s).
Definition set_state (st : ParserState) s := set_parser st (esc_params s) (esc_cur_param s) (esc_question s) s.
Definition set_buf (b : list cell) s := MkScreen (fg_color s) (bg_color s) (state s) (esc_params s) (esc_cur_param s) (esc_question s) b (cols s) (rows s) (old_pos s) (new_pos s) (drawn s) (fb s).
Definition set_pos (o n : Z) s := MkScreen (fg_color s) (bg_color s) (state s) (esc_params s) (esc_cur_param s) (esc_question s) (buf s) (cols s) (rows s) o n (drawn s) (fb s).
Definition add_events (l : list event) s := MkScreen (fg_color s) (bg_color s) (state s) (esc_params s) (esc_cur_param s) (esc_question s) (buf s) (cols s) (rows s) (old_pos s) (new_pos s) (drawn s ++ l) (fb s).
Definition set_fb (x : FrameBuffer) s := MkScreen (fg_color s) (bg_color s) (state s) (esc_params s) (esc_cur_param s) (esc_question s) (buf s) (cols s) (rows s) (old_pos s) (new_pos s) (drawn s) x.

Definition blank : cell := MkCell 32 COLOR_WHITE COLOR_BLACK.
Definition OUTSIDE : string := "access outside the array".
Definition HANGS : string := "endless loop".

Definition cell_at s (i : Z) : option cell := if i <? CELLS then buf s !! Z.to_nat i else None.

(** ** Operations *)

Section ops.
(** [shown]: the display, if the screen is the one of the current terminal. *)
Context (shown : option display).

Definition upd (g : screen → screen) : sm screen unit := modify g.
Definition move (p : Z) : sm screen unit := upd (λ s, set_pos (old_pos s) (u32 p) s).

(** *** The displays *)

(** The display reads a cell of the screen. *)
Definition read_cell (i : Z) : sm screen unit := check (i <? CELLS) OUTSIDE.

Definition set_visible (b : bool) : sm screen unit := upd (λ s, set_fb (MkFb (cursor_pos (fb s)) b) s).

Definition draw_char_at (d : display) (i : Z) : sm screen unit :=
  upd (add_events [DrawChar i]);;
  read_cell i;;
  s ← gets id;
  match d with
  | Framebuffer => when (i =? cursor_pos (fb s)) (set_visible false)
  | Vga => mret tt
  end.

Fixpoint draw_all (d : display) (l : list Z) : sm screen unit :=
  match l with
  | [] => mret tt
  | i :: l => draw_char_at d i;; draw_all d l
  end.

Definition framebuffer_cursor_hide : sm screen unit :=
  s ← gets id;
  when (cursor_visible (fb s)) (read_cell (cursor_pos (fb s));; set_visible false).

Definition framebuffer_cursor_show : sm screen unit :=
  s ← gets id;
  when (negb (cursor_visible (fb s))) (read_cell (cursor_pos (fb s));; set_visible true).

(** The VGA sets a register. *)
Definition update_cursor (d : display) (pos : Z) : sm screen unit :=
  upd (add_events [UpdateCursor pos]);;
  match d with
  | Vga => mret tt
  | Framebuffer =>
      s ← gets id;
      when (negb (cursor_pos (fb s) =? pos)) (
        framebuffer_cursor_hide;;
        upd (λ s, set_fb (MkFb pos (cursor_visible (fb s))) s));;
      framebuffer_cursor_show
  end.

(** The VGA does not look at the cells. *)
Definition display_erase (d : display) (a b : Z) : sm screen unit :=
  upd (add_events [EraseCells a b]);;
  match d with
  | Vga => mret tt
  | Framebuffer =>
      when (a <=? b) (read_cell b);;
      s ← gets id;
      when ((a <=? cursor_pos (fb s)) && (cursor_pos (fb s) <=? b)) (set_visible false)
  end.

Definition scroll_down (d : display) (n : Z) : sm screen unit :=
  upd (add_events [ScrollDown n]);;
  match d with
  | Vga => mret tt
  | Framebuffer =>
      upd (λ s, set_fb (if cursor_pos (fb s) <? cols s * n then MkFb 0 false
                        else MkFb (cursor_pos (fb s) - cols s * n) (cursor_visible (fb s))) s)
  end.

Definition update (d : display) : sm screen unit :=
  upd (add_events [Update]);;
  s ← gets id;
  draw_all d (seqZ 0 (cols s * rows s));;
  match d with
  | Vga => mret tt
  | Framebuffer =>
      upd (λ s, set_fb (MkFb (new_pos s) (cursor_visible (fb s))) s);;
      framebuffer_cursor_show
  end.

(** [if (screen_is_current(screen))] *)
Definition if_shown (f : display → sm screen unit) : sm screen unit :=
  match shown with Some d => f d | None => mret tt end.

(** *** The screen *)

(** The characters between the old and the new position are drawn. *)
Definition screen_flush : sm screen unit :=
  s ← gets id;
  if_shown (λ d,
    draw_all d (if old_pos s <? new_pos s then seqZ (old_pos s) (new_pos s - old_pos s)
                else reverse (seqZ (new_pos s + 1) (old_pos s - new_pos s)));;
    upd (λ s, set_pos (new_pos s) (new_pos s) s);;
    update_cursor d (new_pos s)).

(** The cells from [a] to [b]. *)
Definition fill_cells (a b : Z) (x : cell) : sm screen unit :=
  s ← gets id;
  if b <? a then mret tt else
  check (b <? CELLS) OUTSIDE;;
  upd (set_buf (take (Z.to_nat a) (buf s) ++ replicate (Z.to_nat (b - a + 1)) x ++ drop (Z.to_nat (b + 1)) (buf s))).

(** The memory of the screen is zero or what was in it. *)
Definition screen_init (c r : Z) : sm screen unit :=
  upd (λ s, MkScreen COLOR_WHITE COLOR_BLACK PARSER_NORMAL (esc_params s) (-1) (esc_question s) (buf s) c r 0 0 (drawn s) (fb s));;
  fill_cells 0 (u32 (c * r) - 1) blank.

Definition screen_erase (a b : Z) : sm screen unit :=
  s ← gets id;
  fill_cells a b (MkCell 32 (Z.land (fg_color s) 15) (Z.land (bg_color s) 15));;
  if_shown (λ d, display_erase d a b).

Definition screen_set_char (i c : Z) : sm screen unit :=
  s ← gets id;
  check (i <? CELLS) OUTSIDE;;
  upd (set_buf (<[Z.to_nat i := MkCell (Z.land c 255) (Z.land (fg_color s) 15) (Z.land (bg_color s) 15)]> (buf s))).

(** [screen_set_char(screen, screen->new_pos++, c)] *)
Definition put_char (c : Z) : sm screen unit :=
  s ← gets id;
  move (new_pos s + 1);;
  screen_set_char (new_pos s) c.

(** One row; [new_pos] is past the last cell. *)
Definition screen_scroll_down : sm screen unit :=
  screen_flush;;
  s ← gets id;
  let shownn := Z.to_nat (cols s * rows s) in
  let last := cols s * (rows s - 1) in
  upd (set_buf (drop (Z.to_nat (cols s)) (take shownn (buf s)) ++ replicate (Z.to_nat (cols s)) blank ++ drop shownn (buf s)));;
  move (new_pos s - cols s);;
  if_shown (λ d,
    upd (λ s, set_pos (new_pos s) (new_pos s) s);;
    scroll_down d 1;;
    draw_all d (seqZ last (cols s))).

Definition row s : Z := new_pos s / cols s.
Definition col s : Z := new_pos s mod cols s.

(** The rows are blanked first and copied down then. *)
Definition screen_insert_rows (n : Z) : sm screen unit :=
  s ← gets id;
  let max_rows := u32 (rows s - row s) in
  let n := Z.min max_rows n in
  let start_pos := new_pos s - col s in
  let end_pos := start_pos + n * cols s in
  let count := (max_rows - n) * cols s in
  screen_flush;;
  fill_cells start_pos (end_pos - 1) blank;;
  s ← gets id;
  check (end_pos + count <=? CELLS) OUTSIDE;;
  upd (set_buf (take (Z.to_nat end_pos) (buf s) ++ take (Z.to_nat count) (drop (Z.to_nat start_pos) (buf s)) ++ drop (Z.to_nat (end_pos + count)) (buf s)));;
  screen_flush.

Definition screen_update_cursor : sm screen unit :=
  s ← gets id;
  if_shown (λ d,
    upd (λ s, set_pos (new_pos s) (new_pos s) s);;
    update_cursor d (new_pos s)).

(** Blanks up to the next tab stop. *)
Fixpoint tab_loop (fuel : nat) : sm screen unit :=
  match fuel with
  | O => stop "out of fuel"
  | S fuel =>
      put_char 32;;
      s ← gets id;
      if new_pos s mod DISPLAY_TAB_WIDTH =? 0 then mret tt else tab_loop fuel
  end.

Definition screen_print_char (c : Z) : sm screen unit :=
  s ← gets id;
  (if c =? 10 then
     screen_flush;;
     move (let p := u32 (new_pos s + cols s) in p - p mod cols s);;
     screen_update_cursor
   else if c =? 13 then
     screen_flush;;
     move (new_pos s - col s);;
     screen_update_cursor
   else if c =? 8 then
     when (0 <? new_pos s) (screen_flush;; move (new_pos s - 1);; screen_update_cursor)
   else if c =? 9 then tab_loop (Z.to_nat DISPLAY_TAB_WIDTH)
   else if c =? 7 then mret tt
   else if c <? 32 then put_char 94;; put_char (64 + c)
   else put_char c);;
  s ← gets id;
  when (cols s * rows s <=? new_pos s) screen_scroll_down.

Fixpoint print_chars (l : list Z) : sm screen unit :=
  match l with
  | [] => mret tt
  | c :: l => screen_print_char c;; print_chars l
  end.

(** [sym[d]] *)
Definition hex_digit (d : Z) : Z := if d <? 10 then 48 + d else 55 + d.

Definition screen_dump (c : Z) : sm screen unit :=
  print_chars ([126; 126; 126] ++ ((λ k, hex_digit (Z.land (Z.shiftr c k) 15)) <$> [28; 24; 20; 16; 12; 8; 4; 0]) ++ [10]).

(** A parameter of the sequence, [dflt] when there are not more than [k]. *)
Definition param (k dflt : Z) s : Z := if esc_cur_param s <? k + 1 then dflt else default 0 (esc_params s !! Z.to_nat k).

(** The moves of the cursor look at the count in another way. *)
Definition count_param s : Z := if esc_cur_param s =? 0 then 1 else default 0 (esc_params s !! 0%nat).

(** Insert characters: from the end [m] of the line back to the cursor. *)
Fixpoint insert_loop (fuel : nat) (n m : Z) : sm screen unit :=
  match fuel with
  | O => stop "out of fuel"
  | S fuel =>
      s ← gets id;
      if m <? new_pos s then mret tt else
      (if new_pos s <? m then
         x ← need (cell_at s (u32 (m - n))) OUTSIDE;
         check (m <? CELLS) OUTSIDE;;
         upd (set_buf (<[Z.to_nat m := x]> (buf s)))
       else
         check (m <? CELLS) OUTSIDE;;
         upd (set_buf (<[Z.to_nat m := MkCell 32 (Z.land (fg_color s) 15) (Z.land (bg_color s) 15)]> (buf s))));;
      if_shown (λ d, draw_char_at d m);;
      insert_loop fuel n (u32 (m - 1))
  end.

(** One parameter of "Set Graphic Rendition", on the two colours. *)
Definition rendition (c : Z * Z) (p : Z) : Z * Z :=
  let '(f, b) := c in
  if p =? 0 then (COLOR_WHITE, COLOR_BLACK) else
  if p =? 1 then (Z.lor f COLOR_BRIGHT, b) else
  if (p =? 7) || (p =? 27) then (b, f) else
  if p =? 22 then (Z.land f (Z.lnot COLOR_BRIGHT), b) else
  if p =? 39 then (Z.lor (Z.land f (Z.lnot COLOR_MASK)) COLOR_WHITE, b) else
  if p =? 49 then (f, Z.lor (Z.land b (Z.lnot COLOR_MASK)) COLOR_BLACK) else
  if (30 <=? p) && (p <=? 37) then (Z.lor (Z.land f (Z.lnot COLOR_MASK)) (p - 30), b) else
  if (40 <=? p) && (p <=? 47) then (f, Z.lor (Z.land b (Z.lnot COLOR_MASK)) (p - 40)) else (f, b).

(** Repeat the character before the cursor. *)
Fixpoint repeat_loop (n : nat) : sm screen unit :=
  match n with
  | O => mret tt
  | S n =>
      s ← gets id;
      x ← need (cell_at s (u32 (new_pos s - 1))) OUTSIDE;
      screen_print_char (ch x);;
      repeat_loop n
  end.

Definition handle (c : Z) : sm screen unit :=
  s ← gets id;
  if c =? 65 then move (new_pos s - Z.min (count_param s) (row s) * cols s) else
  if c =? 66 then move (new_pos s + Z.min (count_param s) (u32 (rows s - row s - 1)) * cols s) else
  if c =? 67 then move (new_pos s + Z.min (count_param s) (u32 (cols s - col s - 1))) else
  if c =? 68 then move (new_pos s - Z.min (count_param s) (col s)) else
  if c =? 71 then move (new_pos s - col s + u32 (Z.min (param 0 1 s) (cols s) - 1)) else
  if c =? 72 then move (u32 (Z.min (param 0 1 s) (rows s) - 1) * cols s + Z.min (param 1 1 s) (cols s) - 1) else
  if c =? 74 then
    let n := param 0 0 s in
    if n =? 0 then screen_erase (new_pos s) (cols s * rows s - 1) else
    if n =? 1 then screen_erase 0 (new_pos s) else
    if n =? 2 then screen_erase 0 (cols s * rows s - 1) else mret tt
  else if c =? 75 then
    let n := param 0 0 s in
    let first := new_pos s - col s in
    if n =? 0 then screen_erase (new_pos s) (first + cols s - 1) else
    if n =? 1 then screen_erase first (new_pos s) else
    if n =? 2 then screen_erase first (first + cols s - 1) else mret tt
  else if c =? 76 then screen_insert_rows (param 0 1 s)
  else if c =? 100 then move (u32 (Z.min (param 0 1 s) (rows s) - 1) * cols s + col s)
  else if c =? 64 then
    insert_loop (S (S (Z.to_nat (cols s)))) (Z.min (param 0 1 s) (u32 (cols s - col s))) (new_pos s - col s + cols s - 1)
  else if c =? 109 then
    let '(f, b) := if esc_cur_param s =? 0 then (COLOR_WHITE, COLOR_BLACK)
                   else foldl rendition (fg_color s, bg_color s) (take (Z.to_nat (esc_cur_param s)) (esc_params s)) in
    upd (set_colors f b)
  else if c =? 98 then repeat_loop (Z.to_nat (default 0 (esc_params s !! 0%nat)))
  else if (c =? 110) || (c =? 37) || (c =? 114) || (c =? 104) || (c =? 108) then mret tt
  else screen_dump c;; screen_dump (default 0 (esc_params s !! 0%nat));; stop HANGS.

Definition screen_handle_esc (c : Z) : sm screen unit := screen_flush;; handle c;; screen_flush.

Definition screen_out_char (c : Z) : sm screen unit :=
  s ← gets id;
  match state s with
  | PARSER_NORMAL => if c =? 27 then upd (set_state PARSER_ESC) else screen_print_char c
  | PARSER_ESC =>
      if c =? 91 then upd (set_parser PARSER_CSI (replicate (Z.to_nat SCREEN_ESC_MAX) 0) (-1) false)
      else upd (set_state PARSER_NORMAL)
  | PARSER_CSI =>
      let n := esc_cur_param s in
      if c =? 63 then
        if n =? -1 then upd (set_parser PARSER_CSI (esc_params s) n true) else upd (set_state PARSER_NORMAL)
      else if (48 <=? c) && (c <=? 57) then
        let n := if n =? -1 then 0 else n in
        let ps := if n <? SCREEN_ESC_MAX
                  then <[Z.to_nat n := u32 (default 0 (esc_params s !! Z.to_nat n) * 10 + (c - 48))]> (esc_params s) else esc_params s in
        upd (set_parser PARSER_CSI ps n (esc_question s))
      else
        let n := if n <? SCREEN_ESC_MAX then n + 1 else n in
        upd (set_parser PARSER_CSI (esc_params s) n (esc_question s));;
        if c =? 59 then mret tt else
        screen_handle_esc c;;
        upd (set_state PARSER_NORMAL)
  end.

Fixpoint screen_write (l : list Z) : sm screen unit :=
  match l with
  | [] => screen_flush
  | c :: l => screen_out_char c;; screen_write l
  end.

Definition screen_backspace : sm screen unit :=
  s ← gets id;
  when (0 <? new_pos s) (move (new_pos s - 1);; screen_set_char (new_pos s - 1) 32);;
  screen_out_char 8;;
  screen_flush.

Definition screen_switch (d : display) : sm screen unit :=
  upd (λ s, set_pos (new_pos s) (new_pos s) s);;
  update d.

End ops.

(** ** The invariant *)

Definition printable (x : cell) : Prop := 32 ≤ ch x < 256.

(** All but the position of the cursor, which may be behind the last cell
    shown; what the display reads is in the array. *)
Record wf (shown : option display) s : Prop := {
  wf_buf : Z.of_nat (length (buf s)) = CELLS;
  wf_cells : Forall printable (take (Z.to_nat (cols s * rows s)) (buf s));
  wf_cols : 0 < cols s ∧ cols s mod DISPLAY_TAB_WIDTH = 0;
  wf_rows : 2 ≤ rows s ∧ cols s * rows s ≤ CELLS;
  wf_params : Z.of_nat (length (esc_params s)) = SCREEN_ESC_MAX ∧ Forall (λ p, 0 ≤ p) (esc_params s);
  wf_cur : -1 ≤ esc_cur_param s ≤ SCREEN_ESC_MAX;
  wf_pos : 0 ≤ new_pos s;
  wf_shown : shown ≠ None → 0 ≤ old_pos s < CELLS ∧ new_pos s < CELLS;
  wf_fb : 0 ≤ cursor_pos (fb s) < CELLS }.

Arguments wf_buf {_} _ _.
Arguments wf_cells {_} _ _.
Arguments wf_cols {_} _ _.
Arguments wf_rows {_} _ _.
Arguments wf_params {shown} _ _.
Arguments wf_cur {shown} _ _.
Arguments wf_pos {_} _ _.
Arguments wf_shown {_} _ _ _.
Arguments wf_fb {_} _ _.

Definition screen_ok (shown : option display) s : Prop := wf shown s ∧ new_pos s < cols s * rows s.

Definition same_size s s' : Prop := cols s' = cols s ∧ rows s' = rows s.

(** The two differ in the cells, the colours and the position at most. *)
Definition same_parser s s' : Prop := esc_params s' = esc_params s ∧ esc_cur_param s' = esc_cur_param s ∧ state s' = state s.

Lemma blank_printable x : ch x = 32 → printable x.
Proof. unfold printable. lia. Qed.

(** The first [n] elements of a list, after changes of it. *)
Section prefix.
Context (n : nat) (l : list cell) (Hl : Forall printable (take n l)).

Lemma prefix_insert i x : printable x → Forall printable (take n (<[i := x]> l)).
Proof.
  intros Hx. destruct (decide (n ≤ i)%nat); [by rewrite take_insert_ge|]. rewrite take_insert_lt by lia. by apply Forall_insert.
Qed.

Lemma prefix_take k : Forall printable (take n (take k l)).
Proof. rewrite take_take, Nat.min_comm, <- take_take. by apply Forall_take. Qed.

Lemma prefix_drop m k : (m + k ≤ n ∨ k = 0)%nat → Forall printable (take k (drop m l)).
Proof. intros [H| ->]; [|constructor]. rewrite take_drop_commute. apply Forall_drop. rewrite <- (Nat.min_l (m + k) n), <- take_take by lia. by apply Forall_take. Qed.

Lemma prefix_fill a k x : (a ≤ length l)%nat → printable x → Forall printable (take n (take a l ++ replicate k x ++ drop (a + k) l)).
Proof.
  intros Ha Hx. rewrite !take_app, length_take, length_replicate, Nat.min_l by done. apply Forall_app_2; [apply prefix_take|]. apply Forall_app_2; [by apply Forall_take, Forall_replicate|]. apply prefix_drop. lia.
Qed.

(** [k] elements from [a] on are moved to [b], up to the end of the prefix. *)
Lemma prefix_move a b k : (a ≤ b)%nat → (b + k = n)%nat → (n ≤ length l)%nat → Forall printable (take n (take b l ++ take k (drop a l) ++ drop (b + k) l)).
Proof.
  intros Ha Hb Hn. rewrite !take_app, !length_take, length_drop, !Nat.min_l by lia. apply Forall_app_2; [apply prefix_take|]. apply Forall_app_2; [apply Forall_take, prefix_drop; lia|]. apply prefix_drop. lia.
Qed.

(** The first [c] elements leave, blanks come. *)
Lemma prefix_scroll c x : (c ≤ n ≤ length l)%nat → printable x → Forall printable (take n (drop c (take n l) ++ replicate c x ++ drop n l)).
Proof.
  intros Hc Hx. rewrite !take_app, length_drop, length_take, length_replicate. apply Forall_app_2; [by apply Forall_take, Forall_drop|]. apply Forall_app_2; [by apply Forall_take, Forall_replicate|]. apply prefix_drop. lia.
Qed.

End prefix.

Section proofs.
Context (shown : option display) (E : string → Prop).
Notation wf := (wf shown).
Notation screen_ok := (screen_ok shown).

Lemma upd_pure g s Q : Q tt (g s) → swp (upd g) s E Q.
Proof. intros H. by apply swp_modify. Qed.

Lemma wf_set_pos o n s : wf s → 0 ≤ n → (shown ≠ None → 0 ≤ o < CELLS ∧ n < CELLS) → wf (set_pos o n s).
Proof. intros [] ? ?. by split. Qed.

Lemma wf_events l s : wf s → wf (add_events l s).
Proof. intros []. by split. Qed.

Lemma wf_set_fb x s : wf s → 0 ≤ cursor_pos x < CELLS → wf (set_fb x s).
Proof. intros [] ?. by split. Qed.

Lemma wf_set_buf b s : wf s → length b = length (buf s) → Forall printable (take (Z.to_nat (cols s * rows s)) b) → wf (set_buf b s).
Proof. intros [] Hl ?. split; try done. simpl. by rewrite Hl. Qed.

Lemma wf_set_parser st ps n q s : wf s → Z.of_nat (length ps) = SCREEN_ESC_MAX ∧ Forall (λ p, 0 ≤ p) ps → -1 ≤ n ≤ SCREEN_ESC_MAX → wf (set_parser st ps n q s).
Proof. intros []. by split. Qed.

(** Only the old position, the events and the cursor of the display change. *)
Definition flushed s s' : Prop := wf s' ∧ same_size s s' ∧ same_parser s s' ∧ new_pos s' = new_pos s ∧ buf s' = buf s.

Lemma flushed_refl s : wf s → flushed s s.
Proof. intros. split; [done|by repeat split]. Qed.

Lemma flushed_trans s1 s2 s3 : flushed s1 s2 → flushed s2 s3 → flushed s1 s3.
Proof. intros (_ & [? ?] & (? & ? & ?) & ? & ?) (? & [? ?] & (? & ? & ?) & ? & ?). split; [done|]. split; [split; congruence|]. split; [repeat split; congruence|]. split; congruence. Qed.

Lemma flushed_events l s s' : flushed s s' → flushed s (add_events l s').
Proof. intros (? & ? & ? & ? & ?). split; [by apply wf_events|done]. Qed.

Lemma flushed_fb x s s' : flushed s s' → 0 ≤ cursor_pos x < CELLS → flushed s (set_fb x s').
Proof. intros (? & ? & ? & ? & ?) ?. split; [by apply wf_set_fb|done]. Qed.

Lemma flushed_old s s' : flushed s s' → flushed s (set_pos (new_pos s') (new_pos s') s').
Proof. intros (H & ? & ? & ? & ?). split; [|done]. apply wf_set_pos; [done|apply H|]. intros Hs. pose proof (wf_shown _ H Hs). pose proof (wf_pos _ H). lia. Qed.

Lemma read_cell_ok i s (Q : unit → screen → Prop) : i < CELLS → Q tt s → swp (read_cell i) s E Q.
Proof. intros Hi HQ. apply swp_check; [intros Hb%Z.ltb_ge; lia|done]. Qed.

(** *** The displays read inside the array *)

Lemma draw_char_ok d i s0 s : flushed s0 s → i < CELLS → swp (draw_char_at d i) s E (λ _ s', flushed s0 s').
Proof.
  intros H Hi. apply swp_bind, upd_pure, swp_bind, read_cell_ok; [done|]. apply swp_bind, swp_gets. destruct d; [|by apply swp_ret, flushed_events].
  apply swp_when; intros _; [|by apply flushed_events]. apply upd_pure, flushed_fb; [by apply flushed_events|]. apply (wf_fb _ (proj1 H)).
Qed.

Lemma draw_all_ok d l s0 s : flushed s0 s → Forall (λ i, i < CELLS) l → swp (draw_all d l) s E (λ _ s', flushed s0 s').
Proof.
  intros H Hl. revert s H. induction Hl as [|i l Hi Hl IH]; intros s H; [by apply swp_ret|]. simpl. apply swp_bind. eapply swp_mono; [by apply (draw_char_ok d i s0)|]. intros ? s1 H1. by apply IH.
Qed.

Lemma cursor_hide_ok s0 s : flushed s0 s → swp framebuffer_cursor_hide s E (λ _ s', flushed s0 s').
Proof.
  intros H. pose proof (wf_fb _ (proj1 H)) as Hf. apply swp_bind, swp_gets, swp_when; intros _; [|done]. apply swp_bind, read_cell_ok; [apply Hf|]. by apply upd_pure, flushed_fb.
Qed.

Lemma cursor_show_ok s0 s : flushed s0 s → swp framebuffer_cursor_show s E (λ _ s', flushed s0 s').
Proof.
  intros H. pose proof (wf_fb _ (proj1 H)) as Hf. apply swp_bind, swp_gets, swp_when; intros _; [|done]. apply swp_bind, read_cell_ok; [apply Hf|]. by apply upd_pure, flushed_fb.
Qed.

Lemma update_cursor_ok d pos s0 s : flushed s0 s → 0 ≤ pos < CELLS → swp (update_cursor d pos) s E (λ _ s', flushed s0 s').
Proof.
  intros H Hp. apply swp_bind, upd_pure. apply (flushed_events [UpdateCursor pos]) in H. destruct d; [|by apply swp_ret]. apply swp_bind, swp_gets, swp_bind.
  apply (swp_mono _ _ _ (λ _ s', flushed s0 s')); [|intros _ s1 H1; by apply cursor_show_ok]. apply swp_when; intros _; [|done]. apply swp_bind. eapply swp_mono; [by apply (cursor_hide_ok s0)|]. intros ? s1 H1. by apply upd_pure, flushed_fb.
Qed.

Lemma display_erase_ok d a b s0 s : flushed s0 s → b < CELLS → swp (display_erase d a b) s E (λ _ s', flushed s0 s').
Proof.
  intros H Hb. apply swp_bind, upd_pure. apply (flushed_events [EraseCells a b]) in H. destruct d; [|by apply swp_ret]. apply swp_bind.
  apply (swp_mono _ _ _ (λ _ s', flushed s0 s')); [apply swp_when; intros _; [by apply read_cell_ok|done]|]. intros _ s1 H1. apply swp_bind, swp_gets, swp_when; intros _; [|done]. apply upd_pure, flushed_fb; [done|]. apply (wf_fb _ (proj1 H1)).
Qed.

Lemma display_scroll_ok d s0 s : flushed s0 s → swp (scroll_down d 1) s E (λ _ s', flushed s0 s').
Proof.
  intros H. apply swp_bind, upd_pure. apply (flushed_events [ScrollDown 1]) in H. destruct d; [|by apply swp_ret]. apply upd_pure, flushed_fb; [done|]. pose proof (wf_fb _ (proj1 H)) as Hf. pose proof (wf_cols _ (proj1 H)) as [Hc _]. cbn [fb add_events cols] in *.
  destruct (Z.ltb_spec (cursor_pos (fb s)) (cols s * 1)); cbn [cursor_pos]; [by unfold CELLS|lia].
Qed.

Lemma if_shown_ok f s Q : Q tt s → (∀ d, shown = Some d → swp (f d) s E Q) → swp (if_shown shown f) s E Q.
Proof. intros H Hd. unfold if_shown. destruct shown; [by apply Hd|by apply swp_ret]. Qed.

Lemma flush_ok s : wf s → swp (screen_flush shown) s E (λ _ s', flushed s s').
Proof.
  intros H. unfold screen_flush. apply swp_bind, swp_gets, if_shown_ok; [by apply flushed_refl|]. intros d Hd. unfold id. destruct (wf_shown _ H) as [Ho Hn]; [by rewrite Hd|]. pose proof (wf_pos _ H) as Hp.
  apply swp_bind. eapply swp_mono; [apply (draw_all_ok d _ s); [by apply flushed_refl|]|].
  - case_match; [|apply Forall_reverse]; apply Forall_forall; intros i Hi; apply elem_of_seqZ in Hi; lia.
  - intros ? s1 F1. apply swp_bind, upd_pure. apply update_cursor_ok; [by apply flushed_old|lia].
Qed.

Lemma cursor_ok s : wf s → swp (screen_update_cursor shown) s E (λ _ s', flushed s s').
Proof.
  intros H. unfold screen_update_cursor. apply swp_bind, swp_gets, if_shown_ok; [by apply flushed_refl|]. intros d Hd. unfold id. destruct (wf_shown _ H) as [Ho Hn]; [by rewrite Hd|]. pose proof (wf_pos _ H) as Hp.
  apply swp_bind, upd_pure, update_cursor_ok; [by apply flushed_old, flushed_refl|lia].
Qed.

(** The cursor has moved to [p]. *)
Definition moved (p : Z) s s' : Prop := wf s' ∧ same_size s s' ∧ same_parser s s' ∧ new_pos s' = p.

Lemma flushed_moved s s' : flushed s s' → moved (new_pos s) s s'.
Proof. by intros (? & ? & ? & ? & _). Qed.

Lemma moved_twice p q s1 s2 s3 : moved p s1 s2 → moved q s2 s3 → moved q s1 s3.
Proof. intros (_ & [? ?] & (? & ? & ?) & _) (? & [? ?] & (? & ? & ?) & ?). split; [done|]. split; [split; congruence|]. split; [repeat split; congruence|done]. Qed.

Lemma moved_buf p b s s' : moved p s s' → length b = length (buf s') → Forall printable (take (Z.to_nat (cols s' * rows s')) b) → moved p s (set_buf b s').
Proof. intros (? & ? & ? & ?) ? ?. split; [by apply wf_set_buf|done]. Qed.

Lemma move_ok p s : wf s → 0 ≤ p < 2 ^ 32 → (shown ≠ None → p < CELLS) → swp (move p) s E (λ _ s', moved p s s').
Proof.
  intros H Hp Hs. apply upd_pure. unfold moved. rewrite u32_small by lia. split; [|by repeat split]. apply wf_set_pos; [done|lia|]. intros Hn. pose proof (wf_shown _ H Hn). pose proof (Hs Hn). lia.
Qed.

Lemma put_char_ok c s : wf s → new_pos s < CELLS → (shown ≠ None → new_pos s + 1 < CELLS) → 32 ≤ c < 256 → swp (put_char c) s E (λ _ s', moved (new_pos s + 1) s s').
Proof.
  intros H Hp Hsh Hc. unfold put_char. apply swp_bind, swp_gets, swp_bind. assert (CELLS = 2400) as HC by done. pose proof (wf_pos _ H). eapply swp_mono; [apply move_ok; [done|unfold id; lia|done]|]. intros ? s1 M. pose proof M as (H1 & _).
  unfold screen_set_char. apply swp_bind, swp_gets, swp_bind, swp_check; [unfold id; lia|]. intros _. apply upd_pure. apply moved_buf; [exact M|by rewrite length_insert|]. apply prefix_insert; [apply (wf_cells _ H1)|]. unfold printable. simpl. replace 255 with (Z.ones 8) by done. rewrite Z.land_ones, Z.mod_small by lia. done.
Qed.

Lemma fill_cells_ok a b x s : wf s → 0 ≤ a → b < CELLS → ch x = 32 → swp (fill_cells a b x) s E (λ _ s', moved (new_pos s) s s').
Proof.
  intros H Ha Hb Hx. unfold fill_cells. apply swp_bind, swp_gets. unfold id. destruct (Z.ltb_spec b a); [by apply swp_ret, flushed_moved, flushed_refl|]. apply swp_bind, swp_check; [lia|]. intros _. apply upd_pure.
  pose proof (wf_buf _ H) as Hl. apply moved_buf; [by apply flushed_moved, flushed_refl| |].
  - rewrite !length_app, length_take, length_replicate, length_drop. lia.
  - replace (Z.to_nat (b + 1)) with (Z.to_nat a + Z.to_nat (b - a + 1))%nat by lia. apply prefix_fill; [apply (wf_cells _ H)|lia|by apply blank_printable].
Qed.

Lemma erase_cells_ok a b s : wf s → 0 ≤ a → b < CELLS → swp (screen_erase shown a b) s E (λ _ s', moved (new_pos s) s s').
Proof.
  intros H Ha Hb. unfold screen_erase. apply swp_bind, swp_gets, swp_bind. eapply swp_mono; [by apply fill_cells_ok|]. intros ? s1 M. pose proof M as (H1 & _ & _ & En). apply if_shown_ok; [done|]. intros d _.
  eapply swp_mono; [apply (display_erase_ok d a b s1); [by apply flushed_refl|done]|]. intros ? s2 F%flushed_moved. rewrite En in F. exact (moved_twice _ _ _ _ _ M F).
Qed.

Lemma scroll_ok s : wf s → cols s * rows s ≤ new_pos s < cols s * rows s + cols s → swp (screen_scroll_down shown) s E (λ _ s', moved (new_pos s - cols s) s s').
Proof.
  intros H Hp. unfold screen_scroll_down. apply swp_bind. eapply swp_mono; [by apply flush_ok|]. intros ? s1 F. apply flushed_moved in F. pose proof F as (H1 & [Ec Er] & _ & En).
  apply swp_bind, swp_gets. unfold id. pose proof (wf_cols _ H1) as [Hc _]. pose proof (wf_rows _ H1) as [Hr Hcr]. pose proof (wf_buf _ H1) as Hl. assert (CELLS = 2400) as HC by done.
  assert (H2 : wf (set_buf (drop (Z.to_nat (cols s1)) (take (Z.to_nat (cols s1 * rows s1)) (buf s1)) ++ replicate (Z.to_nat (cols s1)) blank ++ drop (Z.to_nat (cols s1 * rows s1)) (buf s1)) s1)).
  { apply wf_set_buf; [done| |].
    - rewrite !length_app, !length_drop, length_take, length_replicate. nia.
    - apply prefix_scroll; [apply (wf_cells _ H1)|nia|done]. }
  apply swp_bind, upd_pure, swp_bind. eapply swp_mono; [apply move_ok; [exact H2|nia|nia]|]. intros ? s2 M. assert (M2 : moved (new_pos s - cols s) s s2) by (eapply moved_twice; [exact F|]; rewrite <- En, <- Ec; exact M).
  apply if_shown_ok; [done|]. intros d _. pose proof M2 as (Hw2 & _ & _ & En2). assert (F2 : flushed s2 (set_pos (new_pos s2) (new_pos s2) s2)) by by apply flushed_old, flushed_refl.
  apply swp_bind, upd_pure, swp_bind. eapply swp_mono; [by apply (display_scroll_ok d s2)|]. intros ? s3 F3. eapply swp_mono; [apply (draw_all_ok d _ s2); [done|]|].
  - apply Forall_forall. intros i Hi. apply elem_of_seqZ in Hi. nia.
  - intros ? s4 F4%flushed_moved. rewrite En2 in F4. exact (moved_twice _ _ _ _ _ M2 F4).
Qed.

Definition stays s s' : Prop := screen_ok s' ∧ same_size s s' ∧ same_parser s s'.

Lemma moved_stays p s s' : moved p s s' → p < cols s * rows s → stays s s'.
Proof. intros (? & [Ec Er] & ? & Hn) Hp. split; [|done]. split; [done|]. by rewrite Hn, Ec, Er. Qed.

Lemma stays_trans s1 s2 s3 : stays s1 s2 → stays s2 s3 → stays s1 s3.
Proof. intros (_ & [? ?] & (? & ? & ?)) (? & [? ?] & (? & ? & ?)). split; [done|]. split; repeat split; congruence. Qed.

Lemma grid s : wf s → cols s * rows s ≤ 2400 ∧ 0 < cols s ∧ 2 ≤ rows s ∧ new_pos s = cols s * row s + col s ∧ 0 ≤ col s < cols s ∧ 0 ≤ row s ∧ 0 ≤ new_pos s.
Proof.
  intros H. pose proof (wf_cols _ H) as [? _]. pose proof (wf_rows _ H) as [? Hc]. pose proof (wf_pos _ H). unfold row, col. change CELLS with 2400 in Hc.
  pose proof (Z.div_mod (new_pos s) (cols s)). pose proof (Z.mod_pos_bound (new_pos s) (cols s)). pose proof (Z.div_pos (new_pos s) (cols s)). lia.
Qed.

Lemma grid_row s : screen_ok s → row s < rows s.
Proof. intros [H Hp]. apply Z.div_lt_upper_bound; [apply H|done]. Qed.

Lemma tab_ok fuel s : wf s → new_pos s < cols s * rows s → DISPLAY_TAB_WIDTH - new_pos s mod DISPLAY_TAB_WIDTH ≤ Z.of_nat fuel →
  (shown ≠ None → new_pos s - new_pos s mod DISPLAY_TAB_WIDTH + DISPLAY_TAB_WIDTH < CELLS) →
  swp (tab_loop fuel) s E (λ _ s', ∃ p, moved p s s' ∧ new_pos s < p ≤ cols s * rows s).
Proof.
  revert s. induction fuel as [|fuel IH]; intros s H Hp Hf Hsh; unfold DISPLAY_TAB_WIDTH in *; [pose proof (Z.mod_pos_bound (new_pos s) 4); lia|]. simpl.
  pose proof (grid s H) as (Hc & _). pose proof (Z.mod_pos_bound (new_pos s) 4 ltac:(lia)) as Hm4. apply swp_bind. eapply swp_mono; [apply put_char_ok; [done|change CELLS with 2400; lia|intros Hn; specialize (Hsh Hn); lia|lia]|]. intros ? s1 M. pose proof M as (H1 & [Ec Er] & _ & En).
  apply swp_bind, swp_gets. unfold id. destruct (Z.eqb_spec (new_pos s1 mod DISPLAY_TAB_WIDTH) 0) as [E0|E0]; unfold DISPLAY_TAB_WIDTH in E0.
  - apply swp_ret. exists (new_pos s + 1). split; [done|lia].
  - assert (Hd : (cols s * rows s) mod 4 = 0) by (pose proof (wf_cols _ H) as [_ Hm]; unfold DISPLAY_TAB_WIDTH in Hm; by rewrite Z.mul_mod, Hm, Z.mul_0_l by done).
    assert (new_pos s + 1 ≠ cols s * rows s) by (intros E1; rewrite En, E1 in E0; done).
    eapply swp_mono; [apply IH; [done|rewrite Ec, Er; lia|rewrite En in *; clear -E0 Hf; Z.to_euclidean_division_equations; lia|intros Hn; specialize (Hsh Hn); rewrite En in *; clear -E0 Hsh; Z.to_euclidean_division_equations; lia]|]. intros ? s2 (p & M2 & Hb). rewrite Ec, Er, En in Hb. exists p. split; [exact (moved_twice _ _ _ _ _ M M2)|lia].
Qed.

Lemma scrolled p s s1 : moved p s s1 → p < cols s * rows s + cols s →
  swp (s ← gets id; when (cols s * rows s <=? new_pos s) (screen_scroll_down shown)) s1 E (λ _ s', stays s s' ∧ (0 < p → 0 < new_pos s') ∧ new_pos s' ≤ p).
Proof.
  intros M Hp. pose proof M as (H1 & [Ec Er] & _ & En). pose proof (grid s1 H1) as (_ & ? & ? & _). apply swp_bind, swp_gets. unfold id. apply swp_when; intros Hb.
  - apply Z.leb_le in Hb. eapply swp_mono; [apply scroll_ok; [done|rewrite Ec, Er in *; lia]|]. intros ? s2 M2. pose proof M2 as (_ & _ & _ & En2). split; [|rewrite En2; nia].
    eapply moved_stays; [exact (moved_twice _ _ _ _ _ M M2)|]. rewrite En, Ec. lia.
  - apply Z.leb_gt in Hb. split; [|by rewrite En]. eapply moved_stays; [done|]. rewrite Ec, Er, En in Hb. done.
Qed.

(** A flush, a move and the cursor. *)
Lemma goes_ok p s : wf s → 0 ≤ p < 2 ^ 32 → (shown ≠ None → p < CELLS) → swp (screen_flush shown;; move p;; screen_update_cursor shown) s E (λ _ s', moved p s s').
Proof.
  intros H Hp Hsh. apply swp_bind. eapply swp_mono; [by apply flush_ok|]. intros ? s1 F. apply flushed_moved in F. pose proof F as (H1 & _). apply swp_bind. eapply swp_mono; [by apply move_ok|]. intros ? s2 M. pose proof M as (H2 & _ & _ & En).
  eapply swp_mono; [by apply cursor_ok|]. intros ? s3 F3. apply flushed_moved in F3. rewrite En in F3. exact (moved_twice _ _ _ _ _ (moved_twice _ _ _ _ _ F M) F3).
Qed.

(** Where the cursor is after a character, before the screen is scrolled. *)
Definition after_char (c : Z) s : Z :=
  if c =? 10 then new_pos s - col s + cols s else
  if c =? 9 then new_pos s - new_pos s mod DISPLAY_TAB_WIDTH + DISPLAY_TAB_WIDTH else
  if bool_decide (c ∈ [7; 8; 13]) then new_pos s else
  if c <? 32 then new_pos s + 2 else new_pos s + 1.

(** Characters that are printed as two cells may leave the array at its end,
    and the cursor of a screen that is shown must not be behind it. *)
Definition safe_print (c : Z) s : bool :=
  if shown then after_char c s <? CELLS
  else (32 <=? c) || bool_decide (c ∈ [7; 8; 9; 10; 13]) || (new_pos s + 1 <? CELLS).

Lemma safe_print_shown c s : safe_print c s = true → shown ≠ None → after_char c s < CELLS.
Proof. unfold safe_print. destruct shown; [|done]. intros H%Z.ltb_lt _. done. Qed.

Lemma safe_print_control c s : safe_print c s = true → c < 32 → c ∉ [7; 8; 9; 10; 13] → new_pos s + 1 < CELLS.
Proof.
  intros Hs Hc Hn. rewrite !not_elem_of_cons in Hn. unfold safe_print, after_char in Hs. destruct shown.
  - rewrite (proj2 (Z.eqb_neq c 10)), (proj2 (Z.eqb_neq c 9)), bool_decide_eq_false_2, (proj2 (Z.ltb_lt c 32)) in Hs by (set_solver || lia). apply Z.ltb_lt in Hs. lia.
  - rewrite bool_decide_eq_false_2, orb_false_r in Hs by set_solver. rewrite (proj2 (Z.leb_gt 32 c)) in Hs by lia. by apply Z.ltb_lt in Hs.
Qed.

Lemma print_char_ok c s : screen_ok s → 0 ≤ c < 256 → safe_print c s = true →
  swp (screen_print_char shown c) s E (λ _ s', stays s s' ∧ (32 ≤ c → 0 < new_pos s' ≤ new_pos s + 1)).
Proof.
  intros [H Hp] Hc Hs. pose proof (grid s H) as (Hg & Hc0 & Hr & Hn & Hcol & Hrow & Hp0). pose proof (grid_row s (conj H Hp)) as Hrr. assert (HC : CELLS = 2400) by done. unfold screen_print_char. apply swp_bind, swp_gets. unfold id. apply swp_bind.
  apply (swp_mono _ _ _ (λ _ s1, ∃ p, moved p s s1 ∧ p < cols s * rows s + cols s ∧ (32 ≤ c → 0 < p ≤ new_pos s + 1))).
  2:{ intros _ s1 (p & M & Hb & Hpos). eapply swp_mono; [by eapply scrolled|]. intros ? s2 (? & ? & ?). split; [done|]. lia. }
  assert (Hself : moved (new_pos s) s s) by by apply flushed_moved, flushed_refl. pose proof (safe_print_shown c s Hs) as Hsh. unfold after_char in Hsh.
  destruct (Z.eqb_spec c 10).
  { cbv zeta. rewrite u32_small by nia. replace ((new_pos s + cols s) mod cols s) with (col s) by (unfold col; rewrite <- Z.add_mod_idemp_r, Z.mod_same, Z.add_0_r by lia; done).
    eapply swp_mono; [apply goes_ok; [done|nia|intros Hn0; specialize (Hsh Hn0); lia]|]. intros ? s1 M. eexists. split; [exact M|]. nia. }
  destruct (Z.eqb_spec c 13). { eapply swp_mono; [apply goes_ok; [done|nia|nia]|]. intros ? s1 M. eexists. split; [exact M|]. nia. }
  destruct (Z.eqb_spec c 8).
  { apply swp_when; intros Hb; [|exists (new_pos s); split; [done|lia]]. apply Z.ltb_lt in Hb. eapply swp_mono; [apply goes_ok; [done|lia|lia]|]. intros ? s1 M. eexists. split; [exact M|]. lia. }
  destruct (Z.eqb_spec c 9). { eapply swp_mono; [apply tab_ok; [done|done| |exact Hsh]|]. - pose proof (Z.mod_pos_bound (new_pos s) DISPLAY_TAB_WIDTH). unfold DISPLAY_TAB_WIDTH in *. lia. - intros ? s1 (p & M & Hb). exists p. split; [done|lia]. }
  destruct (Z.eqb_spec c 7). { apply swp_ret. exists (new_pos s). split; [done|lia]. }
  rewrite bool_decide_eq_false_2 in Hsh by set_solver. destruct (Z.ltb_spec c 32) as [Hlt|Hge].
  - pose proof (safe_print_control c s Hs Hlt ltac:(set_solver)) as Hlast. apply swp_bind. eapply swp_mono; [apply put_char_ok; [done|lia|lia|lia]|].
    intros ? s1 M. pose proof M as (H1 & _ & _ & En). eapply swp_mono; [apply put_char_ok; [done|lia|intros Hn0; specialize (Hsh Hn0); lia|lia]|]. intros ? s2 M2. exists (new_pos s + 2). rewrite En in M2. replace (new_pos s + 1 + 1) with (new_pos s + 2) in M2 by lia.
    assert (4 ≤ cols s) by (pose proof (wf_cols _ H) as [_ Hm]; unfold DISPLAY_TAB_WIDTH in Hm; apply Z.mod_divide in Hm as [k Hk]; lia). split; [exact (moved_twice _ _ _ _ _ M M2)|lia].
  - eapply swp_mono; [apply put_char_ok; [done|lia|done|lia]|]. intros ? s1 M. exists (new_pos s + 1). split; [done|lia].
Qed.

Lemma cell_at_ok s i : wf s → 0 ≤ i < cols s * rows s → ∃ x, cell_at s i = Some x ∧ printable x.
Proof.
  intros H Hi. pose proof (grid s H) as (Hg & _). unfold cell_at. change CELLS with 2400. rewrite (proj2 (Z.ltb_lt _ _)) by lia. pose proof (wf_buf _ H) as Hl. destruct (lookup_lt_is_Some_2 (buf s) (Z.to_nat i)) as [x Hx]; [change CELLS with 2400 in Hl; lia|].
  exists x. split; [done|]. eapply (Forall_lookup_1 _ _ (Z.to_nat i)); [apply (wf_cells _ H)|]. rewrite lookup_take_lt by lia. done.
Qed.

Lemma insert_rows_ok n s : screen_ok s → 0 ≤ n → swp (screen_insert_rows shown n) s E (λ _ s', stays s s').
Proof.
  intros Hs Hn0. pose proof (grid_row s Hs) as Hrr. destruct Hs as [H Hp]. pose proof (grid s H) as (Hg & Hc0 & Hr & Hn & Hcol & Hrow & Hp0). unfold screen_insert_rows. apply swp_bind, swp_gets. unfold id.
  rewrite (u32_small (rows s - row s)) by nia. cbv zeta. set (k := Z.min (rows s - row s) n). assert (0 ≤ k ≤ rows s - row s) by lia. assert (HC : CELLS = 2400) by done.
  apply swp_bind. eapply swp_mono; [by apply flush_ok|]. intros ? s1 F. apply flushed_moved in F. pose proof F as (H1 & _ & _ & En). apply swp_bind. eapply swp_mono; [apply fill_cells_ok; [done|nia|nia|done]|]. intros ? s2 M. rewrite En in M. pose proof (moved_twice _ _ _ _ _ F M) as M2. pose proof M2 as (H2 & _).
  pose proof (wf_buf _ H2) as Hl. apply swp_bind, swp_gets, swp_bind, swp_check; [intros Hb; apply Z.leb_gt in Hb; nia|]. intros _. apply swp_bind, upd_pure.
  match goal with |- swp _ ?s3 _ _ => assert (M3 : moved (new_pos s) s s3) end.
  { unfold id. apply moved_buf; [done| |].
    - rewrite !length_app, length_take, length_take, !length_drop. nia.
    - pose proof M2 as (_ & [-> ->] & _). rewrite (Z2Nat.inj_add (new_pos s - col s + k * cols s)) by nia. apply prefix_move; [|nia|nia|nia]. pose proof (wf_cells _ H2) as Hc2. pose proof M2 as (_ & [Ec2 Er2] & _). by rewrite Ec2, Er2 in Hc2. }
  pose proof M3 as (H3 & _ & _ & En3). eapply swp_mono; [by apply flush_ok|]. intros ? s4 F4. apply flushed_moved in F4. rewrite En3 in F4. eapply moved_stays; [exact (moved_twice _ _ _ _ _ M3 F4)|done].
Qed.

Lemma insert_loop_ok fuel n m s : wf s → 0 < new_pos s → 0 ≤ n ≤ new_pos s + 1 → new_pos s - 1 ≤ m < cols s * rows s → m - new_pos s + 2 ≤ Z.of_nat fuel →
  swp (insert_loop shown fuel n m) s E (λ _ s', moved (new_pos s) s s').
Proof.
  revert m s. induction fuel as [|fuel IH]; intros m s H Hp Hn Hm Hf; [lia|]. cbn [insert_loop]. assert (HC : CELLS = 2400) by done. pose proof (grid s H) as (Hg & _). apply swp_bind, swp_gets. unfold id.
  destruct (Z.ltb_spec m (new_pos s)); [by apply swp_ret, flushed_moved, flushed_refl|].
  assert (Hrec : ∀ s1, moved (new_pos s) s s1 → swp (if_shown shown (λ d, draw_char_at d m);; insert_loop shown fuel n (u32 (m - 1))) s1 E (λ _ s', moved (new_pos s) s s')).
  { intros s1 M. apply swp_bind. apply (swp_mono _ _ _ (λ _ s2, moved (new_pos s) s s2)).
    { apply if_shown_ok; [done|]. intros d _. pose proof M as (H1 & _ & _ & En). eapply swp_mono; [apply (draw_char_ok d m s1); [by apply flushed_refl|lia]|]. intros ? s2 F%flushed_moved. rewrite En in F. exact (moved_twice _ _ _ _ _ M F). }
    intros ? s2 M2. pose proof M2 as (H2 & [Ec Er] & _ & En). rewrite u32_small by lia.
    eapply swp_mono; [apply IH; [done|rewrite ?Ec, ?Er; lia..]|]. intros ? s3 M3. rewrite En in M3. exact (moved_twice _ _ _ _ _ M2 M3). }
  apply swp_bind. destruct (Z.ltb_spec (new_pos s) m).
  - rewrite u32_small by lia. destruct (cell_at_ok s (m - n) H) as (x & Hx & Hpx); [lia|]. rewrite Hx. apply swp_bind, swp_need; [done|]. intros ? [= <-]. apply swp_bind, swp_check; [lia|]. intros _. apply upd_pure, Hrec, moved_buf; [by apply flushed_moved, flushed_refl|by rewrite length_insert|].
    apply prefix_insert; [apply (wf_cells _ H)|done].
  - apply swp_bind, swp_check; [lia|]. intros _. apply upd_pure, Hrec, moved_buf; [by apply flushed_moved, flushed_refl|by rewrite length_insert|]. apply prefix_insert; [apply (wf_cells _ H)|by apply blank_printable].
Qed.

Lemma repeat_ok n s : screen_ok s → (0 < new_pos s ∨ n = O) → (shown ≠ None → cols s * rows s < CELLS ∨ new_pos s + Z.of_nat n < CELLS) →
  swp (repeat_loop shown n) s E (λ _ s', stays s s').
Proof.
  revert s. induction n as [|n IH]; intros s Hs Hn Hsh; [by apply swp_ret|]. cbn [repeat_loop]. pose proof Hs as [H Hp]. pose proof (grid s H) as (Hg & _). destruct Hn as [Hn|?]; [|done].
  apply swp_bind, swp_gets. unfold id. rewrite u32_small by lia. destruct (cell_at_ok s (new_pos s - 1) H) as (x & Hx & Hpx); [lia|]. rewrite Hx. apply swp_bind, swp_need; [done|]. intros ? [= <-]. unfold printable in Hpx.
  assert (Hsafe : safe_print (ch x) s = true).
  { unfold safe_print, after_char. destruct shown; [|by rewrite (proj2 (Z.leb_le _ _)) by lia]. rewrite (proj2 (Z.eqb_neq (ch x) 10)), (proj2 (Z.eqb_neq (ch x) 9)), bool_decide_eq_false_2, (proj2 (Z.ltb_ge (ch x) 32)) by (rewrite ?elem_of_cons, ?elem_of_nil; lia).
    apply Z.ltb_lt. destruct Hsh as [?|?]; [done|lia|lia]. }
  apply swp_bind. eapply swp_mono; [apply print_char_ok; [done|lia|exact Hsafe]|]. intros ? s1 [S1 Hpos]. pose proof S1 as (H1 & [Ec Er] & _). eapply swp_mono; [apply IH; [done|left; lia|]|].
  - intros Hn0. rewrite Ec, Er. destruct (Hsh Hn0); [by left|right; lia].
  - intros ? s2 S2. exact (stays_trans _ _ _ S1 S2).
Qed.

(** What the final characters need: positions are counted from one, characters
    are inserted within one more than the position, and something is before
    the cursor to repeat. *)
Definition safe_final (c : Z) s : bool :=
  if (c =? 71) || (c =? 100) then 0 <? param 0 1 s else
  if c =? 72 then (0 <? param 0 1 s) && (0 <? param 1 1 s) else
  if c =? 64 then (0 <? new_pos s) && (Z.min (param 0 1 s) (cols s - col s) <=? new_pos s + 1) else
  if c =? 98 then
    let n := default 0 (esc_params s !! 0%nat) in
    (n =? 0) || (0 <? new_pos s) && (if shown then (cols s * rows s <? CELLS) || (new_pos s + n <? CELLS) else true) else
  bool_decide (c ∈ [65; 66; 67; 68; 74; 75; 76; 109; 110; 37; 114; 104; 108]).

Lemma param_at s i : wf s → 0 ≤ default 0 (esc_params s !! i).
Proof. intros H. destruct (esc_params s !! i) as [p|] eqn:Hi; [|done]. pose proof (wf_params _ H) as [_ Hf]. exact (Forall_lookup_1 _ _ _ _ Hf Hi). Qed.

Lemma param_nonneg k d s : wf s → 0 ≤ d → 0 ≤ param k d s.
Proof. intros H Hd. unfold param. case_match; [done|by apply param_at]. Qed.

Lemma count_nonneg s : wf s → 0 ≤ count_param s.
Proof. intros H. unfold count_param. case_match; [done|by apply param_at]. Qed.

Lemma move_in p s : wf s → 0 ≤ p < cols s * rows s → swp (move p) s E (λ _ s', stays s s').
Proof. intros H Hp. pose proof (grid s H) as (? & _). assert (CELLS = 2400) by done. eapply swp_mono; [apply move_ok; [done|lia|lia]|]. intros ? s1 M. eapply moved_stays; [exact M|lia]. Qed.

Lemma erase_in a b s : screen_ok s → 0 ≤ a → b < CELLS → swp (screen_erase shown a b) s E (λ _ s', stays s s').
Proof. intros [H Hp] Ha Hb. eapply swp_mono; [by apply erase_cells_ok|]. intros ? s1 M. eapply moved_stays; [exact M|done]. Qed.

(** A count of cells that is bounded by [b]. *)
Lemma min_nonneg n b : 0 ≤ n → 0 ≤ b → 0 ≤ Z.min n b ≤ b.
Proof. lia. Qed.

Lemma handle_ok c s : screen_ok s → safe_final c s = true → swp (handle shown c) s E (λ _ s', stays s s').
Proof.
  intros Hs Hf. pose proof (grid_row s Hs) as Hrr. pose proof Hs as [H Hp]. pose proof (grid s H) as (Hg & Hc0 & Hr & Hn & Hcol & Hrow & Hp0). pose proof (count_nonneg s H) as Hcn. assert (HC : CELLS = 2400) by done.
  pose proof (param_nonneg 0 1 s H ltac:(lia)) as Hp1. pose proof (param_nonneg 1 1 s H ltac:(lia)) as Hp2. unfold safe_final in Hf. unfold handle. apply swp_bind, swp_gets. unfold id.
  destruct (Z.eqb_spec c 65). { pose proof (min_nonneg _ (row s) Hcn Hrow). apply move_in; [done|nia]. }
  destruct (Z.eqb_spec c 66). { rewrite u32_small by nia. pose proof (min_nonneg _ (rows s - row s - 1) Hcn ltac:(lia)). apply move_in; [done|nia]. }
  destruct (Z.eqb_spec c 67). { rewrite u32_small by nia. pose proof (min_nonneg _ (cols s - col s - 1) Hcn ltac:(lia)). apply move_in; [done|nia]. }
  destruct (Z.eqb_spec c 68). { pose proof (min_nonneg _ (col s) Hcn ltac:(lia)). apply move_in; [done|nia]. }
  destruct (Z.eqb_spec c 71). { apply Z.ltb_lt in Hf. rewrite u32_small by nia. apply move_in; [done|nia]. }
  destruct (Z.eqb_spec c 72); [subst c|]. { apply andb_true_iff in Hf as [Hf1%Z.ltb_lt Hf2%Z.ltb_lt]. rewrite u32_small by nia. apply move_in; [done|nia]. }
  destruct (Z.eqb_spec c 74). { clear Hf. cbv zeta. repeat case_match; first [by apply swp_ret|apply erase_in; [done|lia|lia]]. }
  destruct (Z.eqb_spec c 75). { clear Hf. cbv zeta. repeat case_match; first [by apply swp_ret|apply erase_in; [done|nia|nia]]. }
  destruct (Z.eqb_spec c 76). { by apply insert_rows_ok. }
  destruct (Z.eqb_spec c 100); [subst c|]. { apply Z.ltb_lt in Hf. rewrite u32_small by nia. apply move_in; [done|nia]. }
  destruct (Z.eqb_spec c 64); [subst c|].
  { apply andb_true_iff in Hf as [Hf1%Z.ltb_lt Hf2%Z.leb_le]. rewrite u32_small by nia. eapply swp_mono; [apply insert_loop_ok; [done|done|lia|nia|nia]|]. intros ? s1 M. eapply moved_stays; [exact M|done]. }
  destruct (Z.eqb_spec c 109).
  { destruct (if esc_cur_param s =? 0 then _ else _) as [f b]. apply upd_pure. split; [|by repeat split]. split; [|done]. destruct H. by split. }
  destruct (Z.eqb_spec c 98); [subst c|].
  { pose proof (param_at s 0 H) as Hp0'. cbv zeta in Hf. unfold default, id in *. apply orb_true_iff in Hf as [Hf%Z.eqb_eq|[Hf1%Z.ltb_lt Hf2]%andb_true_iff].
    - rewrite Hf. by apply swp_ret.
    - apply repeat_ok; [done|by left|]. intros Hn0. destruct shown; [|done]. apply orb_true_iff in Hf2 as [?%Z.ltb_lt|?%Z.ltb_lt]; [by left|right; lia]. }
  cbn [orb] in Hf. apply bool_decide_eq_true in Hf. repeat (apply elem_of_cons in Hf as [->|Hf]; [first [done|by apply swp_ret]|]). by apply elem_of_nil in Hf.
Qed.

Lemma handle_esc_ok c s : screen_ok s → safe_final c s = true → swp (screen_handle_esc shown c) s E (λ _ s', stays s s').
Proof.
  intros [H Hp] Hf. unfold screen_handle_esc. apply swp_bind. eapply swp_mono; [by apply flush_ok|]. intros ? s1 F. assert (S1 : stays s s1) by (eapply moved_stays; [by apply flushed_moved|done]). destruct F as (H1 & [Ec Er] & (Ep & Eq & _) & En & Eb).
  apply swp_bind. eapply swp_mono; [apply handle_ok; [apply S1|]|].
  - rewrite <- Hf. unfold safe_final, param, col. by rewrite Ec, Er, Ep, Eq, En.
  - intros ? s2 S2. pose proof S2 as ([H2 Hp2] & _). eapply swp_mono; [by apply flush_ok|]. intros ? s3 F. assert (S3 : stays s2 s3) by (eapply moved_stays; [by apply flushed_moved|done]). exact (stays_trans _ _ _ S1 (stays_trans _ _ _ S2 S3)).
Qed.

(** [esc_cur_param++] *)
Definition next_param (n : Z) : Z := if n <? SCREEN_ESC_MAX then n + 1 else n.

Definition safe (c : Z) s : bool :=
  match state s with
  | PARSER_NORMAL => (c =? 27) || safe_print c s
  | PARSER_ESC => true
  | PARSER_CSI =>
      (c =? 63) || ((48 <=? c) && (c <=? 57)) || (c =? 59)
      || safe_final c (set_parser PARSER_CSI (esc_params s) (next_param (esc_cur_param s)) (esc_question s) s)
  end.

(** The screen is in order and as large as before. *)
Definition kept s s' : Prop := screen_ok s' ∧ same_size s s'.

Lemma parser_kept st ps n q s s' : kept s s' → Z.of_nat (length ps) = SCREEN_ESC_MAX ∧ Forall (λ p, 0 ≤ p) ps → -1 ≤ n ≤ SCREEN_ESC_MAX → kept s (set_parser st ps n q s').
Proof. intros [[H Hp] Hs] Hps Hn. split; [|done]. split; [by apply wf_set_parser|done]. Qed.

Lemma state_kept st s s' : kept s s' → kept s (set_state st s').
Proof. intros H. pose proof H as [[? ?] ?]. apply parser_kept; [done|by apply (wf_params (shown:=shown))|by apply (wf_cur (shown:=shown))]. Qed.

Lemma out_char_ok c s : screen_ok s → 0 ≤ c < 256 → safe c s = true → swp (screen_out_char shown c) s E (λ _ s', kept s s').
Proof.
  intros Hs Hc Hf. assert (K : kept s s) by (split; [exact Hs|by split]). pose proof (wf_params _ (proj1 Hs)) as Hps. pose proof (wf_cur _ (proj1 Hs)) as Hcur. pose proof Hps as [Hlen Hall]. unfold screen_out_char, safe in *. apply swp_bind, swp_gets. unfold id. destruct (state s).
  - destruct (c =? 27); [by apply upd_pure, state_kept|]. eapply swp_mono; [by apply print_char_ok|]. intros ? s1 [(? & ? & ?) _]. done.
  - destruct (c =? 91); [|by apply upd_pure, state_kept]. apply upd_pure, parser_kept; [done|split; [done|by apply Forall_replicate]|done].
  - cbv zeta. unfold SCREEN_ESC_MAX in *. destruct (c =? 63). { case_match; [by apply upd_pure, parser_kept|by apply upd_pure, state_kept]. }
    destruct ((48 <=? c) && (c <=? 57)).
    + apply upd_pure, parser_kept; [done| |destruct (Z.eqb_spec (esc_cur_param s) (-1)); unfold SCREEN_ESC_MAX; lia]. case_match; [|done]. rewrite length_insert. split; [done|]. apply Forall_insert; [done|]. apply Z.mod_pos_bound. done.
    + fold SCREEN_ESC_MAX. fold (next_param (esc_cur_param s)). assert (K1 : kept s (set_parser PARSER_CSI (esc_params s) (next_param (esc_cur_param s)) (esc_question s) s)).
      { apply parser_kept; [done..|]. unfold next_param, SCREEN_ESC_MAX. destruct (Z.ltb_spec (esc_cur_param s) 16); lia. }
      apply swp_bind, upd_pure. destruct (c =? 59); [by apply swp_ret|]. apply swp_bind. eapply swp_mono; [apply handle_esc_ok; [apply K1|exact Hf]|]. intros ? s2 (S2 & Hsz & _). by apply upd_pure, state_kept.
Qed.

End proofs.

(** ** Sequences of characters *)

Section sequences.
Context (shown : option display).
Notation screen_ok := (screen_ok shown).
Notation kept := (kept shown).

(** Each character is safe where it comes. *)
Fixpoint safe_all (l : list Z) s : bool :=
  match l with
  | [] => true
  | c :: l => safe shown c s && match screen_out_char shown c s with Ok (_, s') => safe_all l s' | Panic _ => true end
  end.

(** Text: printed as it is, or one of the control characters with a meaning. *)
Definition plain (c : Z) : Prop := 32 ≤ c < 256 ∨ c ∈ [7; 8; 9; 10; 13].

Definition size_ok (c r : Z) : Prop := 0 < c ∧ c mod DISPLAY_TAB_WIDTH = 0 ∧ 2 ≤ r ∧ c * r ≤ CELLS.

(** There is a cell for the cursor behind the last one, or it is not drawn. *)
Definition roomy (c r : Z) : Prop := shown = None ∨ c * r < CELLS.

(** Memory that can hold a screen. *)
Definition memory s : Prop :=
  Z.of_nat (length (buf s)) = CELLS ∧ Z.of_nat (length (esc_params s)) = SCREEN_ESC_MAX ∧ Forall (λ p, 0 ≤ p) (esc_params s) ∧
  0 ≤ cursor_pos (fb s) < CELLS.

(** A screen right after its start. *)
Definition started (c r : Z) s s' : Prop :=
  screen_ok s' ∧ cols s' = c ∧ rows s' = r ∧ state s' = PARSER_NORMAL ∧ old_pos s' = 0 ∧ new_pos s' = 0 ∧ fg_color s' = COLOR_WHITE ∧ bg_color s' = COLOR_BLACK ∧
  buf s' = replicate (Z.to_nat (c * r)) blank ++ drop (Z.to_nat (c * r)) (buf s).

Lemma screen_init_ok E c r s : size_ok c r → memory s → swp (screen_init c r) s E (λ _ s', started c r s s').
Proof.
  intros (Hc & Hm & Hr & Hcr) (Hb & Hp & Hf & Hfb). assert (HC : CELLS = 2400) by done. unfold screen_init. apply swp_bind, upd_pure. unfold fill_cells. apply swp_bind, swp_gets. rewrite u32_small by nia. rewrite (proj2 (Z.ltb_ge _ _)) by nia.
  apply swp_bind, swp_check; [intros Hlt%Z.ltb_ge; nia|]. intros _. apply upd_pure. replace (c * r - 1 - 0 + 1) with (c * r) by lia. replace (c * r - 1 + 1) with (c * r) by lia.
  split; [|by repeat split]. split; [|change (0 < c * r); nia]. split; [| |done|done|done|done|done|done|done]; unfold id; cbn [buf set_buf cols rows].
  - rewrite !length_app, length_take, length_replicate, length_drop. lia.
  - change (take (Z.to_nat 0) (buf s)) with (@nil cell). rewrite app_nil_l, take_app_length' by (by rewrite length_replicate). by apply Forall_replicate.
Qed.

(** Text never takes the cursor further than behind the last cell shown. *)
Lemma after_plain c s : screen_ok s → plain c → after_char c s ≤ cols s * rows s.
Proof.
  intros Hs Hc. pose proof (grid_row shown s Hs) as Hrr. destruct Hs as [H Hp]. destruct (grid shown s H) as (Hg & Hc0 & Hr & Hn & Hcol & Hrow & Hp0). unfold after_char.
  destruct (Z.eqb_spec c 10); [nia|]. destruct (Z.eqb_spec c 9).
  - pose proof (wf_cols _ H) as [_ Hm]. unfold DISPLAY_TAB_WIDTH in *. assert (Hd : (cols s * rows s) mod 4 = 0) by by rewrite Z.mul_mod, Hm, Z.mul_0_l.
    clear -Hp Hd. generalize dependent (cols s * rows s). intros z. Z.to_euclidean_division_equations; lia.
  - case_bool_decide as Hb; [lia|]. destruct (Z.ltb_spec c 32); [|lia]. exfalso. destruct Hc as [?|Hc]; [lia|]. rewrite !elem_of_cons, elem_of_nil in *. lia.
Qed.

Lemma plain_safe c s : screen_ok s → roomy (cols s) (rows s) → plain c → state s = PARSER_NORMAL → safe shown c s = true.
Proof.
  intros Hok Hr Hc Hs. unfold safe, safe_print. rewrite Hs. pose proof (after_plain c s Hok Hc) as Ha. unfold roomy in Hr. destruct shown.
  - destruct Hr as [?|Hr]; [done|]. rewrite (proj2 (Z.ltb_lt _ CELLS)) by lia. by rewrite orb_true_r.
  - destruct Hc as [Hc|Hc]; [rewrite (proj2 (Z.leb_le 32 c)) by lia|rewrite (bool_decide_eq_true_2 (c ∈ [7; 8; 9; 10; 13])) by done]; by rewrite ?orb_true_r.
Qed.

Lemma plain_normal E c s : screen_ok s → roomy (cols s) (rows s) → plain c → state s = PARSER_NORMAL → swp (screen_out_char shown c) s E (λ _ s', kept s s' ∧ state s' = PARSER_NORMAL).
Proof.
  intros Hs Hr Hc Hn. pose proof (plain_safe c s Hs Hr Hc Hn) as Hf. unfold safe in Hf. rewrite Hn in Hf. unfold screen_out_char. apply swp_bind, swp_gets. unfold id. rewrite Hn.
  assert (Hb : 0 ≤ c < 256 ∧ c ≠ 27) by (destruct Hc as [?|Hc]; [lia|rewrite !elem_of_cons, elem_of_nil in Hc; lia]).
  rewrite (proj2 (Z.eqb_neq c 27)) in * by lia. eapply swp_mono; [apply print_char_ok; [done|lia|exact Hf]|]. intros ? s1 [(? & ? & (_ & _ & Hst)) _]. by rewrite Hst.
Qed.

Lemma screen_write_ok E l s : screen_ok s → Forall (λ c, 0 ≤ c < 256) l → (safe_all l s = true ∨ roomy (cols s) (rows s) ∧ state s = PARSER_NORMAL ∧ Forall plain l) →
  swp (screen_write shown l) s E (λ _ s', kept s s').
Proof.
  revert s. induction l as [|c l IH]; intros s Hs Hl Hf; cbn [screen_write].
  - destruct Hs as [H Hp]. eapply swp_mono; [by apply flush_ok|]. intros ? s1 F%flushed_moved. destruct (moved_stays _ _ _ _ F Hp) as (? & ? & _). done.
  - apply Forall_cons in Hl as [Hc Hl]. apply swp_bind.
    assert (H1 : swp (screen_out_char shown c) s E (λ _ s1, kept s s1 ∧ (safe_all l s1 = true ∨ roomy (cols s1) (rows s1) ∧ state s1 = PARSER_NORMAL ∧ Forall plain l))).
    { destruct Hf as [Hf|(Hr & Hn & [Hp Hf]%Forall_cons)].
      - cbn [safe_all] in Hf. apply andb_true_iff in Hf as [Hf Hr]. pose proof (out_char_ok shown E c s Hs Hc Hf) as H1. unfold swp in *. destruct (screen_out_char shown c s) as [[? s1]|]; auto.
      - eapply swp_mono; [by apply plain_normal|]. intros ? s1 [K Hn1]. split; [done|right]. pose proof K as [_ [-> ->]]. done. }
    eapply swp_mono; [exact H1|]. intros ? s1 [[H2 [Ec Er]] Hf1]. eapply swp_mono; [by apply IH|]. intros ? s2 [H3 [Ec2 Er2]]. split; [done|split; congruence].
Qed.

(** C38: from its start on, a screen of at most 2400 cells takes every
    sequence of characters that are safe where they come: the code returns, no
    access is outside the array, of screen.c or of the display that shows
    the screen, the cursor ends inside the screen and the screen is in order.  It
    takes every text, if it is not shown or smaller than the array, as the
    VGA's 80 x 25 is.  Not safe are only: a character
    that leaves the cursor of a screen that is shown, or a control character that
    is printed as two, behind the array; a position counted from zero; an
    insertion of more than the position plus one characters or at the origin; a
    repetition at the origin or to behind the array; and the sequences
    that are not known. *)
Theorem screen_safe c r s0 : size_ok c r → memory s0 →
  ∃ s1, screen_init c r s0 = Ok (tt, s1) ∧ started c r s0 s1 ∧
    ∀ l, Forall (λ x, 0 ≤ x < 256) l → safe_all l s1 = true ∨ roomy c r ∧ Forall plain l →
      ∃ s', screen_write shown l s1 = Ok (tt, s') ∧ screen_ok s' ∧ cols s' = c ∧ rows s' = r.
Proof.
  intros Hg Hm. pose proof (screen_init_ok no_panic c r s0 Hg Hm) as H1. unfold swp in H1. destruct (screen_init c r s0) as [[[] s1]|]; [|done]. exists s1. split; [done|]. split; [done|]. destruct H1 as (H1 & Ec & Er & Hn & _). intros l Hl Hf.
  assert (H : swp (screen_write shown l) s1 no_panic (λ _ s', kept s1 s')) by (apply screen_write_ok; [done|done|rewrite Ec, Er; naive_solver]).
  unfold swp in H. destruct (screen_write shown l s1) as [[[] s']|]; [|done]. destruct H as [? [Ec' Er']]. exists s'. rewrite Ec', Er'. done.
Qed.

End sequences.

(** A screen in memory that is zero. *)
Definition zeroed : screen :=
  MkScreen 0 0 PARSER_NORMAL (replicate (Z.to_nat SCREEN_ESC_MAX) 0) 0 false (replicate (Z.to_nat CELLS) (MkCell 0 0 0)) 0 0 0 0 [] (MkFb 0 false).

Lemma zeroed_memory : memory zeroed.
Proof. split; [reflexivity|]. split; [reflexivity|]. split; [repeat constructor; lia|]. by split. Qed.

(** "\x1b[2J\x1b[3;5H\x1b[1mhi", a tab and a new line, on the framebuffer. *)
Lemma screen_safe_witness :
  ∃ s1, screen_init 80 30 zeroed = Ok (tt, s1) ∧
    ∃ s', screen_write (Some Framebuffer) [27; 91; 50; 74; 27; 91; 51; 59; 53; 72; 27; 91; 49; 109; 104; 105; 9; 10] s1 = Ok (tt, s') ∧ screen_ok (Some Framebuffer) s' ∧ cols s' = 80 ∧ rows s' = 30.
Proof.
  destruct (screen_safe (Some Framebuffer) 80 30 zeroed) as (s1 & E1 & _ & H); [vm_compute; intuition congruence|exact zeroed_memory|]. exists s1. split; [exact E1|]. apply H; [repeat constructor; lia|]. left.
  vm_compute in E1. injection E1 as <-. vm_compute. reflexivity.
Defined.

(** ** Text is shown *)

Definition char_cell s (c : Z) : cell := MkCell c (Z.land (fg_color s) 15) (Z.land (bg_color s) 15).

(** The screen with the characters of [l] in place, before they are drawn. *)
Definition with_text (l : list Z) s : screen :=
  let p := Z.to_nat (new_pos s) in
  set_buf (take p (buf s) ++ (char_cell s <$> l) ++ drop (p + length l) (buf s)) (set_pos (old_pos s) (new_pos s + Z.of_nat (length l)) s).

Lemma out_printable shown c s : screen_ok shown s → state s = PARSER_NORMAL → 32 ≤ c < 256 → new_pos s + 1 < cols s * rows s →
  screen_out_char shown c s = Ok (tt, set_buf (<[Z.to_nat (new_pos s) := char_cell s c]> (buf s)) (set_pos (old_pos s) (new_pos s + 1) s)).
Proof.
  intros [H Hp] Hn Hc Hr. pose proof (grid shown s H) as (Hg & _ & _ & _ & _ & _ & Hp0). assert (HC : CELLS = 2400) by done.
  unfold screen_out_char, screen_print_char, put_char, screen_set_char, mbind, sm_bind, gets, move, upd, modify, when, check, run, k_assert, id. rewrite Hn.
  assert (∀ k, k < 32 → c =? k = false) as Hk by (intros; apply Z.eqb_neq; lia). rewrite !Hk by lia. rewrite (proj2 (Z.ltb_ge c 32)), u32_small by lia. cbn -[CELLS Z.leb Z.ltb]. rewrite (proj2 (Z.ltb_lt (new_pos s) CELLS)) by lia. cbn -[CELLS Z.leb Z.ltb].
  rewrite (proj2 (Z.leb_gt _ _)) by lia. cbn -[Z.land]. unfold char_cell. do 6 f_equal. change 255 with (Z.ones 8). rewrite Z.land_ones, Z.mod_small by lia. done.
Qed.

Lemma with_text_cons shown c l s : wf shown s → new_pos s < CELLS →
  with_text l (set_buf (<[Z.to_nat (new_pos s) := char_cell s c]> (buf s)) (set_pos (old_pos s) (new_pos s + 1) s)) = with_text (c :: l) s.
Proof.
  intros H Hp. pose proof (wf_pos _ H). pose proof (wf_buf _ H) as Hl. unfold with_text. cbn [new_pos set_buf set_pos buf old_pos length]. replace (Z.to_nat (new_pos s + 1)) with (S (Z.to_nat (new_pos s))) by lia.
  set (p := Z.to_nat (new_pos s)) in *. assert (Hlt : (p < length (buf s))%nat) by lia.
  assert (take (S p) (<[p:=char_cell s c]> (buf s)) = take p (buf s) ++ [char_cell s c]) as ->.
  { rewrite (take_S_r _ _ (char_cell s c)) by (by apply list_lookup_insert_eq). by rewrite take_insert_ge by lia. }
  rewrite drop_insert_lt by lia. rewrite fmap_cons, <- app_assoc. replace (S p + length l)%nat with (p + S (length l))%nat by lia. replace (new_pos s + 1 + Z.of_nat (length l)) with (new_pos s + Z.of_nat (S (length l))) by lia. done.
Qed.

Lemma printable_safe shown c s : screen_ok shown s → state s = PARSER_NORMAL → 32 ≤ c < 256 → new_pos s + 1 < cols s * rows s → safe shown c s = true.
Proof.
  intros [H _] Hn Hc Hr. pose proof (grid shown s H) as (Hg & _). unfold safe, safe_print, after_char. rewrite Hn. destruct shown; [|rewrite (proj2 (Z.leb_le 32 c)) by lia; by rewrite orb_true_r].
  rewrite (proj2 (Z.eqb_neq c 10)), (proj2 (Z.eqb_neq c 9)), bool_decide_eq_false_2, (proj2 (Z.ltb_ge c 32)) by (rewrite ?elem_of_cons, ?elem_of_nil; lia). apply orb_true_iff. right. apply Z.ltb_lt. change CELLS with 2400. lia.
Qed.

Lemma printed_ok shown c s : screen_ok shown s → state s = PARSER_NORMAL → 32 ≤ c < 256 → new_pos s + 1 < cols s * rows s →
  screen_ok shown (set_buf (<[Z.to_nat (new_pos s) := char_cell s c]> (buf s)) (set_pos (old_pos s) (new_pos s + 1) s)).
Proof.
  intros Hs Hn Hc Hr. pose proof (out_char_ok shown no_panic c s Hs ltac:(lia) (printable_safe shown c s Hs Hn Hc Hr)) as Hk. unfold swp in Hk. rewrite out_printable in Hk by done. apply Hk.
Qed.

Lemma write_text shown l s : screen_ok shown s → state s = PARSER_NORMAL → Forall (λ c, 32 ≤ c < 256) l → new_pos s + Z.of_nat (length l) < cols s * rows s →
  screen_write shown l s = screen_flush shown (with_text l s).
Proof.
  revert s. induction l as [|c l IH]; intros s Hs Hn Hl Hr.
  - simpl. f_equal. unfold with_text. simpl. rewrite Z.add_0_r, Nat.add_0_r, take_drop. by destruct s.
  - apply Forall_cons in Hl as [Hc Hl]. simpl in Hr. pose proof Hs as [H Hp]. pose proof (grid shown s H) as (? & _ & _ & _ & _ & _ & Hp0). cbn [screen_write]. unfold mbind, sm_bind. rewrite out_printable by (done || lia).
    pose proof (printed_ok shown c s Hs Hn Hc ltac:(lia)) as Hk.
    rewrite IH; [by rewrite (with_text_cons shown) by (done || change CELLS with 2400; lia)|done|done|done|simpl; lia].
Qed.

Lemma with_text_wf shown l s : screen_ok shown s → Forall (λ c, 32 ≤ c < 256) l → new_pos s + Z.of_nat (length l) < cols s * rows s → state s = PARSER_NORMAL → wf shown (with_text l s).
Proof.
  revert s. induction l as [|c l IH]; intros s Hs Hl Hr Hn.
  - destruct Hs as [H _]. unfold with_text. simpl. rewrite Z.add_0_r, Nat.add_0_r, take_drop. by destruct s.
  - apply Forall_cons in Hl as [Hc Hl]. simpl in Hr. pose proof Hs as [H Hp]. pose proof (grid shown s H) as (? & _ & _ & _ & _ & _ & Hp0). rewrite <- (with_text_cons shown) by (done || change CELLS with 2400; lia). apply IH; [apply printed_ok; [done..|lia]|done|simpl; lia|done].
Qed.

(** Printable characters that fit before the last cell are in the cells
    from the cursor on, in the current colours, no other cell changes, and the
    cursor is behind them. *)
Theorem screen_text shown l s : screen_ok shown s → state s = PARSER_NORMAL → Forall (λ c, 32 ≤ c < 256) l →
  new_pos s + Z.of_nat (length l) < cols s * rows s →
  ∃ s', screen_write shown l s = Ok (tt, s') ∧ wf shown s' ∧ new_pos s' = new_pos s + Z.of_nat (length l) ∧
    (∀ i c, l !! i = Some c → buf s' !! (Z.to_nat (new_pos s) + i)%nat = Some (char_cell s c)) ∧
    (∀ j, (j < Z.to_nat (new_pos s) ∨ Z.to_nat (new_pos s) + length l ≤ j)%nat → buf s' !! j = buf s !! j).
Proof.
  intros Hs Hn Hl Hr. rewrite write_text by done. pose proof (with_text_wf shown l s Hs Hl Hr Hn) as Hw. destruct Hs as [H Hp]. pose proof (wf_buf _ H) as Hb. pose proof (grid shown s H) as (Hg & _ & _ & _ & _ & _ & Hp0). change CELLS with 2400 in Hb.
  destruct (swp_run _ _ _ (flush_ok shown no_panic _ Hw)) as ([] & s' & E' & Hw' & _ & _ & Hnp & Hbuf).
  exists s'. split; [done|]. split; [done|]. split; [done|]. rewrite Hbuf. cbn [with_text buf set_buf]. assert (Ht : length (take (Z.to_nat (new_pos s)) (buf s)) = Z.to_nat (new_pos s)) by (rewrite length_take; lia).
  split.
  - intros i c Hi. rewrite lookup_app_r by lia. rewrite Ht, lookup_app_l by (rewrite length_fmap; apply lookup_lt_Some in Hi; lia). replace (Z.to_nat (new_pos s) + i - Z.to_nat (new_pos s))%nat with i by lia. by rewrite list_lookup_fmap, Hi.
  - intros j [Hj|Hj]; [rewrite lookup_app_l by lia; by apply lookup_take_lt|]. rewrite lookup_app_r by lia. rewrite lookup_app_r by (rewrite length_fmap; lia). rewrite Ht, length_fmap, lookup_drop. f_equal. lia.
Qed.

(** A new screen of 80 x 25. *)
Definition ready : screen := match screen_init 80 25 zeroed with Ok (_, s) => s | Panic _ => zeroed end.

Lemma ready_ok : screen_ok (Some Vga) ready.
Proof.
  assert (Hg : size_ok 80 25) by (vm_compute; intuition congruence). pose proof (screen_init_ok (Some Vga) no_panic 80 25 zeroed Hg zeroed_memory) as H. unfold swp in H. unfold ready. destruct (screen_init 80 25 zeroed) as [[? s]|]; [apply H|done].
Qed.

(** "hello" on a new screen. *)
Lemma screen_text_witness :
  ∃ s', screen_write (Some Vga) [104; 101; 108; 108; 111] ready = Ok (tt, s') ∧ new_pos s' = 0 + Z.of_nat 5.
Proof.
  destruct (screen_text (Some Vga) [104; 101; 108; 108; 111] ready) as (s' & E & _ & H & _); [exact ready_ok|reflexivity|repeat constructor; lia|vm_compute; reflexivity|]. exists s'. split; [exact E|exact H].
Defined.

(** ** What is not safe *)

(** On a screen of 80 x 30: the position 0;0 and a letter, an insertion at the
    origin and a repetition there are accesses outside the array, and so is a
    control character on the last cell; a sequence that is not known is an
    endless loop. *)
Lemma screen_escapes_unsafe :
  (screen_init 80 30;; screen_write None [27; 91; 48; 59; 48; 72; 120]) zeroed = Panic OUTSIDE ∧
  (screen_init 80 30;; screen_write None [27; 91; 64]) zeroed = Panic OUTSIDE ∧
  (screen_init 80 30;; screen_write None [27; 91; 49; 98]) zeroed = Panic OUTSIDE ∧
  (screen_init 80 30;; screen_write None [27; 91; 51; 48; 59; 56; 48; 72; 1]) zeroed = Panic OUTSIDE ∧
  (screen_init 80 30;; screen_write None [27; 91; 83]) zeroed = Panic HANGS.
Proof. vm_compute. repeat split. Qed.

(** On the framebuffer's 80 x 30 a new line on the last row, and a letter on the
    last cell, put the cursor behind the array before the screen is scrolled, and
    the display reads the cell there. *)
Lemma framebuffer_scroll_outside :
  (screen_init 80 30;; screen_write (Some Framebuffer) (replicate 30 10)) zeroed = Panic OUTSIDE ∧
  (screen_init 80 30;; screen_write (Some Framebuffer) [27; 91; 51; 48; 59; 56; 48; 72; 120]) zeroed = Panic OUTSIDE.
Proof. vm_compute. split; reflexivity. Qed.

(** Erasing the second of two letters moves the cursor back to the origin. *)
Lemma backspace_moves_twice :
  match (screen_init 80 30;; screen_write (Some Framebuffer) [97; 98];; screen_backspace (Some Framebuffer)) zeroed with
  | Ok (_, s) => new_pos s = 0 ∧ (ch <$> take 2 (buf s)) = [97; 32]
  | Panic _ => False
  end.
Proof. vm_compute. split; reflexivity. Qed.

(** Inserting a line above two lines leaves blanks: the lines are blanked
    before they are copied. *)
Lemma insert_line_loses :
  match (screen_init 4 3;; screen_write (Some Framebuffer) [97; 13; 10; 98; 27; 91; 72; 27; 91; 76]) zeroed with
  | Ok (_, s) => (ch <$> take 12 (buf s)) = [32; 32; 32; 32; 32; 32; 32; 32; 98; 32; 32; 32]
  | Panic _ => False
  end.
Proof. vm_compute. reflexivity. Qed.

End Screen.
